(* ===== verification/_CoqProject ===== *)
-Q . S2P
Prelude.v
Heap.v
Schema.v
NoPend.v
Resolvers.v
ResolversProofs.v
FinovlpProofs.v
SofotProofs.v
ResolversTheorems.v
Trt.v
TrtProofs.v
TrtOps.v
TrtSearch.v
TrtTheorems.v
Combs.v
CombsProofs.v
CombsTheorems.v
PngTrans.v
CvsBuffer.v
CvsBufferProofs.v
CvsCopyProofs.v
CvsTheorems.v
GzRead.v
GzReadProofs.v
GzStream.v
GzTheorems.v
SchedLoad.v
SchedProofs.v
SchedArith.v
SchedTheorems.v
Dll.v
Memfile.v
MemfileProofs.v
MemfileOps.v
MemfileStore.v
MemfileBlocks.v
MemfileSync.v
MemfileClose.v
MemfileClient.v
MemfileTheorems.v
Slotmem.v
SlotmemProofs.v
SlotmemOps.v
SlotmemLife.v
SlotmemCreate.v
SlotmemTheorems.v
GpUtil.v
GpUtilProofs.v
GpEval.v
GpParse.v
GpSyntax.v
GpExec.v
GpGrammar.v
GpParseProofs.v
GpTheorems.v
GpIter.v
GpIterProofs.v
GpIterTheorems.v
NetBits.v
Access.v
AccessProofs.v
AccessOps.v
AccessTheorems.v
Condition.v
ConditionCheck.v
ConditionProofs.v
ConditionOwn.v
ConditionTheorems.v
