(* ===== verification/Prelude.v ===== *)
(** * Verification of the NoPend repository

    ** The program

    NoPend locates faults: given an oracle that says whether a test case of a
    system with [n] parameters passes, it finds the minimal failure-causing
    combinations of parameter values.  The Java engine is under
    [src/src/main/java/nju/gist]; beside it the repository keeps the C files of
    the programs in which such faults were studied
    ([src/src/main/resources/bugs]), each a single file without the headers and
    modules it belongs to.  The development models the engine's own algorithm
    and, one file at a time, the C files whose logic can be read without the
    rest of their projects.

    ** The parts

    Shared: this file (results, the state monad and its weakest preconditions,
    words of a fixed width, byte buffers), [Heap] (a heap of linked nodes, reads
    and writes through a pointer), [Dll] (doubly linked lists in such a heap,
    through any pair of fields) and [NetBits] (the bits of network addresses).

    The engine:
    - [Schema]: [Common/Comb.java], [Testcase.java], [Schema.java],
      [MutableSchema.java] and [MonotoneSchemaSet.java].  A [BitSet] is a
      [gset nat], a schema set is a list kept in insertion order.
    - [NoPend]: [Tester/Checker.java], the parts of
      [FaultResolver/AbstractFaultResolver.java] that NoPend uses, and
      [FaultResolver/NoPend/NoPend.java] and [NoPendFaultResolver.java].  The
      fields of the resolver and its checker are the record [ResolverState].
    - The resolvers that NoPend is compared with, in the other directories of
      [FaultResolver].  [Resolvers]: [SOFOT], [FINOVLP], [FIC], [FICBS], with
      [MutableComb.java] and [MutableTestcase.java]; a test case that is changed
      while the checker holds it is a reference into the store of [RunState].
      [ResolversProofs] (locating one fault), [FinovlpProofs], [SofotProofs],
      [ResolversTheorems].
    - [Trt]: [NoPend/TRT.java] and [TRTFaultResolver.java], a table with a bit
      per schema.  [TrtProofs] (depth-first search over schemas), [TrtOps]
      (marking), [TrtSearch] (top, bottom and minimal faulty schemas),
      [TrtTheorems].
    - [Combs]: the rest of [Comb.java] and [Testcase.java], [n_choose_k] of
      [Util/Combinatorics.java], [ComFIL] and [IterAIFL].  [CombsProofs],
      [CombsTheorems].

    The C files:
    - [PngTrans]: [libpng/pngtrans.c], the row transformations.
    - [CvsBuffer] (operations), [CvsBufferProofs], [CvsCopyProofs],
      [CvsTheorems]: [cvs/src/buffer.c], chained buffers with their stdio and
      packetizing layers.
    - [GzRead] (operations), [GzReadProofs], [GzStream], [GzTheorems]:
      [firefox/zlib/gzread.c], reading gzip and plain files.
    - [SchedLoad] (operations), [SchedProofs], [SchedArith], [SchedTheorems]:
      [linux/kernel/sched/proc.c], the load averages.
    - [Memfile] (operations), [MemfileProofs] (the linked lists),
      [MemfileOps] (the static functions on abstract lists), [MemfileStore]
      (the invariant of blocks in memory and in the file, [mf_write]),
      [MemfileBlocks] and [MemfileSync] (the calls), [MemfileClose] ([mf_open]
      and [mf_close]), [MemfileClient] (the abstract memory file),
      [MemfileTheorems]: [vim/src/memfile.c], the swap-file blocks of an
      editor.
    - [Slotmem] (operations), [SlotmemProofs] (the slots behind the bytes of a
      segment), [SlotmemOps] (the calls on slots), [SlotmemLife] and
      [SlotmemCreate] (the process's list, files, making and cleaning up),
      [SlotmemTheorems]: [apache/modules/slotmem/mod_slotmem_shm.c], slots in
      shared memory.
    - [GpUtil] (tokens, strings), [GpEval] (values, the stack, action tables),
      [GpParse] (the parser) and [GpIter] (iterations): [gnuplot/src/util.c],
      [eval.c] and [parse.c], the expressions of a plotting language.  [GpSyntax]
      (syntax trees, their code and meaning), [GpExec] (execution computes the
      meaning), [GpGrammar] (the grammar), [GpUtilProofs], [GpParseProofs] (the
      parser follows the grammar), [GpTheorems]; [GpIterProofs],
      [GpIterTheorems].
    - [Access] (operations), [AccessProofs] (the invariant of an access list and
      what it accepts), [AccessOps] (filling it), [AccessTheorems]:
      [cherokee/cherokee/access.c], the access lists of a web server, for every
      choice of its build options.
    - [Condition] (objects), [ConditionCheck] (names and checks),
      [ConditionProofs], [ConditionOwn] (references), [ConditionTheorems]:
      [lighttpd/src/condition.c], the conditions in the configuration of a web
      server.

    In the engine, [NoPend] uses [Schema], and the other resolvers use both:
    the checker, the combinations, the record of what was found, and, in [Trt],
    the longest chain.  FIC and FICBS meet FINOVLP through the class
    [MFCLocator] of what locating a fault promises.  The C parts are separate
    programs that share only the prelude, [Heap], [Dll] and [NetBits].  Each
    operation of a part has the name of the function it translates; a loop of the source is a [Fixpoint]
    beside it.  The state a function reads and writes is threaded through the
    monad [M]; a null pointer is [None]; an access outside an object or through
    a null pointer, an [abort] or a Java exception is [Err], so that a theorem
    that ends in [Ok] says that none of them happens.

    What a file uses from headers or libraries that are not in the repository is
    a class of parameters ([PngH], [CvsEnv], [Zlib], [Kernel], [Vim], [Apr],
    [Doubles], [Gp], [Cherokee], [Lighttpd] and [Combinations]), with what
    is documented about them as a class of laws; the theorem files instantiate
    both with a small concrete system for the examples.

    ** What is proved

    - Engine: [conduct] terminates and reports exactly the minimal faults of
      every failing test; [getMHS] gives exactly the minimal hitting sets;
      [binarySearch] finds the least faulty schema of a chain in a logarithmic
      number of checks; [getLongestChain] finds a longest chain; schema sets stay
      antichains.
    - Other resolvers: each ends, and what it reports is characterised.  ComFIL
      reports exactly the minimal faults, in whatever order its sets are
      iterated, and IterAIFL a combination inside every fault, both for at most
      33 parameters, since with 34 they throw
      ([CombsTheorems.comfil_iteraifl_throw_34]); TRT reports the minimal faults
      for at most 30 parameters, but for a fault of all parameters; FIC and FICBS
      locate a minimal fault within a number of checks, and with FINOVLP report
      the minimal faults when these do not overlap; SOFOT reports what the faults
      of a test have in common.
    - Row transformations: in bounds, pixel by pixel what they promise, and
      involutions or equal to a bit-level reference where they are that.
    - CVS buffers: refinement of byte strings, no node lost or shared, the
      counted and line protocols as reference functions on bytes, a round trip of
      the counted protocol, error paths.
    - gzread: refinement of the decoded stream, push-back, lines, sticky errors,
      termination.
    - Load averages: no task counted twice or lost under every interleaving of
      the atomic steps, range, accuracy and convergence of the averages,
      catching up after idle periods.
    - Memory files: refinement of an abstract store of blocks by every call, on
      doubly linked used and hash lists, a free list and translation lists; a
      block put is the block got after any calls that leave it alone, released,
      written, renumbered or read back on the way; closing gives everything back once.
    - Shared slots: refinement of abstract slots by every session of calls,
      exact count of free slots, exclusive grabs, put and get, the list of a
      process, and a round trip over a restart of the server.
    - Expressions of gnuplot: the parser ends on all tokens, accepts only the
      grammar, and adds the code of the tree it read; executing that code is
      evaluating the tree; together, what a constant expression of a command
      gives.  Iterations are odometers: the command that is repeated finds every
      combination of values once in its variables.
      Escapes and blanks in strings.
    - Access lists: [ip_match] decides by bits; a text adds exactly the network it
      spells; what a refused network leaves behind; the memory of a session.
    - Conditions: what a check decides, opposite operators, membership in networks,
      names read back; counts and owners in every session of a client.
    - Errors the models brought out are theorems too
      ([TrtTheorems.trt_loses_full_fault], the failing tests that were
      executed and that [ResolversTheorems.finovlp_executed_pass] shows replaced
      by passing ones,
      [Schema.setComplement_beyond]; [PngTrans.png_null_arguments],
      [CvsTheorems.buf_copy_counted_dangling_last],
      [GzTheorems.gzungetc_fresh_faults], [SchedTheorems.calc_load_idle_stuck],
      [MemfileTheorems.mf_alloc_failures]; the unchanged count of
      [MemfileTheorems.memfile_open_close]; the counts of
      [SlotmemTheorems.slotmem_persist_first] and [slotmem_reattach_count], the
      list of [slotmem_anonymous_loses]; the level that
      [GpTheorems.Calculator.sum_forgets_level] loses, the empty range that
      [GpIterTheorems.Plots.empty_range_executed] runs; the networks that
      [AccessTheorems.refused_network_admits_all] lets in; the conditions that
      [ConditionTheorems.ip_conditions_error] never decides).

    ** Fuel

    Loops without a structural measure take fuel, and exhausted fuel is
    [Timeout], never a result.  [identify] needs at most
    [2 ^ n + n + 2 ^ n + 1] rounds for [n] parameters ([identify_fuel]): each
    round removes a schema from the ones that are pending or shrinks the
    universe.  [TRT_loop] needs [2 ^ n + 1] rounds for the same reason
    ([TRT_fuel]), and its recursions [n + 1] calls; a FINOVLP run takes a
    parameter per round, and the searches of FICBS halve their range.  A walk through a linked list takes one more step than the heap has
    nodes ([walk_fuel]), and the lists are proved to be free of repetitions;
    [mf_release_all] starts its walk again after every block, hence the square.
    [mf_write] makes at most one round per page between the end of the file and
    the block.  [parse_expression] and its loops share their fuel: two for each
    token that is left and two more ([GpParseProofs.parser_ok]); [execute_loop]
    takes a step per action, since jumps go forward.  The loops of [gzread] take fuel as an argument, and its theorems
    give a bound in the length of the input.  In each case the theorem says that
    a result is returned, not only that a returned result is right.

    ** What is not modelled

    - The resolver Ben, which ranks combinations by numbers of type double and
      draws tests at random, the factory of resolvers, which uses reflection, and
      the Monte Carlo estimate [getPendingCombProportion]; covering-array and CSV
      readers, measuring, output, the experiment driver and the scripts: I/O and
      glue.
    - [stdio_buffer_shutdown] of [cvs/src/buffer.c], which closes connections and
      waits for a child process.
    - Messages to the user and to logs everywhere; memory barriers and the run
      queue's lock in [proc.c]; the parts of [memfile.c] for AMIGA, MSDOS and
      SCO, and its [CHECK] macros; the permissions of a segment and the hooks
      of [mod_slotmem_shm.c]; in the gnuplot files, printing of values and
      errors, the arithmetic trap, and giving tables and iterators back; printing
      an access list.
    - The other C files, most of which need types and functions of their
      projects that the repository does not hold. *)
From Stdlib Require Export ZArith Lia.
From stdpp Require Export prelude gmap sets numbers.
From stdpp Require Export list.
Export list_basics.list list_relations.list list_monad.list list_misc.list.

Set Default Goal Selector "!".

(** ** Results and a state monad

    [Ok] is a normal return, [Err] an exception, an [abort()] or an access
    outside an object, [Timeout] exhausted fuel. *)
Inductive res (E A : Type) : Type :=
| Ok (a : A)
| Err (e : E)
| Timeout.
Arguments Ok {E A} a.
Arguments Err {E A} e.
Arguments Timeout {E A}.

#[export] Instance res_ret {E} : MRet (res E) := fun A a => Ok a.
#[export] Instance res_bind {E} : MBind (res E) := fun A B f m =>
  match m with
  | Ok a => f a
  | Err e => Err e
  | Timeout => Timeout
  end.

Definition M (S E A : Type) : Type := S -> res E (A * S).

#[export] Instance M_ret {S E} : MRet (M S E) := fun A a s => Ok (a, s).
#[export] Instance M_bind {S E} : MBind (M S E) := fun A B f m s =>
  match m s with
  | Ok (a, s') => f a s'
  | Err e => Err e
  | Timeout => Timeout
  end.

Definition lift {S E A} (r : res E A) : M S E A := fun s =>
  match r with
  | Ok a => Ok (a, s)
  | Err e => Err e
  | Timeout => Timeout
  end.
Definition throw {S E A} (e : E) : M S E A := fun _ => Err e.
Definition getS {S E} : M S E S := fun s => Ok (s, s).
Definition putS {S E} (s : S) : M S E unit := fun _ => Ok (tt, s).
Definition modS {S E} (f : S -> S) : M S E unit := fun s => Ok (tt, f s).

Lemma res_bind_ok {E A B} (f : A -> res E B) (a : A) : mbind f (Ok a) = f a.
Proof. done. Qed.

Lemma res_bind_inv {E A B} (f : A -> res E B) (m : res E A) (b : B) :
  mbind f m = Ok b -> exists a, m = Ok a /\ f a = Ok b.
Proof. destruct m; naive_solver. Qed.

Lemma M_bind_eq {S E A B} (f : A -> M S E B) (m : M S E A) (s : S) :
  mbind f m s = match m s with
                | Ok (a, s') => f a s'
                | Err e => Err e
                | Timeout => Timeout
                end.
Proof. done. Qed.

Lemma M_bind_ok {S E A B} (f : A -> M S E B) (m : M S E A) s a s' :
  m s = Ok (a, s') -> mbind f m s = f a s'.
Proof. rewrite M_bind_eq. by intros ->. Qed.

Lemma M_bind_inv {S E A B} (f : A -> M S E B) (m : M S E A) s r :
  mbind f m s = Ok r -> exists a s', m s = Ok (a, s') /\ f a s' = Ok r.
Proof. rewrite M_bind_eq. destruct (m s) as [[a s']| |]; naive_solver. Qed.

(** Run the first command of a sequence, by a tactic that proves what it does. *)
Ltac mstep tac := erewrite M_bind_ok by tac; cbv beta; cbn [fst snd].

(** Take apart every successful bind in the context. *)
Ltac inv_bind :=
  repeat match goal with
  | H : mbind _ _ = Ok _ |- _ =>
      apply res_bind_inv in H as (? & ? & H)
  | H : mbind _ _ _ = Ok _ |- _ =>
      apply M_bind_inv in H as (? & ? & ? & H)
  | H : Ok _ = Ok _ |- _ => injection H; clear H; intros; subst
  end.

(** ** Weakest preconditions: [Q] of the result, [EP] of the error, and the
    program returns *)
Definition wp {S E A} (EP : E -> Prop) (m : M S E A) (Q : A -> S -> Prop) (s : S) : Prop :=
  match m s with Ok (a, s') => Q a s' | Err e => EP e | Timeout => False end.

Section wp.
Context {S E : Type} (EP : E -> Prop).

Lemma wp_bind {A B} (m : M S E A) (f : A -> M S E B) Q s :
  wp EP m (fun a s' => wp EP (f a) Q s') s -> wp EP (mbind f m) Q s.
Proof. unfold wp. rewrite M_bind_eq. by destruct (m s) as [[a s']| |]. Qed.

Lemma wp_ret {A} (a : A) (Q : A -> S -> Prop) s : Q a s -> wp EP (mret a) Q s.
Proof. done. Qed.

Lemma wp_mono {A} (m : M S E A) (Q Q' : A -> S -> Prop) s : wp EP m Q s -> (forall a s', Q a s' -> Q' a s') -> wp EP m Q' s.
Proof. unfold wp. destruct (m s) as [[a s']| |]; auto. Qed.

Lemma wp_getS (Q : S -> S -> Prop) s : Q s s -> wp EP getS Q s.
Proof. done. Qed.

Lemma wp_modS f (Q : unit -> S -> Prop) s : Q tt (f s) -> wp EP (modS f) Q s.
Proof. done. Qed.

Lemma wp_throw {A} e (Q : A -> S -> Prop) s : EP e -> wp EP (throw e) Q s.
Proof. done. Qed.

Lemma wp_eq {A} (m : M S E A) (Q : A -> S -> Prop) s a s' : m s = Ok (a, s') -> Q a s' -> wp EP m Q s.
Proof. unfold wp. by intros ->. Qed.

Lemma wp_eq_bind {A B} (m : M S E A) (f : A -> M S E B) Q s a s' : m s = Ok (a, s') -> wp EP (f a) Q s' -> wp EP (mbind f m) Q s.
Proof. intros Em. unfold wp. by rewrite M_bind_eq, Em. Qed.
End wp.

(** ** Counting by a decidable predicate *)
Lemma filter_length_le {A} (P Q : A -> Prop) `{!forall x, Decision (P x), !forall x, Decision (Q x)}
    (l : list A) :
  (forall x, x ∈ l -> Q x -> P x) -> length (filter Q l) <= length (filter P l).
Proof.
  induction l as [|a l IH]; intros HPQ; [done|].
  rewrite !filter_cons.
  assert (length (filter Q l) <= length (filter P l)) by (apply IH; set_solver).
  destruct (decide (Q a)), (decide (P a)); simpl; [lia| |lia|lia].
  exfalso. set_solver.
Qed.

Lemma filter_length_lt {A} (P Q : A -> Prop) `{!forall x, Decision (P x), !forall x, Decision (Q x)}
    (l : list A) x :
  (forall y, y ∈ l -> Q y -> P y) -> x ∈ l -> P x -> ~ Q x ->
  length (filter Q l) < length (filter P l).
Proof.
  intros HPQ Hx HP HQ. apply list_elem_of_split in Hx as (l1 & l2 & ->).
  rewrite !filter_app, !filter_cons. rewrite (decide_True (P := P x)) by done.
  rewrite (decide_False (P := Q x)) by done. rewrite !length_app. simpl.
  assert (length (filter Q l1) <= length (filter P l1)).
  { apply filter_length_le. set_solver. }
  assert (length (filter Q l2) <= length (filter P l2)).
  { apply filter_length_le. set_solver. }
  lia.
Qed.

(** All subsets of a finite set given by its elements. *)
Fixpoint subsets (l : list nat) : list (gset nat) :=
  match l with
  | [] => [∅]
  | x :: l' => subsets l' ++ ((fun X => {[x]} ∪ X) <$> subsets l')
  end.

Lemma length_subsets l : length (subsets l) = 2 ^ length l.
Proof. induction l as [|x l IH]; simpl; [done|]. rewrite length_app, length_fmap. lia. Qed.

Lemma elem_of_subsets l X : X ⊆ list_to_set l -> X ∈ subsets l.
Proof.
  revert X. induction l as [|x l IH]; intros X HX; simpl.
  { apply list_elem_of_singleton. set_solver. }
  apply elem_of_app. destruct (decide (x ∈ X)) as [Hx|Hx].
  - right. apply list_elem_of_fmap. exists (X ∖ {[x]}). split.
    + apply set_eq. intros y. destruct (decide (y = x)); set_solver.
    + apply IH. set_solver.
  - left. apply IH. set_solver.
Qed.

Lemma not_subseteq_witness (X Y : gset nat) : ~ X ⊆ Y -> exists i, i ∈ X /\ i ∉ Y.
Proof.
  intros Hn. destruct (decide (X ∖ Y = ∅)) as [E|[i Hi]%set_choose_L].
  - exfalso. apply Hn. intros i Hi. destruct (decide (i ∈ Y)); [done|]. set_solver.
  - exists i. set_solver.
Qed.

(** Case analysis on membership in a concrete list. *)
Ltac list_cases H :=
  repeat (apply elem_of_cons in H as [H|H]; [subst|]);
  try (by apply not_elem_of_nil in H).

(** ** C memory: faults, bytes, loads and stores

    An array object is the list of its cells; an access outside it, a null
    dereference, a failed assertion or an [abort()] is an [Err]. *)
Inductive cfault := OutOfBounds | NullDeref | Aborted | AssertFailed.

#[export] Instance cfault_eq_dec : EqDecision cfault.
Proof. solve_decision. Defined.

Definition wrapu (w z : Z) : Z := (z mod 2 ^ w)%Z.
Definition wraps (w z : Z) : Z := ((z + 2 ^ (w - 1)) mod 2 ^ w - 2 ^ (w - 1))%Z.
Abbreviation u8 := (wrapu 8).
Abbreviation u32 := (wrapu 32).

Definition load (i : nat) : M (list Z) cfault Z := fun mem =>
  match mem !! i with
  | Some v => Ok (v, mem)
  | None => Err OutOfBounds
  end.

Definition store (i : nat) (v : Z) : M (list Z) cfault unit := fun mem =>
  if decide (i < length mem) then Ok (tt, <[i := v]> mem) else Err OutOfBounds.

Lemma wrapu_bounds w z : (0 <= w)%Z -> (0 <= wrapu w z < 2 ^ w)%Z.
Proof. intros Hw. apply Z.mod_pos_bound. apply Z.pow_pos_nonneg; lia. Qed.

Lemma wrapu_small w z : (0 <= z < 2 ^ w)%Z -> wrapu w z = z.
Proof. apply Z.mod_small. Qed.

Lemma wraps_small w z : (0 < w)%Z -> (- 2 ^ (w - 1) <= z < 2 ^ (w - 1))%Z -> wraps w z = z.
Proof.
  intros Hw Hz. unfold wraps.
  assert (2 ^ w = 2 * 2 ^ (w - 1))%Z by (rewrite <- Z.pow_succ_r by lia; f_equal; lia).
  rewrite Z.mod_small; lia.
Qed.

Lemma load_app (pre suf : list Z) v : load (length pre) (pre ++ v :: suf) = Ok (v, pre ++ v :: suf).
Proof. unfold load. by rewrite list_lookup_middle. Qed.

Lemma store_app (pre suf : list Z) v w :
  store (length pre) w (pre ++ v :: suf) = Ok (tt, pre ++ w :: suf).
Proof.
  unfold store. rewrite decide_True by (rewrite length_app; simpl; lia).
  by rewrite insert_app_r_alt, Nat.sub_diag by lia.
Qed.

Lemma load_ok mem i v : mem !! i = Some v -> load i mem = Ok (v, mem).
Proof. unfold load. by intros ->. Qed.

Lemma store_ok mem i v : i < length mem -> store i v mem = Ok (tt, <[i := v]> mem).
Proof. intros H. unfold store. by rewrite decide_True. Qed.

(** A load or a store inside the middle part of the memory. *)
Lemma load_mid (pre px suf : list Z) i v :
  px !! i = Some v -> load (length pre + i) (pre ++ px ++ suf) = Ok (v, pre ++ px ++ suf).
Proof.
  intros Hi. apply load_ok. rewrite lookup_app_r by lia.
  replace (length pre + i - length pre) with i by lia.
  by apply lookup_app_l_Some.
Qed.

Lemma store_mid (pre px suf : list Z) i v :
  i < length px ->
  store (length pre + i) v (pre ++ px ++ suf) = Ok (tt, pre ++ <[i := v]> px ++ suf).
Proof.
  intros Hi. rewrite store_ok by (rewrite !length_app; lia).
  rewrite insert_app_r_alt by lia.
  replace (length pre + i - length pre) with i by lia.
  by rewrite insert_app_l.
Qed.

(** A loop whose body rewrites one block of [stride] cells and steps over
    it maps the blocks. *)
Lemma block_loop (stride : nat) (f : list Z -> list Z)
    (body : nat -> M (list Z) cfault unit) (loop : nat -> nat -> M (list Z) cfault unit) :
  (forall rp mem, loop 0 rp mem = Ok (tt, mem)) ->
  (forall n rp mem, loop (S n) rp mem =
     match body rp mem with
     | Ok (_, mem') => loop n (rp + stride) mem'
     | Err e => Err e
     | Timeout => Timeout
     end) ->
  (forall pre px suf, length px = stride ->
     length (f px) = stride /\ body (length pre) (pre ++ px ++ suf) = Ok (tt, pre ++ f px ++ suf)) ->
  forall pxs pre suf, Forall (fun px => length px = stride) pxs ->
    loop (length pxs) (length pre) (pre ++ concat pxs ++ suf) =
      Ok (tt, pre ++ concat (f <$> pxs) ++ suf).
Proof.
  intros H0 HS Hb pxs. induction pxs as [|px pxs IH]; intros pre suf Hall; simpl.
  { apply H0. }
  apply Forall_cons in Hall as [Hpx Hall].
  rewrite HS, <- app_assoc.
  destruct (Hb pre px (concat pxs ++ suf) Hpx) as [Hl ->].
  specialize (IH (pre ++ f px) suf Hall). rewrite length_app, Hl in IH.
  rewrite <- !app_assoc in IH. by rewrite IH, <- app_assoc.
Qed.

Lemma fmap_involutive {A} (P : A -> Prop) (f : A -> A) (l : list A) :
  (forall x, P x -> f (f x) = x) -> Forall P l -> f <$> (f <$> l) = l.
Proof. intros Hf. induction 1; [done|]. by rewrite !fmap_cons, Hf, IHForall. Qed.

(** ** Byte lists indexed by [Z]

    [overwrite] is the text after a [memcpy] at offset [off], [slice] the [n]
    bytes from [off]. *)
Local Open Scope Z_scope.

Definition zlen (l : list Z) : Z := Z.of_nat (length l).
Definition ztake (n : Z) (l : list Z) : list Z := take (Z.to_nat n) l.
Definition zdrop (n : Z) (l : list Z) : list Z := drop (Z.to_nat n) l.

Definition overwrite (t : list Z) (off : Z) (bytes : list Z) : list Z :=
  ztake off t ++ bytes ++ zdrop (off + zlen bytes) t.

Definition slice (off n : Z) (l : list Z) : list Z := ztake n (zdrop off l).

Lemma zlen_nonneg l : 0 <= zlen l.
Proof. unfold zlen. lia. Qed.

Lemma zlen_app l1 l2 : zlen (l1 ++ l2) = zlen l1 + zlen l2.
Proof. unfold zlen. rewrite length_app. lia. Qed.

Lemma zlen_nil : zlen [] = 0.
Proof. done. Qed.

Lemma zlen_cons x l : zlen (x :: l) = 1 + zlen l.
Proof. unfold zlen. simpl. lia. Qed.

Lemma zlen_replicate n x : zlen (replicate n x) = Z.of_nat n.
Proof. unfold zlen. by rewrite length_replicate. Qed.

Lemma zlen_ztake n l : 0 <= n <= zlen l -> zlen (ztake n l) = n.
Proof. unfold zlen, ztake. rewrite length_take. lia. Qed.

Lemma zlen_zdrop n l : 0 <= n <= zlen l -> zlen (zdrop n l) = zlen l - n.
Proof. unfold zlen, zdrop. rewrite length_drop. lia. Qed.

Lemma ztake_zdrop n l : ztake n l ++ zdrop n l = l.
Proof. apply take_drop. Qed.

Lemma ztake_all n l : zlen l <= n -> ztake n l = l.
Proof. unfold zlen, ztake. intros. apply take_ge. lia. Qed.

Lemma zdrop_all n l : zlen l <= n -> zdrop n l = [].
Proof. unfold zlen, zdrop. intros. apply drop_ge. lia. Qed.

Lemma zdrop_zdrop n m l : 0 <= n -> 0 <= m -> zdrop n (zdrop m l) = zdrop (m + n) l.
Proof. unfold zdrop. intros. rewrite drop_drop. f_equal. lia. Qed.

Lemma ztake_app n l1 l2 : zlen l1 = n -> ztake n (l1 ++ l2) = l1.
Proof. unfold zlen, ztake. intros <-. by rewrite Nat2Z.id, take_app_length. Qed.

Lemma zdrop_app n l1 l2 : zlen l1 = n -> zdrop n (l1 ++ l2) = l2.
Proof. unfold zlen, zdrop. intros <-. by rewrite Nat2Z.id, drop_app_length. Qed.

Lemma ztake_0 l : ztake 0 l = [].
Proof. done. Qed.

Lemma zdrop_0 l : zdrop 0 l = l.
Proof. done. Qed.

Lemma zlen_nil_inv l : zlen l = 0 -> l = [].
Proof. destruct l; [done|]. unfold zlen. simpl. lia. Qed.

Lemma ztake_split n m l : 0 <= n -> 0 <= m -> ztake (n + m) l = ztake n l ++ ztake m (zdrop n l).
Proof.
  intros. unfold ztake, zdrop. rewrite Z2Nat.inj_add by done.
  by rewrite take_take_drop.
Qed.

Lemma zlen_overwrite t off d :
  0 <= off -> off + zlen d <= zlen t -> zlen (overwrite t off d) = zlen t.
Proof.
  intros. pose proof (zlen_nonneg d). unfold overwrite.
  rewrite !zlen_app, zlen_ztake, zlen_zdrop; lia.
Qed.

Lemma zlen_slice off n l : 0 <= off -> 0 <= n -> off + n <= zlen l -> zlen (slice off n l) = n.
Proof. intros. unfold slice. rewrite zlen_ztake; rewrite ?zlen_zdrop; lia. Qed.

Lemma slice_split off n m l :
  0 <= off -> 0 <= n -> 0 <= m -> slice off (n + m) l = slice off n l ++ slice (off + n) m l.
Proof. intros. unfold slice. by rewrite ztake_split, zdrop_zdrop. Qed.

Lemma slice_app_mid a b c : slice (zlen a) (zlen b) (a ++ b ++ c) = b.
Proof. unfold slice. by rewrite zdrop_app, ztake_app. Qed.

(** The middle of an overwritten text is what was written; the rest stays. *)
Lemma slice_overwrite t off d :
  0 <= off -> off + zlen d <= zlen t -> slice off (zlen d) (overwrite t off d) = d.
Proof.
  intros. pose proof (zlen_nonneg d). unfold slice, overwrite.
  rewrite zdrop_app by (apply zlen_ztake; lia). by rewrite ztake_app.
Qed.

Lemma slice_overwrite_after t off d o n :
  0 <= off -> off + zlen d <= o -> o <= zlen t -> slice o n (overwrite t off d) = slice o n t.
Proof.
  intros. pose proof (zlen_nonneg d). unfold slice, overwrite. f_equal.
  replace (ztake off t ++ d ++ zdrop (off + zlen d) t)
    with ((ztake off t ++ d) ++ zdrop (off + zlen d) t) by by rewrite app_assoc.
  replace o with (off + zlen d + (o - (off + zlen d))) at 1 by lia.
  rewrite <- zdrop_zdrop by lia.
  rewrite zdrop_app by (rewrite zlen_app, zlen_ztake; lia).
  rewrite zdrop_zdrop by lia. f_equal. lia.
Qed.

Lemma zlen_insert t i v : zlen (<[i:=v]> t) = zlen t.
Proof. unfold zlen. by rewrite length_insert. Qed.

Lemma lookup_ztake n l i : 0 <= n -> ztake n l !! i = (if decide (Z.of_nat i < n) then l !! i else None).
Proof.
  intros. unfold ztake. destruct (decide _).
  - by rewrite lookup_take_lt by lia.
  - by rewrite lookup_take_ge by lia.
Qed.

Lemma lookup_zdrop n l i : 0 <= n -> zdrop n l !! i = l !! Z.to_nat (n + Z.of_nat i).
Proof. intros. unfold zdrop. rewrite lookup_drop. f_equal. lia. Qed.

Lemma lookup_slice off n l i :
  0 <= off -> 0 <= n ->
  slice off n l !! i = (if decide (Z.of_nat i < n) then l !! Z.to_nat (off + Z.of_nat i) else None).
Proof. intros. unfold slice. rewrite lookup_ztake by done. by rewrite lookup_zdrop. Qed.

Lemma lookup_overwrite t off d i :
  0 <= off -> off + zlen d <= zlen t ->
  overwrite t off d !! i =
    (if decide (off <= Z.of_nat i < off + zlen d) then d !! Z.to_nat (Z.of_nat i - off) else t !! i).
Proof.
  unfold zlen. intros. unfold overwrite, ztake, zdrop, zlen. destruct (decide _).
  - rewrite lookup_app_r by (rewrite length_take; lia).
    rewrite lookup_app_l by (rewrite length_take; lia). f_equal. rewrite length_take. lia.
  - destruct (decide (Z.of_nat i < off)).
    + rewrite lookup_app_l by (rewrite length_take; lia). by rewrite lookup_take_lt by lia.
    + rewrite lookup_app_r by (rewrite length_take; lia).
      rewrite lookup_app_r by (rewrite length_take; lia).
      rewrite lookup_drop, length_take. f_equal. lia.
Qed.

Create Rewrite HintDb zlists.
#[export] Hint Rewrite zlen_nil zlen_cons zlen_app zlen_replicate zlen_insert : zlists.
#[export] Hint Rewrite zlen_ztake zlen_zdrop zlen_slice zlen_overwrite using lia : zlists.

(** Linear arithmetic on lengths. *)
Ltac zlia := autorewrite with zlists in *; lia.

(** Loads and stores at a [Z] offset, and the two directions of a byte by byte
    copy inside one array: [n] bytes from [q] to [p] going up, and the [n]
    bytes below [src] to the [n] cells below [dest] going down. *)
Definition zload (i : Z) : M (list Z) cfault Z := if i <? 0 then throw OutOfBounds else load (Z.to_nat i).
Definition zstore (i v : Z) : M (list Z) cfault unit :=
  if i <? 0 then throw OutOfBounds else store (Z.to_nat i) v.

Fixpoint copy_up (n : nat) (p q : Z) : M (list Z) cfault unit :=
  match n with
  | O => mret tt
  | S n' => b ← zload q; zstore p b ;; copy_up n' (p + 1) (q + 1)
  end.

Fixpoint copy_down (n : nat) (dest src : Z) : M (list Z) cfault unit :=
  match n with
  | O => mret tt
  | S n' => b ← zload (src - 1); zstore (dest - 1) b ;; copy_down n' (dest - 1) (src - 1)
  end.

Lemma zload_ok i t : 0 <= i < zlen t -> exists b, t !! Z.to_nat i = Some b /\ zload i t = Ok (b, t).
Proof.
  unfold zlen. intros Hi. destruct (lookup_lt_is_Some_2 t (Z.to_nat i)) as [b Hb]; [lia|].
  exists b. split; [done|]. unfold zload. destruct (Z.ltb_spec i 0); [lia|]. by apply load_ok.
Qed.

Lemma zstore_ok i v t : 0 <= i < zlen t -> zstore i v t = Ok (tt, <[Z.to_nat i := v]> t).
Proof.
  unfold zlen. intros Hi. unfold zstore. destruct (Z.ltb_spec i 0); [lia|]. apply store_ok. lia.
Qed.

Lemma copy_up_ok n p q t :
  0 <= p <= q -> q + Z.of_nat n <= zlen t ->
  copy_up n p q t = Ok (tt, overwrite t p (slice q (Z.of_nat n) t)).
Proof.
  revert p q t. induction n as [|n IH]; intros p q t Hp Hq; cbn [copy_up].
  { unfold overwrite, slice. rewrite ztake_0. simpl. rewrite Z.add_0_r. by rewrite ztake_zdrop. }
  destruct (zload_ok q t) as (b & Hb & E); [lia|]. rewrite M_bind_eq, E.
  rewrite M_bind_eq, zstore_ok by lia. rewrite IH by zlia. do 2 f_equal.
  apply list_eq. intros i.
  rewrite !lookup_overwrite by (rewrite ?zlen_slice; zlia).
  rewrite !zlen_slice by zlia. rewrite !lookup_slice by lia.
  destruct (decide (i = Z.to_nat p)) as [->|].
  - rewrite (decide_False (P := _ <= _ < _)) by lia. rewrite decide_True by lia.
    rewrite decide_True by lia. rewrite list_lookup_insert_eq by (unfold zlen in *; lia).
    rewrite <- Hb. f_equal. lia.
  - repeat case_decide; try lia.
    + rewrite list_lookup_insert_ne by lia. f_equal. lia.
    + by rewrite list_lookup_insert_ne by lia.
Qed.

Lemma copy_down_ok n dest src t :
  Z.of_nat n <= src <= dest -> dest <= zlen t ->
  copy_down n dest src t = Ok (tt, overwrite t (dest - Z.of_nat n) (slice (src - Z.of_nat n) (Z.of_nat n) t)).
Proof.
  revert dest src t. induction n as [|n IH]; intros dest src t Hp Hq; cbn [copy_down].
  { unfold overwrite, slice. rewrite ztake_0. simpl. rewrite Z.add_0_r. by rewrite ztake_zdrop. }
  destruct (zload_ok (src - 1) t) as (b & Hb & E); [lia|]. rewrite M_bind_eq, E.
  rewrite M_bind_eq, zstore_ok by lia. rewrite IH by zlia. do 2 f_equal.
  apply list_eq. intros i.
  rewrite !lookup_overwrite by (rewrite ?zlen_slice; zlia).
  rewrite !zlen_slice by zlia. rewrite !lookup_slice by lia.
  destruct (decide (i = Z.to_nat (dest - 1))) as [->|].
  - rewrite (decide_False (P := _ <= _ < _)) by lia. rewrite decide_True by lia.
    rewrite decide_True by lia. rewrite list_lookup_insert_eq by (unfold zlen in *; lia).
    rewrite <- Hb. f_equal. lia.
  - repeat case_decide; try lia.
    + rewrite list_lookup_insert_ne by lia. f_equal. lia.
    + by rewrite list_lookup_insert_ne by lia.
Qed.

(** ** Sums *)
Definition sumZ (l : list Z) : Z := foldr Z.add 0 l.
#[global] Arguments sumZ : simpl never.

Lemma sumZ_app l1 l2 : sumZ (l1 ++ l2) = sumZ l1 + sumZ l2.
Proof. unfold sumZ. induction l1; simpl; [done|]. lia. Qed.

Lemma sumZ_insert l i x y : l !! i = Some x -> sumZ (<[i := y]> l) = sumZ l - x + y.
Proof.
  intros Hi. rewrite insert_take_drop by by eapply lookup_lt_Some.
  rewrite <- (take_drop_middle l i x Hi) at 3. rewrite !sumZ_app. unfold sumZ. simpl. lia.
Qed.

Lemma sumZ_cons x l : sumZ (x :: l) = x + sumZ l.
Proof. done. Qed.

Lemma alter_sum (f : Z -> Z) l i x : l !! i = Some x -> sumZ (alter f i l) = sumZ l - x + f x.
Proof.
  intros Hi. rewrite <- (sumZ_insert l i x (f x)) by done. f_equal. apply list_eq. intros j.
  rewrite list_lookup_alter. destruct (decide (i = j)) as [<-|].
  - rewrite Hi, list_lookup_insert_eq; [done|by eapply lookup_lt_Some].
  - by rewrite list_lookup_insert_ne.
Qed.

Lemma wraps_add w x y : 0 < w -> wraps w (wraps w x + y) = wraps w (x + y).
Proof.
  intros Hw. unfold wraps. f_equal.
  replace ((x + 2 ^ (w - 1)) mod 2 ^ w - 2 ^ (w - 1) + y + 2 ^ (w - 1))
    with ((x + 2 ^ (w - 1)) mod 2 ^ w + y) by lia.
  rewrite Zplus_mod_idemp_l. f_equal. lia.
Qed.
