(* ===== verification/Heap.v ===== *)
(** * A heap of linked nodes

    Shared by the components whose C code links records through pointers.
    The heap maps locations to nodes; a component's state holds one (class
    [Store]), [deref] and [assign] are the reads and writes through a
    pointer.  [owns h R] says that the heap is exactly the nodes of [R], in
    any order: a proof reads and updates one element of [R] and all others
    are untouched, so that a lemma about one chain frames every other chain.
    [linked] says that a list of nodes is a chain by its link fields. *)
From S2P Require Import Prelude.
From stdpp Require Export list_tactics.

Abbreviation loc := nat.

Class Store (S V : Type) := {
  the_heap : S -> gmap loc V;
  with_heap : gmap loc V -> S -> S
}.

Class StoreLaws (S V : Type) `{Store S V} : Prop := {
  the_with_heap h s : the_heap (with_heap h s) = h;
  with_with_heap h h' s : with_heap h (with_heap h' s) = with_heap h s
}.

(** ** Reads and writes *)
Section access.
Context {S V : Type} `{Store S V}.

Definition deref (p : option loc) : M S cfault (loc * V) := fun s =>
  match p with
  | None => Err NullDeref
  | Some l => match the_heap s !! l with
              | None => Err OutOfBounds
              | Some nd => Ok ((l, nd), s)
              end
  end.

Definition upd (l : loc) (nd : V) (s : S) : S := with_heap (<[l := nd]> (the_heap s)) s.

Definition assign (p : option loc) (f : V -> V) : M S cfault unit :=
  x ← deref p; modS (upd x.1 (f x.2)).

(** A location that is not in the heap. *)
Definition new_loc (h : gmap loc V) : loc :=
  Datatypes.S (foldr Nat.max 0 (fst <$> map_to_list h)).

(** Fuel for a walk along a chain: one step per node of the heap and one for
    the null pointer. *)
Definition walk_fuel : M S cfault nat := s ← getS; mret (Datatypes.S (size (the_heap s))).
End access.

Lemma new_loc_fresh {V} (h : gmap loc V) : h !! new_loc h = None.
Proof.
  destruct (h !! new_loc h) as [v|] eqn:E; [exfalso|done].
  apply elem_of_map_to_list in E.
  assert (Hall : forall (l : list (loc * V)) x, x ∈ l -> x.1 <= foldr Nat.max 0 (fst <$> l)).
  { intros l x. induction l as [|y l IH]; intros Hx; [by apply elem_of_nil in Hx|].
    rewrite fmap_cons. apply elem_of_cons in Hx as [->|Hx]; simpl; [lia|].
    specialize (IH Hx). lia. }
  specialize (Hall _ _ E). simpl in Hall. unfold new_loc in Hall. lia.
Qed.

Lemma Forall_perm {A} (P : A -> Prop) (l l' : list A) : l ≡ₚ l' -> Forall P l -> Forall P l'.
Proof. by intros ->. Qed.

(** ** Ownership *)
Section owns.
Context {V : Type}.
Implicit Types (h : gmap loc V) (R : list (loc * V)).

Definition owns h R : Prop := map_to_list h ≡ₚ R.

#[export] Instance owns_proper h : Proper ((≡ₚ) ==> iff) (owns h).
Proof. intros R R' E. unfold owns. by rewrite E. Qed.

Lemma owns_perm h R R' : owns h R -> R ≡ₚ R' -> owns h R'.
Proof. by intros HR <-. Qed.

Lemma owns_lookup h R l nd : owns h R -> (l, nd) ∈ R -> h !! l = Some nd.
Proof. intros HR Hin. apply elem_of_map_to_list. by rewrite HR. Qed.

Lemma owns_NoDup h R : owns h R -> NoDup R.*1.
Proof. intros HR. rewrite <- HR. apply NoDup_fst_map_to_list. Qed.

Lemma owns_inj h R l nd nd' : owns h R -> (l, nd) ∈ R -> (l, nd') ∈ R -> nd = nd'.
Proof.
  intros HR H1 H2. apply (owns_lookup _ _ _ _ HR) in H1, H2. congruence.
Qed.

Lemma owns_size h R : owns h R -> size h = length R.
Proof. intros HR. rewrite <- length_map_to_list. by rewrite HR. Qed.

Lemma owns_alloc h R l nd : owns h R -> h !! l = None -> owns (<[l := nd]> h) ((l, nd) :: R).
Proof. intros HR Hl. unfold owns. rewrite map_to_list_insert by done. by rewrite HR. Qed.

Lemma owns_delete h R l nd : owns h ((l, nd) :: R) -> owns (delete l h) R.
Proof.
  intros HR. unfold owns. apply (Permutation_cons_inv (a := (l, nd))).
  rewrite map_to_list_delete; [done|]. eapply owns_lookup; [done|]. apply list_elem_of_here.
Qed.

Lemma owns_upd h R l nd nd' : owns h ((l, nd) :: R) -> owns (<[l := nd']> h) ((l, nd') :: R).
Proof.
  intros HR. rewrite <- insert_delete_eq.
  apply owns_alloc; [by eapply owns_delete|]. apply lookup_delete_eq.
Qed.

Lemma owns_fresh h R l : owns h R -> h !! l = None -> l ∉ R.*1.
Proof.
  intros HR Hl [[k nd] [-> Hin]]%list_elem_of_fmap. simpl in Hl.
  apply (owns_lookup _ _ _ _ HR) in Hin. congruence.
Qed.
End owns.

(** ** Chains *)
Section linked.
Context {V : Type} (nxt : V -> option loc).

Fixpoint linked (p : option loc) (xs : list (loc * V)) (q : option loc) : Prop :=
  match xs with
  | [] => p = q
  | (l, nd) :: xs' => p = Some l /\ linked (nxt nd) xs' q
  end.

Lemma linked_app p xs ys q :
  linked p (xs ++ ys) q <-> exists r, linked p xs r /\ linked r ys q.
Proof.
  revert p. induction xs as [|[l nd] xs IH]; intros p; simpl; [naive_solver|].
  setoid_rewrite IH. naive_solver.
Qed.

Lemma linked_snoc p xs l nd q :
  linked p (xs ++ [(l, nd)]) q <-> linked p xs (Some l) /\ nxt nd = q.
Proof. rewrite linked_app. simpl. naive_solver. Qed.

Lemma linked_nil_inv p xs : linked None xs p -> xs = [] /\ p = None.
Proof. destruct xs as [|[l nd] xs]; simpl; naive_solver. Qed.

Lemma linked_None_inv p xs : linked p xs None -> p = None <-> xs = [].
Proof. destruct xs as [|[l nd] xs]; simpl; naive_solver. Qed.

Lemma linked_det p xs ys q :
  linked p xs q -> linked p ys q -> q = None ->
  (forall x y, x ∈ xs -> y ∈ ys -> x.1 = y.1 -> x.2 = y.2) -> xs = ys.
Proof.
  revert p ys. induction xs as [|[l nd] xs IH]; intros p [|[l' nd'] ys]; simpl; try naive_solver.
  intros [-> H1] [[= <-] H2] -> Hag.
  assert (nd = nd') as <- by (apply (Hag (l, nd) (l, nd')); [set_solver..|done]).
  f_equal. eapply IH; eauto. intros x y Hx Hy. apply Hag; set_solver.
Qed.
End linked.
Arguments linked {V} nxt p xs q : simpl nomatch.

(** ** The access lemmas *)
Section laws.
Context {S V : Type} `{StoreLaws S V}.

Lemma deref_ok (s : S) (R : list (loc * V)) l nd :
  owns (the_heap s) R -> (l, nd) ∈ R -> deref (Some l) s = Ok ((l, nd), s).
Proof. intros HR Hin. unfold deref. by rewrite (owns_lookup _ _ _ _ HR Hin). Qed.

Lemma assign_ok (s : S) (R : list (loc * V)) l nd f :
  owns (the_heap s) R -> (l, nd) ∈ R -> assign (Some l) f s = Ok (tt, upd l (f nd) s).
Proof. intros HR Hin. unfold assign. by erewrite M_bind_ok by (by eapply deref_ok). Qed.

Lemma upd_owns (s : S) l nd nd' (R : list (loc * V)) :
  owns (the_heap s) ((l, nd) :: R) -> owns (the_heap (upd l nd' s)) ((l, nd') :: R).
Proof. intros HR. unfold upd. rewrite the_with_heap. by eapply owns_upd. Qed.

Lemma upd_upd (s : S) l (nd nd' : V) : upd l nd (upd l nd' s) = upd l nd s.
Proof. unfold upd. by rewrite the_with_heap, with_with_heap, insert_insert_eq. Qed.

Lemma walk_fuel_ok (s : S) (R : list (loc * V)) :
  owns (the_heap s) R -> walk_fuel (V := V) s = Ok (Datatypes.S (length R), s).
Proof. intros HR. unfold walk_fuel. rewrite M_bind_eq. simpl. by rewrite (owns_size _ _ HR). Qed.
End laws.

Lemma list_elem_of_middle {A} (x : A) xs ys : x ∈ xs ++ x :: ys.
Proof. apply elem_of_app. right. apply list_elem_of_here. Qed.
