(* ===== verification/Schema.v ===== *)
(** * Combinations, schemas and monotone schema sets

    Models [nju/gist/Common]: [Comb], [Testcase], [Schema] and
    [MonotoneSchemaSet].  A Java [BitSet] is a finite set of bit numbers
    ([gset nat]); a [List] is a list; an exception is the [Err] of the
    prelude's [res]. *)
From S2P Require Import Prelude.

Inductive jexn :=
| IllegalArgument | RuntimeExc | IndexOutOfBounds | NoSuchElement
| NotImplemented | UnsupportedOperation.

#[export] Instance jexn_eq_dec : EqDecision jexn.
Proof. solve_decision. Defined.

(** ** Comb and Testcase: a list of Java ints, -1 for an unset position *)
Definition UNKNOWN : Z := -1.

Abbreviation Comb := (list Z).

Definition Comb_ofSize (size : nat) : Comb := replicate size UNKNOWN.

Definition Comb_ofList (comb : list Z) : res jexn Comb :=
  if existsb (fun z => (z <? 0)%Z && negb (z =? UNKNOWN)%Z) comb
  then Err IllegalArgument else Ok comb.

Fixpoint contains_loop (A B : Comb) : bool :=
  match A, B with
  | a :: A', b :: B' =>
      if negb (a =? b)%Z && negb (b =? UNKNOWN)%Z then false
      else contains_loop A' B'
  | _, _ => true
  end.

Definition contains (A B : Comb) : res jexn bool :=
  if negb (Nat.eqb (length A) (length B)) then Err IllegalArgument
  else Ok (contains_loop A B).

Definition Testcase_ofComb (comb : Comb) : res jexn Comb :=
  if existsb (fun z => (z =? UNKNOWN)%Z) comb
  then Err IllegalArgument else Ok comb.

(** [paddingWithSafeValues(comb, safeValues, tfail)]: the element reads of
    [safeValues] and [tfail] raise when they are shorter than [comb]. *)
Fixpoint padding_loop (i : nat) (safeValues tfail comb : list Z) : res jexn (list Z) :=
  match comb with
  | [] => Ok []
  | c :: comb' =>
      v ← (if (c =? UNKNOWN)%Z then
             match safeValues !! i with
             | None => Err IndexOutOfBounds
             | Some s =>
                 if (s =? UNKNOWN)%Z then
                   match tfail !! i with
                   | None => Err IndexOutOfBounds
                   | Some t => Ok (1 - t)%Z
                   end
                 else Ok s
             end
           else Ok c);
      rest ← padding_loop (S i) safeValues tfail comb';
      Ok (v :: rest)
  end.

Definition paddingWithSafeValues (comb safeValues tfail : list Z) : res jexn Comb :=
  elements ← padding_loop 0 safeValues tfail comb;
  Comb_ofList elements.

(** ** Schema *)
Record Schema := MkSchema { bitset : gset nat; logic_size : nat }.

#[export] Instance Schema_eq_dec : EqDecision Schema.
Proof. solve_decision. Defined.

Definition Schema_new (size : nat) : Schema := MkSchema ∅ size.

Definition Schema_flag (size : nat) (flag : bool) : Schema :=
  if flag then MkSchema (set_seq 0 size) size else Schema_new size.

Definition Schema_copy (other : Schema) : Schema :=
  MkSchema (bitset other) (logic_size other).

Definition Schema_ofComb (comb : Comb) : Schema :=
  MkSchema (list_to_set (filter (fun i => comb !! i ≠ Some UNKNOWN)
                                (seq 0 (length comb))))
           (length comb).

Definition Schema_ofIndices (size : nat) (indices : list nat) : Schema :=
  MkSchema (list_to_set indices) size.

Definition Schema_get (s : Schema) (index : nat) : bool := bool_decide (index ∈ bitset s).

Definition Schema_size (s : Schema) : nat := size (bitset s).

Fixpoint getComb_loop (s : Schema) (testcase : Comb) (ixs : list nat) : res jexn Comb :=
  match ixs with
  | [] => Ok []
  | i :: ixs' =>
      v ← (if Schema_get s i then
             match testcase !! i with
             | Some v => Ok v
             | None => Err IndexOutOfBounds
             end
           else Ok UNKNOWN);
      rest ← getComb_loop s testcase ixs';
      Ok (v :: rest)
  end.

Definition getComb (s : Schema) (testcase : Comb) : res jexn Comb :=
  getComb_loop s testcase (seq 0 (logic_size s)).

Definition getIndices (s : Schema) : list nat :=
  filter (fun i => Schema_get s i = true) (seq 0 (logic_size s)).

(** [equals] compares the bit sets only. *)
Definition Schema_equals (a b : Schema) : bool := bool_decide (bitset a = bitset b).

Definition Schema_and (a b : Schema) : res jexn Schema :=
  if negb (Nat.eqb (logic_size a) (logic_size b)) then Err IllegalArgument
  else Ok (MkSchema (bitset a ∩ bitset b) (logic_size a)).

Definition Schema_or (a b : Schema) : res jexn Schema :=
  if negb (Nat.eqb (logic_size a) (logic_size b)) then Err IllegalArgument
  else Ok (Schema_ofIndices (logic_size a)
             (filter (fun i => (Schema_get a i || Schema_get b i) = true)
                     (seq 0 (logic_size a)))).

Definition Schema_complement (a : Schema) : Schema :=
  Schema_ofIndices (logic_size a)
    (filter (fun i => Schema_get a i = false) (seq 0 (logic_size a))).

Definition isSubsetOf (a b : Schema) : res jexn bool :=
  if negb (Nat.eqb (logic_size a) (logic_size b)) then Err IllegalArgument
  else c ← Schema_and a b; Ok (Schema_equals c a).

Definition isSupersetOf (a b : Schema) : res jexn bool :=
  if negb (Nat.eqb (logic_size a) (logic_size b)) then Err IllegalArgument
  else isSubsetOf b a.

Definition complement_in (a universe : Schema) : res jexn Schema :=
  if negb (Nat.eqb (logic_size a) (logic_size universe)) then Err IllegalArgument
  else
    sub ← isSubsetOf a universe;
    if negb sub then Err IllegalArgument
    else Ok (Schema_ofIndices (logic_size a)
               (filter (fun i => Schema_get universe i = true /\ Schema_get a i = false)
                       (seq 0 (logic_size a)))).

Definition overlapsWith (a b : Schema) : res jexn bool :=
  if negb (Nat.eqb (logic_size a) (logic_size b)) then Err IllegalArgument
  else Ok (existsb (fun i => Schema_get a i && Schema_get b i) (seq 0 (logic_size a))).

(** [MutableSchema.set] *)
Definition Schema_set (s : Schema) (index : nat) (value : bool) : Schema :=
  MkSchema (if value then {[index]} ∪ bitset s else bitset s ∖ {[index]}) (logic_size s).

(** [new BitSet(nbits).size()]: whole words of 64 bits *)
Definition BitSet_size (nbits : Z) : Z := (((nbits - 1) / 64 + 1) * 64)%Z.

(** [MutableSchema.setComplement] goes over all bits the bit set has space for. *)
Definition Schema_setComplement (s : Schema) : Schema :=
  fold_left (fun s i => Schema_set s i (negb (Schema_get s i)))
    (seq 0 (Z.to_nat (BitSet_size (Z.of_nat (logic_size s))))) s.

(** ** MonotoneSchemaSet *)
Record MonotoneSchemaSet := MkMSS { schemas : list Schema; isMinimal : bool }.

Definition MSS_new (isMinimal : bool) : MonotoneSchemaSet := MkMSS [] isMinimal.

(** The iterator loop of [add]: [keep_out cur] is the test that returns
    [false] without adding, [drop cur] the one that removes [cur]; the
    schema is appended when the iterator is exhausted.  The result lists the
    schemas after the call and the boolean returned. *)
Fixpoint add_loop (keep_out drop : Schema -> res jexn bool) (newschema : Schema)
    (l : list Schema) : res jexn (list Schema * bool) :=
  match l with
  | [] => Ok ([newschema], true)
  | cur :: rest =>
      if Schema_equals cur newschema then Ok (cur :: rest, false)
      else
        k ← keep_out cur;
        if (k : bool) then Ok (cur :: rest, false)
        else
          d ← drop cur;
          r ← add_loop keep_out drop newschema rest;
          Ok ((if (d : bool) then r.1 else cur :: r.1), r.2)
  end.

Definition MSS_add (m : MonotoneSchemaSet) (newschema : Schema) :
    res jexn (MonotoneSchemaSet * bool) :=
  r ← (if isMinimal m then
         add_loop (fun cur => isSubsetOf cur newschema)
                  (fun cur => isSupersetOf cur newschema) newschema (schemas m)
       else
         add_loop (fun cur => isSupersetOf cur newschema)
                  (fun cur => isSubsetOf cur newschema) newschema (schemas m));
  Ok (MkMSS r.1 (isMinimal m), r.2).

(** Calls of [add] whose result is not used. *)
Definition MSS_add_ (m : MonotoneSchemaSet) (s : Schema) : res jexn MonotoneSchemaSet :=
  r ← MSS_add m s; Ok r.1.

Fixpoint MSS_addAll (m : MonotoneSchemaSet) (l : list Schema) : res jexn MonotoneSchemaSet :=
  match l with
  | [] => Ok m
  | s :: l' => m' ← MSS_add_ m s; MSS_addAll m' l'
  end.

(** [LinkedList.remove(Object)]: the first schema that is [equals]. *)
Fixpoint remove_first (x : Schema) (l : list Schema) : list Schema * bool :=
  match l with
  | [] => ([], false)
  | cur :: rest =>
      if Schema_equals x cur then (rest, true)
      else let r := remove_first x rest in (cur :: r.1, r.2)
  end.

Definition MSS_remove (m : MonotoneSchemaSet) (x : Schema) : MonotoneSchemaSet * bool :=
  let r := remove_first x (schemas m) in (MkMSS r.1 (isMinimal m), r.2).

Definition MSS_size (m : MonotoneSchemaSet) : nat := length (schemas m).

Definition MSS_isEmpty (m : MonotoneSchemaSet) : bool := Nat.eqb (MSS_size m) 0.

Definition MSS_complement (m : MonotoneSchemaSet) : res jexn MonotoneSchemaSet :=
  MSS_addAll (MSS_new (negb (isMinimal m))) (Schema_complement <$> schemas m).

Fixpoint complement_all (universe : Schema) (result : MonotoneSchemaSet)
    (l : list Schema) : res jexn MonotoneSchemaSet :=
  match l with
  | [] => Ok result
  | s :: l' =>
      c ← complement_in s universe;
      result' ← MSS_add_ result c;
      complement_all universe result' l'
  end.

Definition MSS_complement_in (m : MonotoneSchemaSet) (universe : Schema) :
    res jexn MonotoneSchemaSet :=
  complement_all universe (MSS_new (negb (isMinimal m))) (schemas m).

(** The [for (int i : indices)] loop of [getMHS_recursive]: set the bit,
    recurse, clear the bit. *)
Fixpoint for_indices (rec : Schema -> MonotoneSchemaSet -> res jexn (Schema * MonotoneSchemaSet))
    (indices : list nat) (ans : Schema) (MHS : MonotoneSchemaSet) :
    res jexn (Schema * MonotoneSchemaSet) :=
  match indices with
  | [] => Ok (ans, MHS)
  | i :: ixs' =>
      r ← rec (Schema_set ans i true) MHS;
      for_indices rec ixs' (Schema_set r.1 i false) r.2
  end.

(** [schemaSet] is the part of the list from [index] on. *)
Fixpoint getMHS_recursive (schemaSet : list Schema) (ans : Schema)
    (MHS : MonotoneSchemaSet) : res jexn (Schema * MonotoneSchemaSet) :=
  match schemaSet with
  | [] => MHS' ← MSS_add_ MHS (Schema_copy ans); Ok (ans, MHS')
  | cur :: rest =>
      b ← overlapsWith ans cur;
      if (b : bool) then getMHS_recursive rest ans MHS
      else for_indices (getMHS_recursive rest) (getIndices cur) ans MHS
  end.

Definition getMHS (schemaSet : MonotoneSchemaSet) : res jexn MonotoneSchemaSet :=
  match schemas schemaSet with
  | [] => Err IllegalArgument
  | first :: _ =>
      if Nat.eqb (MSS_size schemaSet) 1 && Nat.eqb (Schema_size first) 0
      then Err IllegalArgument
      else
        r ← getMHS_recursive (schemas schemaSet) (Schema_new (logic_size first))
              (MSS_new true);
        Ok r.2
  end.

(** ** Specifications *)

(** A schema over [n] parameters. *)
Definition wfS (n : nat) (s : Schema) : Prop :=
  logic_size s = n /\ forall i, i ∈ bitset s -> i < n.

Definition antichain (l : list Schema) : Prop :=
  NoDup l /\ forall a b, a ∈ l -> b ∈ l -> bitset a ⊆ bitset b -> a = b.

(** The up-set ([R] is inclusion) or down-set ([R] is its converse) that a
    monotone schema set stands for. *)
Definition covers (R : gset nat -> gset nat -> Prop) (l : list Schema) (X : gset nat) : Prop :=
  exists c, c ∈ l /\ R (bitset c) X.

Definition mode_rel (minimal : bool) (X Y : gset nat) : Prop :=
  if minimal then X ⊆ Y else Y ⊆ X.

Definition hits_all (l : list Schema) (X : gset nat) : Prop :=
  forall s, s ∈ l -> exists i, i ∈ bitset s /\ i ∈ X.

Record wfM (n : nat) (m : MonotoneSchemaSet) : Prop := {
  wfM_schemas : forall s, s ∈ schemas m -> wfS n s;
  wfM_antichain : antichain (schemas m)
}.

#[export] Instance mode_rel_po minimal : PartialOrder (mode_rel minimal).
Proof.
  destruct minimal; unfold mode_rel.
  - repeat split; repeat intro; set_solver.
  - repeat split; repeat intro; set_solver.
Qed.

#[export] Instance mode_rel_dec minimal X Y : Decision (mode_rel minimal X Y).
Proof. destruct minimal; simpl; apply _. Defined.

#[export] Instance covers_dec R `{!forall X Y, Decision (R X Y)} l X : Decision (covers R l X).
Proof.
  refine (cast_if (decide (Exists (fun c => R (bitset c) X) l))).
  - by apply Exists_exists.
  - by rewrite Exists_exists in *.
Defined.

Lemma Schema_eq n (a b : Schema) :
  wfS n a -> wfS n b -> bitset a = bitset b -> a = b.
Proof. destruct a, b; unfold wfS; simpl. naive_solver congruence. Qed.

Lemma isSubsetOf_ok a b :
  logic_size a = logic_size b ->
  isSubsetOf a b = Ok (bool_decide (bitset a ⊆ bitset b)).
Proof.
  intros He. unfold isSubsetOf, Schema_and. rewrite He, Nat.eqb_refl. simpl.
  unfold Schema_equals; simpl. f_equal. apply bool_decide_ext. set_solver.
Qed.

Lemma isSupersetOf_ok a b :
  logic_size a = logic_size b ->
  isSupersetOf a b = Ok (bool_decide (bitset b ⊆ bitset a)).
Proof.
  intros He. unfold isSupersetOf. rewrite He, Nat.eqb_refl. simpl.
  by apply isSubsetOf_ok.
Qed.

Lemma elem_of_filter_seq (P : nat -> Prop) `{!forall i, Decision (P i)} n i :
  i ∈ filter P (seq 0 n) <-> P i /\ i < n.
Proof. rewrite list_elem_of_filter, elem_of_seq. naive_solver lia. Qed.

Lemma complement_in_ok n a u :
  wfS n a -> wfS n u -> bitset a ⊆ bitset u ->
  complement_in a u = Ok (MkSchema (bitset u ∖ bitset a) n).
Proof.
  intros [Ha Ba] [Hu Bu] Hsub. unfold complement_in.
  rewrite Ha, Hu, Nat.eqb_refl. simpl.
  rewrite isSubsetOf_ok by congruence. rewrite bool_decide_true by done. simpl.
  unfold Schema_ofIndices. do 2 f_equal.
  apply set_eq. intros i. rewrite elem_of_list_to_set.
  rewrite elem_of_filter_seq. unfold Schema_get. rewrite elem_of_difference.
  rewrite bool_decide_eq_true, bool_decide_eq_false. naive_solver.
Qed.

Lemma Schema_complement_ok n a :
  wfS n a -> Schema_complement a = MkSchema (set_seq 0 n ∖ bitset a) n.
Proof.
  intros [Ha Ba]. unfold Schema_complement, Schema_ofIndices. rewrite Ha. f_equal.
  apply set_eq. intros i. rewrite elem_of_list_to_set, elem_of_filter_seq.
  unfold Schema_get. rewrite elem_of_difference, elem_of_set_seq, bool_decide_eq_false.
  naive_solver lia.
Qed.

Lemma setComplement_loop l s :
  NoDup l ->
  bitset (fold_left (fun s i => Schema_set s i (negb (Schema_get s i))) l s) =
    (list_to_set l ∖ bitset s) ∪ (bitset s ∖ list_to_set l).
Proof.
  revert s. induction l as [|i l IH]; intros s Hnd; [simpl; set_solver|].
  apply NoDup_cons in Hnd as [Hi Hnd]. cbn [fold_left]. rewrite IH by done.
  unfold Schema_get. cbn [list_to_set]. unfold Schema_set. cbn [bitset].
  assert (Hil : i ∉ (list_to_set l : gset nat)) by (by rewrite elem_of_list_to_set).
  apply set_eq. intros j. destruct (decide (j = i)) as [->|]; case_bool_decide; cbn [negb]; set_solver.
Qed.

(** It is [complement] only when the number of parameters is a multiple of 64;
    otherwise it also sets the bits from there up to the next multiple. *)
Lemma setComplement_beyond n s :
  wfS n s ->
  bitset (Schema_setComplement s) =
    set_seq 0 (Z.to_nat (BitSet_size (Z.of_nat n))) ∖ bitset s /\
  ((n mod 64 <> 0) -> n ∈ bitset (Schema_setComplement s)).
Proof.
  intros [Hs Hb]. unfold Schema_setComplement. rewrite Hs.
  rewrite setComplement_loop by apply NoDup_seq.
  assert (Hle : n <= Z.to_nat (BitSet_size (Z.of_nat n)) /\
    (n mod 64 <> 0 -> n < Z.to_nat (BitSet_size (Z.of_nat n)))).
  { unfold BitSet_size. pose proof (Z.div_mod (Z.of_nat n - 1) 64 ltac:(lia)).
    pose proof (Z.mod_pos_bound (Z.of_nat n - 1) 64 ltac:(lia)). split; [lia|]. intros Hm.
    assert ((Z.of_nat n - 1) mod 64 <> 63)%Z; [|lia]. intros E. apply Hm.
    assert (E' : n = Z.to_nat ((Z.of_nat n - 1) / 64 + 1) * 64) by lia.
    rewrite E'. apply Nat.Div0.mod_mul. }
  destruct Hle as [Hle Hlt].
  assert (E : forall i, i ∈ (list_to_set (seq 0 (Z.to_nat (BitSet_size (Z.of_nat n)))) : gset nat) <->
    i < Z.to_nat (BitSet_size (Z.of_nat n))) by (intros; rewrite elem_of_list_to_set, elem_of_seq; lia).
  split.
  - apply set_eq. intros i. rewrite elem_of_union, !elem_of_difference, E, elem_of_set_seq.
    specialize (Hb i). naive_solver lia.
  - intros Hm. specialize (Hlt Hm). rewrite elem_of_union, elem_of_difference, E. left.
    split; [done|]. intros Hn%Hb. lia.
Qed.

Lemma overlapsWith_ok n a b :
  wfS n a -> wfS n b ->
  overlapsWith a b = Ok (bool_decide (bitset a ∩ bitset b <> ∅)).
Proof.
  intros [Ha Ba] [Hb Bb]. unfold overlapsWith. rewrite Ha, Hb, Nat.eqb_refl. simpl.
  f_equal. apply eq_true_iff_eq. rewrite bool_decide_eq_true, existsb_exists.
  unfold Schema_get. setoid_rewrite andb_true_iff.
  setoid_rewrite bool_decide_eq_true. split.
  - intros (i & _ & ?). set_solver.
  - intros (i & Hi)%set_choose_L. exists i. rewrite <- list_elem_of_In, elem_of_seq.
    apply elem_of_intersection in Hi as [Hi Hi']. specialize (Ba i Hi). naive_solver lia.
Qed.

(** *** [add] *)

#[export] Instance all_empty_dec (l : list Schema) : Decision (forall s, s ∈ l -> bitset s = ∅).
Proof.
  refine (cast_if (decide (Forall (fun s => bitset s = ∅) l))); by rewrite Forall_forall in *.
Defined.

Lemma antichain_tail a l : antichain (a :: l) -> antichain l.
Proof.
  intros [Hnd Hac]. apply NoDup_cons in Hnd as [_ Hnd]. split; [done|].
  intros x y Hx Hy. apply Hac; set_solver.
Qed.

Lemma antichain_nil : antichain [].
Proof. split; [constructor|]. intros a b Ha. by apply not_elem_of_nil in Ha. Qed.

Lemma antichain_cons minimal a l :
  antichain l ->
  (forall c, c ∈ l ->
     ~ mode_rel minimal (bitset a) (bitset c) /\ ~ mode_rel minimal (bitset c) (bitset a)) ->
  antichain (a :: l).
Proof.
  intros [Hnd Hac] Hinc. split.
  - apply NoDup_cons. split; [|done]. intros Ha. destruct (Hinc _ Ha) as [H _].
    by apply H.
  - intros x y Hx Hy Hxy. apply elem_of_cons in Hx as [->|Hx].
    + apply elem_of_cons in Hy as [->|Hy]; [done|].
      destruct (Hinc _ Hy), minimal; simpl in *; naive_solver.
    + apply elem_of_cons in Hy as [->|Hy]; [|by apply Hac].
      destruct (Hinc _ Hx), minimal; simpl in *; naive_solver.
Qed.

Section add_loop.
Context (minimal : bool).
#[local] Abbreviation R := (mode_rel minimal).
Context (keep_out drop : Schema -> res jexn bool) (new : Schema).

Lemma add_loop_spec l :
  antichain l ->
  (forall c, c ∈ l -> keep_out c = Ok (bool_decide (R (bitset c) (bitset new)))) ->
  (forall c, c ∈ l -> drop c = Ok (bool_decide (R (bitset new) (bitset c)))) ->
  exists l' b, add_loop keep_out drop new l = Ok (l', b) /\
    antichain l' /\ (forall c, c ∈ l' -> c ∈ l \/ c = new) /\
    (forall X, covers R l' X <-> covers R l X \/ R (bitset new) X) /\
    (b = true <-> ~ covers R l (bitset new)).
Proof.
  induction l as [|cur rest IH]; intros Hac Hk Hd; simpl.
  { exists [new], true. split_and!; [done| | | |].
    - apply (antichain_cons minimal); [apply antichain_nil|].
      intros c Hc. by apply not_elem_of_nil in Hc.
    - set_solver.
    - intros X. unfold covers. set_solver.
    - unfold covers. set_solver. }
  unfold Schema_equals. case_bool_decide as Heq.
  { exists (cur :: rest), false. split_and!; [done|done|by left| |].
    - intros X. split; [by left|]. intros [?|?]; [done|].
      exists cur. rewrite Heq. split; [left|done].
    - split; [done|]. intros Hx. exfalso. apply Hx. exists cur. rewrite Heq.
      split; [left|reflexivity]. }
  rewrite Hk by left. simpl. case_bool_decide as Hkeep.
  { exists (cur :: rest), false. split_and!; [done|done|by left| |].
    - intros X. split; [by left|]. intros [?|?]; [done|].
      exists cur. split; [left|]. by transitivity (bitset new).
    - split; [done|]. intros Hx. exfalso. apply Hx. exists cur. split; [left|done]. }
  rewrite Hd by left. simpl.
  destruct IH as (l' & b & -> & Hac' & Hin & Hcov & Hb).
  { by eapply antichain_tail. }
  { intros c Hc. apply Hk. by right. }
  { intros c Hc. apply Hd. by right. }
  simpl. case_bool_decide as Hdrop.
  - exists l', b. split_and!; [done|done| | |].
    + intros c Hc. destruct (Hin c Hc); [left; by right|by right].
    + intros X. rewrite Hcov. unfold covers. split.
      * intros [(c & ? & ?)|?]; [left; exists c; split; [by right|done]|by right].
      * intros [(c & [->|?]%elem_of_cons & ?)|?]; [|left; by exists c|by right].
        right. by transitivity (bitset cur).
    + rewrite Hb. unfold covers. split; intros Hn (c & Hc & Hcx); apply Hn.
      * apply elem_of_cons in Hc as [->|Hc]; [done|by exists c].
      * exists c. split; [by right|done].
  - exists (cur :: l'), b. split_and!; [done| | | |].
    + apply (antichain_cons minimal); [done|]. intros c Hc.
      destruct (Hin c Hc) as [Hcr| ->]; [|done].
      destruct Hac as [Hnd Hac]. apply NoDup_cons in Hnd as [Hnot _].
      assert (Hne : cur <> c) by (intros ->; done).
      split; intros Hr; apply Hne; destruct minimal; simpl in Hr.
      all: first [apply Hac; [left|by right|done]|symmetry; apply Hac; [by right|left|done]].
    + intros c [->|Hc]%elem_of_cons; [left; left|].
      destruct (Hin c Hc); [left; by right|by right].
    + intros X. unfold covers in *. split.
      * intros (c & [->|Hc]%elem_of_cons & Hr); [left; exists cur; split; [left|done]|].
        destruct (proj1 (Hcov X)) as [(c' & ? & ?)|?]; [by exists c| |by right].
        left. exists c'. split; [by right|done].
      * intros [(c & [->|Hc]%elem_of_cons & Hr)|Hr].
        -- exists cur. split; [left|done].
        -- destruct (proj2 (Hcov X)) as (c' & ? & ?); [left; by exists c|].
           exists c'. split; [by right|done].
        -- destruct (proj2 (Hcov X)) as (c' & ? & ?); [by right|].
           exists c'. split; [by right|done].
    + rewrite Hb. unfold covers. split; intros Hn (c & Hc & Hcx); apply Hn.
      * apply elem_of_cons in Hc as [->|Hc]; [done|by exists c].
      * exists c. split; [by right|done].
Qed.
End add_loop.

(** The claims about [add] are stated for both modes at once. *)
Lemma MSS_add_ok n m s :
  wfM n m -> wfS n s ->
  exists m' b, MSS_add m s = Ok (m', b) /\ wfM n m' /\ isMinimal m' = isMinimal m /\
    (forall c, c ∈ schemas m' -> c ∈ schemas m \/ c = s) /\
    (forall X, covers (mode_rel (isMinimal m)) (schemas m') X <->
       covers (mode_rel (isMinimal m)) (schemas m) X \/
       mode_rel (isMinimal m) (bitset s) X) /\
    (b = true <-> ~ covers (mode_rel (isMinimal m)) (schemas m) (bitset s)).
Proof.
  intros [Hwf Hac] [Hs Hb]. unfold MSS_add.
  assert (Hsz : forall c, c ∈ schemas m -> logic_size c = logic_size s).
  { intros c Hc. destruct (Hwf c Hc). congruence. }
  destruct m as [l [|]]; simpl in *.
  - destruct (add_loop_spec true (fun cur => isSubsetOf cur s)
      (fun cur => isSupersetOf cur s) s l Hac) as (l' & b & -> & Hac' & Hin & Hc & Hbb).
    { intros c Hc. by apply isSubsetOf_ok, Hsz. }
    { intros c Hc. by apply isSupersetOf_ok, Hsz. }
    exists (MkMSS l' true), b. split_and!; [done| |done|done|done|done].
    split; [|done]. intros c [Hcl| ->]%Hin; [by apply Hwf|done].
  - destruct (add_loop_spec false (fun cur => isSupersetOf cur s)
      (fun cur => isSubsetOf cur s) s l Hac) as (l' & b & -> & Hac' & Hin & Hc & Hbb).
    { intros c Hc. by apply isSupersetOf_ok, Hsz. }
    { intros c Hc. by apply isSubsetOf_ok, Hsz. }
    exists (MkMSS l' false), b. split_and!; [done| |done|done|done|done].
    split; [|done]. intros c [Hcl| ->]%Hin; [by apply Hwf|done].
Qed.

Lemma MSS_add__ok n m s :
  wfM n m -> wfS n s ->
  exists m', MSS_add_ m s = Ok m' /\ wfM n m' /\ isMinimal m' = isMinimal m /\
    (forall c, c ∈ schemas m' -> c ∈ schemas m \/ c = s) /\
    (forall X, covers (mode_rel (isMinimal m)) (schemas m') X <->
       covers (mode_rel (isMinimal m)) (schemas m) X \/
       mode_rel (isMinimal m) (bitset s) X).
Proof.
  intros Hm Hs. destruct (MSS_add_ok n m s Hm Hs) as (m' & b & He & ? & ? & ? & ? & _).
  exists m'. unfold MSS_add_. rewrite He. done.
Qed.

Lemma MSS_new_wf n b : wfM n (MSS_new b).
Proof. split; simpl; [intros s Hs; by apply not_elem_of_nil in Hs|apply antichain_nil]. Qed.

Lemma covers_nil R X : ~ covers R [] X.
Proof. intros (c & Hc & _). by apply not_elem_of_nil in Hc. Qed.

Lemma covers_cons R c l X : covers R (c :: l) X <-> R (bitset c) X \/ covers R l X.
Proof. unfold covers. setoid_rewrite elem_of_cons. naive_solver. Qed.

(** Adding a list, element by element. *)
Lemma MSS_addAll_ok n l m :
  wfM n m -> (forall s, s ∈ l -> wfS n s) ->
  exists m', MSS_addAll m l = Ok m' /\ wfM n m' /\ isMinimal m' = isMinimal m /\
    (forall c, c ∈ schemas m' -> c ∈ schemas m \/ c ∈ l) /\
    (forall X, covers (mode_rel (isMinimal m)) (schemas m') X <->
       covers (mode_rel (isMinimal m)) (schemas m) X \/
       covers (mode_rel (isMinimal m)) l X).
Proof.
  revert m. induction l as [|s l IH]; intros m Hm Hl; simpl.
  { exists m. split_and!; [done..|naive_solver|].
    intros X. pose proof (covers_nil (mode_rel (isMinimal m)) X). naive_solver. }
  destruct (MSS_add__ok n m s Hm) as (m1 & -> & Hm1 & Hi1 & Hin1 & Hc1).
  { apply Hl. left. }
  simpl. destruct (IH m1 Hm1) as (m' & -> & Hm' & Hi' & Hin' & Hc').
  { intros c Hc. apply Hl. by right. }
  rewrite Hi1 in Hi', Hc'.
  exists m'. split_and!; [done|done|done| |].
  - intros c Hc. setoid_rewrite elem_of_cons. destruct (Hin' c Hc) as [Hx|?]; [|tauto].
    destruct (Hin1 c Hx); tauto.
  - intros X. rewrite Hc', Hc1, covers_cons. tauto.
Qed.

Lemma complement_all_ok n u m l :
  wfM n m -> wfS n u -> (forall s, s ∈ l -> wfS n s /\ bitset s ⊆ bitset u) ->
  exists m', complement_all u m l = Ok m' /\ wfM n m' /\ isMinimal m' = isMinimal m /\
    (forall c, c ∈ schemas m' ->
       c ∈ schemas m \/ exists s, s ∈ l /\ c = MkSchema (bitset u ∖ bitset s) n) /\
    (forall X, covers (mode_rel (isMinimal m)) (schemas m') X <->
       covers (mode_rel (isMinimal m)) (schemas m) X \/
       exists s, s ∈ l /\ mode_rel (isMinimal m) (bitset u ∖ bitset s) X).
Proof.
  intros Hm Hu. revert m Hm. induction l as [|s l IH]; intros m Hm Hl; simpl.
  { exists m. split_and!; [done..|naive_solver|]. set_solver. }
  destruct (Hl s) as [Hs Hsub]; [left|].
  rewrite (complement_in_ok n) by done. simpl.
  destruct (MSS_add__ok n m (MkSchema (bitset u ∖ bitset s) n) Hm) as (m1 & -> & Hm1 & Hi1 & Hin1 & Hc1).
  { split; [done|]. intros i Hi. simpl in Hi. destruct Hu as [_ Hu]. apply Hu. set_solver. }
  simpl. destruct (IH m1 Hm1) as (m' & -> & Hm' & Hi' & Hin' & Hc').
  { intros c Hc. apply Hl. by right. }
  rewrite Hi1 in Hi', Hc'.
  exists m'. split_and!; [done|done|done| |].
  - intros c Hc. setoid_rewrite elem_of_cons.
    destruct (Hin' c Hc) as [[?| ->]%Hin1|(s' & ? & ?)]; naive_solver.
  - intros X. rewrite Hc', Hc1. setoid_rewrite elem_of_cons. naive_solver.
Qed.

(** *** [getMHS] *)

Lemma elem_of_getIndices n s i : wfS n s -> i ∈ getIndices s <-> i ∈ bitset s.
Proof.
  intros [Hs Hb]. unfold getIndices. rewrite elem_of_filter_seq, Hs.
  unfold Schema_get. rewrite bool_decide_eq_true. naive_solver.
Qed.

Lemma Schema_set_wf n s i b : wfS n s -> i < n -> wfS n (Schema_set s i b).
Proof.
  intros [Hs Hb] Hi. split; [done|]. intros j. unfold Schema_set; simpl.
  destruct b; [|set_solver]. rewrite elem_of_union, elem_of_singleton. naive_solver.
Qed.

Lemma Schema_set_clear s i : i ∉ bitset s -> Schema_set (Schema_set s i true) i false = s.
Proof.
  intros Hi. destruct s as [bs n]. unfold Schema_set; simpl in *. f_equal. set_solver.
Qed.

Definition rec_spec (n : nat) (rest : list Schema)
    (rec : Schema -> MonotoneSchemaSet -> res jexn (Schema * MonotoneSchemaSet)) : Prop :=
  forall ans MHS, wfS n ans -> wfM n MHS -> isMinimal MHS = true ->
  exists MHS', rec ans MHS = Ok (ans, MHS') /\ wfM n MHS' /\ isMinimal MHS' = true /\
    forall X, covers (⊆) (schemas MHS') X <->
      covers (⊆) (schemas MHS) X \/ (bitset ans ⊆ X /\ hits_all rest X).

Lemma for_indices_spec n rest rec indices ans MHS :
  rec_spec n rest rec ->
  (forall i, i ∈ indices -> i < n /\ i ∉ bitset ans) ->
  wfS n ans -> wfM n MHS -> isMinimal MHS = true ->
  exists MHS', for_indices rec indices ans MHS = Ok (ans, MHS') /\ wfM n MHS' /\
    isMinimal MHS' = true /\
    forall X, covers (⊆) (schemas MHS') X <->
      covers (⊆) (schemas MHS) X \/
      (exists i, i ∈ indices /\ i ∈ X) /\ bitset ans ⊆ X /\ hits_all rest X.
Proof.
  intros Hrec. revert MHS. induction indices as [|i indices IH]; intros MHS Hi Ha Hm Hmin; simpl.
  { exists MHS. split_and!; [done..|]. intros X. set_solver. }
  destruct (Hi i) as [Hin Hna]; [left|].
  destruct (Hrec (Schema_set ans i true) MHS) as (M1 & -> & Hm1 & Hmin1 & Hc1);
    [by apply Schema_set_wf|done|done|].
  simpl. rewrite Schema_set_clear by done.
  destruct (IH M1) as (M2 & -> & Hm2 & Hmin2 & Hc2); [set_solver|done..|].
  exists M2. split_and!; [done..|]. intros X. rewrite Hc2, Hc1. simpl. set_solver.
Qed.

Lemma getMHS_recursive_spec n rest :
  (forall s, s ∈ rest -> wfS n s) -> rec_spec n rest (getMHS_recursive rest).
Proof.
  induction rest as [|cur rest IH]; intros Hwf ans MHS Ha Hm Hmin; simpl.
  { destruct (MSS_add__ok n MHS (Schema_copy ans)) as (m' & -> & Hm' & Hi' & _ & Hc);
      [done|by destruct ans|].
    exists m'. rewrite Hmin in *. split_and!; [done..|]. intros X. rewrite Hc.
    unfold hits_all. simpl. set_solver. }
  assert (Hcur : wfS n cur) by (apply Hwf; left).
  assert (Hrest : rec_spec n rest (getMHS_recursive rest)).
  { apply IH. intros s Hs. apply Hwf. by right. }
  rewrite (overlapsWith_ok n) by done. simpl. case_bool_decide as Hov.
  - destruct (Hrest ans MHS) as (M1 & -> & Hm1 & Hmin1 & Hc1); [done..|].
    exists M1. split_and!; [done..|]. intros X. rewrite Hc1.
    apply set_choose_L in Hov as [j Hj]. unfold hits_all. set_solver.
  - destruct (for_indices_spec n rest (getMHS_recursive rest) (getIndices cur) ans MHS)
      as (M1 & -> & Hm1 & Hmin1 & Hc1); [done| |done..|].
    { intros i Hi. rewrite (elem_of_getIndices n) in Hi by done.
      split; [by apply Hcur|]. set_solver. }
    exists M1. split_and!; [done..|]. intros X. rewrite Hc1.
    setoid_rewrite (elem_of_getIndices n cur); [|done]. unfold hits_all. set_solver.
Qed.

Lemma getMHS_ok n m :
  wfM n m -> schemas m <> [] -> ~ (exists s, schemas m = [s] /\ bitset s = ∅) ->
  exists r, getMHS m = Ok r /\ wfM n r /\ isMinimal r = true /\
    forall X, covers (⊆) (schemas r) X <-> hits_all (schemas m) X.
Proof.
  intros [Hwf Hac] Hne Hn1. unfold getMHS, MSS_size, Schema_size.
  destruct (schemas m) as [|first tl] eqn:E; [done|].
  destruct (Nat.eqb (length (first :: tl)) 1 && Nat.eqb (size (bitset first)) 0) eqn:Eg.
  { exfalso. apply Hn1. apply andb_true_iff in Eg as [E1%Nat.eqb_eq E2%Nat.eqb_eq].
    apply size_empty_inv in E2. exists first. destruct tl; [|done].
    split; [done|]. set_solver. }
  destruct (getMHS_recursive_spec n (first :: tl)) with (ans := Schema_new (logic_size first))
    (MHS := MSS_new true) as (r & -> & Hr & Hmin & Hc); [done| |apply MSS_new_wf|done|].
  { destruct (Hwf first) as [-> _]; [left|]. split; [done|]. set_solver. }
  exists r. split_and!; [done..|]. intros X. rewrite Hc. simpl.
  pose proof (covers_nil (⊆) X). set_solver.
Qed.

(** In an antichain the elements are the minimal members of its up-set. *)
Lemma antichain_minimal n l c :
  (forall s, s ∈ l -> wfS n s) -> antichain l -> wfS n c ->
  c ∈ l <-> covers (⊆) l (bitset c) /\
            forall Y, covers (⊆) l Y -> Y ⊆ bitset c -> Y = bitset c.
Proof.
  intros Hwf [_ Hac] Hc. split.
  - intros Hin. split; [by exists c|]. intros Y (d & Hd & HdY) HY.
    assert (d = c) by (apply Hac; set_solver). set_solver.
  - intros [(d & Hd & Hdc) Hmin].
    assert (Heq : bitset d = bitset c) by (apply Hmin; [by exists d|done]).
    by rewrite <- (Schema_eq n d c) by auto.
Qed.

Lemma antichain_maximal n l c :
  (forall s, s ∈ l -> wfS n s) -> antichain l -> wfS n c ->
  c ∈ l <-> covers (mode_rel false) l (bitset c) /\
            forall Y, covers (mode_rel false) l Y -> bitset c ⊆ Y -> Y = bitset c.
Proof.
  intros Hwf [_ Hac] Hc. unfold mode_rel. split.
  - intros Hin. split; [by exists c|]. intros Y (d & Hd & HdY) HY.
    assert (c = d) by (apply Hac; set_solver). set_solver.
  - intros [(d & Hd & Hdc) Hmin].
    assert (Heq : bitset d = bitset c) by (apply Hmin; [by exists d|done]).
    by rewrite <- (Schema_eq n d c) by auto.
Qed.

(** ** Properties *)

(** C7. [MonotoneSchemaSet.add], in either mode, keeps the set an antichain of
    well-formed schemas, makes it stand for exactly the old up-set (down-set)
    plus the new schema, adds nothing else, and returns true exactly when the
    new schema was not already covered. *)
Theorem MSS_add_correct n m s :
  wfM n m -> wfS n s ->
  exists m' b, MSS_add m s = Ok (m', b) /\ wfM n m' /\ isMinimal m' = isMinimal m /\
    (forall c, c ∈ schemas m' -> c ∈ schemas m \/ c = s) /\
    (forall X, covers (mode_rel (isMinimal m)) (schemas m') X <->
       covers (mode_rel (isMinimal m)) (schemas m) X \/
       mode_rel (isMinimal m) (bitset s) X) /\
    (b = true <-> ~ covers (mode_rel (isMinimal m)) (schemas m) (bitset s)).
Proof. apply MSS_add_ok. Qed.

Lemma singleton_wfM n s b : wfS n s -> wfM n (MkMSS [s] b).
Proof.
  intros Hs. split; simpl.
  - by intros x ->%list_elem_of_singleton.
  - split; [apply NoDup_singleton|].
    intros x y ->%list_elem_of_singleton ->%list_elem_of_singleton. done.
Qed.

Definition ex_s (l : list nat) : Schema := Schema_ofIndices 3 l.

Lemma ex_s_wf l : forallb (fun i => Nat.ltb i 3) l = true -> wfS 3 (ex_s l).
Proof.
  intros Hl. split; [done|]. intros i Hi%elem_of_list_to_set.
  rewrite forallb_forall in Hl. apply Nat.ltb_lt, Hl. by apply list_elem_of_In.
Qed.

Lemma MSS_add_correct_witness :
  exists m' b, MSS_add (MkMSS [ex_s [0; 1]] true) (ex_s [1]) = Ok (m', b) /\ wfM 3 m'.
Proof.
  destruct (MSS_add_correct 3 (MkMSS [ex_s [0; 1]] true) (ex_s [1])) as (m' & b & He & Hw & _).
  - apply singleton_wfM, ex_s_wf. reflexivity.
  - apply ex_s_wf. reflexivity.
  - exists m', b. split; assumption.
Defined.

(** C2. For a well-formed family that is neither empty nor the single empty
    set, [getMHS] returns normally and its result holds exactly the minimal
    hitting sets of the family (the other two cases throw
    IllegalArgumentException). *)
Theorem getMHS_minimal_hitting_sets n m :
  wfM n m ->
  ((schemas m = [] \/ exists s, schemas m = [s] /\ bitset s = ∅) /\
     getMHS m = Err IllegalArgument) \/
  (exists r, getMHS m = Ok r /\ wfM n r /\ isMinimal r = true /\
     forall c, wfS n c ->
       c ∈ schemas r <-> hits_all (schemas m) (bitset c) /\
         forall Y, hits_all (schemas m) Y -> Y ⊆ bitset c -> Y = bitset c).
Proof.
  intros Hm.
  destruct (decide (schemas m = [])) as [E|Hne].
  { left. split; [by left|]. unfold getMHS. by rewrite E. }
  destruct (decide (length (schemas m) = 1 /\ forall s, s ∈ schemas m -> bitset s = ∅)) as [Hs|Hn1].
  { left. destruct Hs as [Hlen Hs]. destruct (schemas m) as [|s [|]] eqn:E; [done| |done].
    assert (Es : bitset s = ∅) by (apply Hs; left). split; [right; by exists s|].
    unfold getMHS, MSS_size, Schema_size. rewrite E, Es. reflexivity. }
  right. destruct (getMHS_ok n m Hm Hne) as (r & He & Hw & Hmin & Hc).
  { intros (s & E & Es). apply Hn1. rewrite E. split; [done|].
    by intros x ->%list_elem_of_singleton. }
  exists r. split_and!; [done..|]. intros c Hwc.
  rewrite (antichain_minimal n); [|apply Hw..|done]. setoid_rewrite Hc. done.
Qed.

Lemma getMHS_minimal_hitting_sets_witness :
  exists r, getMHS (MkMSS [ex_s [0; 1]] true) = Ok r /\ isMinimal r = true.
Proof.
  destruct (getMHS_minimal_hitting_sets 3 (MkMSS [ex_s [0; 1]] true)) as [[_ H]|(r & He & _ & Hm & _)].
  - apply singleton_wfM, ex_s_wf. reflexivity.
  - vm_compute in H. discriminate H.
  - exists r. split; assumption.
Defined.
