(* ===== verification/NoPend.v ===== *)
(** * The NoPend fault resolver

    Models [nju/gist/Tester/Checker.java], the parts of
    [AbstractFaultResolver.java] that NoPend uses, [NoPend.java]
    ([getLongestChain]) and [NoPendFaultResolver.java] ([conduct],
    [conduct_with_safevalues], [identify], [binarySearch]).  The mutable
    fields of the resolver and of its checker are threaded as a
    [ResolverState]; exceptions are [Err], loops without a structural
    measure take fuel. *)
From S2P Require Import Prelude Schema.

(** Java [int] arithmetic wraps at 32 bits. *)
Definition jint (z : Z) : Z := ((z + 2 ^ 31) mod 2 ^ 32 - 2 ^ 31)%Z.

Record ResolverState := MkRS {
  counter : Z;
  executedTestcase : list Comb;
  healthyCombs : list Comb;
  faultyCombs : list Comb;
  MFC_identified : list Comb;
  conducted : bool
}.

Definition initial_state : ResolverState := MkRS 0 [] [] [] [] false.

(** [HashSet.add]. *)
Definition hashset_add (x : Comb) (l : list Comb) : list Comb :=
  if decide (x ∈ l) then l else l ++ [x].

(** ** Checker *)
Fixpoint check_loop (testcase : Comb) (MFS : list Comb) : res jexn bool :=
  match MFS with
  | [] => Ok true
  | mf :: MFS' =>
      c ← contains testcase mf;
      if (c : bool) then Ok false else check_loop testcase MFS'
  end.

Definition count_check (testcase : Comb) (s : ResolverState) : ResolverState :=
  MkRS (jint (counter s + 1)) (hashset_add testcase (executedTestcase s))
       (healthyCombs s) (faultyCombs s) (MFC_identified s) (conducted s).

Definition check (MFS : list Comb) (testcase : Comb) : M ResolverState jexn bool :=
  modS (count_check testcase) ;; lift (check_loop testcase MFS).

Definition Checker_reset (s : ResolverState) : ResolverState :=
  MkRS 0 [] (healthyCombs s) (faultyCombs s) (MFC_identified s) (conducted s).

Definition resolver_reset (s : ResolverState) : ResolverState :=
  let c := Checker_reset s in
  MkRS (counter c) (executedTestcase c) (healthyCombs c) (faultyCombs c) [] false.

(** ** AbstractFaultResolver *)
Definition record_comb (result : bool) (comb : Comb) (s : ResolverState) : ResolverState :=
  if result then
    MkRS (counter s) (executedTestcase s) (healthyCombs s ++ [comb]) (faultyCombs s)
         (MFC_identified s) (conducted s)
  else
    MkRS (counter s) (executedTestcase s) (healthyCombs s) (faultyCombs s ++ [comb])
         (MFC_identified s) (conducted s).

Definition check_with_safevalues (MFS : list Comb) (safeValues : Comb)
    (comb tfail : Comb) : M ResolverState jexn bool :=
  t ← lift (paddingWithSafeValues comb safeValues tfail);
  result ← check MFS t;
  modS (record_comb result comb) ;;
  mret result.

Fixpoint checkPending_healthy (comb : Comb) (l : list Comb) : res jexn bool :=
  match l with
  | [] => Ok true
  | healthyComb :: l' =>
      c ← contains healthyComb comb;
      if (c : bool) then Ok false else checkPending_healthy comb l'
  end.

Fixpoint checkPending_faulty (comb : Comb) (l : list Comb) : res jexn bool :=
  match l with
  | [] => Ok true
  | faultyComb :: l' =>
      c ← contains comb faultyComb;
      if (c : bool) then Ok false else checkPending_faulty comb l'
  end.

Definition checkPending (comb : Comb) (s : ResolverState) : res jexn bool :=
  h ← checkPending_healthy comb (healthyCombs s);
  if (h : bool) then checkPending_faulty comb (faultyCombs s) else Ok false.

(** ** NoPend.getLongestChain: [best] holds (max, min) and [longest] its size *)
Record chain_acc := MkChain { best : option (Schema * Schema); longest : Z }.

Fixpoint chain_bottoms (top : Schema) (bottoms : list Schema) (acc : chain_acc) :
    res jexn chain_acc :=
  match bottoms with
  | [] => Ok acc
  | bottom :: bottoms' =>
      sup ← isSupersetOf top bottom;
      let len := (Z.of_nat (Schema_size top) - Z.of_nat (Schema_size bottom) + 1)%Z in
      chain_bottoms top bottoms'
        (if (sup : bool) && (longest acc <? len)%Z
         then MkChain (Some (top, bottom)) len else acc)
  end.

Fixpoint chain_tops (tops bottoms : list Schema) (acc : chain_acc) : res jexn chain_acc :=
  match tops with
  | [] => Ok acc
  | top :: tops' =>
      acc' ← chain_bottoms top bottoms acc;
      chain_tops tops' bottoms acc'
  end.

Definition getLongestChain (topSchemas bottomSchemas : MonotoneSchemaSet) :
    res jexn (option (Schema * Schema)) :=
  if MSS_isEmpty topSchemas || MSS_isEmpty bottomSchemas then Err RuntimeExc
  else
    acc ← chain_tops (schemas topSchemas) (schemas bottomSchemas) (MkChain None (-1));
    Ok (best acc).

(** ** NoPendFaultResolver *)
Section resolver.
Variable MFS : list Comb.
Variable safeValues : Comb.

(** The chain from [min] up to [max], one more bit at a time. *)
Fixpoint build_chain (max min : Schema) (ixs : list nat) (now : Schema) : list Schema :=
  match ixs with
  | [] => []
  | i :: ixs' =>
      if negb (Schema_get min i) && Schema_get max i then
        let now' := Schema_set now i true in
        Schema_copy now' :: build_chain max min ixs' now'
      else build_chain max min ixs' now
  end.

Definition chain_of (max min : Schema) : list Schema :=
  min :: build_chain max min (rev (seq 0 (logic_size max))) (Schema_copy min).

Fixpoint bsearch_loop (fuel : nat) (chain : list Schema) (tfail : Comb)
    (left right result : Z) : M ResolverState jexn Z :=
  match fuel with
  | O => fun _ => Timeout
  | S fuel' =>
      if (left <=? right)%Z then
        let mid := (left + (right - left) ÷ 2)%Z in
        match chain !! Z.to_nat mid with
        | None => throw IndexOutOfBounds
        | Some s =>
            comb ← lift (getComb s tfail);
            healthy ← check_with_safevalues MFS safeValues comb tfail;
            if (healthy : bool)
            then bsearch_loop fuel' chain tfail (mid + 1) right result
            else bsearch_loop fuel' chain tfail left (mid - 1) mid
        end
      else mret result
  end.

Definition binarySearch_on (chain_of : Schema -> Schema -> list Schema)
    (max min : Schema) (tfail : Comb) : M ResolverState jexn (option Schema) :=
  if negb (Nat.eqb (logic_size max) (logic_size min)) then throw RuntimeExc
  else
    sup ← lift (isSupersetOf max min);
    if negb sup then throw IllegalArgument
    else
      comb ← lift (getComb max tfail);
      healthy ← check_with_safevalues MFS safeValues comb tfail;
      if (healthy : bool) then mret None
      else
        let chain := chain_of max min in
        result ← bsearch_loop (S (length chain)) chain tfail 0
                   (Z.of_nat (length chain) - 1) (-1);
        if (result =? -1)%Z then mret None
        else
          match chain !! Z.to_nat result with
          | None => throw IndexOutOfBounds
          | Some s => mret (Some s)
          end.

Definition binarySearch (max min : Schema) (tfail : Comb) :
    M ResolverState jexn (option Schema) := binarySearch_on chain_of max min tfail.

(** The [while (true)] loop of [identify]; the recursive call is guarded by
    the size test at the head of [identify]. *)
Fixpoint identify_loop (fuel : nat) (universe : Schema)
    (CMinF CMaxP : MonotoneSchemaSet) (tfail : Comb) :
    M ResolverState jexn (MonotoneSchemaSet * MonotoneSchemaSet) :=
  match fuel with
  | O => fun _ => Timeout
  | S fuel' =>
      comp ← lift (MSS_complement_in CMaxP universe);
      bottomSchemas ← lift (getMHS comp);
      mhs ← lift (getMHS CMinF);
      topSchemas ← lift (MSS_complement_in mhs universe);
      longestChain ← lift (getLongestChain topSchemas bottomSchemas);
      match longestChain with
      | None => mret (CMinF, CMaxP)
      | Some (max, min) =>
          minfault ← binarySearch max min tfail;
          match minfault with
          | None =>
              CMaxP' ← lift (MSS_add_ CMaxP (Schema_copy max));
              identify_loop fuel' universe CMinF CMaxP' tfail
          | Some minfault =>
              let universe_rec := Schema_copy minfault in
              CMinF_rec ← lift (MSS_add_ (MSS_new true) universe_rec);
              CMaxP_rec ← lift (MSS_add_ (MSS_new false) (Schema_new (logic_size universe_rec)));
              r ← (if Nat.eqb (Schema_size universe_rec) 1 then mret (CMinF_rec, CMaxP_rec)
                   else identify_loop fuel' universe_rec CMinF_rec CMaxP_rec tfail);
              CMinF' ← lift (MSS_addAll CMinF (schemas r.1));
              CMaxP' ← lift (MSS_addAll CMaxP (schemas r.2));
              identify_loop fuel' universe CMinF' CMaxP' tfail
          end
      end
  end.

Definition identify (fuel : nat) (universe : Schema) (CMinF CMaxP : MonotoneSchemaSet)
    (tfail : Comb) : M ResolverState jexn (MonotoneSchemaSet * MonotoneSchemaSet) :=
  if Nat.eqb (Schema_size universe) 1 then mret (CMinF, CMaxP)
  else identify_loop fuel universe CMinF CMaxP tfail.

(** [for (Comb MFS : MFC_identified) if contains ... break;] *)
Fixpoint init_CMinF (tfail : Comb) (identified : list Comb) (CMinF : MonotoneSchemaSet) :
    res jexn MonotoneSchemaSet :=
  match identified with
  | [] => Ok CMinF
  | mfs :: rest =>
      c ← contains tfail mfs;
      if (c : bool) then MSS_add_ CMinF (Schema_ofComb mfs)
      else init_CMinF tfail rest CMinF
  end.

Definition add_identified (c : Comb) (s : ResolverState) : ResolverState :=
  MkRS (counter s) (executedTestcase s) (healthyCombs s) (faultyCombs s)
       (hashset_add c (MFC_identified s)) (conducted s).

Fixpoint record_MFS (tfail : Comb) (l : list Schema) : M ResolverState jexn unit :=
  match l with
  | [] => mret tt
  | s :: l' =>
      c ← lift (getComb s tfail);
      modS (add_identified c) ;;
      record_MFS tfail l'
  end.

(** The order in which the iterator of [MFC_identified], a [HashSet],
    yields its elements is not specified. *)
Variable hash_order : list Comb -> list Comb.

Definition conduct_one (fuel : nat) (tfail : Comb) : M ResolverState jexn unit :=
  let full := Schema_flag (length tfail) true in
  CMinF0 ← lift (MSS_add_ (MSS_new true) full);
  CMaxP0 ← lift (MSS_add_ (MSS_new false) (Schema_new (length tfail)));
  st ← getS;
  CMinF1 ← lift (init_CMinF tfail (hash_order (MFC_identified st)) CMinF0);
  r ← identify fuel full CMinF1 CMaxP0 tfail;
  record_MFS tfail (schemas r.1).

Fixpoint conduct_with_safevalues (fuel : nat) (Tfail : list Comb) : M ResolverState jexn unit :=
  match Tfail with
  | [] => mret tt
  | tfail :: Tfail' =>
      conduct_one fuel tfail ;;
      conduct_with_safevalues fuel Tfail'
  end.
End resolver.

Definition set_conducted (s : ResolverState) : ResolverState :=
  MkRS (counter s) (executedTestcase s) (healthyCombs s) (faultyCombs s)
       (MFC_identified s) true.

Definition conduct (MFS : list Comb) (safeValues : option Comb)
    (hash_order : list Comb -> list Comb) (fuel : nat) (Tfail : list Comb) :
    M ResolverState jexn unit :=
  s ← getS;
  if conducted s then mret tt
  else
    modS set_conducted ;;
    match safeValues with
    | None => throw RuntimeExc
    | Some sv => conduct_with_safevalues MFS sv hash_order fuel Tfail
    end.

(** Fuel that is enough for [n] parameters. *)
Definition identify_fuel (n : nat) : nat := S (2 ^ n + n + 2 ^ n).

(** ** The interface between the resolver and the checker

    A [HealthOracle] is what [identify] relies on: checking the combination
    of a schema of the failed test case tells whether the schema is healthy,
    changes nothing but the checker's log, and adds one entry to it. *)
Definition checks (s : ResolverState) : nat :=
  length (healthyCombs s) + length (faultyCombs s).

Definition keeps (s s' : ResolverState) : Prop :=
  MFC_identified s' = MFC_identified s /\ conducted s' = conducted s.

Class HealthOracle (n : nat) (MFS : list Comb) (safeValues tfail : Comb) := {
  faulty : gset nat -> Prop;
  #[global] faulty_dec :: forall X, Decision (faulty X);
  faulty_mono : forall X Y, X ⊆ Y -> faulty X -> faulty Y;
  faulty_empty : ~ faulty ∅;
  oracle_ok : forall x st, wfS n x ->
    exists comb st', getComb x tfail = Ok comb /\
      check_with_safevalues MFS safeValues comb tfail st =
        Ok (negb (bool_decide (faulty (bitset x))), st') /\
      keeps st st' /\ checks st' = S (checks st)
}.

Lemma keeps_refl s : keeps s s.
Proof. done. Qed.

Lemma keeps_trans s1 s2 s3 : keeps s1 s2 -> keeps s2 s3 -> keeps s1 s3.
Proof. unfold keeps. naive_solver congruence. Qed.

(** *** [getLongestChain] *)

Definition is_chain (tops bottoms : list Schema) (p : Schema * Schema) : Prop :=
  p.1 ∈ tops /\ p.2 ∈ bottoms /\ bitset p.2 ⊆ bitset p.1.

Definition chain_len (p : Schema * Schema) : Z :=
  (Z.of_nat (Schema_size p.1) - Z.of_nat (Schema_size p.2) + 1)%Z.

(** The accumulator holds a longest pair among the pairs seen. *)
Definition acc_ok (P : Schema * Schema -> Prop) (acc : chain_acc) : Prop :=
  (forall p, P p -> (chain_len p <= longest acc)%Z) /\
  match best acc with
  | None => longest acc = (-1)%Z
  | Some p => P p /\ longest acc = chain_len p
  end.

Lemma chain_len_pos p : bitset p.2 ⊆ bitset p.1 -> (0 < chain_len p)%Z.
Proof. intros H%subseteq_size. unfold chain_len, Schema_size. lia. Qed.

Lemma is_chain_single top b p :
  is_chain [top] [b] p <-> p = (top, b) /\ bitset b ⊆ bitset top.
Proof.
  unfold is_chain. rewrite !list_elem_of_singleton. destruct p as [p1 p2]; simpl.
  split; [intros (-> & -> & ?); done|intros ([= -> ->] & ?); done].
Qed.

Lemma is_chain_cons_r top b bottoms p :
  is_chain [top] (b :: bottoms) p <-> is_chain [top] [b] p \/ is_chain [top] bottoms p.
Proof. unfold is_chain. rewrite !elem_of_cons. set_solver. Qed.

Lemma is_chain_cons_l top tops bottoms p :
  is_chain (top :: tops) bottoms p <-> is_chain [top] bottoms p \/ is_chain tops bottoms p.
Proof. unfold is_chain. rewrite !elem_of_cons. set_solver. Qed.

Lemma acc_ok_ext P Q acc : (forall p, P p <-> Q p) -> acc_ok P acc -> acc_ok Q acc.
Proof.
  intros HPQ [H1 H2]. split.
  - intros p Hp. apply H1. by apply HPQ.
  - destruct (best acc); [|done]. by rewrite <- HPQ.
Qed.

Lemma chain_bottoms_ok n top bottoms acc P :
  wfS n top -> (forall s, s ∈ bottoms -> wfS n s) -> acc_ok P acc ->
  exists acc', chain_bottoms top bottoms acc = Ok acc' /\
    acc_ok (fun p => P p \/ is_chain [top] bottoms p) acc'.
Proof.
  intros Ht. revert acc P. induction bottoms as [|b bottoms IH]; intros acc P Hb [Hmax Hbest]; simpl.
  { exists acc. split; [done|]. split; unfold is_chain.
    - intros p [?|(_ & Hn & _)]; [auto|]. by apply not_elem_of_nil in Hn.
    - destruct (best acc); naive_solver. }
  rewrite isSupersetOf_ok.
  2:{ destruct Ht as [-> _], (Hb b) as [-> _]; [left|done]. }
  simpl. set (acc1 := if _ && _ then _ else acc).
  destruct (IH acc1 (fun p => P p \/ is_chain [top] [b] p)) as (acc' & -> & Hok).
  { intros s Hs. apply Hb. by right. }
  { unfold acc1. change (Z.of_nat (Schema_size top) - Z.of_nat (Schema_size b) + 1)%Z
      with (chain_len (top, b)).
    apply (acc_ok_ext (fun p => P p \/ p = (top, b) /\ bitset b ⊆ bitset top)).
    { intros p. by rewrite is_chain_single. }
    case_bool_decide as Hsub; simpl.
    - destruct (Z.ltb_spec (longest acc) (chain_len (top, b))) as [Hlt|Hge]; split; simpl.
      + intros p [Hp|[-> _]]; [apply Hmax in Hp; lia|done].
      + split; [by right|done].
      + intros p [Hp|[-> _]]; [by apply Hmax|done].
      + destruct (best acc); naive_solver.
    - split; [naive_solver|]. destruct (best acc); naive_solver. }
  exists acc'. split; [done|]. eapply acc_ok_ext; [|exact Hok].
  intros p. simpl. rewrite (is_chain_cons_r top b bottoms). tauto.
Qed.

Lemma chain_tops_ok n tops bottoms acc P :
  (forall s, s ∈ tops -> wfS n s) -> (forall s, s ∈ bottoms -> wfS n s) -> acc_ok P acc ->
  exists acc', chain_tops tops bottoms acc = Ok acc' /\
    acc_ok (fun p => P p \/ is_chain tops bottoms p) acc'.
Proof.
  intros Ht Hb. revert acc P. induction tops as [|t tops IH]; intros acc P [Hmax Hbest]; simpl.
  { exists acc. split; [done|]. split; unfold is_chain.
    - intros p [?|(Hn & _)]; [auto|]. by apply not_elem_of_nil in Hn.
    - destruct (best acc); naive_solver. }
  destruct (chain_bottoms_ok n t bottoms acc P) as (acc1 & -> & Hok1);
    [apply Ht; left|done|done|].
  simpl. destruct (IH) with (acc := acc1) (P := fun p => P p \/ is_chain [t] bottoms p)
    as (acc' & -> & Hok); [intros s Hs; apply Ht; by right|done|].
  exists acc'. split; [done|]. eapply acc_ok_ext; [|exact Hok].
  intros p. simpl. rewrite (is_chain_cons_l t tops bottoms). tauto.
Qed.

Lemma getLongestChain_ok n tops bottoms :
  wfM n tops -> wfM n bottoms -> schemas tops <> [] -> schemas bottoms <> [] ->
  exists r, getLongestChain tops bottoms = Ok r /\
    match r with
    | None => forall p, ~ is_chain (schemas tops) (schemas bottoms) p
    | Some p => is_chain (schemas tops) (schemas bottoms) p /\
        forall q, is_chain (schemas tops) (schemas bottoms) q -> (chain_len q <= chain_len p)%Z
    end.
Proof.
  intros [Ht _] [Hb _] Hnt Hnb. unfold getLongestChain, MSS_isEmpty, MSS_size.
  destruct (schemas tops) as [|t0 tl] eqn:Et; [done|].
  destruct (schemas bottoms) as [|b0 bl] eqn:Eb; [done|]. rewrite <- Et, <- Eb in *.
  assert (E0 : Nat.eqb (length (schemas tops)) 0 || Nat.eqb (length (schemas bottoms)) 0 = false)
    by by rewrite Et, Eb.
  rewrite E0.
  destruct (chain_tops_ok n (schemas tops) (schemas bottoms) (MkChain None (-1)) (fun _ => False))
    as (acc & -> & Hmax & Hbest); [done|done|done|].
  simpl. exists (best acc). split; [done|]. destruct (best acc) as [p|].
  - destruct Hbest as [[[]|Hp] Hl]. split; [done|]. intros q Hq. rewrite <- Hl. auto.
  - intros p Hp. assert (H := Hmax p (or_intror Hp)). destruct Hp as (_ & _ & Hs).
    apply chain_len_pos in Hs. lia.
Qed.

(** *** The chain of [binarySearch] *)

Definition mono_chain (l : list Schema) : Prop :=
  forall i j a b, i <= j -> l !! i = Some a -> l !! j = Some b -> bitset a ⊆ bitset b.

Lemma mono_chain_cons a l :
  (forall b, b ∈ l -> bitset a ⊆ bitset b) -> mono_chain l -> mono_chain (a :: l).
Proof.
  intros Ha Hl i j x y Hij Hx Hy. destruct i as [|i], j as [|j]; simpl in *; simplify_eq;
    [done| |lia|].
  - apply Ha. by eapply list_elem_of_lookup_2.
  - eapply (Hl i j); [lia|done..].
Qed.

Lemma build_chain_ok n max min ixs now :
  wfS n now -> wfS n max ->
  let l := now :: build_chain max min ixs now in
  mono_chain l /\ (forall s, s ∈ l -> wfS n s /\ bitset now ⊆ bitset s) /\
  exists z, last l = Some z /\
    forall i, i ∈ bitset z <-> i ∈ bitset now \/ (i ∈ ixs /\ (i ∉ bitset min) /\ i ∈ bitset max).
Proof.
  intros Hnow Hmax. revert now Hnow. induction ixs as [|i ixs IH]; intros now Hnow l; subst l; simpl.
  { split_and!.
    - intros i j a b Hij Ha Hb. destruct i, j; simpl in *; by simplify_eq.
    - intros s Hs. apply list_elem_of_singleton in Hs as ->. done.
    - exists now. split; [done|]. set_solver. }
  unfold Schema_get. case_bool_decide as Hmn; simpl.
  { destruct (IH now Hnow) as (H1 & H2 & z & H3 & H4). split_and!; [done|done|].
    exists z. split; [done|]. intros j. rewrite H4. set_solver. }
  case_bool_decide as Hmx; simpl.
  2:{ destruct (IH now Hnow) as (H1 & H2 & z & H3 & H4). split_and!; [done|done|].
      exists z. split; [done|]. intros j. rewrite H4. set_solver. }
  set (now' := Schema_set now i true).
  assert (Hnow' : wfS n now') by (apply Schema_set_wf; [done|by apply Hmax]).
  assert (Hsub : bitset now ⊆ bitset now') by (unfold now'; simpl; set_solver).
  replace (Schema_copy now') with now' by by destruct now'.
  destruct (IH now' Hnow') as (H1 & H2 & z & H3 & H4).
  split_and!.
  - apply mono_chain_cons; [|done]. intros b Hb. apply H2 in Hb. set_solver.
  - intros s [->|Hs]%elem_of_cons; [done|]. apply H2 in Hs. set_solver.
  - exists z. split; [done|]. intros j. rewrite H4. unfold now'; simpl. set_solver.
Qed.

Definition grows (n : nat) (l : list Schema) (max min : Schema) : Prop :=
  mono_chain l /\
  (forall s, s ∈ l -> wfS n s /\ bitset min ⊆ bitset s /\ bitset s ⊆ bitset max) /\
  exists z, last l = Some z /\ bitset z = bitset max.

(** In whatever order the bits are added. *)
Lemma grows_ok n max min ixs :
  wfS n max -> wfS n min -> bitset min ⊆ bitset max ->
  (forall i, i ∈ ixs <-> i < n) ->
  grows n (min :: build_chain max min ixs (Schema_copy min)) max min.
Proof.
  intros Hmax Hmin Hsub Hixs.
  replace (Schema_copy min) with min by by destruct min.
  destruct (build_chain_ok n max min ixs min Hmin Hmax) as (H1 & H2 & z & H3 & H4).
  assert (Hz : bitset z = bitset max).
  { apply set_eq. intros i. rewrite H4, Hixs. destruct Hmax as [_ Hmax].
    split; [set_solver|]. intros Hi. specialize (Hmax i Hi). destruct (decide (i ∈ bitset min)); tauto. }
  split_and!; [done| |by exists z].
  intros s Hs. destruct (H2 s Hs) as [Hw Hm]. split_and!; [done|done|].
  rewrite <- Hz. apply list_elem_of_lookup in Hs as [k Hk].
  rewrite last_lookup in H3. eapply H1; [|exact Hk|exact H3].
  apply lookup_lt_Some in Hk. simpl in *. lia.
Qed.

Lemma chain_of_ok n max min :
  wfS n max -> wfS n min -> bitset min ⊆ bitset max -> grows n (chain_of max min) max min.
Proof.
  intros Hmax Hmin Hsub. apply grows_ok; [done..|]. intros i.
  destruct Hmax as [-> _]. rewrite list_elem_of_In, <- in_rev, <- list_elem_of_In, elem_of_seq. lia.
Qed.

(** *** [binarySearch] against the oracle *)

Section search.
Context (n : nat) (MFS : list Comb) (safeValues tfail : Comb).
Context `{O : !HealthOracle n MFS safeValues tfail}.

Lemma bsearch_loop_ok fuel chain left right result st :
  mono_chain chain -> (forall s, s ∈ chain -> wfS n s) ->
  (0 <= left)%Z -> (left <= right + 1)%Z -> (right < Z.of_nat (length chain))%Z ->
  (right - left + 1 < Z.of_nat fuel)%Z ->
  (forall k s, (Z.of_nat k < left)%Z -> chain !! k = Some s -> ~ faulty (bitset s)) ->
  (result = -1 /\ right = Z.of_nat (length chain) - 1 \/
   result = right + 1 /\ exists s, chain !! Z.to_nat result = Some s /\ faulty (bitset s))%Z ->
  exists r st', bsearch_loop MFS safeValues fuel chain tfail left right result st = Ok (r, st') /\
    keeps st st' /\
    checks st' <= checks st + (if (left <=? right)%Z
                               then S (Nat.log2 (Z.to_nat (right - left + 1))) else 0) /\
    ((r = -1)%Z /\ (forall s, s ∈ chain -> ~ faulty (bitset s)) \/
     (0 <= r)%Z /\ exists s, chain !! Z.to_nat r = Some s /\ faulty (bitset s) /\
       forall k s', k < Z.to_nat r -> chain !! k = Some s' -> ~ faulty (bitset s')).
Proof.
  intros Hmono Hwf. revert left right result st.
  induction fuel as [|fuel IH]; intros left right result st Hl Hlr Hr Hf Hlow Hres; [lia|].
  simpl. destruct (Z.leb_spec left right) as [Hle|Hgt].
  2:{ exists result, st. split_and!; [done|done|lia|].
      destruct Hres as [[-> ->]|[Hres (s & Hs & Hfs)]].
      - left. split; [done|]. intros s Hs. apply list_elem_of_lookup in Hs as [k Hk].
        eapply Hlow; [|done]. apply lookup_lt_Some in Hk. lia.
      - right. split; [lia|]. exists s. split_and!; [done|done|].
        intros k s' Hk. apply Hlow. lia. }
  set (mid := (left + (right - left) ÷ 2)%Z).
  assert (Hmid : (left <= mid <= right /\
    2 * (mid - left) <= right - left < 2 * (mid - left) + 2)%Z).
  { unfold mid. rewrite Z.quot_div_nonneg by lia.
    pose proof (Z.div_mod (right - left) 2). pose proof (Z.mod_pos_bound (right - left) 2).
    lia. }
  destruct (lookup_lt_is_Some_2 chain (Z.to_nat mid)) as [s Hs]; [lia|]. rewrite Hs.
  assert (Hws : wfS n s) by (apply Hwf; by eapply list_elem_of_lookup_2).
  destruct (oracle_ok s st Hws) as (comb & st1 & Hc & Hchk & Hk1 & Hn1).
  rewrite M_bind_eq, Hc. simpl. rewrite M_bind_eq, Hchk.
  assert (Hlog : forall m, (0 < m)%Z -> (2 * m <= right - left + 1)%Z ->
    S (Nat.log2 (Z.to_nat m)) <= Nat.log2 (Z.to_nat (right - left + 1))).
  { intros m Hm1 Hm2. rewrite <- Nat.log2_double by lia. apply Nat.log2_le_mono. lia. }
  case_bool_decide as Hfs; simpl.
  - destruct (IH left (mid - 1) mid st1)%Z as (r & st2 & -> & Hk2 & Hn2 & Hpost);
      [lia..|done| |].
    { right. split; [lia|]. by exists s. }
    exists r, st2. split_and!; [done|by eapply keeps_trans| |done].
    destruct (Z.leb_spec left (mid - 1)); [|lia].
    pose proof (Hlog (mid - 1 - left + 1)%Z). lia.
  - destruct (IH (mid + 1) right result st1)%Z as (r & st2 & -> & Hk2 & Hn2 & Hpost);
      [lia..| | |].
    { intros k s' Hk Hs'. contradict Hfs. eapply faulty_mono; [|exact Hfs].
      eapply (Hmono k (Z.to_nat mid)); [lia|done..]. }
    { done. }
    exists r, st2. split_and!; [done|by eapply keeps_trans| |done].
    destruct (Z.leb_spec (mid + 1) right); [|lia].
    pose proof (Hlog (right - (mid + 1) + 1)%Z).
    lia.
Qed.

#[local] Arguments bsearch_loop : simpl never.

(** For any chain that grows from [min] to [max]. *)
Lemma binarySearch_on_ok chain_fn max min st :
  wfS n max -> wfS n min -> bitset min ⊆ bitset max ->
  grows n (chain_fn max min) max min ->
  exists r st', binarySearch_on MFS safeValues chain_fn max min tfail st = Ok (r, st') /\
    keeps st st' /\
    checks st' <= checks st + 2 + Nat.log2 (length (chain_fn max min)) /\
    match r with
    | None => ~ faulty (bitset max)
    | Some s => exists k, chain_fn max min !! k = Some s /\ faulty (bitset s) /\
        forall j s', j < k -> chain_fn max min !! j = Some s' -> ~ faulty (bitset s')
    end.
Proof.
  intros Hmax Hmin Hsub (Hmono & Hall & z & Hz & Hzm). unfold binarySearch_on.
  assert (Hls : logic_size max = logic_size min) by (destruct Hmax, Hmin; congruence).
  rewrite Hls, Nat.eqb_refl. simpl.
  rewrite M_bind_eq, isSupersetOf_ok by done. simpl. rewrite bool_decide_true by done. simpl.
  destruct (oracle_ok max st Hmax) as (comb & st1 & Hc & Hchk & Hk1 & Hn1).
  rewrite M_bind_eq, Hc. simpl. rewrite M_bind_eq, Hchk.
  case_bool_decide as Hfm; cbn [negb].
  2:{ exists None, st1. split_and!; [done|done|lia|done]. }
  set (chain := chain_fn max min) in *.
  assert (Hlen : length chain <> 0).
  { intros E. apply nil_length_inv in E. by rewrite E in Hz. }
  destruct (bsearch_loop_ok (S (length chain)) chain 0 (Z.of_nat (length chain) - 1) (-1) st1)
    as (r & st2 & Hrun & Hk2 & Hn2 & Hpost); [done| |lia..| | |].
  { intros s Hs. by apply Hall. }
  { intros k s Hk. lia. }
  { left. lia. }
  rewrite M_bind_eq.
  destruct Hpost as [[-> Hnone]|(Hr & s & Hs & Hfs & Hleast)].
  { exfalso. apply (Hnone z); [|by rewrite Hzm]. rewrite last_lookup in Hz.
    by eapply list_elem_of_lookup_2. }
  rewrite Hrun. destruct (Z.eqb_spec r (-1)); [lia|]. rewrite Hs.
  exists (Some s), st2. split_and!; [done|by eapply keeps_trans| |].
  - destruct (Z.leb_spec 0 (Z.of_nat (length chain) - 1)); [|lia].
    replace (Z.to_nat (Z.of_nat (length chain) - 1 - 0 + 1)) with (length chain) in Hn2 by lia. lia.
  - by exists (Z.to_nat r).
Qed.

Lemma binarySearch_ok max min st :
  wfS n max -> wfS n min -> bitset min ⊆ bitset max ->
  exists r st', binarySearch MFS safeValues max min tfail st = Ok (r, st') /\ keeps st st' /\
    checks st' <= checks st + 2 + Nat.log2 (length (chain_of max min)) /\
    match r with
    | None => ~ faulty (bitset max)
    | Some s => exists k, chain_of max min !! k = Some s /\ faulty (bitset s) /\
        forall j s', j < k -> chain_of max min !! j = Some s' -> ~ faulty (bitset s')
    end.
Proof. intros. apply binarySearch_on_ok; [done..|]. by apply chain_of_ok. Qed.

(** *** [identify] against the oracle *)

Record id_inv (u : Schema) (Mi Ma : MonotoneSchemaSet) : Prop := {
  iv_u : wfS n u;
  iv_mi : wfM n Mi;
  iv_ma : wfM n Ma;
  iv_min : isMinimal Mi = true;
  iv_max : isMinimal Ma = false;
  iv_faulty : forall c, c ∈ schemas Mi -> faulty (bitset c) /\ bitset c ⊆ bitset u;
  iv_healthy : forall c, c ∈ schemas Ma -> ~ faulty (bitset c) /\ bitset c ⊆ bitset u;
  iv_top : covers (⊆) (schemas Mi) (bitset u);
  iv_bot : covers (mode_rel false) (schemas Ma) ∅
}.

Definition known (Mi Ma : MonotoneSchemaSet) (X : gset nat) : Prop :=
  covers (⊆) (schemas Mi) X \/ covers (mode_rel false) (schemas Ma) X.

Definition complete (u : Schema) (Mi Ma : MonotoneSchemaSet) : Prop :=
  forall X, X ⊆ bitset u -> known Mi Ma X.

Definition pending (Mi Ma : MonotoneSchemaSet) (u : Schema) : nat :=
  length (filter (fun X => ~ known Mi Ma X) (subsets (elements (bitset u)))).

Lemma covers_faulty u Mi Ma X : id_inv u Mi Ma -> covers (⊆) (schemas Mi) X -> faulty X.
Proof. intros Hi (c & Hc & Hs). apply (iv_faulty _ _ _ Hi) in Hc as [Hf _]. eapply faulty_mono; [exact Hs|done]. Qed.

Lemma covers_healthy u Mi Ma X :
  id_inv u Mi Ma -> covers (mode_rel false) (schemas Ma) X -> ~ faulty X.
Proof.
  intros Hi (c & Hc & Hs) Hf. apply (iv_healthy _ _ _ Hi) in Hc as [Hn _]. apply Hn.
  eapply faulty_mono; [exact Hs|done].
Qed.

Lemma pending_le u Mi Ma : pending Mi Ma u <= 2 ^ size (bitset u).
Proof.
  unfold pending. etrans; [apply length_filter|]. rewrite length_subsets.
  reflexivity.
Qed.

Lemma pending_lt u Mi Ma Mi' Ma' X :
  (forall Y, known Mi Ma Y -> known Mi' Ma' Y) ->
  X ⊆ bitset u -> ~ known Mi Ma X -> known Mi' Ma' X ->
  pending Mi' Ma' u < pending Mi Ma u.
Proof.
  intros Hg Hsub Hn Hk. unfold pending. apply (filter_length_lt _ _ _ X).
  - intros Y _ HY1 HY2. by apply HY1, Hg.
  - apply elem_of_subsets. by rewrite list_to_set_elements_L.
  - done.
  - by intros H.
Qed.

(** The tops are the maximal schemas not known to be faulty, the bottoms the
    minimal ones not known to be healthy. *)
Lemma tops_bottoms_ok u Mi Ma :
  id_inv u Mi Ma ->
  exists comp bottoms mhs tops,
    MSS_complement_in Ma u = Ok comp /\ getMHS comp = Ok bottoms /\
    getMHS Mi = Ok mhs /\ MSS_complement_in mhs u = Ok tops /\
    wfM n tops /\ wfM n bottoms /\ schemas tops <> [] /\ schemas bottoms <> [] /\
    (forall X, covers (mode_rel false) (schemas tops) X <->
       X ⊆ bitset u /\ ~ covers (⊆) (schemas Mi) X) /\
    (forall X, X ⊆ bitset u ->
       covers (⊆) (schemas bottoms) X <-> ~ covers (mode_rel false) (schemas Ma) X).
Proof.
  intros Hi.
  assert (Hu := iv_u _ _ _ Hi).
  assert (Hfu : faulty (bitset u)) by (eapply covers_faulty; [done|by apply (iv_top _ _ _ Hi)]).
  destruct (complement_all_ok n u (MSS_new (negb (isMinimal Ma))) (schemas Ma))
    as (comp & Hcomp & Hwc & Hmc & Hinc & Hcc); [apply MSS_new_wf|done| |].
  { intros s Hs. split; [by apply (wfM_schemas _ _ (iv_ma _ _ _ Hi))|by apply (iv_healthy _ _ _ Hi)]. }
  rewrite (iv_max _ _ _ Hi) in *. simpl in *.
  assert (Hcov : forall X, covers (⊆) (schemas comp) X <->
    exists s, s ∈ schemas Ma /\ bitset u ∖ bitset s ⊆ X).
  { intros X. rewrite Hcc. pose proof (covers_nil (⊆) X). tauto. }
  clear Hcc.
  assert (Hne : schemas comp <> []).
  { destruct (iv_bot _ _ _ Hi) as (c & Hc & _). intros E.
    destruct (proj2 (Hcov (bitset u))) as (d & Hd & _); [exists c; set_solver|].
    rewrite E in Hd. by apply not_elem_of_nil in Hd. }
  assert (Hn1 : ~ (exists s, schemas comp = [s] /\ bitset s = ∅)).
  { intros (s & E & Es). destruct (Hinc s) as [Hx|(c & Hc & ->)]; [rewrite E; left| |].
    - by apply not_elem_of_nil in Hx.
    - apply (iv_healthy _ _ _ Hi) in Hc as [Hc1 Hc2]. simpl in Es. apply Hc1.
      eapply faulty_mono; [|exact Hfu]. intros i Hiu. destruct (decide (i ∈ bitset c)); set_solver. }
  destruct (getMHS_ok n comp Hwc Hne Hn1) as (bottoms & Hb & Hwb & Hmb & Hcb).
  destruct (getMHS_ok n Mi) as (mhs & Hm & Hwm & Hmm & Hcm); [apply (iv_mi _ _ _ Hi)| | |].
  { destruct (iv_top _ _ _ Hi) as (c & Hc & _). intros E. rewrite E in Hc.
    by apply not_elem_of_nil in Hc. }
  { intros (s & E & Es). destruct (iv_faulty _ _ _ Hi s) as [Hf _]; [rewrite E; left|].
    rewrite Es in Hf. by apply faulty_empty. }
  assert (Hmhs_u : forall s, s ∈ schemas mhs -> wfS n s /\ bitset s ⊆ bitset u).
  { intros s Hs. split; [by apply Hwm|].
    apply (antichain_minimal n) in Hs as [Hs1 Hs2]; [|apply Hwm..|by apply Hwm].
    assert (Heq : bitset s ∩ bitset u = bitset s); [|set_solver].
    apply Hs2; [|set_solver]. apply Hcm. apply Hcm in Hs1. intros c Hc.
    destruct (Hs1 c Hc) as (i & Hi1 & Hi2). exists i. apply (iv_faulty _ _ _ Hi) in Hc as [_ Hc]. set_solver. }
  destruct (complement_all_ok n u (MSS_new (negb (isMinimal mhs))) (schemas mhs))
    as (tops & Ht & Hwt & Hmt & Hint & Hct); [apply MSS_new_wf|done|done|].
  rewrite Hmm in *. simpl in *.
  assert (Htops : forall X, covers (mode_rel false) (schemas tops) X <->
    X ⊆ bitset u /\ ~ covers (⊆) (schemas Mi) X).
  { intros X. rewrite Hct. split.
    - intros [Hx|(s & Hs & Hx)]; [by apply covers_nil in Hx|].
      split; [set_solver|]. intros (c & Hc & Hcx).
      destruct (Hcm (bitset s)) as [H1 _]. destruct (H1 (ltac:(by exists s)) c Hc) as (i & ? & ?).
      set_solver.
    - intros [Hxu Hn]. right. destruct (proj2 (Hcm (bitset u ∖ X))) as (s & Hs & Hsx).
      + intros c Hc. destruct (decide (bitset c ⊆ X)) as [?|Hcx]; [exfalso; apply Hn; by exists c|].
        apply not_subseteq_witness in Hcx as (i & Hic & Hix). exists i.
        apply (iv_faulty _ _ _ Hi) in Hc as [_ Hc]. set_solver.
      + exists s. split; [done|]. intros i Hix. destruct (decide (i ∈ bitset s)); set_solver. }
  assert (Hbots : forall X, X ⊆ bitset u ->
    covers (⊆) (schemas bottoms) X <-> ~ covers (mode_rel false) (schemas Ma) X).
  { intros X Hxu. rewrite Hcb. split.
    - intros Hh (s & Hs & Hsx). simpl in Hsx.
      destruct (proj2 (Hcov (bitset u ∖ bitset s))) as (c & Hc & Hcs); [by exists s|].
      destruct (Hh c Hc) as (i & ? & ?). set_solver.
    - intros Hn c Hc. destruct (Hinc c Hc) as [Hx|(s & Hs & ->)]; [by apply not_elem_of_nil in Hx|].
      simpl. destruct (decide (X ⊆ bitset s)) as [?|Hxs]; [exfalso; apply Hn; by exists s|].
      apply not_subseteq_witness in Hxs as (i & Hix & His). exists i. set_solver. }
  exists comp, bottoms, mhs, tops. split_and!;
    [by unfold MSS_complement_in; rewrite (iv_max _ _ _ Hi)|done|done
    |by unfold MSS_complement_in; rewrite Hmm|done|done| | |done|done].
  - destruct (proj2 (Htops ∅)) as (c & Hc & _).
    { split; [set_solver|]. intros Hx. apply faulty_empty. by eapply covers_faulty. }
    intros E. rewrite E in Hc. by apply not_elem_of_nil in Hc.
  - destruct (proj2 (Hbots (bitset u) ltac:(done))) as (c & Hc & _).
    { intros Hx. by eapply covers_healthy. }
    intros E. rewrite E in Hc. by apply not_elem_of_nil in Hc.
Qed.

(** One found chain: its ends, and that it is neither known faulty nor known
    healthy. *)
Lemma chain_pending u Mi Ma tops bottoms max min :
  id_inv u Mi Ma -> wfM n tops -> wfM n bottoms ->
  (forall X, covers (mode_rel false) (schemas tops) X <->
     X ⊆ bitset u /\ ~ covers (⊆) (schemas Mi) X) ->
  (forall X, X ⊆ bitset u ->
     covers (⊆) (schemas bottoms) X <-> ~ covers (mode_rel false) (schemas Ma) X) ->
  is_chain (schemas tops) (schemas bottoms) (max, min) ->
  wfS n max /\ wfS n min /\ bitset min ⊆ bitset max /\ bitset max ⊆ bitset u /\
  ~ known Mi Ma (bitset max) /\ size (bitset max) < size (bitset u).
Proof.
  intros Hi [Hwt _] [Hwb _] Ht Hb (Hmax & Hmin & Hsub). simpl in *.
  destruct (proj1 (Ht (bitset max))) as [Hu Hnf]; [by exists max|].
  assert (Hnh : ~ covers (mode_rel false) (schemas Ma) (bitset max)).
  { apply Hb; [done|]. by exists min. }
  split_and!; [auto..| |].
  - by intros [?|?].
  - apply subset_size. split; [done|]. intros Hum. apply Hnf.
    destruct (iv_top _ _ _ Hi) as (c & Hc & Hcu). exists c. set_solver.
Qed.

Lemma id_inv_add_healthy u Mi Ma max :
  id_inv u Mi Ma -> wfS n max -> bitset max ⊆ bitset u -> ~ faulty (bitset max) ->
  exists Ma', MSS_add_ Ma (Schema_copy max) = Ok Ma' /\ id_inv u Mi Ma' /\
    (forall X, known Mi Ma X -> known Mi Ma' X) /\ known Mi Ma' (bitset max).
Proof.
  intros Hi Hm Hmu Hh. replace (Schema_copy max) with max by by destruct max.
  destruct (MSS_add__ok n Ma max (iv_ma _ _ _ Hi) Hm) as (Ma' & He & Hw & Hmin & Hin & Hc).
  rewrite (iv_max _ _ _ Hi) in *.
  exists Ma'. split_and!; [done| | |].
  - destruct Hi. split; [done..| | |].
    + intros c [?| ->]%Hin; [by apply iv_healthy0|done].
    + done.
    + apply Hc. by left.
  - intros X [?|?]; [by left|right]. apply Hc. by left.
  - right. apply Hc. right. simpl. done.
Qed.

Lemma id_inv_add_faulty u Mi Ma x :
  id_inv u Mi Ma -> wfS n x -> bitset x ⊆ bitset u -> faulty (bitset x) ->
  exists Mi', MSS_add_ Mi x = Ok Mi' /\ id_inv u Mi' Ma.
Proof.
  intros Hi Hm Hmu Hf.
  destruct (MSS_add__ok n Mi x (iv_mi _ _ _ Hi) Hm) as (Mi' & He & Hw & Hmin & Hin & Hc).
  rewrite (iv_min _ _ _ Hi) in *.
  exists Mi'. split; [done|]. destruct Hi. split; [done..| | | |].
  - intros c [?| ->]%Hin; [by apply iv_faulty0|done].
  - done.
  - apply Hc. by left.
  - done.
Qed.

Lemma id_inv_merge u s Mi Ma Mr Mar :
  id_inv u Mi Ma -> id_inv s Mr Mar -> bitset s ⊆ bitset u ->
  exists Mi' Ma', MSS_addAll Mi (schemas Mr) = Ok Mi' /\ MSS_addAll Ma (schemas Mar) = Ok Ma' /\
    id_inv u Mi' Ma' /\ (forall X, known Mi Ma X -> known Mi' Ma' X) /\ known Mi' Ma' (bitset s).
Proof.
  intros Hi Hs Hsub.
  destruct (MSS_addAll_ok n (schemas Mr) Mi) as (Mi' & He1 & Hw1 & Hm1 & Hin1 & Hc1);
    [apply (iv_mi _ _ _ Hi)|apply (wfM_schemas _ _ (iv_mi _ _ _ Hs))|].
  destruct (MSS_addAll_ok n (schemas Mar) Ma) as (Ma' & He2 & Hw2 & Hm2 & Hin2 & Hc2);
    [apply (iv_ma _ _ _ Hi)|apply (wfM_schemas _ _ (iv_ma _ _ _ Hs))|].
  rewrite (iv_min _ _ _ Hi) in *. rewrite (iv_max _ _ _ Hi) in *.
  exists Mi', Ma'. split_and!; [done|done| | |].
  - split; [apply (iv_u _ _ _ Hi)|done|done|done|done| | | |].
    + intros c [Hc|Hc]%Hin1; [by apply (iv_faulty _ _ _ Hi)|].
      apply (iv_faulty _ _ _ Hs) in Hc as [? ?]. split; [done|set_solver].
    + intros c [Hc|Hc]%Hin2; [by apply (iv_healthy _ _ _ Hi)|].
      apply (iv_healthy _ _ _ Hs) in Hc as [? ?]. split; [done|set_solver].
    + apply Hc1. left. apply (iv_top _ _ _ Hi).
    + apply Hc2. left. apply (iv_bot _ _ _ Hi).
  - intros X [?|?]; [left; apply Hc1; by left|right; apply Hc2; by left].
  - left. apply Hc1. right. apply (iv_top _ _ _ Hs).
Qed.

Lemma id_inv_start s :
  wfS n s -> faulty (bitset s) ->
  exists Mr Mar, MSS_add_ (MSS_new true) s = Ok Mr /\
    MSS_add_ (MSS_new false) (Schema_new (logic_size s)) = Ok Mar /\ id_inv s Mr Mar.
Proof.
  intros Hs Hf.
  destruct (MSS_add__ok n (MSS_new true) s) as (Mr & He1 & Hw1 & Hm1 & Hin1 & Hc1);
    [apply MSS_new_wf|done|].
  destruct (MSS_add__ok n (MSS_new false) (Schema_new (logic_size s)))
    as (Mar & He2 & Hw2 & Hm2 & Hin2 & Hc2);
    [apply MSS_new_wf|destruct Hs as [-> _]; split; simpl; set_solver|].
  exists Mr, Mar. simpl in *.
  assert (Htop : covers (⊆) (schemas Mr) (bitset s)) by (apply Hc1; by right).
  assert (Hbot : covers (mode_rel false) (schemas Mar) ∅) by (apply Hc2; right; set_solver).
  split_and!; [done|done|].
  - split; [done..| | |done|done].
    + intros c [Hc| ->]%Hin1; [by apply not_elem_of_nil in Hc|done].
    + intros c [Hc| ->]%Hin2; [by apply not_elem_of_nil in Hc|]. simpl.
      split; [apply faulty_empty|set_solver].
Qed.

Lemma lift_ok {A} (r : res jexn A) (a : A) (st : ResolverState) :
  r = Ok a -> lift r st = Ok (a, st).
Proof. by intros ->. Qed.

Lemma pow2_step k m : k < m -> 2 ^ k + k + 2 ^ k < 2 ^ m + m.
Proof.
  intros Hk. assert (2 ^ S k <= 2 ^ m) by (apply Nat.pow_le_mono_r; lia).
  simpl in *. lia.
Qed.

Lemma identify_loop_ok fuel u Mi Ma st :
  id_inv u Mi Ma ->
  2 ^ size (bitset u) + size (bitset u) + pending Mi Ma u < fuel ->
  exists Mi' Ma' st', identify_loop MFS safeValues fuel u Mi Ma tfail st = Ok ((Mi', Ma'), st') /\
    keeps st st' /\ id_inv u Mi' Ma' /\ complete u Mi' Ma' .
Proof.
  revert u Mi Ma st. induction fuel as [|fuel IH]; intros u Mi Ma st Hi Hfuel; [lia|].
  cbn [identify_loop].
  destruct (tops_bottoms_ok u Mi Ma Hi)
    as (comp & bottoms & mhs & tops & E1 & E2 & E3 & E4 & Hwt & Hwb & Hnt & Hnb & Ht & Hb).
  destruct (getLongestChain_ok n tops bottoms Hwt Hwb Hnt Hnb) as (lc & E5 & Hlc).
  erewrite M_bind_ok by (by apply lift_ok). erewrite M_bind_ok by (by apply lift_ok).
  erewrite M_bind_ok by (by apply lift_ok). erewrite M_bind_ok by (by apply lift_ok).
  erewrite M_bind_ok by (by apply lift_ok).
  destruct lc as [[max min]|].
  2:{ exists Mi, Ma, st. split_and!; [done|done|done|]. intros X HX.
      destruct (decide (covers (⊆) (schemas Mi) X)) as [?|Hnf]; [by left|].
      destruct (decide (covers (mode_rel false) (schemas Ma) X)) as [?|Hnh]; [by right|].
      exfalso. destruct (proj2 (Ht X) (conj HX Hnf)) as (t & Htt & HtX).
      destruct (proj2 (Hb X HX) Hnh) as (b & Hbb & HbX).
      apply (Hlc (t, b)). split_and!; [done|done|]. simpl in *. set_solver. }
  destruct Hlc as [Hch _].
  destruct (chain_pending u Mi Ma tops bottoms max min Hi Hwt Hwb Ht Hb Hch)
    as (Hwmax & Hwmin & Hsub & Hmu & Hpend & Hlt).
  destruct (binarySearch_ok max min st Hwmax Hwmin Hsub) as (r & st1 & E6 & Hk1 & _ & Hr).
  erewrite M_bind_ok by done.
  destruct r as [s|].
  2:{ destruct (id_inv_add_healthy u Mi Ma max Hi Hwmax Hmu Hr) as (Ma' & E7 & Hi' & Hg & Hkn).
      erewrite M_bind_ok by (by apply lift_ok).
      destruct (IH u Mi Ma' st1 Hi') as (Mi2 & Ma2 & st2 & -> & Hk2 & Hi2 & Hc2).
      { pose proof (pending_lt u Mi Ma Mi Ma' (bitset max) Hg Hmu Hpend Hkn). lia. }
      exists Mi2, Ma2, st2. split_and!; [done|by eapply keeps_trans|done|done]. }
  destruct Hr as (k & Hk & Hfs & _).
  destruct (chain_of_ok n max min Hwmax Hwmin Hsub) as (_ & Hall & _).
  destruct (Hall s) as (Hws & _ & Hsmax); [by eapply list_elem_of_lookup_2|].
  replace (Schema_copy s) with s by by destruct s.
  destruct (id_inv_start s Hws Hfs) as (Mr & Mar & E7 & E8 & Hir).
  cbv zeta. erewrite M_bind_ok by (by apply lift_ok). erewrite M_bind_ok by (by apply lift_ok).
  assert (Hsize : size (bitset s) <= size (bitset max)) by by apply subseteq_size.
  assert (Hsu : bitset s ⊆ bitset u) by set_solver.
  assert (Hps : ~ known Mi Ma (bitset s)).
  { intros [(c & Hc & Hcs)|Hx]; [|exact (covers_healthy u Mi Ma _ Hi Hx Hfs)].
    apply Hpend. left. exists c. set_solver. }
  assert (Hrec : exists Mr' Mar' st2,
    (if Nat.eqb (Schema_size s) 1 then mret (Mr, Mar)
     else identify_loop MFS safeValues fuel s Mr Mar tfail) st1 = Ok ((Mr', Mar'), st2) /\
    keeps st1 st2 /\ id_inv s Mr' Mar').
  { destruct (Nat.eqb_spec (Schema_size s) 1) as [Hs1|Hs1].
    - by exists Mr, Mar, st1.
    - destruct (IH s Mr Mar st1 Hir) as (Mr' & Mar' & st2 & E9 & Hk2 & Hi2 & Hc2).
      { pose proof (pending_le s Mr Mar). pose proof (pow2_step (size (bitset s)) (size (bitset u))).
        lia. }
      by exists Mr', Mar', st2. }
  destruct Hrec as (Mr' & Mar' & st2 & E9 & Hk2 & Hir').
  erewrite M_bind_ok by done. cbn [fst snd].
  destruct (id_inv_merge u s Mi Ma Mr' Mar' Hi Hir' Hsu) as (Mi' & Ma' & E10 & E11 & Hi' & Hg & Hkn).
  erewrite M_bind_ok by (by apply lift_ok). erewrite M_bind_ok by (by apply lift_ok).
  destruct (IH u Mi' Ma' st2 Hi') as (Mi3 & Ma3 & st3 & -> & Hk3 & Hi3 & Hc3).
  { pose proof (pending_lt u Mi Ma Mi' Ma' (bitset s) Hg Hsu Hps Hkn). lia. }
  exists Mi3, Ma3, st3. split_and!; [done| |done|done].
  eapply keeps_trans; [done|]. by eapply keeps_trans.
Qed.

Lemma identify_ok fuel u Mi Ma st :
  id_inv u Mi Ma -> 2 ^ size (bitset u) + size (bitset u) + 2 ^ size (bitset u) < fuel ->
  exists Mi' Ma' st', identify MFS safeValues fuel u Mi Ma tfail st = Ok ((Mi', Ma'), st') /\
    keeps st st' /\ id_inv u Mi' Ma' /\ complete u Mi' Ma'.
Proof.
  intros Hi Hf. unfold identify. destruct (Nat.eqb_spec (Schema_size u) 1) as [H1|H1].
  - exists Mi, Ma, st. split_and!; [done|done|done|].
    unfold Schema_size in H1. apply size_1_elem_of in H1 as [x Hx]. intros X HX. destruct (decide (x ∈ X)).
    + left. destruct (iv_top _ _ _ Hi) as (c & ? & ?). exists c. set_solver.
    + right. destruct (iv_bot _ _ _ Hi) as (c & ? & Hc). exists c. simpl in *. set_solver.
  - apply identify_loop_ok; [done|]. pose proof (pending_le u Mi Ma). lia.
Qed.

(** The minimal faulty schemas are exactly what [identify] leaves in CMinF. *)
Lemma identify_minimal u Mi Ma c :
  id_inv u Mi Ma -> complete u Mi Ma -> wfS n c -> bitset c ⊆ bitset u ->
  c ∈ schemas Mi <-> faulty (bitset c) /\ forall Y, faulty Y -> Y ⊆ bitset c -> Y = bitset c.
Proof.
  intros Hi Hco Hwc Hcu.
  assert (Hiff : forall X, X ⊆ bitset u -> covers (⊆) (schemas Mi) X <-> faulty X).
  { intros X HX. split; [by eapply covers_faulty|]. intros Hf.
    destruct (Hco X HX) as [?|Hh]; [done|].
    by destruct (covers_healthy u Mi Ma X Hi Hh). }
  rewrite (antichain_minimal n); [|apply (iv_mi _ _ _ Hi)..|done].
  rewrite Hiff by done. split; intros [Hf Hm]; (split; [done|]); intros Y HY HYc; apply Hm.
  - apply Hiff; [set_solver|done].
  - done.
  - by apply Hiff; [set_solver|].
  - done.
Qed.
End search.

(** ** The checker of the experiments implements the interface

    The faults [MFS] of a program under test, its safe values (as produced
    by [computeSafeValue.py]: a value occurring in no fault, [-] for a
    parameter that no fault mentions) and a test case. *)
Record FaultModel (n : nat) (MFS : list Comb) (safeValues : Comb) : Prop := {
  fm_length : forall m, m ∈ MFS -> length m = n;
  fm_nonempty : forall m, m ∈ MFS -> bitset (Schema_ofComb m) <> ∅;
  fm_safe_length : length safeValues = n;
  fm_safe_values : forall v, v ∈ safeValues -> v = UNKNOWN \/ v = 0%Z \/ v = 1%Z;
  fm_safe : forall m i v s, m ∈ MFS -> m !! i = Some v -> v <> UNKNOWN ->
    safeValues !! i = Some s -> s <> UNKNOWN /\ s <> v
}.

Record TestOf (n : nat) (t : Comb) : Prop := {
  to_length : length t = n;
  to_values : forall v, v ∈ t -> v = 0%Z \/ v = 1%Z
}.

(** A fault contained in a test case, and the set of its parameters. *)
Definition fault_in (MFS : list Comb) (tfail m : Comb) : Prop :=
  m ∈ MFS /\ contains_loop tfail m = true.

Lemma contains_loop_spec A B :
  length A = length B ->
  contains_loop A B = true <->
  forall i v, B !! i = Some v -> v <> UNKNOWN -> A !! i = Some v.
Proof.
  revert B. induction A as [|a A IH]; intros [|b B] Hlen; simplify_eq/=.
  { split; [|done]. intros _ i v Hv. done. }
  destruct (Z.eqb_spec a b) as [->|Hab]; simpl.
  { rewrite IH by done. split.
    - intros Hc [|i] v; simpl; [congruence|apply Hc].
    - intros Hc i v. apply (Hc (S i)). }
  destruct (Z.eqb_spec b UNKNOWN) as [->|Hb]; simpl.
  { rewrite IH by done. split.
    - intros Hc [|i] v; simpl; [congruence|apply Hc].
    - intros Hc i v. apply (Hc (S i)). }
  split; [done|]. intros Hc. specialize (Hc 0 b eq_refl Hb). simpl in Hc. congruence.
Qed.

Lemma contains_ok A B : length A = length B -> contains A B = Ok (contains_loop A B).
Proof. intros H. unfold contains. by rewrite H, Nat.eqb_refl. Qed.

Lemma elem_of_Schema_ofComb m i :
  i ∈ bitset (Schema_ofComb m) <-> exists v, m !! i = Some v /\ v <> UNKNOWN.
Proof.
  unfold Schema_ofComb; simpl. rewrite elem_of_list_to_set, elem_of_filter_seq. split.
  - intros [Hn Hl]. destruct (lookup_lt_is_Some_2 m i Hl) as [v Hv]. exists v. naive_solver.
  - intros (v & Hv & Hn). split; [naive_solver|]. by eapply lookup_lt_Some.
Qed.

Lemma Schema_ofComb_wf n m : length m = n -> wfS n (Schema_ofComb m).
Proof.
  intros Hl. split; [done|]. intros i (v & Hv & _)%elem_of_Schema_ofComb.
  apply lookup_lt_Some in Hv. lia.
Qed.

Lemma getComb_loop_ok x tfail k m :
  k + m <= length tfail ->
  exists c, getComb_loop x tfail (seq k m) = Ok c /\ length c = m /\
    forall i, i < m -> c !! i = if decide (k + i ∈ bitset x) then tfail !! (k + i) else Some UNKNOWN.
Proof.
  revert k. induction m as [|m IH]; intros k Hk; simpl.
  { exists []. split_and!; [done|done|lia]. }
  destruct (IH (S k)) as (c & Hc & Hl & Hi); [lia|].
  destruct (lookup_lt_is_Some_2 tfail k) as [v Hv]; [lia|].
  exists ((if decide (k ∈ bitset x) then v else UNKNOWN) :: c).
  unfold Schema_get. rewrite Hv. split_and!.
  - case_bool_decide; rewrite Hc; simpl; [by rewrite decide_True|by rewrite decide_False].
  - simpl. by rewrite Hl.
  - intros [|i] Him; simpl.
    + rewrite Nat.add_0_r. by destruct (decide _).
    + rewrite Hi by lia. by replace (k + S i) with (S k + i) by lia.
Qed.

Lemma getComb_ok n x tfail :
  wfS n x -> length tfail = n ->
  exists c, getComb x tfail = Ok c /\ length c = n /\
    forall i, i < n -> c !! i = if decide (i ∈ bitset x) then tfail !! i else Some UNKNOWN.
Proof.
  intros [Hx _] Hl. unfold getComb. rewrite Hx.
  apply (getComb_loop_ok x tfail 0 n). lia.
Qed.

Lemma padding_loop_ok safeValues tfail comb k :
  k + length comb <= length safeValues -> k + length comb <= length tfail ->
  exists p, padding_loop k safeValues tfail comb = Ok p /\ length p = length comb /\
    forall i c s t, comb !! i = Some c -> safeValues !! (k + i) = Some s ->
      tfail !! (k + i) = Some t ->
      p !! i = Some (if (c =? UNKNOWN)%Z then if (s =? UNKNOWN)%Z then 1 - t else s else c)%Z.
Proof.
  revert k. induction comb as [|c comb IH]; intros k Hs Ht; simpl in *.
  { by exists []. }
  destruct (IH (S k)) as (p & Hp & Hl & Hi); [lia..|]. rewrite Hp.
  destruct (lookup_lt_is_Some_2 safeValues k) as [s Hsk]; [lia|].
  destruct (lookup_lt_is_Some_2 tfail k) as [t Htk]; [lia|].
  exists ((if (c =? UNKNOWN)%Z then if (s =? UNKNOWN)%Z then 1 - t else s else c)%Z :: p).
  rewrite Hsk, Htk. split_and!.
  - by destruct (c =? UNKNOWN)%Z, (s =? UNKNOWN)%Z.
  - simpl. by rewrite Hl.
  - intros [|i] c' s' t' Hc' Hs' Ht'; simpl in *.
    + rewrite Nat.add_0_r in *. by simplify_eq.
    + replace (k + S i) with (S k + i) in * by lia. by apply Hi.
Qed.

Section checker.
Context (n : nat) (MFS : list Comb) (safeValues tfail : Comb).
Context (FM : FaultModel n MFS safeValues) (HT : TestOf n tfail).

Definition faultyX (X : gset nat) : Prop :=
  exists m, fault_in MFS tfail m /\ bitset (Schema_ofComb m) ⊆ X.

#[local] Instance faultyX_dec X : Decision (faultyX X).
Proof using.
  refine (cast_if (decide (Exists (fun m => contains_loop tfail m = true /\
    bitset (Schema_ofComb m) ⊆ X) MFS))); unfold faultyX, fault_in;
  rewrite Exists_exists in *; naive_solver.
Defined.

(** The padded test case contains a fault exactly when the combination does. *)
Lemma padding_faulty x c :
  wfS n x -> getComb x tfail = Ok c ->
  exists p, paddingWithSafeValues c safeValues tfail = Ok p /\ length p = n /\
    forall m, m ∈ MFS -> contains_loop p m = true <->
      contains_loop tfail m = true /\ bitset (Schema_ofComb m) ⊆ bitset x.
Proof.
  intros Hx Hc. destruct (getComb_ok n x tfail Hx (to_length _ _ HT)) as (c' & Hc' & Hl & Hci).
  rewrite Hc in Hc'. injection Hc' as <-.
  pose proof (fm_safe_length _ _ _ FM) as Hsl. pose proof (to_length _ _ HT) as Htl.
  destruct (padding_loop_ok safeValues tfail c 0) as (p & Hp & Hpl & Hpi); [lia..|].
  simpl in Hpi.
  assert (Hval : forall i, i < n -> exists t s, tfail !! i = Some t /\ (t = 0 \/ t = 1)%Z /\
    safeValues !! i = Some s /\ (s = UNKNOWN \/ s = 0 \/ s = 1)%Z /\
    p !! i = Some (if decide (i ∈ bitset x) then t
                   else if (s =? UNKNOWN)%Z then 1 - t else s)%Z).
  { intros i Hi. destruct (lookup_lt_is_Some_2 tfail i) as [t Ht]; [lia|].
    destruct (lookup_lt_is_Some_2 safeValues i) as [s Hs]; [lia|].
    assert (Htv : (t = 0 \/ t = 1)%Z) by (eapply to_values; [done|by eapply list_elem_of_lookup_2]).
    exists t, s. split_and!; [done|done|done| |].
    - eapply fm_safe_values; [done|by eapply list_elem_of_lookup_2].
    - specialize (Hci i Hi). destruct (decide (i ∈ bitset x)).
      + rewrite Ht in Hci. rewrite (Hpi i t s t) by done.
        destruct (Z.eqb_spec t UNKNOWN); [unfold UNKNOWN in *; lia|done].
      + by rewrite (Hpi i UNKNOWN s t) by done. }
  unfold paddingWithSafeValues. rewrite Hp. simpl. unfold Comb_ofList.
  assert (Hex : existsb (fun z => (z <? 0)%Z && negb (z =? UNKNOWN)%Z) p = false).
  { apply not_true_is_false. intros (z & Hz & Hzb)%existsb_exists.
    apply list_elem_of_In, list_elem_of_lookup in Hz as [i Hi].
    assert (i < n) by (apply lookup_lt_Some in Hi; lia).
    destruct (Hval i) as (t & s & _ & Ht & _ & Hs & Hpi'); [done|].
    rewrite Hpi' in Hi. injection Hi as <-. unfold UNKNOWN in *.
    apply andb_true_iff in Hzb as [Hz1%Z.ltb_lt Hz2%negb_true_iff%Z.eqb_neq].
    destruct (decide _); [lia|]. destruct (Z.eqb_spec s (-1)); lia. }
  rewrite Hex. exists p. split_and!; [done|lia|]. intros m Hm.
  pose proof (fm_length _ _ _ FM m Hm) as Hml.
  rewrite !contains_loop_spec by lia. split.
  - intros Hpm.
    assert (Hin : forall i v, m !! i = Some v -> v <> UNKNOWN -> i ∈ bitset x /\ tfail !! i = Some v).
    { intros i v Hv Hn. assert (i < n) by (apply lookup_lt_Some in Hv; lia).
      specialize (Hpm i v Hv Hn). destruct (Hval i) as (t & s & Ht & _ & Hs & _ & Hpi'); [done|].
      rewrite Hpm in Hpi'. destruct (fm_safe _ _ _ FM m i v s Hm Hv Hn Hs) as [Hs1 Hs2].
      destruct (decide (i ∈ bitset x)); [naive_solver|].
      destruct (Z.eqb_spec s UNKNOWN); naive_solver. }
    split; [intros i v Hv Hn; by apply Hin|].
    intros i (v & Hv & Hn)%elem_of_Schema_ofComb. by apply (Hin i v).
  - intros [Htm Hsub] i v Hv Hn. assert (i < n) by (apply lookup_lt_Some in Hv; lia).
    destruct (Hval i) as (t & s & Ht & _ & _ & _ & ->); [done|].
    rewrite decide_True; [|apply Hsub, elem_of_Schema_ofComb; eauto].
    rewrite <- Ht. by apply Htm.
Qed.

Lemma check_loop_ok p (l : list Comb) :
  (forall m, m ∈ l -> length m = length p) ->
  check_loop p l = Ok (negb (existsb (contains_loop p) l)).
Proof using.
  induction l as [|m l IH]; intros Hl; simpl; [done|].
  rewrite contains_ok by (symmetry; apply Hl; left). simpl.
  destruct (contains_loop p m); simpl; [done|]. apply IH. intros m' Hm'. apply Hl. by right.
Qed.

#[local] Instance checker_oracle : HealthOracle n MFS safeValues tfail.
Proof.
  refine {| faulty := faultyX |}.
  - intros X Y HXY (m & Hm & Hs). exists m. set_solver.
  - intros (m & [Hm _] & Hs). apply (fm_nonempty _ _ _ FM m Hm). set_solver.
  - intros x st Hx. destruct (getComb_ok n x tfail Hx (to_length _ _ HT)) as (c & Hc & _).
    destruct (padding_faulty x c Hx Hc) as (p & Hp & Hpl & Hpm).
    exists c. set (b := negb (bool_decide (faultyX (bitset x)))).
    exists (record_comb b c (count_check p st)). split_and!; [done| | |].
    + unfold check_with_safevalues, check. rewrite M_bind_eq, Hp. simpl.
      rewrite !M_bind_eq. simpl. rewrite check_loop_ok.
      2:{ intros m Hm. rewrite Hpl. by apply (fm_length _ _ _ FM). }
      assert (Hb : negb (existsb (contains_loop p) MFS) = b).
      { unfold b. f_equal. apply eq_true_iff_eq. rewrite existsb_exists, bool_decide_eq_true.
        unfold faultyX, fault_in. split.
        - intros (m & Hm%list_elem_of_In & Hc'). exists m. apply Hpm in Hc'; naive_solver.
        - intros (m & [Hm Ht] & Hs). exists m. rewrite <- list_elem_of_In.
          split; [done|]. by apply Hpm. }
      rewrite Hb. simpl. done.
    + by destruct b.
    + destruct b; unfold checks; simpl; rewrite length_app; simpl; lia.
Defined.
End checker.

(** ** The whole run *)

Definition minimal_fault (MFS : list Comb) (t c : Comb) : Prop :=
  fault_in MFS t c /\ forall m, fault_in MFS t m ->
    bitset (Schema_ofComb m) ⊆ bitset (Schema_ofComb c) -> m = c.

Lemma hashset_add_elem x l c : c ∈ hashset_add x l <-> c = x \/ c ∈ l.
Proof.
  unfold hashset_add. destruct (decide (x ∈ l)); [naive_solver|].
  rewrite elem_of_app, list_elem_of_singleton. tauto.
Qed.

Section run.
Context (n : nat) (MFS : list Comb) (safeValues : Comb).
Context (FM : FaultModel n MFS safeValues).

(** The combination of a schema determines a fault inside [t]. *)
Lemma fault_getComb t m c :
  TestOf n t -> fault_in MFS t m -> getComb (Schema_ofComb m) t = Ok c -> c = m.
Proof.
  intros HT [Hm Hc] Hg. pose proof (fm_length _ _ _ FM m Hm) as Hl.
  destruct (getComb_ok n (Schema_ofComb m) t) as (c' & Hg' & Hcl & Hci);
    [by apply Schema_ofComb_wf|apply HT|].
  rewrite Hg in Hg'. injection Hg' as <-. apply list_eq. intros i.
  destruct (decide (i < n)) as [Hi|Hi].
  2:{ rewrite !lookup_ge_None_2 by lia. done. }
  rewrite Hci by done. destruct (lookup_lt_is_Some_2 m i) as [v Hv]; [lia|].
  rewrite contains_loop_spec in Hc by (rewrite Hl; apply HT). rewrite Hv.
  destruct (decide (i ∈ bitset (Schema_ofComb m))) as [Hin|Hn].
  - apply elem_of_Schema_ofComb in Hin as (v' & Hv' & Hne). simplify_eq. by apply Hc.
  - f_equal. destruct (decide (v = UNKNOWN)); [done|]. exfalso. apply Hn, elem_of_Schema_ofComb. eauto.
Qed.

Lemma fault_inj t m m' :
  TestOf n t -> fault_in MFS t m -> fault_in MFS t m' ->
  bitset (Schema_ofComb m) = bitset (Schema_ofComb m') -> m = m'.
Proof.
  intros HT Hm Hm' He.
  assert (Heq : Schema_ofComb m = Schema_ofComb m').
  { destruct Hm as [Hm _], Hm' as [Hm' _]. apply (Schema_eq n); [| |done];
      by apply Schema_ofComb_wf, (fm_length _ _ _ FM). }
  destruct (getComb_ok n (Schema_ofComb m) t) as (c & Hg & _);
    [apply Schema_ofComb_wf, (fm_length _ _ _ FM), Hm|apply HT|].
  rewrite <- (fault_getComb t m c HT Hm Hg). rewrite Heq in Hg. by apply (fault_getComb t).
Qed.

Section one.
Context (t : Comb) (HT : TestOf n t).
#[local] Instance run_oracle : HealthOracle n MFS safeValues t :=
  checker_oracle n MFS safeValues t FM HT.

Lemma faulty_fault m : fault_in MFS t m -> faulty (bitset (Schema_ofComb m)).
Proof. intros Hm. by exists m. Qed.

(** A minimal faulty set is the parameter set of a minimal fault. *)
Lemma minimal_faulty_iff X :
  (faulty X /\ forall Y, faulty Y -> Y ⊆ X -> Y = X) <->
  exists c, minimal_fault MFS t c /\ X = bitset (Schema_ofComb c).
Proof.
  split.
  - intros [(m & Hm & Hs) Hmin].
    assert (HX : bitset (Schema_ofComb m) = X) by (apply Hmin; [by apply faulty_fault|done]).
    exists m. split; [|done]. split; [done|]. intros m' Hm' Hsub.
    apply (fault_inj t); [done..|]. rewrite HX. apply Hmin; [by apply faulty_fault|].
    by rewrite <- HX.
  - intros (c & [Hc Hmin] & ->). split; [by apply faulty_fault|].
    intros Y (m & Hm & Hs) HY. rewrite <- (Hmin m Hm) by set_solver.
    rewrite <- (Hmin m Hm) in HY by set_solver. set_solver.
Qed.

Lemma init_CMinF_ok u l Mi Ma :
  (forall m, m ∈ l -> m ∈ MFS) -> (forall m, fault_in MFS t m -> bitset (Schema_ofComb m) ⊆ bitset u) ->
  id_inv n MFS safeValues t u Mi Ma ->
  exists Mi', init_CMinF t l Mi = Ok Mi' /\ id_inv n MFS safeValues t u Mi' Ma.
Proof.
  intros Hl Hu Hi. induction l as [|m l IH]; simpl; [by exists Mi|].
  assert (Hm : m ∈ MFS) by (apply Hl; left).
  pose proof (fm_length _ _ _ FM m Hm) as Hml.
  rewrite contains_ok by (rewrite Hml; apply HT). simpl.
  destruct (contains_loop t m) eqn:E.
  - apply (id_inv_add_faulty n MFS safeValues t u); [done|by apply Schema_ofComb_wf| |].
    + by apply Hu.
    + by apply faulty_fault.
  - apply IH. intros m' Hm'. apply Hl. by right.
Qed.

Lemma record_MFS_ok l st :
  (forall s, s ∈ l -> exists m, fault_in MFS t m /\ s = Schema_ofComb m) ->
  exists st', record_MFS t l st = Ok (tt, st') /\ conducted st' = conducted st /\
    forall c, c ∈ MFC_identified st' <-> c ∈ MFC_identified st \/
      (fault_in MFS t c /\ Schema_ofComb c ∈ l).
Proof.
  revert st. induction l as [|s l IH]; intros st Hl; simpl.
  { exists st. split_and!; [done|done|]. intros c. set_solver. }
  destruct (Hl s) as (m & Hm & ->); [left|].
  destruct (getComb_ok n (Schema_ofComb m) t) as (c & Hg & _);
    [apply Schema_ofComb_wf, (fm_length _ _ _ FM), Hm|apply HT|].
  pose proof (fault_getComb t m c HT Hm Hg) as ->.
  rewrite M_bind_eq, Hg. simpl. rewrite M_bind_eq. simpl.
  destruct (IH (add_identified m st)) as (st' & -> & Hcd & Hel).
  { intros s Hs. apply Hl. by right. }
  exists st'. split_and!; [done|done|]. intros c. rewrite Hel. simpl.
  rewrite hashset_add_elem, elem_of_cons. split; [intros [[-> |?]|?]; [|tauto..]|].
  - right. split; [done|by left].
  - intros [?|[Hc [Heq|?]]]; [tauto| |tauto]. left. left.
    apply (fault_inj t); [done..|]. by rewrite Heq.
Qed.

Lemma conduct_one_ok hash_order fuel st :
  (forall l, hash_order l ≡ₚ l) -> identify_fuel n <= fuel ->
  (exists m, fault_in MFS t m) -> (forall m, m ∈ MFC_identified st -> m ∈ MFS) ->
  exists st', conduct_one MFS safeValues hash_order fuel t st = Ok (tt, st') /\
    conducted st' = conducted st /\
    forall c, c ∈ MFC_identified st' <-> c ∈ MFC_identified st \/ minimal_fault MFS t c.
Proof.
  intros Hperm Hfuel [m0 Hm0] Hid. unfold conduct_one.
  pose proof (to_length _ _ HT) as Htl. rewrite Htl.
  set (full := Schema_flag n true).
  assert (Hwf : wfS n full).
  { split; [done|]. intros i Hi%elem_of_set_seq. lia. }
  assert (Hsub : forall m, fault_in MFS t m -> bitset (Schema_ofComb m) ⊆ bitset full).
  { intros m [Hm _] i Hi. apply elem_of_set_seq.
    apply (Schema_ofComb_wf n) in Hi; [lia|by apply (fm_length _ _ _ FM)]. }
  assert (Hfull : faulty (bitset full)).
  { eapply faulty_mono; [by apply Hsub|by apply faulty_fault]. }
  destruct (id_inv_start n MFS safeValues t full Hwf Hfull) as (Mi & Ma & E1 & E2 & Hi).
  destruct (init_CMinF_ok full (hash_order (MFC_identified st)) Mi Ma) as (Mi1 & E3 & Hi1);
    [|done|done|].
  { intros m Hm. apply Hid. by rewrite Hperm in Hm. }
  destruct (identify_ok n MFS safeValues t fuel full Mi1 Ma st Hi1)
    as (Mi' & Ma' & st1 & E4 & [Hk1 Hk2] & Hi' & Hco).
  { assert (Hsz : size (bitset full) = n) by apply size_set_seq.
    rewrite Hsz. unfold identify_fuel in Hfuel. lia. }
  erewrite M_bind_ok by (by apply lift_ok). erewrite M_bind_ok by (by apply lift_ok).
  erewrite M_bind_ok by done. erewrite M_bind_ok by (by apply lift_ok).
  erewrite M_bind_ok by done. cbn [fst].
  assert (Hchar : forall s, wfS n s -> s ∈ schemas Mi' <->
    exists c, minimal_fault MFS t c /\ bitset s = bitset (Schema_ofComb c)).
  { intros s Hs. rewrite <- minimal_faulty_iff.
    apply (identify_minimal n MFS safeValues t full Mi' Ma'); [done..|].
    intros i Hi2. apply elem_of_set_seq. apply Hs in Hi2. lia. }
  destruct (record_MFS_ok (schemas Mi') st1) as (st2 & -> & Hcd & Hel).
  { intros s Hs. assert (Hws : wfS n s) by by apply (wfM_schemas _ _ (iv_mi _ _ _ _ _ _ _ Hi')).
    apply Hchar in Hs as (c & [Hc _] & He); [|done]. exists c. split; [done|].
    apply (Schema_eq n); [done|apply Schema_ofComb_wf, (fm_length _ _ _ FM), Hc|done]. }
  exists st2. split_and!; [done|congruence|]. intros c. rewrite Hel, Hk1.
  assert (Hwc : fault_in MFS t c -> wfS n (Schema_ofComb c)).
  { intros [Hc _]. apply Schema_ofComb_wf. by apply (fm_length _ _ _ FM). }
  split; intros [?|Hc]; [by left|right|by left|right].
  - destruct Hc as [Hc Hin]. apply Hchar in Hin as (c' & Hc' & He); [|auto].
    rewrite (fault_inj t c c'); [done|done|done|apply Hc'|done].
  - destruct (Hc) as [Hcf _]. split; [done|]. apply Hchar; [auto|]. by exists c.
Qed.
End one.

Lemma conduct_with_safevalues_ok hash_order fuel Tfail st :
  (forall l, hash_order l ≡ₚ l) -> identify_fuel n <= fuel ->
  (forall t, t ∈ Tfail -> TestOf n t /\ exists m, fault_in MFS t m) ->
  (forall m, m ∈ MFC_identified st -> m ∈ MFS) ->
  exists st', conduct_with_safevalues MFS safeValues hash_order fuel Tfail st = Ok (tt, st') /\
    conducted st' = conducted st /\
    forall c, c ∈ MFC_identified st' <-> c ∈ MFC_identified st \/
      exists t, t ∈ Tfail /\ minimal_fault MFS t c.
Proof.
  intros Hperm Hfuel. revert st. induction Tfail as [|t Tfail IH]; intros st HTf Hid; simpl.
  { exists st. split_and!; [done|done|]. set_solver. }
  destruct (HTf t) as [HT Hm]; [left|].
  destruct (conduct_one_ok t HT hash_order fuel st Hperm Hfuel Hm Hid) as (st1 & E1 & Hcd1 & Hel1).
  rewrite M_bind_eq, E1.
  destruct (IH st1) as (st2 & -> & Hcd2 & Hel2).
  { intros t' Ht'. apply HTf. by right. }
  { intros m Hm1. apply Hel1 in Hm1 as [?|[[? _] _]]; [auto|done]. }
  exists st2. split_and!; [done|congruence|]. intros c. rewrite Hel2, Hel1.
  setoid_rewrite elem_of_cons. naive_solver.
Qed.
End run.

(** ** Properties *)

(** C1. For any fault model with safe values and any list of failing test
    cases, [conduct] returns normally once the fuel is at least
    [identify_fuel n], and the combinations it reports are exactly the minimal
    faults contained in one of the failing test cases: NoPend misses no
    minimal fault and reports nothing else, in whatever order the hash set
    [MFC_identified] is iterated. *)
Theorem conduct_identifies_minimal_faults n MFS safeValues hash_order fuel Tfail st :
  FaultModel n MFS safeValues ->
  (forall l, hash_order l ≡ₚ l) ->
  identify_fuel n <= fuel ->
  (forall t, t ∈ Tfail -> TestOf n t /\ exists m, fault_in MFS t m) ->
  conducted st = false -> MFC_identified st = [] ->
  exists st', conduct MFS (Some safeValues) hash_order fuel Tfail st = Ok (tt, st') /\
    conducted st' = true /\
    forall c, c ∈ MFC_identified st' <-> exists t, t ∈ Tfail /\ minimal_fault MFS t c.
Proof.
  intros FM Hperm Hfuel HTf Hcd Hid. unfold conduct.
  rewrite M_bind_eq. cbn [getS]. rewrite Hcd. rewrite M_bind_eq. cbn [modS].
  destruct (conduct_with_safevalues_ok n MFS safeValues FM hash_order fuel Tfail
    (set_conducted st) Hperm Hfuel HTf) as (st' & He & Hcd' & Hel).
  { simpl. rewrite Hid. intros m Hm. by apply not_elem_of_nil in Hm. }
  exists st'. split_and!; [done|done|]. intros c. rewrite Hel. simpl. rewrite Hid.
  pose proof (not_elem_of_nil c). tauto.
Qed.

Definition ex_MFS : list Comb := [[1; UNKNOWN; 0]; [UNKNOWN; 1; 0]]%Z.
Definition ex_safe : Comb := [0; 0; 1]%Z.
Definition ex_tests : list Comb := [[1; 1; 0]; [0; 1; 0]]%Z.

Lemma ex_FaultModel : FaultModel 3 ex_MFS ex_safe.
Proof.
  split.
  - intros m Hm. unfold ex_MFS in Hm. list_cases Hm; done.
  - intros m Hm. unfold ex_MFS in Hm. list_cases Hm; by vm_compute.
  - done.
  - intros v Hv. unfold ex_safe in Hv. list_cases Hv; tauto.
  - intros m i v s Hm Hv Hne Hs. unfold ex_MFS in Hm. unfold ex_safe in Hs.
    list_cases Hm; destruct i as [|[|[|i]]]; simpl in *; simplify_eq; done.
Qed.

Lemma ex_tests_ok t :
  t ∈ ex_tests -> TestOf 3 t /\ exists m, fault_in ex_MFS t m.
Proof.
  intros Ht. unfold ex_tests in Ht. list_cases Ht.
  - split; [split; [done|intros v Hv; list_cases Hv; tauto]|].
    exists [1; UNKNOWN; 0]%Z. split; [by left|done].
  - split; [split; [done|intros v Hv; list_cases Hv; tauto]|].
    exists [UNKNOWN; 1; 0]%Z. split; [right; by left|done].
Qed.

Lemma conduct_identifies_minimal_faults_witness :
  exists st', conduct ex_MFS (Some ex_safe) (fun l => l) (identify_fuel 3) ex_tests initial_state
    = Ok (tt, st') /\ MFC_identified st' = rev ex_MFS.
Proof.
  destruct (conduct_identifies_minimal_faults 3 ex_MFS ex_safe (fun l => l) (identify_fuel 3)
    ex_tests initial_state ex_FaultModel (fun l => Permutation_refl l) (le_n _) ex_tests_ok
    eq_refl eq_refl) as (st' & He & _ & _).
  exists st'. split; [exact He|].
  vm_compute in He. injection He as <-. reflexivity.
Defined.

(** C6. On a chain between [min] and [max] and against any checker that
    implements the [HealthOracle] interface, [binarySearch] returns null only
    if [max] is healthy, and otherwise the least faulty schema of the chain;
    it performs at most 2 + log2 (length of the chain) checks. *)
Theorem binarySearch_least_faulty n MFS safeValues tfail
    `{!HealthOracle n MFS safeValues tfail} max min st :
  wfS n max -> wfS n min -> bitset min ⊆ bitset max ->
  exists r st', binarySearch MFS safeValues max min tfail st = Ok (r, st') /\
    checks st' <= checks st + 2 + Nat.log2 (length (chain_of max min)) /\
    match r with
    | None => ~ faulty (bitset max)
    | Some s => exists k, chain_of max min !! k = Some s /\ faulty (bitset s) /\
        forall j s', j < k -> chain_of max min !! j = Some s' -> ~ faulty (bitset s')
    end.
Proof.
  intros Hmax Hmin Hsub.
  destruct (binarySearch_ok n MFS safeValues tfail max min st Hmax Hmin Hsub)
    as (r & st' & He & _ & Hn & Hr).
  by exists r, st'.
Qed.

Lemma binarySearch_least_faulty_witness :
  exists st', binarySearch ex_MFS ex_safe (ex_s [0; 1; 2]) (ex_s [2]) [1; 1; 0]%Z initial_state
    = Ok (Some (ex_s [1; 2]), st') /\ checks st' <= 3.
Proof.
  pose (t := [1; 1; 0]%Z : Comb).
  assert (HT : TestOf 3 t) by (apply (ex_tests_ok t); left).
  destruct (@binarySearch_least_faulty 3 ex_MFS ex_safe t
    (checker_oracle 3 ex_MFS ex_safe t ex_FaultModel HT)
    (ex_s [0; 1; 2]) (ex_s [2]) initial_state) as (r & st' & He & Hn & _).
  - apply ex_s_wf. reflexivity.
  - apply ex_s_wf. reflexivity.
  - apply (bool_decide_unpack _). vm_compute. exact I.
  - exists st'. vm_compute in He. injection He as <- <-. split; [reflexivity|].
    vm_compute. lia.
Defined.

(** C10. [getLongestChain] throws RuntimeException exactly when one of the two
    sets is empty; otherwise it returns null if no top contains a bottom, and
    else a comparable (top, bottom) pair of maximal length. *)
Theorem getLongestChain_longest n tops bottoms :
  wfM n tops -> wfM n bottoms ->
  ((schemas tops = [] \/ schemas bottoms = []) /\
     getLongestChain tops bottoms = Err RuntimeExc) \/
  (exists r, getLongestChain tops bottoms = Ok r /\
     match r with
     | None => forall p, ~ is_chain (schemas tops) (schemas bottoms) p
     | Some p => is_chain (schemas tops) (schemas bottoms) p /\
         forall q, is_chain (schemas tops) (schemas bottoms) q -> (chain_len q <= chain_len p)%Z
     end).
Proof.
  intros Ht Hb.
  destruct (decide (schemas tops = [])) as [E|Hnt].
  { left. split; [by left|]. unfold getLongestChain, MSS_isEmpty, MSS_size. by rewrite E. }
  destruct (decide (schemas bottoms = [])) as [E|Hnb].
  { left. split; [by right|]. unfold getLongestChain, MSS_isEmpty, MSS_size.
    by rewrite E, orb_true_r. }
  right. by apply (getLongestChain_ok n).
Qed.

Lemma getLongestChain_longest_witness :
  exists r, getLongestChain (MkMSS [ex_s [0; 1]] false) (MkMSS [ex_s [1]] true) = Ok r.
Proof.
  destruct (getLongestChain_longest 3 (MkMSS [ex_s [0; 1]] false) (MkMSS [ex_s [1]] true))
    as [[_ H]|(r & He & _)].
  - apply singleton_wfM, ex_s_wf. reflexivity.
  - apply singleton_wfM, ex_s_wf. reflexivity.
  - vm_compute in H. discriminate H.
  - exists r. exact He.
Defined.
