(* ===== verification/Resolvers.v ===== *)
(** * The resolvers that look at one parameter at a time

    Models [MutableComb.java] and [MutableTestcase.java], and the resolvers
    [SOFOT/SOFOTFaultResolver.java], [FINOVLP/FINOVLPFaultResolver.java],
    [FICFaultResovler.java] and [FICBSFaultResolver.java].

    These resolvers hand [MutableTestcase] objects to [Checker.check], which
    keeps them in its hash set and does not copy them, and change them
    afterwards.  So the objects are kept in a store, and the entries of
    [executedTestcase] for them are references with the hash code they had
    when they were added.  Test cases that nothing changes stay values, in the
    [ResolverState] of [NoPend]: a [Testcase] and a [MutableTestcase] are never
    [equals], since their classes differ. *)
From S2P Require Import Prelude Schema NoPend.

(** ** Elements by index *)
Definition elements_get (c : Comb) (i : nat) : res jexn Z :=
  match c !! i with Some v => Ok v | None => Err IndexOutOfBounds end.

(** [MutableComb.set] *)
Definition MutableComb_set (c : Comb) (i : nat) (value : Z) : res jexn Comb :=
  match c !! i with Some _ => Ok (<[i := value]> c) | None => Err IndexOutOfBounds end.

(** [MutableTestcase.flip] and [set], on the elements of the object *)
Definition flip_elements (c : Comb) (i : nat) : res jexn Comb :=
  match c !! i with
  | None => Err IllegalArgument
  | Some v =>
      if (v =? 0)%Z then Ok (<[i := 1%Z]> c)
      else if (v =? 1)%Z then Ok (<[i := 0%Z]> c)
      else Err IllegalArgument
  end.

Definition set_elements (c : Comb) (i : nat) (value : Z) : res jexn Comb :=
  match c !! i with
  | None => Err IllegalArgument
  | Some _ =>
      if negb (value =? 0)%Z && negb (value =? 1)%Z then Err IllegalArgument
      else Ok (<[i := value]> c)
  end.

(** ** The store of mutable test cases *)
Record RunState := MkRun {
  log : ResolverState;
  mutables : list Comb;
  executed_refs : list (Z * nat)
}.

(** [Comb.hashCode]: that of the list of elements. *)
Definition hashCode (c : Comb) : Z := fold_left (fun h e => jint (31 * h + e)) c 1%Z.

Definition on_log {A} (m : M ResolverState jexn A) : M RunState jexn A := fun s =>
  match m (log s) with
  | Ok (a, l) => Ok (a, MkRun l (mutables s) (executed_refs s))
  | Err e => Err e
  | Timeout => Timeout
  end.

Definition new_MutableTestcase (c : Comb) : M RunState jexn nat :=
  elements ← lift (Testcase_ofComb c);
  s ← getS;
  putS (MkRun (log s) (mutables s ++ [elements]) (executed_refs s)) ;;
  mret (length (mutables s)).

(** The elements of an object now. *)
Definition content (o : nat) : M RunState jexn Comb := fun s =>
  match mutables s !! o with Some c => Ok (c, s) | None => Err NoSuchElement end.

Definition mutate_object (f : Comb -> res jexn Comb) (o : nat) : M RunState jexn unit :=
  c ← content o;
  c' ← lift (f c);
  modS (fun s => MkRun (log s) (<[o := c']> (mutables s)) (executed_refs s)).

Definition MutableTestcase_flip (o i : nat) : M RunState jexn unit :=
  mutate_object (fun c => flip_elements c i) o.

Definition MutableTestcase_set (o i : nat) (value : Z) : M RunState jexn unit :=
  mutate_object (fun c => set_elements c i value) o.

(** [HashSet.add] of an object: an entry with the same hash code that is the
    same object or has equal elements now keeps it out. *)
Definition same_entry (objs : list Comb) (h : Z) (o : nat) (e : Z * nat) : bool :=
  (e.1 =? h)%Z && (Nat.eqb e.2 o || bool_decide (objs !! e.2 = objs !! o)).

Definition add_ref (o : nat) (c : Comb) (s : RunState) : RunState :=
  let h := hashCode c in
  MkRun (log s) (mutables s)
    (if existsb (same_entry (mutables s) h o) (executed_refs s)
     then executed_refs s else executed_refs s ++ [(h, o)]).

Definition count_only (s : ResolverState) : ResolverState :=
  MkRS (jint (counter s + 1)) (executedTestcase s) (healthyCombs s) (faultyCombs s)
       (MFC_identified s) (conducted s).

(** [Checker.check] of a mutable test case *)
Definition check_ref (MFS : list Comb) (o : nat) : M RunState jexn bool :=
  c ← content o;
  on_log (modS count_only) ;;
  modS (add_ref o c) ;;
  lift (check_loop c MFS).

(** [Checker.getExecutedTestcase], in some order *)
Definition getExecutedTestcase (s : RunState) : list Comb :=
  executedTestcase (log s) ++ omap (fun e => mutables s !! e.2) (executed_refs s).

(** ** SOFOT *)
Section sofot.
Variable MFS : list Comb.

Section safe.
Variable safeValues : Comb.

Fixpoint sofot_loop (tfail : Comb) (ixs : list nat) (t : Comb) (mfs : Schema) :
    M ResolverState jexn Schema :=
  match ixs with
  | [] => mret mfs
  | i :: ixs' =>
      old_value ← lift (elements_get tfail i);
      t' ← lift (MutableComb_set t i UNKNOWN);
      healthy ← check_with_safevalues MFS safeValues t' tfail;
      t'' ← lift (MutableComb_set t' i old_value);
      sofot_loop tfail ixs' t'' (if (healthy : bool) then Schema_set mfs i true else mfs)
  end.

Definition sofot_one (tfail : Comb) : M ResolverState jexn unit :=
  t ← lift (Comb_ofList tfail);
  mfs ← sofot_loop tfail (seq 0 (length tfail)) t (Schema_new (length tfail));
  if Nat.eqb (Schema_size mfs) 0 then mret tt
  else record_MFS tfail [mfs].

Fixpoint sofot_with_safevalues (Tfail : list Comb) : M ResolverState jexn unit :=
  match Tfail with
  | [] => mret tt
  | tfail :: Tfail' => sofot_one tfail ;; sofot_with_safevalues Tfail'
  end.
End safe.

Fixpoint flip_loop (tfail : nat) (ixs : list nat) (mfs : list nat) :
    M RunState jexn (list nat) :=
  match ixs with
  | [] => mret mfs
  | i :: ixs' =>
      MutableTestcase_flip tfail i ;;
      healthy ← check_ref MFS tfail;
      MutableTestcase_flip tfail i ;;
      flip_loop tfail ixs' (if (healthy : bool) then mfs ++ [i] else mfs)
  end.

Definition flip_one (_tfail : Comb) : M RunState jexn unit :=
  tfail ← new_MutableTestcase _tfail;
  mfs ← flip_loop tfail (seq 0 (length _tfail)) [];
  if Nat.eqb (length mfs) 0 then mret tt
  else on_log (record_MFS _tfail [Schema_ofIndices (length _tfail) mfs]).

Fixpoint sofot_without_safevalues (Tfail : list Comb) : M RunState jexn unit :=
  match Tfail with
  | [] => mret tt
  | tfail :: Tfail' => flip_one tfail ;; sofot_without_safevalues Tfail'
  end.

Definition SOFOT_conduct (safeValues : option Comb) (Tfail : list Comb) : M RunState jexn unit :=
  s ← getS;
  if conducted (log s) then mret tt
  else
    on_log (modS set_conducted) ;;
    match safeValues with
    | None => sofot_without_safevalues Tfail
    | Some sv => on_log (sofot_with_safevalues sv Tfail)
    end.
End sofot.

(** ** FINOVLP: locate a minimal fault, replace its values by safe ones, go on
    until the test passes

    The subclasses override [locateOneMFC] (FIC) or
    [locateOneFixedParameter] (FICBS). *)
Section finovlp.
Variable MFS : list Comb.
Variable safeValues : Comb.

(** *** FIC *)
Fixpoint fic_loop (tfail : Comb) (fixedParameter : Schema) (ixs : list nat)
    (comb : Comb) (mfs : Schema) : M ResolverState jexn Schema :=
  match ixs with
  | [] => mret mfs
  | i :: ixs' =>
      if negb (Schema_get fixedParameter i) then
        comb' ← lift (MutableComb_set comb i UNKNOWN);
        healthy ← check_with_safevalues MFS safeValues comb' tfail;
        if (healthy : bool) then
          v ← lift (elements_get tfail i);
          comb'' ← lift (MutableComb_set comb' i v);
          fic_loop tfail fixedParameter ixs' comb'' (Schema_set mfs i true)
        else fic_loop tfail fixedParameter ixs' comb' mfs
      else fic_loop tfail fixedParameter ixs' comb mfs
  end.

Definition FIC_locateOneMFC (tfail : Comb) (fixedParameter : Schema) :
    M ResolverState jexn Comb :=
  comb ← lift (Comb_ofList tfail);
  mfs ← fic_loop tfail fixedParameter (seq 0 (length tfail)) comb (Schema_new (length tfail));
  lift (getComb mfs tfail).

(** *** FICBS *)
Fixpoint unset_loop (freeParameters : list nat) (ixs : list nat) (comb : Comb) : res jexn Comb :=
  match ixs with
  | [] => Ok comb
  | i :: ixs' =>
      match freeParameters !! i with
      | None => Err IndexOutOfBounds
      | Some p =>
          comb' ← MutableComb_set comb p UNKNOWN;
          unset_loop freeParameters ixs' comb'
      end
  end.

Fixpoint minimal_loop (fuel : nat) (tfail : Comb) (freeParameters : list nat)
    (left right ans : Z) : M ResolverState jexn Z :=
  match fuel with
  | O => fun _ => Timeout
  | S fuel' =>
      if (left <=? right)%Z then
        let mid := (left + (right - left) ÷ 2)%Z in
        comb ← lift (Comb_ofList tfail);
        comb' ← lift (unset_loop freeParameters (seq 0 (Z.to_nat (mid + 1))) comb);
        healthy ← check_with_safevalues MFS safeValues comb' tfail;
        if (healthy : bool)
        then minimal_loop fuel' tfail freeParameters left (mid - 1) mid
        else minimal_loop fuel' tfail freeParameters (mid + 1) right ans
      else mret ans
  end.

Definition FICBS_locateOneFixedParameter (tfail : Comb) (freeParameters : list nat) :
    M ResolverState jexn Z :=
  if Nat.eqb (length freeParameters) 0 then mret (-1)%Z
  else minimal_loop (S (length freeParameters)) tfail freeParameters 0
         (Z.of_nat (length freeParameters) - 1) (-1).

(** The method of the base class. *)
Definition FINOVLP_locateOneFixedParameter (tfail : Comb) (freeParameters : list nat) :
    M ResolverState jexn Z := throw NotImplemented.

(** [while (true)]: every round but the last takes a free parameter. *)
Fixpoint locate_loop (locateOneFixedParameter : Comb -> list nat -> M ResolverState jexn Z)
    (fuel : nat) (t : Comb) (freeParameters locatedFaultyBits : list nat) :
    M ResolverState jexn (list nat) :=
  match fuel with
  | O => fun _ => Timeout
  | S fuel' =>
      fixedParameterIndex ← locateOneFixedParameter t freeParameters;
      if (fixedParameterIndex =? -1)%Z then mret locatedFaultyBits
      else
        match freeParameters !! Z.to_nat fixedParameterIndex with
        | None => throw IndexOutOfBounds
        | Some p =>
            locate_loop locateOneFixedParameter fuel' t
              (delete (Z.to_nat fixedParameterIndex) freeParameters) (locatedFaultyBits ++ [p])
        end
  end.

Definition FINOVLP_locateOneMFC
    (locateOneFixedParameter : Comb -> list nat -> M ResolverState jexn Z)
    (tfail : Comb) (fixedParameter : Schema) : M ResolverState jexn Comb :=
  let freeParameters := getIndices (Schema_complement fixedParameter) in
  t ← lift (Testcase_ofComb tfail);
  located ← locate_loop locateOneFixedParameter (S (length freeParameters)) t freeParameters [];
  lift (getComb (Schema_ofIndices (length tfail) located) tfail).

Definition FICBS_locateOneMFC : Comb -> Schema -> M ResolverState jexn Comb :=
  FINOVLP_locateOneMFC FICBS_locateOneFixedParameter.

(** *** The common part *)
Variable locateOneMFC : Comb -> Schema -> M ResolverState jexn Comb.

Definition FINOVLP_padding (t index : nat) : M RunState jexn unit :=
  v ← lift (elements_get safeValues index);
  if (v =? UNKNOWN)%Z then MutableTestcase_flip t index
  else MutableTestcase_set t index v.

Fixpoint pad_loop (tfail : nat) (mfc : Comb) (ixs : list nat) (fixedParameters : Schema) :
    M RunState jexn Schema :=
  match ixs with
  | [] => mret fixedParameters
  | i :: ixs' =>
      v ← lift (elements_get mfc i);
      if negb (v =? UNKNOWN)%Z then
        FINOVLP_padding tfail i ;;
        pad_loop tfail mfc ixs' (Schema_set fixedParameters i true)
      else pad_loop tfail mfc ixs' fixedParameters
  end.

Fixpoint FINOVLP_loop (fuel : nat) (tfail : nat) (fixedParameters : Schema)
    (MFSSet : list Comb) : M RunState jexn (list Comb) :=
  match fuel with
  | O => fun _ => Timeout
  | S fuel' =>
      healthy ← check_ref MFS tfail;
      if (healthy : bool) then mret MFSSet
      else
        t ← content tfail;
        mfc ← on_log (locateOneMFC t fixedParameters);
        fixedParameters' ← pad_loop tfail mfc (seq 0 (length mfc)) fixedParameters;
        FINOVLP_loop fuel' tfail fixedParameters' (hashset_add mfc MFSSet)
  end.

Definition FINOVLP (fuel : nat) (_tfail : Comb) : M RunState jexn (list Comb) :=
  tfail ← new_MutableTestcase _tfail;
  FINOVLP_loop fuel tfail (Schema_new (length _tfail)) [].

Definition addAll_identified (l : list Comb) (s : ResolverState) : ResolverState :=
  fold_left (fun s c => add_identified c s) l s.

Fixpoint FINOVLP_with_safevalues (fuel : nat) (Tfail : list Comb) : M RunState jexn unit :=
  match Tfail with
  | [] => mret tt
  | tfail :: Tfail' =>
      l ← FINOVLP fuel tfail;
      on_log (modS (addAll_identified l)) ;;
      FINOVLP_with_safevalues fuel Tfail'
  end.
End finovlp.

Definition Locator := list Comb -> Comb -> Comb -> Schema -> M ResolverState jexn Comb.

Definition FINOVLP_conduct (locate : Locator) (MFS : list Comb) (safeValues : option Comb)
    (fuel : nat) (Tfail : list Comb) : M RunState jexn unit :=
  s ← getS;
  if conducted (log s) then mret tt
  else
    on_log (modS set_conducted) ;;
    match safeValues with
    | None => throw RuntimeExc
    | Some sv => FINOVLP_with_safevalues MFS sv (locate MFS sv) fuel Tfail
    end.

Definition FIC_conduct := FINOVLP_conduct FIC_locateOneMFC.
Definition FICBS_conduct := FINOVLP_conduct FICBS_locateOneMFC.

(** [new FINOVLPFaultResolver]: not abstract in Java, but of no use. *)
Definition FINOVLP_base_conduct :=
  FINOVLP_conduct (fun MFS sv => FINOVLP_locateOneMFC FINOVLP_locateOneFixedParameter).

(** ** The law of a locator

    On a test case of which [fixed] is known to be in no fault, it returns the
    combination of a minimal faulty set outside [fixed]; [cost] bounds the
    number of checks by the number of parameters and the size of that set. *)
Definition minimal_faulty (faulty : gset nat -> Prop) (X : gset nat) : Prop :=
  faulty X /\ forall Y, faulty Y -> Y ⊆ X -> Y = X.

Class MFCLocator (locate : Locator) := {
  locate_cost : nat -> nat -> nat;
  locate_ok : forall n MFS safeValues t `{O : !HealthOracle n MFS safeValues t} fixed st,
    TestOf n t -> wfS n fixed ->
    (forall X, faulty X -> faulty (X ∖ bitset fixed)) -> faulty (set_seq 0 n) ->
    exists c x st', locate MFS safeValues t fixed st = Ok (c, st') /\ keeps st st' /\
      checks st' <= checks st + locate_cost n (size (bitset x)) /\
      wfS n x /\ getComb x t = Ok c /\
      bitset x ## bitset fixed /\ minimal_faulty faulty (bitset x)
}.
