(* ===== verification/ResolversProofs.v ===== *)
(** * Locating one minimal fault

    The combinations that SOFOT, FIC and FICBS check are those of sets of
    parameters ([comb_of]); FIC and FICBS are locators. *)
From S2P Require Import Prelude Schema NoPend Resolvers.

(** ** Combinations of a set of parameters *)
Definition comb_of (n : nat) (X : gset nat) (t c : Comb) : Prop :=
  length c = n /\
  forall i, i < n -> c !! i = if decide (i ∈ X) then t !! i else Some UNKNOWN.

Lemma comb_of_getComb n x t c :
  wfS n x -> length t = n -> comb_of n (bitset x) t c -> getComb x t = Ok c.
Proof.
  intros Hx Ht [Hl Hc]. destruct (getComb_ok n x t Hx Ht) as (c' & Hg & Hl' & Hc').
  rewrite Hg. f_equal. apply list_eq. intros i. destruct (decide (i < n)) as [Hi|Hi].
  - by rewrite Hc, Hc'.
  - by rewrite !lookup_ge_None_2 by lia.
Qed.

Lemma getComb_comb_of n x t c :
  wfS n x -> length t = n -> getComb x t = Ok c -> comb_of n (bitset x) t c.
Proof.
  intros Hx Ht Hg. destruct (getComb_ok n x t Hx Ht) as (c' & Hg' & Hl' & Hc').
  rewrite Hg in Hg'. by injection Hg' as <-.
Qed.

Lemma comb_of_full n t : length t = n -> comb_of n (set_seq 0 n) t t.
Proof.
  intros Hl. split; [done|]. intros i Hi. rewrite decide_True; [done|].
  apply elem_of_set_seq. lia.
Qed.

Lemma comb_of_unset n X t c i :
  comb_of n X t c -> i < n ->
  MutableComb_set c i UNKNOWN = Ok (<[i := UNKNOWN]> c) /\
  comb_of n (X ∖ {[i]}) t (<[i := UNKNOWN]> c).
Proof.
  intros [Hl Hc] Hi. split.
  { unfold MutableComb_set. by destruct (lookup_lt_is_Some_2 c i) as [v ->]; [lia|]. }
  split; [by rewrite length_insert|]. intros j Hj. destruct (decide (j = i)) as [->|Hne].
  - rewrite list_lookup_insert_eq by lia. by rewrite decide_False by set_solver.
  - rewrite list_lookup_insert_ne by done. rewrite Hc by done.
    destruct (decide (j ∈ X)); [rewrite decide_True by set_solver|rewrite decide_False by set_solver]; done.
Qed.

Lemma comb_of_set n X t c i v :
  comb_of n X t c -> t !! i = Some v -> i < n ->
  MutableComb_set c i v = Ok (<[i := v]> c) /\ comb_of n ({[i]} ∪ X) t (<[i := v]> c).
Proof.
  intros [Hl Hc] Hv Hi. split.
  { unfold MutableComb_set. by destruct (lookup_lt_is_Some_2 c i) as [w ->]; [lia|]. }
  split; [by rewrite length_insert|]. intros j Hj. destruct (decide (j = i)) as [->|Hne].
  - rewrite list_lookup_insert_eq by lia. by rewrite decide_True by set_solver.
  - rewrite list_lookup_insert_ne by done. rewrite Hc by done.
    destruct (decide (j ∈ X)); [rewrite decide_True by set_solver|rewrite decide_False by set_solver]; done.
Qed.

Lemma TestOf_lookup n t i : TestOf n t -> i < n -> exists v, t !! i = Some v /\ (v = 0 \/ v = 1)%Z.
Proof.
  intros HT Hi. destruct (lookup_lt_is_Some_2 t i) as [v Hv]; [by rewrite (to_length _ _ HT)|].
  exists v. split; [done|]. eapply to_values; [done|]. by eapply list_elem_of_lookup_2.
Qed.

Lemma TestOf_Comb n t : TestOf n t -> Comb_ofList t = Ok t /\ Testcase_ofComb t = Ok t.
Proof.
  intros HT. unfold Comb_ofList, Testcase_ofComb. pose proof (to_values _ _ HT) as Hv.
  assert (Hno : forall f, (forall v, v = 0%Z \/ v = 1%Z -> f v = false) -> existsb f t = false).
  { intros f Hf. apply not_true_is_false. intros (z & Hz%list_elem_of_In & Hb)%existsb_exists.
    by rewrite Hf in Hb by auto. }
  by rewrite !Hno by (intros v [-> | ->]; done).
Qed.

(** ** Against the oracle *)
Section locate.
Context (n : nat) (MFS : list Comb) (safeValues t : Comb).
Context `{O : !HealthOracle n MFS safeValues t}.
Context (HT : TestOf n t).

Lemma check_comb_ok X c st :
  comb_of n X t c -> (forall i, i ∈ X -> i < n) ->
  exists st', check_with_safevalues MFS safeValues c t st = Ok (negb (bool_decide (faulty X)), st') /\
    keeps st st' /\ checks st' = S (checks st).
Proof.
  intros Hc HX. assert (Hw : wfS n (MkSchema X n)) by done.
  destruct (oracle_ok (MkSchema X n) st Hw) as (c' & st' & Hg & Hk & Hst).
  rewrite (comb_of_getComb n (MkSchema X n) t c) in Hg by (done || apply HT).
  injection Hg as <-. eauto.
Qed.

(** *** FIC: [K] is the set of parameters left in the combination *)
Record fic_inv (fixed : Schema) (ixs : list nat) (K : gset nat) (mfs : Schema) : Prop := {
  fi_mfs : wfS n mfs;
  fi_bound : forall i, i ∈ K -> i < n;
  fi_faulty : faulty K;
  fi_todo : forall i, i ∈ ixs -> i ∈ K;
  fi_done : forall i, i ∈ bitset mfs <-> (i ∈ K /\ i ∉ ixs) /\ i ∉ bitset fixed;
  fi_need : forall i, i ∈ bitset mfs -> ~ faulty (K ∖ {[i]})
}.

Lemma fic_inv_fixed fixed i ixs K mfs :
  i ∈ bitset fixed -> fic_inv fixed (i :: ixs) K mfs -> fic_inv fixed ixs K mfs.
Proof.
  intros Hfx [H1 H2 H3 H4 H5 H6]. split; [done..| | |done].
  - intros j Hj. apply H4. by right.
  - intros j. rewrite H5, not_elem_of_cons. split; [tauto|]. intros [[? ?] ?].
    split_and!; [done| |done|done]. by intros ->.
Qed.

Lemma fic_inv_drop fixed i ixs K mfs :
  i ∉ ixs -> faulty (K ∖ {[i]}) ->
  fic_inv fixed (i :: ixs) K mfs -> fic_inv fixed ixs (K ∖ {[i]}) mfs.
Proof.
  intros Hi Hf [H1 H2 H3 H4 H5 H6]. split; [done| |done| | |].
  - intros j [Hj _]%elem_of_difference. by apply H2.
  - intros j Hj. apply elem_of_difference. split; [apply H4; by right|].
    intros ->%elem_of_singleton. done.
  - intros j. rewrite H5, not_elem_of_cons, elem_of_difference, elem_of_singleton. tauto.
  - intros j Hj Hf'. apply (H6 j Hj). eapply faulty_mono; [|exact Hf']. set_solver.
Qed.

Lemma fic_inv_keep fixed i ixs K mfs :
  i ∉ ixs -> i ∉ bitset fixed -> ~ faulty (K ∖ {[i]}) ->
  fic_inv fixed (i :: ixs) K mfs -> fic_inv fixed ixs K (Schema_set mfs i true).
Proof.
  intros Hi Hfx Hf [H1 H2 H3 H4 H5 H6].
  assert (HiK : i ∈ K) by (apply H4; left). split; [|done|done| | |].
  - apply Schema_set_wf; auto.
  - intros j Hj. apply H4. by right.
  - intros j. simpl. rewrite elem_of_union, elem_of_singleton, H5, not_elem_of_cons.
    destruct (decide (j = i)) as [->|]; tauto.
  - intros j [->%elem_of_singleton|Hj]%elem_of_union; [done|by apply H6].
Qed.

Lemma fic_loop_ok fixed ixs comb mfs st K :
  NoDup ixs -> comb_of n K t comb -> fic_inv fixed ixs K mfs ->
  exists mfs' K' st', fic_loop MFS safeValues t fixed ixs comb mfs st = Ok (mfs', st') /\
    keeps st st' /\ checks st' <= checks st + length ixs /\ fic_inv fixed [] K' mfs'.
Proof.
  revert comb mfs st K. induction ixs as [|i ixs IH]; intros comb mfs st K Hnd Hc Hi; simpl.
  { exists mfs, K, st. split_and!; [done|done|lia|done]. }
  apply NoDup_cons in Hnd as [Hni Hnd].
  assert (Hin : i < n) by (apply (fi_bound _ _ _ _ Hi), (fi_todo _ _ _ _ Hi); left).
  unfold Schema_get. case_bool_decide as Hfi; cbn [negb].
  { destruct (IH comb mfs st K) as (mfs' & K' & st' & -> & Hk & Hn & Hi');
      [done|done|by eapply fic_inv_fixed|].
    exists mfs', K', st'. split_and!; [done|done|lia|done]. }
  destruct (comb_of_unset n K t comb i Hc Hin) as [E1 Hc1]. mstep ltac:(by rewrite E1).
  destruct (check_comb_ok _ _ st Hc1) as (st1 & E2 & Hk1 & Hn1).
  { intros j [Hj _]%elem_of_difference. by apply (fi_bound _ _ _ _ Hi). }
  mstep ltac:(done). case_bool_decide as Hfd; cbn [negb].
  - destruct (IH (<[i := UNKNOWN]> comb) mfs st1 (K ∖ {[i]})) as (mfs' & K' & st' & -> & Hk & Hn & Hi');
      [done|done|by apply fic_inv_drop|].
    exists mfs', K', st'. split_and!; [done|by eapply keeps_trans|lia|done].
  - destruct (TestOf_lookup n t i HT Hin) as (v & Hv & _).
    unfold elements_get. rewrite Hv. mstep ltac:(done).
    destruct (comb_of_set n _ t _ i v Hc1 Hv Hin) as [E3 Hc2]. mstep ltac:(by rewrite E3).
    assert (HKi : {[i]} ∪ K ∖ {[i]} = K).
    { apply set_eq. intros j. pose proof (fi_todo _ _ _ _ Hi i ltac:(left)).
      destruct (decide (j = i)); set_solver. }
    rewrite HKi in Hc2.
    destruct (IH (<[i := v]> (<[i := UNKNOWN]> comb)) (Schema_set mfs i true) st1 K)
      as (mfs' & K' & st' & -> & Hk & Hn & Hi'); [done|done|by apply fic_inv_keep|].
    exists mfs', K', st'. split_and!; [done|by eapply keeps_trans|lia|done].
Qed.

(** *** FICBS: [firsts k free] are the parameters that are unset *)
Definition firsts (k : nat) (free : list nat) : gset nat := list_to_set (take k free).

Definition without (k : nat) (free : list nat) : gset nat := set_seq 0 n ∖ firsts k free.

Lemma firsts_mono k k' free : k <= k' -> firsts k free ⊆ firsts k' free.
Proof.
  intros Hk i. unfold firsts. rewrite !elem_of_list_to_set.
  replace k with (k `min` k') by lia. rewrite <- take_take.
  intros Hi. by apply elem_of_take in Hi as (j & Hj & _); eapply list_elem_of_lookup_2.
Qed.

Lemma without_bound k free i : i ∈ without k free -> i < n.
Proof. unfold without. rewrite elem_of_difference, elem_of_set_seq. lia. Qed.

Lemma without_mono k k' free : k <= k' -> faulty (without k' free) -> faulty (without k free).
Proof.
  intros Hk Hf. eapply faulty_mono; [|exact Hf]. pose proof (firsts_mono k k' free Hk).
  unfold without. set_solver.
Qed.

Lemma firsts_S k free p : free !! k = Some p -> firsts (S k) free = firsts k free ∪ {[p]}.
Proof.
  intros Hp. unfold firsts. rewrite (take_S_r _ _ _ Hp), list_to_set_app_L. simpl. set_solver.
Qed.

Lemma unset_loop_ok free k m c :
  (forall i, i ∈ free -> i < n) -> k + m <= length free ->
  comb_of n (without k free) t c ->
  exists c', unset_loop free (seq k m) c = Ok c' /\ comb_of n (without (k + m) free) t c'.
Proof.
  intros Hfree. revert k c. induction m as [|m IH]; intros k c Hm Hc; simpl.
  { exists c. by rewrite Nat.add_0_r. }
  destruct (lookup_lt_is_Some_2 free k) as [p Hp]; [lia|]. rewrite Hp.
  assert (Hpn : p < n) by (apply Hfree; by eapply list_elem_of_lookup_2).
  destruct (comb_of_unset n _ t c p Hc Hpn) as [-> Hc1]. simpl.
  replace (k + S m) with (S k + m) by lia. apply IH; [lia|].
  unfold without in *. rewrite (firsts_S k free p Hp). by rewrite <- difference_difference_l_L.
Qed.

Lemma minimal_loop_ok fuel free left right ans st :
  (forall i, i ∈ free -> i < n) ->
  (0 <= left)%Z -> (left <= right + 1)%Z -> (right < Z.of_nat (length free))%Z ->
  (right - left + 1 < Z.of_nat fuel)%Z ->
  faulty (without (Z.to_nat left) free) ->
  (ans = -1 /\ right = Z.of_nat (length free) - 1 \/
   ans = right + 1 /\ ans < Z.of_nat (length free) /\ ~ faulty (without (Z.to_nat (ans + 1)) free))%Z ->
  exists r st', minimal_loop MFS safeValues fuel t free left right ans st = Ok (r, st') /\
    keeps st st' /\
    checks st' <= checks st + (if (left <=? right)%Z
                               then S (Nat.log2 (Z.to_nat (right - left + 1))) else 0) /\
    ((r = -1)%Z /\ faulty (without (length free) free) \/
     (0 <= r < Z.of_nat (length free))%Z /\ faulty (without (Z.to_nat r) free) /\
       ~ faulty (without (S (Z.to_nat r)) free)).
Proof.
  intros Hfree. revert left right ans st.
  induction fuel as [|fuel IH]; intros left right ans st Hl Hlr Hr Hf Hlow Hans; [lia|].
  simpl. destruct (Z.leb_spec left right) as [Hle|Hgt].
  2:{ exists ans, st. split_and!; [done|done|lia|].
      assert (left = right + 1)%Z as -> by lia.
      destruct Hans as [[-> ->]|(-> & Ha & Hh)]; [left|right].
      - split; [done|]. by replace (length free) with (Z.to_nat (Z.of_nat (length free) - 1 + 1)) by lia.
      - split_and!; [lia|lia|done|]. by replace (S (Z.to_nat (right + 1))) with (Z.to_nat (right + 1 + 1)) by lia. }
  set (mid := (left + (right - left) ÷ 2)%Z).
  assert (Hmid : (left <= mid <= right /\
    2 * (mid - left) <= right - left < 2 * (mid - left) + 2)%Z).
  { unfold mid. rewrite Z.quot_div_nonneg by lia.
    pose proof (Z.div_mod (right - left) 2). pose proof (Z.mod_pos_bound (right - left) 2).
    lia. }
  mstep ltac:(by rewrite (proj1 (TestOf_Comb n t HT))).
  destruct (unset_loop_ok free 0 (Z.to_nat (mid + 1)) t) as (c & E & Hc); [done|lia| |].
  { unfold without, firsts. simpl. rewrite difference_empty_L. apply comb_of_full, HT. }
  mstep ltac:(by rewrite E). simpl in Hc.
  destruct (check_comb_ok _ c st Hc) as (st1 & E1 & Hk1 & Hn1); [apply without_bound|].
  mstep ltac:(done).
  assert (Hlog : forall m, (0 < m)%Z -> (2 * m <= right - left + 1)%Z ->
    S (Nat.log2 (Z.to_nat m)) <= Nat.log2 (Z.to_nat (right - left + 1))).
  { intros m Hm1 Hm2. rewrite <- Nat.log2_double by lia. apply Nat.log2_le_mono. lia. }
  case_bool_decide as Hfs; cbn [negb].
  - destruct (IH (mid + 1) right ans st1)%Z as (r & st2 & -> & Hk2 & Hn2 & Hpost);
      [lia..|done|done|].
    exists r, st2. split_and!; [done|by eapply keeps_trans| |done].
    destruct (Z.leb_spec (mid + 1) right); [|lia]. pose proof (Hlog (right - (mid + 1) + 1)%Z). lia.
  - destruct (IH left (mid - 1) mid st1)%Z as (r & st2 & -> & Hk2 & Hn2 & Hpost);
      [lia..|done| |].
    { right. split_and!; [lia|lia|done]. }
    exists r, st2. split_and!; [done|by eapply keeps_trans| |done].
    destruct (Z.leb_spec left (mid - 1)); [|lia]. pose proof (Hlog (mid - 1 - left + 1)%Z). lia.
Qed.

Lemma FICBS_locateOneFixedParameter_ok free st :
  (forall i, i ∈ free -> i < n) -> NoDup free -> faulty (set_seq 0 n) ->
  exists r st', FICBS_locateOneFixedParameter MFS safeValues t free st = Ok (r, st') /\
    keeps st st' /\ checks st' <= checks st + S (Nat.log2 n) /\
    ((r = -1)%Z /\ faulty (without (length free) free) \/
     (0 <= r < Z.of_nat (length free))%Z /\ faulty (without (Z.to_nat r) free) /\
       ~ faulty (without (S (Z.to_nat r)) free)).
Proof.
  intros Hfree Hnd Hfull. unfold FICBS_locateOneFixedParameter.
  assert (H0' : faulty (without 0 free)) by by unfold without, firsts; simpl; rewrite difference_empty_L.
  destruct (Nat.eqb_spec (length free) 0) as [E|E].
  { exists (-1)%Z, st. split_and!; [done|done|lia|]. left. rewrite E. done. }
  destruct (minimal_loop_ok (S (length free)) free 0 (Z.of_nat (length free) - 1) (-1) st)
    as (r & st' & Er & Hk & Hn & Hpost); [done|lia..|done|left; lia|].
  exists r, st'. split_and!; [done|done| |done].
  destruct (Z.leb_spec 0 (Z.of_nat (length free) - 1)); [|lia].
  assert (length free <= n).
  { transitivity (length (seq 0 n)); [|by rewrite length_seq].
    apply submseteq_length, NoDup_submseteq; [done|].
    intros i Hi. apply elem_of_seq. specialize (Hfree i Hi). lia. }
  assert (Nat.log2 (Z.to_nat (Z.of_nat (length free) - 1 - 0 + 1)) <= Nat.log2 n)
    by (apply Nat.log2_le_mono; lia).
  lia.
Qed.

Context (fixed : Schema) (Hfixed : wfS n fixed).
Context (Hirr : forall X, faulty X -> faulty (X ∖ bitset fixed)).
Context (Hfull : faulty (set_seq 0 n)).

Lemma FIC_locateOneMFC_ok st :
  exists c x st', FIC_locateOneMFC MFS safeValues t fixed st = Ok (c, st') /\ keeps st st' /\
    checks st' <= checks st + n /\ wfS n x /\ getComb x t = Ok c /\
    bitset x ## bitset fixed /\ minimal_faulty faulty (bitset x).
Proof.
  unfold FIC_locateOneMFC. rewrite (to_length _ _ HT).
  mstep ltac:(by rewrite (proj1 (TestOf_Comb n t HT))).
  destruct (fic_loop_ok fixed (seq 0 n) t (Schema_new n) st (set_seq 0 n))
    as (x & K & st' & E & Hk & Hn & [H1 H2 H3 _ H5 H6]);
    [apply NoDup_seq|apply comb_of_full, HT| |].
  { split; [split; [done|]; set_solver| |done| | |set_solver].
    - intros i Hi%elem_of_set_seq. lia.
    - intros i Hi%elem_of_seq. apply elem_of_set_seq. lia.
    - intros i. simpl. split; [set_solver|]. intros [[Hs%elem_of_set_seq Hi] _].
      exfalso. apply Hi, elem_of_seq. lia. }
  rewrite length_seq in Hn. mstep ltac:(done).
  destruct (getComb_ok n x t H1 (to_length _ _ HT)) as (c & Hg & _). rewrite Hg.
  assert (Hx : bitset x = K ∖ bitset fixed).
  { apply set_eq. intros i. rewrite H5, elem_of_difference. pose proof (not_elem_of_nil i). tauto. }
  exists c, x, st'. split_and!; [done|done|done|done|done|rewrite Hx; set_solver|].
  split; [rewrite Hx; by apply Hirr|]. intros Y HY HYx. apply set_eq. intros i.
  split; [by apply HYx|]. intros Hi. destruct (decide (i ∈ Y)) as [|Hn']; [done|].
  exfalso. apply (H6 i Hi). eapply faulty_mono; [|exact HY]. set_solver.
Qed.

(** The first [k] free parameters are known to be of no use, and none of the
    located ones can be missed. *)
Record loc_inv (free located : list nat) (k : nat) : Prop := {
  li_nd : NoDup free;
  li_free : forall i, i ∈ free <-> i < n /\ (i ∉ bitset fixed) /\ i ∉ located;
  li_loc : forall i, i ∈ located -> i < n /\ i ∉ bitset fixed;
  li_locnd : NoDup located;
  li_k : k <= length free;
  li_faulty : faulty (without k free);
  li_need : forall p, p ∈ located -> ~ faulty ((without k free) ∖ {[p]})
}.

Lemma loc_inv_step free located k r p :
  loc_inv free located k -> free !! r = Some p ->
  faulty (without r free) -> ~ faulty (without (S r) free) ->
  loc_inv (delete r free) (located ++ [p]) r.
Proof.
  intros [H1 H2 H3 H4 H5 H6 H7] Hp Hf Hn.
  assert (Hrl : r < length free) by by eapply lookup_lt_Some.
  assert (Hkr : k <= r).
  { destruct (decide (k <= r)) as [|Hgt]; [done|]. exfalso. apply Hn.
    apply (without_mono (S r) k); [lia|done]. }
  assert (Hw : without r (delete r free) = without r free).
  { unfold without, firsts. rewrite delete_take_drop.
    by rewrite take_app_length' by (rewrite length_take; lia). }
  assert (Hpi : p < n /\ (p ∉ bitset fixed) /\ p ∉ located).
  { apply H2. by eapply list_elem_of_lookup_2. }
  assert (Hperm : free ≡ₚ p :: delete r free) by by apply delete_Permutation.
  assert (Hnd : NoDup (p :: delete r free)) by by rewrite <- Hperm.
  apply NoDup_cons in Hnd as [Hpd Hnd].
  split.
  - done.
  - intros i. rewrite elem_of_app, list_elem_of_singleton.
    pose proof (H2 i) as Hi. rewrite Hperm, elem_of_cons in Hi.
    destruct (decide (i = p)) as [->|]; tauto.
  - intros i [Hi| ->%list_elem_of_singleton]%elem_of_app; [by apply H3|tauto].
  - apply NoDup_app. split_and!; [done| |apply NoDup_singleton].
    intros i Hi ->%list_elem_of_singleton. tauto.
  - rewrite length_delete by eauto. lia.
  - by rewrite Hw.
  - intros q [Hq| ->%list_elem_of_singleton]%elem_of_app; rewrite Hw.
    + intros Hf'. apply (H7 q Hq). eapply faulty_mono; [|exact Hf'].
      pose proof (firsts_mono k r free Hkr). unfold without. set_solver.
    + contradict Hn. unfold without in *. rewrite (firsts_S r free p Hp).
      by rewrite <- difference_difference_l_L.
Qed.

Lemma loc_inv_end free located k :
  loc_inv free located k -> faulty (without (length free) free) ->
  wfS n (Schema_ofIndices n located) /\
  bitset (Schema_ofIndices n located) ## bitset fixed /\
  minimal_faulty faulty (bitset (Schema_ofIndices n located)).
Proof.
  intros [H1 H2 H3 H4 H5 H6 H7] Hf. simpl.
  assert (Hloc : forall i, i ∈ (list_to_set located : gset nat) <-> i ∈ located)
    by (intros; apply elem_of_list_to_set).
  split_and!.
  - split; [done|]. intros i Hi%Hloc. by apply H3.
  - intros i Hi%Hloc Hi'. by apply H3 in Hi as [_ ?].
  - split.
    + eapply faulty_mono; [|by apply Hirr]. intros i. unfold without, firsts.
      rewrite firstn_all, !elem_of_difference, !elem_of_list_to_set, elem_of_set_seq, H2.
      intros [[Hi Hn] Hx]. destruct (decide (i ∈ located)); [done|]. exfalso. apply Hn. split_and!; [lia|done..].
    + intros Y HY HYl. apply set_eq. intros i. split; [by apply HYl|]. intros Hi.
      destruct (decide (i ∈ Y)) as [|Hn]; [done|]. exfalso.
      apply (H7 i); [by apply Hloc|]. eapply faulty_mono; [|exact HY].
      intros j Hj. pose proof (HYl j Hj) as Hjl. rewrite Hloc in Hjl.
      unfold without, firsts. rewrite !elem_of_difference, elem_of_list_to_set, elem_of_set_seq, elem_of_singleton.
      split_and!; [apply H3 in Hjl; lia|apply H3 in Hjl; lia| |by intros ->].
      intros Hjt. apply elem_of_take in Hjt as (m & Hm & _).
      apply list_elem_of_lookup_2, H2 in Hm. tauto.
Qed.

Lemma locate_loop_ok fuel free located k st :
  loc_inv free located k -> length free < fuel ->
  exists located' st', locate_loop (FICBS_locateOneFixedParameter MFS safeValues) fuel t free located st
      = Ok (located', st') /\ keeps st st' /\
    checks st' <= checks st + (length located' - length located + 1) * S (Nat.log2 n) /\
    length located <= length located' /\ NoDup located' /\
    wfS n (Schema_ofIndices n located') /\
    bitset (Schema_ofIndices n located') ## bitset fixed /\
    minimal_faulty faulty (bitset (Schema_ofIndices n located')).
Proof.
  revert free located k st. induction fuel as [|fuel IH]; intros free located k st Hi Hf; [lia|].
  simpl. destruct (FICBS_locateOneFixedParameter_ok free st) as (r & st1 & E & Hk1 & Hn1 & Hr);
    [intros i Hin; by apply (li_free _ _ _ Hi)|apply (li_nd _ _ _ Hi)|done|].
  mstep ltac:(done). destruct Hr as [[-> Hend]|(Hr & Hfr & Hnr)]; simpl.
  { exists located, st1. destruct (loc_inv_end _ _ _ Hi Hend) as (? & ? & ?).
    split_and!; [done|done|lia|done|apply (li_locnd _ _ _ Hi)|done..]. }
  destruct (Z.eqb_spec r (-1)); [lia|].
  destruct (lookup_lt_is_Some_2 free (Z.to_nat r)) as [p Hp]; [lia|]. rewrite Hp.
  destruct (IH (delete (Z.to_nat r) free) (located ++ [p]) (Z.to_nat r) st1)
    as (l' & st2 & -> & Hk2 & Hn2 & Hlen & Hpost).
  { by eapply loc_inv_step. }
  { rewrite length_delete by eauto. lia. }
  rewrite length_app in *. simpl in *.
  exists l', st2. split_and!; [done|by eapply keeps_trans|nia|lia|apply Hpost..].
Qed.

Lemma FICBS_locateOneMFC_ok st :
  exists c x st', FICBS_locateOneMFC MFS safeValues t fixed st = Ok (c, st') /\ keeps st st' /\
    checks st' <= checks st + S (size (bitset x)) * S (Nat.log2 n) /\
    wfS n x /\ getComb x t = Ok c /\
    bitset x ## bitset fixed /\ minimal_faulty faulty (bitset x).
Proof.
  unfold FICBS_locateOneMFC, FINOVLP_locateOneMFC. rewrite (to_length _ _ HT).
  mstep ltac:(by rewrite (proj2 (TestOf_Comb n t HT))).
  rewrite (Schema_complement_ok n) by done.
  set (free := getIndices _).
  assert (Hfree : forall i, i ∈ free <-> i < n /\ i ∉ bitset fixed).
  { intros i. unfold free. rewrite (elem_of_getIndices n).
    - simpl. rewrite elem_of_difference, elem_of_set_seq. naive_solver lia.
    - split; [done|]. simpl. intros j. rewrite elem_of_difference, elem_of_set_seq. lia. }
  destruct (locate_loop_ok (S (length free)) free [] 0 st)
    as (l & st' & E & Hk & Hn & _ & Hnd & Hw & Hd & Hm); [|lia|].
  { split; [apply NoDup_filter, NoDup_seq| |set_solver|constructor|lia| |set_solver].
    - intros i. rewrite Hfree. pose proof (not_elem_of_nil i). tauto.
    - by unfold without, firsts; simpl; rewrite difference_empty_L. }
  mstep ltac:(done).
  destruct (getComb_ok n (Schema_ofIndices n l) t Hw (to_length _ _ HT)) as (c & Hg & _).
  rewrite Hg. exists c, (Schema_ofIndices n l), st'. split_and!; [done|done| |done..].
  simpl. rewrite size_list_to_set by done. simpl in Hn. lia.
Qed.
End locate.

#[export] Instance FIC_locator : MFCLocator FIC_locateOneMFC.
Proof.
  refine {| locate_cost := fun n k => n |}.
  intros. by apply FIC_locateOneMFC_ok.
Defined.

#[export] Instance FICBS_locator : MFCLocator FICBS_locateOneMFC.
Proof.
  refine {| locate_cost := fun n k => S k * S (Nat.log2 n) |}.
  intros. by apply FICBS_locateOneMFC_ok.
Defined.
