(* ===== verification/FinovlpProofs.v ===== *)
(** * FINOVLP on one test case

    The test case with some parameters replaced by safe values ([padded])
    contains the faults of the original one that do not touch them; so a
    minimal fault of it is a minimal fault of the original. *)
From S2P Require Import Prelude Schema NoPend Resolvers ResolversProofs.

Abbreviation params m := (bitset (Schema_ofComb m)).

(** ** The store *)
Lemma on_log_ok {A} (m : M ResolverState jexn A) s a l :
  m (log s) = Ok (a, l) -> on_log m s = Ok (a, MkRun l (mutables s) (executed_refs s)).
Proof. unfold on_log. by intros ->. Qed.

Lemma content_ok o c s : mutables s !! o = Some c -> content o s = Ok (c, s).
Proof. unfold content. by intros ->. Qed.

Lemma mutate_object_ok f o c c' s :
  mutables s !! o = Some c -> f c = Ok c' ->
  mutate_object f o s = Ok (tt, MkRun (log s) (<[o := c']> (mutables s)) (executed_refs s)).
Proof.
  intros Hc Hf. unfold mutate_object. mstep ltac:(by apply content_ok). mstep ltac:(by rewrite Hf). done.
Qed.

Lemma new_MutableTestcase_ok n t s :
  TestOf n t ->
  new_MutableTestcase t s =
    Ok (length (mutables s), MkRun (log s) (mutables s ++ [t]) (executed_refs s)).
Proof.
  intros HT. unfold new_MutableTestcase. mstep ltac:(by rewrite (proj2 (TestOf_Comb n t HT))). done.
Qed.

Definition passes (MFS : list Comb) (c : Comb) : Prop := forall m, m ∈ MFS -> contains_loop c m = false.

Lemma check_loop_fault n (MFS : list Comb) c :
  (forall m, m ∈ MFS -> length m = n) -> length c = n ->
  (check_loop c MFS = Ok true /\ passes MFS c) \/
  (check_loop c MFS = Ok false /\ exists m, fault_in MFS c m).
Proof.
  intros Hm Hc. rewrite check_loop_ok by (intros; rewrite Hc; auto).
  destruct (existsb (contains_loop c) MFS) eqn:E; [right|left]; (split; [done|]).
  - apply existsb_exists in E as (m & Hin%list_elem_of_In & Hcm). by exists m.
  - intros m Hin. apply not_true_is_false. intros Hcm.
    assert (existsb (contains_loop c) MFS = true); [|congruence].
    apply existsb_exists. exists m. by rewrite <- list_elem_of_In.
Qed.

(** Between [s] and [s'] the checker executed [c] and forgot nothing: its set
    has an entry with the hash code of [c]. *)
Definition recorded (c : Comb) (s s' : RunState) : Prop :=
  executed_refs s ⊆ executed_refs s' /\ exists o, (hashCode c, o) ∈ executed_refs s'.

Lemma add_ref_recorded o c s : recorded c s (add_ref o c s).
Proof.
  unfold add_ref, recorded. simpl. destruct (existsb _ _) eqn:E.
  - split; [done|]. apply existsb_exists in E as ([h o'] & He & Hs).
    apply andb_prop in Hs as [Hh%Z.eqb_eq _]. simpl in Hh. subst h.
    exists o'. by apply list_elem_of_In.
  - split; [set_solver|]. exists o. apply elem_of_app. right. by apply list_elem_of_singleton.
Qed.

Lemma recorded_trans c s1 s2 s3 :
  recorded c s1 s2 -> executed_refs s2 ⊆ executed_refs s3 -> recorded c s1 s3.
Proof. intros [H1 [o Ho]] H3. split; [by etransitivity|]. exists o. by apply H3. Qed.

Lemma check_ref_ok n MFS o c s b :
  length c = n -> mutables s !! o = Some c -> check_loop c MFS = Ok b ->
  exists s', check_ref MFS o s = Ok (b, s') /\ keeps (log s) (log s') /\
    checks (log s') = checks (log s) /\ mutables s' = mutables s /\
    recorded c s s' /\
    forall e, e ∈ executed_refs s' -> e ∈ executed_refs s \/ e.2 = o.
Proof.
  intros Hl Hc Hb. unfold check_ref. mstep ltac:(by apply content_ok).
  mstep ltac:(by apply on_log_ok). mstep ltac:(done). rewrite Hb. simpl.
  eexists. split_and!; [done|done|done|done|apply (add_ref_recorded o c (MkRun _ _ _))|]. simpl. intros e.
  destruct (existsb _ _); [by left|]. rewrite elem_of_app, list_elem_of_singleton.
  intros [?| ->]; [by left|by right].
Qed.

Section run.
Context (n : nat) (MFS : list Comb) (safeValues : Comb).
Context (FM : FaultModel n MFS safeValues).

Lemma fault_bound t m i : fault_in MFS t m -> i ∈ params m -> i < n.
Proof. intros [Hm _] Hi. by apply (Schema_ofComb_wf n m (fm_length _ _ _ FM m Hm)). Qed.

(** ** Padded test cases *)
Record padded (t : Comb) (F : gset nat) (t' : Comb) : Prop := {
  pd_test : TestOf n t';
  pd_out : forall i, i < n -> i ∉ F -> t' !! i = t !! i;
  pd_in : forall i m v, i ∈ F -> m ∈ MFS -> m !! i = Some v -> v <> UNKNOWN -> t' !! i <> Some v
}.

Lemma padded_refl t : TestOf n t -> padded t ∅ t.
Proof. intros HT. split; [done|done|set_solver]. Qed.

Lemma fault_in_padded t F t' m :
  TestOf n t -> padded t F t' ->
  fault_in MFS t' m <-> fault_in MFS t m /\ params m ## F.
Proof.
  intros HT Hp. unfold fault_in.
  assert (Hiff : m ∈ MFS -> contains_loop t' m = true <-> contains_loop t m = true /\ params m ## F).
  2:{ tauto. }
  intros Hm. pose proof (fm_length _ _ _ FM m Hm) as Hml.
  rewrite !contains_loop_spec by (rewrite Hml; apply HT || apply (pd_test _ _ _ Hp)).
  split.
  - intros Hc. assert (Hd : params m ## F).
    { intros i (v & Hv & Hne)%elem_of_Schema_ofComb Hi. by eapply (pd_in _ _ _ Hp i m v); eauto. }
    split; [|done]. intros i v Hv Hne. rewrite <- (pd_out _ _ _ Hp); [by apply Hc| |].
    + apply lookup_lt_Some in Hv. lia.
    + intros Hi. apply (Hd i); [|done]. apply elem_of_Schema_ofComb. eauto.
  - intros [Hc Hd] i v Hv Hne. rewrite (pd_out _ _ _ Hp); [by apply Hc| |].
    + apply lookup_lt_Some in Hv. lia.
    + intros Hi. apply (Hd i); [|done]. apply elem_of_Schema_ofComb. eauto.
Qed.

Lemma minimal_fault_padded t F t' m :
  TestOf n t -> padded t F t' -> minimal_fault MFS t' m -> minimal_fault MFS t m /\ params m ## F.
Proof.
  intros HT Hp [Hf Hmin]. apply (fault_in_padded t F t' m HT Hp) in Hf as [Hf Hd].
  split; [|done]. split; [done|]. intros m' Hm' Hs. apply Hmin; [|done].
  apply (fault_in_padded t F t' m' HT Hp). split; [done|]. set_solver.
Qed.

Lemma padded_insert t F t' i v :
  i < n -> (v = 0 \/ v = 1)%Z -> (forall m w, m ∈ MFS -> m !! i = Some w -> w <> UNKNOWN -> w <> v) ->
  padded t F t' -> padded t ({[i]} ∪ F) (<[i := v]> t').
Proof.
  intros Hi Hv Hsafe [[H1 H2] H3 H4]. split.
  - split; [by rewrite length_insert|]. intros w Hw.
    apply list_elem_of_lookup in Hw as [j Hj].
    destruct (decide (j = i)) as [->|Hne].
    + rewrite list_lookup_insert_eq in Hj by lia. by simplify_eq.
    + rewrite list_lookup_insert_ne in Hj by done. apply H2. by eapply list_elem_of_lookup_2.
  - intros j Hj Hn. rewrite list_lookup_insert_ne by set_solver. apply H3; set_solver.
  - intros j m w Hj Hm Hw Hne. destruct (decide (j = i)) as [->|Hji].
    + rewrite list_lookup_insert_eq by lia. intros [= <-]. by eapply Hsafe.
    + rewrite list_lookup_insert_ne by done. apply (H4 j m w); [set_solver|done..].
Qed.

(** [paddingWithSafeValues] of one parameter *)
Lemma FINOVLP_padding_ok t F t' o i s :
  mutables s !! o = Some t' -> i < n -> padded t F t' ->
  exists t'', FINOVLP_padding safeValues o i s =
      Ok (tt, MkRun (log s) (<[o := t'']> (mutables s)) (executed_refs s)) /\
    padded t ({[i]} ∪ F) t''.
Proof.
  intros Ho Hi Hp. unfold FINOVLP_padding, elements_get.
  destruct (lookup_lt_is_Some_2 safeValues i) as [sv Hsv]; [rewrite (fm_safe_length _ _ _ FM); lia|].
  destruct (TestOf_lookup n t' i (pd_test _ _ _ Hp) Hi) as (v & Hv & Hv01).
  rewrite Hsv. mstep ltac:(done).
  pose proof (fm_safe_values _ _ _ FM sv (list_elem_of_lookup_2 _ _ _ Hsv)) as Hsv01.
  destruct (Z.eqb_spec sv UNKNOWN) as [->|Hne].
  - exists (<[i := (1 - v)%Z]> t'). split.
    + apply mutate_object_ok with (c := t'); [done|]. unfold flip_elements. rewrite Hv.
      by destruct Hv01 as [-> | ->].
    + apply padded_insert; [done|lia| |done]. intros m w Hm Hw Hnu.
      by destruct (fm_safe _ _ _ FM m i w UNKNOWN Hm Hw Hnu Hsv).
  - exists (<[i := sv]> t'). split.
    + apply mutate_object_ok with (c := t'); [done|]. unfold set_elements. rewrite Hv.
      by destruct Hsv01 as [? | [-> | ->]].
    + apply padded_insert; [done|tauto| |done]. intros m w Hm Hw Hnu ->.
      by destruct (fm_safe _ _ _ FM m i sv sv Hm Hw Hnu Hsv).
Qed.

Lemma pad_loop_ok t o mfc ixs fixed t' s :
  (forall i, i ∈ ixs -> i < n) -> length mfc = n -> wfS n fixed ->
  mutables s !! o = Some t' -> padded t (bitset fixed) t' ->
  exists t'' fixed', pad_loop safeValues o mfc ixs fixed s =
      Ok (fixed', MkRun (log s) (<[o := t'']> (mutables s)) (executed_refs s)) /\
    wfS n fixed' /\ padded t (bitset fixed') t'' /\
    forall i, i ∈ bitset fixed' <-> i ∈ bitset fixed \/ (i ∈ ixs /\ i ∈ params mfc).
Proof.
  intros Hixs Hmfc. revert fixed t' s. induction ixs as [|i ixs IH]; intros fixed t' s Hfx Ho Hp; simpl.
  { exists t', fixed. split_and!; [|done|done|set_solver].
    destruct s; simpl in *. by rewrite list_insert_id. }
  assert (Hi : i < n) by (apply Hixs; left).
  assert (Hixs' : forall j, j ∈ ixs -> j < n) by (intros; apply Hixs; by right).
  destruct (lookup_lt_is_Some_2 mfc i) as [v Hv]; [lia|].
  assert (Hparam : i ∈ params mfc <-> v <> UNKNOWN) by (rewrite elem_of_Schema_ofComb; naive_solver).
  unfold elements_get at 1. rewrite Hv. mstep ltac:(done).
  destruct (Z.eqb_spec v UNKNOWN) as [->|Hne]; cbn [negb].
  - destruct (IH Hixs' fixed t' s Hfx Ho Hp) as (t'' & fixed' & -> & Hw & Hp' & Hel).
    exists t'', fixed'. split_and!; [done|done|done|]. intros j. rewrite Hel, elem_of_cons.
    destruct (decide (j = i)) as [->|]; tauto.
  - destruct (FINOVLP_padding_ok t (bitset fixed) t' o i s Ho Hi Hp) as (t1 & E & Hp1).
    mstep ltac:(done).
    destruct (IH Hixs' (Schema_set fixed i true) t1
      (MkRun (log s) (<[o:=t1]> (mutables s)) (executed_refs s)))
      as (t'' & fixed' & -> & Hw & Hp' & Hel); [by apply Schema_set_wf| |done|].
    { simpl. apply list_lookup_insert_eq. by eapply lookup_lt_Some. }
    exists t'', fixed'. simpl. rewrite list_insert_insert_eq. split_and!; [done|done|done|].
    intros j. rewrite Hel. simpl. rewrite elem_of_union, elem_of_singleton, elem_of_cons.
    destruct (decide (j = i)) as [->|]; tauto.
Qed.

(** ** The loop *)
Record found (t : Comb) (l : list Comb) : Prop := {
  fd_minimal : forall c, c ∈ l -> minimal_fault MFS t c;
  fd_disjoint : forall c c', c ∈ l -> c' ∈ l -> c = c' \/ params c ## params c'
}.

Record fl_inv (t : Comb) (fixed : Schema) (t' : Comb) (l : list Comb) : Prop := {
  fl_wf : wfS n fixed;
  fl_padded : padded t (bitset fixed) t';
  fl_found : found t l;
  fl_fixed : forall i, i ∈ bitset fixed <-> exists c, c ∈ l /\ i ∈ params c
}.

Lemma params_nonempty t m : fault_in MFS t m -> params m <> ∅.
Proof. intros [Hm _]. by apply (fm_nonempty _ _ _ FM). Qed.

Lemma fl_inv_step t fixed t' l c fixed' t'' :
  TestOf n t -> fl_inv t fixed t' l -> minimal_fault MFS t' c -> wfS n fixed' ->
  padded t (bitset fixed') t'' ->
  (forall i, i ∈ bitset fixed' <-> i ∈ bitset fixed \/ i ∈ params c) ->
  fl_inv t fixed' t'' (hashset_add c l) /\ n - size (bitset fixed') < n - size (bitset fixed).
Proof.
  intros HT [Hw Hp [Hmin Hdis] Hfx] Hc Hw' Hp' Hel.
  destruct (minimal_fault_padded t _ t' c HT Hp Hc) as [Hc' Hd].
  split.
  - split; [done|done| |].
    + split.
      * intros d [-> |Hd']%hashset_add_elem; auto.
      * assert (Hcl : forall d, d ∈ l -> params c ## params d).
        { intros d Hdl i Hi1 Hi2. apply (Hd i Hi1), Hfx. eauto. }
        intros d d' [-> |Hd1]%hashset_add_elem [-> |Hd2]%hashset_add_elem;
          [by left|right; by apply Hcl|right; symmetry; by apply Hcl|by apply Hdis].
    + intros i. rewrite Hel, Hfx. setoid_rewrite hashset_add_elem. naive_solver.
  - assert (Hlt : size (bitset fixed) < size (bitset fixed')).
    { apply subset_size. split.
      - intros i Hi. apply Hel. by left.
      - destruct Hc' as [Hcf _]. apply params_nonempty in Hcf.
        apply set_choose_L in Hcf as [i Hi]. intros Hs.
        apply (Hd i Hi), Hs, Hel. by right. }
    assert (size (bitset fixed') <= n).
    { transitivity (size (set_seq 0 n : gset nat)); [|by rewrite size_set_seq].
      apply subseteq_size. intros i Hi. apply Hw' in Hi. apply elem_of_set_seq. lia. }
    lia.
Qed.

Context (locate : Locator) `{L : !MFCLocator locate}.

(** What the locator finds in the padded test case. *)
Lemma locate_padded t fixed t' l st :
  TestOf n t -> fl_inv t fixed t' l -> (exists m, fault_in MFS t' m) ->
  exists c st', locate MFS safeValues t' fixed st = Ok (c, st') /\ keeps st st' /\
    minimal_fault MFS t' c.
Proof.
  intros HT [Hw Hp Hfd Hfx] [m0 Hm0]. pose proof (pd_test _ _ _ Hp) as HT'.
  destruct (locate_ok n MFS safeValues t' (O := checker_oracle n MFS safeValues t' FM HT') fixed st)
    as (c & x & st' & E & Hk & _ & Hx & Hg & _ & Hmin); [done|done| | |].
  - intros X (m & Hm & Hs). exists m. split; [done|].
    apply (fault_in_padded t _ t' m HT Hp) in Hm as [_ Hd]. set_solver.
  - exists m0. split; [done|]. intros i Hi. apply elem_of_set_seq.
    pose proof (fault_bound t' m0 i Hm0 Hi). lia.
  - exists c, st'. split_and!; [done|done|].
    apply (minimal_faulty_iff n MFS safeValues FM t' HT') in Hmin as (c0 & Hc0 & Hxc).
    destruct (Hc0) as [Hf0 _].
    assert (x = Schema_ofComb c0) as ->.
    { apply (Schema_eq n); [done| |done]. apply Schema_ofComb_wf, (fm_length _ _ _ FM), Hf0. }
    by rewrite (fault_getComb n MFS safeValues FM t' c0 c HT' Hf0 Hg).
Qed.

Lemma FINOVLP_loop_ok fuel o t fixed t' l s :
  TestOf n t -> fl_inv t fixed t' l -> mutables s !! o = Some t' ->
  n - size (bitset fixed) < fuel ->
  exists l' fixed' t'' s',
    FINOVLP_loop MFS safeValues (locate MFS safeValues) fuel o fixed l s = Ok (l', s') /\
    keeps (log s) (log s') /\ fl_inv t fixed' t'' l' /\ passes MFS t'' /\
    mutables s' = <[o := t'']> (mutables s) /\
    recorded t' s s' /\
    forall e, e ∈ executed_refs s' -> e ∈ executed_refs s \/ e.2 = o.
Proof.
  revert fixed t' l s. induction fuel as [|fuel IH]; intros fixed t' l s HT Hi Ho Hf; [lia|].
  cbn [FINOVLP_loop].
  pose proof (pd_test _ _ _ (fl_padded _ _ _ _ Hi)) as HT'.
  destruct (check_loop_fault n MFS t') as [[Hc Hpass]|[Hc Hfault]];
    [apply (fm_length _ _ _ FM)|apply HT'| |].
  all: destruct (check_ref_ok n MFS o t' s _ (to_length _ _ HT') Ho Hc)
    as (s1 & E1 & Hk1 & _ & Hm1 & Hr1 & He1).
  all: mstep ltac:(done).
  { exists l, fixed, t', s1. split_and!; [done|done|done|done| |done..].
    rewrite Hm1. symmetry. by apply list_insert_id. }
  mstep ltac:(by apply content_ok; rewrite Hm1).
  destruct (locate_padded t fixed t' l (log s1) HT Hi Hfault) as (c & st2 & E2 & Hk2 & Hmin).
  mstep ltac:(by apply on_log_ok).
  assert (Hcl : length c = n).
  { apply (fm_length _ _ _ FM). apply Hmin. }
  destruct (pad_loop_ok t o c (seq 0 (length c)) fixed t'
    (MkRun st2 (mutables s1) (executed_refs s1))) as (t2 & fixed2 & E3 & Hw2 & Hp2 & Hel2);
    [rewrite Hcl; intros i Hin%elem_of_seq; lia|done|apply (fl_wf _ _ _ _ Hi)|simpl; by rewrite Hm1
    |apply (fl_padded _ _ _ _ Hi)|].
  mstep ltac:(done). simpl.
  destruct (fl_inv_step t fixed t' l c fixed2 t2 HT Hi Hmin Hw2 Hp2) as [Hi2 Hlt].
  { intros i. rewrite Hel2, elem_of_seq, Hcl. destruct Hmin as [Hcf _].
    pose proof (fault_bound t' c i Hcf). naive_solver lia. }
  destruct (IH fixed2 t2 (hashset_add c l) (MkRun st2 (<[o := t2]> (mutables s1)) (executed_refs s1)))
    as (l' & fixed' & t'' & s' & -> & Hk & Hi' & Hpass & Hm & [Hr _] & He);
    [done|done| |lia|].
  { simpl. apply list_lookup_insert_eq. rewrite Hm1. by eapply lookup_lt_Some. }
  simpl in *. exists l', fixed', t'', s'. split_and!; [done| |done|done| | |].
  - eapply keeps_trans; [done|]. by eapply keeps_trans.
  - by rewrite Hm, Hm1, list_insert_insert_eq.
  - by eapply recorded_trans.
  - intros e [He'|He']%He; [by apply He1|by right].
Qed.

(** No other fault is left: each shares a parameter with one that was found. *)
Definition finovlp_result (t : Comb) (l : list Comb) : Prop :=
  found t l /\ forall m, fault_in MFS t m -> exists c, c ∈ l /\ ~ params m ## params c.

(** The entries that [Checker] keeps of the resolver's own test case, after
    the call. *)
Definition refs_ok (P : Comb -> Prop) (s s' : RunState) : Prop :=
  (forall o c, mutables s !! o = Some c -> mutables s' !! o = Some c) /\
  forall e, e ∈ executed_refs s' ->
    e ∈ executed_refs s \/ exists c, mutables s' !! e.2 = Some c /\ P c.

Lemma FINOVLP_ok fuel t s :
  TestOf n t -> n < fuel ->
  exists l s', FINOVLP MFS safeValues (locate MFS safeValues) fuel t s = Ok (l, s') /\
    keeps (log s) (log s') /\ finovlp_result t l /\ refs_ok (passes MFS) s s' /\
    recorded t s s'.
Proof.
  intros HT Hf. unfold FINOVLP. mstep ltac:(by apply (new_MutableTestcase_ok n)).
  rewrite (to_length _ _ HT).
  destruct (FINOVLP_loop_ok fuel (length (mutables s)) t (Schema_new n) t []
    (MkRun (log s) (mutables s ++ [t]) (executed_refs s)))
    as (l & fixed & t' & s' & -> & Hk & [Hw Hp Hfd Hfx] & Hpass & Hm & Hr & He);
    [done| | |simpl; lia|].
  { split; [split; [done|]; set_solver|by apply padded_refl| |set_solver].
    split.
    - intros c Hc. by apply not_elem_of_nil in Hc.
    - intros c c' Hc. by apply not_elem_of_nil in Hc. }
  { simpl. by apply list_lookup_middle. }
  simpl in *. exists l, s'. split_and!; [done|done| | |done].
  - split; [done|]. intros m Hmf.
    assert (Hnf : ~ fault_in MFS t' m).
    { intros [Hm' Hc']. rewrite Hpass in Hc' by done. done. }
    rewrite (fault_in_padded t _ t' m HT Hp) in Hnf.
    destruct (decide (params m ## bitset fixed)) as [|Hov]; [tauto|].
    assert (Hex : params m ∩ bitset fixed <> ∅) by set_solver.
    apply set_choose_L in Hex as [i Hi]. apply elem_of_intersection in Hi as [Hi1 Hi2].
    apply Hfx in Hi2 as (c & Hc & Hic). exists c. set_solver.
  - split.
    + intros o c Ho. rewrite Hm. apply lookup_lt_Some in Ho as Hlt.
      rewrite list_lookup_insert_ne by lia. by apply lookup_app_l_Some.
    + intros e [?| ->]%He; [by left|right]. exists t'. split; [|done].
      rewrite Hm. apply list_lookup_insert_eq. rewrite length_app. simpl. lia.
Qed.
End run.
