(* ===== verification/SofotProofs.v ===== *)
(** * SOFOT

    With safe values it reports the parameters that all faults of the test case
    have in common; without, those whose flip makes it pass. *)
From S2P Require Import Prelude Schema NoPend Resolvers ResolversProofs FinovlpProofs.

Lemma record_one t x c st :
  getComb x t = Ok c -> record_MFS t [x] st = Ok (tt, add_identified c st).
Proof. intros Hg. simpl. mstep ltac:(by rewrite Hg). done. Qed.

(** ** With safe values *)
Section safe.
Context (n : nat) (MFS : list Comb) (safeValues : Comb).

Section one.
Context (t : Comb) (HT : TestOf n t) `{O : !HealthOracle n MFS safeValues t}.

Lemma sofot_loop_ok ixs mfs c st :
  (forall i, i ∈ ixs -> i < n) -> wfS n mfs -> comb_of n (set_seq 0 n) t c ->
  exists mfs' st', sofot_loop MFS safeValues t ixs c mfs st = Ok (mfs', st') /\
    keeps st st' /\ checks st' = checks st + length ixs /\ wfS n mfs' /\
    forall i, i ∈ bitset mfs' <-> i ∈ bitset mfs \/ (i ∈ ixs /\ ~ faulty (set_seq 0 n ∖ {[i]})).
Proof.
  revert mfs c st. induction ixs as [|i ixs IH]; intros mfs c st Hixs Hw Hc; simpl.
  { exists mfs, st. split_and!; [done|done|lia|done|]. set_solver. }
  assert (Hi : i < n) by (apply Hixs; left).
  assert (Hixs' : forall j, j ∈ ixs -> j < n) by (intros; apply Hixs; by right).
  destruct (TestOf_lookup n t i HT Hi) as (v & Hv & _).
  unfold elements_get. rewrite Hv. mstep ltac:(done).
  destruct (comb_of_unset n _ t c i Hc Hi) as [E1 Hc1]. mstep ltac:(by rewrite E1).
  destruct (check_comb_ok n MFS safeValues t HT _ _ st Hc1) as (st1 & E2 & Hk1 & Hn1).
  { intros j. rewrite elem_of_difference, elem_of_set_seq. lia. }
  mstep ltac:(done).
  destruct (comb_of_set n _ t _ i v Hc1 Hv Hi) as [E3 Hc2]. mstep ltac:(by rewrite E3).
  rewrite <- union_difference_singleton_L in Hc2 by (apply elem_of_set_seq; lia).
  case_bool_decide as Hf; cbn [negb].
  - destruct (IH mfs _ st1 Hixs' Hw Hc2) as (mfs' & st' & -> & Hk & Hn & Hw' & Hel).
    exists mfs', st'. split_and!; [done|by eapply keeps_trans|lia|done|].
    intros j. rewrite Hel, elem_of_cons. destruct (decide (j = i)) as [->|]; tauto.
  - destruct (IH (Schema_set mfs i true) _ st1 Hixs' (Schema_set_wf n mfs i true Hw Hi) Hc2)
      as (mfs' & st' & -> & Hk & Hn & Hw' & Hel).
    exists mfs', st'. split_and!; [done|by eapply keeps_trans|lia|done|].
    intros j. rewrite Hel, elem_of_cons. simpl. rewrite elem_of_union, elem_of_singleton.
    destruct (decide (j = i)) as [->|]; tauto.
Qed.
End one.

Context (FM : FaultModel n MFS safeValues).

(** The parameters that all faults of [t] mention. *)
Definition common_params (t : Comb) (x : Schema) : Prop :=
  wfS n x /\ forall i, i ∈ bitset x <-> i < n /\ forall m, fault_in MFS t m -> i ∈ params m.

Lemma common_iff t i : 
  i < n ->
  ~ faultyX MFS t (set_seq 0 n ∖ {[i]}) <-> forall m, fault_in MFS t m -> i ∈ params m.
Proof using FM.
  intros Hi. split.
  - intros Hn m Hm. destruct (decide (i ∈ params m)) as [|Hout]; [done|]. exfalso. apply Hn.
    exists m. split; [done|]. intros j Hj. rewrite elem_of_difference, elem_of_set_seq, elem_of_singleton.
    pose proof (fault_bound n MFS safeValues FM t m j Hm Hj). split; [lia|]. by intros ->.
  - intros Hall (m & Hm & Hs). specialize (Hs i (Hall m Hm)). set_solver.
Qed.

Lemma sofot_one_ok t st :
  TestOf n t ->
  exists x st', sofot_one MFS safeValues t st = Ok (tt, st') /\ common_params t x /\
    conducted st' = conducted st /\ checks st' = checks st + n /\
    forall c, c ∈ MFC_identified st' <->
      c ∈ MFC_identified st \/ (bitset x <> ∅ /\ getComb x t = Ok c).
Proof using FM.
  intros HT. unfold sofot_one. mstep ltac:(by rewrite (proj1 (TestOf_Comb n t HT))).
  rewrite (to_length _ _ HT).
  destruct (sofot_loop_ok t HT (O := checker_oracle n MFS safeValues t FM HT)
    (seq 0 n) (Schema_new n) t st) as (x & st1 & E & [Hk1 Hk2] & Hn & Hw & Hel);
    [intros i Hi%elem_of_seq; lia|split; [done|]; set_solver|apply comb_of_full, HT|].
  assert (Hcommon : common_params t x).
  { split; [done|]. intros i. rewrite Hel, elem_of_seq. simpl. split.
    - intros [Hi|[Hi Hnf]]; [set_solver|]. split; [lia|]. apply common_iff; [lia|done].
    - intros [Hi Hall]. right. split; [lia|]. by apply common_iff. }
  rewrite length_seq in Hn.
  mstep ltac:(done). unfold Schema_size. destruct (Nat.eqb_spec (size (bitset x)) 0) as [E0|E0].
  - apply size_empty_inv in E0. exists x, st1. split_and!; [done|done|done|done|].
    intros c. rewrite Hk1. set_solver.
  - destruct (getComb_ok n x t Hw (to_length _ _ HT)) as (c & Hg & _).
    rewrite (record_one t x c st1 Hg). eexists x, _. split_and!; [done|done|done|done|]. simpl. intros d.
    rewrite hashset_add_elem, Hk1. split.
    + intros [-> |?]; [right|by left]. split; [|done]. intros Hx. rewrite Hx in E0. by rewrite size_empty in E0.
    + intros [?|[_ Hd]]; [by right|left]. congruence.
Qed.

Lemma sofot_with_safevalues_ok Tfail st :
  (forall t, t ∈ Tfail -> TestOf n t) ->
  exists st', sofot_with_safevalues MFS safeValues Tfail st = Ok (tt, st') /\
    conducted st' = conducted st /\ checks st' = checks st + n * length Tfail /\
    forall c, c ∈ MFC_identified st' <-> c ∈ MFC_identified st \/
      exists t x, t ∈ Tfail /\ common_params t x /\ bitset x <> ∅ /\ getComb x t = Ok c.
Proof using FM.
  revert st. induction Tfail as [|t Tfail IH]; intros st HT; simpl.
  { exists st. split_and!; [done|done|lia|]. set_solver. }
  destruct (sofot_one_ok t st) as (x & st1 & E & Hx & Hcd & Hn & Hel); [apply HT; left|].
  mstep ltac:(done).
  destruct (IH st1) as (st' & -> & Hcd' & Hn' & Hel'); [intros t' Ht'; apply HT; by right|].
  exists st'. split_and!; [done|congruence|lia|]. intros c. rewrite Hel', Hel.
  setoid_rewrite elem_of_cons. split.
  - intros [[?|[? ?]]|(t' & x' & ? & ?)]; [by left|right; exists t, x; auto|right; exists t', x'; auto].
  - intros [?|(t' & x' & [-> |Ht'] & Hx' & Hne & Hg)]; [tauto| |right; by exists t', x'].
    left. right. assert (x' = x) as ->; [|done]. apply (Schema_eq n); [apply Hx'|apply Hx|].
    apply set_eq. intros i. destruct Hx as [_ ->], Hx' as [_ ->]. done.
Qed.
End safe.

(** ** Without safe values *)
Section flip.
Context (n : nat) (MFS : list Comb) (Hlen : forall m, m ∈ MFS -> length m = n).

Definition flipped (t : Comb) (i : nat) : Comb :=
  <[i := (1 - default 0 (t !! i))%Z]> t.

Lemma flip_elements_ok t i :
  TestOf n t -> i < n ->
  flip_elements t i = Ok (flipped t i) /\ flip_elements (flipped t i) i = Ok t.
Proof using.
  intros HT Hi. destruct (TestOf_lookup n t i HT Hi) as (v & Hv & Hv01).
  unfold flip_elements, flipped. rewrite Hv. simpl.
  rewrite list_lookup_insert_eq by (rewrite (to_length _ _ HT); lia).
  rewrite !list_insert_insert_eq.
  destruct Hv01 as [-> | ->]; (split; [done|]); simpl; by rewrite list_insert_id.
Qed.

Lemma flip_loop_ok t o ixs mfs s :
  TestOf n t -> (forall i, i ∈ ixs -> i < n) -> mutables s !! o = Some t ->
  exists mfs' s', flip_loop MFS o ixs mfs s = Ok (mfs', s') /\
    keeps (log s) (log s') /\ mutables s' = mutables s /\
    (forall e, e ∈ executed_refs s' -> e ∈ executed_refs s \/ e.2 = o) /\
    forall i, i ∈ mfs' <-> i ∈ mfs \/ (i ∈ ixs /\ passes MFS (flipped t i)).
Proof using Hlen.
  intros HT Hixs Ho. revert mfs s Ho. induction ixs as [|i ixs IH]; intros mfs s Ho; simpl.
  { exists mfs, s. split_and!; [done|done|done|by left|set_solver]. }
  assert (Hi : i < n) by (apply Hixs; left).
  destruct (flip_elements_ok t i HT Hi) as [E1 E2].
  mstep ltac:(by eapply mutate_object_ok).
  set (s1 := MkRun _ _ _).
  assert (Ho1 : mutables s1 !! o = Some (flipped t i))
    by (apply list_lookup_insert_eq; by eapply lookup_lt_Some).
  assert (Hfl : length (flipped t i) = n).
  { unfold flipped. rewrite length_insert. apply HT. }
  destruct (check_loop_fault n MFS (flipped t i) Hlen Hfl) as [[Hc Hp]|[Hc (m & Hm & Hcm)]].
  all: destruct (check_ref_ok n MFS o _ s1 _ Hfl Ho1 Hc) as (s2 & E & Hk & _ & Hm2 & _ & He2).
  all: mstep ltac:(done).
  all: mstep ltac:(by eapply mutate_object_ok; [rewrite Hm2|]).
  all: set (s3 := MkRun _ _ _).
  all: assert (Hm3 : mutables s3 = mutables s)
    by (unfold s3; simpl; rewrite Hm2; unfold s1; simpl; rewrite list_insert_insert_eq; by apply list_insert_id).
  all: assert (Ho3 : mutables s3 !! o = Some t) by by rewrite Hm3.
  - destruct (IH ltac:(intros; apply Hixs; by right) (mfs ++ [i]) s3 Ho3) as (mfs' & s' & -> & Hk' & Hm' & He' & Hel).
    exists mfs', s'. split_and!; [done|by eapply keeps_trans|congruence| |].
    + intros e [He|He]%He'; [by apply He2|by right].
    + intros j. rewrite Hel, elem_of_app, list_elem_of_singleton, elem_of_cons.
      destruct (decide (j = i)) as [->|]; tauto.
  - destruct (IH ltac:(intros; apply Hixs; by right) mfs s3 Ho3) as (mfs' & s' & -> & Hk' & Hm' & He' & Hel).
    exists mfs', s'. split_and!; [done|by eapply keeps_trans|congruence| |].
    + intros e [He|He]%He'; [by apply He2|by right].
    + intros j. rewrite Hel, elem_of_cons. split; [tauto|].
      intros [?|[[-> |?] Hp]]; [tauto| |tauto]. rewrite (Hp m Hm) in Hcm. done.
Qed.

(** The parameters whose flip makes [t] pass. *)
Definition flip_params (t : Comb) (x : Schema) : Prop :=
  wfS n x /\ forall i, i ∈ bitset x <-> i < n /\ passes MFS (flipped t i).

Lemma flip_one_ok t s :
  TestOf n t ->
  exists x s', flip_one MFS t s = Ok (tt, s') /\ flip_params t x /\
    conducted (log s') = conducted (log s) /\ refs_ok (fun c => c = t) s s' /\
    forall c, c ∈ MFC_identified (log s') <->
      c ∈ MFC_identified (log s) \/ (bitset x <> ∅ /\ getComb x t = Ok c).
Proof using Hlen.
  intros HT. unfold flip_one. mstep ltac:(by apply (new_MutableTestcase_ok n)).
  rewrite (to_length _ _ HT).
  destruct (flip_loop_ok t (length (mutables s)) (seq 0 n) []
    (MkRun (log s) (mutables s ++ [t]) (executed_refs s)) HT)
    as (l & s1 & E & [Hk1 Hk2] & Hm & He & Hel).
  { intros i Hi%elem_of_seq. lia. }
  { simpl. by apply list_lookup_middle. }
  simpl in *. set (x := Schema_ofIndices n l).
  assert (Hx : flip_params t x).
  { assert (Hiff : forall i, i ∈ bitset x <-> i < n /\ passes MFS (flipped t i)).
    { intros i. simpl. rewrite elem_of_list_to_set, Hel, elem_of_seq.
      pose proof (not_elem_of_nil i). naive_solver lia. }
    split; [split; [done|]|done]. intros i Hi. by apply Hiff. }
  assert (Hrefs : forall l', refs_ok (fun c => c = t) s (MkRun l' (mutables s1) (executed_refs s1))).
  { intros l'. split; simpl.
    - intros o c Ho. rewrite Hm. by apply lookup_app_l_Some.
    - intros e [?| ->]%He; [by left|right]. exists t. split; [|done]. rewrite Hm. by apply list_lookup_middle. }
  mstep ltac:(done). destruct (Nat.eqb_spec (length l) 0) as [E0|E0].
  - apply nil_length_inv in E0. exists x, s1. split_and!; [done|done|done|by destruct s1; apply Hrefs|].
    intros c. rewrite Hk1. unfold x. rewrite E0. simpl. set_solver.
  - destruct (getComb_ok n x t (proj1 Hx) (to_length _ _ HT)) as (c & Hg & _).
    eexists x, _. split_and!.
    + by apply on_log_ok, (record_one t x c).
    + done.
    + done.
    + apply Hrefs.
    + simpl. intros d. rewrite hashset_add_elem, Hk1. split.
      * intros [-> |?]; [right|by left]. split; [|done]. intros Hx0. apply E0.
        destruct l as [|i l]; [done|]. exfalso. unfold x in Hx0. simpl in Hx0. set_solver.
      * intros [?|[_ Hd]]; [by right|left]. congruence.
Qed.

Lemma sofot_without_safevalues_ok Tfail s :
  (forall t, t ∈ Tfail -> TestOf n t) ->
  exists s', sofot_without_safevalues MFS Tfail s = Ok (tt, s') /\
    conducted (log s') = conducted (log s) /\ refs_ok (fun c => c ∈ Tfail) s s' /\
    forall c, c ∈ MFC_identified (log s') <-> c ∈ MFC_identified (log s) \/
      exists t x, t ∈ Tfail /\ flip_params t x /\ bitset x <> ∅ /\ getComb x t = Ok c.
Proof using Hlen.
  revert s. induction Tfail as [|t Tfail IH]; intros s HT; simpl.
  { exists s. split_and!; [done|done| |set_solver]. split; [done|]. by left. }
  destruct (flip_one_ok t s) as (x & s1 & E & Hx & Hcd & [Hr1 Hr2] & Hel); [apply HT; left|].
  mstep ltac:(done).
  destruct (IH s1) as (s' & -> & Hcd' & [Hr3 Hr4] & Hel'); [intros t' Ht'; apply HT; by right|].
  exists s'. split_and!; [done|congruence| |].
  { split; [auto|]. intros e [He|(c & Hc & Hin)]%Hr4; [|right; exists c; split; [done|by right]].
    apply Hr2 in He as [He|(c & Hc & ->)]; [by left|right]. exists t. split; [by apply Hr3|left]. }
  intros c. rewrite Hel', Hel. setoid_rewrite elem_of_cons. split.
  - intros [[?|[? ?]]|(t' & x' & ? & ?)]; [by left|right; exists t, x; auto|right; exists t', x'; auto].
  - intros [?|(t' & x' & [-> |Ht'] & Hx' & Hne & Hg)]; [tauto| |right; by exists t', x'].
    left. right. assert (x' = x) as ->; [|done]. apply (Schema_eq n); [apply Hx'|apply Hx|].
    apply set_eq. intros i. destruct Hx as [_ ->], Hx' as [_ ->]. done.
Qed.
End flip.
