(* ===== verification/ResolversTheorems.v ===== *)
(** * What SOFOT, FIC and FICBS report *)
From S2P Require Import Prelude Schema NoPend Resolvers ResolversProofs FinovlpProofs SofotProofs.

(** ** FINOVLP over all failing tests *)
Lemma addAll_identified_ok l st :
  conducted (addAll_identified l st) = conducted st /\
  forall c, c ∈ MFC_identified (addAll_identified l st) <-> c ∈ MFC_identified st \/ c ∈ l.
Proof.
  unfold addAll_identified. revert st. induction l as [|a l IH]; intros st; simpl.
  { split; [done|]. set_solver. }
  destruct (IH (add_identified a st)) as [Hc He]. split; [done|].
  intros c. rewrite He. simpl. rewrite hashset_add_elem, elem_of_cons. tauto.
Qed.

Lemma refs_ok_refl P s : refs_ok P s s.
Proof. split; [done|]. intros e He. by left. Qed.

Lemma refs_ok_trans P s1 s2 s3 : refs_ok P s1 s2 -> refs_ok P s2 s3 -> refs_ok P s1 s3.
Proof.
  intros [H1 H2] [H3 H4]. split; [auto|]. intros e [He|He]%H4; [|by right].
  apply H2 in He as [He|(c & Hc & Hp)]; [by left|right]. exists c. split; [by apply H3|done].
Qed.

Lemma refs_ok_log P s s' l :
  refs_ok P s s' -> refs_ok P s (MkRun l (mutables s') (executed_refs s')).
Proof. done. Qed.

Section finovlp.
Context (n : nat) (MFS : list Comb) (safeValues : Comb).
Context (FM : FaultModel n MFS safeValues).
Context (locate : Locator) `{L : !MFCLocator locate}.

Lemma FINOVLP_with_safevalues_ok fuel Tfail s :
  n < fuel -> (forall t, t ∈ Tfail -> TestOf n t) ->
  exists Ls s', FINOVLP_with_safevalues MFS safeValues (locate MFS safeValues) fuel Tfail s = Ok (tt, s') /\
    conducted (log s') = conducted (log s) /\ Forall2 (finovlp_result MFS) Tfail Ls /\
    refs_ok (passes MFS) s s' /\ executed_refs s ⊆ executed_refs s' /\
    (forall t, t ∈ Tfail -> exists o, (hashCode t, o) ∈ executed_refs s') /\
    forall c, c ∈ MFC_identified (log s') <-> c ∈ MFC_identified (log s) \/ exists l, l ∈ Ls /\ c ∈ l.
Proof.
  intros Hf. revert s. induction Tfail as [|t Tfail IH]; intros s HT; simpl.
  { exists [], s. split_and!; [done|done|constructor|apply refs_ok_refl|done|set_solver..]. }
  destruct (FINOVLP_ok n MFS safeValues FM locate fuel t s) as (l & s1 & E & [Hk1 Hk2] & Hres & Hrefs & Hrec1 & [o Ho]);
    [apply HT; left|done|].
  mstep ltac:(done). mstep ltac:(by apply on_log_ok).
  destruct (addAll_identified_ok l (log s1)) as [Hcd Hel].
  destruct (IH (MkRun (addAll_identified l (log s1)) (mutables s1) (executed_refs s1)))
    as (Ls & s' & -> & Hcd' & Hfa & Hrefs' & Hmono & Hrec & Hel'); [intros t' Ht'; apply HT; by right|].
  exists (l :: Ls), s'. simpl in *. split_and!; [done|congruence|by constructor| | | |].
  - by eapply refs_ok_trans; [apply refs_ok_log|].
  - by etransitivity.
  - intros t' [-> |Ht']%elem_of_cons; [exists o; by apply Hmono|by apply Hrec].
  - intros c. rewrite Hel', Hel, Hk1. setoid_rewrite elem_of_cons. naive_solver.
Qed.
End finovlp.

(** A resolver that was just made. *)
Record fresh_run (s : RunState) : Prop := {
  fr_conducted : conducted (log s) = false;
  fr_identified : MFC_identified (log s) = [];
  fr_refs : executed_refs s = []
}.

(** With either way of locating (any [MFCLocator]; FIC and FICBS are), the
    FINOVLP resolvers end on every list of test cases.  For each test case
    they find minimal faults of it that share no parameter with each other,
    and every fault of the test case shares a parameter with one of these. *)
Theorem finovlp_disjoint_faults n MFS safeValues (locate : Locator) `{!MFCLocator locate} fuel Tfail s :
  FaultModel n MFS safeValues -> n < fuel -> (forall t, t ∈ Tfail -> TestOf n t) ->
  fresh_run s ->
  exists Ls s', FINOVLP_conduct locate MFS (Some safeValues) fuel Tfail s = Ok (tt, s') /\
    Forall2 (finovlp_result MFS) Tfail Ls /\
    forall c, c ∈ MFC_identified (log s') <-> exists l, l ∈ Ls /\ c ∈ l.
Proof.
  intros FM Hf HT [Hcd Hid _]. unfold FINOVLP_conduct. mstep ltac:(done). rewrite Hcd.
  mstep ltac:(by apply on_log_ok).
  destruct (FINOVLP_with_safevalues_ok n MFS safeValues FM locate fuel Tfail
    (MkRun (set_conducted (log s)) (mutables s) (executed_refs s)) Hf HT)
    as (Ls & s' & -> & _ & Hfa & _ & _ & _ & Hel).
  exists Ls, s'. split_and!; [done|done|]. intros c. rewrite Hel. simpl. rewrite Hid.
  pose proof (not_elem_of_nil c). tauto.
Qed.

Lemma result_minimal MFS t l :
  (forall c c', minimal_fault MFS t c -> minimal_fault MFS t c' -> c = c' \/ params c ## params c') ->
  finovlp_result MFS t l -> forall c, minimal_fault MFS t c -> params c <> ∅ -> c ∈ l.
Proof.
  intros Hno [[Hmin _] Hcov] c Hc Hne. destruct (Hcov c) as (d & Hd & Hov); [apply Hc|].
  destruct (Hno c d Hc (Hmin d Hd)) as [->|Hdis]; done.
Qed.

(** C13. When no test case has two minimal faults that overlap, the FINOVLP
    resolvers report exactly the minimal faults of the failing tests. *)
Theorem finovlp_identifies_minimal_faults n MFS safeValues (locate : Locator) `{!MFCLocator locate}
    fuel Tfail s :
  FaultModel n MFS safeValues -> n < fuel -> (forall t, t ∈ Tfail -> TestOf n t) ->
  (forall t c c', t ∈ Tfail -> minimal_fault MFS t c -> minimal_fault MFS t c' ->
     c = c' \/ params c ## params c') ->
  fresh_run s ->
  exists s', FINOVLP_conduct locate MFS (Some safeValues) fuel Tfail s = Ok (tt, s') /\
    forall c, c ∈ MFC_identified (log s') <-> exists t, t ∈ Tfail /\ minimal_fault MFS t c.
Proof.
  intros FM Hf HT Hno [Hcd Hid Hrf]. unfold FINOVLP_conduct. mstep ltac:(done). rewrite Hcd.
  mstep ltac:(by apply on_log_ok).
  destruct (FINOVLP_with_safevalues_ok n MFS safeValues FM locate fuel Tfail
    (MkRun (set_conducted (log s)) (mutables s) (executed_refs s)) Hf HT)
    as (Ls & s' & -> & _ & Hfa & _ & _ & _ & Hel).
  exists s'. split; [done|]. intros c. rewrite Hel. simpl. rewrite Hid.
  rewrite Forall2_lookup in Hfa. split.
  - intros [Hn|(l & Hl & Hc)]; [by apply not_elem_of_nil in Hn|].
    apply list_elem_of_lookup in Hl as [k Hk]. specialize (Hfa k). rewrite Hk in Hfa.
    inversion Hfa as [t ? [[Hmin _] _] Ht|]; subst. exists t. split; [by eapply list_elem_of_lookup_2|auto].
  - intros (t & Ht & Hc). right. apply list_elem_of_lookup in Ht as [k Hk].
    specialize (Hfa k). rewrite Hk in Hfa. inversion Hfa as [? l Hres Hl Hl'|]; subst.
    symmetry in Hl'. exists l. split; [by eapply list_elem_of_lookup_2|].
    apply (result_minimal MFS t l); [|done|done|].
    + intros. apply (Hno t); [by eapply list_elem_of_lookup_2|done..].
    + apply (params_nonempty n MFS safeValues FM t). apply Hc.
Qed.

(** C40. FINOVLP hands its own test case to the checker, changes it afterwards,
    and the checker keeps the object.  For every test case it is given the checker
    has an entry with the hash code of that test case, so it was executed; but what
    [getExecutedTestcase] shows for the entry is another test case as soon as the
    one executed failed: every entry that FINOVLP leaves shows a test case that
    passes. *)
Theorem finovlp_executed_pass n MFS safeValues (locate : Locator) `{!MFCLocator locate} fuel Tfail s :
  FaultModel n MFS safeValues -> n < fuel -> (forall t, t ∈ Tfail -> TestOf n t) ->
  fresh_run s ->
  exists s' shown, FINOVLP_conduct locate MFS (Some safeValues) fuel Tfail s = Ok (tt, s') /\
    getExecutedTestcase s' = executedTestcase (log s') ++ shown /\
    (forall c, c ∈ shown -> passes MFS c) /\
    (forall h o, (h, o) ∈ executed_refs s' -> exists c, mutables s' !! o = Some c /\ c ∈ shown) /\
    forall t, t ∈ Tfail -> exists o c, (hashCode t, o) ∈ executed_refs s' /\
      mutables s' !! o = Some c /\ ((exists m, fault_in MFS t m) -> c <> t /\ t ∉ shown).
Proof.
  intros FM Hf HT [Hcd Hid Hrf]. unfold FINOVLP_conduct. mstep ltac:(done). rewrite Hcd.
  mstep ltac:(by apply on_log_ok).
  destruct (FINOVLP_with_safevalues_ok n MFS safeValues FM locate fuel Tfail
    (MkRun (set_conducted (log s)) (mutables s) (executed_refs s)) Hf HT)
    as (Ls & s' & -> & _ & _ & [_ Hrefs] & _ & Hrec & _).
  assert (Hent : forall e, e ∈ executed_refs s' -> exists c, mutables s' !! e.2 = Some c /\ passes MFS c).
  { intros e [Hold|Hc]%Hrefs; [|done]. simpl in Hold. rewrite Hrf in Hold. by apply not_elem_of_nil in Hold. }
  assert (Hpass : forall c, c ∈ omap (fun e => mutables s' !! e.2) (executed_refs s') -> passes MFS c).
  { intros c (e & He & Hec)%list_elem_of_omap. destruct (Hent e He) as (c' & Hc' & Hp). by simplify_eq. }
  assert (Hfail : forall t c, passes MFS c -> (exists m, fault_in MFS t m) -> c <> t).
  { intros t c Hp (m & Hm & Ht) ->. specialize (Hp m Hm). congruence. }
  eexists s', _. split_and!; [done|done|done| |].
  - intros h o He. destruct (Hent _ He) as (c & Hc & _). exists c. split; [done|].
    apply list_elem_of_omap. by exists (h, o).
  - intros t Ht. destruct (Hrec t Ht) as [o Ho]. destruct (Hent _ Ho) as (c & Hc & Hp).
    exists o, c. split_and!; [done|done|]. intros Hm. split; [by apply (Hfail t c)|].
    intros Hs. by apply (Hfail t t (Hpass t Hs) Hm).
Qed.

(** C38. On a test case that fails, both ways of locating return a minimal
    fault of it; FIC performs at most one check for each parameter, FICBS, for
    a fault of [k] parameters, at most [k + 1] times [1 + log2 n]. *)
Theorem locators_minimal_fault n MFS safeValues t st :
  FaultModel n MFS safeValues -> TestOf n t -> (exists m, fault_in MFS t m) ->
  (exists c st', FIC_locateOneMFC MFS safeValues t (Schema_new n) st = Ok (c, st') /\
     minimal_fault MFS t c /\ checks st' <= checks st + n) /\
  (exists c st', FICBS_locateOneMFC MFS safeValues t (Schema_new n) st = Ok (c, st') /\
     minimal_fault MFS t c /\
     checks st' <= checks st + S (size (params c)) * S (Nat.log2 n)).
Proof.
  intros FM HT [m0 Hm0].
  set (O := checker_oracle n MFS safeValues t FM HT).
  assert (Hw : wfS n (Schema_new n)) by (split; [done|]; set_solver).
  assert (Hirr : forall X, faulty X -> faulty (X ∖ bitset (Schema_new n))).
  { intros X. simpl. by rewrite difference_empty_L. }
  assert (Hfull : faulty (set_seq 0 n)).
  { exists m0. split; [done|]. intros i Hi. apply elem_of_set_seq.
    pose proof (fault_bound n MFS safeValues FM t m0 i Hm0 Hi). lia. }
  assert (Hfin : forall x c, wfS n x -> getComb x t = Ok c -> minimal_faulty faulty (bitset x) ->
    minimal_fault MFS t c /\ bitset x = params c).
  { intros x c Hx Hg Hmin.
    apply (minimal_faulty_iff n MFS safeValues FM t HT) in Hmin as (c0 & Hc0 & Hxc).
    destruct (Hc0) as [Hf0 _].
    assert (x = Schema_ofComb c0) as ->.
    { apply (Schema_eq n); [done| |done]. apply Schema_ofComb_wf, (fm_length _ _ _ FM), Hf0. }
    by rewrite (fault_getComb n MFS safeValues FM t c0 c HT Hf0 Hg). }
  split.
  - destruct (FIC_locateOneMFC_ok n MFS safeValues t HT (Schema_new n) Hw Hirr Hfull st)
      as (c & x & st' & -> & _ & Hn & Hx & Hg & _ & Hmin).
    destruct (Hfin x c Hx Hg Hmin) as [Hc _]. by exists c, st'.
  - destruct (FICBS_locateOneMFC_ok n MFS safeValues t HT (Schema_new n) Hw Hirr Hfull st)
      as (c & x & st' & -> & _ & Hn & Hx & Hg & _ & Hmin).
    destruct (Hfin x c Hx Hg Hmin) as [Hc Hxc]. rewrite Hxc in Hn. by exists c, st'.
Qed.

(** ** SOFOT *)

(** Below every fault there is a minimal one. *)
Lemma minimal_below n MFS safeValues (FM : FaultModel n MFS safeValues) t m :
  TestOf n t -> fault_in MFS t m -> exists c, minimal_fault MFS t c /\ params c ⊆ params m.
Proof.
  intros HT. remember (size (params m)) as k eqn:Ek. revert m Ek.
  induction (lt_wf k) as [k _ IH]. intros m -> Hm.
  destruct (decide (Exists (fun m' => contains_loop t m' = true /\ params m' ⊂ params m) MFS)) as [He|Hn].
  - apply Exists_exists in He as (m' & Hin & Hc & Hs).
    destruct (IH (size (params m')) (subset_size _ _ Hs) m' eq_refl) as (c & Hmin & Hsub); [done|].
    exists c. split; [done|]. set_solver.
  - exists m. split; [|done]. split; [done|]. intros m' Hm' Hsub.
    apply (fault_inj n MFS safeValues FM t); [done..|]. apply set_eq. intros i.
    split; [by apply Hsub|]. intros Hi. destruct (decide (i ∈ params m')) as [|Ho]; [done|]. exfalso.
    apply Hn, Exists_exists. exists m'. destruct Hm'. split_and!; [done|done|]. set_solver.
Qed.

Lemma common_single n MFS safeValues (FM : FaultModel n MFS safeValues) t x c :
  TestOf n t -> (forall c', minimal_fault MFS t c' <-> c' = c) -> common_params n MFS t x ->
  x = Schema_ofComb c.
Proof.
  intros HT Hone [Hw Hx]. assert (Hc : minimal_fault MFS t c) by by apply Hone.
  destruct (Hc) as [Hcf _].
  apply (Schema_eq n); [done|apply Schema_ofComb_wf, (fm_length _ _ _ FM), Hcf|].
  apply set_eq. intros i. rewrite Hx. split; [intros [_ Hall]; by apply Hall|].
  intros Hi. split; [by apply (fault_bound n MFS safeValues FM t c)|]. intros m Hm.
  destruct (minimal_below n MFS safeValues FM t m HT Hm) as (c' & Hc' & Hsub).
  apply Hone in Hc' as ->. by apply Hsub.
Qed.

(** C39. With safe values SOFOT performs one check for each parameter of each
    test case, and when each test case has one minimal fault, it reports
    exactly these faults. *)
Theorem sofot_identifies_single_faults n MFS safeValues Tfail s :
  FaultModel n MFS safeValues ->
  (forall t, t ∈ Tfail -> TestOf n t /\ exists c, forall c', minimal_fault MFS t c' <-> c' = c) ->
  fresh_run s ->
  exists s', SOFOT_conduct MFS (Some safeValues) Tfail s = Ok (tt, s') /\
    checks (log s') = checks (log s) + n * length Tfail /\
    forall c, c ∈ MFC_identified (log s') <-> exists t, t ∈ Tfail /\ minimal_fault MFS t c.
Proof.
  intros FM HT [Hcd Hid Hrf]. unfold SOFOT_conduct. mstep ltac:(done). rewrite Hcd.
  mstep ltac:(by apply on_log_ok).
  destruct (sofot_with_safevalues_ok n MFS safeValues FM Tfail (set_conducted (log s)))
    as (st & E & Hc & Hn & Hel); [intros t Ht; by apply HT|].
  eexists. split_and!; [by apply on_log_ok|done|]. intros c. simpl. rewrite Hel. simpl. rewrite Hid.
  split.
  - intros [Hx|(t & x & Ht & Hx & _ & Hg)]; [by apply not_elem_of_nil in Hx|].
    destruct (HT t Ht) as [HTt (c0 & Hone)].
    rewrite (common_single n MFS safeValues FM t x c0) in Hg by done.
    assert (Hc0 : minimal_fault MFS t c0) by by apply Hone.
    rewrite (fault_getComb n MFS safeValues FM t c0 c) by (done || apply Hc0).
    by exists t.
  - intros (t & Ht & Hc'). right. destruct (HT t Ht) as [HTt (c0 & Hone)].
    apply Hone in Hc' as ->. assert (Hc0 : minimal_fault MFS t c0) by by apply Hone.
    destruct (Hc0) as [Hf0 _].
    assert (Hw : wfS n (Schema_ofComb c0)) by (apply Schema_ofComb_wf, (fm_length _ _ _ FM), Hf0).
    destruct (getComb_ok n _ t Hw (to_length _ _ HTt)) as (c & Hg & _).
    exists t, (Schema_ofComb c0). split_and!; [done| | |].
    + split; [done|]. intros i. split.
      * intros Hi. split; [by apply Hw|]. intros m Hm.
        destruct (minimal_below n MFS safeValues FM t m HTt Hm) as (c' & Hm' & Hsub).
        apply Hone in Hm' as ->. by apply Hsub.
      * intros [_ Hall]. by apply Hall.
    + by apply (params_nonempty n MFS safeValues FM t).
    + rewrite Hg. f_equal. by apply (fault_getComb n MFS safeValues FM t c0 c).
Qed.

(** What it reports in general: the parameters common to all faults. *)
Theorem sofot_common_faults n MFS safeValues Tfail s :
  FaultModel n MFS safeValues -> (forall t, t ∈ Tfail -> TestOf n t) -> fresh_run s ->
  exists s', SOFOT_conduct MFS (Some safeValues) Tfail s = Ok (tt, s') /\
    forall c, c ∈ MFC_identified (log s') <-> exists t x, t ∈ Tfail /\ common_params n MFS t x /\
      bitset x <> ∅ /\ getComb x t = Ok c.
Proof.
  intros FM HT [Hcd Hid Hrf]. unfold SOFOT_conduct. mstep ltac:(done). rewrite Hcd.
  mstep ltac:(by apply on_log_ok).
  destruct (sofot_with_safevalues_ok n MFS safeValues FM Tfail (set_conducted (log s)) HT)
    as (st & E & _ & _ & Hel).
  eexists. split; [by apply on_log_ok|]. intros c. simpl. rewrite Hel. simpl. rewrite Hid.
  pose proof (not_elem_of_nil c). tauto.
Qed.

(** Without safe values SOFOT reports, for each test case, the parameters
    whose flip alone makes it pass, if there are any; and since it flips them
    back, [getExecutedTestcase] shows only the given test cases in place of
    the flipped ones that were executed. *)
Theorem sofot_flip_faults n MFS Tfail s :
  (forall m, m ∈ MFS -> length m = n) -> (forall t, t ∈ Tfail -> TestOf n t) -> fresh_run s ->
  exists s', SOFOT_conduct MFS None Tfail s = Ok (tt, s') /\
    (forall c, c ∈ MFC_identified (log s') <-> exists t x, t ∈ Tfail /\ flip_params n MFS t x /\
      bitset x <> ∅ /\ getComb x t = Ok c) /\
    forall c, c ∈ getExecutedTestcase s' -> c ∈ executedTestcase (log s') \/ c ∈ Tfail.
Proof.
  intros Hlen HT [Hcd Hid Hrf]. unfold SOFOT_conduct. mstep ltac:(done). rewrite Hcd.
  mstep ltac:(by apply on_log_ok).
  destruct (sofot_without_safevalues_ok n MFS Hlen Tfail
    (MkRun (set_conducted (log s)) (mutables s) (executed_refs s)) HT)
    as (s' & -> & _ & [_ Hrefs] & Hel).
  exists s'. split_and!; [done| |].
  - intros c. rewrite Hel. simpl. rewrite Hid. pose proof (not_elem_of_nil c). tauto.
  - intros c. unfold getExecutedTestcase. rewrite elem_of_app.
    intros [Hc|Hc]; [by left|right]. apply list_elem_of_omap in Hc as (e & He & Hec).
    destruct (Hrefs e He) as [Hold|(c' & Hc' & Hp)].
    + simpl in Hold. rewrite Hrf in Hold. by apply not_elem_of_nil in Hold.
    + by simplify_eq.
Qed.

(** ** Examples: four parameters, two faults; the second test case contains
    both, the third one passes *)
Definition ov_MFS : list Comb := [[1; UNKNOWN; 0; UNKNOWN]; [UNKNOWN; 1; UNKNOWN; UNKNOWN]]%Z.
Definition ov_safe : Comb := [0; 0; 1; UNKNOWN]%Z.
Definition ov_tests : list Comb := [[1; 0; 0; 1]; [1; 1; 0; 0]; [0; 0; 1; 1]]%Z.
Definition ov_start : RunState := MkRun initial_state [] [].

Lemma ov_FaultModel : FaultModel 4 ov_MFS ov_safe.
Proof.
  split.
  - intros m Hm. unfold ov_MFS in Hm. list_cases Hm; done.
  - intros m Hm. unfold ov_MFS in Hm. list_cases Hm; by vm_compute.
  - done.
  - intros v Hv. unfold ov_safe in Hv. list_cases Hv; tauto.
  - intros m i v s Hm Hv Hne Hs. unfold ov_MFS in Hm. unfold ov_safe in Hs.
    list_cases Hm; destruct i as [|[|[|[|i]]]]; simpl in *; simplify_eq; done.
Qed.

Lemma ov_tests_ok t : t ∈ ov_tests -> TestOf 4 t.
Proof.
  intros Ht. unfold ov_tests in Ht.
  list_cases Ht; (split; [done|]; intros v Hv; list_cases Hv; tauto).
Qed.

Lemma ov_start_fresh : fresh_run ov_start.
Proof. done. Qed.

Lemma ov_faults t c : fault_in ov_MFS t c -> c = [1; UNKNOWN; 0; UNKNOWN]%Z \/ c = [UNKNOWN; 1; UNKNOWN; UNKNOWN]%Z.
Proof. intros [Hc _]. unfold ov_MFS in Hc. list_cases Hc; tauto. Qed.

Lemma ov_disjoint t c c' :
  t ∈ ov_tests -> minimal_fault ov_MFS t c -> minimal_fault ov_MFS t c' -> c = c' \/ params c ## params c'.
Proof.
  intros _ [[-> | ->]%ov_faults _] [[-> | ->]%ov_faults _]; [by left|right|right|by left].
  all: apply (bool_decide_unpack _); vm_compute; exact I.
Qed.

Lemma finovlp_disjoint_faults_witness :
  exists s', FIC_conduct ex_MFS (Some ex_safe) 4 ex_tests ov_start = Ok (tt, s') /\
    MFC_identified (log s') = [[UNKNOWN; 1; 0]]%Z.
Proof.
  destruct (finovlp_disjoint_faults 3 ex_MFS ex_safe FIC_locateOneMFC 4 ex_tests ov_start)
    as (Ls & s' & He & _ & _).
  - exact ex_FaultModel.
  - lia.
  - intros t Ht. by apply ex_tests_ok.
  - exact ov_start_fresh.
  - exists s'. split; [exact He|]. vm_compute in He. injection He as <-. reflexivity.
Defined.

Lemma finovlp_identifies_minimal_faults_witness :
  exists s', FICBS_conduct ov_MFS (Some ov_safe) 5 ov_tests ov_start = Ok (tt, s') /\
    MFC_identified (log s') = ov_MFS.
Proof.
  destruct (finovlp_identifies_minimal_faults 4 ov_MFS ov_safe FICBS_locateOneMFC 5 ov_tests ov_start)
    as (s' & He & _).
  - exact ov_FaultModel.
  - lia.
  - exact ov_tests_ok.
  - exact ov_disjoint.
  - exact ov_start_fresh.
  - exists s'. split; [exact He|]. vm_compute in He. injection He as <-. reflexivity.
Defined.

(** The second test case was executed, failed, and is listed three times as
    the one that passes. *)
Lemma finovlp_executed_pass_witness :
  exists s', FIC_conduct ov_MFS (Some ov_safe) 5 [[1; 1; 0; 0]]%Z ov_start = Ok (tt, s') /\
    (exists o, (hashCode [1; 1; 0; 0]%Z, o) ∈ executed_refs s') /\
    omap (fun e => mutables s' !! e.2) (executed_refs s') = replicate 3 [0; 0; 1; 0]%Z /\
    [1; 1; 0; 0]%Z ∉ getExecutedTestcase s'.
Proof.
  destruct (finovlp_executed_pass 4 ov_MFS ov_safe FIC_locateOneMFC 5 [[1; 1; 0; 0]]%Z ov_start)
    as (s' & shown & He & _ & _ & _ & Hrec).
  - exact ov_FaultModel.
  - lia.
  - intros t Ht. apply ov_tests_ok. set_solver.
  - exact ov_start_fresh.
  - destruct (Hrec [1; 1; 0; 0]%Z) as (o & c & Ho & _); [left|].
    exists s'. split; [exact He|]. split; [exists o; exact Ho|].
    vm_compute in He. injection He as <-.
    split; [reflexivity|]. apply (bool_decide_unpack _). vm_compute. exact I.
Defined.

Lemma locators_minimal_fault_witness :
  exists c st', FICBS_locateOneMFC ex_MFS ex_safe [1; 1; 0]%Z (Schema_new 3) initial_state = Ok (c, st') /\
    c = [UNKNOWN; 1; 0]%Z /\ checks st' <= 6.
Proof.
  destruct (locators_minimal_fault 3 ex_MFS ex_safe [1; 1; 0]%Z initial_state)
    as [_ (c & st' & He & _ & Hn)].
  - exact ex_FaultModel.
  - apply ex_tests_ok. left.
  - apply (ex_tests_ok [1; 1; 0]%Z). left.
  - exists c, st'. split; [exact He|]. vm_compute in He. injection He as <- <-.
    split; [reflexivity|]. vm_compute. lia.
Defined.

Definition single_tests : list Comb := [[1; 0; 0; 1]; [0; 1; 1; 0]]%Z.

Lemma single_tests_ok t :
  t ∈ single_tests -> TestOf 4 t /\ exists c, forall c', minimal_fault ov_MFS t c' <-> c' = c.
Proof.
  intros Ht. unfold single_tests in Ht. list_cases Ht.
  all: split; [split; [done|]; intros v Hv; list_cases Hv; tauto|].
  - exists [1; UNKNOWN; 0; UNKNOWN]%Z. intros c'. split.
    + intros [Hf _]. by destruct (Hf) as [_ Hc]; apply ov_faults in Hf as [-> | ->].
    + intros ->. split; [by split; [left|]|]. intros m Hm _. by destruct (Hm) as [_ Hc]; apply ov_faults in Hm as [-> | ->].
  - exists [UNKNOWN; 1; UNKNOWN; UNKNOWN]%Z. intros c'. split.
    + intros [Hf _]. by destruct (Hf) as [_ Hc]; apply ov_faults in Hf as [-> | ->].
    + intros ->. split; [by split; [right; left|]|]. intros m Hm _. by destruct (Hm) as [_ Hc]; apply ov_faults in Hm as [-> | ->].
Qed.

Lemma sofot_identifies_single_faults_witness :
  exists s', SOFOT_conduct ov_MFS (Some ov_safe) single_tests ov_start = Ok (tt, s') /\
    MFC_identified (log s') = ov_MFS /\ checks (log s') = 8.
Proof.
  destruct (sofot_identifies_single_faults 4 ov_MFS ov_safe single_tests ov_start)
    as (s' & He & Hn & _).
  - exact ov_FaultModel.
  - exact single_tests_ok.
  - exact ov_start_fresh.
  - exists s'. split; [exact He|]. split; [|exact Hn]. vm_compute in He. injection He as <-. reflexivity.
Defined.

Lemma sofot_flip_faults_witness :
  exists s', SOFOT_conduct ov_MFS None single_tests ov_start = Ok (tt, s') /\
    MFC_identified (log s') = ov_MFS /\
    getExecutedTestcase s' = replicate 4 [1; 0; 0; 1]%Z ++ replicate 4 [0; 1; 1; 0]%Z.
Proof.
  destruct (sofot_flip_faults 4 ov_MFS single_tests ov_start) as (s' & He & _ & _).
  - intros m Hm. unfold ov_MFS in Hm. list_cases Hm; done.
  - intros t Ht. by apply single_tests_ok.
  - exact ov_start_fresh.
  - exists s'. split; [exact He|]. vm_compute in He. injection He as <-. split; reflexivity.
Defined.
