(* ===== verification/Trt.v ===== *)
(** * The TRT resolver

    Models [FaultResolver/NoPend/TRT.java], three bit sets with a bit for each
    schema (healthy, faulty, and visited in the current search), and
    [TRTFaultResolver.java].  A [BitSet] is the set of the numbers of its bits
    ([gset Z]); for the flags, the number of bits it has space for matters
    ([BitSet_size]), since two of the searches use it.  The recursive methods take fuel; one more than
    the number of parameters is enough. *)
From S2P Require Import Prelude Schema NoPend.

(** [BitSet.set(0, toIndex, false)] *)
Definition clear_to (toIndex : Z) (b : gset Z) : gset Z :=
  filter (fun i => ~ (0 <= i < toIndex)%Z) b.

Definition Integer_bitCount (z : Z) : nat :=
  length (filter (fun i => Z.testbit z (Z.of_nat i) = true) (seq 0 32)).

Record TRT := MkTRT {
  num_parameter : nat;
  trt_size : Z;
  trt_healthy : gset Z;
  trt_faulty : gset Z;
  trt_flag : gset Z
}.

Definition TRT_new (n : nat) : res jexn TRT :=
  let trtSize := (2 ^ Z.of_nat n)%Z in
  if (2 ^ 31 - 1 <? trtSize)%Z then Err UnsupportedOperation
  else
    let size := jint trtSize in
    if (size <=? 0)%Z || negb (Nat.eqb (Integer_bitCount size) 1) then Err IllegalArgument
    else Ok (MkTRT n size {[0%Z]} {[(size - 1)%Z]} ∅).

Definition schema2int (schema : Schema) : Z :=
  fold_left (fun r i => jint (r + if Schema_get schema i
                                  then jint (Z.shiftl 1 (Z.of_nat i mod 32)) else 0))%Z
    (seq 0 (logic_size schema)) 0%Z.

Definition is_healthy (t : TRT) (s : Schema) : bool := bool_decide (schema2int s ∈ trt_healthy t).
Definition is_faulty (t : TRT) (s : Schema) : bool := bool_decide (schema2int s ∈ trt_faulty t).
Definition is_flagged (t : TRT) (s : Schema) : bool := bool_decide (schema2int s ∈ trt_flag t).

Definition set_healthy_bit (s : Schema) (t : TRT) : TRT :=
  MkTRT (num_parameter t) (trt_size t) ({[schema2int s]} ∪ trt_healthy t) (trt_faulty t) (trt_flag t).
Definition set_faulty_bit (s : Schema) (t : TRT) : TRT :=
  MkTRT (num_parameter t) (trt_size t) (trt_healthy t) ({[schema2int s]} ∪ trt_faulty t) (trt_flag t).
Definition set_flag (s : Schema) (t : TRT) : TRT :=
  MkTRT (num_parameter t) (trt_size t) (trt_healthy t) (trt_faulty t) ({[schema2int s]} ∪ trt_flag t).
Definition clear_flags (toIndex : Z) (t : TRT) : TRT :=
  MkTRT (num_parameter t) (trt_size t) (trt_healthy t) (trt_faulty t) (clear_to toIndex (trt_flag t)).

(** The loop of each recursive method: change every bit that is [have], recurse,
    change it back. *)
Fixpoint for_bits {St} (rec : Schema -> St -> res jexn St) (have : bool)
    (ixs : list nat) (sub : Schema) (st : St) : res jexn St :=
  match ixs with
  | [] => Ok st
  | i :: ixs' =>
      if Bool.eqb (Schema_get sub i) have then
        let sub' := Schema_set sub i (negb have) in
        st' ← rec sub' st;
        for_bits rec have ixs' (Schema_set sub' i have) st'
      else for_bits rec have ixs' sub st
  end.

Fixpoint setHealthy (fuel : nat) (schema : Schema) (t : TRT) : res jexn TRT :=
  match fuel with
  | O => Timeout
  | S fuel' =>
      if negb (Nat.eqb (logic_size schema) (num_parameter t)) then Err IllegalArgument
      else if is_healthy t schema then Ok t
      else for_bits (setHealthy fuel') true (seq 0 (logic_size schema)) (Schema_copy schema)
             (set_healthy_bit schema t)
  end.

Fixpoint setFaulty (fuel : nat) (schema : Schema) (t : TRT) : res jexn TRT :=
  match fuel with
  | O => Timeout
  | S fuel' =>
      if negb (Nat.eqb (logic_size schema) (num_parameter t)) then Err IllegalArgument
      else if is_faulty t schema then Ok t
      else for_bits (setFaulty fuel') false (seq 0 (logic_size schema)) (Schema_copy schema)
             (set_faulty_bit schema t)
  end.

Fixpoint getTopSchemasRecursively (fuel : nat) (schema : Schema)
    (st : TRT * MonotoneSchemaSet) : res jexn (TRT * MonotoneSchemaSet) :=
  match fuel with
  | O => Timeout
  | S fuel' =>
      if is_flagged st.1 schema then Ok st
      else
        let t := set_flag schema st.1 in
        if is_healthy t schema then Ok (t, st.2)
        else if negb (is_faulty t schema) then
          topSchemas ← MSS_add_ st.2 (Schema_copy schema); Ok (t, topSchemas)
        else for_bits (getTopSchemasRecursively fuel') true (seq 0 (logic_size schema))
               (Schema_copy schema) (t, st.2)
  end.

Definition getTopSchemas (t : TRT) : res jexn (TRT * MonotoneSchemaSet) :=
  let t' := clear_flags (BitSet_size (trt_size t)) t in
  getTopSchemasRecursively (S (num_parameter t)) (Schema_flag (num_parameter t) true)
    (t', MSS_new false).

Fixpoint getBottomSchemasRecursively (fuel : nat) (schema : Schema)
    (st : TRT * MonotoneSchemaSet) : res jexn (TRT * MonotoneSchemaSet) :=
  match fuel with
  | O => Timeout
  | S fuel' =>
      if is_flagged st.1 schema then Ok st
      else
        let t := set_flag schema st.1 in
        if is_faulty t schema then Ok (t, st.2)
        else if negb (is_healthy t schema) then
          bottomSchemas ← MSS_add_ st.2 (Schema_copy schema); Ok (t, bottomSchemas)
        else for_bits (getBottomSchemasRecursively fuel') false (seq 0 (logic_size schema))
               (Schema_copy schema) (t, st.2)
  end.

Definition getBottomSchemas (t : TRT) : res jexn (TRT * MonotoneSchemaSet) :=
  let t' := clear_flags (BitSet_size (trt_size t) - 1) t in
  getBottomSchemasRecursively (S (num_parameter t)) (Schema_flag (num_parameter t) false)
    (t', MSS_new true).

Fixpoint getMFSRecursively (fuel : nat) (schema : Schema)
    (st : TRT * MonotoneSchemaSet) : res jexn (TRT * MonotoneSchemaSet) :=
  match fuel with
  | O => Timeout
  | S fuel' =>
      if is_flagged st.1 schema then Ok st
      else
        let t := set_flag schema st.1 in
        if is_faulty t schema then
          MFS ← MSS_add_ st.2 (Schema_copy schema); Ok (t, MFS)
        else for_bits (getMFSRecursively fuel') false (seq 0 (logic_size schema))
               (Schema_copy schema) (t, st.2)
  end.

Definition getMFS (t : TRT) : res jexn (TRT * MonotoneSchemaSet) :=
  let t' := clear_flags (BitSet_size (trt_size t) - 1) t in
  getMFSRecursively (S (num_parameter t)) (Schema_flag (num_parameter t) false)
    (t', MSS_new true).

(** ** TRTFaultResolver *)
Definition TRTFaultResolver_new (Tfail : list Comb) : res jexn ResolverState :=
  match Tfail with
  | [] => Err IllegalArgument
  | t :: _ =>
      if (2 ^ 31 - 1 <? 2 ^ Z.of_nat (length t))%Z then Err UnsupportedOperation
      else Ok initial_state
  end.

Section resolver.
Variable MFS : list Comb.
Variable safeValues : Comb.

(** As in [NoPendFaultResolver], but the bits are added in ascending order. *)
Definition TRT_chain_of (max min : Schema) : list Schema :=
  min :: build_chain max min (seq 0 (logic_size max)) (Schema_copy min).

Definition TRT_binarySearch (max min : Schema) (tfail : Comb) :
    M ResolverState jexn (option Schema) :=
  binarySearch_on MFS safeValues TRT_chain_of max min tfail.

Fixpoint TRT_loop (fuel : nat) (trt : TRT) (tfail : Comb) : M ResolverState jexn TRT :=
  match fuel with
  | O => fun _ => Timeout
  | S fuel' =>
      r ← lift (getTopSchemas trt);
      let topSchemas := r.2 in
      if MSS_isEmpty topSchemas then mret r.1
      else
        r' ← lift (getBottomSchemas r.1);
        let bottomSchemas := r'.2 in
        if MSS_isEmpty bottomSchemas then throw RuntimeExc
        else
          longestChain ← lift (getLongestChain topSchemas bottomSchemas);
          match longestChain with
          | None => throw RuntimeExc
          | Some (max, min) =>
              minfault ← TRT_binarySearch max min tfail;
              trt' ← lift (match minfault with
                           | None => setHealthy (S (num_parameter trt)) max r'.1
                           | Some s => setFaulty (S (num_parameter trt)) s r'.1
                           end);
              TRT_loop fuel' trt' tfail
          end
  end.

Definition TRT_conduct_one (fuel : nat) (tfail : Comb) : M ResolverState jexn unit :=
  trt ← lift (TRT_new (length tfail));
  trt' ← TRT_loop fuel trt tfail;
  r ← lift (getMFS trt');
  record_MFS tfail (schemas r.2).

Fixpoint TRT_with_safevalues (fuel : nat) (Tfail : list Comb) : M ResolverState jexn unit :=
  match Tfail with
  | [] => mret tt
  | tfail :: Tfail' => TRT_conduct_one fuel tfail ;; TRT_with_safevalues fuel Tfail'
  end.
End resolver.

Definition TRT_conduct (MFS : list Comb) (safeValues : option Comb) (fuel : nat)
    (Tfail : list Comb) : M ResolverState jexn unit :=
  s ← getS;
  if conducted s then mret tt
  else
    modS set_conducted ;;
    match safeValues with
    | None => throw RuntimeExc
    | Some sv => TRT_with_safevalues MFS sv fuel Tfail
    end.

(** Rounds that are enough for [n] parameters. *)
Definition TRT_fuel (n : nat) : nat := S (2 ^ n).
