(* ===== verification/TrtProofs.v ===== *)
(** * Searches in the lattice of schemas

    A recursive method of [TRT] is a depth-first search, downwards (it clears
    bits) or upwards (it sets them), that stops at schemas it has seen.  What
    it sees is what is reachable through the schemas it expands; the proof
    keeps what has been seen closed below the schema that is searched. *)
From S2P Require Import Prelude Schema NoPend Trt.

(** ** The number of a schema *)
Definition ix (n : nat) (X : gset nat) : Z := schema2int (MkSchema X n).

Section index.
Local Open Scope Z_scope.

Definition ix_step (X : gset nat) (r : Z) (i : nat) : Z :=
  jint (r + if Schema_get (MkSchema X 0) i then jint (Z.shiftl 1 (Z.of_nat i mod 32)) else 0).

Lemma ix_fold n X : ix n X = fold_left (ix_step X) (seq 0 n) 0.
Proof. done. Qed.

Lemma jint_small z : 0 <= z < 2 ^ 31 -> jint z = z.
Proof. intros Hz. unfold jint. rewrite Z.mod_small by lia. lia. Qed.

Lemma ix_step_ok X r k :
  (k < 30)%nat -> 0 <= r < 2 ^ Z.of_nat k ->
  ix_step X r k = r + (if bool_decide (k ∈ X) then 2 ^ Z.of_nat k else 0) /\
  0 <= ix_step X r k < 2 ^ Z.of_nat (S k).
Proof.
  intros Hk Hr. unfold ix_step, Schema_get. simpl bitset.
  assert (Hp : 2 ^ Z.of_nat (S k) = 2 * 2 ^ Z.of_nat k) by (rewrite Nat2Z.inj_succ, Z.pow_succ_r; lia).
  assert (Hb : 2 ^ Z.of_nat (S k) <= 2 ^ 30) by (apply Z.pow_le_mono_r; lia).
  rewrite Z.mod_small, Z.shiftl_1_l by lia. change (2 ^ 30) with 1073741824 in Hb.
  case_bool_decide; rewrite ?(jint_small (2 ^ Z.of_nat k)) by lia; rewrite jint_small by lia; lia.
Qed.

Lemma fold_range n X :
  (n <= 30)%nat -> 0 <= fold_left (ix_step X) (seq 0 n) 0 < 2 ^ Z.of_nat n.
Proof.
  induction n as [|n IH]; intros Hn; [simpl; lia|].
  rewrite seq_S, fold_left_app. cbn [fold_left Nat.add]. apply ix_step_ok; [lia|]. apply IH. lia.
Qed.

Lemma fold_inj n X Y :
  (n <= 30)%nat -> fold_left (ix_step X) (seq 0 n) 0 = fold_left (ix_step Y) (seq 0 n) 0 ->
  forall i, (i < n)%nat -> i ∈ X <-> i ∈ Y.
Proof.
  induction n as [|n IH]; intros Hn He i Hi; [lia|].
  rewrite seq_S, !fold_left_app in He. cbn [fold_left Nat.add] in He.
  pose proof (fold_range n X ltac:(lia)) as HX. pose proof (fold_range n Y ltac:(lia)) as HY.
  destruct (ix_step_ok X _ n ltac:(lia) HX) as [EX _], (ix_step_ok Y _ n ltac:(lia) HY) as [EY _].
  rewrite EX, EY in He.
  destruct (decide (i = n)) as [->|].
  - do 2 case_bool_decide; [done|lia|lia|done].
  - apply IH; [lia| |lia]. do 2 case_bool_decide; lia.
Qed.

Lemma fold_full n : (n <= 30)%nat -> fold_left (ix_step (set_seq 0 n)) (seq 0 n) 0 = 2 ^ Z.of_nat n - 1.
Proof.
  intros Hn. assert (Hg : forall m, (m <= n)%nat ->
    fold_left (ix_step (set_seq 0 n)) (seq 0 m) 0 = 2 ^ Z.of_nat m - 1); [|by apply Hg].
  induction m as [|m IH]; intros Hm; [done|].
  rewrite seq_S, fold_left_app. cbn [fold_left Nat.add].
  destruct (ix_step_ok (set_seq 0 n) _ m ltac:(lia) (fold_range m (set_seq 0 n) ltac:(lia))) as [-> _].
  rewrite IH by lia. rewrite bool_decide_true by (apply elem_of_set_seq; lia).
  rewrite Nat2Z.inj_succ, Z.pow_succ_r by lia. lia.
Qed.
End index.

Definition full (n : nat) : gset nat := set_seq 0 n.

Lemma ix_range n X : n <= 30 -> (0 <= ix n X < 2 ^ Z.of_nat n)%Z.
Proof. apply fold_range. Qed.

Lemma subset_full n X : X ⊆ full n <-> forall i, i ∈ X -> i < n.
Proof.
  unfold full. split.
  - intros Hs i Hi%Hs%elem_of_set_seq. lia.
  - intros Hs i Hi%Hs. apply elem_of_set_seq. lia.
Qed.

Lemma ix_inj n X Y : n <= 30 -> X ⊆ full n -> Y ⊆ full n -> ix n X = ix n Y -> X = Y.
Proof.
  intros Hn HX HY He. rewrite !ix_fold in He. apply set_eq. intros i.
  rewrite subset_full in HX, HY. pose proof (fold_inj n X Y Hn He i). naive_solver.
Qed.

Lemma ix_full n : n <= 30 -> ix n (full n) = (2 ^ Z.of_nat n - 1)%Z.
Proof. apply fold_full. Qed.

Lemma ix_below_full n X : n <= 30 -> X ⊆ full n -> X <> full n -> (ix n X < 2 ^ Z.of_nat n - 1)%Z.
Proof.
  intros Hn HX Hne. pose proof (ix_range n X Hn).
  assert (ix n X <> (2 ^ Z.of_nat n - 1)%Z); [|lia].
  rewrite <- ix_full by done. intros He. by apply ix_inj in He.
Qed.

Lemma ix_empty n : n <= 30 -> ix n ∅ = 0%Z.
Proof.
  intros Hn. rewrite ix_fold.
  assert (Hg : forall m r, fold_left (ix_step ∅) (seq m r) 0%Z = 0%Z); [|apply Hg].
  intros m r. revert m. induction r as [|r IH]; intros m; [done|]. simpl.
  unfold ix_step at 2, Schema_get. simpl. rewrite bool_decide_false by set_solver. apply IH.
Qed.

Lemma schema2int_ix n s : wfS n s -> schema2int s = ix n (bitset s).
Proof. intros [Hs _]. destruct s. simpl in *. by subst. Qed.

(** ** Searches *)
Section search.
Context (n : nat) (have : bool).

(** [have] bits are changed: downwards when it is [true]. *)
Definition cone (X Y : gset nat) : Prop := if have then Y ⊆ X else X ⊆ Y.

Definition child (X : gset nat) (i : nat) : gset nat :=
  if have then X ∖ {[i]} else {[i]} ∪ X.

Definition can (X : gset nat) (i : nat) : Prop :=
  i < n /\ if have then i ∈ X else i ∉ X.

Definition depth (X : gset nat) : nat := if have then size X else n - size X.

Context (expand : gset nat -> Prop).

Inductive reach (X : gset nat) : gset nat -> Prop :=
| reach_refl : reach X X
| reach_child i Y : expand X -> can X i -> reach (child X i) Y -> reach X Y.

Lemma cone_child X i : can X i -> cone X (child X i).
Proof. unfold cone, child, can. destruct have; set_solver. Qed.

Lemma cone_refl X : cone X X.
Proof. unfold cone. by destruct have. Qed.

Lemma cone_trans X Y Z : cone X Y -> cone Y Z -> cone X Z.
Proof. unfold cone. destruct have; set_solver. Qed.

Lemma reach_cone X Y : reach X Y -> cone X Y.
Proof.
  induction 1 as [|X i Y He Hc Hr IH]; [apply cone_refl|].
  eapply cone_trans; [by apply cone_child|done].
Qed.

Lemma reach_trans X Y Z : reach X Y -> reach Y Z -> reach X Z.
Proof. induction 1 as [|X i Y He Hc Hr IH]; [done|]. intros. econstructor; eauto. Qed.

Lemma not_cone_child X i : can X i -> ~ cone (child X i) X.
Proof. unfold cone, child, can. destruct have; set_solver. Qed.

Lemma child_bound X i : can X i -> X ⊆ full n -> child X i ⊆ full n.
Proof.
  intros [Hi Hc] HX. apply subset_full. rewrite subset_full in HX. unfold child.
  destruct have; intros j; [set_solver|].
  rewrite elem_of_union, elem_of_singleton. naive_solver.
Qed.

Lemma reach_bound X Y : reach X Y -> X ⊆ full n -> Y ⊆ full n.
Proof. induction 1; [done|]. intros. by apply IHreach, child_bound. Qed.

Lemma size_le_full X : X ⊆ full n -> size X <= n.
Proof. intros Hs%subseteq_size. unfold full in Hs. by rewrite size_set_seq in Hs. Qed.

Lemma depth_child X i : can X i -> X ⊆ full n -> depth (child X i) < depth X.
Proof.
  intros Hc HX. pose proof (size_le_full _ (child_bound X i Hc HX)) as Hsz.
  assert (Hs : if have then child X i ⊂ X else X ⊂ child X i).
  { unfold child, can in *. destruct have; set_solver. }
  unfold depth. destruct have; apply subset_size in Hs; lia.
Qed.

(** A schema below that is not expanded is found, or one above it is. *)
Lemma reach_stop X T :
  (forall Y, Decision (expand Y)) -> X ⊆ full n -> T ⊆ full n -> cone X T -> ~ expand T ->
  exists Y, reach X Y /\ cone Y T /\ ~ expand Y.
Proof.
  intros Hdec. remember (depth X) as d eqn:Ed. revert X Ed.
  induction (lt_wf d) as [d _ IH]. intros X -> HX HT Hc Hn.
  destruct (decide (expand X)) as [He|He]; [|exists X; split_and!; [constructor|done|done]].
  assert (Hi : exists i, can X i /\ cone (child X i) T).
  { unfold cone, can, child in *. destruct have.
    - destruct (not_subseteq_witness X T) as (i & Hi & Hi'); [intros ?; apply Hn; by replace T with X by set_solver|].
      exists i. split; [split; [|done]|set_solver]. rewrite subset_full in HX. by apply HX.
    - destruct (not_subseteq_witness T X) as (i & Hi & Hi'); [intros ?; apply Hn; by replace T with X by set_solver|].
      exists i. split; [split; [|done]|set_solver]. rewrite subset_full in HT. by apply HT. }
  destruct Hi as (i & Hi & Hci).
  destruct (IH (depth (child X i)) (depth_child X i Hi HX) (child X i) eq_refl) as (Y & Hr & ? & ?);
    [by apply child_bound|done|done|done|].
  exists Y. split_and!; [|done|done]. by econstructor.
Qed.

(** ** The search visits what is reachable *)
Context {St : Type} (seen : gset nat -> St -> Prop) (ok : St -> Prop).

Definition closed (st : St) (X : gset nat) : Prop :=
  forall Y Z, seen Y st -> cone X Y -> reach Y Z -> seen Z st.

Definition grew (st st' : St) (P : gset nat -> Prop) : Prop :=
  forall Z, seen Z st' <-> seen Z st \/ P Z.

(** One call of a method [f] on a schema. *)
Definition visits (f : Schema -> St -> res jexn St) (s : Schema) : Prop :=
  forall st, ok st -> closed st (bitset s) ->
  exists st', f s st = Ok st' /\ ok st' /\ grew st st' (reach (bitset s)).

Lemma closed_grew st st' X Y : closed st Y -> grew st st' (reach X) -> closed st' Y.
Proof.
  intros Hc Hg A B HA HY HAB. apply Hg. apply Hg in HA as [HA|HA].
  - left. by eapply Hc.
  - right. by eapply reach_trans.
Qed.

Lemma for_bits_ok rec ixs s st :
  wfS n s -> (forall i, i ∈ ixs -> i < n) -> ok st ->
  (forall i, i ∈ ixs -> can (bitset s) i -> closed st (child (bitset s) i) /\
     visits rec (MkSchema (child (bitset s) i) n)) ->
  exists st', for_bits rec have ixs s st = Ok st' /\ ok st' /\
    grew st st' (fun Z => exists i, i ∈ ixs /\ can (bitset s) i /\ reach (child (bitset s) i) Z).
Proof.
  intros Hs Hixs. revert st. induction ixs as [|i ixs IH]; intros st Hok Hrec; simpl.
  { exists st. split_and!; [done|done|]. intros Z. set_solver. }
  assert (Hin : i < n) by (apply Hixs; left).
  assert (Hixs' : forall j, j ∈ ixs -> j < n) by (intros; apply Hixs; by right).
  destruct (Bool.eqb (Schema_get s i) have) eqn:Eb.
  - assert (Hcan : can (bitset s) i).
    { split; [done|]. apply Bool.eqb_prop in Eb. unfold Schema_get in Eb.
      destruct have; [by apply bool_decide_eq_true in Eb|by apply bool_decide_eq_false in Eb]. }
    assert (Es : Schema_set s i (negb have) = MkSchema (child (bitset s) i) n).
    { destruct Hs as [<- _]. unfold Schema_set, child. by destruct have. }
    assert (Eback : Schema_set (Schema_set s i (negb have)) i have = s).
    { destruct s as [bs sz]. unfold Schema_set. destruct Hcan as [_ Hcan]. simpl in *. f_equal.
      apply set_eq. intros j. destruct have; simpl; destruct (decide (j = i)); set_solver. }
    destruct (Hrec i) as [Hcl Hv]; [left|done|].
    destruct (Hv st Hok Hcl) as (st1 & E1 & Hok1 & Hg1). rewrite Es, E1. simpl.
    rewrite <- Es, Eback.
    destruct (IH Hixs' st1 Hok1) as (st' & -> & Hok' & Hg').
    { intros j Hj Hcj. destruct (Hrec j) as [Hclj Hvj]; [by right|done|]. split; [|done].
      by eapply closed_grew. }
    exists st'. split_and!; [done|done|]. intros Z. rewrite (Hg' Z), (Hg1 Z).
    setoid_rewrite elem_of_cons. simpl. split.
    + intros [[?|?]|(j & ? & ? & ?)]; [by left|right; by exists i; auto|right; by exists j; auto].
    + intros [?|(j & [-> |?] & ? & ?)]; [tauto|tauto|right; by exists j].
  - destruct (IH Hixs' st Hok) as (st' & -> & Hok' & Hg').
    { intros j Hj. apply Hrec. by right. }
    exists st'. split_and!; [done|done|]. intros Z. rewrite (Hg' Z).
    setoid_rewrite elem_of_cons. split.
    + intros [?|(j & ? & ? & ?)]; [by left|right; by exists j; auto].
    + intros [?|(j & [-> |?] & Hc & ?)]; [by left| |right; by exists j].
      exfalso. destruct Hc as [_ Hc]. apply Bool.eqb_false_iff in Eb. apply Eb.
      unfold Schema_get. destruct have; [by apply bool_decide_eq_true|by apply bool_decide_eq_false].
Qed.

(** What a method does on a schema it has not seen: [enter] marks it and says
    whether it is expanded. *)
Record searcher (f : nat -> Schema -> St -> res jexn St)
    (enter : Schema -> St -> res jexn St) : Prop := {
  sr_seen : forall fuel s st, wfS n s -> ok st -> seen (bitset s) st -> f (S fuel) s st = Ok st;
  sr_enter : forall s st, wfS n s -> ok st -> ~ seen (bitset s) st ->
    exists st', enter s st = Ok st' /\ ok st' /\ grew st st' (fun Z => Z = bitset s);
  sr_stop : forall fuel s st, wfS n s -> ok st -> ~ seen (bitset s) st -> ~ expand (bitset s) ->
    f (S fuel) s st = enter s st;
  sr_expand : forall fuel s st, wfS n s -> ok st -> ~ seen (bitset s) st -> expand (bitset s) ->
    f (S fuel) s st = (st' ← enter s st; for_bits (f fuel) have (seq 0 n) s st')
}.

Lemma search_ok f enter (Hdec : forall X, Decision (expand X))
    (Hseen : forall X st, Decision (seen X st)) fuel s :
  searcher f enter -> wfS n s -> depth (bitset s) < fuel -> visits (f fuel) s.
Proof.
  intros Hf. revert s. induction fuel as [|fuel IH]; intros s Hs Hd st Hok Hcl; [lia|].
  destruct (decide (seen (bitset s) st)) as [Hv|Hv].
  { rewrite (sr_seen _ _ Hf) by done. exists st. split_and!; [done|done|].
    intros Z. split; [by left|]. intros [?|Hr]; [done|]. eapply Hcl; [exact Hv|apply cone_refl|done]. }
  destruct (sr_enter _ _ Hf s st Hs Hok Hv) as (st1 & E1 & Hok1 & Hg1).
  destruct (decide (expand (bitset s))) as [He|He].
  2:{ rewrite (sr_stop _ _ Hf), E1 by done. exists st1. split_and!; [done|done|].
      intros Z. rewrite (Hg1 Z). split; (intros [?|Hr]; [by left|right]).
      - subst. constructor.
      - inversion Hr; [done|by destruct He]. }
  rewrite (sr_expand _ _ Hf), E1 by done. simpl.
  assert (HX : bitset s ⊆ full n) by (apply subset_full, Hs).
  destruct (for_bits_ok (f fuel) (seq 0 n) s st1 Hs) as (st' & -> & Hok' & Hg');
    [intros i Hi%elem_of_seq; lia|done| |].
  { intros i _ Hci. split.
    - intros Y Z HY HcY HYZ. apply Hg1. apply Hg1 in HY as [HY| ->].
      + left. eapply Hcl; [exact HY| |exact HYZ]. eapply cone_trans; [by apply cone_child|done].
      + by destruct (not_cone_child _ _ Hci).
    - apply IH; [|simpl; pose proof (depth_child _ _ Hci HX); lia].
      split; [done|]. simpl. apply subset_full, child_bound; [done|by apply subset_full, Hs]. }
  exists st'. split_and!; [done|done|]. intros Z. rewrite (Hg' Z), (Hg1 Z). split.
  - intros [[?| ->]|(i & _ & Hc & Hr)]; [by left|right; constructor|right; by econstructor].
  - intros [?|Hr]; [tauto|]. inversion Hr as [|i Y ? Hc Hr']; subst; [tauto|].
    right. exists i. split; [|done]. apply elem_of_seq. destruct Hc. lia.
Qed.
End search.
