(* ===== verification/TrtOps.v ===== *)
(** * The operations of TRT

    [setHealthy] marks all schemas below one, [setFaulty] all above;
    [getTopSchemas] and [getBottomSchemas] return the maximal and the minimal
    schemas that are not marked, [getMFS] the minimal ones marked faulty. *)
From S2P Require Import Prelude Schema NoPend Trt TrtProofs.

Definition Hm (n : nat) (t : TRT) (X : gset nat) : Prop := ix n X ∈ trt_healthy t.
Definition Fm (n : nat) (t : TRT) (X : gset nat) : Prop := ix n X ∈ trt_faulty t.
Definition Vm (n : nat) (t : TRT) (X : gset nat) : Prop := X ⊆ full n /\ ix n X ∈ trt_flag t.

#[export] Instance Hm_dec n t X : Decision (Hm n t X).
Proof. unfold Hm. apply _. Defined.
#[export] Instance Fm_dec n t X : Decision (Fm n t X).
Proof. unfold Fm. apply _. Defined.
#[export] Instance Vm_dec n t X : Decision (Vm n t X).
Proof. unfold Vm. apply _. Defined.

Section ops.
Context (n : nat) (Hn : n <= 30).

Lemma is_healthy_Hm t s : wfS n s -> is_healthy t s = bool_decide (Hm n t (bitset s)).
Proof using. intros Hs. unfold is_healthy, Hm. by rewrite (schema2int_ix n). Qed.
Lemma is_faulty_Fm t s : wfS n s -> is_faulty t s = bool_decide (Fm n t (bitset s)).
Proof using. intros Hs. unfold is_faulty, Fm. by rewrite (schema2int_ix n). Qed.
Lemma is_flagged_Vm t s : wfS n s -> is_flagged t s = bool_decide (Vm n t (bitset s)).
Proof using.
  intros Hs. unfold is_flagged, Vm. rewrite (schema2int_ix n) by done. apply bool_decide_ext.
  assert (bitset s ⊆ full n) by (apply subset_full, Hs). tauto.
Qed.

Lemma ix_add X Y (b : gset Z) :
  X ⊆ full n -> Y ⊆ full n -> ix n Y ∈ {[ix n X]} ∪ b <-> ix n Y ∈ b \/ Y = X.
Proof.
  intros HX HY. rewrite elem_of_union, elem_of_singleton. split.
  - intros [He|?]; [right|by left]. by apply (ix_inj n).
  - intros [?| ->]; [by right|by left].
Qed.

Lemma wfS_full s : wfS n s -> bitset s ⊆ full n.
Proof using. intros Hs. apply subset_full, Hs. Qed.

(** With every schema expanded the search reaches the whole cone. *)
Lemma reach_all have X Y :
  X ⊆ full n -> Y ⊆ full n -> reach n have (fun _ => True) X Y <-> cone have X Y.
Proof using.
  intros HX HY. split; [apply reach_cone|]. intros Hc.
  destruct (reach_stop n have (fun Z => Z <> Y) X Y) as (Z & Hr & _ & Hz);
    [intros; apply _|done|done|done|tauto|].
  destruct (decide (Z = Y)) as [->|]; [|done].
  clear -Hr. induction Hr; [constructor|]. by econstructor.
Qed.

(** ** Marking *)
Record same_but_healthy (t0 t : TRT) : Prop := {
  sh_num : num_parameter t = num_parameter t0;
  sh_size : trt_size t = trt_size t0;
  sh_faulty : trt_faulty t = trt_faulty t0;
  sh_flag : trt_flag t = trt_flag t0
}.

Lemma setHealthy_ok t s :
  num_parameter t = n -> wfS n s ->
  (forall X Y, X ⊆ full n -> Y ⊆ X -> Hm n t X -> Hm n t Y) ->
  exists t', setHealthy (S n) s t = Ok t' /\ same_but_healthy t t' /\
    forall X, X ⊆ full n -> Hm n t' X <-> Hm n t X \/ X ⊆ bitset s.
Proof.
  intros Hnum Hs Hdown.
  set (seen := fun X t' => X ⊆ full n /\ Hm n t' X).
  destruct (search_ok n true (fun _ => True) seen (same_but_healthy t) setHealthy
    (fun s t => Ok (set_healthy_bit s t)) ltac:(intros; apply _) ltac:(intros; apply _) (S n) s)
    with (st := t) as (t' & E & Hsame & Hg).
  - split.
    + intros fuel x st Hx Hok [_ Hv]. simpl. destruct Hx as [Hx1 Hx2].
      rewrite Hx1, (sh_num _ _ Hok), Hnum, Nat.eqb_refl. simpl.
      rewrite is_healthy_Hm by done. by rewrite bool_decide_true.
    + intros x st Hx Hok Hv. eexists. split_and!; [done|by destruct Hok|].
      intros Z. unfold seen, Hm. simpl. rewrite (schema2int_ix n) by done.
      pose proof (wfS_full x Hx) as Hxf. pose proof (ix_add (bitset x) Z (trt_healthy st) Hxf).
      split; [tauto|]. intros [?| ->]; tauto.
    + intros fuel x st Hx Hok Hv Hnt. done.
    + intros fuel x st Hx Hok Hv _. simpl.
      pose proof (wfS_full x Hx) as Hxf. destruct (Hx) as [Hx1 Hx2].
      rewrite Hx1, (sh_num _ _ Hok), Hnum, Nat.eqb_refl. simpl.
      rewrite is_healthy_Hm by done. rewrite bool_decide_false by (unfold seen in Hv; tauto).
      by destruct x.
  - done.
  - unfold depth. pose proof (size_le_full n _ (wfS_full s Hs)). lia.
  - done.
  - intros Y Z [HY HYt] Hc Hr. pose proof (reach_bound n true _ _ _ Hr HY) as HZ.
    split; [done|]. apply reach_cone in Hr. simpl in Hr. by apply (Hdown Y Z).
  - exists t'. split_and!; [done|done|]. intros X HX. specialize (Hg X). unfold seen in Hg.
    rewrite (reach_all true _ X (wfS_full s Hs) HX) in Hg. simpl in Hg. tauto.
Qed.

Record same_but_faulty (t0 t : TRT) : Prop := {
  sf_num : num_parameter t = num_parameter t0;
  sf_size : trt_size t = trt_size t0;
  sf_healthy : trt_healthy t = trt_healthy t0;
  sf_flag : trt_flag t = trt_flag t0
}.

Lemma setFaulty_ok t s :
  num_parameter t = n -> wfS n s ->
  (forall X Y, Y ⊆ full n -> X ⊆ Y -> Fm n t X -> Fm n t Y) ->
  exists t', setFaulty (S n) s t = Ok t' /\ same_but_faulty t t' /\
    forall X, X ⊆ full n -> Fm n t' X <-> Fm n t X \/ bitset s ⊆ X.
Proof.
  intros Hnum Hs Hup.
  set (seen := fun X t' => X ⊆ full n /\ Fm n t' X).
  destruct (search_ok n false (fun _ => True) seen (same_but_faulty t) setFaulty
    (fun s t => Ok (set_faulty_bit s t)) ltac:(intros; apply _) ltac:(intros; apply _) (S n) s)
    with (st := t) as (t' & E & Hsame & Hg).
  - split.
    + intros fuel x st Hx Hok [_ Hv]. simpl. destruct Hx as [Hx1 Hx2].
      rewrite Hx1, (sf_num _ _ Hok), Hnum, Nat.eqb_refl. simpl.
      rewrite is_faulty_Fm by done. by rewrite bool_decide_true.
    + intros x st Hx Hok Hv. eexists. split_and!; [done|by destruct Hok|].
      intros Z. unfold seen, Fm. simpl. rewrite (schema2int_ix n) by done.
      pose proof (wfS_full x Hx) as Hxf. pose proof (ix_add (bitset x) Z (trt_faulty st) Hxf).
      split; [tauto|]. intros [?| ->]; tauto.
    + intros fuel x st Hx Hok Hv Hnt. done.
    + intros fuel x st Hx Hok Hv _. simpl.
      pose proof (wfS_full x Hx) as Hxf. destruct (Hx) as [Hx1 Hx2].
      rewrite Hx1, (sf_num _ _ Hok), Hnum, Nat.eqb_refl. simpl.
      rewrite is_faulty_Fm by done. rewrite bool_decide_false by (unfold seen in Hv; tauto).
      by destruct x.
  - done.
  - unfold depth. lia.
  - done.
  - intros Y Z [HY HYt] Hc Hr. pose proof (reach_bound n false _ _ _ Hr HY) as HZ.
    split; [done|]. apply reach_cone in Hr. simpl in Hr. by apply (Hup Y Z).
  - exists t'. split_and!; [done|done|]. intros X HX. specialize (Hg X). unfold seen in Hg.
    rewrite (reach_all false _ X (wfS_full s Hs) HX) in Hg. simpl in Hg. tauto.
Qed.

(** ** Searching *)
Record same_but_flag (t0 t : TRT) : Prop := {
  sg_num : num_parameter t = num_parameter t0;
  sg_size : trt_size t = trt_size t0;
  sg_healthy : trt_healthy t = trt_healthy t0;
  sg_faulty : trt_faulty t = trt_faulty t0
}.

(** Mark a schema as visited, and collect it if it is one that is looked for. *)
Definition collect (hit : gset nat -> Prop) `{!forall X, Decision (hit X)} (s : Schema)
    (st : TRT * MonotoneSchemaSet) : res jexn (TRT * MonotoneSchemaSet) :=
  if decide (hit (bitset s)) then
    m ← MSS_add_ st.2 (Schema_copy s); Ok (set_flag s st.1, m)
  else Ok (set_flag s st.1, st.2).

Section collect.
Context (t0 : TRT) (minimal : bool) (hit stale : gset nat -> Prop).
Context `{!forall X, Decision (hit X)}.

Record col_ok (st : TRT * MonotoneSchemaSet) : Prop := {
  co_same : same_but_flag t0 st.1;
  co_wf : wfM n st.2;
  co_min : isMinimal st.2 = minimal;
  co_stale : forall X, stale X -> Vm n st.1 X;
  co_covers : forall Z, covers (mode_rel minimal) (schemas st.2) Z <->
    exists X, (Vm n st.1 X /\ ~ stale X) /\ hit X /\ mode_rel minimal X Z
}.

Lemma Vm_set_flag s t Z : wfS n s -> Vm n (set_flag s t) Z <-> Vm n t Z \/ Z = bitset s.
Proof.
  intros Hs. unfold Vm. simpl. rewrite (schema2int_ix n) by done.
  pose proof (wfS_full s Hs) as Hf. pose proof (ix_add (bitset s) Z (trt_flag t) Hf).
  split; [tauto|]. intros [?| ->]; tauto.
Qed.

Lemma collect_ok s st :
  wfS n s -> col_ok st -> ~ Vm n st.1 (bitset s) ->
  exists st', collect hit s st = Ok st' /\ col_ok st' /\
    forall Z, Vm n st'.1 Z <-> Vm n st.1 Z \/ Z = bitset s.
Proof.
  intros Hs [H1 H2 H3 H4 H5] Hv.
  assert (Hns : ~ stale (bitset s)) by auto.
  assert (Hvm : forall Z, Vm n (set_flag s st.1) Z <-> Vm n st.1 Z \/ Z = bitset s)
    by (intros; by apply Vm_set_flag).
  assert (Hsame : same_but_flag t0 (set_flag s st.1)) by by destruct H1.
  unfold collect. destruct (decide (hit (bitset s))) as [Hh|Hh].
  - replace (Schema_copy s) with s by by destruct s.
    destruct (MSS_add__ok n st.2 s H2 Hs) as (m & -> & Hwm & Hmin & _ & Hc). simpl.
    exists (set_flag s st.1, m). split_and!; [done| |done].
    split; [done|done|simpl; congruence| |].
    + intros X HX. simpl. apply Hvm. auto.
    + intros Z. simpl. rewrite H3 in Hc. rewrite Hc, H5. split.
      * intros [(X & [? ?] & ? & ?)|Hr]; [exists X; rewrite Hvm; tauto|].
        exists (bitset s). rewrite Hvm. tauto.
      * intros (X & [[?| ->]%Hvm ?] & ? & ?); [left; exists X; tauto|by right].
  - exists (set_flag s st.1, st.2). split_and!; [done| |done]. split; [done|done|done| |].
    + intros X HX. simpl. apply Hvm. auto.
    + intros Z. simpl. rewrite H5. split.
      * intros (X & [? ?] & ? & ?). exists X. rewrite Hvm. tauto.
      * intros (X & [[?| ->]%Hvm ?] & ? & ?); [exists X; tauto|done].
Qed.
End collect.

(** A search from [s] with flags that are cleared up to [stale] ones, which
    have nothing further to expand. *)
Lemma col_search t0 minimal hit stale expand have f s
    `{!forall X, Decision (hit X), !forall X, Decision (expand X)} :
  searcher n have expand (fun X st => Vm n st.1 X) (col_ok t0 minimal hit stale) f (collect hit) ->
  wfS n s -> (forall X, Vm n t0 X <-> stale X) ->
  (forall X Y, stale X -> reach n have expand X Y -> stale Y) ->
  exists st', f (S n) s (t0, MSS_new minimal) = Ok st' /\ same_but_flag t0 st'.1 /\
    wfM n st'.2 /\ isMinimal st'.2 = minimal /\
    (forall X, Vm n st'.1 X <-> stale X \/ reach n have expand (bitset s) X) /\
    forall Z, covers (mode_rel minimal) (schemas st'.2) Z <->
      exists X, (reach n have expand (bitset s) X /\ ~ stale X) /\ hit X /\ mode_rel minimal X Z.
Proof.
  intros Hf Hs Hst Hcl.
  destruct (search_ok n have expand (fun X st => Vm n st.1 X) (col_ok t0 minimal hit stale)
    f (collect hit) ltac:(intros; apply _) ltac:(intros; apply _) (S n) s)
    with (st := (t0, MSS_new minimal)) as (st' & E & [H1 H2 H3 H4 H5] & Hg); [done|done| | | |].
  - unfold depth. pose proof (size_le_full n _ (wfS_full s Hs)). destruct have; lia.
  - split; [done|apply MSS_new_wf|done| |].
    + intros X. by apply Hst.
    + intros Z. simpl. split; [intros Hx; by apply covers_nil in Hx|].
      intros (X & [HV Hn'] & _). by apply Hst in HV.
  - intros Y Z HY _ Hr. apply Hst in HY. apply Hst. by eapply Hcl.
  - unfold grew in Hg. simpl in Hg.
    assert (Hg' : forall X, Vm n st'.1 X <-> stale X \/ reach n have expand (bitset s) X).
    { intros X. rewrite (Hg X), Hst. done. }
    exists st'. split_and!; [done..|]. intros Z. rewrite H5. split.
    + intros (X & [HV ?] & ?). exists X. rewrite Hg' in HV. tauto.
    + intros (X & [Hr ?] & ?). exists X. rewrite Hg'. tauto.
Qed.

(** *** The three methods are such searches *)
Definition pending_mark (t : TRT) (X : gset nat) : Prop := ~ Hm n t X /\ ~ Fm n t X.

#[local] Ltac searcher_tac :=
  split;
  [ intros fuel x st Hx Hok Hv; cbn;
    rewrite is_flagged_Vm by done; by rewrite bool_decide_true
  | intros x st Hx Hok Hv; by apply collect_ok
  | intros fuel x st Hx Hok Hv Hne; cbn;
    rewrite is_flagged_Vm by done; rewrite bool_decide_false by done
  | intros fuel x st Hx Hok Hv Hne; cbn;
    rewrite is_flagged_Vm by done; rewrite bool_decide_false by done ].

Lemma tops_searcher t0 stale :
  (forall X, X ⊆ full n -> Hm n t0 X -> ~ Fm n t0 X) ->
  searcher n true (Fm n t0) (fun X st => Vm n st.1 X)
    (col_ok t0 false (pending_mark t0) stale)
    getTopSchemasRecursively (collect (pending_mark t0)).
Proof.
  intros Hexcl.
  assert (Hb : forall st x, col_ok t0 false (pending_mark t0) stale st -> wfS n x ->
    is_healthy (set_flag x st.1) x = bool_decide (Hm n t0 (bitset x)) /\
    is_faulty (set_flag x st.1) x = bool_decide (Fm n t0 (bitset x))).
  { intros st x [[_ _ Hh Hf] _ _ _ _] Hx. rewrite is_healthy_Hm, is_faulty_Fm by done.
    split; apply bool_decide_ext; unfold Hm, Fm; simpl; by rewrite ?Hh, ?Hf. }
  searcher_tac; destruct (Hb st x Hok Hx) as [-> ->]; unfold collect.
  - rewrite (bool_decide_false (Fm n t0 (bitset x))) by done. case_bool_decide as Hh.
    + rewrite decide_False; [done|]. unfold pending_mark. tauto.
    + simpl. by rewrite decide_True.
  - rewrite (bool_decide_true (Fm n t0 (bitset x))) by done.
    rewrite bool_decide_false by (intros Hh; by apply (Hexcl _ (wfS_full x Hx) Hh)).
    rewrite decide_False by (unfold pending_mark; tauto). simpl.
    destruct Hx as [<- _]. by destruct x, st.
Qed.

Lemma bottoms_searcher t0 stale :
  (forall X, X ⊆ full n -> Hm n t0 X -> ~ Fm n t0 X) ->
  searcher n false (Hm n t0) (fun X st => Vm n st.1 X)
    (col_ok t0 true (pending_mark t0) stale)
    getBottomSchemasRecursively (collect (pending_mark t0)).
Proof.
  intros Hexcl.
  assert (Hb : forall st x, col_ok t0 true (pending_mark t0) stale st -> wfS n x ->
    is_healthy (set_flag x st.1) x = bool_decide (Hm n t0 (bitset x)) /\
    is_faulty (set_flag x st.1) x = bool_decide (Fm n t0 (bitset x))).
  { intros st x [[_ _ Hh Hf] _ _ _ _] Hx. rewrite is_healthy_Hm, is_faulty_Fm by done.
    split; apply bool_decide_ext; unfold Hm, Fm; simpl; by rewrite ?Hh, ?Hf. }
  searcher_tac; destruct (Hb st x Hok Hx) as [-> ->]; unfold collect.
  - rewrite (bool_decide_false (Hm n t0 (bitset x))) by done. case_bool_decide as Hh.
    + rewrite decide_False; [done|]. unfold pending_mark. tauto.
    + simpl. by rewrite decide_True.
  - rewrite (bool_decide_true (Hm n t0 (bitset x))) by done.
    rewrite bool_decide_false by (by apply Hexcl; [apply wfS_full|]).
    rewrite decide_False by (unfold pending_mark; tauto). simpl.
    destruct Hx as [<- _]. by destruct x, st.
Qed.

Lemma MFS_searcher t0 stale :
  searcher n false (fun X => ~ Fm n t0 X) (fun X st => Vm n st.1 X)
    (col_ok t0 true (Fm n t0) stale) getMFSRecursively (collect (Fm n t0)).
Proof.
  assert (Hb : forall st x, col_ok t0 true (Fm n t0) stale st -> wfS n x ->
    is_faulty (set_flag x st.1) x = bool_decide (Fm n t0 (bitset x))).
  { intros st x [[_ _ _ Hf] _ _ _ _] Hx. rewrite is_faulty_Fm by done.
    apply bool_decide_ext. unfold Fm. simpl. by rewrite Hf. }
  searcher_tac; rewrite (Hb st x Hok Hx); unfold collect.
  - destruct (decide (Fm n t0 (bitset x))) as [Hh|]; [|done]. by rewrite bool_decide_true.
  - rewrite bool_decide_false by done. rewrite decide_False by done. simpl.
    destruct Hx as [<- _]. by destruct x, st.
Qed.
End ops.
