(* ===== verification/TrtSearch.v ===== *)
(** * What the searches of TRT return

    On marks that are closed under inclusion.  [getBottomSchemas] and [getMFS]
    clear all flags but the last: when the bit set has no spare space, that of
    the full schema is left from the search before. *)
From S2P Require Import Prelude Schema NoPend ResolversProofs FinovlpProofs Trt TrtProofs TrtOps.

(** ** Space of the flags *)
Lemma BitSet_size_pow n : BitSet_size (2 ^ Z.of_nat n) = Z.max 64 (2 ^ Z.of_nat n).
Proof.
  unfold BitSet_size. destruct (decide (6 <= n)) as [Hn|Hn].
  - assert (E : (2 ^ Z.of_nat n = 64 * 2 ^ (Z.of_nat n - 6))%Z).
    { change 64%Z with (2 ^ 6)%Z. rewrite <- Z.pow_add_r by lia. f_equal. lia. }
    assert (0 < 2 ^ (Z.of_nat n - 6))%Z by (apply Z.pow_pos_nonneg; lia).
    rewrite E. rewrite <- (Z.div_unique_pos (64 * 2 ^ (Z.of_nat n - 6) - 1) 64
      (2 ^ (Z.of_nat n - 6) - 1) 63)%Z by lia. lia.
  - assert (0 < 2 ^ Z.of_nat n)%Z by (apply Z.pow_pos_nonneg; lia).
    assert (2 ^ Z.of_nat n <= 2 ^ 5)%Z by (apply Z.pow_le_mono_r; lia). change (2 ^ 5)%Z with 32%Z in *.
    rewrite Z.div_small by lia. lia.
Qed.

Lemma flag_schema_wf n b : wfS n (Schema_flag n b).
Proof. destruct b; (split; [done|]); simpl; intros i; [intros Hi%elem_of_set_seq; lia|set_solver]. Qed.

Section trt.
Context (n : nat) (Hn : n <= 30).

Lemma Vm_clear t k X :
  Vm n (clear_flags k t) X <-> Vm n t X /\ (k <= ix n X)%Z.
Proof using Hn.
  unfold Vm, clear_flags, clear_to. simpl. pose proof (ix_range n X Hn).
  rewrite elem_of_filter. split; [intros (? & ? & ?); split_and!; [done|done|lia]|].
  intros ([? ?] & ?). split_and!; [done|lia|done].
Qed.

Lemma Vm_clear_all t X : trt_size t = (2 ^ Z.of_nat n)%Z -> ~ Vm n (clear_flags (BitSet_size (trt_size t)) t) X.
Proof using Hn.
  intros Hs [_ Hk]%Vm_clear. rewrite Hs, BitSet_size_pow in Hk. pose proof (ix_range n X Hn). lia.
Qed.

(** The flag of the full schema survives, from six parameters on. *)
Definition left_over (t : TRT) (X : gset nat) : Prop := X = full n /\ 6 <= n /\ Vm n t (full n).

Lemma Vm_clear_but_last t X :
  trt_size t = (2 ^ Z.of_nat n)%Z ->
  Vm n (clear_flags (BitSet_size (trt_size t) - 1) t) X <-> left_over t X.
Proof using Hn.
  intros Hs. rewrite Vm_clear, Hs, BitSet_size_pow. unfold left_over.
  assert (Hp : (64 <= 2 ^ Z.of_nat n)%Z <-> 6 <= n).
  { split; intros Hle.
    - destruct (decide (6 <= n)); [done|]. assert (2 ^ Z.of_nat n <= 2 ^ 5)%Z by (apply Z.pow_le_mono_r; lia).
      change (2 ^ 5)%Z with 32%Z in *. lia.
    - change 64%Z with (2 ^ 6)%Z. apply Z.pow_le_mono_r; lia. }
  pose proof (ix_full n Hn) as Ef. pose proof (ix_range n X Hn).
  split.
  - intros [HV Hk]. assert (HX : X = full n).
    { destruct (decide (X = full n)) as [|Hne]; [done|].
      pose proof (ix_below_full n X Hn (proj1 HV) Hne). lia. }
    subst. split_and!; [done| |done]. apply Hp. lia.
  - intros (-> & H6 & HV). split; [done|]. apply Hp in H6. lia.
Qed.

(** ** What the searches return *)
Section marks.
Context (t : TRT).
Record marks : Prop := {
  mk_num : num_parameter t = n;
  mk_size : trt_size t = (2 ^ Z.of_nat n)%Z;
  mk_excl : forall X, X ⊆ full n -> Hm n t X -> ~ Fm n t X;
  mk_down : forall X Y, X ⊆ full n -> Y ⊆ X -> Hm n t X -> Hm n t Y;
  mk_up : forall X Y, Y ⊆ full n -> X ⊆ Y -> Fm n t X -> Fm n t Y;
  mk_empty : Hm n t ∅;
  mk_full : Fm n t (full n)
}.
Context (Hmk : marks).

Definition pending_in (X : gset nat) : Prop := X ⊆ full n /\ pending_mark n t X.

Lemma full_empty : ~ full n ⊆ ∅.
Proof using Hmk Hn.
  intros Hs. assert (E : full n = ∅) by set_solver.
  apply (mk_excl Hmk ∅); [set_solver|by apply mk_empty|]. rewrite <- E. by apply mk_full.
Qed.

Lemma getTopSchemas_ok :
  exists t' tops, getTopSchemas t = Ok (t', tops) /\ same_but_flag t t' /\ wfM n tops /\
    isMinimal tops = false /\ Vm n t' (full n) /\
    forall Z, covers (mode_rel false) (schemas tops) Z <-> exists X, pending_in X /\ Z ⊆ X.
Proof using Hmk Hn.
  unfold getTopSchemas. rewrite (mk_num Hmk).
  set (t0 := clear_flags _ t).
  destruct (col_search n Hn t0 false (pending_mark n t0) (fun _ => False) (Fm n t0) true
    getTopSchemasRecursively (Schema_flag n true))
    as ((t' & tops) & E & Hsame & Hw & Hmin & HV & Hc).
  - by apply tops_searcher, (mk_excl Hmk).
  - apply flag_schema_wf.
  - intros X. unfold t0. pose proof (Vm_clear_all t X (mk_size Hmk)). tauto.
  - done.
  - exists t', tops. split_and!; [done|by destruct Hsame|done|done| |].
    + apply HV. right. constructor.
    + intros Z. rewrite Hc. simpl. split.
      * intros (X & [Hr _] & Hp & HZ). exists X. split; [|done]. split; [|done].
        by apply (reach_bound n true _ _ _ Hr).
      * intros (X & [HX Hp] & HZ).
        destruct (reach_stop n true (Fm n t0) (full n) X) as (Y & Hr & HXY & HY);
          [intros; apply _|done|done|done|apply Hp|].
        pose proof (reach_bound n true _ _ _ Hr ltac:(done)) as HYf. simpl in HXY.
        exists Y. split_and!; [done|tauto| |set_solver]. split; [|done].
        intros Hh. apply (proj1 Hp). by apply (mk_down Hmk Y X).
Qed.

Lemma getBottomSchemas_ok :
  exists t' bottoms, getBottomSchemas t = Ok (t', bottoms) /\ same_but_flag t t' /\ wfM n bottoms /\
    isMinimal bottoms = true /\
    forall Z, covers (⊆) (schemas bottoms) Z <-> exists X, pending_in X /\ X ⊆ Z.
Proof using Hmk Hn.
  unfold getBottomSchemas. rewrite (mk_num Hmk).
  set (t0 := clear_flags _ t).
  destruct (col_search n Hn t0 true (pending_mark n t0) (left_over t) (Hm n t0) false
    getBottomSchemasRecursively (Schema_flag n false))
    as ((t' & bottoms) & E & Hsame & Hw & Hmin & HV & Hc).
  - by apply bottoms_searcher, (mk_excl Hmk).
  - apply flag_schema_wf.
  - intros X. apply Vm_clear_but_last, (mk_size Hmk).
  - intros X Y [-> ?] Hr. pose proof (reach_bound n false _ _ _ Hr ltac:(done)) as HY.
    apply reach_cone in Hr. simpl in Hr. split; [|done]. set_solver.
  - exists t', bottoms. split_and!; [done|by destruct Hsame|done|done|].
    intros Z. rewrite Hc. simpl. split.
    + intros (X & [Hr _] & Hp & HZ). exists X. split; [|done]. split; [|done].
      apply (reach_bound n false _ _ _ Hr). set_solver.
    + intros (X & [HX Hp] & HZ).
      destruct (reach_stop n false (Hm n t0) ∅ X) as (Y & Hr & HYX & HY);
        [intros; apply _|set_solver|done|simpl; set_solver|apply Hp|]. simpl in HYX.
      assert (HnF : ~ Fm n t0 Y) by (intros Hf; apply (proj2 Hp); by apply (mk_up Hmk Y X)).
      exists Y. split_and!; [done| |done|set_solver].
      intros [-> _]. apply HnF, (mk_full Hmk).
Qed.

Lemma getMFS_ok :
  exists t' mfs, getMFS t = Ok (t', mfs) /\ wfM n mfs /\ isMinimal mfs = true /\
    forall Z, covers (⊆) (schemas mfs) Z <->
      exists X, (X ⊆ full n /\ Fm n t X /\ X ⊆ Z) /\
        ((6 <= n /\ Vm n t (full n)) -> exists Y, Y ⊆ full n /\ Fm n t Y /\ Y <> full n).
Proof using Hmk Hn.
  unfold getMFS. rewrite (mk_num Hmk).
  set (t0 := clear_flags _ t).
  destruct (col_search n Hn t0 true (Fm n t0) (left_over t) (fun X => ~ Fm n t0 X) false
    getMFSRecursively (Schema_flag n false))
    as ((t' & mfs) & E & Hsame & Hw & Hmin & HV & Hc).
  - by apply MFS_searcher.
  - apply flag_schema_wf.
  - intros X. apply Vm_clear_but_last, (mk_size Hmk).
  - intros X Y [-> ?] Hr. pose proof (reach_bound n false _ _ _ Hr ltac:(done)) as HY.
    apply reach_cone in Hr. simpl in Hr. split; [|done]. set_solver.
  - assert (Hreach : forall X, X ⊆ full n -> Fm n t X ->
      exists Y, reach n false (fun X => ~ Fm n t0 X) ∅ Y /\ Y ⊆ X /\ Fm n t Y).
    { intros X HX Hf.
      destruct (reach_stop n false (fun X => ~ Fm n t0 X) ∅ X) as (Y & Hr & HYX & HY);
        [intros; apply _|set_solver|done|simpl; set_solver|tauto|].
      exists Y. split_and!; [done|done|]. destruct (decide (Fm n t0 Y)); [done|tauto]. }
    exists t', mfs. split_and!; [done|done|done|].
    intros Z. rewrite Hc. simpl. split.
    + intros (X & [Hr Hns] & Hf & HZ).
      assert (HX : X ⊆ full n) by (apply (reach_bound n false _ _ _ Hr); set_solver).
      exists X. split; [done|]. intros [H6 Hvf]. exists X. split_and!; [done|done|].
      intros ->. by apply Hns.
    + intros (X & (HX & Hf & HZ) & Hcase).
      destruct (Hreach X HX Hf) as (Y & Hr & HYX & HY).
      destruct (decide (Y = full n /\ 6 <= n /\ Vm n t (full n))) as [[-> Hst]|Hns].
      2:{ exists Y. split_and!; [done|done|done|set_solver]. }
      destruct (Hcase Hst) as (W & HW & HfW & Hne).
      destruct (Hreach W HW HfW) as (Y' & Hr' & HYW & HY').
      exists Y'. split_and!; [done| |done|set_solver].
      intros [-> _]. apply Hne. set_solver.
Qed.
End marks.
End trt.
