(* ===== verification/TrtTheorems.v ===== *)
(** * What the TRT resolver reports *)
From S2P Require Import Prelude Schema NoPend ResolversProofs FinovlpProofs Trt TrtProofs TrtOps TrtSearch.

(** ** A new table *)
Lemma bitCount_pow n : n <= 30 -> Integer_bitCount (2 ^ Z.of_nat n) = 1.
Proof.
  intros Hn.
  assert (Hall : forallb (fun k => Nat.eqb (Integer_bitCount (2 ^ Z.of_nat k)) 1) (seq 0 31) = true)
    by by vm_compute.
  rewrite forallb_forall in Hall. apply Nat.eqb_eq, Hall. rewrite <- list_elem_of_In, elem_of_seq. lia.
Qed.

Lemma TRT_new_ok n :
  n <= 30 -> TRT_new n = Ok (MkTRT n (2 ^ Z.of_nat n) {[0%Z]} {[(2 ^ Z.of_nat n - 1)%Z]} ∅).
Proof.
  intros Hn. unfold TRT_new.
  assert (0 < 2 ^ Z.of_nat n)%Z by (apply Z.pow_pos_nonneg; lia).
  assert (Hb : (2 ^ Z.of_nat n <= 2 ^ 30)%Z) by (apply Z.pow_le_mono_r; lia).
  change (2 ^ 30)%Z with 1073741824%Z in Hb.
  rewrite (proj2 (Z.ltb_ge _ _)) by lia. rewrite jint_small by lia.
  rewrite (proj2 (Z.leb_gt _ _)) by lia. by rewrite bitCount_pow by done.
Qed.

Lemma subsets_sub (l : list nat) X : X ∈ subsets l -> forall i, i ∈ X -> i ∈ l.
Proof.
  revert X. induction l as [|x l IH]; intros X; simpl.
  - intros ->%list_elem_of_singleton. set_solver.
  - intros [HX|HX]%elem_of_app i Hi; [right; by eapply IH|].
    apply list_elem_of_fmap in HX as (W & -> & HW).
    apply elem_of_union in Hi as [->%elem_of_singleton|Hi]; [left|right; by eapply IH].
Qed.

Section run.
Context (n : nat) (Hn : n <= 30) (MFS : list Comb) (safeValues tfail : Comb).
Context `{O : !HealthOracle n MFS safeValues tfail}.

(** The marks are true. *)
Record sound (t : TRT) : Prop := {
  so_num : num_parameter t = n;
  so_size : trt_size t = (2 ^ Z.of_nat n)%Z;
  so_healthy : forall X, X ⊆ full n -> Hm n t X -> ~ faulty X;
  so_faulty : forall X, X ⊆ full n -> Fm n t X -> faulty X;
  so_down : forall X Y, X ⊆ full n -> Y ⊆ X -> Hm n t X -> Hm n t Y;
  so_up : forall X Y, Y ⊆ full n -> X ⊆ Y -> Fm n t X -> Fm n t Y;
  so_empty : Hm n t ∅;
  so_full : Fm n t (full n)
}.

Lemma sound_marks t : sound t -> marks n t.
Proof. intros []. split; eauto. intros X HX Hh Hf. apply (so_healthy0 X); auto. Qed.

Lemma sound_new : faulty (full n) -> sound (MkTRT n (2 ^ Z.of_nat n) {[0%Z]} {[(2 ^ Z.of_nat n - 1)%Z]} ∅).
Proof.
  intros Hf. set (t := MkTRT _ _ _ _ _).
  assert (HH : forall X, X ⊆ full n -> Hm n t X <-> X = ∅).
  { intros X HX. unfold Hm. simpl. rewrite elem_of_singleton, <- (ix_empty n Hn).
    split; [|by intros ->]. apply (ix_inj n); [done|done|set_solver]. }
  assert (HF : forall X, X ⊆ full n -> Fm n t X <-> X = full n).
  { intros X HX. unfold Fm. simpl. rewrite elem_of_singleton, <- (ix_full n Hn).
    split; [|by intros ->]. by apply (ix_inj n). }
  split; [done|done|..].
  - intros X HX ->%HH; [|done]. apply faulty_empty.
  - by intros X HX ->%HF.
  - intros X Y HX HY Hx. apply HH in Hx as ->; [|done]. apply HH; set_solver.
  - intros X Y HY HXY Hx. assert (HX : X ⊆ full n) by set_solver.
    apply HF in Hx as ->; [|done]. apply HF; set_solver.
  - apply HH; set_solver.
  - by apply HF.
Qed.

Lemma sound_flag t t' : same_but_flag t t' -> sound t -> sound t'.
Proof. intros [E1 E2 E3 E4] []. split; unfold Hm, Fm in *; rewrite ?E1, ?E2, ?E3, ?E4; done. Qed.

Lemma sound_setHealthy t t' X :
  sound t -> same_but_healthy t t' -> X ⊆ full n -> ~ faulty X ->
  (forall Y, Y ⊆ full n -> Hm n t' Y <-> Hm n t Y \/ Y ⊆ X) -> sound t'.
Proof.
  intros [H1 H2 H3 H4 H5 H6 H7 H8] [E1 E2 E3 E4] HX Hn' Hiff.
  assert (HF : forall Y, Fm n t' Y <-> Fm n t Y) by (intros; unfold Fm; by rewrite E3).
  split; [congruence|congruence|..].
  - intros Y HY Hh. apply Hiff in Hh as [Hh|Hs]; [by apply H3| |done].
    intros Hf. apply Hn'. by apply (faulty_mono Y X).
  - intros Y HY Hf. by apply H4, HF.
  - intros Y Z HY HZ Hh. apply Hiff; [set_solver|]. apply Hiff in Hh as [Hh|Hs]; [|set_solver|done].
    left. by apply (H5 Y).
  - intros Y Z HZ HY Hf. apply HF. apply (H6 Y); [done|done|]. by apply HF.
  - apply Hiff; [set_solver|by left].
  - by apply HF.
Qed.

Lemma sound_setFaulty t t' X :
  sound t -> same_but_faulty t t' -> X ⊆ full n -> faulty X ->
  (forall Y, Y ⊆ full n -> Fm n t' Y <-> Fm n t Y \/ X ⊆ Y) -> sound t'.
Proof.
  intros [H1 H2 H3 H4 H5 H6 H7 H8] [E1 E2 E3 E4] HX Hf Hiff.
  assert (HH : forall Y, Hm n t' Y <-> Hm n t Y) by (intros; unfold Hm; by rewrite E3).
  split; [congruence|congruence|..].
  - intros Y HY Hh. by apply H3, HH.
  - intros Y HY Hfy. apply Hiff in Hfy as [Hfy|Hs]; [by apply H4| |done]. by apply (faulty_mono X Y).
  - intros Y Z HY HZ Hh. apply HH. apply (H5 Y); [done|done|]. by apply HH.
  - intros Y Z HZ HY Hfy. apply Hiff; [done|]. apply Hiff in Hfy as [Hfy|Hs]; [|set_solver|set_solver].
    left. by apply (H6 Y).
  - by apply HH.
  - apply Hiff; [done|by left].
Qed.

(** ** Rounds *)
#[local] Instance pending_mark_dec t X : Decision (pending_mark n t X).
Proof. unfold pending_mark. apply _. Defined.

Definition pending_count (t : TRT) : nat := length (filter (pending_mark n t) (subsets (seq 0 n))).

Lemma pending_count_le t : pending_count t <= 2 ^ n.
Proof. unfold pending_count. etrans; [apply length_filter|]. by rewrite length_subsets, length_seq. Qed.

Lemma pending_count_lt t t' X :
  (forall Y, Y ⊆ full n -> Hm n t Y -> Hm n t' Y) -> (forall Y, Y ⊆ full n -> Fm n t Y -> Fm n t' Y) ->
  X ⊆ full n -> pending_mark n t X -> ~ pending_mark n t' X -> pending_count t' < pending_count t.
Proof.
  intros Hh Hf HX Hp Hp'. unfold pending_count. apply (filter_length_lt _ _ _ X).
  - intros Y HY Hpy.
    assert (HYf : Y ⊆ full n);
      [|destruct Hpy as [Hp1 Hp2]; split; [intros Hx; apply Hp1|intros Hx; apply Hp2]; auto].
    apply subset_full. intros i Hi. pose proof (subsets_sub _ _ HY i Hi) as Hs.
    apply elem_of_seq in Hs. lia.
  - apply elem_of_subsets. intros i Hi. rewrite elem_of_list_to_set, elem_of_seq.
    rewrite subset_full in HX. specialize (HX i Hi). lia.
  - done.
  - done.
Qed.

(** The ends of a longest chain are not marked. *)
Lemma pending_ends t tops bottoms :
  wfM n tops -> isMinimal tops = false -> wfM n bottoms -> isMinimal bottoms = true ->
  (forall Z, covers (mode_rel false) (schemas tops) Z <-> exists X, pending_in n t X /\ Z ⊆ X) ->
  (forall Z, covers (⊆) (schemas bottoms) Z <-> exists X, pending_in n t X /\ X ⊆ Z) ->
  (forall c, c ∈ schemas tops -> pending_in n t (bitset c)) /\
  (forall c, c ∈ schemas bottoms -> pending_in n t (bitset c)).
Proof.
  intros [Hwt [_ Hat]] _ [Hwb [_ Hab]] _ Ht Hb. split; intros c Hc.
  - destruct (proj1 (Ht (bitset c))) as (X & HX & Hs); [by exists c|].
    destruct (proj2 (Ht X)) as (d & Hd & Hds); [by exists X|]. simpl in Hds.
    assert (c = d) as -> by (apply Hat; [done|done|set_solver]).
    by replace (bitset d) with X by set_solver.
  - destruct (proj1 (Hb (bitset c))) as (X & HX & Hs); [by exists c|].
    destruct (proj2 (Hb X)) as (d & Hd & Hds); [by exists X|].
    assert (d = c) as -> by (apply Hab; [done|done|set_solver]).
    by replace (bitset c) with X by set_solver.
Qed.

Lemma MSS_nonempty m : MSS_isEmpty m = false <-> exists c, c ∈ schemas m.
Proof.
  unfold MSS_isEmpty, MSS_size. destruct (schemas m) as [|c l]; simpl.
  - split; [done|]. intros (c & Hc). by apply not_elem_of_nil in Hc.
  - split; [|done]. intros _. exists c. left.
Qed.

(** One chain is searched, and its result marked. *)
Lemma TRT_round t t1 max min st :
  sound t -> same_but_flag t t1 -> wfS n max -> wfS n min -> bitset min ⊆ bitset max ->
  pending_in n t (bitset max) -> pending_in n t (bitset min) ->
  exists r st' t2, TRT_binarySearch MFS safeValues max min tfail st = Ok (r, st') /\ keeps st st' /\
    match r with
    | None => setHealthy (S n) max t1
    | Some s => setFaulty (S n) s t1
    end = Ok t2 /\ sound t2 /\ pending_count t2 < pending_count t.
Proof.
  intros Hs Hsame Hmax Hmin Hsub [Hmaxf Hpmax] [Hminf Hpmin].
  pose proof (sound_flag t t1 Hsame Hs) as Hs1.
  assert (Hh : forall X, Hm n t1 X <-> Hm n t X) by (intros; unfold Hm; by rewrite (sg_healthy _ _ Hsame)).
  assert (Hf : forall X, Fm n t1 X <-> Fm n t X) by (intros; unfold Fm; by rewrite (sg_faulty _ _ Hsame)).
  assert (Hgrows : grows n (TRT_chain_of max min) max min).
  { apply grows_ok; [done..|]. intros i. destruct Hmax as [-> _]. rewrite elem_of_seq. lia. }
  destruct (binarySearch_on_ok n MFS safeValues tfail TRT_chain_of max min st Hmax Hmin Hsub Hgrows)
    as (r & st' & E & Hk & _ & Hr).
  destruct r as [s|].
  - destruct Hr as (k & Hks & Hfs & _). destruct Hgrows as (_ & Hall & _).
    destruct (Hall s) as (Hws & Hms & Hsm); [by eapply list_elem_of_lookup_2|].
    pose proof (wfS_full n s Hws) as Hsf.
    destruct (setFaulty_ok n Hn t1 s (so_num _ Hs1) Hws) as (t2 & E2 & Hsame2 & Hiff);
      [intros X Y; apply (so_up _ Hs1)|].
    exists (Some s), st', t2. split_and!; [done|done|done|by apply (sound_setFaulty t1 t2 (bitset s))|].
    apply (pending_count_lt t t2 (bitset s)).
    + intros Y HY. unfold Hm. by rewrite (sf_healthy _ _ Hsame2), (sg_healthy _ _ Hsame).
    + intros Y HY HYf. apply Hiff; [done|]. left. by apply Hf.
    + done.
    + split.
      * intros Hx. by apply (so_healthy _ Hs (bitset s)).
      * intros Hx. apply (proj2 Hpmax). by apply (so_up _ Hs (bitset s)).
    + intros [_ Hx]. apply Hx, Hiff; [done|by right].
  - destruct (setHealthy_ok n Hn t1 max (so_num _ Hs1) Hmax) as (t2 & E2 & Hsame2 & Hiff);
      [intros X Y; apply (so_down _ Hs1)|].
    exists None, st', t2. split_and!; [done|done|done|by apply (sound_setHealthy t1 t2 (bitset max))|].
    apply (pending_count_lt t t2 (bitset max)).
    + intros Y HY HYh. apply Hiff; [done|]. left. by apply Hh.
    + intros Y HY. unfold Fm. by rewrite (sh_faulty _ _ Hsame2), (sg_faulty _ _ Hsame).
    + done.
    + done.
    + intros [Hx _]. apply Hx, Hiff; [done|by right].
Qed.

Lemma TRT_loop_ok fuel t st :
  sound t -> pending_count t < fuel ->
  exists t' st', TRT_loop MFS safeValues fuel t tfail st = Ok (t', st') /\ keeps st st' /\
    sound t' /\ (forall X, ~ pending_in n t' X) /\ Vm n t' (full n).
Proof.
  revert t st. induction fuel as [|fuel IH]; intros t st Hs Hfuel; [lia|]. cbn [TRT_loop].
  destruct (getTopSchemas_ok n Hn t (sound_marks t Hs)) as (t1 & tops & E1 & Hsame1 & Hwt & Hmt & HV & Hct).
  mstep ltac:(by apply lift_ok). cbv zeta.
  pose proof (sound_flag t t1 Hsame1 Hs) as Hs1.
  assert (Hpe : forall X, pending_in n t1 X <-> pending_in n t X).
  { intros X. unfold pending_in, pending_mark, Hm, Fm.
    by rewrite (sg_healthy _ _ Hsame1), (sg_faulty _ _ Hsame1). }
  destruct (MSS_isEmpty tops) eqn:Et.
  { exists t1, st. split_and!; [done|done|done| |done]. intros X HX%Hpe.
    destruct (proj2 (Hct X)) as (c & Hc & _); [by exists X|].
    assert (MSS_isEmpty tops = false) by (apply MSS_nonempty; eauto). congruence. }
  destruct (getBottomSchemas_ok n Hn t1 (sound_marks t1 Hs1)) as (t2 & bottoms & E2 & Hsame2 & Hwb & Hmb & Hcb).
  mstep ltac:(by apply lift_ok).
  assert (Hcb' : forall Z, covers (⊆) (schemas bottoms) Z <-> exists X, pending_in n t X /\ X ⊆ Z).
  { intros Z. rewrite Hcb. by setoid_rewrite Hpe. }
  destruct (pending_ends t tops bottoms Hwt Hmt Hwb Hmb Hct Hcb') as [Hpt Hpb].
  apply MSS_nonempty in Et as (top & Htop).
  destruct (proj2 (Hcb' (bitset top))) as (b & Hb & Hbt); [exists (bitset top); by split; [apply Hpt|]|].
  rewrite (proj2 (MSS_nonempty bottoms)) by eauto.
  destruct (getLongestChain_ok n tops bottoms Hwt Hwb) as (lc & E3 & Hlc);
    [intros E; rewrite E in Htop; by apply not_elem_of_nil in Htop
    |intros E; rewrite E in Hb; by apply not_elem_of_nil in Hb|].
  mstep ltac:(by apply lift_ok).
  destruct lc as [[max min]|]; [|by destruct (Hlc (top, b))].
  destruct Hlc as [(Hmax & Hmin & Hsub) _]. simpl in *.
  assert (Hsame : same_but_flag t t2).
  { destruct Hsame1, Hsame2. split; congruence. }
  destruct (TRT_round t t2 max min st) as (r & st1 & t3 & E4 & Hk1 & E5 & Hs3 & Hlt);
    [done|done|by apply Hwt|by apply Hwb|done|by apply Hpt|by apply Hpb|].
  mstep ltac:(done). rewrite (so_num _ Hs). mstep ltac:(by apply lift_ok).
  destruct (IH t3 st1 Hs3) as (t' & st' & E6 & Hk2 & Hpost); [lia|].
  exists t', st'. split_and!; [done|by eapply keeps_trans|apply Hpost..].
Qed.

(** The schemas that [getMFS] returns in the end: the minimal faulty ones,
    less the full one when its flag is left over. *)
Lemma getMFS_complete t :
  sound t -> (forall X, ~ pending_in n t X) -> Vm n t (full n) ->
  exists t' mfs, getMFS t = Ok (t', mfs) /\ (forall c, c ∈ schemas mfs -> wfS n c) /\
    forall c, wfS n c -> c ∈ schemas mfs <->
      (faulty (bitset c) /\ forall Y, faulty Y -> Y ⊆ bitset c -> Y = bitset c) /\
      ~ (6 <= n /\ bitset c = full n).
Proof.
  intros Hs Hdone HV.
  assert (HF : forall X, X ⊆ full n -> Fm n t X <-> faulty X).
  { intros X HX. split; [by apply (so_faulty _ Hs)|]. intros Hf.
    destruct (decide (Fm n t X)) as [|Hnf]; [done|]. exfalso. apply (Hdone X). split; [done|].
    split; [|done]. intros Hh. by apply (so_healthy _ Hs X). }
  destruct (getMFS_ok n Hn t (sound_marks t Hs)) as (t' & mfs & E & Hw & Hmin & Hc).
  exists t', mfs. split_and!; [done|apply Hw|]. intros c Hwc.
  pose proof (wfS_full n c Hwc) as Hcf.
  rewrite (antichain_minimal n); [|apply Hw..|done]. rewrite Hc. split.
  - intros [(X & (HX & HfX & HXc) & Hcase) Hm'].
    assert (Hcov : forall Y, faulty Y -> Y ⊆ bitset c -> covers (⊆) (schemas mfs) Y).
    { intros Y HY HYc. apply Hc. exists Y. split; [|done].
      assert (Y ⊆ full n) by set_solver. split_and!; [done|by apply HF|done]. }
    assert (HXc' : X = bitset c) by (apply Hm'; [apply Hcov; [by apply HF|done]|done]).
    subst X. split_and!; [by apply HF| |].
    + intros Y HY HYc. by apply Hm'; [apply Hcov|].
    + intros [H6 Hfull]. destruct Hcase as (Y & HY & HfY & Hne); [done|].
      apply Hne. rewrite <- Hfull. apply Hm'; [apply Hcov; [by apply HF|]|]; by rewrite Hfull.
  - intros [[Hf Hm'] Hnot]. split.
    + exists (bitset c). split; [split_and!; [done|by apply HF|done]|]. intros [H6 _].
      exists (bitset c). split_and!; [done|by apply HF|]. intros He. by apply Hnot.
    + intros Y (X & (HX & HfX & HXY) & _)%Hc HYc.
      assert (X = bitset c) by (apply Hm'; [by apply HF|set_solver]). set_solver.
Qed.
End run.

(** ** The whole run *)
Section conduct.
Context (n : nat) (Hn : n <= 30) (MFS : list Comb) (safeValues : Comb).
Context (FM : FaultModel n MFS safeValues).

(** [getMFS] misses the fault that consists of all parameters. *)
Definition reported (t c : Comb) : Prop :=
  minimal_fault MFS t c /\ ~ (6 <= n /\ params c = full n).

Lemma TRT_conduct_one_ok fuel t st :
  TestOf n t -> (exists m, fault_in MFS t m) -> TRT_fuel n <= fuel ->
  exists st', TRT_conduct_one MFS safeValues fuel t st = Ok (tt, st') /\
    conducted st' = conducted st /\
    forall c, c ∈ MFC_identified st' <-> c ∈ MFC_identified st \/ reported t c.
Proof using FM Hn.
  intros HT [m0 Hm0] Hfuel. unfold TRT_conduct_one. rewrite (to_length _ _ HT).
  mstep ltac:(by apply lift_ok, TRT_new_ok).
  set (O := checker_oracle n MFS safeValues t FM HT).
  assert (Hff : faulty (full n)).
  { exists m0. split; [done|]. apply subset_full. intros i.
    by apply (fault_bound n MFS safeValues FM t m0). }
  pose proof (sound_new n Hn MFS safeValues t Hff) as Hs0. set (t0 := MkTRT _ _ _ _ _) in *.
  destruct (TRT_loop_ok n Hn MFS safeValues t fuel t0 st Hs0) as (t' & st1 & E & [Hk1 Hk2] & Hs & Hdone & HV).
  { pose proof (pending_count_le n t0). unfold TRT_fuel in Hfuel. lia. }
  mstep ltac:(done).
  destruct (getMFS_complete n Hn MFS safeValues t t' Hs Hdone HV) as (t2 & mfs & E2 & Hw & Hmfs).
  mstep ltac:(by apply lift_ok).
  destruct (record_MFS_ok n MFS safeValues FM t HT (schemas mfs) st1) as (st2 & -> & Hcd & Hel).
  { intros s Hsin. pose proof (Hw s Hsin) as Hws. apply (Hmfs s Hws) in Hsin as [Hmin _].
    apply (minimal_faulty_iff n MFS safeValues FM t HT) in Hmin as (c & [Hc _] & He).
    exists c. split; [done|].
    apply (Schema_eq n); [done|apply Schema_ofComb_wf, (fm_length _ _ _ FM), Hc|done]. }
  exists st2. split_and!; [done|congruence|]. intros c. rewrite Hel, Hk1. unfold reported.
  assert (Hwc : fault_in MFS t c -> wfS n (Schema_ofComb c)).
  { intros [Hc _]. apply Schema_ofComb_wf. by apply (fm_length _ _ _ FM). }
  split; (intros [?|Hc]; [by left|right]).
  - destruct Hc as [Hc Hin]. apply Hmfs in Hin as [Hmin Hnot]; [|auto]. split; [|done].
    apply (minimal_faulty_iff n MFS safeValues FM t HT) in Hmin as (c' & Hc' & He).
    by rewrite (fault_inj n MFS safeValues FM t c c') by (done || apply Hc').
  - destruct Hc as [Hc Hnot]. destruct (Hc) as [Hcf _]. split; [done|]. apply Hmfs; [auto|].
    split; [|done]. apply (minimal_faulty_iff n MFS safeValues FM t HT). by exists c.
Qed.

Lemma TRT_with_safevalues_ok fuel Tfail st :
  (forall t, t ∈ Tfail -> TestOf n t /\ exists m, fault_in MFS t m) -> TRT_fuel n <= fuel ->
  exists st', TRT_with_safevalues MFS safeValues fuel Tfail st = Ok (tt, st') /\
    conducted st' = conducted st /\
    forall c, c ∈ MFC_identified st' <->
      c ∈ MFC_identified st \/ exists t, t ∈ Tfail /\ reported t c.
Proof using FM Hn.
  intros HT Hfuel. revert st. induction Tfail as [|t Tfail IH]; intros st; simpl.
  { exists st. split_and!; [done|done|]. set_solver. }
  destruct (HT t) as [Ht Hm]; [left|].
  destruct (TRT_conduct_one_ok fuel t st Ht Hm Hfuel) as (st1 & E & Hcd & Hel). mstep ltac:(done).
  destruct (IH ltac:(intros t' Ht'; apply HT; by right) st1) as (st' & -> & Hcd' & Hel').
  exists st'. split_and!; [done|congruence|]. intros c. rewrite Hel', Hel.
  setoid_rewrite elem_of_cons. naive_solver.
Qed.
End conduct.

(** C11. For at most 30 parameters the TRT resolver ends on failing test cases
    and reports their minimal faults, but from six parameters on never a fault
    that consists of all of them. *)
Theorem trt_reports n MFS safeValues fuel Tfail st :
  n <= 30 -> FaultModel n MFS safeValues ->
  (forall t, t ∈ Tfail -> TestOf n t /\ exists m, fault_in MFS t m) -> TRT_fuel n <= fuel ->
  conducted st = false -> MFC_identified st = [] ->
  exists st', TRT_conduct MFS (Some safeValues) fuel Tfail st = Ok (tt, st') /\
    forall c, c ∈ MFC_identified st' <->
      exists t, t ∈ Tfail /\ minimal_fault MFS t c /\ ~ (6 <= n /\ params c = full n).
Proof.
  intros Hn FM HT Hfuel Hcd Hid. unfold TRT_conduct. mstep ltac:(done). rewrite Hcd.
  mstep ltac:(done).
  destruct (TRT_with_safevalues_ok n Hn MFS safeValues FM fuel Tfail (set_conducted st) HT Hfuel)
    as (st' & -> & _ & Hel).
  exists st'. split; [done|]. intros c. rewrite Hel. simpl. rewrite Hid.
  pose proof (not_elem_of_nil c). unfold reported. tauto.
Qed.

(** The construction is refused from 31 parameters on, and [TRT] with it. *)
Theorem trt_too_large t Tfail :
  31 <= length t ->
  TRTFaultResolver_new (t :: Tfail) = Err UnsupportedOperation /\
  TRT_new (length t) = Err UnsupportedOperation.
Proof.
  intros Hl. assert (Hp : (2 ^ 31 <= 2 ^ Z.of_nat (length t))%Z) by (apply Z.pow_le_mono_r; lia).
  unfold TRTFaultResolver_new, TRT_new. change (2 ^ 31)%Z with 2147483648%Z in *.
  by rewrite (proj2 (Z.ltb_lt _ _)) by lia.
Qed.

(** ** Examples *)
Lemma trt_reports_witness :
  exists st', TRT_conduct ex_MFS (Some ex_safe) (TRT_fuel 3) ex_tests initial_state = Ok (tt, st') /\
    MFC_identified st' = ex_MFS.
Proof.
  destruct (trt_reports 3 ex_MFS ex_safe (TRT_fuel 3) ex_tests initial_state) as (st' & He & _).
  - lia.
  - exact ex_FaultModel.
  - exact ex_tests_ok.
  - apply le_n.
  - reflexivity.
  - reflexivity.
  - exists st'. split; [exact He|]. vm_compute in He. injection He as <-. reflexivity.
Defined.

(** Six parameters, and a fault of all of them. *)
Definition six_MFS : list Comb := [replicate 6 1%Z].
Definition six_safe : Comb := replicate 6 0%Z.

Lemma six_FaultModel : FaultModel 6 six_MFS six_safe.
Proof.
  split.
  - intros m Hm. unfold six_MFS in Hm. list_cases Hm; done.
  - intros m Hm. unfold six_MFS in Hm. list_cases Hm; by vm_compute.
  - done.
  - intros v Hv. unfold six_safe in Hv. simpl in Hv. list_cases Hv; tauto.
  - intros m i v s Hm Hv Hne Hs. unfold six_MFS in Hm. unfold six_safe in Hs. simpl in Hm, Hs.
    list_cases Hm; destruct i as [|[|[|[|[|[|i]]]]]]; simpl in *; simplify_eq; done.
Qed.

(** The flag of the full schema is not cleared when the bit set has no
    spare space ([flag.size() - 1]): with six parameters the fault of all
    parameters is in the test case, and TRT reports nothing where NoPend
    reports it. *)
Theorem trt_loses_full_fault :
  (exists st', TRT_conduct six_MFS (Some six_safe) (TRT_fuel 6) six_MFS initial_state = Ok (tt, st') /\
     MFC_identified st' = []) /\
  (exists st', conduct six_MFS (Some six_safe) (fun l => l) (identify_fuel 6) six_MFS initial_state
       = Ok (tt, st') /\ six_MFS ⊆ MFC_identified st') .
Proof.
  assert (HT : forall t, t ∈ six_MFS -> TestOf 6 t /\ exists m, fault_in six_MFS t m).
  { intros t Ht. unfold six_MFS in Ht. simpl in Ht. list_cases Ht.
    split; [split; [done|intros v Hv; list_cases Hv; tauto]|].
    exists (replicate 6 1%Z). split; [by left|done]. }
  split.
  - destruct (TRT_with_safevalues_ok 6 ltac:(lia) six_MFS six_safe six_FaultModel (TRT_fuel 6) six_MFS
      (set_conducted initial_state) HT (le_n _)) as (st' & He & _ & Hel).
    exists st'. split; [done|]. destruct (MFC_identified st') as [|c l] eqn:E; [done|]. exfalso.
    destruct (proj1 (Hel c)) as [Hc|(t & _ & [[Hc _] _] & Hnot)]; [left|by apply not_elem_of_nil in Hc|].
    apply Hnot. split; [lia|]. apply list_elem_of_singleton in Hc as ->.
    apply (bool_decide_unpack _). vm_compute. exact I.
  - destruct (conduct_with_safevalues_ok 6 six_MFS six_safe six_FaultModel (fun l => l) (identify_fuel 6)
      six_MFS (set_conducted initial_state)) as (st' & He & _ & Hel);
      [intros l; reflexivity|apply le_n|exact HT|intros m Hm; by apply not_elem_of_nil in Hm|].
    exists st'. split; [done|]. intros c Hc. apply Hel. right. exists c. split; [done|].
    apply list_elem_of_singleton in Hc as ->.
    split; [split; [by left|done]|]. intros m [Hm _] _. by apply list_elem_of_singleton in Hm.
Qed.
