(* ===== verification/Combs.v ===== *)
(** * Combinations of a test case, and the resolvers that go through all of them

    Models the rest of [Comb.java] and [Testcase.java], [n_choose_k] of
    [Util/Combinatorics.java], [ComFIL/ComFILFaultResolver.java],
    [IterAIFL/IterAIFL.java] and [IterAIFLFaultResolver.java].  A [HashSet] of
    combinations is a list without repetitions; where the code iterates over
    one, the order is a parameter.  [Combination.of] belongs to a library that
    is not in the repository; it is a parameter too ([Combinations]). *)
From S2P Require Import Prelude Schema NoPend Resolvers.

(** ** Comb and Testcase *)
Fixpoint set_indices (testcase : Comb) (indices : list nat) (elements : Comb) : res jexn Comb :=
  match indices with
  | [] => Ok elements
  | index :: indices' =>
      v ← elements_get testcase index;
      elements' ← MutableComb_set elements index v;
      set_indices testcase indices' elements'
  end.

Definition Comb_ofIndices (testcase : Comb) (indices : list nat) : res jexn Comb :=
  set_indices testcase indices (Comb_ofSize (length testcase)).

(** Between combinations of one class. *)
Definition Comb_equals (a b : Comb) : bool := bool_decide (a = b).

Fixpoint overlap_loop (a b : Comb) : Comb :=
  match a, b with
  | x :: a', y :: b' => (if (x =? y)%Z then x else UNKNOWN) :: overlap_loop a' b'
  | _, _ => []
  end.

Definition getOverlappingParts (a b : Comb) : res jexn Comb :=
  if negb (Nat.eqb (length a) (length b)) then Err IllegalArgument
  else Ok (overlap_loop a b).

(** [paddingWithSafeValues(comb, safeValues)]: a parameter without a safe value
    gets a random one; [random] gives the values that are drawn. *)
Fixpoint random_padding_loop (random : nat -> Z) (i : nat) (safeValues comb : list Z) :
    res jexn (list Z) :=
  match comb with
  | [] => Ok []
  | c :: comb' =>
      v ← (if (c =? UNKNOWN)%Z then
             match safeValues !! i with
             | None => Err IndexOutOfBounds
             | Some s => Ok (if (s =? UNKNOWN)%Z then random i else s)
             end
           else Ok c);
      rest ← random_padding_loop random (S i) safeValues comb';
      Ok (v :: rest)
  end.

Definition random_padding (random : nat -> Z) (comb safeValues : list Z) : res jexn Comb :=
  elements ← random_padding_loop random 0 safeValues comb;
  Comb_ofList elements.

(** [Combinatorics.n_choose_k]; [BigInteger.intValue] keeps the low 32 bits. *)
Definition choose_step (n : nat) (p : Z * Z) (i : nat) : Z * Z :=
  ((p.1 * (Z.of_nat n - Z.of_nat i + 1))%Z, (p.2 * Z.of_nat i)%Z).

Definition n_choose_k (n k : nat) : res jexn Z :=
  if Nat.eqb k 0 || Nat.eqb k n then Ok 1%Z
  else if Nat.ltb n k then Err IllegalArgument
  else
    let k' := if Nat.ltb (n / 2) k then n - k else k in
    let p := fold_left (choose_step n) (seq 1 k') (1, 1)%Z in
    Ok (jint (p.1 / p.2)).

(** [Combination.of(list, k)], iterated over *)
Class Combinations := Combination_of : list nat -> nat -> list (list nat).

(** It yields the subsets of [k] elements. *)
Class CombinationsLaws (C : Combinations) := {
  comb_sound : forall l k x, NoDup l -> 1 <= k <= length l -> x ∈ Combination_of l k ->
    length x = k /\ forall i, i ∈ x -> i ∈ l;
  comb_complete : forall l k (X : gset nat), NoDup l -> 1 <= k <= length l ->
    size X = k -> (forall i, i ∈ X -> i ∈ l) ->
    exists x, x ∈ Combination_of l k /\ list_to_set x = X
}.

Section power.
Context `{C : Combinations}.

(** [res.add(new Comb(this, combIndex))] for each [combIndex] *)
Fixpoint combs_of (t : Comb) (l : list (list nat)) : res jexn (list Comb) :=
  match l with
  | [] => Ok []
  | combIndex :: l' =>
      c ← Comb_ofIndices t combIndex;
      rest ← combs_of t l';
      Ok (c :: rest)
  end.

Definition tWayComb (t : Comb) (k : nat) : res jexn (list Comb) :=
  capacity ← n_choose_k (length t) k;
  if (capacity <? 0)%Z then Err IllegalArgument
  else combs_of t (Combination_of (seq 0 (length t)) k).

Fixpoint powerSet_loop (t : Comb) (ks : list nat) : res jexn (list Comb) :=
  match ks with
  | [] => Ok []
  | k :: ks' =>
      l ← tWayComb t k;
      rest ← powerSet_loop t ks';
      Ok (l ++ rest)
  end.

Definition powerSet (t : Comb) : res jexn (list Comb) := powerSet_loop t (seq 1 (length t)).
End power.

(** ** Hash sets of combinations *)
Definition addAll (set l : list Comb) : list Comb := fold_left (fun s c => hashset_add c s) l set.

Definition set_contains (set : list Comb) (c : Comb) : bool := existsb (Comb_equals c) set.

Fixpoint removeIf (p : Comb -> res jexn bool) (set : list Comb) : res jexn (list Comb) :=
  match set with
  | [] => Ok []
  | c :: set' =>
      b ← p c;
      rest ← removeIf p set';
      Ok (if (b : bool) then rest else c :: rest)
  end.

(** [set.removeIf(candidate -> Comb.contains(testcase, candidate))] *)
Definition remove_inside (testcase : Comb) (set : list Comb) : res jexn (list Comb) :=
  removeIf (fun candidate => contains testcase candidate) set.

(** [set.removeIf(e -> Comb.contains(e, comb) && !e.equals(comb))] *)
Definition remove_above (comb : Comb) (set : list Comb) : res jexn (list Comb) :=
  removeIf (fun e => b ← contains e comb; Ok (b && negb (Comb_equals e comb))) set.

Fixpoint addAll_powerSets `{C : Combinations} (Tfail : list Comb) (set : list Comb) :
    res jexn (list Comb) :=
  match Tfail with
  | [] => Ok set
  | tfail :: Tfail' => l ← powerSet tfail; addAll_powerSets Tfail' (addAll set l)
  end.

Fixpoint remove_passed (Tpass : list Comb) (set : list Comb) : res jexn (list Comb) :=
  match Tpass with
  | [] => Ok set
  | tpass :: Tpass' => set' ← remove_inside tpass set; remove_passed Tpass' set'
  end.

(** ** ComFIL *)
Section comfil.
Context `{C : Combinations}.
Variable MFS : list Comb.
Variable safeValues : Comb.
(** The random values of one check, and the order of a copy of a hash set. *)
Variable random : nat -> nat -> Z.
Variable hash_order : list Comb -> list Comb.

Definition random_check (comb : Comb) : M ResolverState jexn bool :=
  s ← getS;
  t ← lift (random_padding (random (checks s)) comb safeValues);
  result ← check MFS t;
  modS (record_comb result comb) ;;
  mret result.

Fixpoint comfil_loop (copy candidateSet : list Comb) : M ResolverState jexn (list Comb) :=
  match copy with
  | [] => mret candidateSet
  | comb :: copy' =>
      if negb (set_contains candidateSet comb) then comfil_loop copy' candidateSet
      else
        healthy ← random_check comb;
        candidateSet' ← lift (if (healthy : bool) then remove_inside comb candidateSet
                              else remove_above comb candidateSet);
        comfil_loop copy' candidateSet'
  end.

Definition comfil_with_safevalues (Tpass Tfail : list Comb) : M ResolverState jexn unit :=
  all ← lift (addAll_powerSets Tfail []);
  candidateSet ← lift (remove_passed Tpass all);
  result ← comfil_loop (hash_order candidateSet) candidateSet;
  modS (addAll_identified result).
End comfil.

Definition ComFIL_conduct `{C : Combinations} (MFS : list Comb) (safeValues : option Comb)
    (random : nat -> nat -> Z) (hash_order : list Comb -> list Comb) (Tpass Tfail : list Comb) :
    M ResolverState jexn unit :=
  s ← getS;
  if conducted s then mret tt
  else
    modS set_conducted ;;
    match safeValues with
    | None => throw RuntimeExc
    | Some sv => comfil_with_safevalues MFS sv random hash_order Tpass Tfail
    end.

(** ** IterAIFL *)
Section iteraifl.
Context `{C : Combinations}.
Variable MFS : list Comb.
Variable hash_order : list Comb -> list Comb.

(** Flip the parameters that [tway] has. *)
Fixpoint mutate_loop (tway : Comb) (ixs : list nat) (t : Comb) : res jexn Comb :=
  match ixs with
  | [] => Ok t
  | i :: ixs' =>
      v ← elements_get tway i;
      t' ← (if negb (v =? UNKNOWN)%Z then flip_elements t i else Ok t);
      mutate_loop tway ixs' t'
  end.

Fixpoint mutate_all (tfail : Comb) (twaySets : list Comb) : res jexn (list Comb) :=
  match twaySets with
  | [] => Ok []
  | tway :: twaySets' =>
      t ← Testcase_ofComb tfail;
      t' ← mutate_loop tway (seq 0 (length t)) t;
      t'' ← Testcase_ofComb t';
      rest ← mutate_all tfail twaySets';
      Ok (t'' :: rest)
  end.

Definition mutate (strength : nat) (tfail : Comb) : res jexn (list Comb) :=
  twaySets ← tWayComb tfail strength;
  mutate_all tfail twaySets.

Fixpoint getAT (strength : nat) (Tfail : list Comb) : res jexn (list Comb) :=
  match Tfail with
  | [] => Ok []
  | tfail :: Tfail' =>
      l ← mutate strength tfail;
      rest ← getAT strength Tfail';
      Ok (l ++ rest)
  end.

Fixpoint minimal_set_loop (faultyComb minimalSet : list Comb) : res jexn (list Comb) :=
  match faultyComb with
  | [] => Ok minimalSet
  | comb :: faultyComb' =>
      if negb (set_contains minimalSet comb) then minimal_set_loop faultyComb' minimalSet
      else
        minimalSet' ← remove_above comb minimalSet;
        minimal_set_loop faultyComb' minimalSet'
  end.

Definition getMinimal (faultyComb : list Comb) : res jexn (list Comb) :=
  minimal_set_loop (hash_order faultyComb) faultyComb.

Fixpoint run_tests (AT : list Comb) (suspiciousSet : list Comb) : M ResolverState jexn (list Comb) :=
  match AT with
  | [] => mret suspiciousSet
  | testcase :: AT' =>
      passed ← check MFS testcase;
      suspiciousSet' ← lift (if (passed : bool) then remove_inside testcase suspiciousSet
                             else Ok suspiciousSet);
      run_tests AT' suspiciousSet'
  end.

Fixpoint strengths_loop (Tfail : list Comb) (strengths : list nat) (suspiciousSet : list Comb) :
    M ResolverState jexn (list Comb) :=
  match strengths with
  | [] => mret suspiciousSet
  | i :: strengths' =>
      AT ← lift (getAT i Tfail);
      suspiciousSet' ← run_tests AT suspiciousSet;
      if Nat.eqb (length suspiciousSet') 0 then throw RuntimeExc
      else strengths_loop Tfail strengths' suspiciousSet'
  end.

Definition IterAIFL_conduct (Tpass Tfail : list Comb) : M ResolverState jexn unit :=
  s ← getS;
  if conducted s then mret tt
  else
    modS set_conducted ;;
    all ← lift (addAll_powerSets Tfail []);
    suspiciousSet ← lift (remove_passed Tpass all);
    match Tfail with
    | [] => throw NoSuchElement
    | first :: _ =>
        suspiciousSet' ← strengths_loop Tfail (seq 1 (length first - 1)) suspiciousSet;
        result ← lift (getMinimal suspiciousSet');
        modS (addAll_identified result)
    end.
End iteraifl.
