(* ===== verification/CombsProofs.v ===== *)
(** * Sets of combinations of test cases *)
From S2P Require Import Prelude Schema NoPend Resolvers ResolversProofs FinovlpProofs Combs.

Definition all_params (n : nat) : gset nat := set_seq 0 n.

Lemma all_params_bound n X : X ⊆ all_params n <-> forall i, i ∈ X -> i < n.
Proof.
  unfold all_params. split.
  - intros Hs i Hi%Hs%elem_of_set_seq. lia.
  - intros Hs i Hi%Hs. apply elem_of_set_seq. lia.
Qed.

(** ** [n_choose_k] is the binomial coefficient, in 32 bits *)
Fixpoint binom (n k : nat) : nat :=
  match n, k with
  | _, O => 1
  | O, S _ => 0
  | S n', S k' => binom n' k' + binom n' k
  end.

Fixpoint falling (n k : nat) : Z :=
  match k with O => 1 | S k' => falling n k' * (Z.of_nat n - Z.of_nat k') end.

Fixpoint factorial (k : nat) : Z :=
  match k with O => 1 | S k' => factorial k' * Z.of_nat (S k') end.

Lemma factorial_pos k : (0 < factorial k)%Z.
Proof. induction k; simpl factorial; lia. Qed.

Lemma falling_S n k : falling (S n) (S k) = (Z.of_nat (S n) * falling n k)%Z.
Proof.
  induction k as [|k IH]; [simpl; lia|].
  change (falling (S n) (S (S k))) with (falling (S n) (S k) * (Z.of_nat (S n) - Z.of_nat (S k)))%Z.
  rewrite IH. cbn [falling]. lia.
Qed.

Lemma binom_falling n k : (Z.of_nat (binom n k) * factorial k = falling n k)%Z.
Proof.
  revert k. induction n as [|n IH]; intros [|k]; [done| |done|].
  - cbn [binom]. induction k as [|k IHk]; [done|]. cbn [falling] in *. rewrite <- IHk. lia.
  - rewrite falling_S. cbn [binom]. rewrite Nat2Z.inj_add, Z.mul_add_distr_r, (IH (S k)).
    cbn [factorial falling]. rewrite Z.mul_assoc, (IH k). lia.
Qed.

Lemma falling_factorial n k : k <= n -> (falling n k * factorial (n - k) = factorial n)%Z.
Proof.
  induction k as [|k IH]; intros Hk; [rewrite Nat.sub_0_r; simpl falling; lia|].
  rewrite <- IH by lia. replace (n - k) with (S (n - S k)) by lia. cbn [falling factorial].
  replace (Z.of_nat (S (n - S k))) with (Z.of_nat n - Z.of_nat k)%Z by lia. ring.
Qed.

Lemma binom_sym n k : k <= n -> binom n (n - k) = binom n k.
Proof.
  intros Hk.
  assert (H1 := binom_falling n k). assert (H2 := binom_falling n (n - k)).
  assert (H3 := falling_factorial n k Hk). assert (H4 := falling_factorial n (n - k) ltac:(lia)).
  replace (n - (n - k)) with k in H4 by lia. rewrite <- H1 in H3. rewrite <- H2 in H4.
  pose proof (factorial_pos k). pose proof (factorial_pos (n - k)).
  apply Nat2Z.inj. apply (Z.mul_cancel_r _ _ (factorial k * factorial (n - k))); nia.
Qed.

Lemma choose_fold n k :
  fold_left (choose_step n) (seq 1 k) (1, 1)%Z = (falling n k, factorial k).
Proof.
  induction k as [|k IH]; [done|].
  rewrite seq_S, fold_left_app, IH. unfold choose_step. cbn [fold_left fst snd falling factorial Nat.add].
  f_equal; lia.
Qed.

(** The capacity that is asked for has not wrapped below zero. *)
Definition capacity_ok (n k : nat) : bool :=
  match n_choose_k n k with Ok v => (0 <=? v)%Z | _ => false end.

Lemma capacity_ok_spec n k : capacity_ok n k = true -> exists v, n_choose_k n k = Ok v /\ (0 <= v)%Z.
Proof.
  unfold capacity_ok. destruct (n_choose_k n k) as [v| |]; [|done..].
  intros Hv%Z.leb_le. by exists v.
Qed.

(** [n_choose_k] is the binomial coefficient reduced to 32 bits, and
    refuses [k] above [n]. *)
Theorem n_choose_k_correct n k :
  n_choose_k n k =
    if Nat.ltb n k then Err IllegalArgument else Ok (jint (Z.of_nat (binom n k))).
Proof.
  unfold n_choose_k.
  assert (Hnn : forall m, binom m m = 1 /\ forall j, m < j -> binom m j = 0).
  { induction m as [|m [IH1 IH2]]; [split; [done|intros [|j]; [lia|done]]|]. cbn [binom].
    split; [rewrite IH1, IH2; lia|]. intros [|j] Hj; [lia|]. rewrite !IH2; lia. }
  destruct (Nat.eqb_spec k 0) as [->|Hk0]; [by destruct n|].
  destruct (Nat.eqb_spec k n) as [->|Hkn].
  { simpl orb. rewrite Nat.ltb_irrefl. by rewrite (proj1 (Hnn n)). }
  simpl orb. destruct (Nat.ltb_spec n k) as [|Hle]; [done|].
  rewrite choose_fold. cbn [fst snd]. f_equal. f_equal.
  assert (Hq : forall j, (falling n j / factorial j = Z.of_nat (binom n j))%Z).
  { intros j. rewrite <- binom_falling. apply Z.div_mul. pose proof (factorial_pos j). lia. }
  rewrite Hq. destruct (n / 2 <? k); [|done]. by rewrite binom_sym by lia.
Qed.

(** ** Containment is an order on combinations of one length *)
Section order.
Context (n : nat).

Lemma contains_iff a b :
  length a = n -> length b = n ->
  contains_loop a b = true <-> forall i v, b !! i = Some v -> v <> UNKNOWN -> a !! i = Some v.
Proof. intros Ha Hb. apply contains_loop_spec. congruence. Qed.

Lemma contains_refl a : length a = n -> contains_loop a a = true.
Proof. intros Ha. by apply contains_iff. Qed.

Lemma contains_trans a b c :
  length a = n -> length b = n -> length c = n ->
  contains_loop a b = true -> contains_loop b c = true -> contains_loop a c = true.
Proof. intros Ha Hb Hc. rewrite !contains_iff by done. naive_solver. Qed.

Lemma contains_params a b :
  length a = n -> length b = n -> contains_loop a b = true -> params b ⊆ params a.
Proof.
  intros Ha Hb. rewrite contains_iff by done. intros Hc i (v & Hv & Hne)%elem_of_Schema_ofComb.
  apply elem_of_Schema_ofComb. eauto.
Qed.

Lemma contains_eq a b :
  length a = n -> length b = n -> contains_loop a b = true -> params a ⊆ params b -> a = b.
Proof.
  intros Ha Hb. rewrite contains_iff by done. intros Hc Hs. apply list_eq. intros i.
  destruct (decide (i < n)) as [Hi|Hi]; [|by rewrite !lookup_ge_None_2 by lia].
  destruct (lookup_lt_is_Some_2 a i) as [v Hv]; [lia|].
  destruct (lookup_lt_is_Some_2 b i) as [w Hw]; [lia|]. rewrite Hv, Hw. f_equal.
  destruct (decide (w = UNKNOWN)) as [->|Hne].
  - destruct (decide (v = UNKNOWN)) as [|Hv']; [done|].
    assert (i ∈ params b) as (w & Hw' & Hn)%elem_of_Schema_ofComb.
    { apply Hs, elem_of_Schema_ofComb. eauto. }
    by simplify_eq.
  - specialize (Hc i w Hw Hne). by simplify_eq.
Qed.

Lemma contains_anti a b :
  length a = n -> length b = n -> contains_loop a b = true -> contains_loop b a = true -> a = b.
Proof. intros Ha Hb H1 H2. apply contains_eq; [done..|]. by apply contains_params. Qed.

(** ** The least members of a set that satisfy an upward closed property *)
Context (members : list Comb) (Q : Comb -> bool).
Context (Hlen : forall c, c ∈ members -> length c = n).
Context (HQ : forall a b, a ∈ members -> b ∈ members -> contains_loop a b = true ->
  Q b = true -> Q a = true).

Definition least (c : Comb) : Prop :=
  (c ∈ members /\ Q c = true) /\
  forall d, d ∈ members -> Q d = true -> contains_loop c d = true -> d = c.

Lemma least_below c :
  c ∈ members -> Q c = true -> exists d, least d /\ contains_loop c d = true.
Proof using Hlen.
  remember (size (params c)) as k eqn:Ek. revert c Ek.
  induction (lt_wf k) as [k _ IH]. intros c -> Hc Hq.
  destruct (decide (Exists (fun d => (Q d = true /\ contains_loop c d = true) /\ d <> c) members)) as [He|Hne].
  - apply Exists_exists in He as (d & Hd & [Hqd Hcd] & Hdc).
    destruct (IH (size (params d))) with (c := d) as (e & He & Hde); [|done..|].
    + apply subset_size. split; [by apply contains_params; auto|]. intros Hs. apply Hdc.
      symmetry. by apply contains_eq; auto.
    + exists e. split; [done|]. apply (contains_trans c d e); auto. apply Hlen, He.
  - exists c. split; [|by apply contains_refl; auto]. split; [done|]. intros d Hd Hqd Hcd.
    destruct (decide (d = c)) as [|Hdc]; [done|]. exfalso. apply Hne, Exists_exists. by exists d.
Qed.

(** What a loop over the members keeps: [todo] are those to come. *)
Record least_inv (todo cand : list Comb) : Prop := {
  lv_sub : forall c, c ∈ cand -> c ∈ members;
  lv_least : forall c, least c -> c ∈ cand;
  lv_good : forall c, c ∈ cand -> c ∉ todo -> Q c = true;
  lv_above : forall d c, least d -> d ∉ todo -> c ∈ cand -> contains_loop c d = true -> c = d
}.

Lemma least_inv_start : least_inv members members.
Proof using. split; [done|unfold least; tauto|done|]. intros d c [[Hd _] _] Hn. done. Qed.

Lemma least_inv_skip c todo cand :
  c ∉ cand -> least_inv (c :: todo) cand -> least_inv todo cand.
Proof using.
  intros Hc [H1 H2 H3 H4]. split; [done|done|..].
  - intros d Hd Hn. apply H3; [done|]. rewrite not_elem_of_cons. split; [|done]. by intros ->.
  - intros d e Hd Hn. apply H4; [done|]. rewrite not_elem_of_cons. split; [|done].
    intros ->. by apply Hc, H2.
Qed.

Lemma least_inv_inside c todo cand :
  c ∈ members -> Q c = false -> least_inv (c :: todo) cand ->
  least_inv todo (filter (fun e => contains_loop c e = false) cand).
Proof using Hlen HQ.
  intros Hc Hq [H1 H2 H3 H4]. split.
  - intros e [_ He]%list_elem_of_filter. auto.
  - intros e He. apply list_elem_of_filter. split; [|auto].
    apply not_true_is_false. intros Hce. destruct He as [[Hem Hqe] _].
    assert (Q c = true) by by apply (HQ c e). congruence.
  - intros e [Hce He]%list_elem_of_filter Hn. apply H3; [done|]. rewrite not_elem_of_cons.
    split; [|done]. intros ->. rewrite contains_refl in Hce by auto. done.
  - intros d e Hd Hn [_ He]%list_elem_of_filter. apply H4; [done| |done].
    rewrite not_elem_of_cons. split; [|done]. intros ->. destruct Hd as [[_ Hqd] _]. congruence.
Qed.

Lemma least_inv_above c todo cand :
  c ∈ members -> Q c = true -> least_inv (c :: todo) cand ->
  least_inv todo (filter (fun e => contains_loop e c && negb (Comb_equals e c) = false) cand).
Proof using.
  intros Hc Hq [H1 H2 H3 H4]. unfold Comb_equals. split.
  - intros e [_ He]%list_elem_of_filter. auto.
  - intros e He. apply list_elem_of_filter. split; [|auto].
    destruct (contains_loop e c) eqn:E; [|done]. destruct He as [_ He].
    rewrite (He c Hc Hq E). by rewrite bool_decide_true.
  - intros e [_ He]%list_elem_of_filter Hn. destruct (decide (e = c)) as [->|]; [done|].
    apply H3; [done|]. by rewrite not_elem_of_cons.
  - intros d e Hd Hn [Hf He]%list_elem_of_filter Hcd. destruct (decide (d = c)) as [->|].
    + rewrite Hcd in Hf. simpl in Hf. apply negb_false_iff, bool_decide_eq_true in Hf. done.
    + apply H4; [done| |done|done]. by rewrite not_elem_of_cons.
Qed.

Lemma least_inv_end cand c : least_inv [] cand -> c ∈ cand <-> least c.
Proof using Hlen.
  intros [H1 H2 H3 H4]. split; [|apply H2]. intros Hc.
  assert (Hnil : forall d : Comb, d ∉ []) by (intros; apply not_elem_of_nil).
  assert (Hq : Q c = true) by (apply H3; [done|apply Hnil]).
  split; [auto|]. intros d Hd Hqd Hcd.
  destruct (least_below d Hd Hqd) as (e & He & Hde).
  assert (Hel : length e = n) by (apply Hlen, He).
  assert (Hce : contains_loop c e = true) by (apply (contains_trans c d e); auto).
  rewrite (H4 e c He (Hnil e) Hc Hce) in *. apply contains_anti; auto.
Qed.
End order.

(** ** Hash sets *)
Lemma addAll_elem l set c : c ∈ addAll set l <-> c ∈ set \/ c ∈ l.
Proof.
  unfold addAll. revert set. induction l as [|a l IH]; intros set; simpl; [set_solver|].
  rewrite IH, hashset_add_elem, elem_of_cons. tauto.
Qed.

Lemma set_contains_spec set c : set_contains set c = bool_decide (c ∈ set).
Proof.
  apply eq_true_iff_eq. unfold set_contains, Comb_equals.
  rewrite existsb_exists, bool_decide_eq_true. split.
  - intros (d & Hd & He%bool_decide_eq_true). subst. by apply list_elem_of_In.
  - intros Hc%list_elem_of_In. exists c. by rewrite bool_decide_true.
Qed.

Lemma removeIf_ok p q l :
  (forall c, c ∈ l -> p c = Ok (q c)) -> removeIf p l = Ok (filter (fun c => q c = false) l).
Proof.
  induction l as [|c l IH]; intros Hp; simpl; [done|].
  rewrite Hp by left. simpl. rewrite IH by (intros; apply Hp; by right). simpl.
  rewrite filter_cons. destruct (decide (q c = false)) as [E|E].
  - by rewrite E.
  - apply not_false_is_true in E. by rewrite E.
Qed.

Section sets.
Context (n : nat).

Lemma remove_inside_ok t l :
  length t = n -> (forall c, c ∈ l -> length c = n) ->
  remove_inside t l = Ok (filter (fun c => contains_loop t c = false) l).
Proof.
  intros Ht Hl. apply removeIf_ok. intros c Hc. apply contains_ok. by rewrite (Hl c).
Qed.

Lemma remove_above_ok c l :
  length c = n -> (forall d, d ∈ l -> length d = n) ->
  remove_above c l = Ok (filter (fun e => contains_loop e c && negb (Comb_equals e c) = false) l).
Proof.
  intros Hc Hl. apply (removeIf_ok _ (fun e => contains_loop e c && negb (Comb_equals e c))).
  intros d Hd. by rewrite contains_ok by (rewrite (Hl d Hd); done).
Qed.

Lemma remove_passed_ok Tpass l :
  (forall t, t ∈ Tpass -> length t = n) -> (forall c, c ∈ l -> length c = n) ->
  exists l', remove_passed Tpass l = Ok l' /\
    forall c, c ∈ l' <-> c ∈ l /\ forall t, t ∈ Tpass -> contains_loop t c = false.
Proof.
  revert l. induction Tpass as [|t Tpass IH]; intros l Ht Hl; simpl.
  { exists l. split; [done|]. intros c. split; [|tauto]. intros Hc. split; [done|].
    intros t Htn. by apply not_elem_of_nil in Htn. }
  rewrite remove_inside_ok by (auto; apply Ht; left). simpl.
  destruct (IH (filter (fun c => contains_loop t c = false) l)) as (l' & -> & Hel).
  - intros t' Ht'. apply Ht. by right.
  - intros c [_ Hc]%list_elem_of_filter. auto.
  - exists l'. split; [done|]. intros c. rewrite Hel, list_elem_of_filter.
    setoid_rewrite elem_of_cons. naive_solver.
Qed.

(** ** Combinations of a test case *)
Definition sub_comb (t c : Comb) : Prop :=
  exists X, (X ⊆ all_params n /\ X <> ∅) /\ comb_of n X t c.

Lemma comb_of_unique X t c c' : comb_of n X t c -> comb_of n X t c' -> c = c'.
Proof.
  intros [Hl Hc] [Hl' Hc']. apply list_eq. intros i. destruct (decide (i < n)).
  - by rewrite Hc, Hc'.
  - by rewrite !lookup_ge_None_2 by lia.
Qed.

Lemma comb_of_exists X t : length t = n -> X ⊆ all_params n -> exists c, comb_of n X t c.
Proof.
  intros Ht HX. assert (Hw : wfS n (MkSchema X n)) by (split; [done|]; by apply all_params_bound).
  destruct (getComb_ok n _ t Hw Ht) as (c & Hg & Hc). by exists c.
Qed.

Lemma comb_of_ext X Y t c : (forall i, i < n -> i ∈ X <-> i ∈ Y) -> comb_of n X t c -> comb_of n Y t c.
Proof.
  intros HXY [Hl Hc]. split; [done|]. intros i Hi. rewrite Hc by done.
  specialize (HXY i Hi). by do 2 destruct (decide _); try tauto.
Qed.

Lemma set_indices_ok t ixs X e :
  TestOf n t -> (forall i, i ∈ ixs -> i < n) -> comb_of n X t e ->
  exists c, set_indices t ixs e = Ok c /\ comb_of n (list_to_set ixs ∪ X) t c.
Proof.
  intros HT. revert X e. induction ixs as [|i ixs IH]; intros X e Hixs He; simpl.
  { exists e. split; [done|]. apply (comb_of_ext X); [set_solver|done]. }
  assert (Hi : i < n) by (apply Hixs; left).
  destruct (TestOf_lookup n t i HT Hi) as (v & Hv & _). unfold elements_get. rewrite Hv. simpl.
  destruct (comb_of_set n X t e i v He Hv Hi) as [-> He']. simpl.
  destruct (IH _ _ ltac:(intros j Hj; apply Hixs; by right) He') as (c & -> & Hc).
  exists c. split; [done|]. apply (comb_of_ext (list_to_set ixs ∪ ({[i]} ∪ X))); [set_solver|done].
Qed.

Lemma Comb_ofIndices_ok t ixs :
  TestOf n t -> (forall i, i ∈ ixs -> i < n) ->
  exists c, Comb_ofIndices t ixs = Ok c /\ comb_of n (list_to_set ixs) t c.
Proof.
  intros HT Hixs. unfold Comb_ofIndices, Comb_ofSize. rewrite (to_length _ _ HT).
  destruct (set_indices_ok t ixs ∅ (replicate n UNKNOWN) HT Hixs) as (c & -> & Hc).
  - split; [by rewrite length_replicate|]. intros i Hi. rewrite lookup_replicate_2 by done.
    by rewrite decide_False by set_solver.
  - exists c. split; [done|]. apply (comb_of_ext (list_to_set ixs ∪ ∅)); [set_solver|done].
Qed.

Lemma combs_of_ok t l :
  TestOf n t -> (forall x i, x ∈ l -> i ∈ x -> i < n) ->
  exists cs, combs_of t l = Ok cs /\
    forall c, c ∈ cs <-> exists x, x ∈ l /\ comb_of n (list_to_set x) t c.
Proof.
  intros HT. induction l as [|x l IH]; intros Hl; simpl.
  { exists []. split; [done|]. intros c. set_solver. }
  destruct (Comb_ofIndices_ok t x HT) as (c & -> & Hc); [intros i; apply Hl; left|]. simpl.
  destruct IH as (cs & -> & Hcs); [intros y i Hy; apply Hl; by right|]. simpl.
  exists (c :: cs). split; [done|]. intros d. rewrite elem_of_cons, Hcs.
  setoid_rewrite elem_of_cons. split.
  - intros [->|(y & ? & ?)]; [exists x; auto|exists y; auto].
  - intros (y & [->|Hy] & Hd); [left; by eapply comb_of_unique|right; by exists y].
Qed.

Context {C : Combinations} {L : CombinationsLaws C}.

Lemma tWayComb_capacity t k v :
  TestOf n t -> 1 <= k <= n -> n_choose_k n k = Ok v -> (0 <= v)%Z ->
  exists cs, tWayComb t k = Ok cs /\ (forall c, c ∈ cs -> sub_comb t c) /\
    forall X c, X ⊆ all_params n -> size X = k -> comb_of n X t c -> c ∈ cs.
Proof using L.
  intros HT Hk Hcap Hv. unfold tWayComb. rewrite (to_length _ _ HT).
  rewrite Hcap. simpl. rewrite (proj2 (Z.ltb_ge _ _)) by lia.
  assert (Hk' : 1 <= k <= length (seq 0 n)) by (rewrite length_seq; lia).
  destruct (combs_of_ok t (Combination_of (seq 0 n) k) HT) as (cs & -> & Hcs).
  { intros x i Hx Hi. apply (comb_sound _ _ _ (NoDup_seq 0 n) Hk') in Hx as [_ Hx].
    apply Hx, elem_of_seq in Hi. lia. }
  exists cs. split_and!; [done| |].
  - intros c (x & Hx & Hc)%Hcs. exists (list_to_set x). split; [|done].
    apply (comb_sound _ _ _ (NoDup_seq 0 n) Hk') in Hx as [Hlx Hx]. split.
    + apply all_params_bound. intros i Hi%elem_of_list_to_set. apply Hx, elem_of_seq in Hi. lia.
    + destruct x as [|i x]; [simpl in Hlx; lia|]. set_solver.
  - intros X c HX Hs Hc. apply Hcs.
    destruct (comb_complete (seq 0 n) k X (NoDup_seq 0 n) Hk' Hs) as (x & Hx & Hxs).
    { intros i Hi. rewrite all_params_bound in HX. specialize (HX i Hi). apply elem_of_seq. lia. }
    exists x. by rewrite Hxs.
Qed.

Context (Hn : n <= 33).

(** The capacity that is asked for does not overflow. *)
Lemma n_choose_k_ok k : 1 <= k <= n -> exists v, n_choose_k n k = Ok v /\ (0 <= v)%Z.
Proof using Hn.
  intros Hk. assert (Hall : forallb (fun m => forallb (capacity_ok m) (seq 1 m)) (seq 0 34) = true) by by vm_compute.
  rewrite forallb_forall in Hall. specialize (Hall n).
  rewrite forallb_forall in Hall. specialize (Hall ltac:(rewrite <- list_elem_of_In, elem_of_seq; lia) k).
  apply capacity_ok_spec, Hall. rewrite <- list_elem_of_In, elem_of_seq. lia.
Qed.

Lemma tWayComb_ok t k :
  TestOf n t -> 1 <= k <= n ->
  exists cs, tWayComb t k = Ok cs /\ (forall c, c ∈ cs -> sub_comb t c) /\
    forall X c, X ⊆ all_params n -> size X = k -> comb_of n X t c -> c ∈ cs.
Proof using Hn L.
  intros HT Hk. destruct (n_choose_k_ok k Hk) as (v & Hcap & Hv). by eapply tWayComb_capacity.
Qed.

Lemma powerSet_loop_ok t ks :
  TestOf n t -> (forall k, k ∈ ks -> 1 <= k <= n) ->
  exists cs, powerSet_loop t ks = Ok cs /\ (forall c, c ∈ cs -> sub_comb t c) /\
    forall X c, X ⊆ all_params n -> size X ∈ ks -> comb_of n X t c -> c ∈ cs.
Proof using Hn L.
  intros HT. induction ks as [|k ks IH]; intros Hks; simpl.
  { exists []. split_and!; [done|intros c Hc; by apply not_elem_of_nil in Hc|].
    intros X c _ Hk. by apply not_elem_of_nil in Hk. }
  destruct (tWayComb_ok t k HT) as (c1 & -> & Hs1 & Hc1); [apply Hks; left|]. simpl.
  destruct IH as (c2 & -> & Hs2 & Hc2); [intros; apply Hks; by right|]. simpl.
  exists (c1 ++ c2). split_and!; [done| |].
  - intros c [?|?]%elem_of_app; auto.
  - intros X c HX [Hk|Hk]%elem_of_cons Hc; apply elem_of_app; [left|right]; eauto.
Qed.

Lemma powerSet_ok t :
  TestOf n t -> exists cs, powerSet t = Ok cs /\ forall c, c ∈ cs <-> sub_comb t c.
Proof using Hn L.
  intros HT. unfold powerSet. rewrite (to_length _ _ HT).
  destruct (powerSet_loop_ok t (seq 1 n) HT) as (cs & -> & Hs & Hc).
  { intros k Hk%elem_of_seq. lia. }
  exists cs. split; [done|]. intros c. split; [apply Hs|]. intros (X & [HX Hne] & HXc).
  apply (Hc X); [done| |done]. apply elem_of_seq.
  assert (size X <> 0) by (intros E%size_empty_inv; apply Hne; set_solver).
  apply subseteq_size in HX. unfold all_params in HX. rewrite size_set_seq in HX. lia.
Qed.

Lemma addAll_powerSets_ok Tfail set :
  (forall t, t ∈ Tfail -> TestOf n t) ->
  exists all, addAll_powerSets Tfail set = Ok all /\
    forall c, c ∈ all <-> c ∈ set \/ exists t, t ∈ Tfail /\ sub_comb t c.
Proof using Hn L.
  revert set. induction Tfail as [|t Tfail IH]; intros set HT; simpl.
  { exists set. split; [done|]. set_solver. }
  destruct (powerSet_ok t) as (cs & -> & Hcs); [apply HT; left|]. simpl.
  destruct (IH (addAll set cs)) as (all & -> & Hall); [intros; apply HT; by right|].
  exists all. split; [done|]. intros c. rewrite Hall, addAll_elem, Hcs.
  setoid_rewrite elem_of_cons. naive_solver.
Qed.
End sets.

(** From 34 parameters on the capacity that [tWayComb] asks for can be negative:
    at 34 it is for the subsets of 16, and [new ArrayList] throws. *)
Lemma powerSet_loop_throws {C : Combinations} {L : CombinationsLaws C} n t ks ks' k v :
  TestOf n t ->
  (forall k, k ∈ ks -> 1 <= k <= n /\ exists v, n_choose_k n k = Ok v /\ (0 <= v)%Z) ->
  n_choose_k n k = Ok v -> (v < 0)%Z ->
  powerSet_loop t (ks ++ k :: ks') = Err IllegalArgument.
Proof.
  intros HT Hks Hcap Hv. induction ks as [|k0 ks IH]; simpl.
  - unfold tWayComb. rewrite (to_length _ _ HT), Hcap. simpl.
    by rewrite (proj2 (Z.ltb_lt _ _)).
  - destruct (Hks k0) as (Hk0 & v0 & Hcap0 & Hv0); [left|].
    destruct (tWayComb_capacity n t k0 v0 HT Hk0 Hcap0 Hv0) as (cs & -> & _). simpl.
    rewrite IH; [done|]. intros k1 Hk1. apply Hks. by right.
Qed.

Lemma powerSet_throws_34 {C : Combinations} {L : CombinationsLaws C} t :
  TestOf 34 t -> powerSet t = Err IllegalArgument.
Proof.
  intros HT. unfold powerSet. rewrite (to_length _ _ HT).
  assert (Hc : n_choose_k 34 16 = Ok (-2091005866)%Z) by (vm_compute; reflexivity).
  apply (powerSet_loop_throws 34 t (seq 1 15) (seq 17 18) 16 (-2091005866)%Z HT); [|exact Hc|done].
  assert (Hall : forallb (capacity_ok 34) (seq 1 15) = true) by by vm_compute.
  rewrite forallb_forall in Hall. intros k Hk. split; [apply elem_of_seq in Hk; lia|].
  apply capacity_ok_spec, Hall. by apply list_elem_of_In.
Qed.
