(* ===== verification/CombsTheorems.v ===== *)
(** * What ComFIL and IterAIFL report *)
From S2P Require Import Prelude Schema NoPend Resolvers ResolversProofs FinovlpProofs Combs CombsProofs.
From S2P Require Import ResolversTheorems.

(** A combination that contains a fault. *)
Definition bad (MFS : list Comb) (c : Comb) : bool := existsb (contains_loop c) MFS.

Lemma bad_spec MFS c : bad MFS c = true <-> exists m, m ∈ MFS /\ contains_loop c m = true.
Proof.
  unfold bad. rewrite existsb_exists. split; intros (m & Hm & Hc); exists m.
  - by rewrite list_elem_of_In.
  - by rewrite <- list_elem_of_In.
Qed.

(** Failing and passing test cases of a system with [n] parameters. *)
Record Tests (n : nat) (MFS Tpass Tfail : list Comb) : Prop := {
  ts_fail : forall t, t ∈ Tfail -> TestOf n t /\ exists m, fault_in MFS t m;
  ts_pass : forall t, t ∈ Tpass -> TestOf n t /\ passes MFS t
}.

Section common.
Context (n : nat) (MFS Tpass Tfail : list Comb).
Context (Hlen : forall m, m ∈ MFS -> length m = n).
Context (Hne : forall m, m ∈ MFS -> params m <> ∅).
Context (TS : Tests n MFS Tpass Tfail).

Lemma sub_comb_length t c : sub_comb n t c -> length c = n.
Proof using. by intros (X & _ & [? _]). Qed.

Lemma sub_comb_contains t c : TestOf n t -> sub_comb n t c -> contains_loop t c = true.
Proof using.
  intros HT (X & _ & [Hl Hc]). apply (contains_iff n); [apply HT|done|].
  intros i v Hv Hnu. assert (i < n) by (apply lookup_lt_Some in Hv; lia).
  rewrite Hc in Hv by done. destruct (decide (i ∈ X)); [done|]. congruence.
Qed.

(** A fault of a test case is one of its combinations. *)
Lemma fault_sub_comb t m : TestOf n t -> fault_in MFS t m -> sub_comb n t m.
Proof using Hlen Hne.
  clear TS Tpass Tfail. intros HT [Hm Hc]. pose proof (Hlen m Hm) as Hl. rewrite (contains_iff n) in Hc by (done || apply HT).
  exists (params m). split; [split; [|by apply Hne]|].
  - apply all_params_bound. intros i (v & Hv & _)%elem_of_Schema_ofComb. apply lookup_lt_Some in Hv. lia.
  - split; [done|]. intros i Hi. destruct (lookup_lt_is_Some_2 m i) as [v Hv]; [lia|].
    destruct (decide (i ∈ params m)) as [Hin|Hout]; rewrite Hv.
    + apply elem_of_Schema_ofComb in Hin as (w & Hw & Hnu). simplify_eq. symmetry. by apply Hc.
    + f_equal. destruct (decide (v = UNKNOWN)); [done|]. exfalso. apply Hout, elem_of_Schema_ofComb. eauto.
Qed.

(** The set both resolvers start from. *)
Definition starts (S : list Comb) : Prop :=
  forall c, c ∈ S <-> (exists t, t ∈ Tfail /\ sub_comb n t c) /\
    forall t, t ∈ Tpass -> contains_loop t c = false.

Lemma starts_length S c : starts S -> c ∈ S -> length c = n.
Proof using. intros HS [(t & _ & Hs) _]%HS. by eapply sub_comb_length. Qed.

Lemma bad_up a b :
  length a = n -> length b = n -> contains_loop a b = true -> bad MFS b = true -> bad MFS a = true.
Proof using Hlen.
  intros Ha Hb Hab. rewrite !bad_spec. intros (m & Hm & Hc). exists m. split; [done|].
  apply (contains_trans n a b m); auto.
Qed.

(** The least bad members are the minimal faults of the test cases. *)
Lemma least_bad_iff S c :
  starts S ->
  least S (bad MFS) c <-> exists t, t ∈ Tfail /\ minimal_fault MFS t c.
Proof using Hlen Hne TS.
  intros HS. assert (Hfm : forall t m, t ∈ Tfail -> fault_in MFS t m -> m ∈ S /\ bad MFS m = true).
  { intros t m Ht Hf. destruct (ts_fail _ _ _ _ TS t Ht) as [HT _]. split.
    - apply HS. split; [exists t; split; [done|by apply fault_sub_comb]|].
      intros p Hp. apply (proj2 (ts_pass _ _ _ _ TS p Hp)), Hf.
    - apply bad_spec. exists m. split; [apply Hf|]. apply (contains_refl n), Hlen, Hf. }
  assert (Hsub : forall t a m, t ∈ Tfail -> sub_comb n t a -> m ∈ MFS -> contains_loop a m = true ->
    fault_in MFS t m).
  { intros t a m Ht Ha Hm Ham. destruct (ts_fail _ _ _ _ TS t Ht) as [HT _]. split; [done|].
    apply (contains_trans n t a m); [apply HT|by eapply sub_comb_length|by apply Hlen| |done].
    by apply sub_comb_contains. }
  split.
  - intros [[HcS Hb] Hmin]. pose proof (starts_length S c HS HcS) as Hcl.
    apply HS in HcS as [(t & Ht & Hs) _].
    apply bad_spec in Hb as (m & Hm & Hcm).
    pose proof (Hsub t c m Ht Hs Hm Hcm) as Hf.
    destruct (Hfm t m Ht Hf) as [HmS Hmb]. rewrite (Hmin m HmS Hmb Hcm) in *.
    exists t. split; [done|]. split; [done|]. intros m' Hf' Hps.
    destruct (Hfm t m' Ht Hf') as [HmS' Hmb']. apply Hmin; [done|done|].
    destruct Hf as [_ Hc]. destruct Hf' as [Hm' Hc'].
    destruct (ts_fail _ _ _ _ TS t Ht) as [HT _].
    rewrite (contains_iff n) in Hc, Hc' |- * by (apply HT || auto).
    intros i v Hv Hnu. assert (i ∈ params c) as (w & Hw & Hnw)%elem_of_Schema_ofComb.
    { apply Hps, elem_of_Schema_ofComb. eauto. }
    rewrite Hw. by rewrite <- (Hc' i v Hv Hnu), <- (Hc i w Hw Hnw).
  - intros (t & Ht & [Hf Hmin]). split; [by apply (Hfm t)|].
    intros d Hd Hdb Hcd. pose proof (starts_length S d HS Hd) as Hdl.
    assert (Hcl : length c = n) by apply Hlen, Hf.
    apply bad_spec in Hdb as (m & Hm & Hdm).
    assert (Hcm : contains_loop c m = true) by (apply (contains_trans n c d m); auto).
    assert (Hmf : fault_in MFS t m).
    { apply (Hsub t c m Ht); [|done|done]. apply fault_sub_comb; [by apply (ts_fail _ _ _ _ TS)|done]. }
    assert (m = c) as ->.
    { apply Hmin; [done|]. apply (contains_params n); auto. }
    apply (contains_anti n); auto.
Qed.

Context {C : Combinations} {L : CombinationsLaws C} (Hn : n <= 33).

Lemma starts_ok :
  exists all S, addAll_powerSets Tfail [] = Ok all /\ remove_passed Tpass all = Ok S /\ starts S.
Proof using TS L Hn.
  destruct (addAll_powerSets_ok n Hn Tfail []) as (all & -> & Hall);
    [intros; by apply (ts_fail _ _ _ _ TS)|].
  destruct (remove_passed_ok n Tpass all) as (S & E & HS).
  - intros t Ht. by apply (ts_pass _ _ _ _ TS).
  - intros c [Hc|(t & _ & Hc)]%Hall; [by apply not_elem_of_nil in Hc|by eapply sub_comb_length].
  - exists all, S. split_and!; [done|done|]. intros c. rewrite HS, Hall.
    pose proof (not_elem_of_nil c). tauto.
Qed.
End common.

(** ** ComFIL *)
Section comfil.
Context (n : nat) (MFS : list Comb) (safeValues : Comb).
Context (FM : FaultModel n MFS safeValues).
Context (random : nat -> nat -> Z) (Hrandom : forall k i, random k i = 0%Z \/ random k i = 1%Z).

(** A combination with values of the system. *)
Definition comb_values (c : Comb) : Prop :=
  length c = n /\ forall v, v ∈ c -> v = UNKNOWN \/ v = 0%Z \/ v = 1%Z.

Lemma random_padding_loop_ok f k sv c :
  k + length c <= length sv ->
  exists p, random_padding_loop f k sv c = Ok p /\ length p = length c /\
    forall i v s, c !! i = Some v -> sv !! (k + i) = Some s ->
      p !! i = Some (if (v =? UNKNOWN)%Z then if (s =? UNKNOWN)%Z then f (k + i) else s else v).
Proof using.
  revert k. induction c as [|v c IH]; intros k Hk; simpl in *; [by exists []|].
  destruct (IH (S k)) as (p & Hp & Hl & Hi); [lia|]. rewrite Hp.
  destruct (lookup_lt_is_Some_2 sv k) as [s Hs]; [lia|].
  exists ((if (v =? UNKNOWN)%Z then if (s =? UNKNOWN)%Z then f k else s else v) :: p).
  rewrite Hs. split_and!.
  - by destruct (v =? UNKNOWN)%Z.
  - simpl. by rewrite Hl.
  - intros [|i] v' s' Hv' Hs'; simpl in *.
    + rewrite Nat.add_0_r in *. by simplify_eq.
    + replace (k + S i) with (S k + i) in * by lia. by apply Hi.
Qed.

Lemma random_check_ok c st :
  comb_values c ->
  exists st', random_check MFS safeValues random c st = Ok (negb (bad MFS c), st') /\ keeps st st'.
Proof using FM Hrandom.
  intros [Hl Hv]. unfold random_check. mstep ltac:(done).
  destruct (random_padding_loop_ok (random (checks st)) 0 safeValues c) as (p & Hp & Hpl & Hpi);
    [rewrite Hl, (fm_safe_length _ _ _ FM); lia|]. simpl in Hpi.
  assert (Hval : forall i, i < n -> exists v s, c !! i = Some v /\ safeValues !! i = Some s /\
    (v = UNKNOWN \/ v = 0 \/ v = 1)%Z /\ (s = UNKNOWN \/ s = 0 \/ s = 1)%Z /\
    p !! i = Some (if (v =? UNKNOWN)%Z then if (s =? UNKNOWN)%Z then random (checks st) i else s else v)).
  { intros i Hi. destruct (lookup_lt_is_Some_2 c i) as [v Hv']; [lia|].
    destruct (lookup_lt_is_Some_2 safeValues i) as [s Hs]; [rewrite (fm_safe_length _ _ _ FM); lia|].
    exists v, s. split_and!; [done|done| | |by apply Hpi].
    - apply Hv. by eapply list_elem_of_lookup_2.
    - eapply fm_safe_values; [done|by eapply list_elem_of_lookup_2]. }
  assert (HC : Comb_ofList p = Ok p).
  { unfold Comb_ofList. replace (existsb _ p) with false; [done|]. symmetry. apply not_true_is_false.
    intros (z & Hz%list_elem_of_In & Hzb)%existsb_exists.
    apply list_elem_of_lookup in Hz as [i Hi].
    assert (i < n) by (apply lookup_lt_Some in Hi; lia).
    destruct (Hval i) as (v & s & _ & _ & Hv1 & Hs1 & Hpi'); [done|].
    rewrite Hpi' in Hi. injection Hi as <-. pose proof (Hrandom (checks st) i). unfold UNKNOWN in *.
    apply andb_true_iff in Hzb as [Hz1%Z.ltb_lt Hz2%negb_true_iff%Z.eqb_neq].
    destruct (Z.eqb_spec v (-1)), (Z.eqb_spec s (-1)); lia. }
  unfold random_padding. mstep ltac:(by rewrite Hp; simpl; rewrite HC).
  assert (Hpm : forall m, m ∈ MFS -> contains_loop p m = contains_loop c m).
  { intros m Hm. pose proof (fm_length _ _ _ FM m Hm) as Hml. apply eq_true_iff_eq.
    rewrite !(contains_iff n) by (done || lia).
    split; intros Hc i v Hmv Hnu; specialize (Hc i v Hmv Hnu).
    all: assert (Hi : i < n) by (apply lookup_lt_Some in Hmv; lia).
    all: destruct (Hval i Hi) as (w & s & Hw & Hs & _ & _ & Hpi').
    all: destruct (fm_safe _ _ _ FM m i v s Hm Hmv Hnu Hs) as [Hs1 Hs2].
    - rewrite Hpi' in Hc. destruct (Z.eqb_spec w UNKNOWN); [|congruence].
      destruct (Z.eqb_spec s UNKNOWN); [done|congruence].
    - rewrite Hpi'. rewrite Hw in Hc. injection Hc as ->. by destruct (Z.eqb_spec v UNKNOWN). }
  assert (Hb : existsb (contains_loop p) MFS = bad MFS c).
  { apply eq_true_iff_eq. rewrite bad_spec, existsb_exists. setoid_rewrite <- list_elem_of_In.
    split; intros (m & Hm & Hc); exists m; [by rewrite <- Hpm|by rewrite Hpm]. }
  unfold check. rewrite !M_bind_eq. simpl. rewrite check_loop_ok.
  2:{ intros m Hm. rewrite (fm_length _ _ _ FM m Hm). lia. }
  simpl. rewrite Hb. eexists. split; [done|]. by destruct (negb _).
Qed.

Context (members : list Comb) (Hval : forall c, c ∈ members -> comb_values c).

Lemma comfil_loop_ok todo cand st :
  (forall c, c ∈ todo -> c ∈ members) -> least_inv members (bad MFS) todo cand ->
  exists res st', comfil_loop MFS safeValues random todo cand st = Ok (res, st') /\
    keeps st st' /\ forall c, c ∈ res <-> least members (bad MFS) c.
Proof using FM Hrandom Hval.
  assert (Hlen : forall c, c ∈ members -> length c = n) by (intros; by apply Hval).
  assert (Hup : forall a b, a ∈ members -> b ∈ members -> contains_loop a b = true ->
    bad MFS b = true -> bad MFS a = true).
  { intros a b Ha Hb. apply (bad_up n); [apply (fm_length _ _ _ FM)|auto..]. }
  revert cand st. induction todo as [|c todo IH]; intros cand st Htodo Hi; simpl.
  { exists cand, st. split_and!; [done|done|]. intros c. by apply (least_inv_end n). }
  assert (Htodo' : forall d, d ∈ todo -> d ∈ members) by (intros; apply Htodo; by right).
  assert (Hc : c ∈ members) by (apply Htodo; left).
  assert (Hcand : forall d, d ∈ cand -> length d = n) by (intros d Hd; apply Hlen; by apply (lv_sub _ _ _ _ Hi)).
  rewrite set_contains_spec. case_bool_decide as Hin; cbn [negb].
  2:{ destruct (IH cand st Htodo') as (res & st' & -> & Hk & Hr); [by apply (least_inv_skip _ _ c)|].
      by exists res, st'. }
  destruct (random_check_ok c st (Hval c Hc)) as (st1 & E & Hk1). mstep ltac:(done).
  destruct (bad MFS c) eqn:Eb; cbn [negb].
  - rewrite (remove_above_ok n) by auto. mstep ltac:(done).
    destruct (IH _ st1 Htodo' (least_inv_above _ _ c todo cand Hc Eb Hi)) as (res & st' & E' & Hk & Hr).
    exists res, st'. split_and!; [done|by eapply keeps_trans|done].
  - rewrite (remove_inside_ok n) by auto. mstep ltac:(done).
    destruct (IH _ st1 Htodo' (least_inv_inside n _ _ Hlen Hup c todo cand Hc Eb Hi)) as (res & st' & E' & Hk & Hr).
    exists res, st'. split_and!; [done|by eapply keeps_trans|done].
Qed.
End comfil.

(** C12. ComFIL tests every combination of the failing tests that it cannot
    exclude, in whatever order its hash set yields them and whatever random
    values it draws for parameters without a safe value; for at most 33
    parameters it ends and reports exactly the minimal faults of the failing
    tests.  (With 34 it throws: [comfil_iteraifl_throw_34].) *)
Theorem comfil_identifies_minimal_faults n MFS safeValues Tpass Tfail random hash_order st
    {C : Combinations} {L : CombinationsLaws C} :
  n <= 33 -> FaultModel n MFS safeValues -> Tests n MFS Tpass Tfail ->
  (forall k i, random k i = 0%Z \/ random k i = 1%Z) -> (forall l, hash_order l ≡ₚ l) ->
  conducted st = false -> MFC_identified st = [] ->
  exists st', ComFIL_conduct MFS (Some safeValues) random hash_order Tpass Tfail st = Ok (tt, st') /\
    forall c, c ∈ MFC_identified st' <-> exists t, t ∈ Tfail /\ minimal_fault MFS t c.
Proof.
  intros Hn FM TS Hrandom Hperm Hcd Hid. unfold ComFIL_conduct. mstep ltac:(done). rewrite Hcd.
  mstep ltac:(done). unfold comfil_with_safevalues.
  destruct (starts_ok n MFS Tpass Tfail TS Hn) as (all & S & E1 & E2 & HS).
  mstep ltac:(by rewrite E1). mstep ltac:(by rewrite E2).
  assert (Hval : forall c, c ∈ S -> comb_values n c).
  { intros c Hc. split; [by eapply starts_length|]. apply HS in Hc as [(t & Ht & X & HX & [Hl Hc]) _].
    intros v Hv. apply list_elem_of_lookup in Hv as [i Hi].
    assert (i < n) by (apply lookup_lt_Some in Hi; lia). rewrite Hc in Hi by done.
    destruct (decide (i ∈ X)); [|simplify_eq; by left]. right.
    destruct (ts_fail _ _ _ _ TS t Ht) as [HT _]. eapply to_values; [done|]. by eapply list_elem_of_lookup_2. }
  assert (Hinv : least_inv S (bad MFS) (hash_order S) S).
  { destruct (least_inv_start S (bad MFS)) as [H1 H2 H3 H4].
    split; [done|done|intros c; rewrite Hperm; apply H3|intros d c Hd; rewrite Hperm; by apply H4]. }
  destruct (comfil_loop_ok n MFS safeValues FM random Hrandom S Hval (hash_order S) S (set_conducted st))
    as (res & st1 & E3 & [Hk _] & Hr); [intros c; by rewrite Hperm|done|].
  mstep ltac:(done). eexists. split; [done|]. intros c.
  rewrite (proj2 (addAll_identified_ok res st1)), Hk. simpl. rewrite Hid, Hr.
  rewrite (least_bad_iff n MFS Tpass Tfail (fm_length _ _ _ FM) (fm_nonempty _ _ _ FM) TS S c HS).
  pose proof (not_elem_of_nil c). tauto.
Qed.

(** At 34 parameters the capacity of [n_choose_k] is negative for the subsets
    of 16: ComFIL and IterAIFL stop in [new ArrayList]. *)
Theorem comfil_iteraifl_throw_34 MFS safeValues Tpass t Tfail random hash_order st
    {C : Combinations} {L : CombinationsLaws C} :
  TestOf 34 t -> conducted st = false ->
  ComFIL_conduct MFS (Some safeValues) random hash_order Tpass (t :: Tfail) st = Err IllegalArgument /\
  IterAIFL_conduct MFS hash_order Tpass (t :: Tfail) st = Err IllegalArgument.
Proof.
  intros HT Hcd.
  assert (Hthrow : addAll_powerSets (t :: Tfail) [] = Err IllegalArgument).
  { simpl. by rewrite (powerSet_throws_34 t HT). }
  split.
  - unfold ComFIL_conduct. mstep ltac:(done). rewrite Hcd. mstep ltac:(done).
    unfold comfil_with_safevalues. rewrite Hthrow. done.
  - unfold IterAIFL_conduct. mstep ltac:(done). rewrite Hcd. mstep ltac:(done).
    rewrite Hthrow. done.
Qed.

(** ** IterAIFL *)
Section iteraifl.
Context (n : nat) (MFS Tpass Tfail : list Comb).
Context (Hlen : forall m, m ∈ MFS -> length m = n).
Context (Hne : forall m, m ∈ MFS -> params m <> ∅).
Context (TS : Tests n MFS Tpass Tfail).
Context {C : Combinations} {L : CombinationsLaws C} (Hn : n <= 33).

(** [t] with the parameters [X] flipped. *)
Definition flips (X : gset nat) (t T : Comb) : Prop :=
  TestOf n T /\ forall i v, t !! i = Some v -> T !! i = Some (if decide (i ∈ X) then (1 - v)%Z else v).

Lemma mutate_loop_ok t tway X ixs cur :
  TestOf n t -> comb_of n X t tway -> NoDup ixs -> (forall i, i ∈ ixs -> i < n) -> TestOf n cur ->
  exists T, mutate_loop tway ixs cur = Ok T /\ TestOf n T /\
    forall i v, cur !! i = Some v ->
      T !! i = Some (if decide (i ∈ ixs /\ i ∈ X) then (1 - v)%Z else v).
Proof.
  intros HT [Hl Hc]. revert cur. induction ixs as [|i ixs IH]; intros cur Hnd Hixs Hcur; cbn [mutate_loop].
  { exists cur. split_and!; [done|done|]. intros i v Hv. rewrite decide_False; [done|].
    intros [Hi _]. by apply not_elem_of_nil in Hi. }
  apply NoDup_cons in Hnd as [Hni Hnd]. assert (Hi : i < n) by (apply Hixs; left).
  assert (Hixs' : forall j, j ∈ ixs -> j < n) by (intros; apply Hixs; by right).
  destruct (TestOf_lookup n t i HT Hi) as (v & Hv & Hv01).
  destruct (TestOf_lookup n cur i Hcur Hi) as (w & Hw & Hw01).
  specialize (Hc i Hi). unfold elements_get. rewrite Hc.
  assert (Hend : forall cur' T : Comb,
    (forall j u, cur' !! j = Some u -> T !! j = Some (if decide (j ∈ ixs /\ j ∈ X) then (1 - u)%Z else u)) ->
    (forall j u, cur !! j = Some u -> cur' !! j = Some (if decide (j = i /\ i ∈ X) then (1 - u)%Z else u)) ->
    forall j u, cur !! j = Some u ->
      T !! j = Some (if decide (j ∈ i :: ixs /\ j ∈ X) then (1 - u)%Z else u)).
  { intros cur' T HTj Hcj j u Hu. rewrite (HTj j _ (Hcj j u Hu)). f_equal.
    assert (Hcons : j ∈ i :: ixs <-> j = i \/ j ∈ ixs) by apply elem_of_cons.
    destruct (decide (j = i)) as [->|Hji].
    - repeat case_decide; first [done|exfalso; tauto].
    - repeat case_decide; first [done|exfalso; tauto]. }
  destruct (decide (i ∈ X)) as [Hx|Hx].
  - rewrite Hv. simpl. assert (Hvn : v <> UNKNOWN) by (unfold UNKNOWN; lia).
    destruct (Z.eqb_spec v UNKNOWN); [done|]. simpl.
    assert (Ef : flip_elements cur i = Ok (<[i := (1 - w)%Z]> cur)).
    { unfold flip_elements. rewrite Hw. by destruct Hw01 as [-> | ->]. }
    rewrite Ef. simpl.
    assert (Hcur' : TestOf n (<[i := (1 - w)%Z]> cur)).
    { split; [rewrite length_insert; apply Hcur|]. intros u Hu.
      apply list_elem_of_lookup in Hu as [j Hj]. destruct (decide (j = i)) as [->|].
      - rewrite list_lookup_insert_eq in Hj by (rewrite (to_length _ _ Hcur); lia). simplify_eq. lia.
      - rewrite list_lookup_insert_ne in Hj by done. eapply to_values; [done|].
        by eapply list_elem_of_lookup_2. }
    destruct (IH _ Hnd Hixs' Hcur') as (T & E & HTT & HTj).
    exists T. split_and!; [done|done|]. apply (Hend _ T HTj). intros j u Hu.
    destruct (decide (j = i /\ i ∈ X)) as [[-> _]|Hno].
    + rewrite list_lookup_insert_eq by (rewrite (to_length _ _ Hcur); lia). congruence.
    + rewrite list_lookup_insert_ne; [done|]. intros ->. tauto.
  - simpl. destruct (IH cur Hnd Hixs' Hcur) as (T & E & HTT & HTj).
    exists T. split_and!; [done|done|]. apply (Hend _ T HTj). intros j u Hu.
    rewrite decide_False by tauto. done.
Qed.

Lemma mutate_all_ok t l :
  TestOf n t -> (forall c, c ∈ l -> sub_comb n t c) ->
  exists Ts, mutate_all t l = Ok Ts /\
    (forall T, T ∈ Ts -> exists X, X <> ∅ /\ flips X t T) /\
    forall X c, c ∈ l -> comb_of n X t c -> exists T, T ∈ Ts /\ flips X t T.
Proof.
  intros HT. induction l as [|c l IH]; intros Hl; simpl.
  { exists []. split_and!; [done| |]; intros x; [intros Hx|intros c Hx]; by apply not_elem_of_nil in Hx. }
  rewrite (proj2 (TestOf_Comb n t HT)). simpl. rewrite (to_length _ _ HT).
  assert (Hflip : forall X, comb_of n X t c -> exists T, mutate_loop c (seq 0 n) t = Ok T /\ flips X t T).
  { intros X Hc. destruct (mutate_loop_ok t c X (seq 0 n) t HT Hc) as (T & E & HTT & Hj);
      [apply NoDup_seq|intros i Hi%elem_of_seq; lia|done|].
    exists T. split; [done|]. split; [done|]. intros i v Hv. rewrite (Hj i v Hv). f_equal.
    assert (i < n) by (apply lookup_lt_Some in Hv; rewrite (to_length _ _ HT) in Hv; lia).
    assert (i ∈ seq 0 n) by (apply elem_of_seq; lia).
    destruct (decide (i ∈ X)); [by rewrite decide_True by tauto|by rewrite decide_False by tauto]. }
  destruct (Hl c) as (X & [HX HXne] & Hc); [left|].
  destruct (Hflip X Hc) as (T & E & HfX). rewrite E. simpl.
  rewrite (proj2 (TestOf_Comb n T (proj1 HfX))). simpl.
  destruct IH as (Ts & -> & H1 & H2); [intros; apply Hl; by right|]. simpl.
  exists (T :: Ts). split_and!; [done| |].
  - intros U [->|HU]%elem_of_cons; [by exists X|auto].
  - intros Y d [->|Hd]%elem_of_cons HY.
    + destruct (Hflip Y HY) as (T' & E' & HfY). rewrite E in E'. injection E' as <-.
      exists T. split; [left|done].
    + destruct (H2 Y d Hd HY) as (U & HU & ?). exists U. split; [by right|done].
Qed.

Lemma getAT_ok k Ts :
  (forall t, t ∈ Ts -> TestOf n t) -> 1 <= k <= n ->
  exists AT, getAT k Ts = Ok AT /\
    (forall T, T ∈ AT -> exists t X, t ∈ Ts /\ X <> ∅ /\ flips X t T) /\
    forall t X, t ∈ Ts -> X ⊆ all_params n -> size X = k -> exists T, T ∈ AT /\ flips X t T.
Proof.
  intros HTs Hk. induction Ts as [|t Ts IH]; simpl.
  { exists []. split_and!; [done| |]; intros x; [intros Hx|intros X Hx]; by apply not_elem_of_nil in Hx. }
  assert (HT : TestOf n t) by (apply HTs; left). unfold mutate.
  destruct (tWayComb_ok n Hn t k HT Hk) as (cs & -> & Hcs & Hall). simpl.
  destruct (mutate_all_ok t cs HT Hcs) as (l & -> & H1 & H2). simpl.
  destruct IH as (AT & -> & H3 & H4); [intros; apply HTs; by right|]. simpl.
  exists (l ++ AT). split_and!; [done| |].
  - intros T [Hx|Hx]%elem_of_app.
    + destruct (H1 T Hx) as (X & ? & ?). exists t, X. split_and!; [left|done..].
    + destruct (H3 T Hx) as (t' & X & ? & ? & ?). exists t', X. split_and!; [by right|done..].
  - intros t' X [->|Ht']%elem_of_cons HX Hs.
    + destruct (comb_of_exists n X t (to_length _ _ HT) HX) as (c & Hc).
      destruct (H2 X c (Hall X c HX Hs Hc) Hc) as (T & ? & ?). exists T. rewrite elem_of_app. tauto.
    + destruct (H4 t' X Ht' HX Hs) as (T & ? & ?). exists T. rewrite elem_of_app. tauto.
Qed.

Lemma run_tests_ok AT S st :
  (forall T, T ∈ AT -> length T = n) -> (forall c, c ∈ S -> length c = n) ->
  exists S' st', run_tests MFS AT S st = Ok (S', st') /\ keeps st st' /\
    forall c, c ∈ S' <-> c ∈ S /\ forall T, T ∈ AT -> passes MFS T -> contains_loop T c = false.
Proof.
  revert S st. induction AT as [|T AT IH]; intros S st HAT HS; simpl.
  { exists S, st. split_and!; [done|done|]. intros c. split; [|tauto]. intros Hc. split; [done|].
    intros T HT. by apply not_elem_of_nil in HT. }
  assert (HTl : length T = n) by (apply HAT; left).
  assert (HAT' : forall T', T' ∈ AT -> length T' = n) by (intros; apply HAT; by right).
  unfold check. destruct (check_loop_fault n MFS T Hlen HTl) as [[Hc Hp]|[Hc Hf]].
  - rewrite !M_bind_eq. simpl. rewrite Hc. simpl. rewrite (remove_inside_ok n) by done.
    mstep ltac:(done).
    destruct (IH (filter (fun c => contains_loop T c = false) S) (count_check T st) HAT')
      as (S' & st' & -> & Hk & HS'); [intros c [_ Hx]%list_elem_of_filter; auto|].
    exists S', st'. split_and!; [done|by eapply keeps_trans|]. intros c.
    rewrite HS', list_elem_of_filter. setoid_rewrite elem_of_cons. naive_solver.
  - rewrite !M_bind_eq. simpl. rewrite Hc. simpl. mstep ltac:(done).
    destruct (IH S (count_check T st) HAT' HS) as (S' & st' & -> & Hk & HS').
    exists S', st'. split_and!; [done|by eapply keeps_trans|]. intros c.
    rewrite HS'. setoid_rewrite elem_of_cons. split; [|naive_solver].
    intros [? Hall]. split; [done|]. intros T' [->|?] Hp; [|auto].
    destruct Hf as (m & Hm & Hcm). rewrite (Hp m Hm) in Hcm. done.
Qed.

(** A bad combination is in no test case that passes, so it stays. *)
Lemma strengths_loop_ok strengths S st m0 :
  (forall k, k ∈ strengths -> 1 <= k <= n) -> (forall c, c ∈ S -> length c = n) ->
  m0 ∈ S -> bad MFS m0 = true ->
  exists S' st' (tests : list Comb), strengths_loop MFS Tfail strengths S st = Ok (S', st') /\ keeps st st' /\
    (forall T, T ∈ tests -> exists t X, t ∈ Tfail /\ X <> ∅ /\ flips X t T) /\
    (forall t X, t ∈ Tfail -> X ⊆ all_params n -> size X ∈ strengths ->
       exists T, T ∈ tests /\ flips X t T) /\
    forall c, c ∈ S' <-> c ∈ S /\ forall T, T ∈ tests -> passes MFS T -> contains_loop T c = false.
Proof.
  revert S st. induction strengths as [|k strengths IH]; intros S st Hks HS Hm0 Hb; simpl.
  { exists S, st, []. split_and!; [done|done|intros T HT; by apply not_elem_of_nil in HT
      |intros t X _ _ Hx; by apply not_elem_of_nil in Hx|].
    intros c. split; [|tauto]. intros Hc. split; [done|]. intros T HT. by apply not_elem_of_nil in HT. }
  destruct (getAT_ok k Tfail) as (AT & EAT & H1 & H2);
    [intros; by apply (ts_fail _ _ _ _ TS)|apply Hks; left|].
  mstep ltac:(by rewrite EAT).
  assert (HATl : forall T, T ∈ AT -> length T = n).
  { intros T HT. destruct (H1 T HT) as (_ & _ & _ & _ & [[? _] _]). done. }
  destruct (run_tests_ok AT S st HATl HS) as (S1 & st1 & E1 & Hk1 & HS1). mstep ltac:(done).
  assert (Hm1 : m0 ∈ S1).
  { apply HS1. split; [done|]. intros T HT Hp. apply not_true_is_false. intros Hc.
    apply bad_spec in Hb as (m & Hm & Hmc).
    assert (HTm : contains_loop T m = true) by (apply (contains_trans n T m0 m); auto).
    rewrite (Hp m Hm) in HTm. done. }
  destruct (Nat.eqb_spec (length S1) 0) as [E0|_].
  { apply nil_length_inv in E0. rewrite E0 in Hm1. by apply not_elem_of_nil in Hm1. }
  destruct (IH S1 st1) as (S' & st' & tests & -> & Hk & H3 & H4 & H5);
    [intros; apply Hks; by right|intros c Hc; apply HS; by apply HS1|done|done|].
  exists S', st', (AT ++ tests). split_and!; [done|by eapply keeps_trans| | |].
  - intros T [?|?]%elem_of_app; auto.
  - intros t X Ht HX [Hsz|Hs]%elem_of_cons.
    + destruct (H2 t X Ht HX Hsz) as (T & ? & ?). exists T. rewrite elem_of_app. tauto.
    + destruct (H4 t X Ht HX Hs) as (T & ? & ?). exists T. rewrite elem_of_app. tauto.
  - intros c. rewrite H5, HS1. setoid_rewrite elem_of_app. naive_solver.
Qed.

Lemma minimal_set_loop_ok (members : list Comb) todo cand :
  (forall c, c ∈ members -> length c = n) -> (forall c, c ∈ todo -> c ∈ members) ->
  least_inv members (fun _ => true) todo cand ->
  exists res, minimal_set_loop todo cand = Ok res /\
    forall c, c ∈ res <-> least members (fun _ => true) c.
Proof.
  intros Hl. revert cand. induction todo as [|c todo IH]; intros cand Htodo Hi; simpl.
  { exists cand. split; [done|]. intros c. by apply (least_inv_end n). }
  assert (Htodo' : forall d, d ∈ todo -> d ∈ members) by (intros; apply Htodo; by right).
  assert (Hc : c ∈ members) by (apply Htodo; left).
  rewrite set_contains_spec. case_bool_decide as Hin; cbn [negb].
  - rewrite (remove_above_ok n); [|auto|intros d Hd; apply Hl; by apply (lv_sub _ _ _ _ Hi)]. simpl.
    apply IH; [done|]. by apply least_inv_above.
  - apply IH; [done|]. by apply (least_inv_skip _ _ c).
Qed.

(** The suspicious combinations are the bad ones if flipping parameters of the
    failing tests brings in no other fault. *)
Definition flips_safe : Prop :=
  forall t X T m, t ∈ Tfail -> flips X t T -> m ∈ MFS -> contains_loop T m = true ->
    contains_loop t m = true.

Lemma exonerated (S' tests : list Comb) c t :
  flips_safe -> t ∈ Tfail -> sub_comb n t c -> c ∈ S' ->
  (forall t X, t ∈ Tfail -> X ⊆ all_params n -> size X ∈ seq 1 (n - 1) ->
     exists T, T ∈ tests /\ flips X t T) ->
  (forall d, d ∈ S' -> forall T, T ∈ tests -> passes MFS T -> contains_loop T d = false) ->
  bad MFS c = true.
Proof.
  clear Hn L. intros Hsafe Ht (X & [HX HXne] & [Hcl Hc]) HcS Htests Hall.
  destruct (ts_fail _ _ _ _ TS t Ht) as [HT (m0 & Hm0 & Hcm0)].
  destruct (decide (X = all_params n)) as [->|HXf].
  { apply bad_spec. exists m0. split; [done|]. replace c with t; [done|].
    apply list_eq. intros i. destruct (decide (i < n)) as [Hi|Hi].
    - rewrite Hc by done. rewrite decide_True; [done|]. apply elem_of_set_seq. lia.
    - rewrite !lookup_ge_None_2; [done|lia|rewrite (to_length _ _ HT); lia]. }
  set (Y := all_params n ∖ X).
  assert (HsY : size Y ∈ seq 1 (n - 1)).
  { apply elem_of_seq. assert (Hsz : size Y = n - size X).
    { unfold Y. rewrite size_difference by done. unfold all_params. by rewrite size_set_seq. }
    assert (size X <> 0) by (intros E%size_empty_inv; apply HXne; set_solver).
    assert (HlX : size X < n).
    { assert (Hss : X ⊂ all_params n) by set_solver. apply subset_size in Hss.
      unfold all_params in Hss. by rewrite size_set_seq in Hss. }
    lia. }
  destruct (Htests t Y Ht ltac:(set_solver) HsY) as (T & HTT & Hfl).
  destruct Hfl as [HTt HTi].
  destruct (check_loop_fault n MFS T Hlen (to_length _ _ HTt)) as [[_ Hp]|[_ (m & Hm & HTm)]].
  - assert (HTc : contains_loop T c = true).
    { apply (contains_iff n); [apply HTt|done|]. intros i v Hv Hnu.
      assert (Hi : i < n) by (apply lookup_lt_Some in Hv; lia). rewrite Hc in Hv by done.
      destruct (decide (i ∈ X)) as [Hx|]; [|congruence].
      rewrite (HTi i v Hv). by rewrite decide_False by (unfold Y; set_solver). }
    rewrite (Hall c HcS T HTT Hp) in HTc. done.
  - apply bad_spec. exists m. split; [done|].
    pose proof (Hsafe t Y T m Ht (conj HTt HTi) Hm HTm) as Htm.
    pose proof (Hlen m Hm) as Hml.
    rewrite (contains_iff n) in HTm, Htm |- * by (done || apply HT || apply HTt).
    intros i v Hv Hnu. assert (Hi : i < n) by (apply lookup_lt_Some in Hv; lia).
    specialize (HTm i v Hv Hnu). specialize (Htm i v Hv Hnu). rewrite Hc by done.
    destruct (decide (i ∈ X)) as [|Hx]; [done|]. exfalso.
    rewrite (HTi i v Htm) in HTm. rewrite decide_True in HTm.
    + injection HTm as HTm. lia.
    + unfold Y. apply elem_of_difference. split; [|done]. apply elem_of_set_seq. lia.
Qed.
End iteraifl.

(** C14. For at most 33 parameters IterAIFL ends without reaching its exception
    ("Implementation is wrong") or any other, and every fault of a failing test contains a combination that it
    reports; when flipping parameters of the failing tests brings in no other
    fault, it reports exactly the minimal faults. *)
Theorem iteraifl_reports n MFS Tpass Tfail hash_order st
    {C : Combinations} {L : CombinationsLaws C} :
  n <= 33 -> (forall m, m ∈ MFS -> length m = n) -> (forall m, m ∈ MFS -> params m <> ∅) ->
  Tests n MFS Tpass Tfail -> Tfail <> [] -> (forall l, hash_order l ≡ₚ l) ->
  conducted st = false -> MFC_identified st = [] ->
  exists st', IterAIFL_conduct MFS hash_order Tpass Tfail st = Ok (tt, st') /\
    (forall t m, t ∈ Tfail -> fault_in MFS t m ->
       exists c, c ∈ MFC_identified st' /\ contains_loop m c = true) /\
    (flips_safe n MFS Tfail ->
       forall c, c ∈ MFC_identified st' <-> exists t, t ∈ Tfail /\ minimal_fault MFS t c).
Proof.
  intros Hn Hlen Hne TS HTf Hperm Hcd Hid. unfold IterAIFL_conduct. mstep ltac:(done). rewrite Hcd.
  mstep ltac:(done).
  destruct (starts_ok n MFS Tpass Tfail TS Hn) as (all & S & E1 & E2 & HS).
  mstep ltac:(by rewrite E1). mstep ltac:(by rewrite E2).
  destruct Tfail as [|t0 Tf] eqn:ETf; [done|]. rewrite <- ETf in *.
  assert (Ht0 : t0 ∈ Tfail) by (rewrite ETf; left).
  destruct (ts_fail _ _ _ _ TS t0 Ht0) as [HT0 (m0 & Hf0)].
  assert (Hfm : forall t m, t ∈ Tfail -> fault_in MFS t m -> m ∈ S /\ bad MFS m = true).
  { intros t m Ht Hf. destruct (ts_fail _ _ _ _ TS t Ht) as [HT _]. split.
    - apply HS. split; [exists t; split; [done|by apply (fault_sub_comb n MFS Hlen Hne)]|].
      intros p Hp. apply (proj2 (ts_pass _ _ _ _ TS p Hp)), Hf.
    - apply bad_spec. exists m. split; [apply Hf|]. apply (contains_refl n), Hlen, Hf. }
  assert (HSl : forall c, c ∈ S -> length c = n) by (intros; by eapply starts_length).
  destruct (Hfm t0 m0 Ht0 Hf0) as [Hm0 Hb0].
  rewrite (to_length _ _ HT0).
  destruct (strengths_loop_ok n MFS Tpass Tfail Hlen TS Hn (seq 1 (n - 1)) S (set_conducted st) m0)
    as (S' & st1 & tests & E3 & [Hk _] & Htests & Hcover & HS');
    [intros k Hk%elem_of_seq; lia|done|done|done|].
  mstep ltac:(done).
  assert (HSl' : forall c, c ∈ S' -> length c = n) by (intros c Hc; apply HSl; by apply HS').
  assert (Hinv : least_inv S' (fun _ => true) (hash_order S') S').
  { destruct (least_inv_start S' (fun _ => true)) as [H1 H2 H3 H4].
    split; [done|done|done|intros d c Hd; rewrite Hperm; by apply H4]. }
  destruct (minimal_set_loop_ok n S' (hash_order S') S') as (res & E4 & Hres);
    [done|intros c; by rewrite Hperm|done|].
  unfold getMinimal. mstep ltac:(by rewrite E4). eexists. split; [done|].
  assert (Hrep : forall c, c ∈ MFC_identified (addAll_identified res st1) <-> least S' (fun _ => true) c).
  { intros c. rewrite (proj2 (addAll_identified_ok res st1)), Hk. simpl. rewrite Hid, Hres.
    pose proof (not_elem_of_nil c). tauto. }
  assert (Hbad : forall c, c ∈ S -> bad MFS c = true -> c ∈ S').
  { intros c Hc Hb. apply HS'. split; [done|]. intros T HT Hp. apply not_true_is_false. intros HTc.
    apply bad_spec in Hb as (m & Hm & Hmc).
    destruct (Htests T HT) as (_ & _ & _ & _ & [[HTl _] _]).
    assert (HTm : contains_loop T m = true) by (apply (contains_trans n T c m); auto).
    rewrite (Hp m Hm) in HTm. done. }
  split.
  - intros t m Ht Hf. destruct (Hfm t m Ht Hf) as [HmS Hmb].
    destruct (least_below n S' (fun _ => true) HSl' m (Hbad m HmS Hmb) eq_refl) as (d & Hd & Hmd).
    exists d. split; [by apply Hrep|done].
  - intros Hsafe c. rewrite Hrep, <- (least_bad_iff n MFS Tpass Tfail Hlen Hne TS S c HS).
    assert (Hiff : forall d, d ∈ S' <-> d ∈ S /\ bad MFS d = true).
    { intros d. split; [|intros [? ?]; by apply Hbad]. intros Hd.
      assert (HdS : d ∈ S) by by apply HS'. split; [done|].
      destruct (proj1 (HS d) HdS) as [(t & Ht & Hsub) _].
      apply (exonerated n MFS Tpass Tfail Hlen Hne TS S' tests d t); [done..|].
      intros e He. by apply HS'. }
    unfold least. rewrite (Hiff c). split.
    + intros [[[? ?] _] Hall]. split; [done|]. intros d Hd Hdb. by apply Hall; [apply Hiff|].
    + intros [[? ?] Hall]. split; [done|]. intros d [? ?]%Hiff _. by apply Hall.
Qed.

(** ** Examples, with an enumeration of subsets *)
Fixpoint choose (l : list nat) (k : nat) : list (list nat) :=
  match k, l with
  | O, _ => [[]]
  | S k', [] => []
  | S k', x :: l' => (cons x <$> choose l' k') ++ choose l' k
  end.

#[local] Instance choose_combinations : Combinations := choose.

Lemma choose_S x l k : choose (x :: l) (S k) = (cons x <$> choose l k) ++ choose l (S k).
Proof. done. Qed.

Lemma choose_sound l k x : x ∈ choose l k -> length x = k /\ forall i, i ∈ x -> i ∈ l.
Proof.
  revert k x. induction l as [|a l IH]; intros [|k] x; simpl.
  - intros ->%list_elem_of_singleton. set_solver.
  - intros Hx. by apply not_elem_of_nil in Hx.
  - intros ->%list_elem_of_singleton. set_solver.
  - intros [Hx|Hx]%elem_of_app.
    + apply list_elem_of_fmap in Hx as (y & -> & Hy). apply IH in Hy as [Hl Hy].
      split; [simpl; lia|]. intros i [->|Hi]%elem_of_cons; [left|right; auto].
    + apply (IH (S k)) in Hx as [Hl Hx]. split; [done|]. intros i Hi. right. auto.
Qed.

Lemma choose_complete l (X : gset nat) :
  filter (fun i => i ∈ X) l ∈ choose l (length (filter (fun i => i ∈ X) l)).
Proof.
  induction l as [|a l IH]; [by left|]. rewrite filter_cons. destruct (decide (a ∈ X)).
  - cbn [length]. rewrite choose_S, elem_of_app. left. apply list_elem_of_fmap. eauto.
  - destruct (length (filter (fun i => i ∈ X) l)) as [|k] eqn:E.
    + apply nil_length_inv in E. rewrite E. by left.
    + rewrite choose_S, elem_of_app. by right.
Qed.

#[local] Instance choose_laws : CombinationsLaws choose_combinations.
Proof.
  split.
  - intros l k x _ _ Hx. by apply choose_sound.
  - intros l k X Hnd _ Hs Hin. exists (filter (fun i => i ∈ X) l).
    assert (Hset : list_to_set (filter (fun i => i ∈ X) l) = X).
    { apply set_eq. intros i. rewrite elem_of_list_to_set, list_elem_of_filter. naive_solver. }
    split; [|done]. replace k with (length (filter (fun i => i ∈ X) l)); [apply choose_complete|].
    rewrite <- Hs, <- Hset at 1. rewrite size_list_to_set; [done|]. by apply NoDup_filter.
Qed.

Definition ov_pass : list Comb := [[0; 0; 0; 1]]%Z.

Lemma ov_Tests : Tests 4 ov_MFS ov_pass single_tests.
Proof.
  split.
  - intros t Ht. destruct (single_tests_ok t Ht) as [HT (c & Hc)]. split; [done|].
    exists c. by apply Hc.
  - intros t ->%list_elem_of_singleton. split.
    + split; [done|]. intros v Hv. list_cases Hv; tauto.
    + intros m Hm. unfold ov_MFS in Hm. list_cases Hm; done.
Qed.

Lemma comfil_identifies_minimal_faults_witness :
  exists st', ComFIL_conduct ov_MFS (Some ov_safe) (fun k i => 0%Z) (@rev Comb) ov_pass single_tests initial_state
      = Ok (tt, st') /\ MFC_identified st' = ov_MFS /\ counter st' = 14%Z.
Proof.
  destruct (comfil_identifies_minimal_faults 4 ov_MFS ov_safe ov_pass single_tests
    (fun k i => 0%Z) (@rev Comb) initial_state) as (st' & He & _).
  - lia.
  - exact ov_FaultModel.
  - exact ov_Tests.
  - intros k i. by left.
  - intros l. symmetry. apply Permutation_rev.
  - reflexivity.
  - reflexivity.
  - exists st'. split; [exact He|]. vm_compute in He. injection He as <-. split; reflexivity.
Defined.

(** A test case that has all faults: a flip can only take one away. *)
Definition both_tests : list Comb := [[1; 1; 0; 0]]%Z.

Lemma both_Tests : Tests 4 ov_MFS ov_pass both_tests.
Proof.
  split; [|apply ov_Tests]. intros t Ht. split.
  - apply ov_tests_ok. unfold both_tests, ov_tests in *. set_solver.
  - exists [UNKNOWN; 1; UNKNOWN; UNKNOWN]%Z. unfold both_tests in Ht. list_cases Ht.
    split; [right; by left|done].
Qed.

Lemma both_flips_safe : flips_safe 4 ov_MFS both_tests.
Proof.
  intros t X T m Ht _ Hm _. unfold both_tests in Ht. unfold ov_MFS in Hm.
  list_cases Ht; list_cases Hm; done.
Qed.

Lemma iteraifl_reports_witness :
  exists st', IterAIFL_conduct ov_MFS (fun l => l) ov_pass both_tests initial_state = Ok (tt, st') /\
    MFC_identified st' = rev ov_MFS /\
    forall c, c ∈ MFC_identified st' <-> exists t, t ∈ both_tests /\ minimal_fault ov_MFS t c.
Proof.
  destruct (iteraifl_reports 4 ov_MFS ov_pass both_tests (fun l => l) initial_state)
    as (st' & He & _ & Hex).
  - lia.
  - apply ov_FaultModel.
  - apply ov_FaultModel.
  - exact both_Tests.
  - discriminate.
  - reflexivity.
  - reflexivity.
  - reflexivity.
  - exists st'. split; [exact He|]. split; [|exact (Hex both_flips_safe)].
    clear Hex. vm_compute in He. injection He as <-. reflexivity.
Defined.
