(* ===== verification/PngTrans.v ===== *)
(** * libpng: row transformations ([pngtrans.c])

    The setters record a requested transformation in the [png_struct]; the
    [png_do_*] routines rewrite one row in place.  A row is the list of its
    bytes, reads and writes through the row pointers are the prelude's
    [load] and [store], a null pointer is [None].  The macros of [png.h],
    which is not part of the repository, are the class [PngH]. *)
From S2P Require Import Prelude.
Open Scope Z_scope.

(** ** Constants of png.h *)
Class PngH := {
  PNG_BGR : Z; PNG_SWAP_BYTES : Z; PNG_PACK : Z; PNG_PACKSWAP : Z; PNG_SHIFT : Z;
  PNG_INTERLACE : Z; PNG_FILLER : Z; PNG_SWAP_ALPHA : Z; PNG_INVERT_ALPHA : Z;
  PNG_INVERT_MONO : Z;
  PNG_FILLER_AFTER : Z; PNG_FLAG_FILLER_AFTER : Z;
  PNG_COLOR_MASK_COLOR : Z; PNG_COLOR_MASK_ALPHA : Z;
  PNG_COLOR_TYPE_GRAY : Z; PNG_COLOR_TYPE_RGB : Z; PNG_COLOR_TYPE_RGB_ALPHA : Z
}.

(** The build's configuration macros that occur inside the functions. *)
Record PngCfg := MkPngCfg {
  PNG_USELESS_TESTS_SUPPORTED : bool;
  PNG_USER_TRANSFORM_PTR_SUPPORTED : bool
}.

(** ** Data *)
Record png_color_8 := MkColor8 { c8_red : Z; c8_green : Z; c8_blue : Z; c8_gray : Z; c8_alpha : Z }.

(** The fields of [png_struct] that this file uses; [user_transform_ptr] is
    an opaque pointer, 0 when null, and [warnings] the [png_warning] calls. *)
Record png_struct := MkPng {
  transformations : Z;
  flags : Z;
  bit_depth : Z;
  usr_bit_depth : Z;
  color_type : Z;
  usr_channels : Z;
  filler : Z;
  shift : png_color_8;
  interlaced : Z;
  user_transform_ptr : Z;
  user_transform_depth : Z;
  user_transform_channels : Z;
  warnings : Z
}.

Record png_row_info := MkRow {
  width : Z;
  rowbytes : Z;
  ri_color_type : Z;
  ri_bit_depth : Z;
  channels : Z;
  pixel_depth : Z
}.

Section png.
Context `{PngH}.

(** ** Setters *)
Definition set_transformations (t : Z) (p : png_struct) : png_struct :=
  MkPng t (flags p) (bit_depth p) (usr_bit_depth p) (color_type p) (usr_channels p)
    (filler p) (shift p) (interlaced p) (user_transform_ptr p) (user_transform_depth p)
    (user_transform_channels p) (warnings p).

Definition png_set_bgr (p : png_struct) : png_struct :=
  set_transformations (Z.lor (transformations p) PNG_BGR) p.

Definition png_set_swap (p : png_struct) : png_struct :=
  if bit_depth p =? 16 then set_transformations (Z.lor (transformations p) PNG_SWAP_BYTES) p
  else p.

Definition set_usr_bit_depth (d : Z) (p : png_struct) : png_struct :=
  MkPng (transformations p) (flags p) (bit_depth p) d (color_type p) (usr_channels p)
    (filler p) (shift p) (interlaced p) (user_transform_ptr p) (user_transform_depth p)
    (user_transform_channels p) (warnings p).

Definition png_set_packing (p : png_struct) : png_struct :=
  if bit_depth p <? 8 then
    set_usr_bit_depth 8 (set_transformations (Z.lor (transformations p) PNG_PACK) p)
  else p.

Definition png_set_packswap (p : png_struct) : png_struct :=
  if bit_depth p <? 8 then set_transformations (Z.lor (transformations p) PNG_PACKSWAP) p
  else p.

Definition set_shift (s : png_color_8) (p : png_struct) : png_struct :=
  MkPng (transformations p) (flags p) (bit_depth p) (usr_bit_depth p) (color_type p)
    (usr_channels p) (filler p) s (interlaced p) (user_transform_ptr p)
    (user_transform_depth p) (user_transform_channels p) (warnings p).

(** [true_bits] is dereferenced. *)
Definition png_set_shift (p : png_struct) (true_bits : option png_color_8) :
    res cfault png_struct :=
  match true_bits with
  | None => Err NullDeref
  | Some b => Ok (set_shift b (set_transformations (Z.lor (transformations p) PNG_SHIFT) p))
  end.

Definition png_set_interlace_handling (p : png_struct) : Z * png_struct :=
  if negb (interlaced p =? 0) then
    (7, set_transformations (Z.lor (transformations p) PNG_INTERLACE) p)
  else (1, p).

Definition set_filler_flags (fill fl ch : Z) (p : png_struct) : png_struct :=
  MkPng (transformations p) fl (bit_depth p) (usr_bit_depth p) (color_type p) ch
    fill (shift p) (interlaced p) (user_transform_ptr p) (user_transform_depth p)
    (user_transform_channels p) (warnings p).

Definition png_set_filler (p : png_struct) (fill filler_loc : Z) : png_struct :=
  let fl := if filler_loc =? PNG_FILLER_AFTER
            then Z.lor (flags p) PNG_FLAG_FILLER_AFTER
            else Z.land (flags p) (Z.lnot PNG_FLAG_FILLER_AFTER) in
  let ch1 := if color_type p =? PNG_COLOR_TYPE_RGB then 4 else usr_channels p in
  let ch2 := if (color_type p =? PNG_COLOR_TYPE_GRAY) && (bit_depth p >=? 8) then 2 else ch1 in
  set_filler_flags (u8 fill) fl ch2
    (set_transformations (Z.lor (transformations p) PNG_FILLER) p).

Definition png_set_swap_alpha (p : png_struct) : png_struct :=
  set_transformations (Z.lor (transformations p) PNG_SWAP_ALPHA) p.

Definition png_set_invert_alpha (p : png_struct) : png_struct :=
  set_transformations (Z.lor (transformations p) PNG_INVERT_ALPHA) p.

Definition png_set_invert_mono (p : png_struct) : png_struct :=
  set_transformations (Z.lor (transformations p) PNG_INVERT_MONO) p.

Definition set_user_transform (q d c w : Z) (p : png_struct) : png_struct :=
  MkPng (transformations p) (flags p) (bit_depth p) (usr_bit_depth p) (color_type p)
    (usr_channels p) (filler p) (shift p) (interlaced p) q d c w.

Definition png_set_user_transform_info (cfg : PngCfg) (p : png_struct)
    (ptr depth chans : Z) : png_struct :=
  if PNG_USER_TRANSFORM_PTR_SUPPORTED cfg then
    set_user_transform ptr (u8 depth) (u8 chans) (warnings p) p
  else if negb (ptr =? 0) || negb (depth =? 0) || negb (chans =? 0) then
    set_user_transform (user_transform_ptr p) (user_transform_depth p)
      (user_transform_channels p) (warnings p + 1) p
  else p.

Definition png_get_user_transform_ptr (cfg : PngCfg) (p : option png_struct) : res cfault Z :=
  if PNG_USER_TRANSFORM_PTR_SUPPORTED cfg then
    match p with
    | None => Err NullDeref
    | Some p => Ok (user_transform_ptr p)
    end
  else Ok 0.

(** ** Row routines

    Each takes the [row_info] and [row] pointers and returns the row_info and
    the row after the call. *)
Definition row_result : Type := res cfault (option png_row_info * option (list Z)).

(** Run a loop over the bytes of the row. *)
Definition on_row (ri : png_row_info) (row : option (list Z))
    (loop : M (list Z) cfault unit) : row_result :=
  match row with
  | None => match loop [] with Ok _ => Ok (Some ri, None) | _ => Err NullDeref end
  | Some r => x ← loop r; Ok (Some ri, Some x.2)
  end.

Fixpoint invert_loop (n rp : nat) : M (list Z) cfault unit :=
  match n with
  | O => mret tt
  | S n' =>
      v ← load rp;
      store rp (u8 (Z.lnot v)) ;;
      invert_loop n' (S rp)
  end.

(** [row_info->bit_depth] is read before the null tests. *)
Definition png_do_invert (cfg : PngCfg) (row_info : option png_row_info)
    (row : option (list Z)) : row_result :=
  match row_info with
  | None => Err NullDeref
  | Some ri =>
      if (ri_bit_depth ri =? 1)
         && (negb (PNG_USELESS_TESTS_SUPPORTED cfg) || bool_decide (row <> None))
         && (ri_color_type ri =? PNG_COLOR_TYPE_GRAY)
      then on_row ri row (invert_loop (Z.to_nat (rowbytes ri)) 0)
      else Ok (Some ri, row)
  end.

Fixpoint swap_loop (n rp : nat) : M (list Z) cfault unit :=
  match n with
  | O => mret tt
  | S n' =>
      t ← load rp;
      v ← load (rp + 1);
      store rp v ;;
      store (rp + 1) t ;;
      swap_loop n' (rp + 2)
  end.

Definition png_do_swap (cfg : PngCfg) (row_info : option png_row_info)
    (row : option (list Z)) : row_result :=
  if PNG_USELESS_TESTS_SUPPORTED cfg && (bool_decide (row = None) || bool_decide (row_info = None))
  then Ok (row_info, row)
  else
    match row_info with
    | None => Err NullDeref
    | Some ri =>
        if ri_bit_depth ri =? 16 then
          let istop := u32 (width ri * channels ri) in
          on_row ri row (swap_loop (Z.to_nat istop) 0)
        else Ok (Some ri, row)
    end.

Definition onebppswaptable : list Z := [
  0x00; 0x80; 0x40; 0xC0; 0x20; 0xA0; 0x60; 0xE0;
  0x10; 0x90; 0x50; 0xD0; 0x30; 0xB0; 0x70; 0xF0;
  0x08; 0x88; 0x48; 0xC8; 0x28; 0xA8; 0x68; 0xE8;
  0x18; 0x98; 0x58; 0xD8; 0x38; 0xB8; 0x78; 0xF8;
  0x04; 0x84; 0x44; 0xC4; 0x24; 0xA4; 0x64; 0xE4;
  0x14; 0x94; 0x54; 0xD4; 0x34; 0xB4; 0x74; 0xF4;
  0x0C; 0x8C; 0x4C; 0xCC; 0x2C; 0xAC; 0x6C; 0xEC;
  0x1C; 0x9C; 0x5C; 0xDC; 0x3C; 0xBC; 0x7C; 0xFC;
  0x02; 0x82; 0x42; 0xC2; 0x22; 0xA2; 0x62; 0xE2;
  0x12; 0x92; 0x52; 0xD2; 0x32; 0xB2; 0x72; 0xF2;
  0x0A; 0x8A; 0x4A; 0xCA; 0x2A; 0xAA; 0x6A; 0xEA;
  0x1A; 0x9A; 0x5A; 0xDA; 0x3A; 0xBA; 0x7A; 0xFA;
  0x06; 0x86; 0x46; 0xC6; 0x26; 0xA6; 0x66; 0xE6;
  0x16; 0x96; 0x56; 0xD6; 0x36; 0xB6; 0x76; 0xF6;
  0x0E; 0x8E; 0x4E; 0xCE; 0x2E; 0xAE; 0x6E; 0xEE;
  0x1E; 0x9E; 0x5E; 0xDE; 0x3E; 0xBE; 0x7E; 0xFE;
  0x01; 0x81; 0x41; 0xC1; 0x21; 0xA1; 0x61; 0xE1;
  0x11; 0x91; 0x51; 0xD1; 0x31; 0xB1; 0x71; 0xF1;
  0x09; 0x89; 0x49; 0xC9; 0x29; 0xA9; 0x69; 0xE9;
  0x19; 0x99; 0x59; 0xD9; 0x39; 0xB9; 0x79; 0xF9;
  0x05; 0x85; 0x45; 0xC5; 0x25; 0xA5; 0x65; 0xE5;
  0x15; 0x95; 0x55; 0xD5; 0x35; 0xB5; 0x75; 0xF5;
  0x0D; 0x8D; 0x4D; 0xCD; 0x2D; 0xAD; 0x6D; 0xED;
  0x1D; 0x9D; 0x5D; 0xDD; 0x3D; 0xBD; 0x7D; 0xFD;
  0x03; 0x83; 0x43; 0xC3; 0x23; 0xA3; 0x63; 0xE3;
  0x13; 0x93; 0x53; 0xD3; 0x33; 0xB3; 0x73; 0xF3;
  0x0B; 0x8B; 0x4B; 0xCB; 0x2B; 0xAB; 0x6B; 0xEB;
  0x1B; 0x9B; 0x5B; 0xDB; 0x3B; 0xBB; 0x7B; 0xFB;
  0x07; 0x87; 0x47; 0xC7; 0x27; 0xA7; 0x67; 0xE7;
  0x17; 0x97; 0x57; 0xD7; 0x37; 0xB7; 0x77; 0xF7;
  0x0F; 0x8F; 0x4F; 0xCF; 0x2F; 0xAF; 0x6F; 0xEF;
  0x1F; 0x9F; 0x5F; 0xDF; 0x3F; 0xBF; 0x7F; 0xFF
].

Definition twobppswaptable : list Z := [
  0x00; 0x40; 0x80; 0xC0; 0x10; 0x50; 0x90; 0xD0;
  0x20; 0x60; 0xA0; 0xE0; 0x30; 0x70; 0xB0; 0xF0;
  0x04; 0x44; 0x84; 0xC4; 0x14; 0x54; 0x94; 0xD4;
  0x24; 0x64; 0xA4; 0xE4; 0x34; 0x74; 0xB4; 0xF4;
  0x08; 0x48; 0x88; 0xC8; 0x18; 0x58; 0x98; 0xD8;
  0x28; 0x68; 0xA8; 0xE8; 0x38; 0x78; 0xB8; 0xF8;
  0x0C; 0x4C; 0x8C; 0xCC; 0x1C; 0x5C; 0x9C; 0xDC;
  0x2C; 0x6C; 0xAC; 0xEC; 0x3C; 0x7C; 0xBC; 0xFC;
  0x01; 0x41; 0x81; 0xC1; 0x11; 0x51; 0x91; 0xD1;
  0x21; 0x61; 0xA1; 0xE1; 0x31; 0x71; 0xB1; 0xF1;
  0x05; 0x45; 0x85; 0xC5; 0x15; 0x55; 0x95; 0xD5;
  0x25; 0x65; 0xA5; 0xE5; 0x35; 0x75; 0xB5; 0xF5;
  0x09; 0x49; 0x89; 0xC9; 0x19; 0x59; 0x99; 0xD9;
  0x29; 0x69; 0xA9; 0xE9; 0x39; 0x79; 0xB9; 0xF9;
  0x0D; 0x4D; 0x8D; 0xCD; 0x1D; 0x5D; 0x9D; 0xDD;
  0x2D; 0x6D; 0xAD; 0xED; 0x3D; 0x7D; 0xBD; 0xFD;
  0x02; 0x42; 0x82; 0xC2; 0x12; 0x52; 0x92; 0xD2;
  0x22; 0x62; 0xA2; 0xE2; 0x32; 0x72; 0xB2; 0xF2;
  0x06; 0x46; 0x86; 0xC6; 0x16; 0x56; 0x96; 0xD6;
  0x26; 0x66; 0xA6; 0xE6; 0x36; 0x76; 0xB6; 0xF6;
  0x0A; 0x4A; 0x8A; 0xCA; 0x1A; 0x5A; 0x9A; 0xDA;
  0x2A; 0x6A; 0xAA; 0xEA; 0x3A; 0x7A; 0xBA; 0xFA;
  0x0E; 0x4E; 0x8E; 0xCE; 0x1E; 0x5E; 0x9E; 0xDE;
  0x2E; 0x6E; 0xAE; 0xEE; 0x3E; 0x7E; 0xBE; 0xFE;
  0x03; 0x43; 0x83; 0xC3; 0x13; 0x53; 0x93; 0xD3;
  0x23; 0x63; 0xA3; 0xE3; 0x33; 0x73; 0xB3; 0xF3;
  0x07; 0x47; 0x87; 0xC7; 0x17; 0x57; 0x97; 0xD7;
  0x27; 0x67; 0xA7; 0xE7; 0x37; 0x77; 0xB7; 0xF7;
  0x0B; 0x4B; 0x8B; 0xCB; 0x1B; 0x5B; 0x9B; 0xDB;
  0x2B; 0x6B; 0xAB; 0xEB; 0x3B; 0x7B; 0xBB; 0xFB;
  0x0F; 0x4F; 0x8F; 0xCF; 0x1F; 0x5F; 0x9F; 0xDF;
  0x2F; 0x6F; 0xAF; 0xEF; 0x3F; 0x7F; 0xBF; 0xFF
].

Definition fourbppswaptable : list Z := [
  0x00; 0x10; 0x20; 0x30; 0x40; 0x50; 0x60; 0x70;
  0x80; 0x90; 0xA0; 0xB0; 0xC0; 0xD0; 0xE0; 0xF0;
  0x01; 0x11; 0x21; 0x31; 0x41; 0x51; 0x61; 0x71;
  0x81; 0x91; 0xA1; 0xB1; 0xC1; 0xD1; 0xE1; 0xF1;
  0x02; 0x12; 0x22; 0x32; 0x42; 0x52; 0x62; 0x72;
  0x82; 0x92; 0xA2; 0xB2; 0xC2; 0xD2; 0xE2; 0xF2;
  0x03; 0x13; 0x23; 0x33; 0x43; 0x53; 0x63; 0x73;
  0x83; 0x93; 0xA3; 0xB3; 0xC3; 0xD3; 0xE3; 0xF3;
  0x04; 0x14; 0x24; 0x34; 0x44; 0x54; 0x64; 0x74;
  0x84; 0x94; 0xA4; 0xB4; 0xC4; 0xD4; 0xE4; 0xF4;
  0x05; 0x15; 0x25; 0x35; 0x45; 0x55; 0x65; 0x75;
  0x85; 0x95; 0xA5; 0xB5; 0xC5; 0xD5; 0xE5; 0xF5;
  0x06; 0x16; 0x26; 0x36; 0x46; 0x56; 0x66; 0x76;
  0x86; 0x96; 0xA6; 0xB6; 0xC6; 0xD6; 0xE6; 0xF6;
  0x07; 0x17; 0x27; 0x37; 0x47; 0x57; 0x67; 0x77;
  0x87; 0x97; 0xA7; 0xB7; 0xC7; 0xD7; 0xE7; 0xF7;
  0x08; 0x18; 0x28; 0x38; 0x48; 0x58; 0x68; 0x78;
  0x88; 0x98; 0xA8; 0xB8; 0xC8; 0xD8; 0xE8; 0xF8;
  0x09; 0x19; 0x29; 0x39; 0x49; 0x59; 0x69; 0x79;
  0x89; 0x99; 0xA9; 0xB9; 0xC9; 0xD9; 0xE9; 0xF9;
  0x0A; 0x1A; 0x2A; 0x3A; 0x4A; 0x5A; 0x6A; 0x7A;
  0x8A; 0x9A; 0xAA; 0xBA; 0xCA; 0xDA; 0xEA; 0xFA;
  0x0B; 0x1B; 0x2B; 0x3B; 0x4B; 0x5B; 0x6B; 0x7B;
  0x8B; 0x9B; 0xAB; 0xBB; 0xCB; 0xDB; 0xEB; 0xFB;
  0x0C; 0x1C; 0x2C; 0x3C; 0x4C; 0x5C; 0x6C; 0x7C;
  0x8C; 0x9C; 0xAC; 0xBC; 0xCC; 0xDC; 0xEC; 0xFC;
  0x0D; 0x1D; 0x2D; 0x3D; 0x4D; 0x5D; 0x6D; 0x7D;
  0x8D; 0x9D; 0xAD; 0xBD; 0xCD; 0xDD; 0xED; 0xFD;
  0x0E; 0x1E; 0x2E; 0x3E; 0x4E; 0x5E; 0x6E; 0x7E;
  0x8E; 0x9E; 0xAE; 0xBE; 0xCE; 0xDE; 0xEE; 0xFE;
  0x0F; 0x1F; 0x2F; 0x3F; 0x4F; 0x5F; 0x6F; 0x7F;
  0x8F; 0x9F; 0xAF; 0xBF; 0xCF; 0xDF; 0xEF; 0xFF
].

Fixpoint packswap_loop (table : list Z) (n rp : nat) : M (list Z) cfault unit :=
  match n with
  | O => mret tt
  | S n' =>
      v ← load rp;
      match table !! Z.to_nat v with
      | None => throw OutOfBounds
      | Some t => store rp t
      end ;;
      packswap_loop table n' (S rp)
  end.

Definition png_do_packswap (cfg : PngCfg) (row_info : option png_row_info)
    (row : option (list Z)) : row_result :=
  if PNG_USELESS_TESTS_SUPPORTED cfg && (bool_decide (row = None) || bool_decide (row_info = None))
  then Ok (row_info, row)
  else
    match row_info with
    | None => Err NullDeref
    | Some ri =>
        if ri_bit_depth ri <? 8 then
          let run table := on_row ri row (packswap_loop table (Z.to_nat (rowbytes ri)) 0) in
          if ri_bit_depth ri =? 1 then run onebppswaptable
          else if ri_bit_depth ri =? 2 then run twobppswaptable
          else if ri_bit_depth ri =? 4 then run fourbppswaptable
          else Ok (Some ri, row)
        else Ok (Some ri, row)
    end.

(** [*dp++ = *sp++], [k] times. *)
Fixpoint copy_bytes (k dp sp : nat) : M (list Z) cfault unit :=
  match k with
  | O => mret tt
  | S k' =>
      v ← load sp;
      store dp v ;;
      copy_bytes k' (S dp) (S sp)
  end.

(** One of the eight loops of [png_do_strip_filler]: advance [sp] by [pre],
    copy [k] bytes, advance [sp] by [post]. *)
Fixpoint strip_loop (pre k post n dp sp : nat) : M (list Z) cfault unit :=
  match n with
  | O => mret tt
  | S n' =>
      copy_bytes k dp (sp + pre) ;;
      strip_loop pre k post n' (dp + k) (sp + pre + k + post)
  end.

Definition strip_info (ri : png_row_info) (rb pd ch : Z) : png_row_info :=
  MkRow (width ri) (u32 rb) (Z.land (ri_color_type ri) (Z.lnot PNG_COLOR_MASK_ALPHA))
        (ri_bit_depth ri) ch pd.

Definition png_do_strip_filler (cfg : PngCfg) (row_info : option png_row_info)
    (row : option (list Z)) (fl : Z) : row_result :=
  if PNG_USELESS_TESTS_SUPPORTED cfg && (bool_decide (row = None) || bool_decide (row_info = None))
  then Ok (row_info, row)
  else
    match row_info with
    | None => Err NullDeref
    | Some ri =>
        let row_width := width ri in
        let n := Z.to_nat row_width in
        let n1 := pred n in
        let after := negb (Z.land fl PNG_FLAG_FILLER_AFTER =? 0) in
        if channels ri =? 4 then
          if ri_bit_depth ri =? 8 then
            on_row (strip_info ri (row_width * 3) 24 3) row
              (if after then strip_loop 0 3 1 n1 3 4 else strip_loop 1 3 0 n 0 0)
          else
            on_row (strip_info ri (row_width * 6) 48 3) row
              (if after then strip_loop 0 6 2 n1 6 8 else strip_loop 2 6 0 n 0 0)
        else if channels ri =? 2 then
          if ri_bit_depth ri =? 8 then
            on_row (strip_info ri row_width 8 1) row
              (if after then strip_loop 0 1 1 n 0 0 else strip_loop 1 1 0 n 0 0)
          else
            on_row (strip_info ri (row_width * 2) 16 1) row
              (if after then strip_loop 0 2 2 n1 2 4 else strip_loop 2 2 0 n 0 0)
        else Ok (Some ri, row)
    end.

(** [save = *(rp + a); *(rp + a) = *(rp + b); *(rp + b) = save]. *)
Definition swap_bytes (a b : nat) : M (list Z) cfault unit :=
  save ← load a;
  v ← load b;
  store a v ;;
  store b save.

Fixpoint bgr8_loop (stride n rp : nat) : M (list Z) cfault unit :=
  match n with
  | O => mret tt
  | S n' =>
      swap_bytes rp (rp + 2) ;;
      bgr8_loop stride n' (rp + stride)
  end.

Fixpoint bgr16_loop (stride n rp : nat) : M (list Z) cfault unit :=
  match n with
  | O => mret tt
  | S n' =>
      swap_bytes rp (rp + 4) ;;
      swap_bytes (rp + 1) (rp + 5) ;;
      bgr16_loop stride n' (rp + stride)
  end.

Definition png_do_bgr (cfg : PngCfg) (row_info : option png_row_info)
    (row : option (list Z)) : row_result :=
  if PNG_USELESS_TESTS_SUPPORTED cfg && (bool_decide (row = None) || bool_decide (row_info = None))
  then Ok (row_info, row)
  else
    match row_info with
    | None => Err NullDeref
    | Some ri =>
        if negb (Z.land (ri_color_type ri) PNG_COLOR_MASK_COLOR =? 0) then
          let n := Z.to_nat (width ri) in
          if ri_bit_depth ri =? 8 then
            if ri_color_type ri =? PNG_COLOR_TYPE_RGB then on_row ri row (bgr8_loop 3 n 0)
            else if ri_color_type ri =? PNG_COLOR_TYPE_RGB_ALPHA then
              on_row ri row (bgr8_loop 4 n 0)
            else Ok (Some ri, row)
          else if ri_bit_depth ri =? 16 then
            if ri_color_type ri =? PNG_COLOR_TYPE_RGB then on_row ri row (bgr16_loop 6 n 0)
            else if ri_color_type ri =? PNG_COLOR_TYPE_RGB_ALPHA then
              on_row ri row (bgr16_loop 8 n 0)
            else Ok (Some ri, row)
          else Ok (Some ri, row)
        else Ok (Some ri, row)
    end.
End png.

(** ** Pixel-level specifications *)

(** Exchange red and blue in one pixel; samples have [s] bytes. *)
Definition bgr_pixel (s : nat) (px : list Z) : list Z :=
  take s (drop (2 * s) px) ++ take s (drop s px) ++ take s px ++ drop (3 * s) px.

Definition swap_sample (px : list Z) : list Z := reverse px.

(** The pixels of a packed byte, [d] bits each, in reverse order. *)
Fixpoint rev_pixels (d : Z) (k : nat) (b : Z) : Z :=
  match k with
  | O => 0
  | S k' =>
      Z.lor (Z.shiftl (Z.land b (2 ^ d - 1)) (d * Z.of_nat k'))
            (rev_pixels d k' (Z.shiftr b d))
  end.

Definition packswap_byte (d b : Z) : Z := rev_pixels d (Z.to_nat (8 / d)) b.

(** A pixel without its filler: [s] is the sample size. *)
Definition strip_pixel (after : bool) (s : nat) (px : list Z) : list Z :=
  if after then take (length px - s) px else drop s px.

Definition byte (b : Z) : Prop := 0 <= b < 256.

Section specs.
Context `{PngH}.

Lemma swap_bytes_mid pre px suf a b x y :
  px !! a = Some x -> px !! b = Some y ->
  swap_bytes (length pre + a) (length pre + b) (pre ++ px ++ suf) =
    Ok (tt, pre ++ <[b := x]> (<[a := y]> px) ++ suf).
Proof.
  intros Ha Hb. unfold swap_bytes. pose proof (lookup_lt_Some _ _ _ Ha).
  pose proof (lookup_lt_Some _ _ _ Hb).
  erewrite M_bind_ok by by apply load_mid. erewrite M_bind_ok by by apply load_mid.
  erewrite M_bind_ok by by apply store_mid. apply store_mid. by rewrite length_insert.
Qed.

Ltac explode px := repeat (destruct px as [|? px]; [done|]); destruct px; [|done].

Lemma bgr8_loop_ok stride pxs pre suf :
  (stride = 3 \/ stride = 4)%nat -> Forall (fun px => length px = stride) pxs ->
  bgr8_loop stride (length pxs) (length pre) (pre ++ concat pxs ++ suf) =
    Ok (tt, pre ++ concat (bgr_pixel 1 <$> pxs) ++ suf).
Proof using.
  intros Hs. apply (block_loop stride (bgr_pixel 1) (fun rp => swap_bytes rp (rp + 2))).
  - done.
  - done.
  - intros pre' px suf' Hpx.
    do 3 (destruct px as [|? px]; [destruct Hs; simplify_eq/=; lia|]).
    pose proof (swap_bytes_mid pre' (z :: z0 :: z1 :: px) suf' 0 2 z z1 eq_refl eq_refl) as E.
    rewrite Nat.add_0_r in E. by rewrite E.
Qed.

Lemma bgr16_loop_ok stride pxs pre suf :
  (stride = 6 \/ stride = 8)%nat -> Forall (fun px => length px = stride) pxs ->
  bgr16_loop stride (length pxs) (length pre) (pre ++ concat pxs ++ suf) =
    Ok (tt, pre ++ concat (bgr_pixel 2 <$> pxs) ++ suf).
Proof using.
  intros Hs. apply (block_loop stride (bgr_pixel 2)
    (fun rp => swap_bytes rp (rp + 4) ;; swap_bytes (rp + 1) (rp + 5))).
  - done.
  - intros n rp mem. simpl. rewrite !M_bind_eq.
    by destruct (swap_bytes rp (rp + 4) mem) as [[[] ?]| |].
  - intros pre' px suf' Hpx. rewrite M_bind_eq.
    do 6 (destruct px as [|? px]; [destruct Hs; simplify_eq/=; lia|]).
    pose proof (swap_bytes_mid pre' (z :: z0 :: z1 :: z2 :: z3 :: z4 :: px) suf' 0 4 z z3
      eq_refl eq_refl) as E.
    rewrite Nat.add_0_r in E. rewrite E. split; [done|]. by erewrite swap_bytes_mid.
Qed.

Lemma swap_loop_ok pxs pre suf :
  Forall (fun px => length px = 2%nat) pxs ->
  swap_loop (length pxs) (length pre) (pre ++ concat pxs ++ suf) =
    Ok (tt, pre ++ concat (swap_sample <$> pxs) ++ suf).
Proof using.
  apply (block_loop 2 swap_sample (fun rp =>
    t ← load rp; v ← load (rp + 1); store rp v ;; store (rp + 1) t)).
  - done.
  - intros n rp mem. simpl. rewrite !M_bind_eq.
    destruct (load rp mem) as [[? ?]| |]; [|done|done]. rewrite !M_bind_eq.
    destruct (load (rp + 1) l) as [[? ?]| |]; [|done|done]. rewrite !M_bind_eq.
    destruct (store rp z0 l0) as [[? ?]| |]; [|done|done]. rewrite !M_bind_eq.
    by destruct (store (rp + 1) z l1) as [[[] ?]| |].
  - intros pre' px suf' Hpx. split; [unfold swap_sample; by rewrite length_reverse|].
    destruct px as [|a [|b [|]]]; try done.
    erewrite M_bind_ok by apply load_app.
    erewrite M_bind_ok by by apply (load_mid pre' [a; b]).
    erewrite M_bind_ok by apply store_app.
    apply (store_mid pre' [b; b]). simpl. lia.
Qed.

Lemma invert_loop_ok bs pre suf :
  invert_loop (length bs) (length pre) (pre ++ bs ++ suf) =
    Ok (tt, pre ++ ((fun b => u8 (Z.lnot b)) <$> bs) ++ suf).
Proof using.
  revert pre. induction bs as [|b bs IH]; intros pre; [done|]. cbn [invert_loop length app].
  erewrite M_bind_ok by apply load_app. erewrite M_bind_ok by apply store_app.
  specialize (IH (pre ++ [u8 (Z.lnot b)])). rewrite length_app, Nat.add_1_r in IH.
  rewrite <- !app_assoc in IH. exact IH.
Qed.

Lemma table_entry (table : list Z) d b :
  (forall k, (k < 256)%nat -> table !! k = Some (packswap_byte d (Z.of_nat k))) ->
  byte b -> table !! Z.to_nat b = Some (packswap_byte d b).
Proof using.
  intros Ht [Hb0 Hb1]. rewrite Ht by lia. by rewrite Z2Nat.id.
Qed.

Lemma packswap_loop_ok (table : list Z) d bs pre suf :
  (forall k, (k < 256)%nat -> table !! k = Some (packswap_byte d (Z.of_nat k))) ->
  Forall byte bs ->
  packswap_loop table (length bs) (length pre) (pre ++ bs ++ suf) =
    Ok (tt, pre ++ (packswap_byte d <$> bs) ++ suf).
Proof using.
  intros Ht Hbs. revert pre. induction Hbs as [|b bs Hb Hbs IH]; intros pre; [done|].
  cbn [packswap_loop length app].
  erewrite M_bind_ok by apply load_app. rewrite (table_entry table d) by done.
  erewrite M_bind_ok by apply store_app.
  specialize (IH (pre ++ [packswap_byte d b])). rewrite length_app, Nat.add_1_r in IH.
  rewrite <- !app_assoc in IH. exact IH.
Qed.

(** The three tables, entry by entry. *)
Definition table_ok (table : list Z) (d : Z) : bool :=
  forallb (fun k => bool_decide (table !! k = Some (packswap_byte d (Z.of_nat k)))) (seq 0 256).

Lemma table_ok_spec table d :
  table_ok table d = true ->
  forall k, (k < 256)%nat -> table !! k = Some (packswap_byte d (Z.of_nat k)).
Proof using.
  intros Ht k Hk. unfold table_ok in Ht. rewrite forallb_forall in Ht.
  specialize (Ht k). rewrite bool_decide_eq_true in Ht. apply Ht.
  apply in_seq. lia.
Qed.

(** A decidable fact about one byte, checked on all of them. *)
Lemma byte_all (P : Z -> Prop) `{!forall b, Decision (P b)} :
  forallb (fun k => bool_decide (P (Z.of_nat k))) (seq 0 256) = true ->
  forall b, byte b -> P b.
Proof using.
  intros Hall b [Hb0 Hb1]. rewrite forallb_forall in Hall.
  specialize (Hall (Z.to_nat b)). rewrite bool_decide_eq_true, Z2Nat.id in Hall by done.
  apply Hall, in_seq. lia.
Qed.

Lemma packswap_byte_involutive d b :
  d = 1 \/ d = 2 \/ d = 4 -> byte b -> byte (packswap_byte d b) /\ packswap_byte d (packswap_byte d b) = b.
Proof using.
  intros Hd. revert b. destruct Hd as [-> |[-> | ->]].
  all: apply (byte_all (fun b => byte (packswap_byte _ b) /\ packswap_byte _ (packswap_byte _ b) = b)).
  all: by vm_compute.
Qed.

(** *** Stripping: the copied bytes never overrun the source *)

Lemma copy_bytes_ok k pre gap src suf :
  length src = k ->
  exists gap', length gap' = length gap /\
    copy_bytes k (length pre) (length pre + length gap) (pre ++ gap ++ src ++ suf) =
      Ok (tt, pre ++ src ++ gap' ++ suf).
Proof using.
  revert pre gap src. induction k as [|k IH]; intros pre gap src Hsrc.
  { destruct src; [|done]. exists gap. done. }
  destruct src as [|x src]; [done|]. simplify_eq/=.
  assert (Hl : load (length pre + length gap) (pre ++ gap ++ x :: src ++ suf) =
    Ok (x, pre ++ gap ++ x :: src ++ suf)).
  { rewrite app_assoc, <- length_app. apply load_app. }
  erewrite M_bind_ok by exact Hl. destruct gap as [|g gap].
  - rewrite Nat.add_0_r. simpl. erewrite M_bind_ok by apply store_app.
    destruct (IH (pre ++ [x]) [] src eq_refl) as (gap' & Hg & E).
    exists gap'. split; [done|]. rewrite length_app in E. simpl in E.
    rewrite !Nat.add_1_r, Nat.add_0_r in E. rewrite <- !app_assoc in E. exact E.
  - simpl. erewrite M_bind_ok by apply store_app.
    destruct (IH (pre ++ [x]) (gap ++ [x]) src eq_refl) as (gap' & Hg & E).
    exists gap'. split; [rewrite Hg, length_app; simpl; lia|].
    rewrite !length_app in E. simpl in E. rewrite <- !app_assoc in E. simpl in E.
    replace (S (length pre)) with (length pre + 1)%nat by lia.
    replace (S (length pre + S (length gap)))%nat with (length pre + 1 + (length gap + 1))%nat by lia.
    exact E.
Qed.

Lemma strip_loop_ok p k q pxs pre gap suf :
  Forall (fun px => length px = p + k + q)%nat pxs ->
  exists gap', length gap' = (length gap + (p + q) * length pxs)%nat /\
    strip_loop p k q (length pxs) (length pre) (length pre + length gap)
      (pre ++ gap ++ concat pxs ++ suf) =
      Ok (tt, pre ++ concat ((fun px => take k (drop p px)) <$> pxs) ++ gap' ++ suf).
Proof using.
  intros Hpxs. revert pre gap. induction Hpxs as [|px pxs Hpx Hpxs IH]; intros pre gap.
  { exists gap. split; [simpl; lia|done]. }
  assert (Hpx' : px = take p px ++ take k (drop p px) ++ drop (p + k) px).
  { rewrite <- (take_drop p px) at 1. f_equal. rewrite <- (take_drop k (drop p px)) at 1.
    by rewrite drop_drop. }
  set (mid := take k (drop p px)) in *.
  assert (Hmid : length mid = k) by (unfold mid; rewrite length_take, length_drop; lia).
  cbn [strip_loop length concat fmap list_fmap].
  destruct (copy_bytes_ok k pre (gap ++ take p px) mid (drop (p + k) px ++ concat pxs ++ suf) Hmid)
    as (g1 & Hg1 & E1).
  rewrite length_app, length_take_le in E1, Hg1 by lia.
  destruct (IH (pre ++ mid) (g1 ++ drop (p + k) px)) as (g2 & Hg2 & E2).
  exists g2. split.
  { rewrite Hg2, length_app, Hg1, length_drop. lia. }
  rewrite M_bind_eq.
  assert (E0 : px ++ concat pxs = take p px ++ mid ++ drop (p + k) px ++ concat pxs)
    by (rewrite Hpx' at 1; by rewrite <- !app_assoc).
  rewrite E0.
  replace (length pre + length gap + p)%nat with (length pre + (length gap + p))%nat by lia.
  rewrite <- !app_assoc in E1. rewrite <- !app_assoc. rewrite E1.
  rewrite !length_app, Hmid, Hg1, length_drop in E2.
  rewrite <- !app_assoc in E2.
  replace (length pre + (length gap + p) + k + q)%nat
    with (length pre + k + (length gap + p + (length px - (p + k))))%nat by lia.
  fold mid. exact E2.
Qed.
End specs.

(** What png.h documents about its constants. *)
Class PngLaws `{PngH} : Prop := {
  rgb_has_color : Z.land PNG_COLOR_TYPE_RGB PNG_COLOR_MASK_COLOR <> 0;
  rgba_has_color : Z.land PNG_COLOR_TYPE_RGB_ALPHA PNG_COLOR_MASK_COLOR <> 0;
  rgb_not_rgba : PNG_COLOR_TYPE_RGB <> PNG_COLOR_TYPE_RGB_ALPHA;
  filler_flag_set : PNG_FLAG_FILLER_AFTER <> 0
}.

(** The values of libpng 1.0's png.h and of the PNG standard. *)
Definition png_h : PngH := {|
  PNG_BGR := 1; PNG_INTERLACE := 2; PNG_PACK := 4; PNG_SHIFT := 8; PNG_SWAP_BYTES := 16;
  PNG_INVERT_MONO := 32; PNG_PACKSWAP := 65536; PNG_FILLER := 32768;
  PNG_SWAP_ALPHA := 131072; PNG_INVERT_ALPHA := 524288;
  PNG_FILLER_AFTER := 1; PNG_FLAG_FILLER_AFTER := 128;
  PNG_COLOR_MASK_COLOR := 2; PNG_COLOR_MASK_ALPHA := 4;
  PNG_COLOR_TYPE_GRAY := 0; PNG_COLOR_TYPE_RGB := 2; PNG_COLOR_TYPE_RGB_ALPHA := 6
|}.

Lemma png_h_laws : @PngLaws png_h.
Proof. split; vm_compute; discriminate. Qed.

Section theorems.
Context `{PngLaws}.

Lemma on_row_ok ri r r' loop :
  loop r = Ok (tt, r') -> on_row ri (Some r) loop = Ok (Some ri, Some r').
Proof using. intros E. unfold on_row. by rewrite E. Qed.

Lemma guard_some {A B} (c : bool) (x : A) (y : B) :
  c && (bool_decide (Some x = None) || bool_decide (Some y = None)) = false.
Proof using. by destruct c. Qed.

Definition rgb_type (alpha : bool) : Z :=
  if alpha then PNG_COLOR_TYPE_RGB_ALPHA else PNG_COLOR_TYPE_RGB.

Lemma bgr_pixel_involutive (alpha : bool) s px :
  (s = 1 \/ s = 2)%nat -> length px = ((if alpha then 4 else 3) * s)%nat ->
  bgr_pixel s (bgr_pixel s px) = px /\ length (bgr_pixel s px) = length px.
Proof using.
  intros Hs Hl. destruct Hs as [-> | ->], alpha; simpl in Hl;
    repeat (destruct px as [|? px]; simplify_eq/=); done.
Qed.

Lemma png_do_bgr_run cfg ri alpha s pxs tail :
  (s = 1 \/ s = 2)%nat ->
  ri_bit_depth ri = 8 * Z.of_nat s -> ri_color_type ri = rgb_type alpha ->
  width ri = Z.of_nat (length pxs) ->
  Forall (fun px => length px = ((if alpha then 4 else 3) * s)%nat) pxs ->
  png_do_bgr cfg (Some ri) (Some (concat pxs ++ tail)) =
    Ok (Some ri, Some (concat (bgr_pixel s <$> pxs) ++ tail)).
Proof.
  intros Hs Hd Hc Hw Hpxs. unfold png_do_bgr. rewrite guard_some, Hd, Hc, Hw, Nat2Z.id.
  assert (Hcol : negb (Z.land (rgb_type alpha) PNG_COLOR_MASK_COLOR =? 0) = true).
  { apply negb_true_iff, Z.eqb_neq. destruct alpha; [apply rgba_has_color|apply rgb_has_color]. }
  rewrite Hcol. pose proof rgb_not_rgba as Hne.
  destruct Hs as [-> | ->]; simpl; destruct alpha; simpl; rewrite ?Z.eqb_refl.
  - destruct (Z.eqb_spec PNG_COLOR_TYPE_RGB_ALPHA PNG_COLOR_TYPE_RGB); [congruence|].
    apply on_row_ok. by apply (bgr8_loop_ok 4 pxs []); [right|].
  - apply on_row_ok. by apply (bgr8_loop_ok 3 pxs []); [left|].
  - destruct (Z.eqb_spec PNG_COLOR_TYPE_RGB_ALPHA PNG_COLOR_TYPE_RGB); [congruence|].
    apply on_row_ok. by apply (bgr16_loop_ok 8 pxs []); [right|].
  - apply on_row_ok. by apply (bgr16_loop_ok 6 pxs []); [left|].
Qed.

(** On a row of RGB or RGBA pixels of 8 or 16 bits per sample,
    [png_do_bgr] stays inside the row, exchanges red and blue in every pixel,
    leaves alpha and the bytes after the last pixel alone, and is its own
    inverse. *)
Theorem png_do_bgr_correct cfg ri alpha s pxs tail :
  (s = 1 \/ s = 2)%nat ->
  ri_bit_depth ri = 8 * Z.of_nat s -> ri_color_type ri = rgb_type alpha ->
  width ri = Z.of_nat (length pxs) ->
  Forall (fun px => length px = ((if alpha then 4 else 3) * s)%nat) pxs ->
  let row' := concat (bgr_pixel s <$> pxs) ++ tail in
  png_do_bgr cfg (Some ri) (Some (concat pxs ++ tail)) = Ok (Some ri, Some row') /\
  png_do_bgr cfg (Some ri) (Some row') = Ok (Some ri, Some (concat pxs ++ tail)).
Proof.
  intros Hs Hd Hc Hw Hpxs row'. split; [by eapply png_do_bgr_run|].
  unfold row'. erewrite (png_do_bgr_run cfg ri alpha s (bgr_pixel s <$> pxs) tail); try done.
  - do 4 f_equal. f_equal. apply (fmap_involutive _ _ _ (fun px Hp => proj1 (bgr_pixel_involutive alpha s px Hs Hp))). done.
  - by rewrite length_fmap.
  - apply Forall_fmap. eapply Forall_impl; [done|]. intros px Hp. simpl.
    by rewrite (proj2 (bgr_pixel_involutive alpha s px Hs Hp)).
Qed.

Lemma png_do_packswap_run cfg ri d bs tail :
  d = 1 \/ d = 2 \/ d = 4 -> ri_bit_depth ri = d -> rowbytes ri = Z.of_nat (length bs) ->
  Forall byte bs ->
  png_do_packswap cfg (Some ri) (Some (bs ++ tail)) =
    Ok (Some ri, Some ((packswap_byte d <$> bs) ++ tail)).
Proof using.
  intros Hd Hb Hr Hbs. unfold png_do_packswap. rewrite guard_some, Hb, Hr, Nat2Z.id.
  destruct Hd as [-> |[-> | ->]]; simpl; apply on_row_ok.
  - apply (packswap_loop_ok onebppswaptable 1 bs []); [|done].
    apply table_ok_spec. by vm_compute.
  - apply (packswap_loop_ok twobppswaptable 2 bs []); [|done].
    apply table_ok_spec. by vm_compute.
  - apply (packswap_loop_ok fourbppswaptable 4 bs []); [|done].
    apply table_ok_spec. by vm_compute.
Qed.

(** C8. For 1, 2 and 4 bits per pixel, the table-driven [png_do_packswap]
    replaces every byte of the row by the byte with its pixels in reverse
    order (the tables agree with the bit-level definition), keeps bytes
    bytes, and is its own inverse. *)
Theorem png_do_packswap_correct cfg ri d bs tail :
  d = 1 \/ d = 2 \/ d = 4 -> ri_bit_depth ri = d -> rowbytes ri = Z.of_nat (length bs) ->
  Forall byte bs ->
  let row' := (packswap_byte d <$> bs) ++ tail in
  png_do_packswap cfg (Some ri) (Some (bs ++ tail)) = Ok (Some ri, Some row') /\
  Forall byte (packswap_byte d <$> bs) /\
  png_do_packswap cfg (Some ri) (Some row') = Ok (Some ri, Some (bs ++ tail)).
Proof using.
  intros Hd Hb Hr Hbs row'.
  assert (Hbs' : Forall byte (packswap_byte d <$> bs)).
  { apply Forall_fmap. eapply Forall_impl; [done|]. intros b Hbb.
    by apply packswap_byte_involutive. }
  split_and!; [by apply png_do_packswap_run|done|].
  unfold row'. rewrite (png_do_packswap_run cfg ri d) by (done || by rewrite length_fmap).
  do 3 f_equal. f_equal. eapply fmap_involutive; [|exact Hbs].
  intros b Hbb. by apply packswap_byte_involutive.
Qed.

(** The loop of [png_do_strip_filler] on a whole row, with the filler first
    or last, and with or without the first pixel skipped. *)
Lemma strip_before_ok k s pxs tail :
  Forall (fun px => length px = s + k)%nat pxs ->
  exists gap', length gap' = (s * length pxs)%nat /\
    strip_loop s k 0 (length pxs) 0 0 (concat pxs ++ tail) =
      Ok (tt, concat (strip_pixel false s <$> pxs) ++ gap' ++ tail).
Proof using.
  intros Hp. destruct (strip_loop_ok s k 0 pxs [] [] tail) as (g & Hg & E).
  { eapply Forall_impl; [done|]. simpl. lia. }
  exists g. split; [simpl in Hg; lia|]. simpl in E. rewrite E. do 4 f_equal.
  apply list_fmap_ext. intros i px Hi. unfold strip_pixel. apply take_ge.
  rewrite Forall_lookup in Hp. apply Hp in Hi. rewrite length_drop. lia.
Qed.

Lemma strip_after_ok k s pxs tail :
  Forall (fun px => length px = k + s)%nat pxs ->
  exists gap', length gap' = (s * length pxs)%nat /\
    strip_loop 0 k s (length pxs) 0 0 (concat pxs ++ tail) =
      Ok (tt, concat (strip_pixel true s <$> pxs) ++ gap' ++ tail).
Proof using.
  intros Hp. destruct (strip_loop_ok 0 k s pxs [] [] tail) as (g & Hg & E).
  { eapply Forall_impl; [done|]. simpl. lia. }
  exists g. split; [simpl in Hg; lia|]. simpl in E. rewrite E. do 4 f_equal.
  apply list_fmap_ext. intros i px Hi. unfold strip_pixel. rewrite drop_0. f_equal.
  rewrite Forall_lookup in Hp. apply Hp in Hi. lia.
Qed.

Lemma strip_after_skip_ok k s pxs tail :
  Forall (fun px => length px = k + s)%nat pxs ->
  exists gap', length gap' = (s * length pxs)%nat /\
    strip_loop 0 k s (pred (length pxs)) k (k + s) (concat pxs ++ tail) =
      Ok (tt, concat (strip_pixel true s <$> pxs) ++ gap' ++ tail).
Proof using.
  intros Hp. destruct pxs as [|px pxs].
  { exists []. simpl. split; [lia|done]. }
  apply Forall_cons in Hp as [Hpx Hp].
  destruct (strip_loop_ok 0 k s pxs (take k px) (drop k px) tail) as (g & Hg & E).
  { eapply Forall_impl; [done|]. simpl. lia. }
  exists g. split; [rewrite length_drop in Hg; simpl in Hg; simpl; lia|].
  rewrite length_take_le, length_drop in E by lia.
  replace (k + (length px - k))%nat with (k + s)%nat in E by lia.
  rewrite app_assoc, (take_drop k px) in E. simpl. rewrite <- app_assoc, E.
  unfold strip_pixel at 1. replace (length px - s)%nat with k by lia.
  rewrite <- app_assoc. do 5 f_equal.
  apply list_fmap_ext. intros i px' Hi. unfold strip_pixel. rewrite drop_0. f_equal.
  rewrite Forall_lookup in Hp. apply Hp in Hi. lia.
Qed.

(** Pick the lemma for the loop in the goal. *)
Ltac strip_cases pxs tail gap Hg E :=
  lazymatch goal with
  | |- context [strip_loop 0 ?k ?q (Nat.pred (length pxs)) _ _] =>
      destruct (strip_after_skip_ok k q pxs tail) as (gap & Hg & E)
  | |- context [strip_loop 0 ?k ?q (length pxs) _ _] =>
      destruct (strip_after_ok k q pxs tail) as (gap & Hg & E)
  | |- context [strip_loop ?q ?k 0 (length pxs) _ _] =>
      destruct (strip_before_ok k q pxs tail) as (gap & Hg & E)
  end.

(** C9. On a row of two- or four-channel pixels of 8 or 16 bits,
    [png_do_strip_filler] compacts the row in place so that it starts with
    the pixels without their filler sample (the last one when the flag
    PNG_FLAG_FILLER_AFTER is set, else the first), never writes past the last
    pixel, and leaves a row_info whose channels, pixel depth, row bytes and
    alpha bit describe the compacted row. *)
Theorem png_do_strip_filler_correct cfg ri fl (four : bool) s pxs tail :
  (s = 1 \/ s = 2)%nat ->
  let ch := if four then 4%nat else 2%nat in
  let after := negb (Z.land fl PNG_FLAG_FILLER_AFTER =? 0) in
  ri_bit_depth ri = 8 * Z.of_nat s -> channels ri = Z.of_nat ch ->
  width ri = Z.of_nat (length pxs) ->
  Z.of_nat (length pxs * (pred ch * s)) < 2 ^ 32 ->
  Forall (fun px => length px = (ch * s)%nat) pxs ->
  exists ri' gap,
    png_do_strip_filler cfg (Some ri) (Some (concat pxs ++ tail)) fl =
      Ok (Some ri', Some (concat (strip_pixel after s <$> pxs) ++ gap ++ tail)) /\
    length gap = (s * length pxs)%nat /\
    width ri' = width ri /\ ri_bit_depth ri' = ri_bit_depth ri /\
    channels ri' = channels ri - 1 /\
    pixel_depth ri' = channels ri' * ri_bit_depth ri' /\
    rowbytes ri' = Z.of_nat (length (concat (strip_pixel after s <$> pxs))) /\
    Z.land (ri_color_type ri') PNG_COLOR_MASK_ALPHA = 0.
Proof using.
  intros Hs ch after Hd Hc Hw Hov Hp.
  assert (Hlen : length (concat (strip_pixel after s <$> pxs)) = (length pxs * (pred ch * s))%nat).
  { clear Hw Hov. induction Hp as [|px pxs Hpx Hp IH]; [done|].
    rewrite fmap_cons. simpl. rewrite length_app, IH. f_equal. unfold strip_pixel.
    destruct after; [rewrite length_take|rewrite length_drop]; rewrite Hpx;
      unfold ch; destruct four; simpl; lia. }
  assert (Hland : forall z, Z.land (Z.land z (Z.lnot PNG_COLOR_MASK_ALPHA)) PNG_COLOR_MASK_ALPHA = 0).
  { intros z. rewrite <- Z.land_assoc, (Z.land_comm (Z.lnot _)), Z.land_lnot_diag. apply Z.land_0_r. }
  rewrite Hlen. clear Hlen.
  unfold png_do_strip_filler. rewrite guard_some, Hd, Hc, Hw, Nat2Z.id. fold after.
  unfold ch in *. clear ch.
  destruct four, Hs as [-> | ->]; simpl in Hov, Hp |- *; destruct after eqn:Ea.
  all: strip_cases pxs tail gap Hg E; [by (eapply Forall_impl; [done|]; simpl; lia)|].
  all: eexists _, gap; split; [simpl in E |- *; by rewrite E|].
  all: simpl; rewrite ?Hd, ?Hc, ?Hw, ?wrapu_small by lia; split_and!; auto; lia.
Qed.

(** [png_do_swap] exchanges the two bytes of every 16-bit sample of the
    row and [png_do_invert] complements every byte of a one-bit gray row;
    both stay inside the row and undo themselves when run twice. *)
Theorem png_do_swap_invert_correct cfg ri (pxs : list (list Z)) bs tail :
  (ri_bit_depth ri = 16 -> width ri * channels ri = Z.of_nat (length pxs) ->
   Z.of_nat (length pxs) < 2 ^ 32 -> Forall (fun px => length px = 2%nat) pxs ->
   let row' := concat (swap_sample <$> pxs) ++ tail in
   png_do_swap cfg (Some ri) (Some (concat pxs ++ tail)) = Ok (Some ri, Some row') /\
   png_do_swap cfg (Some ri) (Some row') = Ok (Some ri, Some (concat pxs ++ tail))) /\
  (ri_bit_depth ri = 1 -> ri_color_type ri = PNG_COLOR_TYPE_GRAY ->
   rowbytes ri = Z.of_nat (length bs) -> Forall byte bs ->
   let row' := ((fun b => 255 - b) <$> bs) ++ tail in
   png_do_invert cfg (Some ri) (Some (bs ++ tail)) = Ok (Some ri, Some row') /\
   png_do_invert cfg (Some ri) (Some row') = Ok (Some ri, Some (bs ++ tail))).
Proof using.
  split.
  - intros Hd Hn Hov Hp row'.
    assert (Hrun : forall qs, length qs = length pxs -> Forall (fun px => length px = 2%nat) qs ->
      png_do_swap cfg (Some ri) (Some (concat qs ++ tail)) =
        Ok (Some ri, Some (concat (swap_sample <$> qs) ++ tail))).
    { intros qs Hl Hq. unfold png_do_swap. rewrite guard_some, Hd, Hn. simpl.
      rewrite wrapu_small, Nat2Z.id, <- Hl by lia. apply on_row_ok.
      by apply (swap_loop_ok qs []). }
    split; [by apply Hrun|]. unfold row'. rewrite Hrun.
    + do 4 f_equal. f_equal. apply (fmap_involutive (fun _ => True)); [|by apply Forall_true].
      intros px _. apply reverse_involutive.
    + by rewrite length_fmap.
    + apply Forall_fmap. eapply Forall_impl; [done|]. intros px Hx. simpl.
      unfold swap_sample. by rewrite length_reverse.
  - intros Hd Hc Hn Hb row'.
    assert (Hrun : forall qs, length qs = length bs -> Forall byte qs ->
      png_do_invert cfg (Some ri) (Some (qs ++ tail)) =
        Ok (Some ri, Some (((fun b => 255 - b) <$> qs) ++ tail))).
    { intros qs Hl Hq. unfold png_do_invert. rewrite Hd, Hc, Hn, Nat2Z.id, Z.eqb_refl, <- Hl.
      rewrite (bool_decide_true (Some (qs ++ tail) <> None)) by done.
      rewrite orb_true_r, Z.eqb_refl. simpl andb. cbn iota. apply on_row_ok.
      etransitivity; [exact (invert_loop_ok qs [] tail)|]. simpl. do 3 f_equal.
      eapply list_fmap_ext. intros i b Hi. rewrite Forall_lookup in Hq. apply Hq in Hi as [? ?].
      unfold wrapu, Z.lnot. symmetry. apply (Zmod_unique _ _ (-1)); lia. }
    split; [by apply Hrun|]. unfold row'. rewrite Hrun.
    + do 4 f_equal. apply (fmap_involutive byte); [|done]. unfold byte. lia.
    + by rewrite length_fmap.
    + apply Forall_fmap. eapply Forall_impl; [done|]. unfold byte. simpl. lia.
Qed.

(** The filler position that [png_set_filler] records is the one
    [png_do_strip_filler] tests, no other flag changes, and on an RGB image
    the recorded channel count is the four that the strip routine expects. *)
Theorem png_set_filler_roundtrip (p : png_struct) fill loc :
  negb (Z.land (flags (png_set_filler p fill loc)) PNG_FLAG_FILLER_AFTER =? 0)
    = (loc =? PNG_FILLER_AFTER) /\
  (forall n, Z.testbit PNG_FLAG_FILLER_AFTER n = false ->
     Z.testbit (flags (png_set_filler p fill loc)) n = Z.testbit (flags p) n) /\
  (forall n, Z.testbit (transformations (png_set_filler p fill loc)) n =
     Z.testbit (transformations p) n || Z.testbit PNG_FILLER n) /\
  (color_type p = PNG_COLOR_TYPE_RGB -> PNG_COLOR_TYPE_RGB <> PNG_COLOR_TYPE_GRAY ->
     usr_channels (png_set_filler p fill loc) = 4) /\
  0 <= filler (png_set_filler p fill loc) < 256.
Proof using H0.
  pose proof filler_flag_set as Hf. unfold png_set_filler; simpl. split_and!.
  - destruct (loc =? PNG_FILLER_AFTER); simpl.
    + apply negb_true_iff, Z.eqb_neq. rewrite Z.land_lor_distr_l, Z.land_diag.
      intros [_ E]%Z.lor_eq_0_iff. done.
    + by rewrite <- Z.land_assoc, (Z.land_comm (Z.lnot _)), Z.land_lnot_diag, Z.land_0_r.
  - intros n Hn. destruct (loc =? PNG_FILLER_AFTER); simpl.
    + by rewrite Z.lor_spec, Hn, orb_false_r.
    + destruct (decide (0 <= n)) as [Hn0|Hn0].
      * by rewrite Z.land_spec, Z.lnot_spec, Hn, andb_true_r by done.
      * by rewrite !Z.testbit_neg_r by lia.
  - intros n. apply Z.lor_spec.
  - intros Hc Hne. rewrite Hc, Z.eqb_refl.
    by destruct (Z.eqb_spec PNG_COLOR_TYPE_RGB PNG_COLOR_TYPE_GRAY).
  - apply wrapu_bounds. lia.
  - apply wrapu_bounds. lia.
Qed.

(** When the build has the useless tests, a null row or a null row_info
    is accepted by every routine and changes nothing, except that
    [png_do_invert] reads the null row_info before testing it. *)
Theorem png_null_arguments cfg ri row fl :
  PNG_USELESS_TESTS_SUPPORTED cfg = true ->
  (forall f, f ∈ [png_do_swap cfg; png_do_packswap cfg; png_do_bgr cfg;
                  (fun i r => png_do_strip_filler cfg i r fl)] ->
     f None row = Ok (None, row) /\ f ri None = Ok (ri, None)) /\
  png_do_invert cfg (Some (default (MkRow 0 0 0 0 0 0) ri)) None =
    Ok (Some (default (MkRow 0 0 0 0 0 0) ri), None) /\
  png_do_invert cfg None row = Err NullDeref.
Proof using.
  intros Hu. split_and!.
  - intros f Hf. list_cases Hf; unfold png_do_swap, png_do_packswap, png_do_bgr,
      png_do_strip_filler; rewrite Hu, (bool_decide_true (None = None)), ?orb_true_r by done;
      by split.
  - unfold png_do_invert. rewrite Hu, (bool_decide_false (None <> None)) by naive_solver.
    by rewrite andb_false_r.
  - done.
Qed.
End theorems.

(** ** The theorems at concrete rows *)
Definition ex_cfg : PngCfg := MkPngCfg true true.

(** Two RGBA pixels of 8 bits, then a byte that belongs to nobody. *)
Definition ex_rgba : png_row_info := MkRow 2 8 6 8 4 32.

Lemma png_do_bgr_correct_witness :
  @png_do_bgr png_h ex_cfg (Some ex_rgba) (Some [1; 2; 3; 4; 5; 6; 7; 8; 99]) =
    Ok (Some ex_rgba, Some [3; 2; 1; 4; 7; 6; 5; 8; 99]).
Proof.
  exact (proj1 (@png_do_bgr_correct png_h png_h_laws ex_cfg ex_rgba true 1
    [[1; 2; 3; 4]; [5; 6; 7; 8]] [99] (or_introl eq_refl) eq_refl eq_refl eq_refl
    ltac:(repeat constructor))).
Defined.

Lemma png_do_packswap_correct_witness :
  @png_do_packswap ex_cfg (Some (MkRow 16 2 0 1 1 1)) (Some [1; 0xF1; 7]) =
    Ok (Some (MkRow 16 2 0 1 1 1), Some [0x80; 0x8F; 7]).
Proof.
  exact (proj1 (@png_do_packswap_correct ex_cfg (MkRow 16 2 0 1 1 1) 1
    [1; 0xF1] [7] (or_introl eq_refl) eq_refl eq_refl
    ltac:(repeat constructor; unfold byte; lia))).
Defined.

Lemma png_do_strip_filler_correct_witness :
  exists ri' gap, @png_do_strip_filler png_h ex_cfg (Some ex_rgba)
      (Some [1; 2; 3; 4; 5; 6; 7; 8; 99]) 128 =
    Ok (Some ri', Some ([1; 2; 3; 5; 6; 7] ++ gap ++ [99])) /\ rowbytes ri' = 6.
Proof.
  destruct (@png_do_strip_filler_correct png_h ex_cfg ex_rgba 128 true 1
    [[1; 2; 3; 4]; [5; 6; 7; 8]] [99] (or_introl eq_refl) eq_refl eq_refl eq_refl
    ltac:(by vm_compute) ltac:(repeat constructor))
    as (ri' & gap & E & _ & _ & _ & _ & _ & Hrb & _).
  exists ri', gap. split; [exact E|exact Hrb].
Defined.

Lemma png_null_arguments_witness :
  @png_do_swap ex_cfg None (Some [1; 2]) = Ok (None, Some [1; 2]) /\
  @png_do_invert png_h ex_cfg None (Some [1; 2]) = Err NullDeref.
Proof.
  destruct (@png_null_arguments png_h ex_cfg None (Some [1; 2]) 0 eq_refl) as (Hf & _ & Hn).
  split; [|exact Hn]. apply (Hf (@png_do_swap ex_cfg)). apply list_elem_of_here.
Defined.

Lemma png_do_swap_invert_correct_witness :
  @png_do_swap ex_cfg (Some (MkRow 2 4 0 16 1 16)) (Some [1; 2; 3; 4; 9]) =
    Ok (Some (MkRow 2 4 0 16 1 16), Some [2; 1; 4; 3; 9]).
Proof.
  exact (proj1 (proj1 (@png_do_swap_invert_correct png_h ex_cfg (MkRow 2 4 0 16 1 16)
    [[1; 2]; [3; 4]] [] [9]) eq_refl eq_refl ltac:(by vm_compute) ltac:(repeat constructor))).
Defined.

Lemma png_set_filler_roundtrip_witness :
  negb (Z.land (flags (@png_set_filler png_h
    (MkPng 0 5 8 8 2 3 0 (MkColor8 0 0 0 0 0) 0 0 0 0 0) 0x1FF 1)) 128 =? 0) = true.
Proof.
  exact (proj1 (@png_set_filler_roundtrip png_h png_h_laws
    (MkPng 0 5 8 8 2 3 0 (MkColor8 0 0 0 0 0) 0 0 0 0 0) 0x1FF 1)).
Defined.
