(* ===== verification/CvsBuffer.v ===== *)
(** * CVS: chained buffers ([buffer.c])

    A buffer is a chain of [buffer_data] nodes of [BUFFER_DATA_SIZE] bytes;
    nodes are recycled through the global list [free_buffer_data].  The model
    keeps the heap of nodes, the free list and [errno] as the state of the
    prelude's monad; a [struct buffer] is a value that the operations take
    and return, its callbacks are functions over the closure it carries.

    [buffer.h], [xmalloc], [valloc] and the host's representation of an
    [int] are not part of the repository: they are the class [CvsEnv].  The
    operations are in this file, their invariant and theorems in
    [CvsBufferProofs]. *)
From S2P Require Import Prelude Heap.
Open Scope Z_scope.

Class CvsEnv := {
  BUFFER_DATA_SIZE : Z;
  SIZEOF_INT : Z;
  int_to_bytes : Z -> list Z;
  int_of_bytes : list Z -> Z;
  valloc_ok : nat -> bool;
  xmalloc_ok : Z -> bool;
  valloc_text : nat -> list Z;
  EIO : Z;
  ENOMEM : Z
}.

Definition ALLOC_COUNT : nat := 16.
Definition PACKET_SLOP : Z := 100.

(** ** Memory

    A node's [bufp] is its offset in [text]. *)
Record buffer_data := MkData {
  next : option loc;
  text : list Z;
  bufp : Z;
  bsize : Z
}.

(** [vallocs] counts the calls of [valloc]: [valloc_ok n] says whether the
    [n]-th one succeeds. *)
Record st := MkSt {
  heap : gmap loc buffer_data;
  free_buffer_data : option loc;
  vallocs : nat;
  errno : Z
}.

Abbreviation B := (M st cfault).


#[export] Instance st_store : Store st buffer_data := {
  the_heap := heap;
  with_heap h s := MkSt h (free_buffer_data s) (vallocs s) (errno s)
}.

#[export] Instance st_store_laws : StoreLaws st buffer_data.
Proof. by split. Qed.

Definition set_free (f : option loc) : B unit :=
  modS (fun s => MkSt (heap s) f (vallocs s) (errno s)).
Definition set_errno (e : Z) : B unit :=
  modS (fun s => MkSt (heap s) (free_buffer_data s) (vallocs s) e).
Definition get_free : B (option loc) := s ← getS; mret (free_buffer_data s).
Definition get_errno : B Z := s ← getS; mret (errno s).

Definition with_next (q : option loc) (d : buffer_data) : buffer_data :=
  MkData q (text d) (bufp d) (bsize d).
Definition with_size (n : Z) (d : buffer_data) : buffer_data :=
  MkData (next d) (text d) (bufp d) n.
Definition with_bufp (n : Z) (d : buffer_data) : buffer_data :=
  MkData (next d) (text d) n (bsize d).
Definition with_text (t : list Z) (d : buffer_data) : buffer_data :=
  MkData (next d) t (bufp d) (bsize d).

(** The bytes from [bufp] to [bufp + n], and [memcpy] into a node's text. *)
Definition peek (d : buffer_data) (n : Z) : list Z := ztake n (zdrop (bufp d) (text d)).

Definition memcpy_text (p : option loc) (off : Z) (bytes : list Z) : B unit :=
  x ← deref p;
  if (0 <=? off) && (off + zlen bytes <=? zlen (text x.2)) then
    assign p (fun d => with_text (overwrite (text d) off bytes) d)
  else throw OutOfBounds.

(** [memcpy] out of a node. *)
Definition memcpy_from (d : buffer_data) (n : Z) : B (list Z) :=
  if (0 <=? n) && (bufp d + n <=? zlen (text d)) then mret (peek d n) else throw OutOfBounds.

Definition memchr (c : Z) (l : list Z) : option Z :=
  (fun x => Z.of_nat x.1) <$> list_find (fun b => b = c) l.

(** ** struct buffer *)
Section buffer.
Context {C : Type}.

Record buffer := MkBuffer {
  data : option loc;
  last : option loc;
  nonblocking : bool;
  input : option (C -> Z -> Z -> B (Z * list Z * C));
  output : option (C -> list Z -> B (Z * Z * C));
  flush : option (C -> B (Z * C));
  block : option (C -> bool -> B (Z * C));
  memory_error : B unit;
  closure : C
}.

Definition set_data (p : option loc) (b : buffer) : buffer :=
  MkBuffer p (last b) (nonblocking b) (input b) (output b) (flush b) (block b)
    (memory_error b) (closure b).
Definition set_last (p : option loc) (b : buffer) : buffer :=
  MkBuffer (data b) p (nonblocking b) (input b) (output b) (flush b) (block b)
    (memory_error b) (closure b).
Definition set_nonblocking (n : bool) (b : buffer) : buffer :=
  MkBuffer (data b) (last b) n (input b) (output b) (flush b) (block b)
    (memory_error b) (closure b).
Definition set_closure (c : C) (b : buffer) : buffer :=
  MkBuffer (data b) (last b) (nonblocking b) (input b) (output b) (flush b) (block b)
    (memory_error b) c.
End buffer.
Arguments buffer : clear implicits.

Section ops.
Context `{CvsEnv} {C : Type}.
Implicit Types (b : buffer C).

(** [error (1, 0, "out of memory")] does not return. *)
Definition buf_default_memory_error : B unit := throw Aborted.

Definition buf_initialize input output flush block (memory : option (B unit)) (c : C) : buffer C :=
  MkBuffer None None false input output flush block
    (default buf_default_memory_error memory) c.

Definition buf_nonio_initialize (memory : option (B unit)) (c : C) : buffer C :=
  buf_initialize None None None None memory c.

Definition buf_free b : B unit :=
  if decide (data b = None) then mret tt else
  f ← get_free;
  assign (last b) (with_next f) ;;
  set_free (data b).

(** [text] of a node starts as whatever [valloc] returned. *)
Fixpoint allocate_loop (n : nat) : B unit :=
  match n with
  | O => mret tt
  | S n' =>
      s ← getS;
      let alc := new_loc (heap s) in
      putS (MkSt (<[alc := MkData (free_buffer_data s) (valloc_text alc) 0 0]> (heap s))
                 (Some alc) (vallocs s) (errno s)) ;;
      allocate_loop n'
  end.

Definition allocate_buffer_datas : B unit :=
  s ← getS;
  putS (MkSt (heap s) (free_buffer_data s) (S (vallocs s)) (errno s)) ;;
  if valloc_ok (vallocs s) then allocate_loop ALLOC_COUNT else mret tt.

Definition get_buffer_data : B (option loc) :=
  f ← get_free;
  (if decide (f = None) then allocate_buffer_datas else mret tt) ;;
  ret ← get_free;
  if decide (ret = None) then mret None else
  x ← deref ret;
  set_free (next x.2) ;;
  mret ret.

(** *** Tests and counts *)
Fixpoint empty_loop (fuel : nat) (p : option loc) : B bool :=
  match fuel with
  | O => fun _ => Timeout
  | S fuel' =>
      if decide (p = None) then mret true else
      x ← deref p;
      if bsize x.2 >? 0 then mret false else empty_loop fuel' (next x.2)
  end.

Definition buf_empty_p b : B bool := fuel ← walk_fuel; empty_loop fuel (data b).

Definition cint (z : Z) : Z := wraps (8 * SIZEOF_INT) z.

Fixpoint count_loop (fuel : nat) (p : option loc) (mem : Z) : B Z :=
  match fuel with
  | O => fun _ => Timeout
  | S fuel' =>
      if decide (p = None) then mret mem else
      x ← deref p;
      count_loop fuel' (next x.2) (cint (mem + BUFFER_DATA_SIZE))
  end.

Definition buf_count_mem b : B Z := fuel ← walk_fuel; count_loop fuel (data b) 0.

Fixpoint length_loop (fuel : nat) (p : option loc) (sz : Z) : B Z :=
  match fuel with
  | O => fun _ => Timeout
  | S fuel' =>
      if decide (p = None) then mret sz else
      x ← deref p;
      length_loop fuel' (next x.2) (cint (sz + bsize x.2))
  end.

Definition buf_chain_length (p : option loc) : B Z :=
  fuel ← walk_fuel; length_loop fuel p 0.

Definition buf_length b : B Z := buf_chain_length (data b).

(** *** Output *)

(** [if (buf->data == NULL) buf->data = p; else buf->last->next = p;
    p->next = NULL; buf->last = p]. *)
Definition link_last b (p : option loc) : B (buffer C) :=
  b' ← (if decide (data b = None) then mret (set_data p b)
        else assign (last b) (with_next p) ;; mret b);
  assign p (with_next None) ;;
  mret (set_last p b').

Fixpoint output_loop (fuel : nat) b (d : list Z) : B (buffer C) :=
  match fuel with
  | O => fun _ => Timeout
  | S fuel' =>
      newdata ← get_buffer_data;
      if decide (newdata = None) then memory_error b ;; mret b else
      b ← link_last b newdata;
      assign newdata (with_bufp 0) ;;
      if zlen d <=? BUFFER_DATA_SIZE then
        assign newdata (with_size (zlen d)) ;;
        memcpy_text newdata 0 d ;;
        mret b
      else
        assign newdata (with_size BUFFER_DATA_SIZE) ;;
        memcpy_text newdata 0 (ztake BUFFER_DATA_SIZE d) ;;
        output_loop fuel' b (zdrop BUFFER_DATA_SIZE d)
  end.

(** The room left in the last node. *)
Definition room (d : buffer_data) : Z := BUFFER_DATA_SIZE - (bufp d + bsize d).

(** [len] is the length of the byte list [d]; each turn of the loop consumes
    a full node, so its length is fuel enough. *)
Definition buf_output b (d : list Z) : B (buffer C) :=
  fits ← (if decide (data b = None) then mret None
          else x ← deref (last b);
               mret (if room x.2 >=? zlen d then Some x.2 else None));
  match fits with
  | Some nd =>
      memcpy_text (last b) (bufp nd + bsize nd) d ;;
      assign (last b) (with_size (bsize nd + zlen d)) ;;
      mret b
  | None => output_loop (S (length d)) b d
  end.

Fixpoint strlen_bytes (l : list Z) : list Z :=
  match l with
  | [] => []
  | c :: l' => if c =? 0 then [] else c :: strlen_bytes l'
  end.

Definition buf_output0 b (string : list Z) : B (buffer C) := buf_output b (strlen_bytes string).

Definition buf_append_char b (ch : Z) : B (buffer C) :=
  fits ← (if decide (data b = None) then mret None
          else x ← deref (last b);
               mret (if negb (room x.2 =? 0) then Some x.2 else None));
  match fits with
  | Some nd =>
      memcpy_text (last b) (bufp nd + bsize nd) [wrapu 8 ch] ;;
      assign (last b) (with_size (bsize nd + 1)) ;;
      mret b
  | None => buf_output b [wrapu 8 ch]
  end.

(** [p->next = free_buffer_data; free_buffer_data = q]. *)
Definition recycle (p q : option loc) : B unit :=
  f ← get_free;
  assign p (with_next f) ;;
  set_free q.

Fixpoint send_loop (fuel : nat) (out : C -> list Z -> B (Z * Z * C)) b : B (Z * buffer C) :=
  match fuel with
  | O => fun _ => Timeout
  | S fuel' =>
      if decide (data b = None) then mret (0, set_last None b) else
      x ← deref (data b);
      let pop b :=
        y ← deref (data b);
        let b' := set_data (next y.2) b in
        recycle (data b) (data b) ;;
        send_loop fuel' out b' in
      if bsize x.2 >? 0 then
        chunk ← memcpy_from x.2 (bsize x.2);
        r ← out (closure b) chunk;
        let '(status, nbytes, c) := r in
        let b := set_closure c b in
        if negb (status =? 0) then
          recycle (last b) (data b) ;;
          mret (status, set_last None (set_data None b))
        else
        y ← deref (data b);
        if negb (nbytes =? bsize y.2) then
          if nonblocking b then
            assign (data b) (fun d => with_bufp (bufp d + nbytes) (with_size (bsize d - nbytes) d)) ;;
            mret (0, b)
          else throw AssertFailed
        else pop b
      else pop b
  end.

Definition buf_send_output b : B (Z * buffer C) :=
  match output b with
  | None => throw Aborted
  | Some out => fuel ← walk_fuel; send_loop fuel out b
  end.

Definition set_nonblock b : B (Z * buffer C) :=
  if nonblocking b then mret (0, b) else
  match block b with
  | None => throw Aborted
  | Some f =>
      r ← f (closure b) false;
      let b := set_closure r.2 b in
      if negb (r.1 =? 0) then mret (r.1, b) else mret (0, set_nonblocking true b)
  end.

Definition set_block b : B (Z * buffer C) :=
  if negb (nonblocking b) then mret (0, b) else
  match block b with
  | None => throw Aborted
  | Some f =>
      r ← f (closure b) true;
      let b := set_closure r.2 b in
      if negb (r.1 =? 0) then mret (r.1, b) else mret (0, set_nonblocking false b)
  end.

Definition buf_flush b (blk : bool) : B (Z * buffer C) :=
  match flush b with
  | None => throw Aborted
  | Some fl =>
      let was := nonblocking b in
      r ← (if was && blk then set_block b else mret (0, b));
      if negb (r.1 =? 0) then mret r else
      r ← buf_send_output r.2;
      r ← (if r.1 =? 0 then
             q ← fl (closure r.2); mret (q.1, set_closure q.2 r.2)
           else mret r);
      if was && blk then
        q ← set_nonblock r.2;
        mret (if r.1 =? 0 then q else (r.1, q.2))
      else mret r
  end.

(** The two functions that put an [int] in front of the buffer. *)
Definition push_int b (p : option loc) (n : Z) : B (Z * buffer C) :=
  assign p (with_next (data b)) ;;
  let b := set_data p b in
  let b := if decide (last b = None) then set_last p b else b in
  assign p (with_bufp 0) ;;
  assign p (with_size SIZEOF_INT) ;;
  memcpy_text p 0 (int_to_bytes n) ;;
  buf_send_output b.

Definition buf_send_counted b : B (Z * buffer C) :=
  sz ← buf_chain_length (data b);
  p ← get_buffer_data;
  if decide (p = None) then memory_error b ;; mret (ENOMEM, b)
  else push_int b p sz.

Definition buf_send_special_count b (count : Z) : B (Z * buffer C) :=
  p ← get_buffer_data;
  if decide (p = None) then memory_error b ;; mret (ENOMEM, b)
  else push_int b p count.

Definition buf_append_data b (d l : option loc) : B (buffer C) :=
  if decide (d = None) then mret b else
  b' ← (if decide (data b = None) then mret (set_data d b)
        else assign (last b) (with_next d) ;; mret b);
  mret (set_last l b').
End ops.

Definition buf_append_buffer {C C'} (to : buffer C) (from : buffer C') : B (buffer C * buffer C') :=
  to' ← buf_append_data to (data from) (last from);
  mret (to', set_last None (set_data None from)).

(** ** stdio

    A [FILE] open for reading is the list of what its next reads meet; one
    open for writing records what was written and, in [wr_room], how many
    bytes can still be written before a write fails. *)
Inductive fevent := FByte (c : Z) | FEof | FError (e : Z).

Record FILE := MkFile {
  rd : list fevent;
  feof : bool;
  wr : list Z;
  wr_room : option nat;
  wr_errno : Z;
  flush_errno : option Z
}.

Definition set_rd (r : list fevent) (e : bool) (f : FILE) : FILE :=
  MkFile r e (wr f) (wr_room f) (wr_errno f) (flush_errno f).

(** Read at most [n] bytes: the bytes, what is left, whether the end was
    met, and the error number if a read failed. *)
Fixpoint fread_events (n : nat) (ev : list fevent) : list Z * list fevent * bool * option Z :=
  match n with
  | O => ([], ev, false, None)
  | S n' =>
      match ev with
      | [] => ([], [], true, None)
      | FEof :: ev' => ([], ev', true, None)
      | FError e :: ev' => ([], ev', false, Some e)
      | FByte c :: ev' =>
          let '(l, r, e, x) := fread_events n' ev' in (c :: l, r, e, x)
      end
  end.

Definition fread (n : Z) (f : FILE) : B (list Z * FILE) :=
  let '(l, r, e, x) := fread_events (Z.to_nat n) (rd f) in
  match x with Some no => set_errno no | None => mret tt end ;;
  mret (l, set_rd r (feof f || e) f).

Definition getc (f : FILE) : B (option Z * FILE) :=
  r ← fread 1 f;
  mret (head r.1, r.2).

Definition fwrite (d : list Z) (f : FILE) : B (Z * FILE) :=
  let n := match wr_room f with None => length d | Some k => Nat.min k (length d) end in
  (if decide (n = length d) then mret tt else set_errno (wr_errno f)) ;;
  mret (Z.of_nat n,
        MkFile (rd f) (feof f) (wr f ++ take n d) ((fun k => k - n)%nat <$> wr_room f)
               (wr_errno f) (flush_errno f)).

Definition fflush (f : FILE) : B Z :=
  match flush_errno f with
  | None => mret 0
  | Some e => set_errno e ;; mret (-1)
  end.

(** ** Input *)
Section input_ops.
Context `{CvsEnv} {C : Type}.
Implicit Types (b : buffer C).

(** Append [p] to the chain from [ret] to [lst]. *)
Definition chain_add (ret lst p : option loc) : B (option loc) :=
  ret' ← (if decide (ret = None) then mret p else assign lst (with_next p) ;; mret ret);
  assign p (with_next None) ;;
  mret ret'.

Definition empty_node (p : option loc) : B unit :=
  assign p (with_bufp 0) ;; assign p (with_size 0).

(** The label [error_return] of the two file readers. *)
Definition error_return (status : Z) (ret lst : option loc) (f : FILE) :
    B (Z * option loc * option loc * FILE) :=
  (if decide (ret = None) then mret tt else recycle lst ret) ;;
  mret (status, ret, lst, f).

Fixpoint read_file_loop (fuel : nat) (f : FILE) (sz : Z) (ret lst : option loc) :
    B (Z * option loc * option loc * FILE) :=
  match fuel with
  | O => fun _ => Timeout
  | S fuel' =>
      if negb (sz >? 0) then mret (0, ret, lst, f) else
      p ← get_buffer_data;
      if decide (p = None) then error_return (-2) ret lst f else
      ret ← chain_add ret lst p;
      empty_node p ;;
      let get := if sz >? BUFFER_DATA_SIZE then BUFFER_DATA_SIZE else sz in
      set_errno EIO ;;
      r ← fread get f;
      memcpy_text p 0 r.1 ;;
      if negb (zlen r.1 =? get) then
        e ← get_errno; error_return e ret p r.2
      else
        assign p (fun d => with_size (bsize d + get) d) ;;
        read_file_loop fuel' r.2 (sz - get) ret p
  end.

Definition buf_read_file (f : FILE) (sz : Z) : B (Z * option loc * option loc * FILE) :=
  read_file_loop (S (Z.to_nat sz)) f sz None None.

Fixpoint read_eof_loop (fuel : nat) (f : FILE) (ret lst : option loc) :
    B (Z * option loc * option loc * FILE) :=
  match fuel with
  | O => fun _ => Timeout
  | S fuel' =>
      if feof f then mret (0, ret, lst, f) else
      p ← get_buffer_data;
      if decide (p = None) then error_return (-2) ret lst f else
      ret ← chain_add ret lst p;
      empty_node p ;;
      set_errno EIO ;;
      r ← fread BUFFER_DATA_SIZE f;
      memcpy_text p 0 r.1 ;;
      if (zlen r.1 =? 0) && negb (feof r.2) then
        e ← get_errno; error_return e ret p r.2
      else
        assign p (with_size (zlen r.1)) ;;
        read_eof_loop fuel' r.2 ret p
  end.

(** Every turn but the last consumes an event of the file. *)
Definition buf_read_file_to_eof (f : FILE) : B (Z * option loc * option loc * FILE) :=
  read_eof_loop (2 + length (rd f)) f None None.

(** Make sure that the last node has room; [None] when memory is exhausted. *)
Definition ensure_room b : B (option (buffer C)) :=
  full ← (if decide (data b = None) then mret true
          else x ← deref (last b); mret (room x.2 =? 0)) : B bool;
  if full : bool then
    p ← get_buffer_data;
    if decide (p = None) then mret None else
    b ← link_last b p;
    empty_node p ;;
    mret (Some b)
  else mret (Some b).

(** The bytes that the input callback put after the last node's data. *)
Definition input_into (inp : C -> Z -> Z -> B (Z * list Z * C)) (need : Z) b :
    B (Z * Z * list Z * buffer C) :=
  x ← deref (last b);
  let get := room x.2 in
  r ← inp (closure b) need get;
  let '(status, bytes, c) := r in
  let b := set_closure c b in
  if negb (status =? 0) then mret (status, get, bytes, b) else
  y ← deref (last b);
  memcpy_text (last b) (bufp y.2 + bsize y.2) bytes ;;
  assign (last b) (with_size (bsize y.2 + zlen bytes)) ;;
  mret (0, get, bytes, b).

Fixpoint input_loop (fuel : nat) (inp : C -> Z -> Z -> B (Z * list Z * C)) b (count : Z) : B (Z * Z * buffer C) :=
  match fuel with
  | O => fun _ => Timeout
  | S fuel' =>
      e ← ensure_room b;
      match e with
      | None => memory_error b ;; mret (-2, count, b)
      | Some b =>
          r ← input_into inp 0 b;
          let '(status, get, bytes, b) := r in
          if negb (status =? 0) then mret (status, count, b) else
          let count := cint (count + zlen bytes) in
          if zlen bytes <? get then mret (0, count, b) else input_loop fuel' inp b count
      end
  end.

(** The status, [*countp] and the buffer. *)
Definition buf_input_data (fuel : nat) b : B (Z * Z * buffer C) :=
  match input b with
  | None => throw Aborted
  | Some inp => input_loop fuel inp b 0
  end.

Definition buf_empty (fuel : nat) b : B (bool * buffer C) :=
  r ← buf_input_data fuel b;
  e ← buf_empty_p r.2;
  mret (e, r.2).

(** *** Lines *)

(** The number of bytes before the first newline of the chain, in an [int], the
    node that holds it and its offset in that node's data. *)
Fixpoint find_newline (fuel : nat) (p : option loc) (len : Z) : B (Z * option (option loc * Z)) :=
  match fuel with
  | O => fun _ => Timeout
  | S fuel' =>
      if decide (p = None) then mret (len, None) else
      x ← deref p;
      chunk ← memcpy_from x.2 (bsize x.2);
      match memchr 10 chunk with
      | Some finallen => mret (cint (len + finallen), Some (p, finallen))
      | None => find_newline fuel' (next x.2) (cint (len + bsize x.2))
      end
  end.

(** [memcpy (p, bytes)] into the line buffer of [size] bytes. *)
Definition line_memcpy (size : Z) (acc bytes : list Z) : B (list Z) :=
  if zlen acc + zlen bytes <=? size then mret (acc ++ bytes) else throw OutOfBounds.

Fixpoint line_copy (fuel : nat) (p nldata : option loc) (size : Z) (acc : list Z) : B (list Z) :=
  match fuel with
  | O => fun _ => Timeout
  | S fuel' =>
      if decide (p = nldata) then mret acc else
      x ← deref p;
      chunk ← memcpy_from x.2 (bsize x.2);
      acc ← line_memcpy size acc chunk;
      recycle p p ;;
      line_copy fuel' (next x.2) nldata size acc
  end.

(** Copy the line out of the buffer and remove it. *)
Definition take_line b (len : Z) (nldata : option loc) (finallen : Z) :
    B (Z * option (list Z) * Z * buffer C) :=
  let size := cint (len + 1) in
  if negb (xmalloc_ok size) then mret (-2, None, 0, b) else
  fuel ← walk_fuel;
  acc ← line_copy fuel (data b) nldata size [];
  x ← deref nldata;
  chunk ← memcpy_from x.2 finallen;
  acc ← line_memcpy size acc chunk;
  acc ← line_memcpy size acc [0];
  assign nldata (fun d => with_bufp (bufp d + finallen + 1) (with_size (bsize d - (finallen + 1)) d)) ;;
  mret (0, Some acc, len, set_data nldata b).

Fixpoint fill_line (fuel : nat) (inp : C -> Z -> Z -> B (Z * list Z * C)) b : B (Z * buffer C) :=
  match fuel with
  | O => fun _ => Timeout
  | S fuel' =>
      e ← ensure_room b;
      match e with
      | None => memory_error b ;; mret (-2, b)
      | Some b =>
          r ← input_into inp 1 b;
          let '(status, get, bytes, b) := r in
          if negb (status =? 0) then mret (status, b) else
          let found := if zlen bytes =? 1 then bool_decide (head bytes = Some 10)
                       else bool_decide (memchr 10 bytes <> None) in
          if found then mret (0, b) else fill_line fuel' inp b
      end
  end.

Fixpoint read_line_loop (fuel : nat) (inp : C -> Z -> Z -> B (Z * list Z * C)) b : B (Z * option (list Z) * Z * buffer C) :=
  match fuel with
  | O => fun _ => Timeout
  | S fuel' =>
      wf ← walk_fuel;
      r ← find_newline wf (data b) 0;
      match r.2 with
      | Some (nldata, finallen) => take_line b r.1 nldata finallen
      | None =>
          q ← fill_line fuel' inp b;
          if negb (q.1 =? 0) then mret (q.1, None, 0, q.2) else read_line_loop fuel' inp q.2
      end
  end.

(** The status, [*line] with its final null byte, [*lenp] and the buffer. *)
Definition buf_read_line (fuel : nat) b : B (Z * option (list Z) * Z * buffer C) :=
  match input b with
  | None => throw Aborted
  | Some inp => read_line_loop fuel inp b
  end.

(** *** Data *)
Fixpoint drop_empty (fuel : nat) b : B (buffer C) :=
  match fuel with
  | O => fun _ => Timeout
  | S fuel' =>
      if decide (data b = None) then mret b else
      x ← deref (data b);
      if negb (bsize x.2 =? 0) then mret b else
      recycle (data b) (data b) ;;
      let b := set_data (next x.2) b in
      drop_empty fuel' (if decide (next x.2 = None) then set_last None b else b)
  end.

(** [*retdata] and [*got] are returned as the list of the [got] bytes. *)
Definition hand_out (want : Z) b : B (Z * list Z * buffer C) :=
  x ← deref (data b);
  if want <? bsize x.2 then
    chunk ← memcpy_from x.2 want;
    assign (data b) (fun d => with_bufp (bufp d + want) (with_size (bsize d - want) d)) ;;
    mret (0, chunk, b)
  else
    chunk ← memcpy_from x.2 (bsize x.2);
    assign (data b) (with_size 0) ;;
    mret (0, chunk, b).

Definition buf_read_data b (want : Z) : B (Z * list Z * buffer C) :=
  match input b with
  | None => throw Aborted
  | Some inp =>
      fuel ← walk_fuel;
      b ← drop_empty fuel b;
      if decide (data b = None) then
        p ← get_buffer_data;
        if decide (p = None) then memory_error b ;; mret (-2, [], b) else
        let b := set_last p (set_data p b) in
        assign p (with_next None) ;;
        empty_node p ;;
        let get := if want <? BUFFER_DATA_SIZE then want else BUFFER_DATA_SIZE in
        r ← inp (closure b) get BUFFER_DATA_SIZE;
        let '(status, bytes, c) := r in
        let b := set_closure c b in
        if negb (status =? 0) then mret (status, [], b) else
        memcpy_text p 0 bytes ;;
        assign p (with_size (zlen bytes)) ;;
        hand_out want b
      else hand_out want b
  end.
End input_ops.

(** ** From one buffer to another *)
Section copy_ops.
Context `{CvsEnv} {C C' : Type}.
Implicit Types (outbuf : buffer C) (inbuf : buffer C').

(** Fuel for the copy loops: every turn takes at least a byte out of
    [inbuf]. *)
Definition copy_fuel : B nat := n ← walk_fuel; mret (S (n * Z.to_nat BUFFER_DATA_SIZE))%nat.

Fixpoint last_before (fuel : nat) (p stop : option loc) : B (option loc) :=
  match fuel with
  | O => fun _ => Timeout
  | S fuel' =>
      x ← deref p;
      if decide (next x.2 = stop) then mret p else last_before fuel' (next x.2) stop
  end.

(** Move the nodes from [start] up to [stop], which is not included. *)
Definition move_nodes outbuf (start stop : option loc) : B (buffer C) :=
  fuel ← walk_fuel;
  p ← last_before fuel start stop;
  assign p (with_next None) ;;
  buf_append_data outbuf start p.

(** Copy [len] bytes of a node out and step over them. *)
Definition copy_part outbuf (p : option loc) (len : Z) : B (buffer C) :=
  x ← deref p;
  chunk ← memcpy_from x.2 len;
  outbuf ← buf_output outbuf chunk;
  assign p (fun d => with_bufp (bufp d + len) (with_size (bsize d - len) d)) ;;
  mret outbuf.

Fixpoint copy_lines_loop (fuel : nat) outbuf inbuf (command : Z) : B (buffer C * buffer C') :=
  match fuel with
  | O => fun _ => Timeout
  | S fuel' =>
      wf ← walk_fuel;
      r ← find_newline wf (data inbuf) 0;
      match r.2 with
      | None => mret (outbuf, inbuf)
      | Some (nldata, nl) =>
          outbuf ← buf_append_char outbuf command;
          outbuf ← buf_append_char outbuf 32;
          outbuf ← (if decide (data inbuf = nldata) then mret outbuf
                    else move_nodes outbuf (data inbuf) nldata);
          let inbuf := set_data nldata inbuf in
          x ← deref nldata;
          let len := nl + 1 in
          if len =? bsize x.2 then
            let inbuf := set_data (next x.2) inbuf in
            let inbuf := if decide (data inbuf = None) then set_last None inbuf else inbuf in
            assign nldata (with_next None) ;;
            outbuf ← buf_append_data outbuf nldata nldata;
            copy_lines_loop fuel' outbuf inbuf command
          else
            outbuf ← copy_part outbuf nldata len;
            copy_lines_loop fuel' outbuf inbuf command
      end
  end.

Definition buf_copy_lines outbuf inbuf (command : Z) : B (buffer C * buffer C') :=
  fuel ← copy_fuel; copy_lines_loop fuel outbuf inbuf command.

(** The first [need] bytes of the chain; the node in which they end and how
    many of its bytes they take.  Without enough bytes, how many miss. *)
Fixpoint find_int (fuel : nat) (p : option loc) (need : Z) (intp : list Z) :
    B (Z * option (option loc * list Z)) :=
  match fuel with
  | O => fun _ => Timeout
  | S fuel' =>
      if decide (p = None) then mret (need, None) else
      x ← deref p;
      if bsize x.2 >=? need then
        chunk ← memcpy_from x.2 need;
        mret (need, Some (p, intp ++ chunk))
      else
        chunk ← memcpy_from x.2 (bsize x.2);
        find_int fuel' (next x.2) (need - bsize x.2) (intp ++ chunk)
  end.

Fixpoint find_stop (fuel : nat) (p : option loc) (need : Z) : B (Z * option loc) :=
  match fuel with
  | O => fun _ => Timeout
  | S fuel' =>
      if decide (p = None) then mret (need, None) else
      x ← deref p;
      if need <=? bsize x.2 then mret (need, p) else find_stop fuel' (next x.2) (need - bsize x.2)
  end.

Fixpoint free_before (fuel : nat) inbuf (start : option loc) : B (buffer C') :=
  match fuel with
  | O => fun _ => Timeout
  | S fuel' =>
      if decide (data inbuf = start) then mret inbuf else
      x ← deref (data inbuf);
      recycle (data inbuf) (data inbuf) ;;
      free_before fuel' (set_data (next x.2) inbuf) start
  end.

(** The node and the number of its bytes at which the counted data stops;
    [inr] is the number of bytes that miss. *)
Definition locate_stop (start : option loc) (startoff count : Z) : B (option loc * Z + Z) :=
  if count <? 0 then mret (inl (start, 0)) else
  x ← deref start;
  let need := count - (bsize x.2 - startoff) in
  if need <=? 0 then mret (inl (start, count)) else
  fuel ← walk_fuel;
  r ← find_stop fuel (next x.2) need;
  mret (if decide (r.2 = None) then inr r.1 else inl (r.2, r.1)).

(** Forget the count and the nodes before the data: the remaining [start],
    [stop] and [stopwant]. *)
Definition forget_count inbuf (start : option loc) (startoff : Z) (stop : option loc) (stopwant : Z) :
    B (option loc * option loc * Z * buffer C') :=
  assign start (fun d => with_bufp (bufp d + startoff) (with_size (bsize d - startoff) d)) ;;
  x ← deref start;
  let start := if bsize x.2 =? 0 then next x.2 else start in
  y ← deref stop;
  let '(stop, stopwant) := if bsize y.2 =? stopwant then (next y.2, 0) else (stop, stopwant) in
  fuel ← walk_fuel;
  inbuf ← free_before fuel inbuf start;
  mret (start, stop, stopwant, inbuf).

Fixpoint copy_counted_loop (fuel : nat) outbuf inbuf : B (Z * Z * buffer C * buffer C') :=
  match fuel with
  | O => fun _ => Timeout
  | S fuel' =>
      wf ← walk_fuel;
      r ← find_int wf (data inbuf) SIZEOF_INT [];
      match r.2 with
      | None => mret (r.1, 0, outbuf, inbuf)
      | Some (start, intbuf) =>
          let count := int_of_bytes intbuf in
          q ← locate_stop start r.1 count;
          match q with
          | inr need => mret (need, 0, outbuf, inbuf)
          | inl (stop, stopwant) =>
              t ← forget_count inbuf start r.1 stop stopwant;
              let '(start, stop, stopwant, inbuf) := t in
              if count <? 0 then mret (0, count, outbuf, inbuf) else
              p ← (if decide (start = stop) then mret (outbuf, inbuf)
                   else let inbuf := set_data stop inbuf in
                        outbuf ← move_nodes outbuf start stop;
                        mret (outbuf, inbuf));
              let '(outbuf, inbuf) := p in
              outbuf ← (if stopwant >? 0 then copy_part outbuf stop stopwant else mret outbuf);
              copy_counted_loop fuel' outbuf inbuf
          end
      end
  end.

(** The bytes needed, [*special] and the two buffers. *)
Definition buf_copy_counted outbuf inbuf : B (Z * Z * buffer C * buffer C') :=
  fuel ← copy_fuel; copy_counted_loop fuel outbuf inbuf.
End copy_ops.

(** ** stdio buffers *)
Section stdio.
Context `{CvsEnv}.

Record stdio_buffer_closure := MkStdio { fp : FILE; child_pid : Z }.
Definition set_fp (f : FILE) (bc : stdio_buffer_closure) : stdio_buffer_closure :=
  MkStdio f (child_pid bc).

Definition io_error : B Z := e ← get_errno; mret (if e =? 0 then EIO else e).

(** On success the bytes read; the status is -1 at the end of the file. *)
Definition stdio_buffer_input (bc : stdio_buffer_closure) (need size : Z) :
    B (Z * list Z * stdio_buffer_closure) :=
  if (need =? 0) || (need =? 1) then
    r ← getc (fp bc);
    let bc := set_fp r.2 bc in
    match r.1 with
    | None => if feof (fp bc) then mret (-1, [], bc) else e ← io_error; mret (e, [], bc)
    | Some ch => mret (0, [wrapu 8 ch], bc)
    end
  else
    r ← fread need (fp bc);
    let bc := set_fp r.2 bc in
    if zlen r.1 =? 0 then
      if feof (fp bc) then mret (-1, [], bc) else e ← io_error; mret (e, [], bc)
    else mret (0, r.1, bc).

(** The loop runs once: a short write returns. *)
Definition stdio_buffer_output (bc : stdio_buffer_closure) (d : list Z) :
    B (Z * Z * stdio_buffer_closure) :=
  if negb (zlen d >? 0) then mret (0, 0, bc) else
  r ← fwrite d (fp bc);
  let bc := set_fp r.2 bc in
  if negb (r.1 =? zlen d) then e ← io_error; mret (e, 0, bc) else mret (0, r.1, bc).

Definition stdio_buffer_flush (bc : stdio_buffer_closure) : B (Z * stdio_buffer_closure) :=
  r ← fflush (fp bc);
  if negb (r =? 0) then e ← io_error; mret (e, bc) else mret (0, bc).

Definition stdio_buffer_initialize (f : FILE) (pid : Z) (inp : bool) (memory : option (B unit)) :
    buffer stdio_buffer_closure :=
  buf_initialize (if inp then Some stdio_buffer_input else None)
    (if inp then None else Some stdio_buffer_output)
    (if inp then None else Some stdio_buffer_flush)
    None memory (MkStdio f pid).

Definition stdio_buffer_get_file (b : buffer stdio_buffer_closure) : FILE := fp (closure b).
End stdio.

(** ** Shutdown

    The [shutdown] callback takes the buffer itself, so it is kept beside it. *)
Record shut_buffer (C : Type) := MkShut {
  sb : buffer C;
  shutdown : option (buffer C -> B (Z * buffer C))
}.
Arguments MkShut {C}.
Arguments sb {C}.
Arguments shutdown {C}.

Definition buf_shutdown {C} (b : shut_buffer C) : B (Z * shut_buffer C) :=
  match shutdown b with
  | Some f => r ← f (sb b); mret (r.1, MkShut r.2 (shutdown b))
  | None => mret (0, b)
  end.

(** ** Packetizing buffers

    [fnclosure] is the state of the translation functions, which map the
    input bytes to a status and the bytes they store in their output. *)
Section packetizing.
Context `{CvsEnv} {C F : Type}.

Record packetizing_buffer := MkPb {
  buf : buffer C;
  inpfn : option (F -> list Z -> Z * list Z * F);
  outfn : option (F -> list Z -> Z * list Z * F);
  fnclosure : F;
  translated : bool;
  holdsize : Z;
  holdbuf : list Z;
  holdbufsize : Z;
  holddata : Z
}.
Implicit Types (pb : packetizing_buffer).

Definition set_buf (b : buffer C) pb : packetizing_buffer :=
  MkPb b (inpfn pb) (outfn pb) (fnclosure pb) (translated pb) (holdsize pb) (holdbuf pb)
    (holdbufsize pb) (holddata pb).
Definition set_fnclosure (f : F) pb : packetizing_buffer :=
  MkPb (buf pb) (inpfn pb) (outfn pb) f (translated pb) (holdsize pb) (holdbuf pb)
    (holdbufsize pb) (holddata pb).
Definition set_hold (t : bool) (hs hd : Z) pb : packetizing_buffer :=
  MkPb (buf pb) (inpfn pb) (outfn pb) (fnclosure pb) t hs (holdbuf pb) (holdbufsize pb) hd.
Definition set_holdbuf (l : list Z) (n : Z) pb : packetizing_buffer :=
  MkPb (buf pb) (inpfn pb) (outfn pb) (fnclosure pb) (translated pb) (holdsize pb) l n
    (holddata pb).

(** [memcpy (pb->holdbuf + off, bytes)]. *)
Definition hold_write pb (off : Z) (bytes : list Z) : B packetizing_buffer :=
  if (0 <=? off) && (off + zlen bytes <=? holdbufsize pb) then
    mret (set_holdbuf (overwrite (holdbuf pb) off bytes) (holdbufsize pb) pb)
  else throw OutOfBounds.

(** [n] bytes of an array from [off]. *)
Definition array_read (l : list Z) (off n : Z) : B (list Z) :=
  if (0 <=? off) && (0 <=? n) && (off + n <=? zlen l) then mret (ztake n (zdrop off l))
  else throw OutOfBounds.

(** The two-byte big-endian size at the start of an array. *)
Definition packet_size (l : list Z) : B Z :=
  match l with
  | hi :: lo :: _ => mret (Z.shiftl (Z.land hi 0xff) 8 + Z.land lo 0xff)
  | _ => throw OutOfBounds
  end.

Definition packet_header (n : Z) : list Z := [Z.land (Z.shiftr n 8) 0xff; Z.land n 0xff].

Definition no_memory_status (status : Z) : Z := if status =? -2 then ENOMEM else status.

(** What one turn of the input loop does: return a status, go round again,
    or deliver bytes and go round. *)
Inductive turn :=
| TReturn (status : Z) (got : list Z) (pb : packetizing_buffer)
| TContinue (pb : packetizing_buffer)
| TDeliver (got : list Z) (pb : packetizing_buffer).

(** Get the two bytes of the count. *)
Definition input_count pb : B turn :=
  if negb (holdsize pb <? 2) then mret (TDeliver [] pb) else
  let get := 2 - holdsize pb in
  r ← buf_read_data (buf pb) get;
  let '(status, bytes, b) := r in
  let pb := set_buf b pb in
  if negb (status =? 0) then mret (TReturn (no_memory_status status) [] pb) else
  if zlen bytes =? 0 then mret (TReturn 0 [] pb) else
  b0 ← array_read bytes 0 1;
  if get =? 1 then
    pb ← hold_write pb 1 b0;
    mret (TDeliver [] (set_hold (translated pb) 2 (holddata pb) pb))
  else
    pb ← hold_write pb 0 b0;
    if zlen bytes <? 2 then mret (TContinue (set_hold (translated pb) 1 (holddata pb) pb)) else
    b1 ← array_read bytes 1 1;
    pb ← hold_write pb 1 b1;
    mret (TDeliver [] (set_hold (translated pb) 2 (holddata pb) pb)).

(** Translate the [count] bytes of [inb] into a fresh array. *)
Definition input_translate pb (inb : list Z) (count : Z) :
    B (Z * list Z * packetizing_buffer + Z * packetizing_buffer) :=
  let stack := BUFFER_DATA_SIZE + PACKET_SLOP in
  if (count >? stack) && negb (xmalloc_ok count) then
    memory_error (buf pb) ;; mret (inr (ENOMEM, pb))
  else
  let cap := if count <=? stack then stack else count in
  match inpfn pb with
  | None => throw NullDeref
  | Some f =>
      inp ← array_read inb 0 count;
      let '(status, out, c) := f (fnclosure pb) inp in
      let pb := set_fnclosure c pb in
      if zlen out <=? cap then
        mret (inl (status, out ++ replicate (Z.to_nat (cap - zlen out)) 0, pb))
      else throw OutOfBounds
  end.

(** Hand the translated packet over, keeping what exceeds [size]. *)
Definition input_deliver pb (outb : list Z) (count size : Z) : B turn :=
  tcount ← packet_size outb;
  if tcount >? count then throw Aborted else
  if tcount >? size then
    got ← array_read outb 2 size;
    rest ← array_read outb (2 + size) (tcount - size);
    pb ← hold_write (set_hold (translated pb) (tcount - size) (holddata pb) pb) 0 rest;
    mret (TReturn 0 got (set_hold true (holdsize pb) 0 pb))
  else
    got ← array_read outb 2 tcount;
    mret (TDeliver got (set_hold (translated pb) 0 (holddata pb) pb)).

(** Read the packet, of which the count is already in [holdbuf]. *)
Definition input_packet pb (size : Z) : B turn :=
  count ← packet_size (holdbuf pb);
  if (count + 2 >? holdbufsize pb) && negb (xmalloc_ok (count + 2)) then
    memory_error (buf pb) ;; mret (TReturn ENOMEM [] pb)
  else
  let pb := if count + 2 >? holdbufsize pb
            then set_holdbuf (holdbuf pb ++ replicate (Z.to_nat (count + 2 - holdbufsize pb)) 0)
                   (count + 2) pb
            else pb in
  let get := count - (holdsize pb - 2) in
  r ← buf_read_data (buf pb) get;
  let '(status, bytes, b) := r in
  let pb := set_buf b pb in
  if negb (status =? 0) then mret (TReturn (no_memory_status status) [] pb) else
  if zlen bytes =? 0 then mret (TReturn 0 [] pb) else
  if zlen bytes <? get then
    pb ← hold_write pb (holdsize pb) bytes;
    mret (TContinue (set_hold (translated pb) (holdsize pb + zlen bytes) (holddata pb) pb))
  else
  whole ← (if holdsize pb =? 2 then mret (pb, bytes)
           else pb ← hold_write pb (holdsize pb) bytes; mret (pb, zdrop 2 (holdbuf pb)));
  let '(pb, inb) := whole in
  t ← input_translate pb inb count;
  match t with
  | inr (status, pb) => mret (TReturn status [] pb)
  | inl (status, outb, pb) =>
      if negb (status =? 0) then mret (TReturn status [] pb) else input_deliver pb outb count size
  end.

Fixpoint packet_loop (fuel : nat) pb (need size : Z) (got : list Z) :
    B (Z * list Z * packetizing_buffer) :=
  match fuel with
  | O => fun _ => Timeout
  | S fuel' =>
      if negb ((need >? 0) || (zlen got =? 0)) then mret (0, got, pb) else
      t ← input_count pb;
      match t with
      | TReturn status d pb => mret (status, got ++ d, pb)
      | TContinue pb => packet_loop fuel' pb need size got
      | TDeliver _ pb =>
          u ← input_packet pb size;
          match u with
          | TReturn status d pb => mret (status, got ++ d, pb)
          | TContinue pb => packet_loop fuel' pb need size got
          | TDeliver d pb =>
              packet_loop fuel' pb (need - zlen d) (size - zlen d) (got ++ d)
          end
      end
  end.

Definition packetizing_buffer_input (fuel : nat) pb (need size : Z) :
    B (Z * list Z * packetizing_buffer) :=
  if (holdsize pb >? 0) && translated pb then
    let copy := holdsize pb in
    if copy >? size then
      d ← array_read (holdbuf pb) (holddata pb) size;
      mret (0, d, set_hold (translated pb) (holdsize pb - size) (holddata pb + size) pb)
    else
      d ← array_read (holdbuf pb) (holddata pb) copy;
      packet_loop fuel (set_hold false 0 (holddata pb) pb) (need - copy) (size - copy) d
  else packet_loop fuel pb need size [].

(** [outbuf] is the text of a fresh node, or an array on the stack. *)
Definition packetizing_buffer_output pb (d : list Z) : B (Z * Z * packetizing_buffer) :=
  let have := zlen d in
  if have >? BUFFER_DATA_SIZE then throw Aborted else
  let inb := packet_header have ++ d in
  let size := have + 2 in
  let stack := size + PACKET_SLOP + 2 >? BUFFER_DATA_SIZE in
  outdata ← (if stack then mret None else get_buffer_data);
  if negb stack && bool_decide (outdata = None) then
    memory_error (buf pb) ;; mret (ENOMEM, 0, pb)
  else
  (if stack then mret tt
   else assign outdata (with_next None) ;; assign outdata (with_bufp 0)) ;;
  match outfn pb with
  | None => throw NullDeref
  | Some f =>
      let '(status, out, c) := f (fnclosure pb) inb in
      let pb := set_fnclosure c pb in
      let cap := if stack then BUFFER_DATA_SIZE + PACKET_SLOP + 4 else BUFFER_DATA_SIZE in
      if zlen out + 2 >? cap then throw OutOfBounds else
      (if stack then mret tt else memcpy_text outdata 2 out) ;;
      if negb (status =? 0) then mret (status, 0, pb) else
      let n := zlen out in
      if n >? size + PACKET_SLOP then throw Aborted else
      b ← (if stack then buf_output (buf pb) (packet_header n ++ out)
           else memcpy_text outdata 0 (packet_header n) ;;
                assign outdata (with_size (n + 2)) ;;
                buf_append_data (buf pb) outdata outdata);
      r ← buf_send_output b;
      mret (r.1, have, set_buf r.2 pb)
  end.

Definition packetizing_buffer_flush pb : B (Z * packetizing_buffer) :=
  r ← buf_flush (buf pb) false;
  mret (r.1, set_buf r.2 pb).

Definition packetizing_buffer_block pb (blk : bool) : B (Z * packetizing_buffer) :=
  r ← (if blk then set_block (buf pb) else set_nonblock (buf pb));
  mret (r.1, set_buf r.2 pb).

Definition packetizing_buffer_initialize (fuel : nat) (b : buffer C)
    (inp outp : option (F -> list Z -> Z * list Z * F)) (c : F) (memory : option (B unit)) :
    buffer packetizing_buffer :=
  let n := BUFFER_DATA_SIZE + PACKET_SLOP + 2 in
  let is_inp := bool_decide (is_Some inp) in
  let pb := MkPb b inp outp c false 0
              (if is_inp then replicate (Z.to_nat n) 0 else []) (if is_inp then n else 0) 0 in
  buf_initialize
    (if is_inp then Some (packetizing_buffer_input fuel) else None)
    (if is_inp then None else Some packetizing_buffer_output)
    (if is_inp then None else Some packetizing_buffer_flush)
    (Some packetizing_buffer_block) memory pb.

(** Shutting a packetizing buffer down shuts the underlying buffer down. *)
Definition packetizing_buffer_shutdown (under : option (buffer C -> B (Z * buffer C)))
    (b : buffer packetizing_buffer) : B (Z * buffer packetizing_buffer) :=
  r ← buf_shutdown (MkShut (buf (closure b)) under);
  mret (r.1, set_closure (set_buf (sb r.2) (closure b)) b).
End packetizing.
