(* ===== verification/CvsBufferProofs.v ===== *)
(** * CVS buffers: invariant and theorems

    [pool s fl R] says that the heap of [s] is exactly the free list [fl] and
    the nodes [R] of all the buffers: an operation that keeps it neither
    loses a node nor shares one between two chains.  [buf_ok b xs] says that
    [xs] is the chain of buffer [b]; [bytes xs] is what the buffer holds. *)
From S2P Require Import Prelude Heap CvsBuffer.
Open Scope Z_scope.

Class CvsLaws `{CvsEnv} : Prop := {
  int_fits : 0 < SIZEOF_INT <= BUFFER_DATA_SIZE;
  int_len n : zlen (int_to_bytes n) = SIZEOF_INT;
  int_roundtrip n : - 2 ^ (8 * SIZEOF_INT - 1) <= n < 2 ^ (8 * SIZEOF_INT - 1) ->
    int_of_bytes (int_to_bytes n) = n;
  valloc_size l : zlen (valloc_text l) = BUFFER_DATA_SIZE
}.

(** ** Nodes *)
Definition node_ok `{CvsEnv} (d : buffer_data) : Prop :=
  0 <= bufp d /\ 0 <= bsize d /\ bufp d + bsize d <= BUFFER_DATA_SIZE.

Definition node_bytes (d : buffer_data) : list Z := peek d (bsize d).

Abbreviation node := (loc * buffer_data)%type.

Definition bytes (xs : list node) : list Z := concat ((fun x => node_bytes x.2) <$> xs).

Lemma bytes_app xs ys : bytes (xs ++ ys) = bytes xs ++ bytes ys.
Proof. unfold bytes. by rewrite fmap_app, concat_app. Qed.

Lemma bytes_cons l nd xs : bytes ((l, nd) :: xs) = node_bytes nd ++ bytes xs.
Proof. done. Qed.

(** Adding to the end of a node, and taking from its front. *)
Lemma peek_append nd d :
  0 <= bufp nd -> 0 <= bsize nd -> bufp nd + bsize nd + zlen d <= zlen (text nd) ->
  node_bytes (with_size (bsize nd + zlen d)
    (with_text (overwrite (text nd) (bufp nd + bsize nd) d) nd)) = node_bytes nd ++ d.
Proof.
  intros Hp Hs Hl. pose proof (zlen_nonneg d). unfold node_bytes, peek, overwrite. simpl.
  rewrite ztake_split by lia. rewrite ztake_split by lia.
  set (t := text nd) in *. set (p := bufp nd) in *. set (n := bsize nd) in *.
  assert (Hpre : zlen (ztake p t) = p) by (apply zlen_ztake; lia).
  assert (Hmid : zlen (ztake n (zdrop p t)) = n).
  { apply zlen_ztake. rewrite zlen_zdrop; lia. }
  rewrite <- !app_assoc. rewrite (zdrop_app p) by done.
  rewrite (ztake_app n) by done. rewrite (zdrop_app n) by done. by rewrite (ztake_app (zlen d)).
Qed.

Lemma peek_advance nd n :
  0 <= bufp nd -> 0 <= n <= bsize nd ->
  peek nd n ++ node_bytes (with_bufp (bufp nd + n) (with_size (bsize nd - n) nd)) = node_bytes nd.
Proof.
  intros Hp Hn. unfold node_bytes, peek. simpl.
  replace (bsize nd) with (n + (bsize nd - n)) at 2 by lia.
  rewrite ztake_split by lia. by rewrite zdrop_zdrop by lia.
Qed.

Lemma zlen_peek nd n :
  0 <= bufp nd -> 0 <= n -> bufp nd + n <= zlen (text nd) -> zlen (peek nd n) = n.
Proof. intros. unfold peek. rewrite zlen_ztake; [done|]. rewrite zlen_zdrop; lia. Qed.

Section pool.
Context `{CvsLaws}.

Lemma BDS_pos : 0 < BUFFER_DATA_SIZE.
Proof. pose proof int_fits. lia. Qed.

Record pool (s : st) (fl R : list node) : Prop := {
  pool_owns : owns (heap s) (fl ++ R);
  pool_free : linked next (free_buffer_data s) fl None;
  pool_text : Forall (fun x => zlen (text x.2) = BUFFER_DATA_SIZE) (fl ++ R)
}.

#[export] Instance pool_proper s fl : Proper ((≡ₚ) ==> iff) (pool s fl).
Proof.
  intros R R' E. split; intros []; split; try done;
    first [by rewrite E | by rewrite <- E].
Qed.

Lemma pool_deref s fl R l nd : pool s fl R -> (l, nd) ∈ R -> deref (Some l) s = Ok ((l, nd), s).
Proof. intros [Ho _ _] Hin. eapply deref_ok; [exact Ho|]. set_solver. Qed.

Lemma pool_text_of s fl R l nd : pool s fl R -> (l, nd) ∈ R -> zlen (text nd) = BUFFER_DATA_SIZE.
Proof.
  intros [_ _ Ht] Hin. rewrite Forall_forall in Ht. apply (Ht (l, nd)). set_solver.
Qed.

Lemma pool_upd s fl l nd nd' R :
  pool s fl ((l, nd) :: R) -> zlen (text nd') = BUFFER_DATA_SIZE ->
  pool (upd l nd' s) fl ((l, nd') :: R).
Proof.
  intros [Ho Hf Ht] Hn. split.
  - rewrite <- Permutation_middle in Ho |- *. exact (upd_owns (S := st) s l nd nd' _ Ho).
  - done.
  - rewrite Forall_app, Forall_cons in Ht |- *. naive_solver.
Qed.

Lemma pool_assign s fl l nd R f :
  pool s fl ((l, nd) :: R) -> zlen (text (f nd)) = BUFFER_DATA_SIZE ->
  assign (Some l) f s = Ok (tt, upd l (f nd) s) /\ pool (upd l (f nd) s) fl ((l, f nd) :: R).
Proof.
  intros Hp Hn. split; [|by apply (pool_upd _ _ _ nd)].
  eapply assign_ok; [apply (pool_owns _ _ _ Hp)|]. set_solver.
Qed.

Lemma pool_NoDup s fl R : pool s fl R -> NoDup ((fl ++ R).*1).
Proof. intros [Ho _ _]. by eapply owns_NoDup. Qed.

Lemma pool_walk s fl R : pool s fl R -> walk_fuel (V := buffer_data) s = Ok (S (length (fl ++ R)), s).
Proof. intros [Ho _ _]. by apply (walk_fuel_ok (S := st)). Qed.

(** Moving a node to the free list, alone or with the chain it ends. *)
Lemma recycle_ok s fl q xs l nd R :
  pool s fl ((xs ++ [(l, nd)]) ++ R) -> linked next q xs (Some l) ->
  exists s', recycle (Some l) q s = Ok (tt, s') /\
    pool s' ((xs ++ [(l, with_next (free_buffer_data s) nd)]) ++ fl) R /\
    vallocs s' = vallocs s /\ errno s' = errno s.
Proof.
  intros Hp Hl. unfold recycle. rewrite M_bind_eq. simpl.
  assert (Hp' : pool s fl ((l, nd) :: xs ++ R)).
  { eapply pool_proper; [|exact Hp]. solve_Permutation. }
  assert (Ht : zlen (text nd) = BUFFER_DATA_SIZE).
  { apply (pool_text_of _ _ _ l nd Hp'). set_solver. }
  destruct (pool_assign _ _ _ _ _ (with_next (free_buffer_data s)) Hp') as [E Hp2]; [done|].
  erewrite M_bind_ok by exact E. eexists; split; [done|]. split; [|done].
  destruct Hp2 as [Ho Hf Ht2]. split; simpl in *.
  - eapply owns_proper; [|exact Ho]. solve_Permutation.
  - apply linked_app. exists (free_buffer_data s). split; [|done].
    by apply linked_snoc.
  - eapply Forall_perm; [|exact Ht2]. solve_Permutation.
Qed.

(** *** Allocation *)
Lemma allocate_loop_ok n s fl R :
  pool s fl R ->
  exists s' new, allocate_loop n s = Ok (tt, s') /\ pool s' (new ++ fl) R /\
    length new = n /\ vallocs s' = vallocs s /\ errno s' = errno s.
Proof.
  revert s fl. induction n as [|n IH]; intros s fl Hp; simpl.
  { by exists s, []. }
  set (l := new_loc (heap s)). set (nd := MkData (free_buffer_data s) (valloc_text l) 0 0).
  set (s1 := MkSt (<[l := nd]> (heap s)) (Some l) (vallocs s) (errno s)).
  assert (Hp1 : pool s1 ((l, nd) :: fl) R).
  { destruct Hp as [Ho Hf Ht]. split; simpl.
    - apply owns_alloc; [done|apply new_loc_fresh].
    - done.
    - constructor; [apply valloc_size|done]. }
  destruct (IH s1 _ Hp1) as (s' & new & E & Hp' & Hn & Hv & He).
  exists s', (new ++ [(l, nd)]). split_and!; [exact E| |rewrite length_app; simpl; lia|done|done].
  by rewrite <- app_assoc.
Qed.

#[local] Arguments allocate_loop : simpl never.

Lemma ALLOC_COUNT_pos : ALLOC_COUNT <> O.
Proof. done. Qed.
#[local] Opaque ALLOC_COUNT.

(** Either a node that belongs to nobody, or memory is exhausted: the free
    list is empty and [valloc] failed. *)
Lemma get_buffer_data_ok s fl R :
  pool s fl R ->
  (exists l nd fl' s', get_buffer_data s = Ok (Some l, s') /\ pool s' fl' ((l, nd) :: R) /\
     errno s' = errno s) \/
  (exists s', get_buffer_data s = Ok (None, s') /\ pool s' [] R /\ fl = [] /\
     valloc_ok (vallocs s) = false /\ errno s' = errno s).
Proof.
  intros Hp. unfold get_buffer_data.
  assert (Hpop : forall s1 l nd fl1, pool s1 ((l, nd) :: fl1) R -> errno s1 = errno s ->
    exists s', (ret ← get_free;
      if decide (ret = None) then mret None else
      x ← deref ret; set_free (next x.2) ;; mret ret) s1 = Ok (Some l, s') /\
      pool s' fl1 ((l, nd) :: R) /\ errno s' = errno s).
  { intros s1 l nd fl1 [Ho Hf Ht] He. simpl in Hf. destruct Hf as [Hf Hl].
    rewrite M_bind_eq. simpl. rewrite Hf. simpl.
    erewrite M_bind_ok by (eapply deref_ok; [exact Ho|apply list_elem_of_here]).
    eexists. split; [done|]. split; [|done]. split; simpl.
    - eapply owns_proper; [|exact Ho]. solve_Permutation.
    - done.
    - eapply Forall_perm; [|exact Ht]. solve_Permutation. }
  rewrite M_bind_eq. simpl. destruct fl as [|[l nd] fl1].
  - destruct (Hp) as [_ Hf _]. simpl in Hf. rewrite Hf. simpl.
    rewrite M_bind_eq. unfold allocate_buffer_datas. rewrite M_bind_eq. simpl.
    destruct (valloc_ok (vallocs s)) eqn:Ev.
    + set (s1 := MkSt (heap s) (free_buffer_data s) (S (vallocs s)) (errno s)).
      assert (Hp1 : pool s1 [] R) by (destruct Hp as [Ho Hf' Ht]; by constructor).
      rewrite (M_bind_ok _ _ _ tt s1) by done.
      destruct (allocate_loop_ok ALLOC_COUNT s1 [] R Hp1) as (s2 & new & E & Hp2 & Hn & Hv & He).
      rewrite E. rewrite app_nil_r in Hp2.
      destruct new as [|[l nd] fl1]; [by destruct ALLOC_COUNT_pos|].
      destruct (Hpop s2 l nd fl1 Hp2 He) as (s' & E' & Hp' & He').
      left. exists l, nd, fl1, s'. exact (conj E' (conj Hp' He')).
    + right. rewrite !M_bind_eq. simpl. rewrite Hf. simpl.
      eexists. split; [done|]. split; [|done]. destruct Hp as [Ho Hf' Ht]; by constructor.
  - rewrite decide_False.
    2:{ destruct Hp as [_ [Hf _] _]. by rewrite Hf. }
    rewrite M_bind_eq. cbn [mret M_ret].
    destruct (Hpop s l nd fl1 Hp eq_refl) as (s' & E' & Hp' & He').
    left. exists l, nd, fl1, s'. by rewrite E'.
Qed.

(** *** Buffers *)
Record buf_ok {C} (b : buffer C) (xs : list node) : Prop := {
  ok_data : linked next (data b) xs None;
  ok_last : forall ys l nd, xs = ys ++ [(l, nd)] -> last b = Some l;
  ok_nodes : Forall (fun x => node_ok x.2) xs
}.

(** [last] is null when the buffer is empty. *)
Definition last_clean {C} (b : buffer C) (xs : list node) : Prop := xs = [] -> last b = None.

(** [b'] differs from [b] in [data] and [last] only. *)
Definition same_io {C} (b b' : buffer C) : Prop := b' = set_last (last b') (set_data (data b') b).

Lemma same_io_refl {C} (b : buffer C) : same_io b b.
Proof. by destruct b. Qed.

Lemma same_io_trans {C} (b1 b2 b3 : buffer C) : same_io b1 b2 -> same_io b2 b3 -> same_io b1 b3.
Proof. unfold same_io. intros -> ->. done. Qed.

Lemma same_io_set {C} (b : buffer C) p q : same_io b (set_last p (set_data q b)).
Proof. done. Qed.

Lemma same_io_data {C} (b : buffer C) p : same_io b (set_data p b).
Proof. done. Qed.

Lemma same_io_last {C} (b : buffer C) p : same_io b (set_last p b).
Proof. done. Qed.

Lemma buf_ok_closure {C} (b : buffer C) c xs : buf_ok b xs -> buf_ok (set_closure c b) xs.
Proof. by intros [Hd Hl Hn]. Qed.

(** The chain with another link at its end. *)
Definition relink (q : option loc) (xs : list node) : list node :=
  match reverse xs with
  | [] => []
  | (l, nd) :: ys => reverse ys ++ [(l, with_next q nd)]
  end.

Lemma relink_snoc q xs l nd : relink q (xs ++ [(l, nd)]) = xs ++ [(l, with_next q nd)].
Proof. unfold relink. rewrite reverse_app. simpl. by rewrite reverse_involutive. Qed.

Lemma bytes_relink q xs : bytes (relink q xs) = bytes xs.
Proof.
  destruct xs as [|[l nd] xs _] using rev_ind; [done|].
  by rewrite relink_snoc, !bytes_app.
Qed.

Lemma node_ok_relink q xs :
  Forall (fun x => node_ok x.2) xs -> Forall (fun x => node_ok x.2) (relink q xs).
Proof.
  destruct xs as [|[l nd] xs _] using rev_ind; [done|].
  rewrite relink_snoc, !Forall_app, !Forall_singleton. done.
Qed.

Lemma linked_relink p q xs r :
  linked next p xs r -> xs <> [] -> linked next p (relink q xs) q.
Proof.
  destruct xs as [|[l nd] xs _] using rev_ind; [done|]. rewrite relink_snoc.
  intros [Hl _]%linked_snoc _. by apply linked_snoc.
Qed.

(** Append the chain [ys] that starts at [p] to the chain of [b]: the shape
    of [buf_append_data], and of every function that links a new node. *)
Lemma append_nodes_ok {C} s fl (b : buffer C) xs ys p R :
  pool s fl (xs ++ ys ++ R) -> buf_ok b xs -> linked next p ys None -> p <> None ->
  exists s', (if decide (data b = None) then mret (set_data p b)
              else assign (last b) (with_next p) ;; mret b) s =
    Ok (set_data (if decide (data b = None) then p else data b) b, s') /\
    pool s' fl (relink p xs ++ ys ++ R) /\
    linked next (if decide (data b = None) then p else data b) (relink p xs ++ ys) None /\
    errno s' = errno s.
Proof.
  intros Hp [Hd Hl Hn] Hy Hne. destruct (decide (data b = None)) as [E|E].
  - assert (xs = []) as ->.
    { apply linked_None_inv in Hd. by apply Hd. }
    exists s. done.
  - destruct xs as [|[l nd] xs _] using rev_ind.
    { simpl in Hd. done. }
    rewrite (Hl xs l nd) by done. rewrite relink_snoc.
    assert (Hp' : pool s fl ((l, nd) :: xs ++ ys ++ R)).
    { eapply pool_proper; [|exact Hp]. solve_Permutation. }
    destruct (pool_assign _ _ _ _ _ (with_next p) Hp') as [Ea Hp2].
    { simpl. apply (pool_text_of _ _ _ l nd Hp'). set_solver. }
    erewrite M_bind_ok by exact Ea. eexists. split; [by destruct b|]. split_and!; [| |done].
    + eapply pool_proper; [|exact Hp2]. solve_Permutation.
    + apply linked_app. exists p. split; [|done].
      apply linked_snoc in Hd as [Hd _]. by apply linked_snoc.
Qed.

(** *** One node of a chain *)
Lemma pool_assign_mid s fl xs l nd R f :
  pool s fl (xs ++ (l, nd) :: R) -> zlen (text (f nd)) = BUFFER_DATA_SIZE ->
  assign (Some l) f s = Ok (tt, upd l (f nd) s) /\ pool (upd l (f nd) s) fl (xs ++ (l, f nd) :: R).
Proof.
  intros Hp Hn. rewrite <- Permutation_middle in Hp |- *. by apply pool_assign.
Qed.

Lemma pool_deref_mid s fl xs l nd R :
  pool s fl (xs ++ (l, nd) :: R) -> deref (Some l) s = Ok ((l, nd), s).
Proof. intros Hp. eapply pool_deref; [exact Hp|]. apply list_elem_of_middle. Qed.

Lemma pool_text_mid s fl xs l nd R :
  pool s fl (xs ++ (l, nd) :: R) -> zlen (text nd) = BUFFER_DATA_SIZE.
Proof. intros Hp. eapply pool_text_of; [exact Hp|]. apply list_elem_of_middle. Qed.

Lemma memcpy_text_mid s fl xs l nd R off d :
  pool s fl (xs ++ (l, nd) :: R) -> 0 <= off -> off + zlen d <= BUFFER_DATA_SIZE ->
  let nd' := with_text (overwrite (text nd) off d) nd in
  memcpy_text (Some l) off d s = Ok (tt, upd l nd' s) /\ pool (upd l nd' s) fl (xs ++ (l, nd') :: R).
Proof.
  intros Hp Ho Hd nd'. pose proof (pool_text_mid _ _ _ _ _ _ Hp) as Ht.
  unfold memcpy_text. erewrite M_bind_ok by (by eapply pool_deref_mid).
  cbn [snd]. rewrite Ht, (proj2 (Z.leb_le 0 off)), (proj2 (Z.leb_le _ _)) by lia. cbn [andb].
  apply (pool_assign_mid _ _ _ _ nd _ (fun d0 => with_text (overwrite (text d0) off d) d0)); [done|].
  simpl. rewrite zlen_overwrite; lia.
Qed.

Lemma memcpy_from_ok (s : st) nd n :
  zlen (text nd) = BUFFER_DATA_SIZE -> 0 <= n -> bufp nd + n <= BUFFER_DATA_SIZE ->
  memcpy_from nd n s = Ok (peek nd n, s).
Proof.
  intros Ht H0' Hn. unfold memcpy_from.
  by rewrite Ht, (proj2 (Z.leb_le 0 n)), (proj2 (Z.leb_le _ _)) by lia.
Qed.

Lemma linked_replace p xs l nd nd' ys q :
  linked next p (xs ++ (l, nd) :: ys) q -> next nd' = next nd ->
  linked next p (xs ++ (l, nd') :: ys) q.
Proof. rewrite !linked_app. simpl. intros (r & H1 & H2 & H3) ->. eauto. Qed.

Lemma buf_ok_intro {C} (b : buffer C) xs l nd :
  linked next (data b) (xs ++ [(l, nd)]) None -> last b = Some l ->
  Forall (fun x => node_ok x.2) xs -> node_ok nd -> buf_ok b (xs ++ [(l, nd)]).
Proof.
  intros Hd Hl Hx Hn. split; [done| |].
  - intros ys l' nd' [_ [= <- <-]]%app_inj_2; done.
  - by rewrite Forall_app, Forall_singleton.
Qed.

Lemma link_last_ok {C} s fl (b : buffer C) xs l nd R :
  pool s fl ((l, nd) :: xs ++ R) -> buf_ok b xs ->
  exists s' b', link_last b (Some l) s = Ok (b', s') /\
    pool s' fl (relink (Some l) xs ++ (l, with_next None nd) :: R) /\
    linked next (data b') (relink (Some l) xs ++ [(l, with_next None nd)]) None /\
    last b' = Some l /\ same_io b b' /\ errno s' = errno s.
Proof.
  intros Hp Hb. unfold link_last. set (nd0 := with_next None nd).
  (* the new node is a chain of one only after its link is cleared, so the two
     writes are exchanged against the node's position *)
  assert (Hstep : exists s1 d1, (if decide (data b = None) then mret (set_data (Some l) b)
      else assign (last b) (with_next (Some l)) ;; mret b) s = Ok (set_data d1 b, s1) /\
      pool s1 fl (relink (Some l) xs ++ (l, nd) :: R) /\
      linked next d1 (relink (Some l) xs) (Some l) /\ errno s1 = errno s).
  { destruct Hb as [Hd Hl Hn]. destruct (decide (data b = None)) as [E|E].
    - assert (xs = []) as -> by (apply linked_None_inv in Hd; by apply Hd).
      exists s, (Some l). done.
    - destruct xs as [|[k kd] xs _] using rev_ind; [done|].
      rewrite (Hl xs k kd) by done. rewrite relink_snoc.
      assert (Hp' : pool s fl ((k, kd) :: xs ++ (l, nd) :: R)).
      { eapply pool_proper; [|exact Hp]. solve_Permutation. }
      destruct (pool_assign _ _ _ _ _ (with_next (Some l)) Hp') as [Ea Hp2].
      { simpl. apply (pool_text_of _ _ _ k kd Hp'). set_solver. }
      erewrite M_bind_ok by exact Ea. eexists _, (data b). split; [by destruct b|].
      split_and!; [| |done].
      + eapply pool_proper; [|exact Hp2]. solve_Permutation.
      + apply linked_snoc in Hd as [Hd _]. by apply linked_snoc. }
  destruct Hstep as (s1 & d1 & E1 & Hp1 & Hl1 & He1).
  erewrite M_bind_ok by exact E1.
  destruct (pool_assign_mid _ _ _ _ _ _ (with_next None) Hp1) as [E2 Hp2].
  { simpl. by eapply pool_text_mid. }
  erewrite M_bind_ok by exact E2. eexists _, _. split; [done|]. split_and!; try done.
  simpl. by apply linked_snoc.
Qed.

(** Fill a node that [link_last] has just linked. *)
Lemma fill_node_ok s fl xs l nd R d :
  pool s fl (xs ++ (l, nd) :: R) -> zlen d <= BUFFER_DATA_SIZE ->
  exists s' nd', (forall A (k : B A),
      (assign (Some l) (with_size (zlen d)) ;; memcpy_text (Some l) 0 d ;; k) s = k s') /\
    pool s' fl (xs ++ (l, nd') :: R) /\ nd' = with_size (zlen d) (with_text (text nd') nd) /\
    (bufp nd = 0 -> node_bytes nd' = d /\ node_ok nd') /\ errno s' = errno s.
Proof.
  intros Hp Hd. pose proof (zlen_nonneg d).
  destruct (pool_assign_mid _ _ _ _ _ _ (with_size (zlen d)) Hp) as [E1 Hp1].
  { simpl. by eapply pool_text_mid. }
  destruct (memcpy_text_mid _ _ _ _ _ _ 0 d Hp1) as [E2 Hp2]; [lia..|].
  eexists _, _. split.
  { intros A k. erewrite M_bind_ok by exact E1. erewrite M_bind_ok by exact E2. done. }
  split; [exact Hp2|]. split; [done|]. split; [|done].
  intros Hb. split; [|by unfold node_ok; simpl; lia].
  unfold node_bytes, peek, overwrite. simpl. rewrite Hb.
  by rewrite zdrop_0, (ztake_app (zlen d)).
Qed.

(** *** [buf_output] *)

(** What a function that appends [d] to [b] does: all of it, or, when memory
    is exhausted, a prefix of it before the error handler is called. *)
Definition appended {C} (s : st) (b : buffer C) (xs R : list node) (d : list Z)
    (r : res cfault (buffer C * st)) : Prop :=
  (exists s' fl' b' xs', r = Ok (b', s') /\ pool s' fl' (xs' ++ R) /\ buf_ok b' xs' /\
     bytes xs' = bytes xs ++ d /\ xs' <> [] /\ same_io b b' /\ errno s' = errno s) \/
  (exists s' b' xs' d1 d2, d = d1 ++ d2 /\
     r = (memory_error b ;; mret b') s' /\ pool s' [] (xs' ++ R) /\ buf_ok b' xs' /\
     bytes xs' = bytes xs ++ d1 /\ same_io b b' /\ errno s' = errno s /\
     exists n, valloc_ok n = false).

Lemma output_loop_ok {C} fuel s fl (b : buffer C) xs R d :
  (length d < fuel)%nat -> pool s fl (xs ++ R) -> buf_ok b xs ->
  appended s b xs R d (output_loop fuel b d s).
Proof.
  revert s fl b xs d. induction fuel as [|fuel IH]; intros s fl b xs d Hf Hp Hb; [lia|].
  cbn [output_loop].
  destruct (get_buffer_data_ok _ _ _ Hp) as
    [(l & nd & fl1 & s1 & E1 & Hp1 & He1)|(s1 & E1 & Hp1 & -> & Hv & He1)].
  2:{ right. exists s1, b, xs, [], d. split_and!; try done.
      - erewrite M_bind_ok by exact E1. done.
      - by rewrite app_nil_r.
      - apply same_io_refl.
      - eauto. }
  erewrite M_bind_ok by exact E1. rewrite decide_False by done.
  destruct (link_last_ok _ _ _ _ _ _ _ Hp1 Hb) as (s2 & b2 & E2 & Hp2 & Hl2 & Hlast & Hio & He2).
  erewrite M_bind_ok by exact E2.
  destruct (pool_assign_mid _ _ _ _ _ _ (with_bufp 0) Hp2) as [E3 Hp3].
  { simpl. apply (pool_text_mid _ _ _ _ _ _ Hp2). }
  erewrite M_bind_ok by exact E3. pose proof BDS_pos.
  assert (Hns : Forall (fun x => node_ok x.2) (relink (Some l) xs)).
  { apply node_ok_relink, Hb. }
  destruct (Z.leb_spec (zlen d) BUFFER_DATA_SIZE) as [Hd|Hd].
  - destruct (fill_node_ok _ _ _ _ _ _ d Hp3 Hd) as (s4 & nd4 & E4 & Hp4 & Hn4 & Hb4 & He4).
    rewrite E4. destruct Hb4 as [Hb4 Hok4]; [done|].
    left. exists s4, fl1, b2, (relink (Some l) xs ++ [(l, nd4)]).
    split_and!; [done| | | | |done|].
    + by rewrite <- app_assoc.
    + apply buf_ok_intro; [|done..]. eapply linked_replace; [exact Hl2|]. by rewrite Hn4.
    + by rewrite bytes_app, bytes_relink, bytes_cons, Hb4, app_nil_r.
    + by destruct (relink (Some l) xs).
    + etransitivity; [exact He4|]. etransitivity; [exact He2|done].
  - assert (Hz : zlen (ztake BUFFER_DATA_SIZE d) = BUFFER_DATA_SIZE) by (apply zlen_ztake; lia).
    destruct (fill_node_ok _ _ _ _ _ _ (ztake BUFFER_DATA_SIZE d) Hp3)
      as (s4 & nd4 & E4 & Hp4 & Hn4 & Hb4 & He4); [lia|].
    rewrite Hz in E4. rewrite E4. destruct Hb4 as [Hb4 Hok4]; [done|].
    assert (Hbuf4 : buf_ok b2 (relink (Some l) xs ++ [(l, nd4)])).
    { apply buf_ok_intro; [|done..]. eapply linked_replace; [exact Hl2|]. by rewrite Hn4. }
    assert (Hbytes : bytes (relink (Some l) xs ++ [(l, nd4)]) = bytes xs ++ ztake BUFFER_DATA_SIZE d).
    { by rewrite bytes_app, bytes_relink, bytes_cons, Hb4, app_nil_r. }
    assert (He : errno s4 = errno s).
    { etransitivity; [exact He4|]. etransitivity; [exact He2|done]. }
    destruct (IH s4 fl1 b2 (relink (Some l) xs ++ [(l, nd4)]) (zdrop BUFFER_DATA_SIZE d))
      as [(s' & fl' & b' & xs' & E & Hp' & Hb' & Hx & Hne & Hio' & He')
         |(s' & b' & xs' & d1 & d2 & Ed & E & Hp' & Hb' & Hx & Hio' & He' & Hv)].
    + unfold zdrop. rewrite length_drop. unfold zlen in Hd. lia.
    + by rewrite <- app_assoc.
    + done.
    + left. exists s', fl', b', xs'. split_and!; try done.
      * by rewrite Hx, Hbytes, <- app_assoc, ztake_zdrop.
      * by eapply same_io_trans.
      * congruence.
    + right. exists s', b', xs', (ztake BUFFER_DATA_SIZE d ++ d1), d2. split_and!; try done.
      * by rewrite <- app_assoc, <- Ed, ztake_zdrop.
      * rewrite E. by rewrite Hio.
      * by rewrite Hx, Hbytes, <- app_assoc.
      * by eapply same_io_trans.
      * congruence.
Qed.

Lemma buf_output_ok {C} s fl (b : buffer C) xs R d :
  pool s fl (xs ++ R) -> buf_ok b xs -> appended s b xs R d (buf_output b d s).
Proof.
  intros Hp Hb. unfold buf_output. pose proof Hb as [Hd Hl Hn].
  assert (Hloop : appended s b xs R d (output_loop (S (length d)) b d s)).
  { apply (output_loop_ok _ _ fl); [lia|done..]. }
  destruct (decide (data b = None)) as [E|E].
  { rewrite M_bind_eq. exact Hloop. }
  destruct xs as [|[l nd] xs _] using rev_ind; [done|].
  rewrite <- app_assoc in Hp. simpl in Hp.
  rewrite (Hl xs l nd) by done.
  assert (Ex : (x ← deref (Some l); mret (if room x.2 >=? zlen d then Some x.2 else None)) s
    = Ok (if room nd >=? zlen d then Some nd else None, s)).
  { by erewrite M_bind_ok by (by eapply pool_deref_mid). }
  erewrite M_bind_ok by exact Ex.
  destruct (room nd >=? zlen d) eqn:Er; [|exact Hloop].
  apply Z.geb_le in Er. unfold room in Er.
  rewrite Forall_app, Forall_singleton in Hn. destruct Hn as [Hn (Hn1 & Hn2 & Hn3)].
  simpl in Hn1, Hn2, Hn3. pose proof (zlen_nonneg d).
  destruct (memcpy_text_mid _ _ _ _ _ _ (bufp nd + bsize nd) d Hp) as [E1 Hp1]; [lia..|].
  erewrite M_bind_ok by exact E1.
  destruct (pool_assign_mid _ _ _ _ _ _ (with_size (bsize nd + zlen d)) Hp1) as [E2 Hp2].
  { pose proof (pool_text_mid _ _ _ _ _ _ Hp). simpl. rewrite zlen_overwrite; lia. }
  erewrite M_bind_ok by exact E2.
  left. eexists _, fl, b, (xs ++ [(l, _)]). split_and!; [done| | | | | |done].
  - rewrite <- app_assoc. exact Hp2.
  - apply buf_ok_intro; [|by apply (Hl xs l nd)|done|].
    + by eapply linked_replace.
    + unfold node_ok. simpl. lia.
  - rewrite !bytes_app, !bytes_cons, peek_append, !app_nil_r, <- app_assoc; [done|lia..|].
    rewrite (pool_text_mid _ _ _ _ _ _ Hp). lia.
  - by destruct xs.
  - apply same_io_refl.
Qed.

Lemma buf_append_char_ok {C} s fl (b : buffer C) xs R ch :
  pool s fl (xs ++ R) -> buf_ok b xs ->
  appended s b xs R [wrapu 8 ch] (buf_append_char b ch s).
Proof.
  intros Hp Hb. unfold buf_append_char. pose proof Hb as [Hd Hl Hn].
  pose proof (buf_output_ok s fl b xs R [wrapu 8 ch] Hp Hb) as Hout.
  destruct (decide (data b = None)) as [E|E].
  { rewrite M_bind_eq. exact Hout. }
  destruct xs as [|[l nd] xs _] using rev_ind; [done|].
  rewrite <- app_assoc in Hp. simpl in Hp.
  assert (Ex : (x ← deref (last b); mret (if negb (room x.2 =? 0) then Some x.2 else None)) s
    = Ok (if negb (room nd =? 0) then Some nd else None, s)).
  { rewrite (Hl xs l nd) by done. by erewrite M_bind_ok by (by eapply pool_deref_mid). }
  erewrite M_bind_ok by exact Ex.
  rewrite Forall_app, Forall_singleton in Hn. destruct Hn as [Hn (Hn1 & Hn2 & Hn3)].
  simpl in Hn1, Hn2, Hn3.
  destruct (Z.eqb_spec (room nd) 0) as [Er|Er]; [exact Hout|]. cbn [negb].
  (* with room left, [buf_output] does the same writes *)
  unfold buf_output in Hout. rewrite decide_False in Hout by done.
  assert (Ey : (x ← deref (last b); mret (if room x.2 >=? zlen [wrapu 8 ch] then Some x.2 else None)) s
    = Ok (Some nd, s)).
  { rewrite (Hl xs l nd) by done. erewrite M_bind_ok by (by eapply pool_deref_mid). simpl.
    rewrite (proj2 (Z.geb_le _ _)); [done|]. unfold room in *. change (zlen [wrapu 8 ch]) with 1. lia. }
  erewrite M_bind_ok in Hout by exact Ey. exact Hout.
Qed.

(** When [valloc] always succeeds. *)
Lemma appended_success {C} (Hv : forall n, valloc_ok n = true) s (b : buffer C) xs R d r :
  appended s b xs R d r ->
  exists s' fl' b' xs', r = Ok (b', s') /\ pool s' fl' (xs' ++ R) /\ buf_ok b' xs' /\
     bytes xs' = bytes xs ++ d /\ xs' <> [] /\ same_io b b' /\ errno s' = errno s.
Proof.
  intros [H1|(? & ? & ? & ? & ? & _ & _ & _ & _ & _ & _ & _ & n & Hn)]; [done|].
  by rewrite Hv in Hn.
Qed.

(** *** Sending *)
Lemma pop_ok s fl q l nd R :
  pool s fl ((l, nd) :: R) -> q = Some l ->
  exists s', recycle q q s = Ok (tt, s') /\
    pool s' ((l, with_next (free_buffer_data s) nd) :: fl) R /\ errno s' = errno s.
Proof.
  intros Hp ->. destruct (recycle_ok s fl (Some l) [] l nd R Hp eq_refl) as (s' & E & Hp' & _ & He).
  eauto.
Qed.

Lemma buf_ok_tail {C} (b : buffer C) l nd xs c :
  buf_ok b ((l, nd) :: xs) -> buf_ok (set_data (next nd) (set_closure c b)) xs.
Proof.
  intros [[Hd Hd'] Hl [Hn Hns]%Forall_cons]. split; [done| |done].
  intros ys k kd E. simpl. by apply (Hl ((l, nd) :: ys) k kd); rewrite E.
Qed.

Section send.
Context {C : Type} (out : C -> list Z -> B (Z * Z * C)) (o : C -> list Z -> Z * Z * C)
  (written : C -> list Z).

(** An output callback that leaves the pool alone, answers with a status and
    the number of bytes it took, and has then written those bytes, or, on an
    error, any part of them. *)
Record sink : Prop := {
  sink_pure c d s : out c d s = Ok (o c d, s);
  sink_count c d : (o c d).1.1 = 0 -> 0 <= (o c d).1.2 <= zlen d;
  sink_written c d : exists k, 0 <= k <= zlen d /\
    written (o c d).2 = written c ++ ztake k d /\ ((o c d).1.1 = 0 -> k = (o c d).1.2)
}.

(** Some write may be short. *)
Definition short : Prop := exists c d, (o c d).1.2 <> zlen d.

(** What [buf_send_output] does to a buffer. *)
Definition sent (s : st) (b : buffer C) (xs R : list node) (r : res cfault (Z * buffer C * st)) : Prop :=
  (exists s' fl' b' xs', r = Ok ((0, b'), s') /\ pool s' fl' (xs' ++ R) /\ buf_ok b' xs' /\
     last_clean b' xs' /\ (xs' = [] \/ (nonblocking b = true /\ short)) /\
     written (closure b') ++ bytes xs' = written (closure b) ++ bytes xs /\
     same_io (set_closure (closure b') b) b') \/
  (exists status s' fl' b' d1 d2, status <> 0 /\ (exists c d, (o c d).1.1 = status) /\
     r = Ok ((status, b'), s') /\ pool s' fl' R /\ buf_ok b' [] /\ last b' = None /\ bytes xs = d1 ++ d2 /\
     written (closure b') = written (closure b) ++ d1 /\
     same_io (set_closure (closure b') b) b') \/
  (nonblocking b = false /\ short /\ r = Err AssertFailed).

Lemma sent_pop s0 s b b1 xs0 xs R r d :
  written (closure b1) = written (closure b) ++ d -> bytes xs0 = d ++ bytes xs ->
  same_io (set_closure (closure b1) b) b1 -> nonblocking b1 = nonblocking b ->
  sent s b1 xs R r -> sent s0 b xs0 R r.
Proof.
  intros Hw Hx Hio Hnb
    [(s' & fl' & b' & xs' & E & Hp & Hb & Hl & Hor & Hwr & Hio')
    |[(st & s' & fl' & b' & d1 & d2 & Hst & Hex & E & Hp & Hb & Hl & Hd & Hwr & Hio')
     |(Hn & Hsh & E)]].
  - left. exists s', fl', b', xs'. split_and!; try done.
    + by rewrite <- Hnb.
    + by rewrite Hwr, Hw, Hx, <- app_assoc.
    + rewrite Hio'. by rewrite Hio.
  - right; left. exists st, s', fl', b', (d ++ d1), d2. split_and!; try done.
    + by rewrite Hx, Hd, app_assoc.
    + by rewrite Hwr, Hw, app_assoc.
    + rewrite Hio'. by rewrite Hio.
  - right; right. by rewrite <- Hnb.
Qed.

Lemma send_loop_ok (Hs : sink) xs fuel s fl (b : buffer C) R :
  (length xs < fuel)%nat -> pool s fl (xs ++ R) -> buf_ok b xs ->
  sent s b xs R (send_loop fuel out b s).
Proof.
  revert fuel s fl b. induction xs as [|[l nd] xs IH]; intros fuel s fl b Hf Hp Hb;
    (destruct fuel as [|fuel]; [simpl in Hf; lia|]); cbn [send_loop].
  { destruct Hb as [Hd _ _]. simpl in Hd. rewrite Hd. rewrite decide_True by done.
    left. exists s, fl, (set_last None b), []. split_and!; try done.
    - split; [done|by intros [|??]|by constructor].
    - by left. }
  pose proof Hb as [[Hd Hd'] Hl Hns]. rewrite Hd. rewrite decide_False by done.
  pose proof (pool_deref_mid s fl [] l nd (xs ++ R) Hp) as Ed.
  erewrite M_bind_ok by exact Ed. cbn [fst snd].
  destruct (pop_ok s fl (Some l) l nd (xs ++ R) Hp eq_refl) as (s1 & Ep & Hp1 & He1).
  (* one turn that frees the first node after [c] took all its bytes *)
  assert (Hpop : forall c, written c = written (closure b) ++ node_bytes nd ->
    sent s b ((l, nd) :: xs) R ((y ← deref (Some l);
      let b' := set_data (next y.2) (set_closure c b) in
      recycle (Some l) (Some l) ;; send_loop fuel out b') s)).
  { intros c Hc. erewrite M_bind_ok by exact Ed. cbn [snd]. cbn zeta.
    erewrite M_bind_ok by exact Ep.
    eapply (sent_pop _ s1 b (set_data (next nd) (set_closure c b)) _ xs _ _ (node_bytes nd));
      [exact Hc|done|done|done|].
    eapply IH; [simpl in Hf; lia|exact Hp1|by eapply buf_ok_tail]. }
  pose proof (pool_text_mid s fl [] l nd _ Hp) as Ht.
  apply Forall_cons in Hns as [(Hn1 & Hn2 & Hn3) Hns]. simpl in Hn1, Hn2, Hn3.
  destruct (bsize nd >? 0) eqn:Esz.
  2:{ assert (bsize nd = 0) as E0 by (rewrite Z.gtb_ltb in Esz; apply Z.ltb_ge in Esz; lia).
      replace b with (set_closure (closure b) b) at 2 by (by destruct b).
      rewrite M_bind_eq, Ed. cbn [snd]. 
      pose proof (Hpop (closure b)) as Hq. erewrite M_bind_ok in Hq by exact Ed.
      destruct b; apply Hq. unfold node_bytes. rewrite E0. by rewrite app_nil_r. }
  erewrite M_bind_ok by (by apply memcpy_from_ok). fold (node_bytes nd).
  erewrite M_bind_ok by (by apply sink_pure).
  assert (Hz : zlen (node_bytes nd) = bsize nd) by (apply zlen_peek; lia).
  destruct (sink_written Hs (closure b) (node_bytes nd)) as (k & Hk & Hw & Hk0).
  pose proof (sink_count Hs (closure b) (node_bytes nd)) as Hc.
  destruct (o (closure b) (node_bytes nd)) as [[status n] c] eqn:Eo. cbn [fst snd] in *.
  destruct (Z.eqb_spec status 0) as [->|Hst]; cbn [negb].
  2:{ (* an error: everything is discarded *)
      assert (Hne : (l, nd) :: xs <> []) by done.
      destruct (exists_last Hne) as (ys & [k' kd] & Eys).
      rewrite Eys in Hp. 
      assert (Hlk : linked next (Some l) ys (Some k')).
      { pose proof (ok_data _ _ Hb) as Hd2. rewrite Eys, Hd in Hd2. by apply linked_snoc in Hd2 as [? _]. }
      destruct (recycle_ok _ _ _ _ _ _ _ Hp Hlk) as (s' & E & Hp' & _).
      cbn [set_closure data last]. rewrite Hd. rewrite (Hl ys k' kd) by done.
      erewrite M_bind_ok by exact E.
      right; left. eexists status, s', _, _, (ztake k (node_bytes nd)),
        (zdrop k (node_bytes nd) ++ bytes xs).
      split_and!; [done| |done|exact Hp'| |done| | |done].
      - exists (closure b), (node_bytes nd). by rewrite Eo.
      - split; [done| |by constructor]. by intros [|??].
      - by rewrite bytes_cons, app_assoc, ztake_zdrop.
      - exact Hw. }
  rewrite (Hk0 eq_refl) in *. specialize (Hc eq_refl).
  cbn [set_closure data last nonblocking]. rewrite Hd.
  destruct (Z.eqb_spec n (bsize nd)) as [En|En]; cbn [negb].
  { erewrite M_bind_ok by exact Ed. cbn [snd]. rewrite (proj2 (Z.eqb_eq n (bsize nd))) by done.
    cbn [negb]. apply Hpop. by rewrite Hw, ztake_all by lia. }
  erewrite M_bind_ok by exact Ed. cbn [snd]. rewrite (proj2 (Z.eqb_neq n (bsize nd))) by done.
  cbn [negb].
  assert (Hshort : short).
  { exists (closure b), (node_bytes nd). rewrite Eo. cbn [fst snd]. by rewrite Hz. }
  destruct (nonblocking b) eqn:Enb; [|by right; right].
  destruct (pool_assign_mid s fl [] l nd (xs ++ R)
    (fun d => with_bufp (bufp d + n) (with_size (bsize d - n) d)) Hp) as [Ea Hpa]; [done|].
  erewrite M_bind_ok by exact Ea.
  left. eexists _, fl, (set_closure c b), ((l, _) :: xs).
  split_and!; [done|exact Hpa| | |by right| |].
  - split; [done| |].
    + intros ys k' kd' Eys. destruct ys as [|y ys]; simplify_eq/=.
      * by apply (Hl [] k' nd).
      * by apply (Hl ((l, nd) :: ys) k' kd').
    + constructor; [|done]. unfold node_ok. simpl. lia.
  - by intros ?.
  - simpl. rewrite Hw, bytes_cons, bytes_cons. rewrite <- app_assoc. f_equal.
    rewrite app_assoc. f_equal.
    etransitivity; [|apply (peek_advance nd n); lia]. f_equal.
    unfold node_bytes, peek. unfold ztake. rewrite take_take. f_equal. lia.
  - by destruct b.
Qed.

Lemma buf_send_output_ok (Hs : sink) s fl (b : buffer C) xs R :
  output b = Some out -> pool s fl (xs ++ R) -> buf_ok b xs ->
  sent s b xs R (buf_send_output b s).
Proof.
  intros Ho Hp Hb. unfold buf_send_output. rewrite Ho.
  erewrite M_bind_ok by (by eapply pool_walk).
  eapply send_loop_ok; [done| |exact Hp|done]. rewrite !length_app. lia.
Qed.

(** A sink that never fails and never writes short takes everything. *)
Lemma buf_send_all_ok (Hs : sink) (Hall : forall c d, (o c d).1 = (0, zlen d)) s fl
    (b : buffer C) xs R :
  output b = Some out -> pool s fl (xs ++ R) -> buf_ok b xs ->
  exists s' fl' b', buf_send_output b s = Ok ((0, b'), s') /\ pool s' fl' R /\ buf_ok b' [] /\
    last b' = None /\ written (closure b') = written (closure b) ++ bytes xs.
Proof.
  intros Ho Hp Hb. assert (Hns : ~ short).
  { intros (c & d & Hne). apply Hne. by rewrite Hall. }
  destruct (buf_send_output_ok Hs s fl b xs R Ho Hp Hb) as
    [(s' & fl' & b' & xs' & E & Hp' & Hb' & Hc & Hor & Hw & _)
    |[(status & s' & fl' & b' & d1 & d2 & Hst & (c & d & Hex) & _)|(_ & Hsh & _)]].
  - destruct Hor as [-> |[_ Hsh]]; [|done]. rewrite app_nil_r in Hw.
    exists s', fl', b'. split_and!; try done. by apply Hc.
  - rewrite Hall in Hex. by destruct Hst.
  - done.
Qed.
End send.

(** *** Walks along a chain *)
Lemma zlen_bytes xs s fl R :
  pool s fl R -> (forall x, x ∈ xs -> x ∈ R) -> Forall (fun x => node_ok x.2) xs ->
  zlen (bytes xs) = foldr (fun x n => bsize x.2 + n) 0 xs.
Proof.
  intros Hp Hin. induction 1 as [|[l nd] xs (Hn1 & Hn2 & Hn3) Hns IH]; [done|].
  rewrite bytes_cons, zlen_app. simpl. rewrite IH by set_solver. f_equal.
  apply zlen_peek; [done..|]. rewrite (pool_text_of _ _ _ l nd Hp); [done|]. set_solver.
Qed.

Lemma zlen_node_bytes s fl R l nd :
  pool s fl R -> (l, nd) ∈ R -> node_ok nd -> zlen (node_bytes nd) = bsize nd.
Proof.
  intros Hp Hin (H1 & H2 & H3). apply zlen_peek; [done..|].
  by rewrite (pool_text_of _ _ _ l nd Hp).
Qed.

Lemma memchr_Some c l n :
  memchr c l = Some n -> exists l1 l2, l = l1 ++ (c :: l2) /\ (c ∉ l1) /\ n = zlen l1.
Proof.
  unfold memchr. intros [[i x] [Hf ->]]%fmap_Some. simpl.
  apply list_find_Some in Hf as (Hl & -> & Hlt). 
  exists (take i l), (drop (S i) l). split_and!.
  - by rewrite take_drop_middle.
  - intros [j Hj]%list_elem_of_lookup. apply lookup_take_Some in Hj as [Hj Hji].
    by eapply Hlt.
  - unfold zlen. rewrite length_take_le; [done|]. apply lookup_lt_Some in Hl. lia.
Qed.

Lemma memchr_None c l : memchr c l = None -> c ∉ l.
Proof.
  unfold memchr. intros Hf Hin. rewrite fmap_None in Hf.
  apply list_find_None in Hf. rewrite Forall_forall in Hf. by apply (Hf c).
Qed.

Lemma memchr_app c l1 l2 : c ∉ l1 -> memchr c (l1 ++ c :: l2) = Some (zlen l1).
Proof.
  intros Hc. unfold memchr. apply fmap_Some. exists (length l1, c). split; [|done].
  apply list_find_Some. split_and!; [by apply list_lookup_middle|done|].
  intros j y Hj Hlt ->. apply Hc. rewrite lookup_app_l in Hj by done.
  by eapply list_elem_of_lookup_2.
Qed.

(** The first newline of a chain. *)
Definition newline_at (xs ys : list node) (l : loc) (nd : buffer_data) (zs : list node)
    (d1 d2 : list Z) : Prop :=
  xs = ys ++ (l, nd) :: zs /\ (10 ∉ bytes ys) /\ node_bytes nd = d1 ++ 10 :: d2 /\ (10 ∉ d1).

(** Counting in an [int] *)
Lemma cint_add a b : cint (cint a + b) = cint (a + b).
Proof.
  pose proof int_fits as [Hi _]. unfold cint, wraps. f_equal.
  assert (0 < 2 ^ (8 * SIZEOF_INT)) by (apply Z.pow_pos_nonneg; lia).
  set (h := 2 ^ (8 * SIZEOF_INT - 1)). replace (_ - h + b + h) with ((a + h) mod 2 ^ (8 * SIZEOF_INT) + b) by lia.
  rewrite Z.add_mod_idemp_l by lia. f_equal. lia.
Qed.

Lemma cint_small n : 0 <= n < 2 ^ (8 * SIZEOF_INT - 1) -> cint n = n.
Proof. intros Hn. pose proof int_fits as [Hi _]. apply wraps_small; lia. Qed.

Lemma cint_0 : cint 0 = 0.
Proof. pose proof int_fits as [Hi _]. apply cint_small. split; [done|]. apply Z.pow_pos_nonneg; lia. Qed.

(** [len] counts the bytes read so far. *)
Lemma find_newline_ok xs fuel s fl R p len :
  pool s fl R -> (forall x, x ∈ xs -> x ∈ R) -> Forall (fun x => node_ok x.2) xs ->
  linked next p xs None -> (length xs < fuel)%nat ->
  ((10 ∉ bytes xs) /\ find_newline fuel p (cint len) s = Ok ((cint (len + zlen (bytes xs)), None), s)) \/
  (exists ys l nd zs d1 d2, newline_at xs ys l nd zs d1 d2 /\
    find_newline fuel p (cint len) s = Ok ((cint (len + zlen (bytes ys) + zlen d1), Some (Some l, zlen d1)), s)).
Proof.
  intros Hp. revert fuel p len.
  induction xs as [|[l nd] xs IH]; intros fuel p len Hin Hns Hl Hf;
    (destruct fuel as [|fuel]; [simpl in Hf; lia|]); cbn [find_newline]; simpl in Hl.
  { subst p. left. split; [by apply not_elem_of_nil|]. rewrite decide_True by done.
    change (zlen (bytes [])) with 0. by rewrite Z.add_0_r. }
  destruct Hl as [-> Hl]. rewrite decide_False by done.
  assert (Hx : (l, nd) ∈ R) by (apply Hin, list_elem_of_here).
  erewrite M_bind_ok by (by eapply pool_deref). cbn [snd].
  apply Forall_cons in Hns as [Hn Hns]. simpl in Hn. pose proof Hn as (Hn1 & Hn2 & Hn3).
  pose proof (pool_text_of _ _ _ _ _ Hp Hx) as Ht.
  pose proof (zlen_node_bytes _ _ _ _ _ Hp Hx Hn) as Hz.
  erewrite M_bind_ok by (by apply memcpy_from_ok). fold (node_bytes nd).
  destruct (memchr 10 (node_bytes nd)) as [n|] eqn:Em.
  - apply memchr_Some in Em as (d1 & d2 & E & Hd1 & ->). right.
    exists [], l, nd, xs, d1, d2. split; [split_and!; try done; by apply not_elem_of_nil|].
    change (zlen (bytes [])) with 0. by rewrite cint_add, Z.add_0_r.
  - apply memchr_None in Em. rewrite cint_add.
    destruct (IH fuel (next nd) (len + bsize nd))
      as [[Hno E]|(ys & k & kd & zs & d1 & d2 & (-> & Hys & E2 & Hd1) & E)];
      [set_solver|done|done|simpl in Hf; lia| |].
    + left. rewrite bytes_cons. split; [set_solver|]. rewrite E, zlen_app, Hz.
      do 4 f_equal. lia.
    + right. exists ((l, nd) :: ys), k, kd, zs, d1, d2. split.
      * split_and!; try done. rewrite bytes_cons. set_solver.
      * rewrite E, bytes_cons, zlen_app, Hz. do 5 f_equal. lia.
Qed.

Lemma length_loop_ok xs fuel s fl R p n :
  pool s fl R -> (forall x, x ∈ xs -> x ∈ R) -> Forall (fun x => node_ok x.2) xs ->
  linked next p xs None -> (length xs < fuel)%nat -> 0 <= n ->
  n + zlen (bytes xs) < 2 ^ (8 * SIZEOF_INT - 1) ->
  length_loop fuel p n s = Ok (n + zlen (bytes xs), s).
Proof.
  intros Hp. pose proof int_fits as [Hi _]. revert fuel p n.
  induction xs as [|[l nd] xs IH]; intros fuel p n Hin Hns Hl Hf Hn0 Hov;
    (destruct fuel as [|fuel]; [simpl in Hf; lia|]); cbn [length_loop]; simpl in Hl.
  { subst p. rewrite decide_True by done. change (zlen (bytes [])) with 0. by rewrite Z.add_0_r. }
  destruct Hl as [-> Hl]. rewrite decide_False by done.
  assert (Hx : (l, nd) ∈ R) by (apply Hin, list_elem_of_here).
  erewrite M_bind_ok by (by eapply pool_deref). cbn [snd].
  apply Forall_cons in Hns as [Hn Hns]. simpl in Hn. pose proof Hn as (Hn1 & Hn2 & Hn3).
  pose proof (zlen_node_bytes _ _ _ _ _ Hp Hx Hn) as Hz.
  rewrite bytes_cons, zlen_app, Hz in Hov |- *.
  pose proof (zlen_nonneg (bytes xs)).
  assert (E : cint (n + bsize nd) = n + bsize nd) by (apply wraps_small; lia).
  rewrite E, IH; [do 2 f_equal; lia|set_solver|done|done|simpl in Hf; lia|lia|lia].
Qed.

(** *** Dropping empty nodes *)
Lemma drop_empty_ok {C} xs fuel s fl (b : buffer C) R :
  (length xs < fuel)%nat -> pool s fl (xs ++ R) -> buf_ok b xs -> last_clean b xs ->
  exists s' fl' b' xs', drop_empty fuel b s = Ok (b', s') /\ pool s' fl' (xs' ++ R) /\
    buf_ok b' xs' /\ last_clean b' xs' /\ bytes xs' = bytes xs /\ same_io b b' /\
    match xs' with [] => True | (_, nd) :: _ => bsize nd <> 0 end.
Proof.
  revert fuel s fl b. induction xs as [|[l nd] xs IH]; intros fuel s fl b Hf Hp Hb Hc;
    (destruct fuel as [|fuel]; [simpl in Hf; lia|]); cbn [drop_empty];
    pose proof Hb as [Hd Hl Hns]; simpl in Hd.
  { rewrite Hd, decide_True by done. exists s, fl, b, []. split_and!; try done. apply same_io_refl. }
  destruct Hd as [Hd Hd']. rewrite Hd, decide_False by done.
  erewrite M_bind_ok by (by eapply (pool_deref_mid s fl [] l nd)). cbn [snd].
  destruct (Z.eqb_spec (bsize nd) 0) as [E0|E0]; cbn [negb].
  2:{ exists s, fl, b, ((l, nd) :: xs). split_and!; try done. apply same_io_refl. }
  destruct (pop_ok s fl (Some l) l nd (xs ++ R) Hp eq_refl) as (s1 & Ep & Hp1 & He1).
  erewrite M_bind_ok by exact Ep.
  set (b1 := if decide (next nd = None) then set_last None (set_data (next nd) b)
             else set_data (next nd) b).
  assert (Hb1 : buf_ok b1 xs /\ last_clean b1 xs /\ same_io b b1).
  { unfold b1. destruct (decide (next nd = None)) as [En|En].
    - rewrite En in *. apply linked_nil_inv in Hd' as [-> _]. split_and!; try done.
      split; [done|by intros [|??]|by constructor].
    - pose proof (buf_ok_tail b l nd xs (closure b) Hb) as Ht. destruct b.
      split_and!; [exact Ht|by intros ->|done]. }
  destruct Hb1 as (Hb1 & Hc1 & Hio1).
  destruct (IH fuel s1 ((l, with_next (free_buffer_data s) nd) :: fl) b1) as (s' & fl' & b' & xs' & E & Hp' & Hb' & Hc' & Hx & Hio & Hhd);
    [simpl in Hf; lia|exact Hp1|done..|].
  exists s', fl', b', xs'. split_and!; try done.
  - rewrite Hx, bytes_cons. unfold node_bytes. by rewrite E0.
  - by eapply same_io_trans.
Qed.

(** *** Taking a line out of the chain *)
Lemma pool_ne s fl k kd xs l nd :
  pool s fl ((k, kd) :: xs) -> (l, nd) ∈ xs -> k <> l.
Proof.
  intros Hp Hin ->. apply pool_NoDup in Hp. rewrite fmap_app, fmap_cons in Hp.
  apply NoDup_app in Hp as (_ & _ & Hp). apply NoDup_cons in Hp as [Hp _].
  apply Hp. apply list_elem_of_fmap. by exists (l, nd).
Qed.

Lemma line_memcpy_ok (s : st) n acc d :
  zlen acc + zlen d <= n -> line_memcpy n acc d s = Ok (acc ++ d, s).
Proof. intros Hn. unfold line_memcpy. by rewrite (proj2 (Z.leb_le _ _)). Qed.

Lemma line_copy_ok ys fuel s fl p l nd R n acc :
  (length ys < fuel)%nat -> pool s fl (ys ++ (l, nd) :: R) ->
  Forall (fun x => node_ok x.2) ys -> linked next p ys (Some l) ->
  zlen acc + zlen (bytes ys) <= n ->
  exists s' fl', line_copy fuel p (Some l) n acc s = Ok (acc ++ bytes ys, s') /\
    pool s' fl' ((l, nd) :: R) /\ errno s' = errno s.
Proof.
  revert fuel s fl p acc. induction ys as [|[k kd] ys IH]; intros fuel s fl p acc Hf Hp Hns Hl Hn;
    (destruct fuel as [|fuel]; [simpl in Hf; lia|]); cbn [line_copy]; simpl in Hl.
  { subst p. rewrite decide_True by done. exists s, fl. by rewrite app_nil_r. }
  destruct Hl as [-> Hl].
  assert (Hne : k <> l).
  { eapply (pool_ne _ _ _ kd _ _ nd); [exact Hp|apply list_elem_of_middle]. }
  rewrite decide_False by congruence.
  apply Forall_cons in Hns as [Hk Hns]. simpl in Hk. pose proof Hk as (Hk1 & Hk2 & Hk3).
  pose proof (pool_text_mid s fl [] k kd _ Hp) as Ht.
  pose proof (zlen_node_bytes _ _ _ k kd Hp (list_elem_of_here _ _) Hk) as Hz.
  erewrite M_bind_ok by (by eapply (pool_deref_mid s fl [] k kd)). cbn [snd].
  erewrite M_bind_ok by (by apply memcpy_from_ok). fold (node_bytes kd).
  rewrite bytes_cons, zlen_app in Hn. pose proof (zlen_nonneg (bytes ys)).
  erewrite M_bind_ok by (apply line_memcpy_ok; lia).
  destruct (pop_ok s fl (Some k) k kd (ys ++ (l, nd) :: R) Hp eq_refl) as (s1 & Ep & Hp1 & He1).
  erewrite M_bind_ok by exact Ep.
  destruct (IH fuel s1 ((k, with_next (free_buffer_data s) kd) :: fl) (next kd)
    (acc ++ node_bytes kd)) as (s' & fl' & E & Hp' & He');
    [simpl in Hf; lia|exact Hp1|done..|rewrite zlen_app; lia|].
  exists s', fl'. split_and!; [|done|congruence]. by rewrite bytes_cons, app_assoc.
Qed.

Lemma take_line_ok {C} s fl (b : buffer C) xs R ys l nd zs d1 d2 :
  pool s fl (xs ++ R) -> buf_ok b xs -> newline_at xs ys l nd zs d1 d2 ->
  zlen (bytes ys ++ d1) + 1 < 2 ^ (8 * SIZEOF_INT - 1) -> xmalloc_ok (zlen (bytes ys ++ d1) + 1) = true ->
  exists s' fl' b' xs',
    take_line b (zlen (bytes ys ++ d1)) (Some l) (zlen d1) s =
      Ok ((0, Some (bytes ys ++ d1 ++ [0]), zlen (bytes ys ++ d1), b'), s') /\
    pool s' fl' (xs' ++ R) /\ buf_ok b' xs' /\ bytes xs' = d2 ++ bytes zs /\ xs' <> [] /\
    same_io b b'.
Proof.
  intros Hp Hb (-> & Hys & Hnd & Hd1) Hlt Hx. pose proof (zlen_nonneg (bytes ys ++ d1)).
  unfold take_line. rewrite cint_small by lia. cbv zeta. rewrite Hx. cbn [negb].
  pose proof Hb as [Hd Hl Hns]. rewrite zlen_app.
  erewrite M_bind_ok by (by eapply pool_walk).
  rewrite <- app_assoc in Hp. simpl in Hp.
  apply linked_app in Hd as (r & Hl1 & [-> Hl2]).
  rewrite Forall_app, Forall_cons in Hns. destruct Hns as (Hn1 & Hn & Hn2). simpl in Hn.
  pose proof (zlen_nonneg d1). pose proof (zlen_nonneg d2).
  destruct (line_copy_ok ys (S (length (fl ++ (ys ++ (l, nd) :: zs) ++ R))) s fl (data b) l nd (zs ++ R)
    (zlen (bytes ys) + zlen d1 + 1) []) as (s1 & fl1 & E1 & Hp1 & He1);
    [rewrite !length_app; lia|done..|change (zlen []) with 0; lia|].
  erewrite M_bind_ok by exact E1. cbn [app].
  pose proof (pool_text_mid s1 fl1 [] l nd _ Hp1) as Ht.
  pose proof (zlen_node_bytes _ _ _ l nd Hp1 (list_elem_of_here _ _) Hn) as Hz.
  rewrite Hnd, zlen_app in Hz. change (10 :: d2) with ([10] ++ d2) in Hz.
  rewrite zlen_app in Hz. change (zlen [10]) with 1 in Hz.
  destruct Hn as (Hm1 & Hm2 & Hm3).
  assert (Hpk : peek nd (zlen d1) = d1).
  { transitivity (ztake (zlen d1) (node_bytes nd)); [|by rewrite Hnd, ztake_app].
    unfold node_bytes, peek, ztake. rewrite take_take. f_equal. lia. }
  assert (Hpk' : peek nd (zlen d1 + 1) = d1 ++ [10]).
  { transitivity (ztake (zlen d1 + 1) (node_bytes nd)).
    - unfold node_bytes, peek, ztake. rewrite take_take. f_equal. lia.
    - rewrite Hnd. change (10 :: d2) with ([10] ++ d2). rewrite app_assoc.
      apply ztake_app. rewrite zlen_app. done. }
  erewrite M_bind_ok by (by eapply (pool_deref_mid s1 fl1 [] l nd)). cbn [snd].
  erewrite M_bind_ok by (apply memcpy_from_ok; [done|lia..]). rewrite Hpk.
  erewrite M_bind_ok by (apply line_memcpy_ok; lia).
  erewrite M_bind_ok.
  2:{ apply line_memcpy_ok. rewrite zlen_app. change (zlen [0]) with 1. lia. }
  destruct (pool_assign_mid s1 fl1 [] l nd (zs ++ R) (fun d =>
    with_bufp (bufp d + zlen d1 + 1) (with_size (bsize d - (zlen d1 + 1)) d)) Hp1) as [Ea Hpa]; [done|].
  erewrite M_bind_ok by exact Ea.
  eexists _, fl1, _, ((l, _) :: zs).
  split_and!; [by rewrite <- app_assoc|exact Hpa| | |done|done].
  - split; [done| |constructor; [|done]].
    + intros ws k kd Ews. simpl. destruct ws as [|w ws]; simplify_eq/=.
      * by apply (Hl ys k nd).
      * apply (Hl (ys ++ (l, nd) :: ws) k kd). by rewrite <- app_assoc.
    + unfold node_ok. simpl. lia.
  - rewrite bytes_cons. f_equal.
    apply (app_inv_head (peek nd (zlen d1 + 1))).
    etransitivity.
    + etransitivity; [|apply (peek_advance nd (zlen d1 + 1)); lia]. f_equal.
      unfold node_bytes. simpl. by rewrite Z.add_assoc.
    + rewrite Hpk', Hnd, <- app_assoc. done.
Qed.

(** *** Input *)
Section source.
Context {C : Type} (inp : C -> Z -> Z -> B (Z * list Z * C)) (i : C -> Z -> Z -> Z * list Z * C)
  (pending : C -> list Z).

(** An input callback over a stream of bytes still to come, [pending]: it
    leaves the pool alone, delivers at most [size] bytes in order, at least
    one when it is asked for at least one, and consumes nothing when it
    reports an error or the end. *)
Record source : Prop := {
  src_pure c need size s : inp c need size s = Ok (i c need size, s);
  src_bytes c need size : (i c need size).1.1 = 0 ->
    zlen (i c need size).1.2 <= size /\
    pending c = (i c need size).1.2 ++ pending (i c need size).2;
  src_some c need size : 1 <= need -> 1 <= size -> (i c need size).1.1 = 0 -> (i c need size).1.2 <> [];
  src_error c need size : (i c need size).1.1 <> 0 -> pending (i c need size).2 = pending c
}.

Context (Hv : forall n, valloc_ok n = true).

Lemma get_buffer_data_success s fl R :
  pool s fl R ->
  exists l nd fl' s', get_buffer_data s = Ok (Some l, s') /\ pool s' fl' ((l, nd) :: R) /\
     errno s' = errno s.
Proof using Hv H0.
  intros Hp. destruct (get_buffer_data_ok _ _ _ Hp) as [H1|(s' & _ & _ & _ & E & _)]; [done|].
  by rewrite Hv in E.
Qed.

Lemma ensure_room_ok s fl (b : buffer C) xs R :
  pool s fl (xs ++ R) -> buf_ok b xs ->
  exists s' fl' b' ys l nd, ensure_room b s = Ok (Some b', s') /\
    pool s' fl' ((ys ++ [(l, nd)]) ++ R) /\ buf_ok b' (ys ++ [(l, nd)]) /\
    bytes (ys ++ [(l, nd)]) = bytes xs /\ 0 < room nd /\ same_io b b' /\ errno s' = errno s.
Proof using Hv H0.
  intros Hp Hb. unfold ensure_room. pose proof BDS_pos.
  assert (Hnew : exists s' fl' b' ys l nd, (p ← get_buffer_data;
      if decide (p = None) then mret None else
      b ← link_last b p; empty_node p ;; mret (Some b)) s = Ok (Some b', s') /\
    pool s' fl' ((ys ++ [(l, nd)]) ++ R) /\ buf_ok b' (ys ++ [(l, nd)]) /\
    bytes (ys ++ [(l, nd)]) = bytes xs /\ 0 < room nd /\ same_io b b' /\ errno s' = errno s).
  { destruct (get_buffer_data_success _ _ _ Hp) as (l & nd & fl1 & s1 & E1 & Hp1 & He1).
    erewrite M_bind_ok by exact E1. rewrite decide_False by done.
    destruct (link_last_ok _ _ _ _ _ _ _ Hp1 Hb) as (s2 & b2 & E2 & Hp2 & Hl2 & Hlast & Hio & He2).
    erewrite M_bind_ok by exact E2. unfold empty_node.
    pose proof (pool_text_mid _ _ _ _ _ _ Hp2) as Ht.
    destruct (pool_assign_mid _ _ _ _ _ _ (with_bufp 0) Hp2) as [E3 Hp3]; [done|].
    destruct (pool_assign_mid _ _ _ _ _ _ (with_size 0) Hp3) as [E4 Hp4]; [done|].
    eexists _, fl1, b2, (relink (Some l) xs), l, _. split_and!; [|by rewrite <- app_assoc| | | |done|].
    - rewrite M_bind_eq. erewrite M_bind_ok by exact E3. rewrite E4. done.
    - apply buf_ok_intro; [|done|by apply node_ok_relink, Hb|].
      + by eapply linked_replace.
      + unfold node_ok. simpl. lia.
    - rewrite bytes_app, bytes_relink. unfold bytes at 2. simpl. by rewrite app_nil_r.
    - unfold room. simpl. lia.
    - etransitivity; [exact He2|exact He1]. }
  pose proof Hb as [Hd Hl Hns]. destruct (decide (data b = None)) as [E|E]; [exact Hnew|].
  destruct xs as [|[l nd] xs _] using rev_ind; [done|].
  rewrite <- app_assoc in Hp. simpl in Hp.
  assert (Ex : (x ← deref (last b); mret (room x.2 =? 0)) s = Ok (room nd =? 0, s)).
  { rewrite (Hl xs l nd) by done. by erewrite M_bind_ok by (by eapply pool_deref_mid). }
  erewrite M_bind_ok by exact Ex.
  destruct (Z.eqb_spec (room nd) 0) as [Er|Er]; [exact Hnew|].
  exists s, fl, b, xs, l, nd. rewrite Forall_app, Forall_singleton in Hns.
  destruct Hns as [_ (Hm1 & Hm2 & Hm3)].
  split_and!; [done|by rewrite <- app_assoc|done|done| |apply same_io_refl|done].
  unfold room in *. simpl in *. lia.
Qed.

Lemma input_into_ok (Hs : source) s fl (b : buffer C) ys l nd R need :
  pool s fl ((ys ++ [(l, nd)]) ++ R) -> buf_ok b (ys ++ [(l, nd)]) -> 0 < room nd ->
  let '(status, d, c) := i (closure b) need (room nd) in
  exists s' xs', pool s' fl (xs' ++ R) /\ buf_ok (set_closure c b) xs' /\ xs' <> [] /\
    input_into inp need b s = Ok ((status, room nd, d, set_closure c b), s') /\
    bytes xs' = bytes (ys ++ [(l, nd)]) ++ (if status =? 0 then d else []) /\ errno s' = errno s.
Proof using H0.
  intros Hp Hb Hr. unfold input_into. pose proof Hb as [Hd Hl Hns].
  rewrite <- app_assoc in Hp. simpl in Hp. rewrite (Hl ys l nd) by done.
  pose proof (pool_deref_mid _ _ _ _ _ _ Hp) as Ed.
  erewrite M_bind_ok by exact Ed. cbn [snd].
  rewrite Forall_app, Forall_singleton in Hns. destruct Hns as [Hns (Hm1 & Hm2 & Hm3)].
  simpl in Hm1, Hm2, Hm3. pose proof (src_bytes Hs (closure b) need (room nd)) as Hby.
  pose proof (src_pure Hs (closure b) need (room nd) s) as Hpure.
  destruct (i (closure b) need (room nd)) as [[status d] c]. cbn [fst snd] in Hby.
  erewrite M_bind_ok by exact Hpure. cbn [fst snd set_closure last].
  destruct (Z.eqb_spec status 0) as [->|Hst]; cbn [negb].
  2:{ exists s, (ys ++ [(l, nd)]). rewrite app_nil_r.
      split_and!; [by rewrite <- app_assoc|by apply buf_ok_closure|by destruct ys|done..]. }
  destruct (Hby eq_refl) as [Hz _]. unfold room in Hz. rewrite (Hl ys l nd) by done.
  erewrite M_bind_ok by exact Ed. cbn [snd]. pose proof (zlen_nonneg d).
  destruct (memcpy_text_mid _ _ _ _ _ _ (bufp nd + bsize nd) d Hp) as [E1 Hp1]; [lia..|].
  erewrite M_bind_ok by exact E1.
  pose proof (pool_text_mid _ _ _ _ _ _ Hp) as Ht.
  destruct (pool_assign_mid _ _ _ _ _ _ (with_size (bsize nd + zlen d)) Hp1) as [E2 Hp2].
  { simpl. rewrite zlen_overwrite; lia. }
  erewrite M_bind_ok by exact E2.
  eexists _, (ys ++ [(l, _)]). split_and!; [rewrite <- app_assoc; exact Hp2| |by destruct ys|done| |done].
  - apply buf_ok_intro; [|by apply (Hl ys l nd)|done|].
    + by eapply linked_replace.
    + unfold node_ok. simpl. lia.
  - rewrite !bytes_app, !bytes_cons, peek_append, !app_nil_r, <- app_assoc; [done|lia..].
Qed.

(** *** [buf_input_data] *)
Lemma input_loop_ok (Hs : source) fuel s fl (b : buffer C) xs R n :
  pool s fl (xs ++ R) -> buf_ok b xs -> (length (pending (closure b)) < fuel)%nat ->
  exists status d s' fl' b' xs',
    input_loop fuel inp b (cint n) s = Ok ((status, cint (n + zlen d), b'), s') /\
    pool s' fl' (xs' ++ R) /\ buf_ok b' xs' /\ xs' <> [] /\ bytes xs' = bytes xs ++ d /\
    pending (closure b) = d ++ pending (closure b') /\
    same_io (set_closure (closure b') b) b'.
Proof using Hv H0.
  revert s fl b xs n. induction fuel as [|fuel IH]; intros s fl b xs n Hp Hb Hf; [lia|].
  cbn [input_loop].
  destruct (ensure_room_ok _ _ _ _ _ Hp Hb) as
    (s1 & fl1 & b1 & ys & l & nd & E1 & Hp1 & Hb1 & Hx1 & Hr & Hio & He1).
  erewrite M_bind_ok by exact E1.
  assert (Hcl : closure b1 = closure b) by (by rewrite Hio).
  pose proof (input_into_ok Hs _ _ _ _ _ _ _ 0 Hp1 Hb1 Hr) as Hinto.
  pose proof (src_bytes Hs (closure b1) 0 (room nd)) as Hby.
  pose proof (src_error Hs (closure b1) 0 (room nd)) as Her.
  destruct (i (closure b1) 0 (room nd)) as [[status d] c]. cbn [fst snd] in Hby, Her.
  destruct Hinto as (s2 & xs2 & Hp2 & Hb2 & Hne2 & E2 & Hx2 & He2).
  erewrite M_bind_ok by exact E2. cbn beta iota.
  assert (Hio2 : same_io (set_closure c b) (set_closure c b1)).
  { unfold same_io in *. rewrite Hio. done. }
  destruct (Z.eqb_spec status 0) as [->|Hst]; cbn [negb].
  2:{ exists status, [], s2, fl1, (set_closure c b1), xs2. rewrite Z.add_0_r.
      split_and!; try done.
      - by rewrite Hx2, Hx1.
      - simpl. by rewrite Her, Hcl. }
  destruct (Hby eq_refl) as [Hz Hpend]. rewrite Hcl in Hpend.
  rewrite cint_add. destruct (Z.ltb_spec (zlen d) (room nd)) as [Hlt|Hge].
  { exists 0, d, s2, fl1, (set_closure c b1), xs2.
    split_and!; try done. by rewrite Hx2, Hx1. }
  destruct (IH s2 fl1 (set_closure c b1) xs2 (n + zlen d) Hp2 Hb2) as
    (status & d' & s' & fl' & b' & xs' & E & Hp' & Hb' & Hne' & Hx' & Hpend' & Hio').
  { simpl. rewrite Hpend, length_app in Hf. unfold zlen in Hge. lia. }
  exists status, (d ++ d'), s', fl', b', xs'. split_and!; try done.
  - rewrite E, zlen_app. do 5 f_equal. lia.
  - by rewrite Hx', Hx2, Hx1, <- app_assoc.
  - simpl in Hpend'. by rewrite Hpend, Hpend', <- app_assoc.
  - rewrite Hio'. unfold same_io in Hio2. simpl in *. rewrite Hio. done.
Qed.

(** *** [buf_read_line] *)
Lemma fill_line_ok (Hs : source) fuel s fl (b : buffer C) xs R :
  pool s fl (xs ++ R) -> buf_ok b xs -> (length (pending (closure b)) < fuel)%nat ->
  exists status d s' fl' b' xs',
    fill_line fuel inp b s = Ok ((status, b'), s') /\
    pool s' fl' (xs' ++ R) /\ buf_ok b' xs' /\ xs' <> [] /\ bytes xs' = bytes xs ++ d /\
    pending (closure b) = d ++ pending (closure b') /\ (status = 0 -> 10 ∈ d) /\
    same_io (set_closure (closure b') b) b'.
Proof using Hv H0.
  revert s fl b xs. induction fuel as [|fuel IH]; intros s fl b xs Hp Hb Hf; [lia|].
  cbn [fill_line].
  destruct (ensure_room_ok _ _ _ _ _ Hp Hb) as
    (s1 & fl1 & b1 & ys & l & nd & E1 & Hp1 & Hb1 & Hx1 & Hr & Hio & He1).
  erewrite M_bind_ok by exact E1.
  assert (Hcl : closure b1 = closure b) by (by rewrite Hio).
  pose proof (input_into_ok Hs _ _ _ _ _ _ _ 1 Hp1 Hb1 Hr) as Hinto.
  pose proof (src_bytes Hs (closure b1) 1 (room nd)) as Hby.
  pose proof (src_error Hs (closure b1) 1 (room nd)) as Her.
  assert (Hr1 : 1 <= room nd) by (clear -Hr; lia).
  pose proof (src_some Hs (closure b1) 1 (room nd) (Z.le_refl 1) Hr1) as Hsome.
  destruct (i (closure b1) 1 (room nd)) as [[status d] c]. cbn [fst snd] in Hby, Her, Hsome.
  destruct Hinto as (s2 & xs2 & Hp2 & Hb2 & Hne2 & E2 & Hx2 & He2).
  erewrite M_bind_ok by exact E2. cbn beta iota.
  assert (Hio2 : same_io (set_closure c b) (set_closure c b1)).
  { unfold same_io in *. rewrite Hio. done. }
  destruct (Z.eqb_spec status 0) as [->|Hst]; cbn [negb].
  2:{ exists status, [], s2, fl1, (set_closure c b1), xs2. split_and!; try done.
      - by rewrite Hx2, Hx1.
      - simpl. by rewrite Her, Hcl. }
  destruct (Hby eq_refl) as [Hz Hpend]. rewrite Hcl in Hpend. specialize (Hsome eq_refl).
  set (found := if zlen d =? 1 then _ else _).
  assert (Hfound : found = true -> 10 ∈ d).
  { unfold found. destruct (zlen d =? 1).
    - intros Hh%bool_decide_eq_true. destruct d; simplify_eq/=. apply list_elem_of_here.
    - intros Hh%bool_decide_eq_true. destruct (memchr 10 d) as [m|] eqn:Em; [|done].
      apply memchr_Some in Em as (? & ? & -> & _). apply list_elem_of_middle. }
  destruct found.
  { exists 0, d, s2, fl1, (set_closure c b1), xs2. split_and!; try done.
    - by rewrite Hx2, Hx1.
    - auto. }
  destruct (IH s2 fl1 (set_closure c b1) xs2 Hp2 Hb2) as
    (status & d' & s' & fl' & b' & xs' & E & Hp' & Hb' & Hne' & Hx' & Hpend' & Hnl & Hio').
  { simpl. rewrite Hpend, length_app in Hf. destruct d; [done|]. simpl in Hf. lia. }
  exists status, (d ++ d'), s', fl', b', xs'. split_and!; try done.
  - by rewrite Hx', Hx2, Hx1, <- app_assoc.
  - simpl in Hpend'. by rewrite Hpend, Hpend', <- app_assoc.
  - intros ->. apply elem_of_app. auto.
  - rewrite Hio'. simpl in *. rewrite Hio. done.
Qed.

(** The first line of [d], with its null byte, has a length that an [int] holds. *)
Definition line_fits (d : list Z) : Prop :=
  forall l r, d = l ++ 10 :: r -> (10 ∉ l) -> zlen l + 1 < 2 ^ (8 * SIZEOF_INT - 1).

Lemma line_fits_app d r : line_fits (d ++ r) -> line_fits d.
Proof. intros Hd l r' -> Hl. apply (Hd l (r' ++ r)); [by rewrite <- app_assoc|done]. Qed.

(** With a newline in the buffer: the line, or no memory for it. *)
Lemma read_line_here_ok fuel s fl (b : buffer C) xs R :
  pool s fl (xs ++ R) -> buf_ok b xs -> 10 ∈ bytes xs -> line_fits (bytes xs) ->
  (exists line s' fl' b' xs',
    read_line_loop (S fuel) inp b s = Ok ((0, Some (line ++ [0]), zlen line, b'), s') /\
    pool s' fl' (xs' ++ R) /\ buf_ok b' xs' /\ bytes xs = line ++ 10 :: bytes xs' /\
    (10 ∉ line) /\ same_io b b' /\ xs' <> []) \/
  ((exists n, xmalloc_ok n = false) /\ read_line_loop (S fuel) inp b s = Ok ((-2, None, 0, b), s)).
Proof using Hv H0.
  intros Hp Hb Hin Hfit. cbn [read_line_loop].
  erewrite M_bind_ok by (by eapply pool_walk).
  destruct (find_newline_ok xs (S (length (fl ++ xs ++ R))) s fl (xs ++ R) (data b) 0)
    as [[Hno _]|(ys & l & nd & zs & d1 & d2 & Hnl & E)];
    [done|set_solver|apply Hb|apply Hb|rewrite !length_app; lia|done|].
  rewrite cint_0 in E.
  assert (Hby : bytes xs = (bytes ys ++ d1) ++ 10 :: d2 ++ bytes zs).
  { destruct Hnl as (-> & _ & Hnd & _). by rewrite bytes_app, bytes_cons, Hnd, <- !app_assoc. }
  assert (Hno : 10 ∉ bytes ys ++ d1) by (destruct Hnl as (_ & Hys & _ & Hd1); set_solver).
  pose proof (Hfit _ _ Hby Hno) as Hlt. pose proof (zlen_nonneg (bytes ys ++ d1)).
  erewrite M_bind_ok by exact E. cbn [fst snd]. rewrite Z.add_0_l, <- zlen_app, (cint_small (zlen (bytes ys ++ d1))) by lia.
  destruct (xmalloc_ok (zlen (bytes ys ++ d1) + 1)) eqn:Hx.
  2:{ right. split; [by eexists|]. unfold take_line. rewrite cint_small by lia. by rewrite Hx. }
  left. destruct (take_line_ok s fl b xs R ys l nd zs d1 d2 Hp Hb Hnl Hlt Hx) as
    (s' & fl' & b' & xs' & E' & Hp' & Hb' & Hx' & Hne & Hio).
  exists (bytes ys ++ d1), s', fl', b', xs'. split_and!; try done.
  - by rewrite <- app_assoc.
  - by rewrite Hby, Hx'.
Qed.

Lemma read_line_loop_ok (Hs : source) fuel s fl (b : buffer C) xs R :
  line_fits (bytes xs ++ pending (closure b)) -> pool s fl (xs ++ R) -> buf_ok b xs ->
  (length (pending (closure b)) + 1 < fuel)%nat ->
  exists status line n s' fl' b' xs',
    read_line_loop fuel inp b s = Ok ((status, line, n, b'), s') /\
    pool s' fl' (xs' ++ R) /\ buf_ok b' xs' /\ xs' <> [] /\
    same_io (set_closure (closure b') b) b' /\
    if status =? 0 then
      exists l, line = Some (l ++ [0]) /\ n = zlen l /\ (10 ∉ l) /\
        bytes xs ++ pending (closure b) = l ++ 10 :: bytes xs' ++ pending (closure b')
    else line = None /\ ((10 ∉ bytes xs) \/ exists n, xmalloc_ok n = false) /\
      bytes xs ++ pending (closure b) = bytes xs' ++ pending (closure b').
Proof using Hv H0.
  intros Hfit Hp Hb Hf. destruct (decide (10 ∈ bytes xs)) as [Hin|Hno].
  { destruct fuel as [|fuel]; [lia|].
    destruct (read_line_here_ok fuel s fl b xs R Hp Hb Hin (line_fits_app _ _ Hfit))
      as [(l & s' & fl' & b' & xs' & E & Hp' & Hb' & Hby & Hl & Hio & Hne)|[Hx E]].
    - assert (Hcl : closure b' = closure b) by (by rewrite Hio).
      exists 0, (Some (l ++ [0])), (zlen l), s', fl', b', xs'. split_and!; try done.
      + rewrite Hcl. destruct b. exact Hio.
      + exists l. split_and!; try done. by rewrite Hby, Hcl, <- app_assoc.
    - exists (-2), None, 0, s, fl, b, xs. split_and!; try done; [by intros ->; apply not_elem_of_nil in Hin|by destruct b|]. split; [done|]. split; [by right|done]. }
  destruct fuel as [|[|fuel]]; [lia..|]. cbn [read_line_loop].
  erewrite M_bind_ok by (by eapply pool_walk).
  destruct (find_newline_ok xs (S (length (fl ++ xs ++ R))) s fl (xs ++ R) (data b) 0)
    as [[_ E]|(ys & l & nd & zs & d1 & d2 & (-> & _ & Hnd & _) & _)];
    [done|set_solver|apply Hb|apply Hb|rewrite !length_app; lia| |].
  2:{ exfalso. apply Hno. rewrite bytes_app, bytes_cons, Hnd. set_solver. }
  rewrite cint_0 in E.
  erewrite M_bind_ok by exact E. cbn [fst snd].
  destruct (fill_line_ok Hs (S fuel) s fl b xs R Hp Hb) as
    (status & d & s1 & fl1 & b1 & xs1 & E1 & Hp1 & Hb1 & Hne1 & Hx1 & Hpend & Hnl & Hio1); [lia|].
  erewrite M_bind_ok by exact E1. cbn [fst snd].
  destruct (Z.eqb_spec status 0) as [->|Hst]; cbn [negb].
  2:{ exists status, None, 0, s1, fl1, b1, xs1. split_and!; try done.
      rewrite (proj2 (Z.eqb_neq _ _)) by done. split_and!; [done|by left|].
      by rewrite Hx1, Hpend, <- app_assoc. }
  destruct (read_line_here_ok fuel s1 fl1 b1 xs1 R Hp1 Hb1)
    as [(l & s' & fl' & b' & xs' & E' & Hp' & Hb' & Hby & Hl & Hio & Hne)|[Hx E']].
  { rewrite Hx1. set_solver. }
  { rewrite Hx1. apply (line_fits_app _ (pending (closure b1))). by rewrite <- app_assoc, <- Hpend. }
  - assert (Hcl : closure b' = closure b1) by (by rewrite Hio).
    exists 0, (Some (l ++ [0])), (zlen l), s', fl', b', xs'. split_and!; try done.
    + rewrite Hcl. rewrite Hio. rewrite Hio1. done.
    + exists l. split_and!; try done.
      rewrite Hpend, app_assoc, <- Hx1, Hby, Hcl, <- app_assoc. done.
  - exists (-2), None, 0, s1, fl1, b1, xs1. split_and!; try done. split; [done|]. split; [by right|].
    by rewrite Hx1, Hpend, <- app_assoc.
Qed.

(** *** [buf_read_data] *)
Lemma hand_out_ok s fl (b : buffer C) l nd xs R want :
  pool s fl ((l, nd) :: xs ++ R) -> buf_ok b ((l, nd) :: xs) -> 0 <= want ->
  exists d s' nd', hand_out want b s = Ok ((0, d, b), s') /\
    pool s' fl ((l, nd') :: xs ++ R) /\ buf_ok b ((l, nd') :: xs) /\
    node_bytes nd = d ++ node_bytes nd' /\ zlen d = Z.min want (bsize nd).
Proof using H0.
  intros Hp Hb Hw. unfold hand_out. pose proof Hb as [[Hd Hd'] Hl Hns]. rewrite Hd.
  pose proof (pool_text_mid s fl [] l nd _ Hp) as Ht.
  erewrite M_bind_ok by (by eapply (pool_deref_mid s fl [] l nd)). cbn [snd].
  apply Forall_cons in Hns as [(Hm1 & Hm2 & Hm3) Hns]. simpl in Hm1, Hm2, Hm3.
  assert (Hok : forall nd', next nd' = next nd -> node_ok nd' -> buf_ok b ((l, nd') :: xs)).
  { intros nd' En Hn'. split; [by simpl; rewrite En| |by constructor].
    intros [|y ys] k kd E; simplify_eq/=; [by apply (Hl [] k nd)|by apply (Hl ((l, nd) :: ys) k kd)]. }
  destruct (Z.ltb_spec want (bsize nd)) as [Hlt|Hge].
  - erewrite M_bind_ok by (apply memcpy_from_ok; [done|lia..]).
    destruct (pool_assign_mid s fl [] l nd (xs ++ R)
      (fun d => with_bufp (bufp d + want) (with_size (bsize d - want) d)) Hp) as [Ea Hpa]; [done|].
    erewrite M_bind_ok by exact Ea.
    eexists _, _, _. split; [done|]. split; [exact Hpa|]. split_and!.
    + apply Hok; [done|]. unfold node_ok. simpl. lia.
    + symmetry. apply peek_advance; lia.
    + rewrite zlen_peek; lia.
  - erewrite M_bind_ok by (apply memcpy_from_ok; [done|lia..]).
    destruct (pool_assign_mid s fl [] l nd (xs ++ R) (with_size 0) Hp) as [Ea Hpa]; [done|].
    erewrite M_bind_ok by exact Ea.
    eexists _, _, _. split; [done|]. split; [exact Hpa|]. split_and!.
    + apply Hok; [done|]. unfold node_ok. simpl. lia.
    + unfold node_bytes at 2. simpl. by rewrite app_nil_r.
    + rewrite zlen_peek; lia.
Qed.

Lemma buf_read_data_ok (Hs : source) s fl (b : buffer C) xs R want :
  input b = Some inp -> pool s fl (xs ++ R) -> buf_ok b xs -> last_clean b xs -> 0 <= want ->
  exists status d s' fl' b' xs',
    buf_read_data b want s = Ok ((status, d, b'), s') /\ pool s' fl' (xs' ++ R) /\
    buf_ok b' xs' /\ xs' <> [] /\ same_io (set_closure (closure b') b) b' /\
    bytes xs ++ pending (closure b) = d ++ bytes xs' ++ pending (closure b') /\
    zlen d <= want /\
    (bytes xs <> [] -> status = 0 /\ closure b' = closure b /\ (0 < want -> d <> [])) /\
    (status <> 0 -> bytes xs = [] /\ d = [] /\ bytes xs' = []).
Proof using Hv H0.
  intros Hi Hp Hb Hc Hw. unfold buf_read_data. rewrite Hi.
  erewrite M_bind_ok by (by eapply pool_walk).
  destruct (drop_empty_ok xs (S (length (fl ++ xs ++ R))) s fl b R) as
    (s1 & fl1 & b1 & xs1 & E1 & Hp1 & Hb1 & Hc1 & Hx1 & Hio1 & Hhd);
    [rewrite !length_app; lia|done..|].
  erewrite M_bind_ok by exact E1. rewrite <- Hx1.
  assert (Hcl1 : closure b1 = closure b) by (by rewrite Hio1).
  destruct xs1 as [|[l nd] xs1].
  - pose proof (ok_data _ _ Hb1) as Hd. simpl in Hd. rewrite Hd, decide_True by done.
    destruct (get_buffer_data_success s1 fl1 R Hp1) as (l & nd & fl2 & s2 & E2 & Hp2 & He2).
    erewrite M_bind_ok by exact E2. rewrite decide_False by done.
    destruct (pool_assign_mid s2 fl2 [] l nd R (with_next None) Hp2) as [E3 Hp3].
    { apply (pool_text_mid s2 fl2 [] l nd R Hp2). }
    erewrite M_bind_ok by exact E3. unfold empty_node.
    destruct (pool_assign_mid _ fl2 [] l _ R (with_bufp 0) Hp3) as [E4 Hp4].
    { apply (pool_text_mid _ fl2 [] l _ R Hp3). }
    destruct (pool_assign_mid _ fl2 [] l _ R (with_size 0) Hp4) as [E5 Hp5].
    { apply (pool_text_mid _ fl2 [] l _ R Hp4). }
    rewrite M_bind_eq. erewrite M_bind_ok by exact E4. rewrite E5. clear E3 E4 E5 Hp3 Hp4.
    set (nd5 := with_size 0 _) in *. set (s5 := upd l nd5 _) in *.
    pose proof BDS_pos.
    set (get := if want <? BUFFER_DATA_SIZE then want else BUFFER_DATA_SIZE).
    cbn [closure set_last set_data]. erewrite M_bind_ok by (by apply src_pure).
    pose proof (src_bytes Hs (closure b1) get BUFFER_DATA_SIZE) as Hby.
    pose proof (src_error Hs (closure b1) get BUFFER_DATA_SIZE) as Her.
    destruct (i (closure b1) get BUFFER_DATA_SIZE) as [[status d0] c]. cbn [fst snd] in Hby, Her.
    assert (Hok : forall nd', next nd' = None -> node_ok nd' ->
      buf_ok (set_closure c (set_last (Some l) (set_data (Some l) b1))) [(l, nd')]).
    { intros nd' En Hn. apply (buf_ok_intro _ []); simpl; try done. }
    destruct (Z.eqb_spec status 0) as [->|Hst]; cbn [negb].
    + destruct (Hby eq_refl) as [Hz Hpend]. pose proof (zlen_nonneg d0).
      destruct (memcpy_text_mid s5 fl2 [] l nd5 R 0 d0 Hp5) as [E6 Hp6]; [lia..|].
      erewrite M_bind_ok by exact E6.
      pose proof (pool_text_mid s2 fl2 [] l nd R Hp2) as Ht.
      destruct (pool_assign_mid _ fl2 [] l _ R (with_size (zlen d0)) Hp6) as [E7 Hp7].
      { simpl. simpl in Ht. rewrite zlen_overwrite; lia. }
      erewrite M_bind_ok by exact E7.
      set (b7 := set_closure c _). set (nd7 := with_size (zlen d0) _) in *.
      assert (Hb7 : buf_ok b7 [(l, nd7)]).
      { apply Hok; [done|]. unfold node_ok. simpl. lia. }
      destruct (hand_out_ok _ fl2 b7 l nd7 [] R want Hp7 Hb7 Hw) as
        (d & s' & nd' & E & Hp' & Hb' & Hsplit & Hzd).
      exists 0, d, s', fl2, b7, [(l, nd')].
      assert (Hn7 : node_bytes nd7 = d0).
      { simpl in Ht. apply (peek_append nd5 d0); simpl; lia. }
      split_and!; try done.
      * unfold b7; by rewrite Hio1.
      * rewrite <- Hcl1. change (closure b7) with c. rewrite Hpend, bytes_cons. simpl.
        change (bytes []) with (@nil Z). rewrite <- Hn7, Hsplit, app_nil_r. simpl. by rewrite <- !app_assoc.
      * lia.
    + exists status, [], s5, fl2, (set_closure c (set_last (Some l) (set_data (Some l) b1))), [(l, nd5)].
      split_and!; try done.
      * apply Hok; [done|]. unfold node_ok. simpl. lia.
      * by rewrite Hio1.
      * simpl. by rewrite Her, Hcl1.
  - pose proof (ok_data _ _ Hb1) as [Hd _]. rewrite Hd, decide_False by done.
    destruct (hand_out_ok s1 fl1 b1 l nd xs1 R want Hp1 Hb1 Hw) as
      (d & s' & nd' & E & Hp' & Hb' & Hsplit & Hzd).
    exists 0, d, s', fl1, b1, ((l, nd') :: xs1). split_and!; try done.
    + rewrite Hcl1. destruct b. exact Hio1.
    + by rewrite !bytes_cons, Hsplit, Hcl1, <- !app_assoc.
    + lia.
    + intros _. split_and!; try done. intros Hw0 ->. change (zlen []) with 0 in Hzd.
      destruct (ok_nodes _ _ Hb1) as [|? ? (Hm1 & Hm2 & Hm3) _]; simpl in *; lia.
Qed.
End source.

(** *** An integer in front of the buffer *)
Lemma push_int_ok {C} s fl (b : buffer C) xs R l nd n :
  pool s fl ((l, nd) :: xs ++ R) -> buf_ok b xs -> last_clean b xs ->
  exists s' nd' b', push_int b (Some l) n s = buf_send_output b' s' /\
    pool s' fl (((l, nd') :: xs) ++ R) /\ buf_ok b' ((l, nd') :: xs) /\
    node_bytes nd' = int_to_bytes n /\ same_io b b'.
Proof.
  intros Hp Hb Hc. pose proof Hb as [Hd Hl Hns]. pose proof int_fits as [Hi1 Hi2].
  unfold push_int.
  destruct (pool_assign_mid s fl [] l nd (xs ++ R) (with_next (data b)) Hp) as [E1 Hp1].
  { by apply (pool_text_mid s fl [] l nd (xs ++ R) Hp). }
  erewrite M_bind_ok by exact E1. cbn zeta.
  destruct (pool_assign_mid _ fl [] l _ (xs ++ R) (with_bufp 0) Hp1) as [E2 Hp2].
  { apply (pool_text_mid _ fl [] l _ (xs ++ R) Hp1). }
  erewrite M_bind_ok by exact E2.
  destruct (fill_node_ok _ fl [] l _ (xs ++ R) (int_to_bytes n) Hp2) as
    (s3 & nd3 & E3 & Hp3 & Hn3 & Hb3 & He3); [by rewrite int_len|].
  destruct (Hb3 eq_refl) as [Hby Hok]. rewrite int_len in E3.
  set (b1 := if decide _ then _ else _).
  assert (Hb1 : data b1 = Some l /\ same_io b b1 /\
    forall ys k kd, (l, nd3) :: xs = ys ++ [(k, kd)] -> last b1 = Some k).
  { unfold b1. cbn [last set_data]. destruct (decide (last b = None)) as [En|En].
    - assert (xs = []) as ->.
      { destruct xs as [|[k kd] xs _] using rev_ind; [done|]. by rewrite (Hl xs k kd) in En. }
      split_and!; [done|done|]. intros [|y ys] k kd E; simplify_eq/=; [done|by destruct ys].
    - split_and!; [done|done|]. intros [|y ys] k kd E; simplify_eq/=.
      + exfalso. by apply En, Hc.
      + by apply (Hl ys k kd). }
  destruct Hb1 as (Hd1 & Hio & Hlast).
  exists s3, nd3, b1. split; [apply E3|]. split; [exact Hp3|].
  split_and!; [|done|done]. split; [|done|by constructor].
  simpl. split; [done|]. by rewrite Hn3.
Qed.
End pool.
