(* ===== verification/CvsCopyProofs.v ===== *)
(** * CVS buffers: moving data from one buffer to another

    [buf_append_data], [buf_copy_lines] and [buf_copy_counted] move nodes
    between two chains; the theorems compare them with reference definitions
    on the bytes that the buffers hold. *)
From S2P Require Import Prelude Heap CvsBuffer CvsBufferProofs.
Open Scope Z_scope.

(** The complete lines of a byte string, each with its newline, and the
    incomplete line after them. *)
Fixpoint split_lines (acc l : list Z) : list (list Z) * list Z :=
  match l with
  | [] => ([], acc)
  | c :: l' =>
      if c =? 10 then
        let '(ls, r) := split_lines [] l' in ((acc ++ [c]) :: ls, r)
      else split_lines (acc ++ [c]) l'
  end.

Lemma split_lines_none acc l : (10 ∉ l) -> split_lines acc l = ([], acc ++ l).
Proof.
  revert acc. induction l as [|c l IH]; intros acc Hl; simpl; [by rewrite app_nil_r|].
  rewrite (proj2 (Z.eqb_neq c 10)) by set_solver.
  rewrite IH by set_solver. by rewrite <- app_assoc.
Qed.

Lemma split_lines_line acc d r :
  (10 ∉ d) ->
  split_lines acc (d ++ 10 :: r) = ((acc ++ d ++ [10]) :: (split_lines [] r).1, (split_lines [] r).2).
Proof.
  revert acc. induction d as [|c d IH]; intros acc Hd; simpl.
  { by destruct (split_lines [] r). }
  rewrite (proj2 (Z.eqb_neq c 10)) by set_solver.
  rewrite IH by set_solver. by rewrite <- app_assoc.
Qed.

(** Each line with the command and a space in front. *)
Definition tagged (command : Z) (ls : list (list Z)) : list Z :=
  concat ((fun l => wrapu 8 command :: 32 :: l) <$> ls).

Section copy.
Context `{CvsLaws} {C C' : Type}.
Implicit Types (bo : buffer C) (bi : buffer C').

Lemma buf_append_data_ok {D} s fl (b : buffer D) xs ys k kd p R :
  pool s fl (xs ++ (ys ++ [(k, kd)]) ++ R) -> buf_ok b xs ->
  linked next p (ys ++ [(k, kd)]) None -> Forall (fun x => node_ok x.2) (ys ++ [(k, kd)]) ->
  exists s' b' xs', buf_append_data b p (Some k) s = Ok (b', s') /\
    pool s' fl (xs' ++ R) /\ buf_ok b' xs' /\ bytes xs' = bytes xs ++ bytes (ys ++ [(k, kd)]) /\
    same_io b b' /\ xs' <> [].
Proof.
  intros Hp Hb Hl Hns. assert (Hne : p <> None).
  { intros ->. apply linked_nil_inv in Hl as [E _]. by destruct ys. }
  unfold buf_append_data. rewrite decide_False by done.
  destruct (append_nodes_ok _ _ _ _ _ _ _ Hp Hb Hl Hne) as (s' & E & Hp' & Hl' & He).
  erewrite M_bind_ok by exact E. rewrite app_assoc in Hl'.
  eexists s', _, (relink p xs ++ ys ++ [(k, kd)]). split; [done|]. split_and!.
  - by rewrite <- app_assoc.
  - rewrite app_assoc. rewrite Forall_app, Forall_singleton in Hns.
    destruct Hns as [Hns Hn]. apply buf_ok_intro; [done|done| |done].
    apply Forall_app. split; [apply node_ok_relink, Hb|done].
  - by rewrite bytes_app, bytes_relink.
  - done.
  - by destruct (relink p xs), ys.
Qed.

(** A chain that ends at [stop], which is null or in the rest of the pool. *)
Definition stop_outside (stop : option loc) (rest : list node) : Prop :=
  match stop with None => True | Some l => exists nd, (l, nd) ∈ rest end.

Lemma stop_ne s fl ys rest stop :
  pool s fl (ys ++ rest) -> stop_outside stop rest -> forall x, x ∈ ys -> Some x.1 <> stop.
Proof.
  intros Hp Hs [k kd] (y1 & y2 & ->)%list_elem_of_split <-. destruct Hs as [nd Hnd].
  assert (Hp' : pool s fl ((k, kd) :: y1 ++ y2 ++ rest)).
  { eapply pool_proper; [|exact Hp]. solve_Permutation. }
  eapply (pool_ne _ _ k kd _ k nd); [exact Hp'|set_solver|done].
Qed.

Lemma last_before_ok ys fuel s fl R p k kd stop :
  pool s fl R -> (forall x, x ∈ ys ++ [(k, kd)] -> x ∈ R) -> linked next p (ys ++ [(k, kd)]) stop ->
  (forall x, x ∈ ys ++ [(k, kd)] -> Some x.1 <> stop) -> (length ys < fuel)%nat ->
  last_before fuel p stop s = Ok (Some k, s).
Proof.
  intros Hp. revert fuel p. induction ys as [|[a ad] ys IH]; intros fuel p Hin Hl Hs Hf;
    (destruct fuel as [|fuel]; [simpl in Hf; lia|]); cbn [last_before]; simpl in Hl;
    destruct Hl as [-> Hl].
  - erewrite M_bind_ok by (eapply pool_deref; [exact Hp|apply Hin, list_elem_of_here]).
    cbn [snd]. by rewrite decide_True.
  - erewrite M_bind_ok by (eapply pool_deref; [exact Hp|apply Hin, list_elem_of_here]).
    cbn [snd]. rewrite decide_False.
    + apply IH; [|done| |simpl in Hf; lia].
      * intros x Hx. apply Hin. by apply list_elem_of_further.
      * intros x Hx. apply Hs. by apply list_elem_of_further.
    + destruct ys as [|[c cd] ys]; simpl in Hl; destruct Hl as [-> Hl].
      * apply (Hs (k, kd)). set_solver.
      * apply (Hs (c, cd)). set_solver.
Qed.

Lemma move_nodes_ok s fl bo xo ys rest start stop :
  pool s fl (xo ++ ys ++ rest) -> buf_ok bo xo -> ys <> [] -> linked next start ys stop ->
  Forall (fun x => node_ok x.2) ys -> stop_outside stop rest ->
  exists s' bo' xo', move_nodes bo start stop s = Ok (bo', s') /\
    pool s' fl (xo' ++ rest) /\ buf_ok bo' xo' /\ bytes xo' = bytes xo ++ bytes ys /\
    same_io bo bo' /\ xo' <> [].
Proof.
  intros Hp Hb Hne Hl Hns Hs. destruct (exists_last Hne) as (ys' & [k kd] & ->).
  unfold move_nodes. erewrite M_bind_ok by (by eapply pool_walk).
  erewrite M_bind_ok.
  2:{ eapply (last_before_ok ys' _ s fl); [exact Hp|intros x Hx; apply elem_of_app; right; apply elem_of_app; by left|exact Hl| |].
      - apply (stop_ne s fl _ (xo ++ rest)).
        + eapply pool_proper; [|exact Hp]. solve_Permutation.
        + destruct stop as [l|]; [|done]. destruct Hs as [nd Hs]. exists nd. set_solver.
      - rewrite !length_app. lia. }
  assert (Hp1 : pool s fl ((xo ++ ys') ++ (k, kd) :: rest)).
  { eapply pool_proper; [|exact Hp]. solve_Permutation. }
  destruct (pool_assign_mid _ _ _ _ _ _ (with_next None) Hp1) as [E Hp2].
  { by apply (pool_text_mid _ _ _ _ _ _ Hp1). }
  erewrite M_bind_ok by exact E.
  apply linked_snoc in Hl as [Hl _]. rewrite Forall_app, Forall_singleton in Hns.
  destruct (buf_append_data_ok (upd k (with_next None kd) s) fl bo xo ys' k (with_next None kd)
    start rest) as (s' & bo' & xo' & E' & Hp' & Hb' & Hx & Hio & Hne').
  - eapply pool_proper; [|exact Hp2]. solve_Permutation.
  - done.
  - by apply linked_snoc.
  - by rewrite Forall_app, Forall_singleton.
  - exists s', bo', xo'. split_and!; try done. by rewrite Hx, !bytes_app.
Qed.

Context (Hv : forall n, valloc_ok n = true).

(** Copying a part of a node that stays in its chain. *)
Lemma copy_part_ok s fl bo xo R1 l nd R2 len :
  pool s fl (xo ++ R1 ++ (l, nd) :: R2) -> buf_ok bo xo -> node_ok nd -> 0 <= len <= bsize nd ->
  exists s' fl' bo' xo' nd', copy_part bo (Some l) len s = Ok (bo', s') /\
    pool s' fl' (xo' ++ R1 ++ (l, nd') :: R2) /\ buf_ok bo' xo' /\
    bytes xo' ++ node_bytes nd' = bytes xo ++ node_bytes nd /\ bytes xo' = bytes xo ++ peek nd len /\
    same_io bo bo' /\ node_ok nd' /\ next nd' = next nd /\ bsize nd' = bsize nd - len.
Proof using Hv H0.
  intros Hp Hb (Hm1 & Hm2 & Hm3) Hlen. unfold copy_part.
  assert (Hx : (l, nd) ∈ xo ++ R1 ++ (l, nd) :: R2) by set_solver.
  erewrite M_bind_ok by (eapply pool_deref; [exact Hp|exact Hx]). cbn [snd].
  pose proof (pool_text_of _ _ _ _ _ Hp Hx) as Ht.
  erewrite M_bind_ok by (apply memcpy_from_ok; [done|lia..]).
  destruct (appended_success Hv _ _ _ _ _ _ (buf_output_ok s fl bo xo _ (peek nd len) Hp Hb)) as
    (s1 & fl1 & bo1 & xo1 & E1 & Hp1 & Hb1 & Hx1 & Hne1 & Hio1 & He1).
  erewrite M_bind_ok by exact E1. rewrite app_assoc in Hp1.
  destruct (pool_assign_mid _ _ _ _ _ _
    (fun d => with_bufp (bufp d + len) (with_size (bsize d - len) d)) Hp1) as [E2 Hp2]; [done|].
  erewrite M_bind_ok by exact E2. rewrite <- app_assoc in Hp2.
  eexists _, fl1, bo1, xo1, _. split; [done|]. split; [exact Hp2|]. split_and!; try done.
  - rewrite Hx1, <- app_assoc. f_equal. apply peek_advance; lia.
  - unfold node_ok. simpl. lia.
Qed.

(** *** [buf_copy_lines] *)

Lemma length_bytes_le s fl R xs :
  pool s fl R -> (forall x, x ∈ xs -> x ∈ R) -> Forall (fun x => node_ok x.2) xs ->
  (length (bytes xs) <= length xs * Z.to_nat BUFFER_DATA_SIZE)%nat.
Proof using Hv H0.
  intros Hp Hin Hns. induction Hns as [|[l nd] xs Hn Hns IH]; [simpl; lia|].
  rewrite bytes_cons, length_app. simpl.
  assert (Hx : (l, nd) ∈ R) by (apply Hin, list_elem_of_here).
  pose proof (zlen_node_bytes _ _ _ _ _ Hp Hx Hn) as Hz. unfold zlen in Hz.
  destruct Hn as (? & ? & ?). simpl in *.
  assert (length (bytes xs) <= length xs * Z.to_nat BUFFER_DATA_SIZE)%nat.
  { apply IH. intros x Hx'. apply Hin. by apply list_elem_of_further. }
  lia.
Qed.

Lemma copy_fuel_ok s fl xo xi R :
  pool s fl (xo ++ xi ++ R) -> Forall (fun x => node_ok x.2) xi ->
  exists fuel, copy_fuel s = Ok (fuel, s) /\ (length (bytes xi) < fuel)%nat.
Proof using Hv H0.
  intros Hp Hns. unfold copy_fuel. erewrite M_bind_ok by (by eapply pool_walk).
  eexists. split; [done|].
  pose proof (length_bytes_le s fl _ xi Hp ltac:(set_solver) Hns) as Hl.
  rewrite !length_app. simpl. nia.
Qed.

(** The invariant of the two-buffer loops. *)
Record two_ok (s : st) (fl : list node) bo xo bi xi (R : list node) : Prop := {
  two_pool : pool s fl (xo ++ xi ++ R);
  two_out : buf_ok bo xo;
  two_in : buf_ok bi xi
}.

Lemma buf_ok_suffix (b : buffer C') xs ys p :
  buf_ok b (xs ++ ys) -> linked next p ys None -> buf_ok (set_data p b) ys.
Proof using.
  intros [Hd Hl Hn] Hlk. split; [done| |by apply Forall_app in Hn as [_ ?]].
  intros zs l nd ->. apply (Hl (xs ++ zs) l nd). by rewrite app_assoc.
Qed.

Lemma buf_ok_head (b : buffer C') l nd nd' ys :
  buf_ok b ((l, nd) :: ys) -> next nd' = next nd -> node_ok nd' -> buf_ok b ((l, nd') :: ys).
Proof using.
  intros [[Hd Hd'] Hl Hn] En Hn'. split; [simpl; by rewrite En| |].
  - intros [|z zs] k kd E; simplify_eq/=; [by apply (Hl [] k nd)|by apply (Hl ((l, nd) :: zs) k kd)].
  - apply Forall_cons in Hn as [_ Hn]. by constructor.
Qed.

(** After the command: the line goes over, by moving nodes and by copying
    the part of the node in which it ends. *)
Definition move_line bo bi (nldata : option loc) (nl : Z) : B (buffer C * buffer C') :=
  outbuf ← (if decide (data bi = nldata) then mret bo else move_nodes bo (data bi) nldata);
  let inbuf := set_data nldata bi in
  x ← deref nldata;
  let len := nl + 1 in
  if len =? bsize x.2 then
    let inbuf := set_data (next x.2) inbuf in
    let inbuf := if decide (data inbuf = None) then set_last None inbuf else inbuf in
    assign nldata (with_next None) ;;
    outbuf ← buf_append_data outbuf nldata nldata;
    mret (outbuf, inbuf)
  else
    outbuf ← copy_part outbuf nldata len;
    mret (outbuf, inbuf).

Lemma move_before_ok s fl bo xo ys l nd zs R p :
  pool s fl (xo ++ ys ++ (l, nd) :: zs ++ R) -> buf_ok bo xo ->
  linked next p ys (Some l) -> Forall (fun x => node_ok x.2) ys ->
  exists s' bo' xo', (if decide (p = Some l) then mret bo else move_nodes bo p (Some l)) s =
      Ok (bo', s') /\ pool s' fl (xo' ++ (l, nd) :: zs ++ R) /\ buf_ok bo' xo' /\
    bytes xo' = bytes xo ++ bytes ys /\ same_io bo bo'.
Proof using Hv H0.
  intros Hp Hb Hl Hns. destruct ys as [|[k kd] ys].
  - simpl in Hl. subst p. rewrite decide_True by done. exists s, bo, xo.
    split_and!; try done; [by rewrite app_nil_r|apply same_io_refl].
  - assert (Hs : stop_outside (Some l) ((l, nd) :: zs ++ R)) by (exists nd; set_solver).
    rewrite decide_False.
    2:{ simpl in Hl. destruct Hl as [-> _]. apply (stop_ne s fl ((k, kd) :: ys)
          ((l, nd) :: zs ++ xo ++ R) (Some l)) with (x := (k, kd)).
        - eapply pool_proper; [|exact Hp]. solve_Permutation.
        - exists nd. set_solver.
        - apply list_elem_of_here. }
    destruct (move_nodes_ok s fl bo xo ((k, kd) :: ys) ((l, nd) :: zs ++ R) p (Some l)) as
      (s' & bo' & xo' & E & Hp' & Hb' & Hx & Hio & _); try done.
    exists s', bo', xo'. done.
Qed.

Lemma move_line_ok s fl bo xo bi xi R ys l nd zs d1 d2 :
  two_ok s fl bo xo bi xi R -> last_clean bi xi -> newline_at xi ys l nd zs d1 d2 ->
  exists s' fl' bo' xo' bi' xi', move_line bo bi (Some l) (zlen d1) s = Ok ((bo', bi'), s') /\
    two_ok s' fl' bo' xo' bi' xi' R /\ last_clean bi' xi' /\
    bytes xo' = bytes xo ++ bytes ys ++ d1 ++ [10] /\ bytes xi' = d2 ++ bytes zs /\
    same_io bo bo' /\ same_io bi bi'.
Proof using Hv H0.
  intros [Hp Hbo Hbi] Hc (-> & Hys & Hnd & Hd1). unfold move_line.
  pose proof Hbi as [Hd Hl Hns]. apply linked_app in Hd as (r & Hl1 & [-> Hl2]).
  rewrite Forall_app, Forall_cons in Hns. destruct Hns as (Hn1 & Hn & Hn2). simpl in Hn.
  rewrite <- app_assoc in Hp. simpl in Hp.
  destruct (move_before_ok s fl bo xo ys l nd zs R (data bi) Hp Hbo Hl1 Hn1) as
    (s1 & bo1 & xo1 & E1 & Hp1 & Hbo1 & Hx1 & Hio1).
  erewrite M_bind_ok by exact E1.
  assert (Hxl : (l, nd) ∈ xo1 ++ (l, nd) :: zs ++ R) by set_solver.
  erewrite M_bind_ok by (eapply pool_deref; [exact Hp1|exact Hxl]). cbn [snd].
  pose proof (zlen_node_bytes _ _ _ _ _ Hp1 Hxl Hn) as Hz.
  assert (Hsz : bsize nd = zlen d1 + 1 + zlen d2).
  { rewrite <- Hz, Hnd. rewrite zlen_app. unfold zlen. simpl. lia. }
  pose proof (zlen_nonneg d1). pose proof (zlen_nonneg d2).
  assert (Hbi1 : buf_ok (set_data (Some l) bi) ((l, nd) :: zs)) by (by eapply buf_ok_suffix).
  destruct (Z.eqb_spec (zlen d1 + 1) (bsize nd)) as [Eq|Ne].
  - (* the newline ends its node: the node moves *)
    assert (d2 = []) as -> by (apply zlen_nil_inv; lia).
    destruct (pool_assign_mid _ _ _ _ _ _ (with_next None) Hp1) as [E2 Hp2].
    { by apply (pool_text_mid _ _ _ _ _ _ Hp1). }
    erewrite M_bind_ok by exact E2.
    destruct (buf_append_data_ok (upd l (with_next None nd) s1) fl bo1 xo1 [] l (with_next None nd)
      (Some l) (zs ++ R) Hp2 Hbo1) as (s' & bo' & xo' & E' & Hp' & Hb' & Hx & Hio & _); [done| |].
    { by constructor. }
    erewrite M_bind_ok by exact E'.
    eexists s', fl, bo', xo', _, zs. split; [done|]. split_and!.
    + split; [exact Hp'|done|]. cbn [data set_data].
      assert (Hz0 : buf_ok (set_data (next nd) (set_data (Some l) bi)) zs).
      { by apply (buf_ok_suffix _ [(l, nd)]). }
      destruct (decide (next nd = None)) as [En|En]; [|done].
      rewrite En in Hl2. apply linked_nil_inv in Hl2 as [-> _].
      split; [by rewrite En|by intros [|??]|by constructor].
    + intros ->. simpl in Hl2. cbn [data set_data]. by rewrite decide_True.
    + rewrite Hx, Hx1, <- app_assoc. f_equal. f_equal. unfold bytes. simpl. rewrite app_nil_r.
      exact Hnd.
    + done.
    + by eapply same_io_trans.
    + cbn [data set_data]. by destruct (decide (next nd = None)).
  - destruct (copy_part_ok s1 fl bo1 xo1 [] l nd (zs ++ R) (zlen d1 + 1) Hp1 Hbo1 Hn) as
      (s' & fl' & bo' & xo' & nd' & E' & Hp' & Hb' & Hx' & Hx & Hio & Hn' & En & Esz); [lia|].
    erewrite M_bind_ok by exact E'.
    assert (Hpk : peek nd (zlen d1 + 1) = d1 ++ [10]).
    { transitivity (ztake (zlen d1 + 1) (node_bytes nd)).
      - unfold node_bytes, peek, ztake. rewrite take_take. f_equal. lia.
      - rewrite Hnd. change (10 :: d2) with ([10] ++ d2). rewrite app_assoc.
        apply ztake_app. by rewrite zlen_app. }
    eexists s', fl', bo', xo', _, ((l, nd') :: zs). split; [done|]. split_and!; [|done| | |by eapply same_io_trans|done].
    + split; [done|done|]. by eapply buf_ok_head.
    + by rewrite Hx, Hx1, Hpk, <- app_assoc.
    + rewrite bytes_cons. f_equal. rewrite Hx in Hx'. rewrite <- app_assoc in Hx'.
      apply app_inv_head in Hx'. rewrite Hpk, Hnd, <- app_assoc in Hx'.
      by apply app_inv_head in Hx'; simplify_eq/=.
Qed.

Lemma copy_lines_loop_unfold fuel bo bi command s :
  copy_lines_loop (S fuel) bo bi command s =
    (wf ← walk_fuel (V := buffer_data);
     r ← find_newline wf (data bi) 0;
     match r.2 with
     | None => mret (bo, bi)
     | Some (nldata, nl) =>
         bo ← buf_append_char bo command;
         bo ← buf_append_char bo 32;
         p ← move_line bo bi nldata nl;
         copy_lines_loop fuel p.1 p.2 command
     end) s.
Proof using.
  cbn [copy_lines_loop]. rewrite !M_bind_eq. destruct (walk_fuel s) as [[wf s1]| |]; [|done..].
  rewrite !M_bind_eq. destruct (find_newline wf (data bi) 0 s1) as [[[len [[nldata nl]|]] s2]| |];
    [|done..]. cbn [snd].
  rewrite !M_bind_eq. destruct (buf_append_char bo command s2) as [[b1 s3]| |]; [|done..].
  rewrite !M_bind_eq. destruct (buf_append_char b1 32 s3) as [[b2 s4]| |]; [|done..].
  unfold move_line. rewrite !M_bind_eq.
  destruct ((if decide (data bi = nldata) then mret b2 else move_nodes b2 (data bi) nldata) s4)
    as [[b3 s5]| |]; [|done..].
  rewrite !M_bind_eq. destruct (deref nldata s5) as [[x s6]| |]; [|done..].
  destruct (nl + 1 =? bsize x.2).
  - rewrite !M_bind_eq. destruct (assign nldata (with_next None) s6) as [[[] s7]| |]; [|done..].
    rewrite !M_bind_eq. by destruct (buf_append_data b3 nldata nldata s7) as [[b4 s8]| |].
  - rewrite !M_bind_eq. by destruct (copy_part b3 nldata (nl + 1) s6) as [[b4 s7]| |].
Qed.

Lemma copy_lines_loop_ok command fuel s fl bo xo bi xi R :
  (length (bytes xi) < fuel)%nat -> two_ok s fl bo xo bi xi R -> last_clean bi xi ->
  exists s' fl' bo' xo' bi' xi', copy_lines_loop fuel bo bi command s = Ok ((bo', bi'), s') /\
    two_ok s' fl' bo' xo' bi' xi' R /\ last_clean bi' xi' /\
    bytes xo' = bytes xo ++ tagged command (split_lines [] (bytes xi)).1 /\
    bytes xi' = (split_lines [] (bytes xi)).2 /\ same_io bo bo' /\ same_io bi bi'.
Proof using Hv H0.
  revert s fl bo xo bi xi. induction fuel as [|fuel IH]; intros s fl bo xo bi xi Hf Ht Hc; [lia|].
  rewrite copy_lines_loop_unfold. pose proof Ht as [Hp Hbo Hbi].
  erewrite M_bind_ok by (by eapply pool_walk).
  destruct (find_newline_ok xi (S (length (fl ++ xo ++ xi ++ R))) s fl _ (data bi) 0 Hp)
    as [[Hno E]|(ys & l & nd & zs & d1 & d2 & Hnl & E)];
    [set_solver|apply Hbi|apply Hbi|rewrite !length_app; lia| |];
    rewrite cint_0 in E; erewrite M_bind_ok by exact E; cbn [snd].
  { exists s, fl, bo, xo, bi, xi. rewrite split_lines_none by done. unfold tagged. simpl.
    split_and!; try done; [by rewrite app_nil_r|apply same_io_refl..]. }
  destruct (appended_success Hv _ _ _ _ _ _ (buf_append_char_ok s fl bo xo _ command Hp Hbo)) as
    (s1 & fl1 & bo1 & xo1 & E1 & Hp1 & Hb1 & Hx1 & Hne1 & Hio1 & He1).
  erewrite M_bind_ok by exact E1.
  destruct (appended_success Hv _ _ _ _ _ _ (buf_append_char_ok s1 fl1 bo1 xo1 _ 32 Hp1 Hb1)) as
    (s2 & fl2 & bo2 & xo2 & E2 & Hp2 & Hb2 & Hx2 & Hne2 & Hio2 & He2).
  erewrite M_bind_ok by exact E2.
  destruct (move_line_ok s2 fl2 bo2 xo2 bi xi R ys l nd zs d1 d2) as
    (s3 & fl3 & bo3 & xo3 & bi3 & xi3 & E3 & Ht3 & Hc3 & Hx3 & Hxi3 & Hio3 & Hioi3); [by split|done..|].
  erewrite M_bind_ok by exact E3. cbn [fst snd].
  assert (Hxi : bytes xi = (bytes ys ++ d1) ++ 10 :: bytes xi3).
  { destruct Hnl as (-> & _ & Hnd & _).
    by rewrite bytes_app, bytes_cons, Hnd, Hxi3, <- !app_assoc. }
  destruct (IH s3 fl3 bo3 xo3 bi3 xi3) as
    (s' & fl' & bo' & xo' & bi' & xi' & E' & Ht' & Hc' & Hx' & Hxi' & Hio' & Hioi'); [|done..|].
  { rewrite Hxi, length_app in Hf. simpl in Hf. lia. }
  exists s', fl', bo', xo', bi', xi'.
  rewrite Hxi, split_lines_line.
  2:{ destruct Hnl as (_ & Hys & _ & Hd1). set_solver. }
  split_and!; try done.
  - rewrite Hx', Hx3, Hx2, Hx1. unfold tagged. cbn [fst]. rewrite fmap_cons. cbn [concat app].
    rewrite <- !app_assoc. done.
  - eapply same_io_trans; [exact Hio1|]. eapply same_io_trans; [exact Hio2|].
    by eapply same_io_trans.
  - by eapply same_io_trans.
Qed.

(** *** [buf_copy_counted] *)

(** The counted packets at the front of a byte string: the data of the
    complete ones, the special count that ended them (or 0), the number of
    bytes that miss, and the rest.  Every packet takes [SIZEOF_INT] bytes, so
    the length of the string is fuel enough. *)
Fixpoint counted (fuel : nat) (l : list Z) : list Z * Z * Z * list Z :=
  match fuel with
  | O => ([], 0, 0, l)
  | S fuel' =>
      if zlen l <? SIZEOF_INT then ([], 0, SIZEOF_INT - zlen l, l) else
      let count := int_of_bytes (ztake SIZEOF_INT l) in
      let r := zdrop SIZEOF_INT l in
      if count <? 0 then ([], count, 0, r)
      else if zlen r <? count then ([], 0, count - zlen r, l)
      else let '(o, special, need, rest) := counted fuel' (zdrop count r) in
           (ztake count r ++ o, special, need, rest)
  end.

Lemma find_int_ok xs fuel s fl R p need acc :
  pool s fl R -> (forall x, x ∈ xs -> x ∈ R) -> Forall (fun x => node_ok x.2) xs ->
  linked next p xs None -> (length xs < fuel)%nat -> 0 < need ->
  (zlen (bytes xs) < need /\
     find_int fuel p need acc s = Ok ((need - zlen (bytes xs), None), s)) \/
  (exists ys l nd zs, xs = ys ++ (l, nd) :: zs /\ 0 < need - zlen (bytes ys) <= bsize nd /\
     find_int fuel p need acc s =
       Ok ((need - zlen (bytes ys), Some (Some l, acc ++ ztake need (bytes xs))), s)).
Proof using H0.
  intros Hp. revert fuel p need acc.
  induction xs as [|[l nd] xs IH]; intros fuel p need acc Hin Hns Hl Hf Hneed;
    (destruct fuel as [|fuel]; [simpl in Hf; lia|]); cbn [find_int]; simpl in Hl.
  { subst p. left. change (zlen (bytes [])) with 0. split; [done|].
    rewrite decide_True by done. by rewrite Z.sub_0_r. }
  destruct Hl as [-> Hl]. rewrite decide_False by done.
  assert (Hx : (l, nd) ∈ R) by (apply Hin, list_elem_of_here).
  erewrite M_bind_ok by (by eapply pool_deref). cbn [snd].
  apply Forall_cons in Hns as [Hn Hns]. simpl in Hn. pose proof Hn as (Hn1 & Hn2 & Hn3).
  pose proof (pool_text_of _ _ _ _ _ Hp Hx) as Ht.
  pose proof (zlen_node_bytes _ _ _ _ _ Hp Hx Hn) as Hz.
  rewrite bytes_cons.
  destruct (bsize nd >=? need) eqn:Ege.
  - apply Z.geb_le in Ege. right. exists [], l, nd, xs. change (zlen (bytes [])) with 0.
    erewrite M_bind_ok by (apply memcpy_from_ok; [done|lia..]).
    split_and!; [done|lia|lia|]. rewrite Z.sub_0_r.
    assert (E : peek nd need = ztake need (node_bytes nd ++ bytes xs)); [|by rewrite E].
    unfold node_bytes, peek, ztake. rewrite take_app_le.
    + rewrite take_take. f_equal. lia.
    + unfold node_bytes, peek, ztake, zlen in Hz. lia.
  - rewrite Z.geb_leb, Z.leb_gt in Ege.
    erewrite M_bind_ok by (apply memcpy_from_ok; [done|lia..]). fold (node_bytes nd).
    assert (Hcut : ztake need (node_bytes nd ++ bytes xs) =
      node_bytes nd ++ ztake (need - bsize nd) (bytes xs)).
    { unfold ztake. rewrite take_app_ge by (unfold zlen in Hz; lia). do 2 f_equal.
      unfold zlen in Hz. lia. }
    destruct (IH fuel (next nd) (need - bsize nd) (acc ++ node_bytes nd))
      as [[Hlt E]|(ys & k & kd & zs & -> & Hrange & E)];
      [intros x Hx'; apply Hin; by apply list_elem_of_further|done|done|simpl in Hf; lia|lia| |].
    + left. rewrite zlen_app, Hz. split; [lia|]. rewrite E. do 3 f_equal. lia.
    + right. exists ((l, nd) :: ys), k, kd, zs. rewrite bytes_cons, zlen_app, Hz.
      split_and!; [done|lia|lia|]. rewrite E, Hcut, <- app_assoc. do 3 f_equal. lia.
Qed.

Lemma find_stop_ok xs fuel s fl R p need :
  pool s fl R -> (forall x, x ∈ xs -> x ∈ R) -> Forall (fun x => node_ok x.2) xs ->
  linked next p xs None -> (length xs < fuel)%nat -> 0 < need ->
  (zlen (bytes xs) < need /\
     find_stop fuel p need s = Ok ((need - zlen (bytes xs), None), s)) \/
  (exists ys l nd zs, xs = ys ++ (l, nd) :: zs /\ 0 < need - zlen (bytes ys) <= bsize nd /\
     find_stop fuel p need s = Ok ((need - zlen (bytes ys), Some l), s)).
Proof using H0.
  intros Hp. revert fuel p need.
  induction xs as [|[l nd] xs IH]; intros fuel p need Hin Hns Hl Hf Hneed;
    (destruct fuel as [|fuel]; [simpl in Hf; lia|]); cbn [find_stop]; simpl in Hl.
  { subst p. left. change (zlen (bytes [])) with 0. split; [done|].
    rewrite decide_True by done. by rewrite Z.sub_0_r. }
  destruct Hl as [-> Hl]. rewrite decide_False by done.
  assert (Hx : (l, nd) ∈ R) by (apply Hin, list_elem_of_here).
  erewrite M_bind_ok by (by eapply pool_deref). cbn [snd].
  apply Forall_cons in Hns as [Hn Hns]. simpl in Hn.
  pose proof (zlen_node_bytes _ _ _ _ _ Hp Hx Hn) as Hz.
  destruct (Z.leb_spec need (bsize nd)) as [Hle|Hgt].
  - right. exists [], l, nd, xs. change (zlen (bytes [])) with 0. rewrite Z.sub_0_r.
    split_and!; done || lia.
  - destruct (IH fuel (next nd) (need - bsize nd)) as [[Hlt E]|(ys & k & kd & zs & -> & Hrange & E)];
      [intros x Hx'; apply Hin; by apply list_elem_of_further|done|done|simpl in Hf; lia|lia| |];
      rewrite bytes_cons, zlen_app, Hz.
    + left. split; [lia|]. rewrite E. do 3 f_equal. lia.
    + right. exists ((l, nd) :: ys), k, kd, zs. rewrite bytes_cons, zlen_app, Hz.
      split_and!; [done|lia|lia|]. rewrite E. do 3 f_equal. lia.
Qed.

Lemma free_before_ok ys fuel s fl bi start R :
  (length ys < fuel)%nat -> pool s fl (ys ++ R) -> linked next (data bi) ys start ->
  stop_outside start R ->
  exists s' fl', free_before fuel bi start s = Ok (set_data start bi, s') /\ pool s' fl' R.
Proof using H0.
  revert fuel s fl bi. induction ys as [|[k kd] ys IH]; intros fuel s fl bi Hf Hp Hl Hs;
    (destruct fuel as [|fuel]; [simpl in Hf; lia|]); cbn [free_before]; simpl in Hl.
  - rewrite decide_True by done. exists s, fl. split; [|done]. rewrite <- Hl. by destruct bi.
  - destruct Hl as [Hd Hl]. rewrite Hd. rewrite decide_False.
    2:{ apply (stop_ne s fl ((k, kd) :: ys) R start) with (x := (k, kd)); [done..|].
        apply list_elem_of_here. }
    erewrite M_bind_ok by (by eapply (pool_deref_mid s fl [] k kd)). cbn [snd].
    destruct (pop_ok s fl (Some k) k kd (ys ++ R) Hp eq_refl) as (s1 & Ep & Hp1 & He1).
    erewrite M_bind_ok by exact Ep.
    destruct (IH fuel s1 ((k, with_next (free_buffer_data s) kd) :: fl) (set_data (next kd) bi)) as
      (s' & fl' & E & Hp'); [simpl in Hf; lia|exact Hp1|done|done|].
    exists s', fl'. split; [|done]. rewrite E. by destruct bi.
Qed.

(** Where the data of a packet of [count] bytes ends, before the count is
    forgotten ([off] bytes of the node [l] belong to the count). *)
Definition stop_desc (l : loc) (nd : buffer_data) (zs : list node) (off count : Z)
    (stop : option loc) (want : Z) : Prop :=
  (stop = Some l /\ want = Z.max 0 count /\ want <= bsize nd - off) \/
  (exists ws k kd us, zs = ws ++ (k, kd) :: us /\ stop = Some k /\ 0 < want <= bsize kd /\
     want = count - (bsize nd - off) - zlen (bytes ws)).

Lemma locate_stop_ok s fl R1 l nd zs R2 off count :
  pool s fl (R1 ++ (l, nd) :: zs ++ R2) ->
  Forall (fun x => node_ok x.2) zs -> linked next (next nd) zs None -> 0 < off <= bsize nd ->
  (0 <= count /\ bsize nd - off + zlen (bytes zs) < count /\
     locate_stop (Some l) off count s = Ok (inr (count - (bsize nd - off + zlen (bytes zs))), s)) \/
  (exists stop want, stop_desc l nd zs off count stop want /\
     count <= bsize nd - off + zlen (bytes zs) /\
     locate_stop (Some l) off count s = Ok (inl (stop, want), s)).
Proof using Hv H0.
  intros Hp Hns Hl Hoff. unfold locate_stop. pose proof (zlen_nonneg (bytes zs)).
  destruct (Z.ltb_spec count 0) as [Hneg|Hpos].
  { right. exists (Some l), 0. split_and!; [left; split_and!; [done|lia..]|lia|done]. }
  erewrite M_bind_ok by (by eapply pool_deref_mid). cbn [snd]. cbn zeta.
  destruct (Z.leb_spec (count - (bsize nd - off)) 0) as [Hle|Hgt].
  { right. exists (Some l), count. split_and!; [left; split_and!; [done|lia..]|lia|done]. }
  erewrite M_bind_ok by (by eapply pool_walk).
  destruct (find_stop_ok zs (S (length (fl ++ R1 ++ (l, nd) :: zs ++ R2))) s fl _ (next nd)
    (count - (bsize nd - off)) Hp) as [[Hlt E]|(ws & k & kd & us & -> & Hr & E)];
    [set_solver|done|done|rewrite !length_app; simpl; rewrite length_app; lia|lia| |];
    erewrite M_bind_ok by exact E; cbn [fst snd].
  - left. rewrite decide_True by done. split_and!; [done|lia|].
    by rewrite Z.sub_add_distr.
  - right. rewrite decide_False by done. rewrite bytes_app, bytes_cons, !zlen_app.
    pose proof (zlen_nonneg (bytes us)).
    assert (Hz : zlen (node_bytes kd) = bsize kd).
    { rewrite Forall_app, Forall_cons in Hns. destruct Hns as (_ & Hk & _).
      eapply (zlen_node_bytes _ _ _ k); [exact Hp|set_solver|done]. }
    eexists (Some k), _. split_and!; [|lia|done].
    right. exists ws, k, kd, us. split_and!; done || lia.
Qed.

(** Where the data of a packet ends, after the count is forgotten: [ps] is
    moved whole, [want] bytes of the next node are copied. *)
Record cut (start stop : option loc) (want count : Z) (xs ps qs : list node) : Prop := {
  cut_app : xs = ps ++ qs;
  cut_ps : linked next start ps stop;
  cut_qs : linked next stop qs None;
  cut_len : zlen (bytes ps) + want = count;
  cut_want : want = 0 \/ exists l nd us, qs = (l, nd) :: us /\ 0 < want <= bsize nd
}.

Lemma stop_outside_head p xs rest :
  linked next p xs None -> stop_outside p (xs ++ rest).
Proof using.
  destruct xs as [|[l nd] xs]; simpl; [by intros ->|]. intros [-> _]. exists nd. apply list_elem_of_here.
Qed.

Lemma forget_count_ok s fl xo bi ys l nd zs R off count stop want :
  pool s fl (xo ++ (ys ++ (l, nd) :: zs) ++ R) -> buf_ok bi (ys ++ (l, nd) :: zs) ->
  0 < off <= bsize nd -> stop_desc l nd zs off count stop want ->
  exists s' fl' start' stop' want' xi',
    forget_count bi (Some l) off stop want s = Ok ((start', stop', want', set_data start' bi), s') /\
    pool s' fl' (xo ++ xi' ++ R) /\ buf_ok (set_data start' bi) xi' /\
    bytes (ys ++ (l, nd) :: zs) = bytes ys ++ peek nd off ++ bytes xi' /\
    (0 <= count -> exists ps qs, cut start' stop' want' count xi' ps qs).
Proof using Hv H0.
  intros Hp Hb Hoff Hst. unfold forget_count. pose proof Hb as [Hd Hl Hns].
  apply linked_app in Hd as (r & Hl1 & [-> Hl2]).
  rewrite Forall_app, Forall_cons in Hns. destruct Hns as (Hn1 & (Hm1 & Hm2 & Hm3) & Hn2).
  simpl in Hm1, Hm2, Hm3.
  set (f := fun d => with_bufp (bufp d + off) (with_size (bsize d - off) d)).
  assert (Hp0 : pool s fl ((xo ++ ys) ++ (l, nd) :: zs ++ R)) by (by rewrite <- !app_assoc in *).
  destruct (pool_assign_mid _ _ _ _ _ _ f Hp0) as [E1 Hp1].
  { by apply (pool_text_mid _ _ _ _ _ _ Hp0). }
  erewrite M_bind_ok by exact E1. set (nd1 := f nd) in *. set (s1 := upd l nd1 s) in *.
  erewrite M_bind_ok by (by eapply pool_deref_mid). cbn [snd]. cbn zeta.
  change (next nd1) with (next nd).
  assert (Hsz1 : bsize nd1 = bsize nd - off) by done.
  assert (Hbytes1 : node_bytes nd = peek nd off ++ node_bytes nd1) by (symmetry; apply peek_advance; lia).
  assert (Hnd1 : node_ok nd1) by (unfold node_ok; simpl; lia).
  assert (Hz1 : zlen (node_bytes nd1) = bsize nd1).
  { eapply (zlen_node_bytes _ _ _ l); [exact Hp1|apply list_elem_of_middle|done]. }
  (* the chain that remains *)
  set (start' := if bsize nd1 =? 0 then next nd else Some l).
  set (xi1 := if bsize nd1 =? 0 then zs else (l, nd1) :: zs).
  assert (Hlk1 : linked next start' xi1 None).
  { unfold start', xi1. destruct (bsize nd1 =? 0); [done|]. by split. }
  assert (Hbuf1 : buf_ok (set_data start' bi) xi1).
  { split; [done| |].
    - intros vs k kd E. unfold xi1 in E. destruct (bsize nd1 =? 0).
      + apply (Hl (ys ++ (l, nd) :: vs) k kd). by rewrite E, <- app_assoc.
      + destruct vs as [|v vs]; simplify_eq/=; [by apply (Hl ys k nd)|].
        apply (Hl (ys ++ (l, nd) :: vs) k kd). by rewrite <- app_assoc.
    - unfold xi1. destruct (bsize nd1 =? 0); [done|]. by constructor. }
  assert (Hby1 : bytes (ys ++ (l, nd) :: zs) = bytes ys ++ peek nd off ++ bytes xi1).
  { rewrite bytes_app, bytes_cons, Hbytes1. f_equal. rewrite <- app_assoc. f_equal.
    unfold xi1. destruct (Z.eqb_spec (bsize nd1) 0) as [E0|E0]; [|done].
    rewrite (zlen_nil_inv (node_bytes nd1)); [done|lia]. }
  (* the stop after the adjustment *)
  assert (Hstop : exists nd2 stop' want', deref stop s1 = Ok (nd2, s1) /\
    (if bsize nd2.2 =? want then (next nd2.2, 0) else (stop, want)) = (stop', want') /\
    (0 <= count -> exists ps qs, cut start' stop' want' count xi1 ps qs)).
  { unfold start', xi1. destruct Hst as [(-> & Hw & Hle)|(ws & k & kd & us & -> & -> & Hw & Heq)].
    - exists (l, nd1). cbn [snd]. eexists _, _. split; [by eapply pool_deref_mid|].
      split; [apply surjective_pairing|]. intros Hc. rewrite Z.max_r in Hw by done. subst want.
      destruct (Z.eqb_spec (bsize nd1) count) as [E1'|E1']; cbn [fst snd].
      + destruct (Z.eqb_spec (bsize nd1) 0) as [E0|E0].
        * exists [], zs. split; [done|done|done| |by left].
          change (zlen (bytes [])) with 0. lia.
        * exists [(l, nd1)], zs. split; [done|by split|done| |by left].
          rewrite bytes_cons, zlen_app. change (zlen (bytes [])) with 0. lia.
      + rewrite (proj2 (Z.eqb_neq (bsize nd1) 0)) by lia.
        exists [], ((l, nd1) :: zs). split; [done|done|by split| |].
        * change (zlen (bytes [])) with 0. lia.
        * destruct (decide (count = 0)); [by left|right]. exists l, nd1, zs. split; [done|lia].
    - assert (Hk : (k, kd) ∈ (xo ++ ys) ++ (l, nd1) :: (ws ++ (k, kd) :: us) ++ R) by set_solver.
      exists (k, kd). cbn [snd]. eexists _, _. split; [by eapply pool_deref|].
      split; [apply surjective_pairing|]. intros Hc.
      rewrite Forall_app, Forall_cons in Hn2. destruct Hn2 as (_ & Hnk & _).
      pose proof (zlen_node_bytes _ _ _ _ _ Hp1 Hk Hnk) as Hzk.
      apply linked_app in Hl2 as (r & Hl2 & [-> Hl3]).
      set (st := if bsize nd1 =? 0 then [] else [(l, nd1)]).
      assert (Hst1 : linked next (if bsize nd1 =? 0 then next nd else Some l) st (next nd)).
      { unfold st. destruct (bsize nd1 =? 0); [done|by split]. }
      assert (Hzst : zlen (bytes st) = bsize nd1).
      { unfold st. destruct (Z.eqb_spec (bsize nd1) 0) as [E0|E0].
        - change (zlen (bytes [])) with 0. lia.
        - rewrite bytes_cons, zlen_app. change (zlen (bytes [])) with 0. lia. }
      assert (Hxs : (if bsize nd1 =? 0 then ws ++ (k, kd) :: us else (l, nd1) :: ws ++ (k, kd) :: us) =
        st ++ ws ++ (k, kd) :: us) by (unfold st; by destruct (bsize nd1 =? 0)).
      rewrite Hxs. destruct (Z.eqb_spec (bsize kd) want) as [Ew|Ew]; cbn [fst snd].
      + exists (st ++ ws ++ [(k, kd)]), us. split; [by rewrite <- !app_assoc| |done| |by left].
        * rewrite !linked_app. exists (next nd). split; [done|]. apply linked_app.
          exists (Some k). by split.
        * rewrite !bytes_app, bytes_cons, !zlen_app. change (zlen (bytes [])) with 0. lia.
      + exists (st ++ ws), ((k, kd) :: us). split; [by rewrite <- app_assoc| |by split| |].
        * apply linked_app. exists (next nd). by split.
        * rewrite !bytes_app, zlen_app. lia.
        * right. exists k, kd, us. split; [done|lia]. }
  destruct Hstop as (nd2 & stop' & want' & E2 & E3 & Hcut).
  erewrite M_bind_ok by exact E2. rewrite E3.
  erewrite M_bind_ok by (by eapply pool_walk).
  (* free what precedes *)
  set (ys1 := ys ++ (if bsize nd1 =? 0 then [(l, nd1)] else [])).
  assert (Hp2 : pool s1 fl (ys1 ++ xi1 ++ xo ++ R)).
  { eapply pool_proper; [|exact Hp1]. unfold ys1, xi1. destruct (bsize nd1 =? 0); solve_Permutation. }
  destruct (free_before_ok ys1 (S (length (fl ++ (xo ++ ys) ++ (l, nd1) :: zs ++ R))) s1 fl bi start'
    (xi1 ++ xo ++ R)) as (s' & fl' & E4 & Hp'); [|exact Hp2| |by apply stop_outside_head|].
  - unfold ys1. rewrite !length_app. destruct (bsize nd1 =? 0); simpl; lia.
  - unfold ys1, start'. destruct (bsize nd1 =? 0).
    + apply linked_app. exists (Some l). by split.
    + by rewrite app_nil_r.
  - erewrite M_bind_ok by exact E4.
    exists s', fl', start', stop', want', xi1. split_and!; try done.
    eapply pool_proper; [|exact Hp']. solve_Permutation.
Qed.

Lemma transfer_ok s fl bo xo bi xi R start stop want count ps qs :
  pool s fl (xo ++ xi ++ R) -> buf_ok bo xo -> buf_ok (set_data start bi) xi ->
  cut start stop want count xi ps qs ->
  exists s1 fl1 bo1 xo1 xi1 s2 bo2,
    (if decide (start = stop) then mret (bo, set_data start bi)
     else let inbuf := set_data stop (set_data start bi) in
          outbuf ← move_nodes bo start stop; mret (outbuf, inbuf)) s =
      Ok ((bo2, set_data stop bi), s2) /\
    (if want >? 0 then copy_part bo2 stop want else mret bo2) s2 = Ok (bo1, s1) /\
    pool s1 fl1 (xo1 ++ xi1 ++ R) /\ buf_ok bo1 xo1 /\ buf_ok (set_data stop bi) xi1 /\
    bytes xo1 = bytes xo ++ ztake count (bytes xi) /\ bytes xi1 = zdrop count (bytes xi) /\
    same_io bo bo1.
Proof using Hv H0.
  intros Hp Hbo Hbi [-> Hps Hqs Hlen Hw].
  assert (Hbi2 : buf_ok (set_data stop bi) qs).
  { pose proof (buf_ok_suffix _ ps qs stop Hbi Hqs) as Hb2. by destruct bi. }
  pose proof Hbi as [_ _ Hns]. apply Forall_app in Hns as [Hn1 Hn2].
  rewrite <- app_assoc in Hp.
  assert (Hstop : stop_outside stop (qs ++ R)) by (by apply stop_outside_head).
  assert (Hmove : exists s2 bo2 xo2,
    (if decide (start = stop) then mret (bo, set_data start bi)
     else let inbuf := set_data stop (set_data start bi) in
          outbuf ← move_nodes bo start stop; mret (outbuf, inbuf)) s =
      Ok ((bo2, set_data stop bi), s2) /\
    pool s2 fl (xo2 ++ qs ++ R) /\ buf_ok bo2 xo2 /\ bytes xo2 = bytes xo ++ bytes ps /\
    same_io bo bo2).
  { destruct ps as [|[k kd] ps].
    - simpl in Hps. subst stop. rewrite decide_True by done.
      exists s, bo, xo. split_and!; try done; [by rewrite app_nil_r|apply same_io_refl].
    - rewrite decide_False.
      2:{ destruct Hps as [-> _]. apply (stop_ne s fl ((k, kd) :: ps) ((qs ++ R) ++ xo) stop)
            with (x := (k, kd)).
          - eapply pool_proper; [|exact Hp]. solve_Permutation.
          - destruct stop as [m|]; [|done]. destruct Hstop as [md Hm]. exists md. set_solver.
          - apply list_elem_of_here. }
      destruct (move_nodes_ok s fl bo xo ((k, kd) :: ps) (qs ++ R) start stop) as
        (s2 & bo2 & xo2 & E & Hp2 & Hb2 & Hx2 & Hio & _); try done.
      exists s2, bo2, xo2. split_and!; try done. cbn zeta. erewrite M_bind_ok by exact E.
      by destruct bi. }
  destruct Hmove as (s2 & bo2 & xo2 & E2 & Hp2 & Hb2 & Hx2 & Hio2).
  rewrite bytes_app. destruct Hw as [->|(m & md & us & -> & Hw)].
  { rewrite Z.add_0_r in Hlen.
    exists s2, fl, bo2, xo2, qs, s2, bo2. split_and!; try done.
    - by rewrite (ztake_app count).
    - by rewrite (zdrop_app count). }
  pose proof Hqs as [-> _]. apply Forall_cons in Hn2 as [Hm _]. simpl in Hm.
  rewrite (proj2 (Z.gtb_lt want 0)) by lia.
  destruct (copy_part_ok s2 fl bo2 xo2 [] m md (us ++ R) want Hp2 Hb2 Hm) as
    (s1 & fl1 & bo1 & xo1 & md' & E1 & Hp1 & Hb1 & Hx1' & Hx1 & Hio1 & Hm' & En & _); [lia|].
  exists s1, fl1, bo1, xo1, ((m, md') :: us), s2, bo2.
  assert (Hsplit : bytes ps ++ bytes ((m, md) :: us) =
    (bytes ps ++ peek md want) ++ bytes ((m, md') :: us)).
  { rewrite !bytes_cons, <- app_assoc. f_equal. rewrite app_assoc. f_equal.
    rewrite Hx1, <- app_assoc in Hx1'. by apply app_inv_head in Hx1'. }
  assert (Hlz : zlen (bytes ps ++ peek md want) = count).
  { rewrite zlen_app, zlen_peek; [done| | |].
    - apply Hm.
    - lia.
    - destruct Hm as (? & ? & ?). rewrite (pool_text_of _ _ _ m md Hp2); [lia|set_solver]. }
  rewrite Hsplit, (ztake_app count), (zdrop_app count) by done.
  split_and!; try done.
  - by eapply buf_ok_head.
  - by rewrite Hx1, Hx2, <- app_assoc.
  - by eapply same_io_trans.
Qed.

Lemma copy_counted_loop_ok fuel fuel' s fl bo xo bi xi R :
  (length (bytes xi) < fuel)%nat -> (length (bytes xi) < fuel')%nat ->
  two_ok s fl bo xo bi xi R ->
  let '(o, special, need, rest) := counted fuel' (bytes xi) in
  exists s' fl' bo' xo' bi' xi',
    copy_counted_loop fuel bo bi s = Ok ((need, special, bo', bi'), s') /\
    two_ok s' fl' bo' xo' bi' xi' R /\ bytes xo' = bytes xo ++ o /\ bytes xi' = rest /\
    same_io bo bo' /\ last bi' = last bi /\ same_io bi bi'.
Proof using Hv H0.
  revert fuel' s fl bo xo bi xi.
  induction fuel as [|fuel IH]; intros fuel' s fl bo xo bi xi Hf Hf' Ht; [lia|].
  destruct fuel' as [|fuel']; [lia|]. cbn [copy_counted_loop counted].
  pose proof Ht as [Hp Hbo Hbi]. pose proof Hbi as [Hd Hl Hns]. pose proof int_fits as [Hint _].
  erewrite M_bind_ok by (by eapply pool_walk).
  destruct (find_int_ok xi (S (length (fl ++ xo ++ xi ++ R))) s fl _ (data bi) SIZEOF_INT [] Hp)
    as [[Hlt E]|(ys & l & nd & zs & -> & Hoff & E)];
    [set_solver|done|done|rewrite !length_app; lia|done| |].
  { rewrite (proj2 (Z.ltb_lt _ _)) by done. erewrite M_bind_ok by exact E. cbn [fst snd].
    exists s, fl, bo, xo, bi, xi. split_and!; try done; [by rewrite app_nil_r|apply same_io_refl..]. }
  set (off := SIZEOF_INT - zlen (bytes ys)) in *.
  rewrite app_nil_l in E. set (xi := ys ++ (l, nd) :: zs) in *.
  apply linked_app in Hd as (r & Hl1 & [-> Hl2]).
  unfold xi in Hns. rewrite Forall_app, Forall_cons in Hns. destruct Hns as (Hn1 & Hn & Hn2).
  simpl in Hn.
  assert (Hz : zlen (node_bytes nd) = bsize nd).
  { eapply (zlen_node_bytes _ _ _ l); [exact Hp|unfold xi; set_solver|done]. }
  assert (Hzxi : zlen (bytes xi) = zlen (bytes ys) + bsize nd + zlen (bytes zs)).
  { unfold xi. rewrite bytes_app, bytes_cons, !zlen_app. lia. }
  pose proof (zlen_nonneg (bytes zs)). pose proof (zlen_nonneg (bytes ys)).
  rewrite (proj2 (Z.ltb_ge _ _)) by lia.
  erewrite M_bind_ok by exact E. cbn [fst snd]. clear E.
  set (count := int_of_bytes (ztake SIZEOF_INT (bytes xi))) in *.
  assert (Hpl : pool s fl ((xo ++ ys) ++ (l, nd) :: zs ++ R)).
  { unfold xi in Hp. by rewrite <- !app_assoc in *. }
  assert (Hzr : zlen (zdrop SIZEOF_INT (bytes xi)) = bsize nd - off + zlen (bytes zs)).
  { rewrite zlen_zdrop; lia. }
  destruct (locate_stop_ok s fl (xo ++ ys) l nd zs R off count Hpl Hn2 Hl2) as
    [(Hc & Hlt & E)|(stop & want & Hst & Hle & E)]; [lia| |]; erewrite M_bind_ok by exact E; clear E.
  { (* not enough bytes *)
    rewrite (proj2 (Z.ltb_ge count 0)) by lia. rewrite Hzr, (proj2 (Z.ltb_lt _ _)) by lia.
    exists s, fl, bo, xo, bi, xi. split_and!; try done; [by rewrite app_nil_r|apply same_io_refl..]. }
  destruct (forget_count_ok s fl xo bi ys l nd zs R off count stop want Hp Hbi) as
    (s1 & fl1 & start1 & stop1 & want1 & xi1 & E & Hp1 & Hb1 & Hby & Hcut); [lia|done|].
  erewrite M_bind_ok by exact E. cbn beta iota. clear E.
  assert (Hr : zdrop SIZEOF_INT (bytes xi) = bytes xi1).
  { unfold xi. rewrite Hby, app_assoc. apply zdrop_app.
    destruct Hn as (? & ? & ?). rewrite zlen_app, zlen_peek; [lia|done|lia|].
    rewrite (pool_text_mid _ _ _ _ _ _ Hpl). lia. }
  rewrite Hr in *.
  destruct (Z.ltb_spec count 0) as [Hneg|Hpos].
  { exists s1, fl1, bo, xo, (set_data start1 bi), xi1.
    split_and!; try done; [by rewrite app_nil_r|apply same_io_refl]. }
  rewrite Hzr, (proj2 (Z.ltb_ge _ count)) by lia.
  destruct (Hcut Hpos) as (ps & qs & Hc).
  destruct (transfer_ok s1 fl1 bo xo bi xi1 R start1 stop1 want1 count ps qs Hp1 Hbo Hb1 Hc) as
    (s3 & fl3 & bo3 & xo3 & xi3 & s2 & bo2 & E2 & E3 & Hp3 & Hb3 & Hbi3 & Hx3 & Hxi3 & Hio3).
  erewrite M_bind_ok by exact E2. cbn beta iota. erewrite M_bind_ok by exact E3.
  assert (Hshort : (length (bytes xi3) < length (bytes xi))%nat).
  { rewrite Hxi3. unfold zdrop. rewrite length_drop. unfold zlen in *. lia. }
  specialize (IH fuel' s3 fl3 bo3 xo3 (set_data stop1 bi) xi3 ltac:(lia) ltac:(lia)
    ltac:(by split)).
  rewrite Hxi3 in IH. destruct (counted fuel' (zdrop count (bytes xi1))) as [[[o special] need] rest].
  destruct IH as (s' & fl' & bo' & xo' & bi' & xi' & E & Ht' & Hx' & Hxi' & Hio & Hlast & Hioi).
  exists s', fl', bo', xo', bi', xi'. split_and!; try done.
  - by rewrite Hx', Hx3, <- app_assoc.
  - by eapply same_io_trans.
Qed.

Lemma counted_one n d :
  zlen d = n -> n < 2 ^ (8 * SIZEOF_INT - 1) -> forall fuel, (length (int_to_bytes n ++ d) < fuel)%nat ->
  counted fuel (int_to_bytes n ++ d) = (d, 0, SIZEOF_INT, []).
Proof using H0.
  intros Hn Hlt fuel Hf. pose proof int_fits as [Hi _]. pose proof (zlen_nonneg d).
  pose proof (int_len n) as Hl. pose proof (zlen_app (int_to_bytes n) d) as Hz.
  assert (Hn0 : - 2 ^ (8 * SIZEOF_INT - 1) <= n).
  { pose proof (Z.pow_nonneg 2 (8 * SIZEOF_INT - 1) ltac:(done)). lia. }
  destruct fuel as [|[|fuel]]; [lia| |].
  { rewrite length_app in Hf. unfold zlen in Hl. lia. }
  cbn [counted]. rewrite (proj2 (Z.ltb_ge _ SIZEOF_INT)) by lia.
  rewrite (ztake_app SIZEOF_INT), (zdrop_app SIZEOF_INT), int_roundtrip by done.
  rewrite (proj2 (Z.ltb_ge n 0)), (proj2 (Z.ltb_ge (zlen d) n)) by lia.
  rewrite (zdrop_all n d), (ztake_all n d) by lia.
  change (zlen []) with 0. rewrite (proj2 (Z.ltb_lt _ _)) by lia.
  by rewrite app_nil_r, Z.sub_0_r.
Qed.
End copy.
