(* ===== verification/CvsTheorems.v ===== *)
(** * CVS buffers: the properties

    The statements read a buffer as the byte string it holds: [holds s b d R]
    says that buffer [b] holds [d] in a pool whose other chains are [R], and
    [holds2] says it of an output and an input buffer at once.  That [R] is
    the same before and after an operation is the frame: no operation reads
    or writes a node of another chain, none is lost, none ends in two
    chains. *)
From S2P Require Import Prelude Heap CvsBuffer CvsBufferProofs CvsCopyProofs.
Open Scope Z_scope.

(** ** A concrete host: four-byte little-endian integers, eight-byte nodes *)
Definition le_bytes (n : Z) : list Z :=
  [Z.land n 255; Z.land (Z.shiftr n 8) 255; Z.land (Z.shiftr n 16) 255; Z.land (Z.shiftr n 24) 255].

Definition le_value (l : list Z) : Z :=
  match l with
  | [a; b; c; d] => wraps 32 (a + b * 2 ^ 8 + c * 2 ^ 16 + d * 2 ^ 24)
  | _ => 0
  end.

Definition cvs_host (mem : bool) : CvsEnv := {|
  BUFFER_DATA_SIZE := 8; SIZEOF_INT := 4; int_to_bytes := le_bytes; int_of_bytes := le_value;
  valloc_ok _ := mem; xmalloc_ok _ := true; valloc_text _ := replicate 8 0; EIO := 5; ENOMEM := 12
|}.

Lemma cvs_host_laws mem : @CvsLaws (cvs_host mem).
Proof.
  split; [done|done| |done]. intros n Hn. cbn [SIZEOF_INT cvs_host int_to_bytes int_of_bytes] in *.
  change (2 ^ (8 * 4 - 1)) with (2 ^ 31) in Hn.
  unfold le_bytes, le_value. change 255 with (Z.ones 8). rewrite !Z.land_ones by lia.
  rewrite !Z.shiftr_div_pow2 by lia. unfold wraps.
  set (v := n mod 2 ^ 8 + _ + _ + _). assert (Hv : v = n mod 2 ^ 32).
  { unfold v. change (2 ^ 8) with 256. change (2 ^ 16) with (256 * 256).
    change (2 ^ 24) with (256 * 256 * 256). change (2 ^ 32) with (256 * 256 * 256 * 256).
    rewrite (Zmod_eq_full n 256), (Zmod_eq_full n (256 * 256 * 256 * 256)) by lia.
    rewrite (Zmod_eq_full (n / 256)), (Zmod_eq_full (n / (256 * 256))),
      (Zmod_eq_full (n / (256 * 256 * 256))) by lia.
    rewrite !Z.div_div by lia. lia. }
  rewrite Hv. change (2 ^ (32 - 1)) with (2 ^ 31) in *.
  rewrite Z.add_mod_idemp_l by lia. rewrite Z.mod_small; lia.
Qed.

(** ** What a buffer holds *)
Section statements.
Context `{CvsLaws}.

Definition holds {C} (s : st) (b : buffer C) (d : list Z) (R : list node) : Prop :=
  exists fl xs, pool s fl (xs ++ R) /\ buf_ok b xs /\ bytes xs = d.

Definition holds2 {C C'} (s : st) (bo : buffer C) (dout : list Z) (bi : buffer C') (din : list Z)
    (R : list node) : Prop :=
  exists fl xo xi, two_ok s fl bo xo bi xi R /\ bytes xo = dout /\ bytes xi = din.

(** An empty buffer has a null [last]. *)
Definition clean {C} (b : buffer C) : Prop := data b = None -> last b = None.

Lemma clean_last {C} (b : buffer C) xs : buf_ok b xs -> (clean b <-> last_clean b xs).
Proof.
  intros [Hd _ _]. unfold clean, last_clean. by rewrite (linked_None_inv _ _ _ Hd).
Qed.

Lemma clean_nonempty {C} (b : buffer C) xs : buf_ok b xs -> xs <> [] -> clean b.
Proof. intros Hb Hne. apply (clean_last b xs Hb). by intros ->. Qed.

(** The three functions that append bytes to a buffer. *)
Definition appends {C} (b : buffer C) (d : list Z) (op : B (buffer C)) : Prop :=
  op = buf_output b d \/
  (exists string, d = strlen_bytes string /\ op = buf_output0 b string) \/
  (exists ch, d = [wrapu 8 ch] /\ op = buf_append_char b ch).

(** [buf_output], [buf_output0] and [buf_append_char] append exactly
    their bytes, over as many nodes as it takes, and touch nothing else; when
    memory runs out they append a prefix and call the memory error handler
    before they return. *)
Theorem buf_output_correct {C} s (b : buffer C) d0 d R op :
  holds s b d0 R -> appends b d op ->
  (exists s' b', op s = Ok (b', s') /\ holds s' b' (d0 ++ d) R /\ same_io b b') \/
  (exists s' b' d1 d2, d = d1 ++ d2 /\ op s = (memory_error b ;; mret b') s' /\
     holds s' b' (d0 ++ d1) R /\ same_io b b' /\ exists n, valloc_ok n = false).
Proof.
  intros (fl & xs & Hp & Hb & <-) Hop.
  assert (Ha : appended s b xs R d (op s)).
  { destruct Hop as [-> |[(string & -> & ->)|(ch & -> & ->)]].
    - by eapply buf_output_ok.
    - by eapply buf_output_ok.
    - by eapply buf_append_char_ok. }
  destruct Ha as [(s' & fl' & b' & xs' & E & Hp' & Hb' & Hx & _ & Hio & _)
    |(s' & b' & xs' & d1 & d2 & Ed & E & Hp' & Hb' & Hx & Hio & _ & Hv)].
  - left. exists s', b'. split_and!; try done. exists fl', xs'. done.
  - right. exists s', b', d1, d2. split_and!; try done. exists [], xs'. done.
Qed.

(** [buf_send_output] hands the bytes to the output callback in order.
    On status 0 what was written followed by what the buffer still holds is
    what there was, and something is left only in nonblocking mode; on an
    error the rest is discarded and its nodes are recycled; a short write in
    blocking mode fails the assertion. *)
Theorem buf_send_output_correct {C} (out : C -> list Z -> B (Z * Z * C)) o written s (b : buffer C) d R :
  sink out o written -> output b = Some out -> holds s b d R ->
  (exists s' b' d', buf_send_output b s = Ok ((0, b'), s') /\ holds s' b' d' R /\ clean b' /\
     written (closure b') ++ d' = written (closure b) ++ d /\
     (nonblocking b = false -> d' = [] /\ data b' = None)) \/
  (exists status s' b' d1 d2, status <> 0 /\ buf_send_output b s = Ok ((status, b'), s') /\
     holds s' b' [] R /\ data b' = None /\ last b' = None /\
     d = d1 ++ d2 /\ written (closure b') = written (closure b) ++ d1) \/
  (nonblocking b = false /\ buf_send_output b s = Err AssertFailed).
Proof.
  intros Hs Ho (fl & xs & Hp & Hb & <-).
  destruct (buf_send_output_ok out o written Hs s fl b xs R Ho Hp Hb) as
    [(s' & fl' & b' & xs' & E & Hp' & Hb' & Hc & Hor & Hw & _)
    |[(status & s' & fl' & b' & d1 & d2 & Hst & _ & E & Hp' & Hb' & Hl & Hd & Hw & _)
     |(Hn & _ & E)]].
  - left. exists s', b', (bytes xs'). split_and!; try done.
    + by exists fl', xs'.
    + by apply (clean_last b' xs' Hb').
    + intros Hn. destruct Hor as [-> |[Hor _]]; [|congruence]. split; [done|].
      destruct Hb' as [Hd _ _]. by simpl in Hd.
  - right; left. exists status, s', b', d1, d2. split_and!; try done.
    + by exists fl', [].
    + destruct Hb' as [Hd' _ _]. by simpl in Hd'.
  - by right; right.
Qed.

Section memory.
Context (Hv : forall n, valloc_ok n = true).

(** [buf_read_data] gives the caller at most [want] bytes, the next ones
    of what the buffer holds followed by what its input will deliver; it
    calls the input only when the buffer is empty, and an error or the end of
    the input loses nothing. *)
Theorem buf_read_data_correct {C} (inp : C -> Z -> Z -> B (Z * list Z * C)) i pending s
    (b : buffer C) d0 R want :
  source inp i pending -> input b = Some inp -> holds s b d0 R -> clean b -> 0 <= want ->
  exists status d s' b' d',
    buf_read_data b want s = Ok ((status, d, b'), s') /\ holds s' b' d' R /\ clean b' /\
    d0 ++ pending (closure b) = d ++ d' ++ pending (closure b') /\ zlen d <= want /\
    (d0 <> [] -> status = 0 /\ closure b' = closure b /\ (0 < want -> d <> [])) /\
    (status <> 0 -> d0 = [] /\ d = [] /\ d' = []).
Proof using Hv H0.
  intros Hs Hi (fl & xs & Hp & Hb & <-) Hc Hw. apply (clean_last b xs Hb) in Hc.
  destruct (buf_read_data_ok inp i pending Hv Hs s fl b xs R want Hi Hp Hb Hc Hw) as
    (status & d & s' & fl' & b' & xs' & E & Hp' & Hb' & Hne & _ & Hby & Hz & H1 & H2).
  exists status, d, s', b', (bytes xs'). split_and!; try done.
  - by exists fl', xs'.
  - by apply (clean_nonempty b' xs').
Qed.

(** C22. [buf_read_line] returns the bytes up to the first newline of the
    stream, without it and with a null byte, and their number, and leaves what
    follows the newline; when the input fails or ends first, or there is no
    memory for the line, no line is returned and nothing is lost.  It terminates:
    fuel for the bytes still to come is enough.  The length of the line, which is
    counted in an [int], has to fit; there is memory for the nodes of the buffer. *)
Theorem buf_read_line_correct {C} (inp : C -> Z -> Z -> B (Z * list Z * C)) i pending fuel s
    (b : buffer C) d0 R :
  source inp i pending -> input b = Some inp ->
  (forall l r, d0 ++ pending (closure b) = l ++ 10 :: r -> (10 ∉ l) -> zlen l + 1 < 2 ^ (8 * SIZEOF_INT - 1)) ->
  holds s b d0 R -> (length (pending (closure b)) + 1 < fuel)%nat ->
  exists status line n s' b' d',
    buf_read_line fuel b s = Ok ((status, line, n, b'), s') /\ holds s' b' d' R /\ clean b' /\
    if status =? 0 then
      exists l, line = Some (l ++ [0]) /\ n = zlen l /\ (10 ∉ l) /\
        d0 ++ pending (closure b) = l ++ 10 :: d' ++ pending (closure b')
    else line = None /\ ((10 ∉ d0) \/ exists n, xmalloc_ok n = false) /\
      d0 ++ pending (closure b) = d' ++ pending (closure b').
Proof using Hv H0.
  intros Hs Hi Hfit (fl & xs & Hp & Hb & <-) Hf. unfold buf_read_line. rewrite Hi.
  destruct (read_line_loop_ok inp i pending Hv Hs fuel s fl b xs R Hfit Hp Hb Hf) as
    (status & line & n & s' & fl' & b' & xs' & E & Hp' & Hb' & Hne & _ & Hr).
  exists status, line, n, s', b', (bytes xs'). split_and!; try done.
  - by exists fl', xs'.
  - by apply (clean_nonempty b' xs').
Qed.

(** C23. [buf_copy_lines] terminates, and appends every complete line of the
    input buffer to the output buffer, in order, each with the command
    character and a space in front; the incomplete line stays where it was.  There is memory for the
    nodes of the buffers ([valloc] does not fail). *)
Theorem buf_copy_lines_correct {C C'} s (bo : buffer C) dout (bi : buffer C') din R command :
  holds2 s bo dout bi din R -> clean bi ->
  exists s' bo' bi', buf_copy_lines bo bi command s = Ok ((bo', bi'), s') /\
    holds2 s' bo' (dout ++ tagged command (split_lines [] din).1) bi' (split_lines [] din).2 R /\
    clean bi'.
Proof using Hv H0.
  intros (fl & xo & xi & Ht & <- & <-) Hc. pose proof Ht as [Hp Hbo Hbi].
  apply (clean_last bi xi Hbi) in Hc.
  unfold buf_copy_lines.
  destruct (copy_fuel_ok Hv s fl xo xi R Hp (ok_nodes _ _ Hbi)) as (fuel & E & Hf).
  erewrite M_bind_ok by exact E.
  destruct (copy_lines_loop_ok Hv command fuel s fl bo xo bi xi R Hf Ht Hc) as
    (s' & fl' & bo' & xo' & bi' & xi' & E' & Ht' & Hc' & Hx' & Hxi' & _ & _).
  exists s', bo', bi'. split_and!; [done| |].
  - exists fl', xo', xi'. done.
  - by apply (clean_last bi' xi' (two_in _ _ _ _ _ _ _ Ht')).
Qed.

(** C24. [buf_copy_counted] terminates and implements the packet format: it
    moves the data of every complete packet, stops at a negative count and
    reports it, leaves an incomplete packet whole in the input buffer, and
    answers the number of bytes that miss.  There is memory for the
    nodes of the buffers ([valloc] does not fail). *)
Theorem buf_copy_counted_correct {C C'} s (bo : buffer C) dout (bi : buffer C') din R :
  holds2 s bo dout bi din R ->
  let '(o, special, need, rest) := counted (S (length din)) din in
  exists s' bo' bi', buf_copy_counted bo bi s = Ok ((need, special, bo', bi'), s') /\
    holds2 s' bo' (dout ++ o) bi' rest R.
Proof using Hv H0.
  intros (fl & xo & xi & Ht & <- & <-). pose proof Ht as [Hp Hbo Hbi].
  unfold buf_copy_counted.
  destruct (copy_fuel_ok Hv s fl xo xi R Hp (ok_nodes _ _ Hbi)) as (fuel & E & Hf).
  pose proof (copy_counted_loop_ok Hv fuel (S (length (bytes xi))) s fl bo xo bi xi R Hf
    ltac:(lia) Ht) as Hl.
  destruct (counted _ (bytes xi)) as [[[o special] need] rest].
  destruct Hl as (s' & fl' & bo' & xo' & bi' & xi' & E' & Ht' & Hx' & Hxi' & _).
  exists s', bo', bi'. erewrite M_bind_ok by exact E. split; [done|].
  exists fl', xo', xi'. done.
Qed.

(** [buf_copy_counted] never updates [last] of the input buffer: when a
    copy takes its last node, [data] becomes null and [last] still points to
    a node that is on the free list or in the output buffer. *)
Theorem buf_copy_counted_dangling_last {C C'} s (bo : buffer C) dout (bi : buffer C') din R :
  holds2 s bo dout bi din R -> data bi <> None ->
  exists need special bo' bi' s', buf_copy_counted bo bi s = Ok ((need, special, bo', bi'), s') /\
    last bi' = last bi /\ last bi' <> None /\ (data bi' = None -> ~ clean bi').
Proof using Hv H0.
  intros (fl & xo & xi & Ht & <- & <-) Hd. pose proof Ht as [Hp Hbo Hbi].
  unfold buf_copy_counted.
  destruct (copy_fuel_ok Hv s fl xo xi R Hp (ok_nodes _ _ Hbi)) as (fuel & E & Hf).
  pose proof (copy_counted_loop_ok Hv fuel (S (length (bytes xi))) s fl bo xo bi xi R Hf
    ltac:(lia) Ht) as Hl.
  destruct (counted _ (bytes xi)) as [[[o special] need] rest].
  destruct Hl as (s' & fl' & bo' & xo' & bi' & xi' & E' & Ht' & Hx' & Hxi' & _ & Hlast & _).
  exists need, special, bo', bi', s'. erewrite M_bind_ok by exact E.
  assert (Hln : last bi <> None).
  { destruct Hbi as [Hd2 Hl2 _]. destruct xi as [|x xi _] using rev_ind; [done|].
    destruct x as [l nd]. by rewrite (Hl2 xi l nd). }
  split_and!; [done|done|by rewrite Hlast|]. unfold clean. rewrite Hlast. tauto.
Qed.

(** C25. The counted protocol is a round trip: [buf_send_counted] on a
    connection that takes every byte writes the count and the data, empties
    the buffer, and [buf_copy_counted] on a buffer that received those bytes
    delivers the data and nothing else.  The count fits an [int], and there is
    memory for the nodes of the buffers ([valloc] does not fail). *)
Theorem counted_roundtrip {C C1 C2} (out : C -> list Z -> B (Z * Z * C)) o written s (b : buffer C) d R
    s2 (bo : buffer C1) dout (bi : buffer C2) R2 :
  sink out o written -> (forall c x, (o c x).1 = (0, zlen x)) -> output b = Some out ->
  holds s b d R -> clean b -> zlen d < 2 ^ (8 * SIZEOF_INT - 1) ->
  holds2 s2 bo dout bi (int_to_bytes (zlen d) ++ d) R2 ->
  (exists s' b', buf_send_counted b s = Ok ((0, b'), s') /\ holds s' b' [] R /\
     written (closure b') = written (closure b) ++ int_to_bytes (zlen d) ++ d) /\
  (exists s2' bo' bi', buf_copy_counted bo bi s2 = Ok ((SIZEOF_INT, 0, bo', bi'), s2') /\
     holds2 s2' bo' (dout ++ d) bi' [] R2).
Proof using Hv H0.
  intros Hs Hall Ho (fl & xs & Hp & Hb & <-) Hc Hsz Hrecv. split.
  - unfold buf_send_counted, buf_chain_length. rewrite M_bind_eq.
    erewrite M_bind_ok by (by eapply pool_walk).
    erewrite (length_loop_ok xs); [|exact Hp|set_solver|apply Hb|apply Hb| |done|lia].
    2:{ rewrite !length_app. lia. }
    destruct (get_buffer_data_success Hv _ _ _ Hp) as (l & nd & fl1 & s1 & E1 & Hp1 & He1).
    erewrite M_bind_ok by exact E1. rewrite decide_False by done. rewrite Z.add_0_l.
    apply (clean_last b xs Hb) in Hc.
    destruct (push_int_ok s1 fl1 b xs R l nd (zlen (bytes xs)) Hp1 Hb Hc) as
      (s2' & nd' & b1 & E2 & Hp2 & Hb2 & Hn2 & Hio). rewrite E2.
    assert (Ho1 : output b1 = Some out) by (by rewrite Hio).
    destruct (buf_send_all_ok out o written Hs Hall s2' fl1 b1 _ R Ho1 Hp2 Hb2) as
      (s' & fl' & b' & E & Hp' & Hb' & _ & Hw).
    exists s', b'. split_and!; [done|by exists fl', []|].
    rewrite Hw, bytes_cons, Hn2. by rewrite Hio.
  - destruct Hrecv as (fl2 & xo & xi & Ht & <- & Hxi).
    pose proof (two_pool _ _ _ _ _ _ _ Ht) as Hp2.
    destruct (copy_fuel_ok Hv s2 fl2 xo xi R2 Hp2 (ok_nodes _ _ (two_in _ _ _ _ _ _ _ Ht)))
      as (fuel & E & Hf).
    pose proof (copy_counted_loop_ok Hv fuel (S (length (bytes xi))) s2 fl2 bo xo bi xi R2 Hf
      ltac:(lia) Ht) as Hl.
    rewrite Hxi, (counted_one (zlen (bytes xs))) in Hl by (done || lia).
    destruct Hl as (s' & fl' & bo' & xo' & bi' & xi' & E' & Ht' & Hx' & Hxi' & _).
    exists s', bo', bi'. unfold buf_copy_counted. erewrite M_bind_ok by exact E. split; [done|].
    exists fl', xo', xi'. done.
Qed.
End memory.

Lemma reset_mode {C} (blk : C -> bool -> B (Z * C))
    (Hblk : forall c f s, exists c', blk c f s = Ok ((0, c'), s)) (s : st) (fl : list node)
    (b : buffer C) xs (R : list node) :
  block b = Some blk -> nonblocking b = false -> buf_ok b xs ->
  exists b', set_nonblock b s = Ok ((0, b'), s) /\ nonblocking b' = true /\ buf_ok b' xs.
Proof.
  intros Hk Hn Hb. unfold set_nonblock. rewrite Hn, Hk.
  destruct (Hblk (closure b) false s) as [c' E]. erewrite M_bind_ok by exact E.
  eexists. split; [done|]. split; [done|]. by split; apply Hb.
Qed.

(** [buf_flush] with [block] set sends a nonblocking buffer in blocking
    mode and always puts it back: whatever sending and flushing answered, the
    buffer is nonblocking again afterwards unless a change of mode failed. *)
Theorem buf_flush_restores_mode {C} (out : C -> list Z -> B (Z * Z * C)) o written
    (fl : C -> B (Z * C)) (blk : C -> bool -> B (Z * C)) s (b : buffer C) d R :
  sink out o written -> output b = Some out -> flush b = Some fl -> block b = Some blk ->
  (forall c s, exists st c', fl c s = Ok ((st, c'), s)) ->
  (forall c f s, exists c', blk c f s = Ok ((0, c'), s)) ->
  nonblocking b = true -> holds s b d R ->
  buf_flush b true s = Err AssertFailed \/
  exists status s' b' d', buf_flush b true s = Ok ((status, b'), s') /\
    nonblocking b' = true /\ d' = [] /\ holds s' b' d' R.
Proof.
  intros Hs Ho Hf Hk Hfl Hblk Hnb (f & xs & Hp & Hb & <-). unfold buf_flush. rewrite Hf, Hnb.
  cbn [andb]. unfold set_block. rewrite Hnb. cbn [negb]. rewrite Hk.
  destruct (Hblk (closure b) true s) as [c1 E1]. rewrite M_bind_eq.
  erewrite M_bind_ok by exact E1. cbn [fst snd Z.eqb negb].
  set (b1 := set_nonblocking false (set_closure c1 b)).
  cbn [mret M_ret fst snd Z.eqb negb].
  destruct (buf_send_output_ok out o written Hs s f b1 xs R Ho Hp) as
    [(s2 & fl2 & b2 & xs2 & E & Hp2 & Hb2 & Hc & Hor & Hw & Hio)
    |[(status & s2 & fl2 & b2 & d1 & d2 & Hst & _ & E & Hp2 & Hb2 & _ & _ & _ & Hio)
     |(_ & _ & E)]]; [by split; apply Hb| | |].
  - erewrite M_bind_ok by exact E. cbn [fst snd Z.eqb].
    destruct (Hfl (closure b2) s2) as (st & c2 & E2).
    rewrite M_bind_eq. erewrite M_bind_ok by exact E2.
    destruct (reset_mode blk Hblk s2 fl2 (set_closure c2 b2) xs2 R) as (b3 & E3 & Hnb3 & Hb3);
      [by rewrite Hio|by rewrite Hio|by apply buf_ok_closure|].
    right. exists (if st =? 0 then 0 else st), s2, b3, (bytes xs2). split_and!; [|done| |by exists fl2, xs2].
    + cbn [mret M_ret fst snd]. erewrite M_bind_ok by exact E3. by destruct (st =? 0).
    + destruct Hor as [-> |[Hbad _]]; [done|]. by destruct b.
  - erewrite M_bind_ok by exact E. cbn [fst snd].
    rewrite (proj2 (Z.eqb_neq status 0)) by done. rewrite M_bind_eq.
    cbn [mret M_ret fst snd].
    destruct (reset_mode blk Hblk s2 fl2 b2 [] R) as (b3 & E3 & Hnb3 & Hb3);
      [by rewrite Hio|by rewrite Hio|done|].
    right. exists status, s2, b3, []. split_and!; [|done|done|by exists fl2, []].
    cbn [fst snd]. erewrite M_bind_ok by exact E3. by rewrite (proj2 (Z.eqb_neq status 0)).
  - left. rewrite M_bind_eq. by rewrite E.
Qed.
End statements.

(** ** The theorems on concrete buffers *)
Definition host : CvsEnv := cvs_host true.
#[local] Existing Instance host.
Definition host_laws : @CvsLaws host := cvs_host_laws true.
#[local] Existing Instance host_laws.

Definition ex_state (xs : list node) : st := MkSt (list_to_map xs) None 0 0.

Lemma ex_pool xs :
  NoDup xs.*1 -> Forall (fun x => zlen (text x.2) = 8) xs -> pool (ex_state xs) [] xs.
Proof. intros Hn Ht. split; [by apply map_to_list_to_map|done|done]. Qed.

(** A node with [d] in its text. *)
Definition ex_node (nxt : option loc) (d : list Z) : buffer_data :=
  MkData nxt (d ++ replicate (8 - length d) 0) 0 (zlen d).

(** A connection that records what is written, and one that reads from a
    list of bytes. *)
Definition ex_out (c d : list Z) : B (Z * Z * list Z) := mret (0, zlen d, c ++ d).
Definition ex_in (c : list Z) (need size : Z) : Z * list Z * list Z :=
  if (size <? 1) || bool_decide (c = []) then (-1, [], c) else (0, ztake size c, zdrop size c).

Lemma ex_sink : sink ex_out (fun c d => (0, zlen d, c ++ d)) id.
Proof.
  split; [done| |].
  - intros c d _. simpl. pose proof (zlen_nonneg d). lia.
  - intros c d. exists (zlen d). pose proof (zlen_nonneg d).
    split_and!; [lia..| |done]. simpl. by rewrite ztake_all.
Qed.

Lemma ex_source : source (fun c need size => mret (ex_in c need size)) ex_in id.
Proof.
  assert (Hcase : forall c need size, ex_in c need size = (-1, [], c) \/
    (1 <= size /\ c <> [] /\ ex_in c need size = (0, ztake size c, zdrop size c))).
  { intros c need size. unfold ex_in. destruct (Z.ltb_spec size 1); [by left|].
    case_bool_decide; [by left|by right]. }
  split; [done|..]; intros c need size;
    destruct (Hcase c need size) as [-> |(Hs & Hc & ->)]; simpl; try done.
  - intros _. split; [|by rewrite ztake_zdrop]. unfold zlen, ztake. rewrite length_take. lia.
  - intros _ _ _. unfold ztake. destruct c as [|x c]; [done|].
    by destruct (Z.to_nat size) eqn:E; [lia|].
Qed.

Definition ex_buffer (d l : option loc) (c : list Z) : buffer (list Z) :=
  MkBuffer d l false (Some (fun c need size => mret (ex_in c need size))) (Some ex_out)
    (Some (fun c => mret (0, c))) (Some (fun c _ => mret (0, c))) buf_default_memory_error c.

(** The buffer [AB\nC] in two nodes. *)
Definition ex_chain : list node := [(1%nat, ex_node (Some 2%nat) [65; 66]); (2%nat, ex_node None [10; 67])].
Definition ex_full (c : list Z) : buffer (list Z) := ex_buffer (Some 1%nat) (Some 2%nat) c.

Lemma ex_chain_ok c : buf_ok (ex_full c) ex_chain.
Proof.
  apply (buf_ok_intro (ex_full c) [(1%nat, ex_node (Some 2%nat) [65; 66])]);
    [by vm_compute|done|by repeat constructor|by repeat constructor].
Qed.

Lemma ex_chain_pool R : NoDup (ex_chain ++ R).*1 -> Forall (fun x => zlen (text x.2) = 8) R ->
  pool (ex_state (ex_chain ++ R)) [] (ex_chain ++ R).
Proof. intros Hn HR. apply ex_pool; [done|]. by repeat constructor. Qed.

Lemma ex_holds c : holds (ex_state (ex_chain ++ [])) (ex_full c) [65; 66; 10; 67] [].
Proof.
  exists [], ex_chain. split_and!; [|apply ex_chain_ok|by vm_compute].
  apply (ex_chain_pool []); [|by constructor]. by apply (bool_decide_unpack _); vm_compute.
Qed.

Lemma ex_clean c : clean (ex_full c).
Proof. done. Qed.

(** An empty output buffer beside it. *)
Definition ex_bo : buffer (list Z) := ex_buffer None None [].

Lemma ex_holds2 c : holds2 (ex_state (ex_chain ++ [])) ex_bo [] (ex_full c) [65; 66; 10; 67] [].
Proof.
  exists [], [], ex_chain. split_and!; [|done|by vm_compute]. split.
  - apply (ex_chain_pool []); [|by constructor]. by apply (bool_decide_unpack _); vm_compute.
  - split; [done|by intros [|??]|by constructor].
  - apply ex_chain_ok.
Qed.

(** The value of a result, to be computed without its state. *)
Definition value {A V} (f : A -> V) (r : res cfault (A * st)) : option V :=
  match r with Ok (a, _) => Some (f a) | _ => None end.

Lemma value_ok {A V} (f : A -> V) r a s v : r = Ok (a, s) -> value f r = Some v -> f a = v.
Proof. intros ->. simpl. by intros [= ->]. Qed.

Lemma host_mem n : @valloc_ok host n = true.
Proof. done. Qed.

Lemma buf_output_correct_witness :
  exists s' b', buf_output (ex_full []) (replicate 20 7) (ex_state (ex_chain ++ [])) = Ok (b', s') /\
    holds s' b' ([65; 66; 10; 67] ++ replicate 20 7) [].
Proof.
  destruct (buf_output_correct _ _ _ (replicate 20 7) _ _ (ex_holds []) (or_introl eq_refl))
    as [(s' & b' & E & Hh & _)|(s' & b' & d1 & d2 & _ & _ & _ & _ & n & Hn)]; [|done].
  exact (ex_intro _ s' (ex_intro _ b' (conj E Hh))).
Defined.

Lemma buf_send_output_correct_witness :
  exists s' b', buf_send_output (ex_full []) (ex_state (ex_chain ++ [])) = Ok ((0, b'), s') /\
    closure b' = [65; 66; 10; 67] /\ holds s' b' [] [].
Proof.
  destruct (buf_send_output_correct _ _ _ _ (ex_full []) _ _ ex_sink eq_refl (ex_holds []))
    as [(s' & b' & d' & E & Hh & _ & Hw & Hn)
    |[(st & s' & b' & d1 & d2 & Hst & E & _)|(_ & E)]].
  - destruct (Hn eq_refl) as [-> _]. rewrite app_nil_r in Hw.
    exact (ex_intro _ s' (ex_intro _ b' (conj E (conj Hw Hh)))).
  - by destruct (Hst (value_ok (fun r => r.1) _ _ _ 0 E ltac:(by vm_compute))).
  - assert (Hc : value (fun r => r.1) (buf_send_output (ex_full []) (ex_state (ex_chain ++ []))) = Some 0)
      by (by vm_compute). by rewrite E in Hc.
Defined.

Lemma buf_read_data_correct_witness :
  exists s' b' d', buf_read_data (ex_full [9]) 1 (ex_state (ex_chain ++ [])) = Ok ((0, [65], b'), s') /\
    holds s' b' d' [] /\ [65; 66; 10; 67] ++ [9] = [65] ++ d' ++ [9].
Proof.
  destruct (buf_read_data_correct host_mem _ _ _ _ (ex_full [9]) _ _ 1 ex_source eq_refl
    (ex_holds [9]) (ex_clean [9]) ltac:(done)) as (st & d & s' & b' & d' & E & Hh & _ & Hs & _ & H1 & _).
  destruct (H1 ltac:(done)) as (-> & Hc & _).
  pose proof (value_ok (fun r => r.1.2) _ _ _ [65] E ltac:(by vm_compute)) as Hd. simpl in Hd. subst d.
  rewrite Hc in Hs.
  exact (ex_intro _ s' (ex_intro _ b' (ex_intro _ d' (conj E (conj Hh Hs))))).
Defined.

(** Its line has two bytes. *)
Lemma ex_line_fits : forall l r : list Z, [65; 66; 10; 67] ++ id (closure (ex_full [])) = l ++ 10 :: r -> (10 ∉ l) ->
  zlen l + 1 < 2 ^ (8 * SIZEOF_INT - 1).
Proof.
  intros l r E _. apply (f_equal length) in E. rewrite !length_app in E. cbn in E. unfold zlen. cbn [SIZEOF_INT host cvs_host].
  change (2 ^ (8 * 4 - 1)) with 2147483648. lia.
Qed.

Lemma buf_read_line_correct_witness :
  exists s' b' d', buf_read_line 3 (ex_full []) (ex_state (ex_chain ++ [])) =
      Ok ((0, Some [65; 66; 0], 2, b'), s') /\ holds s' b' d' [] /\ clean b'.
Proof.
  destruct (buf_read_line_correct host_mem _ _ _ 3%nat _ (ex_full []) _ _ ex_source eq_refl
    ex_line_fits (ex_holds []) ltac:(simpl; lia)) as
    (st & line & n & s' & b' & d' & E & Hh & Hc & _).
  pose proof (value_ok (fun r => r.1) _ _ _ (0, Some [65; 66; 0], 2) E ltac:(by vm_compute)) as Hd.
  simpl in Hd. injection Hd as -> -> ->.
  exact (ex_intro _ s' (ex_intro _ b' (ex_intro _ d' (conj E (conj Hh Hc))))).
Defined.

Lemma buf_copy_lines_correct_witness :
  exists s' bo' bi', buf_copy_lines ex_bo (ex_full []) 77 (ex_state (ex_chain ++ [])) =
      Ok ((bo', bi'), s') /\ holds2 s' bo' [77; 32; 65; 66; 10] bi' [67] [].
Proof.
  destruct (buf_copy_lines_correct host_mem _ _ _ _ _ _ 77 (ex_holds2 []) (ex_clean []))
    as (s' & bo' & bi' & E & Hh & _). exists s', bo', bi'. split; [exact E|exact Hh].
Defined.

(** A packet of two bytes and one byte more. *)
Definition ex_packet : list node := [(1%nat, ex_node (Some 2%nat) [2; 0; 0]); (2%nat, ex_node None [0; 8; 9])].

Lemma ex_packet_holds2 :
  holds2 (ex_state ex_packet) ex_bo [] (ex_full []) [2; 0; 0; 0; 8; 9] [].
Proof.
  exists [], [], ex_packet. split_and!; [|done|by vm_compute]. split.
  - apply ex_pool; [|by repeat constructor]. by apply (bool_decide_unpack _); vm_compute.
  - split; [done|by intros [|??]|by constructor].
  - apply (buf_ok_intro (ex_full []) [(1%nat, ex_node (Some 2%nat) [2; 0; 0])]);
      [by vm_compute|done|by repeat constructor|by repeat constructor].
Qed.

Lemma buf_copy_counted_correct_witness :
  exists s' bo' bi', buf_copy_counted ex_bo (ex_full []) (ex_state ex_packet) =
      Ok ((4, 0, bo', bi'), s') /\ holds2 s' bo' [8; 9] bi' [] [].
Proof.
  destruct (buf_copy_counted_correct host_mem _ _ _ _ _ _ ex_packet_holds2)
    as (s' & bo' & bi' & E & Hh). exists s', bo', bi'. split; [exact E|exact Hh].
Defined.

Lemma buf_copy_counted_dangling_last_witness :
  exists bo' bi' s', buf_copy_counted ex_bo (ex_full []) (ex_state ex_packet) =
      Ok ((4, 0, bo', bi'), s') /\ data bi' = None /\ last bi' = Some 2%nat /\ ~ clean bi'.
Proof.
  destruct (buf_copy_counted_dangling_last host_mem _ _ _ _ _ _ ex_packet_holds2 ltac:(done))
    as (need & sp & bo' & bi' & s' & E & Hl & _ & Hd).
  pose proof (value_ok (fun r => (r.1.1, data r.2)) _ _ _ (4, 0, None) E ltac:(by vm_compute)) as Hd'.
  simpl in Hd'. injection Hd' as -> -> Hdn.
  exists bo', bi', s'. exact (conj E (conj Hdn (conj Hl (Hd Hdn)))).
Defined.

Lemma counted_roundtrip_witness :
  exists s' b', buf_send_counted (ex_buffer (Some 7%nat) (Some 7%nat) [])
      (ex_state [(7%nat, ex_node None [8; 9])]) = Ok ((0, b'), s') /\
    closure b' = [2; 0; 0; 0; 8; 9].
Proof.
  assert (Hh : holds (ex_state [(7%nat, ex_node None [8; 9])]) (ex_buffer (Some 7%nat) (Some 7%nat) [])
    [8; 9] []).
  { exists [], [(7%nat, ex_node None [8; 9])]. split_and!; [| |by vm_compute].
    - apply ex_pool; [|by repeat constructor]. by apply (bool_decide_unpack _); vm_compute.
    - by apply (buf_ok_intro _ []). }
  destruct (proj1 (counted_roundtrip host_mem _ _ _ _ (ex_buffer (Some 7%nat) (Some 7%nat) []) _ _ _ _ _ _ _ ex_sink
    (fun _ _ => eq_refl) eq_refl Hh ltac:(done) ltac:(by vm_compute) ex_packet_holds2))
    as (s' & b' & E & _ & Hw).
  exists s', b'. split; [exact E|exact Hw].
Defined.

Definition ex_nonblocking (c : list Z) : buffer (list Z) := set_nonblocking true (ex_full c).

Lemma buf_flush_restores_mode_witness :
  exists s' b', buf_flush (ex_nonblocking []) true (ex_state (ex_chain ++ [])) = Ok ((0, b'), s') /\
    nonblocking b' = true.
Proof.
  assert (Hh : holds (ex_state (ex_chain ++ [])) (ex_nonblocking []) [65; 66; 10; 67] []).
  { destruct (ex_holds []) as (fl & xs & Hp & Hb & Hx). exists fl, xs.
    split_and!; [done|by split; apply Hb|done]. }
  destruct (buf_flush_restores_mode _ _ _ (fun c => mret (0, c)) (fun c _ => mret (0, c)) _ (ex_nonblocking []) _ _
    ex_sink eq_refl eq_refl eq_refl (fun c _ => ex_intro _ 0 (ex_intro _ c eq_refl))
    (fun c _ _ => ex_intro _ c eq_refl) eq_refl Hh) as [E|(st & s' & b' & d' & E & Hn & _)].
  - assert (Hc : value (fun r => r.1) (buf_flush (ex_nonblocking []) true (ex_state (ex_chain ++ []))) =
      Some 0) by (by vm_compute). by rewrite E in Hc.
  - pose proof (value_ok (fun r => r.1) _ _ _ 0 E ltac:(by vm_compute)) as Hd. simpl in Hd. subst st.
    exact (ex_intro _ s' (ex_intro _ b' (conj E Hn))).
Defined.
