(* ===== verification/GzRead.v ===== *)
(** * zlib: reading gzip files ([gzread.c])

    The state of an open file is the record [gz_state]; the functions of the
    source are state transformers in the prelude's monad.  The file
    descriptor is the list of what its next [read] calls meet.

    [gzguts.h], [zlib.h], [gz_error] (gzlib.c), [inflate] and [malloc] are not
    part of the repository: they are the class [Zlib].  Error messages are
    left out, error codes are kept. *)
From S2P Require Import Prelude.
Open Scope Z_scope.

(** [inflate] maps its internal state, the available input and the room in
    the output to a code, the number of bytes consumed, the bytes produced
    and its next state.  [gz_error_have] is what [gz_error] does to the count
    of available output. *)
Class Zlib := {
  Z_OK : Z; Z_STREAM_END : Z; Z_NEED_DICT : Z; Z_ERRNO : Z; Z_STREAM_ERROR : Z;
  Z_DATA_ERROR : Z; Z_MEM_ERROR : Z; Z_BUF_ERROR : Z;
  GZ_READ : Z;
  istate : Type;
  inflate : istate -> list Z -> Z -> Z * Z * list Z * istate;
  inflateInit2 : option istate;
  inflateReset : istate -> istate;
  malloc_ok : Z -> bool;
  gz_error_have : Z -> Z -> Z
}.

(** What a [read] meets: some bytes (none at the end of the file) or an
    error. *)
Inductive revent := Chunk (bs : list Z) | RError.

Inductive gz_how := LOOK | COPY | GZIP.

#[export] Instance gz_how_eq_dec : EqDecision gz_how.
Proof. solve_decision. Defined.

Section gz.
Context `{Zlib}.

(** Pointers into the buffers are offsets; [x_next] is [None] when it points
    into the caller's buffer or nowhere.  A null buffer is [None]. *)
Record gz_state := MkGz {
  x_have : Z;
  x_next : option Z;
  x_pos : Z;
  gmode : Z;
  fd : list revent;
  gsize : Z;
  want : Z;
  ibuf : option (list Z);
  out : option (list Z);
  direct : bool;
  how : gz_how;
  geof : bool;
  past : bool;
  skip : Z;
  seek : bool;
  gerr : Z;
  next_in : Z;
  avail_in : Z;
  avail_out : Z;
  istrm : option istate
}.

Abbreviation G := (M gz_state cfault).

Definition set_x (h : Z) (n : option Z) (p : Z) (s : gz_state) : gz_state :=
  MkGz h n p (gmode s) (fd s) (gsize s) (want s) (ibuf s) (out s) (direct s) (how s) (geof s)
    (past s) (skip s) (seek s) (gerr s) (next_in s) (avail_in s) (avail_out s) (istrm s).
Definition set_have (h : Z) (s : gz_state) : gz_state := set_x h (x_next s) (x_pos s) s.
Definition set_fd (f : list revent) (s : gz_state) : gz_state :=
  MkGz (x_have s) (x_next s) (x_pos s) (gmode s) f (gsize s) (want s) (ibuf s) (out s) (direct s)
    (how s) (geof s) (past s) (skip s) (seek s) (gerr s) (next_in s) (avail_in s) (avail_out s) (istrm s).
Definition set_bufs (sz : Z) (i o : option (list Z)) (s : gz_state) : gz_state :=
  MkGz (x_have s) (x_next s) (x_pos s) (gmode s) (fd s) sz (want s) i o (direct s)
    (how s) (geof s) (past s) (skip s) (seek s) (gerr s) (next_in s) (avail_in s) (avail_out s) (istrm s).
Definition set_out (o : option (list Z)) (s : gz_state) : gz_state := set_bufs (gsize s) (ibuf s) o s.
Definition set_ibuf (i : option (list Z)) (s : gz_state) : gz_state := set_bufs (gsize s) i (out s) s.
Definition set_how (h : gz_how) (d : bool) (s : gz_state) : gz_state :=
  MkGz (x_have s) (x_next s) (x_pos s) (gmode s) (fd s) (gsize s) (want s) (ibuf s) (out s) d
    h (geof s) (past s) (skip s) (seek s) (gerr s) (next_in s) (avail_in s) (avail_out s) (istrm s).
Definition set_eof (e p : bool) (s : gz_state) : gz_state :=
  MkGz (x_have s) (x_next s) (x_pos s) (gmode s) (fd s) (gsize s) (want s) (ibuf s) (out s) (direct s)
    (how s) e p (skip s) (seek s) (gerr s) (next_in s) (avail_in s) (avail_out s) (istrm s).
Definition set_seek (k : bool) (s : gz_state) : gz_state :=
  MkGz (x_have s) (x_next s) (x_pos s) (gmode s) (fd s) (gsize s) (want s) (ibuf s) (out s) (direct s)
    (how s) (geof s) (past s) (skip s) k (gerr s) (next_in s) (avail_in s) (avail_out s) (istrm s).
Definition set_err (e : Z) (s : gz_state) : gz_state :=
  MkGz (x_have s) (x_next s) (x_pos s) (gmode s) (fd s) (gsize s) (want s) (ibuf s) (out s) (direct s)
    (how s) (geof s) (past s) (skip s) (seek s) e (next_in s) (avail_in s) (avail_out s) (istrm s).
Definition set_strm (ni ai ao : Z) (i : option istate) (s : gz_state) : gz_state :=
  MkGz (x_have s) (x_next s) (x_pos s) (gmode s) (fd s) (gsize s) (want s) (ibuf s) (out s) (direct s)
    (how s) (geof s) (past s) (skip s) (seek s) (gerr s) ni ai ao i.

Definition gz_error (e : Z) : G unit :=
  modS (fun s => set_have (gz_error_have e (x_have s)) (set_err e s)).

(** The condition [state->err != Z_OK && state->err != Z_BUF_ERROR]. *)
Definition serious (s : gz_state) : bool :=
  negb (gerr s =? Z_OK) && negb (gerr s =? Z_BUF_ERROR).

(** [state->size << 1]. *)
Definition twice (n : Z) : Z := u32 (Z.shiftl n 1).

(** [read]: at most [n] bytes of the next event. *)
Definition read_fd (n : Z) (f : list revent) : option (list Z) * list revent :=
  match f with
  | [] => (Some [], [])
  | RError :: f' => (None, f')
  | Chunk bs :: f' =>
      (Some (ztake n bs), if zlen bs <=? n then f' else Chunk (zdrop n bs) :: f')
  end.

(** The loop of [gz_load]: what the last [read] returned and the bytes.  A
    turn uses an event up or fills the buffer. *)
Fixpoint load_loop (fuel : nat) (len : Z) (acc : list Z) : G (Z * list Z) :=
  match fuel with
  | O => fun _ => Timeout
  | S fuel' =>
      s ← getS;
      let '(r, f) := read_fd (len - zlen acc) (fd s) in
      putS (set_fd f s) ;;
      match r with
      | None => mret (-1, acc)
      | Some bs =>
          let ret := wraps 32 (zlen bs) in
          if ret <=? 0 then mret (ret, acc) else
          let acc := acc ++ bs in
          if zlen acc <? len then load_loop fuel' len acc else mret (ret, acc)
      end
  end.

(** The bytes loaded are returned for the caller to store; [set] is the
    assignment to [*have]. *)
Definition gz_load (len : Z) (set : Z -> gz_state -> gz_state) : G (Z * list Z) :=
  s ← getS;
  r ← load_loop (S (length (fd s))) len [];
  modS (set (zlen r.2)) ;;
  if r.1 <? 0 then gz_error Z_ERRNO ;; mret (-1, r.2)
  else
    (if r.1 =? 0 then modS (fun s => set_eof true (past s) s) else mret tt) ;;
    mret (0, r.2).

Definition get_buf (o : option (list Z)) : G (list Z) :=
  match o with None => throw NullDeref | Some l => mret l end.

(** A [memcpy] of [bs] into array [l], and a read of [n] bytes. *)
Definition write_buf (l : list Z) (off : Z) (bs : list Z) : G (list Z) :=
  if (0 <=? off) && (off + zlen bs <=? zlen l) then mret (overwrite l off bs) else throw OutOfBounds.
Definition read_buf (l : list Z) (off n : Z) : G (list Z) :=
  if (0 <=? off) && (0 <=? n) && (off + n <=? zlen l) then mret (slice off n l) else throw OutOfBounds.

(** Run a byte loop on one of the two buffers. *)
Definition on_ibuf (m : M (list Z) cfault unit) : G unit :=
  s ← getS;
  i ← get_buf (ibuf s);
  r ← lift (m i);
  modS (set_ibuf (Some r.2)).
Definition on_out (m : M (list Z) cfault unit) : G unit :=
  s ← getS;
  o ← get_buf (out s);
  r ← lift (m o);
  modS (set_out (Some r.2)).

(** Where [read] has put the bytes of a [gz_load] into one of the buffers. *)
Definition put_in (off : Z) (bs : list Z) : G unit :=
  if zlen bs =? 0 then mret tt else
  s ← getS;
  i ← get_buf (ibuf s);
  i ← write_buf i off bs;
  modS (set_ibuf (Some i)).
Definition put_out (off : Z) (bs : list Z) : G unit :=
  if zlen bs =? 0 then mret tt else
  s ← getS;
  o ← get_buf (out s);
  o ← write_buf o off bs;
  modS (set_out (Some o)).

Definition gz_avail : G Z :=
  s ← getS;
  if serious s then mret (-1) else
  if geof s then mret 0 else
  (if negb (avail_in s =? 0) then on_ibuf (copy_up (Z.to_nat (avail_in s)) 0 (next_in s))
   else mret tt) ;;
  r ← gz_load (gsize s - avail_in s) (fun _ s => s);
  put_in (avail_in s) r.2 ;;
  if r.1 =? -1 then mret (-1) else
  modS (fun s => set_strm 0 (avail_in s + zlen r.2) (avail_out s) (istrm s) s) ;;
  mret 0.

(** The allocations of the first call. *)
Definition look_alloc : G Z :=
  s ← getS;
  if negb (malloc_ok (want s)) || negb (malloc_ok (twice (want s))) then
    modS (set_bufs (gsize s) None None) ;; gz_error Z_MEM_ERROR ;; mret (-1)
  else
    modS (set_bufs (want s) (Some (replicate (Z.to_nat (want s)) 0))
                            (Some (replicate (Z.to_nat (twice (want s))) 0))) ;;
    modS (fun s => set_strm 0 0 (avail_out s) inflateInit2 s) ;;
    match inflateInit2 with
    | Some _ => mret 0
    | None =>
        modS (set_bufs 0 None None) ;; gz_error Z_MEM_ERROR ;; mret (-1)
    end.

(** The magic bytes are at [next_in]. *)
Definition is_magic : G bool :=
  s ← getS;
  if avail_in s >? 1 then
    i ← get_buf (ibuf s);
    b ← read_buf i (next_in s) 2;
    mret (bool_decide (b = [31; 139]))
  else mret false.

(** The three outcomes of [gz_look]: a gzip header, trailing garbage, and
    raw data, whose leftover input goes to the output buffer. *)
Definition start_gzip : G Z :=
  modS (fun s => set_strm (next_in s) (avail_in s) (avail_out s) (inflateReset <$> istrm s) s) ;;
  modS (set_how GZIP false) ;;
  mret 0.
Definition drop_garbage : G Z :=
  modS (fun s => set_strm (next_in s) 0 (avail_out s) (istrm s) s) ;;
  modS (fun s => set_have 0 (set_eof true (past s) s)) ;;
  mret 0.
Definition start_copy : G Z :=
  modS (fun s => set_x (x_have s) (Some 0) (x_pos s) s) ;;
  s ← getS;
  (if negb (avail_in s =? 0) then
     i ← get_buf (ibuf s);
     bs ← read_buf i (next_in s) (avail_in s);
     put_out 0 bs ;;
     modS (set_have (avail_in s)) ;;
     modS (fun s => set_strm (next_in s) 0 (avail_out s) (istrm s) s)
   else mret tt) ;;
  modS (set_how COPY true) ;;
  mret 0.

Definition gz_look : G Z :=
  s ← getS;
  a ← (if gsize s =? 0 then look_alloc else mret 0);
  if a =? -1 then mret (-1) else
  s ← getS;
  v ← (if avail_in s <? 2 then gz_avail else mret 0);
  if v =? -1 then mret (-1) else
  t ← getS;
  if (avail_in s <? 2) && (avail_in t =? 0) then mret 0 else
  magic ← is_magic;
  if (magic : bool) then start_gzip
  else if negb (direct t) then drop_garbage
  else start_copy.

(** One [inflate] call: it consumes from [next_in] and its output goes to
    [out] at offset [off], or, with [to_out] false, to the caller's buffer;
    the bytes are returned either way. *)
Definition call_inflate (to_out : bool) (off : Z) : G (Z * list Z) :=
  s ← getS;
  i ← get_buf (ibuf s);
  src ← read_buf i (next_in s) (avail_in s);
  match istrm s with
  | None => throw NullDeref
  | Some z =>
      let '(ret, n, bs, z') := inflate z src (avail_out s) in
      (if to_out then put_out off bs else mret tt) ;;
      modS (set_strm (next_in s + n) (avail_in s - n) (avail_out s - zlen bs) (Some z')) ;;
      mret (ret, bs)
  end.

(** The loop of [gz_decomp], with the last return code and the bytes produced
    so far: [None] when it returned -1. *)
Fixpoint decomp_loop (fuel : nat) (to_out : bool) (ret : Z) (acc : list Z) : G (option (Z * list Z)) :=
  match fuel with
  | O => fun _ => Timeout
  | S fuel' =>
      s ← getS;
      v ← (if avail_in s =? 0 then gz_avail else mret 0);
      if v =? -1 then mret None else
      s ← getS;
      if avail_in s =? 0 then gz_error Z_BUF_ERROR ;; mret (Some (ret, acc)) else
      r ← call_inflate to_out (zlen acc);
      let '(ret, bs) := r in
      if (ret =? Z_STREAM_ERROR) || (ret =? Z_NEED_DICT) then
        gz_error Z_STREAM_ERROR ;; mret None
      else if ret =? Z_MEM_ERROR then gz_error Z_MEM_ERROR ;; mret None
      else if ret =? Z_DATA_ERROR then gz_error Z_DATA_ERROR ;; mret None
      else
        s ← getS;
        if negb (avail_out s =? 0) && negb (ret =? Z_STREAM_END)
        then decomp_loop fuel' to_out ret (acc ++ bs)
        else mret (Some (ret, acc ++ bs))
  end.

(** [strm->avail_out] and [strm->next_out] have been set by the caller:
    [next_out] is the start of [out] or of the caller's buffer. *)
Definition gz_decomp (fuel : nat) (to_out : bool) : G (Z * list Z) :=
  s ← getS;
  let had := avail_out s in
  r ← decomp_loop fuel to_out Z_OK [];
  match r with
  | None => mret (-1, [])
  | Some (ret, bs) =>
      modS (fun s => set_x (had - avail_out s) (if to_out then Some 0 else None) (x_pos s) s) ;;
      (if ret =? Z_STREAM_END then modS (fun s => set_how LOOK (direct s) s) else mret tt) ;;
      mret (0, bs)
  end.

Fixpoint gz_fetch (fuel : nat) : G Z :=
  match fuel with
  | O => fun _ => Timeout
  | S fuel' =>
      s ← getS;
      let again :=
        s ← getS;
        if (x_have s =? 0) && (negb (geof s) || negb (avail_in s =? 0))
        then gz_fetch fuel' else mret 0 in
      match how s with
      | LOOK =>
          v ← gz_look;
          if v =? -1 then mret (-1) else
          s ← getS;
          if decide (how s = LOOK) then mret 0 else again
      | COPY =>
          r ← gz_load (twice (gsize s)) set_have;
          put_out 0 r.2 ;;
          if r.1 =? -1 then mret (-1) else
          modS (fun s => set_x (x_have s) (Some 0) (x_pos s) s) ;; mret 0
      | GZIP =>
          putS (set_strm (next_in s) (avail_in s) (twice (gsize s)) (istrm s) s) ;;
          r ← gz_decomp fuel true;
          if r.1 =? -1 then mret (-1) else again
      end
  end.

(** Step over [n] bytes of available output. *)
Definition consume (n : Z) (s : gz_state) : gz_state :=
  set_x (x_have s - n) ((fun p => p + n) <$> x_next s) (x_pos s) s.
Definition advance (n : Z) (s : gz_state) : gz_state :=
  set_x (x_have s) (x_next s) (x_pos s + n) s.

(** The bytes at [x.next]. *)
Definition peek_out (n : Z) : G (list Z) :=
  s ← getS;
  o ← get_buf (out s);
  match x_next s with
  | None => throw OutOfBounds
  | Some p => read_buf o p n
  end.

(** [GT_OFF(x)]: an [unsigned] that does not fit in a 64-bit offset. *)
Fixpoint gz_skip (fuel : nat) (len : Z) : G Z :=
  match fuel with
  | O => fun _ => Timeout
  | S fuel' =>
      if len =? 0 then mret 0 else
      s ← getS;
      if negb (x_have s =? 0) then
        let n := if x_have s >? len then u32 len else x_have s in
        putS (advance n (consume n s)) ;;
        gz_skip fuel' (len - n)
      else if geof s && (avail_in s =? 0) then mret 0
      else
        v ← gz_fetch fuel';
        if v =? -1 then mret (-1) else gz_skip fuel' len
  end.

(** A pending skip request, if there is one. *)
Definition do_seek (fuel : nat) : G Z :=
  s ← getS;
  if seek s then putS (set_seek false s) ;; gz_skip fuel (skip s) else mret 0.

(** The loop of [gzread]: the bytes delivered, or [None] for -1. *)
Fixpoint gzread_loop (fuel : nat) (len : Z) (got : list Z) : G (option (list Z)) :=
  match fuel with
  | O => fun _ => Timeout
  | S fuel' =>
      s ← getS;
      let progress bs :=
        modS (advance (zlen bs)) ;;
        if len - zlen bs =? 0 then mret (Some (got ++ bs))
        else gzread_loop fuel' (len - zlen bs) (got ++ bs) in
      if negb (x_have s =? 0) then
        let n := if x_have s >? len then len else x_have s in
        bs ← peek_out n;
        modS (consume n) ;;
        progress bs
      else if geof s && (avail_in s =? 0) then
        putS (set_eof (geof s) true s) ;; mret (Some got)
      else if bool_decide (how s = LOOK) || (len <? twice (gsize s)) then
        v ← gz_fetch fuel';
        if v =? -1 then mret None else gzread_loop fuel' len got
      else if decide (how s = COPY) then
        r ← gz_load len (fun _ s => s);
        if r.1 =? -1 then mret None else progress r.2
      else
        putS (set_strm (next_in s) (avail_in s) len (istrm s) s) ;;
        r ← gz_decomp fuel' false;
        if r.1 =? -1 then mret None else
        s ← getS;
        let n := x_have s in
        putS (set_have 0 s) ;;
        progress (ztake n r.2)
  end.

(** The return value and the bytes stored in the caller's buffer.  The file
    pointer is not null: null is the caller's [None]. *)
Definition gzread (fuel : nat) (len : Z) : G (Z * list Z) :=
  s ← getS;
  if negb (gmode s =? GZ_READ) || serious s then mret (-1, []) else
  if wraps 32 len <? 0 then gz_error Z_DATA_ERROR ;; mret (-1, []) else
  if len =? 0 then mret (0, []) else
  v ← do_seek fuel;
  if v =? -1 then mret (-1, []) else
  r ← gzread_loop fuel len [];
  match r with
  | None => mret (-1, [])
  | Some got => mret (zlen got, got)
  end.

Definition gzgetc (fuel : nat) : G Z :=
  s ← getS;
  if negb (gmode s =? GZ_READ) || serious s then mret (-1) else
  if negb (x_have s =? 0) then
    bs ← peek_out 1;
    modS (fun s => advance 1 (consume 1 s)) ;;
    mret (default 0 (head bs))
  else
    r ← gzread fuel 1;
    mret (if r.1 <? 1 then -1 else default 0 (head r.2)).

Definition gzgetc_ (fuel : nat) : G Z := gzgetc fuel.

(** Store one byte through a pointer into [out]. *)
Definition poke_out (p : Z) (c : Z) : G unit := on_out (zstore p (u8 c)).

(** [while (src > state->out) *--dest = *--src]. *)
Definition slide_out : G unit :=
  s ← getS;
  on_out (copy_down (Z.to_nat (x_have s)) (twice (gsize s)) (x_have s)) ;;
  modS (set_x (x_have s) (Some (twice (gsize s) - x_have s)) (x_pos s)).

Definition gzungetc (fuel : nat) (c : Z) : G Z :=
  s ← getS;
  if negb (gmode s =? GZ_READ) || serious s then mret (-1) else
  v ← do_seek fuel;
  if v =? -1 then mret (-1) else
  if c <? 0 then mret (-1) else
  s ← getS;
  if x_have s =? 0 then
    let p := twice (gsize s) - 1 in
    putS (set_x 1 (Some p) (x_pos s) s) ;;
    poke_out p c ;;
    modS (fun s => set_eof (geof s) false (advance (-1) s)) ;;
    mret c
  else if x_have s =? twice (gsize s) then gz_error Z_DATA_ERROR ;; mret (-1)
  else
    (if decide (x_next s = Some 0) then slide_out else mret tt) ;;
    s ← getS;
    let p := (fun p => p - 1) <$> x_next s in
    putS (set_x (x_have s + 1) p (x_pos s) s) ;;
    match p with
    | None => throw OutOfBounds
    | Some p => poke_out p c
    end ;;
    modS (fun s => set_eof (geof s) false (advance (-1) s)) ;;
    mret c.

(** The loop of [gzgets]: [None] for an error. *)
Fixpoint gzgets_loop (fuel : nat) (left : Z) (buf : list Z) : G (option (list Z)) :=
  match fuel with
  | O => fun _ => Timeout
  | S fuel' =>
      s ← getS;
      v ← (if x_have s =? 0 then gz_fetch fuel' else mret 0);
      if v =? -1 then mret None else
      s ← getS;
      if x_have s =? 0 then putS (set_eof (geof s) true s) ;; mret (Some buf) else
      let n := if x_have s >? left then left else x_have s in
      bs ← peek_out n;
      let eol := list_find (fun b => b = 10) bs in
      let n := match eol with Some (i, _) => Z.of_nat i + 1 | None => n end in
      modS (fun s => advance n (consume n s)) ;;
      let buf := buf ++ ztake n bs in
      if negb (left - n =? 0) && bool_decide (eol = None)
      then gzgets_loop fuel' (left - n) buf else mret (Some buf)
  end.

(** The string stored in the caller's buffer with its null byte, or [None]
    for a null result. *)
Definition gzgets (fuel : nat) (len : Z) : G (option (list Z)) :=
  if len <? 1 then mret None else
  s ← getS;
  if negb (gmode s =? GZ_READ) || serious s then mret None else
  v ← do_seek fuel;
  if v =? -1 then mret None else
  let left := u32 len - 1 in
  r ← (if left =? 0 then mret (Some []) else gzgets_loop fuel left []);
  mret (match r with
        | None | Some [] => None
        | Some buf => Some (buf ++ [0])
        end).

Definition gzdirect : G bool :=
  s ← getS;
  (if (gmode s =? GZ_READ) && bool_decide (how s = LOOK) && (x_have s =? 0)
   then gz_look ;; mret tt else mret tt) ;;
  s ← getS;
  mret (direct s).

(** [close_ok] is whether [close] succeeds; the state is freed. *)
Definition gzclose_r (close_ok : bool) : G Z :=
  s ← getS;
  if negb (gmode s =? GZ_READ) then mret Z_STREAM_ERROR else
  (if negb (gsize s =? 0) then modS (set_bufs (gsize s) None None) else mret tt) ;;
  let err := if gerr s =? Z_BUF_ERROR then Z_BUF_ERROR else Z_OK in
  gz_error Z_OK ;;
  mret (if close_ok then err else Z_ERRNO).
End gz.
