(* ===== verification/GzReadProofs.v ===== *)
(** * zlib's gzread.c: the decoded stream behind a [gz_state]

    [Stream s D] says that [D] is everything a reader of [s] has still to get:
    what waits in the output buffer, then what the buffered input and the
    file hold, decoded member by member when they are gzip data.  The lemmas
    below show that each internal routine of the source moves bytes between
    the three places without changing [D]. *)
From S2P Require Import Prelude GzRead.
Open Scope Z_scope.

(** What zlib.h documents of [inflate] and [gz_error].  [Decodes z I o rest]:
    from the internal state [z], the input [I] starts with the rest of a
    gzip member, which decodes to [o] and is followed by [rest]. *)
Class ZlibLaws `{Zlib} := {
  Decodes : istate -> list Z -> list Z -> list Z -> Prop;
  codes : Forall (fun e => e <> Z_OK /\ e <> Z_STREAM_END)
            [Z_STREAM_ERROR; Z_NEED_DICT; Z_MEM_ERROR; Z_DATA_ERROR; Z_ERRNO] /\
          Z_OK <> Z_STREAM_END /\
          Forall (fun e => e <> Z_BUF_ERROR)
            [Z_STREAM_ERROR; Z_NEED_DICT; Z_MEM_ERROR; Z_DATA_ERROR; Z_ERRNO];
  Decodes_shorter z I o rest : Decodes z I o rest -> zlen rest < zlen I;
  inflate_step z p q o rest n : Decodes z (p ++ q) o rest -> p <> [] -> 0 < n ->
    let '(ret, c, bs, z') := inflate z p n in
    0 <= c <= zlen p /\ zlen bs <= n /\
    exists o', o = bs ++ o' /\
      ((ret = Z_STREAM_END /\ o' = [] /\ rest = zdrop c p ++ q) \/
       (ret = Z_OK /\ Decodes z' (zdrop c p ++ q) o' rest /\ (0 < c \/ bs <> [])))
}.

(** Reduce field selections from updated states. *)
Ltac gzc := cbn [x_have x_next x_pos gmode fd gsize want ibuf out direct how geof past skip seek gerr
  next_in avail_in avail_out istrm set_x set_have set_fd set_bufs set_out set_ibuf set_how set_eof
  set_seek set_err set_strm consume advance fst snd].
Tactic Notation "gzc" "in" hyp(H) := cbn [x_have x_next x_pos gmode fd gsize want ibuf out direct how
  geof past skip seek gerr next_in avail_in avail_out istrm set_x set_have set_fd set_bufs set_out
  set_ibuf set_how set_eof set_seek set_err set_strm consume advance fst snd] in H.

(** One step of a computation whose first action is a primitive. *)
Ltac step := rewrite M_bind_eq; cbn [getS putS modS mret M_ret throw get_buf].

Section proofs.
Context `{HZ : Zlib} `{HL : !ZlibLaws}.

(** ** Abstraction *)
Definition chunk (e : revent) : list Z := match e with Chunk bs => bs | RError => [] end.
Definition file_bytes (f : list revent) : list Z := concat (chunk <$> f).

(** A file whose reads do not fail and end only at its end. *)
Definition healthy (f : list revent) : Prop := Forall (fun e => chunk e <> []) f.

Definition out_avail (s : gz_state) : list Z :=
  match out s, x_next s with Some o, Some p => slice p (x_have s) o | _, _ => [] end.
Definition in_avail (s : gz_state) : list Z :=
  match ibuf s with Some i => slice (next_in s) (avail_in s) i | None => [] end.
Definition fd_avail (s : gz_state) : list Z := if geof s then [] else file_bytes (fd s).
Definition input (s : gz_state) : list Z := in_avail s ++ fd_avail s.

Definition magic (I : list Z) : bool := bool_decide (ztake 2 I = [31; 139]).

(** What the members at the start of [I] decode to; what follows them is
    ignored. *)
Inductive Members : list Z -> list Z -> Prop :=
| Members_end I : magic I = false -> Members I []
| Members_cons I o rest D :
    magic I = true -> (forall z, Decodes (inflateReset z) I o rest) -> Members rest D -> Members I (o ++ D).

(** ** Invariants *)
Definition calm (s : gz_state) : Prop :=
  gmode s = GZ_READ /\ serious s = false /\ healthy (fd s).

(** The buffers are allocated, and the input part of them is in bounds. *)
Definition ready (s : gz_state) : Prop :=
  exists i o z, ibuf s = Some i /\ out s = Some o /\ istrm s = Some z /\
    zlen i = gsize s /\ zlen o = 2 * gsize s /\ 2 <= gsize s < 2 ^ 30 /\
    0 <= next_in s /\ 0 <= avail_in s /\ next_in s + avail_in s <= gsize s.

(** Just opened, and the allocations of [gz_look] will succeed. *)
Definition fresh (s : gz_state) : Prop :=
  gsize s = 0 /\ x_have s = 0 /\ avail_in s = 0 /\ next_in s = 0 /\ how s = LOOK /\ direct s = true /\
  2 <= want s < 2 ^ 30 /\ malloc_ok (want s) = true /\ malloc_ok (2 * want s) = true /\
  inflateInit2 <> None /\ ibuf s = None /\ out s = None /\ geof s = false.

Definition out_ok (s : gz_state) : Prop :=
  x_have s = 0 \/
  exists p, x_next s = Some p /\ 0 <= p /\ 0 < x_have s /\ p + x_have s <= 2 * gsize s.

(** [raw] is what the input of [s] stands for; [k] bounds the number of header
    and member changes still to come. *)
Definition raw_ok (s : gz_state) (raw : list Z) (k : Z) : Prop :=
  match how s with
  | LOOK => k = 2 * zlen (input s) /\ (direct s = true -> geof s = true -> fd s = []) /\
      if direct s && negb (magic (input s)) then raw = input s else Members (input s) raw
  | COPY => k = 0 /\ direct s = true /\ avail_in s = 0 /\ raw = input s /\ (geof s = true -> fd s = [])
  | GZIP => direct s = false /\ exists z o rest d,
      istrm s = Some z /\ Decodes z (input s) o rest /\ Members rest d /\ raw = o ++ d /\
      k = 2 * zlen rest + 1
  end.

Definition Stream (s : gz_state) (D : list Z) : Prop :=
  calm s /\ out_ok s /\ (ready s \/ fresh s) /\
  exists raw k, raw_ok s raw k /\ D = out_avail s ++ raw.

(** What no internal routine changes. *)
Definition kept (s t : gz_state) : Prop :=
  gmode t = gmode s /\ seek t = seek s /\ skip t = skip s /\ gerr t = gerr s /\ x_pos t = x_pos s /\
  past t = past s.

(** Bytes in the files and decoded bytes, the measure of the work left. *)
Definition work (s : gz_state) (raw : list Z) : Z := zlen (input s) + zlen raw.

(** [t] differs from [s] in the input side only. *)
Definition refilled (s t : gz_state) : Prop :=
  t = MkGz (x_have s) (x_next s) (x_pos s) (gmode s) (fd t) (gsize s) (want s) (ibuf t) (out s)
        (direct s) (how s) (geof t) (past s) (skip s) (seek s) (gerr s) (next_in t) (avail_in t)
        (avail_out s) (istrm s).

(** Only the buffers, the file and [strm] differ. *)
Definition strm_only (s t : gz_state) : Prop :=
  t = MkGz (x_have s) (x_next s) (x_pos s) (gmode s) (fd t) (gsize s) (want s) (ibuf t) (out t)
        (direct s) (how s) (geof t) (past s) (skip s) (seek s) (gerr s) (next_in t) (avail_in t)
        (avail_out t) (istrm t).

(** ** Arithmetic *)
Lemma twice_ok n : 0 <= n < 2 ^ 31 -> twice n = 2 * n.
Proof.
  intros Hn. unfold twice. rewrite Z.shiftl_mul_pow2 by lia.
  rewrite wrapu_small by lia. lia.
Qed.

Lemma file_bytes_cons bs f : file_bytes (Chunk bs :: f) = bs ++ file_bytes f.
Proof. done. Qed.

Lemma read_fd_ok n f :
  healthy f -> 0 < n ->
  exists bs f', read_fd n f = (Some bs, f') /\ healthy f' /\ file_bytes f = bs ++ file_bytes f' /\
    zlen bs <= n /\ (bs = [] -> f' = []) /\ (zlen bs < n -> f' = drop 1 f).
Proof.
  intros Hh Hn. destruct f as [|[bs|] f]; simpl.
  - exists [], []. split_and!; try done. zlia.
  - apply Forall_cons in Hh as [Hb Hh]. simpl in Hb. rewrite file_bytes_cons.
    pose proof (zlen_nonneg bs). destruct (Z.leb_spec (zlen bs) n).
    + exists bs, f. rewrite ztake_all by lia. done.
    + exists (ztake n bs), (Chunk (zdrop n bs) :: f). split_and!; [done| | | | |].
      * apply Forall_cons. split; [|done]. simpl. intros E.
        assert (zlen (zdrop n bs) = 0) by by rewrite E. zlia.
      * by rewrite file_bytes_cons, app_assoc, ztake_zdrop.
      * zlia.
      * intros E. assert (zlen (ztake n bs) = 0) by by rewrite E. zlia.
      * zlia.
  - apply Forall_cons in Hh as [Hb Hh]. done.
Qed.

Lemma load_loop_ok fuel len acc s :
  healthy (fd s) -> zlen acc < len < 2 ^ 31 -> (length (fd s) < fuel)%nat ->
  exists ret bs f', load_loop fuel len acc s = Ok ((ret, acc ++ bs), set_fd f' s) /\
    healthy f' /\ file_bytes (fd s) = bs ++ file_bytes f' /\ 0 <= ret /\ zlen acc + zlen bs <= len /\
    (ret = 0 -> f' = []) /\ (0 < ret -> zlen acc + zlen bs = len).
Proof.
  revert acc s. induction fuel as [|fuel IH]; intros acc s Hh Hlen Hf; [lia|].
  destruct (read_fd_ok (len - zlen acc) (fd s)) as (bs & f' & E & Hh' & Hb & Hn & Hz & Hf'); [done|lia|].
  cbn [load_loop]. rewrite M_bind_eq. cbn [getS]. rewrite E. rewrite M_bind_eq. cbn [putS].
  pose proof (zlen_nonneg bs). pose proof (zlen_nonneg acc). rewrite wraps_small by lia.
  destruct (Z.leb_spec (zlen bs) 0).
  { assert (bs = []) as -> by (apply zlen_nil_inv; lia).
    exists 0, [], f'. rewrite app_nil_r. split_and!; try done; try zlia. by intros; apply Hz. }
  rewrite zlen_app. destruct (Z.ltb_spec (zlen acc + zlen bs) len).
  - destruct (IH (acc ++ bs) (set_fd f' s)) as (ret & bs' & f'' & E' & Hh'' & Hb' & ? & ? & ? & Hlast).
    + done.
    + zlia.
    + cbn [fd set_fd]. rewrite Hf' by lia. rewrite length_drop. destruct (fd s); simpl in *; [|lia].
      destruct bs; [|done]. zlia.
    + exists ret, (bs ++ bs'), f''. rewrite app_assoc. split_and!; try done; try zlia.
      rewrite Hb. cbn [fd set_fd] in Hb'. by rewrite Hb', app_assoc.
  - exists (zlen bs), bs, f'. split_and!; try done; try lia.
Qed.

Lemma gz_load_ok len set s :
  healthy (fd s) -> 0 < len < 2 ^ 31 ->
  exists bs f' (e : bool), gz_load len set s =
      Ok ((0, bs), let t := set (zlen bs) (set_fd f' s) in if e then set_eof true (past t) t else t) /\
    healthy f' /\ file_bytes (fd s) = bs ++ file_bytes f' /\ zlen bs <= len /\
    (e = true -> f' = []) /\ (e = false -> zlen bs = len).
Proof.
  intros Hh Hl.
  destruct (load_loop_ok (S (length (fd s))) len [] s) as (ret & bs & f' & E & ? & ? & ? & ? & He & Hn);
    [done|zlia|lia|]. rewrite zlen_nil in *.
  exists bs, f', (ret =? 0). unfold gz_load. step. rewrite M_bind_eq, E. step. gzc.
  destruct (Z.ltb_spec ret 0); [lia|]. split_and!; try done.
  - destruct (Z.eqb_spec ret 0); done.
  - destruct (Z.eqb_spec ret 0); [auto|done].
  - destruct (Z.eqb_spec ret 0); [done|]. intros _. lia.
Qed.

(** ** Filling the input buffer *)
Lemma on_ibuf_ok m s i i' : ibuf s = Some i -> m i = Ok (tt, i') -> on_ibuf m s = Ok (tt, set_ibuf (Some i') s).
Proof. intros Hi Hm. unfold on_ibuf. step. rewrite Hi. step. rewrite M_bind_eq. unfold lift. by rewrite Hm. Qed.
Lemma on_out_ok m s o o' : out s = Some o -> m o = Ok (tt, o') -> on_out m s = Ok (tt, set_out (Some o') s).
Proof. intros Hi Hm. unfold on_out. step. rewrite Hi. step. rewrite M_bind_eq. unfold lift. by rewrite Hm. Qed.

Lemma overwrite_nil t off : overwrite t off [] = t.
Proof. unfold overwrite. rewrite zlen_nil, Z.add_0_r. apply ztake_zdrop. Qed.

Lemma put_in_ok off bs s i :
  ibuf s = Some i -> 0 <= off -> off + zlen bs <= zlen i ->
  put_in off bs s = Ok (tt, set_ibuf (Some (overwrite i off bs)) s).
Proof.
  intros Hi Ho Hl. unfold put_in. destruct (Z.eqb_spec (zlen bs) 0) as [E|].
  - apply zlen_nil_inv in E as ->. rewrite overwrite_nil. destruct s. gzc in Hi. by subst.
  - step. rewrite Hi. step. unfold write_buf. destruct (Z.leb_spec 0 off); [|lia].
    destruct (Z.leb_spec (off + zlen bs) (zlen i)); [|lia]. done.
Qed.

Lemma put_out_ok off bs s o :
  out s = Some o -> 0 <= off -> off + zlen bs <= zlen o ->
  put_out off bs s = Ok (tt, set_out (Some (overwrite o off bs)) s).
Proof.
  intros Hi Ho Hl. unfold put_out. destruct (Z.eqb_spec (zlen bs) 0) as [E|].
  - apply zlen_nil_inv in E as ->. rewrite overwrite_nil. destruct s. gzc in Hi. by subst.
  - step. rewrite Hi. step. unfold write_buf. destruct (Z.leb_spec 0 off); [|lia].
    destruct (Z.leb_spec (off + zlen bs) (zlen o)); [|lia]. done.
Qed.

Lemma gz_avail_ok s :
  calm s -> ready s -> avail_in s < gsize s ->
  exists t, gz_avail s = Ok (0, t) /\ refilled s t /\ healthy (fd t) /\ ready t /\ input t = input s /\
    (geof t = false -> avail_in t = gsize s) /\ (geof t = true -> t = s \/ fd t = []) /\
    avail_in s <= avail_in t.
Proof.
  intros (Hm & Hs & Hh) (i & o & z & Hi & Ho & Hz & Hli & Hlo & Hg & Hn & Ha & Hna) Hlt.
  unfold gz_avail. step. rewrite Hs. destruct (geof s) eqn:He.
  { exists s. split_and!; try done; [by destruct s|by exists i, o, z|congruence|auto]. }
  assert (Hc : (if negb (avail_in s =? 0) then on_ibuf (copy_up (Z.to_nat (avail_in s)) 0 (next_in s))
     else mret tt) s = Ok (tt, set_ibuf (Some (overwrite i 0 (slice (next_in s) (avail_in s) i))) s)).
  { destruct (Z.eqb_spec (avail_in s) 0) as [E|]; cbn [negb].
    - rewrite E. unfold slice. rewrite ztake_0, overwrite_nil. destruct s. gzc in Hi. by subst.
    - apply (on_ibuf_ok _ _ i); [done|]. rewrite copy_up_ok by lia. by rewrite Z2Nat.id by lia. }
  rewrite M_bind_eq, Hc. set (i1 := overwrite i 0 _).
  assert (Hl1 : zlen i1 = gsize s) by (unfold i1; rewrite zlen_overwrite; rewrite ?zlen_slice; lia).
  destruct (gz_load_ok (gsize s - avail_in s) (fun _ s => s) (set_ibuf (Some i1) s))
    as (bs & f' & e & E & Hh' & Hb & Hlb & Het & Hef); [done|lia|].
  gzc in E. rewrite M_bind_eq, E. gzc. pose proof (zlen_nonneg bs).
  set (t1 := if e then _ else _).
  assert (ibuf t1 = Some i1) by (unfold t1; by destruct e).
  erewrite M_bind_ok by (apply put_in_ok; [done|lia|lia]).
  destruct (Z.eqb_spec 0 (-1)); [lia|]. step. eexists. split; [done|].
  assert (Hin : slice 0 (avail_in s + zlen bs) (overwrite i1 (avail_in s) bs) =
                slice (next_in s) (avail_in s) i ++ bs).
  { rewrite slice_split by lia. f_equal; [|by apply slice_overwrite; lia].
    unfold slice at 1. rewrite zdrop_0. unfold overwrite at 1. rewrite ztake_app by zlia.
    unfold i1, overwrite. rewrite (ztake_0 i). simpl. apply ztake_app. zlia. }
  split_and!.
  - unfold refilled, t1. by destruct e.
  - unfold t1. by destruct e.
  - exists (overwrite i1 (avail_in s) bs), o, z. unfold t1. destruct e; gzc; split_and!; try done; zlia.
  - unfold input, in_avail, fd_avail. gzc. rewrite Hi, He.
    gzc in Hb. rewrite Hb. unfold t1. destruct e; gzc; rewrite Hin, <- app_assoc, ?He; [|done].
    by rewrite Het.
  - unfold t1. destruct e; gzc; [done|]. intros _. rewrite Hef by done. lia.
  - unfold t1. destruct e; gzc; [|congruence]. auto.
  - unfold t1. destruct e; gzc; lia.
Qed.

(** ** Decompression *)
Lemma refilled_strm s t : refilled s t -> strm_only s t /\ out t = out s /\ istrm t = istrm s /\ avail_out t = avail_out s.
Proof. intros E. unfold strm_only. rewrite E. done. Qed.

Lemma strm_only_trans s t u : strm_only s t -> strm_only t u -> strm_only s u.
Proof. unfold strm_only. intros E ->. gzc. rewrite E. done. Qed.

Lemma strm_only_calm s t : strm_only s t -> calm s -> healthy (fd t) -> calm t.
Proof. unfold calm, serious. intros E (? & ? & ?) ?. rewrite E. done. Qed.

Lemma input_split s i : ibuf s = Some i -> input s = slice (next_in s) (avail_in s) i ++ fd_avail s.
Proof. intros Hi. unfold input, in_avail. by rewrite Hi. Qed.

Lemma read_buf_ok l off n (s : gz_state) :
  0 <= off -> 0 <= n -> off + n <= zlen l -> read_buf l off n s = Ok (slice off n l, s).
Proof.
  intros. unfold read_buf. destruct (Z.leb_spec 0 off); [|lia]. destruct (Z.leb_spec 0 n); [|lia].
  destruct (Z.leb_spec (off + n) (zlen l)); [|lia]. done.
Qed.

Lemma slice_drop off n c l :
  0 <= off -> 0 <= c <= n -> off + n <= zlen l -> slice (off + c) (n - c) l = zdrop c (slice off n l).
Proof.
  intros. unfold slice. rewrite <- zdrop_zdrop by lia. unfold ztake, zdrop.
  rewrite skipn_firstn_comm. f_equal; lia.
Qed.

Lemma call_inflate_ok to_out off s z o rest :
  ready s -> istrm s = Some z -> Decodes z (input s) o rest -> 0 < avail_in s -> 0 < avail_out s ->
  0 <= off -> (to_out = true -> off + avail_out s <= 2 * gsize s) ->
  exists ret bs t, call_inflate to_out off s = Ok ((ret, bs), t) /\ strm_only s t /\ ready t /\
    fd t = fd s /\ zlen bs <= avail_out s /\ avail_out t = avail_out s - zlen bs /\
    (to_out = true -> out t = (fun l => overwrite l off bs) <$> out s) /\
    exists o', o = bs ++ o' /\
      ((ret = Z_STREAM_END /\ o' = [] /\ input t = rest) \/
       (ret = Z_OK /\ (exists z', istrm t = Some z' /\ Decodes z' (input t) o' rest) /\
        zlen (input t) + zlen o' < zlen (input s) + zlen o)).
Proof.
  intros (i & ob & z0 & Hi & Ho & Hz0 & Hli & Hlo & Hg & Hn & Ha & Hna) Hz HD Hai Hao Hoff Hto.
  assert (z0 = z) as -> by congruence. rewrite (input_split s i Hi) in HD |- *.
  set (p := slice (next_in s) (avail_in s) i) in *.
  assert (Hp : zlen p = avail_in s) by (unfold p; rewrite zlen_slice; lia).
  pose proof (inflate_step z p (fd_avail s) o rest (avail_out s) HD) as Hstep.
  unfold call_inflate. step. rewrite Hi. step. rewrite M_bind_eq, read_buf_ok by lia. fold p. rewrite Hz.
  destruct (inflate z p (avail_out s)) as [[[ret c] bs] z'] eqn:Ei.
  destruct Hstep as (Hc & Hbs & o' & Eo & Hcase); [intros E; rewrite E in Hp; zlia|done|].
  rewrite Hp in Hc. pose proof (zlen_nonneg bs).
  set (s1 := if to_out then set_out (Some (overwrite ob off bs)) s else s).
  assert (E1 : (if to_out then put_out off bs else mret tt) s = Ok (tt, s1)).
  { unfold s1. destruct to_out; [|done]. apply put_out_ok; [done|done|]. specialize (Hto eq_refl). lia. }
  rewrite M_bind_eq, E1. step. exists ret, bs.
  set (t := set_strm _ _ _ _ s1).
  assert (Hin : forall q, slice (next_in s + c) (avail_in s - c) i ++ q = zdrop c p ++ q)
    by (intros; f_equal; apply slice_drop; lia).
  assert (Ht : input t = zdrop c p ++ fd_avail s).
  { unfold t, s1, input, in_avail, fd_avail. destruct to_out; gzc; rewrite Hi; apply Hin. }
  exists t. split; [unfold t, s1; by destruct to_out|]. rewrite Ht.
  split; [unfold t, s1, strm_only; by destruct to_out|].
  split.
  { unfold t, s1. destruct to_out.
    - specialize (Hto eq_refl). exists i, (overwrite ob off bs), z'. gzc. split_and!; try done; zlia.
    - exists i, ob, z'. gzc. split_and!; try done; lia. }
  split; [unfold t, s1; by destruct to_out|]. split; [done|].
  split; [unfold t, s1; by destruct to_out|].
  split; [intros ->; unfold t, s1; gzc; by rewrite Ho|].
  exists o'. split; [done|]. destruct Hcase as [(-> & -> & ->)|(-> & HD' & Hpr)]; [by left|].
  right. split; [done|]. split; [exists z'; split; [unfold t, s1; by destruct to_out|done]|].
  rewrite Eo. assert (0 < c \/ 0 < zlen bs).
  { destruct Hpr as [|Hne]; [by left|]. right. destruct bs as [|b bs]; [done|]. pose proof (zlen_nonneg bs). rewrite zlen_cons. lia. }
  zlia.
Qed.

Lemma in_avail_len s : ready s -> zlen (in_avail s) = avail_in s.
Proof.
  intros (i & ? & ? & Hi & _ & _ & Hli & _ & ? & ? & ? & ?). unfold in_avail. rewrite Hi.
  apply zlen_slice; lia.
Qed.

(** After [gz_avail] there is input in the buffer unless there is none left. *)
Lemma avail_or_end s t :
  ready t -> 2 <= gsize s -> input t = input s -> (geof t = false -> avail_in t = gsize s) ->
  avail_in t < 2 -> geof t = true /\ input s = in_avail t.
Proof.
  intros Hr Hg Hin Hf Hlt. destruct (geof t) eqn:E; [|rewrite Hf in Hlt by done; lia].
  split; [done|]. rewrite <- Hin. unfold input, fd_avail. by rewrite E, app_nil_r.
Qed.

Lemma ready_gsize s : ready s -> 2 <= gsize s < 2 ^ 30 /\ 0 <= avail_in s.
Proof. intros (? & ? & ? & _ & _ & _ & _ & _ & ? & ? & ? & _). done. Qed.

Lemma in_code e l x : Forall (fun c => c <> x) l -> e = x -> forall c, c ∈ l -> (e =? c) = false.
Proof. intros Hl -> c Hc. rewrite Forall_forall in Hl. apply Hl in Hc. lia. Qed.

(** Neither [Z_OK] nor [Z_STREAM_END] is one of the error codes tested. *)
Lemma no_error_code ret :
  ret = Z_OK \/ ret = Z_STREAM_END ->
  ((ret =? Z_STREAM_ERROR) || (ret =? Z_NEED_DICT)) = false /\ (ret =? Z_MEM_ERROR) = false /\
  (ret =? Z_DATA_ERROR) = false.
Proof.
  intros Hr. destruct codes as (Hc & _). rewrite !Forall_cons in Hc.
  destruct Hc as (? & ? & ? & ? & _). destruct Hr; subst; repeat split; try apply orb_false_iff; lia.
Qed.

Lemma prepare_input_ok s :
  calm s -> ready s -> input s <> [] ->
  exists t, (if avail_in s =? 0 then gz_avail else mret 0) s = Ok (0, t) /\ refilled s t /\
    healthy (fd t) /\ ready t /\ input t = input s /\ 0 < avail_in t.
Proof.
  intros Hc Hr Hne. destruct (ready_gsize s Hr) as [Hg Ha].
  destruct (Z.eqb_spec (avail_in s) 0) as [E|].
  - destruct (gz_avail_ok s) as (t & Et & Hf & Hh & Hrt & Hin & Hfull & _ & _); [done|done|lia|].
    exists t. split_and!; try done. destruct (ready_gsize t Hrt) as [_ Hat].
    destruct (decide (avail_in t = 0)); [|lia]. exfalso.
    destruct (avail_or_end s t) as [_ E']; [done|lia|done|done|lia|].
    pose proof (in_avail_len t Hrt) as El. rewrite <- E' in El. apply Hne, zlen_nil_inv. lia.
  - exists s. split_and!; try done; [by destruct s|apply Hc|lia].
Qed.

Lemma Decodes_nonempty z I o rest : Decodes z I o rest -> I <> [].
Proof. intros HD ->. apply Decodes_shorter in HD. pose proof (zlen_nonneg rest). zlia. Qed.

Lemma decomp_loop_ok fuel to_out ret acc s z o rest :
  calm s -> ready s -> istrm s = Some z -> Decodes z (input s) o rest -> 0 < avail_out s ->
  (to_out = true -> zlen acc + avail_out s <= 2 * gsize s /\ slice 0 (zlen acc) (default [] (out s)) = acc) ->
  zlen (input s) + zlen o < Z.of_nat fuel ->
  exists ret' bs t, decomp_loop fuel to_out ret acc s = Ok (Some (ret', acc ++ bs), t) /\
    strm_only s t /\ calm t /\ ready t /\ avail_out t = avail_out s - zlen bs /\
    zlen bs <= avail_out s /\
    (to_out = true -> slice 0 (zlen (acc ++ bs)) (default [] (out t)) = acc ++ bs) /\
    exists o', o = bs ++ o' /\ zlen (input t) + zlen o' <= zlen (input s) + zlen o /\
      ((ret' = Z_STREAM_END /\ o' = [] /\ input t = rest) \/
       (ret' = Z_OK /\ avail_out t = 0 /\ exists z', istrm t = Some z' /\ Decodes z' (input t) o' rest)).
Proof.
  revert ret acc s z o. induction fuel as [|fuel IH]; intros ret acc s z o Hc Hr Hz HD Hao Hto Hf.
  { pose proof (zlen_nonneg (input s)). pose proof (zlen_nonneg o). lia. }
  destruct (prepare_input_ok s) as (s1 & E1 & Hf1 & Hh1 & Hr1 & Hin1 & Ha1);
    [done|done|by eapply Decodes_nonempty|].
  apply refilled_strm in Hf1 as (Hso1 & Ho1 & Hz1 & Hao1).
  assert (Hg1 : gsize s1 = gsize s) by by rewrite Hso1.
  assert (Hc1 : calm s1) by by eapply strm_only_calm.
  rewrite <- Hin1 in HD, Hf. rewrite <- Hz1 in Hz.
  cbn [decomp_loop]. step. rewrite M_bind_eq, E1. destruct (Z.eqb_spec 0 (-1)); [lia|].
  step. destruct (Z.eqb_spec (avail_in s1) 0); [lia|].
  destruct (call_inflate_ok to_out (zlen acc) s1 z o rest) as
    (ret2 & bs & t & E2 & Hso2 & Hr2 & Hfd2 & Hlb & Hao2 & Hout2 & o' & Eo & Hcase);
    [done|done|done|done|lia|apply zlen_nonneg|rewrite Hg1, Hao1; intros; by apply Hto|].
  rewrite M_bind_eq, E2. cbn beta iota.
  assert (Hc2 : calm t) by (eapply strm_only_calm; [done|done|by rewrite Hfd2]).
  destruct (no_error_code ret2) as (-> & -> & ->); [naive_solver|]. step.
  assert (Hs2 : to_out = true -> slice 0 (zlen (acc ++ bs)) (default [] (out t)) = acc ++ bs).
  { intros Ht. destruct (Hto Ht) as [Hle Hsl]. rewrite (Hout2 Ht), Ho1.
    destruct Hr as (_ & ob & _ & _ & Hob & _ & _ & Hlo & _). rewrite Hob in Hsl |- *. simpl in *.
    pose proof (zlen_nonneg bs). pose proof (zlen_nonneg acc).
    rewrite zlen_app, slice_split, slice_overwrite by lia. f_equal.
    transitivity (slice 0 (zlen acc) ob); [|done]. unfold slice, overwrite. rewrite !zdrop_0. apply ztake_app. zlia. }
  destruct Hcase as [(-> & -> & Hin2)|(-> & (z' & Hz2 & HD2) & Hlt)].
  - rewrite Z.eqb_refl, andb_false_r. eexists _, bs, t. split_and!; try done; [by eapply strm_only_trans|lia..|].
    exists []. split; [done|]. apply Decodes_shorter in HD. rewrite Hin1 in HD.
    rewrite Hin2, Eo.
    pose proof (zlen_nonneg (bs ++ [])). split; [zlia|]. by left.
  - destruct (Z.eqb_spec Z_OK Z_STREAM_END) as [Ec|_]; [by apply codes in Ec|]. rewrite andb_true_r.
    destruct (Z.eqb_spec (avail_out t) 0) as [Ez|]; cbn [negb].
    + eexists _, bs, t. split_and!; try done; [by eapply strm_only_trans|lia..|].
      exists o'. split; [done|]. rewrite Hin1 in *. split; [lia|]. right. eauto.
    + assert (Hg2 : gsize t = gsize s1) by by rewrite Hso2.
      destruct (IH Z_OK (acc ++ bs) t z' o') as
        (ret3 & bs3 & u & E3 & Hso3 & Hc3 & Hr3 & Hao3 & Hlb3 & Hs3 & o3 & Eo3 & Hle3 & Hcase3); try done.
      * lia.
      * intros Ht. destruct (Hto Ht) as [Hle _]. split; [zlia|by apply Hs2].
      * lia.
      * exists ret3, (bs ++ bs3), u. rewrite app_assoc.
        split_and!; try done; [by do 2 (eapply strm_only_trans; [done|])|zlia|zlia|].
        exists o3. split; [by rewrite Eo, Eo3, app_assoc|]. rewrite Hin1 in *. split; [lia|done].
Qed.

Lemma gz_decomp_ok fuel to_out s raw k :
  calm s -> ready s -> how s = GZIP -> raw_ok s raw k -> 0 < avail_out s ->
  (to_out = true -> avail_out s = 2 * gsize s) -> work s raw < Z.of_nat fuel ->
  exists bs t raw' k', gz_decomp fuel to_out s = Ok ((0, bs), t) /\ kept s t /\ calm t /\ ready t /\
    gsize t = gsize s /\ x_have t = zlen bs /\ x_next t = (if to_out then Some 0 else None) /\
    zlen bs <= avail_out s /\ (to_out = true -> slice 0 (zlen bs) (default [] (out t)) = bs) /\
    raw = bs ++ raw' /\ raw_ok t raw' k' /\ work t raw' <= work s raw /\ k' <= k /\
    ((how t = LOOK /\ k' < k) \/ zlen bs = avail_out s).
Proof.
  intros Hc Hr Hh Hraw Hao Hto Hf. unfold raw_ok in Hraw. rewrite Hh in Hraw.
  destruct Hraw as (Hd & z & o & rest & d & Hz & HD & HM & -> & Hk).
  pose proof (zlen_nonneg d). unfold work in *.
  destruct (decomp_loop_ok fuel to_out Z_OK [] s z o rest) as
    (ret & bs & t & E & Hso & Hct & Hrt & Haot & Hlb & Hs & o' & -> & Hle & Hcase); try done.
  { intros Ht. rewrite Hto by done. split; [rewrite zlen_nil; lia|done]. }
  { zlia. }
  unfold gz_decomp. step. rewrite M_bind_eq, E. step. simpl app in *.
  replace (avail_out s - avail_out t) with (zlen bs) by lia.
  assert (Hht : how t = GZIP) by (rewrite Hso; done).
  assert (Hdt : direct t = false) by (rewrite Hso; done).
  assert (Hct' : forall h, calm (set_how h (direct t) t)) by (intros; exact Hct).
  assert (Hrt' : forall h, ready (set_how h (direct t) t)) by (intros; exact Hrt).
  destruct Hcase as [(-> & -> & Hin)|(-> & Ha0 & z' & Hz' & HD')].
  - rewrite Z.eqb_refl. step. rewrite app_nil_r in *.
    eexists bs, _, d, (2 * zlen rest). split; [done|].
    split; [unfold kept; gzc; by rewrite Hso|]. split; [exact Hct|]. split; [exact Hrt|].
    split_and!; try done; [gzc; by rewrite Hso| |unfold work, input, in_avail, fd_avail in *; gzc; zlia|lia|by left; split; [|lia]].
    unfold raw_ok. gzc. change (input _) with (input t). rewrite Hin, Hdt. done.
  - destruct (Z.eqb_spec Z_OK Z_STREAM_END) as [Ec|_]; [by apply codes in Ec|]. step.
    eexists bs, _, (o' ++ d), (2 * zlen rest + 1). split; [done|].
    split; [unfold kept; gzc; by rewrite Hso|]. split; [exact Hct|]. split; [exact Hrt|].
    split_and!; try done; [gzc; by rewrite Hso|by rewrite app_assoc| | |lia|right; lia].
    + unfold raw_ok. gzc. change (input _) with (input t). rewrite Hht, Hdt. eauto 10.
    + change (input (set_x _ _ _ _)) with (input t). zlia.
Qed.

(** ** Looking for a header *)
Lemma magic_nil : magic [] = false.
Proof. done. Qed.

Lemma Members_not_magic I raw : magic I = false -> Members I raw -> raw = [].
Proof. intros Hm HM. inversion HM; congruence. Qed.

Lemma raw_ok_look s t raw k :
  how s = LOOK -> how t = LOOK -> direct t = direct s -> input t = input s ->
  (geof t = true -> t = s \/ fd t = []) -> raw_ok s raw k -> raw_ok t raw k.
Proof.
  unfold raw_ok. intros -> -> -> -> Hg (Hk & He & Hr). split_and!; [done| |done].
  intros Hd Ht. destruct (Hg Ht) as [->|]; auto.
Qed.

(** The input is exhausted: so is what it stands for. *)
Lemma raw_ok_end s raw k : raw_ok s raw k -> ready s -> geof s = true -> avail_in s = 0 -> raw = [].
Proof.
  intros Hraw Hr He Ha.
  assert (Hin : input s = []).
  { unfold input, fd_avail. rewrite He, app_nil_r. apply zlen_nil_inv. by rewrite in_avail_len. }
  unfold raw_ok in Hraw. rewrite Hin in Hraw. destruct (how s).
  - destruct Hraw as (_ & _ & Hraw). rewrite magic_nil in Hraw. destruct (direct s); simpl in Hraw; [done|].
    by apply Members_not_magic in Hraw.
  - naive_solver.
  - destruct Hraw as (_ & z & o & rest & d & _ & HD & _). by apply Decodes_nonempty in HD.
Qed.

Lemma look_alloc_ok s :
  fresh s -> calm s -> exists t, look_alloc s = Ok (0, t) /\ kept s t /\ calm t /\ ready t /\
    input t = input s /\ how t = LOOK /\ direct t = direct s /\ x_have t = 0 /\ fd t = fd s /\
    geof t = geof s.
Proof.
  intros (Hg & Hx & Ha & Hn & Hh & Hd & Hw & Hm1 & Hm2 & Hi & Hb & Ho) Hc.
  unfold look_alloc. step. rewrite twice_ok by lia. rewrite Hm1, Hm2. cbn [negb orb]. step. step.
  destruct inflateInit2 as [z|] eqn:Ei; [|done].
  eexists. split; [done|]. split_and!; try done.
  - eexists _, _, z. gzc. split_and!; try done; try lia; rewrite zlen_replicate; lia.
  - unfold input, in_avail, fd_avail. gzc. rewrite Hb. done.
Qed.

Lemma prepare_two_ok s :
  calm s -> ready s ->
  exists t, (if avail_in s <? 2 then gz_avail else mret 0) s = Ok (0, t) /\ refilled s t /\
    healthy (fd t) /\ ready t /\ input t = input s /\ avail_in s <= avail_in t /\
    (geof t = true -> t = s \/ fd t = []) /\
    (avail_in t < 2 -> geof t = true /\ input t = in_avail t).
Proof.
  intros Hc Hr. destruct (ready_gsize s Hr) as [Hg Ha]. destruct (Z.ltb_spec (avail_in s) 2).
  - destruct (gz_avail_ok s) as (t & Et & Hf & Hh & Hrt & Hin & Hfull & Hfd & Hle); [done|done|lia|].
    exists t. split_and!; try done. intros. rewrite Hin. apply (avail_or_end s t); try done; lia.
  - exists s. split_and!; try done; try lia; [by destruct s|apply Hc|by left].
Qed.

Lemma is_magic_ok s :
  ready s -> (avail_in s < 2 -> geof s = true /\ input s = in_avail s) -> is_magic s = Ok (magic (input s), s).
Proof.
  intros Hr Hlt. pose proof (in_avail_len s Hr) as Hl.
  destruct Hr as (i & ob & z & Hi & Ho & Hz & Hli & Hlo & Hg & Hn & Ha & Hna).
  unfold is_magic. step. destruct (Z.gtb_spec (avail_in s) 1).
  - rewrite Hi. step. rewrite M_bind_eq, read_buf_ok by lia. cbn [mret M_ret]. do 2 f_equal.
    unfold magic. rewrite (input_split s i Hi).
    replace (avail_in s) with (2 + (avail_in s - 2)) by lia.
    rewrite slice_split, <- app_assoc by lia. rewrite ztake_app; [done|]. apply zlen_slice; lia.
  - destruct Hlt as [_ ->]; [lia|]. cbv [mret M_ret]. do 2 f_equal. unfold magic.
    symmetry. apply bool_decide_eq_false. intros E.
    assert (zlen (ztake 2 (in_avail s)) = 2) as E2 by by rewrite E.
    rewrite ztake_all in E2 by lia. lia.
Qed.

Lemma start_copy_ok s :
  ready s -> 0 < avail_in s ->
  exists o', start_copy s = Ok (0, set_how COPY true (set_strm (next_in s) 0 (avail_out s) (istrm s)
      (set_x (avail_in s) (Some 0) (x_pos s) (set_out (Some o') s)))) /\
    zlen o' = 2 * gsize s /\ slice 0 (avail_in s) o' = in_avail s.
Proof.
  intros Hr Ha0. pose proof (in_avail_len s Hr) as Hl.
  destruct Hr as (i & ob & z & Hi & Ho & Hz & Hli & Hlo & Hg & Hn & Ha & Hna).
  exists (overwrite ob 0 (in_avail s)). unfold start_copy. step. step. gzc.
  destruct (Z.eqb_spec (avail_in s) 0); [lia|]. cbn [negb].
  assert (E : in_avail s = slice (next_in s) (avail_in s) i) by (unfold in_avail; by rewrite Hi).
  step. rewrite Hi. step. rewrite M_bind_eq, read_buf_ok by lia.
  rewrite <- E. rewrite M_bind_eq, (put_out_ok _ _ _ ob) by (try done; lia).
  do 2 step. split; [done|]. split; [zlia|]. rewrite <- Hl. apply slice_overwrite; lia.
Qed.

Lemma kept_refilled s t : refilled s t -> kept s t.
Proof. intros E. unfold kept. by rewrite E. Qed.

Lemma kept_trans s t u : kept s t -> kept t u -> kept s u.
Proof. unfold kept. intuition congruence. Qed.

Lemma kept_refl s : kept s s.
Proof. done. Qed.

(** The header test on a state with its input prepared. *)
Lemma gz_classify_ok s raw k :
  calm s -> ready s -> how s = LOOK -> x_have s = 0 -> raw_ok s raw k -> 0 < avail_in s ->
  (avail_in s < 2 -> geof s = true /\ input s = in_avail s) ->
  exists t raw' k', (m ← is_magic; if (m : bool) then start_gzip
      else if negb (direct s) then drop_garbage else start_copy) s = Ok (0, t) /\
    kept s t /\ calm t /\ ready t /\ out_ok t /\
    raw = out_avail t ++ raw' /\ raw_ok t raw' k' /\ work t raw' <= work s raw /\ k' <= k /\
    direct t = direct s && negb (magic (input s)) /\
    ((how t = LOOK /\ x_have t = 0 /\ geof t = true /\ avail_in t = 0) \/
     (how t = COPY /\ 0 < x_have t) \/
     (how t = GZIP /\ x_have t = 0 /\ k' < k)).
Proof.
  intros Hc Hr Hh Hx Hraw Ha Hlt. rewrite M_bind_eq, is_magic_ok by done.
  pose proof (in_avail_len s Hr) as Hl.
  unfold raw_ok in Hraw. rewrite Hh in Hraw. destruct Hraw as (-> & Hfd & Hraw).
  assert (Hoa : forall t, x_have t = 0 -> out_avail t = []).
  { intros t Ht. unfold out_avail. destruct (out t), (x_next t); try done. by rewrite Ht. }
  destruct (magic (input s)) eqn:Em.
  - rewrite andb_false_r in Hraw. inversion Hraw as [|I o rest D Em' HD HM]; [congruence|]. subst.
    unfold start_gzip. do 2 step. eexists _, (o ++ D), (2 * zlen rest + 1). split; [done|].
    split; [done|]. split; [exact Hc|].
    split.
    { destruct Hr as (i & ob & z & Hi & Ho & Hz & Hr). exists i, ob, (inflateReset z).
      gzc. rewrite Hz. done. }
    split; [by left|]. split; [by rewrite Hoa|].
    destruct Hr as (i & ob & z & Hi & Ho & Hz & Hr).
    pose proof (Decodes_shorter _ _ _ _ (HD z)).
    split; [|split; [done|split; [lia|split; [by rewrite andb_false_r|]]]].
    + unfold raw_ok. gzc. split; [done|]. exists (inflateReset z), o, rest, D. rewrite Hz.
      split_and!; try done.
    + right. right. split_and!; [done|exact Hx|lia].
  - rewrite andb_true_r in Hraw. destruct (direct s) eqn:Ed; cbn [negb].
    + destruct (start_copy_ok s Hr Ha) as (o' & E & Hlo & Hsl). rewrite E. rewrite Hraw in *.
      eexists _, (fd_avail s), 0. split; [done|]. split; [done|]. split; [exact Hc|].
      destruct Hr as (i & ob & z & Hi & Ho & Hz & Hli & Hlo' & Hg & Hn & Ha' & Hna).
      split; [exists i, o', z; gzc; split_and!; try done; lia|].
      split; [right; exists 0; gzc; split_and!; try done; lia|].
      split; [unfold out_avail; gzc; by rewrite Hsl|].
      assert (Hin : forall h, input (set_how h true (set_strm (next_in s) 0 (avail_out s) (istrm s)
          (set_x (avail_in s) (Some 0) (x_pos s) (set_out (Some o') s)))) = fd_avail s).
      { intros. unfold input, in_avail, fd_avail. gzc. rewrite Hi. done. }
      pose proof (zlen_nonneg (input s)).
      split; [|split; [|split; [lia|split; [done|]]]].
      * unfold raw_ok. rewrite Hin. gzc. split_and!; auto.
      * unfold work. rewrite Hin. unfold input. rewrite zlen_app. lia.
      * right. left. done.
    + apply Members_not_magic in Hraw as ->; [|done]. unfold drop_garbage. do 2 step.
      eexists _, [], 0. split; [done|]. split; [done|]. split; [exact Hc|].
      destruct Hr as (i & ob & z & Hi & Ho & Hz & Hli & Hlo' & Hg & Hn & Ha' & Hna).
      split; [exists i, ob, z; gzc; split_and!; try done; lia|].
      split; [by left|]. split; [by rewrite Hoa|].
      assert (Hin : input (set_have 0 (set_eof true (past (set_strm (next_in s) 0 (avail_out s) (istrm s) s))
         (set_strm (next_in s) 0 (avail_out s) (istrm s) s))) = []).
      { unfold input, in_avail, fd_avail. gzc. rewrite Hi. done. }
      pose proof (zlen_nonneg (input s)).
      split; [|split; [|split; [lia|split; [done|]]]].
      * unfold raw_ok. rewrite Hin. gzc. rewrite Hh, Ed. split_and!; [done|done|by constructor].
      * unfold work. rewrite Hin, zlen_nil. lia.
      * by left.
Qed.

(** [gz_look] classifies the input, and delivers what it copies. *)
Lemma gz_look_ok s raw k :
  calm s -> ready s \/ fresh s -> how s = LOOK -> x_have s = 0 -> raw_ok s raw k ->
  exists t raw' k', gz_look s = Ok (0, t) /\ kept s t /\ calm t /\ ready t /\ out_ok t /\
    raw = out_avail t ++ raw' /\ raw_ok t raw' k' /\ work t raw' <= work s raw /\ k' <= k /\
    direct t = direct s && negb (magic (input s)) /\
    ((how t = LOOK /\ x_have t = 0 /\ geof t = true /\ avail_in t = 0) \/
     (how t = COPY /\ 0 < x_have t) \/
     (how t = GZIP /\ x_have t = 0 /\ k' < k)).
Proof.
  intros Hc Hrf Hh Hx Hraw. unfold gz_look. step.
  assert (exists s1, (if gsize s =? 0 then look_alloc else mret 0) s = Ok (0, s1) /\ kept s s1 /\
    calm s1 /\ ready s1 /\ input s1 = input s /\ how s1 = LOOK /\ direct s1 = direct s /\
    x_have s1 = 0 /\ fd s1 = fd s /\ geof s1 = geof s)
    as (s1 & E1 & Hk1 & Hc1 & Hr1 & Hin1 & Hh1 & Hd1 & Hx1 & Hfd1 & He1).
  { destruct Hrf as [Hr|Hf].
    - destruct (ready_gsize s Hr). destruct (Z.eqb_spec (gsize s) 0); [lia|]. by exists s.
    - destruct (Z.eqb_spec (gsize s) 0) as [|Hn]; [by apply look_alloc_ok|]. by destruct Hf. }
  rewrite M_bind_eq, E1. destruct (Z.eqb_spec 0 (-1)) as [|_]; [lia|]. step.
  destruct (prepare_two_ok s1) as (t & E2 & Hf2 & Hh2 & Hr2 & Hin2 & Hle2 & Hfd2 & Hlt2); [done|done|].
  rewrite M_bind_eq, E2. destruct (Z.eqb_spec 0 (-1)) as [|_]; [lia|]. step.
  assert (Hc2 : calm t) by (eapply strm_only_calm; [by apply refilled_strm|done|done]).
  assert (Hk2 : kept s t) by (eapply kept_trans; [done|by apply kept_refilled]).
  assert (how t = LOOK) by by rewrite Hf2.
  assert (x_have t = 0) by by rewrite Hf2.
  assert (Hraw1 : raw_ok s1 raw k).
  { unfold raw_ok in Hraw |- *. by rewrite Hh1, Hin1, Hd1, Hfd1, He1; rewrite Hh in Hraw. }
  assert (Hraw2 : raw_ok t raw k).
  { eapply (raw_ok_look s1); try done. by rewrite Hf2. }
  assert (Hdt : direct t = direct s) by (rewrite <- Hd1; by rewrite Hf2).
  assert (Hw : forall r, work t r = work s r) by (intros; unfold work; congruence).
  destruct (ready_gsize t Hr2) as [_ Ha2].
  destruct ((avail_in s1 <? 2) && (avail_in t =? 0)) eqn:Eb.
  - apply andb_true_iff in Eb as [_ Eb%Z.eqb_eq].
    destruct Hlt2 as [He Hin]; [lia|].
    assert (E0 : input s = []).
    { rewrite <- Hin1, <- Hin2, Hin. apply zlen_nil_inv. by rewrite in_avail_len. }
    exists t, raw, k. split; [done|].
    split_and!; try done; [by left| |by rewrite Hw|by rewrite Hdt, E0, magic_nil, andb_true_r|by left].
    unfold out_avail. destruct (out t), (x_next t); try done. by rewrite H0.
  - assert (0 < avail_in t).
    { apply andb_false_iff in Eb as [Eb%Z.ltb_ge|Eb%Z.eqb_neq]; lia. }
    destruct (gz_classify_ok t raw k) as (u & raw' & k' & E & Hk & Hrest); try done.
    exists u, raw', k'. split; [exact E|]. split; [by eapply kept_trans|].
    by rewrite <- (Hw raw), <- Hdt, <- Hin1, <- Hin2.
Qed.

(** ** Fetching *)
Lemma out_avail_nil s : x_have s = 0 -> out_avail s = [].
Proof. intros E. unfold out_avail. destruct (out s), (x_next s); try done. by rewrite E. Qed.

Lemma out_avail_start s n :
  ready s -> x_next s = Some 0 -> x_have s = n -> out_avail s = slice 0 n (default [] (out s)).
Proof.
  intros (i & ob & z & _ & Ho & _) Hx <-. unfold out_avail. by rewrite Ho, Hx.
Qed.

Lemma fetch_copy_ok s raw k :
  calm s -> ready s -> how s = COPY -> x_have s = 0 -> raw_ok s raw k ->
  exists t raw', (r ← gz_load (twice (gsize s)) set_have; put_out 0 r.2 ;;
      if r.1 =? -1 then mret (-1) else
      modS (fun s => set_x (x_have s) (Some 0) (x_pos s) s) ;; mret 0) s = Ok (0, t) /\
    kept s t /\ calm t /\ ready t /\ out_ok t /\ raw = out_avail t ++ raw' /\ raw_ok t raw' k /\
    work t raw' <= work s raw /\ (x_have t = 0 -> geof t = true /\ avail_in t = 0 /\ raw' = []).
Proof.
  intros (Hm & Hs & Hh) Hr Hhow Hx Hraw. unfold raw_ok in Hraw. rewrite Hhow in Hraw.
  destruct Hraw as (-> & Hd & Ha & -> & Hef).
  destruct Hr as (i & ob & z & Hi & Ho & Hz & Hli & Hlo & Hg & Hn & Ha' & Hna).
  rewrite twice_ok by lia.
  destruct (gz_load_ok (2 * gsize s) set_have s) as (bs & f' & e & E & Hh' & Hb & Hlb & Het & Hef');
    [done|lia|].
  rewrite M_bind_eq, E. cbn zeta. gzc. set (t1 := if e then _ else _).
  pose proof (zlen_nonneg bs).
  assert (out t1 = Some ob) by (unfold t1; destruct e; done).
  rewrite M_bind_eq, (put_out_ok 0 bs t1 ob) by (try done; lia).
  destruct (Z.eqb_spec 0 (-1)) as [|_]; [lia|]. step.
  assert (Hin : input s = bs ++ file_bytes f').
  { unfold input, in_avail, fd_avail. rewrite Hi, Ha. unfold slice at 1. rewrite ztake_0. simpl.
    destruct (geof s) eqn:Eg; [|done]. rewrite <- Hb. by rewrite Hef. }
  set (t2 := set_x (x_have t1) (Some 0) (x_pos t1) (set_out (Some (overwrite ob 0 bs)) t1)).
  exists t2, (file_bytes f'). split; [done|].
  assert (Hk : kept s t1) by (unfold t1; destruct e; done). split; [exact Hk|].
  split; [unfold t1; destruct e; done|].
  assert (Hrt : ready t2).
  { exists i, (overwrite ob 0 bs), z. unfold t2, t1; destruct e; gzc; split_and!; try done; zlia. }
  split; [done|].
  assert (Hxt : x_have t1 = zlen bs) by (unfold t1; by destruct e).
  assert (Hgt : gsize t1 = gsize s) by (unfold t1; by destruct e).
  split.
  { unfold out_ok, t2. gzc. rewrite Hxt, Hgt. destruct (decide (zlen bs = 0)); [by left|].
    right. exists 0. split_and!; [done|lia..]. }
  split.
  { rewrite (out_avail_start _ (zlen bs)) by done. unfold t2. gzc. simpl. by rewrite slice_overwrite by lia. }
  assert (Hint : input t2 = file_bytes f').
  { unfold input, in_avail, fd_avail, t2, t1. destruct e; gzc; rewrite Hi, Ha; unfold slice; rewrite ztake_0; simpl.
    - by rewrite Het.
    - destruct (geof s) eqn:Eg; [|done]. rewrite Hef in Hb by done.
      symmetry in Hb. apply app_eq_nil in Hb as [_ Hb]. done. }
  split; [|split].
  - unfold raw_ok. rewrite Hint. unfold t2, t1; destruct e; gzc; rewrite Hhow, Hd, Ha; split_and!; auto.
    intros Eg. rewrite Hef in Hb by done. symmetry in Hb. apply app_eq_nil in Hb as [-> Hb].
    rewrite zlen_nil in Hef'. specialize (Hef' eq_refl). lia.
  - unfold work. rewrite Hint, Hin. zlia.
  - unfold t2. gzc. rewrite Hxt. intros E0. destruct e; [|rewrite Hef' in E0 by done; lia].
    unfold t1. gzc. by rewrite Het.
Qed.

Lemma gz_fetch_ok fuel s raw k :
  calm s -> ready s \/ fresh s -> x_have s = 0 -> raw_ok s raw k -> 0 <= k ->
  k + work s raw < Z.of_nat fuel ->
  exists t raw' k', gz_fetch fuel s = Ok (0, t) /\ kept s t /\ calm t /\ ready t /\ out_ok t /\
    raw = out_avail t ++ raw' /\ raw_ok t raw' k' /\ work t raw' <= work s raw /\ k' <= k /\
    (x_have t = 0 -> geof t = true /\ avail_in t = 0 /\ raw' = []).
Proof.
  revert s raw k. induction fuel as [|fuel IH]; intros s raw k Hc Hrf Hx Hraw Hk Hf.
  { unfold work in Hf. pose proof (zlen_nonneg (input s)). pose proof (zlen_nonneg raw). lia. }
  cbn [gz_fetch]. step. destruct (how s) eqn:Hh.
  - destruct (gz_look_ok s raw k) as (t & raw1 & k1 & E & Hkt & Hct & Hrt & Hot & -> & Hraw1 & Hw & Hkk & _ & Hcase); try done.
    rewrite M_bind_eq, E. destruct (Z.eqb_spec 0 (-1)) as [|_]; [lia|]. step.
    destruct Hcase as [(Hht & Hxt & Het & Hat)|[(Hht & Hxt)|(Hht & Hxt & Hlt)]]; rewrite Hht;
      [rewrite decide_True by done|rewrite decide_False by done; step..].
    + exists t, raw1, k1. split_and!; try done. intros _. split_and!; try done. by eapply raw_ok_end.
    + destruct (Z.eqb_spec (x_have t) 0); [lia|]. exists t, raw1, k1. split_and!; try done; lia.
    + rewrite Hxt. simpl. rewrite (out_avail_nil t Hxt) in *. simpl in *.
      destruct (negb (geof t) || negb (avail_in t =? 0)) eqn:Eb.
      * assert (0 <= k1).
        { unfold raw_ok in Hraw1. rewrite Hht in Hraw1. destruct Hraw1 as (_ & z & o & rest & d & Hraw1).
          pose proof (zlen_nonneg rest). lia. }
        destruct (IH t raw1 k1) as (u & raw2 & k2 & E2 & Hku & Hcu & Hru & Hou & Hr2 & Hraw2 & Hwu & Hkk2 & Hend);
          try done; [by left|lia|].
        exists u, raw2, k2. split_and!; try done; [by eapply kept_trans|lia..].
      * apply orb_false_iff in Eb as [Eb1%negb_false_iff Eb2%negb_false_iff]. apply Z.eqb_eq in Eb2.
        exists t, raw1, k1. rewrite (out_avail_nil t Hxt). split_and!; try done. intros _.
        split_and!; try done. by eapply raw_ok_end.
  - destruct Hrf as [Hr|Hf']; [|by destruct Hf' as (_ & _ & _ & _ & ? & _); congruence].
    destruct (fetch_copy_ok s raw k) as (t & raw' & E & Hrest); try done.
    exists t, raw', k. split; [exact E|]. naive_solver lia.
  - destruct Hrf as [Hr|Hf']; [|by destruct Hf' as (_ & _ & _ & _ & ? & _); congruence].
    destruct (ready_gsize s Hr) as [Hg _]. step. rewrite twice_ok by lia.
    set (s1 := set_strm _ _ _ _ s).
    destruct (gz_decomp_ok (S fuel) true s1 raw k) as
      (bs & t & raw1 & k1 & E & Hkt & Hct & Hrt & Hgt & Hxt & Hnt & Hlb & Hsl & -> & Hraw1 & Hw & Hkk & Hcase);
      try done; [unfold s1; gzc; lia| |].
    { change (work s1 raw) with (work s raw). lia. }
    change (gsize s1) with (gsize s) in Hgt. change (avail_out s1) with (2 * gsize s) in *.
    change (work s1 _) with (work s (bs ++ raw1)) in Hw.
    rewrite M_bind_eq, E. cbn [fst snd]. destruct (Z.eqb_spec 0 (-1)) as [|_]; [lia|]. step.
    pose proof (zlen_nonneg bs). assert (Hoa : out_avail t = bs).
    { rewrite (out_avail_start t (zlen bs)) by done. by apply Hsl. }
    assert (Hot : out_ok t).
    { unfold out_ok. rewrite Hxt, Hgt. destruct (decide (zlen bs = 0)); [by left|].
      right. exists 0. split_and!; [done|lia..]. }
    assert (Hdone : 0 < zlen bs \/ (geof t = true /\ avail_in t = 0) -> exists t' raw' k',
      (mret 0 : M gz_state cfault Z) t = Ok (0, t') /\ kept s t' /\ calm t' /\ ready t' /\ out_ok t' /\
      bs ++ raw1 = out_avail t' ++ raw' /\ raw_ok t' raw' k' /\ work t' raw' <= work s (bs ++ raw1) /\ k' <= k /\
      (x_have t' = 0 -> geof t' = true /\ avail_in t' = 0 /\ raw' = [])).
    { intros Hor. exists t, raw1, k1. rewrite Hoa. split_and!; try done. intros Hx0.
      destruct Hor as [?|[? ?]]; [lia|]. split_and!; try done. by eapply raw_ok_end. }
    destruct (Z.eqb_spec (x_have t) 0) as [Hx0|]; [|apply Hdone; lia]. simpl.
    destruct (negb (geof t) || negb (avail_in t =? 0)) eqn:Eb.
    + destruct Hcase as [(Hht & Hlt)|]; [|lia]. rewrite Hxt in Hx0. apply zlen_nil_inv in Hx0 as ->.
      simpl in *. assert (0 <= k1).
      { unfold raw_ok in Hraw1. rewrite Hht in Hraw1. pose proof (zlen_nonneg (input t)). lia. }
      destruct (IH t raw1 k1) as (u & raw2 & k2 & E2 & Hku & Hcu & Hru & Hou & Hr2 & Hraw2 & Hwu & Hkk2 & Hend);
        try done; [by left|lia|].
      exists u, raw2, k2. split_and!; try done; [by eapply kept_trans|lia..].
    + apply orb_false_iff in Eb as [Eb1%negb_false_iff Eb2%negb_false_iff]. apply Z.eqb_eq in Eb2.
      apply Hdone. by right.
Qed.

End proofs.
