(* ===== verification/GzStream.v ===== *)
(** * zlib's gzread.c: the public calls on the decoded stream

    The abstract file is the list [D] of the bytes still to be delivered
    ([Stream]): [gzread], [gzgetc], [gzgets] and a pending seek take bytes
    from its front, [gzungetc] puts one back. *)
From S2P Require Import Prelude GzRead GzReadProofs.
Open Scope Z_scope.

Section theorems.
Context `{HZ : Zlib} `{HL : !ZlibLaws}.

(** [Stream] with the parts of the delivered list apart. *)
Definition Str (s : gz_state) (raw : list Z) (k : Z) : Prop :=
  calm s /\ out_ok s /\ (ready s \/ fresh s) /\ raw_ok s raw k.

(** Calls of the public functions keep these. *)
Definition kept_io (s t : gz_state) : Prop :=
  gmode t = gmode s /\ seek t = seek s /\ skip t = skip s /\ gerr t = gerr s.

(** Whether another fetch is possible. *)
Definition flag (s : gz_state) : Z :=
  if (x_have s =? 0) && negb (geof s && (avail_in s =? 0)) then 1 else 0.

Lemma Str_bound s raw k : Str s raw k -> 0 <= k <= 2 * zlen (input s).
Proof.
  intros (_ & _ & _ & Hraw). unfold raw_ok in Hraw. pose proof (zlen_nonneg (input s)).
  destruct (how s); [lia|lia|]. destruct Hraw as (_ & z & o & rest & d & _ & HD & _ & _ & ->).
  apply Decodes_shorter in HD. pose proof (zlen_nonneg rest). lia.
Qed.

Lemma out_avail_len s : out_ok s -> ready s \/ fresh s -> zlen (out_avail s) = x_have s.
Proof.
  intros [Hx|(p & Hp & Hp0 & Hx & Hle)] Hrf.
  - by rewrite out_avail_nil, Hx.
  - destruct Hrf as [(i & ob & z & Hi & Ho & Hz & Hli & Hlo & _)|Hf].
    + unfold out_avail. rewrite Ho, Hp. apply zlen_slice; lia.
    + destruct Hf as (_ & Hf & _). lia.
Qed.

(** Taking bytes from the output buffer. *)
Lemma take_out_ok s raw k n :
  Str s raw k -> 0 < n <= x_have s ->
  peek_out n s = Ok (ztake n (out_avail s), s) /\ Str (advance n (consume n s)) raw k /\
  out_avail (advance n (consume n s)) = zdrop n (out_avail s).
Proof.
  intros (Hc & Ho & Hrf & Hraw) Hn.
  destruct Ho as [|(p & Hp & Hp0 & Hx & Hle)]; [lia|].
  destruct Hrf as [Hr|Hf]; [|destruct Hf as (_ & Hf & _); lia].
  pose proof Hr as (i & ob & z & Hi & Hob & Hz & Hli & Hlo & Hg & Hni & Hai & Hna).
  assert (E : out_avail s = slice p (x_have s) ob) by (unfold out_avail; by rewrite Hob, Hp).
  split_and!.
  - unfold peek_out. step. rewrite Hob. step. rewrite Hp, read_buf_ok by lia. do 2 f_equal.
    rewrite E. replace (x_have s) with (n + (x_have s - n)) by lia. rewrite slice_split by lia.
    symmetry. apply ztake_app, zlen_slice; lia.
  - split_and!; try done; [|by left]. unfold out_ok. gzc. rewrite Hp. simpl.
    destruct (decide (x_have s - n = 0)); [by left|]. right. exists (p + n). split_and!; [done|lia..].
  - unfold out_avail at 1. gzc. rewrite Hob, Hp. simpl. rewrite E. apply slice_drop; lia.
Qed.

Lemma Str_fetch fuel s raw k :
  Str s raw k -> x_have s = 0 -> k + work s raw < Z.of_nat fuel ->
  exists t raw' k', gz_fetch fuel s = Ok (0, t) /\ kept s t /\ Str t raw' k' /\ ready t /\
    raw = out_avail t ++ raw' /\ work t raw' <= work s raw /\ k' <= k /\
    (x_have t = 0 -> flag t = 0 /\ geof t = true /\ avail_in t = 0 /\ raw' = []).
Proof.
  intros HS Hx Hf. pose proof (Str_bound s raw k HS). destruct HS as (Hc & Ho & Hrf & Hraw).
  destruct (gz_fetch_ok fuel s raw k) as (t & raw' & k' & E & Hk & Hct & Hrt & Hot & -> & Hraw' & Hw & Hkk & Hend);
    [done..|lia|done|].
  exists t, raw', k'. split_and!; try done; [by split_and!; try done; left|].
  intros Hxt. destruct (Hend Hxt) as (He & Ha & ->). split_and!; try done.
  unfold flag. by rewrite Hxt, He, Ha.
Qed.

(** ** Reads into the caller's buffer *)
Lemma load_direct_ok len s raw k :
  Str s raw k -> ready s -> how s = COPY -> x_have s = 0 -> 0 < len < 2 ^ 31 ->
  exists bs t raw', gz_load len (fun _ s => s) s = Ok ((0, bs), t) /\ kept s t /\ Str t raw' k /\
    ready t /\ x_have t = 0 /\ raw = bs ++ raw' /\ zlen bs <= len /\ work t raw' <= work s raw /\
    (bs = [] -> flag t = 0).
Proof.
  intros (Hc & Ho & Hrf & Hraw) Hr Hhow Hx Hlen. unfold raw_ok in Hraw. rewrite Hhow in Hraw.
  destruct Hraw as (-> & Hd & Ha & -> & Hef). pose proof Hc as (Hm & Hs & Hh).
  destruct (gz_load_ok len (fun _ s => s) s) as (bs & f' & e & E & Hh' & Hb & Hlb & Het & Hef'); [done|lia|].
  destruct Hr as (i & ob & z & Hi & Hob & Hz & Hr). rewrite E. cbn zeta. gzc.
  set (t := if e then _ else _). assert (Hrt : ready t) by (exists i, ob, z; unfold t; by destruct e).
  assert (Hbs : bs = [] -> e = true) by (intros ->; destruct e; [done|]; specialize (Hef' eq_refl); zlia).
  assert (Hg : geof s = true -> bs = [] /\ f' = []).
  { intros Eg. rewrite Hef in Hb by done. symmetry in Hb. apply app_eq_nil in Hb as [-> _].
    split; [done|]. by apply Het, Hbs. }
  assert (Hin : input t = file_bytes f').
  { unfold input, in_avail, fd_avail, t. destruct e; gzc; rewrite Hi, Ha; unfold slice; rewrite ztake_0; simpl.
    - by rewrite Het.
    - destruct (geof s) eqn:Eg; [|done]. by destruct (Hg eq_refl) as [_ ->]. }
  assert (Hin' : input s = bs ++ file_bytes f').
  { unfold input, in_avail, fd_avail. rewrite Hi, Ha. unfold slice. rewrite ztake_0. simpl.
    destruct (geof s) eqn:Eg; [|done]. by destruct (Hg eq_refl) as [-> ->]. }
  exists bs, t, (file_bytes f'). split; [done|]. split; [unfold t; by destruct e|].
  split.
  { split_and!; [unfold t; by destruct e|left; unfold t; by destruct e|by left|].
    unfold raw_ok. rewrite Hin. unfold t; destruct e; gzc; rewrite Hhow, Hd, Ha; split_and!; auto.
    intros Eg. by apply Hg. }
  split_and!; [done|unfold t; by destruct e|done|done| |].
  - pose proof (zlen_nonneg bs). unfold work. rewrite Hin, Hin'. zlia.
  - intros Eb. unfold flag, t. rewrite Hbs by done. gzc. by rewrite Ha, Z.eqb_refl, andb_false_r.
Qed.

Lemma decomp_direct_ok fuel len s raw k :
  Str s raw k -> ready s -> how s = GZIP -> x_have s = 0 -> 0 < len -> work s raw < Z.of_nat fuel ->
  exists bs t raw' k', gz_decomp fuel false (set_strm (next_in s) (avail_in s) len (istrm s) s) = Ok ((0, bs), t) /\
    kept s t /\ Str (set_have 0 t) raw' k' /\ ready t /\ x_have t = zlen bs /\ raw = bs ++ raw' /\
    zlen bs <= len /\ work t raw' <= work s raw /\ k' <= k /\ (bs = [] -> k' < k).
Proof.
  intros (Hc & Ho & Hrf & Hraw) Hr Hhow Hx Hlen Hf.
  destruct (gz_decomp_ok fuel false (set_strm (next_in s) (avail_in s) len (istrm s) s) raw k)
    as (bs & t & raw1 & k1 & E & Hkt & Hct & Hrt & Hgt & Hxt & Hnt & Hlb & _ & -> & Hraw1 & Hw & Hkk & Hcase);
    try done.
  exists bs, t, raw1, k1. rewrite E. split_and!; try done; [by split_and!; try done; left|].
  intros ->. destruct Hcase as [[_ ?]|Hl]; [done|]. gzc in Hl. rewrite zlen_nil in Hl. lia.
Qed.

Lemma ztake_prefix d D len : zlen d <= len -> ztake len (d ++ D) = d ++ ztake (len - zlen d) D.
Proof.
  intros. pose proof (zlen_nonneg d). replace len with (zlen d + (len - zlen d)) at 1 by lia.
  rewrite ztake_split by lia. by rewrite (ztake_app (zlen d) d), (zdrop_app (zlen d) d).
Qed.

Lemma zdrop_prefix d D len : zlen d <= len -> zdrop len (d ++ D) = zdrop (len - zlen d) D.
Proof.
  intros. pose proof (zlen_nonneg d). replace len with (zlen d + (len - zlen d)) at 1 by lia.
  rewrite <- zdrop_zdrop by lia. by rewrite (zdrop_app (zlen d) d).
Qed.

Definition delivered (s t : gz_state) (D : list Z) (len : Z) : Prop :=
  kept_io s t /\ x_pos t = x_pos s + zlen (ztake len D) /\ past t = past s || (zlen D <? len).

Lemma delivered_step s u t d D len :
  kept_io s u -> x_pos u = x_pos s + zlen d -> past u = past s -> zlen d <= len ->
  delivered u t D (len - zlen d) -> delivered s t (d ++ D) len.
Proof.
  intros Hk Hx Hp Hl (Hk' & Hx' & Hp'). pose proof (zlen_nonneg d). split_and!.
  - unfold kept_io in *. intuition congruence.
  - rewrite Hx', Hx, ztake_prefix by done. zlia.
  - rewrite Hp', Hp, zlen_app. f_equal. destruct (Z.ltb_spec (zlen D) (len - zlen d)), (Z.ltb_spec (zlen d + zlen D) len); lia.
Qed.

Lemma delivered_kept s t u D len : kept s t -> delivered t u D len -> delivered s u D len.
Proof.
  intros (? & ? & ? & ? & Hx & Hp) ((? & ? & ? & ?) & Hx' & Hp'). unfold delivered, kept_io.
  rewrite Hx', Hp', Hx, Hp. split_and!; congruence.
Qed.

(** Room for one more byte in the output buffer. *)
Definition push_room (s : gz_state) : Prop := ready s /\ x_have s < 2 * gsize s.

Definition fuel_ok (fuel : nat) (s : gz_state) (raw : list Z) (k : Z) : Prop :=
  (k + 2 * zlen (out_avail s ++ raw) + flag s) + (k + work s raw) + 1 < Z.of_nat fuel.

Lemma flag_bound s : 0 <= flag s <= 1.
Proof. unfold flag. destruct (_ && _); lia. Qed.

Lemma work_nonneg s raw : 0 <= work s raw.
Proof. unfold work. pose proof (zlen_nonneg (input s)). pose proof (zlen_nonneg raw). lia. Qed.

Lemma twice_size s : ready s \/ fresh s -> twice (gsize s) = 2 * gsize s.
Proof.
  intros [Hr|Hf]; apply twice_ok.
  - destruct (ready_gsize s Hr). lia.
  - destruct Hf as [-> _]. lia.
Qed.

Lemma fresh_flag s : fresh s -> flag s = 1.
Proof. intros (? & Hx & _ & _ & _ & _ & _ & _ & _ & _ & _ & _ & He). unfold flag. by rewrite Hx, He. Qed.

Lemma ready_of_flag s raw k : Str s raw k -> flag s = 0 \/ 0 < x_have s \/ how s <> LOOK -> ready s.
Proof.
  intros (_ & _ & [Hr|Hf] & _) Hor; [done|]. pose proof (fresh_flag s Hf).
  destruct Hf as (_ & Hx & _ & _ & Hh & _). lia || (destruct Hor as [|[|]]; [lia|lia|done]).
Qed.

Lemma flag_end s raw k :
  Str s raw k -> x_have s = 0 -> flag s = 0 -> ready s /\ geof s = true /\ avail_in s = 0 /\ raw = [].
Proof.
  intros HS Hx Hfl. assert (Hr : ready s) by (eapply ready_of_flag; [done|by left]).
  unfold flag in Hfl. rewrite Hx in Hfl. simpl in Hfl.
  destruct (geof s) eqn:He; [|done]. destruct (Z.eqb_spec (avail_in s) 0); [|done].
  split_and!; try done. destruct HS as (_ & _ & _ & Hraw). by eapply raw_ok_end.
Qed.

Lemma gzread_loop_ok fuel len got s raw k :
  Str s raw k -> 0 < len < 2 ^ 31 -> fuel_ok fuel s raw k ->
  exists t raw' k', let D := out_avail s ++ raw in
    gzread_loop fuel len got s = Ok (Some (got ++ ztake len D), t) /\
    Str t raw' k' /\ out_avail t ++ raw' = zdrop len D /\ delivered s t D len /\ push_room t.
Proof.
  revert len got s raw k. induction fuel as [|fuel IH]; intros len got s raw k HS Hlen Hf; cbn zeta.
  { unfold fuel_ok in Hf. pose proof (Str_bound _ _ _ HS). pose proof (flag_bound s).
    pose proof (work_nonneg s raw). pose proof (zlen_nonneg (out_avail s ++ raw)). lia. }
  pose proof (Str_bound _ _ _ HS) as Hkb. pose proof (flag_bound s) as Hfb.
  pose proof (work_nonneg s raw) as Hwb. pose proof (zlen_nonneg raw) as Hrb.
  unfold fuel_ok in Hf. rewrite zlen_app in Hf.
  assert (Hoal : zlen (out_avail s) = x_have s) by (apply out_avail_len; apply HS).
  assert (Hx0 : 0 <= x_have s) by (rewrite <- Hoal; apply zlen_nonneg).
  (* what follows once some bytes have been delivered *)
  assert (Hprog : forall d u raw1 k1,
    kept_io s u -> x_pos u = x_pos s -> past u = past s -> zlen d <= len ->
    Str u raw1 k1 -> out_avail s ++ raw = d ++ out_avail u ++ raw1 -> push_room u ->
    k1 <= k -> work u raw1 <= work s raw -> k1 + flag u - 2 * zlen d < k + flag s ->
    exists t raw' k', let D := out_avail s ++ raw in
      (modS (advance (zlen d)) ;; if len - zlen d =? 0 then mret (Some (got ++ d))
        else gzread_loop fuel (len - zlen d) (got ++ d)) u = Ok (Some (got ++ ztake len D), t) /\
      Str t raw' k' /\ out_avail t ++ raw' = zdrop len D /\ delivered s t D len /\ push_room t).
  { intros d u raw1 k1 Hk Hxp Hp Hdl HSu ED Hroom Hkk Hw Hm. cbn zeta. rewrite ED.
    assert (HSa : Str (advance (zlen d) u) raw1 k1) by exact HSu.
    assert (Hra : push_room (advance (zlen d) u)) by exact Hroom.
    step. destruct (Z.eqb_spec (len - zlen d) 0).
    - exists (advance (zlen d) u), raw1, k1. rewrite ztake_app, zdrop_app by lia. split_and!; try done.
      unfold delivered. split_and!; [exact Hk| |].
      + gzc. rewrite ztake_app by lia. lia.
      + gzc. rewrite Hp, zlen_app. pose proof (zlen_nonneg (out_avail u ++ raw1)).
        destruct (Z.ltb_spec (zlen d + zlen (out_avail u ++ raw1)) len); [lia|]. by rewrite orb_false_r.
    - pose proof (zlen_nonneg d).
      destruct (IH (len - zlen d) (got ++ d) (advance (zlen d) u) raw1 k1) as (t & raw' & k' & E & HSt & HDt & Hdel & Hrt);
        [done|lia| |].
      + unfold fuel_ok. change (flag (advance _ u)) with (flag u).
        change (work (advance _ u) raw1) with (work u raw1).
        change (out_avail (advance _ u)) with (out_avail u).
        assert (zlen (out_avail s) + zlen raw = zlen d + zlen (out_avail u ++ raw1)) by (rewrite <- zlen_app, ED; zlia).
        lia.
      + exists t, raw', k'. rewrite E. change (out_avail (advance (zlen d) u)) with (out_avail u) in *.
        split_and!; try done.
        * rewrite <- app_assoc. do 3 f_equal.
          by rewrite (ztake_prefix d).
        * by rewrite (zdrop_prefix d).
        * apply (delivered_step s (advance (zlen d) u)); [exact Hk|gzc; lia|exact Hp|done|exact Hdel]. }
  cbn [gzread_loop]. step. destruct (Z.eqb_spec (x_have s) 0) as [Hx|Hx]; cbn [negb].
  2: { (* the output buffer *)
    set (n := if x_have s >? len then len else x_have s).
    assert (Hn : 0 < n <= x_have s /\ n <= len) by (unfold n; destruct (Z.gtb_spec (x_have s) len); lia).
    destruct (take_out_ok s raw k n HS) as (E & HSn & Ho); [lia|].
    rewrite M_bind_eq, E. step.
    assert (Hl : zlen (ztake n (out_avail s)) = n) by (apply zlen_ztake; lia).
    assert (Hr : ready s) by (eapply ready_of_flag; [done|right; left; lia]).
    apply (Hprog (ztake n (out_avail s)) (consume n s) raw k); try done; try lia.
    - change (out_avail (consume n s)) with (out_avail (advance n (consume n s))).
      by rewrite Ho, app_assoc, ztake_zdrop.
    - split; [exact Hr|]. destruct HS as (_ & Hok & _). gzc.
      destruct Hok as [|(p & _ & ? & ? & ?)]; lia.
    - rewrite Hl. pose proof (flag_bound (consume n s)). lia. }
  destruct (geof s && (avail_in s =? 0)) eqn:Eend.
  { assert (Hfl : flag s = 0) by (unfold flag; by rewrite Hx, Eend).
    destruct (flag_end s raw k HS Hx Hfl) as (Hr & He & Ha & ->).
    step. rewrite out_avail_nil by done. exists (set_eof (geof s) true s), [], k.
    simpl. unfold ztake, zdrop. rewrite take_nil, drop_nil, app_nil_r. split_and!; try done.
    - by rewrite out_avail_nil.
    - unfold delivered, ztake. rewrite take_nil. split_and!; [done|gzc; zlia|]. gzc. rewrite zlen_nil.
      destruct (Z.ltb_spec 0 len); [by rewrite orb_true_r|lia].
    - split; [exact Hr|]. gzc. rewrite Hx. destruct (ready_gsize s Hr). lia. }
  assert (Hfl : flag s = 1) by (unfold flag; by rewrite Hx, Eend).
  destruct (bool_decide (how s = LOOK) || (len <? twice (gsize s))) eqn:Ebr.
  { (* through the output buffer *)
    destruct (Str_fetch fuel s raw k) as (t & raw1 & k1 & E & Hkt & HSt & Hrt & -> & Hw & Hkk & Hend);
      [done|done|lia|].
    rewrite M_bind_eq, E. destruct (Z.eqb_spec 0 (-1)) as [|_]; [lia|].
    destruct (IH len got t raw1 k1) as (u & raw2 & k2 & E2 & HSu & HDu & (Hku & Hpu & Hau) & Hru); [done|done| |].
    { unfold fuel_ok. assert (flag t = 0).
      { destruct (decide (x_have t = 0)) as [Hxt|Hxt]; [by apply Hend|]. unfold flag.
        destruct (Z.eqb_spec (x_have t) 0); [lia|done]. }
      lia. }
    exists u, raw2, k2. rewrite E2. rewrite (out_avail_nil s Hx). cbn zeta in *. simpl. split_and!; try done.
    by apply (delivered_kept s t). }
  apply orb_false_iff in Ebr as [Hhow%bool_decide_eq_false Hlarge%Z.ltb_ge].
  assert (Hr : ready s) by (eapply ready_of_flag; [done|by right; right]).
  destruct (decide (how s = COPY)) as [Hc|Hc].
  - destruct (load_direct_ok len s raw k) as (bs & t & raw1 & E & Hkt & HSt & Hrt & Hxt & Eraw & Hlb & Hw & Hz);
      try done.
    rewrite M_bind_eq, E. destruct (Z.eqb_spec 0 (-1)) as [|_]; [lia|].
    rewrite Eraw in *. rewrite (out_avail_nil s Hx) in *. cbn [snd].
    assert (Hflt : flag t - 2 * zlen bs < 1).
    { pose proof (flag_bound t). pose proof (zlen_nonneg bs).
      destruct (decide (zlen bs = 0)) as [Ez|]; [|lia]. rewrite Hz by by apply zlen_nil_inv. lia. }
    destruct Hkt as (? & ? & ? & ? & ? & ?).
    apply (Hprog bs t raw1 k); try done; try lia.
    + by rewrite (out_avail_nil t Hxt).
    + split; [done|]. rewrite Hxt. destruct (ready_gsize t Hrt). lia.
  - assert (Hg : how s = GZIP) by (by destruct (how s)). step.
    destruct (decomp_direct_ok fuel len s raw k) as
      (bs & t & raw1 & k1 & E & Hkt & HSt & Hrt & Hxt & Eraw & Hlb & Hw & Hkk & Hz); try done; [lia|lia|].
    rewrite M_bind_eq, E. cbn [fst snd]. destruct (Z.eqb_spec 0 (-1)) as [|_]; [lia|]. step. step.
    rewrite Hxt, ztake_all by (cbn [snd]; lia). cbn [snd].
    rewrite Eraw in *. rewrite (out_avail_nil s Hx) in *.
    pose proof (flag_bound (set_have 0 t)). pose proof (zlen_nonneg bs).
    assert (k1 + flag (set_have 0 t) - 2 * zlen bs < k + 1).
    { destruct (decide (zlen bs = 0)) as [Ez|]; [|lia].
      apply zlen_nil_inv in Ez. specialize (Hz Ez). lia. }
    destruct Hkt as (? & ? & ? & ? & ? & ?).
    apply (Hprog bs (set_have 0 t) raw1 k1); try done; try lia.
    + by rewrite (out_avail_nil (set_have 0 t)).
    + split; [exact Hrt|]. gzc. destruct (ready_gsize t Hrt). lia.
Qed.

(** ** Seeks *)
Definition shrinks (s t : gz_state) (raw raw' : list Z) (k k' : Z) : Prop :=
  k' <= k /\ work t raw' <= work s raw.

Definition skipped (s t : gz_state) (D : list Z) (len : Z) : Prop :=
  kept_io s t /\ x_pos t = x_pos s + zlen (ztake len D) /\ past t = past s.

Lemma gz_skip_ok fuel len s raw k :
  Str s raw k -> 0 <= len -> fuel_ok fuel s raw k ->
  exists t raw' k', let D := out_avail s ++ raw in
    gz_skip fuel len s = Ok (0, t) /\ Str t raw' k' /\ out_avail t ++ raw' = zdrop len D /\
    skipped s t D len /\ shrinks s t raw raw' k k'.
Proof.
  revert len s raw k. induction fuel as [|fuel IH]; intros len s raw k HS Hlen Hf; cbn zeta.
  { unfold fuel_ok in Hf. pose proof (Str_bound _ _ _ HS). pose proof (flag_bound s).
    pose proof (work_nonneg s raw). pose proof (zlen_nonneg (out_avail s ++ raw)). lia. }
  pose proof (Str_bound _ _ _ HS) as Hkb. pose proof (flag_bound s) as Hfb.
  pose proof (work_nonneg s raw) as Hwb. pose proof (zlen_nonneg raw) as Hrb.
  unfold fuel_ok in Hf. rewrite zlen_app in Hf.
  assert (Hoal : zlen (out_avail s) = x_have s) by (apply out_avail_len; apply HS).
  assert (Hx0 : 0 <= x_have s) by (rewrite <- Hoal; apply zlen_nonneg).
  cbn [gz_skip]. destruct (Z.eqb_spec len 0) as [->|Hl0].
  { exists s, raw, k. split_and!; try done.
    unfold skipped. rewrite ztake_0, zlen_nil. split_and!; try done. lia. }
  step. destruct (Z.eqb_spec (x_have s) 0) as [Hx|Hx]; cbn [negb].
  2: { set (n := if x_have s >? len then u32 len else x_have s).
    assert (Hn : 0 < n <= x_have s /\ n <= len).
    { assert (x_have s < 2 ^ 31).
      { destruct HS as (_ & [|(p & _ & ? & ? & ?)] & [Hr|(Hg & ?)] & _); [lia|lia|destruct (ready_gsize s Hr); lia|lia]. }
      unfold n. destruct (Z.gtb_spec (x_have s) len); [rewrite wrapu_small by lia|]; lia. }
    destruct (take_out_ok s raw k n HS) as (E & HSn & Ho); [lia|]. step.
    set (u := advance n (consume n s)) in *.
    assert (Hl : zlen (ztake n (out_avail s)) = n) by (apply zlen_ztake; lia).
    assert (ED : out_avail s ++ raw = ztake n (out_avail s) ++ out_avail u ++ raw).
    { by rewrite Ho, app_assoc, ztake_zdrop. }
    destruct (IH (len - n) u raw k) as (t & raw' & k' & E2 & HSt & HDt & (Hk & Hxp & Hp) & Hsh); [done|lia| |].
    { unfold fuel_ok. rewrite Ho, zlen_app, zlen_zdrop by lia. pose proof (flag_bound u).
      change (work u raw) with (work s raw). lia. }
    exists t, raw', k'. rewrite E2, ED. split_and!; try done.
    - rewrite (zdrop_prefix (ztake n (out_avail s))) by lia. by rewrite Hl.
    - unfold skipped. rewrite (ztake_prefix (ztake n (out_avail s))) by lia. rewrite Hl, zlen_app, Hl, Hxp.
      split_and!; [exact Hk|unfold u; gzc; lia|exact Hp]. }
  destruct (geof s && (avail_in s =? 0)) eqn:Eend.
  { assert (Hfl : flag s = 0) by (unfold flag; by rewrite Hx, Eend).
    destruct (flag_end s raw k HS Hx Hfl) as (Hr & He & Ha & ->).
    rewrite out_avail_nil by done. exists s, [], k.
    simpl. unfold skipped, ztake, zdrop. rewrite take_nil, drop_nil. split_and!; try done.
    - by rewrite out_avail_nil.
    - rewrite zlen_nil. lia. }
  assert (Hfl : flag s = 1) by (unfold flag; by rewrite Hx, Eend).
  destruct (Str_fetch fuel s raw k) as (t & raw1 & k1 & E & Hkt & HSt & Hrt & -> & Hw & Hkk & Hend);
    [done|done|lia|].
  rewrite M_bind_eq, E. destruct (Z.eqb_spec 0 (-1)) as [|_]; [lia|].
  destruct (IH len t raw1 k1) as (u & raw2 & k2 & E2 & HSu & HDu & (Hku & Hpu & Hau) & Hsh1 & Hsh2); [done|done| |].
  { unfold fuel_ok. assert (flag t = 0).
    { destruct (decide (x_have t = 0)) as [Hxt|Hxt]; [by apply Hend|]. unfold flag.
      destruct (Z.eqb_spec (x_have t) 0); [lia|done]. }
    lia. }
  exists u, raw2, k2. rewrite E2. rewrite (out_avail_nil s Hx). cbn zeta in *. simpl. split_and!; try done.
  - destruct Hkt as (? & ? & ? & ? & Hxp & Hp), Hku as (? & ? & ? & ?). unfold skipped, kept_io.
    rewrite Hpu, Hau, Hxp, Hp. split_and!; congruence.
  - split; lia.
Qed.

(** Enough fuel for any call on [s], from the number of bytes involved. *)
Definition enough (fuel : nat) (s : gz_state) (D : list Z) : Prop :=
  5 * zlen (input s) + 3 * zlen D + 2 < Z.of_nat fuel.

(** What is delivered next once a pending seek has been carried out. *)
Definition after_seek (s : gz_state) (D : list Z) : list Z :=
  if seek s then zdrop (skip s) D else D.

Lemma enough_fuel fuel s raw k u raw' k' :
  Str s raw k -> enough fuel s (out_avail s ++ raw) -> shrinks s u raw raw' k k' ->
  Str u raw' k' -> zlen (out_avail u ++ raw') <= zlen (out_avail s ++ raw) -> fuel_ok fuel u raw' k'.
Proof.
  intros HS Hf (Hk & Hw) HSu Hl. unfold enough, fuel_ok, work in *. rewrite !zlen_app in *.
  pose proof (Str_bound _ _ _ HS). pose proof (flag_bound u). pose proof (zlen_nonneg (out_avail s)).
  pose proof (zlen_nonneg raw). lia.
Qed.

Lemma do_seek_ok fuel s raw k :
  Str s raw k -> (seek s = true -> 0 <= skip s) -> enough fuel s (out_avail s ++ raw) ->
  exists u raw' k', let D := out_avail s ++ raw in
    do_seek fuel s = Ok (0, u) /\ Str u raw' k' /\ out_avail u ++ raw' = after_seek s D /\
    gmode u = gmode s /\ gerr u = gerr s /\ seek u = false /\ past u = past s /\
    x_pos u = x_pos s + (zlen D - zlen (after_seek s D)) /\ fuel_ok fuel u raw' k'.
Proof.
  intros HS Hsk Hf. cbn zeta. unfold do_seek, after_seek. step. destruct (seek s) eqn:Es.
  - step. destruct (gz_skip_ok fuel (skip s) (set_seek false s) raw k) as
      (u & raw' & k' & E & HSu & HD & ((Hm & Hse & _ & He) & Hx & Hp) & Hsh); [exact HS|by apply Hsk| |].
    { eapply (enough_fuel fuel s); try done. }
    change (out_avail (set_seek false s)) with (out_avail s) in *.
    exists u, raw', k'. rewrite E. split_and!; try done.
    + rewrite Hx. gzc. unfold zlen, ztake, zdrop. rewrite length_take, length_drop. lia.
    + eapply (enough_fuel fuel s); try done. rewrite HD. unfold zlen, zdrop. rewrite length_drop. lia.
  - exists s, raw, k. split_and!; try done; [lia|]. by eapply (enough_fuel fuel s).
Qed.

Lemma calm_guard s : calm s -> negb (gmode s =? GZ_READ) || serious s = false.
Proof. intros (-> & -> & _). by rewrite Z.eqb_refl. Qed.

Lemma guard_ok (s u : gz_state) : calm s -> gmode u = gmode s -> gerr u = gerr s ->
  negb (gmode u =? GZ_READ) || serious u = false.
Proof. intros (Hm & Hs & _) -> E. rewrite Hm, Z.eqb_refl. unfold serious in *. by rewrite E. Qed.

Lemma gzread_ok fuel len s D :
  Stream s D -> (seek s = true -> 0 <= skip s) -> 0 < len < 2 ^ 31 -> enough fuel s D ->
  let D' := after_seek s D in
  let r := ztake len D' in
  exists t, gzread fuel len s = Ok ((zlen r, r), t) /\ Stream t (zdrop len D') /\ seek t = false /\
    x_pos t = x_pos s + (zlen D - zlen D') + zlen r /\ past t = past s || (zlen D' <? len) /\ push_room t.
Proof.
  intros (Hc & Ho & Hrf & raw & k & Hraw & ->) Hsk Hlen Hf D' r.
  assert (HS : Str s raw k) by done.
  destruct (do_seek_ok fuel s raw k HS Hsk Hf) as (u & raw1 & k1 & E & HSu & HD & Hm & He & Hse & Hp & Hx & Hfu).
  destruct (gzread_loop_ok fuel len [] u raw1 k1 HSu Hlen Hfu) as
    (t & raw2 & k2 & E2 & HSt & HDt & ((_ & Hset & _) & Hxt & Hpt) & Hrt).
  exists t. unfold gzread. step. rewrite calm_guard by done. rewrite wraps_small by lia.
  destruct (Z.ltb_spec len 0); [lia|]. destruct (Z.eqb_spec len 0); [lia|].
  rewrite M_bind_eq, E. destruct (Z.eqb_spec 0 (-1)) as [|_]; [lia|]. rewrite M_bind_eq, E2.
  rewrite HD in *. simpl app. split_and!; try done.
  - destruct HSt as (? & ? & ? & ?). unfold Stream. eauto 10.
  - congruence.
  - rewrite Hxt, Hx. fold D' r. lia.
  - rewrite Hpt, Hp. done.
Qed.

(** [gzgetc] is [gzread] of one byte. *)
Lemma gzgetc_ok fuel s D :
  Stream s D -> (seek s = true -> 0 <= skip s) -> (seek s = true -> x_have s = 0) -> enough fuel s D ->
  let D' := after_seek s D in
  exists t, gzgetc fuel s = Ok (default (-1) (head D'), t) /\ Stream t (zdrop 1 D') /\ seek t = false /\
    push_room t.
Proof.
  intros HSt Hsk Hpend Hf D'. pose proof HSt as (Hc & Ho & Hrf & raw & k & Hraw & ED).
  assert (HS : Str s raw k) by done. unfold gzgetc. step. rewrite calm_guard by done.
  destruct (Z.eqb_spec (x_have s) 0) as [Hx|Hx]; cbn [negb].
  - destruct (gzread_ok fuel 1 s D HSt Hsk ltac:(lia) Hf) as (t & E & HSt' & Hse & _ & _ & Hrt).
    fold D' in E, HSt'. exists t. rewrite M_bind_eq, E. split_and!; try done.
    by destruct D'.
  - assert (Hns : seek s = false) by (destruct (seek s); [by rewrite Hpend in Hx|done]).
    assert (HD' : D' = D) by (unfold D', after_seek; by rewrite Hns).
    assert (Hoal : zlen (out_avail s) = x_have s) by (by apply out_avail_len).
    pose proof (zlen_nonneg (out_avail s)).
    destruct (take_out_ok s raw k 1 HS) as (E & HSn & Ho1); [lia|].
    rewrite M_bind_eq, E. step. eexists. split; [|split; [|split; [|split]]].
    + do 2 f_equal. rewrite HD', ED. destruct (out_avail s) as [|b l]; [by rewrite zlen_nil in *|done].
    + destruct HSn as (? & ? & ? & ?). unfold Stream. split_and!; try done. exists raw, k. split; [done|].
      rewrite Ho1, HD', ED. destruct (out_avail s) as [|b l]; [by rewrite zlen_nil in *|done].
    + exact Hns.
    + apply (ready_of_flag s raw k); [done|right; left; lia].
    + gzc. destruct Ho as [|(p & _ & ? & ? & ?)]; lia.
Qed.

Lemma gzgetc_fuel fuel fuel' (s : gz_state) : x_have s <> 0 -> gzgetc fuel s = gzgetc fuel' s.
Proof.
  intros Hx. unfold gzgetc. rewrite !M_bind_eq. cbn [getS]. destruct (_ || _); [done|].
  destruct (Z.eqb_spec (x_have s) 0); done.
Qed.

Lemma gzungetc_fuel fuel fuel' c (s : gz_state) : seek s = false -> gzungetc fuel c s = gzungetc fuel' c s.
Proof.
  intros Hs. unfold gzungetc. rewrite !M_bind_eq. cbn [getS]. destruct (_ || _); [done|].
  unfold do_seek. rewrite !M_bind_eq. cbn [getS]. by rewrite Hs.
Qed.

(** ** Pushing back *)
Lemma poke_ok p c s o :
  out s = Some o -> 0 <= p < zlen o -> poke_out p c s = Ok (tt, set_out (Some (<[Z.to_nat p := u8 c]> o)) s).
Proof. intros Ho Hp. unfold poke_out. apply (on_out_ok _ _ o); [done|]. by apply zstore_ok. Qed.

Lemma slice_insert_head p n v o :
  0 <= p -> 0 <= n -> p + 1 + n <= zlen o ->
  slice p (1 + n) (<[Z.to_nat p := v]> o) = v :: slice (p + 1) n o.
Proof.
  intros. rewrite slice_split by lia.
  change (v :: slice (p + 1) n o) with ([v] ++ slice (p + 1) n o). f_equal.
  - apply list_eq. intros [|i]; rewrite lookup_slice by lia; simpl.
    + replace (Z.to_nat (p + Z.of_nat 0)) with (Z.to_nat p) by lia.
      rewrite list_lookup_insert_eq; [done|unfold zlen in *; lia].
    + rewrite decide_False by lia. done.
  - apply list_eq. intros i. rewrite !lookup_slice by lia. destruct (decide _); [|done].
    rewrite list_lookup_insert_ne by lia. done.
Qed.

(** [out] and [x] change, the rest of the stream does not. *)
Lemma pushed_stream s D h p xp o' c :
  Stream s D -> ready s -> zlen o' = 2 * gsize s -> 0 <= p -> 0 < h -> p + h <= 2 * gsize s ->
  slice p h o' = c :: out_avail s ->
  Stream (set_eof (geof s) false (set_x h (Some p) xp (set_out (Some o') s))) (c :: D).
Proof.
  intros (Hc & _ & _ & raw & k & Hraw & ->) Hr Hlo Hp Hh Hle Hsl. split; [exact Hc|].
  split; [right; by exists p|]. split.
  { left. destruct Hr as (i & ob & z & Hi & Hob & Hz & Hli & _ & Hg). by exists i, o', z. }
  exists raw, k. split; [exact Hraw|]. unfold out_avail at 2. gzc. by rewrite Hsl.
Qed.

Lemma set_out_same s o : out s = Some o -> set_out (Some o) s = s.
Proof. destruct s. gzc. by intros ->. Qed.

Lemma gzungetc_ok fuel c s D :
  Stream s D -> push_room s -> seek s = false -> 0 <= c ->
  exists t, gzungetc fuel c s = Ok (c, t) /\ Stream t (u8 c :: D) /\ seek t = false /\
    skip t = skip s /\ x_pos t = x_pos s - 1 /\ past t = false /\ 0 < x_have t.
Proof.
  intros HSt [Hr Hroom] Hse Hc. pose proof HSt as (Hcalm & Ho & Hrf & _).
  pose proof Hr as (i & ob & z & Hi & Hob & Hz & Hli & Hlo & Hg & _).
  unfold gzungetc. step. rewrite calm_guard by done. unfold do_seek. rewrite M_bind_eq. step. rewrite Hse.
  cbn [mret M_ret]. destruct (Z.eqb_spec 0 (-1)) as [|_]; [lia|].
  destruct (Z.ltb_spec c 0); [lia|]. step. rewrite twice_size by done.
  destruct (Z.eqb_spec (x_have s) 0) as [Hx|Hx].
  - step. erewrite M_bind_ok by (apply (poke_ok _ _ _ ob); [done|gzc; lia]). step.
    eexists. split; [done|]. split; [|split_and!; try done; gzc; lia].
    apply (pushed_stream s D 1 (2 * gsize s - 1)); try done; try zlia.
    rewrite out_avail_nil by done. change 1 with (1 + 0) at 2.
    rewrite (slice_insert_head _ 0) by lia. unfold slice. by rewrite ztake_0.
  - assert (Hoal : zlen (out_avail s) = x_have s) by (by apply out_avail_len).
    destruct Ho as [|(p & Hp & Hp0 & Hx0 & Hle)]; [done|].
    destruct (Z.eqb_spec (x_have s) (2 * gsize s)); [lia|].
    (* the output buffer with room before the data *)
    assert (exists p' o', (if decide (x_next s = Some 0) then slide_out else mret tt) s =
        Ok (tt, set_x (x_have s) (Some p') (x_pos s) (set_out (Some o') s)) /\
      zlen o' = 2 * gsize s /\ 0 < p' /\ p' + x_have s <= 2 * gsize s /\
      slice p' (x_have s) o' = out_avail s) as (p' & o' & E & Hlo' & Hp' & Hle' & Hsl').
    { assert (Hoa : out_avail s = slice p (x_have s) ob) by (unfold out_avail; by rewrite Hob, Hp).
      destruct (decide (x_next s = Some 0)) as [Hn|Hn].
      - assert (p = 0) as -> by congruence. unfold slide_out. step.
        erewrite M_bind_ok by (apply (on_out_ok _ _ ob); [done|]; apply copy_down_ok; rewrite ?twice_size by done; lia).
        rewrite Z2Nat.id, twice_size by (done || lia).
        replace (x_have s - x_have s) with 0 by lia. rewrite <- Hoa.
        eexists _, _. split; [done|]. rewrite <- Hoal at 2 4. split_and!; [zlia|lia|lia|].
        rewrite <- Hoal. apply slice_overwrite; lia.
      - exists p, ob. split_and!; try done; [|destruct (decide (p = 0)); [congruence|lia]].
        rewrite set_out_same by done. destruct s. gzc in Hp. subst. done. }
    rewrite M_bind_eq, E. step. gzc. step. simpl.
    erewrite M_bind_ok by (apply (poke_ok _ _ _ o'); [done|gzc; lia]). step.
    eexists. split; [done|]. split; [|split_and!; try done; gzc; lia].
    apply (pushed_stream s D (x_have s + 1) (p' - 1)); try done; try zlia.
    rewrite (Z.add_comm (x_have s)), slice_insert_head by lia.
    by replace (p' - 1 + 1) with p' by lia; rewrite Hsl'.
Qed.

(** ** Lines *)
Definition line_of (n : Z) (D : list Z) : list Z :=
  match list_find (fun b => b = 10) (ztake n D) with
  | Some (i, _) => take (S i) (ztake n D)
  | None => ztake n D
  end.

Lemma line_of_found n bs D i x :
  zlen bs <= n -> list_find (fun b => b = 10) bs = Some (i, x) -> line_of n (bs ++ D) = take (S i) bs.
Proof.
  intros Hn Hf. unfold line_of. rewrite ztake_prefix by done.
  erewrite (list_find_app_l (fun b : Z => b = 10)) by exact Hf. apply list_find_Some in Hf as (Hl & _ & _).
  apply lookup_lt_Some in Hl. apply take_app_le. lia.
Qed.

Lemma line_of_app n bs D :
  zlen bs <= n -> list_find (fun b => b = 10) bs = None ->
  line_of n (bs ++ D) = bs ++ line_of (n - zlen bs) D.
Proof.
  intros Hn Hf. unfold line_of. rewrite ztake_prefix by done. rewrite (list_find_app_r (fun b : Z => b = 10)) by exact Hf.
  destruct (list_find _ (ztake _ D)) as [[i x]|]; simpl; [|done].
  rewrite take_app_ge by lia. do 2 f_equal. lia.
Qed.

Lemma line_of_len n D : 0 <= n -> zlen (line_of n D) <= n.
Proof.
  intros. assert (zlen (ztake n D) <= n) by (unfold zlen, ztake; rewrite length_take; lia).
  unfold line_of. destruct (list_find _ _) as [[i x]|]; [|done].
  unfold zlen in *. rewrite length_take. lia.
Qed.

(** [line_of] is the first line, cut at [n] bytes. *)
Lemma line_of_spec n D :
  0 <= n -> exists rest, D = line_of n D ++ rest /\ (10 ∉ removelast (line_of n D)) /\
    (last (line_of n D) = Some 10 \/ zlen (line_of n D) = n \/ rest = []).
Proof.
  intros Hn. unfold line_of. destruct (list_find _ _) as [[i x]|] eqn:E.
  - apply list_find_Some in E as (Hl & -> & Hbefore).
    assert (Ht : take (S i) (ztake n D) = take i (ztake n D) ++ [10]) by by apply take_S_r.
    exists (drop (S i) (ztake n D) ++ zdrop n D). split; [by rewrite app_assoc, take_drop, ztake_zdrop|].
    rewrite Ht, removelast_last, last_snoc. split; [|by left].
    intros (j & Hj)%list_elem_of_lookup. apply lookup_take_Some in Hj as [Hj Hlt].
    by apply (Hbefore j 10 Hj Hlt).
  - apply list_find_None in E. exists (zdrop n D). split; [by rewrite ztake_zdrop|]. split.
    + intros Hin. rewrite Forall_forall in E. apply (E 10); [|done].
      rewrite removelast_firstn_len in Hin. by apply (subseteq_take _ _ _ Hin).
    + right. destruct (Z.leb_spec n (zlen D)); [left; zlia|right; by apply zdrop_all; lia].
Qed.

Lemma gzgets_loop_ok fuel left buf s raw k :
  Str s raw k -> 0 < left < 2 ^ 31 ->
  zlen (out_avail s ++ raw) + k + work s raw + 1 < Z.of_nat fuel ->
  exists t raw' k', let D := out_avail s ++ raw in
    gzgets_loop fuel left buf s = Ok (Some (buf ++ line_of left D), t) /\ Str t raw' k' /\
    out_avail t ++ raw' = zdrop (zlen (line_of left D)) D /\ kept_io s t /\
    x_pos t = x_pos s + zlen (line_of left D).
Proof.
  revert left buf s raw k. induction fuel as [|fuel IH]; intros left buf s raw k HS Hleft Hf; cbn zeta.
  { pose proof (Str_bound _ _ _ HS). pose proof (work_nonneg s raw).
    pose proof (zlen_nonneg (out_avail s ++ raw)). lia. }
  pose proof (Str_bound _ _ _ HS) as Hkb. cbn [gzgets_loop]. step.
  (* the output buffer holds something, or the stream has ended *)
  assert (exists u raw1 k1, (if x_have s =? 0 then gz_fetch fuel else mret 0) s = Ok (0, u) /\ kept s u /\
    Str u raw1 k1 /\ out_avail u ++ raw1 = out_avail s ++ raw /\ k1 + work u raw1 <= k + work s raw /\
    (x_have u = 0 -> out_avail s ++ raw = [])) as (u & raw1 & k1 & E & Hku & HSu & ED & Hw & Hend).
  { destruct (Z.eqb_spec (x_have s) 0) as [Hx|Hx].
    - pose proof (zlen_nonneg (out_avail s ++ raw)).
      destruct (Str_fetch fuel s raw k) as (u & raw1 & k1 & E & Hk & HSu & Hru & -> & Hw & Hkk & Hend);
        [done|done|lia|].
      exists u, raw1, k1. rewrite (out_avail_nil s Hx). split_and!; try done; [lia|].
      intros Hxu. destruct (Hend Hxu) as (_ & _ & _ & ->). by rewrite out_avail_nil.
    - exists s, raw, k. split_and!; try done. }
  rewrite M_bind_eq, E. destruct (Z.eqb_spec 0 (-1)) as [|_]; [lia|]. step. rewrite <- ED in *. clear ED E.
  destruct Hku as (Hk1 & Hk2 & Hk3 & Hk4 & Hk5 & _).
  assert (Hoal : zlen (out_avail u) = x_have u) by (apply out_avail_len; apply HSu).
  destruct (Z.eqb_spec (x_have u) 0) as [Hx|Hx].
  { step. rewrite Hend by done. exists (set_eof (geof u) true u), raw1, k1.
    unfold line_of, ztake. rewrite take_nil. simpl. rewrite app_nil_r. split_and!; try done.
    - change (out_avail (set_eof _ _ u)) with (out_avail u). by apply Hend.
    - gzc. rewrite zlen_nil. lia. }
  pose proof (zlen_nonneg (out_avail u)).
  set (n := if x_have u >? left then left else x_have u).
  assert (Hn : 0 < n <= x_have u /\ n <= left) by (unfold n; destruct (Z.gtb_spec (x_have u) left); lia).
  destruct (take_out_ok u raw1 k1 n HSu ltac:(lia)) as (E & _ & _).
  rewrite M_bind_eq, E. step.
  assert (Hl : zlen (ztake n (out_avail u)) = n) by (apply zlen_ztake; lia).
  set (bs := ztake n (out_avail u)) in *.
  assert (ED : out_avail u ++ raw1 = bs ++ zdrop n (out_avail u) ++ raw1).
  { unfold bs. by rewrite app_assoc, ztake_zdrop. }
  destruct (list_find (fun b => b = 10) bs) as [[i x]|] eqn:Ef.
  - (* through the end of the line *)
    assert (Hi : (i < length bs)%nat) by (apply list_find_Some in Ef as (Hi & _); by apply lookup_lt_Some in Hi).
    set (n1 := Z.of_nat i + 1). assert (Hn1 : 0 < n1 <= x_have u) by (unfold n1, zlen in *; lia).
    destruct (take_out_ok u raw1 k1 n1 HSu Hn1) as (_ & HSt & Hoa).
    rewrite bool_decide_false, andb_false_r by done. eexists _, raw1, k1.
    rewrite ED, (line_of_found _ _ _ i x) by (done || lia). rewrite <- ED.
    assert (El : ztake n1 bs = take (S i) bs) by (unfold ztake, n1; f_equal; lia).
    assert (Elen : zlen (take (S i) bs) = n1) by (unfold n1, zlen; rewrite length_take; lia).
    split; [by rewrite El|]. split; [exact HSt|]. rewrite Hoa, Elen. split_and!.
    + unfold zdrop. rewrite drop_app_le; [done|]. unfold zlen in *. lia.
    + done.
    + gzc. lia.
  - destruct (take_out_ok u raw1 k1 n HSu ltac:(lia)) as (_ & HSt & Hoa).
    rewrite bool_decide_true, andb_true_r by done. rewrite ztake_all by lia.
    rewrite ED, (line_of_app _ bs) by (done || lia). rewrite Hl.
    set (v := advance n (consume n u)) in *.
    destruct (Z.eqb_spec (left - n) 0) as [Ez|]; cbn [negb].
    + exists v, raw1, k1. assert (line_of (left - n) (zdrop n (out_avail u) ++ raw1) = []) as ->.
      { unfold line_of. rewrite Ez, ztake_0. done. }
      rewrite app_nil_r, Hl. split_and!; try done.
      * by rewrite Hoa, zdrop_app.
      * unfold v. gzc. lia.
    + destruct (IH (left - n) (buf ++ bs) v raw1 k1) as (t & raw' & k' & E2 & HSt2 & HDt & Hk & Hx2);
        [done|lia| |].
      { rewrite Hoa. rewrite ED, zlen_app in Hf. change (work v raw1) with (work u raw1). lia. }
      rewrite Hoa in *. exists t, raw', k'. rewrite E2, <- app_assoc. split_and!; try done.
      * rewrite HDt, zlen_app. rewrite (zdrop_prefix bs); [f_equal; lia|].
        pose proof (zlen_nonneg (line_of (left - n) (zdrop n (out_avail u) ++ raw1))). lia.
      * destruct Hk as (? & ? & ? & ?). unfold kept_io. split_and!; etransitivity; eauto.
      * rewrite Hx2, zlen_app. unfold v. gzc. lia.
Qed.

End theorems.
