(* ===== verification/GzTheorems.v ===== *)
(** * zlib's gzread.c: theorems

    What the calls of zlib.h deliver from a file, on top of the stream lemmas
    of [GzStream], and a small codec as the concrete instance of [inflate]. *)
From S2P Require Import Prelude GzRead GzReadProofs GzStream.
Open Scope Z_scope.

Section theorems.
Context `{HZ : Zlib} `{HL : !ZlibLaws}.

(** C26. [gzread] on an open file delivers the next [len] bytes of the decoded
    stream, or all that is left at its end, whatever the sizes of the reads
    of the file, the buffers and the [inflate] calls; it terminates, moves
    the position by the number of bytes, marks a read past the end, and
    leaves room for a [gzungetc]. *)
Theorem gzread_correct fuel len s D :
  Stream s D -> (seek s = true -> 0 <= skip s) -> 0 < len < 2 ^ 31 -> enough fuel s D ->
  let D' := after_seek s D in
  let r := ztake len D' in
  exists t, gzread fuel len s = Ok ((zlen r, r), t) /\ Stream t (zdrop len D') /\ seek t = false /\
    x_pos t = x_pos s + (zlen D - zlen D') + zlen r /\ past t = past s || (zlen D' <? len) /\ push_room t.
Proof. apply gzread_ok. Qed.

(** [gzgets] delivers the next line of the decoded stream up to and
    including its newline, cut at [len - 1] bytes or at the end of the
    stream, followed by a null byte; it gives a null result exactly when
    there is no byte to deliver, and takes from the stream what it delivers. *)
Theorem gzgets_correct fuel len s D :
  Stream s D -> (seek s = true -> 0 <= skip s) -> 1 <= len < 2 ^ 31 -> enough fuel s D ->
  exists t line rest, after_seek s D = line ++ rest /\ (10 ∉ removelast line) /\
    (last line = Some 10 \/ zlen line = len - 1 \/ rest = []) /\
    gzgets fuel len s = Ok (if decide (line = []) then None else Some (line ++ [0]), t) /\
    Stream t rest /\ seek t = false /\ x_pos t = x_pos s + (zlen D - zlen rest).
Proof.
  intros (Hc & Ho & Hrf & raw & k & Hraw & ->) Hsk Hlen Hf.
  assert (HS : Str s raw k) by done.
  destruct (do_seek_ok fuel s raw k HS Hsk Hf) as (u & raw1 & k1 & E & HSu & HD & Hm & He & Hse & Hp & Hx & Hfu).
  destruct (line_of_spec (len - 1) (after_seek s (out_avail s ++ raw))) as (rest & Er & Hnl & Hend); [lia|].
  unfold gzgets. destruct (Z.ltb_spec len 1); [lia|]. step. rewrite calm_guard by done.
  rewrite M_bind_eq, E. destruct (Z.eqb_spec 0 (-1)) as [|_]; [lia|]. rewrite wrapu_small by lia.
  destruct (Z.eqb_spec (len - 1) 0) as [Ez|Ez].
  - step. assert (El : line_of (len - 1) (after_seek s (out_avail s ++ raw)) = []) by (unfold line_of; by rewrite Ez, ztake_0).
    rewrite El in *. exists u, [], rest. simpl in Er. split_and!; try done.
    + destruct HSu as (? & ? & ? & ?). unfold Stream. rewrite <- Er, <- HD. eauto 10.
    + rewrite Hx, Er. lia.
  - destruct (gzgets_loop_ok fuel (len - 1) [] u raw1 k1 HSu) as (t & raw2 & k2 & E2 & HSt & HDt & Hk & Hxt); [lia| |].
    { unfold fuel_ok in Hfu. pose proof (flag_bound u). pose proof (Str_bound _ _ _ HSu).
      pose proof (zlen_nonneg (out_avail u ++ raw1)). lia. }
    rewrite HD in *. set (line := line_of (len - 1) (after_seek s (out_avail s ++ raw))) in *.
    assert (Erest : rest = zdrop (zlen line) (after_seek s (out_avail s ++ raw))).
    { rewrite Er. by rewrite zdrop_app. }
    exists t, line, rest. rewrite M_bind_eq, E2. split_and!; try done.
    + destruct line; done.
    + destruct HSt as (? & ? & ? & ?). unfold Stream. rewrite Erest, <- HDt. eauto 10.
    + destruct Hk as (_ & -> & _). done.
    + assert (zlen (after_seek s (out_avail s ++ raw)) = zlen line + zlen rest) by by rewrite <- zlen_app, <- Er.
      lia.
Qed.

(** C27. [gzungetc] after a successful [gzread]: the byte pushed back is the
    next one [gzgetc] delivers, and the stream behind it is the one the
    [gzread] left. *)
Theorem gzungetc_roundtrip fuel len s D c :
  Stream s D -> (seek s = true -> 0 <= skip s) -> 0 < len < 2 ^ 31 -> 0 <= c < 256 -> enough fuel s D ->
  exists d t u v, gzread fuel len s = Ok ((zlen d, d), t) /\
    (forall fuel', gzungetc fuel' c t = Ok (c, u)) /\ x_pos u = x_pos t - 1 /\ past u = false /\
    (forall fuel', gzgetc fuel' u = Ok (c, v)) /\ Stream v (zdrop len (after_seek s D)).
Proof.
  intros HS Hsk Hlen Hc Hf.
  destruct (gzread_ok fuel len s D HS Hsk Hlen Hf) as (t & E & HSt & Hse & _ & _ & Hroom).
  set (rest := zdrop len (after_seek s D)) in *.
  destruct (gzungetc_ok O c t rest HSt Hroom Hse) as (u & Eu & HSu & Hseu & _ & Hxu & Hpu & Hhu); [lia|].
  destruct (gzgetc_ok (Z.to_nat (5 * zlen (input u) + 3 * zlen (u8 c :: rest) + 3)) u (u8 c :: rest))
    as (v & Ev & HSv & _); [done|congruence|congruence| |].
  { unfold enough. pose proof (zlen_nonneg (input u)). pose proof (zlen_nonneg (u8 c :: rest)). lia. }
  unfold after_seek in Ev, HSv. rewrite Hseu in Ev, HSv. simpl in Ev. rewrite wrapu_small in Ev by lia.
  exists (ztake len (after_seek s D)), t, u, v. split_and!; try done.
  - intros. by rewrite (gzungetc_fuel _ O).
  - intros. rewrite <- Ev. apply gzgetc_fuel. lia.
Qed.

(** An error is final: after it, or when the file was not opened for
    reading, every call refuses and changes nothing. *)
Theorem gz_errors_sticky fuel len c (s : gz_state) :
  gmode s <> GZ_READ \/ serious s = true ->
  gzread fuel len s = Ok ((-1, []), s) /\ gzgetc fuel s = Ok (-1, s) /\
  gzungetc fuel c s = Ok (-1, s) /\ gzgets fuel len s = Ok (None, s).
Proof.
  intros Hor. assert (Hg : negb (gmode s =? GZ_READ) || serious s = true).
  { destruct Hor as [Hm| ->]; [|by rewrite orb_true_r]. by rewrite (proj2 (Z.eqb_neq _ _)). }
  unfold gzread, gzgetc, gzungetc, gzgets. split_and!.
  1-3: step; by rewrite Hg.
  destruct (len <? 1); [done|]. step. by rewrite Hg.
Qed.

(** [gzungetc] on a file that has just been opened writes through a null
    pointer: the buffers are allocated by the first read only. *)
Theorem gzungetc_fresh_faults fuel c s :
  calm s -> fresh s -> seek s = false -> 0 <= c -> gzungetc fuel c s = Err NullDeref.
Proof.
  intros Hc (Hg & Hx & _ & _ & _ & _ & _ & _ & _ & _ & _ & Ho & _) Hs Hc0.
  unfold gzungetc. step. rewrite calm_guard by done. unfold do_seek. rewrite M_bind_eq. step. rewrite Hs.
  cbn [mret M_ret]. destruct (Z.eqb_spec 0 (-1)); [lia|]. destruct (Z.ltb_spec c 0); [lia|]. step.
  rewrite Hx, Z.eqb_refl. step. rewrite M_bind_eq. unfold poke_out, on_out. step. gzc. rewrite Ho. done.
Qed.

(** [gzdirect] on a file that has not been read yet tells whether its
    first two bytes are not the gzip magic number, and delivers nothing: the
    stream is left as it was. *)
Theorem gzdirect_correct s D :
  Stream s D -> how s = LOOK -> x_have s = 0 -> direct s = true ->
  exists t, gzdirect s = Ok (negb (magic (input s)), t) /\ Stream t D.
Proof.
  intros (Hc & Ho & Hrf & raw & k & Hraw & ->) Hh Hx Hd.
  destruct (gz_look_ok s raw k) as (t & raw1 & k1 & E & Hk & Hct & Hrt & Hot & -> & Hraw1 & _ & _ & Hdir & _); try done.
  exists t. unfold gzdirect. step. destruct Hc as (Hm & _). rewrite Hm, Z.eqb_refl, Hh, Hx. cbn [andb Z.eqb].
  rewrite bool_decide_true by done. cbn [andb]. rewrite M_bind_eq, (M_bind_ok _ _ _ _ _ E).
  cbn [mret M_ret]. step.
  rewrite Hdir, Hd. split; [done|]. rewrite (out_avail_nil s Hx). split_and!; try done; [by left|].
  exists raw1, k1. done.
Qed.

Lemma load_loop_fail fuel len acc s pre f :
  healthy pre -> fd s = pre ++ RError :: f -> zlen acc + zlen (file_bytes pre) < len < 2 ^ 31 ->
  (length pre < fuel)%nat ->
  load_loop fuel len acc s = Ok ((-1, acc ++ file_bytes pre), set_fd f s).
Proof.
  revert fuel acc s. induction pre as [|[bs|] pre IH]; intros fuel acc s Hh Hfd Hl Hf; (destruct fuel as [|fuel]; [lia|]).
  - cbn [load_loop]. step. rewrite Hfd. simpl. by rewrite app_nil_r.
  - apply Forall_cons in Hh as [Hb Hh]. simpl in Hb. rewrite file_bytes_cons in *. rewrite zlen_app in Hl.
    pose proof (zlen_nonneg bs). pose proof (zlen_nonneg acc). pose proof (zlen_nonneg (file_bytes pre)).
    cbn [load_loop]. step. rewrite Hfd.
    change ((Chunk bs :: pre) ++ RError :: f) with (Chunk bs :: (pre ++ RError :: f)). cbn [read_fd].
    destruct (Z.leb_spec (zlen bs) (len - zlen acc)); [|lia]. rewrite ztake_all by lia. step.
    rewrite wraps_small by lia. destruct (Z.leb_spec (zlen bs) 0).
    { exfalso. apply Hb, zlen_nil_inv. lia. }
    rewrite zlen_app. destruct (Z.ltb_spec (zlen acc + zlen bs) len); [|lia].
    rewrite (IH fuel (acc ++ bs) (set_fd (pre ++ RError :: f) s)); try done; [|zlia|simpl in Hf; lia].
    by rewrite <- app_assoc.
  - apply Forall_cons in Hh as [Hb _]. done.
Qed.

(** A failing read of the file makes [gzread] of plain data return -1
    with [Z_ERRNO], and the bytes the same call had already read before the
    failure are lost; a failing allocation makes the first call return -1
    with [Z_MEM_ERROR] and without buffers. *)
Theorem gzread_failures fuel len s :
  gmode s = GZ_READ -> serious s = false -> seek s = false -> x_have s = 0 -> avail_in s = 0 ->
  geof s = false -> 0 < len < 2 ^ 31 -> (1 < fuel)%nat ->
  (forall pre f, ready s -> how s = COPY -> fd s = pre ++ RError :: f -> healthy pre ->
     zlen (file_bytes pre) < Z.max len (2 * gsize s) ->
     exists t, gzread fuel len s = Ok ((-1, []), t) /\ gerr t = Z_ERRNO /\ serious t = true /\ fd t = f) /\
  (gsize s = 0 -> how s = LOOK -> malloc_ok (want s) = false ->
     exists t, gzread fuel len s = Ok ((-1, []), t) /\ gerr t = Z_MEM_ERROR /\ serious t = true /\
       ibuf t = None /\ out t = None /\ gsize t = 0).
Proof.
  intros Hm Hs Hse Hx Ha He Hlen Hfuel.
  assert (Hser : forall e, e = Z_ERRNO \/ e = Z_MEM_ERROR -> negb (e =? Z_OK) && negb (e =? Z_BUF_ERROR) = true).
  { destruct codes as (Hok & _ & Hbuf). rewrite !Forall_cons in Hok, Hbuf.
    intros e Hor. apply andb_true_iff. split; apply negb_true_iff, Z.eqb_neq; naive_solver. }
  assert (Hstart : forall r t, gzread_loop fuel len [] s = Ok (r, t) ->
    gzread fuel len s = Ok (match r with None => (-1, []) | Some got => (zlen got, got) end, t)).
  { intros r t E. unfold gzread. step. rewrite Hm, Hs, Z.eqb_refl. cbn [negb orb]. rewrite wraps_small by lia.
    destruct (Z.ltb_spec len 0); [lia|]. destruct (Z.eqb_spec len 0); [lia|].
    unfold do_seek. rewrite M_bind_eq. step. rewrite Hse. cbn [mret M_ret].
    destruct (Z.eqb_spec 0 (-1)); [lia|]. rewrite M_bind_eq, E. by destruct r. }
  destruct fuel as [|[|fuel]]; [lia|lia|]. split.
  - intros pre f Hr Hh Hfd Hpre Hl. destruct (ready_gsize s Hr) as [Hg _].
    assert (Hload : forall n set, zlen (file_bytes pre) < n < 2 ^ 31 ->
      gz_load n set s = Ok ((-1, file_bytes pre),
        set_have (gz_error_have Z_ERRNO (x_have (set (zlen (file_bytes pre)) (set_fd f s))))
          (set_err Z_ERRNO (set (zlen (file_bytes pre)) (set_fd f s))))).
    { intros n set Hn. unfold gz_load. step.
      rewrite M_bind_eq, (load_loop_fail _ n [] s pre f); try done; rewrite Hfd, length_app; simpl; lia.
    }
    pose proof Hr as (i & ob & z & _ & Hob & _ & _ & Hlo & _).
    assert (exists t, gzread_loop (S (S fuel)) len [] s = Ok (None, t) /\ gerr t = Z_ERRNO /\ fd t = f)
      as (t & E & Het & Hft).
    { cbn [gzread_loop]. step. rewrite Hx, He, Hh. cbn [Z.eqb negb andb]. rewrite bool_decide_false by done. cbn [orb].
      rewrite twice_ok by lia. destruct (Z.ltb_spec len (2 * gsize s)).
      - cbn [gz_fetch]. rewrite M_bind_eq. step. rewrite Hh, twice_ok by lia.
        rewrite M_bind_eq, Hload by lia. cbn [fst snd]. rewrite M_bind_eq, (put_out_ok 0 _ _ ob) by (done || lia).
        eexists. split; [done|]. done.
      - rewrite decide_True by done. rewrite M_bind_eq, Hload by lia. eexists. split; [done|]. done. }
    exists t. rewrite (Hstart _ _ E). split_and!; try done. unfold serious. rewrite Het. apply Hser. by left.
  - intros Hg Hh Hml.
    assert (exists t, gzread_loop (S (S fuel)) len [] s = Ok (None, t) /\ gerr t = Z_MEM_ERROR /\
      ibuf t = None /\ out t = None /\ gsize t = 0) as (t & E & Het & Hrest).
    { cbn [gzread_loop]. step. rewrite Hx, He, Hh. cbn [Z.eqb negb andb]. rewrite bool_decide_true by done. cbn [orb].
      cbn [gz_fetch]. rewrite M_bind_eq. step. rewrite Hh. unfold gz_look. rewrite M_bind_eq. step. rewrite Hg. cbn [Z.eqb].
      unfold look_alloc. rewrite M_bind_eq. step. rewrite Hml. cbn [negb orb]. step. step. eexists. split; [done|]. done. }
    exists t. rewrite (Hstart _ _ E). split_and!; try done; try apply Hrest.
    unfold serious. rewrite Het. apply Hser. by right.
Qed.
End theorems.

(** ** A concrete codec

    A member is the two magic bytes, a length byte, that many bytes of
    content and a trailer byte; [inflate] consumes one byte per call. *)
Definition toy_step (z b : Z) : option (Z * list Z * bool) :=
  if z =? 0 then (if b =? 31 then Some (1, [], false) else None)
  else if z =? 1 then (if b =? 139 then Some (2, [], false) else None)
  else if z =? 2 then Some (3 + b, [], false)
  else if z =? 3 then Some (0, [], true)
  else Some (z - 1, [b], false).

Definition toy_inflate (z : Z) (src : list Z) (room : Z) : Z * Z * list Z * Z :=
  match src with
  | [] => (-5, 0, [], z)
  | b :: _ => match toy_step z b with
              | None => (-3, 0, [], z)
              | Some (z', o, e) => (if (e : bool) then 1 else 0, 1, o, z')
              end
  end.

Fixpoint toy_decode (z : Z) (src : list Z) : option (list Z * list Z) :=
  match src with
  | [] => None
  | b :: src' => match toy_step z b with
                 | None => None
                 | Some (z', o, true) => Some (o, src')
                 | Some (z', o, false) => prod_map (app o) id <$> toy_decode z' src'
                 end
  end.

#[local] Instance Toy : Zlib := {
  Z_OK := 0; Z_STREAM_END := 1; Z_NEED_DICT := 2; Z_ERRNO := -1; Z_STREAM_ERROR := -2;
  Z_DATA_ERROR := -3; Z_MEM_ERROR := -4; Z_BUF_ERROR := -5;
  GZ_READ := 7247;
  istate := Z;
  inflate := toy_inflate;
  inflateInit2 := Some 0;
  inflateReset := fun _ => 0;
  malloc_ok := fun n => n <? 1000;
  gz_error_have := fun e h => if (e =? 0) || (e =? -5) then h else 0
}.

Lemma toy_shorter z I o rest : toy_decode z I = Some (o, rest) -> zlen rest < zlen I.
Proof.
  revert z o rest. induction I as [|b I IH]; intros z o rest; simpl; [done|].
  destruct (toy_step z b) as [[[z' o'] e]|]; [|done]. rewrite zlen_cons. destruct e.
  - injection 1 as _ <-. lia.
  - destruct (toy_decode z' I) as [[o1 r1]|] eqn:E; [|done]. simpl. injection 1 as _ <-.
    apply IH in E. unfold id. lia.
Qed.

Lemma toy_step_out z b z' o e : toy_step z b = Some (z', o, e) -> zlen o <= 1 /\ (e = true -> o = []).
Proof.
  unfold toy_step. repeat (destruct (_ =? _)); intros; simplify_eq; split; try done; unfold zlen; simpl; lia.
Qed.

Lemma toy_codes :
  Forall (fun e => e <> 0 /\ e <> 1) [-2; 2; -4; -3; -1] /\ 0 <> 1 /\
  Forall (fun e => e <> -5) [-2; 2; -4; -3; -1].
Proof. split_and!; [|done|]; repeat constructor; lia. Qed.

Lemma toy_inflate_step z p q o rest n :
  toy_decode z (p ++ q) = Some (o, rest) -> p <> [] -> 0 < n ->
  let '(ret, c, bs, z') := toy_inflate z p n in
  0 <= c <= zlen p /\ zlen bs <= n /\
  exists o', o = bs ++ o' /\
    ((ret = 1 /\ o' = [] /\ rest = zdrop c p ++ q) \/
     (ret = 0 /\ toy_decode z' (zdrop c p ++ q) = Some (o', rest) /\ (0 < c \/ bs <> []))).
Proof.
  intros HD Hp Hn. destruct p as [|b p]; [done|]. simpl in *.
  destruct (toy_step z b) as [[[z' o1] e]|] eqn:E; [|done].
  destruct (toy_step_out _ _ _ _ _ E) as [Hl He]. rewrite zlen_cons. pose proof (zlen_nonneg p).
  split; [lia|]. split; [lia|]. destruct e.
  - injection HD as <- <-. exists []. rewrite He by done. split; [done|]. by left.
  - destruct (toy_decode z' (p ++ q)) as [[o2 r2]|] eqn:E2; [|done]. simpl in HD. injection HD as <- <-.
    exists o2. split; [done|]. right. split; [done|]. split; [exact E2|]. left. lia.
Qed.

#[local] Instance Toy_laws : @ZlibLaws Toy := {|
  Decodes := fun z I o rest => toy_decode z I = Some (o, rest);
  codes := toy_codes;
  Decodes_shorter := toy_shorter;
  inflate_step := toy_inflate_step
|}.

(** Two members and trailing garbage, read in three pieces. *)
Definition ex_file : list revent :=
  [Chunk [31]; Chunk [139; 2; 104]; Chunk [105; 0; 31; 139; 1; 10; 0; 7; 7]].

Definition ex_open (f : list revent) : gz_state :=
  MkGz 0 None 0 7247 f 0 2 None None true LOOK false false 0 false 0 0 0 0 None.

Lemma ex_fresh f : fresh (ex_open f).
Proof. unfold fresh. simpl. split_and!; try done; lia. Qed.

Lemma ex_stream : Stream (ex_open ex_file) [104; 105; 10].
Proof.
  split; [split_and!; [done|done|by repeat constructor]|]. split; [by left|]. split; [right; apply ex_fresh|].
  exists [104; 105; 10], 26. split; [|done]. split; [done|]. split; [done|]. simpl.
  apply (Members_cons _ [104; 105] [31; 139; 1; 10; 0; 7; 7] [10]); [done|done|].
  apply (Members_cons _ [10] [7; 7] []); [done|done|]. by constructor.
Qed.

Lemma ex_enough : enough 200 (ex_open ex_file) [104; 105; 10].
Proof. unfold enough. vm_compute. done. Qed.

Lemma gzread_correct_witness :
  exists t, gzread 200 2 (ex_open ex_file) = Ok ((2, [104; 105]), t) /\ Stream t [10] /\ past t = false.
Proof.
  destruct (gzread_correct 200 2 (ex_open ex_file) [104; 105; 10] ex_stream ltac:(done) ltac:(lia) ex_enough)
    as (t & E & HS & _ & _ & Hp & _).
  exists t. split; [exact E|]. split; [exact HS|exact Hp].
Defined.

Lemma gzgets_correct_witness :
  exists t line rest, [104; 105; 10] = line ++ rest /\
    gzgets 200 10 (ex_open ex_file) = Ok (if decide (line = []) then None else Some (line ++ [0]), t) /\
    Stream t rest.
Proof.
  destruct (gzgets_correct 200 10 (ex_open ex_file) [104; 105; 10] ex_stream ltac:(done) ltac:(lia) ex_enough)
    as (t & line & rest & ED & _ & _ & E & HS & _).
  exists t, line, rest. split; [exact ED|]. split; [exact E|exact HS].
Defined.

Lemma gzungetc_roundtrip_witness :
  exists d t u v, gzread 200 1 (ex_open ex_file) = Ok ((zlen d, d), t) /\
    gzungetc 1 7 t = Ok (7, u) /\ gzgetc 1 u = Ok (7, v) /\ Stream v [105; 10].
Proof.
  destruct (gzungetc_roundtrip 200 1 (ex_open ex_file) [104; 105; 10] 7 ex_stream ltac:(done) ltac:(lia) ltac:(lia) ex_enough)
    as (d & t & u & v & E1 & E2 & _ & _ & E3 & HS).
  exists d, t, u, v. split; [exact E1|]. split; [exact (E2 1%nat)|]. split; [exact (E3 1%nat)|exact HS].
Defined.

Definition ex_failed : gz_state := set_err (-3) (ex_open ex_file).

Lemma gz_errors_sticky_witness :
  gzread 5 4 ex_failed = Ok ((-1, []), ex_failed) /\ gzgets 5 4 ex_failed = Ok (None, ex_failed).
Proof.
  destruct (gz_errors_sticky 5 4 0 ex_failed (or_intror eq_refl)) as (H1 & _ & _ & H4).
  exact (conj H1 H4).
Defined.

Lemma gzungetc_fresh_faults_witness : gzungetc 5 65 (ex_open ex_file) = Err NullDeref.
Proof.
  apply (gzungetc_fresh_faults 5 65 (ex_open ex_file)); [|apply ex_fresh|done|lia].
  split_and!; [done|done|by repeat constructor].
Defined.

Lemma gzdirect_correct_witness :
  exists t, gzdirect (ex_open ex_file) = Ok (false, t) /\ Stream t [104; 105; 10].
Proof. exact (gzdirect_correct (ex_open ex_file) [104; 105; 10] ex_stream eq_refl eq_refl eq_refl). Defined.

(** A plain file in the middle of being copied, and a new one without memory. *)
Definition ex_copy : gz_state :=
  MkGz 0 None 0 7247 [Chunk [1; 2]; RError; Chunk [3]] 2 2 (Some [0; 0]) (Some [0; 0; 0; 0]) true COPY
    false false 0 false 0 0 0 0 (Some 0).
Definition ex_huge : gz_state :=
  MkGz 0 None 0 7247 ex_file 0 4096 None None true LOOK false false 0 false 0 0 0 0 None.

Lemma gzread_failures_witness :
  (exists t, gzread 5 1 ex_copy = Ok ((-1, []), t) /\ gerr t = -1 /\ fd t = [Chunk [3]]) /\
  (exists t, gzread 5 1 ex_huge = Ok ((-1, []), t) /\ gerr t = -4 /\ gsize t = 0).
Proof.
  split.
  - destruct (gzread_failures 5 1 ex_copy) as [Hf _]; try done; try lia.
    destruct (Hf [Chunk [1; 2]] [Chunk [3]]) as (t & E & He & _ & Hfd); try done; [|by repeat constructor|].
    { exists [0; 0], [0; 0; 0; 0], 0. split_and!; done || (simpl; lia). }
    exists t. split; [exact E|]. split; [exact He|exact Hfd].
  - destruct (gzread_failures 5 1 ex_huge) as [_ Hf]; try done; try lia.
    destruct (Hf eq_refl eq_refl eq_refl) as (t & E & He & _ & _ & _ & Hg).
    exists t. split; [exact E|]. split; [exact He|exact Hg].
Defined.
