(* ===== verification/SchedLoad.v ===== *)
(** * Linux: load averages ([kernel/sched/proc.c])

    The global state is the record [sched], with one [rq] per cpu; the
    functions of the source are state transformers in the prelude's monad,
    the cpu they run on being an argument.  [unsigned long] and [long] are
    integers modulo [2 ^ BITS_PER_LONG], with the wrap-around written out
    ([ul], [sl]).  Memory barriers and the run queue's spin lock are left
    out: a call here runs alone; the interleavings of calls are a step
    relation in [SchedTheorems].

    [sched.h], [jiffies.h] and the configuration are not part of the
    repository: they are the class [Kernel]. *)
From S2P Require Import Prelude.
Open Scope Z_scope.

Class Kernel := {
  BITS_PER_LONG : Z;
  CONFIG_NO_HZ_COMMON : bool;
  CONFIG_SMP : bool;
  CPU_LOAD_IDX_MAX : nat;
  FSHIFT : Z;
  FIXED_1 : Z;
  EXP_1 : Z;
  EXP_5 : Z;
  EXP_15 : Z;
  LOAD_FREQ : Z;
  time_before : Z -> Z -> bool;
  rt_avg : Type;
  sched_avg_update : rt_avg -> rt_avg
}.

Section load.
Context `{Kernel}.

Definition ul (z : Z) : Z := wrapu BITS_PER_LONG z.
Definition sl (z : Z) : Z := wraps BITS_PER_LONG z.

Record rq := MkRq {
  nr_running : Z;
  nr_uninterruptible : Z;
  calc_load_active : Z;
  rq_load_update : Z;
  cpu_load : list Z;
  nr_load_updates : Z;
  last_load_update_tick : Z;
  runnable_load_avg : Z;
  load_weight : Z;
  avg : rt_avg
}.

(** [calc_load_idle] is the pair of idle counters, indexed 0 and 1. *)
Record sched := MkSched {
  rqs : list rq;
  calc_load_tasks : Z;
  calc_load_update : Z;
  avenrun : Z * Z * Z;
  calc_load_idle : list Z;
  calc_load_idx : Z;
  jiffies : Z
}.

Abbreviation K := (M sched cfault).

Definition get_rq (cpu : nat) : K rq :=
  s ← getS;
  match rqs s !! cpu with
  | None => throw NullDeref
  | Some r => mret r
  end.

Definition set_rqs (l : list rq) (s : sched) : sched :=
  MkSched l (calc_load_tasks s) (calc_load_update s) (avenrun s) (calc_load_idle s) (calc_load_idx s) (jiffies s).
Definition set_rq (cpu : nat) (r : rq) (s : sched) : sched := set_rqs (<[cpu := r]> (rqs s)) s.
Definition set_tasks (n : Z) (s : sched) : sched :=
  MkSched (rqs s) n (calc_load_update s) (avenrun s) (calc_load_idle s) (calc_load_idx s) (jiffies s).
Definition set_update (n : Z) (s : sched) : sched :=
  MkSched (rqs s) (calc_load_tasks s) n (avenrun s) (calc_load_idle s) (calc_load_idx s) (jiffies s).
Definition set_avenrun (a : Z * Z * Z) (s : sched) : sched :=
  MkSched (rqs s) (calc_load_tasks s) (calc_load_update s) a (calc_load_idle s) (calc_load_idx s) (jiffies s).
Definition set_idle (l : list Z) (s : sched) : sched :=
  MkSched (rqs s) (calc_load_tasks s) (calc_load_update s) (avenrun s) l (calc_load_idx s) (jiffies s).
Definition set_idx (i : Z) (s : sched) : sched :=
  MkSched (rqs s) (calc_load_tasks s) (calc_load_update s) (avenrun s) (calc_load_idle s) i (jiffies s).

Definition rq_set_active (n : Z) (r : rq) : rq :=
  MkRq (nr_running r) (nr_uninterruptible r) n (rq_load_update r) (cpu_load r) (nr_load_updates r)
    (last_load_update_tick r) (runnable_load_avg r) (load_weight r) (avg r).
Definition rq_set_update (n : Z) (r : rq) : rq :=
  MkRq (nr_running r) (nr_uninterruptible r) (calc_load_active r) n (cpu_load r) (nr_load_updates r)
    (last_load_update_tick r) (runnable_load_avg r) (load_weight r) (avg r).
Definition rq_set_tick (n : Z) (r : rq) : rq :=
  MkRq (nr_running r) (nr_uninterruptible r) (calc_load_active r) (rq_load_update r) (cpu_load r)
    (nr_load_updates r) n (runnable_load_avg r) (load_weight r) (avg r).
Definition rq_set_loads (l : list Z) (n : Z) (a : rt_avg) (r : rq) : rq :=
  MkRq (nr_running r) (nr_uninterruptible r) (calc_load_active r) (rq_load_update r) l n
    (last_load_update_tick r) (runnable_load_avg r) (load_weight r) a.

Definition this_cpu_load (cpu : nat) : K Z :=
  r ← get_rq cpu;
  match cpu_load r !! 0%nat with
  | None => throw OutOfBounds
  | Some l => mret l
  end.

(** The three loads stored in the caller's array. *)
Definition get_avenrun (offset shift : Z) (s : sched) : list Z :=
  let '(a0, a1, a2) := avenrun s in
  (fun a => ul (Z.shiftl (ul (a + offset)) shift)) <$> [a0; a1; a2].

Definition calc_load_fold_active (cpu : nat) : K Z :=
  r ← get_rq cpu;
  let nr_active := sl (nr_running r) in
  let nr_active := sl (nr_active + sl (nr_uninterruptible r)) in
  if negb (nr_active =? calc_load_active r) then
    let delta := sl (nr_active - calc_load_active r) in
    modS (set_rq cpu (rq_set_active nr_active r)) ;;
    mret delta
  else mret 0.

Definition calc_load (load exp active : Z) : Z :=
  let load := ul (load * exp) in
  let load := ul (load + ul (active * ul (FIXED_1 - exp))) in
  let load := ul (load + ul (Z.shiftl 1 (FSHIFT - 1))) in
  Z.shiftr load FSHIFT.

(** [atomic_long_add] on the global counter and on an idle counter. *)
Definition tasks_add (delta : Z) (s : sched) : sched := set_tasks (sl (calc_load_tasks s + delta)) s.
Definition idle_add (idx delta : Z) (s : sched) : sched :=
  set_idle (alter (fun d => sl (d + delta)) (Z.to_nat idx) (calc_load_idle s)) s.

(** ** CONFIG_NO_HZ_COMMON *)
Definition calc_load_write_idx (s : sched) : Z :=
  let idx := calc_load_idx s in
  let idx := if negb (time_before (jiffies s) (calc_load_update s)) then wraps 32 (idx + 1) else idx in
  Z.land idx 1.

Definition calc_load_read_idx (s : sched) : Z := Z.land (calc_load_idx s) 1.

Definition calc_load_enter_idle (cpu : nat) : K unit :=
  delta ← calc_load_fold_active cpu;
  if negb (delta =? 0) then
    s ← getS;
    putS (idle_add (calc_load_write_idx s) delta s)
  else mret tt.

Definition calc_load_exit_idle (cpu : nat) : K unit :=
  s ← getS;
  r ← get_rq cpu;
  if time_before (jiffies s) (rq_load_update r) then mret tt
  else
    let u := calc_load_update s in
    let u := if time_before (jiffies s) (ul (u + 10)) then ul (u + LOAD_FREQ) else u in
    modS (set_rq cpu (rq_set_update u r)).

Definition calc_load_fold_idle : K Z :=
  if CONFIG_NO_HZ_COMMON then
    s ← getS;
    let idx := Z.to_nat (calc_load_read_idx s) in
    match calc_load_idle s !! idx with
    | None => throw OutOfBounds
    | Some d =>
        if negb (d =? 0) then putS (set_idle (<[idx := 0]> (calc_load_idle s)) s) ;; mret d
        else mret 0
    end
  else mret 0.

(** The loop of [fixed_power_int], for [n] not null; an [unsigned int] has
    32 bits to shift out. *)
Fixpoint power_loop (fuel : nat) (x frac_bits n result : Z) : res cfault Z :=
  match fuel with
  | O => Timeout
  | S fuel' =>
      let result :=
        if Z.land n 1 =? 0 then result
        else
          let result := ul (result * x) in
          let result := ul (result + ul (Z.shiftl 1 (frac_bits - 1))) in
          Z.shiftr result frac_bits in
      let n := Z.shiftr n 1 in
      if n =? 0 then Ok result
      else
        let x := ul (x * x) in
        let x := ul (x + ul (Z.shiftl 1 (frac_bits - 1))) in
        let x := Z.shiftr x frac_bits in
        power_loop fuel' x frac_bits n result
  end.

Definition fixed_power_int (x frac_bits n : Z) : res cfault Z :=
  let result := ul (Z.shiftl 1 frac_bits) in
  if n =? 0 then Ok result else power_loop 32 x frac_bits n result.

Definition calc_load_n (load exp active n : Z) : res cfault Z :=
  e ← fixed_power_int exp FSHIFT n;
  mret (calc_load load e active).

Definition calc_global_nohz : K unit :=
  if CONFIG_NO_HZ_COMMON then
    s ← getS;
    (if negb (time_before (jiffies s) (ul (calc_load_update s + 10))) then
       let delta := sl (jiffies s - calc_load_update s - 10) in
       let n := sl (1 + Z.quot delta LOAD_FREQ) in
       let active := calc_load_tasks s in
       let active := if active >? 0 then sl (active * FIXED_1) else 0 in
       let '(a0, a1, a2) := avenrun s in
       a0 ← lift (calc_load_n a0 EXP_1 (ul active) (u32 n));
       a1 ← lift (calc_load_n a1 EXP_5 (ul active) (u32 n));
       a2 ← lift (calc_load_n a2 EXP_15 (ul active) (u32 n));
       modS (set_avenrun (a0, a1, a2)) ;;
       modS (fun s => set_update (ul (calc_load_update s + n * LOAD_FREQ)) s)
     else mret tt) ;;
    modS (fun s => set_idx (wraps 32 (calc_load_idx s + 1)) s)
  else mret tt.

Definition calc_global_load : K unit :=
  s ← getS;
  if time_before (jiffies s) (ul (calc_load_update s + 10)) then mret tt
  else
    delta ← calc_load_fold_idle;
    (if negb (delta =? 0) then modS (tasks_add delta) else mret tt) ;;
    s ← getS;
    let active := calc_load_tasks s in
    let active := if active >? 0 then sl (active * FIXED_1) else 0 in
    let '(a0, a1, a2) := avenrun s in
    modS (set_avenrun (calc_load a0 EXP_1 (ul active), calc_load a1 EXP_5 (ul active),
                       calc_load a2 EXP_15 (ul active))) ;;
    modS (fun s => set_update (ul (calc_load_update s + LOAD_FREQ)) s) ;;
    calc_global_nohz.

Definition calc_load_account_active (cpu : nat) : K unit :=
  s ← getS;
  r ← get_rq cpu;
  if time_before (jiffies s) (rq_load_update r) then mret tt
  else
    delta ← calc_load_fold_active cpu;
    (if negb (delta =? 0) then modS (tasks_add delta) else mret tt) ;;
    r ← get_rq cpu;
    modS (set_rq cpu (rq_set_update (ul (rq_load_update r + LOAD_FREQ)) r)).

(** ** Per-cpu loads *)
Definition DEGRADE_SHIFT : Z := 7.
Definition degrade_zero_ticks : list Z := [0; 8; 32; 64; 128].

(** Rows are padded to [DEGRADE_SHIFT + 1] columns, as C pads them. *)
Definition degrade_factor : list (list Z) :=
  [[0; 0; 0; 0; 0; 0; 0; 0];
   [64; 32; 8; 0; 0; 0; 0; 0];
   [96; 72; 40; 12; 1; 0; 0; 0];
   [112; 98; 75; 43; 15; 1; 0; 0];
   [120; 112; 98; 76; 45; 16; 2; 0]].

(** An array access. *)
Definition at_index {A} (l : list A) (i : nat) : res cfault A :=
  match l !! i with
  | Some x => Ok x
  | None => Err OutOfBounds
  end.

(** The loop of [decay_load_missed]; an [unsigned long] has
    [BITS_PER_LONG] bits to shift out. *)
Fixpoint decay_loop (fuel : nat) (load missed : Z) (idx j : nat) : res cfault Z :=
  if missed =? 0 then Ok load
  else
    match fuel with
    | O => Timeout
    | S fuel' =>
        load ← (if missed mod 2 =? 0 then Ok load
                else
                  row ← at_index degrade_factor idx;
                  f ← at_index row j;
                  Ok (Z.shiftr (ul (load * f)) DEGRADE_SHIFT));
        decay_loop fuel' load (Z.shiftr missed 1) idx (S j)
    end.

Definition decay_load_missed (load missed_updates : Z) (idx : nat) : res cfault Z :=
  if missed_updates =? 0 then Ok load
  else
    zero_ticks ← at_index degrade_zero_ticks idx;
    if missed_updates >=? zero_ticks then Ok 0
    else if (idx =? 1)%nat then Ok (Z.shiftr load missed_updates)
    else decay_loop (Z.to_nat BITS_PER_LONG) load missed_updates idx 0.

(** The loop of [__update_cpu_load]: [k] iterations from index [i]. *)
Fixpoint update_loop (k i : nat) (scale this_load pending_updates : Z) (loads : list Z) : res cfault (list Z) :=
  match k with
  | O => Ok loads
  | S k' =>
      old_load ← at_index loads i;
      old_load ← decay_load_missed old_load (ul (pending_updates - 1)) i;
      let new_load := this_load in
      let new_load := if new_load >? old_load then ul (new_load + (scale - 1)) else new_load in
      let v := Z.shiftr (ul (ul (old_load * (scale - 1)) + new_load)) (Z.of_nat i) in
      update_loop k' (S i) (wraps 32 (scale + scale)) this_load pending_updates (<[i := v]> loads)
  end.

Definition __update_cpu_load (cpu : nat) (this_load pending_updates : Z) : K unit :=
  r ← get_rq cpu;
  _ ← lift (at_index (cpu_load r) 0%nat);
  loads ← lift (update_loop (CPU_LOAD_IDX_MAX - 1) 1 2 this_load pending_updates
                  (<[0%nat := this_load]> (cpu_load r)));
  modS (set_rq cpu (rq_set_loads loads (ul (nr_load_updates r + 1)) (sched_avg_update (avg r)) r)).

Definition get_rq_runnable_load (r : rq) : Z :=
  if CONFIG_SMP then runnable_load_avg r else load_weight r.

Definition update_idle_cpu_load (cpu : nat) : K unit :=
  s ← getS;
  r ← get_rq cpu;
  let curr_jiffies := jiffies s in
  let load := get_rq_runnable_load r in
  if negb (load =? 0) || (curr_jiffies =? last_load_update_tick r) then mret tt
  else
    let pending_updates := ul (curr_jiffies - last_load_update_tick r) in
    modS (set_rq cpu (rq_set_tick curr_jiffies r)) ;;
    __update_cpu_load cpu load pending_updates.

Definition update_cpu_load_nohz (cpu : nat) : K unit :=
  s ← getS;
  r ← get_rq cpu;
  let curr_jiffies := jiffies s in
  if curr_jiffies =? last_load_update_tick r then mret tt
  else
    let pending_updates := ul (curr_jiffies - last_load_update_tick r) in
    if negb (pending_updates =? 0) then
      modS (set_rq cpu (rq_set_tick curr_jiffies r)) ;;
      __update_cpu_load cpu 0 pending_updates
    else mret tt.

Definition update_cpu_load_active (cpu : nat) : K unit :=
  s ← getS;
  r ← get_rq cpu;
  let load := get_rq_runnable_load r in
  putS (set_rq cpu (rq_set_tick (jiffies s) r) s) ;;
  __update_cpu_load cpu load 1 ;;
  calc_load_account_active cpu.
End load.
