(* ===== verification/SchedProofs.v ===== *)
(** * Linux load averages: words, accounting and arithmetic

    Congruence of longs as a setoid, the step relation of interleaved calls,
    and the arithmetic of the fixed-point averages. *)
From S2P Require Import Prelude SchedLoad.
Open Scope Z_scope.

(** What [sched.h] and [jiffies.h] define, for either word size. *)
Class SchedLaws `{Kernel} : Prop := {
  word_size : 32 <= BITS_PER_LONG;
  load_indices : CPU_LOAD_IDX_MAX = 5%nat;
  fixed_point : 1 <= FSHIFT <= 11 /\ FIXED_1 = 2 ^ FSHIFT;
  weights : 0 <= EXP_1 <= FIXED_1 /\ 0 <= EXP_5 <= FIXED_1 /\ 0 <= EXP_15 <= FIXED_1;
  load_freq : 10 < LOAD_FREQ < 2 ^ 20;
  time_before_spec a b : time_before a b = (sl (a - b) <? 0)
}.

Section proofs.
Context `{HK : Kernel} `{HL : !SchedLaws}.

(** ** Words *)
Abbreviation W := (2 ^ BITS_PER_LONG).

Lemma W_pos : 2 ^ 32 <= W.
Proof. apply Z.pow_le_mono_r; [lia|apply word_size]. Qed.

Lemma ul_small z : 0 <= z < W -> ul z = z.
Proof. apply wrapu_small. Qed.

Lemma ul_bounds z : 0 <= ul z < W.
Proof. apply wrapu_bounds. pose proof word_size. lia. Qed.

Lemma half_W : W = 2 * 2 ^ (BITS_PER_LONG - 1).
Proof. rewrite <- Z.pow_succ_r by (pose proof word_size; lia). f_equal. lia. Qed.

Lemma sl_small z : - 2 ^ (BITS_PER_LONG - 1) <= z < 2 ^ (BITS_PER_LONG - 1) -> sl z = z.
Proof. apply wraps_small. pose proof word_size. lia. Qed.

(** Equality of longs. *)
Definition cong (a b : Z) : Prop := exists k, a = b + k * W.
Local Infix "≡ₗ" := cong (at level 70).

#[global] Instance cong_equiv : Equivalence cong.
Proof.
  split.
  - intros a. exists 0. lia.
  - intros a b [k ->]. exists (- k). lia.
  - intros a b c [k ->] [k' ->]. exists (k + k'). lia.
Qed.

#[global] Instance cong_add : Proper (cong ==> cong ==> cong) Z.add.
Proof. intros a b [k ->] c d [k' ->]. exists (k + k'). lia. Qed.

#[global] Instance cong_sub : Proper (cong ==> cong ==> cong) Z.sub.
Proof. intros a b [k ->] c d [k' ->]. exists (k - k'). lia. Qed.

Lemma sl_cong z : sl z ≡ₗ z.
Proof.
  exists (- ((z + 2 ^ (BITS_PER_LONG - 1)) / W)). unfold sl, wraps.
  pose proof (Z.div_mod (z + 2 ^ (BITS_PER_LONG - 1)) W). pose proof W_pos. lia.
Qed.

Lemma sl_cong_eq a b : a ≡ₗ b -> sl a = sl b.
Proof.
  intros [k ->]. unfold sl, wraps. f_equal.
  replace (b + k * W + 2 ^ (BITS_PER_LONG - 1)) with (b + 2 ^ (BITS_PER_LONG - 1) + k * W) by lia.
  apply Z.mod_add. pose proof W_pos. lia.
Qed.

(** ** Accounting *)
Inductive target := ToTasks | ToIdle (idx : Z).

(** A state with the atomic additions that the cpus have still to do. *)
Definition config : Type := sched * list (target * Z).

Definition same_accounts (s s' : sched) : Prop :=
  calc_load_active <$> rqs s' = calc_load_active <$> rqs s /\
  calc_load_tasks s' = calc_load_tasks s /\ calc_load_idle s' = calc_load_idle s.

(** The atomic steps of the cpus: anything that leaves the counters alone; a
    cpu takes the change of its own count; a cpu takes an idle counter; one
    of the outstanding additions is done, or is skipped because it is zero. *)
Inductive step : config -> config -> Prop :=
| step_other s s' p : same_accounts s s' -> step (s, p) (s', p)
| step_fold cpu s d s' t p :
    calc_load_fold_active cpu s = Ok (d, s') -> step (s, p) (s', (t, d) :: p)
| step_take_idle s d s' p :
    calc_load_fold_idle s = Ok (d, s') -> step (s, p) (s', (ToTasks, d) :: p)
| step_add_tasks s p1 d p2 : step (s, p1 ++ (ToTasks, d) :: p2) (tasks_add d s, p1 ++ p2)
| step_add_idle s p1 idx d p2 :
    is_Some (calc_load_idle s !! Z.to_nat idx) ->
    step (s, p1 ++ (ToIdle idx, d) :: p2) (idle_add idx d s, p1 ++ p2)
| step_skip s p1 t p2 : step (s, p1 ++ (t, 0) :: p2) (s, p1 ++ p2).

Definition active_sum (s : sched) : Z := sumZ (calc_load_active <$> rqs s).

Definition nr_active (r : rq) : Z := sl (sl (nr_running r) + sl (nr_uninterruptible r)).

Lemma fold_active_inv cpu s d s' :
  calc_load_fold_active cpu s = Ok (d, s') ->
  exists r, rqs s !! cpu = Some r /\ d ≡ₗ nr_active r - calc_load_active r /\
    active_sum s' ≡ₗ active_sum s + d /\
    s' = set_rqs (<[cpu := rq_set_active (nr_active r) r]> (rqs s)) s.
Proof.
  unfold calc_load_fold_active, get_rq. rewrite !M_bind_eq. cbn [getS]. intros E.
  destruct (rqs s !! cpu) as [r|] eqn:Hr; [|done]. cbn [mret M_ret] in E. exists r.
  unfold nr_active. destruct (Z.eqb_spec (sl (sl (nr_running r) + sl (nr_uninterruptible r))) (calc_load_active r)) as [Ea|Ea];
    cbn [negb] in E.
  - injection E as <- <-. rewrite Ea. split; [done|]. split; [by rewrite Z.sub_diag|].
    split; [by rewrite Z.add_0_r|].
    rewrite list_insert_id; [by destruct s|]. rewrite Hr. by destruct r.
  - rewrite M_bind_eq in E. cbn [modS mret M_ret] in E. injection E as <- <-.
    split; [done|]. split; [apply sl_cong|]. split; [|done].
    unfold active_sum. simpl. rewrite list_fmap_insert. simpl.
    rewrite (sumZ_insert _ _ (calc_load_active r)) by by rewrite list_lookup_fmap, Hr.
    set (n := sl (sl (nr_running r) + sl (nr_uninterruptible r))).
    rewrite (sl_cong (n - calc_load_active r)).
    by replace (sumZ (calc_load_active <$> rqs s) - calc_load_active r + n) with
      (sumZ (calc_load_active <$> rqs s) + (n - calc_load_active r)) by lia.
Qed.

Lemma fold_idle_inv s d s' :
  calc_load_fold_idle s = Ok (d, s') ->
  s' = set_idle (calc_load_idle s') s /\ sumZ (calc_load_idle s') = sumZ (calc_load_idle s) - d /\
  length (calc_load_idle s') = length (calc_load_idle s).
Proof.
  unfold calc_load_fold_idle. destruct CONFIG_NO_HZ_COMMON.
  - rewrite M_bind_eq. cbn [getS]. destruct (calc_load_idle s !! _) as [d'|] eqn:Ed; [|done].
    destruct (Z.eqb_spec d' 0); cbn [negb].
    + injection 1 as <- <-. split; [by destruct s|]. split; [lia|done].
    + rewrite M_bind_eq. cbn [putS mret M_ret]. injection 1 as <- <-. split; [done|]. simpl.
      rewrite (sumZ_insert _ _ d'), length_insert by done. split; [lia|done].
  - injection 1 as <- <-. split; [by destruct s|]. split; [lia|done].
Qed.

Definition pending (p : list (target * Z)) : Z := sumZ (snd <$> p).

Lemma pending_cons t d p : pending ((t, d) :: p) = d + pending p.
Proof. done. Qed.

Lemma pending_app p1 p2 : pending (p1 ++ p2) = pending p1 + pending p2.
Proof. unfold pending. by rewrite fmap_app, sumZ_app. Qed.

(** Every change a cpu has taken is in the global count, in an idle counter
    or on its way. *)
Definition accounted (c : config) : Prop :=
  calc_load_tasks c.1 + sumZ (calc_load_idle c.1) + pending c.2 ≡ₗ active_sum c.1.

Lemma cong_move a b c : a ≡ₗ c -> b = a -> b ≡ₗ c.
Proof. by intros ? ->. Qed.

Lemma step_accounted c c' : step c c' -> accounted c -> accounted c'.
Proof.
  unfold accounted. intros Hs. destruct Hs as [s s' p (Ha & Ht & Hi)|cpu s d s' t p E|s d s' p E|s p1 d p2|s p1 idx d p2 Hi|s p1 t p2];
    cbn [fst snd]; intros Hacc; rewrite ?pending_app, ?pending_cons in *.
  - unfold active_sum. by rewrite Ha, Ht, Hi.
  - apply fold_active_inv in E as (r & Hr & Hd & Hsum & ->). rewrite Hsum, <- Hacc.
    simpl. eapply cong_move; [reflexivity|lia].
  - apply fold_idle_inv in E as (-> & Hsum & _). simpl in *. rewrite Hsum.
    eapply cong_move; [exact Hacc|lia].
  - simpl. rewrite (sl_cong (_ + d)). eapply cong_move; [exact Hacc|lia].
  - destruct Hi as [x Hx]. unfold idle_add. simpl. rewrite (alter_sum _ _ _ x), (sl_cong (x + d)) by done.
    eapply cong_move; [exact Hacc|lia].
  - eapply cong_move; [exact Hacc|lia].
Qed.

Lemma steps_accounted c c' : rtc step c c' -> accounted c -> accounted c'.
Proof. induction 1; eauto using step_accounted. Qed.

(** ** A whole call is a sequence of steps *)
Lemma step_add s t d p : is_Some (match t with ToIdle idx => calc_load_idle s !! Z.to_nat idx | _ => Some 0 end) ->
  step (s, (t, d) :: p) (match t with ToTasks => tasks_add d s | ToIdle idx => idle_add idx d s end, p).
Proof. destruct t; [intros _; apply (step_add_tasks _ [])|apply (step_add_idle _ [])]. Qed.

Lemma same_accounts_rq s cpu r r' :
  rqs s !! cpu = Some r -> calc_load_active r' = calc_load_active r -> same_accounts s (set_rq cpu r' s).
Proof.
  intros Hr Ha. unfold same_accounts, set_rq. simpl. split; [|done].
  rewrite list_fmap_insert, Ha. apply list_insert_id. by rewrite list_lookup_fmap, Hr.
Qed.

Lemma land_1 i : Z.land i 1 = 0 \/ Z.land i 1 = 1.
Proof.
  assert (E : Z.land i 1 = i mod 2) by exact (Z.land_ones i 1 ltac:(lia)).
  pose proof (Z.mod_pos_bound i 2). lia.
Qed.

Definition two_counters (s : sched) : Prop := length (calc_load_idle s) = 2%nat.

Lemma write_idx_counter s s' : two_counters s -> is_Some (calc_load_idle s !! Z.to_nat (calc_load_write_idx s')).
Proof.
  intros H2. apply lookup_lt_is_Some. rewrite H2. unfold calc_load_write_idx.
  match goal with |- context [Z.land ?i 1] => destruct (land_1 i) as [-> | ->] end; simpl; lia.
Qed.

(** The addition after a fold, done or skipped. *)
Lemma steps_add_delta s d :
  rtc step (s, [(ToTasks, d)]) (if negb (d =? 0) then tasks_add d s else s, []).
Proof.
  apply rtc_once. destruct (Z.eqb_spec d 0) as [->|]; cbn [negb].
  - apply (step_skip _ []).
  - apply (step_add _ ToTasks). done.
Qed.

Lemma enter_idle_steps cpu s s' :
  two_counters s -> calc_load_enter_idle cpu s = Ok (tt, s') -> rtc step (s, []) (s', []).
Proof.
  intros H2. unfold calc_load_enter_idle. intros E. apply M_bind_inv in E as (d & s1 & Ef & E).
  set (idx := calc_load_write_idx s1).
  pose proof Ef as Hi. apply fold_active_inv in Hi as (r & _ & _ & _ & Hs1).
  eapply rtc_l; [by apply (step_fold cpu s d s1 (ToIdle idx) [])|]. apply rtc_once.
  destruct (Z.eqb_spec d 0) as [->|]; cbn [negb] in E.
  - injection E as <-. apply (step_skip _ []).
  - rewrite M_bind_eq in E. cbn [getS putS] in E. injection E as <-.
    apply (step_add s1 (ToIdle idx)). rewrite Hs1. simpl. by apply write_idx_counter.
Qed.

Lemma exit_idle_steps cpu s s' : calc_load_exit_idle cpu s = Ok (tt, s') -> rtc step (s, []) (s', []).
Proof.
  unfold calc_load_exit_idle, get_rq. rewrite M_bind_eq. cbn [getS]. rewrite !M_bind_eq. cbn [getS].
  destruct (rqs s !! cpu) as [r|] eqn:Hr; [|done]. cbn [mret M_ret].
  destruct (time_before _ _).
  - injection 1 as <-. done.
  - cbn [modS]. injection 1 as <-. apply rtc_once, step_other. by eapply same_accounts_rq.
Qed.

Lemma account_active_steps cpu s s' :
  calc_load_account_active cpu s = Ok (tt, s') -> rtc step (s, []) (s', []).
Proof.
  unfold calc_load_account_active. intros E. apply M_bind_inv in E as (s0 & ? & Es & E). injection Es as <- <-.
  apply M_bind_inv in E as (r & s1 & Er & E). unfold get_rq in Er. rewrite M_bind_eq in Er. cbn [getS] in Er.
  destruct (rqs s !! cpu); [|done]. injection Er as -> <-. destruct (time_before _ _).
  { injection E as <-. done. }
  apply M_bind_inv in E as (d & s2 & Ef & E). apply M_bind_inv in E as ([] & s3 & Ea & E).
  eapply rtc_l; [by apply (step_fold cpu s d s2 ToTasks [])|].
  etrans; [apply steps_add_delta|].
  assert (s3 = if negb (d =? 0) then tasks_add d s2 else s2) as <-.
  { destruct (negb _); by injection Ea. }
  apply M_bind_inv in E as (r' & s4 & Er & E). unfold get_rq in Er. rewrite M_bind_eq in Er. cbn [getS] in Er.
  destruct (rqs s3 !! cpu) as [r0|] eqn:Hr0; [|done]. injection Er as -> <-. injection E as <-.
  apply rtc_once, step_other. by eapply same_accounts_rq.
Qed.

Lemma global_nohz_same s x s' : calc_global_nohz s = Ok (x, s') -> same_accounts s s'.
Proof.
  unfold calc_global_nohz. destruct CONFIG_NO_HZ_COMMON; [|by injection 1 as <- <-].
  intros E. apply M_bind_inv in E as (s0 & ? & Es & E). injection Es as <- <-.
  apply M_bind_inv in E as ([] & s1 & E1 & E2).
  assert (same_accounts s s1) as Hs1.
  { destruct (negb _); [|by injection E1 as <-]. destruct (avenrun s) as [[a0 a1] a2].
    apply M_bind_inv in E1 as (v0 & t0 & L0 & E1). apply M_bind_inv in E1 as (v1 & t1 & L1 & E1).
    apply M_bind_inv in E1 as (v2 & t2 & L2 & E1).
    assert (t0 = s) as -> by (unfold lift in L0; destruct (calc_load_n a0 _ _ _); by simplify_eq).
    assert (t1 = s) as -> by (unfold lift in L1; destruct (calc_load_n a1 _ _ _); by simplify_eq).
    assert (t2 = s) as -> by (unfold lift in L2; destruct (calc_load_n a2 _ _ _); by simplify_eq).
    rewrite M_bind_eq in E1. cbn [modS] in E1. by injection E1 as <-. }
  injection E2 as <- <-. exact Hs1.
Qed.

Lemma global_load_steps s s' : calc_global_load s = Ok (tt, s') -> rtc step (s, []) (s', []).
Proof.
  unfold calc_global_load. intros E. apply M_bind_inv in E as (s0 & ? & Es & E). injection Es as <- <-.
  destruct (time_before _ _); [by injection E as <-|].
  apply M_bind_inv in E as (d & s1 & Ef & E). apply M_bind_inv in E as ([] & s2 & Ea & E).
  eapply rtc_l; [by apply (step_take_idle s d s1 [])|].
  etrans; [apply steps_add_delta|].
  assert (s2 = if negb (d =? 0) then tasks_add d s1 else s1) as <-.
  { destruct (negb _); by injection Ea. }
  apply M_bind_inv in E as (s3 & ? & Es & E). injection Es as <- <-. destruct (avenrun s2) as [[a0 a1] a2].
  rewrite M_bind_eq in E. cbn [modS] in E. rewrite M_bind_eq in E. cbn [modS] in E.
  apply global_nohz_same in E. apply rtc_once, step_other. exact E.
Qed.

End proofs.
