(* ===== verification/SchedArith.v ===== *)
(** * Linux load averages: fixed-point arithmetic

    What the averages compute, as exact integer formulas with error bounds. *)
From S2P Require Import Prelude SchedLoad SchedProofs.
Open Scope Z_scope.

(** ** Powers with rounding

    [Approx F X y k e]: in units of [1 / F], [y] is within [e / 2] of the
    [k]-th power of [X]. *)
Definition Approx (F X y : Z) (k : nat) (e : Z) : Prop :=
  - (e * F ^ Z.of_nat k) <= 2 * (y * F ^ Z.of_nat k - F * X ^ Z.of_nat k) <= e * F ^ Z.of_nat k.

Lemma Approx_one F X : 0 < F -> Approx F X F 0 0.
Proof. unfold Approx. simpl. lia. Qed.

Lemma Approx_self F X : Approx F X X 1 0.
Proof. unfold Approx. change (Z.of_nat 1) with 1. rewrite !Z.pow_1_r. lia. Qed.

Lemma product_error F H a b r P Q x y ea eb :
  F = 2 * H -> 0 < F -> 0 <= a <= F -> 0 <= b -> 0 < P -> 0 < Q -> 0 <= x -> 0 <= y <= Q -> 0 <= ea -> 0 <= eb ->
  r = (a * b + H) / F ->
  - (ea * P) <= 2 * (a * P - F * x) <= ea * P ->
  - (eb * Q) <= 2 * (b * Q - F * y) <= eb * Q ->
  - ((ea + eb + 1) * (P * Q)) <= 2 * (r * (P * Q) - F * (x * y)) <= (ea + eb + 1) * (P * Q).
Proof.
  intros HF HF0 Ha Hb HP HQ Hx Hy Hea Heb Hr Hv Hu.
  set (u := b * Q - F * y) in *. set (v := a * P - F * x) in *.
  assert (Hd : - F <= 2 * (r * F - a * b) <= F).
  { subst r. pose proof (Z.div_mod (a * b + H) F). pose proof (Z.mod_pos_bound (a * b + H) F). lia. }
  set (d := r * F - a * b) in *.
  assert (E : F * (r * (P * Q) - F * (x * y)) = a * P * u + F * y * v + d * (P * Q)).
  { unfold u, v, d. ring. }
  assert (H1 : - (F * P * (eb * Q)) <= a * P * (2 * u) <= F * P * (eb * Q)).
  { assert (0 <= eb * Q) by lia. assert (0 <= a * P <= F * P) by nia. split; nia. }
  assert (H2 : - (F * Q * (ea * P)) <= F * y * (2 * v) <= F * Q * (ea * P)).
  { assert (0 <= ea * P) by lia. assert (0 <= F * y <= F * Q) by nia. split; nia. }
  assert (H3 : - (F * (P * Q)) <= 2 * d * (P * Q) <= F * (P * Q)).
  { assert (0 < P * Q) by nia. split; nia. }
  assert (H4 : - (F * ((ea + eb + 1) * (P * Q))) <= F * (2 * (r * (P * Q) - F * (x * y)))
               <= F * ((ea + eb + 1) * (P * Q))) by lia.
  split; [apply (Z.mul_le_mono_pos_l _ _ F)|apply (Z.mul_le_mono_pos_l _ _ F)]; lia.
Qed.

Lemma Approx_mul F H X a b j k ea eb :
  F = 2 * H -> 0 < F -> 0 <= X <= F -> 0 <= a <= F -> 0 <= b <= F -> 0 <= ea -> 0 <= eb ->
  Approx F X a j ea -> Approx F X b k eb -> Approx F X ((a * b + H) / F) (j + k) (ea + eb + 1).
Proof.
  unfold Approx. intros HF HF0 HX Ha Hb Hea Heb Hj Hk.
  rewrite Nat2Z.inj_add, !Z.pow_add_r by lia.
  assert (Hpow : forall m, 0 < F ^ Z.of_nat m) by (intros; apply Z.pow_pos_nonneg; lia).
  assert (HXm : forall m, 0 <= X ^ Z.of_nat m <= F ^ Z.of_nat m).
  { intros m. split; [apply Z.pow_nonneg; lia|apply Z.pow_le_mono_l; lia]. }
  apply (product_error F H a b); try done; try apply Hpow; try apply HXm. lia.
Qed.

Section arith.
Context `{HK : Kernel} `{HL : !SchedLaws}.

Lemma shiftl_half f : 1 <= f -> 2 ^ f = 2 * Z.shiftl 1 (f - 1).
Proof.
  intros. rewrite Z.shiftl_mul_pow2 by lia. rewrite Z.mul_1_l, <- Z.pow_succ_r by lia. f_equal. lia.
Qed.

Lemma small_word f z : f <= 31 -> 0 <= z <= 2 ^ f -> 0 <= f -> ul z = z.
Proof.
  intros Hf Hz Hf0. apply ul_small. pose proof W_pos.
  assert (2 ^ f <= 2 ^ 31) by (apply Z.pow_le_mono_r; lia). lia.
Qed.

(** One multiplication of the source, in the range of the averages. *)
Lemma mul_round_ok f a b :
  1 <= f <= 15 -> 0 <= a <= 2 ^ f -> 0 <= b <= 2 ^ f ->
  let r := Z.shiftr (ul (ul (a * b) + ul (Z.shiftl 1 (f - 1)))) f in
  r = (a * b + Z.shiftl 1 (f - 1)) / 2 ^ f /\ 0 <= r <= 2 ^ f.
Proof.
  intros Hf Ha Hb r. pose proof (shiftl_half f ltac:(lia)) as Hh.
  assert (Hp : 0 < 2 ^ f <= 2 ^ 15) by (split; [apply Z.pow_pos_nonneg; lia|apply Z.pow_le_mono_r; lia]).
  pose proof W_pos. assert (0 <= a * b <= 2 ^ f * 2 ^ f) by nia.
  assert (2 ^ f * 2 ^ f <= 2 ^ 30) by nia.
  assert (E : r = (a * b + Z.shiftl 1 (f - 1)) / 2 ^ f).
  { unfold r. rewrite Z.shiftr_div_pow2 by lia. do 2 rewrite (ul_small _) by (rewrite ?ul_small; lia).
    rewrite (ul_small (Z.shiftl 1 (f - 1))) by lia. done. }
  split; [done|]. rewrite E. split; [apply Z.div_pos; lia|].
  apply Z.lt_succ_r, Z.div_lt_upper_bound; nia.
Qed.

Lemma power_loop_ok fuel X x f n result (a b : nat) ea :
  1 <= f <= 15 -> 0 <= X <= 2 ^ f -> 0 <= x <= 2 ^ f -> 0 <= result <= 2 ^ f -> (1 <= b)%nat -> 0 <= ea ->
  0 < n < 2 ^ Z.of_nat fuel ->
  Approx (2 ^ f) X result a ea -> Approx (2 ^ f) X x b (Z.of_nat b - 1) ->
  exists r, power_loop fuel x f n result = Ok r /\ 0 <= r <= 2 ^ f /\
    Approx (2 ^ f) X r (a + b * Z.to_nat n) (ea + Z.of_nat b * n).
Proof.
  intros Hf HX. revert x n result a b ea. induction fuel as [|fuel IH]; intros x n result a b ea Hx Hr Hb Hea Hn Ha Hxb.
  { simpl in Hn. lia. }
  cbn [power_loop]. pose proof (shiftl_half f ltac:(lia)) as Hh.
  assert (Hp : 0 < 2 ^ f) by (apply Z.pow_pos_nonneg; lia).
  rewrite Z.shiftr_div_pow2 with (n := 1) by lia. change (2 ^ 1) with 2.
  assert (Hland : Z.land n 1 = n mod 2) by exact (Z.land_ones n 1 ltac:(lia)). rewrite Hland.
  destruct (mul_round_ok f result x Hf Hr Hx) as [Erx Hrx]. destruct (mul_round_ok f x x Hf Hx Hx) as [Exx Hxx].
  pose proof (Z.div_mod n 2 ltac:(lia)) as Hdm. pose proof (Z.mod_pos_bound n 2 ltac:(lia)) as Hmb.
  rewrite Nat2Z.inj_succ, Z.pow_succ_r in Hn by lia.
  (* the result after this bit *)
  set (res1 := if n mod 2 =? 0 then result else _).
  assert (exists e1 a1, 0 <= res1 <= 2 ^ f /\ 0 <= e1 /\ Approx (2 ^ f) X res1 a1 e1 /\
    (a1 = a + b * Z.to_nat (n mod 2))%nat /\ e1 = ea + Z.of_nat b * (n mod 2)) as (e1 & a1 & Hr1 & He1 & Ha1 & Ea1 & Ee1).
  { unfold res1. destruct (Z.eqb_spec (n mod 2) 0) as [E|E].
    - rewrite E. exists ea, a. split_and!; try done; lia.
    - replace (n mod 2) with 1 by lia. exists (ea + (Z.of_nat b - 1) + 1), (a + b)%nat.
      split_and!; try done; try lia. rewrite Erx. eapply Approx_mul; try done; lia. }
  clearbody res1. destruct (Z.eqb_spec (n / 2) 0) as [E0|E0].
  - exists res1. split; [done|]. split; [done|]. assert (n mod 2 = n) as En by lia. rewrite En in *. by subst.
  - edestruct (IH _ (n / 2) res1 a1 (b + b)%nat e1 Hxx Hr1) as (r & Er & Hrr & Hra); [lia|lia|lia|done| |].
    { rewrite Exx. replace (Z.of_nat (b + b) - 1) with (Z.of_nat b - 1 + (Z.of_nat b - 1) + 1) by lia.
      eapply Approx_mul; try done; lia. }
    exists r. split; [exact Er|]. split; [done|].
    replace (a + b * Z.to_nat n)%nat with (a1 + (b + b) * Z.to_nat (n / 2))%nat.
    + replace (ea + Z.of_nat b * n) with (e1 + Z.of_nat (b + b) * (n / 2)); [done|]. nia.
    + rewrite Ea1. replace (Z.to_nat n) with (2 * Z.to_nat (n / 2) + Z.to_nat (n mod 2))%nat by lia. lia.
Qed.

Lemma fixed_power_int_ok X f n :
  1 <= f <= 15 -> 0 <= X <= 2 ^ f -> 0 <= n < 2 ^ 32 ->
  exists r, fixed_power_int X f n = Ok r /\ 0 <= r <= 2 ^ f /\ Approx (2 ^ f) X r (Z.to_nat n) n.
Proof.
  intros Hf HX Hn. unfold fixed_power_int.
  assert (Hp : 0 < 2 ^ f) by (apply Z.pow_pos_nonneg; lia).
  rewrite Z.shiftl_mul_pow2, Z.mul_1_l by lia. rewrite (small_word f) by lia.
  destruct (Z.eqb_spec n 0) as [->|].
  - exists (2 ^ f). split; [done|]. split; [lia|]. by apply Approx_one.
  - destruct (power_loop_ok 32 X X f n (2 ^ f) 0 1 0) as (r & Er & Hr & Ha); try done; try lia.
    { by apply Approx_one. }
    { apply Approx_self. }
    exists r. split; [done|]. split; [done|]. by replace (0 + 1 * Z.to_nat n)%nat with (Z.to_nat n) in Ha by lia;
      replace (0 + Z.of_nat 1 * n) with n in Ha by lia.
Qed.

(** ** The load average *)
Lemma calc_load_eq load exp active :
  0 <= exp <= FIXED_1 -> 0 <= load -> 0 <= active -> (Z.max load active + 1) * FIXED_1 < 2 ^ BITS_PER_LONG ->
  calc_load load exp active =
    (load * exp + active * (FIXED_1 - exp) + Z.shiftl 1 (FSHIFT - 1)) / FIXED_1.
Proof.
  intros He Hl Ha Hm. destruct fixed_point as [[Hf Hf'] EF]. pose proof (shiftl_half FSHIFT Hf) as Hh.
  rewrite <- EF in Hh. pose proof W_pos. unfold calc_load.
  assert (0 < FIXED_1) by (rewrite EF; apply Z.pow_pos_nonneg; lia).
  assert (load <= Z.max load active /\ active <= Z.max load active) by lia.
  set (m := Z.max load active) in *. clearbody m.
  assert (load * exp + active * (FIXED_1 - exp) <= m * FIXED_1) by nia.
  assert (0 <= load * exp) by nia. assert (0 <= active * (FIXED_1 - exp)) by nia.
  assert (FIXED_1 < 2 ^ BITS_PER_LONG) by nia.
  rewrite Z.shiftr_div_pow2, <- EF by lia. f_equal.
  rewrite (ul_small (FIXED_1 - exp)) by lia. rewrite (ul_small (load * exp)) by lia.
  rewrite (ul_small (active * (FIXED_1 - exp))) by lia.
  rewrite (ul_small (load * exp + active * (FIXED_1 - exp))) by lia.
  rewrite (ul_small (Z.shiftl 1 _)) by lia. apply ul_small. lia.
Qed.

Lemma half_pos : 0 < Z.shiftl 1 (FSHIFT - 1) /\ FIXED_1 = 2 * Z.shiftl 1 (FSHIFT - 1).
Proof.
  destruct fixed_point as [[Hf Hf'] EF]. pose proof (shiftl_half FSHIFT Hf) as Hh. rewrite <- EF in Hh.
  split; [|done]. rewrite Z.shiftl_mul_pow2 by lia. rewrite Z.mul_1_l. apply Z.pow_pos_nonneg; lia.
Qed.

(** ** Decay of missed ticks *)
Definition below (r load q s e : Z) : Prop := r * s ^ e <= load * q ^ e.

(** Every table entry that [decay_load_missed] can reach is the rounded-down
    factor for [2 ^ j] ticks on the scale of 128. *)
Lemma degrade_factor_floor (idx j : nat) :
  (1 <= idx <= 4)%nat -> (j < 7)%nat ->
  exists row, degrade_factor !! idx = Some row /\
    row !! j = Some (128 * (2 ^ Z.of_nat idx - 1) ^ (2 ^ Z.of_nat j) / (2 ^ Z.of_nat idx) ^ (2 ^ Z.of_nat j)).
Proof.
  intros Hi Hj.
  do 5 (destruct idx as [|idx]; [lia || (eexists; split; [reflexivity|];
    do 7 (destruct j as [|j]; [vm_compute; reflexivity|]); lia)|]). lia.
Qed.

Lemma decay_step load f s q A B r :
  0 < s -> 0 <= q -> 0 <= A -> 0 <= B -> 0 <= load -> 0 <= f -> f * s ^ B <= 128 * q ^ B ->
  below r (load * f / 128) q s A -> below r load q s (A + B).
Proof.
  unfold below. intros Hs Hq HA HB Hl Hf0 Hf Hr. rewrite !Z.pow_add_r by lia.
  assert (0 < s ^ A) by (apply Z.pow_pos_nonneg; lia). assert (0 < s ^ B) by (apply Z.pow_pos_nonneg; lia).
  assert (0 <= q ^ A) by (apply Z.pow_nonneg; lia).
  pose proof (Z.mul_div_le (load * f) 128 ltac:(lia)) as Hd. set (l := load * f / 128) in *.
  assert (Hl1 : l * s ^ B <= load * q ^ B) by nia.
  assert (Hl2 : r * s ^ A * s ^ B <= l * q ^ A * s ^ B) by nia.
  assert (Hl3 : l * s ^ B * q ^ A <= load * q ^ B * q ^ A) by nia. lia.
Qed.

Lemma decay_loop_ok fuel (idx j : nat) load m :
  (2 <= idx <= 4)%nat -> 0 <= load < 2 ^ (BITS_PER_LONG - 8) -> 0 <= m < 2 ^ Z.of_nat fuel ->
  m * 2 ^ Z.of_nat j < 128 ->
  exists r, decay_loop fuel load m idx j = Ok r /\ 0 <= r <= load /\
    below r load (2 ^ Z.of_nat idx - 1) (2 ^ Z.of_nat idx) (m * 2 ^ Z.of_nat j).
Proof.
  intros Hidx. revert load m j. induction fuel as [|fuel IH]; intros load m j Hl Hm Hmj.
  { assert (m = 0) as -> by (simpl in Hm; lia). exists load. unfold below. simpl. split_and!; try done; lia. }
  cbn [decay_loop]. destruct (Z.eqb_spec m 0) as [->|Hm0].
  { exists load. unfold below. simpl. split_and!; try done; lia. }
  rewrite Nat2Z.inj_succ, Z.pow_succ_r in Hm by lia.
  rewrite Z.shiftr_div_pow2 by lia. change (2 ^ 1) with 2.
  pose proof (Z.div_mod m 2 ltac:(lia)) as Hdm. pose proof (Z.mod_pos_bound m 2 ltac:(lia)) as Hmb.
  assert (Hp2 : 0 < 2 ^ Z.of_nat j) by (apply Z.pow_pos_nonneg; lia).
  assert (Hj : (j < 7)%nat).
  { destruct (decide (j < 7)%nat) as [|Hge]; [done|]. exfalso.
    assert (2 ^ 7 <= 2 ^ Z.of_nat j) by (apply Z.pow_le_mono_r; lia). nia. }
  assert (Hs : 2 <= 2 ^ Z.of_nat idx) by (change 2 with (2 ^ 1) at 1; apply Z.pow_le_mono_r; lia).
  assert (HWl : load * 256 < 2 ^ BITS_PER_LONG).
  { replace BITS_PER_LONG with (BITS_PER_LONG - 8 + 8) by lia. pose proof word_size. rewrite Z.pow_add_r by lia. lia. }
  assert (Hj2 : 2 ^ Z.of_nat (S j) = 2 * 2 ^ Z.of_nat j) by (rewrite Nat2Z.inj_succ, Z.pow_succ_r; lia).
  destruct (Z.eqb_spec (m mod 2) 0) as [E|E].
  - destruct (IH load (m / 2) (S j)) as (r & Er & Hr & Hb); [done|lia|nia|].
    exists r. cbn [mbind res_bind]. rewrite Er. split_and!; try done; try lia.
    replace (m * 2 ^ Z.of_nat j) with (m / 2 * 2 ^ Z.of_nat (S j)) by nia. done.
  - destruct (degrade_factor_floor idx j) as (row & Hrow & Hf); [lia|done|]. set (f := _ / _) in Hf.
    assert (Hsp : 0 < (2 ^ Z.of_nat idx) ^ (2 ^ Z.of_nat j)) by (apply Z.pow_pos_nonneg; lia).
    assert (Hf1 : 0 <= f).
    { apply Z.div_pos; [|lia]. apply Z.mul_nonneg_nonneg; [lia|]. apply Z.pow_nonneg. lia. }
    assert (Hf2 : f * (2 ^ Z.of_nat idx) ^ (2 ^ Z.of_nat j) <= 128 * (2 ^ Z.of_nat idx - 1) ^ (2 ^ Z.of_nat j)).
    { pose proof (Z.mul_div_le (128 * (2 ^ Z.of_nat idx - 1) ^ (2 ^ Z.of_nat j)) _ Hsp) as Hd. fold f in Hd. lia. }
    assert (Hf3 : f <= 128).
    { apply Z.div_le_upper_bound; [done|].
      assert ((2 ^ Z.of_nat idx - 1) ^ 2 ^ Z.of_nat j <= (2 ^ Z.of_nat idx) ^ 2 ^ Z.of_nat j) by (apply Z.pow_le_mono_l; lia).
      lia. }
    unfold at_index. rewrite Hrow. cbn [mbind res_bind]. rewrite Hf. cbn [mbind res_bind].
    unfold DEGRADE_SHIFT. rewrite Z.shiftr_div_pow2, ul_small by nia. change (2 ^ 7) with 128.
    assert (Hl' : 0 <= load * f / 128 <= load).
    { split; [apply Z.div_pos; nia|]. apply Z.div_le_upper_bound; nia. }
    destruct (IH (load * f / 128) (m / 2) (S j)) as (r & Er & Hr & Hb); [lia|lia|nia|].
    exists r. split; [exact Er|]. split; [lia|].
    replace (m * 2 ^ Z.of_nat j) with (m / 2 * 2 ^ Z.of_nat (S j) + 2 ^ Z.of_nat j) by nia.
    apply (decay_step load f); try done; lia || nia.
Qed.

Lemma decay_load_missed_ok (idx : nat) load m :
  (1 <= idx <= 4)%nat -> 0 <= load < 2 ^ (BITS_PER_LONG - 8) -> 0 <= m ->
  exists r, decay_load_missed load m idx = Ok r /\ 0 <= r <= load /\
    below r load (2 ^ Z.of_nat idx - 1) (2 ^ Z.of_nat idx) m /\ (m = 0 -> r = load).
Proof.
  intros Hidx Hl Hm. unfold decay_load_missed. destruct (Z.eqb_spec m 0) as [->|Hm0].
  { exists load. unfold below. simpl. split_and!; try done; lia. }
  assert (exists t, degrade_zero_ticks !! idx = Some t /\ 0 < t <= 128) as (t & Ht & Ht128).
  { do 5 (destruct idx as [|idx]; [lia || (eexists; split; [reflexivity|lia])|]). lia. }
  unfold at_index at 1. rewrite Ht. cbn [mbind res_bind].
  assert (Hq : 0 <= 2 ^ Z.of_nat idx - 1).
  { assert (0 < 2 ^ Z.of_nat idx) by (apply Z.pow_pos_nonneg; lia). lia. }
  rewrite Z.geb_leb. destruct (Z.leb_spec t m).
  { exists 0. split_and!; try done; try lia. unfold below.
    assert (0 <= (2 ^ Z.of_nat idx - 1) ^ m) by (apply Z.pow_nonneg; lia). nia. }
  destruct (Nat.eqb_spec idx 1) as [->|Hi1].
  - assert (0 < 2 ^ m) by (apply Z.pow_pos_nonneg; lia). rewrite Z.shiftr_div_pow2 by lia.
    exists (load / 2 ^ m). split_and!; try done.
    + apply Z.div_pos; lia.
    + apply Z.div_le_upper_bound; nia.
    + unfold below. change (2 ^ Z.of_nat 1) with 2. change (2 - 1) with 1. rewrite Z.pow_1_l by lia.
      pose proof (Z.mul_div_le load (2 ^ m) ltac:(lia)). lia.
  - destruct (decay_loop_ok (Z.to_nat BITS_PER_LONG) idx 0 load m) as (r & Er & Hr & Hb); [lia|done| |lia|].
    { pose proof word_size. rewrite Z2Nat.id by lia. pose proof W_pos. lia. }
    exists r. rewrite Z.mul_1_r in Hb. split; [done|]. split; [done|]. done.
Qed.

(** ** Averaging *)
Definition average (scale old new : Z) : Z :=
  (old * (scale - 1) + (if new >? old then new + (scale - 1) else new)) / scale.

(** The average moves towards the new load and never past it, and it moves
    unless it is already there. *)
Lemma average_progress scale old new :
  2 <= scale -> 0 <= old -> 0 <= new ->
  (old < new -> old < average scale old new <= new) /\
  (new < old -> new <= average scale old new < old) /\
  (new = old -> average scale old new = old).
Proof.
  intros Hs Ho Hn. unfold average. rewrite Z.gtb_ltb. destruct (Z.ltb_spec old new) as [Hlt|Hge].
  - split_and!; [|lia|lia]. intros _. split.
    + apply Z.le_succ_l, Z.div_le_lower_bound; [lia|]. nia.
    + apply Z.lt_succ_r, Z.div_lt_upper_bound; [lia|]. nia.
  - split_and!; [lia| |].
    + intros Hlt. split; [apply Z.div_le_lower_bound; nia|apply Z.div_lt_upper_bound; nia].
    + intros ->. replace (old * (scale - 1) + old) with (old * scale) by lia. apply Z.div_mul. lia.
Qed.

Definition small_load (l : Z) : Prop := 0 <= l < 2 ^ (BITS_PER_LONG - 8).

Lemma update_one_ok (i : nat) old new :
  (1 <= i <= 4)%nat -> small_load old -> small_load new ->
  Z.shiftr (ul (ul (old * (2 ^ Z.of_nat i - 1)) +
    (if new >? old then ul (new + (2 ^ Z.of_nat i - 1)) else new))) (Z.of_nat i) =
  average (2 ^ Z.of_nat i) old new.
Proof.
  unfold small_load. intros Hi Ho Hn. rewrite Z.shiftr_div_pow2 by lia. unfold average.
  assert (Hs : 2 ^ Z.of_nat i <= 2 ^ 4) by (apply Z.pow_le_mono_r; lia). change (2 ^ 4) with 16 in Hs.
  assert (Hs0 : 0 < 2 ^ Z.of_nat i) by (apply Z.pow_pos_nonneg; lia).
  assert (HWl : 2 ^ (BITS_PER_LONG - 8) * 256 = 2 ^ BITS_PER_LONG).
  { pose proof word_size. rewrite <- (Z.pow_add_r 2 _ 8) by lia. f_equal. lia. }
  assert (Hbig : 2 ^ 24 <= 2 ^ (BITS_PER_LONG - 8)) by (pose proof word_size as HB; apply Z.pow_le_mono_r; clear -HB; lia).
  set (w := 2 ^ (BITS_PER_LONG - 8)) in *. set (s := 2 ^ Z.of_nat i) in *. clearbody s w.
  f_equal. rewrite (ul_small (old * (s - 1))) by nia.
  destruct (Z.gtb new old); [rewrite (ul_small (new + (s - 1))) by nia|]; apply ul_small; nia.
Qed.

(** The five loads after an update with [d_i] the decayed old loads. *)
Lemma update_loop_ok l0 l1 l2 l3 l4 new p :
  Forall small_load [l1; l2; l3; l4] -> small_load new -> 0 <= ul (p - 1) ->
  exists d1 d2 d3 d4,
    decay_load_missed l1 (ul (p - 1)) 1 = Ok d1 /\ decay_load_missed l2 (ul (p - 1)) 2 = Ok d2 /\
    decay_load_missed l3 (ul (p - 1)) 3 = Ok d3 /\ decay_load_missed l4 (ul (p - 1)) 4 = Ok d4 /\
    Forall small_load [d1; d2; d3; d4] /\ (ul (p - 1) = 0 -> [d1; d2; d3; d4] = [l1; l2; l3; l4]) /\
    update_loop 4 1 2 new p [l0; l1; l2; l3; l4] =
      Ok [l0; average 2 d1 new; average 4 d2 new; average 8 d3 new; average 16 d4 new].
Proof.
  rewrite !Forall_cons. intros (H1 & H2 & H3 & H4 & _) Hn Hp.
  assert (Hd : forall (i : nat) l, (1 <= i <= 4)%nat -> small_load l -> exists d,
    decay_load_missed l (ul (p - 1)) i = Ok d /\ small_load d /\ (ul (p - 1) = 0 -> d = l)).
  { intros i l Hi Hl. destruct (decay_load_missed_ok i l (ul (p - 1)) Hi Hl Hp) as (d & E & Hd & _ & Hz).
    exists d. split; [done|]. split; [|done]. unfold small_load in *. lia. }
  destruct (Hd 1%nat l1) as (d1 & E1 & Hd1 & Hz1); [lia|done|].
  destruct (Hd 2%nat l2) as (d2 & E2 & Hd2 & Hz2); [lia|done|].
  destruct (Hd 3%nat l3) as (d3 & E3 & Hd3 & Hz3); [lia|done|].
  destruct (Hd 4%nat l4) as (d4 & E4 & Hd4 & Hz4); [lia|done|].
  exists d1, d2, d3, d4. rewrite !Forall_cons. split_and!; try done.
  { intros Hz. by rewrite Hz1, Hz2, Hz3, Hz4. }
  cbn [update_loop at_index lookup list_lookup mbind res_bind insert list_insert].
  rewrite E1. cbn [update_loop at_index lookup list_lookup mbind res_bind insert list_insert].
  rewrite (update_one_ok 1) by (done || lia). change (wraps 32 (2 + 2)) with 4.
  rewrite E2. cbn [update_loop at_index lookup list_lookup mbind res_bind insert list_insert].
  rewrite (update_one_ok 2) by (done || lia). change (wraps 32 (4 + 4)) with 8.
  rewrite E3. cbn [update_loop at_index lookup list_lookup mbind res_bind insert list_insert].
  rewrite (update_one_ok 3) by (done || lia). change (wraps 32 (8 + 8)) with 16.
  rewrite E4. cbn [update_loop at_index lookup list_lookup mbind res_bind insert list_insert].
  by rewrite (update_one_ok 4) by (done || lia).
Qed.

End arith.
