(* ===== verification/SchedTheorems.v ===== *)
(** * Linux load averages: theorems

    The accounting of the distributed counters under every interleaving, the
    range and accuracy of the fixed-point averages, and the convergence of
    the per-cpu loads. *)
From S2P Require Import Prelude SchedLoad SchedProofs SchedArith.
Open Scope Z_scope.

Section theorems.
Context `{HK : Kernel} `{HL : !SchedLaws}.

(** ** Accounting *)
Definition booted (s : sched) : Prop :=
  calc_load_tasks s = 0 /\ sumZ (calc_load_idle s) = 0 /\ Forall (fun r => calc_load_active r = 0) (rqs s).

Definition settled (s : sched) : Prop :=
  sumZ (calc_load_idle s) = 0 /\ Forall (fun r => calc_load_active r = nr_active r) (rqs s).

Lemma sumZ_zero l : Forall (fun x => x = 0) l -> sumZ l = 0.
Proof. induction 1 as [|x l -> _ IH]; [done|]. by rewrite sumZ_cons, IH. Qed.

Lemma booted_accounted s : booted s -> accounted (s, []).
Proof.
  intros (Ht & Hi & Ha). unfold accounted, active_sum. simpl. rewrite Ht, Hi.
  rewrite (sumZ_zero (calc_load_active <$> rqs s)); [exists 0; unfold pending, sumZ; simpl; lia|].
  apply Forall_fmap. exact Ha.
Qed.

(** C28. However the ticks, the idle transitions and the global update of the
    cpus interleave, no change of a cpu's task count is lost or counted
    twice: the global count, the idle counters and the additions on their
    way make up the sum of what the cpus have reported, and once nothing is
    outstanding the global count is the number of running and
    uninterruptible tasks of all cpus, as a [long]. *)
Theorem load_accounting s0 s p :
  booted s0 -> rtc step (s0, []) (s, p) ->
  cong (calc_load_tasks s + sumZ (calc_load_idle s) + pending p) (sumZ (calc_load_active <$> rqs s)) /\
  (p = [] -> settled s -> sl (calc_load_tasks s) = sl (sumZ (nr_active <$> rqs s))).
Proof.
  intros Hb Hs. apply booted_accounted in Hb. pose proof (steps_accounted _ _ Hs Hb) as Hacc.
  split; [exact Hacc|]. intros -> [Hi Ha]. apply sl_cong_eq. unfold accounted, active_sum in Hacc. simpl in Hacc.
  rewrite Hi in Hacc. replace (nr_active <$> rqs s) with (calc_load_active <$> rqs s).
  - eapply cong_move; [exact Hacc|]. unfold pending, sumZ. simpl. lia.
  - by apply Forall_fmap_ext.
Qed.

(** C29. Each call of the source that touches the counters is a sequence of
    those atomic steps that leaves no addition outstanding. *)
Theorem calls_are_steps cpu s s' :
  two_counters s ->
  calc_load_enter_idle cpu s = Ok (tt, s') \/ calc_load_exit_idle cpu s = Ok (tt, s') \/
  calc_load_account_active cpu s = Ok (tt, s') \/ calc_global_load s = Ok (tt, s') ->
  rtc step (s, []) (s', []).
Proof.
  intros H2 [E|[E|[E|E]]].
  - by eapply enter_idle_steps.
  - by eapply exit_idle_steps.
  - by eapply account_active_steps.
  - by apply global_load_steps.
Qed.

(** ** The averages *)

(** As long as the products fit in an [unsigned long], a new load average
    lies between the old one and the active load, and stays where they are
    equal. *)
Theorem calc_load_between load exp active :
  0 <= exp <= FIXED_1 -> 0 <= load -> 0 <= active ->
  (Z.max load active + 1) * FIXED_1 < 2 ^ BITS_PER_LONG ->
  Z.min load active <= calc_load load exp active <= Z.max load active.
Proof.
  intros He Hl Ha Hm. rewrite calc_load_eq by done. destruct half_pos as [Hh EF].
  set (h := Z.shiftl 1 (FSHIFT - 1)) in *. assert (HF : 0 < FIXED_1) by lia.
  destruct (Z.le_ge_cases load active) as [Hle|Hle].
  - rewrite Z.min_l, Z.max_r by done. split; [apply Z.div_le_lower_bound; nia|].
    apply Z.lt_succ_r, Z.div_lt_upper_bound; nia.
  - rewrite Z.min_r, Z.max_l by done. split; [apply Z.div_le_lower_bound; nia|].
    apply Z.lt_succ_r, Z.div_lt_upper_bound; nia.
Qed.

(** On an idle system the rounding keeps a small average up for ever: the
    average does not decay below half a unit divided by the weight of a new
    sample, however often it is updated. *)
Theorem calc_load_idle_stuck load exp n :
  0 <= exp <= FIXED_1 -> 0 <= load -> (load + 1) * FIXED_1 < 2 ^ BITS_PER_LONG ->
  2 * (load * (FIXED_1 - exp)) <= FIXED_1 ->
  Nat.iter n (fun l => calc_load l exp 0) load = load.
Proof.
  intros He Hl Hm Hs. destruct half_pos as [Hh EF]. induction n as [|n IH]; simpl; [done|]. rewrite IH.
  rewrite calc_load_eq by (rewrite ?Z.max_l; done). symmetry.
  apply (Z.div_unique_pos _ _ _ (load * exp + Z.shiftl 1 (FSHIFT - 1) - load * FIXED_1)); nia.
Qed.

(** [fixed_power_int] terminates for every exponent, stays in the range
    of the fixed point, and is off the exact power by at most half a unit
    for each factor. *)
Theorem fixed_power_int_accurate x f n :
  1 <= f <= 15 -> 0 <= x <= 2 ^ f -> 0 <= n < 2 ^ 32 ->
  exists r, fixed_power_int x f n = Ok r /\ 0 <= r <= 2 ^ f /\
    2 * Z.abs (r * (2 ^ f) ^ n - 2 ^ f * x ^ n) <= n * (2 ^ f) ^ n.
Proof.
  intros Hf Hx Hn. destruct (fixed_power_int_ok x f n Hf Hx Hn) as (r & E & Hr & Ha).
  exists r. split; [done|]. split; [done|]. unfold Approx in Ha. rewrite Z2Nat.id in Ha by lia. lia.
Qed.

(** [decay_load_missed] reads its tables in bounds, terminates, and never
    gives more than the exact decay of the load over the missed ticks. *)
Theorem decay_load_missed_bound (idx : nat) load missed :
  (1 <= idx <= 4)%nat -> 0 <= load < 2 ^ (BITS_PER_LONG - 8) -> 0 <= missed ->
  exists r, decay_load_missed load missed idx = Ok r /\ 0 <= r <= load /\
    r * (2 ^ Z.of_nat idx) ^ missed <= load * (2 ^ Z.of_nat idx - 1) ^ missed.
Proof.
  intros Hi Hl Hm. destruct (decay_load_missed_ok idx load missed Hi Hl Hm) as (r & E & Hr & Hb & _).
  exists r. done.
Qed.

(** ** Convergence of the per-cpu loads *)
Definition set_jiffies (j : Z) (s : sched) : sched :=
  MkSched (rqs s) (calc_load_tasks s) (calc_load_update s) (avenrun s) (calc_load_idle s) (calc_load_idx s) j.

(** Scheduler ticks of one cpu at the times [js]. *)
Fixpoint ticks (js : list Z) (cpu : nat) : M sched cfault unit :=
  match js with
  | [] => mret tt
  | j :: js' => modS (set_jiffies j) ;; update_cpu_load_active cpu ;; ticks js' cpu
  end.

Lemma get_rq_ok cpu s r : rqs s !! cpu = Some r -> get_rq cpu s = Ok (r, s).
Proof. intros Hr. unfold get_rq. rewrite M_bind_eq. cbn [getS]. by rewrite Hr. Qed.

(** The rest of [r'] may differ from [r], its loads do not. *)
Definition same_loads (r r' : rq) : Prop :=
  cpu_load r' = cpu_load r /\ get_rq_runnable_load r' = get_rq_runnable_load r.

Lemma set_rq_lookup cpu r r0 s : rqs s !! cpu = Some r0 -> rqs (set_rq cpu r s) !! cpu = Some r.
Proof. intros Hr. simpl. apply list_lookup_insert_eq. by eapply lookup_lt_Some. Qed.

Lemma account_active_ok cpu s r :
  rqs s !! cpu = Some r ->
  exists s' r', calc_load_account_active cpu s = Ok (tt, s') /\ rqs s' !! cpu = Some r' /\ same_loads r r'.
Proof.
  intros Hr. unfold calc_load_account_active. rewrite M_bind_eq. cbn [getS]. rewrite M_bind_eq, (get_rq_ok _ _ _ Hr).
  destruct (time_before _ _); [by exists s, r|].
  assert (exists d s1 r1, calc_load_fold_active cpu s = Ok (d, s1) /\ rqs s1 !! cpu = Some r1 /\ same_loads r r1)
    as (d & s1 & r1 & E & Hr1 & Hs1).
  { unfold calc_load_fold_active. rewrite M_bind_eq, (get_rq_ok _ _ _ Hr). destruct (negb _).
    - rewrite M_bind_eq. cbn [modS]. eexists _, _, _. split; [done|]. split; [by eapply set_rq_lookup|done].
    - by eexists _, s, r. }
  rewrite M_bind_eq, E. set (s2 := if negb (d =? 0) then tasks_add d s1 else s1).
  assert (Hr2 : rqs s2 !! cpu = Some r1) by (unfold s2; by destruct (negb _)).
  rewrite M_bind_eq. replace ((if negb (d =? 0) then modS (tasks_add d) else mret tt) s1) with
    (Ok (tt, s2) : res cfault _) by (unfold s2; by destruct (negb _)).
  rewrite M_bind_eq, (get_rq_ok _ _ _ Hr2). eexists _, _. split; [done|]. split; [by eapply set_rq_lookup|done].
Qed.

Lemma tick_ok cpu s r l0 l1 l2 l3 l4 :
  rqs s !! cpu = Some r -> cpu_load r = [l0; l1; l2; l3; l4] -> Forall small_load [l1; l2; l3; l4] ->
  small_load (get_rq_runnable_load r) ->
  exists s' r', update_cpu_load_active cpu s = Ok (tt, s') /\ rqs s' !! cpu = Some r' /\
    get_rq_runnable_load r' = get_rq_runnable_load r /\
    let v := get_rq_runnable_load r in
    cpu_load r' = [v; average 2 l1 v; average 4 l2 v; average 8 l3 v; average 16 l4 v].
Proof.
  intros Hr Hl Hsm Hv. unfold update_cpu_load_active. rewrite M_bind_eq. cbn [getS].
  rewrite M_bind_eq, (get_rq_ok _ _ _ Hr), M_bind_eq. cbn [putS].
  set (r1 := rq_set_tick (jiffies s) r). set (s1 := set_rq cpu r1 s). set (v := get_rq_runnable_load r) in *.
  assert (Hr1 : rqs s1 !! cpu = Some r1) by by eapply set_rq_lookup.
  assert (Hu : ul (1 - 1) = 0) by (apply ul_small; pose proof W_pos; lia).
  destruct (update_loop_ok v l1 l2 l3 l4 v 1 Hsm Hv) as (d1 & d2 & d3 & d4 & _ & _ & _ & _ & _ & Hd & E);
    [by rewrite Hu|]. specialize (Hd Hu). injection Hd as -> -> -> ->.
  assert (exists s2 r2, __update_cpu_load cpu v 1 s1 = Ok (tt, s2) /\ rqs s2 !! cpu = Some r2 /\
    get_rq_runnable_load r2 = v /\ cpu_load r2 = [v; average 2 l1 v; average 4 l2 v; average 8 l3 v; average 16 l4 v])
    as (s2 & r2 & E2 & Hr2 & Hv2 & Hl2).
  { unfold __update_cpu_load. rewrite M_bind_eq, (get_rq_ok _ _ _ Hr1). rewrite load_indices.
    change (cpu_load r1) with (cpu_load r). rewrite Hl. cbn [at_index lookup list_lookup insert list_insert].
    rewrite M_bind_eq. cbn [lift]. rewrite M_bind_eq. change (5 - 1)%nat with 4%nat. rewrite E. cbn [lift modS].
    eexists _, _. split; [done|]. split; [by eapply set_rq_lookup|]. done. }
  rewrite M_bind_eq, E2. destruct (account_active_ok cpu s2 r2 Hr2) as (s3 & r3 & E3 & Hr3 & Hs3 & Hv3).
  exists s3, r3. split; [exact E3|]. split; [done|]. split; [congruence|]. by rewrite Hs3.
Qed.

Lemma average_closer scale old new (n : nat) :
  2 <= scale -> small_load old -> small_load new -> Z.abs (old - new) <= Z.of_nat (S n) ->
  small_load (average scale old new) /\ Z.abs (average scale old new - new) <= Z.of_nat n.
Proof.
  unfold small_load. intros Hs Ho Hn Hd. destruct (average_progress scale old new) as (H1 & H2 & H3); lia.
Qed.

(** C30. While the load of a cpu does not change, each of its five averages
    gets closer to that load with every tick and reaches it, whatever the
    times of the ticks: after as many ticks as the largest difference all
    of them are equal to the load. *)
Theorem cpu_load_converges cpu js s r :
  rqs s !! cpu = Some r -> length (cpu_load r) = 5%nat -> Forall small_load (cpu_load r) ->
  small_load (get_rq_runnable_load r) ->
  Forall (fun l => Z.abs (l - get_rq_runnable_load r) <= Z.of_nat (length js)) (cpu_load r) ->
  exists s' r', ticks js cpu s = Ok (tt, s') /\ rqs s' !! cpu = Some r' /\
    cpu_load r' = replicate 5 (get_rq_runnable_load r).
Proof.
  revert s r. induction js as [|j js IH]; intros s r Hr Hlen Hsm Hv Hd;
    destruct (cpu_load r) as [|l0 [|l1 [|l2 [|l3 [|l4 [|? ?]]]]]] eqn:Hl; try done; rewrite !Forall_cons in Hsm, Hd.
  - exists s, r. split; [done|]. split; [done|]. rewrite Hl. simpl in *. repeat f_equal; lia.
  - cbn [ticks]. rewrite M_bind_eq. cbn [modS].
    destruct (tick_ok cpu (set_jiffies j s) r l0 l1 l2 l3 l4) as (s1 & r1 & E1 & Hr1 & Hv1 & Hl1); try done.
    { rewrite !Forall_cons. naive_solver. }
    rewrite M_bind_eq, E1. simpl length in Hd. cbv zeta in Hl1. rewrite <- Hv1.
    apply IH; [done|by rewrite Hl1| |by rewrite Hv1|].
    all: rewrite Hl1, !Forall_cons; destruct Hsm as (H0 & H1 & H2 & H3 & H4 & _), Hd as (_ & D1 & D2 & D3 & D4 & _).
    all: apply (average_closer 2) in D1 as [S1 C1]; [|lia|done..]; apply (average_closer 4) in D2 as [S2 C2]; [|lia|done..];
      apply (average_closer 8) in D3 as [S3 C3]; [|lia|done..]; apply (average_closer 16) in D4 as [S4 C4]; [|lia|done..].
    + split_and!; done.
    + rewrite Hv1. split_and!; try done. lia.
Qed.

(** ** Windows *)
Definition elapsed (s : sched) : Z := sl (jiffies s - calc_load_update s).

Lemma time_before_shift j u u' k :
  cong u' (u + k) -> - 2 ^ (BITS_PER_LONG - 1) <= sl (j - u) - k < 2 ^ (BITS_PER_LONG - 1) ->
  time_before j u' = (sl (j - u) - k <? 0).
Proof.
  intros Hu Hr. rewrite time_before_spec. f_equal. rewrite <- (sl_small (sl (j - u) - k)) by done.
  apply sl_cong_eq. rewrite Hu, sl_cong. eapply cong_move; [reflexivity|lia].
Qed.

Lemma ul_cong z : cong (ul z) z.
Proof.
  exists (- (z / 2 ^ BITS_PER_LONG)). unfold ul, wrapu.
  pose proof (Z.div_mod z (2 ^ BITS_PER_LONG)). pose proof W_pos. lia.
Qed.

Lemma ul_cong_eq a b : cong a b -> ul a = ul b.
Proof. intros [k ->]. apply Z.mod_add. pose proof W_pos. lia. Qed.

Lemma calc_load_n_total load exp active n :
  0 <= exp <= FIXED_1 -> 0 <= n < 2 ^ 32 -> exists v, calc_load_n load exp active n = Ok v.
Proof.
  intros He Hn. destruct fixed_point as [[Hf Hf'] EF]. rewrite EF in He.
  destruct (fixed_power_int_ok exp FSHIFT n) as (r & E & _); [lia|done|done|].
  unfold calc_load_n. rewrite E. by eexists.
Qed.

Lemma nohz_ok s :
  CONFIG_NO_HZ_COMMON = true -> 0 <= elapsed s + LOAD_FREQ -> elapsed s < 2 ^ (BITS_PER_LONG - 2) ->
  exists s' m, calc_global_nohz s = Ok (tt, s') /\ jiffies s' = jiffies s /\ 0 <= m /\
    calc_load_update s' = (if elapsed s <? 10 then calc_load_update s else ul (calc_load_update s + m * LOAD_FREQ)) /\
    (elapsed s < 10 -> m = 0) /\ elapsed s - m * LOAD_FREQ < 10 /\
    (0 < m -> (m - 1) * LOAD_FREQ <= elapsed s - 10).
Proof.
  intros Hz He0 He. pose proof load_freq as Hlf. pose proof word_size as HB.
  assert (Hq : 2 ^ (BITS_PER_LONG - 1) = 2 * 2 ^ (BITS_PER_LONG - 2)).
  { rewrite <- Z.pow_succ_r by (clear -HB; lia). f_equal. lia. }
  assert (Hq30 : 2 ^ 30 <= 2 ^ (BITS_PER_LONG - 2)) by (apply Z.pow_le_mono_r; clear -HB; lia).
  assert (Htb : time_before (jiffies s) (ul (calc_load_update s + 10)) = (elapsed s - 10 <? 0)).
  { apply time_before_shift; [apply ul_cong|]. fold (elapsed s). lia. }
  unfold calc_global_nohz. rewrite Hz. rewrite M_bind_eq. cbn [getS]. rewrite Htb.
  destruct (Z.ltb_spec (elapsed s - 10) 0) as [Hlt|Hge]; cbn [negb].
  - rewrite M_bind_eq. cbn [mret M_ret]. eexists _, 0. split; [done|].
    destruct (Z.ltb_spec (elapsed s) 10); [|lia]. split_and!; try done; lia.
  - assert (Hd : sl (jiffies s - calc_load_update s - 10) = elapsed s - 10).
    { rewrite <- (sl_small (elapsed s - 10)) by lia. apply sl_cong_eq. unfold elapsed. by rewrite sl_cong. }
    rewrite Hd. set (m := 1 + (elapsed s - 10) / LOAD_FREQ).
    assert (HLF : 0 < LOAD_FREQ) by lia. assert (HLF0 : LOAD_FREQ <> 0) by lia.
    pose proof (Z.div_mod (elapsed s - 10) LOAD_FREQ HLF0) as Hdm.
    pose proof (Z.mod_pos_bound (elapsed s - 10) LOAD_FREQ HLF) as Hmb.
    assert (Hdp : 0 <= (elapsed s - 10) / LOAD_FREQ <= elapsed s - 10).
    { split; [apply Z.div_pos; lia|]. apply Z.div_le_upper_bound; [lia|]. nia. }
    rewrite Z.quot_div_nonneg by lia. rewrite (sl_small (1 + _)) by (rewrite Hq; clear -Hdp He Hq30; lia). fold m.
    destruct weights as (W1 & W5 & W15). destruct (avenrun s) as [[a0 a1] a2].
    pose proof (wrapu_bounds 32 m ltac:(lia)) as Hm32.
    destruct (calc_load_n_total a0 EXP_1 (ul (if calc_load_tasks s >? 0 then sl (calc_load_tasks s * FIXED_1) else 0)) (u32 m) W1 Hm32) as [v0 E0].
    destruct (calc_load_n_total a1 EXP_5 (ul (if calc_load_tasks s >? 0 then sl (calc_load_tasks s * FIXED_1) else 0)) (u32 m) W5 Hm32) as [v1 E1].
    destruct (calc_load_n_total a2 EXP_15 (ul (if calc_load_tasks s >? 0 then sl (calc_load_tasks s * FIXED_1) else 0)) (u32 m) W15 Hm32) as [v2 E2].
    rewrite M_bind_eq, M_bind_eq. unfold lift at 1. rewrite E0. rewrite M_bind_eq. unfold lift at 1. rewrite E1.
    rewrite M_bind_eq. unfold lift at 1. rewrite E2. rewrite M_bind_eq. cbn [modS].
    eexists _, m. split; [done|]. simpl. destruct (Z.ltb_spec (elapsed s) 10); [lia|].
    split_and!; try done; unfold m; try lia; nia.
Qed.

Lemma fold_idle_ok s :
  two_counters s -> exists d s1, calc_load_fold_idle s = Ok (d, s1) /\ jiffies s1 = jiffies s /\
    calc_load_update s1 = calc_load_update s.
Proof.
  intros H2. unfold calc_load_fold_idle. destruct CONFIG_NO_HZ_COMMON; [|by eexists _, s].
  rewrite M_bind_eq. cbn [getS].
  destruct (lookup_lt_is_Some_2 (calc_load_idle s) (Z.to_nat (calc_load_read_idx s))) as [x Hx].
  { rewrite H2. unfold calc_load_read_idx. destruct (land_1 (calc_load_idx s)) as [-> | ->]; simpl; lia. }
  rewrite Hx. destruct (negb _); [|by eexists _, s]. rewrite M_bind_eq. by eexists _, _.
Qed.

(** Adding the folded delta leaves the window alone. *)
Lemma add_delta_ok (d : Z) s :
  exists s1, (if negb (d =? 0) then modS (tasks_add d) else mret tt : M sched cfault unit) s = Ok (tt, s1) /\
    jiffies s1 = jiffies s /\ calc_load_update s1 = calc_load_update s.
Proof. destruct (negb _); by eexists. Qed.

(** [calc_global_load], called when a sampling window is over, takes up the
    new update time of every window that has passed and not of one more, so
    that a second call at the same time does nothing. *)
Theorem calc_global_load_catches_up s :
  CONFIG_NO_HZ_COMMON = true -> two_counters s -> 10 <= elapsed s < 2 ^ (BITS_PER_LONG - 2) ->
  exists s' m, calc_global_load s = Ok (tt, s') /\ jiffies s' = jiffies s /\
    calc_load_update s' = ul (calc_load_update s + m * LOAD_FREQ) /\
    (m - 1) * LOAD_FREQ <= elapsed s - 10 < m * LOAD_FREQ /\
    calc_global_load s' = Ok (tt, s').
Proof.
  intros Hz H2 He. pose proof load_freq as Hlf. pose proof word_size as HB.
  assert (Hq : 2 ^ (BITS_PER_LONG - 1) = 2 * 2 ^ (BITS_PER_LONG - 2)).
  { rewrite <- Z.pow_succ_r by (clear -HB; lia). f_equal. lia. }
  assert (Hq30 : 2 ^ 30 <= 2 ^ (BITS_PER_LONG - 2)) by (apply Z.pow_le_mono_r; clear -HB; lia).
  unfold calc_global_load at 1. rewrite M_bind_eq. cbn [getS].
  rewrite (time_before_shift _ (calc_load_update s) _ 10) by (apply ul_cong || (fold (elapsed s); lia)).
  fold (elapsed s). destruct (Z.ltb_spec (elapsed s - 10) 0); [lia|].
  destruct (fold_idle_ok s H2) as (d & s1 & E & Hj1 & Hu1). rewrite M_bind_eq, E.
  destruct (add_delta_ok d s1) as (s2 & E2 & Hj2 & Hu2). rewrite M_bind_eq, E2, M_bind_eq. cbn [getS].
  destruct (avenrun s2) as [[a0 a1] a2]. rewrite M_bind_eq. cbn [modS]. rewrite M_bind_eq. cbn [modS].
  match goal with |- context [calc_global_nohz ?t] => set (s3 := t) end.
  assert (Hj3 : jiffies s3 = jiffies s) by (simpl; congruence).
  assert (Hu3 : calc_load_update s3 = ul (calc_load_update s + LOAD_FREQ)) by (simpl; congruence).
  assert (He3 : elapsed s3 = elapsed s - LOAD_FREQ).
  { unfold elapsed at 1. rewrite Hj3, Hu3. rewrite <- (sl_small (elapsed s - LOAD_FREQ)) by (rewrite Hq; lia).
    apply sl_cong_eq. unfold elapsed. rewrite ul_cong, sl_cong. eapply cong_move; [reflexivity|lia]. }
  clearbody s3. destruct (nohz_ok s3 Hz) as (s' & m & E3 & Hj & Hm & Hu & Hm0 & Hend & Hstart); [lia|lia|].
  assert (Hu' : calc_load_update s' = ul (calc_load_update s + (m + 1) * LOAD_FREQ)).
  { rewrite Hu, Hu3. destruct (Z.ltb_spec (elapsed s3) 10).
    - rewrite Hm0 by done. f_equal. lia.
    - apply ul_cong_eq. rewrite ul_cong. eapply cong_move; [reflexivity|lia]. }
  exists s', (m + 1). split; [exact E3|]. split; [congruence|]. split; [done|].
  assert (Hwin : (m + 1 - 1) * LOAD_FREQ <= elapsed s - 10 < (m + 1) * LOAD_FREQ).
  { destruct (decide (m = 0)) as [->|]; [lia|]. specialize (Hstart ltac:(lia)). lia. }
  split; [done|]. unfold calc_global_load. rewrite M_bind_eq. cbn [getS]. rewrite Hj, Hj3, Hu'.
  rewrite (time_before_shift _ (calc_load_update s) _ ((m + 1) * LOAD_FREQ + 10)).
  - fold (elapsed s). destruct (Z.ltb_spec (elapsed s - ((m + 1) * LOAD_FREQ + 10)) 0); [done|lia].
  - rewrite !ul_cong. eapply cong_move; [reflexivity|lia].
  - fold (elapsed s). lia.
Qed.

(** ** Types *)
Definition in_ulong (z : Z) : Prop := 0 <= z < 2 ^ BITS_PER_LONG.
Definition in_long (z : Z) : Prop := - 2 ^ (BITS_PER_LONG - 1) <= z < 2 ^ (BITS_PER_LONG - 1).

Record rq_typed (r : rq) : Prop := {
  t_active : in_long (calc_load_active r);
  t_rq_update : in_ulong (rq_load_update r);
  t_len : length (cpu_load r) = 5%nat;
  t_loads : Forall in_ulong (cpu_load r);
  t_updates : in_ulong (nr_load_updates r);
  t_tick : in_ulong (last_load_update_tick r);
  t_runnable : in_ulong (runnable_load_avg r);
  t_weight : in_ulong (load_weight r)
}.

Record sched_typed (s : sched) : Prop := {
  t_rqs : Forall rq_typed (rqs s);
  t_tasks : in_long (calc_load_tasks s);
  t_update : in_ulong (calc_load_update s);
  t_avenrun : in_ulong (avenrun s).1.1 /\ in_ulong (avenrun s).1.2 /\ in_ulong (avenrun s).2;
  t_counters : two_counters s;
  t_idle : Forall in_long (calc_load_idle s);
  t_idx : - 2 ^ 31 <= calc_load_idx s < 2 ^ 31;
  t_jiffies : in_ulong (jiffies s)
}.

Lemma wraps_bounds w z : 0 < w -> - 2 ^ (w - 1) <= wraps w z < 2 ^ (w - 1).
Proof.
  intros Hw. unfold wraps. assert (2 ^ w = 2 * 2 ^ (w - 1)) by (rewrite <- Z.pow_succ_r by lia; f_equal; lia).
  assert (0 < 2 ^ (w - 1)) by (apply Z.pow_pos_nonneg; lia).
  pose proof (Z.mod_pos_bound (z + 2 ^ (w - 1)) (2 ^ w)). lia.
Qed.

Lemma sl_typed z : in_long (sl z).
Proof. apply wraps_bounds. pose proof word_size. lia. Qed.

Lemma ul_typed z : in_ulong (ul z).
Proof. apply ul_bounds. Qed.

Lemma zero_typed : in_ulong 0 /\ in_long 0.
Proof.
  pose proof W_pos. pose proof half_W. unfold in_ulong, in_long. lia.
Qed.

Lemma shiftr_typed z n : 0 <= n -> in_ulong z -> in_ulong (Z.shiftr z n).
Proof.
  unfold in_ulong. intros Hn Hz. rewrite Z.shiftr_div_pow2 by done.
  assert (0 < 2 ^ n) by (apply Z.pow_pos_nonneg; lia). split; [apply Z.div_pos; lia|].
  apply Z.div_lt_upper_bound; nia.
Qed.

Create HintDb words.
Hint Resolve sl_typed ul_typed shiftr_typed : words.

Lemma calc_load_typed l e a : in_ulong (calc_load l e a).
Proof. unfold calc_load. destruct fixed_point as [[? ?] _]. apply shiftr_typed; [lia|]. apply ul_typed. Qed.

Lemma calc_load_n_typed l e a n :
  0 <= e <= FIXED_1 -> exists v, calc_load_n l e a (u32 n) = Ok v /\ in_ulong v.
Proof.
  intros He. destruct fixed_point as [[Hf Hf'] EF]. rewrite EF in He.
  pose proof (wrapu_bounds 32 n) as Hn.
  destruct (fixed_power_int_ok e FSHIFT (u32 n)) as (r & E & _); [lia|done|apply Hn; lia|].
  unfold calc_load_n. rewrite E. eexists. split; [done|]. apply calc_load_typed.
Qed.

Lemma decay_loop_typed fuel (idx j : nat) load m :
  (1 <= idx <= 4)%nat -> in_ulong load -> 0 <= m < 2 ^ Z.of_nat fuel -> m * 2 ^ Z.of_nat j < 128 ->
  exists r, decay_loop fuel load m idx j = Ok r /\ in_ulong r.
Proof.
  intros Hidx. revert load m j. induction fuel as [|fuel IH]; intros load m j Hl Hm Hmj.
  { assert (m = 0) as -> by (simpl in Hm; lia). by exists load. }
  cbn [decay_loop]. destruct (Z.eqb_spec m 0) as [->|Hm0]; [by exists load|].
  rewrite Nat2Z.inj_succ, Z.pow_succ_r in Hm by lia.
  rewrite Z.shiftr_div_pow2 by lia. change (2 ^ 1) with 2.
  assert (Hp2 : 0 < 2 ^ Z.of_nat j) by (apply Z.pow_pos_nonneg; lia).
  assert (Hj : (j < 7)%nat).
  { destruct (decide (j < 7)%nat) as [|Hge]; [done|]. exfalso.
    assert (2 ^ 7 <= 2 ^ Z.of_nat j) by (apply Z.pow_le_mono_r; lia). nia. }
  assert (Hrec : forall l, in_ulong l -> exists r, decay_loop fuel l (m / 2) idx (S j) = Ok r /\ in_ulong r).
  { intros l Hl'. apply IH; [done| |].
    - split; [apply Z.div_pos; lia|apply Z.div_lt_upper_bound; lia].
    - rewrite Nat2Z.inj_succ, Z.pow_succ_r by lia. pose proof (Z.mul_div_le m 2 ltac:(lia)). nia. }
  destruct (Z.eqb_spec (m mod 2) 0); [by apply Hrec|].
  destruct (degrade_factor_floor idx j) as (row & Hrow & Hf); [lia|done|].
  unfold at_index. rewrite Hrow. cbn [mbind res_bind]. rewrite Hf. cbn [mbind res_bind].
  apply Hrec, shiftr_typed, ul_typed. done.
Qed.

Lemma decay_load_missed_typed (idx : nat) load m :
  (1 <= idx <= 4)%nat -> in_ulong load -> in_ulong m ->
  exists r, decay_load_missed load m idx = Ok r /\ in_ulong r.
Proof.
  intros Hidx Hl Hm. unfold decay_load_missed. destruct (Z.eqb_spec m 0); [by exists load|].
  assert (exists t, degrade_zero_ticks !! idx = Some t /\ 0 < t <= 128) as (t & Ht & Ht128).
  { do 5 (destruct idx as [|idx]; [lia || (eexists; split; [reflexivity|lia])|]). lia. }
  unfold at_index at 1. rewrite Ht. cbn [mbind res_bind].
  rewrite Z.geb_leb. destruct (Z.leb_spec t m); [exists 0; split; [done|apply zero_typed]|].
  destruct Hm as [Hm0 HmW]. destruct (Nat.eqb_spec idx 1).
  - eexists. split; [done|]. by apply shiftr_typed.
  - apply decay_loop_typed; try done; [|lia]. pose proof word_size. rewrite Z2Nat.id by lia. done.
Qed.

Lemma update_loop_typed k i scale new p loads :
  (1 <= i)%nat -> (i + k = 5)%nat -> length loads = 5%nat -> Forall in_ulong loads ->
  exists l, update_loop k i scale new p loads = Ok l /\ length l = 5%nat /\ Forall in_ulong l.
Proof.
  revert i scale loads. induction k as [|k IH]; intros i scale loads Hi Hk Hlen Hl; [by exists loads|].
  cbn [update_loop]. destruct (lookup_lt_is_Some_2 loads i) as [old Hold]; [lia|].
  unfold at_index at 1. rewrite Hold. cbn [mbind res_bind].
  destruct (decay_load_missed_typed i old (ul (p - 1))) as (d & E & Hd);
    [lia|by eapply Forall_lookup_1|apply ul_typed|].
  rewrite E. cbn [mbind res_bind]. apply IH; [lia|lia|by rewrite length_insert|].
  apply Forall_insert; [done|]. apply shiftr_typed; [lia|apply ul_typed].
Qed.

Lemma set_rq_typed cpu r s : sched_typed s -> rq_typed r -> sched_typed (set_rq cpu r s).
Proof. intros [] Hr. split; try done. simpl. by apply Forall_insert. Qed.

Lemma rq_at cpu s : sched_typed s -> (cpu < length (rqs s))%nat ->
  exists r, rqs s !! cpu = Some r /\ rq_typed r /\ get_rq cpu s = Ok (r, s).
Proof.
  intros Hs Hc. destruct (lookup_lt_is_Some_2 _ _ Hc) as [r Hr]. exists r. split; [done|].
  split; [|by apply get_rq_ok]. eapply Forall_lookup_1; [apply Hs|done].
Qed.

(** [f] run on a typed state with enough cpus does not fault, terminates and
    gives a typed state. *)
Definition sound {A} (cpu : nat) (f : M sched cfault A) : Prop :=
  forall s, sched_typed s -> (cpu < length (rqs s))%nat ->
  exists a s', f s = Ok (a, s') /\ sched_typed s' /\ length (rqs s') = length (rqs s).

Lemma sound_bind {A B} cpu (f : M sched cfault A) (g : A -> M sched cfault B) :
  sound cpu f -> (forall a, sound cpu (g a)) -> sound cpu (mbind g f).
Proof.
  intros Hf Hg s Hs Hc. destruct (Hf s Hs Hc) as (a & s1 & E & Hs1 & Hl).
  rewrite (M_bind_ok _ _ _ _ _ E). destruct (Hg a s1 Hs1) as (b & s2 & E2 & Hs2 & Hl2); [lia|].
  exists b, s2. split; [done|]. split; [done|]. lia.
Qed.

Lemma sound_ret {A} cpu (a : A) : sound cpu (mret a).
Proof. intros s Hs Hc. by exists a, s. Qed.

Lemma sound_modS cpu f :
  (forall s, sched_typed s -> sched_typed (f s) /\ length (rqs (f s)) = length (rqs s)) -> sound cpu (modS f).
Proof. intros Hf s Hs Hc. exists tt, (f s). split; [done|]. by apply Hf. Qed.

Lemma fold_active_sound cpu : sound cpu (calc_load_fold_active cpu).
Proof.
  intros s Hs Hc. destruct (rq_at cpu s Hs Hc) as (r & Hr & Hrt & E). unfold calc_load_fold_active.
  rewrite M_bind_eq, E. destruct (negb _); [|by eexists _, s]. rewrite M_bind_eq. cbn [modS].
  eexists _, _. split; [done|]. split; [|simpl; apply length_insert].
  apply set_rq_typed; [done|]. destruct Hrt. split; try done. apply sl_typed.
Qed.

Lemma tasks_add_sound cpu (d : Z) : sound cpu (if negb (d =? 0) then modS (tasks_add d) else mret tt).
Proof.
  destruct (negb _); [|apply sound_ret]. apply sound_modS. intros s []. split; [|done]. split; try done. apply sl_typed.
Qed.

Lemma account_active_sound cpu : sound cpu (calc_load_account_active cpu).
Proof.
  intros s Hs Hc. destruct (rq_at cpu s Hs Hc) as (r & Hr & Hrt & E). unfold calc_load_account_active.
  rewrite M_bind_eq. cbn [getS]. rewrite M_bind_eq, E. destruct (time_before _ _); [by exists tt, s|].
  revert s Hs Hc Hr E. intros s Hs Hc _ _.
  apply (sound_bind cpu (calc_load_fold_active cpu)); try done; [apply fold_active_sound|]. intros d.
  apply sound_bind; [apply tasks_add_sound|]. intros _ s1 Hs1 Hc1.
  destruct (rq_at cpu s1 Hs1 Hc1) as (r1 & Hr1 & Hrt1 & E1). rewrite M_bind_eq, E1.
  eexists tt, _. split; [done|]. split; [|simpl; apply length_insert].
  apply set_rq_typed; [done|]. destruct Hrt1. split; try done. apply ul_typed.
Qed.

Lemma enter_idle_sound cpu : sound cpu (calc_load_enter_idle cpu).
Proof.
  apply sound_bind; [apply fold_active_sound|]. intros d. destruct (negb _); [|apply sound_ret].
  intros s Hs Hc. rewrite M_bind_eq. eexists tt, _. split; [done|]. split; [|done].
  destruct Hs. split; try done; [unfold two_counters, idle_add; simpl; by rewrite length_alter|].
  simpl. apply Forall_alter; [done|]. intros. apply sl_typed.
Qed.

Lemma exit_idle_sound cpu : sound cpu (calc_load_exit_idle cpu).
Proof.
  intros s Hs Hc. destruct (rq_at cpu s Hs Hc) as (r & Hr & Hrt & E). unfold calc_load_exit_idle.
  rewrite M_bind_eq. cbn [getS]. rewrite M_bind_eq, E. destruct (time_before _ _); [by exists tt, s|].
  eexists tt, _. split; [done|]. split; [|simpl; apply length_insert]. apply set_rq_typed; [done|].
  destruct Hrt. split; try done. simpl. destruct (time_before _ _); [apply ul_typed|]. by destruct Hs.
Qed.

Lemma nohz_sound cpu : sound cpu calc_global_nohz.
Proof.
  unfold calc_global_nohz. destruct CONFIG_NO_HZ_COMMON; [|apply sound_ret].
  intros s0 Hs0 Hc0. rewrite M_bind_eq. cbn [getS]. revert Hc0.
  apply (sound_bind cpu (if negb (time_before (jiffies s0) (ul (calc_load_update s0 + 10))) then _ else _)); [|intros _|done].
  - destruct (negb _); [|apply sound_ret]. destruct weights as (W1 & W5 & W15).
    destruct (avenrun s0) as [[a0 a1] a2]. intros s Hs Hc.
    match goal with |- context [u32 ?n] => set (n0 := n) end.
    match goal with |- context [ul (if ?b then _ else _)] => set (act := ul (if b then _ else _)) end.
    destruct (calc_load_n_typed a0 EXP_1 act n0 W1) as (v0 & E0 & T0).
    destruct (calc_load_n_typed a1 EXP_5 act n0 W5) as (v1 & E1 & T1).
    destruct (calc_load_n_typed a2 EXP_15 act n0 W15) as (v2 & E2 & T2).
    rewrite M_bind_eq. unfold lift at 1. rewrite E0. rewrite M_bind_eq. unfold lift at 1. rewrite E1.
    rewrite M_bind_eq. unfold lift at 1. rewrite E2. rewrite M_bind_eq. cbn [modS].
    eexists tt, _. split; [done|]. split; [|done]. destruct Hs. split; try done. apply ul_typed.
  - apply sound_modS. intros s []. split; [|done]. split; try done. simpl. by apply (wraps_bounds 32).
Qed.

Lemma fold_idle_sound cpu : sound cpu calc_load_fold_idle.
Proof.
  intros s Hs Hc. unfold calc_load_fold_idle. destruct CONFIG_NO_HZ_COMMON; [|by exists 0, s].
  rewrite M_bind_eq. cbn [getS]. pose proof (t_counters _ Hs) as H2.
  destruct (lookup_lt_is_Some_2 (calc_load_idle s) (Z.to_nat (calc_load_read_idx s))) as [x Hx].
  { rewrite H2. unfold calc_load_read_idx. destruct (land_1 (calc_load_idx s)) as [-> | ->]; simpl; lia. }
  rewrite Hx. destruct (negb _); [|by exists 0, s]. rewrite M_bind_eq. eexists x, _. split; [done|].
  split; [|done]. destruct Hs. split; try done; [unfold two_counters; simpl; by rewrite length_insert|].
  simpl. apply Forall_insert; [done|]. apply zero_typed.
Qed.

Lemma global_load_sound cpu : sound cpu calc_global_load.
Proof.
  intros s Hs Hc. unfold calc_global_load. rewrite M_bind_eq. cbn [getS]. destruct (time_before _ _); [by exists tt, s|].
  revert s Hs Hc. apply sound_bind; [apply fold_idle_sound|]. intros d. apply sound_bind; [apply tasks_add_sound|].
  intros _ s Hs Hc. rewrite M_bind_eq. cbn [getS]. destruct (avenrun s) as [[a0 a1] a2].
  rewrite M_bind_eq. cbn [modS]. rewrite M_bind_eq. cbn [modS].
  match goal with |- context [calc_global_nohz ?t] => destruct (nohz_sound cpu t) as (x & s' & E & Hs' & Hl) end.
  - destruct Hs. split; try done; [apply ul_typed|]. simpl. split_and!; apply calc_load_typed.
  - done.
  - destruct x. by exists tt, s'.
Qed.

Lemma update_cpu_load_sound cpu load p : in_ulong load -> sound cpu (__update_cpu_load cpu load p).
Proof.
  intros Hl s Hs Hc. destruct (rq_at cpu s Hs Hc) as (r & Hr & Hrt & E). unfold __update_cpu_load.
  rewrite M_bind_eq, E. pose proof (t_len _ Hrt) as Hlen.
  destruct (lookup_lt_is_Some_2 (cpu_load r) 0) as [l0 Hl0]; [lia|].
  unfold at_index at 1. rewrite Hl0. rewrite M_bind_eq. cbn [lift]. rewrite M_bind_eq, load_indices.
  destruct (update_loop_typed 4 1 2 load p (<[0%nat := load]> (cpu_load r))) as (l & El & Hll & Hlt);
    [lia|lia|by rewrite length_insert|by apply Forall_insert; [apply Hrt|]|].
  change (5 - 1)%nat with 4%nat. rewrite El. cbn [lift modS].
  eexists tt, _. split; [done|]. split; [|simpl; apply length_insert].
  apply set_rq_typed; [done|]. destruct Hrt. split; try done. apply ul_typed.
Qed.

Lemma set_tick_sound cpu r s : sched_typed s -> rq_typed r -> sched_typed (set_rq cpu (rq_set_tick (jiffies s) r) s).
Proof. intros Hs Hr. apply set_rq_typed; [done|]. destruct Hr. split; try done. simpl. by destruct Hs. Qed.

(** The update after the tick of [cpu] has been set. *)
Lemma tick_update_sound cpu load p s r :
  in_ulong load -> sched_typed s -> (cpu < length (rqs s))%nat -> rq_typed r ->
  exists a s', __update_cpu_load cpu load p (set_rq cpu (rq_set_tick (jiffies s) r) s) = Ok (a, s') /\
    sched_typed s' /\ length (rqs s') = length (rqs s).
Proof.
  intros Hl Hs Hc Hr.
  destruct (update_cpu_load_sound cpu load p Hl (set_rq cpu (rq_set_tick (jiffies s) r) s)) as (a & s' & E & Hs' & Hls).
  - by apply set_tick_sound.
  - simpl. by rewrite length_insert.
  - exists a, s'. split; [done|]. split; [done|]. rewrite Hls. simpl. apply length_insert.
Qed.

Lemma runnable_typed r : rq_typed r -> in_ulong (get_rq_runnable_load r).
Proof. intros []. unfold get_rq_runnable_load. by destruct CONFIG_SMP. Qed.

Lemma idle_load_sound cpu : sound cpu (update_idle_cpu_load cpu).
Proof.
  intros s Hs Hc. destruct (rq_at cpu s Hs Hc) as (r & Hr & Hrt & E). unfold update_idle_cpu_load.
  rewrite M_bind_eq. cbn [getS]. rewrite M_bind_eq, E. destruct (_ || _); [by exists tt, s|].
  rewrite M_bind_eq. cbn [modS]. apply tick_update_sound; try done. by apply runnable_typed.
Qed.

Lemma load_nohz_sound cpu : sound cpu (update_cpu_load_nohz cpu).
Proof.
  intros s Hs Hc. destruct (rq_at cpu s Hs Hc) as (r & Hr & Hrt & E). unfold update_cpu_load_nohz.
  rewrite M_bind_eq. cbn [getS]. rewrite M_bind_eq, E. destruct (_ =? _); [by exists tt, s|].
  destruct (negb _); [|by exists tt, s]. rewrite M_bind_eq. cbn [modS].
  apply tick_update_sound; try done. apply zero_typed.
Qed.

Lemma load_active_sound cpu : sound cpu (update_cpu_load_active cpu).
Proof.
  intros s Hs Hc. destruct (rq_at cpu s Hs Hc) as (r & Hr & Hrt & E). unfold update_cpu_load_active.
  rewrite M_bind_eq. cbn [getS]. rewrite M_bind_eq, E, M_bind_eq. cbn [putS].
  destruct (tick_update_sound cpu (get_rq_runnable_load r) 1 s r) as (a & s1 & E1 & Hs1 & Hl1); try done;
    [by apply runnable_typed|]. rewrite M_bind_eq, E1.
  destruct (account_active_sound cpu s1) as (b & s2 & E2 & Hs2 & Hl2); [done|lia|].
  exists b, s2. split; [done|]. split; [done|]. lia.
Qed.

(** C31. The calls of the scheduler are type sound: on a state whose words are
    in the range of their C types, with both idle counters and the five
    loads of each cpu, every call terminates without an access outside its
    arrays and leaves such a state. *)
Theorem sched_type_sound cpu s :
  sched_typed s -> (cpu < length (rqs s))%nat ->
  Forall (fun f : M sched cfault unit => exists s', f s = Ok (tt, s') /\ sched_typed s')
    [calc_load_enter_idle cpu; calc_load_exit_idle cpu; calc_load_account_active cpu; calc_global_load;
     calc_global_nohz; update_idle_cpu_load cpu; update_cpu_load_nohz cpu; update_cpu_load_active cpu].
Proof.
  intros Hs Hc.
  assert (H1 : forall f : M sched cfault unit, sound cpu f -> exists s', f s = Ok (tt, s') /\ sched_typed s').
  { intros f Hf. destruct (Hf s Hs Hc) as ([] & s' & E & Hs' & _). by exists s'. }
  rewrite !Forall_cons. split_and!; [..|done]; apply H1.
  - apply enter_idle_sound.
  - apply exit_idle_sound.
  - apply account_active_sound.
  - apply global_load_sound.
  - apply nohz_sound.
  - apply idle_load_sound.
  - apply load_nohz_sound.
  - apply load_active_sound.
Qed.
End theorems.

(** ** A 64-bit machine with two cpus *)
#[local] Instance K64 : Kernel := {
  BITS_PER_LONG := 64; CONFIG_NO_HZ_COMMON := true; CONFIG_SMP := true; CPU_LOAD_IDX_MAX := 5;
  FSHIFT := 11; FIXED_1 := 2048; EXP_1 := 1884; EXP_5 := 2014; EXP_15 := 2037; LOAD_FREQ := 5001;
  time_before := fun a b => wraps 64 (a - b) <? 0;
  rt_avg := Z; sched_avg_update := fun a => a
}.

#[local] Instance K64_laws : SchedLaws.
Proof. split; simpl; try done; lia. Qed.

Definition ex_rq : rq := MkRq 3 0 0 5000 [0; 6; 6; 9; 8] 0 0 7 0 0.
Definition ex_sched : sched := MkSched [ex_rq; ex_rq] 0 5000 (100, 50, 20) [0; 0] 0 20000.

Lemma ex_typed : sched_typed ex_sched.
Proof.
  assert (Hr : rq_typed ex_rq).
  { split; unfold in_long, in_ulong; simpl; try done; repeat constructor; lia || done. }
  split; unfold in_long, in_ulong; simpl; repeat constructor; try lia; try done; apply Hr.
Qed.

Lemma load_accounting_witness :
  exists s, rtc step (ex_sched, []) (s, []) /\
    cong (calc_load_tasks s + sumZ (calc_load_idle s) + pending []) (sumZ (calc_load_active <$> rqs s)).
Proof.
  assert (Hb : booted ex_sched) by (split_and!; [done|done|by repeat constructor]).
  destruct (account_active_sound 0 ex_sched ex_typed) as ([] & s & E & _); [simpl; lia|].
  exists s. assert (Hs : rtc step (ex_sched, []) (s, [])) by by eapply account_active_steps.
  split; [exact Hs|]. exact (proj1 (load_accounting ex_sched s [] Hb Hs)).
Defined.

Lemma calls_are_steps_witness : exists s', calc_global_load ex_sched = Ok (tt, s') /\ rtc step (ex_sched, []) (s', []).
Proof.
  destruct (global_load_sound 0 ex_sched ex_typed) as ([] & s' & E & _); [simpl; lia|].
  exists s'. split; [done|]. apply (calls_are_steps 0 ex_sched); [done|]. right. right. right. exact E.
Defined.

Lemma calc_load_between_witness : 100 <= calc_load 100 1884 4096 <= 4096.
Proof. apply (calc_load_between 100 1884 4096); simpl; lia. Defined.

Lemma calc_load_idle_stuck_witness : Nat.iter 1000 (fun l => calc_load l 2037 0) 93 = 93.
Proof. apply (calc_load_idle_stuck 93 2037 1000); simpl; lia. Defined.

Lemma fixed_power_int_accurate_witness :
  exists r, fixed_power_int 1884 11 3 = Ok r /\ 2 * Z.abs (r * 2048 ^ 3 - 2048 * 1884 ^ 3) <= 3 * 2048 ^ 3.
Proof.
  destruct (fixed_power_int_accurate 1884 11 3) as (r & E & _ & Hr); [lia|lia|lia|].
  exists r. exact (conj E Hr).
Defined.

Lemma decay_load_missed_bound_witness :
  exists r, decay_load_missed 1000 5 2 = Ok r /\ r * 4 ^ 5 <= 1000 * 3 ^ 5.
Proof.
  destruct (decay_load_missed_bound 2 1000 5) as (r & E & _ & Hr); [lia|simpl; lia|lia|].
  exists r. exact (conj E Hr).
Defined.

Lemma cpu_load_converges_witness :
  exists s' r', ticks [1; 2; 3; 4; 5; 6; 7] 0 ex_sched = Ok (tt, s') /\ rqs s' !! 0%nat = Some r' /\
    cpu_load r' = [7; 7; 7; 7; 7].
Proof.
  apply (cpu_load_converges 0 [1; 2; 3; 4; 5; 6; 7] ex_sched ex_rq); try done.
  - repeat constructor; unfold small_load; simpl; lia.
  - repeat constructor; vm_compute; discriminate.
Defined.

Lemma calc_global_load_catches_up_witness :
  exists s' m, calc_global_load ex_sched = Ok (tt, s') /\ calc_load_update s' = ul (5000 + m * 5001) /\
    (m - 1) * 5001 <= 14990 < m * 5001.
Proof.
  destruct (calc_global_load_catches_up ex_sched) as (s' & m & E & _ & Hu & Hm & _); [done|done|vm_compute; split; done|].
  exists s', m. exact (conj E (conj Hu Hm)).
Defined.

Lemma sched_type_sound_witness : exists s', update_cpu_load_active 1 ex_sched = Ok (tt, s') /\ sched_typed s'.
Proof.
  pose proof (sched_type_sound 1 ex_sched ex_typed ltac:(simpl; lia)) as H. rewrite !Forall_cons in H.
  destruct H as (_ & _ & _ & _ & _ & _ & _ & Hs & _). exact Hs.
Defined.
