(* ===== verification/Dll.v ===== *)
(** * Doubly linked chains through a heap

    A node can be on several chains at once, each through its own pair of
    link fields: the class [Links] names one pair.  [dseg h p xs q] says that
    [xs] is a segment of the chain whose first node points back to [p] and
    whose last node points on to [q].  [dpush] and [dunlink] are what the C
    code does to the heap to insert a node in front and to take one out;
    neither touches anything but the links ([erased]), so that everything else
    known of the heap, the other chains included, is carried along. *)
From S2P Require Import Prelude Heap.
Open Scope nat_scope.

Class Links (V : Type) := {
  lnext : V -> option loc;
  lprev : V -> option loc;
  set_lnext : option loc -> V -> V;
  set_lprev : option loc -> V -> V
}.

Class LinksLaws (V : Type) `{Links V} : Prop := {
  lnext_next q v : lnext (set_lnext q v) = q;
  lprev_next q v : lprev (set_lnext q v) = lprev v;
  lnext_prev p v : lnext (set_lprev p v) = lnext v;
  lprev_prev p v : lprev (set_lprev p v) = p;
  next_next q q' v : set_lnext q (set_lnext q' v) = set_lnext q v;
  prev_prev p p' v : set_lprev p (set_lprev p' v) = set_lprev p v;
  next_prev q p v : set_lnext q (set_lprev p v) = set_lprev p (set_lnext q v)
}.

Create Rewrite HintDb links.
#[export] Hint Rewrite @lnext_next @lprev_next @lnext_prev @lprev_prev @next_next @prev_prev
  using typeclasses eauto : links.

Section dll.
Context {V : Type} `{LinksLaws V}.
Implicit Types (h : gmap loc V) (xs ys : list loc).

(** The node without its links. *)
Definition erase (v : V) : V := set_lnext None (set_lprev None v).
Definition erased h : gmap loc V := erase <$> h.

(** The first location of a segment that is followed by [q], and the last of
    one that follows [p]. *)
Definition first_of xs (q : option loc) : option loc :=
  match xs with [] => q | x :: _ => Some x end.
Definition last_of (p : option loc) xs : option loc :=
  match last xs with None => p | Some x => Some x end.

Fixpoint dseg h (p : option loc) xs (q : option loc) : Prop :=
  match xs with
  | [] => True
  | x :: xs' =>
      (exists v, h !! x = Some v /\ lprev v = p /\ lnext v = first_of xs' q) /\ dseg h (Some x) xs' q
  end.

Definition dll h xs : Prop := dseg h None xs None.

Definition dpush (x : loc) (q : option loc) h : gmap loc V :=
  let h1 := alter (fun v => set_lprev None (set_lnext q v)) x h in
  match q with Some y => alter (set_lprev (Some x)) y h1 | None => h1 end.

Definition dunlink (v : V) h : gmap loc V :=
  let h1 := match lprev v with Some p => alter (set_lnext (lnext v)) p h | None => h end in
  match lnext v with Some n => alter (set_lprev (lprev v)) n h1 | None => h1 end.

(** ** Erasure *)
Lemma erase_next q v : erase (set_lnext q v) = erase v.
Proof. unfold erase. by rewrite <- next_prev, next_next. Qed.

Lemma erase_prev p v : erase (set_lprev p v) = erase v.
Proof. unfold erase. by rewrite prev_prev. Qed.

Lemma erased_alter f x h : (forall v, erase (f v) = erase v) -> erased (alter f x h) = erased h.
Proof.
  intros Hf. apply map_eq. intros i. unfold erased. rewrite !lookup_fmap.
  destruct (decide (i = x)) as [->|Hi].
  - rewrite lookup_alter_eq. destruct (h !! x); simpl; [by rewrite Hf|done].
  - by rewrite lookup_alter_ne.
Qed.

Lemma erased_dpush x q h : erased (dpush x q h) = erased h.
Proof.
  unfold dpush. destruct q as [y|]; rewrite ?erased_alter;
    auto using erase_next, erase_prev; intros v; by rewrite erase_prev, ?erase_next.
Qed.

Lemma erased_dunlink v h : erased (dunlink v h) = erased h.
Proof.
  unfold dunlink. destruct (lnext v), (lprev v); rewrite ?erased_alter; auto using erase_next, erase_prev.
Qed.

(** What [erased h' = erased h] says of one node: a field that erasing keeps
    is unchanged. *)
Lemma erased_lookup {B} (f : V -> B) h h' x :
  (forall v, f (erase v) = f v) -> erased h' = erased h -> f <$> h' !! x = f <$> h !! x.
Proof.
  intros Hf E. assert (E' : erased h' !! x = erased h !! x) by (by rewrite E).
  unfold erased in E'. rewrite !lookup_fmap in E'.
  destruct (h' !! x), (h !! x); simpl in *; try done. injection E' as E'.
  f_equal. by rewrite <- Hf, E', Hf.
Qed.

Lemma erased_dom h h' : erased h' = erased h -> dom h' = dom h.
Proof. intros E. apply (f_equal dom) in E. unfold erased in E. by rewrite !dom_fmap_L in E. Qed.

(** ** Segments *)
Lemma first_of_app xs ys q : first_of (xs ++ ys) q = first_of xs (first_of ys q).
Proof. by destruct xs. Qed.

Lemma last_of_cons p x xs : last_of p (x :: xs) = last_of (Some x) xs.
Proof. unfold last_of. rewrite last_cons. by destruct (last xs). Qed.

Lemma dseg_app h p xs ys q :
  dseg h p (xs ++ ys) q <-> dseg h p xs (first_of ys q) /\ dseg h (last_of p xs) ys q.
Proof.
  revert p. induction xs as [|x xs IH]; intros p; simpl; [naive_solver|].
  rewrite IH, last_of_cons, first_of_app. naive_solver.
Qed.

Lemma dseg_ext h h' p xs q :
  (forall x, x ∈ xs -> (fun v => (lnext v, lprev v)) <$> h' !! x = (fun v => (lnext v, lprev v)) <$> h !! x) ->
  dseg h p xs q -> dseg h' p xs q.
Proof.
  revert p. induction xs as [|x xs IH]; intros p Hx; simpl; [done|].
  intros [(v & E & Ep & En) Hs]. split; [|apply IH; [set_solver|done]].
  specialize (Hx x (list_elem_of_here _ _)). rewrite E in Hx. simpl in Hx.
  destruct (h' !! x) as [v'|]; [|done]. injection Hx as E1 E2. exists v'. by rewrite E1, E2.
Qed.

Lemma dseg_alter_ne f y h p xs q : y ∉ xs -> dseg h p xs q -> dseg (alter f y h) p xs q.
Proof.
  intros Hy. apply dseg_ext. intros x Hx. rewrite lookup_alter_ne; [done|]. set_solver.
Qed.

Lemma dseg_elem h p xs q x : dseg h p xs q -> x ∈ xs -> is_Some (h !! x).
Proof.
  revert p. induction xs as [|y xs IH]; intros p; simpl; [by intros _ ?%elem_of_nil|].
  intros [(v & E & _) Hs] [->|Hx]%elem_of_cons; [eauto|]. by eapply IH.
Qed.

Lemma dseg_set_head h p p' xs q :
  NoDup xs -> dseg h p xs q ->
  dseg (match first_of xs None with Some y => alter (set_lprev p') y h | None => h end) p' xs q.
Proof.
  destruct xs as [|x xs]; simpl; [done|]. intros [Hx Hnd]%NoDup_cons [(v & E & Ep & En) Hs]. split.
  - exists (set_lprev p' v). rewrite lookup_alter_eq, E. by rewrite lprev_prev, lnext_prev.
  - by apply dseg_alter_ne.
Qed.

Lemma dseg_set_last h p xs q q' :
  NoDup xs -> dseg h p xs q ->
  dseg (match last_of None xs with Some y => alter (set_lnext q') y h | None => h end) p xs q'.
Proof.
  destruct xs as [|x xs _] using rev_ind; [done|]. unfold last_of. rewrite last_snoc.
  intros Hnd Hs. apply NoDup_app in Hnd as (_ & Hni & _). apply dseg_app in Hs as [H1 H2].
  apply dseg_app. simpl in *. split.
  - apply dseg_alter_ne; [set_solver|]. done.
  - destruct H2 as [(v & E & Ep & En) _]. split; [|done].
    exists (set_lnext q' v). rewrite lookup_alter_eq, E. by rewrite lnext_next, lprev_next.
Qed.

(** ** Insertion and removal *)
Lemma dpush_dll h x xs :
  is_Some (h !! x) -> x ∉ xs -> NoDup xs -> dll h xs -> dll (dpush x (first_of xs None) h) (x :: xs).
Proof.
  intros [v E] Hx Hnd Hd. unfold dll, dpush. simpl. split.
  - exists (set_lprev None (set_lnext (first_of xs None) v)).
    split; [|by rewrite lprev_prev, lnext_prev, lnext_next].
    destruct xs as [|y ys]; simpl; [by rewrite lookup_alter_eq, E|].
    rewrite lookup_alter_ne by set_solver. by rewrite lookup_alter_eq, E.
  - apply dseg_set_head with (p := None); [done|]. by apply dseg_alter_ne.
Qed.

Lemma dunlink_dll h x xs ys v :
  h !! x = Some v -> NoDup (xs ++ x :: ys) -> dll h (xs ++ x :: ys) ->
  lprev v = last_of None xs /\ lnext v = first_of ys None /\ dll (dunlink v h) (xs ++ ys) /\
  dunlink v h !! x = Some v.
Proof.
  intros E Hnd Hd. unfold dll in *. apply dseg_app in Hd as [H1 H2]. simpl in H2.
  destruct H2 as [(v' & E' & Ep & En) H2]. rewrite E in E'. injection E' as <-.
  apply NoDup_app in Hnd as (N1 & Hdis & [N2 N3]%NoDup_cons). unfold dunlink. rewrite Ep, En.
  assert (Hl : forall z, last_of None xs = Some z -> z ∈ xs).
  { unfold last_of. intros z Hz. destruct (last xs) eqn:El; [|done]. injection Hz as <-.
    by apply last_Some_elem_of. }
  assert (Hf : forall z, first_of ys None = Some z -> z ∈ ys).
  { intros z Hz. destruct ys; [done|]. injection Hz as <-. apply list_elem_of_here. }
  set (h1 := match last_of None xs with Some p => alter (set_lnext (first_of ys None)) p h | None => h end).
  assert (A1 : dseg h1 None xs (first_of ys None)).
  { apply dseg_set_last with (q := first_of (x :: ys) None); done. }
  assert (A2 : dseg h1 (Some x) ys None).
  { unfold h1. destruct (last_of None xs) as [p|] eqn:El; [|done].
    apply dseg_alter_ne; [|done]. intros Hp. apply (Hdis p); [by apply Hl|]. by apply list_elem_of_further. }
  split_and!; [done|done| |].
  - apply dseg_app. split.
    + destruct (first_of ys None) as [n|] eqn:Ef; [|done]. apply dseg_alter_ne; [|done].
      intros Hn. apply (Hdis n Hn). apply list_elem_of_further. by apply Hf.
    + apply dseg_set_head with (p := Some x); done.
  - assert (Eh : h1 !! x = Some v).
    { unfold h1. destruct (last_of None xs) as [p|] eqn:El; [|done].
      rewrite lookup_alter_ne; [done|]. intros ->. apply (Hdis x); [by apply Hl|apply list_elem_of_here]. }
    destruct (first_of ys None) as [n|] eqn:Ef; [|done].
    rewrite lookup_alter_ne; [done|]. intros ->. by apply N2, Hf.
Qed.

Lemma dll_middle h x xs ys :
  dll h (xs ++ x :: ys) ->
  exists v, h !! x = Some v /\ lprev v = last_of None xs /\ lnext v = first_of ys None.
Proof. intros Hd. unfold dll in Hd. apply dseg_app in Hd as [_ [Hx _]]. done. Qed.

Lemma dll_length h xs : NoDup xs -> dll h xs -> length xs <= size h.
Proof.
  intros Hnd Hd. rewrite <- (size_list_to_set (C := gset loc)) by done.
  rewrite <- size_dom. apply subseteq_size. intros x Hx%elem_of_list_to_set.
  apply elem_of_dom. by eapply dseg_elem.
Qed.
End dll.
#[global] Arguments dll : simpl never.
