(* ===== verification/Memfile.v ===== *)
(** * Vim: blocks of memory that can be stored in a file ([memfile.c])

    A memory file keeps its blocks in memory headers that are on a doubly
    linked list in order of use, and on one hash list per bucket; the headers
    of freed blocks with a place in the file are on a free list.  Blocks with a
    negative number have no place in the file yet; when they get one a
    translation record is put on a second family of hash lists.

    The functions are state transformers in the prelude's monad over the state
    [mfs]: the fields of the [MEMFILE], the heaps of headers, translation
    records and file names, the bytes of the file, and the memory used by all
    memory files.  The functions are those of a Unix system ([UNIX] defined,
    [AMIGA], [MSDOS] and [SCO] not).  Messages are left out.

    [structs.h], the options [p_mm] and [p_mmt] and [FullName] are not part of
    the repository, and the answers of the system calls and of [alloc] are not
    determined by the program: they are the class [Vim], where the answer to a
    call depends on the number of calls made before it.  [blocknr_t], the
    fields of the structures and [long_u] have types from those headers and
    are integers without a bound; the variables declared [unsigned] and [long]
    in this file wrap around. *)
From S2P Require Import Prelude Heap Dll.
From stdpp Require Import strings.
Open Scope Z_scope.

(** What a data pointer points to: nothing, a live block, or one that has been
    given back. *)
Inductive block_data := BNull | BLive (bs : list Z) | BFreed.

Record bhdr := MkBhdr {
  bh_next : option loc;
  bh_prev : option loc;
  bh_hash_next : option loc;
  bh_hash_prev : option loc;
  bh_bnum : Z;
  bh_data : block_data;
  bh_page_count : Z;
  bh_flags : Z
}.

Record nr_trans := MkTrans {
  nt_next : option loc;
  nt_prev : option loc;
  nt_old_bnum : Z;
  nt_new_bnum : Z
}.

Record memfile := MkMemfile {
  mf_fname : option loc;
  mf_xfname : option loc;
  mf_fd : Z;
  mf_free_first : option loc;
  mf_used_first : option loc;
  mf_used_last : option loc;
  mf_dirty : bool;
  mf_used_count : Z;
  mf_used_count_max : Z;
  mf_hash : list (option loc);
  mf_trans : list (option loc);
  mf_page_size : Z;
  mf_blocknr_max : Z;
  mf_blocknr_min : Z;
  mf_neg_count : Z;
  mf_infile_count : Z
}.

(** [blocks], [transes] and [strs] are the heaps of block headers, translation
    records and file names; [disk] is the file, [unlinked] the names removed,
    [calls] the number of calls made to the system and to [alloc]. *)
Record mfs := MkMfs {
  mfp : memfile;
  blocks : gmap loc bhdr;
  transes : gmap loc nr_trans;
  strs : gmap loc string;
  disk : list Z;
  unlinked : list (option string);
  total_mem_used : Z;
  calls : nat
}.

Definition set_bh_next (x : option loc) (b : bhdr) : bhdr :=
  MkBhdr x (bh_prev b) (bh_hash_next b) (bh_hash_prev b) (bh_bnum b) (bh_data b) (bh_page_count b) (bh_flags
    b).
Definition set_bh_prev (x : option loc) (b : bhdr) : bhdr :=
  MkBhdr (bh_next b) x (bh_hash_next b) (bh_hash_prev b) (bh_bnum b) (bh_data b) (bh_page_count b) (bh_flags
    b).
Definition set_bh_hash_next (x : option loc) (b : bhdr) : bhdr :=
  MkBhdr (bh_next b) (bh_prev b) x (bh_hash_prev b) (bh_bnum b) (bh_data b) (bh_page_count b) (bh_flags b).
Definition set_bh_hash_prev (x : option loc) (b : bhdr) : bhdr :=
  MkBhdr (bh_next b) (bh_prev b) (bh_hash_next b) x (bh_bnum b) (bh_data b) (bh_page_count b) (bh_flags b).
Definition set_bh_bnum (x : Z) (b : bhdr) : bhdr :=
  MkBhdr (bh_next b) (bh_prev b) (bh_hash_next b) (bh_hash_prev b) x (bh_data b) (bh_page_count b) (bh_flags
    b).
Definition set_bh_data (x : block_data) (b : bhdr) : bhdr :=
  MkBhdr (bh_next b) (bh_prev b) (bh_hash_next b) (bh_hash_prev b) (bh_bnum b) x (bh_page_count b) (bh_flags
    b).
Definition set_bh_page_count (x : Z) (b : bhdr) : bhdr :=
  MkBhdr (bh_next b) (bh_prev b) (bh_hash_next b) (bh_hash_prev b) (bh_bnum b) (bh_data b) x (bh_flags b).
Definition set_bh_flags (x : Z) (b : bhdr) : bhdr :=
  MkBhdr (bh_next b) (bh_prev b) (bh_hash_next b) (bh_hash_prev b) (bh_bnum b) (bh_data b) (bh_page_count b)
    x.
Definition set_nt_next (x : option loc) (t : nr_trans) : nr_trans :=
  MkTrans x (nt_prev t) (nt_old_bnum t) (nt_new_bnum t).
Definition set_nt_prev (x : option loc) (t : nr_trans) : nr_trans :=
  MkTrans (nt_next t) x (nt_old_bnum t) (nt_new_bnum t).
Definition set_nt_old_bnum (x : Z) (t : nr_trans) : nr_trans :=
  MkTrans (nt_next t) (nt_prev t) x (nt_new_bnum t).
Definition set_nt_new_bnum (x : Z) (t : nr_trans) : nr_trans :=
  MkTrans (nt_next t) (nt_prev t) (nt_old_bnum t) x.
Definition set_mf_fname (x : option loc) (m : memfile) : memfile :=
  MkMemfile x (mf_xfname m) (mf_fd m) (mf_free_first m) (mf_used_first m) (mf_used_last m) (mf_dirty m)
    (mf_used_count m) (mf_used_count_max m) (mf_hash m) (mf_trans m) (mf_page_size m) (mf_blocknr_max m)
    (mf_blocknr_min m) (mf_neg_count m) (mf_infile_count m).
Definition set_mf_xfname (x : option loc) (m : memfile) : memfile :=
  MkMemfile (mf_fname m) x (mf_fd m) (mf_free_first m) (mf_used_first m) (mf_used_last m) (mf_dirty m)
    (mf_used_count m) (mf_used_count_max m) (mf_hash m) (mf_trans m) (mf_page_size m) (mf_blocknr_max m)
    (mf_blocknr_min m) (mf_neg_count m) (mf_infile_count m).
Definition set_mf_fd (x : Z) (m : memfile) : memfile :=
  MkMemfile (mf_fname m) (mf_xfname m) x (mf_free_first m) (mf_used_first m) (mf_used_last m) (mf_dirty m)
    (mf_used_count m) (mf_used_count_max m) (mf_hash m) (mf_trans m) (mf_page_size m) (mf_blocknr_max m)
    (mf_blocknr_min m) (mf_neg_count m) (mf_infile_count m).
Definition set_mf_free_first (x : option loc) (m : memfile) : memfile :=
  MkMemfile (mf_fname m) (mf_xfname m) (mf_fd m) x (mf_used_first m) (mf_used_last m) (mf_dirty m)
    (mf_used_count m) (mf_used_count_max m) (mf_hash m) (mf_trans m) (mf_page_size m) (mf_blocknr_max m)
    (mf_blocknr_min m) (mf_neg_count m) (mf_infile_count m).
Definition set_mf_used_first (x : option loc) (m : memfile) : memfile :=
  MkMemfile (mf_fname m) (mf_xfname m) (mf_fd m) (mf_free_first m) x (mf_used_last m) (mf_dirty m)
    (mf_used_count m) (mf_used_count_max m) (mf_hash m) (mf_trans m) (mf_page_size m) (mf_blocknr_max m)
    (mf_blocknr_min m) (mf_neg_count m) (mf_infile_count m).
Definition set_mf_used_last (x : option loc) (m : memfile) : memfile :=
  MkMemfile (mf_fname m) (mf_xfname m) (mf_fd m) (mf_free_first m) (mf_used_first m) x (mf_dirty m)
    (mf_used_count m) (mf_used_count_max m) (mf_hash m) (mf_trans m) (mf_page_size m) (mf_blocknr_max m)
    (mf_blocknr_min m) (mf_neg_count m) (mf_infile_count m).
Definition set_mf_dirty (x : bool) (m : memfile) : memfile :=
  MkMemfile (mf_fname m) (mf_xfname m) (mf_fd m) (mf_free_first m) (mf_used_first m) (mf_used_last m) x
    (mf_used_count m) (mf_used_count_max m) (mf_hash m) (mf_trans m) (mf_page_size m) (mf_blocknr_max m)
    (mf_blocknr_min m) (mf_neg_count m) (mf_infile_count m).
Definition set_mf_used_count (x : Z) (m : memfile) : memfile :=
  MkMemfile (mf_fname m) (mf_xfname m) (mf_fd m) (mf_free_first m) (mf_used_first m) (mf_used_last m)
    (mf_dirty m) x (mf_used_count_max m) (mf_hash m) (mf_trans m) (mf_page_size m) (mf_blocknr_max m)
    (mf_blocknr_min m) (mf_neg_count m) (mf_infile_count m).
Definition set_mf_used_count_max (x : Z) (m : memfile) : memfile :=
  MkMemfile (mf_fname m) (mf_xfname m) (mf_fd m) (mf_free_first m) (mf_used_first m) (mf_used_last m)
    (mf_dirty m) (mf_used_count m) x (mf_hash m) (mf_trans m) (mf_page_size m) (mf_blocknr_max m)
    (mf_blocknr_min m) (mf_neg_count m) (mf_infile_count m).
Definition set_mf_hash (x : list (option loc)) (m : memfile) : memfile :=
  MkMemfile (mf_fname m) (mf_xfname m) (mf_fd m) (mf_free_first m) (mf_used_first m) (mf_used_last m)
    (mf_dirty m) (mf_used_count m) (mf_used_count_max m) x (mf_trans m) (mf_page_size m) (mf_blocknr_max m)
    (mf_blocknr_min m) (mf_neg_count m) (mf_infile_count m).
Definition set_mf_trans (x : list (option loc)) (m : memfile) : memfile :=
  MkMemfile (mf_fname m) (mf_xfname m) (mf_fd m) (mf_free_first m) (mf_used_first m) (mf_used_last m)
    (mf_dirty m) (mf_used_count m) (mf_used_count_max m) (mf_hash m) x (mf_page_size m) (mf_blocknr_max m)
    (mf_blocknr_min m) (mf_neg_count m) (mf_infile_count m).
Definition set_mf_page_size (x : Z) (m : memfile) : memfile :=
  MkMemfile (mf_fname m) (mf_xfname m) (mf_fd m) (mf_free_first m) (mf_used_first m) (mf_used_last m)
    (mf_dirty m) (mf_used_count m) (mf_used_count_max m) (mf_hash m) (mf_trans m) x (mf_blocknr_max m)
    (mf_blocknr_min m) (mf_neg_count m) (mf_infile_count m).
Definition set_mf_blocknr_max (x : Z) (m : memfile) : memfile :=
  MkMemfile (mf_fname m) (mf_xfname m) (mf_fd m) (mf_free_first m) (mf_used_first m) (mf_used_last m)
    (mf_dirty m) (mf_used_count m) (mf_used_count_max m) (mf_hash m) (mf_trans m) (mf_page_size m) x
    (mf_blocknr_min m) (mf_neg_count m) (mf_infile_count m).
Definition set_mf_blocknr_min (x : Z) (m : memfile) : memfile :=
  MkMemfile (mf_fname m) (mf_xfname m) (mf_fd m) (mf_free_first m) (mf_used_first m) (mf_used_last m)
    (mf_dirty m) (mf_used_count m) (mf_used_count_max m) (mf_hash m) (mf_trans m) (mf_page_size m)
    (mf_blocknr_max m) x (mf_neg_count m) (mf_infile_count m).
Definition set_mf_neg_count (x : Z) (m : memfile) : memfile :=
  MkMemfile (mf_fname m) (mf_xfname m) (mf_fd m) (mf_free_first m) (mf_used_first m) (mf_used_last m)
    (mf_dirty m) (mf_used_count m) (mf_used_count_max m) (mf_hash m) (mf_trans m) (mf_page_size m)
    (mf_blocknr_max m) (mf_blocknr_min m) x (mf_infile_count m).
Definition set_mf_infile_count (x : Z) (m : memfile) : memfile :=
  MkMemfile (mf_fname m) (mf_xfname m) (mf_fd m) (mf_free_first m) (mf_used_first m) (mf_used_last m)
    (mf_dirty m) (mf_used_count m) (mf_used_count_max m) (mf_hash m) (mf_trans m) (mf_page_size m)
    (mf_blocknr_max m) (mf_blocknr_min m) (mf_neg_count m) x.
Definition set_mfp (x : memfile) (s : mfs) : mfs :=
  MkMfs x (blocks s) (transes s) (strs s) (disk s) (unlinked s) (total_mem_used s) (calls s).
Definition set_blocks (x : gmap loc bhdr) (s : mfs) : mfs :=
  MkMfs (mfp s) x (transes s) (strs s) (disk s) (unlinked s) (total_mem_used s) (calls s).
Definition set_transes (x : gmap loc nr_trans) (s : mfs) : mfs :=
  MkMfs (mfp s) (blocks s) x (strs s) (disk s) (unlinked s) (total_mem_used s) (calls s).
Definition set_strs (x : gmap loc string) (s : mfs) : mfs :=
  MkMfs (mfp s) (blocks s) (transes s) x (disk s) (unlinked s) (total_mem_used s) (calls s).
Definition set_disk (x : list Z) (s : mfs) : mfs :=
  MkMfs (mfp s) (blocks s) (transes s) (strs s) x (unlinked s) (total_mem_used s) (calls s).
Definition set_unlinked (x : list (option string)) (s : mfs) : mfs :=
  MkMfs (mfp s) (blocks s) (transes s) (strs s) (disk s) x (total_mem_used s) (calls s).
Definition set_total_mem_used (x : Z) (s : mfs) : mfs :=
  MkMfs (mfp s) (blocks s) (transes s) (strs s) (disk s) (unlinked s) x (calls s).
Definition set_calls (x : nat) (s : mfs) : mfs :=
  MkMfs (mfp s) (blocks s) (transes s) (strs s) (disk s) (unlinked s) (total_mem_used s) x.

#[export] Instance mfs_blocks : Store mfs bhdr := {| the_heap := blocks; with_heap := set_blocks |}.
#[export] Instance mfs_transes : Store mfs nr_trans := {| the_heap := transes; with_heap := set_transes |}.

(** [alloc_struct n] and [alloc_data n size] are what the [n]-th call gets
    from [alloc]; [uninit_*] is what a new structure holds; [open_file] gives a
    descriptor and the bytes of the file; [sys_read] and [sys_write] give the
    number of bytes transferred, negative for an error. *)
Class Vim := {
  MEMHASHSIZE : Z; MEMHASH : Z -> Z; BH_LOCKED : Z; BH_DIRTY : Z;
  p_mm : Z; p_mmt : Z;
  FullName : option string -> option string;
  alloc_struct : nat -> bool;
  alloc_data : nat -> Z -> option (list Z);
  uninit_bhdr : bhdr; uninit_trans : nr_trans;
  strsave_ok : nat -> bool;
  open_file : nat -> option string -> option (Z * list Z);
  fstatfs : nat -> option Z;
  seek_ok : nat -> bool;
  sys_read : nat -> Z -> Z; sys_write : nat -> Z -> Z;
  fsync_fails : nat -> bool;
  mch_char_avail : nat -> bool
}.

Definition MEMFILE_PAGE_SIZE : Z := 4096.

Section memfile.
Context `{Vim}.

Abbreviation MF := (M mfs cfault).
Abbreviation dblock := (deref (V := bhdr)).
Abbreviation ablock := (assign (V := bhdr)).
Abbreviation dtrans := (deref (V := nr_trans)).
Abbreviation atrans := (assign (V := nr_trans)).

Definition mf : MF memfile := s ← getS; mret (mfp s).
Definition modmf (f : memfile -> memfile) : MF unit := modS (fun s => set_mfp (f (mfp s)) s).

(** The number of this call to the system or to [alloc]. *)
Definition next_call : MF nat := s ← getS; modS (set_calls (Datatypes.S (calls s))) ;; mret (calls s).

(** ** Memory *)
Definition free_data (d : block_data) : MF unit :=
  match d with BFreed => throw OutOfBounds | _ => mret tt end.

Definition alloc_buffer (size : Z) : MF block_data :=
  n ← next_call; mret (match alloc_data n size with None => BNull | Some bs => BLive bs end).

(** The bytes a [write] of [size] bytes takes from the block. *)
Definition read_buffer (d : block_data) (size : Z) : MF (list Z) :=
  match d with
  | BLive bs => if size <=? zlen bs then mret (ztake size bs) else throw OutOfBounds
  | _ => throw OutOfBounds
  end.

Definition alloc_node {V : Type} `{Store mfs V} (v : V) : MF (option loc) :=
  n ← next_call;
  if alloc_struct n then
    s ← getS;
    let l := new_loc (the_heap (V := V) s) in
    modS (upd l v) ;; mret (Some l)
  else mret None.

Definition free_node (V : Type) `{Store mfs V} (p : option loc) : MF unit :=
  match p with
  | None => mret tt
  | Some l =>
      x ← deref (V := V) (Some l);
      modS (fun s => with_heap (delete l (the_heap (V := V) s)) s)
  end.

Definition free_str (p : option loc) : MF unit :=
  match p with
  | None => mret tt
  | Some l =>
      s ← getS;
      match strs s !! l with
      | None => throw OutOfBounds
      | Some _ => modS (set_strs (delete l (strs s)))
      end
  end.

Definition get_str (p : option loc) : MF (option string) :=
  s ← getS; mret (match p with None => None | Some l => strs s !! l end).

Definition strsave (str : string) : MF (option loc) :=
  n ← next_call;
  if strsave_ok n then
    s ← getS;
    let l := new_loc (strs s) in
    modS (set_strs (<[l := str]> (strs s))) ;; mret (Some l)
  else mret None.

(** ** The file *)
Definition lseek (offset : Z) : MF Z := n ← next_call; mret (if seek_ok n then offset else -1).

Definition file_write (d : list Z) (off : Z) (bs : list Z) : list Z :=
  overwrite (d ++ replicate (Z.to_nat (off - zlen d)) 0) off bs.

Definition fd_write (off : Z) (bs : list Z) : MF Z :=
  n ← next_call;
  let w := sys_write n (zlen bs) in
  if w <? 0 then mret (-1)
  else
    let k := Z.min w (zlen bs) in
    s ← getS;
    modS (set_disk (file_write (disk s) off (ztake k bs))) ;;
    mret k.

Definition fd_read (off size : Z) : MF (option (list Z)) :=
  n ← next_call;
  let r := sys_read n size in
  if r <? 0 then mret None
  else s ← getS; mret (Some (ztake (Z.min r size) (zdrop off (disk s)))).

(** ** The lists *)
Definition hash_head (heads : list (option loc)) (k : Z) : MF (option loc) :=
  if k <? 0 then throw OutOfBounds else
  match heads !! Z.to_nat k with Some p => mret p | None => throw OutOfBounds end.

Definition mf_ins_hash (hp : option loc) : MF unit :=
  x ← dblock hp;
  let hash := MEMHASH (bh_bnum x.2) in
  m ← mf;
  hhp ← hash_head (mf_hash m) hash;
  ablock hp (set_bh_hash_next hhp) ;;
  ablock hp (set_bh_hash_prev None) ;;
  (if decide (hhp = None) then mret tt else ablock hhp (set_bh_hash_prev hp)) ;;
  modmf (fun m => set_mf_hash (<[Z.to_nat hash := hp]> (mf_hash m)) m).

Definition mf_rem_hash (hp : option loc) : MF unit :=
  x ← dblock hp;
  (match bh_hash_prev x.2 with
   | None =>
       let hash := MEMHASH (bh_bnum x.2) in
       m ← mf;
       hash_head (mf_hash m) hash ;;
       modmf (fun m => set_mf_hash (<[Z.to_nat hash := bh_hash_next x.2]> (mf_hash m)) m)
   | Some p => ablock (Some p) (set_bh_hash_next (bh_hash_next x.2))
   end) ;;
  x ← dblock hp;
  match bh_hash_next x.2 with
  | None => mret tt
  | Some n => ablock (Some n) (set_bh_hash_prev (bh_hash_prev x.2))
  end.

Fixpoint find_hash_loop (fuel : nat) (hp : option loc) (nr : Z) : MF (option loc) :=
  match fuel with
  | O => fun _ => Timeout
  | Datatypes.S f =>
      match hp with
      | None => mret None
      | Some _ =>
          x ← dblock hp;
          if bh_bnum x.2 =? nr then mret hp else find_hash_loop f (bh_hash_next x.2) nr
      end
  end.

Definition mf_find_hash (nr : Z) : MF (option loc) :=
  m ← mf;
  hp ← hash_head (mf_hash m) (MEMHASH nr);
  n ← walk_fuel (V := bhdr);
  find_hash_loop n hp nr.

(** [long total_mem_used] wraps around; [page_size] is the memory file's. *)
Definition add_mem (pages : Z) : MF unit :=
  modS (fun s => set_total_mem_used (wraps 64 (total_mem_used s + pages * mf_page_size (mfp s))) s).

Definition mf_ins_used (hp : option loc) : MF unit :=
  m ← mf;
  ablock hp (set_bh_next (mf_used_first m)) ;;
  modmf (set_mf_used_first hp) ;;
  ablock hp (set_bh_prev None) ;;
  x ← dblock hp;
  (match bh_next x.2 with
   | None => modmf (set_mf_used_last hp)
   | Some n => ablock (Some n) (set_bh_prev hp)
   end) ;;
  x ← dblock hp;
  modmf (fun m => set_mf_used_count (mf_used_count m + bh_page_count x.2) m) ;;
  add_mem (bh_page_count x.2).

Definition mf_rem_used (hp : option loc) : MF unit :=
  x ← dblock hp;
  (match bh_next x.2 with
   | None => modmf (set_mf_used_last (bh_prev x.2))
   | Some n => ablock (Some n) (set_bh_prev (bh_prev x.2))
   end) ;;
  x ← dblock hp;
  (match bh_prev x.2 with
   | None => modmf (set_mf_used_first (bh_next x.2))
   | Some p => ablock (Some p) (set_bh_next (bh_next x.2))
   end) ;;
  x ← dblock hp;
  modmf (fun m => set_mf_used_count (mf_used_count m - bh_page_count x.2) m) ;;
  add_mem (- bh_page_count x.2).

Definition mf_ins_free (hp : option loc) : MF unit :=
  m ← mf;
  ablock hp (set_bh_next (mf_free_first m)) ;;
  modmf (set_mf_free_first hp).

Definition mf_rem_free : MF (option loc) :=
  m ← mf;
  x ← dblock (mf_free_first m);
  modmf (set_mf_free_first (bh_next x.2)) ;;
  mret (mf_free_first m).

(** ** Block headers *)
Definition mf_alloc_bhdr (page_count : Z) : MF (option loc) :=
  hp ← alloc_node uninit_bhdr;
  match hp with
  | None => mret None
  | Some _ =>
      m ← mf;
      d ← alloc_buffer (u32 (mf_page_size m * page_count));
      ablock hp (set_bh_data d) ;;
      hp ← (match d with
            | BNull => free_node bhdr hp ;; mret None
            | _ => mret hp
            end);
      ablock hp (set_bh_page_count page_count) ;;
      mret hp
  end.

Definition mf_free_bhdr (hp : option loc) : MF unit :=
  x ← dblock hp;
  free_data (bh_data x.2) ;;
  free_node bhdr hp.

(** ** Reading and writing; [true] is [OK]. *)
Definition mf_read (hp : option loc) : MF bool :=
  m ← mf;
  if mf_fd m <? 0 then mret false else
  x ← dblock hp;
  let page_size := u32 (mf_page_size m) in
  let offset := page_size * bh_bnum x.2 in
  let size := u32 (page_size * bh_page_count x.2) in
  o ← lseek offset;
  if negb (o =? offset) then mret false else
  got ← fd_read offset size;
  match got with
  | None => mret false
  | Some bs =>
      match bh_data x.2 with
      | BLive old =>
          if zlen old <? zlen bs then throw OutOfBounds else
          ablock hp (set_bh_data (BLive (overwrite old 0 bs))) ;;
          mret (zlen bs =? size)
      | _ => throw OutOfBounds
      end
  end.

(** The number for a block that needs [page_count] pages in the file. *)
Definition new_bnum (page_count : Z) : MF Z :=
  m ← mf;
  let freep := mf_free_first m in
  enough ← (match freep with
            | None => mret None
            | Some _ => x ← dblock freep; mret (if bh_page_count x.2 >=? page_count then Some x.2 else None)
            end);
  match enough with
  | Some nd =>
      let new := bh_bnum nd in
      (if bh_page_count nd >? page_count then
         ablock freep (fun b => set_bh_bnum (bh_bnum b + page_count) b) ;;
         ablock freep (fun b => set_bh_page_count (bh_page_count b - page_count) b)
       else
         freep ← mf_rem_free;
         free_node bhdr freep) ;;
      mret new
  | None =>
      modmf (fun m => set_mf_blocknr_max (mf_blocknr_max m + page_count) m) ;;
      mret (mf_blocknr_max m)
  end.

Definition ins_trans (np : option loc) (hash : Z) : MF unit :=
  m ← mf;
  hd ← hash_head (mf_trans m) hash;
  atrans np (set_nt_next hd) ;;
  modmf (fun m => set_mf_trans (<[Z.to_nat hash := np]> (mf_trans m)) m) ;;
  (match hd with None => mret tt | Some n => atrans (Some n) (set_nt_prev np) end) ;;
  atrans np (set_nt_prev None).

Definition mf_trans_add (hp : option loc) : MF bool :=
  x ← dblock hp;
  if bh_bnum x.2 >=? 0 then mret true else
  np ← alloc_node uninit_trans;
  match np with
  | None => mret false
  | Some _ =>
      new ← new_bnum (bh_page_count x.2);
      atrans np (fun t => set_nt_new_bnum new (set_nt_old_bnum (bh_bnum x.2) t)) ;;
      mf_rem_hash hp ;;
      ablock hp (set_bh_bnum new) ;;
      mf_ins_hash hp ;;
      ins_trans np (MEMHASH (bh_bnum x.2)) ;;
      mret true
  end.

Definition set_clean (hp : option loc) : MF unit :=
  ablock hp (fun b => set_bh_flags (Z.land (bh_flags b) (Z.lnot BH_DIRTY)) b).

(** Writing the pages from [nr] on: those of the block [hp2], or one page of
    [hp] where [hp2] is null. *)
Definition write_at (hp hp2 : option loc) (nr page_size : Z) : MF bool :=
  let offset := page_size * nr in
  o ← lseek offset;
  if negb (o =? offset) then mret false else
  page_count ← (match hp2 with None => mret 1 | Some _ => y ← dblock hp2; mret (u32 (bh_page_count y.2)) end);
  let size := u32 (page_size * page_count) in
  src ← dblock (match hp2 with None => hp | Some _ => hp2 end);
  bs ← read_buffer (bh_data src.2) size;
  w ← fd_write offset bs;
  if negb (w =? size) then mret false else
  (match hp2 with None => mret tt | Some _ => set_clean hp2 end) ;;
  m ← mf;
  (if nr + page_count >? mf_infile_count m
   then modmf (set_mf_infile_count (nr + page_count)) else mret tt) ;;
  mret true.

(** One pass of the loop of [mf_write]: [None] to go round again. *)
Definition write_once (hp : option loc) (page_size : Z) : MF (option bool) :=
  x ← dblock hp;
  m ← mf;
  let beyond := bh_bnum x.2 >? mf_infile_count m in
  let nr := if beyond then mf_infile_count m else bh_bnum x.2 in
  hp2 ← (if beyond then mf_find_hash nr else mret hp);
  ok ← write_at hp hp2 nr page_size;
  if negb (ok : bool) then mret (Some false)
  else if nr =? bh_bnum x.2 then mret (Some true) else mret None.

Fixpoint write_loop (fuel : nat) (hp : option loc) (page_size : Z) : MF bool :=
  match fuel with
  | O => fun _ => Timeout
  | Datatypes.S f =>
      r ← write_once hp page_size;
      match r with Some b => mret b | None => write_loop f hp page_size end
  end.

(** One pass for every page between the end of the file and the block. *)
Definition write_fuel (hp : option loc) : MF nat :=
  x ← dblock hp;
  m ← mf;
  mret (Datatypes.S (Z.to_nat (bh_bnum x.2 - mf_infile_count m))).

Definition mf_write (hp : option loc) : MF bool :=
  m ← mf;
  if mf_fd m <? 0 then mret false else
  x ← dblock hp;
  ok ← (if bh_bnum x.2 <? 0 then mf_trans_add hp else mret true);
  if negb ok then mret false else
  n ← write_fuel hp;
  write_loop n hp (u32 (mf_page_size m)).

(** ** Giving memory back *)
Definition locked (b : bhdr) : bool := negb (Z.land (bh_flags b) BH_LOCKED =? 0).
Definition dirty (b : bhdr) : bool := negb (Z.land (bh_flags b) BH_DIRTY =? 0).

(** The least recently used block that is not locked. *)
Fixpoint find_unlocked (fuel : nat) (hp : option loc) : MF (option loc) :=
  match fuel with
  | O => fun _ => Timeout
  | Datatypes.S f =>
      match hp with
      | None => mret None
      | Some _ => x ← dblock hp; if negb (locked x.2) then mret hp else find_unlocked f (bh_prev x.2)
      end
  end.

Definition mf_release (page_count : Z) : MF (option loc) :=
  m ← mf;
  s ← getS;
  if (mf_fd m <? 0) ||
     (((mf_used_count m <? mf_used_count_max m) || (mf_used_count_max m =? 0)) &&
      (Z.shiftr (total_mem_used s) 10 <? p_mmt))
  then mret None else
  n ← walk_fuel (V := bhdr);
  hp ← find_unlocked n (mf_used_last m);
  match hp with
  | None => mret None
  | Some _ =>
      x ← dblock hp;
      ok ← (if dirty x.2 then mf_write hp else mret true);
      if negb ok then mret None else
      mf_rem_used hp ;;
      mf_rem_hash hp ;;
      x ← dblock hp;
      if negb (bh_page_count x.2 =? page_count) then
        free_data (bh_data x.2) ;;
        m ← mf;
        d ← alloc_buffer (u32 (mf_page_size m * page_count));
        ablock hp (set_bh_data d) ;;
        match d with
        | BNull => free_node bhdr hp ;; mret None
        | _ => ablock hp (set_bh_page_count page_count) ;; mret hp
        end
      else mret hp
  end.

Fixpoint release_loop (fuel : nat) (hp : option loc) (retval : bool) : MF bool :=
  match fuel with
  | O => fun _ => Timeout
  | Datatypes.S f =>
      match hp with
      | None => mret retval
      | Some _ =>
          x ← dblock hp;
          free ← (if locked x.2 then mret false else if dirty x.2 then mf_write hp else mret true);
          if (free : bool) then
            mf_rem_used hp ;;
            mf_rem_hash hp ;;
            mf_free_bhdr hp ;;
            m ← mf;
            release_loop f (mf_used_last m) true
          else
            x ← dblock hp;
            release_loop f (bh_prev x.2) retval
      end
  end.

(** The part of [mf_release_all] for one memory file.  The walk starts again
    after every block released. *)
Definition release_file (retval : bool) : MF bool :=
  m ← mf;
  if mf_fd m <? 0 then mret retval else
  n ← walk_fuel (V := bhdr);
  release_loop (n * n) (mf_used_last m) retval.

(** The buffers are the memory files of the list, [None] where a buffer has
    none; the memory used and the calls are shared. *)
Fixpoint release_bufs (bufs : list (option mfs)) (total : Z) (n : nat) (retval : bool) :
    res cfault (list (option mfs) * Z * nat * bool) :=
  match bufs with
  | [] => Ok ([], total, n, retval)
  | None :: bufs' =>
      r ← release_bufs bufs' total n retval;
      let '(out, total', n', ret') := r in
      Ok (None :: out, total', n', ret')
  | Some s :: bufs' =>
      x ← release_file retval (set_total_mem_used total (set_calls n s));
      r ← release_bufs bufs' (total_mem_used x.2) (calls x.2) x.1;
      let '(out, total', n', ret') := r in
      Ok (Some x.2 :: out, total', n', ret')
  end.

Definition mf_release_all (bufs : list (option mfs)) (total : Z) (n : nat) :
    res cfault (list (option mfs) * Z * nat * bool) := release_bufs bufs total n false.

(** ** Opening and closing *)
Definition mf_do_open (fname : option loc) (new : bool) : MF unit :=
  modmf (set_mf_fname fname) ;;
  str ← get_str fname;
  xfname ← (match FullName str with None => mret None | Some full => strsave full end);
  modmf (set_mf_xfname xfname) ;;
  n ← next_call;
  (match open_file n str with
   | None => modmf (set_mf_fd (-1))
   | Some (fd, bs) => modmf (set_mf_fd fd) ;; modS (set_disk (if new then [] else bs))
   end) ;;
  m ← mf;
  if mf_fd m <? 0 then
    free_str fname ;;
    free_str (mf_xfname m) ;;
    modmf (set_mf_fname None) ;;
    modmf (set_mf_xfname None)
  else mret tt.

(** [true] when a memory file is returned, which is then the state's. *)
Definition mf_open (fname : option loc) (new fail_nofile : bool) : MF bool :=
  n ← next_call;
  if negb (alloc_struct n) then free_str fname ;; mret false else
  (if decide (fname = None) then
     modmf (set_mf_fname None) ;; modmf (set_mf_xfname None) ;; modmf (set_mf_fd (-1))
   else mf_do_open fname new) ;;
  m ← mf;
  if (mf_fd m <? 0) && fail_nofile then mret false else
  modmf (set_mf_free_first None) ;;
  modmf (set_mf_used_first None) ;;
  modmf (set_mf_used_last None) ;;
  modmf (set_mf_dirty false) ;;
  modmf (set_mf_used_count 0) ;;
  modmf (set_mf_hash (replicate (Z.to_nat MEMHASHSIZE) None)) ;;
  modmf (set_mf_trans (replicate (Z.to_nat MEMHASHSIZE) None)) ;;
  modmf (set_mf_page_size MEMFILE_PAGE_SIZE) ;;
  (if mf_fd m >=? 0 then
     n ← next_call;
     match fstatfs n with
     | Some bsize => if (bsize >=? 1048) && (bsize <=? 50000) then modmf (set_mf_page_size bsize) else mret tt
     | None => mret tt
     end
   else mret tt) ;;
  size ← (if (mf_fd m <? 0) || new then mret 0 else s ← getS; lseek (zlen (disk s)));
  modmf (fun m => set_mf_blocknr_max (if size <=? 0 then 0 else size `quot` mf_page_size m) m) ;;
  modmf (set_mf_blocknr_min (-1)) ;;
  modmf (set_mf_neg_count 0) ;;
  modmf (fun m => set_mf_infile_count (mf_blocknr_max m) m) ;;
  modmf (fun m => set_mf_used_count_max (if mf_fd m <? 0 then 0 else (p_mm * 1024) `quot` mf_page_size m) m) ;;
  mret true.

Definition mf_open_file (fname : option loc) : MF bool :=
  mf_do_open fname true ;;
  m ← mf;
  if mf_fd m <? 0 then mret false else
  modmf (set_mf_dirty true) ;; mret true.

Fixpoint free_used_loop (fuel : nat) (hp : option loc) : MF unit :=
  match fuel with
  | O => fun _ => Timeout
  | Datatypes.S f =>
      match hp with
      | None => mret tt
      | Some _ => x ← dblock hp; let nextp := bh_next x.2 in mf_free_bhdr hp ;; free_used_loop f nextp
      end
  end.

Fixpoint free_free_loop (fuel : nat) : MF unit :=
  match fuel with
  | O => fun _ => Timeout
  | Datatypes.S f =>
      m ← mf;
      match mf_free_first m with
      | None => mret tt
      | Some _ => hp ← mf_rem_free; free_node bhdr hp ;; free_free_loop f
      end
  end.

Fixpoint free_trans_list (fuel : nat) (tp : option loc) : MF unit :=
  match fuel with
  | O => fun _ => Timeout
  | Datatypes.S f =>
      match tp with
      | None => mret tt
      | Some _ => x ← dtrans tp; free_node nr_trans tp ;; free_trans_list f (nt_next x.2)
      end
  end.

Fixpoint free_trans_lists (heads : list (option loc)) : MF unit :=
  match heads with
  | [] => mret tt
  | tp :: heads' => n ← walk_fuel (V := nr_trans); free_trans_list n tp ;; free_trans_lists heads'
  end.

Definition mf_close (delete : bool) : MF unit :=
  m ← mf;
  (if mf_fd m >=? 0 then next_call ;; mret tt else mret tt) ;;
  (if delete && bool_decide (is_Some (mf_fname m)) then
     str ← get_str (mf_fname m); modS (fun s => set_unlinked (str :: unlinked s) s)
   else mret tt) ;;
  n ← walk_fuel (V := bhdr);
  free_used_loop n (mf_used_first m) ;;
  free_free_loop n ;;
  free_trans_lists (take (Z.to_nat MEMHASHSIZE) (mf_trans m)) ;;
  free_str (mf_fname m) ;;
  free_str (mf_xfname m).

Definition mf_fullname : MF unit :=
  m ← mf;
  if bool_decide (is_Some (mf_fname m)) && bool_decide (is_Some (mf_xfname m)) then
    free_str (mf_fname m) ;;
    modmf (set_mf_fname (mf_xfname m)) ;;
    modmf (set_mf_xfname None)
  else mret tt.

Definition mf_need_trans : MF bool :=
  m ← mf; mret (bool_decide (is_Some (mf_fname m)) && (mf_neg_count m >? 0)).

(** ** Blocks *)
Definition mf_new (negative : bool) (page_count : Z) : MF (option loc) :=
  hp ← mf_release page_count;
  m ← mf;
  let freep := mf_free_first m in
  enough ← (match freep with
            | None => mret None
            | Some _ =>
                x ← dblock freep;
                mret (if negb negative && (bh_page_count x.2 >=? page_count) then Some x.2 else None)
            end);
  hp ← (match enough with
        | Some nd =>
            if bh_page_count nd >? page_count then
              hp ← (match hp with None => mf_alloc_bhdr page_count | Some _ => mret hp end);
              match hp with
              | None => mret None
              | Some _ =>
                  ablock hp (set_bh_bnum (bh_bnum nd)) ;;
                  ablock freep (fun b => set_bh_bnum (bh_bnum b + page_count) b) ;;
                  ablock freep (fun b => set_bh_page_count (bh_page_count b - page_count) b) ;;
                  mret hp
              end
            else
              match hp with
              | None =>
                  p ← alloc_buffer (u32 (mf_page_size m * page_count));
                  match p with
                  | BNull => mret None
                  | _ => hp ← mf_rem_free; ablock hp (set_bh_data p) ;; mret hp
                  end
              | Some _ =>
                  freep ← mf_rem_free;
                  x ← dblock freep;
                  ablock hp (set_bh_bnum (bh_bnum x.2)) ;;
                  free_node bhdr freep ;;
                  mret hp
              end
        | None =>
            hp ← (match hp with None => mf_alloc_bhdr page_count | Some _ => mret hp end);
            match hp with
            | None => mret None
            | Some _ =>
                (if negative then
                   ablock hp (set_bh_bnum (mf_blocknr_min m)) ;;
                   modmf (fun m => set_mf_blocknr_min (mf_blocknr_min m - 1) m) ;;
                   modmf (fun m => set_mf_neg_count (mf_neg_count m + 1) m)
                 else
                   ablock hp (set_bh_bnum (mf_blocknr_max m)) ;;
                   modmf (fun m => set_mf_blocknr_max (mf_blocknr_max m + page_count) m)) ;;
                mret hp
            end
        end);
  match hp with
  | None => mret None
  | Some _ =>
      ablock hp (set_bh_flags (Z.lor BH_LOCKED BH_DIRTY)) ;;
      modmf (set_mf_dirty true) ;;
      ablock hp (set_bh_page_count page_count) ;;
      mf_ins_used hp ;;
      mf_ins_hash hp ;;
      mret hp
  end.

(** The end of [mf_get], common to a block found and a block read. *)
Definition get_block (hp : option loc) : MF (option loc) :=
  ablock hp (fun b => set_bh_flags (Z.lor (bh_flags b) BH_LOCKED) b) ;;
  mf_ins_used hp ;;
  mf_ins_hash hp ;;
  mret hp.

Definition mf_get (nr page_count : Z) : MF (option loc) :=
  m ← mf;
  if (nr >=? mf_blocknr_max m) || (nr <=? mf_blocknr_min m) then mret None else
  hp ← mf_find_hash nr;
  match hp with
  | None =>
      if (nr <? 0) || (nr >=? mf_infile_count m) then mret None else
      hp ← mf_release page_count;
      hp ← (match hp with None => mf_alloc_bhdr page_count | Some _ => mret hp end);
      match hp with
      | None => mret None
      | Some _ =>
          ablock hp (set_bh_bnum nr) ;;
          ablock hp (set_bh_flags 0) ;;
          ablock hp (set_bh_page_count page_count) ;;
          ok ← mf_read hp;
          if negb (ok : bool) then mf_free_bhdr hp ;; mret None else get_block hp
      end
  | Some _ => mf_rem_used hp ;; mf_rem_hash hp ;; get_block hp
  end.

Definition mf_put (hp : option loc) (is_dirty infile : bool) : MF unit :=
  x ← dblock hp;
  let flags := Z.land (bh_flags x.2) (Z.lnot BH_LOCKED) in
  flags ← (if is_dirty then modmf (set_mf_dirty true) ;; mret (Z.lor flags BH_DIRTY) else mret flags);
  ablock hp (set_bh_flags flags) ;;
  if (infile : bool) then mf_trans_add hp ;; mret tt else mret tt.

Definition mf_free (hp : option loc) : MF unit :=
  x ← dblock hp;
  free_data (bh_data x.2) ;;
  ablock hp (set_bh_data BFreed) ;;
  mf_rem_hash hp ;;
  mf_rem_used hp ;;
  if bh_bnum x.2 <? 0 then
    free_node bhdr hp ;;
    modmf (fun m => set_mf_neg_count (mf_neg_count m - 1) m)
  else mf_ins_free hp.

(** ** Writing to disk.  The result of the walk is where it stopped and the
    status. *)
Fixpoint sync_loop (fuel : nat) (all check_char : bool) (hp : option loc) (status : bool) :
    MF (option loc * bool) :=
  match fuel with
  | O => fun _ => Timeout
  | Datatypes.S f =>
      match hp with
      | None => mret (None, status)
      | Some _ =>
          x ← dblock hp;
          m ← mf;
          if (all || (bh_bnum x.2 >=? 0)) && dirty x.2 &&
             (status || ((bh_bnum x.2 >=? 0) && (bh_bnum x.2 <? mf_infile_count m)))
          then
            ok ← mf_write hp;
            if negb ok && negb status then mret (hp, false) else
            let status := status && ok in
            stop ← (if check_char then n ← next_call; mret (mch_char_avail n) else mret false);
            if (stop : bool) then mret (hp, status)
            else x ← dblock hp; sync_loop f all check_char (bh_prev x.2) status
          else sync_loop f all check_char (bh_prev x.2) status
      end
  end.

Definition mf_sync (all check_char : bool) : MF bool :=
  m ← mf;
  if mf_fd m <? 0 then modmf (set_mf_dirty false) ;; mret false else
  n ← walk_fuel (V := bhdr);
  r ← sync_loop n all check_char (mf_used_last m) true;
  (if decide (r.1 = None \/ r.2 = false) then modmf (set_mf_dirty false) else mret tt) ;;
  n ← next_call;
  mret (if fsync_fails n then false else r.2).

(** ** Translating block numbers *)
Fixpoint find_trans (fuel : nat) (np : option loc) (old : Z) : MF (option loc) :=
  match fuel with
  | O => fun _ => Timeout
  | Datatypes.S f =>
      match np with
      | None => mret None
      | Some _ => x ← dtrans np; if nt_old_bnum x.2 =? old then mret np else find_trans f (nt_next x.2) old
      end
  end.

Definition mf_trans_del (old : Z) : MF Z :=
  let hash := MEMHASH old in
  m ← mf;
  hd ← hash_head (mf_trans m) hash;
  n ← walk_fuel (V := nr_trans);
  np ← find_trans n hd old;
  match np with
  | None => mret old
  | Some _ =>
      modmf (fun m => set_mf_neg_count (mf_neg_count m - 1) m) ;;
      x ← dtrans np;
      let new := nt_new_bnum x.2 in
      (match nt_prev x.2 with
       | Some p => atrans (Some p) (set_nt_next (nt_next x.2))
       | None => modmf (fun m => set_mf_trans (<[Z.to_nat hash := nt_next x.2]> (mf_trans m)) m)
       end) ;;
      (match nt_next x.2 with
       | Some n => atrans (Some n) (set_nt_prev (nt_prev x.2))
       | None => mret tt
       end) ;;
      free_node nr_trans np ;;
      mret new
  end.

(** ** Statistics: used, locked, dirty, negative, free. *)
Fixpoint stat_used (fuel : nat) (hp : option loc) (c : Z * Z * Z * Z) : MF (Z * Z * Z * Z) :=
  match fuel with
  | O => fun _ => Timeout
  | Datatypes.S f =>
      match hp with
      | None => mret c
      | Some _ =>
          x ← dblock hp;
          let '(used, nlocked, ndirty, negative) := c in
          stat_used f (bh_next x.2)
            (used + 1, nlocked + Z.b2z (locked x.2), ndirty + Z.b2z (dirty x.2),
             negative + Z.b2z (bh_bnum x.2 <? 0))
      end
  end.

Fixpoint stat_free (fuel : nat) (hp : option loc) (nfree : Z) : MF Z :=
  match fuel with
  | O => fun _ => Timeout
  | Datatypes.S f =>
      match hp with
      | None => mret nfree
      | Some _ => x ← dblock hp; stat_free f (bh_next x.2) (nfree + 1)
      end
  end.

Definition mf_statistics : MF (Z * Z * Z * Z * Z * Z) :=
  m ← mf;
  n ← walk_fuel (V := bhdr);
  c ← stat_used n (mf_used_first m) (0, 0, 0, 0);
  nfree ← stat_free n (mf_free_first m) 0;
  mret (c, mf_neg_count m, nfree).
End memfile.
