(* ===== verification/MemfileProofs.v ===== *)
(** * The lists of a memory file

    The pointer structure of [Memfile.v] against an abstract description:
    the used list as a Rocq list of numbered blocks with their contents, the
    free list, the hash chains and the translation chains.  [bshape] ties the
    heap of headers to it, [tshape] the heap of translation records.  Every
    list primitive is run once here and afterwards is a function on the
    abstract lists. *)
From S2P Require Import Prelude Heap Dll Memfile.
From stdpp Require Import strings.
Open Scope Z_scope.

(** ** The three pairs of links *)
Definition used_links : Links bhdr :=
  {| lnext := bh_next; lprev := bh_prev; set_lnext := set_bh_next; set_lprev := set_bh_prev |}.
Definition hash_links : Links bhdr :=
  {| lnext := bh_hash_next; lprev := bh_hash_prev; set_lnext := set_bh_hash_next;
     set_lprev := set_bh_hash_prev |}.
Definition trans_links : Links nr_trans :=
  {| lnext := nt_next; lprev := nt_prev; set_lnext := set_nt_next; set_lprev := set_nt_prev |}.

#[export] Instance used_links_laws : @LinksLaws bhdr used_links.
Proof. split; done. Qed.
#[export] Instance hash_links_laws : @LinksLaws bhdr hash_links.
Proof. split; done. Qed.
#[export] Instance trans_links_laws : @LinksLaws nr_trans trans_links.
Proof. split; done. Qed.

(** ** Abstract blocks *)
Record mblock := MkBlock { b_num : Z; b_pc : Z; b_flags : Z; b_data : block_data }.

Definition block_of (nd : bhdr) : mblock :=
  MkBlock (bh_bnum nd) (bh_page_count nd) (bh_flags nd) (bh_data nd).

(** The number and the page count of a header on the free list. *)
Definition free_of (nd : bhdr) : Z * Z := (bh_bnum nd, bh_page_count nd).

Definition trans_of (t : nr_trans) : Z * Z := (nt_old_bnum t, nt_new_bnum t).

Record ghost := MkGhost {
  g_used : list (loc * mblock);
  g_free : list (loc * (Z * Z));
  g_loose : list (loc * mblock);
  g_chain : Z -> list loc;
  g_base : Z
}.

(** The part of a state that [bshape] speaks of. *)
Record bview := MkView {
  v_blocks : gmap loc bhdr;
  v_first : option loc; v_last : option loc; v_free : option loc;
  v_hash : list (option loc);
  v_count : Z; v_total : Z; v_ps : Z
}.

Definition view (s : mfs) : bview :=
  MkView (blocks s) (mf_used_first (mfp s)) (mf_used_last (mfp s)) (mf_free_first (mfp s))
    (mf_hash (mfp s)) (mf_used_count (mfp s)) (total_mem_used s) (mf_page_size (mfp s)).

(** The rest of it, but for the number of calls made. *)
Definition core (s : mfs) : mfs :=
  let m := mfp s in
  MkMfs (MkMemfile (mf_fname m) (mf_xfname m) (mf_fd m) None None None (mf_dirty m) 0
           (mf_used_count_max m) [] (mf_trans m) (mf_page_size m) (mf_blocknr_max m) (mf_blocknr_min m)
           (mf_neg_count m) (mf_infile_count m))
    ∅ (transes s) (strs s) (disk s) (unlinked s) 0 0.

Lemma core_field {B} (f : mfs -> B) s s' : (forall s, f (core s) = f s) -> core s' = core s -> f s' = f s.
Proof. intros Hf E. by rewrite <- Hf, E, Hf. Qed.

Lemma state_eq s s' : view s' = view s -> core s' = core s -> calls s' = calls s -> s' = s.
Proof.
  destruct s as [[] ? ? ? ? ? ? ?], s' as [[] ? ? ? ? ? ? ?]. unfold view, core. simpl.
  intros [=] [=] ->. by subst.
Qed.

(** ** A singly linked list through [bh_next] *)
Fixpoint slist (h : gmap loc bhdr) (p : option loc) (xs : list loc) : Prop :=
  match xs with
  | [] => p = None
  | x :: xs' => p = Some x /\ exists nd, h !! x = Some nd /\ slist h (bh_next nd) xs'
  end.

Lemma slist_ext h h' p xs :
  (forall x, x ∈ xs -> bh_next <$> h' !! x = bh_next <$> h !! x) -> slist h p xs -> slist h' p xs.
Proof.
  revert p. induction xs as [|x xs IH]; intros p Hx; simpl; [done|].
  intros (-> & nd & E & Hs). split; [done|].
  pose proof (Hx x (list_elem_of_here _ _)) as E'. rewrite E in E'. simpl in E'.
  destruct (h' !! x) as [nd'|]; [|done]. injection E' as E'. exists nd'. split; [done|].
  rewrite E'. apply IH; [set_solver|done].
Qed.

Lemma slist_first h p xs : slist h p xs -> p = first_of xs None.
Proof. destruct xs; simpl; naive_solver. Qed.

Section shape.
Context {VM : Vim}.

Record bshape (v : bview) (g : ghost) : Prop := {
  sh_nodup : NoDup ((g_used g).*1 ++ (g_free g).*1 ++ (g_loose g).*1);
  sh_dom : dom (v_blocks v) = list_to_set ((g_used g).*1 ++ (g_free g).*1 ++ (g_loose g).*1);
  sh_used : @dll _ used_links (v_blocks v) (g_used g).*1;
  sh_first : v_first v = first_of (g_used g).*1 None;
  sh_last : v_last v = last_of None (g_used g).*1;
  sh_blocks : forall l b, (l, b) ∈ g_used g ++ g_loose g -> block_of <$> v_blocks v !! l = Some b;
  sh_free : slist (v_blocks v) (v_free v) (g_free g).*1;
  sh_frees : forall l f, (l, f) ∈ g_free g -> free_of <$> v_blocks v !! l = Some f;
  sh_heads : forall k, 0 <= k < MEMHASHSIZE -> v_hash v !! Z.to_nat k = Some (first_of (g_chain g k) None);
  sh_chains : forall k, 0 <= k < MEMHASHSIZE -> @dll _ hash_links (v_blocks v) (g_chain g k);
  sh_chain_nodup : forall k, 0 <= k < MEMHASHSIZE -> NoDup (g_chain g k);
  sh_chain_in : forall k l, 0 <= k < MEMHASHSIZE -> l ∈ g_chain g k ->
    exists b, (l, b) ∈ g_used g ++ g_loose g /\ MEMHASH (b_num b) = k;
  sh_count : v_count v = sumZ (b_pc ∘ snd <$> g_used g);
  sh_total : v_total v = wraps 64 (g_base g + v_count v * v_ps v)
}.

(** ** Running the accesses *)
Lemma dblock_ok s l nd : blocks s !! l = Some nd -> deref (V := bhdr) (Some l) s = Ok ((l, nd), s).
Proof. intros E. unfold deref. simpl. by rewrite E. Qed.

Lemma alter_is_insert {V} (f : V -> V) (h : gmap loc V) l nd :
  h !! l = Some nd -> <[l := f nd]> h = alter f l h.
Proof.
  intros E. apply map_eq. intros i. destruct (decide (i = l)) as [->|].
  - by rewrite lookup_insert_eq, lookup_alter_eq, E.
  - by rewrite lookup_insert_ne, lookup_alter_ne.
Qed.

Lemma ablock_ok s l f nd : blocks s !! l = Some nd ->
  assign (V := bhdr) (Some l) f s = Ok (tt, set_blocks (alter f l (blocks s)) s).
Proof.
  intros E. unfold assign. erewrite M_bind_ok by (by apply dblock_ok). simpl.
  unfold modS, upd. simpl. by erewrite alter_is_insert.
Qed.

Lemma dtrans_ok s l nd : transes s !! l = Some nd -> deref (V := nr_trans) (Some l) s = Ok ((l, nd), s).
Proof. intros E. unfold deref. simpl. by rewrite E. Qed.

Lemma atrans_ok s l f nd : transes s !! l = Some nd ->
  assign (V := nr_trans) (Some l) f s = Ok (tt, set_transes (alter f l (transes s)) s).
Proof.
  intros E. unfold assign. erewrite M_bind_ok by (by apply dtrans_ok). simpl.
  unfold modS, upd. simpl. by erewrite alter_is_insert.
Qed.

Lemma hash_head_ok heads k p s :
  0 <= k -> heads !! Z.to_nat k = Some p -> hash_head heads k s = Ok (p, s).
Proof.
  intros Hk E. unfold hash_head. destruct (Z.ltb_spec k 0); [lia|]. by rewrite E.
Qed.
End shape.

(** Looking a node up behind changes to others. *)
Ltac mlook := cbn [the_heap mfs_blocks blocks set_blocks mfp set_mfp transes set_transes];
  repeat first [rewrite lookup_alter_eq | rewrite lookup_alter_ne by done].

Section runs.
Context {VM : Vim}.

Lemma mf_ok s : mf s = Ok (mfp s, s).
Proof. done. Qed.

Lemma modmf_ok f s : modmf f s = Ok (tt, set_mfp (f (mfp s)) s).
Proof. done. Qed.

(** Where the pointers of the used list go when [l] is put in front. *)
Definition v_push (l : loc) (pc : Z) (v : bview) : bview :=
  MkView (@dpush _ used_links l (v_first v) (v_blocks v)) (Some l)
    (match v_first v with None => Some l | Some _ => v_last v end) (v_free v) (v_hash v) (v_count v + pc)
    (wraps 64 (v_total v + pc * v_ps v)) (v_ps v).

Lemma ins_used_run s l nd :
  blocks s !! l = Some nd ->
  (forall n, mf_used_first (mfp s) = Some n -> n <> l /\ is_Some (blocks s !! n)) ->
  exists s', mf_ins_used (Some l) s = Ok (tt, s') /\ view s' = v_push l (bh_page_count nd) (view s) /\
    core s' = core s /\ calls s' = calls s.
Proof.
  intros E Hf. unfold mf_ins_used.
  mstep ltac:(apply mf_ok). mstep ltac:(by apply (ablock_ok _ _ _ nd)).
  mstep ltac:(apply modmf_ok).
  mstep ltac:(eapply ablock_ok; mlook; by rewrite E).
  mstep ltac:(eapply dblock_ok; mlook; by rewrite E). cbn [bh_next set_bh_next set_bh_prev].
  destruct (mf_used_first (mfp s)) as [n|] eqn:En.
  - destruct (Hf n eq_refl) as [Hne [ndn Endn]].
    mstep ltac:(eapply ablock_ok; mlook; exact Endn).
    mstep ltac:(eapply dblock_ok; mlook; by rewrite E).
    mstep ltac:(apply modmf_ok). eexists. split; [reflexivity|]. split; [|done].
    unfold view, v_push. simpl. rewrite En. unfold dpush. f_equal. 
    by rewrite alter_alter_eq.
  - mstep ltac:(apply modmf_ok).
    mstep ltac:(eapply dblock_ok; mlook; by rewrite E).
    mstep ltac:(apply modmf_ok). eexists. split; [reflexivity|]. split; [|done].
    unfold view, v_push. simpl. rewrite En. unfold dpush. f_equal.
    by rewrite alter_alter_eq.
Qed.

(** Where they go when [nd] at [l] is taken out. *)
Definition v_unlink (nd : bhdr) (v : bview) : bview :=
  MkView (@dunlink _ used_links nd (v_blocks v))
    (match bh_prev nd with None => bh_next nd | Some _ => v_first v end)
    (match bh_next nd with None => bh_prev nd | Some _ => v_last v end)
    (v_free v) (v_hash v) (v_count v - bh_page_count nd)
    (wraps 64 (v_total v + - bh_page_count nd * v_ps v)) (v_ps v).

(** The neighbours of a node of a chain exist and are other nodes. *)
Definition neighbours {V : Type} (h : gmap loc V) (l : loc) (p n : option loc) : Prop :=
  (forall x, p = Some x -> x <> l /\ is_Some (h !! x)) /\
  (forall x, n = Some x -> x <> l /\ is_Some (h !! x)) /\
  (forall x y, p = Some x -> n = Some y -> x <> y).

Lemma rem_used_run s l nd :
  blocks s !! l = Some nd -> neighbours (blocks s) l (bh_prev nd) (bh_next nd) ->
  exists s', mf_rem_used (Some l) s = Ok (tt, s') /\ view s' = v_unlink nd (view s) /\
    core s' = core s /\ calls s' = calls s.
Proof.
  intros E (Hp & Hn & Hpn). unfold mf_rem_used, view, v_unlink, dunlink. cbn [lnext lprev used_links].
  mstep ltac:(by apply dblock_ok).
  destruct (bh_next nd) as [n|] eqn:En; [destruct (Hn n eq_refl) as [Hnl [ndn Endn]]|];
    (destruct (bh_prev nd) as [p|] eqn:Ep; [destruct (Hp p eq_refl) as [Hpl [ndp Endp]]|]).
  - pose proof (Hpn p n eq_refl eq_refl) as Hpn'.
    mstep ltac:(by eapply ablock_ok). mstep ltac:(eapply dblock_ok; mlook; exact E).
    rewrite Ep. mstep ltac:(eapply ablock_ok; mlook; exact Endp).
    mstep ltac:(eapply dblock_ok; mlook; exact E). mstep ltac:(apply modmf_ok).
    eexists. split; [reflexivity|]. split; [|done]. simpl. f_equal. rewrite En. by rewrite alter_alter_ne.
  - mstep ltac:(by eapply ablock_ok). mstep ltac:(eapply dblock_ok; mlook; exact E).
    rewrite Ep. mstep ltac:(apply modmf_ok).
    mstep ltac:(eapply dblock_ok; mlook; exact E). mstep ltac:(apply modmf_ok).
    eexists. split; [reflexivity|]. split; [|done]. simpl. by rewrite En.
  - mstep ltac:(apply modmf_ok). mstep ltac:(eapply dblock_ok; mlook; exact E).
    rewrite Ep. mstep ltac:(eapply ablock_ok; mlook; exact Endp).
    mstep ltac:(eapply dblock_ok; mlook; exact E). mstep ltac:(apply modmf_ok).
    eexists. split; [reflexivity|]. split; [|done]. simpl. by rewrite En.
  - mstep ltac:(apply modmf_ok). mstep ltac:(eapply dblock_ok; mlook; exact E).
    rewrite Ep. mstep ltac:(apply modmf_ok).
    mstep ltac:(eapply dblock_ok; mlook; exact E). mstep ltac:(apply modmf_ok).
    eexists. split; [reflexivity|]. split; [|done]. simpl. by rewrite En.
Qed.

Definition v_set_blocks (h : gmap loc bhdr) (v : bview) : bview :=
  MkView h (v_first v) (v_last v) (v_free v) (v_hash v) (v_count v) (v_total v) (v_ps v).

Definition v_set_hash (k : Z) (p : option loc) (h : gmap loc bhdr) (v : bview) : bview :=
  MkView h (v_first v) (v_last v) (v_free v) (<[Z.to_nat k := p]> (v_hash v)) (v_count v) (v_total v) (v_ps v).

Lemma ins_hash_run s l nd q :
  blocks s !! l = Some nd -> 0 <= MEMHASH (bh_bnum nd) ->
  mf_hash (mfp s) !! Z.to_nat (MEMHASH (bh_bnum nd)) = Some q ->
  (forall n, q = Some n -> n <> l /\ is_Some (blocks s !! n)) ->
  exists s', mf_ins_hash (Some l) s = Ok (tt, s') /\
    view s' = v_set_hash (MEMHASH (bh_bnum nd)) (Some l) (@dpush _ hash_links l q (blocks s)) (view s) /\
    core s' = core s /\ calls s' = calls s.
Proof.
  intros E Hk Hq Hf. unfold mf_ins_hash, view, v_set_hash, dpush.
  cbn [lnext lprev set_lnext set_lprev hash_links].
  mstep ltac:(by apply dblock_ok). mstep ltac:(apply mf_ok). mstep ltac:(by apply hash_head_ok).
  mstep ltac:(by eapply ablock_ok). mstep ltac:(eapply ablock_ok; mlook; by rewrite E).
  destruct q as [n|].
  - destruct (Hf n eq_refl) as [Hne [ndn Endn]]. rewrite decide_False by done.
    mstep ltac:(eapply ablock_ok; mlook; exact Endn). rewrite modmf_ok.
    eexists. split; [reflexivity|]. split; [|done]. simpl. f_equal. by rewrite alter_alter_eq.
  - rewrite decide_True by done. mstep ltac:(reflexivity). rewrite modmf_ok.
    eexists. split; [reflexivity|]. split; [|done]. simpl. f_equal. by rewrite alter_alter_eq.
Qed.

Lemma rem_hash_run s l nd :
  blocks s !! l = Some nd -> neighbours (blocks s) l (bh_hash_prev nd) (bh_hash_next nd) ->
  0 <= MEMHASH (bh_bnum nd) -> is_Some (mf_hash (mfp s) !! Z.to_nat (MEMHASH (bh_bnum nd))) ->
  exists s', mf_rem_hash (Some l) s = Ok (tt, s') /\
    view s' = match bh_hash_prev nd with
              | None => v_set_hash (MEMHASH (bh_bnum nd)) (bh_hash_next nd) (@dunlink _ hash_links nd (blocks s))
                          (view s)
              | Some _ => v_set_blocks (@dunlink _ hash_links nd (blocks s)) (view s)
              end /\
    core s' = core s /\ calls s' = calls s.
Proof.
  intros E (Hp & Hn & Hpn) Hk [q Hq]. unfold mf_rem_hash, view, v_set_hash, v_set_blocks, dunlink.
  cbn [lnext lprev set_lnext set_lprev hash_links].
  mstep ltac:(by apply dblock_ok).
  destruct (bh_hash_prev nd) as [p|] eqn:Ep; [destruct (Hp p eq_refl) as [Hpl [ndp Endp]]|];
    (destruct (bh_hash_next nd) as [n|] eqn:En; [destruct (Hn n eq_refl) as [Hnl [ndn Endn]]|]).
  - pose proof (Hpn p n eq_refl eq_refl) as Hpn'.
    mstep ltac:(by eapply ablock_ok). mstep ltac:(eapply dblock_ok; mlook; exact E).
    rewrite En. erewrite ablock_ok by (mlook; exact Endn).
    eexists. split; [reflexivity|]. split; [|done]. simpl. by rewrite Ep.
  - mstep ltac:(by eapply ablock_ok). mstep ltac:(eapply dblock_ok; mlook; exact E).
    rewrite En. eexists. split; [reflexivity|]. done.
  - mstep ltac:(mstep ltac:(apply mf_ok); mstep ltac:(by apply hash_head_ok); apply modmf_ok).
    mstep ltac:(eapply dblock_ok; mlook; exact E).
    rewrite En. erewrite ablock_ok by (mlook; exact Endn).
    eexists. split; [reflexivity|]. split; [|done]. simpl. by rewrite Ep.
  - mstep ltac:(mstep ltac:(apply mf_ok); mstep ltac:(by apply hash_head_ok); apply modmf_ok).
    mstep ltac:(eapply dblock_ok; mlook; exact E).
    rewrite En. eexists. split; [reflexivity|]. done.
Qed.

Lemma ins_free_run s l nd :
  blocks s !! l = Some nd ->
  exists s', mf_ins_free (Some l) s = Ok (tt, s') /\
    view s' = MkView (alter (set_bh_next (mf_free_first (mfp s))) l (blocks s)) (mf_used_first (mfp s))
                (mf_used_last (mfp s)) (Some l) (mf_hash (mfp s)) (mf_used_count (mfp s)) (total_mem_used s)
                (mf_page_size (mfp s)) /\
    core s' = core s /\ calls s' = calls s.
Proof.
  intros E. unfold mf_ins_free. mstep ltac:(apply mf_ok). mstep ltac:(by eapply ablock_ok).
  rewrite modmf_ok. eexists. split; [reflexivity|]. done.
Qed.

Lemma rem_free_run s l nd :
  mf_free_first (mfp s) = Some l -> blocks s !! l = Some nd ->
  mf_rem_free s = Ok (Some l, set_mfp (set_mf_free_first (bh_next nd) (mfp s)) s).
Proof.
  intros Ef E. unfold mf_rem_free. mstep ltac:(apply mf_ok). rewrite Ef.
  mstep ltac:(by apply dblock_ok). mstep ltac:(apply modmf_ok). done.
Qed.
End runs.

(** ** The primitives on the abstract lists *)
Section prims.
Context {VM : Vim}.
Implicit Types (v : bview) (u L : list (loc * mblock)) (f : list (loc * (Z * Z))) (c : Z -> list loc).

Definition links_of (nd : bhdr) := (bh_next nd, bh_prev nd, (bh_hash_next nd, bh_hash_prev nd)).

Lemma elem_fst {A} (xs : list (loc * A)) l a : (l, a) ∈ xs -> l ∈ xs.*1.
Proof. intros Hin. apply list_elem_of_fmap. by exists (l, a). Qed.

Lemma fst_elem {A} (xs : list (loc * A)) l : l ∈ xs.*1 -> exists a, (l, a) ∈ xs.
Proof. intros [[k a] [-> Hin]]%list_elem_of_fmap. by exists a. Qed.

Lemma nodup_fst_inj {A} (xs : list (loc * A)) l a b : NoDup xs.*1 -> (l, a) ∈ xs -> (l, b) ∈ xs -> a = b.
Proof.
  induction xs as [|[k x] xs IH]; [by intros _ ?%elem_of_nil|].
  cbn. intros [Hk Hnd]%NoDup_cons [Ea|Ha]%elem_of_cons [Eb|Hb]%elem_of_cons; simplify_eq; try done.
  - by apply elem_fst in Hb.
  - by apply elem_fst in Ha.
  - by apply IH.
Qed.

Lemma dpush_ne {V} (K : Links V) l q (h : gmap loc V) x :
  x <> l -> q <> Some x -> dpush l q h !! x = h !! x.
Proof.
  intros Hl Hq. unfold dpush. destruct q as [y|].
  - rewrite lookup_alter_ne by congruence. by rewrite lookup_alter_ne.
  - by rewrite lookup_alter_ne.
Qed.

Lemma dunlink_ne {V} (K : Links V) nd (h : gmap loc V) x :
  lprev nd <> Some x -> lnext nd <> Some x -> dunlink nd h !! x = h !! x.
Proof.
  intros Hp Hn. unfold dunlink. destruct (lnext nd) as [n|], (lprev nd) as [p|];
    rewrite ?lookup_alter_ne by congruence; done.
Qed.

Lemma first_of_elem (xs : list loc) y : first_of xs None = Some y -> y ∈ xs.
Proof. destruct xs; [done|]. intros [= ->]. apply list_elem_of_here. Qed.

Lemma last_of_elem (xs : list loc) y : last_of None xs = Some y -> y ∈ xs.
Proof.
  unfold last_of. destruct (last xs) eqn:E; [|done]. intros [= ->]. by apply last_Some_elem_of.
Qed.

(** The node of a location the description mentions. *)
Lemma shape_block v g l b : bshape v g -> (l, b) ∈ g_used g ++ g_loose g ->
  exists nd, v_blocks v !! l = Some nd /\ block_of nd = b.
Proof. intros HS Hin. pose proof (sh_blocks v g HS l b Hin) as E. destruct (v_blocks v !! l); naive_solver. Qed.

Lemma shape_free v g l fr : bshape v g -> (l, fr) ∈ g_free g ->
  exists nd, v_blocks v !! l = Some nd /\ free_of nd = fr.
Proof. intros HS Hin. pose proof (sh_frees v g HS l fr Hin) as E. destruct (v_blocks v !! l); naive_solver. Qed.

Lemma shape_nodup_ul v g : bshape v g -> NoDup (g_used g ++ g_loose g).*1.
Proof.
  intros HS. pose proof (sh_nodup v g HS) as Hnd. rewrite fmap_app.
  apply NoDup_app in Hnd as (N1 & N2 & N3). apply NoDup_app in N3 as (N3 & N4 & N5).
  apply NoDup_app. split_and!; [done| |done]. intros x Hx Hl. apply (N2 x Hx). apply elem_of_app. by right.
Qed.

Lemma shape_block_inj v g l b b' :
  bshape v g -> (l, b) ∈ g_used g ++ g_loose g -> (l, b') ∈ g_used g ++ g_loose g -> b = b'.
Proof. intros HS. apply nodup_fst_inj. by eapply shape_nodup_ul. Qed.

Lemma shape_is_Some v g l :
  bshape v g -> l ∈ (g_used g).*1 ++ (g_free g).*1 ++ (g_loose g).*1 -> is_Some (v_blocks v !! l).
Proof. intros HS Hin. apply elem_of_dom. rewrite (sh_dom v g HS). by apply elem_of_list_to_set. Qed.

(** A node is on one chain only. *)
Lemma chain_unique v g l b k :
  bshape v g -> (l, b) ∈ g_used g ++ g_loose g -> 0 <= k < MEMHASHSIZE -> l ∈ g_chain g k ->
  MEMHASH (b_num b) = k.
Proof.
  intros HS Hin Hk Hl. destruct (sh_chain_in v g HS k l Hk Hl) as (b' & Hin' & <-).
  by rewrite (shape_block_inj v g l b b').
Qed.

Lemma chain_is_ul v g k l :
  bshape v g -> 0 <= k < MEMHASHSIZE -> l ∈ g_chain g k -> l ∈ (g_used g ++ g_loose g).*1.
Proof. intros HS Hk Hl. destruct (sh_chain_in v g HS k l Hk Hl) as (b & Hin & _). by eapply elem_fst. Qed.

(** Changing the links of one kind. *)
Lemma hdll_frame (h h' : gmap loc bhdr) xs :
  @erased _ used_links h' = @erased _ used_links h -> @dll _ hash_links h xs -> @dll _ hash_links h' xs.
Proof.
  intros E. apply dseg_ext. intros x _.
  by apply (@erased_lookup _ used_links _ (fun nd => (bh_hash_next nd, bh_hash_prev nd))).
Qed.

Lemma udll_frame (h h' : gmap loc bhdr) xs :
  @erased _ hash_links h' = @erased _ hash_links h -> @dll _ used_links h xs -> @dll _ used_links h' xs.
Proof.
  intros E. apply dseg_ext. intros x _.
  by apply (@erased_lookup _ hash_links _ (fun nd => (bh_next nd, bh_prev nd))).
Qed.

Lemma push_shape v u f L c B l b :
  bshape v (MkGhost u f ((l, b) :: L) c B) ->
  bshape (v_push l (b_pc b) v) (MkGhost ((l, b) :: u) f L c B).
Proof.
  intros HS. pose proof HS as [N D U F La Bl Fr Frs Hd Ch Cn Ci Co To]. cbn in *.
  assert (P : u.*1 ++ f.*1 ++ l :: L.*1 ≡ₚ (l :: u.*1) ++ f.*1 ++ L.*1).
  { solve_Permutation. }
  rewrite P in N. pose proof N as [Nl Nd]%NoDup_cons. rewrite !elem_of_app in Nl.
  apply NoDup_app in Nd as (Nu & Nuf & _).
  assert (El : is_Some (v_blocks v !! l)).
  { apply (shape_is_Some v _ l HS). cbn. rewrite P. apply list_elem_of_here. }
  assert (Er : @erased _ used_links (v_blocks (v_push l (b_pc b) v)) = @erased _ used_links (v_blocks v))
    by apply erased_dpush.
  split; cbn.
  - done.
  - transitivity (dom (v_blocks v)); [by apply (erased_dom (H := used_links))|].
    rewrite D. by rewrite P.
  - rewrite F. apply (@dpush_dll _ used_links _); [done|naive_solver|done|done].
  - done.
  - rewrite F, La, last_of_cons. unfold last_of. by destruct u.*1 as [|? ?] eqn:Eu; [|destruct (last _) eqn:El'; [|by apply last_None in El']].
  - intros l' b' Hin. transitivity (block_of <$> v_blocks v !! l').
    + by apply (@erased_lookup _ used_links _ block_of).
    + apply Bl. set_solver.
  - apply slist_ext with (h := v_blocks v); [|done]. intros x Hx. f_equal. apply dpush_ne.
    + intros ->. naive_solver.
    + rewrite F. intros Hy%first_of_elem. apply (Nuf x Hy). apply elem_of_app. by left.
  - intros l' fr Hin. transitivity (free_of <$> v_blocks v !! l'); [|by apply Frs].
    by apply (@erased_lookup _ used_links _ free_of).
  - done.
  - intros k Hk. apply hdll_frame with (h := v_blocks v); [done|by apply Ch].
  - done.
  - intros k l' Hk Hl'. destruct (Ci k l' Hk Hl') as (b' & Hin & E). exists b'. set_solver.
  - rewrite Co. cbn. rewrite sumZ_cons. cbn. lia.
  - rewrite To, wraps_add by lia. f_equal. lia.
Qed.

(** The neighbours of a member of a chain. *)
Lemma dll_neighbours {V} (K : Links V) (KL : @LinksLaws V K) (h : gmap loc V) xs l ys nd :
  h !! l = Some nd -> NoDup (xs ++ l :: ys) -> dll h (xs ++ l :: ys) ->
  neighbours h l (lprev nd) (lnext nd) /\
  (forall y, lprev nd = Some y \/ lnext nd = Some y -> y ∈ xs ++ ys).
Proof.
  intros E Hnd Hd. destruct (dunlink_dll h l xs ys nd E Hnd Hd) as (Ep & En & _).
  rewrite Ep, En. apply NoDup_app in Hnd as (_ & Hdis & [Hl _]%NoDup_cons).
  assert (Hsome : forall x, x ∈ xs ++ l :: ys -> is_Some (h !! x)).
  { intros x Hx. by eapply dseg_elem. }
  split.
  - split_and!.
    + intros x Hx%last_of_elem. split; [|apply Hsome; set_solver]. intros ->.
      apply (Hdis l Hx). apply list_elem_of_here.
    + intros x Hx%first_of_elem. split; [|apply Hsome; set_solver]. by intros ->.
    + intros x y Hx%last_of_elem Hy%first_of_elem ->. apply (Hdis y Hx). by apply list_elem_of_further.
  - intros y [Hy%last_of_elem|Hy%first_of_elem]; set_solver.
Qed.

Lemma unlink_shape v u1 u2 f L c B l b nd :
  bshape v (MkGhost (u1 ++ (l, b) :: u2) f L c B) -> v_blocks v !! l = Some nd ->
  neighbours (v_blocks v) l (bh_prev nd) (bh_next nd) /\
  bshape (v_unlink nd v) (MkGhost (u1 ++ u2) f ((l, b) :: L) c B).
Proof.
  intros HS E. pose proof HS as [N D U F La Bl Fr Frs Hd Ch Cn Ci Co To]. cbn in *.
  rewrite fmap_app in N, D, U, F, La. cbn in *.
  assert (Nu : NoDup (u1.*1 ++ l :: u2.*1)) by (by apply NoDup_app in N as (? & _ & _)).
  destruct (dll_neighbours used_links _ _ _ _ _ _ E Nu U) as [Hnb Hin].
  destruct (@dunlink_dll _ used_links _ _ _ _ _ _ E Nu U) as (Ep & En & HU & _). cbn in Ep, En.
  split; [done|].
  assert (Er : @erased _ used_links (v_blocks (v_unlink nd v)) = @erased _ used_links (v_blocks v))
    by apply erased_dunlink.
  assert (P : (u1.*1 ++ l :: u2.*1) ++ f.*1 ++ L.*1 ≡ₚ (u1 ++ u2).*1 ++ f.*1 ++ l :: L.*1).
  { rewrite fmap_app. solve_Permutation. }
  split; cbn.
  - by rewrite <- P.
  - transitivity (dom (v_blocks v)); [by apply (erased_dom (H := used_links))|]. rewrite D. by rewrite P.
  - by rewrite fmap_app.
  - rewrite fmap_app, first_of_app, <- En, Ep. rewrite F, first_of_app. cbn.
    unfold last_of. destruct u1 as [|[x1 ?] u1] using rev_ind; [done|]. rewrite fmap_app, last_app. cbn.
    by destruct u1.
  - rewrite En, Ep, La, fmap_app. unfold last_of. rewrite !last_app, last_cons.
    destruct (u2.*1) as [|y ys] eqn:Eu; [done|]. cbn [first_of].
    destruct (last (y :: ys)) eqn:El; [done|]. by apply last_None in El.
  - intros l' b' Hin'. transitivity (block_of <$> v_blocks v !! l').
    + by apply (@erased_lookup _ used_links _ block_of).
    + apply Bl. set_solver.
  - apply slist_ext with (h := v_blocks v); [|done]. intros x Hx. f_equal.
    assert (Hxu : x ∉ u1.*1 ++ u2.*1).
    { intros Hxu. apply NoDup_app in N as (_ & N & _). apply (N x); [set_solver|]. apply elem_of_app. by left. }
    apply dunlink_ne; intros Hy; apply Hxu; apply Hin; auto.
  - intros l' fr Hin'. transitivity (free_of <$> v_blocks v !! l'); [|by apply Frs].
    by apply (@erased_lookup _ used_links _ free_of).
  - done.
  - intros k Hk. apply hdll_frame with (h := v_blocks v); [done|by apply Ch].
  - done.
  - intros k l' Hk Hl'. destruct (Ci k l' Hk Hl') as (b' & Hin' & E'). exists b'. set_solver.
  - assert (Eb : block_of nd = b).
    { assert (Eb : block_of <$> v_blocks v !! l = Some b) by (apply Bl; set_solver). rewrite E in Eb. by injection Eb. }
    rewrite Co, <- Eb, !fmap_app, !sumZ_app. cbn. rewrite sumZ_cons. cbn. lia.
  - rewrite To, wraps_add by lia. f_equal. lia.
Qed.

(** [c] with the chain of bucket [k] replaced. *)
Definition set_chain (k : Z) (xs : list loc) c : Z -> list loc := fun k' => if k' =? k then xs else c k'.

Lemma set_chain_cases k xs c k' (P : list loc -> Prop) :
  (k' = k -> P xs) -> (k' <> k -> P (c k')) -> P (set_chain k xs c k').
Proof. intros H1 H2. unfold set_chain. destruct (Z.eqb_spec k' k); auto. Qed.

Lemma ins_hash_shape v u f L c B l b :
  bshape v (MkGhost u f L c B) -> (l, b) ∈ u ++ L -> 0 <= MEMHASH (b_num b) < MEMHASHSIZE ->
  l ∉ c (MEMHASH (b_num b)) ->
  bshape (v_set_hash (MEMHASH (b_num b)) (Some l)
            (@dpush _ hash_links l (first_of (c (MEMHASH (b_num b))) None) (v_blocks v)) v)
    (MkGhost u f L (set_chain (MEMHASH (b_num b)) (l :: c (MEMHASH (b_num b))) c) B).
Proof.
  intros HS Hlb Hk Hl. pose proof HS as [N D U F La Bl Fr Frs Hd Ch Cn Ci Co To]. cbn in *.
  set (k := MEMHASH (b_num b)) in *. set (h' := dpush _ _ _).
  assert (Er : @erased _ hash_links h' = @erased _ hash_links (v_blocks v)) by apply erased_dpush.
  assert (Elen : forall k', 0 <= k' < MEMHASHSIZE -> (Z.to_nat k' < length (v_hash v))%nat).
  { intros k' Hk'. eapply lookup_lt_Some. by apply Hd. }
  split; cbn; try done.
  - transitivity (dom (v_blocks v)); [by apply (erased_dom (H := hash_links))|done].
  - by apply udll_frame with (h := v_blocks v).
  - intros l' b' Hin'. transitivity (block_of <$> v_blocks v !! l'); [|by apply Bl].
    by apply (@erased_lookup _ hash_links _ block_of).
  - apply slist_ext with (h := v_blocks v); [|done]. intros x _.
    by apply (@erased_lookup _ hash_links _ bh_next).
  - intros l' fr Hin'. transitivity (free_of <$> v_blocks v !! l'); [|by apply Frs].
    by apply (@erased_lookup _ hash_links _ free_of).
  - intros k' Hk'. apply set_chain_cases; intros Hkk.
    + subst k'. rewrite list_lookup_insert_eq by (by apply Elen). done.
    + rewrite list_lookup_insert_ne by lia. by apply Hd.
  - intros k' Hk'. apply set_chain_cases; intros Hkk.
    + apply (@dpush_dll _ hash_links _); [|done|by apply Cn|by apply Ch].
      apply (shape_is_Some v _ l HS). cbn. apply elem_fst in Hlb. rewrite fmap_app in Hlb. set_solver.
    + eapply dseg_ext; [|by apply Ch]. intros x Hx. f_equal. apply dpush_ne.
      * intros ->. apply Hkk. symmetry. by eapply (chain_unique v _ l b k').
      * intros Hy%first_of_elem. destruct (Ci k x Hk Hy) as (b1 & Hin1 & E1).
        apply Hkk. rewrite <- E1. symmetry. by eapply (chain_unique v _ x b1 k').
  - intros k' Hk'. apply set_chain_cases; intros Hkk; [|by apply Cn]. apply NoDup_cons. auto.
  - intros k' l' Hk'. apply set_chain_cases; intros Hkk; [|by apply Ci].
    intros [->|Hl']%elem_of_cons; [exists b; by subst k'|]. subst k'. by apply Ci.
Qed.

Lemma rem_hash_shape v u f L c B l b nd ys1 ys2 :
  bshape v (MkGhost u f L c B) -> (l, b) ∈ u ++ L -> v_blocks v !! l = Some nd ->
  0 <= MEMHASH (b_num b) < MEMHASHSIZE -> c (MEMHASH (b_num b)) = ys1 ++ l :: ys2 ->
  neighbours (v_blocks v) l (bh_hash_prev nd) (bh_hash_next nd) /\
  bshape (match bh_hash_prev nd with
          | None => v_set_hash (MEMHASH (b_num b)) (bh_hash_next nd) (@dunlink _ hash_links nd (v_blocks v)) v
          | Some _ => v_set_blocks (@dunlink _ hash_links nd (v_blocks v)) v
          end) (MkGhost u f L (set_chain (MEMHASH (b_num b)) (ys1 ++ ys2) c) B).
Proof.
  intros HS Hlb E Hk Ec. pose proof HS as [N D U F La Bl Fr Frs Hd Ch Cn Ci Co To]. cbn in *.
  set (k := MEMHASH (b_num b)) in *. set (h' := dunlink _ _).
  pose proof (Cn k Hk) as Nk. pose proof (Ch k Hk) as Dk. rewrite Ec in Nk, Dk.
  destruct (dll_neighbours hash_links _ _ _ _ _ _ E Nk Dk) as [Hnb Hin].
  destruct (@dunlink_dll _ hash_links _ _ _ _ _ _ E Nk Dk) as (Ep & En & HU & _).
  split; [done|].
  assert (Er : @erased _ hash_links h' = @erased _ hash_links (v_blocks v)) by apply erased_dunlink.
  assert (Elen : forall k', 0 <= k' < MEMHASHSIZE -> (Z.to_nat k' < length (v_hash v))%nat).
  { intros k' Hk'. eapply lookup_lt_Some. by apply Hd. }
  cbn in Ep, En. set (v' := match bh_hash_prev nd with None => _ | Some _ => _ end).
  assert (Ev : v' = MkView h' (v_first v) (v_last v) (v_free v)
                      (match bh_hash_prev nd with None => <[Z.to_nat k := bh_hash_next nd]> (v_hash v) | Some _ => v_hash v end)
                      (v_count v) (v_total v) (v_ps v)).
  { unfold v'. by destruct (bh_hash_prev nd). }
  rewrite Ev. clear v' Ev.
  split; cbn; try done.
  - transitivity (dom (v_blocks v)); [by apply (erased_dom (H := hash_links))|done].
  - by apply udll_frame with (h := v_blocks v).
  - intros l' b' Hin'. transitivity (block_of <$> v_blocks v !! l'); [|by apply Bl].
    by apply (@erased_lookup _ hash_links _ block_of).
  - apply slist_ext with (h := v_blocks v); [|done]. intros x _.
    by apply (@erased_lookup _ hash_links _ bh_next).
  - intros l' fr Hin'. transitivity (free_of <$> v_blocks v !! l'); [|by apply Frs].
    by apply (@erased_lookup _ hash_links _ free_of).
  - intros k' Hk'. apply set_chain_cases; intros Hkk.
    + subst k'. rewrite first_of_app, <- En, Ep. unfold last_of. destruct ys1 as [|y ys1 _] using rev_ind.
      * cbn. by rewrite list_lookup_insert_eq by (by apply Elen).
      * rewrite last_snoc. rewrite Hd, Ec by done. rewrite !first_of_app. by destruct ys1.
    + destruct (bh_hash_prev nd); [by apply Hd|]. rewrite list_lookup_insert_ne by lia. by apply Hd.
  - intros k' Hk'. apply set_chain_cases; intros Hkk; [done|].
    eapply dseg_ext; [|by apply Ch]. intros x Hx. f_equal.
    assert (Hxk : x ∉ ys1 ++ ys2).
    { intros Hy. destruct (Ci k x Hk) as (b1 & Hin1 & E1); [rewrite Ec; set_solver|].
      apply Hkk. rewrite <- E1. symmetry. by eapply (chain_unique v _ x b1 k'). }
    apply dunlink_ne; intros Hy; apply Hxk; apply Hin; auto.
  - intros k' Hk'. apply set_chain_cases; intros Hkk; [|by apply Cn].
    rewrite <- Permutation_middle in Nk. by apply NoDup_cons in Nk as [_ Nk].
  - intros k' l' Hk'. apply set_chain_cases; intros Hkk; [|by apply Ci].
    intros Hl'. subst k'. apply Ci; [done|]. rewrite Ec. set_solver.
Qed.

(** Headers with new fields and the links they had. *)
Lemma relabel_shape v h' u u' f f' L L' c B :
  bshape v (MkGhost u f L c B) ->
  (forall x, links_of <$> h' !! x = links_of <$> v_blocks v !! x) ->
  u'.*1 = u.*1 -> f'.*1 = f.*1 -> L'.*1 = L.*1 ->
  (forall l b, (l, b) ∈ u' ++ L' -> block_of <$> h' !! l = Some b) ->
  (forall l fr, (l, fr) ∈ f' -> free_of <$> h' !! l = Some fr) ->
  (forall k l b, 0 <= k < MEMHASHSIZE -> l ∈ c k -> (l, b) ∈ u' ++ L' -> MEMHASH (b_num b) = k) ->
  b_pc ∘ snd <$> u' = b_pc ∘ snd <$> u ->
  bshape (v_set_blocks h' v) (MkGhost u' f' L' c B).
Proof.
  intros HS Hlk Eu Ef EL Hb Hf Hc Hs. pose proof HS as [N D U F La Bl Fr Frs Hd Ch Cn Ci Co To]. cbn in *.
  assert (Hl : forall {T : Type} (g : bhdr -> T), (forall nd nd', links_of nd = links_of nd' -> g nd = g nd') ->
            forall x, g <$> h' !! x = g <$> v_blocks v !! x).
  { intros T g Hg x. specialize (Hlk x). destruct (h' !! x), (v_blocks v !! x); try done.
    cbn in *. f_equal. apply Hg. by apply (inj Some). }
  split; cbn; rewrite ?Eu, ?Ef, ?EL; try done.
  - rewrite <- D. apply set_eq. intros x. rewrite !elem_of_dom. specialize (Hlk x).
    destruct (h' !! x), (v_blocks v !! x); naive_solver.
  - eapply dseg_ext; [|exact U]. intros x _. apply Hl. unfold links_of. cbn. intros ? ? [=]. congruence.
  - eapply slist_ext; [|done]. intros x _. apply Hl. unfold links_of. by intros ? ? [=].
  - intros k Hk. eapply dseg_ext; [|by apply Ch]. intros x _. apply Hl. unfold links_of. cbn.
    intros ? ? [=]. congruence.
  - intros k l Hk Hl'. destruct (Ci k l Hk Hl') as (b & Hin & _). apply elem_fst in Hin.
    rewrite fmap_app, <- Eu, <- EL, <- fmap_app in Hin. apply fst_elem in Hin as [b' Hin].
    exists b'. split; [done|]. by eapply Hc.
  - by rewrite Hs.
Qed.

Lemma links_alter (fn : bhdr -> bhdr) (h : gmap loc bhdr) l x :
  (forall nd, links_of (fn nd) = links_of nd) -> links_of <$> alter fn l h !! x = links_of <$> h !! x.
Proof.
  intros Hf. destruct (decide (x = l)) as [->|].
  - rewrite lookup_alter_eq. destruct (h !! l); cbn; [by rewrite Hf|done].
  - by rewrite lookup_alter_ne.
Qed.

Lemma nodup_fst_ne {A} (xs ys : list (loc * A)) l a x b :
  NoDup (xs ++ (l, a) :: ys).*1 -> (x, b) ∈ xs ++ ys -> x <> l.
Proof.
  rewrite fmap_app. cbn. rewrite <- Permutation_middle. intros [Hl _]%NoDup_cons Hx%elem_fst ->.
  by rewrite fmap_app in Hx.
Qed.

(** Changing fields of a used block. *)
Lemma update_used_shape v u1 u2 f L c B l b nd fn :
  bshape v (MkGhost (u1 ++ (l, b) :: u2) f L c B) -> v_blocks v !! l = Some nd ->
  (forall nd, links_of (fn nd) = links_of nd) -> b_pc (block_of (fn nd)) = b_pc b ->
  b_num (block_of (fn nd)) = b_num b \/ (forall k, 0 <= k < MEMHASHSIZE -> l ∉ c k) ->
  bshape (v_set_blocks (alter fn l (v_blocks v)) v)
    (MkGhost (u1 ++ (l, block_of (fn nd)) :: u2) f L c B).
Proof.
  intros HS E Hfn Hpc Hnum. pose proof (shape_nodup_ul v _ HS) as Nul.
  pose proof (sh_nodup v _ HS) as N. cbn in Nul, N.
  assert (Hne : forall x b', (x, b') ∈ (u1 ++ u2) ++ L -> x <> l).
  { intros x b' Hx. rewrite <- !app_assoc in *. cbn in *.
    by apply (nodup_fst_ne u1 (u2 ++ L) l b x b'). }
  eapply relabel_shape; [exact HS| |by rewrite !fmap_app|done|done| | | |].
  - intros x. by apply links_alter.
  - intros x b' Hx. destruct (decide (x = l)) as [->|Hxl].
    + rewrite lookup_alter_eq, E. cbn. assert (b' = block_of (fn nd)) as ->; [|done].
      rewrite <- app_assoc in Hx. cbn in Hx. rewrite <- Permutation_middle in Hx.
      apply elem_of_cons in Hx as [[= ->]|Hx]; [done|].
      rewrite app_assoc in Hx. by apply Hne in Hx.
    + rewrite lookup_alter_ne by done. apply (sh_blocks v _ HS). cbn. set_solver.
  - intros x fr Hx. rewrite lookup_alter_ne; [by apply (sh_frees v _ HS)|].
    intros ->. apply NoDup_app in N as (_ & N & _). apply (N x); [rewrite fmap_app; cbn; set_solver|].
    apply elem_of_app. left. by eapply elem_fst.
  - intros k x b' Hk Hx Hin. destruct (decide (x = l)) as [->|Hxl].
    + destruct Hnum as [Hnum|Hnum]; [|by apply Hnum in Hx].
      assert (b' = block_of (fn nd)) as ->.
      { rewrite <- app_assoc in Hin. cbn in Hin. rewrite <- Permutation_middle in Hin.
        apply elem_of_cons in Hin as [[= ->]|Hin]; [done|].
        rewrite app_assoc in Hin. by apply Hne in Hin. }
      rewrite Hnum. eapply (chain_unique v _ l b k HS); cbn; set_solver.
    + eapply (chain_unique v _ x b' k HS); cbn; set_solver.
  - rewrite !fmap_app. cbn in *. by rewrite Hpc.
Qed.

(** Changing fields of a header that is on no list. *)
Lemma update_loose_shape v u f L c B l b nd fn :
  bshape v (MkGhost u f ((l, b) :: L) c B) -> v_blocks v !! l = Some nd ->
  (forall nd, links_of (fn nd) = links_of nd) ->
  b_num (block_of (fn nd)) = b_num b \/ (forall k, 0 <= k < MEMHASHSIZE -> l ∉ c k) ->
  bshape (v_set_blocks (alter fn l (v_blocks v)) v) (MkGhost u f ((l, block_of (fn nd)) :: L) c B).
Proof.
  intros HS E Hfn Hnum. pose proof (shape_nodup_ul v _ HS) as Nul.
  pose proof (sh_nodup v _ HS) as N. cbn in Nul, N.
  assert (Hne : forall x b', (x, b') ∈ u ++ L -> x <> l).
  { intros x b' Hx. by apply (nodup_fst_ne u L l b x b'). }
  eapply relabel_shape; [exact HS| |done|done|done| | | |done].
  - intros x. by apply links_alter.
  - intros x b' Hx. destruct (decide (x = l)) as [->|Hxl].
    + rewrite lookup_alter_eq, E. cbn. assert (b' = block_of (fn nd)) as ->; [|done].
      rewrite <- Permutation_middle in Hx. apply elem_of_cons in Hx as [[= ->]|Hx]; [done|].
      by apply Hne in Hx.
    + rewrite lookup_alter_ne by done. apply (sh_blocks v _ HS). cbn. set_solver.
  - intros x fr Hx. rewrite lookup_alter_ne; [by apply (sh_frees v _ HS)|].
    intros ->. apply NoDup_app in N as (_ & _ & N). apply NoDup_app in N as (_ & N & _).
    apply (N x); [by eapply elem_fst|apply list_elem_of_here].
  - intros k x b' Hk Hx Hin. destruct (decide (x = l)) as [->|Hxl].
    + destruct Hnum as [Hnum|Hnum]; [|by apply Hnum in Hx].
      assert (b' = block_of (fn nd)) as ->.
      { rewrite <- Permutation_middle in Hin. apply elem_of_cons in Hin as [[= ->]|Hin]; [done|].
        by apply Hne in Hin. }
      rewrite Hnum. eapply (chain_unique v _ l b k HS); cbn; set_solver.
    + eapply (chain_unique v _ x b' k HS); cbn; set_solver.
Qed.

(** Changing the number and the page count of the first free header. *)
Lemma update_free_shape v u f L c B l fr nd fn :
  bshape v (MkGhost u ((l, fr) :: f) L c B) -> v_blocks v !! l = Some nd ->
  (forall nd, links_of (fn nd) = links_of nd) ->
  bshape (v_set_blocks (alter fn l (v_blocks v)) v) (MkGhost u ((l, free_of (fn nd)) :: f) L c B).
Proof.
  intros HS E Hfn. pose proof (sh_nodup v _ HS) as N. cbn in N.
  assert (Hne : forall x b', (x, b') ∈ u ++ L -> x <> l).
  { intros x b' Hx%elem_fst ->. rewrite fmap_app in Hx. rewrite <- Permutation_middle in N.
    apply NoDup_cons in N as [N _]. set_solver. }
  eapply relabel_shape; [exact HS| |done|done|done| | | |done].
  - intros x. by apply links_alter.
  - intros x b' Hx. rewrite lookup_alter_ne by (symmetry; by eapply Hne). by apply (sh_blocks v _ HS).
  - intros x fr' Hx. destruct (decide (x = l)) as [->|Hxl].
    + rewrite lookup_alter_eq, E. cbn. apply elem_of_cons in Hx as [[= ->]|Hx]; [done|].
      apply elem_fst in Hx. apply NoDup_app in N as (_ & _ & N). cbn in N. apply NoDup_cons in N as [N _]. set_solver.
    + rewrite lookup_alter_ne by done. apply (sh_frees v _ HS). cbn. set_solver.
  - intros k x b' Hk Hx Hin. by eapply (chain_unique v _ x b' k HS).
Qed.

(** A new header, and one given back. *)
Lemma alloc_shape v u f L c B l nd :
  bshape v (MkGhost u f L c B) -> v_blocks v !! l = None ->
  bshape (v_set_blocks (<[l := nd]> (v_blocks v)) v) (MkGhost u f ((l, block_of nd) :: L) c B).
Proof.
  intros HS E. pose proof HS as [N D U F La Bl Fr Frs Hd Ch Cn Ci Co To]. cbn in *.
  assert (Hl : l ∉ u.*1 ++ f.*1 ++ L.*1).
  { intros Hin. destruct (shape_is_Some v _ l HS Hin) as [? ?]. congruence. }
  assert (Hne : forall x, x ∈ u.*1 ++ f.*1 ++ L.*1 -> <[l := nd]> (v_blocks v) !! x = v_blocks v !! x).
  { intros x Hx. apply lookup_insert_ne. by intros ->. }
  assert (P : u.*1 ++ f.*1 ++ l :: L.*1 ≡ₚ l :: u.*1 ++ f.*1 ++ L.*1) by solve_Permutation.
  split; cbn; try done.
  - rewrite P. by apply NoDup_cons.
  - rewrite dom_insert_L, D, P. done.
  - eapply dseg_ext; [|exact U]. intros x Hx. by rewrite Hne by set_solver.
  - intros x b Hx. rewrite <- Permutation_middle in Hx. apply elem_of_cons in Hx as [[= -> ->]|Hx].
    + by rewrite lookup_insert_eq.
    + rewrite Hne; [by apply Bl|]. apply elem_of_app in Hx as [Hx%elem_fst|Hx%elem_fst]; set_solver.
  - eapply slist_ext; [|done]. intros x Hx. by rewrite Hne by set_solver.
  - intros x fr Hx. rewrite Hne; [by apply Frs|]. apply elem_fst in Hx. set_solver.
  - intros k Hk. eapply dseg_ext; [|by apply Ch]. intros x Hx. rewrite Hne; [done|].
    apply (chain_is_ul v _ k x HS Hk) in Hx. cbn in Hx. rewrite fmap_app in Hx. set_solver.
  - intros k x Hk Hx. destruct (Ci k x Hk Hx) as (b & Hin & Eb). exists b. set_solver.
Qed.

Lemma delete_shape v u f L c B l b :
  bshape v (MkGhost u f ((l, b) :: L) c B) -> (forall k, 0 <= k < MEMHASHSIZE -> l ∉ c k) ->
  bshape (v_set_blocks (delete l (v_blocks v)) v) (MkGhost u f L c B).
Proof.
  intros HS Hl. pose proof HS as [N D U F La Bl Fr Frs Hd Ch Cn Ci Co To]. cbn in *.
  assert (P : u.*1 ++ f.*1 ++ l :: L.*1 ≡ₚ l :: u.*1 ++ f.*1 ++ L.*1) by solve_Permutation.
  rewrite P in N, D. apply NoDup_cons in N as [Nl N].
  assert (Hne : forall x, x ∈ u.*1 ++ f.*1 ++ L.*1 -> delete l (v_blocks v) !! x = v_blocks v !! x).
  { intros x Hx. apply lookup_delete_ne. by intros ->. }
  split; cbn; try done.
  - rewrite dom_delete_L, D. set_solver.
  - eapply dseg_ext; [|exact U]. intros x Hx. by rewrite Hne by set_solver.
  - intros x b' Hx. rewrite Hne; [apply Bl; set_solver|].
    apply elem_of_app in Hx as [Hx%elem_fst|Hx%elem_fst]; set_solver.
  - eapply slist_ext; [|done]. intros x Hx. by rewrite Hne by set_solver.
  - intros x fr Hx. rewrite Hne; [by apply Frs|]. apply elem_fst in Hx. set_solver.
  - intros k Hk. eapply dseg_ext; [|by apply Ch]. intros x Hx. rewrite Hne; [done|].
    destruct (Ci k x Hk Hx) as (b' & Hin & _). assert (x <> l) by (intros ->; by apply (Hl k)).
    apply elem_fst in Hin. rewrite fmap_app in Hin. set_solver.
  - intros k x Hk Hx. destruct (Ci k x Hk Hx) as (b' & Hin & Eb). exists b'. split; [|done].
    assert (x <> l) by (intros ->; by apply (Hl k)). set_solver.
Qed.

(** The first free header off its list, and a loose one onto it. *)
Lemma pop_free_shape v u f L c B l fr nd :
  bshape v (MkGhost u ((l, fr) :: f) L c B) -> v_blocks v !! l = Some nd ->
  v_free v = Some l /\ fr = free_of nd /\
  bshape (MkView (v_blocks v) (v_first v) (v_last v) (bh_next nd) (v_hash v) (v_count v) (v_total v) (v_ps v))
    (MkGhost u f ((l, block_of nd) :: L) c B) /\
  (forall k, 0 <= k < MEMHASHSIZE -> l ∉ c k).
Proof.
  intros HS E. pose proof HS as [N D U F La Bl Fr Frs Hd Ch Cn Ci Co To]. cbn in *.
  destruct Fr as (Ef & nd' & E' & Fr). rewrite E in E'. injection E' as <-.
  assert (P : u.*1 ++ f.*1 ++ l :: L.*1 ≡ₚ u.*1 ++ l :: f.*1 ++ L.*1) by solve_Permutation.
  split_and!; [done| | |].
  - specialize (Frs l fr (list_elem_of_here _ _)). rewrite E in Frs. by injection Frs.
  - split; cbn; try done.
    + by rewrite P.
    + by rewrite P.
    + intros x b Hx. rewrite <- Permutation_middle in Hx. apply elem_of_cons in Hx as [[= -> ->]|Hx].
      * by rewrite E.
      * by apply Bl.
    + intros x fr' Hx. apply Frs. set_solver.
    + intros k x Hk Hx. destruct (Ci k x Hk Hx) as (b & Hin & Eb). exists b. set_solver.
  - intros k Hk Hl%(chain_is_ul v _ k l HS Hk). cbn in Hl. rewrite fmap_app in Hl.
    rewrite <- Permutation_middle in N. apply NoDup_cons in N as [N _]. set_solver.
Qed.

Lemma push_free_shape v u f L c B l b nd :
  bshape v (MkGhost u f ((l, b) :: L) c B) -> v_blocks v !! l = Some nd ->
  (forall k, 0 <= k < MEMHASHSIZE -> l ∉ c k) ->
  bshape (MkView (alter (set_bh_next (v_free v)) l (v_blocks v)) (v_first v) (v_last v) (Some l) (v_hash v)
            (v_count v) (v_total v) (v_ps v))
    (MkGhost u ((l, free_of nd) :: f) L c B).
Proof.
  intros HS E Hl. pose proof HS as [N D U F La Bl Fr Frs Hd Ch Cn Ci Co To]. cbn in *.
  assert (P : u.*1 ++ l :: f.*1 ++ L.*1 ≡ₚ u.*1 ++ f.*1 ++ l :: L.*1) by solve_Permutation.
  pose proof N as N'. rewrite <- P, <- Permutation_middle in N'. apply NoDup_cons in N' as [Nl _].
  set (h' := alter _ _ _).
  assert (Hne : forall x, x ∈ u.*1 ++ f.*1 ++ L.*1 -> h' !! x = v_blocks v !! x).
  { intros x Hx. apply lookup_alter_ne. by intros ->. }
  split; cbn; rewrite ?P; try done.
  - rewrite <- D. unfold h'. apply dom_alter_L.
  - eapply dseg_ext; [|exact U]. intros x Hx. by rewrite Hne by set_solver.
  - intros x b' Hx. rewrite Hne; [apply Bl; set_solver|].
    apply elem_of_app in Hx as [Hx%elem_fst|Hx%elem_fst]; set_solver.
  - split; [done|]. exists (set_bh_next (v_free v) nd). split; [unfold h'; by rewrite lookup_alter_eq, E|].
    cbn. eapply slist_ext; [|done]. intros x Hx. by rewrite Hne by set_solver.
  - intros x fr [[= -> ->]|Hx]%elem_of_cons.
    + unfold h'. by rewrite lookup_alter_eq, E.
    + rewrite Hne; [by apply Frs|]. apply elem_fst in Hx. set_solver.
  - intros k Hk. eapply dseg_ext; [|by apply Ch]. intros x Hx. rewrite Hne; [done|].
    destruct (Ci k x Hk Hx) as (b' & Hin & _). assert (x <> l) by (intros ->; by apply (Hl k)).
    apply elem_fst in Hin. rewrite fmap_app in Hin. set_solver.
  - intros k x Hk Hx. destruct (Ci k x Hk Hx) as (b' & Hin & Eb). exists b'. split; [|done].
    assert (x <> l) by (intros ->; by apply (Hl k)). set_solver.
Qed.
End prims.
