(* ===== verification/MemfileOps.v ===== *)
(** * The operations of a memory file on its abstract lists

    [lists s u f L B] hides the hash chains: the used list is [u], most
    recently used first, every block of it is on the chain of its number, the
    free list is [f], the headers [L] are on no list.  [tshape] does the same
    for the translation lists, whose content is the map [pend].  The
    operations below the interface are run against these. *)
From S2P Require Import Prelude Heap Dll Memfile MemfileProofs.
From stdpp Require Import strings.
Open Scope Z_scope.

(** The macros of [structs.h] and the calls, as documented: buckets are in
    range, the flags are different single bits, [alloc] gives as many bytes
    as asked for, a file descriptor is not negative. *)
Class VimLaws `{Vim} : Prop := {
  hash_range nr : 0 <= MEMHASH nr < MEMHASHSIZE;
  flag_bits : exists i j, 0 <= i /\ 0 <= j /\ i <> j /\ BH_LOCKED = 2 ^ i /\ BH_DIRTY = 2 ^ j;
  alloc_data_size n sz bs : alloc_data n sz = Some bs -> zlen bs = sz;
  open_file_fd n str fd bs : open_file n str = Some (fd, bs) -> 0 <= fd
}.

Section ops.
Context `{VM : Vim} `{VL : !VimLaws}.
Implicit Types (u L : list (loc * mblock)) (f : list (loc * (Z * Z))).

Definition listed u (c : Z -> list loc) : Prop := forall l b, (l, b) ∈ u -> l ∈ c (MEMHASH (b_num b)).
Definition unhashed L (c : Z -> list loc) : Prop :=
  forall l b k, (l, b) ∈ L -> 0 <= k < MEMHASHSIZE -> l ∉ c k.

Definition lists (s : mfs) u f L (B : Z) : Prop :=
  exists c, bshape (view s) (MkGhost u f L c B) /\ listed u c /\ unhashed L c.

(** Nothing but the lists has changed. *)
Definition quiet (s s' : mfs) : Prop := core s' = core s /\ calls s' = calls s.

#[export] Instance quiet_preorder : PreOrder quiet.
Proof. split; [done|]. intros s1 s2 s3 [] []. split; congruence. Qed.

Lemma quiet_field {B} (f : mfs -> B) s s' : (forall s, f (core s) = f s) -> quiet s s' -> f s' = f s.
Proof. intros Hf [E _]. by apply core_field. Qed.

Lemma lists_view s s' u f L B : view s' = view s -> lists s u f L B -> lists s' u f L B.
Proof. unfold lists. by intros ->. Qed.

Lemma lists_block s u f L B l b : lists s u f L B -> (l, b) ∈ u ++ L ->
  exists nd, blocks s !! l = Some nd /\ block_of nd = b.
Proof. intros (c & HS & _) Hin. by apply (shape_block _ _ l b HS). Qed.

Lemma lists_free s u f L B l fr : lists s u f L B -> (l, fr) ∈ f ->
  exists nd, blocks s !! l = Some nd /\ free_of nd = fr.
Proof. intros (c & HS & _) Hin. by apply (shape_free _ _ l fr HS). Qed.

Lemma lists_nodup s u f L B : lists s u f L B -> NoDup (u.*1 ++ f.*1 ++ L.*1).
Proof. intros (c & HS & _). by apply (sh_nodup _ _ HS). Qed.

Lemma lists_inj s u f L B l b b' :
  lists s u f L B -> (l, b) ∈ u ++ L -> (l, b') ∈ u ++ L -> b = b'.
Proof. intros (c & HS & _). by apply (shape_block_inj _ _ l b b' HS). Qed.

Lemma lists_first s u f L B : lists s u f L B -> mf_used_first (mfp s) = first_of u.*1 None.
Proof. intros (c & HS & _). by apply (sh_first _ _ HS). Qed.

Lemma lists_last s u f L B : lists s u f L B -> mf_used_last (mfp s) = last_of None u.*1.
Proof. intros (c & HS & _). by apply (sh_last _ _ HS). Qed.

Lemma lists_free_first s u f L B : lists s u f L B -> mf_free_first (mfp s) = first_of f.*1 None.
Proof. intros (c & HS & _). eapply slist_first. by apply (sh_free _ _ HS). Qed.

Lemma lists_size s u f L B : lists s u f L B -> size (blocks s) = (length u + (length f + length L))%nat.
Proof.
  intros (c & HS & _). rewrite <- size_dom. pose proof (sh_dom _ _ HS) as D. cbn in D. rewrite D.
  rewrite size_list_to_set by (by apply (sh_nodup _ _ HS)). by rewrite !length_app, !length_fmap.
Qed.

Lemma lists_walk s u f L B : lists s u f L B ->
  walk_fuel (V := bhdr) s = Ok (Datatypes.S (length u + (length f + length L)), s).
Proof. intros HL. unfold walk_fuel. rewrite M_bind_eq. cbn. by rewrite (lists_size _ _ _ _ _ HL). Qed.

(** The pointers between used blocks. *)
Lemma lists_links s u1 u2 f L B l b nd :
  lists s (u1 ++ (l, b) :: u2) f L B -> blocks s !! l = Some nd ->
  bh_prev nd = last_of None u1.*1 /\ bh_next nd = first_of u2.*1 None.
Proof.
  intros (c & HS & _) E. pose proof (sh_used _ _ HS) as U. cbn in U. rewrite fmap_app in U. cbn in U.
  destruct (dll_middle _ _ _ _ U) as (v & E' & Ep & En). cbn in E'. rewrite E in E'. by injection E' as <-.
Qed.

(** ** Insertion and removal *)
Lemma lists_insert s u f L B l b :
  lists s u f ((l, b) :: L) B ->
  exists s1 s2, mf_ins_used (Some l) s = Ok (tt, s1) /\ mf_ins_hash (Some l) s1 = Ok (tt, s2) /\
    lists s2 ((l, b) :: u) f L B /\ quiet s s2.
Proof.
  intros (c & HS & Hu & HL). pose proof (shape_block _ _ l b HS) as (nd & E & Eb); [cbn; set_solver|].
  pose proof (push_shape _ _ _ _ _ _ _ _ HS) as HS1. cbn in E.
  destruct (ins_used_run s l nd) as (s1 & R1 & V1 & Q1 & C1); [done| |].
  { intros n Hn. pose proof (sh_first _ _ HS) as Hf. cbn in Hf. rewrite Hn in Hf. symmetry in Hf.
    apply first_of_elem in Hf. split.
    - intros ->. pose proof (sh_nodup _ _ HS) as N. cbn in N.
      apply NoDup_app in N as (_ & N & _). apply (N l Hf). set_solver.
    - apply (shape_is_Some _ _ n HS). cbn. set_solver. }
  assert (bh_page_count nd = b_pc b) as Epc by (by rewrite <- Eb).
  rewrite Epc in V1. rewrite <- V1 in HS1.
  destruct (shape_block _ _ l b HS1) as (nd1 & E1 & Eb1); [cbn; set_solver|]. cbn in E1.
  pose proof (hash_range (b_num b)) as Hr.
  assert (bh_bnum nd1 = b_num b) as En1 by (by rewrite <- Eb1).
  pose proof (ins_hash_shape _ _ _ _ _ _ l b HS1) as HS2.
  destruct (ins_hash_run s1 l nd1 (first_of (c (MEMHASH (b_num b))) None)) as (s2 & R2 & V2 & Q2 & C2).
  { done. }
  { rewrite En1. lia. }
  { rewrite En1. by apply (sh_heads _ _ HS1). }
  { intros n Hn%first_of_elem. split.
    - intros ->. eapply (HL l b); [set_solver|exact Hr|done].
    - apply (shape_is_Some _ _ n HS1). cbn.
      pose proof (chain_is_ul _ _ _ n HS1 Hr Hn) as Hin. cbn in Hin. rewrite fmap_app in Hin. set_solver. }
  rewrite En1 in V2. exists s1, s2. split_and!; [done|done| |split; congruence].
  exists (set_chain (MEMHASH (b_num b)) (l :: c (MEMHASH (b_num b))) c). split_and!.
  - rewrite V2. apply HS2; [set_solver|done|]. eapply (HL l b); [set_solver|done].
  - intros l' b' Hin. apply set_chain_cases.
    + intros Ek. apply elem_of_cons in Hin as [[= -> ->]|Hin]; [set_solver|].
      apply list_elem_of_further. rewrite <- Ek. by apply Hu.
    + intros Ek. apply elem_of_cons in Hin as [[= -> ->]|Hin]; [done|]. by apply Hu.
  - intros l' b' k Hin Hk. apply set_chain_cases.
    + intros ->. intros [->|Hc]%elem_of_cons; [|eapply (HL l' b'); [set_solver|exact Hk|done]].
      pose proof (shape_nodup_ul _ _ HS) as N. cbn in N. rewrite fmap_app in N. cbn in N.
      rewrite <- Permutation_middle in N. apply NoDup_cons in N as [N _]. apply N.
      apply elem_fst in Hin. set_solver.
    + intros _. eapply (HL l' b'); [set_solver|done].
Qed.

Lemma hash_remove s u f L c B l b :
  bshape (view s) (MkGhost u f L c B) -> (l, b) ∈ u ++ L -> l ∈ c (MEMHASH (b_num b)) ->
  exists s' c', mf_rem_hash (Some l) s = Ok (tt, s') /\ bshape (view s') (MkGhost u f L c' B) /\
    quiet s s' /\ (forall k, 0 <= k < MEMHASHSIZE -> l ∉ c' k) /\
    (forall k x, 0 <= k < MEMHASHSIZE -> x <> l -> x ∈ c' k <-> x ∈ c k).
Proof.
  intros HS Hlb Hc. pose proof (hash_range (b_num b)) as Hr.
  destruct (shape_block _ _ l b HS Hlb) as (nd & E & Eb). cbn in E.
  apply list_elem_of_split in Hc as (ys1 & ys2 & Ec).
  destruct (rem_hash_shape _ _ _ _ _ _ l b nd ys1 ys2 HS Hlb E Hr Ec) as [Hnb HS'].
  assert (bh_bnum nd = b_num b) as En by (by rewrite <- Eb).
  destruct (rem_hash_run s l nd) as (s' & R & V & Q & C); [done|done|rewrite En; lia| |].
  { rewrite En. pose proof (sh_heads _ _ HS _ Hr) as Hh. cbn in Hh. by rewrite Hh. }
  rewrite En in V. eexists s', _. split_and!; [done|rewrite V; exact HS'|split; congruence| |].
  - pose proof (sh_chain_nodup _ _ HS _ Hr) as N. cbn in N. rewrite Ec, <- Permutation_middle in N.
    apply NoDup_cons in N as [N _]. intros k Hk. apply set_chain_cases; [done|].
    intros Hkk Hl. apply Hkk. symmetry. by eapply (chain_unique _ _ l b k HS).
  - intros k x Hk Hx. apply set_chain_cases; [|done]. intros ->. rewrite Ec. set_solver.
Qed.

(** Off the used list and off its chain, in the order of either caller. *)
Lemma lists_remove s u1 u2 f L B l b :
  lists s (u1 ++ (l, b) :: u2) f L B ->
  exists s1 s2, mf_rem_used (Some l) s = Ok (tt, s1) /\ mf_rem_hash (Some l) s1 = Ok (tt, s2) /\
    lists s2 (u1 ++ u2) f ((l, b) :: L) B /\ quiet s s2.
Proof.
  intros (c & HS & Hu & HL). pose proof (shape_block _ _ l b HS) as (nd & E & Eb); [cbn; set_solver|].
  cbn in E. destruct (unlink_shape _ _ _ _ _ _ _ _ _ nd HS E) as [Hnb HS1].
  destruct (rem_used_run s l nd E Hnb) as (s1 & R1 & V1 & Q1 & C1). rewrite <- V1 in HS1.
  destruct (hash_remove s1 _ _ _ _ _ l b HS1) as (s2 & c' & R2 & HS2 & [Q2 C2] & Hl & Hx); [set_solver| |].
  { apply Hu. set_solver. }
  pose proof (sh_nodup _ _ HS1) as N. cbn in N. 
  exists s1, s2. split_and!; [done|done| |split; congruence].
  exists c'. split_and!; [done| |].
  - intros l' b' Hin. apply Hx; [apply hash_range| |apply Hu; set_solver].
    intros ->. apply NoDup_app in N as (_ & N & _). apply (N l); [by eapply elem_fst|set_solver].
  - intros l' b' k Hin Hk. apply elem_of_cons in Hin as [[= -> ->]|Hin]; [by apply Hl|].
    intros Hc'. apply Hx in Hc'; [|done|].
    + by eapply (HL l' b').
    + intros ->. by apply Hl in Hc'.
Qed.

Lemma lists_remove_hash_first s u1 u2 f L B l b :
  lists s (u1 ++ (l, b) :: u2) f L B ->
  exists s1 s2, mf_rem_hash (Some l) s = Ok (tt, s1) /\ mf_rem_used (Some l) s1 = Ok (tt, s2) /\
    lists s2 (u1 ++ u2) f ((l, b) :: L) B /\ quiet s s2.
Proof.
  intros (c & HS & Hu & HL).
  destruct (hash_remove s _ _ _ _ _ l b HS) as (s1 & c' & R1 & HS1 & Q1 & Hl & Hx); [set_solver| |].
  { apply Hu. set_solver. }
  destruct (shape_block _ _ l b HS1) as (nd & E & Eb); [cbn; set_solver|].
  cbn in E. destruct (unlink_shape _ _ _ _ _ _ _ _ _ nd HS1 E) as [Hnb HS2].
  destruct (rem_used_run s1 l nd E Hnb) as (s2 & R2 & V2 & Q2 & C2). rewrite <- V2 in HS2.
  pose proof (sh_nodup _ _ HS2) as N. cbn in N.
  exists s1, s2. split_and!; [done|done| |etrans; [done|by split]].
  exists c'. split_and!; [done| |].
  - intros l' b' Hin. apply Hx; [apply hash_range| |apply Hu; set_solver].
    intros ->. apply NoDup_app in N as (_ & N & _). apply (N l); [by eapply elem_fst|set_solver].
  - intros l' b' k Hin Hk. apply elem_of_cons in Hin as [[= -> ->]|Hin]; [by apply Hl|].
    intros Hc'. apply Hx in Hc'; [|done|].
    + by eapply (HL l' b').
    + intros ->. by apply Hl in Hc'.
Qed.

(** ** Fields *)
Lemma lists_update_used s u1 u2 f L B l b b' fn :
  lists s (u1 ++ (l, b) :: u2) f L B -> (forall nd, links_of (fn nd) = links_of nd) ->
  (forall nd, block_of nd = b -> block_of (fn nd) = b') -> b_pc b' = b_pc b -> b_num b' = b_num b ->
  exists s', assign (V := bhdr) (Some l) fn s = Ok (tt, s') /\
    lists s' (u1 ++ (l, b') :: u2) f L B /\ quiet s s'.
Proof.
  intros (c & HS & Hu & HL) Hfn Hb Hpc Hn.
  destruct (shape_block _ _ l b HS) as (nd & E & Eb); [cbn; set_solver|]. cbn in E.
  specialize (Hb nd Eb). subst b'.
  pose proof (update_used_shape _ _ _ _ _ _ _ _ _ nd fn HS E Hfn Hpc (or_introl Hn)) as HS'.
  eexists. split; [by eapply ablock_ok|]. split; [|done]. exists c. split_and!; [exact HS'| |].
  - intros x bx Hx. rewrite elem_of_app, elem_of_cons in Hx.
    destruct Hx as [Hx|[[= -> ->]|Hx]]; [apply Hu; set_solver| |apply Hu; set_solver].
    rewrite Hn. apply Hu. set_solver.
  - done.
Qed.

Lemma lists_update_loose s u f L B l b b' fn :
  lists s u f ((l, b) :: L) B -> (forall nd, links_of (fn nd) = links_of nd) ->
  (forall nd, block_of nd = b -> block_of (fn nd) = b') ->
  exists s', assign (V := bhdr) (Some l) fn s = Ok (tt, s') /\
    lists s' u f ((l, b') :: L) B /\ quiet s s'.
Proof.
  intros (c & HS & Hu & HL) Hfn Hb.
  destruct (shape_block _ _ l b HS) as (nd & E & Eb); [cbn; set_solver|]. cbn in E.
  specialize (Hb nd Eb). subst b'.
  assert (Hl : forall k, 0 <= k < MEMHASHSIZE -> l ∉ c k) by (intros k Hk; eapply (HL l b); [set_solver|done]).
  pose proof (update_loose_shape _ _ _ _ _ _ _ _ nd fn HS E Hfn (or_intror Hl)) as HS'.
  eexists. split; [by eapply ablock_ok|]. split; [|done]. exists c. split_and!; [exact HS'|done|].
  intros x bx k Hx Hk. apply elem_of_cons in Hx as [[= -> ->]|Hx]; [by apply Hl|].
  eapply (HL x bx); [set_solver|done].
Qed.

Lemma lists_update_free s u f L B l fr fr' fn :
  lists s u ((l, fr) :: f) L B -> (forall nd, links_of (fn nd) = links_of nd) ->
  (forall nd, free_of nd = fr -> free_of (fn nd) = fr') ->
  exists s', assign (V := bhdr) (Some l) fn s = Ok (tt, s') /\
    lists s' u ((l, fr') :: f) L B /\ quiet s s'.
Proof.
  intros (c & HS & Hu & HL) Hfn Hb.
  destruct (shape_free _ _ l fr HS) as (nd & E & Eb); [cbn; set_solver|]. cbn in E.
  specialize (Hb nd Eb). subst fr'.
  pose proof (update_free_shape _ _ _ _ _ _ _ _ nd fn HS E Hfn) as HS'.
  eexists. split; [by eapply ablock_ok|]. split; [|done]. exists c. done.
Qed.

(** A new number for a block: it moves to another chain. *)
Lemma lists_rehash s u1 u2 f L B l b n :
  lists s (u1 ++ (l, b) :: u2) f L B ->
  exists s1 s2 s3, mf_rem_hash (Some l) s = Ok (tt, s1) /\
    assign (V := bhdr) (Some l) (set_bh_bnum n) s1 = Ok (tt, s2) /\
    mf_ins_hash (Some l) s2 = Ok (tt, s3) /\
    lists s3 (u1 ++ (l, MkBlock n (b_pc b) (b_flags b) (b_data b)) :: u2) f L B /\ quiet s s3.
Proof.
  intros (c & HS & Hu & HL). set (b' := MkBlock n (b_pc b) (b_flags b) (b_data b)).
  destruct (hash_remove s _ _ _ _ _ l b HS) as (s1 & c1 & R1 & HS1 & Q1 & Hl & Hx); [set_solver| |].
  { apply Hu. set_solver. }
  destruct (shape_block _ _ l b HS1) as (nd & E & Eb); [cbn; set_solver|]. cbn in E.
  pose proof (update_used_shape _ u1 u2 f L c1 B l b nd (set_bh_bnum n) HS1 E) as HS2.
  assert (block_of (set_bh_bnum n nd) = b') as Eb' by (unfold b'; by rewrite <- Eb).
  rewrite Eb' in HS2. specialize (HS2 (fun _ => eq_refl) eq_refl (or_intror Hl)).
  set (s2 := set_blocks (alter (set_bh_bnum n) l (blocks s1)) s1).
  change (bshape (view s2) (MkGhost (u1 ++ (l, b') :: u2) f L c1 B)) in HS2.
  assert (E2 : blocks s2 !! l = Some (set_bh_bnum n nd)) by (cbn; by rewrite lookup_alter_eq, E).
  pose proof (hash_range (b_num b')) as Hr. cbn in Hr.
  destruct (ins_hash_run s2 l (set_bh_bnum n nd) (first_of (c1 (MEMHASH n)) None)) as (s3 & R3 & V3 & Q3 & C3).
  { done. }
  { cbn. lia. }
  { by apply (sh_heads _ _ HS2). }
  { intros x Hx'%first_of_elem. split; [intros ->; by apply (Hl _ Hr)|].
    apply (shape_is_Some _ _ x HS2). cbn.
    pose proof (chain_is_ul _ _ _ x HS2 Hr Hx') as Hin. cbn in Hin. rewrite fmap_app in Hin. set_solver. }
  pose proof (ins_hash_shape _ _ _ _ _ _ l b' HS2) as HS3. cbn [b_num b'] in HS3.
  exists s1, s2, s3. split_and!; [done|by eapply ablock_ok|done| |].
  - exists (set_chain (MEMHASH n) (l :: c1 (MEMHASH n)) c1). split_and!.
    + rewrite V3. apply HS3; [set_solver|done|by apply Hl].
    + assert (Hb' : forall x bx, (x, bx) ∈ u1 ++ u2 -> x <> l /\ x ∈ c1 (MEMHASH (b_num bx))).
      { intros x bx Hin. assert (x <> l).
        { apply (nodup_fst_ne u1 u2 l b x bx); [|done].
          pose proof (sh_nodup _ _ HS) as N. cbn in N. by apply NoDup_app in N as (? & _ & _). }
        split; [done|]. apply Hx; [apply hash_range|done|]. apply Hu. set_solver. }
      intros x bx Hin. rewrite elem_of_app, elem_of_cons in Hin.
      assert (Hin' : (x, bx) = (l, b') \/ (x, bx) ∈ u1 ++ u2) by set_solver.
      destruct Hin' as [[= -> ->]|Hne].
      * apply set_chain_cases; [intros _; set_solver|by cbn].
      * destruct (Hb' x bx) as [Hxl Hxc]; [set_solver|]. apply set_chain_cases; [|done].
        intros Ek. rewrite <- Ek. set_solver.
    + intros x bx k Hin Hk. assert (Hxl : x <> l).
      { intros ->. pose proof (sh_nodup _ _ HS) as N. cbn in N. apply NoDup_app in N as (_ & N & _).
        apply (N l); [rewrite fmap_app; cbn; set_solver|]. apply elem_fst in Hin. set_solver. }
      apply set_chain_cases.
      * intros ->. intros [->|Hc]%elem_of_cons; [done|]. apply Hx in Hc; [|done|done]. by eapply (HL x bx).
      * intros _ Hc. apply Hx in Hc; [|done|done]. by eapply (HL x bx).
  - destruct Q1 as [Q1 C1]. split; [transitivity (core s2)|transitivity (calls s2)]; done.
Qed.

(** ** Headers that come and go *)
Lemma lists_free_loose s u f L B l b :
  lists s u f ((l, b) :: L) B ->
  exists s', free_node bhdr (Some l) s = Ok (tt, s') /\ lists s' u f L B /\ quiet s s'.
Proof.
  intros (c & HS & Hu & HL). destruct (shape_block _ _ l b HS) as (nd & E & Eb); [cbn; set_solver|]. cbn in E.
  unfold free_node. mstep ltac:(by apply dblock_ok). eexists. split; [done|]. split; [|done].
  exists c. split_and!; [|done|].
  - eapply delete_shape in HS; [exact HS|]. intros k Hk. eapply (HL l b); [set_solver|done].
  - intros x bx k Hx Hk. eapply (HL x bx); [set_solver|done].
Qed.

Lemma lists_pop_free s u f L B l fr :
  lists s u ((l, fr) :: f) L B ->
  exists s' b, mf_rem_free s = Ok (Some l, s') /\ lists s' u f ((l, b) :: L) B /\ quiet s s' /\
    fr = (b_num b, b_pc b).
Proof.
  intros (c & HS & Hu & HL). destruct (shape_free _ _ l fr HS) as (nd & E & Eb); [cbn; set_solver|]. cbn in E.
  destruct (pop_free_shape _ _ _ _ _ _ _ _ nd HS E) as (Ef & Efr & HS' & Hl).
  rewrite (rem_free_run s l nd) by done. eexists _, (block_of nd). split; [done|]. split_and!; [|done|done].
  exists c. split_and!; [exact HS'|done|].
  intros x bx k Hx Hk. apply elem_of_cons in Hx as [[= -> ->]|Hx]; [by apply Hl|]. by eapply (HL x bx).
Qed.

Lemma lists_push_free s u f L B l b :
  lists s u f ((l, b) :: L) B ->
  exists s', mf_ins_free (Some l) s = Ok (tt, s') /\
    lists s' u ((l, (b_num b, b_pc b)) :: f) L B /\ quiet s s'.
Proof.
  intros (c & HS & Hu & HL). destruct (shape_block _ _ l b HS) as (nd & E & Eb); [cbn; set_solver|]. cbn in E.
  destruct (ins_free_run s l nd E) as (s' & R & V & Q & C). exists s'. split; [done|]. split; [|by split].
  exists c. split_and!; [|done|].
  - rewrite V. replace (b_num b, b_pc b) with (free_of nd) by (by rewrite <- Eb).
    eapply (push_free_shape _ _ _ _ _ _ _ _ nd) in HS; [exact HS|done|].
    intros k Hk. eapply (HL l b); [set_solver|done].
  - intros x bx k Hx Hk. eapply (HL x bx); [set_solver|done].
Qed.

(** ** Looking a number up *)
Lemma find_hash_loop_ok s nr : forall fuel p ys,
  @dseg _ hash_links (blocks s) p ys None -> (length ys < fuel)%nat ->
  exists r, find_hash_loop fuel (first_of ys None) nr s = Ok (r, s) /\
    match r with
    | Some l => l ∈ ys /\ exists nd, blocks s !! l = Some nd /\ bh_bnum nd = nr
    | None => forall l nd, l ∈ ys -> blocks s !! l = Some nd -> bh_bnum nd <> nr
    end.
Proof.
  intros fuel p ys. revert fuel p. induction ys as [|y ys IH]; intros fuel p Hd Hf.
  { destruct fuel; [cbn in Hf; lia|]. exists None. split; [done|]. intros l nd Hl. by apply elem_of_nil in Hl. }
  destruct fuel as [|fuel]; [cbn in Hf; lia|]. cbn [length] in Hf.
  destruct Hd as [(nd & E & _ & En) Hd]. cbn [first_of find_hash_loop]. mstep ltac:(by apply dblock_ok).
  destruct (Z.eqb_spec (bh_bnum nd) nr) as [Hn|Hn].
  - exists (Some y). split; [done|]. split; [set_solver|]. eauto.
  - cbn in En. rewrite En. destruct (IH fuel (Some y) Hd) as (r & R & Hr); [lia|]. exists r. split; [done|].
    destruct r as [l|].
    + destruct Hr as [Hl Hr]. split; [set_solver|done].
    + intros l nd' [->|Hl]%elem_of_cons E'; [congruence|by eapply Hr].
Qed.

Lemma lists_find s u f L B nr :
  lists s u f L B ->
  exists r, mf_find_hash nr s = Ok (r, s) /\
    match r with
    | Some l => exists b, (l, b) ∈ u /\ b_num b = nr
    | None => forall l b, (l, b) ∈ u -> b_num b <> nr
    end.
Proof.
  intros HLs. pose proof HLs as (c & HS & Hu & HL). pose proof (hash_range nr) as Hr.
  pose proof (sh_chains _ _ HS _ Hr) as Hd. cbn in Hd.
  unfold mf_find_hash. mstep ltac:(apply mf_ok).
  mstep ltac:(apply hash_head_ok; [lia|]; apply (sh_heads _ _ HS _ Hr)).
  mstep ltac:(by eapply lists_walk).
  destruct (find_hash_loop_ok s nr (Datatypes.S (length u + (length f + length L))) None (c (MEMHASH nr)) Hd)
    as (r & R & Hres).
  { pose proof (dll_length (H := hash_links) _ _ (sh_chain_nodup _ _ HS _ Hr) Hd) as Hlen. cbn in Hlen.
    rewrite (lists_size _ _ _ _ _ HLs) in Hlen. lia. }
  exists r. split; [exact R|]. destruct r as [l|].
  - destruct Hres as (Hl & nd & E & En). destruct (sh_chain_in _ _ HS _ _ Hr Hl) as (b & Hin & Eb). cbn in Hin.
    apply elem_of_app in Hin as [Hin|Hin]; [|by eapply (HL l b) in Hl].
    exists b. split; [done|]. pose proof (sh_blocks _ _ HS l b) as E'. cbn in E'.
    rewrite E in E'. specialize (E' ltac:(set_solver)). injection E' as <-. done.
  - intros l b Hin Hb. pose proof (sh_blocks _ _ HS l b ltac:(cbn; set_solver)) as E. cbn in E.
    destruct (blocks s !! l) as [nd|] eqn:End; [|done]. injection E as Eb.
    eapply (Hres l nd); [|done|by rewrite <- Hb, <- Eb]. rewrite <- Hb. by apply Hu.
Qed.

(** ** Taking a number for [pc] pages *)
Definition take_num (pc max : Z) f : Z * list (loc * (Z * Z)) * Z :=
  match f with
  | (l, (n, p)) :: f' =>
      if p <? pc then (max, f, max + pc)
      else if p >? pc then (n, (l, (n + pc, p - pc)) :: f', max)
      else (n, f', max)
  | [] => (max, f, max + pc)
  end.

Definition core_max (x : Z) (s : mfs) : mfs := set_mfp (set_mf_blocknr_max x (mfp s)) s.

Lemma core_max_same s : core_max (mf_blocknr_max (mfp s)) s = s.
Proof. by destruct s as [[] ? ? ? ? ? ? ?]. Qed.

Lemma new_bnum_ok s u f L B pc :
  lists s u f L B ->
  let '(n, f', max') := take_num pc (mf_blocknr_max (mfp s)) f in
  exists s', new_bnum pc s = Ok (n, s') /\ lists s' u f' L B /\
    core s' = core_max max' (core s) /\ calls s' = calls s.
Proof.
  intros HL. unfold new_bnum, take_num. pose proof (lists_free_first _ _ _ _ _ HL) as Ef.
  destruct f as [|[l [n p]] f].
  { cbn in Ef. mstep ltac:(apply mf_ok). rewrite Ef. mstep ltac:(reflexivity).
    mstep ltac:(apply modmf_ok). eexists. split; [done|]. split; [|done]. by eapply lists_view, HL. }
  cbn in Ef. destruct (lists_free _ _ _ _ _ l (n, p) HL) as (nd & E & Efr); [set_solver|].
  injection Efr as En Ep.
  assert (R : forall X (k : option bhdr -> M mfs cfault X),
    mbind k (x ← deref (V := bhdr) (Some l); mret (if bh_page_count x.2 >=? pc then Some x.2 else None)) s =
    k (if p >=? pc then Some nd else None) s).
  { intros X k. mstep ltac:(mstep ltac:(by apply dblock_ok); reflexivity). by rewrite Ep. }
  rewrite Z.geb_leb in R. destruct (Z.ltb_spec p pc) as [Hp|Hp].
  { mstep ltac:(apply mf_ok). rewrite Ef, R. destruct (Z.leb_spec pc p); [lia|].
    mstep ltac:(apply modmf_ok). eexists. split; [done|]. split; [|done]. by eapply lists_view, HL. }
  destruct (Z.gtb_spec p pc) as [Hgt|Hgt].
  - destruct (lists_update_free s u f L B l (n, p) (n + pc, p) (fun b => set_bh_bnum (bh_bnum b + pc) b))
      as (s1 & R1 & HL1 & Q1); [done|done| |].
    { intros nd' [= E1 E2]. unfold free_of. cbn. by rewrite E1, E2. }
    destruct (lists_update_free s1 u f L B l (n + pc, p) (n + pc, p - pc)
                (fun b => set_bh_page_count (bh_page_count b - pc) b)) as (s2 & R2 & HL2 & Q2); [done|done| |].
    { intros nd' [= E1 E2]. unfold free_of. cbn. by rewrite E1, E2. }
    exists s2. split_and!; [|done| |].
    + mstep ltac:(apply mf_ok). rewrite Ef, R. destruct (Z.leb_spec pc p); [|lia].
      rewrite Ep. destruct (Z.gtb_spec p pc); [|lia].
      mstep ltac:(mstep ltac:(exact R1); exact R2). by rewrite En.
    + destruct Q1 as [Q1 C1], Q2 as [Q2 C2]. rewrite Q2, Q1. symmetry. exact (core_max_same (core s)).
    + destruct Q1 as [Q1 C1], Q2 as [Q2 C2]. congruence.
  - destruct (lists_pop_free s u f L B l (n, p)) as (s1 & b & R1 & HL1 & Q1 & _); [done|].
    destruct (lists_free_loose s1 u f L B l b HL1) as (s2 & R2 & HL2 & Q2).
    exists s2. split_and!; [|done| |].
    + mstep ltac:(apply mf_ok). rewrite Ef, R. destruct (Z.leb_spec pc p); [|lia].
      rewrite Ep. destruct (Z.gtb_spec p pc); [lia|].
      mstep ltac:(mstep ltac:(exact R1); exact R2). by rewrite En.
    + destruct Q1 as [Q1 C1], Q2 as [Q2 C2]. rewrite Q2, Q1. symmetry. exact (core_max_same (core s)).
    + destruct Q1 as [Q1 C1], Q2 as [Q2 C2]. congruence.
Qed.

(** ** The translation lists *)
Record tshape (heads : list (option loc)) (T : gmap loc nr_trans) (X : list loc) (pend : gmap Z Z)
    (tr : Z -> list (loc * (Z * Z))) : Prop := {
  ts_heads k : 0 <= k < MEMHASHSIZE -> heads !! Z.to_nat k = Some (first_of (tr k).*1 None);
  ts_chains k : 0 <= k < MEMHASHSIZE -> @dll _ trans_links T (tr k).*1;
  ts_nodup k : 0 <= k < MEMHASHSIZE -> NoDup (tr k).*1 /\ NoDup (fst ∘ snd <$> tr k);
  ts_nodes k l o n : 0 <= k < MEMHASHSIZE -> (l, (o, n)) ∈ tr k ->
    trans_of <$> T !! l = Some (o, n) /\ MEMHASH o = k;
  ts_pend o n : pend !! o = Some n <-> exists l, (l, (o, n)) ∈ tr (MEMHASH o);
  ts_dom l : l ∈ dom T <-> l ∈ X \/ exists k, 0 <= k < MEMHASHSIZE /\ l ∈ (tr k).*1;
  ts_extra k l : 0 <= k < MEMHASHSIZE -> l ∈ (tr k).*1 -> l ∉ X
}.

Definition translations (s : mfs) (X : list loc) (pend : gmap Z Z) : Prop :=
  exists tr, tshape (mf_trans (mfp s)) (transes s) X pend tr.

(** [core] without the translation lists. *)
Definition tcore (s : mfs) : mfs :=
  let s := core s in set_transes ∅ (set_mfp (set_mf_trans [] (mfp s)) s).

Lemma core_tcore s s' : core s' = core s -> tcore s' = tcore s.
Proof. unfold tcore. by intros ->. Qed.

Lemma translations_core s s' X pend : core s' = core s -> translations s X pend -> translations s' X pend.
Proof.
  intros E. unfold translations. 
  by rewrite (core_field (fun s => mf_trans (mfp s)) s s'), (core_field transes s s').
Qed.

Lemma ts_unique heads T X pend tr k k' l :
  tshape heads T X pend tr -> 0 <= k < MEMHASHSIZE -> 0 <= k' < MEMHASHSIZE ->
  l ∈ (tr k).*1 -> l ∈ (tr k').*1 -> k = k'.
Proof.
  intros HT Hk Hk' [[o n] H1]%fst_elem [[o' n'] H2]%fst_elem.
  destruct (ts_nodes _ _ _ _ _ HT k l o n Hk H1) as [E1 <-].
  destruct (ts_nodes _ _ _ _ _ HT k' l o' n' Hk' H2) as [E2 <-]. congruence.
Qed.

Definition set_tr (k : Z) (xs : list (loc * (Z * Z))) (tr : Z -> list (loc * (Z * Z))) :=
  fun k' => if k' =? k then xs else tr k'.

Lemma set_tr_cases k xs tr k' (P : list (loc * (Z * Z)) -> Prop) :
  (k' = k -> P xs) -> (k' <> k -> P (tr k')) -> P (set_tr k xs tr k').
Proof. intros H1 H2. unfold set_tr. destruct (Z.eqb_spec k' k); auto. Qed.

Lemma tshape_insert heads T pend tr np o n :
  tshape heads T [np] pend tr -> trans_of <$> T !! np = Some (o, n) -> pend !! o = None ->
  tshape (<[Z.to_nat (MEMHASH o) := Some np]> heads)
    (@dpush _ trans_links np (first_of (tr (MEMHASH o)).*1 None) T) [] (<[o := n]> pend)
    (set_tr (MEMHASH o) ((np, (o, n)) :: tr (MEMHASH o)) tr).
Proof.
  intros HT E Ep. pose proof HT as [Hh Hc Hnd Hn Hp Hd Hx]. pose proof (hash_range o) as Hr.
  set (k := MEMHASH o) in *. set (T' := dpush _ _ _).
  assert (Hnp : np ∉ (tr k).*1) by (intros Hin; apply (Hx k np Hr Hin); set_solver).
  assert (Er : @erased _ trans_links T' = @erased _ trans_links T) by apply erased_dpush.
  assert (Et : forall x, trans_of <$> T' !! x = trans_of <$> T !! x).
  { intros x. by apply (@erased_lookup _ trans_links _ trans_of). }
  split.
  - intros k' Hk'. apply set_tr_cases; intros Hkk.
    + subst k'. rewrite list_lookup_insert_eq; [done|]. eapply lookup_lt_Some. by apply Hh.
    + rewrite list_lookup_insert_ne by lia. by apply Hh.
  - intros k' Hk'. apply set_tr_cases; intros Hkk.
    + cbn. apply (@dpush_dll _ trans_links _); [destruct (T !! np); [by eexists|done]|done|by apply Hnd|by apply Hc].
    + eapply dseg_ext; [|by apply Hc]. intros x Hx'. f_equal. apply dpush_ne.
      * intros ->. apply (Hx k' np Hk' Hx'). set_solver.
      * intros Hy%first_of_elem. apply Hkk. by eapply ts_unique.
  - intros k' Hk'. apply set_tr_cases; intros Hkk; [|by apply Hnd].
    destruct (Hnd k Hr) as [N1 N2]. split; cbn; apply NoDup_cons; split; try done.
    intros [[l' [o' n']] [-> Hin]]%list_elem_of_fmap. cbn in *.
    assert (pend !! o' = Some n') by (apply Hp; by exists l'). congruence.
  - intros k' l' o' n' Hk'. rewrite Et. apply set_tr_cases; intros Hkk; [|by apply Hn].
    subst k'. intros [[= -> -> ->]|Hin]%elem_of_cons; [done|by apply Hn].
  - intros o' n'. destruct (decide (o' = o)) as [->|Ho].
    + rewrite lookup_insert_eq. fold k. unfold set_tr. rewrite Z.eqb_refl. split.
      * intros [= ->]. exists np. set_solver.
      * intros [l' [[= -> ->]|Hin]%elem_of_cons]; [done|].
        assert (pend !! o = Some n') by (apply Hp; by exists l'). congruence.
    + rewrite lookup_insert_ne by done. rewrite Hp. apply set_tr_cases; intros Hkk; [|done].
      rewrite Hkk. split; intros [l' Hin]; exists l'; set_solver.
  - intros l'. rewrite (erased_dom (H := trans_links) _ _ Er), Hd. split.
    + intros [->%list_elem_of_singleton|[k' [Hk' Hin]]]; right.
      * exists k. split; [done|]. unfold set_tr. rewrite Z.eqb_refl. cbn. set_solver.
      * exists k'. split; [done|]. apply set_tr_cases; intros Hkk; [|done]. subst k'. cbn. set_solver.
    + intros [Hl|[k' [Hk' Hin]]]; [by apply elem_of_nil in Hl|]. revert Hin.
      apply set_tr_cases; intros Hkk; [|eauto]. cbn. intros [->|Hin]%elem_of_cons; [set_solver|]. eauto.
  - intros k' l' _ _. by intros ?%elem_of_nil.
Qed.

Lemma tshape_delete heads T pend tr l o n t xs ys :
  tshape heads T [] pend tr -> tr (MEMHASH o) = xs ++ (l, (o, n)) :: ys -> T !! l = Some t ->
  neighbours T l (nt_prev t) (nt_next t) /\
  tshape (match nt_prev t with None => <[Z.to_nat (MEMHASH o) := nt_next t]> heads | Some _ => heads end)
    (delete l (@dunlink _ trans_links t T)) [] (delete o pend) (set_tr (MEMHASH o) (xs ++ ys) tr).
Proof.
  intros HT Ek E. pose proof HT as [Hh Hc Hnd Hn Hp Hd Hx]. pose proof (hash_range o) as Hr.
  set (k := MEMHASH o) in *. set (T' := dunlink _ _).
  destruct (Hnd k Hr) as [N1 N2]. pose proof (Hc k Hr) as Dk. pose proof (Hh k Hr) as Hhk.
  rewrite Ek in N1, N2, Dk, Hhk. rewrite fmap_app in N1, Dk, Hhk. rewrite fmap_app in N2.
  cbn in N1, N2, Dk, Hhk.
  destruct (dll_neighbours trans_links _ _ _ _ _ _ E N1 Dk) as [Hnb Hin].
  destruct (@dunlink_dll _ trans_links _ _ _ _ _ _ E N1 Dk) as (Ep & En & HU & _). cbn in Ep, En.
  split; [done|].
  assert (Er : @erased _ trans_links T' = @erased _ trans_links T) by apply erased_dunlink.
  assert (Et : forall x, trans_of <$> T' !! x = trans_of <$> T !! x).
  { intros x. by apply (@erased_lookup _ trans_links _ trans_of). }
  assert (Hl : forall k', 0 <= k' < MEMHASHSIZE -> k' <> k -> l ∉ (tr k').*1).
  { intros k' Hk' Hkk Hin'. apply Hkk. eapply (ts_unique _ _ _ _ _ _ _ l HT); [done|done|done|].
    rewrite Ek, fmap_app. cbn. set_solver. }
  assert (Hl' : l ∉ (xs ++ ys).*1).
  { rewrite fmap_app. rewrite <- Permutation_middle in N1. by apply NoDup_cons in N1 as [N1 _]. }
  assert (Ho : o ∉ (fst ∘ snd <$> xs ++ ys)).
  { rewrite fmap_app. rewrite <- Permutation_middle in N2. by apply NoDup_cons in N2 as [N2 _]. }
  split.
  - intros k' Hk'. apply set_tr_cases; intros Hkk.
    + subst k'. rewrite Ep, En, fmap_app, first_of_app. unfold last_of.
      destruct xs as [|[y ?] xs _] using rev_ind.
      * cbn. rewrite list_lookup_insert_eq; [done|]. by eapply lookup_lt_Some.
      * rewrite fmap_app. cbn. rewrite last_snoc, Hhk, fmap_app, !first_of_app. by destruct (xs.*1).
    + destruct (nt_prev t); [by apply Hh|]. rewrite list_lookup_insert_ne by lia. by apply Hh.
  - intros k' Hk'. apply set_tr_cases; intros Hkk.
    + rewrite fmap_app. eapply dseg_ext; [|exact HU]. intros x Hx'. rewrite lookup_delete_ne; [done|].
      intros ->. apply Hl'. by rewrite fmap_app.
    + eapply dseg_ext; [|by apply Hc]. intros x Hx'. rewrite lookup_delete_ne by (intros ->; by apply (Hl k')).
      f_equal. assert (Hxk : x ∉ xs.*1 ++ ys.*1).
      { intros Hy. apply Hkk. eapply (ts_unique _ _ _ _ _ _ _ x HT); [done|done|done|].
        rewrite Ek, fmap_app. cbn. set_solver. }
      apply dunlink_ne; intros Hy; apply Hxk; apply Hin; auto.
  - intros k' Hk'. apply set_tr_cases; intros Hkk; [|by apply Hnd]. rewrite !fmap_app.
    rewrite <- Permutation_middle in N1. rewrite <- Permutation_middle in N2.
    apply NoDup_cons in N1 as [_ N1]. by apply NoDup_cons in N2 as [_ N2].
  - intros k' l' o' n' Hk' Hin'. assert (Hin2 : (l', (o', n')) ∈ tr k' /\ l' <> l).
    { revert Hin'. apply set_tr_cases; intros Hkk Hin'.
      - subst k'. split; [rewrite Ek; set_solver|]. intros ->. by apply elem_fst in Hin'.
      - split; [done|]. intros ->. apply (Hl k' Hk' Hkk). by eapply elem_fst. }
    destruct Hin2 as [Hin2 Hne]. rewrite lookup_delete_ne by done. rewrite Et. by apply Hn.
  - intros o' n'. destruct (decide (o' = o)) as [->|Hoo].
    + rewrite lookup_delete_eq. split; [done|]. fold k. unfold set_tr. rewrite Z.eqb_refl.
      intros [l' Hin']. exfalso. apply Ho. apply list_elem_of_fmap. by exists (l', (o, n')).
    + rewrite lookup_delete_ne by done. rewrite Hp. apply set_tr_cases; intros Hkk; [|done].
      rewrite Hkk, Ek. split; intros [l' Hin']; exists l'; set_solver.
  - intros l'. rewrite dom_delete, elem_of_difference, (erased_dom (H := trans_links) _ _ Er), Hd.
    rewrite elem_of_singleton. split.
    + intros [[Hnil|[k' [Hk' Hin']]] Hne]; [by apply elem_of_nil in Hnil|]. right. exists k'. split; [done|].
      apply set_tr_cases; intros Hkk; [|done]. subst k'. rewrite Ek, fmap_app in Hin'. cbn in Hin'.
      rewrite fmap_app. set_solver.
    + intros [Hnil|[k' [Hk' Hin']]]; [by apply elem_of_nil in Hnil|]. revert Hin'.
      apply set_tr_cases; intros Hkk Hin'.
      * split; [right; exists k; split; [done|]|intros ->; done]. rewrite Ek, fmap_app. cbn.
        rewrite fmap_app in Hin'. set_solver.
      * split; [eauto|]. intros ->. by apply (Hl k').
  - intros k' l' _ _. by intros ?%elem_of_nil.
Qed.

Lemma next_call_ok s : next_call s = Ok (calls s, set_calls (Datatypes.S (calls s)) s).
Proof. done. Qed.

Lemma ins_trans_ok s np t o n pend :
  translations s [np] pend -> transes s !! np = Some t -> trans_of t = (o, n) -> pend !! o = None ->
  exists s', ins_trans (Some np) (MEMHASH o) s = Ok (tt, s') /\ translations s' [] (<[o := n]> pend) /\
    view s' = view s /\ tcore s' = tcore s /\ calls s' = calls s.
Proof.
  intros [tr HT] E Et Ep. pose proof (hash_range o) as Hr.
  pose proof (ts_heads _ _ _ _ _ HT _ Hr) as Hh.
  pose proof (tshape_insert _ _ _ _ np o n HT) as HT'. rewrite E in HT'. cbn in HT'.
  rewrite Et in HT'. specialize (HT' eq_refl Ep).
  unfold ins_trans. mstep ltac:(apply mf_ok). mstep ltac:(apply hash_head_ok; [lia|done]).
  mstep ltac:(by eapply atrans_ok). mstep ltac:(apply modmf_ok).
  unfold dpush in HT'. cbn in HT'.
  destruct (first_of (tr (MEMHASH o)).*1 None) as [y|] eqn:Ey.
  - apply first_of_elem in Ey. assert (Hy : y <> np).
    { intros ->. apply (ts_extra _ _ _ _ _ HT _ np Hr Ey). set_solver. }
    assert (is_Some (transes s !! y)) as [ty Ety].
    { apply elem_of_dom. apply (ts_dom _ _ _ _ _ HT). eauto. }
    mstep ltac:(eapply atrans_ok; mlook; exact Ety).
    erewrite atrans_ok by (mlook; by rewrite E). eexists. split; [reflexivity|].
    split_and!; try done. eexists. cbn. rewrite alter_alter_ne by done.
    rewrite alter_alter_eq. exact HT'.
  - mstep ltac:(reflexivity). erewrite atrans_ok by (mlook; by rewrite E). eexists. split; [reflexivity|].
    split_and!; try done. eexists. cbn. rewrite alter_alter_eq. exact HT'.
Qed.

Lemma translations_alloc s l t pend :
  translations s [] pend -> transes s !! l = None ->
  translations (set_transes (<[l := t]> (transes s)) s) [l] pend.
Proof.
  intros [tr [Hh Hc Hnd Hn Hp Hd Hx]] E. exists tr.
  assert (Hne : forall k x, 0 <= k < MEMHASHSIZE -> x ∈ (tr k).*1 -> x <> l).
  { intros k x Hk Hin ->. assert (Hdl : l ∈ dom (transes s)) by (apply Hd; eauto).
    apply elem_of_dom in Hdl as [? Hdl]. congruence. }
  split; cbn; try done.
  - intros k Hk. eapply dseg_ext; [|by apply Hc]. intros x Hin.
    rewrite lookup_insert_ne; [done|]. by apply not_eq_sym, (Hne k).
  - intros k x o n Hk Hin. rewrite lookup_insert_ne; [by apply Hn|].
    apply not_eq_sym, (Hne k); [done|]. by eapply elem_fst.
  - intros x. rewrite dom_insert, elem_of_union, elem_of_singleton, Hd. set_solver.
  - intros k x Hk Hin ->%list_elem_of_singleton. by apply (Hne k l).
Qed.

Lemma translations_alter s np fn pend :
  translations s [np] pend -> translations (set_transes (alter fn np (transes s)) s) [np] pend.
Proof.
  intros [tr [Hh Hc Hnd Hn Hp Hd Hx]]. exists tr.
  assert (Hne : forall k x, 0 <= k < MEMHASHSIZE -> x ∈ (tr k).*1 -> np <> x).
  { intros k x Hk Hin ->. apply (Hx k x Hk Hin). set_solver. }
  split; cbn; try done.
  - intros k Hk. eapply dseg_ext; [|by apply Hc]. intros x Hin. rewrite lookup_alter_ne; [done|]. by apply (Hne k).
  - intros k x o n Hk Hin. rewrite lookup_alter_ne; [by apply Hn|]. apply (Hne k); [done|]. by eapply elem_fst.
  - intros x. by rewrite dom_alter, Hd.
Qed.

(** What [mf_trans_add] does to a block with a negative number. *)
Definition trans_added (s s' : mfs) u1 u2 f B l b (pend : gmap Z Z) : Prop :=
  let '(n, f', max') := take_num (b_pc b) (mf_blocknr_max (mfp s)) f in
  lists s' (u1 ++ (l, MkBlock n (b_pc b) (b_flags b) (b_data b)) :: u2) f' [] B /\
  translations s' [] (<[b_num b := n]> pend) /\
  tcore s' = core_max max' (tcore s) /\ calls s' = Datatypes.S (calls s).

Lemma core_max_tcore s s' x : core s' = core_max x (core s) -> tcore s' = core_max x (tcore s).
Proof. unfold tcore. by intros ->. Qed.

Lemma mf_trans_add_ok s u1 u2 f B l b pend :
  lists s (u1 ++ (l, b) :: u2) f [] B -> translations s [] pend ->
  b_num b < 0 -> pend !! b_num b = None ->
  exists s', mf_trans_add (Some l) s = Ok (alloc_struct (calls s), s') /\
    (if alloc_struct (calls s) then trans_added s s' u1 u2 f B l b pend
     else s' = set_calls (Datatypes.S (calls s)) s).
Proof.
  intros HL HT Hneg Hp. destruct (lists_block _ _ _ _ _ l b HL) as (nd & E & Eb); [set_solver|].
  assert (En : bh_bnum nd = b_num b) by (by rewrite <- Eb). assert (Epc : bh_page_count nd = b_pc b) by (by rewrite <- Eb).
  assert (R0 : forall X (k : loc * bhdr -> M mfs cfault X), mbind k (deref (V := bhdr) (Some l)) s = k (l, nd) s).
  { intros X k. by mstep ltac:(by apply dblock_ok). }
  unfold mf_trans_add. rewrite R0. cbn [snd]. rewrite En, Epc, Z.geb_leb. destruct (Z.leb_spec 0 (b_num b)); [lia|].
  set (s0 := set_calls (Datatypes.S (calls s)) s).
  assert (HL0 : lists s0 (u1 ++ (l, b) :: u2) f [] B) by (by eapply lists_view, HL).
  destruct (alloc_struct (calls s)) eqn:Ea.
  2: { eexists. split; [|reflexivity]. mstep ltac:(unfold alloc_node; mstep ltac:(apply next_call_ok); rewrite Ea; reflexivity). done. }
  set (np := new_loc (transes s)). pose proof (new_loc_fresh (transes s)) as Hnp. fold np in Hnp.
  set (s1 := set_transes (<[np := uninit_trans]> (transes s)) s0).
  assert (R1 : alloc_node uninit_trans s = Ok (Some np, s1)).
  { unfold alloc_node. mstep ltac:(apply next_call_ok). rewrite Ea. done. }
  assert (HT1 : translations s1 [np] pend) by (by apply (translations_alloc s0)).
  assert (HL1 : lists s1 (u1 ++ (l, b) :: u2) f [] B) by (by eapply lists_view, HL).
  pose proof (new_bnum_ok _ _ _ _ _ (b_pc b) HL1) as HN. cbn in HN.
  unfold trans_added. destruct (take_num _ _ _) as [[n f'] max'].
  destruct HN as (s2 & R2 & HL2 & C2 & K2).
  assert (HT2 : translations s2 [np] pend).
  { destruct HT1 as [tr HT1]. exists tr. replace (mf_trans (mfp s2)) with (mf_trans (mfp (core s2))) by done.
    replace (transes s2) with (transes (core s2)) by done. rewrite C2. exact HT1. }
  assert (E2 : transes s2 !! np = Some uninit_trans).
  { replace (transes s2) with (transes (core s2)) by done. rewrite C2. cbn. by rewrite lookup_insert_eq. }
  set (fill := fun t => set_nt_new_bnum n (set_nt_old_bnum (b_num b) t)).
  set (s3 := set_transes (alter fill np (transes s2)) s2).
  assert (HT3 : translations s3 [np] pend) by (by apply translations_alter).
  assert (HL3 : lists s3 (u1 ++ (l, b) :: u2) f' [] B) by (by eapply lists_view, HL2).
  destruct (lists_rehash s3 u1 u2 f' [] B l b n HL3) as (s4 & s5 & s6 & R4 & R5 & R6 & HL6 & Q6).
  assert (HT6 : translations s6 [np] pend) by (by eapply translations_core; [apply Q6|]).
  assert (E6 : transes s6 !! np = Some (fill uninit_trans)).
  { rewrite (quiet_field transes s3 s6) by done. cbn. by rewrite lookup_alter_eq, E2. }
  destruct (ins_trans_ok s6 np (fill uninit_trans) (b_num b) n pend) as (s7 & R7 & HT7 & V7 & C7 & K7); [done..|].
  exists s7. split; [|split_and!].
  - mstep ltac:(exact R1). mstep ltac:(exact R2). mstep ltac:(by apply atrans_ok with (nd := uninit_trans)).
    mstep ltac:(exact R4). mstep ltac:(exact R5). mstep ltac:(exact R6). mstep ltac:(exact R7). done.
  - by eapply lists_view, HL6.
  - done.
  - rewrite C7. destruct Q6 as [Q6 _]. rewrite (core_tcore _ _ Q6).
    rewrite <- (core_max_tcore s1 s2) by done. done.
  - rewrite K7. destruct Q6 as [_ ->]. cbn. by rewrite K2.
Qed.

Lemma find_trans_ok s o : forall fuel p (ys : list (loc * (Z * Z))),
  @dseg _ trans_links (transes s) p ys.*1 None ->
  (forall l on, (l, on) ∈ ys -> trans_of <$> transes s !! l = Some on) -> (length ys < fuel)%nat ->
  exists r, find_trans fuel (first_of ys.*1 None) o s = Ok (r, s) /\
    match r with
    | Some l => exists n, (l, (o, n)) ∈ ys
    | None => forall l on, (l, on) ∈ ys -> on.1 <> o
    end.
Proof.
  intros fuel p ys. revert fuel p. induction ys as [|[y [o' n']] ys IH]; intros fuel p Hd Hn Hf.
  { destruct fuel; [cbn in Hf; lia|]. exists None. split; [done|]. intros l nd Hl. by apply elem_of_nil in Hl. }
  destruct fuel as [|fuel]; [cbn in Hf; lia|]. cbn [length] in Hf.
  destruct Hd as [(t & E & _ & En) Hd]. cbn in E. cbn [fmap list_fmap first_of fst find_trans].
  pose proof (Hn y (o', n') (list_elem_of_here _ _)) as Ht. rewrite E in Ht. injection Ht as Eo Enn.
  mstep ltac:(by apply dtrans_ok). rewrite Eo. destruct (Z.eqb_spec o' o) as [->|Ho].
  - exists (Some y). split; [done|]. exists n'. set_solver.
  - cbn in En. rewrite En. destruct (IH fuel (Some y) Hd) as (r & R & Hr).
    { intros l on Hin. apply Hn. set_solver. } { lia. }
    exists r. split; [done|]. destruct r as [l|].
    + destruct Hr as [n Hr]. exists n. set_solver.
    + intros l on [[= -> ->]|Hin]%elem_of_cons; [done|]. by eapply Hr.
Qed.

Definition core_neg (x : Z) (s : mfs) : mfs := set_mfp (set_mf_neg_count x (mfp s)) s.

Lemma mf_trans_del_ok s pend o :
  translations s [] pend ->
  exists s', mf_trans_del o s = Ok (default o (pend !! o), s') /\ translations s' [] (delete o pend) /\
    view s' = view s /\ calls s' = calls s /\
    tcore s' = match pend !! o with
               | Some _ => core_neg (mf_neg_count (mfp s) - 1) (tcore s)
               | None => tcore s
               end /\
    (pend !! o = None -> s' = s).
Proof.
  intros [tr HT]. pose proof (hash_range o) as Hr.
  pose proof (ts_heads _ _ _ _ _ HT _ Hr) as Hh. pose proof (ts_chains _ _ _ _ _ HT _ Hr) as Hc.
  destruct (ts_nodup _ _ _ _ _ HT _ Hr) as [N1 N2].
  assert (W : walk_fuel (V := nr_trans) s = Ok (Datatypes.S (size (transes s)), s)) by done.
  destruct (find_trans_ok s o (Datatypes.S (size (transes s))) None (tr (MEMHASH o)) Hc) as (r & R & Hres).
  { intros l [o' n'] Hin. by apply (ts_nodes _ _ _ _ _ HT _ l o' n' Hr Hin). }
  { pose proof (dll_length (H := trans_links) _ _ N1 Hc) as Hlen. rewrite length_fmap in Hlen. lia. }
  unfold mf_trans_del. mstep ltac:(apply mf_ok). mstep ltac:(apply hash_head_ok; [lia|done]).
  mstep ltac:(exact W). mstep ltac:(exact R). destruct r as [l|].
  2: { assert (Ep : pend !! o = None).
    { destruct (pend !! o) as [n|] eqn:E; [|done]. apply (ts_pend _ _ _ _ _ HT) in E as [l Hin].
      by apply Hres in Hin. }
    rewrite Ep. exists s. rewrite delete_id by done. split_and!; try done. by exists tr. }
  destruct Hres as [n Hin]. assert (Ep : pend !! o = Some n) by (apply (ts_pend _ _ _ _ _ HT); by exists l).
  destruct (ts_nodes _ _ _ _ _ HT _ l o n Hr Hin) as [Et _].
  destruct (transes s !! l) as [t|] eqn:E; [|done]. injection Et as Eo En.
  apply list_elem_of_split in Hin as (xs & ys & Ek).
  destruct (tshape_delete _ _ _ _ l o n t xs ys HT Ek E) as [(Hnp & Hnn & Hnpn) HT'].
  unfold dunlink in HT'. cbn [lnext lprev set_lnext set_lprev trans_links] in HT'.
  rewrite Ep. cbn [default].
  mstep ltac:(apply modmf_ok). mstep ltac:(by apply (dtrans_ok _ l t)).
  destruct (nt_prev t) as [p|] eqn:Ep'; [destruct (Hnp p eq_refl) as [Hpl [tp Etp]]|];
    (destruct (nt_next t) as [m|] eqn:En'; [destruct (Hnn m eq_refl) as [Hml [tm Etm]]|]).
  - assert (p <> m) as Hpm by (by apply Hnpn).
    mstep ltac:(by eapply atrans_ok). mstep ltac:(eapply atrans_ok; mlook; exact Etm).
    unfold free_node. mstep ltac:(mstep ltac:(eapply dtrans_ok; mlook; exact E); reflexivity).
    rewrite En. eexists. split; [reflexivity|]. split_and!; try done. eexists. exact HT'.
  - mstep ltac:(by eapply atrans_ok). mstep ltac:(reflexivity).
    unfold free_node. mstep ltac:(mstep ltac:(eapply dtrans_ok; mlook; exact E); reflexivity).
    rewrite En. eexists. split; [reflexivity|]. split_and!; try done. eexists. exact HT'.
  - mstep ltac:(apply modmf_ok). mstep ltac:(eapply atrans_ok; mlook; exact Etm).
    unfold free_node. mstep ltac:(mstep ltac:(eapply dtrans_ok; mlook; exact E); reflexivity).
    rewrite En. eexists. split; [reflexivity|]. split_and!; try done. eexists. exact HT'.
  - mstep ltac:(apply modmf_ok). mstep ltac:(reflexivity).
    unfold free_node. mstep ltac:(mstep ltac:(eapply dtrans_ok; mlook; exact E); reflexivity).
    rewrite En. eexists. split; [reflexivity|]. split_and!; try done. eexists. exact HT'.
Qed.
End ops.
