(* ===== verification/MemfileStore.v ===== *)
(** * The blocks of a memory file and the bytes of its file

    The invariant [good]: the blocks in memory, the blocks that are only in
    the file ([out], with their bytes) and the free ones occupy different
    pages; a block that may be given up without writing is in the file as it
    is in memory.  [holds h bs] says that the block a client knows by the
    number [h] has the contents [bs], wherever it is and whatever number it
    has got since. *)
From S2P Require Import Prelude Heap Dll Memfile MemfileProofs MemfileOps.
From stdpp Require Import strings.
Open Scope Z_scope.

(** ** Extents: first page and number of pages *)
Definition disj (e1 e2 : Z * Z) : Prop :=
  e1.1 < 0 \/ e2.1 < 0 \/ e1.1 + e1.2 <= e2.1 \/ e2.1 + e2.2 <= e1.1.

Fixpoint apart (es : list (Z * Z)) : Prop :=
  match es with [] => True | e :: es' => Forall (disj e) es' /\ apart es' end.

Lemma disj_sym e1 e2 : disj e1 e2 -> disj e2 e1.
Proof. unfold disj. lia. Qed.

#[export] Instance apart_perm : Proper ((≡ₚ) ==> iff) apart.
Proof.
  assert (Hp : forall es es', es ≡ₚ es' -> apart es -> apart es').
  { induction 1 as [|e es es' HP IH|e1 e2 es|es1 es2 es3 _ IH1 _ IH2]; cbn.
    - done.
    - intros [HF Ha]. split; [by rewrite <- HP|by apply IH].
    - rewrite !Forall_cons. intros [[Hd HF1] [HF2 Ha]]. split_and!; try done. by apply disj_sym.
    - auto. }
  intros es es' HP. split; apply Hp; done.
Qed.

Lemma apart_cons e es : apart (e :: es) <-> Forall (disj e) es /\ apart es.
Proof. done. Qed.

Lemma apart_disj es e1 e2 rest : es ≡ₚ e1 :: e2 :: rest -> apart es -> disj e1 e2.
Proof. intros ->. cbn. rewrite Forall_cons. naive_solver. Qed.

(** ** Parts of the file *)
Lemma lookup_file_write d off bs i :
  0 <= off <= zlen d ->
  file_write d off bs !! i =
    (if decide (off <= Z.of_nat i < off + zlen bs) then bs !! Z.to_nat (Z.of_nat i - off) else d !! i).
Proof.
  unfold zlen. intros Ho. unfold file_write, overwrite, ztake, zdrop, zlen.
  replace (Z.to_nat (off - Z.of_nat (length d))) with 0%nat by lia. cbn [replicate]. rewrite app_nil_r.
  destruct (decide _).
  - rewrite lookup_app_r by (rewrite length_take; lia).
    rewrite lookup_app_l by (rewrite length_take; lia). f_equal. rewrite length_take. lia.
  - destruct (decide (Z.of_nat i < off)).
    + rewrite lookup_app_l by (rewrite length_take; lia). by rewrite lookup_take_lt by lia.
    + rewrite lookup_app_r by (rewrite length_take; lia).
      rewrite lookup_app_r by (rewrite length_take; lia).
      rewrite lookup_drop, length_take. f_equal. lia.
Qed.

Lemma zlen_file_write d off bs :
  0 <= off <= zlen d -> zlen (file_write d off bs) = Z.max (zlen d) (off + zlen bs).
Proof.
  intros Ho. unfold file_write, overwrite. pose proof (zlen_nonneg bs).
  replace (Z.to_nat (off - zlen d)) with 0%nat by lia. cbn [replicate]. rewrite app_nil_r, !zlen_app.
  rewrite zlen_ztake by lia. destruct (decide (off + zlen bs <= zlen d)).
  - rewrite zlen_zdrop by lia. lia.
  - rewrite zdrop_all by lia. rewrite zlen_nil. lia.
Qed.

Lemma slice_file_write d off bs :
  0 <= off <= zlen d -> slice off (zlen bs) (file_write d off bs) = bs.
Proof.
  intros Ho. pose proof (zlen_nonneg bs). apply list_eq. intros i. rewrite lookup_slice by lia.
  destruct (decide _) as [Hi|Hi].
  - rewrite lookup_file_write by done. rewrite decide_True by (rewrite Z2Nat.id; lia). f_equal. lia.
  - symmetry. apply lookup_ge_None. unfold zlen in *. lia.
Qed.

Lemma slice_file_write_other d off bs o n :
  0 <= off <= zlen d -> 0 <= o -> 0 <= n -> o + n <= off \/ off + zlen bs <= o ->
  slice o n (file_write d off bs) = slice o n d.
Proof.
  intros Ho H1 H2 H3. apply list_eq. intros i. rewrite !lookup_slice by done.
  destruct (decide _) as [Hi|Hi]; [|done]. rewrite lookup_file_write by done.
  rewrite decide_False; [done|]. rewrite Z2Nat.id; lia.
Qed.

(** ** Flags *)
Section store.
Context `{VM : Vim} `{VL : !VimLaws}.
Implicit Types (u L : list (loc * mblock)) (f : list (loc * (Z * Z))) (out : list (Z * list Z)).

Definition is_locked (fl : Z) : bool := negb (Z.land fl BH_LOCKED =? 0).
Definition is_dirty (fl : Z) : bool := negb (Z.land fl BH_DIRTY =? 0).

Lemma land_pow2 fl i : 0 <= i -> negb (Z.land fl (2 ^ i) =? 0) = Z.testbit fl i.
Proof.
  intros Hi. destruct (Z.eqb_spec (Z.land fl (2 ^ i)) 0) as [E|E]; cbn.
  - apply (f_equal (fun z => Z.testbit z i)) in E.
    rewrite Z.land_spec, Z.pow2_bits_true, Z.bits_0, andb_true_r in E by done. by rewrite E.
  - destruct (Z.testbit fl i) eqn:Et; [done|]. destruct E. apply Z.bits_inj. intros j.
    rewrite Z.land_spec, Z.bits_0, Z.pow2_bits_eqb by done.
    destruct (Z.eqb_spec i j) as [<-|]; [by rewrite Et|]. by rewrite andb_false_r.
Qed.

Lemma flag_laws fl :
  is_dirty (Z.land fl (Z.lnot BH_DIRTY)) = false /\ is_locked (Z.land fl (Z.lnot BH_DIRTY)) = is_locked fl /\
  is_locked (Z.land fl (Z.lnot BH_LOCKED)) = false /\ is_dirty (Z.land fl (Z.lnot BH_LOCKED)) = is_dirty fl /\
  is_dirty (Z.lor fl BH_DIRTY) = true /\ is_locked (Z.lor fl BH_DIRTY) = is_locked fl /\
  is_locked (Z.lor fl BH_LOCKED) = true /\ is_dirty (Z.lor fl BH_LOCKED) = is_dirty fl.
Proof.
  destruct flag_bits as (i & j & Hi & Hj & Hij & El & Ed). unfold is_locked, is_dirty. rewrite El, Ed.
  rewrite !land_pow2 by done. rewrite !Z.land_spec, !Z.lor_spec, !Z.lnot_spec by done.
  rewrite !Z.pow2_bits_true by done. rewrite !Z.pow2_bits_false by done. cbn.
  rewrite ?andb_false_r, ?andb_true_r, ?orb_false_r, ?orb_true_r. by split_and!.
Qed.

Lemma flag_zero : is_locked 0 = false /\ is_dirty 0 = false.
Proof. done. Qed.

(** ** The invariant *)
Abbreviation ps c := (mf_page_size (mfp c)).
Abbreviation infile c := (mf_infile_count (mfp c)).

Definition ext (x : loc * mblock) : Z * Z := (b_num x.2, b_pc x.2).
Definition out_ext (p : Z) (x : Z * list Z) : Z * Z := (x.1, zlen x.2 / p).
Definition extents (p : Z) u f out : list (Z * Z) := (ext <$> u) ++ (snd <$> f) ++ (out_ext p <$> out).

Definition block_ok (p : Z) (b : mblock) : Prop :=
  0 < b_pc b /\ p * b_pc b < 2 ^ 32 /\ exists bs, b_data b = BLive bs /\ zlen bs = p * b_pc b.

(** The block is in the file as it is in memory. *)
Definition on_disk (c : mfs) (b : mblock) : Prop :=
  exists bs, b_data b = BLive bs /\ 0 <= b_num b /\ b_num b + b_pc b <= infile c /\
    slice (ps c * b_num b) (zlen bs) (disk c) = bs.

Definition negs u : Z := Z.of_nat (length (filter (fun x : loc * mblock => b_num x.2 < 0) u)).

Record good (c : mfs) u f out (pend : gmap Z Z) : Prop := {
  gd_ps : 0 < ps c < 2 ^ 32;
  gd_infile : 0 <= infile c /\ infile c * ps c <= zlen (disk c);
  gd_fd : mf_fd (mfp c) < 0 -> infile c = 0;
  gd_apart : apart (extents (ps c) u f out);
  gd_below : Forall (fun e => e.1 < 0 \/ e.1 + e.2 <= mf_blocknr_max (mfp c)) (extents (ps c) u f out);
  gd_max : 0 <= mf_blocknr_max (mfp c);
  gd_used l b : (l, b) ∈ u -> block_ok (ps c) b;
  gd_free l n p : (l, (n, p)) ∈ f -> 0 <= n /\ 0 < p;
  gd_out nr bs : (nr, bs) ∈ out ->
    exists pc, 0 < pc /\ zlen bs = ps c * pc /\ ps c * pc < 2 ^ 32 /\ 0 <= nr /\ nr + pc <= infile c /\
      slice (ps c * nr) (zlen bs) (disk c) = bs;
  gd_clean l b : (l, b) ∈ u -> is_locked (b_flags b) = false -> is_dirty (b_flags b) = false -> on_disk c b;
  gd_nums : NoDup (b_num ∘ snd <$> u);
  gd_neg l b : (l, b) ∈ u -> mf_blocknr_min (mfp c) < b_num b;
  gd_min : mf_blocknr_min (mfp c) < 0;
  gd_pend o n : pend !! o = Some n ->
    mf_blocknr_min (mfp c) < o < 0 /\ 0 <= n /\ (forall l b, (l, b) ∈ u -> b_num b <> o);
  gd_count : mf_neg_count (mfp c) = negs u + Z.of_nat (size pend)
}.

Definition rep (s : mfs) u f out (pend : gmap Z Z) (B : Z) : Prop :=
  lists s u f [] B /\ translations s [] pend /\ good (core s) u f out pend.

(** ** What a client may rely on *)
Definition stored_as u out (nr : Z) (bs : list Z) : Prop :=
  (exists l b, (l, b) ∈ u /\ b_num b = nr /\ b_data b = BLive bs) \/ (nr, bs) ∈ out.

Definition holds u out (pend : gmap Z Z) (h : Z) (bs : list Z) : Prop :=
  stored_as u out (default h (pend !! h)) bs.

(** How a block in memory may change under an operation on others. *)
Definition evolves (x y : loc * mblock) : Prop :=
  y.1 = x.1 /\ b_pc y.2 = b_pc x.2 /\ b_data y.2 = b_data x.2 /\
  is_locked (b_flags y.2) = is_locked (b_flags x.2) /\
  (is_dirty (b_flags y.2) = true -> is_dirty (b_flags x.2) = true) /\
  (b_num y.2 = b_num x.2 \/ b_num x.2 < 0 <= b_num y.2).

#[export] Instance evolves_preorder : PreOrder evolves.
Proof. split; [intros x; unfold evolves; naive_solver|]. intros x y z. unfold evolves. intuition (try congruence). all: naive_solver lia. Qed.

(** ** Writing *)
Definition core_file (d : list Z) (x : Z) (s : mfs) : mfs :=
  set_disk d (set_mfp (set_mf_infile_count x (mfp s)) s).

(** The file has been written to. *)
Definition grew (c c' : mfs) : Prop :=
  exists d x, c' = core_file d x c /\ infile c <= x /\ zlen (disk c) <= zlen d.

#[export] Instance grew_preorder : PreOrder grew.
Proof.
  split.
  - intros c. exists (disk c), (infile c). split_and!; [|lia|lia]. by destruct c as [[] ? ? ? ? ? ? ?].
  - intros c1 c2 c3 (d & x & -> & H1 & H2) (d' & x' & -> & H3 & H4). exists d', x'. cbn in *.
    split_and!; [done|lia|lia].
Qed.

Lemma elem_split_perm {A} (xs : list A) x : x ∈ xs -> exists rest, xs ≡ₚ x :: rest.
Proof.
  intros Hx. apply list_elem_of_split in Hx as (a & b & ->). exists (a ++ b). by rewrite Permutation_middle.
Qed.

(** A slice of a file that has not changed in some pages. *)
Lemma slice_pages_other d p nr cnt bs n k :
  0 < p -> 0 <= nr -> 0 <= p * nr <= zlen d -> zlen bs <= p * cnt -> 0 <= n -> 0 < k ->
  disj (n, k) (nr, cnt) -> slice (p * n) (p * k) (file_write d (p * nr) bs) = slice (p * n) (p * k) d.
Proof.
  intros Hp Hnr Ho Hb Hn Hk Hd. pose proof (zlen_nonneg bs).
  apply slice_file_write_other; [done|nia|nia|]. destruct Hd as [Hd|[Hd|[Hd|Hd]]]; cbn in Hd; try lia.
  - left. nia.
  - right. nia.
Qed.

Lemma good_write c u f out pend nr cnt bs x :
  good c u f out pend -> 0 <= nr <= infile c -> zlen bs <= ps c * cnt ->
  (forall l b, (l, b) ∈ u -> is_locked (b_flags b) = false -> is_dirty (b_flags b) = false ->
     disj (ext (l, b)) (nr, cnt)) ->
  (forall y, y ∈ out -> disj (out_ext (ps c) y) (nr, cnt)) ->
  infile c <= x -> x * ps c <= zlen (file_write (disk c) (ps c * nr) bs) -> 0 <= mf_fd (mfp c) ->
  good (core_file (file_write (disk c) (ps c * nr) bs) x c) u f out pend.
Proof.
  intros G Hnr Hbs Hu Ho Hx Hxd Hfd. destruct G as [Gp [Gi Gd] Gf Ga Gb Gm Gu Gfr Go Gc Gn Gg Gmi Gpd Gct].
  assert (Hoff : 0 <= ps c * nr <= zlen (disk c)) by nia.
  split; cbn; try done.
  - lia.
  - lia.
  - intros nr' bs' Hin. destruct (Go nr' bs' Hin) as (pc & H1 & H2 & H3 & H4 & H5 & H6).
    exists pc. split_and!; try done; [lia|]. rewrite H2 in *.
    rewrite slice_pages_other with (cnt := cnt); [done|lia|lia|done|done|done|done|].
    specialize (Ho _ Hin). unfold out_ext in Ho. cbn in Ho. rewrite H2 in Ho.
    by rewrite Z.mul_comm, Z.div_mul in Ho by lia.
  - intros l b Hin Hl Hd. destruct (Gc l b Hin Hl Hd) as (bs' & H1 & H2 & H3 & H4).
    destruct (Gu l b Hin) as (K1 & K2 & bs2 & K3 & K4). rewrite H1 in K3. injection K3 as <-.
    exists bs'. cbn. split_and!; [done|done|lia|]. rewrite K4 in *.
    rewrite slice_pages_other with (cnt := cnt); [done|lia|lia|done|done|done|done|].
    by apply (Hu l b).
Qed.

(** Other flags or bytes for a block in memory. *)
Lemma good_replace c u1 u2 l b b' f out pend :
  good c (u1 ++ (l, b) :: u2) f out pend ->
  b_num b' = b_num b -> b_pc b' = b_pc b -> block_ok (ps c) b' ->
  (is_locked (b_flags b') = false -> is_dirty (b_flags b') = false -> on_disk c b') ->
  good c (u1 ++ (l, b') :: u2) f out pend.
Proof.
  intros G En Ep Ed Hs. destruct G as [Gp Gi Gf Ga Gb Gm Gu Gfr Go Gc Gn Gg Gmi Gpd Gct].
  assert (Ee : extents (ps c) (u1 ++ (l, b') :: u2) f out = extents (ps c) (u1 ++ (l, b) :: u2) f out).
  { assert (E1 : ext (l, b') = ext (l, b)) by (unfold ext; cbn; congruence).
    unfold extents. rewrite !fmap_app. cbn. by rewrite E1. }
  assert (En' : b_num ∘ snd <$> u1 ++ (l, b') :: u2 = b_num ∘ snd <$> u1 ++ (l, b) :: u2).
  { rewrite !fmap_app. cbn. by rewrite En. }
  assert (Hin : forall x bx, (x, bx) ∈ u1 ++ (l, b') :: u2 -> (x, bx) = (l, b') \/ (x, bx) ∈ u1 ++ (l, b) :: u2).
  { intros x bx. set_solver. }
  assert (Hl : (l, b) ∈ u1 ++ (l, b) :: u2) by set_solver.
  split; rewrite ?Ee, ?En'; try done.
  - intros x bx [[= -> ->]|Hx]%Hin; [done|by apply (Gu x)].
  - intros x bx [[= -> ->]|Hx]%Hin; [done|by apply (Gc x)].
  - intros x bx [[= -> ->]|Hx]%Hin; [rewrite En; by apply (Gg l)|by apply (Gg x)].
  - intros o n Hp. destruct (Gpd o n Hp) as (H1 & H2 & H3). refine (conj H1 (conj H2 _)).
    intros x bx [[= -> ->]|Hx]%Hin; [rewrite En; exact (H3 l b Hl)|exact (H3 x bx Hx)].
  - rewrite Gct. unfold negs. rewrite !filter_app, !filter_cons. cbn. rewrite En.
    destruct (decide (b_num b < 0)); by rewrite !length_app.
Qed.

Lemma good_flags c u1 u2 l b b' f out pend :
  good c (u1 ++ (l, b) :: u2) f out pend ->
  b_num b' = b_num b -> b_pc b' = b_pc b -> b_data b' = b_data b ->
  (is_locked (b_flags b') = false -> is_dirty (b_flags b') = false -> on_disk c b') ->
  good c (u1 ++ (l, b') :: u2) f out pend.
Proof.
  intros G En Ep Ed. apply (good_replace _ _ _ _ b); try done. unfold block_ok. rewrite Ep, Ed.
  apply (gd_used _ _ _ _ _ G l). set_solver.
Qed.

Lemma rep_tick s u f out pend B n : rep s u f out pend B -> rep (set_calls n s) u f out pend B.
Proof. intros (HL & HT & G). split_and!; [by eapply lists_view, HL|done|done]. Qed.

Lemma rep_mem s u f out pend B l b :
  rep s u f out pend B -> (l, b) ∈ u ->
  exists nd, blocks s !! l = Some nd /\ block_of nd = b.
Proof. intros (HL & _) Hin. apply (lists_block _ _ _ _ _ l b HL). set_solver. Qed.

(** A [write] call: all, some or none of the bytes arrive. *)
Lemma fd_write_ok s off bs :
  exists w d, fd_write off bs s = Ok (w, set_disk d (set_calls (Datatypes.S (calls s)) s)) /\
    ((w = -1 /\ d = disk s) \/ (0 <= w <= zlen bs /\ d = file_write (disk s) off (ztake w bs))).
Proof.
  unfold fd_write. pose proof (zlen_nonneg bs). set (w := sys_write (calls s) (zlen bs)).
  destruct (Z.ltb_spec w 0).
  - exists (-1), (disk s). split; [|by left]. mstep ltac:(apply next_call_ok). fold w.
    destruct (Z.ltb_spec w 0); [|lia]. cbn. by destruct s.
  - exists (Z.min w (zlen bs)), (file_write (disk s) off (ztake (Z.min w (zlen bs)) bs)).
    split; [|right; split; [lia|done]]. mstep ltac:(apply next_call_ok). fold w.
    destruct (Z.ltb_spec w 0); [lia|]. done.
Qed.

Lemma lseek_ok s off : lseek off s = Ok (if seek_ok (calls s) then off else -1, set_calls (Datatypes.S (calls s)) s).
Proof. done. Qed.

Lemma u32_small z : 0 <= z < 2 ^ 32 -> u32 z = z.
Proof. apply wrapu_small. Qed.

(** The extent of a block is apart from those of the other blocks and of the
    blocks in the file. *)
Lemma apart_used c u f out pend l b l' b' :
  good c u f out pend -> NoDup u.*1 -> (l, b) ∈ u -> (l', b') ∈ u -> l <> l' ->
  disj (ext (l', b')) (ext (l, b)).
Proof.
  intros G N H1 H2 Hne. destruct (elem_split_perm u (l, b) H1) as [r1 E1].
  assert (H2' : (l', b') ∈ r1).
  { rewrite E1 in H2. apply elem_of_cons in H2 as [[= -> ->]|H2]; [done|done]. }
  destruct (elem_split_perm r1 _ H2') as [r2 E2]. apply disj_sym.
  eapply (apart_disj (extents (ps c) u f out)); [|by apply (gd_apart _ _ _ _ _ G)].
  unfold extents. rewrite E1, E2. cbn. reflexivity.
Qed.

Lemma apart_out c u f out pend l b y :
  good c u f out pend -> (l, b) ∈ u -> y ∈ out -> disj (out_ext (ps c) y) (ext (l, b)).
Proof.
  intros G H1 H2. destruct (elem_split_perm u (l, b) H1) as [r1 E1].
  destruct (elem_split_perm out y H2) as [r2 E2].
  eapply (apart_disj (extents (ps c) u f out)); [|by apply (gd_apart _ _ _ _ _ G)].
  unfold extents. rewrite E1, E2. cbn. rewrite app_assoc, <- Permutation_middle. apply perm_swap.
Qed.

(** What holds of the bytes of a block in memory. *)
Lemma block_bytes c u f out pend l b :
  good c u f out pend -> (l, b) ∈ u ->
  exists bs, b_data b = BLive bs /\ zlen bs = ps c * b_pc b /\ 0 < b_pc b /\ 0 < zlen bs < 2 ^ 32 /\
    b_pc b < 2 ^ 32.
Proof.
  intros G Hin. destruct (gd_used _ _ _ _ _ G l b Hin) as (H1 & H2 & bs & H3 & H4).
  pose proof (gd_ps _ _ _ _ _ G). exists bs. split_and!; [done|done|done|nia|nia|nia].
Qed.

Lemma read_buffer_ok bs size s : size <= zlen bs -> read_buffer (BLive bs) size s = Ok (ztake size bs, s).
Proof. intros H. unfold read_buffer. by rewrite (proj2 (Z.leb_le _ _)). Qed.

Definition after_write (s : mfs) (d : list Z) : mfs :=
  set_disk d (set_calls (Datatypes.S (Datatypes.S (calls s))) s).

Lemma write_at_run s hp hp2 nr l nd bs cnt :
  match hp2 with None => hp | Some _ => hp2 end = Some l -> blocks s !! l = Some nd -> bh_data nd = BLive bs ->
  (match hp2 with None => cnt = 1 | Some _ => cnt = bh_page_count nd end) ->
  0 <= cnt < 2 ^ 32 -> 0 < ps s < 2 ^ 32 -> 0 <= ps s * cnt < 2 ^ 32 -> ps s * cnt <= zlen bs -> 0 <= nr ->
  exists d w, ((w = -1 /\ d = disk s) \/
           (0 <= w <= ps s * cnt /\ d = file_write (disk s) (ps s * nr) (ztake w (ztake (ps s * cnt) bs)))) /\
    (write_at hp hp2 nr (ps s) s = Ok (false, set_calls (Datatypes.S (calls s)) s) \/
     (w <> ps s * cnt /\ write_at hp hp2 nr (ps s) s = Ok (false, after_write s d)) \/
     (w = ps s * cnt /\ write_at hp hp2 nr (ps s) s =
      ((match hp2 with None => mret tt | Some _ => set_clean hp2 end) ;;
       m ← mf;
       (if nr + cnt >? mf_infile_count m
        then modmf (set_mf_infile_count (nr + cnt)) else mret tt) ;;
       mret true) (after_write s d))).
Proof.
  intros Ehp E Ed Hcnt H1 H2 H3 H4 Hnr. pose proof (zlen_nonneg bs).
  destruct (fd_write_ok (set_calls (Datatypes.S (calls s)) s) (ps s * nr) (ztake (ps s * cnt) bs))
    as (w & d & Rw & Hw). cbn [disk set_calls calls] in Rw, Hw.
  rewrite zlen_ztake in Hw by lia. exists d, w. split; [done|].
  unfold write_at. destruct (seek_ok (calls s)) eqn:Es.
  2: { left. mstep ltac:(apply lseek_ok). rewrite Es. rewrite (proj2 (Z.eqb_neq _ _)) by nia. done. }
  right.
  assert (Rp : (match hp2 with
                | None => mret 1
                | Some _ => y ← deref (V := bhdr) hp2; mret (u32 (bh_page_count y.2))
                end) (set_calls (Datatypes.S (calls s)) s) = Ok (cnt, set_calls (Datatypes.S (calls s)) s)).
  { destruct hp2 as [y|]; [|by subst cnt]. injection Ehp as ->. mstep ltac:(by apply dblock_ok).
    subst cnt. by rewrite u32_small. }
  mstep ltac:(apply lseek_ok). rewrite Es, Z.eqb_refl. cbn [negb].
  mstep ltac:(exact Rp). rewrite Ehp. mstep ltac:(by apply (dblock_ok _ l nd)). rewrite Ed, u32_small by done.
  mstep ltac:(by apply read_buffer_ok). mstep ltac:(exact Rw).
  destruct (Z.eqb_spec w (ps s * cnt)) as [Hwe|Hwe]; [right|left]; (split; [done|]); done.
Qed.

Lemma core_file_same c : core_file (disk c) (infile c) c = c.
Proof. by destruct c as [[] ? ? ? ? ? ? ?]. Qed.

(** The memory file after a write that did not complete. *)
Lemma rep_after_partial s u f out pend B nr cnt d w bs :
  rep s u f out pend B -> 0 <= mf_fd (mfp s) -> 0 <= nr <= infile s -> zlen bs <= ps s * cnt ->
  (forall l b, (l, b) ∈ u -> is_locked (b_flags b) = false -> is_dirty (b_flags b) = false ->
     disj (ext (l, b)) (nr, cnt)) ->
  (forall y, y ∈ out -> disj (out_ext (ps s) y) (nr, cnt)) ->
  ((w = -1 /\ d = disk s) \/ (0 <= w <= ps s * cnt /\ d = file_write (disk s) (ps s * nr) (ztake w bs))) ->
  rep (after_write s d) u f out pend B /\ grew (core s) (core (after_write s d)).
Proof.
  intros (HL & HT & G) Hfd Hnr Hbs Hu Ho Hd. pose proof (gd_ps _ _ _ _ _ G) as Gp. cbn in Gp.
  destruct (gd_infile _ _ _ _ _ G) as [Gi Gd]. cbn in Gi, Gd. pose proof (zlen_nonneg bs).
  assert (Hz : zlen (disk s) <= zlen d).
  { destruct Hd as [[_ ->]|[Hw ->]]; [lia|]. rewrite zlen_file_write by nia. lia. }
  assert (Hg : grew (core s) (core (after_write s d))).
  { exists d, (infile s). split; [done|]. cbn. lia. }
  split; [|exact Hg]. split_and!; [by eapply lists_view, HL|done|].
  change (core (after_write s d)) with (core_file d (infile (core s)) (core s)).
  destruct Hd as [[_ ->]|[Hw ->]]; [change (disk s) with (disk (core s)); by rewrite core_file_same|].
  apply (good_write (core s) u f out pend nr cnt); try done.
  - etrans; [|exact Hbs]. unfold zlen, ztake. rewrite length_take. lia.
  - cbn in *. lia.
Qed.

Lemma good_dirty_or_beyond c u f out pend l b :
  good c u f out pend -> (l, b) ∈ u -> is_locked (b_flags b) = true \/ is_dirty (b_flags b) = true ->
  NoDup u.*1 ->
  forall l' b', (l', b') ∈ u -> is_locked (b_flags b') = false -> is_dirty (b_flags b') = false ->
  disj (ext (l', b')) (ext (l, b)).
Proof.
  intros G Hin Hld N l' b' Hin' Hl Hd. apply (apart_used c u f out pend l b l' b' G N Hin Hin').
  intros ->. assert (b' = b) as -> by (by eapply nodup_fst_inj). destruct Hld; congruence.
Qed.

Lemma write_at_block s u1 u2 y b f out pend B hp :
  rep s (u1 ++ (y, b) :: u2) f out pend B -> 0 <= mf_fd (mfp s) -> 0 <= b_num b <= infile s ->
  is_locked (b_flags b) = true \/ is_dirty (b_flags b) = true ->
  exists s' ok b', write_at hp (Some y) (b_num b) (ps s) s = Ok (ok, s') /\
    rep s' (u1 ++ (y, b') :: u2) f out pend B /\ evolves (y, b) (y, b') /\ b_num b' = b_num b /\
    grew (core s) (core s') /\
    (if ok : bool then is_dirty (b_flags b') = false /\ on_disk (core s') b' /\
                       infile s' = Z.max (infile s) (b_num b + b_pc b)
     else b' = b).
Proof.
  intros HR Hfd Hnum Hld. pose proof HR as (HL & HT & G). set (u := u1 ++ (y, b) :: u2) in *.
  assert (Hin : (y, b) ∈ u) by (unfold u; set_solver).
  pose proof (lists_nodup _ _ _ _ _ HL) as N. apply NoDup_app in N as (N & _ & _).
  destruct (block_bytes _ _ _ _ _ _ _ G Hin) as (bs & Ebs & Hz & Hpc & Hz2 & Hpc2). cbn in Hz.
  destruct (rep_mem _ _ _ _ _ _ _ _ HR Hin) as (nd & E & Eb).
  assert (Epc : bh_page_count nd = b_pc b) by (by rewrite <- Eb).
  assert (Edt : bh_data nd = BLive bs) by (by rewrite <- Ebs, <- Eb).
  pose proof (gd_ps _ _ _ _ _ G) as Gp. cbn in Gp. destruct (gd_infile _ _ _ _ _ G) as [Gi Gd]. cbn in Gi, Gd.
  pose proof (good_dirty_or_beyond _ _ _ _ _ y b G Hin Hld N) as Hu.
  assert (Ho : forall x, x ∈ out -> disj (out_ext (ps s) x) (ext (y, b))) by (intros x; by apply (apart_out (core s) u f out pend)).
  destruct (write_at_run s hp (Some y) (b_num b) y nd bs (b_pc b)) as (d & w & Hd & Hrun);
    [done|done|done|done|lia|done|nia|nia|lia|].
  rewrite (ztake_all (ps s * b_pc b)) in Hd by lia.
  destruct (rep_after_partial s u f out pend B (b_num b) (b_pc b) d w bs HR Hfd Hnum) as [HR' Hg'];
    [nia|exact Hu|exact Ho|exact Hd|].
  destruct Hrun as [Hrun|[[Hw Hrun]|[Hw Hrun]]].
  - exists (set_calls (Datatypes.S (calls s)) s), false, b. split_and!; [done|by apply rep_tick|done|done| |done].
    change (core _) with (core s). done.
  - exists (after_write s d), false, b. by split_and!.
  - rewrite Hrun. clear Hrun. destruct Hd as [[Hd _]|[_ Hd]]; [nia|].
    rewrite ztake_all in Hd by lia. destruct HR' as (HL' & HT' & G').
    set (b' := MkBlock (b_num b) (b_pc b) (Z.land (b_flags b) (Z.lnot BH_DIRTY)) (b_data b)).
    destruct (lists_update_used (after_write s d) u1 u2 f [] B y b b'
                (fun b => set_bh_flags (Z.land (bh_flags b) (Z.lnot BH_DIRTY)) b)) as (s1 & R1 & HL1 & Q1); try done.
    { intros nd' <-. done. }
    destruct (flag_laws (b_flags b)) as (F1 & F2 & _).
    set (x := Z.max (infile s) (b_num b + b_pc b)).
    set (s2 := set_mfp (set_mf_infile_count x (mfp s1)) s1).
    assert (C2 : core s2 = core_file d x (core s)).
    { unfold s2. destruct Q1 as [Q1 _].
      change (core_file (disk (core s1)) x (core s1) = core_file d x (core s)). by rewrite Q1. }
    assert (Hd2 : zlen d = Z.max (zlen (disk s)) (ps s * b_num b + zlen bs)) by (rewrite Hd, zlen_file_write; nia).
    assert (Hon : on_disk (core s2) b').
    { exists bs. rewrite C2. cbn. split_and!; [done|lia|lia|]. rewrite Hd. apply slice_file_write. nia. }
    exists s2, true, b'. split_and!.
    + mstep ltac:(exact R1). mstep ltac:(apply mf_ok).
      rewrite (quiet_field (fun s => infile s) (after_write s d) s1) by done. cbn [infile after_write mfp set_disk set_calls].
      unfold s2, x. rewrite Z.gtb_ltb. destruct (Z.ltb_spec (infile s) (b_num b + b_pc b)).
      * mstep ltac:(apply modmf_ok). do 3 f_equal. rewrite Z.max_r by lia. done.
      * mstep ltac:(reflexivity). rewrite Z.max_l by lia.
        replace (infile s) with (infile s1) by (by apply (quiet_field (fun s => infile s) (after_write s d) s1)).
        by destruct s1 as [[] ? ? ? ? ? ? ?].
    + split; [by eapply lists_view, HL1|]. split; [exact (translations_core (after_write s d) s1 _ _ (proj1 Q1) HT')|].
      rewrite C2. apply (good_flags _ u1 u2 y b b'); [|done|done|done|].
      * rewrite Hd. apply (good_write (core s) u f out pend (b_num b) (b_pc b)); try done.
        -- cbn. lia.
        -- unfold x. cbn. lia.
        -- cbn [disk core]. change (disk (core s)) with (disk s). change (ps (core s)) with (ps s).
           rewrite <- Hd, Hd2. unfold x. nia.
      * by rewrite <- C2.
    + unfold evolves. cbn. rewrite F1, F2. split_and!; try done. by left.
    + done.
    + exists d, x. split; [done|]. cbn. unfold x. lia.
    + done.
    + done.
    + done.
Qed.

Lemma write_at_dummy s u l b f out pend B :
  rep s u f out pend B -> (l, b) ∈ u -> 0 <= mf_fd (mfp s) ->
  exists s' ok, write_at (Some l) None (infile s) (ps s) s = Ok (ok, s') /\
    rep s' u f out pend B /\ grew (core s) (core s') /\
    (if ok : bool then infile s' = infile s + 1 else True).
Proof.
  intros HR Hin Hfd. pose proof HR as (HL & HT & G).
  destruct (block_bytes _ _ _ _ _ _ _ G Hin) as (bs & Ebs & Hz & Hpc & Hz2 & Hpc2). cbn in Hz.
  destruct (rep_mem _ _ _ _ _ _ _ _ HR Hin) as (nd & E & Eb).
  assert (Edt : bh_data nd = BLive bs) by (by rewrite <- Ebs, <- Eb).
  pose proof (gd_ps _ _ _ _ _ G) as Gp. cbn in Gp. destruct (gd_infile _ _ _ _ _ G) as [Gi Gd]. cbn in Gi, Gd.
  assert (Hu : forall l b, (l, b) ∈ u -> is_locked (b_flags b) = false -> is_dirty (b_flags b) = false ->
     disj (ext (l, b)) (infile s, 1)).
  { intros l' b' Hin' Hl Hd. destruct (gd_clean _ _ _ _ _ G l' b' Hin' Hl Hd) as (? & _ & _ & H1 & _).
    unfold disj, ext. cbn in *. lia. }
  assert (Ho : forall x, x ∈ out -> disj (out_ext (ps s) x) (infile s, 1)).
  { intros [nr bs'] Hx. destruct (gd_out _ _ _ _ _ G nr bs' Hx) as (pc & H1 & H2 & _ & _ & H3 & _).
    unfold disj, out_ext. cbn in *. rewrite H2, Z.mul_comm, Z.div_mul by lia. lia. }
  destruct (write_at_run s (Some l) None (infile s) l nd bs 1) as (d & w & Hd & Hrun);
    [done|done|done|done|lia|done|nia|nia|lia|].
  assert (Hz1 : zlen (ztake (ps s * 1) bs) = ps s * 1) by (apply zlen_ztake; nia).
  destruct (rep_after_partial s u f out pend B (infile s) 1 d w (ztake (ps s * 1) bs) HR Hfd) as [HR' Hg'];
    [lia|lia|exact Hu|exact Ho|exact Hd|].
  destruct Hrun as [Hrun|[[Hw Hrun]|[Hw Hrun]]].
  - exists (set_calls (Datatypes.S (calls s)) s), false. split_and!; [done|by apply rep_tick| |done].
    change (core _) with (core s). done.
  - exists (after_write s d), false. by split_and!.
  - rewrite Hrun. clear Hrun. destruct Hd as [[Hd _]|[_ Hd]]; [nia|].
    rewrite (ztake_all w) in Hd by lia. destruct HR' as (HL' & HT' & G').
    assert (Hd2 : zlen d = Z.max (zlen (disk s)) (ps s * infile s + ps s)).
    { rewrite Hd, zlen_file_write by nia. rewrite Hz1. f_equal. lia. }
    eexists _, true. split_and!.
    + mstep ltac:(reflexivity). mstep ltac:(apply mf_ok). rewrite Z.gtb_ltb. cbn [infile after_write mfp set_disk set_calls].
      destruct (Z.ltb_spec (infile s) (infile s + 1)); [|lia]. mstep ltac:(apply modmf_ok). done.
    + split; [by eapply lists_view, HL'|]. split; [done|].
      change (good (core_file d (infile s + 1) (core s)) u f out pend). rewrite Hd.
      apply (good_write (core s) u f out pend (infile s) 1); try done.
      * cbn. lia.
      * cbn. lia.
      * cbn [disk core]. change (disk (core s)) with (disk s). change (ps (core s)) with (ps s).
        rewrite <- Hd, Hd2. nia.
    + exists d, (infile s + 1). split; [done|]. cbn. lia.
    + done.
Qed.

Lemma evolves_refl_list u : Forall2 evolves u u.
Proof. apply Forall_Forall2_diag, Forall_true. done. Qed.

Lemma evolves_one u1 u2 l b b' : evolves (l, b) (l, b') -> Forall2 evolves (u1 ++ (l, b) :: u2) (u1 ++ (l, b') :: u2).
Proof. intros H. apply Forall2_app; [apply evolves_refl_list|]. constructor; [done|apply evolves_refl_list]. Qed.

Lemma write_once_ok s u f out pend B l b :
  rep s u f out pend B -> (l, b) ∈ u -> 0 <= mf_fd (mfp s) -> 0 <= b_num b -> is_dirty (b_flags b) = true ->
  exists s' r u', write_once (Some l) (ps s) s = Ok (r, s') /\ rep s' u' f out pend B /\
    Forall2 evolves u u' /\ b_num ∘ snd <$> u' = b_num ∘ snd <$> u /\ grew (core s) (core s') /\
    match r with
    | Some true => exists b', (l, b') ∈ u' /\ is_dirty (b_flags b') = false /\ on_disk (core s') b'
    | Some false => True
    | None => infile s < infile s' <= b_num b /\ (l, b) ∈ u'
    end.
Proof.
  intros HR Hin Hfd Hnum Hd. pose proof HR as (HL & HT & G).
  destruct (rep_mem _ _ _ _ _ _ _ _ HR Hin) as (nd & E & Eb).
  assert (En : bh_bnum nd = b_num b) by (by rewrite <- Eb).
  pose proof (lists_nodup _ _ _ _ _ HL) as N. apply NoDup_app in N as (N & _ & _).
  assert (R0 : forall X (k : loc * bhdr -> M mfs cfault X), mbind k (deref (V := bhdr) (Some l)) s = k (l, nd) s).
  { intros X k. by mstep ltac:(by apply dblock_ok). }
  unfold write_once. rewrite R0. mstep ltac:(apply mf_ok). rewrite En, Z.gtb_ltb.
  destruct (Z.ltb_spec (infile s) (b_num b)) as [Hb|Hb].
  - destruct (lists_find s u f [] B (infile s) HL) as (hp2 & R2 & Hf). mstep ltac:(exact R2).
    destruct (gd_infile _ _ _ _ _ G) as [Gi _]. cbn in Gi.
    destruct hp2 as [y|].
    + destruct Hf as (by' & Hy & Eny).
      assert (Hyl : y <> l).
      { intros ->. assert (by' = b) as -> by (by eapply nodup_fst_inj). lia. }
      assert (Hld : is_locked (b_flags by') = true \/ is_dirty (b_flags by') = true).
      { destruct (is_locked (b_flags by')) eqn:E1; [by left|]. destruct (is_dirty (b_flags by')) eqn:E2; [by right|].
        destruct (gd_clean _ _ _ _ _ G y by' Hy E1 E2) as (? & _ & _ & H1 & _).
        destruct (block_bytes _ _ _ _ _ _ _ G Hy) as (_ & _ & _ & H2 & _). cbn in H1. lia. }
      destruct (block_bytes _ _ _ _ _ _ _ G Hy) as (_ & _ & _ & Hpc & _).
      destruct (block_bytes _ _ _ _ _ _ _ G Hin) as (_ & _ & _ & Hpcb & _).
      pose proof (apart_used _ _ _ _ _ _ _ _ _ G N Hin Hy (not_eq_sym Hyl)) as Hap.
      apply list_elem_of_split in Hy as (u1 & u2 & ->).
      destruct (write_at_block s u1 u2 y by' f out pend B (Some l) HR Hfd) as (s' & ok & b' & R & HR' & Hev & Hn & Hg & Hok);
        [lia|done|]. rewrite Eny in R.
      exists s', (if ok then None else Some false), (u1 ++ (y, b') :: u2). split_and!.
      * mstep ltac:(exact R). destruct ok; cbn [negb]; [|done].
        rewrite (proj2 (Z.eqb_neq _ _)) by lia. done.
      * done.
      * by apply evolves_one.
      * rewrite !fmap_app. cbn. by rewrite Hn.
      * done.
      * destruct ok; [|done]. destruct Hok as (_ & _ & Hi). rewrite Hi. unfold disj, ext in Hap. cbn in Hap.
        split; [lia|]. set_solver.
    + destruct (write_at_dummy s u l b f out pend B HR Hin Hfd) as (s' & ok & R & HR' & Hg & Hok).
      exists s', (if ok then None else Some false), u. split_and!.
      * mstep ltac:(exact R). destruct ok; cbn [negb]; [|done].
        rewrite (proj2 (Z.eqb_neq _ _)) by lia. done.
      * done.
      * apply evolves_refl_list.
      * done.
      * done.
      * destruct ok; [|done]. rewrite Hok. split; [lia|done].
  - mstep ltac:(reflexivity). apply list_elem_of_split in Hin as (u1 & u2 & ->).
    destruct (write_at_block s u1 u2 l b f out pend B (Some l) HR Hfd) as (s' & ok & b' & R & HR' & Hev & Hn & Hg & Hok);
      [lia|by right|].
    exists s', (Some ok), (u1 ++ (l, b') :: u2). split_and!.
    + mstep ltac:(exact R). destruct ok; cbn [negb]; [|done]. by rewrite Z.eqb_refl.
    + done.
    + by apply evolves_one.
    + rewrite !fmap_app. cbn. by rewrite Hn.
    + done.
    + destruct ok; [|done]. destruct Hok as (H1 & H2 & _). exists b'. split_and!; [set_solver|done|done].
Qed.

Lemma grew_fields c c' : grew c c' ->
  ps c' = ps c /\ mf_fd (mfp c') = mf_fd (mfp c) /\ mf_blocknr_max (mfp c') = mf_blocknr_max (mfp c) /\
  mf_blocknr_min (mfp c') = mf_blocknr_min (mfp c) /\ infile c <= infile c' /\ zlen (disk c) <= zlen (disk c').
Proof. by intros (d & x & -> & ? & ?). Qed.

Lemma write_loop_ok s u f out pend B l b fuel :
  rep s u f out pend B -> (l, b) ∈ u -> 0 <= mf_fd (mfp s) -> 0 <= b_num b -> is_dirty (b_flags b) = true ->
  (0 < fuel)%nat -> b_num b - infile s < Z.of_nat fuel ->
  exists s' ok u', write_loop fuel (Some l) (ps s) s = Ok (ok, s') /\ rep s' u' f out pend B /\
    Forall2 evolves u u' /\ b_num ∘ snd <$> u' = b_num ∘ snd <$> u /\ grew (core s) (core s') /\
    (ok = true -> exists b', (l, b') ∈ u' /\ is_dirty (b_flags b') = false /\ on_disk (core s') b').
Proof.
  revert s u. induction fuel as [|fuel IH]; intros s u HR Hin Hfd Hnum Hd H0f Hf; [lia|].
  destruct (write_once_ok s u f out pend B l b HR Hin Hfd Hnum Hd) as (s1 & r & u1 & R1 & HR1 & Hev & Hn1 & Hg & Hr).
  cbn [write_loop]. destruct r as [ok|].
  - exists s1, ok, u1. split_and!; try done.
    + by mstep ltac:(exact R1).
    + intros ->. done.
  - destruct Hr as [Hi Hin1]. destruct (grew_fields _ _ Hg) as (Ep & Efd & _).
      cbn in Ep, Efd. destruct (IH s1 u1 HR1 Hin1) as (s' & ok & u' & R & HR' & Hev' & Hn' & Hg' & Hok);
        [lia|done|done|lia|lia|].
      exists s', ok, u'. split_and!; try done.
      + mstep ltac:(exact R1). by rewrite <- Ep.
      + by etrans.
      + congruence.
      + by etrans.
Qed.

(** ** Numbers *)
Ltac extent_impl H := eapply Forall_impl; [exact H|]; intros ? ?; unfold disj in *; cbn in *; lia.

Lemma take_num_apart pc max f es n f' max' :
  take_num pc max f = (n, f', max') -> 0 < pc -> 0 <= max ->
  (forall l n p, (l, (n, p)) ∈ f -> 0 <= n /\ 0 < p) ->
  apart ((snd <$> f) ++ es) -> Forall (fun e => e.1 < 0 \/ e.1 + e.2 <= max) ((snd <$> f) ++ es) ->
  0 <= n /\ max <= max' /\ apart ((n, pc) :: (snd <$> f') ++ es) /\
  Forall (fun e => e.1 < 0 \/ e.1 + e.2 <= max') ((n, pc) :: (snd <$> f') ++ es) /\
  (forall l n p, (l, (n, p)) ∈ f' -> 0 <= n /\ 0 < p).
Proof.
  intros Ht Hpc Hmax Hf Ha Hb.
  assert (Hfresh : n = max -> f' = f -> max' = max + pc ->
    0 <= n /\ max <= max' /\ apart ((n, pc) :: (snd <$> f') ++ es) /\
    Forall (fun e => e.1 < 0 \/ e.1 + e.2 <= max') ((n, pc) :: (snd <$> f') ++ es) /\
    (forall l n p, (l, (n, p)) ∈ f' -> 0 <= n /\ 0 < p)).
  { intros -> -> ->. split_and!; [lia|lia| | |done].
    - apply apart_cons. split; [|done]. extent_impl Hb.
    - apply Forall_cons. split; [cbn; lia|]. extent_impl Hb. }
  unfold take_num in Ht. destruct f as [|[l [m p]] f]; [injection Ht as <- <- <-; by apply Hfresh|].
  destruct (Z.ltb_spec p pc); [injection Ht as <- <- <-; by apply Hfresh|].
  destruct (Hf l m p) as [Hm Hp]; [set_solver|]. clear Hfresh. cbn in Ha, Hb.
  destruct Ha as [Ha1 Ha2]. apply Forall_cons in Hb as [Hb1 Hb2]. cbn in Hb1.
  rewrite Z.gtb_ltb in Ht. destruct (Z.ltb_spec pc p); injection Ht as <- <- <-.
  - split_and!; [done|lia| | |].
    + cbn [fmap list_fmap snd app]. rewrite !apart_cons, Forall_cons.
      split_and!; [unfold disj; cbn; lia|extent_impl Ha1|extent_impl Ha1|done].
    + cbn. rewrite !Forall_cons. cbn. split_and!; [lia|lia|done].
    + intros l' n' p' [[= -> -> ->]|Hin]%elem_of_cons; [lia|]. apply (Hf l'). set_solver.
  - assert (p = pc) as -> by lia. split_and!; [done|lia| | |].
    + done.
    + by apply Forall_cons.
    + intros l' n' p' Hin. apply (Hf l'). set_solver.
Qed.

(** [good] looks at these fields only. *)
Lemma good_fields c c' u f out pend :
  good c u f out pend -> ps c' = ps c -> infile c' = infile c -> disk c' = disk c ->
  mf_fd (mfp c') = mf_fd (mfp c) -> mf_blocknr_max (mfp c') = mf_blocknr_max (mfp c) ->
  mf_blocknr_min (mfp c') = mf_blocknr_min (mfp c) -> mf_neg_count (mfp c') = mf_neg_count (mfp c) ->
  good c' u f out pend.
Proof.
  intros [Gp Gi Gf Ga Gb Gm Gu Gfr Go Gc Gn Gg Gmi Gpd Gct] E1 E2 E3 E4 E5 E6 E7.
  split; unfold on_disk in *; rewrite ?E1, ?E2, ?E3, ?E4, ?E5, ?E6, ?E7; try done.
Qed.

(** A block in memory gets the number [n] of the file for its own. *)
Lemma good_trans c c' u1 u2 l b f out pend n f' max' :
  good c (u1 ++ (l, b) :: u2) f out pend -> b_num b < 0 ->
  take_num (b_pc b) (mf_blocknr_max (mfp c)) f = (n, f', max') ->
  ps c' = ps c -> infile c' = infile c -> disk c' = disk c ->
  mf_fd (mfp c') = mf_fd (mfp c) -> mf_blocknr_max (mfp c') = max' ->
  mf_blocknr_min (mfp c') = mf_blocknr_min (mfp c) -> mf_neg_count (mfp c') = mf_neg_count (mfp c) ->
  good c' (u1 ++ (l, MkBlock n (b_pc b) (b_flags b) (b_data b)) :: u2) f' out (<[b_num b := n]> pend) /\
  0 <= n /\ mf_blocknr_max (mfp c) <= max'.
Proof.
  intros G Hneg Ht E1 E2 E3 E4 E5 E6 E7. set (b' := MkBlock n (b_pc b) (b_flags b) (b_data b)).
  assert (Hl : (l, b) ∈ u1 ++ (l, b) :: u2) by set_solver.
  destruct G as [Gp Gi Gf Ga Gb Gm Gu Gfr Go Gc Gn Gg Gmi Gpd Gct].
  destruct (Gu l b Hl) as (Hpc & Hsz & Hbs).
  set (es := (ext <$> u1 ++ u2) ++ (out_ext (ps c) <$> out)).
  assert (P : extents (ps c) (u1 ++ (l, b) :: u2) f out ≡ₚ ext (l, b) :: (snd <$> f) ++ es).
  { unfold extents, es. rewrite !fmap_app. cbn. solve_Permutation. }
  assert (P' : extents (ps c') (u1 ++ (l, b') :: u2) f' out ≡ₚ (n, b_pc b) :: (snd <$> f') ++ es).
  { unfold extents, es. rewrite !fmap_app, E1. cbn. solve_Permutation. }
  rewrite P in Ga, Gb. apply Forall_cons in Gb as [_ Gb]. destruct Ga as [_ Ga].
  destruct (take_num_apart _ _ _ es n f' max' Ht Hpc Gm Gfr Ga Gb) as (Hn & Hmx & Ha' & Hb' & Hf').
  assert (Hin : forall x bx, (x, bx) ∈ u1 ++ (l, b') :: u2 -> (x, bx) = (l, b') \/ (x, bx) ∈ u1 ++ u2) by set_solver.
  assert (Hin' : forall x bx, (x, bx) ∈ u1 ++ u2 -> (x, bx) ∈ u1 ++ (l, b) :: u2) by set_solver.
  assert (Hnum : forall x bx, (x, bx) ∈ u1 ++ u2 -> b_num bx <> b_num b).
  { intros x bx Hx. rewrite fmap_app in Gn. cbn in Gn. rewrite <- Permutation_middle in Gn.
    apply NoDup_cons in Gn as [Gn _]. intros E. apply Gn. rewrite <- fmap_app, <- E.
    apply list_elem_of_fmap. by exists (x, bx). }
  assert (Hnew : forall x bx, (x, bx) ∈ u1 ++ u2 -> b_num bx <> n).
  { intros x bx Hx Exn. destruct (Gu x bx (Hin' _ _ Hx)) as (Hpx & _).
    destruct Ha' as [Ha' _]. rewrite Forall_forall in Ha'.
    assert (Hd : disj (n, b_pc b) (ext (x, bx))); [|unfold disj, ext in Hd; cbn in Hd; lia].
    apply Ha', elem_of_app. right. apply elem_of_app. left. apply list_elem_of_fmap. by exists (x, bx). }
  split; [|done].
  split; rewrite ?E1, ?E2, ?E3, ?E4, ?E5, ?E6, ?E7; try done.
  - by rewrite <- E1, P'.
  - rewrite <- E1, P'. done.
  - lia.
  - intros x bx [[= -> ->]|Hx]%Hin; [done|by apply (Gu x), Hin'].
  - intros x bx [[= -> ->]|Hx]%Hin Hlk Hdt.
    + destruct (Gc l b Hl Hlk Hdt) as (? & _ & ? & _). lia.
    + unfold on_disk. rewrite E1, E2, E3. by apply (Gc x); [apply Hin'|..].
  - rewrite fmap_app. cbn. rewrite <- Permutation_middle. apply NoDup_cons. split.
    + rewrite <- fmap_app. intros [[x bx] [E Hx]]%list_elem_of_fmap. by apply (Hnew x bx Hx).
    + rewrite fmap_app in Gn. cbn in Gn. rewrite <- Permutation_middle in Gn. by apply NoDup_cons in Gn as [_ Gn].
  - intros x bx [[= -> ->]|Hx]%Hin; [cbn; lia|by apply (Gg x), Hin'].
  - intros o m. destruct (decide (o = b_num b)) as [->|Ho].
    + rewrite lookup_insert_eq. intros [= <-]. pose proof (Gg l b Hl). split_and!; [lia|lia|lia|].
      intros x bx [[= -> ->]|Hx]%Hin; [cbn; lia|by apply (Hnum x)].
    + rewrite lookup_insert_ne by done. intros Hp. destruct (Gpd o m Hp) as (H1 & H2 & H3).
      refine (conj H1 (conj H2 _)). intros x bx [[= -> ->]|Hx]%Hin; [cbn; lia|exact (H3 x bx (Hin' _ _ Hx))].
  - rewrite map_size_insert_None.
    + rewrite Gct. unfold negs. rewrite !filter_app, !filter_cons. cbn.
      destruct (decide (n < 0)); [lia|]. destruct (decide (b_num b < 0)); [|lia].
      rewrite !length_app. cbn. lia.
    + destruct (pend !! b_num b) as [m|] eqn:Ep; [|done]. destruct (Gpd _ _ Ep) as (_ & _ & H3).
      by destruct (H3 l b Hl).
Qed.

(** Later in the life of the same memory file. *)
Record later (c c' : mfs) : Prop := {
  lt_ps : ps c' = ps c;
  lt_fd : mf_fd (mfp c') = mf_fd (mfp c);
  lt_min : mf_blocknr_min (mfp c') <= mf_blocknr_min (mfp c);
  lt_cmax : mf_used_count_max (mfp c') = mf_used_count_max (mfp c);
  lt_max : mf_blocknr_max (mfp c) <= mf_blocknr_max (mfp c');
  lt_infile : infile c <= infile c';
  lt_disk : zlen (disk c) <= zlen (disk c');
  lt_fname : mf_fname (mfp c') = mf_fname (mfp c);
  lt_xfname : mf_xfname (mfp c') = mf_xfname (mfp c);
  lt_strs : strs c' = strs c
}.

#[export] Instance later_preorder : PreOrder later.
Proof. split; [by split|]. intros c1 c2 c3 [] []. split; try congruence; lia. Qed.

Lemma grew_later c c' : grew c c' -> later c c'.
Proof. intros (d & x & -> & ? & ?). by split. Qed.

Lemma holds_evolves u u' out pend h bs :
  Forall2 evolves u u' -> b_num ∘ snd <$> u' = b_num ∘ snd <$> u ->
  holds u out pend h bs -> holds u' out pend h bs.
Proof.
  intros Hev Hn [(l & b & Hin & Eb & Ed)|Ho]; [left|by right].
  apply list_elem_of_lookup in Hin as [i Hi].
  destruct (Forall2_lookup_l _ _ _ _ _ Hev Hi) as ([l' b'] & Hi' & E1 & _ & E3 & _ & _ & _). cbn in *.
  exists l', b'. split_and!; [by eapply list_elem_of_lookup_2| |congruence].
  rewrite <- Eb. apply (f_equal (fun x => x !! i)) in Hn. rewrite !list_lookup_fmap, Hi, Hi' in Hn. by injection Hn.
Qed.

(** A handle whose block gets another number. *)
Lemma holds_trans u1 u2 l b n out (pend : gmap Z Z) h bs :
  b_num b < 0 -> (forall o m, pend !! o = Some m -> 0 <= m) -> pend !! b_num b = None ->
  NoDup (b_num ∘ snd <$> u1 ++ (l, b) :: u2) -> (forall y, y ∈ out -> 0 <= y.1) ->
  holds (u1 ++ (l, b) :: u2) out pend h bs ->
  holds (u1 ++ (l, MkBlock n (b_pc b) (b_flags b) (b_data b)) :: u2) out (<[b_num b := n]> pend) h bs.
Proof.
  intros Hneg Hp Hb Hnd Hout. unfold holds. destruct (decide (h = b_num b)) as [->|Hh].
  - rewrite lookup_insert_eq, Hb. cbn. intros [(x & bx & Hin & Ex & Ed)|Ho]; [|by apply Hout in Ho; cbn in Ho; lia].
    left. exists l, (MkBlock n (b_pc b) (b_flags b) (b_data b)). split_and!; [set_solver|done|]. cbn.
    assert (bx = b) as ->; [|done].
    rewrite fmap_app in Hnd. cbn in Hnd. rewrite <- Permutation_middle in Hnd. apply NoDup_cons in Hnd as [Hnd _].
    assert (Hx : (x, bx) = (l, b) \/ (x, bx) ∈ u1 ++ u2) by set_solver.
    destruct Hx as [[= -> ->]|Hx]; [done|]. destruct Hnd. rewrite <- fmap_app, <- Ex.
    apply list_elem_of_fmap. by exists (x, bx).
  - rewrite lookup_insert_ne by done. intros [(x & bx & Hin & Ex & Ed)|Ho]; [|by right]. left.
    exists x, bx. split_and!; [|done|done].
    assert (Hx : (x, bx) = (l, b) \/ (x, bx) ∈ u1 ++ u2) by set_solver.
    destruct Hx as [[= -> ->]|Hx]; [|set_solver]. exfalso.
    destruct (pend !! h) as [m|] eqn:E; cbn in Ex; [apply Hp in E; lia|done].
Qed.

(** [mf_trans_add] for a block of a memory file. *)
Lemma rep_trans_add s u1 u2 l b f out pend B :
  rep s (u1 ++ (l, b) :: u2) f out pend B -> b_num b < 0 ->
  exists s' ok n f', mf_trans_add (Some l) s = Ok (ok, s') /\
    let u' := if ok : bool then u1 ++ (l, MkBlock n (b_pc b) (b_flags b) (b_data b)) :: u2 else u1 ++ (l, b) :: u2 in
    let pend' := if ok : bool then <[b_num b := n]> pend else pend in
    rep s' u' f' out pend' B /\ 0 <= n /\ Forall2 evolves (u1 ++ (l, b) :: u2) u' /\
    later (core s) (core s') /\ disk s' = disk s /\
    (forall h bs, holds (u1 ++ (l, b) :: u2) out pend h bs -> holds u' out pend' h bs).
Proof.
  intros (HL & HT & G) Hneg.
  assert (Hp : pend !! b_num b = None).
  { destruct (pend !! b_num b) as [m|] eqn:E; [|done]. destruct (gd_pend _ _ _ _ _ G _ _ E) as (_ & _ & H3).
    destruct (H3 l b); [set_solver|done]. }
  destruct (mf_trans_add_ok s u1 u2 f B l b pend HL HT Hneg Hp) as (s' & R & Hs').
  destruct (alloc_struct (calls s)); cycle 1.
  { exists s', false, 0, f. rewrite R. split; [done|]. cbn. subst s'.
    split_and!; [by apply rep_tick|done|apply evolves_refl_list|done|done|done]. }
  unfold trans_added in Hs'. destruct (take_num (b_pc b) (mf_blocknr_max (mfp s)) f) as [[n f'] max'] eqn:Et.
  destruct Hs' as (HL' & HT' & C & K).
  pose proof (f_equal (fun c => ps c) C) as E1. pose proof (f_equal (fun c => infile c) C) as E2.
  pose proof (f_equal disk C) as E3. pose proof (f_equal (fun c => mf_fd (mfp c)) C) as E4.
  pose proof (f_equal (fun c => mf_blocknr_max (mfp c)) C) as E5.
  pose proof (f_equal (fun c => mf_blocknr_min (mfp c)) C) as E6.
  pose proof (f_equal (fun c => mf_neg_count (mfp c)) C) as E7.
  pose proof (f_equal (fun c => mf_used_count_max (mfp c)) C) as E8. cbn in E1, E2, E3, E4, E5, E6, E7, E8.
  destruct (good_trans (core s) (core s') u1 u2 l b f out pend n f' max') as (G' & Hn & Hmx); [done..|].
  exists s', true, n, f'. split; [done|]. cbn.
  split_and!; [exact (conj HL' (conj HT' G'))|done| |split; try done; cbn|done|].
  - apply evolves_one. unfold evolves. cbn. split_and!; try done. right. lia.
  - rewrite E6. lia.
  - rewrite E5. done.
  - rewrite E2. lia.
  - rewrite E3. lia.
  - exact (f_equal (fun c => mf_fname (mfp c)) C).
  - exact (f_equal (fun c => mf_xfname (mfp c)) C).
  - exact (f_equal strs C).
  - intros h bs. apply holds_trans; try done.
    + intros o m Ho. by destruct (gd_pend _ _ _ _ _ G _ _ Ho) as (_ & ? & _).
    + by apply (gd_nums _ _ _ _ _ G).
    + intros [nr bs'] Hy. destruct (gd_out _ _ _ _ _ G _ _ Hy) as (pc & _ & _ & _ & ? & _). done.
Qed.

Lemma mf_write_ok s u f out pend B l b :
  rep s u f out pend B -> (l, b) ∈ u -> is_dirty (b_flags b) = true ->
  exists s' ok u' f' pend', mf_write (Some l) s = Ok (ok, s') /\ rep s' u' f' out pend' B /\
    Forall2 evolves u u' /\ later (core s) (core s') /\
    (forall h bs, holds u out pend h bs -> holds u' out pend' h bs) /\
    (ok = true -> exists b', (l, b') ∈ u' /\ is_dirty (b_flags b') = false /\ on_disk (core s') b').
Proof.
  intros HR Hin Hd. pose proof HR as (HL & HT & G). unfold mf_write. mstep ltac:(apply mf_ok).
  destruct (Z.ltb_spec (mf_fd (mfp s)) 0) as [Hfd|Hfd].
  { exists s, false, u, f, pend. by split_and!. }
  pose proof (gd_ps _ _ _ _ _ G) as Gp. cbn in Gp.
  destruct (rep_mem _ _ _ _ _ _ _ _ HR Hin) as (nd & E & Eb).
  assert (En : bh_bnum nd = b_num b) by (by rewrite <- Eb).
  mstep ltac:(by apply dblock_ok). rewrite En.
  assert (Hloop : forall s1 u1 f1 pend1 b1, rep s1 u1 f1 out pend1 B -> (l, b1) ∈ u1 -> 0 <= mf_fd (mfp s1) ->
    0 <= b_num b1 -> is_dirty (b_flags b1) = true -> Forall2 evolves u u1 -> later (core s) (core s1) ->
    (forall h bs, holds u out pend h bs -> holds u1 out pend1 h bs) ->
    exists s' ok u' f' pend', (n ← write_fuel (Some l); write_loop n (Some l) (u32 (ps s))) s1 = Ok (ok, s') /\
      rep s' u' f' out pend' B /\ Forall2 evolves u u' /\ later (core s) (core s') /\
      (forall h bs, holds u out pend h bs -> holds u' out pend' h bs) /\
      (ok = true -> exists b', (l, b') ∈ u' /\ is_dirty (b_flags b') = false /\ on_disk (core s') b')).
  { intros s1 u1 f1 pend1 b1 HR1 Hin1 Hfd1 Hn1 Hd1 Hev1 Hlt1 Hh1.
    destruct (rep_mem _ _ _ _ _ _ _ _ HR1 Hin1) as (nd1 & E1 & Eb1).
    assert (En1 : bh_bnum nd1 = b_num b1) by (by rewrite <- Eb1).
    destruct (write_loop_ok s1 u1 f1 out pend1 B l b1 (Datatypes.S (Z.to_nat (b_num b1 - infile s1))))
      as (s' & ok & u' & R & HR' & Hev & Hnn & Hg & Hok); try done; [lia|lia|].
    exists s', ok, u', f1, pend1. split_and!; try done.
    - mstep ltac:(unfold write_fuel; mstep ltac:(by apply dblock_ok); mstep ltac:(apply mf_ok); reflexivity).
      rewrite En1, u32_small by lia. pose proof (lt_ps _ _ Hlt1) as Eps. cbn in Eps. rewrite <- Eps. exact R.
    - by etrans.
    - etrans; [done|]. by apply grew_later.
    - intros h bs Hh. eapply holds_evolves; [done|done|]. by apply Hh1. }
  destruct (Z.ltb_spec (b_num b) 0) as [Hneg|Hneg].
  - apply list_elem_of_split in Hin as (u1 & u2 & ->).
    destruct (rep_trans_add s u1 u2 l b f out pend B HR Hneg) as (s1 & ok & n & f' & R & HR1 & Hn & Hev & Hlt & Hds & Hh).
    destruct ok; cycle 1.
    { exists s1, false, (u1 ++ (l, b) :: u2), f', pend. split_and!; try done. mstep ltac:(exact R). done. }
    edestruct (Hloop s1) as (s' & ok & u' & f'' & pend' & R' & Hrest); [exact HR1| | | | |exact Hev|done|done|].
    { apply elem_of_app. right. apply list_elem_of_here. }
    { pose proof (lt_fd _ _ Hlt) as Hf. cbn in Hf. lia. }
    { done. } { done. }
    exists s', ok, u', f'', pend'. split; [|exact Hrest]. mstep ltac:(exact R). cbn [negb]. exact R'.
  - mstep ltac:(reflexivity). cbn [negb]. by apply (Hloop s u f pend b).
Qed.
End store.
