(* ===== verification/MemfileBlocks.v ===== *)
(** * The calls of a memory file on single blocks

    [mf_release], [mf_get], [mf_put], [mf_free], [mf_new] and [mf_trans_del] on
    the abstract memory file of [MemfileStore.v]: each keeps the invariant, never
    faults, terminates, and keeps what the clients' numbers hold. *)
From S2P Require Import Prelude Heap Dll Memfile MemfileProofs MemfileOps MemfileStore.
From stdpp Require Import strings.
Open Scope Z_scope.

(** An allocation of a block's data succeeds when that of its header just
    before it did. *)
Class DataFollows `{Vim} : Prop :=
  data_follows n sz : 0 <= sz -> alloc_struct n = true -> alloc_data (Datatypes.S n) sz <> None.

Section calls.
Context `{VM : Vim} `{VL : !VimLaws}.
Implicit Types (u L : list (loc * mblock)) (f : list (loc * (Z * Z))) (out : list (Z * list Z)).
Abbreviation ps c := (mf_page_size (mfp c)).
Abbreviation infile c := (mf_infile_count (mfp c)).

(** [rep] with some headers on no list. *)
Definition repl (s : mfs) u f L out (pend : gmap Z Z) (B : Z) : Prop :=
  lists s u f L B /\ translations s [] pend /\ good (core s) u f out pend.

Lemma repl_next s s' u f L L' out pend B :
  repl s u f L out pend B -> core s' = core s -> lists s' u f L' B -> repl s' u f L' out pend B.
Proof. intros (HL & HT & G) E HL'. split_and!; [done|by eapply translations_core|by rewrite E]. Qed.

Lemma repl_tick s u f L out pend B n : repl s u f L out pend B -> repl (set_calls n s) u f L out pend B.
Proof. intros (HL & HT & G). split_and!; [by eapply lists_view, HL|done|done]. Qed.

Definition keeps u out (pend : gmap Z Z) u' out' (pend' : gmap Z Z) : Prop :=
  forall h bs, holds u out pend h bs -> holds u' out' pend' h bs.

(** The order of the lists does not matter to [good]. *)
Lemma good_perm c u u' f out out' pend :
  u ≡ₚ u' -> out ≡ₚ out' -> good c u f out pend -> good c u' f out' pend.
Proof.
  intros Hu Ho [Gp Gi Gf Ga Gb Gm Gu Gfr Go Gc Gn Gg Gmi Gpd Gct].
  assert (P : extents (ps c) u f out ≡ₚ extents (ps c) u' f out') by (unfold extents; by rewrite Hu, Ho).
  split; try done.
  - by rewrite <- P.
  - by rewrite <- P.
  - intros l b. rewrite <- Hu. by apply Gu.
  - intros nr bs. rewrite <- Ho. by apply Go.
  - intros l b. rewrite <- Hu. by apply Gc.
  - by rewrite <- Hu.
  - intros l b. rewrite <- Hu. by apply Gg.
  - intros o n E. destruct (Gpd o n E) as (H1 & H2 & H3). refine (conj H1 (conj H2 _)).
    intros l b. rewrite <- Hu. by apply H3.
  - rewrite Gct. unfold negs. by rewrite Hu.
Qed.

Lemma holds_perm u u' out out' pend h bs :
  u ≡ₚ u' -> out ≡ₚ out' -> holds u out pend h bs -> holds u' out' pend h bs.
Proof. intros Hu Ho. unfold holds, stored_as. setoid_rewrite Hu. by rewrite Ho. Qed.

(** ** Giving a block up *)
Lemma good_evict c u1 u2 l b f out pend :
  good c (u1 ++ (l, b) :: u2) f out pend -> is_locked (b_flags b) = false -> is_dirty (b_flags b) = false ->
  exists bs, b_data b = BLive bs /\ zlen bs = ps c * b_pc b /\ 0 <= b_num b /\
    good c (u1 ++ u2) f ((b_num b, bs) :: out) pend.
Proof.
  intros G Hl Hd. assert (Hin : (l, b) ∈ u1 ++ (l, b) :: u2) by set_solver.
  destruct (gd_clean _ _ _ _ _ G l b Hin Hl Hd) as (bs & Ed & Hn & Hi & Hs).
  destruct (block_bytes _ _ _ _ _ _ _ G Hin) as (bs' & Ed' & Hz & Hpc & Hz2 & _).
  rewrite Ed in Ed'. injection Ed' as <-.
  apply (good_perm _ _ ((l, b) :: u1 ++ u2) _ _ out) in G; [|by rewrite Permutation_middle|done].
  destruct G as [Gp Gi Gf Ga Gb Gm Gu Gfr Go Gc Gn Gg Gmi Gpd Gct].
  exists bs. split_and!; [done|done|done|].
  assert (P : extents (ps c) (u1 ++ u2) f ((b_num b, bs) :: out) ≡ₚ extents (ps c) ((l, b) :: u1 ++ u2) f out).
  { unfold extents. cbn. unfold out_ext at 1, ext at 2. cbn. rewrite Hz, Z.mul_comm, Z.div_mul by lia. solve_Permutation. }
  split; try done.
  - by rewrite P.
  - by rewrite P.
  - intros x bx Hx. apply (Gu x). set_solver.
  - intros nr bs' [[= -> ->]|Hx]%elem_of_cons; [|by apply Go]. exists (b_pc b). split_and!; try done. lia.
  - intros x bx Hx. apply (Gc x). set_solver.
  - by apply NoDup_cons in Gn as [_ Gn].
  - intros x bx Hx. apply (Gg x). set_solver.
  - intros o n E. destruct (Gpd o n E) as (H1 & H2 & H3). refine (conj H1 (conj H2 _)).
    intros x bx Hx. apply (H3 x). set_solver.
  - rewrite Gct. unfold negs. rewrite filter_cons. cbn. destruct (decide (b_num b < 0)); [lia|done].
Qed.

Lemma keeps_evict u1 u2 l b bs out pend :
  b_data b = BLive bs -> keeps (u1 ++ (l, b) :: u2) out pend (u1 ++ u2) ((b_num b, bs) :: out) pend.
Proof.
  intros Ed h bs' [(x & bx & Hin & Ex & Edx)|Ho]; [|right; set_solver].
  assert (Hx : (x, bx) = (l, b) \/ (x, bx) ∈ u1 ++ u2) by set_solver.
  destruct Hx as [[= -> ->]|Hx]; [|left; eauto].
  right. rewrite Ed in Edx. injection Edx as <-. rewrite Ex. set_solver.
Qed.

(** What [mf_release] may do to the used list: the blocks change as by
    writing, and the last one that is not locked may go. *)
Definition released u u' (gone : bool) : Prop :=
  exists u1, Forall2 evolves u u1 /\
    (if gone then exists a x c, u1 = a ++ x :: c /\ is_locked (b_flags x.2) = false /\
                   Forall (fun y => is_locked (b_flags y.2) = true) c /\ u' = a ++ c
     else u' = u1).

Lemma locked_flags nd b : block_of nd = b -> locked nd = is_locked (b_flags b).
Proof. by intros <-. Qed.

Lemma dirty_flags nd b : block_of nd = b -> dirty nd = is_dirty (b_flags b).
Proof. by intros <-. Qed.

Lemma find_unlocked_ok s f L B : forall a c fuel,
  lists s (a ++ c) f L B -> Forall (fun y => is_locked (b_flags y.2) = true) c -> (length a < fuel)%nat ->
  exists r, find_unlocked fuel (last_of None a.*1) s = Ok (r, s) /\
    match r with
    | None => True
    | Some l => exists a1 b a2, a ++ c = a1 ++ (l, b) :: a2 /\ is_locked (b_flags b) = false /\
        Forall (fun y => is_locked (b_flags y.2) = true) a2
    end.
Proof.
  induction a as [|[l b] a IH] using rev_ind; intros c fuel HL Hc Hf.
  { destruct fuel; [lia|]. by exists None. }
  rewrite length_app in Hf. cbn in Hf. destruct fuel as [|fuel]; [lia|].
  rewrite fmap_app. cbn [fmap list_fmap fst]. unfold last_of. rewrite last_snoc. cbn [find_unlocked].
  destruct (lists_block _ _ _ _ _ l b HL) as (nd & E & Eb); [set_solver|].
  mstep ltac:(by apply dblock_ok). rewrite (locked_flags nd b Eb). destruct (is_locked (b_flags b)) eqn:El; cbn [negb].
  - rewrite <- app_assoc in HL. cbn in HL. destruct (lists_links _ _ _ _ _ _ _ _ _ HL E) as [Ep _].
    rewrite Ep. destruct (IH ((l, b) :: c) fuel HL) as (r & R & Hr); [by apply Forall_cons|lia|].
    exists r. split; [exact R|]. destruct r as [l'|]; [|done]. by rewrite <- app_assoc.
  - exists (Some l). split; [done|]. exists a, b, c. by rewrite <- app_assoc.
Qed.

Lemma alloc_buffer_ok size s :
  exists d, alloc_buffer size s = Ok (d, set_calls (Datatypes.S (calls s)) s) /\
    match d with BNull => alloc_data (calls s) size = None | BLive bs => zlen bs = size | BFreed => False end.
Proof.
  unfold alloc_buffer. mstep ltac:(apply next_call_ok). destruct (alloc_data (calls s) size) as [bs|] eqn:E.
  - exists (BLive bs). split; [done|]. by eapply alloc_data_size.
  - by exists BNull.
Qed.

Lemma Forall2_evolves_middle a x c u' :
  Forall2 evolves (a ++ x :: c) u' -> exists a' y c', u' = a' ++ y :: c' /\ Forall2 evolves a a' /\
    evolves x y /\ Forall2 evolves c c'.
Proof.
  intros H. apply Forall2_app_inv_l in H as (a' & r & Ha & Hr & ->).
  inversion Hr as [|x' y c0 c' Hxy Hc Ex Ey]; subst. by exists a', y, c'.
Qed.

Lemma evolves_locked c c' :
  Forall2 evolves c c' -> Forall (fun y => is_locked (b_flags y.2) = true) c ->
  Forall (fun y => is_locked (b_flags y.2) = true) c'.
Proof. induction 1 as [|x y c c' Hxy _ IH]; [done|]. rewrite !Forall_cons. unfold evolves in Hxy. intros [? ?]. split; [naive_solver|auto]. Qed.

(** The header returned by [mf_release] has [pc] pages. *)
Definition fresh_block (p pc : Z) (b : mblock) : Prop :=
  b_pc b = pc /\ exists bs, b_data b = BLive bs /\ zlen bs = p * pc.

Definition got_block (s : mfs) (r : option loc) (p pc : Z) u f out pend B : Prop :=
  match r with
  | None => repl s u f [] out pend B
  | Some l => exists b, repl s u f [(l, b)] out pend B /\ fresh_block p pc b
  end.

Definition resize (hp : option loc) (page_count : Z) : M mfs cfault (option loc) :=
  x ← deref (V := bhdr) hp;
  if negb (bh_page_count x.2 =? page_count) then
    free_data (bh_data x.2) ;;
    m ← mf;
    d ← alloc_buffer (u32 (mf_page_size m * page_count));
    assign (V := bhdr) hp (set_bh_data d) ;;
    match d with
    | BNull => free_node bhdr hp ;; mret None
    | _ => assign (V := bhdr) hp (set_bh_page_count page_count) ;; mret hp
    end
  else mret hp.

Lemma resize_ok s u f out pend B l b bs pc :
  repl s u f [(l, b)] out pend B -> b_data b = BLive bs -> zlen bs = ps s * b_pc b ->
  0 < pc -> ps s * pc < 2 ^ 32 ->
  exists s' r, resize (Some l) pc s = Ok (r, s') /\ core s' = core s /\ got_block s' r (ps s) pc u f out pend B.
Proof.
  intros HR Ed Hz Hpc Hsz. pose proof HR as (HL & HT & G). pose proof (gd_ps _ _ _ _ _ G) as Gp. cbn in Gp.
  destruct (lists_block _ _ _ _ _ l b HL) as (nd & E & Eb); [set_solver|].
  assert (Epc : bh_page_count nd = b_pc b) by (by rewrite <- Eb).
  assert (Edt : bh_data nd = BLive bs) by (by rewrite <- Ed, <- Eb).
  assert (R0 : forall X (k : loc * bhdr -> M mfs cfault X), mbind k (deref (V := bhdr) (Some l)) s = k (l, nd) s).
  { intros X k. by mstep ltac:(by apply dblock_ok). }
  unfold resize. rewrite R0. cbn [snd]. rewrite Epc, Edt.
  destruct (Z.eqb_spec (b_pc b) pc) as [Hb|Hb]; cbn [negb].
  { exists s, (Some l). split_and!; [done|done|]. exists b. split; [done|]. split; [done|]. exists bs.
    split; [done|]. by rewrite <- Hb. }
  mstep ltac:(reflexivity). mstep ltac:(apply mf_ok). rewrite u32_small by nia.
  destruct (alloc_buffer_ok (ps s * pc) s) as (d & Rd & Hd). mstep ltac:(exact Rd).
  destruct (lists_update_loose (set_calls (Datatypes.S (calls s)) s) u f [] B l b
              (MkBlock (b_num b) (b_pc b) (b_flags b) d) (set_bh_data d)) as (s1 & R1 & HL1 & [Q1 C1]).
  { by eapply lists_view, HL. } { done. } { by intros nd' <-. }
  mstep ltac:(exact R1). assert (Q1' : core s1 = core s) by done. destruct d as [|bs'|]; [| |done].
  - destruct (lists_free_loose _ _ _ _ _ _ _ HL1) as (s2 & R2 & HL2 & [Q2 C2]).
    exists s2, None. split_and!; [by mstep ltac:(exact R2)|congruence|]. cbn.
    eapply repl_next; [exact HR|congruence|done].
  - destruct (lists_update_loose s1 u f [] B l _ (MkBlock (b_num b) pc (b_flags b) (BLive bs')) (set_bh_page_count pc) HL1)
      as (s2 & R2 & HL2 & [Q2 C2]); [done|intros nd' [=]; unfold block_of; cbn; congruence|].
    exists s2, (Some l). split_and!; [by mstep ltac:(exact R2)|congruence|]. eexists. split.
    + eapply repl_next; [exact HR|congruence|exact HL2].
    + split; [done|]. by exists bs'.
Qed.

Lemma mf_release_ok s u f out pend B pc :
  rep s u f out pend B -> 0 < pc -> ps s * pc < 2 ^ 32 ->
  exists s' r u' f' out' pend' gone, mf_release pc s = Ok (r, s') /\ later (core s) (core s') /\
    keeps u out pend u' out' pend' /\ released u u' gone /\ (forall y, y ∈ out -> y ∈ out') /\
    (r <> None -> gone = true) /\ got_block s' r (ps s) pc u' f' out' pend' B.
Proof.
  intros HR Hpc Hsz. pose proof HR as (HL & HT & G).
  assert (Hnone : exists s' r u' f' out' pend' gone,
    Ok (E := cfault) (None, s) = Ok (r, s') /\ later (core s) (core s') /\
    keeps u out pend u' out' pend' /\ released u u' gone /\ (forall y, y ∈ out -> y ∈ out') /\
    (r <> None -> gone = true) /\ got_block s' r (ps s) pc u' f' out' pend' B).
  { exists s, None, u, f, out, pend, false. split_and!; [done|done|by intros ? ?|by exists u|done|done|exact HR]. }
  unfold mf_release. mstep ltac:(apply mf_ok). mstep ltac:(reflexivity).
  destruct ((mf_fd (mfp s) <? 0) || _) eqn:Eg; [exact Hnone|]. clear Eg.
  mstep ltac:(by eapply lists_walk).
  rewrite (lists_last _ _ _ _ _ HL).
  destruct (find_unlocked_ok s f [] B u [] (Datatypes.S (length u + (length f + length (@nil (loc * mblock))))))
    as (r & Rf & Hf); [by rewrite app_nil_r|done|lia|].
  mstep ltac:(exact Rf). rewrite app_nil_r in Hf. destruct r as [l|]; [|exact Hnone].
  destruct Hf as (a & b & c & -> & Hlk & Hc).
  destruct (rep_mem _ _ _ _ _ _ l b HR) as (nd & E & Eb); [set_solver|].
  assert (R0 : forall X (k : loc * bhdr -> M mfs cfault X), mbind k (deref (V := bhdr) (Some l)) s = k (l, nd) s).
  { intros X k. by mstep ltac:(by apply dblock_ok). }
  rewrite R0. cbn [snd]. rewrite (dirty_flags nd b Eb).
  (* the block after it has been written if it was dirty *)
  assert (Hw : exists s1 ok u1 f1 pend1,
    (if is_dirty (b_flags b) then mf_write (Some l) else mret true) s = Ok (ok, s1) /\
    rep s1 u1 f1 out pend1 B /\ Forall2 evolves (a ++ (l, b) :: c) u1 /\ later (core s) (core s1) /\
    keeps (a ++ (l, b) :: c) out pend u1 out pend1 /\
    (ok = true -> exists b', (l, b') ∈ u1 /\ is_dirty (b_flags b') = false)).
  { destruct (is_dirty (b_flags b)) eqn:Edt.
    - destruct (mf_write_ok s (a ++ (l, b) :: c) f out pend B l b HR) as (s1 & ok & u1 & f1 & pend1 & R1 & HR1 & Hev & Hlt & Hk & Hok);
        [set_solver|done|].
      exists s1, ok, u1, f1, pend1. split_and!; try done. intros Ho. destruct (Hok Ho) as (b' & ? & ? & _). by exists b'.
    - exists s, true, (a ++ (l, b) :: c), f, pend. split_and!; [done|exact HR|done|done|by intros ? ?|].
      intros _. exists b. split; [set_solver|done]. }
  destruct Hw as (s1 & ok & u1 & f1 & pend1 & R1 & HR1 & Hev & Hlt & Hk & Hok).
  mstep ltac:(exact R1). destruct ok; cbn [negb]; cycle 1.
  { exists s1, None, u1, f1, out, pend1, false. split_and!; [done|done|exact Hk|by exists u1|done|done|exact HR1]. }
  pose proof Hev as Hev'.
  apply Forall2_evolves_middle in Hev as (a' & [l1 b1] & c' & -> & Ha & Hb & Hc').
  pose proof Hb as (El1 & Epc1 & Edt1 & Elk1 & _). cbn in El1, Epc1, Edt1, Elk1. subst l1.
  pose proof HR1 as (HL1 & HT1 & G1).
  destruct (Hok eq_refl) as (b2 & Hin2 & Hcl2).
  assert (b2 = b1) as ->.
  { eapply (lists_inj _ _ _ _ _ l b2 b1 HL1); set_solver. }
  destruct (good_evict _ _ _ _ _ _ _ _ G1) as (bs & Ebs & Hz & Hn & G2); [congruence|done|].
  destruct (lists_remove _ _ _ _ _ _ _ _ HL1) as (s2 & s3 & R2 & R3 & HL3 & [Q3 C3]).
  mstep ltac:(exact R2). mstep ltac:(exact R3).
  assert (HR3 : repl s3 (a' ++ c') f1 [(l, b1)] ((b_num b1, bs) :: out) pend1 B).
  { split_and!; [done|by apply (translations_core s1)|by rewrite Q3]. }
  assert (Ep3 : ps s3 = ps s).
  { pose proof (lt_ps _ _ Hlt) as Ep. cbn in Ep. rewrite <- Ep. by apply (core_field (fun s => ps s)). }
  destruct (resize_ok s3 _ _ _ _ _ l b1 bs pc HR3 Ebs) as (s4 & r & R4 & Q4 & Hgot); [|done|by rewrite Ep3|].
  { rewrite Hz. cbn. rewrite Ep3. f_equal. pose proof (lt_ps _ _ Hlt) as Ep. exact Ep. }
  rewrite Ep3 in Hgot.
  exists s4, r, (a' ++ c'), f1, ((b_num b1, bs) :: out), pend1, true. split_and!; [exact R4| | | |set_solver|done|done].
  - rewrite Q4, Q3. done.
  - intros h bs' Hh. apply Hk in Hh. by apply (keeps_evict a' c' l b1 bs out pend1 Ebs).
  - exists (a' ++ (l, b1) :: c'). split; [done|]. exists a', (l, b1), c'. split_and!; [done|cbn; congruence| |done].
    by eapply evolves_locked.
Qed.

(** ** New headers *)
Lemma alloc_bhdr_ok `{DF : !DataFollows} s u f out pend B pc :
  repl s u f [] out pend B -> 0 < pc -> ps s * pc < 2 ^ 32 ->
  exists s' r, mf_alloc_bhdr pc s = Ok (r, s') /\ core s' = core s /\ got_block s' r (ps s) pc u f out pend B.
Proof.
  intros HR Hpc Hsz. pose proof HR as (HL & HT & G). pose proof (gd_ps _ _ _ _ _ G) as Gp. cbn in Gp.
  unfold mf_alloc_bhdr. set (s0 := set_calls (Datatypes.S (calls s)) s).
  destruct (alloc_struct (calls s)) eqn:Ea.
  2: { exists s0, None. split_and!; [|done|by apply repl_tick].
       mstep ltac:(unfold alloc_node; mstep ltac:(apply next_call_ok); rewrite Ea; reflexivity). done. }
  set (l := new_loc (blocks s)). pose proof (new_loc_fresh (blocks s)) as Hl. fold l in Hl.
  set (s1 := set_blocks (<[l := uninit_bhdr]> (blocks s)) s0).
  assert (R1 : alloc_node uninit_bhdr s = Ok (Some l, s1)).
  { unfold alloc_node. mstep ltac:(apply next_call_ok). by rewrite Ea. }
  assert (HL1 : lists s1 u f [(l, block_of uninit_bhdr)] B).
  { destruct HL as (c & HS & Hu & _). exists c. split_and!; [exact (alloc_shape _ _ _ _ _ _ l uninit_bhdr HS Hl)|done|].
    intros l' b' k [= -> ->]%list_elem_of_singleton Hk Hin.
    pose proof (chain_is_ul _ _ _ _ HS Hk Hin) as Hul. cbn in Hul. rewrite app_nil_r in Hul.
    destruct (shape_is_Some _ _ l HS) as [? Hx]; [cbn; set_solver|]. cbn in Hx. congruence. }
  mstep ltac:(exact R1). mstep ltac:(apply mf_ok).
  change (ps s1) with (ps s). rewrite u32_small by nia.
  destruct (alloc_buffer_ok (ps s * pc) s1) as (d & Rd & Hd). mstep ltac:(exact Rd).
  destruct d as [|bs|]; [apply (data_follows (calls s) (ps s * pc)) in Ea; [done|nia]| |done].
  destruct (lists_update_loose (set_calls (Datatypes.S (calls s1)) s1) u f [] B l (block_of uninit_bhdr)
              (MkBlock (bh_bnum uninit_bhdr) (bh_page_count uninit_bhdr) (bh_flags uninit_bhdr) (BLive bs))
              (set_bh_data (BLive bs))) as (s2 & R2 & HL2 & [Q2 C2]).
  { by eapply lists_view, HL1. } { done. } { intros nd' [=]. unfold block_of. cbn. congruence. }
  destruct (lists_update_loose s2 u f [] B l _
              (MkBlock (bh_bnum uninit_bhdr) pc (bh_flags uninit_bhdr) (BLive bs)) (set_bh_page_count pc) HL2)
    as (s3 & R3 & HL3 & [Q3 C3]); [done|intros nd' [=]; unfold block_of; cbn; congruence|].
  exists s3, (Some l). split_and!.
  - mstep ltac:(exact R2). mstep ltac:(reflexivity). mstep ltac:(exact R3). done.
  - by rewrite Q3, Q2.
  - eexists. split; [eapply repl_next; [exact HR|by rewrite Q3, Q2|exact HL3]|]. split; [done|]. by exists bs.
Qed.

(** [mf_release], and [mf_alloc_bhdr] when it gives nothing. *)
Lemma release_or_alloc `{DF : !DataFollows} s u f out pend B pc :
  rep s u f out pend B -> 0 < pc -> ps s * pc < 2 ^ 32 ->
  exists s1 r1 s' r u' f' out' pend' gone, mf_release pc s = Ok (r1, s1) /\
    (match r1 with None => mf_alloc_bhdr pc | Some _ => mret r1 end) s1 = Ok (r, s') /\
    later (core s) (core s') /\ keeps u out pend u' out' pend' /\ released u u' gone /\
    (forall y, y ∈ out -> y ∈ out') /\ core s' = core s1 /\
    got_block s1 r1 (ps s) pc u' f' out' pend' B /\ got_block s' r (ps s) pc u' f' out' pend' B.
Proof.
  intros HR Hpc Hsz.
  destruct (mf_release_ok s u f out pend B pc HR Hpc Hsz)
    as (s1 & r1 & u' & f' & out' & pend' & gone & R1 & Hlt & Hk & Hrel & Ho & _ & Hgot).
  pose proof (lt_ps _ _ Hlt) as Ep. cbn in Ep. destruct r1 as [l|].
  - exists s1, (Some l), s1, (Some l), u', f', out', pend', gone. by split_and!.
  - destruct (alloc_bhdr_ok s1 u' f' out' pend' B pc Hgot Hpc) as (s2 & r2 & R2 & Q2 & Hgot2); [by rewrite Ep|].
    rewrite Ep in Hgot2. exists s1, None, s2, r2, u', f', out', pend', gone. split_and!; try done. by rewrite Q2.
Qed.

(** Changing a header that is on no list. *)
Lemma repl_update s u f L out pend B l b b' fn :
  repl s u f ((l, b) :: L) out pend B -> (forall nd, links_of (fn nd) = links_of nd) ->
  (forall nd, block_of nd = b -> block_of (fn nd) = b') ->
  exists s', assign (V := bhdr) (Some l) fn s = Ok (tt, s') /\ repl s' u f ((l, b') :: L) out pend B /\ core s' = core s.
Proof.
  intros HR Hl Hb. pose proof HR as (HL & _).
  destruct (lists_update_loose s u f L B l b b' fn HL Hl Hb) as (s' & R & HL' & [Q C]).
  exists s'. split_and!; [done|by eapply repl_next|done].
Qed.

(** [mf_free_bhdr] on a block that is on no list. *)
Lemma free_bhdr_ok s u f L out pend B l b bs :
  repl s u f ((l, b) :: L) out pend B -> b_data b = BLive bs ->
  exists s', mf_free_bhdr (Some l) s = Ok (tt, s') /\ repl s' u f L out pend B /\ core s' = core s.
Proof.
  intros HR Ed. pose proof HR as (HL & _). destruct (lists_block _ _ _ _ _ l b HL) as (nd & E & Eb); [set_solver|].
  destruct (lists_free_loose _ _ _ _ _ _ _ HL) as (s' & R & HL' & [Q C]).
  exists s'. split_and!; [|by eapply repl_next|done]. unfold mf_free_bhdr. mstep ltac:(by apply dblock_ok).
  replace (bh_data nd) with (BLive bs) by (by rewrite <- Ed, <- Eb). mstep ltac:(reflexivity). exact R.
Qed.

(** A block of the file, or of nowhere, comes to memory. *)
Lemma good_insert c u f out pend l b bs :
  good c u f out pend -> b_data b = BLive bs -> zlen bs = ps c * b_pc b -> 0 < b_pc b -> ps c * b_pc b < 2 ^ 32 ->
  Forall (disj (ext (l, b))) (extents (ps c) u f out) -> b_num b + b_pc b <= mf_blocknr_max (mfp c) ->
  0 <= b_num b ->
  (is_locked (b_flags b) = false -> is_dirty (b_flags b) = false -> on_disk c b) ->
  good c ((l, b) :: u) f out pend.
Proof.
  intros [Gp Gi Gf Ga Gb Gm Gu Gfr Go Gc Gn Gg Gmi Gpd Gct] Ed Hz Hpc Hsz Hap Hmax Hn Hc.
  split; try done.
  - cbn. apply Forall_cons. split; [right; cbn; lia|done].
  - intros x bx [[= -> ->]|Hx]%elem_of_cons; [|by apply (Gu x)]. split_and!; [done|done|by exists bs].
  - intros x bx [[= -> ->]|Hx]%elem_of_cons; [done|by apply (Gc x)].
  - cbn. apply NoDup_cons. split; [|done]. intros [[x bx] [E Hx]]%list_elem_of_fmap. cbn in E.
    rewrite Forall_forall in Hap. destruct (Gu x bx Hx) as (Hpx & _).
    assert (Hd : disj (ext (l, b)) (ext (x, bx))).
    { apply Hap, elem_of_app. left. apply list_elem_of_fmap. by exists (x, bx). }
    unfold disj, ext in Hd. cbn in Hd. lia.
  - intros x bx [[= -> ->]|Hx]%elem_of_cons; [lia|by apply (Gg x)].
  - intros o n E. destruct (Gpd o n E) as (H1 & H2 & H3). refine (conj H1 (conj H2 _)).
    intros x bx [[= -> ->]|Hx]%elem_of_cons; [lia|by apply (H3 x)].
  - rewrite Gct. unfold negs. rewrite filter_cons. cbn. by destruct (decide (b_num b < 0)); [lia|].
Qed.

Lemma good_out_perm c u f out out' pend : out ≡ₚ out' -> good c u f out pend -> good c u f out' pend.
Proof. intros P. by apply good_perm. Qed.

Lemma good_remove_out c u f x out pend : good c u f (x :: out) pend ->
  good c u f out pend /\ Forall (disj (out_ext (ps c) x)) (extents (ps c) u f out).
Proof.
  intros [Gp Gi Gf Ga Gb Gm Gu Gfr Go Gc Gn Gg Gmi Gpd Gct].
  assert (P : extents (ps c) u f (x :: out) ≡ₚ out_ext (ps c) x :: extents (ps c) u f out).
  { unfold extents. cbn. solve_Permutation. }
  rewrite P in Ga, Gb. apply apart_cons in Ga as [Ha1 Ha2]. apply Forall_cons in Gb as [_ Gb].
  split; [|done]. split; try done. intros nr bs Hin. apply Go. set_solver.
Qed.

(** ** Getting a block *)
Definition with_flags (fl : Z) (b : mblock) : mblock := MkBlock (b_num b) (b_pc b) fl (b_data b).

Lemma get_block_ok s u f B l b :
  lists s u f [(l, b)] B ->
  exists s', get_block (Some l) s = Ok (Some l, s') /\
    lists s' ((l, with_flags (Z.lor (b_flags b) BH_LOCKED) b) :: u) f [] B /\ core s' = core s.
Proof.
  intros HL.
  destruct (lists_update_loose s u f [] B l b (with_flags (Z.lor (b_flags b) BH_LOCKED) b)
              (fun b => set_bh_flags (Z.lor (bh_flags b) BH_LOCKED) b) HL) as (s1 & R1 & HL1 & [Q1 C1]);
    [done|by intros nd <-|].
  destruct (lists_insert _ _ _ _ _ _ _ HL1) as (s2 & s3 & R2 & R3 & HL3 & [Q3 C3]).
  exists s3. split_and!; [|done|by rewrite Q3].
  unfold get_block. mstep ltac:(exact R1). mstep ltac:(exact R2). mstep ltac:(exact R3). done.
Qed.

Lemma mf_get_range s u f out pend B l b :
  rep s u f out pend B -> (l, b) ∈ u ->
  (b_num b >=? mf_blocknr_max (mfp s)) || (b_num b <=? mf_blocknr_min (mfp s)) = false.
Proof.
  intros (HL & HT & G) Hin. pose proof (gd_neg _ _ _ _ _ G l b Hin) as H1. pose proof (gd_max _ _ _ _ _ G) as H3.
  pose proof (gd_below _ _ _ _ _ G) as H2. rewrite Forall_forall in H2. specialize (H2 (ext (l, b))).
  destruct (block_bytes _ _ _ _ _ _ _ G Hin) as (_ & _ & _ & Hpc & _). cbn in *.
  rewrite Z.geb_leb. destruct H2 as [H2|H2].
  - apply elem_of_app. left. apply list_elem_of_fmap. by exists (l, b).
  - apply orb_false_intro; [apply Z.leb_gt; lia|apply Z.leb_gt; lia].
  - apply orb_false_intro; [apply Z.leb_gt; lia|apply Z.leb_gt; lia].
Qed.

Lemma mf_get_memory s u1 u2 f out pend B l b pc :
  rep s (u1 ++ (l, b) :: u2) f out pend B ->
  exists s', mf_get (b_num b) pc s = Ok (Some l, s') /\
    rep s' ((l, with_flags (Z.lor (b_flags b) BH_LOCKED) b) :: u1 ++ u2) f out pend B /\ core s' = core s.
Proof.
  intros HR. pose proof HR as (HL & HT & G). unfold mf_get. mstep ltac:(apply mf_ok).
  rewrite (mf_get_range s (u1 ++ (l, b) :: u2) f out pend B l b HR) by set_solver.
  destruct (lists_find _ _ _ _ _ (b_num b) HL) as (r & Rf & Hf). mstep ltac:(exact Rf).
  destruct r as [l'|]; [|by destruct (Hf l b); [set_solver|]].
  assert (l' = l) as ->.
  { destruct Hf as (b' & Hin & En). pose proof (gd_nums _ _ _ _ _ G) as Hnd. rewrite fmap_app in Hnd. cbn in Hnd.
    rewrite <- Permutation_middle in Hnd. apply NoDup_cons in Hnd as [Hnd _].
    assert (Hx : (l', b') = (l, b) \/ (l', b') ∈ u1 ++ u2) by set_solver.
    destruct Hx as [[= -> ->]|Hx]; [done|]. destruct Hnd. rewrite <- fmap_app, <- En.
    apply list_elem_of_fmap. by exists (l', b'). }
  destruct (lists_remove _ _ _ _ _ _ _ _ HL) as (s1 & s2 & R1 & R2 & HL2 & [Q2 C2]).
  mstep ltac:(exact R1). mstep ltac:(exact R2).
  destruct (get_block_ok s2 (u1 ++ u2) f B l b HL2) as (s3 & R3 & HL3 & Q3).
  exists s3. split_and!; [exact R3| |by rewrite Q3]. split; [done|]. split.
  - apply (translations_core s); [by rewrite Q3|done].
  - rewrite Q3, Q2. apply (good_perm _ _ ([] ++ (l, b) :: u1 ++ u2) _ _ out) in G; [|by rewrite Permutation_middle|done].
    change (good (core s) ([] ++ (l, with_flags (Z.lor (b_flags b) BH_LOCKED) b) :: u1 ++ u2) f out pend).
    apply (good_flags _ [] _ l b); try done. cbn. destruct (flag_laws (b_flags b)) as (_ & _ & _ & _ & _ & _ & F & _).
    by rewrite F.
Qed.

Lemma mf_get_absent s u f out pend B nr pc :
  rep s u f out pend B -> (forall l b, (l, b) ∈ u -> b_num b <> nr) -> nr < 0 \/ infile s <= nr ->
  mf_get nr pc s = Ok (None, s).
Proof.
  intros (HL & HT & G) Hu Hnr. unfold mf_get. mstep ltac:(apply mf_ok).
  destruct ((nr >=? mf_blocknr_max (mfp s)) || _); [done|].
  destruct (lists_find _ _ _ _ _ nr HL) as (r & Rf & Hf). mstep ltac:(exact Rf).
  destruct r as [l|]; [destruct Hf as (b & Hin & En); by destruct (Hu l b Hin En)|].
  rewrite (proj2 (orb_true_iff _ _)); [done|]. rewrite Z.ltb_lt, Z.geb_leb, Z.leb_le. lia.
Qed.

Lemma fd_read_ok s off size :
  0 <= off -> 0 <= size -> off + size <= zlen (disk s) ->
  exists r, fd_read off size s = Ok (r, set_calls (Datatypes.S (calls s)) s) /\
    match r with
    | None => True
    | Some bs => zlen bs <= size /\ (zlen bs = size -> bs = slice off size (disk s))
    end.
Proof.
  intros H1 H2 H3. unfold fd_read. destruct (Z.ltb_spec (sys_read (calls s) size) 0) as [Hr|Hr].
  - exists None. split; [|done]. mstep ltac:(apply next_call_ok). by rewrite (proj2 (Z.ltb_lt _ _)).
  - exists (Some (ztake (Z.min (sys_read (calls s) size) size) (zdrop off (disk s)))). split.
    + mstep ltac:(apply next_call_ok). by rewrite (proj2 (Z.ltb_ge _ _)).
    + rewrite zlen_ztake by (rewrite zlen_zdrop; lia). split; [lia|]. intros E. by rewrite E.
Qed.

(** Reading a block whose bytes are in the file. *)
Lemma mf_read_ok s u f out pend B l b old bs :
  repl s u f [(l, b)] out pend B -> b_data b = BLive old -> zlen old = ps s * b_pc b -> 0 <= b_num b ->
  ps s * b_pc b < 2 ^ 32 -> ps s * b_num b + ps s * b_pc b <= zlen (disk s) ->
  slice (ps s * b_num b) (ps s * b_pc b) (disk s) = bs ->
  exists s' ok new, mf_read (Some l) s = Ok (ok, s') /\ core s' = core s /\ zlen new = zlen old /\
    repl s' u f [(l, MkBlock (b_num b) (b_pc b) (b_flags b) (BLive new))] out pend B /\ (ok = true -> new = bs).
Proof.
  intros HR Ed Hz Hn Hsz Hfile Hbs. pose proof HR as (HL & HT & G). pose proof (gd_ps _ _ _ _ _ G) as Gp. cbn in Gp.
  destruct (lists_block _ _ _ _ _ l b HL) as (nd & E & Eb); [set_solver|].
  pose proof (zlen_nonneg old) as Hold.
  assert (Eb' : MkBlock (b_num b) (b_pc b) (b_flags b) (BLive old) = b) by (rewrite <- Ed; by destruct b).
  assert (Hfail : forall n, exists s' ok new, Ok (E := cfault) (false, set_calls n s) = Ok (ok, s') /\ core s' = core s /\
    zlen new = zlen old /\ repl s' u f [(l, MkBlock (b_num b) (b_pc b) (b_flags b) (BLive new))] out pend B /\
    (ok = true -> new = bs)).
  { intros n. exists (set_calls n s), false, old. rewrite Eb'. by split_and!. }
  assert (Esize : u32 (u32 (ps s) * bh_page_count nd) = ps s * b_pc b).
  { rewrite <- Eb in Hz, Hsz |- *. cbn in *. rewrite (u32_small (ps s)) by lia. apply u32_small. lia. }
  assert (Eoff : u32 (ps s) * bh_bnum nd = ps s * b_num b) by (rewrite u32_small by lia; by rewrite <- Eb).
  unfold mf_read. mstep ltac:(apply mf_ok). destruct (Z.ltb_spec (mf_fd (mfp s)) 0) as [_|Hfd].
  { destruct (Hfail (calls s)) as (s' & ok & new & R & Hrest). exists s', ok, new. split; [|exact Hrest].
    rewrite <- R. by destruct s. }
  mstep ltac:(by apply dblock_ok). rewrite Esize, Eoff. mstep ltac:(apply lseek_ok).
  destruct (seek_ok (calls s)); cycle 1.
  { rewrite (proj2 (Z.eqb_neq _ _)) by nia. apply Hfail. }
  rewrite Z.eqb_refl. cbn [negb].
  destruct (fd_read_ok (set_calls (Datatypes.S (calls s)) s) (ps s * b_num b) (ps s * b_pc b)) as (r & Rr & Hr);
    [nia|lia|done|].
  mstep ltac:(exact Rr). destruct r as [got|]; [|apply Hfail]. destruct Hr as [Hle Heq].
  replace (bh_data nd) with (BLive old) by (by rewrite <- Ed, <- Eb).
  rewrite (proj2 (Z.ltb_ge _ _)) by lia.
  set (new := overwrite old 0 got).
  assert (Hnew : zlen new = zlen old) by (apply zlen_overwrite; lia).
  destruct (repl_update (set_calls (Datatypes.S (Datatypes.S (calls s))) s) u f [] out pend B l b
              (MkBlock (b_num b) (b_pc b) (b_flags b) (BLive new)) (set_bh_data (BLive new))) as (s1 & R1 & HR1 & Q1).
  { by apply repl_tick. } { done. } { by intros nd' <-. }
  exists s1, (zlen got =? ps s * b_pc b), new. split_and!; [|done|done|done|].
  - mstep ltac:(exact R1). done.
  - intros Hok%Z.eqb_eq. cbn in Heq. rewrite Hbs in Heq. rewrite <- (Heq Hok). unfold new, overwrite.
    rewrite ztake_0. cbn. rewrite zdrop_all by lia. apply app_nil_r.
Qed.

Lemma keeps_then u1 o1 p1 u2 o2 p2 u3 o3 p3 :
  keeps u1 o1 p1 u2 o2 p2 -> keeps u2 o2 p2 u3 o3 p3 -> keeps u1 o1 p1 u3 o3 p3.
Proof. intros H1 H2 h bs Hh. by apply H2, H1. Qed.

(** A block of the file that is now in memory. *)
Lemma keeps_load u out out' pend l b bs :
  out ≡ₚ (b_num b, bs) :: out' -> b_data b = BLive bs -> keeps u out pend ((l, b) :: u) out' pend.
Proof.
  intros P Ed h bs' [(x & bx & Hin & Ex & Edx)|Ho].
  - left. exists x, bx. split_and!; [set_solver|done|done].
  - rewrite P in Ho. apply elem_of_cons in Ho as [[= E ->]|Ho]; [|by right]. left. exists l, b. split_and!; [set_solver|done|done].
Qed.

Lemma out_not_in_memory c u f out pend nr bs l b :
  good c u f out pend -> (nr, bs) ∈ out -> (l, b) ∈ u -> b_num b <> nr.
Proof.
  intros G Ho Hin E. pose proof (apart_out _ _ _ _ _ _ _ _ G Hin Ho) as Hd.
  destruct (gd_out _ _ _ _ _ G nr bs Ho) as (pc & H1 & H2 & _ & H4 & _).
  destruct (block_bytes _ _ _ _ _ _ _ G Hin) as (_ & _ & _ & Hpc & _). pose proof (gd_ps _ _ _ _ _ G).
  unfold disj, out_ext, ext in Hd. cbn in Hd. rewrite H2, Z.mul_comm, Z.div_mul in Hd by lia. lia.
Qed.

Lemma mf_get_file `{DF : !DataFollows} s u f out pend B nr bs pc :
  rep s u f out pend B -> (nr, bs) ∈ out -> zlen bs = ps s * pc ->
  exists s' r u' f' out' pend', mf_get nr pc s = Ok (r, s') /\ later (core s) (core s') /\
    rep s' u' f' out' pend' B /\ keeps u out pend u' out' pend' /\
    match r with
    | None => True
    | Some l => exists u1 gone fl, released u u1 gone /\ u' = (l, MkBlock nr pc fl (BLive bs)) :: u1 /\
        is_locked fl = true /\ is_dirty fl = false /\ on_disk (core s') (MkBlock nr pc fl (BLive bs))
    end.
Proof.
  intros HR Ho Hz. pose proof HR as (HL & HT & G). pose proof (gd_ps _ _ _ _ _ G) as Gp. cbn in Gp.
  destruct (gd_out _ _ _ _ _ G nr bs Ho) as (pc' & Hpc & Hz' & Hsz & Hnr & Hin & _). cbn in Hz', Hsz, Hin.
  assert (pc' = pc) as -> by nia.
  unfold mf_get. mstep ltac:(apply mf_ok).
  assert (Hmax : nr + pc <= mf_blocknr_max (mfp s)).
  { pose proof (gd_below _ _ _ _ _ G) as Hb. rewrite Forall_forall in Hb. specialize (Hb (out_ext (ps s) (nr, bs))).
    unfold out_ext in Hb. cbn in Hb. rewrite Hz, Z.mul_comm, Z.div_mul in Hb by lia.
    destruct Hb as [Hb|Hb]; [|lia|lia]. unfold extents. rewrite !elem_of_app. right. right.
    apply list_elem_of_fmap. exists (nr, bs). split; [|done]. unfold out_ext. cbn. by rewrite Hz, Z.mul_comm, Z.div_mul by lia. }
  pose proof (gd_min _ _ _ _ _ G) as Gmi. cbn in Gmi.
  rewrite Z.geb_leb, (proj2 (Z.leb_gt _ _)), (proj2 (Z.leb_gt _ _)) by lia. cbn [orb].
  destruct (lists_find _ _ _ _ _ nr HL) as (r0 & Rf & Hf). mstep ltac:(exact Rf).
  destruct r0 as [l0|]; [destruct Hf as (b0 & Hin0 & En0); by destruct (out_not_in_memory _ _ _ _ _ _ _ _ _ G Ho Hin0)|].
  rewrite (proj2 (Z.ltb_ge _ _)), Z.geb_leb, (proj2 (Z.leb_gt _ _)) by lia. cbn [orb].
  destruct (release_or_alloc s u f out pend B pc HR Hpc Hsz)
    as (s1 & r1 & s2 & r & u1 & f' & out' & pend' & gone & R1 & R2 & Hlt & Hk & Hrel & Hoo & _ & _ & Hgot).
  mstep ltac:(exact R1). mstep ltac:(exact R2). destruct r as [l|]; cycle 1.
  { exists s2, None, u1, f', out', pend'. split_and!; [done|done|exact Hgot|done|done]. }
  destruct Hgot as (b0 & HR2 & Epc0 & old & Ed0 & Hz0).
  pose proof (lt_ps _ _ Hlt) as Ep. cbn in Ep.
  destruct (repl_update s2 u1 f' [] out' pend' B l b0 (MkBlock nr (b_pc b0) (b_flags b0) (b_data b0)) (set_bh_bnum nr) HR2)
    as (s3 & R3 & HR3 & Q3); [done|by intros nd <-|].
  destruct (repl_update s3 u1 f' [] out' pend' B l _ (MkBlock nr (b_pc b0) 0 (b_data b0)) (set_bh_flags 0) HR3)
    as (s4 & R4 & HR4 & Q4); [done|intros nd [=]; unfold block_of; cbn; congruence|].
  destruct (repl_update s4 u1 f' [] out' pend' B l _ (MkBlock nr pc 0 (b_data b0)) (set_bh_page_count pc) HR4)
    as (s5 & R5 & HR5 & Q5); [done|intros nd [=]; unfold block_of; cbn; congruence|].
  assert (Q : core s5 = core s2) by congruence.
  assert (E5 : ps s5 = ps s) by (rewrite <- Ep; by apply (core_field (fun s => ps s))).
  mstep ltac:(exact R3). mstep ltac:(exact R4). mstep ltac:(exact R5).
  pose proof HR5 as (HL5 & HT5 & G5). specialize (Hoo _ Ho).
  destruct (gd_out _ _ _ _ _ G5 nr bs Hoo) as (pc2 & _ & Hz2 & _ & _ & Hin2 & Hs2). cbn in Hz2, Hin2, Hs2.
  assert (pc2 = pc) as -> by (rewrite E5 in Hz2; nia).
  destruct (gd_infile _ _ _ _ _ G5) as [_ Hd5]. cbn in Hd5.
  destruct (mf_read_ok s5 u1 f' out' pend' B l (MkBlock nr pc 0 (b_data b0)) old bs HR5)
    as (s6 & ok & new & R6 & Q6 & Hznew & HR6 & Hok); cbn; try done; [by rewrite E5|by rewrite E5|rewrite E5 in *; nia| |].
  { by rewrite Hz2 in Hs2. }
  mstep ltac:(exact R6). assert (Hlt6 : later (core s) (core s6)) by (by rewrite Q6, Q).
  destruct ok; cbn [negb]; cycle 1.
  { destruct (free_bhdr_ok s6 u1 f' [] out' pend' B l _ new HR6) as (s7 & R7 & HR7 & Q7); [done|].
    exists s7, None, u1, f', out', pend'. split_and!; [by mstep ltac:(exact R7)|by rewrite Q7|exact HR7|done|done]. }
  rewrite (Hok eq_refl) in HR6. cbn in HR6. pose proof HR6 as (HL6 & HT6 & G6).
  destruct (get_block_ok s6 u1 f' B l _ HL6) as (s7 & R7 & HL7 & Q7). unfold with_flags in HL7. cbn in HL7.
  set (fl := Z.lor 0 BH_LOCKED) in *. destruct (flag_laws 0) as (_ & _ & _ & _ & _ & _ & F1 & F2).
  destruct (elem_split_perm _ _ Hoo) as [out2 P].
  assert (Hb : on_disk (core s7) (MkBlock nr pc fl (BLive bs))).
  { exists bs. cbn. split_and!; [done|done| |].
    - rewrite (core_field (fun s => infile s) s6 s7), (core_field (fun s => infile s) s5 s6) by done. done.
    - rewrite (core_field disk s6 s7), (core_field disk s5 s6) by done.
      rewrite (core_field (fun s => ps s) s6 s7), (core_field (fun s => ps s) s5 s6) by done. done. }
  exists s7, (Some l), ((l, MkBlock nr pc fl (BLive bs)) :: u1), f', out2, pend'. split_and!.
  - exact R7.
  - by rewrite Q7.
  - split; [done|]. split; [by apply (translations_core s6)|].
    apply (good_out_perm _ _ _ _ _ _ P) in G6. apply good_remove_out in G6 as [G7 Ha].
    assert (E6 : ps (core s6) = ps s).
    { rewrite <- E5. change (ps (core s6)) with (ps s6). by apply (core_field (fun s => ps s)). }
    rewrite Q7. apply (good_insert _ _ _ _ _ l _ bs G7); cbn -[core]; try done.
    + by rewrite E6.
    + by rewrite E6.
    + unfold out_ext in Ha. cbn -[core] in Ha. rewrite E6, Hz, Z.mul_comm, Z.div_mul in Ha by lia.
      rewrite E6. exact Ha.
    + pose proof (lt_max _ _ Hlt6) as Hm. cbn in Hm |- *. lia.
    + intros _ _. by rewrite <- Q7.
  - eapply keeps_then; [exact Hk|]. by apply (keeps_load _ _ _ _ l (MkBlock nr pc fl (BLive bs)) bs).
  - exists u1, gone, fl. by split_and!.
Qed.

(** ** Giving a block back *)
Lemma rep_set_dirty s u f L out pend B x :
  repl s u f L out pend B -> repl (set_mfp (set_mf_dirty x (mfp s)) s) u f L out pend B.
Proof. intros (HL & HT & G). split_and!; [by eapply lists_view, HL|done|by eapply good_fields]. Qed.

Lemma later_set_dirty s x : later (core s) (core (set_mfp (set_mf_dirty x (mfp s)) s)).
Proof. by split. Qed.

Lemma with_flags_data fl b : b_data (with_flags fl b) = b_data b.
Proof. done. Qed.

Lemma keeps_evolve_one u1 u2 l b b' out pend :
  b_num b' = b_num b -> b_data b' = b_data b -> keeps (u1 ++ (l, b) :: u2) out pend (u1 ++ (l, b') :: u2) out pend.
Proof.
  intros En Ed h bs [(x & bx & Hin & Ex & Edx)|Ho]; [left|by right].
  assert (Hx : (x, bx) = (l, b) \/ (x, bx) ∈ u1 ++ u2) by set_solver.
  destruct Hx as [[= -> ->]|Hx]; [exists l, b'|exists x, bx]; (split_and!; [set_solver|congruence|congruence]).
Qed.

Lemma trans_add_positive s u f out pend B l b :
  rep s u f out pend B -> (l, b) ∈ u -> 0 <= b_num b -> mf_trans_add (Some l) s = Ok (true, s).
Proof.
  intros HR Hin Hn. destruct (rep_mem _ _ _ _ _ _ l b HR Hin) as (nd & E & Eb).
  assert (En : bh_bnum nd = b_num b) by (by rewrite <- Eb).
  unfold mf_trans_add. mstep ltac:(by apply dblock_ok). rewrite En, Z.geb_leb, (proj2 (Z.leb_le _ _)) by done. done.
Qed.

Lemma mf_put_ok s u1 u2 f out pend B l b is_d infile :
  rep s (u1 ++ (l, b) :: u2) f out pend B ->
  (is_d = false -> is_dirty (b_flags b) = true \/ on_disk (core s) b) ->
  exists s' b' f' pend', mf_put (Some l) is_d infile s = Ok (tt, s') /\
    rep s' (u1 ++ (l, b') :: u2) f' out pend' B /\ later (core s) (core s') /\
    is_locked (b_flags b') = false /\ is_dirty (b_flags b') = is_d || is_dirty (b_flags b) /\
    b_pc b' = b_pc b /\ b_data b' = b_data b /\ (b_num b' = b_num b \/ b_num b < 0 <= b_num b') /\
    keeps (u1 ++ (l, b) :: u2) out pend (u1 ++ (l, b') :: u2) out pend'.
Proof.
  intros HR Hcl. pose proof HR as (HL & HT & G).
  destruct (rep_mem _ _ _ _ _ _ l b HR) as (nd & E & Eb); [set_solver|].
  assert (Efl : bh_flags nd = b_flags b) by (by rewrite <- Eb).
  destruct (flag_laws (b_flags b)) as (_ & _ & F3 & F4 & _).
  destruct (flag_laws (Z.land (b_flags b) (Z.lnot BH_LOCKED))) as (_ & _ & _ & _ & F5 & F6 & _).
  set (fl := if is_d then Z.lor (Z.land (b_flags b) (Z.lnot BH_LOCKED)) BH_DIRTY else Z.land (b_flags b) (Z.lnot BH_LOCKED)).
  assert (Hlk : is_locked fl = false) by (unfold fl; destruct is_d; congruence).
  assert (Hdt : is_dirty fl = is_d || is_dirty (b_flags b)) by (unfold fl; destruct is_d; cbn; congruence).
  set (s1 := if is_d then set_mfp (set_mf_dirty true (mfp s)) s else s).
  assert (HR1 : rep s1 (u1 ++ (l, b) :: u2) f out pend B).
  { unfold s1. destruct is_d; [|done]. by apply (rep_set_dirty s _ f [] out pend B true). }
  assert (Hlt1 : later (core s) (core s1)) by (unfold s1; destruct is_d; [apply later_set_dirty|done]).
  pose proof HR1 as (HL1 & HT1 & G1).
  destruct (lists_update_used s1 u1 u2 f [] B l b (with_flags fl b) (set_bh_flags fl) HL1)
    as (s2 & R2 & HL2 & [Q2 C2]); [done|by intros nd' <-|done|done|].
  assert (HR2 : rep s2 (u1 ++ (l, with_flags fl b) :: u2) f out pend B).
  { split; [done|]. split; [by apply (translations_core s1)|]. rewrite Q2.
    apply (good_flags _ u1 u2 l b); [done|done|done|done|]. cbn. intros _ Hd. rewrite Hdt in Hd.
    destruct is_d; [done|]. cbn in Hd. destruct (Hcl eq_refl) as [Hx|(bs & Hx)]; [congruence|]. by exists bs. }
  assert (Hlt2 : later (core s) (core s2)) by (by rewrite Q2).
  assert (Hk2 : keeps (u1 ++ (l, b) :: u2) out pend (u1 ++ (l, with_flags fl b) :: u2) out pend) by (by apply keeps_evolve_one).
  assert (Hrun : mf_put (Some l) is_d infile s =
    (if infile then mf_trans_add (Some l) ;; mret tt else mret tt) s2).
  { unfold mf_put. mstep ltac:(by apply dblock_ok). rewrite Efl.
    assert (Rfl : (if is_d then modmf (set_mf_dirty true) ;; mret (Z.lor (Z.land (b_flags b) (Z.lnot BH_LOCKED)) BH_DIRTY)
                   else mret (Z.land (b_flags b) (Z.lnot BH_LOCKED))) s = Ok (fl, s1)) by (unfold fl, s1; by destruct is_d).
    mstep ltac:(exact Rfl). mstep ltac:(exact R2). done. }
  rewrite Hrun. clear Hrun. destruct infile; cycle 1.
  { exists s2, (with_flags fl b), f, pend. split_and!; try done. by left. }
  destruct (Z.ltb_spec (b_num b) 0) as [Hneg|Hneg].
  - destruct (rep_trans_add s2 u1 u2 l (with_flags fl b) f out pend B HR2 Hneg)
      as (s3 & ok & n & f' & R3 & HR3 & Hn & _ & Hlt3 & _ & Hk3).
    exists s3, (if ok then MkBlock n (b_pc b) fl (b_data b) else with_flags fl b), f', (if ok then <[b_num b := n]> pend else pend).
    split_and!.
    + by mstep ltac:(exact R3).
    + by destruct ok.
    + by etrans.
    + by destruct ok.
    + by destruct ok.
    + by destruct ok.
    + by destruct ok.
    + destruct ok; [right; cbn; lia|by left].
    + eapply keeps_then; [exact Hk2|]. by destruct ok.
  - exists s2, (with_flags fl b), f, pend. split_and!; try done; [|by left].
    mstep ltac:(apply (trans_add_positive s2 _ _ _ _ _ l (with_flags fl b) HR2); [set_solver|done]). done.
Qed.

(** ** Removing a block *)
Lemma good_remove_used c c' u1 u2 l b f f' out pend :
  good c (u1 ++ (l, b) :: u2) f out pend ->
  ps c' = ps c -> infile c' = infile c -> disk c' = disk c -> mf_fd (mfp c') = mf_fd (mfp c) ->
  mf_blocknr_max (mfp c') = mf_blocknr_max (mfp c) -> mf_blocknr_min (mfp c') = mf_blocknr_min (mfp c) ->
  (if b_num b <? 0 then f' = f /\ mf_neg_count (mfp c') = mf_neg_count (mfp c) - 1
   else f' = (l, (b_num b, b_pc b)) :: f /\ mf_neg_count (mfp c') = mf_neg_count (mfp c)) ->
  good c' (u1 ++ u2) f' out pend.
Proof.
  intros G E1 E2 E3 E4 E5 E6 Hf.
  destruct (block_bytes _ _ _ _ _ l b G) as (_ & _ & _ & Hpc & _); [set_solver|].
  apply (good_perm _ _ ((l, b) :: u1 ++ u2) _ _ out) in G; [|by rewrite Permutation_middle|done].
  destruct G as [Gp Gi Gf Ga Gb Gm Gu Gfr Go Gc Gn Gg Gmi Gpd Gct].
  assert (Hx : apart (extents (ps c) (u1 ++ u2) f' out) /\
    Forall (fun e => e.1 < 0 \/ e.1 + e.2 <= mf_blocknr_max (mfp c)) (extents (ps c) (u1 ++ u2) f' out) /\
    (forall l n p, (l, (n, p)) ∈ f' -> 0 <= n /\ 0 < p) /\
    mf_neg_count (mfp c') = negs (u1 ++ u2) + Z.of_nat (size pend)).
  { unfold negs in Gct. rewrite filter_cons in Gct. cbn in Gct. unfold extents in *. cbn in Ga, Gb.
    destruct (Z.ltb_spec (b_num b) 0); destruct Hf as [-> Hc].
    - destruct Ga as [_ Ga]. apply Forall_cons in Gb as [_ Gb]. split_and!; try done.
      rewrite decide_True in Gct by done. cbn in Gct. unfold negs. lia.
    - assert (P : (ext <$> u1 ++ u2) ++ (snd <$> (l, (b_num b, b_pc b)) :: f) ++ (out_ext (ps c) <$> out) ≡ₚ
                  ext (l, b) :: (ext <$> u1 ++ u2) ++ (snd <$> f) ++ (out_ext (ps c) <$> out)).
      { cbn. by rewrite <- Permutation_middle. }
      rewrite P. split_and!; try done.
      + intros l' n p [[= -> -> ->]|Hin]%elem_of_cons; [lia|by apply (Gfr l')].
      + rewrite decide_False in Gct by lia. unfold negs. lia. }
  destruct Hx as (Hx1 & Hx2 & Hx3 & Hx4).
  split; rewrite ?E1, ?E2, ?E3, ?E4, ?E5, ?E6; try done.
  - intros x bx Hx. apply (Gu x). set_solver.
  - intros x bx Hx H1 H2. unfold on_disk. rewrite E1, E2, E3. apply (Gc x); [set_solver|done|done].
  - by apply NoDup_cons in Gn as [_ Gn].
  - intros x bx Hx. apply (Gg x). set_solver.
  - intros o n E. destruct (Gpd o n E) as (H1 & H2 & H3). refine (conj H1 (conj H2 _)).
    intros x bx Hx. apply (H3 x). set_solver.
Qed.

Lemma mf_free_ok s u1 u2 f out pend B l b :
  rep s (u1 ++ (l, b) :: u2) f out pend B ->
  exists s' f', mf_free (Some l) s = Ok (tt, s') /\ rep s' (u1 ++ u2) f' out pend B /\ later (core s) (core s') /\
    f' = (if b_num b <? 0 then f else (l, (b_num b, b_pc b)) :: f) /\
    (forall h bs, default h (pend !! h) <> b_num b ->
       holds (u1 ++ (l, b) :: u2) out pend h bs -> holds (u1 ++ u2) out pend h bs).
Proof.
  intros HR. pose proof HR as (HL & HT & G).
  destruct (rep_mem _ _ _ _ _ _ l b HR) as (nd & E & Eb); [set_solver|].
  destruct (block_bytes _ _ _ _ _ l b G) as (bs & Ebs & _ & _); [set_solver|].
  assert (En : bh_bnum nd = b_num b) by (by rewrite <- Eb).
  assert (Edt : bh_data nd = BLive bs) by (by rewrite <- Ebs, <- Eb).
  set (b' := MkBlock (b_num b) (b_pc b) (b_flags b) BFreed).
  destruct (lists_update_used s u1 u2 f [] B l b b' (set_bh_data BFreed) HL) as (s1 & R1 & HL1 & [Q1 C1]);
    [done|by intros nd' <-|done|done|].
  destruct (lists_remove_hash_first _ _ _ _ _ _ _ _ HL1) as (s2 & s3 & R2 & R3 & HL3 & [Q3 C3]).
  assert (Q : core s3 = core s) by congruence.
  assert (Hrun : mf_free (Some l) s =
    (if b_num b <? 0 then
       free_node bhdr (Some l) ;; modmf (fun m => set_mf_neg_count (mf_neg_count m - 1) m)
     else mf_ins_free (Some l)) s3).
  { unfold mf_free. mstep ltac:(by apply dblock_ok). rewrite Edt, En. mstep ltac:(reflexivity).
    mstep ltac:(exact R1). mstep ltac:(exact R2). mstep ltac:(exact R3). done. }
  assert (Hh : forall h bs, default h (pend !! h) <> b_num b ->
       holds (u1 ++ (l, b) :: u2) out pend h bs -> holds (u1 ++ u2) out pend h bs).
  { intros h bs' Hne [(x & bx & Hin & Ex & Edx)|Ho]; [left|by right].
    assert (Hx : (x, bx) = (l, b) \/ (x, bx) ∈ u1 ++ u2) by set_solver.
    destruct Hx as [[= -> ->]|Hx]; [congruence|]. by exists x, bx. }
  rewrite Hrun. destruct (Z.ltb_spec (b_num b) 0) as [Hneg|Hneg].
  - destruct (lists_free_loose _ _ _ _ _ _ _ HL3) as (s4 & R4 & HL4 & [Q4 C4]).
    assert (Q' : core s4 = core s) by congruence.
    eexists _, f. split_and!; [mstep ltac:(exact R4); apply modmf_ok| | |done|done].
    + split; [by eapply lists_view, HL4|]. split; [exact (translations_core s s4 _ _ Q' HT)|].
      change (good (core_neg (mf_neg_count (mfp (core s4)) - 1) (core s4)) (u1 ++ u2) f out pend). rewrite Q'.
      apply (good_remove_used (core s) _ u1 u2 l b f); try done.
      rewrite (proj2 (Z.ltb_lt _ _)) by done. done.
    + change (later (core s) (core_neg (mf_neg_count (mfp (core s4)) - 1) (core s4))). rewrite Q'. by split.
  - destruct (lists_push_free _ _ _ _ _ _ _ HL3) as (s4 & R4 & HL4 & [Q4 C4]).
    assert (Q' : core s4 = core s) by congruence. cbn in HL4.
    exists s4, ((l, (b_num b, b_pc b)) :: f). split_and!; [done| |by rewrite Q'|done|done].
    split; [done|]. split; [by apply (translations_core s)|]. rewrite Q'.
    apply (good_remove_used (core s) _ u1 u2 l b f); try done.
    rewrite (proj2 (Z.ltb_ge _ _)) by done. done.
Qed.

(** ** Using a translation up *)
Lemma rep_trans_del s u f out pend B o :
  rep s u f out pend B ->
  exists s', mf_trans_del o s = Ok (default o (pend !! o), s') /\ rep s' u f out (delete o pend) B /\
    later (core s) (core s') /\
    (forall bs, holds u out pend o bs -> holds u out (delete o pend) (default o (pend !! o)) bs) /\
    (forall h bs, h <> o -> holds u out pend h bs -> holds u out (delete o pend) h bs).
Proof.
  intros (HL & HT & G). destruct (mf_trans_del_ok s pend o HT) as (s' & R & HT' & V & K & C & Hsame).
  assert (G' : good (core s') u f out (delete o pend) /\ later (core s) (core s')).
  { pose proof (f_equal (fun c => ps c) C) as E1. pose proof (f_equal (fun c => infile c) C) as E2.
    pose proof (f_equal disk C) as E3. pose proof (f_equal (fun c => mf_fd (mfp c)) C) as E4.
    pose proof (f_equal (fun c => mf_blocknr_max (mfp c)) C) as E5.
    pose proof (f_equal (fun c => mf_blocknr_min (mfp c)) C) as E6.
    pose proof (f_equal (fun c => mf_neg_count (mfp c)) C) as E7.
    pose proof (f_equal (fun c => mf_used_count_max (mfp c)) C) as E8.
    destruct (pend !! o) as [n|] eqn:Ep; [|rewrite (Hsame eq_refl), delete_id by done; by split].
    cbn in E1, E2, E3, E4, E5, E6, E7, E8. split.
    2: { split; cbn; rewrite ?E1, ?E2, ?E3, ?E4, ?E5, ?E6, ?E8; try done;
         [exact (f_equal (fun c => mf_fname (mfp c)) C)|exact (f_equal (fun c => mf_xfname (mfp c)) C)|exact (f_equal strs C)]. }
    destruct G as [Gp Gi Gf Ga Gb Gm Gu Gfr Go Gc Gn Gg Gmi Gpd Gct].
    split; unfold on_disk in *; cbn in *; rewrite ?E1, ?E2, ?E3, ?E4, ?E5, ?E6, ?E7; try done.
    - intros o' n' Hp%lookup_delete_Some. apply Gpd. by destruct Hp.
    - rewrite Gct, map_size_delete, Ep. cbn.
      assert (size pend <> 0%nat); [|lia]. intros Hz%map_size_empty_iff. by rewrite Hz, lookup_empty in Ep. }
  destruct G' as [G' Hlt]. exists s'. split_and!; [done|split; [by eapply lists_view, HL|done]|done| |].
  - intros bs. unfold holds. destruct (pend !! o) as [n|] eqn:Ep; cbn.
    + destruct (gd_pend _ _ _ _ _ G o n Ep) as (Ho & Hn & _).
      destruct (delete o pend !! n) as [m|] eqn:Em; [|done].
      apply lookup_delete_Some in Em as [_ Em]. destruct (gd_pend _ _ _ _ _ G n m Em) as (? & _). lia.
    + by rewrite lookup_delete_eq.
  - intros h bs Hh. unfold holds. by rewrite lookup_delete_ne.
Qed.

(** ** New blocks *)
Lemma good_take c c' u f out pend pc n f' max' :
  good c u f out pend -> 0 < pc -> take_num pc (mf_blocknr_max (mfp c)) f = (n, f', max') ->
  ps c' = ps c -> infile c' = infile c -> disk c' = disk c -> mf_fd (mfp c') = mf_fd (mfp c) ->
  mf_blocknr_max (mfp c') = max' -> mf_blocknr_min (mfp c') = mf_blocknr_min (mfp c) ->
  mf_neg_count (mfp c') = mf_neg_count (mfp c) ->
  good c' u f' out pend /\ 0 <= n /\ Forall (disj (n, pc)) (extents (ps c') u f' out) /\ n + pc <= max' /\
  mf_blocknr_max (mfp c) <= max'.
Proof.
  intros G Hpc Ht E1 E2 E3 E4 E5 E6 E7. destruct G as [Gp Gi Gf Ga Gb Gm Gu Gfr Go Gc Gn Gg Gmi Gpd Gct].
  set (es := (ext <$> u) ++ (out_ext (ps c) <$> out)).
  assert (P : forall g, extents (ps c) u g out ≡ₚ (snd <$> g) ++ es) by (intros g; unfold extents, es; solve_Permutation).
  rewrite P in Ga, Gb.
  destruct (take_num_apart _ _ _ es n f' max' Ht Hpc Gm Gfr Ga Gb) as (Hn & Hmx & [Ha1 Ha2] & Hb & Hf').
  apply Forall_cons in Hb as [Hb1 Hb2]. cbn in Hb1.
  split_and!; [|done|by rewrite E1, P|lia|done].
  split; rewrite ?E1, ?E2, ?E3, ?E4, ?E5, ?E6, ?E7; try done.
  - by rewrite P.
  - by rewrite P.
  - lia.
  - intros l b Hl H1 H2. unfold on_disk. rewrite E1, E2, E3. by apply (Gc l).
Qed.

Lemma good_new_negative c c' u f out pend l b bs :
  good c u f out pend -> b_data b = BLive bs -> zlen bs = ps c * b_pc b -> 0 < b_pc b -> ps c * b_pc b < 2 ^ 32 ->
  is_dirty (b_flags b) = true -> b_num b = mf_blocknr_min (mfp c) ->
  ps c' = ps c -> infile c' = infile c -> disk c' = disk c -> mf_fd (mfp c') = mf_fd (mfp c) ->
  mf_blocknr_max (mfp c') = mf_blocknr_max (mfp c) -> mf_blocknr_min (mfp c') = mf_blocknr_min (mfp c) - 1 ->
  mf_neg_count (mfp c') = mf_neg_count (mfp c) + 1 ->
  good c' ((l, b) :: u) f out pend.
Proof.
  intros G Ed Hz Hpc Hsz Hd Hn E1 E2 E3 E4 E5 E6 E7. destruct G as [Gp Gi Gf Ga Gb Gm Gu Gfr Go Gc Gn Gg Gmi Gpd Gct].
  split; rewrite ?E1, ?E2, ?E3, ?E4, ?E5, ?E6, ?E7; try done.
  - change (extents (ps c) ((l, b) :: u) f out) with (ext (l, b) :: extents (ps c) u f out).
    apply apart_cons. split; [|done]. apply Forall_true. intros e. unfold disj. cbn. lia.
  - change (extents (ps c) ((l, b) :: u) f out) with (ext (l, b) :: extents (ps c) u f out).
    apply Forall_cons. split; [left; cbn; lia|done].
  - intros x bx [[= -> ->]|Hx]%elem_of_cons; [|by apply (Gu x)]. split_and!; [done|done|by exists bs].
  - intros x bx [[= -> ->]|Hx]%elem_of_cons H1 H2; [congruence|]. unfold on_disk. rewrite E1, E2, E3. by apply (Gc x).
  - cbn. apply NoDup_cons. split; [|done]. intros [[x bx] [E Hx]]%list_elem_of_fmap. cbn in E.
    pose proof (Gg x bx Hx). lia.
  - intros x bx [[= -> ->]|Hx]%elem_of_cons; [lia|]. pose proof (Gg x bx Hx). lia.
  - lia.
  - intros o n E. destruct (Gpd o n E) as (H1 & H2 & H3). split_and!; [lia|lia|lia|].
    intros x bx [[= -> ->]|Hx]%elem_of_cons; [lia|exact (H3 x bx Hx)].
  - rewrite Gct. unfold negs. rewrite filter_cons. cbn. rewrite decide_True by lia. cbn. lia.
Qed.

(** A header with the number of a new block, not yet on any list. *)
Definition numbered (s : mfs) l b u f out pend B pc : Prop :=
  lists s u f [(l, b)] B /\ translations s [] pend /\
  forall fl, is_dirty fl = true -> good (core s) ((l, MkBlock (b_num b) pc fl (b_data b)) :: u) f out pend.

Definition finish_new (hp : option loc) (page_count : Z) : M mfs cfault (option loc) :=
  match hp with
  | None => mret None
  | Some _ =>
      assign (V := bhdr) hp (set_bh_flags (Z.lor BH_LOCKED BH_DIRTY)) ;;
      modmf (set_mf_dirty true) ;;
      assign (V := bhdr) hp (set_bh_page_count page_count) ;;
      mf_ins_used hp ;;
      mf_ins_hash hp ;;
      mret hp
  end.

Lemma finish_new_ok s l b u f out pend B pc :
  numbered s l b u f out pend B pc ->
  exists s' fl, finish_new (Some l) pc s = Ok (Some l, s') /\
    rep s' ((l, MkBlock (b_num b) pc fl (b_data b)) :: u) f out pend B /\
    is_locked fl = true /\ is_dirty fl = true /\ later (core s) (core s').
Proof.
  intros (HL & HT & G). set (fl := Z.lor BH_LOCKED BH_DIRTY).
  destruct (lists_update_loose s u f [] B l b (with_flags fl b) (set_bh_flags fl) HL) as (s1 & R1 & HL1 & [Q1 C1]);
    [done|by intros nd <-|].
  set (s2 := set_mfp (set_mf_dirty true (mfp s1)) s1).
  assert (HL2 : lists s2 u f [(l, with_flags fl b)] B) by (by eapply lists_view, HL1).
  destruct (lists_update_loose s2 u f [] B l _ (MkBlock (b_num b) pc fl (b_data b)) (set_bh_page_count pc) HL2)
    as (s3 & R3 & HL3 & [Q3 C3]); [done|intros nd [=]; unfold block_of; cbn; congruence|].
  destruct (lists_insert _ _ _ _ _ _ _ HL3) as (s4 & s5 & R4 & R5 & HL5 & [Q5 C5]).
  destruct (flag_laws BH_LOCKED) as (_ & _ & _ & _ & F1 & _).
  destruct (flag_laws BH_DIRTY) as (_ & _ & _ & _ & _ & _ & F2 & _). rewrite Z.lor_comm in F2. fold fl in F1, F2.
  assert (Q : core s5 = set_mfp (set_mf_dirty true (mfp (core s))) (core s)).
  { rewrite Q5, Q3. change (core s2) with (set_mfp (set_mf_dirty true (mfp (core s1))) (core s1)). by rewrite Q1. }
  exists s5, fl. split_and!; [| |done|done|by rewrite Q].
  - unfold finish_new. mstep ltac:(exact R1). mstep ltac:(apply modmf_ok). mstep ltac:(exact R3).
    mstep ltac:(exact R4). mstep ltac:(exact R5). done.
  - split; [done|]. split.
    + destruct HT as [tr HT]. exists tr. change (mf_trans (mfp s5)) with (mf_trans (mfp (core s5))).
      change (transes s5) with (transes (core s5)). rewrite Q. exact HT.
    + rewrite Q. eapply good_fields; [by apply (G fl)|done..].
Qed.

Definition with_num (n : Z) (b : mblock) : mblock := MkBlock n (b_pc b) (b_flags b) (b_data b).

(** The order of the headers on no list does not matter. *)
Lemma lists_perm_loose s u f L L' B : lists s u f L B -> L ≡ₚ L' -> lists s u f L' B.
Proof.
  intros (c & [N D U F La Bl Fr Frs Hd Ch Cn Ci Co To] & Hu & HL) P. cbn in *. exists c. split_and!.
  - split; cbn; try done.
    + by rewrite <- P.
    + rewrite D. by rewrite P.
    + intros l b. rewrite <- P. by apply Bl.
    + intros k l Hk Hl. setoid_rewrite <- P. by apply Ci.
  - done.
  - intros l b k. rewrite <- P. by apply HL.
Qed.

(** The three ways to a number for the header [l] at hand. *)
Lemma number_negative s u f out pend B l b pc :
  repl s u f [(l, b)] out pend B -> fresh_block (ps s) pc b -> 0 < pc -> ps s * pc < 2 ^ 32 ->
  exists s', (assign (V := bhdr) (Some l) (set_bh_bnum (mf_blocknr_min (mfp s))) ;;
              modmf (fun m => set_mf_blocknr_min (mf_blocknr_min m - 1) m) ;;
              modmf (fun m => set_mf_neg_count (mf_neg_count m + 1) m)) s = Ok (tt, s') /\
    numbered s' l (with_num (mf_blocknr_min (mfp s)) b) u f out pend B pc /\ later (core s) (core s').
Proof.
  intros HR [Hb (bs & Ed & Hz)] Hpc Hsz. pose proof HR as (HL & HT & G).
  set (n := mf_blocknr_min (mfp s)).
  destruct (repl_update s u f [] out pend B l b (with_num n b) (set_bh_bnum n) HR) as (s1 & R1 & (HL1 & HT1 & G1) & Q1);
    [done|by intros nd <-|].
  eexists. split; [mstep ltac:(exact R1); mstep ltac:(apply modmf_ok); apply modmf_ok|].
  match goal with |- numbered ?x _ _ _ _ _ _ _ _ /\ _ => set (c' := core x) end.
  assert (C : c' = core_neg (mf_neg_count (mfp (core s)) + 1)
                                   (set_mfp (set_mf_blocknr_min (mf_blocknr_min (mfp (core s)) - 1) (mfp (core s))) (core s))).
  { unfold c'. rewrite <- Q1. done. }
  split.
  - split; [by eapply lists_view, HL1|]. split; [done|]. intros fl Hfl. fold c'. rewrite C.
    eapply (good_new_negative (core s)); try done.
  - rewrite C. split; try done. cbn. lia.
Qed.

Lemma number_positive s u f out pend B l b pc :
  repl s u f [(l, b)] out pend B -> fresh_block (ps s) pc b -> 0 < pc -> ps s * pc < 2 ^ 32 ->
  take_num pc (mf_blocknr_max (mfp s)) f = (mf_blocknr_max (mfp s), f, mf_blocknr_max (mfp s) + pc) ->
  exists s', (assign (V := bhdr) (Some l) (set_bh_bnum (mf_blocknr_max (mfp s))) ;;
              modmf (fun m => set_mf_blocknr_max (mf_blocknr_max m + pc) m)) s = Ok (tt, s') /\
    numbered s' l (with_num (mf_blocknr_max (mfp s)) b) u f out pend B pc /\ later (core s) (core s').
Proof.
  intros HR [Hb (bs & Ed & Hz)] Hpc Hsz Ht. pose proof HR as (HL & HT & G).
  set (n := mf_blocknr_max (mfp s)) in *.
  destruct (repl_update s u f [] out pend B l b (with_num n b) (set_bh_bnum n) HR) as (s1 & R1 & (HL1 & HT1 & G1) & Q1);
    [done|by intros nd <-|].
  eexists. split; [mstep ltac:(exact R1); apply modmf_ok|].
  match goal with |- numbered ?x _ _ _ _ _ _ _ _ /\ _ => set (c' := core x) end.
  assert (C : c' = core_max (mf_blocknr_max (mfp (core s)) + pc) (core s)).
  { unfold c'. rewrite <- Q1. done. }
  destruct (good_take (core s) c' u f out pend pc n f (n + pc) G Hpc Ht) as (G' & Hn & Ha & Hmx & Hmm);
    [by rewrite C..|].
  split.
  - split; [by eapply lists_view, HL1|]. split; [done|]. intros fl Hfl. fold c'.
    apply (good_insert _ _ _ _ _ _ _ bs); try done; rewrite ?C; [done|done|cbn; lia|].
    intros _ Hd. cbn in Hd. congruence.
  - rewrite C. by split; cbn; try lia.
Qed.

Lemma number_split s u f out pend B l b pc lf n p :
  repl s u ((lf, (n, p)) :: f) [(l, b)] out pend B -> fresh_block (ps s) pc b -> 0 < pc < p -> ps s * pc < 2 ^ 32 ->
  exists s', (assign (V := bhdr) (Some l) (set_bh_bnum n) ;;
              assign (V := bhdr) (Some lf) (fun b => set_bh_bnum (bh_bnum b + pc) b) ;;
              assign (V := bhdr) (Some lf) (fun b => set_bh_page_count (bh_page_count b - pc) b)) s = Ok (tt, s') /\
    numbered s' l (with_num n b) u ((lf, (n + pc, p - pc)) :: f) out pend B pc /\ later (core s) (core s').
Proof.
  intros HR [Hb (bs & Ed & Hz)] Hpc Hsz. pose proof HR as (HL & HT & G).
  destruct (repl_update s u _ [] out pend B l b (with_num n b) (set_bh_bnum n) HR) as (s1 & R1 & (HL1 & HT1 & G1) & Q1);
    [done|by intros nd <-|].
  destruct (lists_update_free s1 u f [(l, with_num n b)] B lf (n, p) (n + pc, p) (fun b => set_bh_bnum (bh_bnum b + pc) b) HL1)
    as (s2 & R2 & HL2 & [Q2 _]); [done|by intros nd [= <- <-]|].
  destruct (lists_update_free s2 u f [(l, with_num n b)] B lf _ (n + pc, p - pc)
              (fun b => set_bh_page_count (bh_page_count b - pc) b) HL2) as (s3 & R3 & HL3 & [Q3 _]);
    [done|intros nd [= E1 E2]; unfold free_of; cbn; congruence|].
  assert (Q : core s3 = core s) by congruence.
  assert (Ht : take_num pc (mf_blocknr_max (mfp (core s))) ((lf, (n, p)) :: f) =
               (n, (lf, (n + pc, p - pc)) :: f, mf_blocknr_max (mfp (core s)))).
  { cbn -[core]. rewrite (proj2 (Z.ltb_ge _ _)), Z.gtb_ltb, (proj2 (Z.ltb_lt _ _)) by lia. done. }
  destruct (good_take (core s) (core s) u _ out pend pc n _ _ G (proj1 Hpc) Ht) as (G' & Hn & Ha & Hmx & Hmm); [done..|].
  exists s3. split_and!; [mstep ltac:(exact R1); mstep ltac:(exact R2); exact R3| |by rewrite Q].
  split; [done|]. split; [by apply (translations_core s)|]. intros fl Hfl. rewrite Q.
  apply (good_insert _ _ _ _ _ _ _ bs); try done; [cbn; lia|]. intros _ Hd. cbn in Hd. congruence.
Qed.

Lemma number_reuse s u f out pend B l b pc lf n :
  repl s u ((lf, (n, pc)) :: f) [(l, b)] out pend B -> fresh_block (ps s) pc b -> 0 < pc -> ps s * pc < 2 ^ 32 ->
  exists s', (freep ← mf_rem_free;
              x ← deref (V := bhdr) freep;
              assign (V := bhdr) (Some l) (set_bh_bnum (bh_bnum x.2)) ;;
              free_node bhdr freep) s = Ok (tt, s') /\
    numbered s' l (with_num n b) u f out pend B pc /\ later (core s) (core s').
Proof.
  intros HR [Hb (bs & Ed & Hz)] Hpc Hsz. pose proof HR as (HL & HT & G).
  destruct (lists_pop_free _ _ _ _ _ _ _ HL) as (s1 & bf & R1 & HL1 & [Q1 _] & Ef). injection Ef as -> Epf.
  destruct (lists_block _ _ _ _ _ lf bf HL1) as (nd & E & Eb); [set_solver|].
  apply (lists_perm_loose _ _ _ _ [(l, b); (lf, bf)]) in HL1; [|by apply perm_swap].
  destruct (lists_update_loose s1 u f [(lf, bf)] B l b (with_num (b_num bf) b) (set_bh_bnum (b_num bf)) HL1)
    as (s2 & R2 & HL2 & [Q2 _]); [done|by intros nd' <-|].
  apply (lists_perm_loose _ _ _ _ [(lf, bf); (l, with_num (b_num bf) b)]) in HL2; [|by apply perm_swap].
  destruct (lists_free_loose _ _ _ _ _ _ _ HL2) as (s3 & R3 & HL3 & [Q3 _]).
  assert (Q : core s3 = core s) by congruence.
  assert (Ht : take_num pc (mf_blocknr_max (mfp (core s))) ((lf, (b_num bf, pc)) :: f) =
               (b_num bf, f, mf_blocknr_max (mfp (core s)))).
  { cbn -[core]. rewrite (proj2 (Z.ltb_ge _ _)), Z.gtb_ltb, (proj2 (Z.ltb_ge _ _)) by lia. done. }
  destruct (good_take (core s) (core s) u _ out pend pc _ _ _ G Hpc Ht) as (G' & Hn & Ha & Hmx & Hmm); [done..|].
  exists s3. split_and!; [| |by rewrite Q].
  - mstep ltac:(exact R1). mstep ltac:(by apply dblock_ok). rewrite <- Eb in R2. mstep ltac:(exact R2). exact R3.
  - split; [done|]. split; [by apply (translations_core s)|]. intros fl Hfl. rewrite Q.
    apply (good_insert _ _ _ _ _ _ _ bs); try done; intros _ Hd. cbn in Hd. congruence.
Qed.

(** The free header itself is used when [mf_release] gave none. *)
Lemma number_free_header s u f out pend B pc lf n :
  repl s u ((lf, (n, pc)) :: f) [] out pend B -> 0 < pc -> ps s * pc < 2 ^ 32 ->
  exists s' r, (p ← alloc_buffer (u32 (ps s * pc));
                match p with
                | BNull => mret None
                | _ => hp ← mf_rem_free; assign (V := bhdr) hp (set_bh_data p) ;; mret hp
                end) s = Ok (r, s') /\ later (core s) (core s') /\
    match r with
    | None => repl s' u ((lf, (n, pc)) :: f) [] out pend B
    | Some l => exists b bs, numbered s' l b u f out pend B pc /\ b_num b = n /\ b_data b = BLive bs /\ zlen bs = ps s * pc
    end.
Proof.
  intros HR Hpc Hsz. pose proof HR as (HL & HT & G). pose proof (gd_ps _ _ _ _ _ G) as Gp. cbn in Gp.
  rewrite u32_small by nia. destruct (alloc_buffer_ok (ps s * pc) s) as (d & Rd & Hd).
  set (s0 := set_calls (Datatypes.S (calls s)) s). destruct d as [|bs|]; [| |done].
  { exists s0, None. split_and!; [by mstep ltac:(exact Rd)|done|by apply repl_tick]. }
  assert (HL0 : lists s0 u ((lf, (n, pc)) :: f) [] B) by (by eapply lists_view, HL).
  destruct (lists_pop_free _ _ _ _ _ _ _ HL0) as (s1 & bf & R1 & HL1 & [Q1 _] & Ef). injection Ef as -> Epf.
  set (b := MkBlock (b_num bf) (b_pc bf) (b_flags bf) (BLive bs)).
  destruct (lists_update_loose s1 u f [] B lf bf b (set_bh_data (BLive bs)) HL1) as (s2 & R2 & HL2 & [Q2 _]);
    [done|by intros nd' <-|].
  assert (Q : core s2 = core s) by (by rewrite Q2, Q1).
  assert (Ht : take_num pc (mf_blocknr_max (mfp (core s))) ((lf, (b_num bf, pc)) :: f) =
               (b_num bf, f, mf_blocknr_max (mfp (core s)))).
  { cbn -[core]. rewrite (proj2 (Z.ltb_ge _ _)), Z.gtb_ltb, (proj2 (Z.ltb_ge _ _)) by lia. done. }
  destruct (good_take (core s) (core s) u _ out pend pc _ _ _ G Hpc Ht) as (G' & Hn & Ha & Hmx & Hmm); [done..|].
  exists s2, (Some lf). split_and!; [mstep ltac:(exact Rd); mstep ltac:(exact R1); mstep ltac:(exact R2); done|by rewrite Q|].
  exists b, bs. split_and!; try done. split; [done|]. split; [by apply (translations_core s)|]. intros fl Hfl. rewrite Q.
  apply (good_insert _ _ _ _ _ _ _ bs); try done; first [cbn; lia|intros _ Hd'; cbn in Hd'; congruence].
Qed.

(** What [mf_new] leaves behind and returns. *)
Definition new_result s u out (pend : gmap Z Z) B (negative : bool) (pc : Z)
    (o : res cfault (option loc * mfs)) : Prop :=
  exists s' r u' f' out' pend', o = Ok (r, s') /\ rep s' u' f' out' pend' B /\
    later (core s) (core s') /\ keeps u out pend u' out' pend' /\
    match r with
    | None => True
    | Some l => exists b bs u1 gone, u' = (l, b) :: u1 /\ released u u1 gone /\ b_pc b = pc /\
        b_data b = BLive bs /\ zlen bs = ps s * pc /\ is_locked (b_flags b) = true /\
        is_dirty (b_flags b) = true /\ (if negative then b_num b < 0 else 0 <= b_num b)
    end.

Lemma new_finish s u out pend B (negative : bool) pc s3 l b bs u1 f3 out1 pend1 gone :
  numbered s3 l b u1 f3 out1 pend1 B pc -> later (core s) (core s3) -> keeps u out pend u1 out1 pend1 ->
  released u u1 gone -> b_data b = BLive bs -> zlen bs = ps s * pc ->
  (if negative then b_num b < 0 else 0 <= b_num b) ->
  new_result s u out pend B negative pc (finish_new (Some l) pc s3).
Proof.
  intros HN Hlt Hk Hrel Ed Hz Hnum.
  destruct (finish_new_ok s3 l b u1 f3 out1 pend1 B pc HN) as (s4 & fl & R4 & HR4 & F1 & F2 & Hlt4).
  eexists s4, (Some l), _, f3, out1, pend1. split_and!; [exact R4|exact HR4|by etrans| |].
  - eapply keeps_then; [exact Hk|]. intros h bs' [(x & bx & Hin & Hx)|Ho]; [left|by right].
    exists x, bx. split; [set_solver|done].
  - eexists _, bs, u1, gone. by split_and!.
Qed.

Lemma new_none s u out pend B (negative : bool) pc s3 u1 f3 out1 pend1 :
  repl s3 u1 f3 [] out1 pend1 B -> later (core s) (core s3) -> keeps u out pend u1 out1 pend1 ->
  new_result s u out pend B negative pc (finish_new None pc s3).
Proof. intros HR3 Hlt3 Hk. by exists s3, None, u1, f3, out1, pend1. Qed.

Lemma mf_new_ok `{DF : !DataFollows} s u f out pend B negative pc :
  rep s u f out pend B -> 0 < pc -> ps s * pc < 2 ^ 32 ->
  new_result s u out pend B negative pc (mf_new negative pc s).
Proof.
  intros HR Hpc Hsz.
  destruct (release_or_alloc s u f out pend B pc HR Hpc Hsz)
    as (s1 & r1 & s2 & r2 & u1 & f1 & out1 & pend1 & gone & R1 & R2 & Hlt & Hk & Hrel & _ & Q & Hg1 & Hg2).
  assert (Hlt1 : later (core s) (core s1)) by (by rewrite <- Q).
  pose proof (lt_ps _ _ Hlt) as Ep. cbn in Ep. pose proof (lt_ps _ _ Hlt1) as Ep1. cbn in Ep1.
  assert (HL1 : exists L, lists s1 u1 f1 L B /\ good (core s1) u1 f1 out1 pend1).
  { destruct r1 as [l1|]; [destruct Hg1 as (b1 & (HL1 & _ & G1) & _)|destruct Hg1 as (HL1 & _ & G1)]; eauto. }
  destruct HL1 as (L1 & HL1 & G1). pose proof (lists_free_first _ _ _ _ _ HL1) as Hf1.
  assert (Emin : mf_blocknr_min (mfp s1) = mf_blocknr_min (mfp s2)) by (by apply (core_field (fun s => mf_blocknr_min (mfp s)))).
  assert (Emax : mf_blocknr_max (mfp s1) = mf_blocknr_max (mfp s2)) by (by apply (core_field (fun s => mf_blocknr_max (mfp s)))).
  pose proof (gd_min _ _ _ _ _ G1) as Hmin. pose proof (gd_max _ _ _ _ _ G1) as Hmax. cbn in Hmin, Hmax.
  unfold mf_new. mstep ltac:(exact R1). mstep ltac:(apply mf_ok). rewrite Hf1.
  set (enough := match f1 with
                 | (lf, (n, p)) :: _ => negb negative && (p >=? pc)
                 | [] => false
                 end).
  assert (He : exists nd, (match first_of f1.*1 None with
            | None => mret None
            | Some _ =>
                x ← deref (V := bhdr) (first_of f1.*1 None);
                mret (if negb negative && (bh_page_count x.2 >=? pc) then Some x.2 else None)
            end) s1 = Ok (if enough then Some nd else None, s1) /\
            forall lf fr f', f1 = (lf, fr) :: f' -> blocks s1 !! lf = Some nd /\ free_of nd = fr).
  { destruct f1 as [|[lf [n p]] f']; [exists uninit_bhdr; by split|].
    destruct (lists_free _ _ _ _ _ lf (n, p) HL1) as (nd & E & Ef); [set_solver|].
    exists nd. split; [|by intros ? ? ? [= <- <- <-]]. cbn [fmap list_fmap first_of fst].
    mstep ltac:(by apply dblock_ok). injection Ef as _ ->. done. }
  destruct He as (nd & Rn & Hnd). mstep ltac:(exact Rn). clear Rn.
  assert (Hfb : forall l b, r2 = Some l -> fresh_block (ps s) pc b -> fresh_block (ps s2) pc b) by (by rewrite Ep).
  rewrite Emin, Emax. destruct enough eqn:Een; cycle 1.
  - (* a new number *)
    destruct r2 as [l|]; cycle 1.
    { mstep ltac:(mstep ltac:(exact R2); reflexivity). by apply (new_none _ _ _ _ _ _ _ _ u1 f1 out1 pend1). }
    destruct Hg2 as (b & HR2 & Hb). pose proof Hb as (_ & bs & Ed & Hz).
    specialize (Hfb l b eq_refl Hb). rewrite <- Ep in Hsz. destruct negative.
    + destruct (number_negative s2 u1 f1 out1 pend1 B l b pc HR2 Hfb Hpc Hsz) as (s3 & R3 & HN & Hlt3).
      mstep ltac:(mstep ltac:(exact R2); mstep ltac:(exact R3); reflexivity).
      apply (new_finish _ _ _ _ _ _ _ _ l _ bs u1 f1 out1 pend1 gone HN); try done; [etrans; [exact Hlt|exact Hlt3]|cbn; lia].
    + destruct (number_positive s2 u1 f1 out1 pend1 B l b pc HR2 Hfb Hpc Hsz) as (s3 & R3 & HN & Hlt3).
      { unfold take_num. destruct f1 as [|[lf [n p]] f']; [done|]. cbn in Een. rewrite Z.geb_leb in Een.
        rewrite (proj2 (Z.ltb_lt _ _)); [done|]. apply Z.leb_gt in Een. lia. }
      mstep ltac:(mstep ltac:(exact R2); mstep ltac:(exact R3); reflexivity).
      apply (new_finish _ _ _ _ _ _ _ _ l _ bs u1 f1 out1 pend1 gone HN); try done; [etrans; [exact Hlt|exact Hlt3]|cbn; lia].
  - (* a number of the free list *)
    destruct f1 as [|[lf [n p]] f']; [done|]. destruct (Hnd lf (n, p) f' eq_refl) as [E Ef].
    injection Ef as En Epn. cbn [fmap list_fmap first_of fst]. rewrite Epn, En.
    apply andb_true_iff in Een as [Eneg Epp]. rewrite Z.geb_leb in Epp. apply Z.leb_le in Epp.
    destruct negative; [done|]. clear Eneg.
    assert (Hn : 0 <= n) by (by destruct (gd_free _ _ _ _ _ G1 lf n p); [set_solver|]).
    rewrite Z.gtb_ltb. destruct (Z.ltb_spec pc p) as [Hp|Hp].
    + destruct r2 as [l|]; cycle 1.
      { mstep ltac:(mstep ltac:(exact R2); reflexivity). by apply (new_none _ _ _ _ _ _ _ _ u1 ((lf, (n, p)) :: f') out1 pend1). }
      destruct Hg2 as (b & HR2 & Hb). pose proof Hb as (_ & bs & Ed & Hz).
      specialize (Hfb l b eq_refl Hb). rewrite <- Ep in Hsz.
      destruct (number_split s2 u1 f' out1 pend1 B l b pc lf n p HR2 Hfb) as (s3 & R3 & HN & Hlt3); [lia|done|].
      apply M_bind_inv in R3 as ([] & sa & Ra & R3). apply M_bind_inv in R3 as ([] & sb & Rb & Rc).
      mstep ltac:(mstep ltac:(exact R2); mstep ltac:(exact Ra); mstep ltac:(exact Rb); mstep ltac:(exact Rc); reflexivity).
      apply (new_finish _ _ _ _ _ _ _ _ l _ bs u1 _ out1 pend1 gone HN); try done.
      etrans; [exact Hlt|exact Hlt3].
    + assert (p = pc) as -> by lia. rewrite <- Ep1 in Hsz. destruct r1 as [l|].
      * destruct Hg1 as (b & HR1 & Hb). pose proof Hb as (_ & bs & Ed & Hz).
        assert (Hb1 : fresh_block (ps s1) pc b) by (by rewrite Ep1).
        destruct (number_reuse s1 u1 f' out1 pend1 B l b pc lf n HR1 Hb1 Hpc Hsz) as (s3 & R3 & HN & Hlt3).
        apply M_bind_inv in R3 as (fp & sa & Ra & R3). apply M_bind_inv in R3 as (x & sb & Rb & R3).
        apply M_bind_inv in R3 as ([] & sc & Rc & Rd).
        mstep ltac:(mstep ltac:(exact Ra); mstep ltac:(exact Rb); mstep ltac:(exact Rc); mstep ltac:(exact Rd); reflexivity).
        apply (new_finish _ _ _ _ _ _ _ _ l _ bs u1 _ out1 pend1 gone HN); try done.
        etrans; [exact Hlt1|exact Hlt3].
      * destruct (number_free_header s1 u1 f' out1 pend1 B pc lf n Hg1 Hpc Hsz) as (s3 & r & R3 & Hlt3 & Hr).
        mstep ltac:(exact R3). destruct r as [l|].
        -- destruct Hr as (b & bs & HN & En' & Ed & Hz).
           apply (new_finish _ _ _ _ _ _ _ _ l _ bs u1 f' out1 pend1 gone HN); try done; [etrans; [exact Hlt1|exact Hlt3]|by rewrite Hz, Ep1|].
           by rewrite En'.
        -- apply (new_none _ _ _ _ _ _ _ _ u1 ((lf, (n, pc)) :: f') out1 pend1); [done|etrans; [exact Hlt1|exact Hlt3]|done].
Qed.

(** ** [mf_alloc_bhdr] without memory *)
Lemma alloc_bhdr_no_header s pc : alloc_struct (calls s) = false ->
  mf_alloc_bhdr pc s = Ok (None, set_calls (Datatypes.S (calls s)) s).
Proof.
  intros Ha. unfold mf_alloc_bhdr.
  mstep ltac:(unfold alloc_node; mstep ltac:(apply next_call_ok); rewrite Ha; reflexivity). done.
Qed.

Lemma alloc_bhdr_no_data s pc :
  alloc_struct (calls s) = true -> alloc_data (Datatypes.S (calls s)) (u32 (ps s * pc)) = None ->
  mf_alloc_bhdr pc s = Err NullDeref.
Proof.
  intros Ha Hd. set (s1 := set_calls (Datatypes.S (calls s)) s). set (l := new_loc (blocks s1)).
  set (s2 := set_blocks (<[l := uninit_bhdr]> (blocks s1)) s1).
  assert (R1 : alloc_node uninit_bhdr s = Ok (Some l, s2)).
  { unfold alloc_node. mstep ltac:(apply next_call_ok). by rewrite Ha. }
  unfold mf_alloc_bhdr. mstep ltac:(exact R1). mstep ltac:(apply mf_ok).
  set (s3 := set_calls (Datatypes.S (calls s2)) s2).
  assert (R2 : alloc_buffer (u32 (mf_page_size (mfp s2) * pc)) s2 = Ok (BNull, s3)).
  { unfold alloc_buffer. mstep ltac:(apply next_call_ok). change (calls s2) with (Datatypes.S (calls s)).
    change (mfp s2) with (mfp s). by rewrite Hd. }
  mstep ltac:(exact R2).
  mstep ltac:(apply (ablock_ok s3 l _ uninit_bhdr); cbn; by rewrite lookup_insert_eq).
  mstep ltac:(mstep ltac:(unfold free_node; mstep ltac:(apply dblock_ok; cbn; by rewrite lookup_alter_eq, lookup_insert_eq);
    reflexivity); reflexivity).
  done.
Qed.
End calls.
