(* ===== verification/MemfileSync.v ===== *)
(** * The calls of a memory file on all its blocks

    [mf_sync] and [mf_release_all], and the part of opening that names and opens
    the file. *)
From S2P Require Import Prelude Heap Dll Memfile MemfileProofs MemfileOps MemfileStore MemfileBlocks.
From stdpp Require Import strings.
Open Scope Z_scope.
#[local] Arguments Nat.ltb : simpl never.

Section files.
Context `{VM : Vim} `{VL : !VimLaws}.
Implicit Types (u L : list (loc * mblock)) (f : list (loc * (Z * Z))) (out : list (Z * list Z)).
Abbreviation ps c := (mf_page_size (mfp c)).
Abbreviation infile c := (mf_infile_count (mfp c)).

Lemma last_of_snoc (a : list (loc * mblock)) l b : last_of None (a ++ [(l, b)]).*1 = Some l.
Proof. rewrite fmap_app. cbn. unfold last_of. by rewrite last_snoc. Qed.

Lemma middle_mem (a c : list (loc * mblock)) l b : (l, b) ∈ a ++ (l, b) :: c.
Proof. set_solver. Qed.

(** The pointer back from a block of the used list. *)
Lemma rep_prev s a c f out pend B l b :
  rep s (a ++ (l, b) :: c) f out pend B ->
  exists nd, blocks s !! l = Some nd /\ block_of nd = b /\ bh_prev nd = last_of None a.*1.
Proof.
  intros HR. destruct (rep_mem _ _ _ _ _ _ l b HR) as (nd & E & Eb); [apply middle_mem|].
  exists nd. split_and!; [done|done|]. destruct HR as (HL & _). by apply (lists_links _ _ _ _ _ _ _ _ _ HL E).
Qed.

(** ** [mf_sync] *)
Definition in_scope (all : bool) (x : loc * mblock) : Prop := all = true \/ 0 <= b_num x.2.

Definition synced (all : bool) (n : nat) u u' : Prop :=
  forall i x y, (i < n)%nat -> u !! i = Some x -> u' !! i = Some y -> in_scope all x -> is_dirty (b_flags y.2) = false.

Lemma evolves_scope all x y : evolves x y -> in_scope all x -> in_scope all y.
Proof. unfold evolves, in_scope. intros (_ & _ & _ & _ & _ & [->|?]) [?|?]; auto; right; lia. Qed.

Lemma synced_snoc all a x c a' x' c' u' :
  Forall2 evolves (a ++ x :: c) (a' ++ x' :: c') -> length a' = length a ->
  (in_scope all x' -> is_dirty (b_flags x'.2) = false) ->
  Forall2 evolves (a' ++ x' :: c') u' -> synced all (length a) (a' ++ x' :: c') u' ->
  synced all (Datatypes.S (length a)) (a ++ x :: c) u'.
Proof.
  intros Hev El Hx Hev' Hs i y z Hi Hy Hz Hsc.
  destruct (Forall2_lookup_l _ _ _ _ _ Hev Hy) as (y1 & Hy1 & Hev1). apply (evolves_scope all) in Hev1; [|done].
  destruct (decide (i = length a)) as [->|Hne]; [|eapply (Hs i y1 z); [lia|done..]].
  rewrite lookup_app_r, El, Nat.sub_diag in Hy1 by lia. injection Hy1 as <-.
  destruct (Forall2_lookup_r _ _ _ _ _ Hev' Hz) as (y2 & Hy2 & Hev2).
  rewrite lookup_app_r, El, Nat.sub_diag in Hy2 by lia. injection Hy2 as <-.
  destruct Hev2 as (_ & _ & _ & _ & Hd & _). specialize (Hx Hev1).
  destruct (is_dirty (b_flags z.2)); [by rewrite Hx in Hd; discriminate (Hd eq_refl)|done].
Qed.

(** What the walk of [mf_sync] leaves behind. *)
Definition sync_result (all check_char : bool) (n : nat) s u out (pend : gmap Z Z) B (status : bool)
    (o : res cfault (option loc * bool * mfs)) : Prop :=
  exists s' r u' f' pend', o = Ok (r, s') /\ rep s' u' f' out pend' B /\ Forall2 evolves u u' /\
    later (core s) (core s') /\ keeps u out pend u' out pend' /\
    (r.2 = true -> status = true /\ (r.1 = None -> synced all n u u')) /\
    (check_char = false -> r.1 = None \/ r.2 = false).

Lemma sync_result_trans all cc n m s1 s2 u1 u2 out p1 p2 B st1 st2 o :
  Forall2 evolves u1 u2 -> later (core s1) (core s2) -> keeps u1 out p1 u2 out p2 ->
  (st2 = true -> st1 = true) ->
  (forall u', Forall2 evolves u2 u' -> st2 = true -> synced all n u2 u' -> synced all m u1 u') ->
  sync_result all cc n s2 u2 out p2 B st2 o -> sync_result all cc m s1 u1 out p1 B st1 o.
Proof.
  intros Hev Hlt Hk Hst Hs (s' & r & u' & f' & p' & E & HR & Hev' & Hlt' & Hk' & Hr & Hc).
  exists s', r, u', f', p'. split_and!; try done.
  - by etrans.
  - by etrans.
  - by eapply keeps_then.
  - intros Hr2. destruct (Hr Hr2) as [H1 H2]. split; [auto|]. intros Hn. apply Hs; auto.
Qed.

Lemma sync_loop_ok all cc B out : forall n a c fuel s f pend status,
  length a = n -> rep s (a ++ c) f out pend B -> 0 <= mf_fd (mfp s) -> (n < fuel)%nat ->
  sync_result all cc n s (a ++ c) out pend B status (sync_loop fuel all cc (last_of None a.*1) status s).
Proof.
  induction n as [|n IH]; intros a c fuel s f pend status Hn HR Hfd Hf.
  { apply nil_length_inv in Hn as ->. destruct fuel; [lia|].
    exists s, (None, status), c, f, pend. cbn. split_and!; [done|done|done|done|by intros ? ?| |by left].
    intros ->. split; [done|]. intros _ i x y Hi. lia. }
  destruct a as [|[l b] a _] using rev_ind; [done|]. rewrite length_app in Hn. cbn in Hn.
  rewrite last_of_snoc. rewrite <- app_assoc in HR |- *. cbn in HR |- *.
  destruct fuel as [|fuel]; [lia|]. cbn [sync_loop].
  destruct (rep_prev _ _ _ _ _ _ _ _ _ HR) as (nd & E & Eb & Ep).
  assert (En : bh_bnum nd = b_num b) by (by rewrite <- Eb).
  mstep ltac:(by apply dblock_ok). mstep ltac:(apply mf_ok). rewrite (dirty_flags nd b Eb), En.
  assert (HS : Datatypes.S n = Datatypes.S (length a)) by lia.
  destruct ((all || (b_num b >=? 0)) && is_dirty (b_flags b) && _) eqn:Ec; cycle 1.
  { rewrite Ep. eapply sync_result_trans; [reflexivity|reflexivity|by intros ? ?| | |eapply (IH a _ fuel s f pend status)];
      [by intros|..|lia|done|done|lia].
    intros u' Hev Hst Hs. rewrite HS. eapply synced_snoc; [reflexivity|done| |done|by replace n with (length a) in Hs by lia].
    intros Hsc. destruct (is_dirty (b_flags b)) eqn:Ed; [|done]. rewrite Hst in Ec. cbn in Ec. rewrite !andb_true_r in Ec.
    destruct Hsc as [->|Hsc]; [done|]. cbn in Hsc. rewrite Z.geb_leb, (proj2 (Z.leb_le _ _)), orb_true_r in Ec by done. done. }
  rewrite !andb_true_iff in Ec. destruct Ec as [[_ Ed] _].
  destruct (mf_write_ok s (a ++ (l, b) :: c) f out pend B l b HR) as (s1 & ok & u1 & f1 & pend1 & R1 & HR1 & Hev & Hlt & Hk & Hok);
    [apply middle_mem|done|].
  mstep ltac:(exact R1). pose proof Hev as Hev0.
  apply Forall2_evolves_middle in Hev as (a' & [l1 b1] & c' & -> & Ha & Hb & Hc').
  pose proof Hb as (El1 & _). cbn in El1. subst l1.
  assert (La : length a' = length a) by (symmetry; by eapply Forall2_length).
  assert (Hcl : ok = true -> is_dirty (b_flags b1) = false).
  { intros Ho. destruct (Hok Ho) as (b2 & Hin & Hcl & _). destruct HR1 as (HL1 & _).
    rewrite (lists_inj _ _ _ _ _ l b1 b2 HL1); [done|rewrite app_nil_r; apply middle_mem|by rewrite app_nil_r]. }
  destruct (negb ok && negb status) eqn:Eq.
  { exists s1, (Some l, false), (a' ++ (l, b1) :: c'), f1, pend1. split_and!; try done. by right. }
  assert (Hcont : forall m, later (core s) (core (set_calls m s1)) -> 
    (x ← deref (V := bhdr) (Some l); sync_loop fuel all cc (bh_prev x.2) (status && ok)) (set_calls m s1) =
    sync_loop fuel all cc (last_of None a'.*1) (status && ok) (set_calls m s1) /\
    rep (set_calls m s1) (a' ++ (l, b1) :: c') f1 out pend1 B).
  { intros m _. assert (HRm : rep (set_calls m s1) (a' ++ (l, b1) :: c') f1 out pend1 B) by (by apply rep_tick).
    split; [|done]. destruct (rep_prev _ _ _ _ _ _ _ _ _ HRm) as (nd1 & E1 & _ & Ep1).
    mstep ltac:(by apply dblock_ok). by rewrite Ep1. }
  assert (Hgo : forall m, sync_result all cc (Datatypes.S n) s (a ++ (l, b) :: c) out pend B status
     (sync_loop fuel all cc (last_of None a'.*1) (status && ok) (set_calls m s1))).
  { intros m. pose proof (rep_tick _ _ _ _ _ _ m HR1) as HRm.
    eapply sync_result_trans; [exact Hev0|exact Hlt|exact Hk| | |eapply (IH a' _ fuel (set_calls m s1) f1 pend1 (status && ok))];
      [by intros [? _]%andb_true_iff| |lia|done| |lia].
    - intros u' Hev' [Hst Ho]%andb_true_iff Hs. rewrite HS. eapply synced_snoc; [exact Hev0|done| |done|by replace n with (length a) in Hs by lia].
      intros _. by apply Hcl.
    - cbn. pose proof (lt_fd _ _ Hlt) as Efd. cbn in Efd. by rewrite Efd. }
  destruct cc.
  - mstep ltac:(mstep ltac:(apply next_call_ok); reflexivity).
    destruct (mch_char_avail (calls s1)).
    + exists (set_calls (Datatypes.S (calls s1)) s1), (Some l, status && ok), (a' ++ (l, b1) :: c'), f1, pend1.
      split_and!; try done. cbn. by intros [? ?]%andb_true_iff.
    + destruct (Hcont (Datatypes.S (calls s1)) Hlt) as [-> _]. apply Hgo.
  - mstep ltac:(reflexivity). specialize (Hcont (calls s1) Hlt). specialize (Hgo (calls s1)).
    assert (Es : set_calls (calls s1) s1 = s1) by (by destruct s1). rewrite Es in Hcont, Hgo.
    destruct Hcont as [-> _]. exact Hgo.
Qed.

Lemma mf_sync_ok s u f out pend B all cc :
  rep s u f out pend B ->
  exists s' ok u' f' pend', mf_sync all cc s = Ok (ok, s') /\ rep s' u' f' out pend' B /\
    Forall2 evolves u u' /\ later (core s) (core s') /\ keeps u out pend u' out pend' /\
    (mf_fd (mfp s) < 0 -> ok = false /\ u' = u) /\
    (cc = false -> ok = true -> synced all (length u) u u' /\ mf_dirty (mfp s') = false).
Proof.
  intros HR. pose proof HR as (HL & HT & G). unfold mf_sync. mstep ltac:(apply mf_ok).
  assert (Hdirty : forall s1 u1 f1 p1, rep s1 u1 f1 out p1 B -> rep (set_mfp (set_mf_dirty false (mfp s1)) s1) u1 f1 out p1 B).
  { intros s1 u1 f1 p1 HR1. by apply (rep_set_dirty s1 u1 f1 [] out p1 B false). }
  destruct (Z.ltb_spec (mf_fd (mfp s)) 0) as [Hfd|Hfd].
  { eexists _, false, u, f, pend. split_and!; [mstep ltac:(apply modmf_ok); reflexivity|by apply Hdirty|done|
      apply later_set_dirty|by intros ? ?|done|done]. }
  mstep ltac:(by eapply lists_walk). rewrite (lists_last _ _ _ _ _ HL).
  destruct (sync_loop_ok all cc B out (length u) u [] (Datatypes.S (length u + (length f + length (@nil (loc * mblock))))) s f pend true)
    as (s1 & r & u1 & f1 & p1 & R1 & HR1 & Hev & Hlt & Hk & Hr & Hc); [done|by rewrite app_nil_r|done|lia|].
  rewrite app_nil_r in Hev, Hk, Hr. mstep ltac:(exact R1).
  set (fin := if decide (r.1 = None \/ r.2 = false) then set_mfp (set_mf_dirty false (mfp s1)) s1 else s1).
  assert (Rfin : (if decide (r.1 = None \/ r.2 = false) then modmf (set_mf_dirty false) else mret tt) s1 = Ok (tt, fin)).
  { unfold fin. by destruct (decide _). }
  mstep ltac:(exact Rfin). mstep ltac:(apply next_call_ok).
  assert (HRf : rep fin u1 f1 out p1 B) by (unfold fin; destruct (decide _); [by apply Hdirty|done]).
  assert (Hltf : later (core s) (core fin)).
  { unfold fin. destruct (decide _); [|done]. etrans; [exact Hlt|apply later_set_dirty]. }
  eexists _, _, u1, f1, p1. split_and!; [reflexivity|by apply rep_tick|done|exact Hltf|done|intros; lia|].
  intros Hcc Hok. destruct (fsync_fails (calls fin)); [done|]. destruct (Hr Hok) as [_ Hs].
  destruct (Hc Hcc) as [Hn|Hn]; [|congruence]. split; [by apply Hs|]. cbn. unfold fin.
  rewrite decide_True by (by left). done.
Qed.

(** ** [mf_release_all] *)
(** Blocks go, locked ones stay. *)
Definition shrinks u u' : Prop :=
  (length u' <= length u)%nat /\
  forall x, x ∈ u -> is_locked (b_flags x.2) = true -> exists y, y ∈ u' /\ evolves x y.

#[export] Instance shrinks_preorder : PreOrder shrinks.
Proof.
  split; [intros u; split; [done|]; intros y Hy _; by exists y|].
  intros u1 u2 u3 [L1 H1] [L2 H2]. split; [lia|]. intros x Hx Hl. destruct (H1 x Hx Hl) as (y & Hy & Hxy).
  destruct (H2 y Hy) as (z & Hz & Hyz).
  - destruct Hxy as (_ & _ & _ & E & _). by rewrite E.
  - exists z. split; [done|]. by etrans.
Qed.

Lemma evolves_shrinks u u' : Forall2 evolves u u' -> shrinks u u'.
Proof.
  intros H. split; [by rewrite (Forall2_length _ _ _ H)|]. intros x Hx _.
  apply list_elem_of_lookup in Hx as [i Hi]. destruct (Forall2_lookup_l _ _ _ _ _ H Hi) as (y & Hy & Hxy).
  exists y. split; [by eapply list_elem_of_lookup_2|done].
Qed.

Lemma remove_shrinks a x c : is_locked (b_flags x.2) = false -> shrinks (a ++ x :: c) (a ++ c).
Proof.
  intros Hx. split; [rewrite !length_app; cbn; lia|]. intros y Hy Hl.
  assert (Hy' : y = x \/ y ∈ a ++ c) by set_solver. destruct Hy' as [->|Hy']; [congruence|]. by exists y.
Qed.

Definition release_result s u f out (pend : gmap Z Z) B (ret : bool) (o : res cfault (bool * mfs)) : Prop :=
  exists s' u' f' out' pend', o = Ok (ret || (length u' <? length u)%nat, s') /\ rep s' u' f' out' pend' B /\
    later (core s) (core s') /\ keeps u out pend u' out' pend' /\ shrinks u u'.

Lemma release_result_trans s1 u1 f1 out1 p1 s2 u2 f2 out2 p2 B r1 r2 o :
  later (core s1) (core s2) -> keeps u1 out1 p1 u2 out2 p2 -> shrinks u1 u2 ->
  r2 = r1 || (length u2 <? length u1)%nat ->
  release_result s2 u2 f2 out2 p2 B r2 o -> release_result s1 u1 f1 out1 p1 B r1 o.
Proof.
  intros Hlt Hk Hs -> (s' & u' & f' & out' & p' & -> & HR & Hlt' & Hk' & Hs').
  exists s', u', f', out', p'. split_and!; [|done|by etrans|by eapply keeps_then|by etrans].
  do 2 f_equal. destruct Hs as [L1 _], Hs' as [L2 _]. destruct r1; [done|]. cbn.
  destruct (Nat.ltb_spec (length u2) (length u1)), (Nat.ltb_spec (length u') (length u2)),
    (Nat.ltb_spec (length u') (length u1)); cbn; try done; exfalso; lia.
Qed.

Lemma release_loop_ok B : forall fuel a c s f out pend ret,
  rep s (a ++ c) f out pend B ->
  (length a + length (a ++ c) * length (a ++ c) < fuel)%nat ->
  release_result s (a ++ c) f out pend B ret (release_loop fuel (last_of None a.*1) ret s).
Proof.
  induction fuel as [|fuel IH]; intros a c s f out pend ret HR Hf; [lia|].
  destruct a as [|[l b] a _] using rev_ind.
  { exists s, c, f, out, pend. cbn. rewrite Nat.ltb_irrefl, orb_false_r. split_and!; [done|exact HR|done|by intros ? ?|done]. }
  rewrite last_of_snoc. rewrite <- app_assoc in HR, Hf |- *. cbn [app] in HR, Hf |- *. cbn [release_loop].
  rewrite length_app in Hf. cbn [length] in Hf.
  destruct (rep_prev _ _ _ _ _ _ _ _ _ HR) as (nd & E & Eb & Ep).
  mstep ltac:(by apply dblock_ok). rewrite (locked_flags nd b Eb), (dirty_flags nd b Eb).
  (* the block is written if that is needed *)
  assert (Hw : exists s1 ok u1 f1 p1,
    (if is_locked (b_flags b) then mret false else if is_dirty (b_flags b) then mf_write (Some l) else mret true) s =
      Ok (ok, s1) /\ rep s1 u1 f1 out p1 B /\ Forall2 evolves (a ++ (l, b) :: c) u1 /\ later (core s) (core s1) /\
    keeps (a ++ (l, b) :: c) out pend u1 out p1 /\
    (ok = true -> is_locked (b_flags b) = false /\ exists b', (l, b') ∈ u1 /\ is_dirty (b_flags b') = false)).
  { destruct (is_locked (b_flags b)) eqn:Elk; [|destruct (is_dirty (b_flags b)) eqn:Ed].
    - exists s, false, (a ++ (l, b) :: c), f, pend. split_and!; [done|done|done|done|by intros ? ?|done].
    - destruct (mf_write_ok s (a ++ (l, b) :: c) f out pend B l b HR) as (s1 & ok & u1 & f1 & p1 & R1 & HR1 & Hev & Hlt & Hk & Hok);
        [apply middle_mem|done|].
      exists s1, ok, u1, f1, p1. split_and!; try done. intros Ho. destruct (Hok Ho) as (b' & ? & ? & _). split; [done|by exists b'].
    - exists s, true, (a ++ (l, b) :: c), f, pend. split_and!; [done|done|done|done|by intros ? ?|].
      intros _. split; [done|]. exists b. split; [apply middle_mem|done]. }
  destruct Hw as (s1 & ok & u1 & f1 & p1 & R1 & HR1 & Hev & Hlt & Hk & Hok). mstep ltac:(exact R1).
  pose proof Hev as Hev0. apply Forall2_evolves_middle in Hev as (a' & [l1 b1] & c' & -> & Ha & Hb & Hc').
  pose proof Hb as (El1 & _ & _ & Elk & _). cbn in El1, Elk. subst l1.
  assert (La : length a' = length a) by (symmetry; by eapply Forall2_length).
  assert (Lc : length c' = length c) by (symmetry; by eapply Forall2_length).
  destruct ok.
  - destruct (Hok eq_refl) as [Hul (b2 & Hin2 & Hcl)]. pose proof HR1 as (HL1 & HT1 & G1).
    assert (b2 = b1) as ->.
    { eapply (lists_inj _ _ _ _ _ l b2 b1 HL1); rewrite app_nil_r; [done|apply middle_mem]. }
    rewrite <- Elk in Hul. destruct (good_evict _ _ _ _ _ _ _ _ G1 Hul Hcl) as (bs & Ebs & Hz & Hnn & G2).
    destruct (lists_remove _ _ _ _ _ _ _ _ HL1) as (s2 & s3 & R2 & R3 & HL3 & [Q3 C3]).
    mstep ltac:(exact R2). mstep ltac:(exact R3).
    assert (HR3 : repl s3 (a' ++ c') f1 [(l, b1)] ((b_num b1, bs) :: out) p1 B).
    { split_and!; [done|by apply (translations_core s1)|by rewrite Q3]. }
    destruct (free_bhdr_ok s3 _ _ _ _ _ _ _ _ bs HR3 Ebs) as (s4 & R4 & HR4 & Q4).
    mstep ltac:(exact R4). mstep ltac:(apply mf_ok). pose proof HR4 as (HL4 & _).
    rewrite (lists_last _ _ _ _ _ HL4). rewrite <- (app_nil_r (a' ++ c')) in HR4.
    eapply (release_result_trans _ _ _ _ _ s4); [| | | |apply (IH (a' ++ c') [] s4 f1 _ p1 true HR4)].
    + rewrite Q4, Q3. exact Hlt.
    + eapply keeps_then; [exact Hk|]. rewrite app_nil_r. by apply keeps_evict.
    + etrans; [by apply evolves_shrinks|]. rewrite app_nil_r. by apply remove_shrinks.
    + rewrite app_nil_r, !length_app. cbn. rewrite La, Lc. rewrite (proj2 (Nat.ltb_lt _ _)) by lia. by rewrite orb_true_r.
    + rewrite app_nil_r, !length_app. rewrite !length_app in Hf. cbn in Hf. rewrite La, Lc. nia.
  - destruct (rep_prev _ _ _ _ _ _ _ _ _ HR1) as (nd1 & E1 & _ & Ep1).
    mstep ltac:(by apply dblock_ok). rewrite Ep1.
    eapply (release_result_trans _ _ _ _ _ s1); [exact Hlt|exact Hk|by apply evolves_shrinks| |apply (IH a' ((l, b1) :: c') s1 f1 _ p1 ret HR1)].
    + rewrite !length_app. cbn. rewrite La, Lc, Nat.ltb_irrefl. by rewrite orb_false_r.
    + rewrite !length_app. rewrite !length_app in Hf. cbn in *. rewrite La, Lc. lia.
Qed.

Lemma release_file_ok s u f out pend B ret :
  rep s u f out pend B -> release_result s u f out pend B ret (release_file ret s).
Proof.
  intros HR. pose proof HR as (HL & _). unfold release_file. mstep ltac:(apply mf_ok).
  destruct (Z.ltb_spec (mf_fd (mfp s)) 0).
  { exists s, u, f, out, pend. rewrite Nat.ltb_irrefl, orb_false_r. split_and!; [done|exact HR|done|by intros ? ?|done]. }
  mstep ltac:(by eapply lists_walk). rewrite (lists_last _ _ _ _ _ HL).
  pose proof (release_loop_ok B ((Datatypes.S (length u + (length f + length (@nil (loc * mblock))))) *
    (Datatypes.S (length u + (length f + length (@nil (loc * mblock)))))) u [] s f out pend ret) as Hloop.
  rewrite app_nil_r in Hloop. apply Hloop; [done|]. cbn. nia.
Qed.

(** Another count of the memory used by all memory files. *)
Lemma lists_rebase s u f L B t :
  lists s u f L B -> wraps 64 t = t -> exists B', lists (set_total_mem_used t s) u f L B'.
Proof.
  intros (c & [N D U F La Bl Fr Frs Hd Ch Cn Ci Co To] & Hu & HL) Ht.
  exists (t - mf_used_count (mfp s) * mf_page_size (mfp s)), c. split_and!; [|done|done]. split; cbn in *; try done.
  rewrite <- Ht at 1. f_equal. lia.
Qed.

Definition buf_released (o o' : option mfs) : Prop :=
  match o, o' with
  | None, None => True
  | Some s, Some s' => forall u f out pend B, rep s u f out pend B ->
      exists u' f' out' pend' B', rep s' u' f' out' pend' B' /\ later (core s) (core s') /\
        keeps u out pend u' out' pend' /\ shrinks u u'
  | _, _ => False
  end.

Definition buf_ok (o : option mfs) : Prop :=
  match o with None => True | Some s => exists u f out pend B, rep s u f out pend B end.

Lemma release_bufs_ok : forall bufs total n ret,
  Forall buf_ok bufs -> wraps 64 total = total ->
  exists bufs' total' n' ret', release_bufs bufs total n ret = Ok (bufs', total', n', ret') /\
    Forall2 buf_released bufs bufs' /\ wraps 64 total' = total' /\ (ret = true -> ret' = true).
Proof.
  induction bufs as [|o bufs IH]; intros total n ret Hok Ht.
  { by exists [], total, n, ret. }
  apply Forall_cons in Hok as [Ho Hok]. destruct o as [s|]; cycle 1.
  { destruct (IH total n ret Hok Ht) as (bufs' & t' & n' & ret' & R & H1 & H2 & H3).
    exists (None :: bufs'), t', n', ret'. cbn. rewrite R. cbn. split_and!; [done|by constructor|done|done]. }
  destruct Ho as (u & f & out & pend & B & HR).
  set (s1 := set_total_mem_used total (set_calls n s)).
  assert (Hs1 : forall u f out pend B, rep s u f out pend B -> exists B', rep s1 u f out pend B').
  { intros u0 f0 out0 pend0 B0 (HL & HT & G).
    destruct (lists_rebase (set_calls n s) u0 f0 [] B0 total) as [B' HL']; [by eapply lists_view, HL|done|].
    exists B'. by split_and!. }
  destruct (Hs1 _ _ _ _ _ HR) as [B1 HR1].
  destruct (release_file_ok s1 u f out pend B1 ret HR1) as (s2 & u2 & f2 & out2 & p2 & R2 & HR2 & Hlt2 & Hk2 & Hsh2).
  assert (Ht2 : wraps 64 (total_mem_used s2) = total_mem_used s2).
  { destruct HR2 as ((c & HS & _) & _). pose proof (sh_total _ _ HS) as To. cbn in To. rewrite To.
    replace (wraps 64 (wraps 64 (B1 + mf_used_count (mfp s2) * ps s2))) with
      (wraps 64 (wraps 64 (B1 + mf_used_count (mfp s2) * ps s2) + 0)) by (f_equal; lia).
    rewrite wraps_add by lia. f_equal. lia. }
  destruct (IH (total_mem_used s2) (calls s2) (ret || (length u2 <? length u)%nat) Hok Ht2)
    as (bufs' & t' & n' & ret' & R & H1 & H2 & H3).
  exists (Some s2 :: bufs'), t', n', ret'. split_and!.
  - cbn -[release_file]. fold s1. rewrite R2. cbn. rewrite R. done.
  - constructor; [|done]. cbn. intros u0 f0 out0 pend0 B0 HR0. destruct (Hs1 _ _ _ _ _ HR0) as [B' HR0'].
    destruct (release_file_ok s1 u0 f0 out0 pend0 B' ret HR0') as (s3 & u3 & f3 & out3 & p3 & R3 & HR3 & Hlt3 & Hk3 & Hsh3).
    rewrite R2 in R3. injection R3 as _ <-. by exists u3, f3, out3, p3, B'.
  - done.
  - intros ->. by apply H3.
Qed.

(** ** [mf_open] *)
(** The names a memory file holds are allocated and different. *)
Definition names_ok (s : mfs) : Prop :=
  (forall l, mf_fname (mfp s) = Some l -> is_Some (strs s !! l)) /\
  (forall l, mf_xfname (mfp s) = Some l -> is_Some (strs s !! l)) /\
  (mf_fname (mfp s) <> None -> mf_xfname (mfp s) <> None -> mf_fname (mfp s) <> mf_xfname (mfp s)).

Lemma free_str_ok p s :
  (forall l, p = Some l -> is_Some (strs s !! l)) ->
  free_str p s = Ok (tt, set_strs (match p with None => strs s | Some l => delete l (strs s) end) s).
Proof.
  intros Hp. destruct p as [l|]; [|by destruct s]. destruct (Hp l eq_refl) as [str E].
  unfold free_str. mstep ltac:(reflexivity). by rewrite E.
Qed.

(** The names without the one a function has given back. *)
Definition freed (p : option loc) (h : gmap loc string) : gmap loc string :=
  match p with None => h | Some l => delete l h end.

(** What opening the file leaves of the memory file's lists, and what it sets. *)
Lemma mf_do_open_ok s fname new :
  (forall l, fname = Some l -> is_Some (strs s !! l)) ->
  exists s', mf_do_open fname new s = Ok (tt, s') /\ view s' = view s /\
    mf_trans (mfp s') = mf_trans (mfp s) /\ transes s' = transes s /\ names_ok s' /\
    (mf_fd (mfp s') < 0 /\ mf_fname (mfp s') = None /\ mf_xfname (mfp s') = None /\ strs s' = freed fname (strs s) \/
     0 <= mf_fd (mfp s') /\ freed (mf_xfname (mfp s')) (freed (mf_fname (mfp s')) (strs s')) = freed fname (strs s) /\
     (new = true -> disk s' = [])).
Proof.
  intros Hf. unfold mf_do_open. mstep ltac:(apply modmf_ok).
  set (s0 := set_mfp (set_mf_fname fname (mfp s)) s). mstep ltac:(reflexivity).
  set (str := match fname with None => None | Some l => strs s0 !! l end).
  assert (Hx : exists s1 x, (match FullName str with None => mret None | Some full => strsave full end) s0 = Ok (x, s1) /\
    view s1 = view s0 /\ mfp s1 = mfp s0 /\ transes s1 = transes s0 /\
    (forall l, is_Some (strs s !! l) -> is_Some (strs s1 !! l)) /\
    (forall l, x = Some l -> is_Some (strs s1 !! l) /\ fname <> x) /\
    freed x (freed fname (strs s1)) = freed fname (strs s)).
  { destruct (FullName str) as [full|]; [|exists s0, None; by split_and!].
    destruct (strsave_ok (calls s0)) eqn:Es.
    - set (l := new_loc (strs s0)). pose proof (new_loc_fresh (strs s0)) as Hl. fold l in Hl.
      exists (set_strs (<[l := full]> (strs s0)) (set_calls (Datatypes.S (calls s0)) s0)), (Some l).
      split_and!; try done.
      + unfold strsave. mstep ltac:(apply next_call_ok). rewrite Es. done.
      + intros x [y Hx]. cbn. rewrite lookup_insert. destruct (decide (l = x)); eauto.
      + intros x [= <-]. cbn. rewrite lookup_insert_eq. split; [eauto|]. intros El.
        destruct (Hf l El) as [y Hy]. cbn in Hl. congruence.
      + cbn. destruct fname as [lf|]; cbn; [rewrite delete_delete|]; by rewrite delete_insert_id.
    - exists (set_calls (Datatypes.S (calls s0)) s0), None. split_and!; try done.
      unfold strsave. mstep ltac:(apply next_call_ok). by rewrite Es. }
  destruct Hx as (s1 & x & R1 & V1 & M1 & T1 & Hs1 & Hx & Hfr). mstep ltac:(exact R1). mstep ltac:(apply modmf_ok).
  mstep ltac:(apply next_call_ok). rewrite M1. cbn [mfp s0 set_mfp calls].
  destruct (open_file (calls s1) str) as [[fd bs]|] eqn:Eo.
  - mstep ltac:(mstep ltac:(apply modmf_ok); reflexivity). mstep ltac:(apply mf_ok). cbn [mfp set_mfp set_calls set_disk mf_fd set_mf_fd].
    pose proof (open_file_fd _ _ _ _ Eo) as Hfd. rewrite (proj2 (Z.ltb_ge _ _)) by done.
    eexists. split; [reflexivity|]. split_and!; try done.
    + unfold view in *. cbn in *. by inversion V1.
    + split_and!; cbn.
      * intros l E. apply Hs1. by apply Hf.
      * intros l E. by apply Hx.
      * intros _ Hne. destruct x as [l|]; [|done]. by apply (Hx l).
    + right. cbn. split_and!; [done|done|]. by intros ->.
  - mstep ltac:(apply modmf_ok). mstep ltac:(apply mf_ok). cbn [mfp set_mfp set_calls set_disk mf_fd set_mf_fd mf_xfname set_mf_xfname].
    cbn [Z.ltb Z.compare]. mstep ltac:(apply free_str_ok; intros l El; apply Hs1; by apply Hf).
    mstep ltac:(apply free_str_ok; intros l El; cbn; destruct (Hx l El) as [[y Hy] Hne];
                destruct fname as [lf|]; [rewrite lookup_delete_ne by congruence|]; by exists y).
    mstep ltac:(apply modmf_ok). rewrite modmf_ok. eexists. split; [reflexivity|]. split_and!; try done.
    + unfold view in *. cbn in *. by inversion V1.
    + left. by split_and!.
Qed.

(** A memory file with nothing in memory. *)
Lemma rep_empty s out p :
  blocks s = ∅ -> transes s = ∅ -> mf_used_first (mfp s) = None -> mf_used_last (mfp s) = None ->
  mf_free_first (mfp s) = None -> mf_hash (mfp s) = replicate (Z.to_nat MEMHASHSIZE) None ->
  mf_trans (mfp s) = replicate (Z.to_nat MEMHASHSIZE) None -> mf_used_count (mfp s) = 0 ->
  wraps 64 (total_mem_used s) = total_mem_used s -> ps s = p -> 0 < p < 2 ^ 32 -> 0 <= infile s ->
  infile s * p <= zlen (disk s) -> (mf_fd (mfp s) < 0 -> infile s = 0) -> infile s <= mf_blocknr_max (mfp s) ->
  mf_blocknr_min (mfp s) = -1 -> mf_neg_count (mfp s) = 0 -> apart (out_ext p <$> out) ->
  (forall nr bs, (nr, bs) ∈ out ->
    exists pc, 0 < pc /\ zlen bs = p * pc /\ p * pc < 2 ^ 32 /\ 0 <= nr /\ nr + pc <= infile s /\
      slice (p * nr) (zlen bs) (disk s) = bs) ->
  rep s [] [] out ∅ (total_mem_used s).
Proof.
  intros Eb Et E1 E2 E3 Eh Etr Ec Htot Ep Hp Hi Hd Hfd Hmax Emin Eneg Hap Ho.
  assert (Hheads : forall k, 0 <= k < MEMHASHSIZE -> replicate (Z.to_nat MEMHASHSIZE) (@None loc) !! Z.to_nat k = Some None).
  { intros k Hk. apply lookup_replicate_2. lia. }
  split; [|split].
  - exists (fun _ => []). unfold view. rewrite Eb, E1, E2, E3, Eh, Ec. split_and!; [|by intros ? ? ?%elem_of_nil|by intros ? ? ? ?%elem_of_nil].
    split; cbn; try done.
    + constructor.
    + intros l b Hin. by apply elem_of_nil in Hin.
    + intros l fr Hin. by apply elem_of_nil in Hin.
    + intros k Hk. constructor.
    + intros k l _ Hin. by apply elem_of_nil in Hin.
    + rewrite Z.mul_0_l, Z.add_0_r. done.
  - exists (fun _ => []). rewrite Et, Etr. split; cbn; try done.
    + intros k Hk. split; constructor.
    + intros k l o n _ Hin. by apply elem_of_nil in Hin.
    + intros o n. rewrite lookup_empty. split; [done|]. intros [l Hin]. by apply elem_of_nil in Hin.
    + intros l. rewrite dom_empty_L. split; [set_solver|]. intros [?|(k & _ & ?)]; set_solver.
    + intros k l _ Hin. by apply elem_of_nil in Hin.
  - split; cbn; rewrite ?Ep; try done.
    + apply Forall_forall. intros e He. right. apply list_elem_of_fmap in He as ([nr bs] & -> & Hin).
      destruct (Ho nr bs Hin) as (pc & H1 & H2 & H3 & H4 & H5 & _). cbn. rewrite H2, Z.mul_comm, Z.div_mul by lia. lia.
    + lia.
    + intros l b Hin. by apply elem_of_nil in Hin.
    + intros l n q Hin. by apply elem_of_nil in Hin.
    + intros l b Hin. by apply elem_of_nil in Hin.
    + constructor.
    + intros l b Hin. by apply elem_of_nil in Hin.
    + lia.
Qed.
End files.
