(* ===== verification/MemfileClose.v ===== *)
(** * Vim: opening and closing a memory file ([mf_open], [mf_close])

    [mf_open] makes a memory file whose lists are empty, over the blocks of the
    file when it is opened as it is; [mf_close] gives back every block, free
    header, translation record and name, each once. *)
From S2P Require Import Prelude Heap Dll Memfile MemfileProofs MemfileOps MemfileStore MemfileBlocks MemfileSync.
From stdpp Require Import strings.
Open Scope Z_scope.

(** The heap after its locations [xs] have been freed. *)
Definition without {V : Type} (xs : list loc) (h : gmap loc V) : gmap loc V :=
  foldl (fun h x => delete x h) h xs.

Lemma lookup_without {V} (xs : list loc) (h : gmap loc V) x :
  without xs h !! x = if decide (x ∈ xs) then None else h !! x.
Proof.
  unfold without. revert h. induction xs as [|y xs IH]; intros h; cbn; [by destruct (decide _) as [?%elem_of_nil|]|].
  rewrite IH, lookup_delete. repeat case_decide; set_solver.
Qed.

Lemma without_app {V} (xs ys : list loc) (h : gmap loc V) : without (xs ++ ys) h = without ys (without xs h).
Proof. apply foldl_app. Qed.

Lemma dom_without {V} (xs : list loc) (h : gmap loc V) : dom (without xs h) = dom h ∖ list_to_set xs.
Proof.
  apply set_eq. intros x. rewrite elem_of_difference, elem_of_list_to_set, !elem_of_dom, lookup_without.
  destruct (decide (x ∈ xs)); [split; [by intros []|by intros [_ ?]]|naive_solver].
Qed.

Lemma dseg_delete {V} (K : Links V) `{KL : !LinksLaws V} (h : gmap loc V) p x xs q :
  NoDup (x :: xs) -> dseg h p (x :: xs) q -> dseg (delete x h) (Some x) xs q.
Proof.
  intros [Hx _]%NoDup_cons [_ Hs]. apply (dseg_ext h); [|exact Hs]. intros y Hy.
  rewrite lookup_delete_ne; [done|]. intros ->. by apply Hx.
Qed.

Section close.
Context `{VM : Vim} `{VL : !VimLaws}.
Implicit Types (u L : list (loc * mblock)) (f : list (loc * (Z * Z))) (out : list (Z * list Z)).

(** ** The loops of [mf_close] *)
Lemma free_used_loop_ok : forall xs s p q fuel,
  @dseg _ used_links (blocks s) q xs None -> p = first_of xs None -> NoDup xs ->
  (forall x nd, x ∈ xs -> blocks s !! x = Some nd -> bh_data nd <> BFreed) -> (length xs < fuel)%nat ->
  free_used_loop fuel p s = Ok (tt, set_blocks (without xs (blocks s)) s).
Proof.
  induction xs as [|x xs IH]; intros s p q [|fuel] Hd -> Hnd Hlive Hf; cbn in Hf; try lia; [by destruct s|].
  pose proof Hd as [(nd & E & Ep & En) _]. cbn [first_of free_used_loop].
  mstep ltac:(by apply dblock_ok). unfold mf_free_bhdr. mstep ltac:(mstep ltac:(by apply dblock_ok); 
    mstep ltac:(instantiate (2 := tt); pose proof (Hlive x nd (list_elem_of_here _ _) E); by destruct (bh_data nd));
    unfold free_node; mstep ltac:(by apply dblock_ok); reflexivity).
  cbn [snd]. cbn in En. erewrite IH; [done|by apply (dseg_delete used_links _ q)|exact En|by apply NoDup_cons in Hnd as []| |lia].
  intros y ndy Hy. cbn. rewrite lookup_delete_ne by (apply NoDup_cons in Hnd as []; set_solver).
  intros Ey. apply (Hlive y); [by apply list_elem_of_further|done].
Qed.

Lemma slist_delete h p x xs nd : NoDup (x :: xs) -> slist h p (x :: xs) -> h !! x = Some nd ->
  slist (delete x h) (bh_next nd) xs.
Proof.
  intros [Hx _]%NoDup_cons (-> & nd' & E & Hs) E'. rewrite E in E'. injection E' as <-.
  eapply slist_ext; [|exact Hs]. intros y Hy. rewrite lookup_delete_ne; [done|]. set_solver.
Qed.

Lemma free_free_loop_ok : forall xs s fuel,
  slist (blocks s) (mf_free_first (mfp s)) xs -> NoDup xs -> (length xs < fuel)%nat ->
  free_free_loop fuel s =
    Ok (tt, set_blocks (without xs (blocks s)) (set_mfp (set_mf_free_first None (mfp s)) s)).
Proof.
  induction xs as [|x xs IH]; intros s [|fuel] Hs Hnd Hf; cbn in Hf; try lia; cbn [free_free_loop].
  - cbn in Hs. mstep ltac:(apply mf_ok). rewrite Hs. destruct s as [[]]. cbn in *. by subst.
  - pose proof Hs as (E1 & nd & E & _). mstep ltac:(apply mf_ok). rewrite E1.
    mstep ltac:(by eapply rem_free_run).
    mstep ltac:(unfold free_node; mstep ltac:(by apply dblock_ok); reflexivity).
    rewrite IH; [done| |by apply NoDup_cons in Hnd as []|lia]. by eapply slist_delete.
Qed.

Lemma free_trans_list_ok : forall xs s p q fuel,
  @dseg _ trans_links (transes s) q xs None -> p = first_of xs None -> NoDup xs -> (length xs < fuel)%nat ->
  free_trans_list fuel p s = Ok (tt, set_transes (without xs (transes s)) s).
Proof.
  induction xs as [|x xs IH]; intros s p q [|fuel] Hd -> Hnd Hf; cbn in Hf; try lia; [by destruct s|].
  pose proof Hd as [(nd & E & Ep & En) _]. cbn [first_of free_trans_list].
  mstep ltac:(by apply dtrans_ok).
  mstep ltac:(unfold free_node; mstep ltac:(by apply dtrans_ok); reflexivity).
  cbn in En. erewrite IH; [done|by apply (dseg_delete trans_links _ q)|exact En|by apply NoDup_cons in Hnd as []|lia].
Qed.

Lemma free_trans_lists_ok : forall (chains : list (list loc)) s,
  Forall (fun xs => @dll _ trans_links (transes s) xs) chains -> NoDup (mjoin chains) ->
  free_trans_lists ((fun xs => first_of xs None) <$> chains) s =
    Ok (tt, set_transes (without (mjoin chains) (transes s)) s).
Proof.
  induction chains as [|xs chains IH]; intros s Hd Hnd; [by destruct s|].
  apply Forall_cons in Hd as [Hx Hd]. cbn in Hnd. apply NoDup_app in Hnd as (Hnx & Hdis & Hnd). cbn [fmap list_fmap free_trans_lists].
  mstep ltac:(reflexivity).
  mstep ltac:(eapply free_trans_list_ok; [exact Hx|done|done|]; cbn;
    pose proof (dll_length (H := trans_links) _ _ Hnx Hx); lia).
  rewrite IH.
  - change (mjoin (xs :: chains)) with (xs ++ mjoin chains). by rewrite without_app.
  - cbn. rewrite Forall_forall in Hd |- *. intros ys Hys. eapply dseg_ext; [|by apply Hd]. intros y Hy.
    rewrite lookup_without. destruct (decide (y ∈ xs)) as [Hyx|]; [|done].
    exfalso. eapply Hdis; [exact Hyx|]. apply list_elem_of_join. by exists ys.
  - done.
Qed.

(** The records of the translation lists, bucket by bucket. *)
Lemma tshape_heads heads T pend tr : tshape heads T [] pend tr ->
  exists chains, take (Z.to_nat MEMHASHSIZE) heads = (fun xs => first_of xs None) <$> chains /\
    Forall (fun xs => @dll _ trans_links T xs) chains /\ NoDup (mjoin chains) /\
    dom T = list_to_set (mjoin chains).
Proof.
  intros HT. set (ks := seqZ 0 MEMHASHSIZE). exists ((fun k => (tr k).*1) <$> ks).
  assert (Hks : forall k, k ∈ ks <-> 0 <= k < MEMHASHSIZE) by (intros k; unfold ks; rewrite elem_of_seqZ; lia).
  split_and!.
  - apply list_eq. intros i. rewrite <- list_fmap_compose, list_lookup_fmap. unfold ks.
    destruct (decide (Z.of_nat i < MEMHASHSIZE)).
    + rewrite lookup_seqZ_lt, lookup_take_lt by lia. cbn. rewrite <- (ts_heads _ _ _ _ _ HT) by lia. f_equal. lia.
    + rewrite lookup_seqZ_ge, lookup_take_ge by lia. done.
  - apply Forall_fmap, Forall_forall. intros k Hk%Hks. by apply (ts_chains _ _ _ _ _ HT).
  - assert (Hnd : NoDup ks) by apply NoDup_seqZ.
    assert (Hin : forall k, k ∈ ks -> 0 <= k < MEMHASHSIZE) by (intros; by apply Hks). clear Hks.
    induction ks as [|k ks IH]; cbn; [constructor|]. apply NoDup_cons in Hnd as [Hk Hnd].
    apply NoDup_app. split_and!; [apply (ts_nodup _ _ _ _ _ HT), Hin; set_solver| |apply IH; [done|set_solver]].
    intros l Hl. rewrite list_elem_of_join. intros (xs & Hx & (k' & -> & Hk')%list_elem_of_fmap).
    assert (k = k') as ->; [|done]. eapply (ts_unique _ _ _ _ _ k k' l HT); try done; apply Hin; set_solver.
  - apply set_eq. intros l. rewrite elem_of_list_to_set, (ts_dom _ _ _ _ _ HT), list_elem_of_join. split.
    + intros [?%elem_of_nil|(k & Hk & Hl)]; [done|]. exists (tr k).*1. split; [done|].
      apply list_elem_of_fmap. exists k. split; [done|]. by apply Hks.
    + intros (xs & Hx & (k & -> & Hk%Hks)%list_elem_of_fmap). right. eauto.
Qed.

(** ** [mf_close] *)
Lemma mf_close_ok s u f out pend B (del : bool) :
  rep s u f out pend B -> names_ok s ->
  exists s', mf_close del s = Ok (tt, s') /\ blocks s' = ∅ /\ transes s' = ∅ /\ strs s' = freed (mf_xfname (mfp s)) (freed (mf_fname (mfp s)) (strs s)) /\
    disk s' = disk s /\ total_mem_used s' = total_mem_used s /\
    unlinked s' = (match mf_fname (mfp s) with
                   | Some l => if del then [strs s !! l] else []
                   | None => [] end) ++ unlinked s.
Proof.
  intros (HL & (tr & HT) & G) (N1 & N2 & N3). pose proof HL as (c & HS & _).
  set (s1 := if mf_fd (mfp s) >=? 0 then set_calls (Datatypes.S (calls s)) s else s).
  assert (R1 : (if mf_fd (mfp s) >=? 0 then next_call ;; mret tt else mret tt) s = Ok (tt, s1))
    by (unfold s1; by destruct (_ >=? 0)).
  set (gone := match mf_fname (mfp s) with Some l => if del then [strs s !! l] else [] | None => [] end).
  set (s2 := set_unlinked (gone ++ unlinked s) s1).
  assert (Hs1 : mfp s1 = mfp s /\ blocks s1 = blocks s /\ transes s1 = transes s /\ strs s1 = strs s /\
    unlinked s1 = unlinked s /\ disk s1 = disk s /\ total_mem_used s1 = total_mem_used s)
    by (unfold s1; by destruct (_ >=? 0)).
  destruct Hs1 as (Q1 & Q2 & Q3 & Q4 & Q5 & Q6 & Q7).
  assert (R2 : (if del && bool_decide (is_Some (mf_fname (mfp s))) then
     str ← get_str (mf_fname (mfp s)); modS (fun s => set_unlinked (str :: unlinked s) s)
   else mret tt) s1 = Ok (tt, s2)).
  { unfold s2, gone. rewrite <- Q5, <- Q4. destruct del, (mf_fname (mfp s)) as [l|]; cbn; try done; by destruct s1. }
  unfold mf_close. mstep ltac:(apply mf_ok). mstep ltac:(exact R1). mstep ltac:(exact R2).
  pose proof (sh_nodup _ _ HS) as Hnd. cbn in Hnd. apply NoDup_app in Hnd as (Hnu & Hdis & [Hnf _]%NoDup_app).
  mstep ltac:(reflexivity). set (n := Datatypes.S (size (blocks s2))).
  assert (Hn : (length u.*1 < n)%nat /\ (length f.*1 < n)%nat).
  { unfold n. cbn [blocks s2 set_unlinked]. rewrite Q2, (lists_size _ _ _ _ _ HL), !length_fmap. lia. }
  assert (R3 : free_used_loop n (mf_used_first (mfp s)) s2 = Ok (tt, set_blocks (without u.*1 (blocks s2)) s2)).
  { eapply free_used_loop_ok; [|by apply (lists_first _ _ _ _ _ HL)|done| |lia].
    - change (blocks s2) with (blocks s1). rewrite Q2. apply (sh_used _ _ HS).
    - intros x nd [b Hb]%fst_elem. change (blocks s2) with (blocks s1). rewrite Q2. intros Ex.
      destruct (lists_block _ _ _ _ _ x b HL) as (nd' & Ex' & Eb); [by rewrite app_nil_r|].
      rewrite Ex in Ex'. injection Ex' as <-. destruct (gd_used _ _ _ _ _ G x b Hb) as (_ & _ & bs & Ed & _).
      rewrite <- Eb in Ed. cbn in Ed. by rewrite Ed. }
  mstep ltac:(exact R3).
  set (s3 := set_blocks (without u.*1 (blocks s2)) s2).
  assert (R4 : free_free_loop n s3 =
    Ok (tt, set_blocks (without f.*1 (blocks s3)) (set_mfp (set_mf_free_first None (mfp s3)) s3))).
  { apply free_free_loop_ok; [|done|lia]. cbn. rewrite Q1, Q2.
    eapply slist_ext; [|exact (sh_free _ _ HS)]. intros x Hx. rewrite lookup_without.
    destruct (decide (x ∈ u.*1)) as [Hu|]; [|done]. destruct (Hdis x Hu). cbn. set_solver. }
  mstep ltac:(exact R4).
  set (s4 := set_blocks (without f.*1 (blocks s3)) (set_mfp (set_mf_free_first None (mfp s3)) s3)).
  destruct (tshape_heads _ _ _ _ HT) as (chains & Eh & Hch & Hnc & Hdom).
  assert (R5 : free_trans_lists (take (Z.to_nat MEMHASHSIZE) (mf_trans (mfp s))) s4 = Ok (tt, set_transes (without (mjoin chains) (transes s4)) s4)).
  { rewrite Eh. apply free_trans_lists_ok; [|done]. cbn. by rewrite Q3. }
  mstep ltac:(exact R5).
  mstep ltac:(apply free_str_ok; cbn; rewrite Q4; exact N1).
  rewrite free_str_ok.
  2: { intros l El. cbn. rewrite Q4. destruct (N2 l El) as [y Hy]. destruct (mf_fname (mfp s)) as [l'|] eqn:Ef; [|by eexists].
       rewrite lookup_delete_ne; [by eexists|]. intros ->. apply N3; congruence. }
  eexists. split; [reflexivity|]. cbn. rewrite Q2, Q3, Q4, Q6, Q7. split_and!; try done.
  - apply dom_empty_inv_L. rewrite <- without_app, dom_without. pose proof (sh_dom _ _ HS) as D. cbn in D.
    rewrite D, app_nil_r. set_solver.
  - apply dom_empty_inv_L. rewrite dom_without, Hdom. set_solver.
Qed.

(** ** [mf_open] *)
(** The blocks of a file of [size] bytes in pages of [p] bytes: they do not
    overlap and lie in the file's whole pages. *)
Definition file_blocks (p : Z) (d : list Z) out : Prop :=
  apart (out_ext p <$> out) /\
  forall nr bs, (nr, bs) ∈ out ->
    exists pc, 0 < pc /\ zlen bs = p * pc /\ p * pc < 2 ^ 32 /\ 0 <= nr /\ nr + pc <= zlen d `quot` p /\
      slice (p * nr) (zlen bs) d = bs.

(** What [mf_open] leaves when it returns a memory file. *)
Definition opened (s s' : mfs) (fname : option loc) (new : bool) : Prop :=
  names_ok s' /\ total_mem_used s' = total_mem_used s /\
  rep s' [] [] [] ∅ (total_mem_used s) /\
  (new = true -> disk s' = [] \/ mf_fd (mfp s') < 0) /\
  freed (mf_xfname (mfp s')) (freed (mf_fname (mfp s')) (strs s')) = freed fname (strs s) /\
  (mf_infile_count (mfp s') <> 0 -> forall out, file_blocks (mf_page_size (mfp s')) (disk s') out ->
    rep s' [] [] out ∅ (total_mem_used s)).

Lemma page_size_ok (b : bool) s : mf_page_size (mfp s) = MEMFILE_PAGE_SIZE ->
  exists n p, (if b then
     n ← next_call;
     match fstatfs n with
     | Some bsize => if (bsize >=? 1048) && (bsize <=? 50000) then modmf (set_mf_page_size bsize) else mret tt
     | None => mret tt
     end
   else mret tt) s = Ok (tt, set_calls n (set_mfp (set_mf_page_size p (mfp s)) s)) /\ 0 < p < 2 ^ 32.
Proof.
  intros Hp. assert (Hs : set_mfp (set_mf_page_size MEMFILE_PAGE_SIZE (mfp s)) s = s)
    by (destruct s as [[] ? ? ? ? ? ? ?]; cbn in *; by subst).
  destruct b; cycle 1.
  { exists (calls s), MEMFILE_PAGE_SIZE. rewrite Hs. by destruct s. }
  destruct (fstatfs (calls s)) as [z|] eqn:Ef; [destruct ((z >=? 1048) && (z <=? 50000)) eqn:Ez|].
  - exists (Datatypes.S (calls s)), z. apply andb_prop in Ez as [E1%Z.geb_le E2%Z.leb_le].
    split; [|lia]. mstep ltac:(apply next_call_ok). by rewrite Ef, (proj2 (Z.geb_le _ _) E1), (proj2 (Z.leb_le _ _) E2).
  - exists (Datatypes.S (calls s)), MEMFILE_PAGE_SIZE. rewrite Hs. split; [|done].
    mstep ltac:(apply next_call_ok). by rewrite Ef, Ez.
  - exists (Datatypes.S (calls s)), MEMFILE_PAGE_SIZE. rewrite Hs. split; [|done].
    mstep ltac:(apply next_call_ok). by rewrite Ef.
Qed.

Lemma file_size_ok (b : bool) s :
  exists n z, (if b then mret 0 else s ← getS; lseek (zlen (disk s))) s = Ok (z, set_calls n s) /\
    (z <= 0 \/ b = false /\ z = zlen (disk s)).
Proof.
  destruct b; [exists (calls s), 0; split; [by destruct s|lia]|]. eexists _, _.
  split; [mstep ltac:(reflexivity); apply lseek_ok|]. destruct (seek_ok (calls s)); [by right|by left].
Qed.

Lemma mf_open_ok s fname (new fail_nofile : bool) :
  blocks s = ∅ -> transes s = ∅ -> wraps 64 (total_mem_used s) = total_mem_used s ->
  (forall l, fname = Some l -> is_Some (strs s !! l)) ->
  exists ok s', mf_open fname new fail_nofile s = Ok (ok, s') /\
    (if ok : bool then opened s s' fname new else strs s' = freed fname (strs s)).
Proof.
  intros Eb Et Htot Hf. unfold mf_open. mstep ltac:(apply next_call_ok). set (s0 := set_calls _ s).
  destruct (alloc_struct (calls s)); cbn [negb]; cycle 1.
  { exists false. eexists. split; [by mstep ltac:(apply free_str_ok; exact Hf)|]. done. }
  assert (Hopen : exists s1, (if decide (fname = None) then
      modmf (set_mf_fname None) ;; modmf (set_mf_xfname None) ;; modmf (set_mf_fd (-1))
    else mf_do_open fname new) s0 = Ok (tt, s1) /\ blocks s1 = ∅ /\ transes s1 = ∅ /\
      total_mem_used s1 = total_mem_used s /\ names_ok s1 /\
      freed (mf_xfname (mfp s1)) (freed (mf_fname (mfp s1)) (strs s1)) = freed fname (strs s) /\
      (mf_fd (mfp s1) < 0 /\ strs s1 = freed fname (strs s) \/ 0 <= mf_fd (mfp s1) /\ (new = true -> disk s1 = []))).
  { destruct (decide (fname = None)) as [->|].
    - eexists. split; [reflexivity|]. split_and!; try done. by left.
    - destruct (mf_do_open_ok s0 fname new Hf) as (s1 & R1 & V1 & _ & T1 & N1 & Hfd). exists s1.
      unfold view in V1. inversion V1. split_and!; try done; [congruence|by rewrite T1|idtac..].
      { destruct Hfd as [(_ & -> & -> & E)|(_ & E & _)]; exact E. }
      destruct Hfd as [(? & _ & _ & ?)|(? & _ & ?)]; [by left|by right]. }
  destruct Hopen as (s1 & R1 & B1 & T1 & Tot1 & N1 & Hfr & Hfd). mstep ltac:(exact R1). mstep ltac:(apply mf_ok).
  destruct ((mf_fd (mfp s1) <? 0) && fail_nofile) eqn:Efail.
  { apply andb_prop in Efail as [?%Z.ltb_lt _]. exists false, s1. split; [done|]. destruct Hfd as [[_ ?]|[? _]]; [done|lia]. }
  do 8 (mstep ltac:(apply modmf_ok)). cbn [mfp set_mfp].
  set (s2 := set_mfp (set_mf_page_size _ _) _).
  destruct (page_size_ok (mf_fd (mfp s1) >=? 0) s2) as (n2 & p & R2 & Hp); [done|]. mstep ltac:(exact R2).
  set (s3 := set_calls n2 _).
  destruct (file_size_ok ((mf_fd (mfp s1) <? 0) || new) s3) as (n4 & z & R4 & Hz). mstep ltac:(exact R4).
  do 4 (mstep ltac:(apply modmf_ok)). mstep ltac:(apply modmf_ok).
  set (q := if z <=? 0 then 0 else z `quot` p).
  assert (Hq : 0 <= q /\ q * p <= Z.max 0 z).
  { unfold q. destruct (Z.leb_spec z 0); [lia|]. rewrite Z.quot_div_nonneg by lia. split; [by apply Z.div_pos; lia|].
    pose proof (Z.mul_div_le z p ltac:(lia)). lia. }
  exists true. eexists. split; [reflexivity|].
  match goal with |- opened _ ?s' _ _ => set (s5 := s') end.
  assert (Hm : mfp s5 = MkMemfile (mf_fname (mfp s1)) (mf_xfname (mfp s1)) (mf_fd (mfp s1)) None None None false 0
      (if mf_fd (mfp s1) <? 0 then 0 else (p_mm * 1024) `quot` p) (replicate (Z.to_nat MEMHASHSIZE) None)
      (replicate (Z.to_nat MEMHASHSIZE) None) p q (-1) 0 q) by done.
  assert (Hs5 : blocks s5 = ∅ /\ transes s5 = ∅ /\ strs s5 = strs s1 /\ disk s5 = disk s1 /\
    total_mem_used s5 = total_mem_used s) by done.
  assert (Hz' : z <= 0 \/ 0 <= mf_fd (mfp s1) /\ new = false /\ z = zlen (disk s1)).
  { destruct Hz as [?|[[?%Z.ltb_ge ?]%orb_false_elim E]]; [by left|right]. split_and!; [lia|done|exact E]. }
  clearbody s5. clear R2 R4 Hz s2 s3. destruct Hs5 as (B5 & T5 & S5 & D5 & Tot5).
  assert (Hrep : forall out, apart (out_ext p <$> out) ->
    (forall nr bs, (nr, bs) ∈ out -> exists pc, 0 < pc /\ zlen bs = p * pc /\ p * pc < 2 ^ 32 /\ 0 <= nr /\
       nr + pc <= q /\ slice (p * nr) (zlen bs) (disk s5) = bs) ->
    rep s5 [] [] out ∅ (total_mem_used s)).
  { intros out Ho1 Ho2. rewrite <- Tot5. pose proof (Zle_0_nat (length (disk s1))) as Hl.
    apply (rep_empty s5 out p); rewrite ?Hm, ?Tot5, ?D5; cbn; try done; try lia.
    - unfold zlen. destruct Hz' as [?|(? & ? & ->)]; unfold zlen in *; lia.
    - by rewrite <- D5. }
  unfold opened, file_blocks. rewrite Hm. cbn. split_and!.
  - unfold names_ok. rewrite Hm, S5. exact N1.
  - done.
  - apply Hrep; [done|]. intros nr bs Hin. by apply elem_of_nil in Hin.
  - intros Hnew. rewrite D5. destruct Hfd as [[? _]|[_ ?]]; [by right|left; auto].
  - rewrite S5. exact Hfr.
  - intros Hne out [Ho1 Ho2]. apply Hrep; [done|]. rewrite D5 in *.
    destruct Hz' as [?|(? & ? & E)]; [unfold q in Hne; by rewrite (proj2 (Z.leb_le _ _)) in Hne|].
    intros nr bs Hin. destruct (Ho2 nr bs Hin) as (pc & O1 & O2 & O3 & O4 & O5 & O6). exists pc. split_and!; try done.
    unfold q. rewrite <- E in O5. destruct (z <=? 0) eqn:Ez; [|done]. by destruct Hne.
Qed.
End close.
