(* ===== verification/MemfileClient.v ===== *)
(** * The memory file as its clients see it

    The calls of [memfile.c] on a memory file as one type, what a client may
    call when, and the abstract memory file they implement: the blocks in
    memory in order of use, the blocks only in the file, and the translations
    that wait. *)
From S2P Require Import Prelude Heap Dll Memfile MemfileProofs MemfileOps MemfileStore MemfileBlocks MemfileSync.
From stdpp Require Import strings.
Open Scope Z_scope.

Record amf := MkAmf {
  a_used : list (loc * mblock);
  a_out : list (Z * list Z);
  a_pend : gmap Z Z
}.

(** [CStore] is not a function of the file: the client writes the bytes of a
    block it holds, through [bh_data]. *)
Inductive call :=
  | CNew (negative : bool) (page_count : Z)
  | CGet (nr page_count : Z)
  | CPut (l : loc) (is_dirty infile : bool)
  | CFree (l : loc)
  | CSync (all check_char : bool)
  | CTransDel (old : Z)
  | CRelease
  | CStore (l : loc) (bs : list Z)
  | CStatistics
  | CNeedTrans.

Inductive answer :=
  | ABlock (hp : option loc) | ABool (b : bool) | ANum (n : Z) | ADone
  | AStatistics (used nlocked ndirty negative neg_count nfree : Z).

Section client.
Context `{VM : Vim} `{VL : !VimLaws}.
Implicit Types (g : amf) (c : call) (a : answer).
Abbreviation ps c := (mf_page_size (mfp c)).
Abbreviation infile c := (mf_infile_count (mfp c)).

Definition run (c : call) : M mfs cfault answer :=
  match c with
  | CNew negative page_count => r ← mf_new negative page_count; mret (ABlock r)
  | CGet nr page_count => r ← mf_get nr page_count; mret (ABlock r)
  | CPut l d i => mf_put (Some l) d i ;; mret ADone
  | CFree l => mf_free (Some l) ;; mret ADone
  | CSync all check_char => ok ← mf_sync all check_char; mret (ABool ok)
  | CTransDel old => n ← mf_trans_del old; mret (ANum n)
  | CRelease => r ← release_file false; mret (ABool r)
  | CStore l bs => assign (V := bhdr) (Some l) (set_bh_data (BLive bs)) ;; mret ADone
  | CStatistics =>
      r ← mf_statistics;
      let '(used, nlocked, ndirty, negative, neg_count, nfree) := r in
      mret (AStatistics used nlocked ndirty negative neg_count nfree)
  | CNeedTrans => b ← mf_need_trans; mret (ABool b)
  end.

(** The state holds the abstract memory file [g]. *)
Definition implements (s : mfs) g : Prop := exists f B, rep s (a_used g) f (a_out g) (a_pend g) B.

Definition ghold g (h : Z) (bs : list Z) : Prop := holds (a_used g) (a_out g) (a_pend g) h bs.

(** What a client must see to before a call: sizes fit in an [unsigned], a
    block is asked for with its own size, only a block in memory is put, freed
    or written to, only a locked one is written to, and a block that is put as
    clean is one. *)
Definition legal (s : mfs) g c : Prop :=
  match c with
  | CNew _ pc => 0 < pc /\ ps s * pc < 2 ^ 32
  | CGet nr pc =>
      (exists l b, (l, b) ∈ a_used g /\ b_num b = nr) \/
      (exists bs, (nr, bs) ∈ a_out g /\ zlen bs = ps s * pc) \/
      ((forall l b, (l, b) ∈ a_used g -> b_num b <> nr) /\ (nr < 0 \/ infile s <= nr))
  | CPut l d _ => exists b, (l, b) ∈ a_used g /\ (d = false -> is_dirty (b_flags b) = true \/ on_disk (core s) b)
  | CFree l => exists b, (l, b) ∈ a_used g
  | CStore l bs => exists b, (l, b) ∈ a_used g /\ is_locked (b_flags b) = true /\ zlen bs = ps s * b_pc b
  | _ => True
  end.

(** The calls that end what the number [h] stands for, or change its bytes. *)
Definition touches g c (h : Z) : Prop :=
  match c with
  | CFree l | CStore l _ => exists b, (l, b) ∈ a_used g /\ b_num b = default h (a_pend g !! h)
  | CTransDel old => h = old
  | _ => False
  end.

Definition count_used (P : mblock -> bool) g : Z := sumZ ((Z.b2z ∘ P ∘ snd) <$> a_used g).

Definition spec_answer (p : Z) g c a g' : Prop :=
  match c, a with
  | CNew negative pc, ABlock None => True
  | CNew negative pc, ABlock (Some l) => exists b bs u1, a_used g' = (l, b) :: u1 /\ b_pc b = pc /\
      b_data b = BLive bs /\ zlen bs = p * pc /\ is_locked (b_flags b) = true /\ is_dirty (b_flags b) = true /\
      (if negative then b_num b < 0 else 0 <= b_num b)
  | CGet nr pc, ABlock None => forall l b, (l, b) ∈ a_used g -> b_num b <> nr
  | CGet nr pc, ABlock (Some l) => exists b bs u1, a_used g' = (l, b) :: u1 /\ b_num b = nr /\
      b_data b = BLive bs /\ is_locked (b_flags b) = true /\ stored_as (a_used g) (a_out g) nr bs
  | CPut l d _, ADone => exists u1 b u2 b', a_used g = u1 ++ (l, b) :: u2 /\ a_used g' = u1 ++ (l, b') :: u2 /\
      is_locked (b_flags b') = false /\ is_dirty (b_flags b') = d || is_dirty (b_flags b) /\
      b_pc b' = b_pc b /\ b_data b' = b_data b /\ (b_num b' = b_num b \/ b_num b < 0 <= b_num b')
  | CFree l, ADone => exists u1 b u2, a_used g = u1 ++ (l, b) :: u2 /\ a_used g' = u1 ++ u2
  | CSync all check_char, ABool ok => Forall2 evolves (a_used g) (a_used g') /\
      (check_char = false -> ok = true -> synced all (length (a_used g)) (a_used g) (a_used g'))
  | CTransDel old, ANum n => n = default old (a_pend g !! old) /\ a_used g' = a_used g /\
      a_pend g' = delete old (a_pend g) /\ (forall bs, ghold g old bs -> ghold g' n bs)
  | CRelease, ABool r => shrinks (a_used g) (a_used g') /\
      (r = true <-> (length (a_used g') < length (a_used g))%nat)
  | CStore l bs, ADone => exists u1 b u2, a_used g = u1 ++ (l, b) :: u2 /\
      a_used g' = u1 ++ (l, MkBlock (b_num b) (b_pc b) (b_flags b) (BLive bs)) :: u2
  | CStatistics, AStatistics used nlocked ndirty negative neg_count nfree => g' = g /\
      used = Z.of_nat (length (a_used g)) /\ nlocked = count_used (is_locked ∘ b_flags) g /\
      ndirty = count_used (is_dirty ∘ b_flags) g /\ negative = count_used (fun b => b_num b <? 0) g /\
      neg_count = negative + Z.of_nat (size (a_pend g)) /\ 0 <= nfree
  | CNeedTrans, ABool b => g' = g /\
      (b = true -> 0 < count_used (fun b => b_num b <? 0) g + Z.of_nat (size (a_pend g)))
  | _, _ => False
  end.

(** What the abstract memory file promises of a call. *)
Definition spec (p : Z) g c a g' : Prop :=
  (forall h bs, ghold g h bs -> ~ touches g c h -> ghold g' h bs) /\ spec_answer p g c a g'.

(** ** Each call *)
Definition call_ok (s : mfs) g c : Prop :=
  exists a s' g', run c s = Ok (a, s') /\ implements s' g' /\ spec (ps s) g c a g' /\
    later (core s) (core s').

Lemma keeps_spec g g' c :
  keeps (a_used g) (a_out g) (a_pend g) (a_used g') (a_out g') (a_pend g') ->
  forall h bs, ghold g h bs -> ~ touches g c h -> ghold g' h bs.
Proof. intros Hk h bs Hh _. by apply Hk. Qed.

Lemma later_page_size s s' : later (core s) (core s') -> ps s' = ps s.
Proof. apply (lt_ps (core s) (core s')). Qed.

Lemma core_later s s' : core s' = core s -> later (core s) (core s').
Proof. by intros ->. Qed.

Lemma new_call_ok `{DF : !DataFollows} s g negative pc :
  implements s g -> legal s g (CNew negative pc) -> call_ok s g (CNew negative pc).
Proof.
  intros (f & B & HR) (Hpc & Hsz).
  destruct (mf_new_ok s _ f _ _ B negative pc HR Hpc Hsz) as (s' & r & u' & f' & out' & p' & R & HR' & Hlt & Hk & Hr).
  exists (ABlock r), s', (MkAmf u' out' p'). split_and!; [cbn; mstep ltac:(exact R); done|by exists f', B| |done].
  split; [by apply keeps_spec|]. destruct r as [l|]; [|done].
  destruct Hr as (b & bs & u1 & gone & Hu & _ & Hrest). by exists b, bs, u1.
Qed.

Lemma get_call_ok `{DF : !DataFollows} s g nr pc :
  implements s g -> legal s g (CGet nr pc) -> call_ok s g (CGet nr pc).
Proof.
  intros (f & B & HR) [(l & b & Hin & En)|[(bs & Hin & Hz)|[Hno Hnr]]].
  - pose proof HR as (_ & _ & G). destruct g as [u out p]. cbn in *.
    destruct (block_bytes _ _ _ _ _ l b G Hin) as (bs & Ebs & _ & _).
    pose proof Hin as Hm. apply list_elem_of_split in Hin as (u1 & u2 & ->).
    destruct (mf_get_memory s u1 u2 f out p B l b pc HR) as (s' & R & HR' & Q). rewrite En in R.
    eexists (ABlock (Some l)), s', (MkAmf _ out p). split_and!;
      [cbn; mstep ltac:(exact R); done|by exists f, B| |by apply core_later].
    split.
    + apply keeps_spec. cbn. intros h x Hh. eapply (holds_perm (u1 ++ (l, with_flags _ b) :: u2)); [by rewrite Permutation_middle|done|].
      by eapply keeps_evolve_one, Hh.
    + cbn. eexists _, bs, _. split_and!; [done|done|done| |left; by exists l, b].
      apply (flag_laws (b_flags b)).
  - destruct g as [u out p]. cbn in *.
    destruct (mf_get_file s u f out p B nr bs pc HR Hin Hz) as (s' & r & u' & f' & out' & p' & R & Hlt & HR' & Hk & Hr).
    exists (ABlock r), s', (MkAmf u' out' p'). split_and!; [cbn; mstep ltac:(exact R); done|by exists f', B| |done].
    split; [by apply keeps_spec|]. pose proof HR as (_ & _ & G). destruct r as [l|]; cbn.
    + destruct Hr as (u1 & gone & fl & _ & Hu & Hlk & _). eexists _, bs, u1. split_and!; [done|done|done|done|by right].
    + intros l b Hl Hn. by eapply (out_not_in_memory _ _ _ _ _ nr bs l b G).
  - exists (ABlock None), s, g. split_and!; [|by exists f, B| |done].
    + cbn. mstep ltac:(by eapply mf_get_absent). done.
    + split; [by apply keeps_spec; intros ? ?|done].
Qed.

Lemma put_call_ok s g l d i : implements s g -> legal s g (CPut l d i) -> call_ok s g (CPut l d i).
Proof.
  intros (f & B & HR) (b & Hin & Hcl). destruct g as [u out p]. cbn in *.
  apply list_elem_of_split in Hin as (u1 & u2 & ->).
  destruct (mf_put_ok s u1 u2 f out p B l b d i HR Hcl) as (s' & b' & f' & p' & R & HR' & Hlt & H1 & H2 & H3 & H4 & H5 & Hk).
  exists ADone, s', (MkAmf (u1 ++ (l, b') :: u2) out p').
  split_and!; [cbn; mstep ltac:(exact R); done|by exists f', B| |done].
  split; [by apply keeps_spec|]. by exists u1, b, u2, b'.
Qed.

Lemma free_call_ok s g l : implements s g -> legal s g (CFree l) -> call_ok s g (CFree l).
Proof.
  intros (f & B & HR) (b & Hin). destruct g as [u out p]. cbn in *. pose proof Hin as Hm.
  apply list_elem_of_split in Hin as (u1 & u2 & ->).
  destruct (mf_free_ok s u1 u2 f out p B l b HR) as (s' & f' & R & HR' & Hlt & _ & Hh).
  exists ADone, s', (MkAmf (u1 ++ u2) out p). split_and!; [cbn; mstep ltac:(exact R); done|by exists f', B| |done].
  split; [|by exists u1, b, u2]. intros h bs Hb Ht. apply Hh; [|done]. intros E. apply Ht. by exists b.
Qed.

Lemma sync_call_ok s g all cc : implements s g -> call_ok s g (CSync all cc).
Proof.
  intros (f & B & HR). destruct (mf_sync_ok s _ f _ _ B all cc HR) as (s' & ok & u' & f' & p' & R & HR' & Hev & Hlt & Hk & _ & Hs).
  exists (ABool ok), s', (MkAmf u' (a_out g) p'). split_and!; [cbn; mstep ltac:(exact R); done|by exists f', B| |done].
  split; [by apply keeps_spec|]. cbn. split; [done|]. intros Hc Ho. by destruct (Hs Hc Ho).
Qed.

Lemma trans_del_call_ok s g o : implements s g -> call_ok s g (CTransDel o).
Proof.
  intros (f & B & HR). destruct (rep_trans_del s _ f _ _ B o HR) as (s' & R & HR' & Hlt & Ho & Hother).
  eexists (ANum _), s', (MkAmf (a_used g) (a_out g) (delete o (a_pend g))).
  split_and!; [cbn; mstep ltac:(exact R); done|by exists f, B| |done].
  split; [|by cbn; split_and!]. intros h bs Hh Ht. by apply Hother.
Qed.

Lemma release_call_ok s g : implements s g -> call_ok s g CRelease.
Proof.
  intros (f & B & HR). destruct (release_file_ok s _ f _ _ B false HR) as (s' & u' & f' & out' & p' & R & HR' & Hlt & Hk & Hs).
  eexists (ABool _), s', (MkAmf u' out' p'). split_and!; [cbn; mstep ltac:(exact R); done|by exists f', B| |done].
  split; [by apply keeps_spec|]. cbn. split; [done|]. apply Nat.ltb_lt.
Qed.

Lemma store_call_ok s g l bs : implements s g -> legal s g (CStore l bs) -> call_ok s g (CStore l bs).
Proof.
  intros (f & B & HR) (b & Hin & Hlk & Hz). destruct g as [u out p]. cbn in *. pose proof HR as (HL & HT & G).
  destruct (gd_used _ _ _ _ _ G l b Hin) as (Hpc & Hsz & _). pose proof Hin as Hm.
  apply list_elem_of_split in Hin as (u1 & u2 & ->).
  set (b' := MkBlock (b_num b) (b_pc b) (b_flags b) (BLive bs)).
  destruct (lists_update_used s u1 u2 f [] B l b b' (set_bh_data (BLive bs)) HL) as (s' & R & HL' & [Q C]);
    [done|by intros nd <-|done|done|].
  exists ADone, s', (MkAmf (u1 ++ (l, b') :: u2) out p).
  split_and!; [cbn; mstep ltac:(exact R); done| | |by apply core_later].
  - exists f, B. split_and!; [done|by eapply translations_core|]. rewrite Q. cbn.
    apply (good_replace _ _ _ _ b); try done; [|cbn; congruence]. unfold block_ok. cbn. split_and!; [done|done|by exists bs].
  - split; [|by exists u1, b, u2]. intros h x [(y & by0 & Hy & En & Ed)|Ho] Ht; [left|by right].
    assert (Hx : (y, by0) = (l, b) \/ (y, by0) ∈ u1 ++ u2) by set_solver.
    destruct Hx as [[= -> ->]|Hx]; [destruct Ht; by exists b|]. exists y, by0. split_and!; [set_solver|done|done].
Qed.

Lemma negs_count g : negs (a_used g) = count_used (fun b => b_num b <? 0) g.
Proof.
  unfold negs, count_used. induction (a_used g) as [|[l b] u IH]; [done|].
  rewrite filter_cons, fmap_cons, sumZ_cons, <- IH. cbn [snd compose].
  destruct (decide (b_num b < 0)), (Z.ltb_spec (b_num b) 0); cbn [length Z.b2z compose]; lia.
Qed.

Lemma stat_used_ok s : forall u2 u1 f B fuel used nl nd ng,
  lists s (u1 ++ u2) f [] B -> (length u2 < fuel)%nat ->
  stat_used fuel (first_of u2.*1 None) (used, nl, nd, ng) s =
    Ok ((used + Z.of_nat (length u2), nl + sumZ ((Z.b2z ∘ (is_locked ∘ b_flags) ∘ snd) <$> u2),
         nd + sumZ ((Z.b2z ∘ (is_dirty ∘ b_flags) ∘ snd) <$> u2),
         ng + sumZ ((Z.b2z ∘ (fun b => b_num b <? 0) ∘ snd) <$> u2)), s).
Proof.
  induction u2 as [|[l b] u2 IH]; intros u1 f B [|fuel] used nl nd ng HL Hf; cbn in Hf; try lia.
  - cbn [stat_used first_of fmap list_fmap length]. by rewrite !Z.add_0_r.
  - destruct (lists_block _ _ _ _ _ l b HL) as (x & E & Eb); [set_solver|].
    destruct (lists_links _ _ _ _ _ _ _ _ _ HL E) as [_ En].
    cbn [stat_used first_of fmap list_fmap fst]. mstep ltac:(by apply dblock_ok). cbn [snd]. rewrite En.
    rewrite (cons_middle (l, b)), app_assoc in HL. erewrite IH; [|exact HL|lia].
    rewrite (locked_flags x b Eb), (dirty_flags x b Eb). replace (bh_bnum x) with (b_num b) by (by rewrite <- Eb).
    rewrite !sumZ_cons. cbn [length compose snd]. rewrite Nat2Z.inj_succ, <- Z.add_1_l, !Z.add_assoc. done.
Qed.

Lemma stat_free_ok s : forall xs p fuel n, slist (blocks s) p xs -> (length xs < fuel)%nat ->
  stat_free fuel p n s = Ok (n + Z.of_nat (length xs), s).
Proof.
  induction xs as [|x xs IH]; intros p [|fuel] n Hs Hf; cbn in Hf; try lia.
  - cbn in Hs. subst p. cbn. by rewrite Z.add_0_r.
  - destruct Hs as (-> & nd & E & Hs). cbn [stat_free]. mstep ltac:(by apply dblock_ok). cbn [snd].
    rewrite (IH _ _ _ Hs) by lia. do 2 f_equal. cbn [length]. lia.
Qed.

Lemma statistics_call_ok s g : implements s g -> call_ok s g CStatistics.
Proof.
  intros (f & B & HR). pose proof HR as (HL & _ & G). pose proof HL as (c & HS & _).
  eexists (AStatistics _ _ _ _ _ _), s, g. split_and!; [|by exists f, B| |done].
  - cbn [run]. mstep ltac:(unfold mf_statistics; mstep ltac:(apply mf_ok); mstep ltac:(by eapply lists_walk);
      rewrite (lists_first _ _ _ _ _ HL); mstep ltac:(apply (stat_used_ok s _ [] f B _ _ _ _ _ HL); lia);
      mstep ltac:(apply (stat_free_ok s f.*1); [exact (sh_free _ _ HS)|rewrite length_fmap; lia]); reflexivity).
    reflexivity.
  - split; [by apply keeps_spec; intros ? ?|]. cbn [spec_answer]. split_and!; [done|lia|done|done|done| |lia].
    pose proof (gd_count _ _ _ _ _ G) as E. rewrite negs_count in E. unfold count_used in E. cbn in E. lia.
Qed.

Lemma need_trans_call_ok s g : implements s g -> call_ok s g CNeedTrans.
Proof.
  intros (f & B & HR). pose proof HR as (_ & _ & G).
  eexists (ABool _), s, g. split_and!; [reflexivity|by exists f, B| |done].
  split; [by apply keeps_spec; intros ? ?|]. split; [done|]. intros [_ Hn%Z.gtb_lt]%andb_prop.
  pose proof (gd_count _ _ _ _ _ G) as E. cbn in E. rewrite <- negs_count, <- E. done.
Qed.

Lemma every_call_ok `{DF : !DataFollows} s g c : implements s g -> legal s g c -> call_ok s g c.
Proof.
  intros Hi Hl. destruct c; auto using new_call_ok, get_call_ok, put_call_ok, free_call_ok, sync_call_ok,
    trans_del_call_ok, release_call_ok, store_call_ok,
    statistics_call_ok, need_trans_call_ok.
Qed.

(** ** Sessions: calls, each legal, that do not touch the number [h] *)
Inductive session (h : option Z) : mfs -> amf -> list (call * answer) -> mfs -> amf -> Prop :=
  | ses_nil s g : session h s g [] s g
  | ses_cons s g c a s1 g1 tr s2 g2 :
      legal s g c -> (forall n, h = Some n -> ~ touches g c n) ->
      run c s = Ok (a, s1) -> implements s1 g1 -> spec (ps s) g c a g1 ->
      session h s1 g1 tr s2 g2 -> session h s g ((c, a) :: tr) s2 g2.

Lemma session_implements h s g tr s' g' : session h s g tr s' g' -> implements s g -> implements s' g'.
Proof. induction 1; auto. Qed.

Lemma session_later `{DF : !DataFollows} h s g tr s' g' :
  session h s g tr s' g' -> implements s g -> later (core s) (core s').
Proof.
  induction 1 as [|s g c a s1 g1 tr s2 g2 Hl Ht R Hi Hs _ IH]; intros Hi0; [done|].
  destruct (every_call_ok s g c Hi0 Hl) as (a' & s1' & g' & R' & _ & _ & Hlt).
  rewrite R in R'. injection R' as _ <-. etrans; [exact Hlt|by apply IH].
Qed.

(** A session can always go on. *)
Lemma session_step `{DF : !DataFollows} h s g c :
  implements s g -> legal s g c -> (forall n, h = Some n -> ~ touches g c n) ->
  exists a s1 g1, implements s1 g1 /\ spec_answer (ps s) g c a g1 /\ session h s g [(c, a)] s1 g1.
Proof.
  intros Hi Hl Ht. destruct (every_call_ok s g c Hi Hl) as (a & s1 & g1 & R & Hi1 & Hs & _).
  exists a, s1, g1. split_and!; [done|apply Hs|]. eapply ses_cons; try done. constructor.
Qed.

(** ** What a number stands for is unique *)
Lemma stored_unique s g nr bs bs' : implements s g ->
  stored_as (a_used g) (a_out g) nr bs -> stored_as (a_used g) (a_out g) nr bs' -> bs = bs'.
Proof.
  intros (f & B & _ & _ & G) [(l & b & Hin & En & Ed)|Ho] [(l' & b' & Hin' & En' & Ed')|Ho'].
  - apply elem_split_perm in Hin as [r1 P1]. rewrite P1 in Hin'. apply elem_of_cons in Hin' as [[= -> ->]|Hin']; [congruence|].
    pose proof (gd_nums _ _ _ _ _ G) as Hnd. rewrite P1 in Hnd. cbn in Hnd. apply NoDup_cons in Hnd as [Hn _].
    destruct Hn. apply list_elem_of_fmap. exists (l', b'). split; [cbn; congruence|done].
  - by destruct (out_not_in_memory _ _ _ _ _ nr bs' l b G Ho' Hin).
  - by destruct (out_not_in_memory _ _ _ _ _ nr bs l' b' G Ho Hin').
  - destruct (decide (bs = bs')) as [?|Hne]; [done|exfalso].
    destruct (gd_out _ _ _ _ _ G nr bs Ho) as (pc & Hpc & Hz & _ & Hnr & _).
    destruct (gd_out _ _ _ _ _ G nr bs' Ho') as (pc' & Hpc' & Hz' & _).
    apply elem_split_perm in Ho as [r P]. rewrite P in Ho'. apply elem_of_cons in Ho' as [[=]|Ho']; [by destruct Hne|].
    apply elem_split_perm in Ho' as [r' P']. pose proof (gd_ps _ _ _ _ _ G) as Gp. pose proof (gd_apart _ _ _ _ _ G) as Ha.
    eapply apart_disj in Ha; [|unfold extents; rewrite P, P'; cbn; rewrite (Permutation_app_comm (snd <$> f)); 
      rewrite app_assoc, (Permutation_app_comm (ext <$> a_used g)); cbn; done].
    unfold disj in Ha. cbn in Ha, Gp, Hz, Hz'. rewrite Hz, Hz', !(Z.mul_comm (ps s)), !Z.div_mul in Ha by lia. lia.
Qed.
End client.
