(* ===== verification/MemfileTheorems.v ===== *)
(** * What the memory files of [memfile.c] promise *)
From S2P Require Import Prelude Heap Dll Memfile MemfileProofs MemfileOps MemfileStore MemfileBlocks MemfileSync.
From S2P Require Import MemfileClose MemfileClient.
From stdpp Require Import strings.
Open Scope Z_scope.

Section theorems.
Context `{VM : Vim} `{VL : !VimLaws}.

(** C3. Every call of a memory file implements the abstract memory file: when
    the client sees to what [legal] asks, [mf_new], [mf_get], [mf_put],
    [mf_free], [mf_sync], [mf_trans_del], [mf_statistics], [mf_need_trans] and
    the release of blocks return without a fault, on the used list, the hash lists, the free list and the
    translation lists as on the abstract blocks.  The new state again
    represents an abstract memory file, every number the call does not touch
    still stands for the same bytes, in memory or in the file, and the answer
    is the one [spec_answer] describes: a new block is locked, dirty and of the
    size asked for, a block that is got has the bytes stored under its number, a
    successful full sync leaves every block in scope clean, and so on.  The
    allocation of a block's bytes is assumed to succeed when that of its header
    did ([DataFollows]); [mf_alloc_failures] says what happens otherwise. *)
Theorem memfile_refines `{DF : !DataFollows} s g c :
  implements s g -> legal s g c ->
  exists a s' g', run c s = Ok (a, s') /\ implements s' g' /\
    (forall h bs, ghold g h bs -> ~ touches g c h -> ghold g' h bs) /\
    spec_answer (mf_page_size (mfp s)) g c a g'.
Proof.
  intros Hi Hl. destruct (every_call_ok s g c Hi Hl) as (a & s' & g' & R & Hi' & Hs & _).
  exists a, s', g'. split; [exact R|]. split; [exact Hi'|exact Hs].
Qed.

(** What a client that makes the calls [cs] sees of the number [h] with the bytes
    [bs]: as long as its calls are legal and do not free or overwrite the block of
    [h] or use its translation up, each returns, on a state that represents a
    memory file again, as [spec] says; and in the end [mf_get] for the number [h]
    now stands for gives a locked block, at the head of the used list, with the
    bytes [bs].  It gives nothing only for a block that is in the file and not in
    memory (there is then no memory for it, or it cannot be read). *)
Fixpoint served (h : Z) (bs : list Z) (cs : list call) (s : mfs) (g : amf) : Prop :=
  match cs with
  | [] => forall pc, zlen bs = mf_page_size (mfp s) * pc ->
      exists hp s' g', mf_get (default h (a_pend g !! h)) pc s = Ok (hp, s') /\ implements s' g' /\
        match hp with
        | Some l => exists b u1, a_used g' = (l, b) :: u1 /\ b_num b = default h (a_pend g !! h) /\
            b_data b = BLive bs /\ is_locked (b_flags b) = true
        | None => (default h (a_pend g !! h), bs) ∈ a_out g
        end
  | c :: cs' => legal s g c -> ~ touches g c h ->
      exists a s1 g1, run c s = Ok (a, s1) /\ implements s1 g1 /\ spec (mf_page_size (mfp s)) g c a g1 /\
        served h bs cs' s1 g1
  end.

(** Asking for what a number stands for. *)
Lemma get_held `{DF : !DataFollows} s g h bs : implements s g -> ghold g h bs -> served h bs [] s g.
Proof.
  intros Hi Hh pc Hz. set (m := default h (a_pend g !! h)).
  assert (Hl : legal s g (CGet m pc)).
  { destruct Hh as [(l & b & Hin & En & _)|Ho]; [left; by exists l, b|right; left; by exists bs]. }
  destruct (get_call_ok s g m pc Hi Hl) as (a & s' & g' & R & Hi' & [_ Ha] & _).
  cbn in R. apply M_bind_inv in R as (hp & s3 & R & E). injection E as <- <-.
  exists hp, s3, g'. split; [exact R|]. split; [exact Hi'|]. destruct hp as [l|]; cbn in Ha.
  - destruct Ha as (b & bs' & u1 & Hu & En & Ed & Hlk & Hst). exists b, u1.
    rewrite (stored_unique s g m bs bs' Hi Hh Hst). by split_and!.
  - destruct Hh as [(l & b & Hin & En & _)|Ho]; [by destruct (Ha l b Hin)|done].
Qed.

(** C32. What is put is got: the bytes [bs] that a number [h] stands for are
    served to a client through any calls of its own that leave the block alone,
    whatever is released to the file, written, renumbered or read back on the
    way, and whatever of the system's calls fail, except for memory of a block
    whose header was allocated. *)
Theorem memfile_keeps_blocks `{DF : !DataFollows} s g h bs cs :
  implements s g -> ghold g h bs -> served h bs cs s g.
Proof.
  revert s g. induction cs as [|c cs IH]; intros s g Hi Hh; [by apply get_held|]. intros Hl Ht.
  destruct (every_call_ok s g c Hi Hl) as (a & s1 & g1 & R & Hi1 & Hs & _).
  exists a, s1, g1. split_and!; [done|done|done|]. apply IH; [done|]. by apply (proj1 Hs).
Qed.

(** C33. A memory file from opening to closing.  [mf_open] does not fault; when
    it returns no memory file the name it was given has been given back.  When
    it returns one, it represents an empty abstract memory file, or any blocks
    of the file that do not overlap; and after any session of legal calls
    [mf_close] gives back every block, every header on the free list, every
    translation record and both names, each once, leaving the names as they
    were before without the one handed over, and removes the file when it is
    told to.  The memory used by the blocks is not taken off
    [total_mem_used]. *)
Theorem memfile_open_close `{DF : !DataFollows} s fname new fail_nofile :
  blocks s = ∅ -> transes s = ∅ -> wraps 64 (total_mem_used s) = total_mem_used s ->
  (forall l, fname = Some l -> is_Some (strs s !! l)) ->
  exists ok s1, mf_open fname new fail_nofile s = Ok (ok, s1) /\
    (ok = false -> strs s1 = freed fname (strs s)) /\
    (ok = true -> forall out, out = [] \/
        mf_infile_count (mfp s1) <> 0 /\ file_blocks (mf_page_size (mfp s1)) (disk s1) out ->
      implements s1 (MkAmf [] out ∅) /\
      forall h tr s2 g2 del, session h s1 (MkAmf [] out ∅) tr s2 g2 ->
        exists s3, mf_close del s2 = Ok (tt, s3) /\ blocks s3 = ∅ /\ transes s3 = ∅ /\
          strs s3 = freed fname (strs s) /\ disk s3 = disk s2 /\ total_mem_used s3 = total_mem_used s2 /\
          unlinked s3 = (match mf_fname (mfp s1) with
                         | Some l => if del : bool then [strs s1 !! l] else []
                         | None => [] end) ++ unlinked s2).
Proof.
  intros Eb Et Ht Hf. destruct (mf_open_ok s fname new fail_nofile Eb Et Ht Hf) as (ok & s1 & R & Hok).
  exists ok, s1. split; [exact R|]. split; [by intros ->|]. intros -> out Hout.
  destruct Hok as (N1 & Tot & Hrep & _ & Hfr & Hfile).
  assert (Hi : implements s1 (MkAmf [] out ∅)).
  { exists [], (total_mem_used s). destruct Hout as [->|[Hne Hb]]; [exact Hrep|by apply Hfile]. }
  split; [exact Hi|]. intros h tr s2 g2 del Hs.
  pose proof (session_later _ _ _ _ _ _ Hs Hi) as Hlt. pose proof (session_implements _ _ _ _ _ _ Hs Hi) as (f & B & HR).
  pose proof (lt_fname _ _ Hlt) as E1. pose proof (lt_xfname _ _ Hlt) as E2. pose proof (lt_strs _ _ Hlt) as E3.
  cbn in E1, E2, E3.
  destruct (mf_close_ok s2 _ _ _ _ _ del HR) as (s3 & R3 & B3 & T3 & S3 & D3 & M3 & U3).
  { unfold names_ok. rewrite E1, E2, E3. exact N1. }
  exists s3. split; [exact R3|]. rewrite E1, E3 in U3. rewrite E1, E2, E3, Hfr in S3. by split_and!.
Qed.

(** [mf_new] without memory, on a memory file that has no file: when the
    header cannot be allocated nothing is returned and nothing changes; when the
    header can be allocated and the bytes of the block cannot, [mf_alloc_bhdr]
    gives the header back, clears its pointer and then stores the page count
    through it. *)
Theorem mf_alloc_failures s g pc :
  implements s g -> mf_fd (mfp s) < 0 ->
  (alloc_struct (calls s) = false ->
     mf_new true pc s = Ok (None, set_calls (Datatypes.S (calls s)) s)) /\
  (alloc_struct (calls s) = true ->
   alloc_data (Datatypes.S (calls s)) (u32 (mf_page_size (mfp s) * pc)) = None ->
     mf_new true pc s = Err NullDeref).
Proof.
  intros (f & B & HL & _) Hfd.
  assert (Rrel : mf_release pc s = Ok (None, s)).
  { unfold mf_release. mstep ltac:(apply mf_ok). mstep ltac:(reflexivity). by rewrite (proj2 (Z.ltb_lt _ _) Hfd). }
  assert (Rf : exists nd, (match mf_free_first (mfp s) with
            | None => mret None
            | Some _ => x ← deref (V := bhdr) (mf_free_first (mfp s));
                mret (if negb true && (bh_page_count x.2 >=? pc) then Some x.2 else None)
            end) s = Ok (None, s) /\ nd = tt).
  { exists tt. split; [|done]. rewrite (lists_free_first _ _ _ _ _ HL). destruct f as [|[l fr] f]; [done|].
    destruct (lists_free _ _ _ _ _ l fr HL) as (nd & E & _); [set_solver|]. cbn [fmap list_fmap first_of fst].
    mstep ltac:(by apply dblock_ok). done. }
  destruct Rf as (_ & Rf & _).
  split; intros Ha; [|intros Hd]; unfold mf_new; mstep ltac:(exact Rrel); mstep ltac:(apply mf_ok); mstep ltac:(exact Rf).
  - mstep ltac:(mstep ltac:(by apply alloc_bhdr_no_header); reflexivity). done.
  - by rewrite !M_bind_eq, (alloc_bhdr_no_data s pc Ha Hd).
Qed.
End theorems.

(** ** A concrete system *)
(** Calls succeed and transfer what is asked for; blocks have memory when [mem]
    says so; every file holds one page of 2048 bytes. *)
Definition ex_page : list Z := replicate 2048 7.

#[local] Instance ex_vim (mem : bool) : Vim := {|
  MEMHASHSIZE := 64; MEMHASH := fun nr => nr mod 64; BH_LOCKED := 2; BH_DIRTY := 1;
  p_mm := 64; p_mmt := 128;
  FullName := fun o => match o with Some f => Some ("/tmp/" +:+ f)%string | None => None end;
  alloc_struct := fun _ => true;
  alloc_data := fun _ sz => if mem && (0 <=? sz) then Some (replicate (Z.to_nat sz) 0) else None;
  uninit_bhdr := MkBhdr None None None None 0 BNull 0 0; uninit_trans := MkTrans None None 0 0;
  strsave_ok := fun _ => true;
  open_file := fun _ _ => Some (3, ex_page);
  fstatfs := fun _ => Some 2048;
  seek_ok := fun _ => true;
  sys_read := fun _ n => n; sys_write := fun _ n => n;
  fsync_fails := fun _ => false;
  mch_char_avail := fun _ => false
|}.

#[local] Instance ex_laws mem : @VimLaws (ex_vim mem).
Proof.
  split.
  - intros nr. change (0 <= nr mod 64 < 64). by apply Z.mod_pos_bound.
  - exists 1, 0. by cbn.
  - intros n sz bs. cbn. destruct (mem && (0 <=? sz)) eqn:E; [|done]. intros [= <-].
    apply andb_prop in E as [_ ?%Z.leb_le]. rewrite zlen_replicate. lia.
  - intros n str fd bs [= <- _]. lia.
Qed.

#[local] Instance ex_follows : @DataFollows (ex_vim true).
Proof. intros n sz Hsz _. cbn. by rewrite (proj2 (Z.leb_le _ _) Hsz). Qed.

Definition ex_new : mfs :=
  MkMfs (MkMemfile None None 0 None None None false 0 0 [] [] 0 0 0 0 0) ∅ ∅ {[0%nat := "x.swp"%string]} [] [] 0 0.

Definition ex_open (mem : bool) (fname : option loc) : mfs :=
  match mf_open (H := ex_vim mem) fname false false ex_new with Ok (_, s) => s | _ => ex_new end.

Lemma ex_names (fname : option loc) : fname = Some 0%nat \/ fname = None ->
  forall l, fname = Some l -> is_Some (strs ex_new !! l).
Proof. intros [->| ->] l [=]; subst. cbn. by eexists. Qed.

Definition ex_amf : amf := MkAmf [] [(0, ex_page)] ∅.

Lemma ex_implements : implements (VM := ex_vim true) (ex_open true (Some 0%nat)) ex_amf.
Proof.
  destruct (mf_open_ok (VM := ex_vim true) ex_new (Some 0%nat) false false) as (ok & s1 & R & Hok);
    [done|done|done|apply ex_names; by left|].
  unfold ex_open. rewrite R.
  assert (E : (match mf_open (H := ex_vim true) (Some 0%nat) false false ex_new with
    | Ok (ok, s) => ok && (mf_infile_count (mfp s) =? 1) && (mf_page_size (mfp s) =? 2048) &&
        bool_decide (disk s = ex_page)
    | _ => false end) = true) by (vm_compute; reflexivity).
  rewrite R in E. apply andb_prop in E as [E Ed%bool_decide_eq_true]. apply andb_prop in E as [E Ep%Z.eqb_eq].
  apply andb_prop in E as [-> Ei%Z.eqb_eq]. destruct Hok as (_ & _ & _ & _ & _ & Hrep).
  exists [], (total_mem_used ex_new). apply Hrep; [by rewrite Ei|]. rewrite Ep, Ed. split; [done|].
  intros nr bs [= -> ->]%list_elem_of_singleton. exists 1. split_and!; try (vm_compute; done); reflexivity.
Qed.

Lemma ex_page_size : mf_page_size (mfp (ex_open true (Some 0%nat))) = 2048.
Proof. vm_compute. reflexivity. Qed.

Lemma memfile_refines_witness :
  implements (VM := ex_vim true) (ex_open true (Some 0%nat)) ex_amf /\
  exists a s' g', run (VM := ex_vim true) (CNew false 1) (ex_open true (Some 0%nat)) = Ok (a, s') /\
    implements (VM := ex_vim true) s' g' /\ ghold g' 0 ex_page.
Proof.
  split; [exact ex_implements|].
  destruct (memfile_refines (VM := ex_vim true) (ex_open true (Some 0%nat)) ex_amf (CNew false 1) ex_implements)
    as (a & s' & g' & R & Hi & Hk & _); [by vm_compute|].
  exists a, s', g'. split; [exact R|]. split; [exact Hi|]. apply Hk; [|by intros []].
  right. apply list_elem_of_singleton. reflexivity.
Defined.

(** The page of the file goes through a sync, a block of another number, and a
    release, and is read. *)
Definition ex_calls : list call := [CSync true false; CNew true 1; CRelease].

Definition ex_bytes : res cfault (option block_data * mfs) :=
  (run (VM := ex_vim true) (CSync true false) ;; run (VM := ex_vim true) (CNew true 1) ;;
   run (VM := ex_vim true) CRelease ;; r ← mf_get (H := ex_vim true) 0 1;
   x ← deref (V := bhdr) r; mret (Some (bh_data x.2))) (ex_open true (Some 0%nat)).

Lemma memfile_keeps_blocks_witness :
  (match ex_bytes with Ok (Some (BLive bs), _) => bool_decide (bs = ex_page) | _ => false end) = true /\
  ghold ex_amf 0 ex_page /\
  exists a1 s1 g1 a2 s2 g2 a3 s3 g3, run (VM := ex_vim true) (CSync true false) (ex_open true (Some 0%nat)) = Ok (a1, s1) /\
    run (VM := ex_vim true) (CNew true 1) s1 = Ok (a2, s2) /\ run (VM := ex_vim true) CRelease s2 = Ok (a3, s3) /\
    implements (VM := ex_vim true) s1 g1 /\ implements (VM := ex_vim true) s2 g2 /\ served (VM := ex_vim true) 0 ex_page [] s3 g3.
Proof.
  assert (Hh : ghold ex_amf 0 ex_page) by (right; apply list_elem_of_singleton; reflexivity).
  split; [vm_compute; reflexivity|]. split; [exact Hh|].
  destruct (memfile_keeps_blocks (VM := ex_vim true) (ex_open true (Some 0%nat)) ex_amf 0 ex_page ex_calls ex_implements Hh
    I ltac:(by intros [])) as (a1 & s1 & g1 & R1 & Hi1 & Hs1 & H1).
  assert (Ep : mf_page_size (mfp s1) = 2048).
  { destruct (every_call_ok (VM := ex_vim true) _ _ (CSync true false) ex_implements I) as (a' & s' & g' & R' & _ & _ & Hlt).
    rewrite R1 in R'. injection R' as _ <-. by rewrite (later_page_size _ _ Hlt), ex_page_size. }
  destruct (H1 ltac:(split; [done|rewrite Ep; done]) ltac:(by intros [])) as (a2 & s2 & g2 & R2 & Hi2 & _ & H2).
  destruct (H2 I ltac:(by intros [])) as (a3 & s3 & g3 & R3 & _ & _ & H3).
  exists a1, s1, g1, a2, s2, g2, a3, s3, g3. by split_and!.
Defined.

Lemma memfile_open_close_witness :
  exists s1 s3, mf_open (H := ex_vim true) (Some 0%nat) false false ex_new = Ok (true, s1) /\
    implements (VM := ex_vim true) s1 (MkAmf [] [] ∅) /\
    mf_close (H := ex_vim true) true s1 = Ok (tt, s3) /\ blocks s3 = ∅ /\ strs s3 = delete 0%nat (strs ex_new).
Proof.
  destruct (memfile_open_close (VM := ex_vim true) ex_new (Some 0%nat) false false)
    as (ok & s1 & R & _ & Hok); [reflexivity..|apply ex_names; by left|].
  assert (E : (match mf_open (H := ex_vim true) (Some 0%nat) false false ex_new with
    | Ok (ok, _) => ok | _ => false end) = true) by (vm_compute; reflexivity).
  rewrite R in E. subst ok. destruct (Hok eq_refl [] (or_introl eq_refl)) as [Hi Hc].
  destruct (Hc None [] s1 _ true (ses_nil None s1 _)) as (s3 & R3 & B3 & _ & S3 & _).
  exists s1, s3. split; [exact R|]. split; [exact Hi|]. split; [exact R3|]. split; [exact B3|exact S3].
Defined.

Lemma mf_alloc_failures_witness :
  mf_new (H := ex_vim false) true 1 (ex_open false None) = Err NullDeref.
Proof.
  assert (Hi : implements (VM := ex_vim false) (ex_open false None) (MkAmf [] [] ∅)).
  { destruct (mf_open_ok (VM := ex_vim false) ex_new None false false) as (ok & s1 & R & Hok);
      [done|done|done|done|].
    unfold ex_open. rewrite R.
    assert (E : (match mf_open (H := ex_vim false) None false false ex_new with
      | Ok (ok, _) => ok | _ => false end) = true) by (vm_compute; reflexivity).
    rewrite R in E. subst ok. destruct Hok as (_ & _ & Hrep & _). by exists [], (total_mem_used ex_new). }
  apply (mf_alloc_failures (VM := ex_vim false) _ _ 1 Hi); vm_compute; reflexivity.
Defined.
