(* ===== verification/Slotmem.v ===== *)
(** * Apache: slots of shared memory ([mod_slotmem_shm.c])

    A slotmem is a shared memory segment that holds its own description, a
    count of free slots, [num] slots of [size] bytes and a table with one byte
    per slot that says whether the slot is in use.  A process keeps a linked
    list of the slotmems it works with; several processes may have the same
    segment.  A slotmem with the flag [PERSIST] is written to a file when the
    server stops and read back when it starts.

    The state [sms] holds the process's list ([insts], [globallistmem]) and what
    is outside the process: the segments ([segs]), their names ([names]) and the
    files ([files]).  The functions are state transformers in the prelude's
    monad.  A pointer into a segment is an offset.

    [apr_*], [ap_*], the flags of [ap_slotmem.h] and the representation of the
    structures in memory are not part of the repository: they are the class
    [Apr], where the answer of a system call depends on the number of calls made
    before it.  [apr_size_t] has 64 bits, [unsigned int] has 32.  The
    permissions of a segment ([unixd_set_shm_perms]) are left out. *)
From S2P Require Import Prelude Heap.
From stdpp Require Import strings.
Open Scope Z_scope.

Inductive apr_status_t :=
  | APR_SUCCESS | APR_ENOSHMAVAIL | APR_EINVAL | APR_NOTFOUND | APR_EEXIST | APR_ERROR (n : Z).

#[export] Instance apr_status_dec : EqDecision apr_status_t.
Proof. solve_decision. Defined.

Record sharedslotdesc_t := MkDesc { d_size : Z; d_num : Z; d_type : Z }.

Record slotmem_instance := MkInst {
  name : string;
  fbased : bool;
  shm : loc;
  base : Z;
  inuse : Z;
  num_free : Z;
  persist : Z;
  desc : sharedslotdesc_t;
  inext : option loc
}.

Record sms := MkSms {
  insts : gmap loc slotmem_instance;
  globallistmem : option loc;
  gpool : bool;
  segs : gmap loc (list Z);
  names : gmap string loc;
  files : gmap string (list Z);
  calls : nat
}.

Definition set_inext (x : option loc) (r : slotmem_instance) : slotmem_instance :=
  MkInst (name r) (fbased r) (shm r) (base r) (inuse r) (num_free r) (persist r) (desc r) x.
Definition set_insts (x : gmap loc slotmem_instance) (s : sms) : sms :=
  MkSms x (globallistmem s) (gpool s) (segs s) (names s) (files s) (calls s).
Definition set_globallistmem (x : option loc) (s : sms) : sms :=
  MkSms (insts s) x (gpool s) (segs s) (names s) (files s) (calls s).
Definition set_segs (x : gmap loc (list Z)) (s : sms) : sms :=
  MkSms (insts s) (globallistmem s) (gpool s) x (names s) (files s) (calls s).
Definition set_names (x : gmap string loc) (s : sms) : sms :=
  MkSms (insts s) (globallistmem s) (gpool s) (segs s) x (files s) (calls s).
Definition set_files (x : gmap string (list Z)) (s : sms) : sms :=
  MkSms (insts s) (globallistmem s) (gpool s) (segs s) (names s) x (calls s).
Definition set_calls (x : nat) (s : sms) : sms :=
  MkSms (insts s) (globallistmem s) (gpool s) (segs s) (names s) (files s) x.

#[export] Instance sms_insts : Store sms slotmem_instance := {| the_heap := insts; with_heap := set_insts |}.

(** [attach_status], [create_status] and [open_status] answer a call;
    [fresh_bytes] is what a new segment holds; [read_count] and [write_count]
    are the bytes transferred. *)
Class Apr := {
  AP_SLOTMEM_TYPE_PERSIST : Z; AP_SLOTMEM_TYPE_PREGRAB : Z; AP_SLOTMEM_TYPE_CLEARINUSE : Z;
  APR_ALIGN_DEFAULT : Z -> Z; sizeof_desc : Z; sizeof_uint : Z;
  desc_bytes : sharedslotdesc_t -> list Z; desc_of_bytes : list Z -> sharedslotdesc_t;
  uint_bytes : Z -> list Z; uint_of_bytes : list Z -> Z;
  ap_runtime_dir_relative : string -> string;
  attach_status : nat -> apr_status_t; create_status : nat -> apr_status_t;
  fresh_bytes : nat -> Z -> list Z;
  open_status : nat -> apr_status_t; info_ok : nat -> bool;
  read_count : nat -> Z -> Z; write_count : nat -> Z -> Z;
  log_debug : bool
}.

Definition u64 (z : Z) : Z := wrapu 64 z.

Section slotmem.
Context `{Apr}.

Abbreviation SM := (M sms cfault).
Abbreviation dinst := (deref (V := slotmem_instance)).
Abbreviation ainst := (assign (V := slotmem_instance)).

Definition AP_SLOTMEM_OFFSET : Z := APR_ALIGN_DEFAULT sizeof_desc.
Definition AP_UNSIGNEDINT_OFFSET : Z := APR_ALIGN_DEFAULT sizeof_uint.

Definition has_type (t : slotmem_instance) (flag : Z) : bool := negb (Z.land (d_type (desc t)) flag =? 0).
Definition AP_SLOTMEM_IS_PREGRAB (t : slotmem_instance) : bool := has_type t AP_SLOTMEM_TYPE_PREGRAB.
Definition AP_SLOTMEM_IS_PERSIST (t : slotmem_instance) : bool := has_type t AP_SLOTMEM_TYPE_PERSIST.
Definition AP_SLOTMEM_IS_CLEARINUSE (t : slotmem_instance) : bool := has_type t AP_SLOTMEM_TYPE_CLEARINUSE.

Definition next_call : SM nat := s ← getS; modS (set_calls (Datatypes.S (calls s))) ;; mret (calls s).

(** ** Reading and writing a segment *)
Definition read_seg (l : loc) (off n : Z) : SM (list Z) :=
  s ← getS;
  match segs s !! l with
  | Some d => if (0 <=? off) && (0 <=? n) && (off + n <=? zlen d) then mret (slice off n d) else throw OutOfBounds
  | None => throw OutOfBounds
  end.

Definition write_seg (l : loc) (off : Z) (bs : list Z) : SM unit :=
  s ← getS;
  match segs s !! l with
  | Some d => if (0 <=? off) && (off + zlen bs <=? zlen d)
              then modS (set_segs (<[l := overwrite d off bs]> (segs s))) else throw OutOfBounds
  | None => throw OutOfBounds
  end.

Definition read_byte (l : loc) (off : Z) : SM Z := bs ← read_seg l off 1; mret (default 0 (head bs)).

Definition read_num_free (r : slotmem_instance) : SM Z :=
  bs ← read_seg (shm r) (num_free r) sizeof_uint; mret (uint_of_bytes bs).
Definition write_num_free (r : slotmem_instance) (n : Z) : SM unit :=
  write_seg (shm r) (num_free r) (uint_bytes (u32 n)).

(** ** Names *)
Definition lower (c : Ascii.ascii) : Ascii.ascii :=
  let n := Ascii.nat_of_ascii c in
  if ((65 <=? n) && (n <=? 90))%nat then Ascii.ascii_of_nat (n + 32) else c.

Fixpoint strcasecmp_eq (a b : string) : bool :=
  match a, b with
  | EmptyString, EmptyString => true
  | String x a', String y b' => Ascii.eqb (lower x) (lower y) && strcasecmp_eq a' b'
  | _, _ => false
  end.

Definition starts_with_slash (s : string) : bool :=
  match s with String c _ => Ascii.eqb c (Ascii.ascii_of_nat 47) | EmptyString => false end.

Definition slotmem_filename (slotmemname : option string) (persist : bool) : option string :=
  match slotmemname with
  | None => None
  | Some n =>
      if strcasecmp_eq n "none" then None
      else
        let fname := if negb (starts_with_slash n)
                     then ap_runtime_dir_relative ("slotmem-shm-" +:+ n +:+ ".shm")%string else n in
        Some (if persist then (fname +:+ ".persist")%string else fname)
  end.

(** ** The slots in use *)
Fixpoint clear_loop (n : nat) (r : slotmem_instance) (p : Z) : SM unit :=
  match n with
  | O => mret tt
  | Datatypes.S n' =>
      b ← read_byte (shm r) p;
      (if negb (b =? 0) then
         write_seg (shm r) p [0] ;;
         f ← read_num_free r;
         write_num_free r (f + 1)
       else mret tt) ;;
      clear_loop n' r (p + 1)
  end.

Definition slotmem_clearinuse (slot : option loc) : SM unit :=
  match slot with
  | None => mret tt
  | Some _ => x ← dinst slot; clear_loop (Z.to_nat (d_num (desc x.2))) x.2 (inuse x.2)
  end.

(** ** Files *)
Definition file_open (fname : string) (create : bool) : SM apr_status_t :=
  n ← next_call;
  s ← getS;
  match open_status n with
  | APR_SUCCESS =>
      match files s !! fname with
      | Some _ => mret APR_SUCCESS
      | None => if create then modS (set_files (<[fname := []]> (files s))) ;; mret APR_SUCCESS
                else mret APR_NOTFOUND
      end
  | e => mret e
  end.

Definition file_remove (fname : string) : SM unit := modS (fun s => set_files (delete fname (files s)) s).

Definition file_write_full (fname : string) (bs : list Z) : SM unit :=
  n ← next_call;
  let k := Z.max 0 (Z.min (write_count n (zlen bs)) (zlen bs)) in
  modS (fun s => set_files (alter (fun old => ztake k bs ++ zdrop k old) fname (files s)) s).

Definition store_slotmem (slotmem : option loc) : SM unit :=
  x ← dinst slotmem;
  match slotmem_filename (Some (name x.2)) true with
  | None => mret tt
  | Some storename =>
      rv ← file_open storename true;
      rv ← (if decide (rv = APR_EEXIST) then file_remove storename ;; file_open storename true else mret rv);
      if decide (rv <> APR_SUCCESS) then mret tt else
      (if AP_SLOTMEM_IS_CLEARINUSE x.2 then slotmem_clearinuse slotmem else mret tt) ;;
      let nbytes := u64 (u64 (d_size (desc x.2) * d_num (desc x.2)) + d_num (desc x.2) + AP_UNSIGNEDINT_OFFSET) in
      bs ← read_seg (shm x.2) (persist x.2) nbytes;
      file_write_full storename bs
  end.

Definition restore_slotmem (l : loc) (ptr : Z) (fname : string) (nbytes : Z) : SM unit :=
  match slotmem_filename (Some fname) true with
  | None => mret tt
  | Some storename =>
      rv ← file_open storename false;
      if decide (rv <> APR_SUCCESS) then mret tt else
      n ← next_call;
      if info_ok n then
        s ← getS;
        let old := default [] (files s !! storename) in
        if zlen old =? nbytes then
          n ← next_call;
          let k := Z.max 0 (Z.min (read_count n nbytes) nbytes) in
          write_seg l ptr (ztake k old)
        else file_remove storename
      else mret tt
  end.

(** ** Segments *)
Definition shm_attach (fname : string) : SM (apr_status_t * loc) :=
  n ← next_call;
  s ← getS;
  match attach_status n, names s !! fname with
  | APR_SUCCESS, Some l => mret (APR_SUCCESS, l)
  | APR_SUCCESS, None => mret (APR_NOTFOUND, O)
  | e, _ => mret (e, O)
  end.

Definition shm_remove (fname : string) : SM unit := modS (fun s => set_names (delete fname (names s)) s).

Definition shm_create (size : Z) (fname : option string) : SM (apr_status_t * loc) :=
  n ← next_call;
  s ← getS;
  match create_status n with
  | APR_SUCCESS =>
      let l := new_loc (segs s) in
      modS (set_segs (<[l := fresh_bytes n size]> (segs s))) ;;
      (match fname with Some f => modS (fun s => set_names (<[f := l]> (names s)) s) | None => mret tt end) ;;
      mret (APR_SUCCESS, l)
  | e => mret (e, O)
  end.

Definition shm_destroy (l : loc) : SM unit := modS (fun s => set_segs (delete l (segs s)) s).

Definition shm_size_get (l : loc) : SM Z :=
  s ← getS; match segs s !! l with Some d => mret (zlen d) | None => throw OutOfBounds end.

Fixpoint cleanup_loop (fuel : nat) (next : option loc) : SM unit :=
  match fuel with
  | O => fun _ => Timeout
  | Datatypes.S f =>
      match next with
      | None => mret tt
      | Some _ =>
          x ← dinst next;
          (if AP_SLOTMEM_IS_PERSIST x.2 then store_slotmem next else mret tt) ;;
          (if fbased x.2 then shm_remove (name x.2) else mret tt) ;;
          shm_destroy (shm x.2) ;;
          cleanup_loop f (inext x.2)
      end
  end.

Definition cleanup_slotmem : SM apr_status_t :=
  s ← getS;
  n ← walk_fuel (V := slotmem_instance);
  cleanup_loop n (globallistmem s) ;;
  modS (set_globallistmem None) ;;
  mret APR_SUCCESS.

(** ** Visiting the slots; the callback gets the segment and the offset *)
Fixpoint doall_loop (n : nat) (func : loc -> Z -> SM apr_status_t) (r : slotmem_instance) (ptr p : Z)
    (retval : apr_status_t) : SM apr_status_t :=
  match n with
  | O => mret retval
  | Datatypes.S n' =>
      visit ← (if AP_SLOTMEM_IS_PREGRAB r then b ← read_byte (shm r) p; mret (negb (b =? 0)) else mret true);
      if (visit : bool) then
        retval ← func (shm r) ptr;
        if decide (retval <> APR_SUCCESS) then mret retval
        else doall_loop n' func r (ptr + d_size (desc r)) (p + 1) retval
      else doall_loop n' func r (ptr + d_size (desc r)) (p + 1) retval
  end.

Definition slotmem_doall (mem : option loc) (func : loc -> Z -> SM apr_status_t) : SM apr_status_t :=
  match mem with
  | None => mret APR_ENOSHMAVAIL
  | Some _ =>
      x ← dinst mem;
      doall_loop (Z.to_nat (d_num (desc x.2))) func x.2 (base x.2) (inuse x.2) APR_SUCCESS
  end.

(** ** Making and finding a slotmem *)
(** The instance of the name, and the last one looked at. *)
Fixpoint find_inst (fuel : nat) (next : option loc) (fname : string) : SM (option loc * option loc) :=
  match fuel with
  | O => fun _ => Timeout
  | Datatypes.S f =>
      x ← dinst next;
      if String.eqb (name x.2) fname then mret (next, next)
      else match inext x.2 with
           | None => mret (None, next)
           | Some _ => find_inst f (inext x.2) fname
           end
  end.

Definition search (next : option loc) (fname : string) : SM (option loc * option loc) :=
  match next with
  | None => mret (None, None)
  | Some _ => n ← walk_fuel (V := slotmem_instance); find_inst n next fname
  end.

(** [next->next = res], or the first of the list. *)
Definition link_inst (r : slotmem_instance) (next : option loc) : SM loc :=
  s ← getS;
  let l := new_loc (insts s) in
  modS (upd (V := slotmem_instance) l r) ;;
  (match globallistmem s with
   | None => modS (set_globallistmem (Some l))
   | Some _ => ainst next (set_inext (Some l))
   end) ;;
  mret l.

(** What both [slotmem_create] and [slotmem_attach] build; [ptr] is behind the
    description. *)
Definition new_inst (fname : string) (fb : bool) (l : loc) (d : sharedslotdesc_t) (ptr basesize : Z) :
    slotmem_instance :=
  let b := ptr + AP_UNSIGNEDINT_OFFSET in
  MkInst fname fb l b (b + basesize) ptr ptr d None.

(** The segment of a new slotmem: its status, the segment, its description and
    whether it was restored. *)
Definition make_segment (fname : string) (fb : bool) (size item_size item_num type : Z) :
    SM (apr_status_t * loc * bool) :=
  let dsize := u64 (size - AP_SLOTMEM_OFFSET) in
  c ← (if fb then shm_remove fname ;; shm_create size (Some fname) else shm_create size None);
  if decide (c.1 <> APR_SUCCESS) then mret (c.1, c.2, false) else
  write_seg c.2 0 (desc_bytes (MkDesc item_size item_num type)) ;;
  write_seg c.2 AP_SLOTMEM_OFFSET (replicate (Z.to_nat dsize) 0) ;;
  if negb (Z.land type AP_SLOTMEM_TYPE_PERSIST =? 0) then
    restore_slotmem c.2 AP_SLOTMEM_OFFSET fname dsize ;; mret (APR_SUCCESS, c.2, true)
  else mret (APR_SUCCESS, c.2, false).

Definition slotmem_create (nm : option string) (item_size item_num type : Z) : SM (apr_status_t * option loc) :=
  let basesize := u64 (item_size * item_num) in
  let size := u64 (AP_SLOTMEM_OFFSET + AP_UNSIGNEDINT_OFFSET + item_num + basesize) in
  s ← getS;
  if negb (gpool s) then mret (APR_ENOSHMAVAIL, None) else
  let '(fname, fb) := match slotmem_filename nm false with Some f => (f, true) | None => ("none"%string, false) end in
  found ← (if (fb : bool) then search (globallistmem s) fname else mret (None, globallistmem s));
  if bool_decide (is_Some found.1) then mret (APR_SUCCESS, found.1) else
  a ← (if fb then shm_attach fname else mret (APR_EINVAL, O));
  made ← (if decide (a.1 = APR_SUCCESS) then
            sz ← shm_size_get a.2;
            if negb (sz =? size) then mret (None, APR_EINVAL) else
            bs ← read_seg a.2 0 sizeof_desc;
            let d := desc_of_bytes bs in
            if negb (d_size d =? item_size) || negb (d_num d =? item_num) then mret (None, APR_EINVAL) else
            mret (Some (a.2, d, false), APR_SUCCESS)
          else
            m ← make_segment fname fb size item_size item_num type;
            let '(rv, l, restored) := m in
            if decide (rv <> APR_SUCCESS) then mret (None, rv) else
            mret (Some (l, MkDesc item_size item_num type, restored), APR_SUCCESS));
  match made with
  | (None, rv) => mret (rv, None)
  | (Some (l, d, restored), _) =>
      let res := new_inst fname fb l d AP_SLOTMEM_OFFSET basesize in
      (if negb restored then write_num_free res item_num else mret tt) ;;
      p ← link_inst res found.2;
      mret (APR_SUCCESS, Some p)
  end.

Definition slotmem_attach (nm : option string) : SM (apr_status_t * option (loc * Z * Z)) :=
  s ← getS;
  if negb (gpool s) then mret (APR_ENOSHMAVAIL, None) else
  match slotmem_filename nm false with
  | None => mret (APR_ENOSHMAVAIL, None)
  | Some fname =>
      found ← search (globallistmem s) fname;
      match found.1 with
      | Some l =>
          x ← dinst (Some l);
          mret (APR_SUCCESS, Some (l, d_size (desc x.2), d_num (desc x.2)))
      | None =>
          a ← shm_attach fname;
          if decide (a.1 <> APR_SUCCESS) then mret (a.1, None) else
          bs ← read_seg a.2 0 sizeof_desc;
          let d := desc_of_bytes bs in
          let res := new_inst fname true a.2 d AP_SLOTMEM_OFFSET (u64 (d_size d * d_num d)) in
          p ← link_inst res found.2;
          mret (APR_SUCCESS, Some (p, d_size d, d_num d))
      end
  end.

(** ** The slots *)
Definition slotmem_dptr (slot : option loc) (id : Z) : SM (apr_status_t * Z) :=
  match slot with
  | None => mret (APR_ENOSHMAVAIL, 0)
  | Some _ =>
      x ← dinst slot;
      if id >=? d_num (desc x.2) then mret (APR_EINVAL, 0) else
      mret (APR_SUCCESS, base x.2 + u64 (d_size (desc x.2) * id))
  end.

(** The part [slotmem_get] and [slotmem_put] share: where the slot is. *)
Definition use_slot (slot : option loc) (id : Z) : SM (apr_status_t * (loc * Z)) :=
  match slot with
  | None => mret (APR_ENOSHMAVAIL, (O, 0))
  | Some _ =>
      x ← dinst slot;
      let p := inuse x.2 + id in
      if id >=? d_num (desc x.2) then mret (APR_EINVAL, (O, 0)) else
      free ← (if AP_SLOTMEM_IS_PREGRAB x.2 then b ← read_byte (shm x.2) p; mret (b =? 0) else mret false);
      if (free : bool) then mret (APR_NOTFOUND, (O, 0)) else
      r ← slotmem_dptr slot id;
      if decide (r.1 <> APR_SUCCESS) then mret (r.1, (O, 0)) else
      write_seg (shm x.2) p [1] ;;
      mret (APR_SUCCESS, (shm x.2, r.2))
  end.

Definition slotmem_get (slot : option loc) (id dest_len : Z) : SM (apr_status_t * list Z) :=
  r ← use_slot slot id;
  if decide (r.1 <> APR_SUCCESS) then mret (r.1, []) else
  bs ← read_seg r.2.1 r.2.2 dest_len;
  mret (APR_SUCCESS, bs).

Definition slotmem_put (slot : option loc) (id : Z) (src : list Z) : SM apr_status_t :=
  r ← use_slot slot id;
  if decide (r.1 <> APR_SUCCESS) then mret r.1 else
  write_seg r.2.1 r.2.2 src ;;
  mret APR_SUCCESS.

Definition slotmem_num_slots (slot : option loc) : SM Z := x ← dinst slot; mret (d_num (desc x.2)).

Fixpoint count_free (n : nat) (r : slotmem_instance) (p counter : Z) : SM Z :=
  match n with
  | O => mret counter
  | Datatypes.S n' => b ← read_byte (shm r) p; count_free n' r (p + 1) (if b =? 0 then u32 (counter + 1) else counter)
  end.

Definition slotmem_num_free_slots (slot : option loc) : SM Z :=
  x ← dinst slot;
  if AP_SLOTMEM_IS_PREGRAB x.2 then read_num_free x.2
  else count_free (Z.to_nat (d_num (desc x.2))) x.2 (inuse x.2) 0.

Definition slotmem_slot_size (slot : option loc) : SM Z := x ← dinst slot; mret (d_size (desc x.2)).

(** The first slot from [i] on that is free, or the number of slots. *)
Fixpoint find_free (n : nat) (r : slotmem_instance) (p i : Z) : SM Z :=
  match n with
  | O => mret i
  | Datatypes.S n' => b ← read_byte (shm r) p; if b =? 0 then mret i else find_free n' r (p + 1) (i + 1)
  end.

Definition slotmem_grab (slot : option loc) : SM (apr_status_t * option Z) :=
  match slot with
  | None => mret (APR_ENOSHMAVAIL, None)
  | Some _ =>
      x ← dinst slot;
      i ← find_free (Z.to_nat (d_num (desc x.2))) x.2 (inuse x.2) 0;
      if i >=? d_num (desc x.2) then
        (if log_debug then slotmem_num_free_slots slot ;; mret tt else mret tt) ;;
        mret (APR_EINVAL, None)
      else
        write_seg (shm x.2) (inuse x.2 + i) [1] ;;
        f ← read_num_free x.2;
        write_num_free x.2 (f - 1) ;;
        mret (APR_SUCCESS, Some i)
  end.

Definition slotmem_fgrab (slot : option loc) (id : Z) : SM apr_status_t :=
  match slot with
  | None => mret APR_ENOSHMAVAIL
  | Some _ =>
      x ← dinst slot;
      if id >=? d_num (desc x.2) then
        (if log_debug then slotmem_num_free_slots slot ;; mret tt else mret tt) ;;
        mret APR_EINVAL
      else
        b ← read_byte (shm x.2) (inuse x.2 + id);
        (if b =? 0 then
           write_seg (shm x.2) (inuse x.2 + id) [1] ;;
           f ← read_num_free x.2;
           write_num_free x.2 (f - 1)
         else mret tt) ;;
        mret APR_SUCCESS
  end.

Definition slotmem_release (slot : option loc) (id : Z) : SM apr_status_t :=
  match slot with
  | None => mret APR_ENOSHMAVAIL
  | Some _ =>
      x ← dinst slot;
      bad ← (if id >=? d_num (desc x.2) then mret true
             else b ← read_byte (shm x.2) (inuse x.2 + id); mret (b =? 0));
      if (bad : bool) then
        (if log_debug then read_byte (shm x.2) (inuse x.2 + id) ;; mret tt else mret tt) ;;
        if id >=? d_num (desc x.2) then mret APR_EINVAL else mret APR_NOTFOUND
      else
        write_seg (shm x.2) (inuse x.2 + id) [0] ;;
        f ← read_num_free x.2;
        write_num_free x.2 (f + 1) ;;
        mret APR_SUCCESS
  end.
End slotmem.
