(* ===== verification/SlotmemProofs.v ===== *)
(** * Apache's slotmem: the slots behind a segment

    [view r d] is the abstract slotmem of an instance [r] whose segment holds
    the bytes [d]: the bytes of each slot, which slots are in use, and the count
    of free ones.  The lemmas run the operations of [Slotmem.v] on it. *)
From S2P Require Import Prelude Heap Slotmem.
From stdpp Require Import strings.
Open Scope Z_scope.

Lemma slice_overwrite_other t off d o n :
  0 <= off -> off + zlen d <= zlen t -> 0 <= o -> 0 <= n -> o + n <= off \/ off + zlen d <= o ->
  slice o n (overwrite t off d) = slice o n t.
Proof.
  intros. apply list_eq. intros i. rewrite !lookup_slice by done. destruct (decide _); [|done].
  rewrite lookup_overwrite by done. by rewrite decide_False by lia.
Qed.

Lemma slice_one t off : 0 <= off < zlen t -> exists b, slice off 1 t = [b] /\ t !! Z.to_nat off = Some b.
Proof.
  intros Ho. destruct (lookup_lt_is_Some_2 t (Z.to_nat off)) as [b Hb]; [unfold zlen in *; lia|].
  exists b. split; [|done]. apply list_eq. intros i. rewrite lookup_slice by lia. destruct i as [|i]; cbn.
  - by rewrite Z.add_0_r, Hb.
  - by rewrite decide_False by lia.
Qed.

(** ** The layout of an instance and its segment *)
Class AprLaws `{Apr} : Prop := {
  sizeof_pos : 0 < sizeof_desc /\ 0 < sizeof_uint;
  align_up n : 0 <= n -> n <= APR_ALIGN_DEFAULT n;
  desc_size d : zlen (desc_bytes d) = sizeof_desc;
  desc_round d : 0 <= d_size d < 2 ^ 64 -> 0 <= d_num d < 2 ^ 32 -> 0 <= d_type d < 2 ^ 32 ->
    desc_of_bytes (desc_bytes d) = d;
  uint_size n : zlen (uint_bytes n) = sizeof_uint;
  uint_round n : 0 <= n < 2 ^ 32 -> uint_of_bytes (uint_bytes n) = n;
  uint_range l : 0 <= uint_of_bytes l < 2 ^ 32;
  uint_zero : uint_of_bytes (replicate (Z.to_nat sizeof_uint) 0) = 0;
  fresh_size n sz : 0 <= sz -> zlen (fresh_bytes n sz) = sz;
  runtime_absolute n : starts_with_slash (ap_runtime_dir_relative n) = true
}.

Record aslots := MkSlots { a_slots : list (list Z); a_used : list bool; a_free : Z }.

Section slots.
Context `{AP : Apr} `{AL : !AprLaws}.
Implicit Types (r : slotmem_instance) (d : list Z) (s : sms).

Definition dsize r : Z := d_size (desc r).
Definition dnum r : Z := d_num (desc r).

Definition segment_size (size num : Z) : Z := AP_SLOTMEM_OFFSET + AP_UNSIGNEDINT_OFFSET + num + size * num.

Record fits r d : Prop := {
  ft_num : 0 <= dnum r < 2 ^ 32;
  ft_size : 0 <= dsize r;
  ft_total : segment_size (dsize r) (dnum r) < 2 ^ 64;
  ft_len : zlen d = segment_size (dsize r) (dnum r);
  ft_free : num_free r = AP_SLOTMEM_OFFSET;
  ft_persist : persist r = AP_SLOTMEM_OFFSET;
  ft_base : base r = AP_SLOTMEM_OFFSET + AP_UNSIGNEDINT_OFFSET;
  ft_inuse : inuse r = AP_SLOTMEM_OFFSET + AP_UNSIGNEDINT_OFFSET + dsize r * dnum r
}.

Lemma offsets : sizeof_desc <= AP_SLOTMEM_OFFSET /\ sizeof_uint <= AP_UNSIGNEDINT_OFFSET.
Proof. destruct sizeof_pos. split; apply align_up; lia. Qed.

Definition slot_of r d (i : Z) : list Z := slice (base r + dsize r * i) (dsize r) d.
Definition used_of r d : list bool := (fun b => negb (b =? 0)) <$> slice (inuse r) (dnum r) d.
Definition free_of r d : Z := uint_of_bytes (slice (num_free r) sizeof_uint d).

Definition view r d : aslots :=
  MkSlots ((fun i => slot_of r d (Z.of_nat i)) <$> seq 0 (Z.to_nat (dnum r))) (used_of r d) (free_of r d).

(** The number of slots not in use. *)
Definition unused (u : list bool) : Z := sumZ ((fun b : bool => if b then 0 else 1) <$> u).
Definition accounted (v : aslots) : Prop := a_free v = unused (a_used v).

Definition set_used (i : nat) (b : bool) (f : Z) (v : aslots) : aslots :=
  MkSlots (a_slots v) (<[i := b]> (a_used v)) f.

Lemma slot_bounds r d i : fits r d -> 0 <= i < dnum r ->
  base r <= base r + dsize r * i /\ base r + dsize r * i + dsize r <= inuse r.
Proof. intros [] Hi. rewrite ft_base0, ft_inuse0. nia. Qed.

Lemma slots_apart r (i j : Z) : 0 <= dsize r -> i <> j ->
  dsize r * i + dsize r <= dsize r * j \/ dsize r * j + dsize r <= dsize r * i.
Proof. intros Hz Hne. destruct (Z.lt_ge_cases i j); [left|right]; clear -Hz Hne H; nia. Qed.

Lemma used_lookup r d i : fits r d -> 0 <= i < dnum r ->
  exists b, d !! Z.to_nat (inuse r + i) = Some b /\ used_of r d !! Z.to_nat i = Some (negb (b =? 0)).
Proof.
  intros F Hi. pose proof (slot_bounds r d i F Hi). pose proof F as []. pose proof offsets. pose proof sizeof_pos.
  unfold segment_size in *.
  destruct (lookup_lt_is_Some_2 d (Z.to_nat (inuse r + i))) as [b Hb]; [unfold zlen in *; lia|].
  exists b. split; [done|]. unfold used_of. rewrite list_lookup_fmap, lookup_slice by lia.
  rewrite decide_True by lia. replace (inuse r + Z.of_nat (Z.to_nat i)) with (inuse r + i) by lia. by rewrite Hb.
Qed.

Lemma length_used r d : fits r d -> Z.of_nat (length (used_of r d)) = dnum r.
Proof.
  intros F. pose proof F as []. pose proof offsets. pose proof sizeof_pos. unfold segment_size in *.
  unfold used_of. rewrite length_fmap. change (zlen (slice (inuse r) (dnum r) d) = dnum r).
  apply zlen_slice; nia.
Qed.

(** ** Writing a byte of the table, the count, and a slot *)
Lemma view_set_used r d i v : fits r d -> 0 <= i < dnum r ->
  view r (overwrite d (inuse r + i) [v]) = set_used (Z.to_nat i) (negb (v =? 0)) (free_of r d) (view r d) /\
  fits r (overwrite d (inuse r + i) [v]).
Proof.
  intros F Hi. pose proof F as []. pose proof offsets. pose proof sizeof_pos. unfold segment_size in *.
  assert (Hb : 0 <= inuse r + i /\ inuse r + i + zlen [v] <= zlen d) by (unfold zlen at 1; cbn; nia).
  destruct Hb as [Hb1 Hb2]. split; [|split; rewrite ?zlen_overwrite by done; done].
  unfold view, set_used. cbn. f_equal.
  - apply list_fmap_ext. intros k x [-> Hk]%lookup_seq. unfold slot_of.
    pose proof (slot_bounds r d (Z.of_nat (0 + k)) F ltac:(lia)). apply slice_overwrite_other; try done; lia.
  - unfold used_of. apply list_eq. intros k. rewrite list_lookup_fmap, lookup_slice by lia.
    destruct (decide (k = Z.to_nat i)) as [->|Hk].
    + pose proof (length_used r d F) as Hlen. rewrite list_lookup_insert_eq by (unfold used_of in Hlen; lia).
      rewrite decide_True by lia. rewrite lookup_overwrite by done.
      rewrite decide_True by (unfold zlen; cbn; lia).
      replace (Z.to_nat _) with 0%nat by lia. done.
    + rewrite list_lookup_insert_ne by done. rewrite list_lookup_fmap, lookup_slice by lia.
      destruct (decide (Z.of_nat k < dnum r)); [|done]. rewrite lookup_overwrite by done.
      rewrite decide_False by (unfold zlen; cbn; lia). done.
  - unfold free_of. f_equal. apply slice_overwrite_other; try done; nia.
Qed.

Lemma view_set_free r d n : fits r d -> 0 <= n < 2 ^ 32 ->
  view r (overwrite d (num_free r) (uint_bytes n)) = MkSlots (a_slots (view r d)) (a_used (view r d)) n /\
  fits r (overwrite d (num_free r) (uint_bytes n)).
Proof.
  intros F Hn. pose proof F as []. pose proof offsets. pose proof sizeof_pos. unfold segment_size in *.
  pose proof (uint_size n) as Hz.
  assert (Hb : 0 <= num_free r /\ num_free r + zlen (uint_bytes n) <= zlen d) by nia.
  destruct Hb as [Hb1 Hb2]. split; [|split; rewrite ?zlen_overwrite by done; done].
  unfold view. cbn. f_equal.
  - apply list_fmap_ext. intros k x [-> Hk]%lookup_seq. unfold slot_of.
    pose proof (slot_bounds r d (Z.of_nat (0 + k)) F ltac:(lia)). apply slice_overwrite_other; try done; lia.
  - unfold used_of. f_equal. apply slice_overwrite_other; try done; nia.
  - unfold free_of. rewrite <- Hz, slice_overwrite by done. by apply uint_round.
Qed.

(** Writing the first bytes of a slot. *)
Lemma view_set_slot r d i bs : fits r d -> 0 <= i < dnum r -> zlen bs <= dsize r ->
  view r (overwrite d (base r + dsize r * i) bs) =
    MkSlots (alter (fun old => bs ++ zdrop (zlen bs) old) (Z.to_nat i) (a_slots (view r d)))
      (a_used (view r d)) (a_free (view r d)) /\
  fits r (overwrite d (base r + dsize r * i) bs).
Proof.
  intros F Hi Hbs. pose proof F as []. pose proof offsets. pose proof sizeof_pos. unfold segment_size in *.
  pose proof (zlen_nonneg bs). pose proof (slot_bounds r d i F Hi) as [Hs1 Hs2].
  assert (Hb : 0 <= base r + dsize r * i /\ base r + dsize r * i + zlen bs <= zlen d) by nia.
  destruct Hb as [Hb1 Hb2]. split; [|split; rewrite ?zlen_overwrite by done; done].
  unfold view. cbn. f_equal.
  - apply list_eq. intros k. rewrite list_lookup_alter, !list_lookup_fmap.
    destruct (decide (k < Z.to_nat (dnum r))%nat) as [Hk|Hk]; cycle 1.
    { rewrite lookup_seq_ge by lia. by rewrite decide_False by lia. }
    rewrite lookup_seq_lt by lia. destruct (decide (Z.to_nat i = k)) as [<-|Hne]; [rewrite lookup_seq_lt by lia|]; cbn; f_equal.
    + rewrite Z2Nat.id by lia. unfold slot_of. apply list_eq. intros j. rewrite lookup_slice by lia.
      destruct (decide (Z.of_nat j < zlen bs)) as [Hj|Hj].
      * rewrite decide_True by lia. rewrite lookup_overwrite by done. rewrite decide_True by lia.
        rewrite lookup_app_l by (unfold zlen in *; lia). f_equal. lia.
      * rewrite lookup_app_r by (unfold zlen in *; lia). rewrite lookup_zdrop, lookup_slice by lia.
        replace (Z.of_nat (Z.to_nat (zlen bs + Z.of_nat (j - length bs)))) with (Z.of_nat j) by (unfold zlen in *; lia).
        destruct (decide _); [|done]. rewrite lookup_overwrite by done. by rewrite decide_False by lia.
    + unfold slot_of. pose proof (slot_bounds r d (Z.of_nat k) F ltac:(lia)) as [Hk1 Hk2].
      apply slice_overwrite_other; try done; [lia|].
      destruct (slots_apart r (Z.of_nat k) i); [done|lia|left|right]; lia.
  - unfold used_of. f_equal. apply slice_overwrite_other; try done; lia.
  - unfold free_of. f_equal. apply slice_overwrite_other; try done; lia.
Qed.

(** ** Counting *)
Lemma unused_bounds u : 0 <= unused u <= Z.of_nat (length u).
Proof.
  unfold unused. induction u as [|b u IH]; [done|]. rewrite fmap_cons, sumZ_cons. cbn [length]. destruct b; lia.
Qed.

Lemma unused_replicate n : unused (replicate n false) = Z.of_nat n.
Proof.
  induction n as [|n IH]; [done|]. unfold unused in *. cbn [replicate]. rewrite fmap_cons, sumZ_cons. lia.
Qed.

Lemma unused_insert (u : list bool) (i : nat) (b c : bool) : u !! i = Some b ->
  unused (<[i := c]> u) = unused u - (if b then 0 else 1) + (if c then 0 else 1).
Proof.
  intros Hi. unfold unused. rewrite list_fmap_insert.
  pose proof (sumZ_insert ((fun b : bool => if b then 0 else 1) <$> u) i (if b then 0 else 1) (if c then 0 else 1)) as E.
  apply E. by rewrite list_lookup_fmap, Hi.
Qed.

Lemma unused_all (u : list bool) : (forall i b, u !! i = Some b -> b = true) -> unused u = 0.
Proof.
  induction u as [|b u IH]; intros Hu; [done|]. unfold unused. rewrite fmap_cons, sumZ_cons, (Hu 0%nat b eq_refl).
  apply IH. intros i c Hi. by apply (Hu (Datatypes.S i)).
Qed.

(** ** Running the operations *)
Definition at_inst s (p : loc) r d : Prop := insts s !! p = Some r /\ segs s !! shm r = Some d /\ fits r d.

Definition with_seg (l : loc) d s : sms := set_segs (<[l := d]> (segs s)) s.

Lemma dinst_ok s p r : insts s !! p = Some r -> deref (V := slotmem_instance) (Some p) s = Ok ((p, r), s).
Proof. intros E. unfold deref. cbn. by rewrite E. Qed.

Lemma at_with_seg s p r d d' : at_inst s p r d -> fits r d' -> at_inst (with_seg (shm r) d' s) p r d'.
Proof. intros (E & _ & _) F. split_and!; [done|by apply lookup_insert_eq|done]. Qed.

Lemma with_seg_twice l d d' s : with_seg l d' (with_seg l d s) = with_seg l d' s.
Proof. unfold with_seg. destruct s. cbn. by rewrite insert_insert_eq. Qed.

Lemma read_seg_ok s l d off n : segs s !! l = Some d -> 0 <= off -> 0 <= n -> off + n <= zlen d ->
  read_seg l off n s = Ok (slice off n d, s).
Proof.
  intros E H1 H2 H3. unfold read_seg. rewrite M_bind_eq. cbn. rewrite E.
  by rewrite (proj2 (Z.leb_le _ _) H1), (proj2 (Z.leb_le _ _) H2), (proj2 (Z.leb_le _ _) H3).
Qed.

Lemma write_seg_ok s l d off bs : segs s !! l = Some d -> 0 <= off -> off + zlen bs <= zlen d ->
  write_seg l off bs s = Ok (tt, with_seg l (overwrite d off bs) s).
Proof.
  intros E H1 H2. unfold write_seg. rewrite M_bind_eq. cbn. rewrite E.
  by rewrite (proj2 (Z.leb_le _ _) H1), (proj2 (Z.leb_le _ _) H2).
Qed.

Lemma read_byte_ok s l d off : segs s !! l = Some d -> 0 <= off < zlen d ->
  exists b, d !! Z.to_nat off = Some b /\ read_byte l off s = Ok (b, s).
Proof.
  intros E Ho. destruct (slice_one d off Ho) as (b & Es & Eb). exists b. split; [done|].
  unfold read_byte. mstep ltac:(apply (read_seg_ok s l d); [done|lia..]). by rewrite Es.
Qed.

Lemma inuse_bounds r d i : fits r d -> 0 <= i < dnum r -> 0 <= inuse r + i < zlen d.
Proof. intros [] Hi. pose proof offsets. pose proof sizeof_pos. unfold segment_size in *. nia. Qed.

Lemma read_used_ok s p r d i : at_inst s p r d -> 0 <= i < dnum r ->
  exists b, used_of r d !! Z.to_nat i = Some (negb (b =? 0)) /\ read_byte (shm r) (inuse r + i) s = Ok (b, s).
Proof.
  intros (_ & E & F) Hi. destruct (used_lookup r d i F Hi) as (b & Hb & Hu).
  destruct (read_byte_ok s _ d (inuse r + i) E (inuse_bounds r d i F Hi)) as (b' & Hb' & R).
  exists b. rewrite Hb in Hb'. injection Hb' as <-. done.
Qed.

Lemma write_used_ok s p r d i v : at_inst s p r d -> 0 <= i < dnum r ->
  exists d', write_seg (shm r) (inuse r + i) [v] s = Ok (tt, with_seg (shm r) d' s) /\
    at_inst (with_seg (shm r) d' s) p r d' /\
    view r d' = set_used (Z.to_nat i) (negb (v =? 0)) (free_of r d) (view r d).
Proof.
  intros A Hi. pose proof A as (_ & E & F). pose proof (inuse_bounds r d i F Hi).
  destruct (view_set_used r d i v F Hi) as [Ev F']. exists (overwrite d (inuse r + i) [v]).
  split_and!; [|by eapply at_with_seg|done]. apply write_seg_ok; [done|lia|unfold zlen in *; cbn; lia].
Qed.

Lemma read_free_ok s p r d : at_inst s p r d -> read_num_free r s = Ok (free_of r d, s).
Proof.
  intros (_ & E & F). pose proof F as []. pose proof offsets. pose proof sizeof_pos. unfold segment_size in *.
  unfold read_num_free. mstep ltac:(apply (read_seg_ok s _ d); [done|lia|lia|nia]). done.
Qed.

Lemma write_free_ok s p r d n : at_inst s p r d ->
  exists d', write_num_free r n s = Ok (tt, with_seg (shm r) d' s) /\ at_inst (with_seg (shm r) d' s) p r d' /\
    view r d' = MkSlots (a_slots (view r d)) (a_used (view r d)) (u32 n).
Proof.
  intros A. pose proof A as (_ & E & F). pose proof F as []. pose proof offsets. pose proof sizeof_pos.
  unfold segment_size in *. assert (Hn : 0 <= u32 n < 2 ^ 32) by (by apply wrapu_bounds).
  destruct (view_set_free r d (u32 n) F Hn) as [Ev F'].
  exists (overwrite d (num_free r) (uint_bytes (u32 n))). split_and!; [|by eapply at_with_seg|done].
  apply write_seg_ok; [done|lia|rewrite uint_size; nia].
Qed.

(** Changing the table and the count together, by itself or before the rest of a
    function. *)
Lemma set_used_run s p r d i v delta : at_inst s p r d -> 0 <= i < dnum r ->
  exists d', (write_seg (shm r) (inuse r + i) [v] ;;
      f ← read_num_free r;
      write_num_free r (f + delta)) s = Ok (tt, with_seg (shm r) d' s) /\
    (forall T (k : M sms cfault T),
      (write_seg (shm r) (inuse r + i) [v] ;;
       f ← read_num_free r;
       write_num_free r (f + delta) ;; k) s = k (with_seg (shm r) d' s)) /\
    at_inst (with_seg (shm r) d' s) p r d' /\
    view r d' = set_used (Z.to_nat i) (negb (v =? 0)) (u32 (free_of r d + delta)) (view r d).
Proof.
  intros A Hi. destruct (write_used_ok s p r d i v A Hi) as (d1 & R1 & A1 & V1).
  assert (Ef : free_of r d1 = free_of r d) by (by apply (f_equal a_free) in V1).
  destruct (write_free_ok _ p r d1 (free_of r d1 + delta) A1) as (d2 & R2 & A2 & V2).
  exists d2. rewrite with_seg_twice in *. split_and!; [|intros T k|done|by rewrite V2, V1, Ef];
    (mstep ltac:(exact R1); mstep ltac:(by eapply read_free_ok)); [exact R2|by mstep ltac:(exact R2)].
Qed.
End slots.
