(* ===== verification/SlotmemOps.v ===== *)
(** * Apache's slotmem: the operations on the slots

    [a_step] is what the calls of a client promise about the abstract slotmem of
    [SlotmemProofs.v]; the lemmas show that every function of [Slotmem.v] that
    works on the slots implements it and leaves everything but the segment as it
    was. *)
From S2P Require Import Prelude Heap Slotmem SlotmemProofs.
From stdpp Require Import strings.
Open Scope Z_scope.

Inductive slot_op :=
  | Grab | Fgrab (id : Z) | Release (id : Z) | Get (id len : Z) | Put (id : Z) (bytes : list Z)
  | Dptr (id : Z) | NumSlots | NumFree | SlotSize | ClearInuse.

Inductive slot_res :=
  | RStatus (rv : apr_status_t)
  | RId (rv : apr_status_t) (id : option Z)
  | RBytes (rv : apr_status_t) (bytes : list Z)
  | RNum (n : Z)
  | RPtr (rv : apr_status_t) (p : Z).

Lemma u32_add x y : u32 (u32 x + y) = u32 (x + y).
Proof. unfold wrapu. by rewrite Zplus_mod_idemp_l. Qed.

Section ops.
Context `{AP : Apr} `{AL : !AprLaws}.
Implicit Types (r : slotmem_instance) (d : list Z) (s : sms) (v : aslots) (u : list bool).

(** ** The specification *)
Definition first_free u : option nat := fst <$> list_find (fun b => b = false) u.

(** What [slotmem_get] and [slotmem_put] answer before they copy. *)
Definition a_use (pregrab : bool) (id : Z) v : apr_status_t :=
  match a_used v !! Z.to_nat id with
  | None => APR_EINVAL
  | Some b => if pregrab && negb b then APR_NOTFOUND else APR_SUCCESS
  end.

Definition a_mark (id : Z) v : aslots := set_used (Z.to_nat id) true (a_free v) v.

Definition a_write (id : Z) (bs : list Z) v : aslots :=
  MkSlots (alter (fun old => bs ++ zdrop (zlen bs) old) (Z.to_nat id) (a_slots v)) (a_used v) (a_free v).

Definition a_step r (op : slot_op) v : slot_res * aslots :=
  let pregrab := AP_SLOTMEM_IS_PREGRAB r in
  match op with
  | Grab =>
      match first_free (a_used v) with
      | None => (RId APR_EINVAL None, v)
      | Some i => (RId APR_SUCCESS (Some (Z.of_nat i)), set_used i true (u32 (a_free v - 1)) v)
      end
  | Fgrab id =>
      match a_used v !! Z.to_nat id with
      | None => (RStatus APR_EINVAL, v)
      | Some true => (RStatus APR_SUCCESS, v)
      | Some false => (RStatus APR_SUCCESS, set_used (Z.to_nat id) true (u32 (a_free v - 1)) v)
      end
  | Release id =>
      match a_used v !! Z.to_nat id with
      | None => (RStatus APR_EINVAL, v)
      | Some false => (RStatus APR_NOTFOUND, v)
      | Some true => (RStatus APR_SUCCESS, set_used (Z.to_nat id) false (u32 (a_free v + 1)) v)
      end
  | Get id len =>
      match a_use pregrab id v with
      | APR_SUCCESS => (RBytes APR_SUCCESS (ztake len (default [] (a_slots v !! Z.to_nat id))), a_mark id v)
      | rv => (RBytes rv [], v)
      end
  | Put id bs =>
      match a_use pregrab id v with
      | APR_SUCCESS => (RStatus APR_SUCCESS, a_write id bs (a_mark id v))
      | rv => (RStatus rv, v)
      end
  | Dptr id =>
      (match a_used v !! Z.to_nat id with None => RPtr APR_EINVAL 0 | Some _ => RPtr APR_SUCCESS (base r + dsize r * id) end, v)
  | NumSlots => (RNum (Z.of_nat (length (a_used v))), v)
  | NumFree => (RNum (if pregrab then a_free v else unused (a_used v)), v)
  | SlotSize => (RNum (dsize r), v)
  | ClearInuse =>
      (RStatus APR_SUCCESS,
       MkSlots (a_slots v) (replicate (length (a_used v)) false)
         (u32 (a_free v + (Z.of_nat (length (a_used v)) - unused (a_used v)))))
  end.

(** [id] and [len] are unsigned, the bytes of a slot are the caller's to respect
    and a release out of range must not be logged. *)
Definition op_ok r (op : slot_op) : Prop :=
  match op with
  | Fgrab id | Dptr id => 0 <= id
  | Release id => 0 <= id /\ (id < dnum r \/ log_debug = false)
  | Get id len => 0 <= id /\ 0 <= len <= dsize r
  | Put id bs => 0 <= id /\ zlen bs <= dsize r
  | _ => True
  end.

(** The call of an operation. *)
Definition slot_run (slot : option loc) (op : slot_op) : M sms cfault slot_res :=
  match op with
  | Grab => x ← slotmem_grab slot; mret (RId x.1 x.2)
  | Fgrab id => x ← slotmem_fgrab slot id; mret (RStatus x)
  | Release id => x ← slotmem_release slot id; mret (RStatus x)
  | Get id len => x ← slotmem_get slot id len; mret (RBytes x.1 x.2)
  | Put id bs => x ← slotmem_put slot id bs; mret (RStatus x)
  | Dptr id => x ← slotmem_dptr slot id; mret (RPtr x.1 x.2)
  | NumSlots => x ← slotmem_num_slots slot; mret (RNum x)
  | NumFree => x ← slotmem_num_free_slots slot; mret (RNum x)
  | SlotSize => x ← slotmem_slot_size slot; mret (RNum x)
  | ClearInuse => slotmem_clearinuse slot ;; mret (RStatus APR_SUCCESS)
  end.

(** ** Scans of the table *)
Lemma used_some r d i : fits r d -> 0 <= i -> i < dnum r <-> is_Some (used_of r d !! Z.to_nat i).
Proof. intros F Hi. rewrite lookup_lt_is_Some. pose proof (length_used r d F). lia. Qed.

Lemma used_none r d i : fits r d -> 0 <= i -> dnum r <= i -> used_of r d !! Z.to_nat i = None.
Proof. intros F Hi Hn. apply lookup_ge_None. pose proof (length_used r d F). lia. Qed.

Lemma find_free_ok s p r d n i : at_inst s p r d -> 0 <= i -> i + Z.of_nat n = dnum r ->
  exists j, find_free n r (inuse r + i) i s = Ok (j, s) /\ i <= j <= dnum r /\
    (forall k, i <= k < j -> used_of r d !! Z.to_nat k = Some true) /\
    (j < dnum r -> used_of r d !! Z.to_nat j = Some false).
Proof.
  intros A. revert i. induction n as [|n IH]; intros i Hi Hn; cbn [find_free].
  { exists i. split_and!; [done|lia..]. }
  destruct (read_used_ok s p r d i A) as (b & Hb & R); [lia|]. mstep ltac:(exact R).
  destruct (b =? 0) eqn:Eb.
  - exists i. split_and!; [done|lia..|done].
  - destruct (IH (i + 1)) as (j & Rj & Hj & Hk & Hf); [lia..|].
    rewrite Z.add_assoc in Rj. exists j. split_and!; [done|lia..| |done].
    intros k Hki. destruct (decide (k = i)) as [->|]; [done|apply Hk; lia].
Qed.

Lemma first_free_spec u (j : nat) :
  (forall k, (k < j)%nat -> u !! k = Some true) -> (u !! j = Some false -> first_free u = Some j) /\
  (u !! j = None -> first_free u = None).
Proof.
  intros Hk. unfold first_free. split; intros Hj.
  - rewrite (proj2 (list_find_Some _ _ j false)); [done|]. split_and!; [done..|].
    intros i b Hi Hlt Hb. rewrite Hk in Hi by done. congruence.
  - destruct (list_find _ u) as [[i b]|] eqn:E; [|done].
    apply list_find_Some in E as (Hi & Hb & _). destruct (decide (i < j)%nat).
    + rewrite Hk in Hi by done. congruence.
    + apply lookup_lt_Some in Hi. apply lookup_ge_None in Hj. lia.
Qed.

Lemma count_free_ok s p r d n i c : at_inst s p r d -> 0 <= i -> i + Z.of_nat n = dnum r ->
  0 <= c -> c + Z.of_nat n < 2 ^ 32 ->
  count_free n r (inuse r + i) c s = Ok (c + unused (drop (Z.to_nat i) (used_of r d)), s).
Proof.
  intros A. revert i c. induction n as [|n IH]; intros i c Hi Hn Hc Hlt; cbn [count_free].
  { pose proof (length_used r d (proj2 (proj2 A))). rewrite drop_ge by lia. by rewrite Z.add_0_r. }
  destruct (read_used_ok s p r d i A) as (b & Hb & R); [lia|]. mstep ltac:(exact R).
  rewrite (drop_S _ _ _ Hb), <- Z.add_assoc. unfold unused. rewrite fmap_cons, sumZ_cons.
  fold (unused (drop (Datatypes.S (Z.to_nat i)) (used_of r d))).
  replace (Datatypes.S (Z.to_nat i)) with (Z.to_nat (i + 1)) by lia.
  destruct (b =? 0); cbn [negb].
  - rewrite wrapu_small by lia. rewrite IH by lia. do 2 f_equal. lia.
  - rewrite IH by lia. do 2 f_equal.
Qed.

(** ** The functions *)
Section at_a_slotmem.
Context (s : sms) (p : loc) (r : slotmem_instance) (d : list Z) (A : at_inst s p r d).

(** A call implements the specification if it answers what the specification
    says and leaves a segment that represents what it says. *)
Definition runs_as {T} (m : M sms cfault T) (x : T) (v : aslots) : Prop :=
  exists d', m s = Ok (x, with_seg (shm r) d' s) /\ at_inst (with_seg (shm r) d' s) p r d' /\ view r d' = v.

Lemma same_seg : with_seg (shm r) d s = s.
Proof. destruct A as (_ & E & _). unfold with_seg. rewrite insert_id by done. by destruct s. Qed.

Lemma runs_same {T} (m : M sms cfault T) x : m s = Ok (x, s) -> runs_as m x (view r d).
Proof. intros R. exists d. by rewrite same_seg. Qed.

Lemma runs_wrap {T T'} (m : M sms cfault T) (g : T -> T') x v :
  runs_as m x v -> runs_as (y ← m; mret (g y)) (g x) v.
Proof. intros (d' & R & R'). exists d'. split; [|done]. by mstep ltac:(exact R). Qed.

Lemma read_dinst : deref (V := slotmem_instance) (Some p) s = Ok ((p, r), s).
Proof. by apply dinst_ok, A. Qed.

Lemma num_free_slots_run :
  slotmem_num_free_slots (Some p) s = Ok (if AP_SLOTMEM_IS_PREGRAB r then free_of r d else unused (used_of r d), s).
Proof.
  unfold slotmem_num_free_slots. mstep ltac:(exact read_dinst). pose proof A as (_ & _ & []). unfold dnum in *.
  destruct (AP_SLOTMEM_IS_PREGRAB r); [by eapply read_free_ok|].
  pose proof (count_free_ok s p r d (Z.to_nat (dnum r)) 0 0 A) as R. rewrite Z.add_0_r, drop_0 in R.
  unfold dnum in R. rewrite R by lia. done.
Qed.

Lemma logged_run (m : M sms cfault Z) x : m s = Ok (x, s) ->
  (if log_debug then m ;; mret tt else mret tt) s = Ok (tt, s).
Proof. intros R. destruct log_debug; [|done]. by mstep ltac:(exact R). Qed.

Lemma grab_run : exists x v, a_step r Grab (view r d) = (x, v) /\
  runs_as (y ← slotmem_grab (Some p); mret (RId y.1 y.2)) x v.
Proof.
  pose proof A as (_ & _ & F). pose proof F as [].
  destruct (find_free_ok s p r d (Z.to_nat (dnum r)) 0 A) as (j & R & Hj & Hk & Hf); [lia..|].
  rewrite Z.add_0_r in R. unfold dnum in R at 1.
  destruct (first_free_spec (used_of r d) (Z.to_nat j)) as [Hs Hn].
  { intros k Hlt. rewrite <- (Nat2Z.id k). apply Hk. lia. }
  cbn [a_step a_used view]. destruct (Z.geb_spec j (dnum r)) as [Hge|Hlt].
  - rewrite Hn by (apply used_none; [done|lia..]). eexists _, _. split; [done|].
    apply (runs_wrap _ (fun y => RId y.1 y.2) (APR_EINVAL, None)). apply runs_same.
    unfold slotmem_grab. mstep ltac:(exact read_dinst). mstep ltac:(exact R).
    fold (dnum r). rewrite (proj2 (Z.geb_le _ _)) by lia.
    by mstep ltac:(eapply logged_run; exact num_free_slots_run).
  - rewrite Hs by (apply Hf; lia). eexists _, _. split; [done|].
    apply (runs_wrap _ (fun y => RId y.1 y.2) (APR_SUCCESS, Some (Z.of_nat (Z.to_nat j)))).
    destruct (set_used_run s p r d j 1 (-1) A) as (d' & _ & R' & A' & V'); [lia|].
    exists d'. split_and!; [|done|exact V'].
    unfold slotmem_grab. mstep ltac:(exact read_dinst). mstep ltac:(exact R).
    fold (dnum r). destruct (Z.geb_spec j (dnum r)); [lia|]. rewrite Z2Nat.id by lia. exact (R' _ _).
Qed.

Lemma fgrab_run id : 0 <= id -> exists x v, a_step r (Fgrab id) (view r d) = (x, v) /\
  runs_as (y ← slotmem_fgrab (Some p) id; mret (RStatus y)) x v.
Proof.
  intros Hid. pose proof A as (_ & _ & F). cbn [a_step a_used view].
  destruct (Z.geb_spec id (dnum r)) as [Hge|Hlt].
  - rewrite used_none by (done || lia). eexists _, _. split; [done|]. apply runs_wrap, runs_same.
    unfold slotmem_fgrab. mstep ltac:(exact read_dinst). fold (dnum r). rewrite (proj2 (Z.geb_le _ _)) by lia.
    by mstep ltac:(eapply logged_run; exact num_free_slots_run).
  - destruct (read_used_ok s p r d id A) as (b & -> & R); [lia|].
    destruct (set_used_run s p r d id 1 (-1) A) as (d' & R' & _ & A' & V'); [lia|].
    destruct (b =? 0) eqn:Eb; cbn [negb]; eexists _, _; (split; [done|]); apply runs_wrap.
    + exists d'. split_and!; [|done|exact V'].
      unfold slotmem_fgrab. mstep ltac:(exact read_dinst). fold (dnum r).
      destruct (Z.geb_spec id (dnum r)); [lia|]. mstep ltac:(exact R). rewrite Eb.
      by mstep ltac:(exact R').
    + apply runs_same. unfold slotmem_fgrab. mstep ltac:(exact read_dinst). fold (dnum r).
      destruct (Z.geb_spec id (dnum r)); [lia|]. mstep ltac:(exact R). by rewrite Eb.
Qed.

Lemma release_run id : 0 <= id -> id < dnum r \/ log_debug = false ->
  exists x v, a_step r (Release id) (view r d) = (x, v) /\
  runs_as (y ← slotmem_release (Some p) id; mret (RStatus y)) x v.
Proof.
  intros Hid Hlog. pose proof A as (_ & _ & F). cbn [a_step a_used view].
  destruct (Z.geb_spec id (dnum r)) as [Hge|Hlt].
  - rewrite used_none by (done || lia). eexists _, _. split; [done|]. apply runs_wrap, runs_same.
    unfold slotmem_release. mstep ltac:(exact read_dinst). fold (dnum r). rewrite (proj2 (Z.geb_le _ _)) by lia.
    destruct Hlog as [Hlog| ->]; [lia|]. done.
  - destruct (read_used_ok s p r d id A) as (b & -> & R); [lia|].
    destruct (set_used_run s p r d id 0 1 A) as (d' & _ & R' & A' & V'); [lia|].
    destruct (b =? 0) eqn:Eb; cbn [negb]; eexists _, _; (split; [done|]); apply runs_wrap.
    + apply runs_same. unfold slotmem_release. mstep ltac:(exact read_dinst). fold (dnum r).
      destruct (Z.geb_spec id (dnum r)); [lia|]. mstep ltac:(mstep ltac:(exact R); reflexivity). rewrite Eb.
      mstep ltac:(eapply logged_run; exact R). done.
    + exists d'. split_and!; [|done|exact V'].
      unfold slotmem_release. mstep ltac:(exact read_dinst). fold (dnum r).
      destruct (Z.geb_spec id (dnum r)); [lia|]. mstep ltac:(mstep ltac:(exact R); reflexivity). rewrite Eb.
      exact (R' _ _).
Qed.

(** ** Copying a slot *)
Lemma dptr_run id : 0 <= id < dnum r -> slotmem_dptr (Some p) id s = Ok ((APR_SUCCESS, base r + dsize r * id), s).
Proof.
  intros Hid. unfold slotmem_dptr. mstep ltac:(exact read_dinst). fold (dnum r) (dsize r).
  destruct (Z.geb_spec id (dnum r)); [lia|]. pose proof A as (_ & _ & F).
  pose proof (slot_bounds r d id F Hid). pose proof F as []. pose proof offsets. pose proof sizeof_pos.
  unfold segment_size, u64 in *. rewrite wrapu_small by lia. done.
Qed.

Lemma dptr_step id : 0 <= id -> exists x v, a_step r (Dptr id) (view r d) = (x, v) /\
  runs_as (y ← slotmem_dptr (Some p) id; mret (RPtr y.1 y.2)) x v.
Proof.
  intros Hid. pose proof A as (_ & _ & F). cbn [a_step a_used view]. eexists _, _. split; [done|].
  destruct (Z.geb_spec id (dnum r)) as [Hge|Hlt].
  - rewrite used_none by (done || lia). apply (runs_wrap _ (fun y => RPtr y.1 y.2) (APR_EINVAL, 0)), runs_same.
    unfold slotmem_dptr. mstep ltac:(exact read_dinst). fold (dnum r). by rewrite (proj2 (Z.geb_le _ _)) by lia.
  - destruct (proj1 (used_some r d id F Hid) Hlt) as [b ->].
    apply (runs_wrap _ (fun y => RPtr y.1 y.2) (APR_SUCCESS, base r + dsize r * id)), runs_same. by apply dptr_run.
Qed.

Lemma use_slot_run id : 0 <= id ->
  match a_use (AP_SLOTMEM_IS_PREGRAB r) id (view r d) with
  | APR_SUCCESS => id < dnum r /\ runs_as (use_slot (Some p) id) (APR_SUCCESS, (shm r, base r + dsize r * id)) (a_mark id (view r d))
  | rv => use_slot (Some p) id s = Ok ((rv, (O, 0)), s)
  end.
Proof.
  intros Hid. pose proof A as (_ & _ & F). unfold a_use. cbn [a_used view].
  destruct (Z.geb_spec id (dnum r)) as [Hge|Hlt].
  - rewrite used_none by (done || lia). unfold use_slot. mstep ltac:(exact read_dinst).
    fold (dnum r). by rewrite (proj2 (Z.geb_le _ _)) by lia.
  - destruct (read_used_ok s p r d id A) as (b & -> & R); [lia|].
    assert (R1 : (if AP_SLOTMEM_IS_PREGRAB r then b ← read_byte (shm r) (inuse r + id); mret (b =? 0) else mret false) s
        = Ok (AP_SLOTMEM_IS_PREGRAB r && (b =? 0), s)).
    { destruct (AP_SLOTMEM_IS_PREGRAB r); [|done]. by mstep ltac:(exact R). }
    rewrite negb_involutive. destruct (AP_SLOTMEM_IS_PREGRAB r && (b =? 0)) eqn:Eb.
    + unfold use_slot. mstep ltac:(exact read_dinst). fold (dnum r).
      destruct (Z.geb_spec id (dnum r)); [lia|]. by mstep ltac:(exact R1).
    + split; [done|]. destruct (write_used_ok s p r d id 1 A) as (d' & R' & A' & V'); [lia|].
      exists d'. split_and!; [|done|exact V'].
      unfold use_slot. mstep ltac:(exact read_dinst). fold (dnum r).
      destruct (Z.geb_spec id (dnum r)); [lia|]. mstep ltac:(exact R1).
      mstep ltac:(apply dptr_run; lia). rewrite decide_False by (intros Hn; by apply Hn). by mstep ltac:(exact R').
Qed.

Lemma lookup_slots d' id : fits r d' -> 0 <= id < dnum r ->
  a_slots (view r d') !! Z.to_nat id = Some (slot_of r d' id).
Proof.
  intros F Hid. cbn. rewrite list_lookup_fmap, lookup_seq_lt by lia. cbn. do 2 f_equal. lia.
Qed.
Lemma get_run id len : 0 <= id -> 0 <= len <= dsize r ->
  exists x v, a_step r (Get id len) (view r d) = (x, v) /\
  runs_as (y ← slotmem_get (Some p) id len; mret (RBytes y.1 y.2)) x v.
Proof.
  intros Hid Hlen. pose proof (use_slot_run id Hid) as U. cbn [a_step].
  destruct (a_use _ id (view r d)) eqn:E; cycle 1.
  all: try (eexists _, _; split; [done|]; apply runs_same; mstep ltac:(unfold slotmem_get; mstep ltac:(exact U); reflexivity); reflexivity).
  destruct U as (Hlt & d' & R' & A' & V'). eexists _, _. split; [done|]. exists d'. split_and!; [|done|done].
  assert (Es : slot_of r d' id = slot_of r d id).
  { pose proof (lookup_slots d' id (proj2 (proj2 A')) (conj Hid Hlt)) as E1. rewrite V' in E1.
    pose proof (lookup_slots d id (proj2 (proj2 A)) (conj Hid Hlt)) as E2. cbn [a_mark set_used a_slots] in E1. congruence. }
  rewrite (lookup_slots d id (proj2 (proj2 A)) (conj Hid Hlt)). cbn [default].
  pose proof A' as (_ & E' & F'). pose proof (slot_bounds r d' id F' (conj Hid Hlt)). pose proof F' as [].
  pose proof offsets. pose proof sizeof_pos. unfold segment_size in *.
  mstep ltac:(unfold slotmem_get; mstep ltac:(exact R'); rewrite decide_False by (intros Hn; by apply Hn);
    mstep ltac:(apply (read_seg_ok _ _ d'); [exact E'|lia..]); reflexivity).
  assert (Ez : slice (base r + dsize r * id) len d' = ztake len (slot_of r d id)).
  { rewrite <- Es. unfold slot_of, slice, ztake. rewrite take_take. f_equal. lia. }
  rewrite Ez. done.
Qed.

Lemma put_run id bs : 0 <= id -> zlen bs <= dsize r ->
  exists x v, a_step r (Put id bs) (view r d) = (x, v) /\
  runs_as (y ← slotmem_put (Some p) id bs; mret (RStatus y)) x v.
Proof.
  intros Hid Hlen. pose proof (use_slot_run id Hid) as U. cbn [a_step].
  destruct (a_use _ id (view r d)) eqn:E; cycle 1.
  all: try (eexists _, _; split; [done|]; apply runs_same; mstep ltac:(unfold slotmem_put; mstep ltac:(exact U); reflexivity); reflexivity).
  destruct U as (Hlt & d' & R' & A' & V'). eexists _, _. split; [done|]. apply runs_wrap.
  pose proof A' as (_ & E' & F').
  destruct (view_set_slot r d' id bs F' (conj Hid Hlt) Hlen) as [V2 F2].
  exists (overwrite d' (base r + dsize r * id) bs).
  pose proof (at_with_seg _ p r d' _ A' F2) as A2. rewrite with_seg_twice in A2.
  split_and!; [|done|by rewrite V2, V'].
  pose proof (slot_bounds r d' id F' (conj Hid Hlt)). pose proof F' as [].
  pose proof offsets. pose proof sizeof_pos. unfold segment_size in *.
  unfold slotmem_put. mstep ltac:(exact R'). rewrite decide_False by (intros Hn; by apply Hn).
  mstep ltac:(apply (write_seg_ok _ _ d'); [exact E'|lia..]). by rewrite with_seg_twice.
Qed.
End at_a_slotmem.

(** ** Clearing the table *)
Lemma clear_loop_ok s p r d n i : at_inst s p r d -> 0 <= i -> i + Z.of_nat n = dnum r ->
  exists d', clear_loop n r (inuse r + i) s = Ok (tt, with_seg (shm r) d' s) /\
    at_inst (with_seg (shm r) d' s) p r d' /\
    view r d' = MkSlots (a_slots (view r d)) (take (Z.to_nat i) (used_of r d) ++ replicate n false)
      (u32 (free_of r d + (Z.of_nat n - unused (drop (Z.to_nat i) (used_of r d))))).
Proof.
  revert s d i. induction n as [|n IH]; intros s d i A Hi Hn; cbn [clear_loop].
  { pose proof A as (_ & _ & F). pose proof (length_used r d F). exists d. rewrite (same_seg s p r d A).
    split_and!; [done|done|]. rewrite take_ge, drop_ge, app_nil_r by lia. unfold view. f_equal.
    change (unused []) with 0. rewrite Z.sub_0_r, Z.add_0_r. by rewrite wrapu_small by apply uint_range. }
  destruct (read_used_ok s p r d i A) as (b & Hb & R); [lia|]. mstep ltac:(exact R).
  rewrite (drop_S _ _ _ Hb). unfold unused. rewrite fmap_cons, sumZ_cons.
  fold (unused (drop (Datatypes.S (Z.to_nat i)) (used_of r d))).
  assert (Hlt : (Z.to_nat i < length (used_of r d))%nat) by by eapply lookup_lt_Some.
  destruct (b =? 0) eqn:Eb; cbn [negb] in *.
  - destruct (IH s d (i + 1) A) as (d' & R' & A' & V'); [lia..|].
    exists d'. split_and!; [|done|].
    { mstep ltac:(reflexivity). by rewrite <- Z.add_assoc. }
    rewrite V'. replace (Z.to_nat (i + 1)) with (Datatypes.S (Z.to_nat i)) by lia. f_equal.
    + rewrite (take_S_r _ _ _ Hb), <- app_assoc. done.
    + f_equal. lia.
  - destruct (set_used_run s p r d i 0 1 A) as (d1 & R1 & _ & A1 & V1); [lia|].
    destruct (IH _ d1 (i + 1) A1) as (d' & R' & A' & V'); [lia..|].
    rewrite with_seg_twice in *. exists d'. split_and!; [|done|].
    { mstep ltac:(exact R1). by rewrite <- Z.add_assoc. }
    rewrite V'. apply (f_equal a_slots) in V1 as Es. apply (f_equal a_used) in V1 as Eu.
    apply (f_equal a_free) in V1 as Ef. cbn [set_used a_slots a_used a_free view] in Es, Eu, Ef.
    rewrite Ef, Eu, u32_add. cbn [view a_slots]. rewrite Es.
    replace (Z.to_nat (i + 1)) with (Datatypes.S (Z.to_nat i)) by lia. f_equal.
    + rewrite (take_S_r _ _ false) by (by rewrite list_lookup_insert_eq).
      rewrite take_insert_ge, <- app_assoc by lia. done.
    + rewrite drop_insert_lt by lia. f_equal. lia.
Qed.

Lemma clearinuse_run s p r d : at_inst s p r d ->
  exists x v, a_step r ClearInuse (view r d) = (x, v) /\
  runs_as s p r (slotmem_clearinuse (Some p) ;; mret (RStatus APR_SUCCESS)) x v.
Proof.
  intros A. pose proof A as (_ & _ & F). pose proof (length_used r d F). pose proof F as [].
  destruct (clear_loop_ok s p r d (Z.to_nat (dnum r)) 0 A) as (d' & R & A' & V); [lia..|].
  rewrite Z.add_0_r, drop_0, take_0, app_nil_l in *. eexists _, _. split; [done|]. exists d'. split_and!; [|done|].
  - mstep ltac:(unfold slotmem_clearinuse; mstep ltac:(by eapply read_dinst); exact R). done.
  - rewrite V. cbn [view a_used a_slots a_free]. rewrite <- H, Nat2Z.id. done.
Qed.

(** ** Every operation implements the specification *)
Lemma op_run s p r d op : at_inst s p r d -> op_ok r op ->
  exists x v, a_step r op (view r d) = (x, v) /\ runs_as s p r (slot_run (Some p) op) x v.
Proof.
  intros A Hok. pose proof A as (_ & _ & F). destruct op; cbn [op_ok] in Hok.
  - by eapply grab_run.
  - by eapply fgrab_run.
  - destruct Hok. by eapply release_run.
  - destruct Hok. by eapply get_run.
  - destruct Hok. by eapply put_run.
  - by eapply dptr_step.
  - eexists _, _. split; [done|]. cbn [a_used view]. rewrite (length_used r d F).
    apply runs_wrap. eapply runs_same; [done|]. unfold slotmem_num_slots. by mstep ltac:(by eapply read_dinst).
  - eexists _, _. split; [done|]. apply runs_wrap. eapply runs_same; [done|]. by apply num_free_slots_run.
  - eexists _, _. split; [done|]. apply runs_wrap. eapply runs_same; [done|].
    unfold slotmem_slot_size. by mstep ltac:(by eapply read_dinst).
  - by eapply clearinuse_run.
Qed.

(** ** Visiting the slots *)
(** The reference: run the commands until one does not succeed. *)
Fixpoint run_all (cs : list (M sms cfault apr_status_t)) : M sms cfault apr_status_t :=
  match cs with
  | [] => mret APR_SUCCESS
  | c :: cs' => rv ← c; if decide (rv <> APR_SUCCESS) then mret rv else run_all cs'
  end.

(** The slots a [doall] visits, from the lowest on. *)
Definition visited r u (i n : nat) : list nat :=
  filter (fun k => AP_SLOTMEM_IS_PREGRAB r = true -> u !! k = Some true) (seq i n).

(** A callback may do anything but change the table and the description. *)
Definition keeps_table (p : loc) r (func : loc -> Z -> M sms cfault apr_status_t) : Prop :=
  forall s d i rv s', at_inst s p r d -> 0 <= i < dnum r -> func (shm r) (base r + dsize r * i) s = Ok (rv, s') ->
    exists d', at_inst s' p r d' /\ used_of r d' = used_of r d.

Lemma doall_loop_ok s p r d func n i : at_inst s p r d -> keeps_table p r func -> (i + n)%nat = Z.to_nat (dnum r) ->
  doall_loop n func r (base r + dsize r * Z.of_nat i) (inuse r + Z.of_nat i) APR_SUCCESS s =
  run_all ((fun k => func (shm r) (base r + dsize r * Z.of_nat k)) <$> visited r (used_of r d) i n) s.
Proof.
  intros A Hk. revert s d i A. induction n as [|n IH]; intros s d i A Hn; [done|].
  cbn [doall_loop]. unfold visited. cbn [seq]. rewrite filter_cons.
  destruct (read_used_ok s p r d (Z.of_nat i) A) as (b & Hb & R); [lia|]. rewrite Nat2Z.id in Hb.
  assert (R1 : (if AP_SLOTMEM_IS_PREGRAB r then b ← read_byte (shm r) (inuse r + Z.of_nat i); mret (negb (b =? 0)) else mret true) s
      = Ok (negb (AP_SLOTMEM_IS_PREGRAB r) || negb (b =? 0), s)).
  { destruct (AP_SLOTMEM_IS_PREGRAB r); [|done]. by mstep ltac:(exact R). }
  mstep ltac:(exact R1). clear R1.
  replace (base r + dsize r * Z.of_nat i + d_size (desc r)) with (base r + dsize r * Z.of_nat (Datatypes.S i)) by (unfold dsize; lia).
  replace (inuse r + Z.of_nat i + 1) with (inuse r + Z.of_nat (Datatypes.S i)) by lia.
  destruct (negb (AP_SLOTMEM_IS_PREGRAB r) || negb (b =? 0)) eqn:Ev.
  - rewrite decide_True; cycle 1.
    { intros Ep. rewrite Ep in Ev. cbn in Ev. by rewrite Hb, Ev. }
    cbn [fmap list_fmap run_all]. rewrite !M_bind_eq.
    destruct (func (shm r) (base r + dsize r * Z.of_nat i) s) as [[rv s']| |] eqn:Ef; [|done|done].
    destruct (decide (rv <> APR_SUCCESS)) as [|Hrv]; [done|].
    assert (rv = APR_SUCCESS) as -> by (by destruct (decide (rv = APR_SUCCESS))).
    destruct (Hk s d (Z.of_nat i) _ s' A ltac:(lia) Ef) as (d' & A' & <-). apply IH; [done|lia].
  - rewrite decide_False; cycle 1.
    { apply orb_false_iff in Ev as [Ep%negb_false_iff Eb]. intros Hx. rewrite Hx in Hb by done. congruence. }
    apply IH; [done|lia].
Qed.
End ops.
