(* ===== verification/SlotmemLife.v ===== *)
(** * Apache's slotmem: making, finding, storing and restoring slotmems

    [seg_tail d] is the part of a segment behind the description, which a slotmem
    with the flag [PERSIST] keeps in a file.  [proc s l] says that the process's
    list of slotmems is [l]; the lemmas run [slotmem_create], [slotmem_attach]
    and [cleanup_slotmem] on it. *)
From S2P Require Import Prelude Heap Slotmem SlotmemProofs SlotmemOps.
From stdpp Require Import strings.
Open Scope Z_scope.

Lemma slice_zdrop (a off n : Z) (d : list Z) : 0 <= a <= off -> slice off n d = slice (off - a) n (zdrop a d).
Proof. intros. unfold slice. rewrite zdrop_zdrop by lia. do 2 f_equal. lia. Qed.

Lemma zdrop_slice a (d : list Z) : 0 <= a <= zlen d -> slice a (zlen d - a) d = zdrop a d.
Proof. intros. unfold slice. apply ztake_all. rewrite zlen_zdrop by lia. lia. Qed.

Lemma zdrop_overwrite_before a off (d bs : list Z) :
  0 <= off -> off + zlen bs <= zlen d -> off + zlen bs <= a -> zdrop a (overwrite d off bs) = zdrop a d.
Proof.
  intros. pose proof (zlen_nonneg bs). apply list_eq. intros i. rewrite !lookup_zdrop by lia.
  rewrite lookup_overwrite by done. by rewrite decide_False by lia.
Qed.

Lemma zdrop_overwrite_all off (d bs : list Z) :
  0 <= off -> off + zlen bs = zlen d -> zdrop off (overwrite d off bs) = bs.
Proof.
  intros. pose proof (zlen_nonneg bs). rewrite <- (zdrop_slice off) by (rewrite zlen_overwrite; lia).
  rewrite zlen_overwrite by lia. replace (zlen d - off) with (zlen bs) by lia. apply slice_overwrite; lia.
Qed.

(** No system call fails and all bytes are transferred. *)
Record undisturbed `{Apr} : Prop := {
  opens n : open_status n = APR_SUCCESS;
  creates n : create_status n = APR_SUCCESS;
  informs n : info_ok n = true;
  reads n k : read_count n k = k;
  writes n k : write_count n k = k
}.

Section life.
Context `{AP : Apr} `{AL : !AprLaws}.
Implicit Types (r : slotmem_instance) (d : list Z) (s : sms) (v : aslots) (l : list (loc * slotmem_instance)).

Definition seg_tail d : list Z := zdrop AP_SLOTMEM_OFFSET d.

Lemma view_tail r r' d d' : fits r d -> fits r' d' -> dsize r = dsize r' -> dnum r = dnum r' ->
  seg_tail d = seg_tail d' -> view r d = view r' d'.
Proof.
  intros F F' Hz Hn Ht.
  assert (Eb : base r' = base r) by (by rewrite (ft_base r d F), (ft_base r' d' F')).
  assert (Ei : inuse r' = inuse r) by (by rewrite (ft_inuse r d F), (ft_inuse r' d' F'), Hz, Hn).
  assert (Ef : num_free r' = num_free r) by (by rewrite (ft_free r d F), (ft_free r' d' F')).
  pose proof F as []. pose proof offsets. pose proof sizeof_pos.
  assert (Hs : forall off n, AP_SLOTMEM_OFFSET <= off -> slice off n d = slice off n d').
  { intros off n Ho. rewrite !(slice_zdrop AP_SLOTMEM_OFFSET off) by lia. unfold seg_tail in Ht. by rewrite Ht. }
  unfold view. rewrite <- Hn. f_equal.
  - apply list_fmap_ext. intros k x [-> Hk]%lookup_seq. unfold slot_of. rewrite <- Hz, Eb. apply Hs.
    pose proof (slot_bounds r d (Z.of_nat (0 + k)) F). lia.
  - unfold used_of. rewrite <- Hn, Ei. f_equal. apply Hs. nia.
  - unfold free_of. rewrite Ef. f_equal. apply Hs. lia.
Qed.

(** The state of a new slotmem. *)
Definition empty_slots (size num : Z) : aslots :=
  MkSlots (replicate (Z.to_nat num) (replicate (Z.to_nat size) 0)) (replicate (Z.to_nat num) false) 0.

Lemma slice_zeros off n m : 0 <= off -> 0 <= n -> off + n <= Z.of_nat m ->
  slice off n (replicate m 0) = replicate (Z.to_nat n) 0.
Proof.
  intros. unfold slice, zdrop, ztake. rewrite drop_replicate, take_replicate. f_equal. lia.
Qed.

Lemma view_zeros r d : fits r d -> seg_tail d = replicate (length (seg_tail d)) 0 ->
  view r d = empty_slots (dsize r) (dnum r).
Proof.
  intros F Ht. pose proof F as []. pose proof offsets. pose proof sizeof_pos.
  assert (Hl : Z.of_nat (length (seg_tail d)) = zlen d - AP_SLOTMEM_OFFSET).
  { unfold segment_size in *. apply (zlen_zdrop AP_SLOTMEM_OFFSET d). nia. }
  assert (Hs : forall off n, AP_SLOTMEM_OFFSET <= off -> 0 <= n -> off + n <= zlen d ->
      slice off n d = replicate (Z.to_nat n) 0).
  { intros off n Ho Hn Hle. rewrite (slice_zdrop AP_SLOTMEM_OFFSET off) by lia. fold (seg_tail d). rewrite Ht.
    apply slice_zeros; lia. }
  unfold segment_size in *. unfold view, empty_slots. f_equal.
  - apply list_eq. intros k. rewrite list_lookup_fmap. destruct (decide (k < Z.to_nat (dnum r))%nat) as [Hk|].
    + rewrite lookup_seq_lt, lookup_replicate_2 by lia. cbn. f_equal. unfold slot_of.
      pose proof (slot_bounds r d (Z.of_nat k) F ltac:(lia)). apply Hs; lia.
    + rewrite lookup_seq_ge by lia. symmetry. apply lookup_replicate_None. lia.
  - unfold used_of. rewrite Hs by nia. by rewrite fmap_replicate.
  - unfold free_of. rewrite Hs by nia. apply uint_zero.
Qed.

(** ** Files *)
Definition same_process s s' : Prop :=
  insts s' = insts s /\ globallistmem s' = globallistmem s /\ gpool s' = gpool s.

Definition stored_view r v : aslots :=
  if AP_SLOTMEM_IS_CLEARINUSE r then (a_step r ClearInuse v).2 else v.

Lemma slotmem_call_ok s : next_call s = Ok (calls s, set_calls (Datatypes.S (calls s)) s).
Proof. done. Qed.

Lemma file_open_create s f : undisturbed ->
  file_open f true s = Ok (APR_SUCCESS, set_files (<[f := default [] (files s !! f)]> (files s)) (set_calls (Datatypes.S (calls s)) s)).
Proof.
  intros U. unfold file_open. mstep ltac:(apply slotmem_call_ok). rewrite M_bind_eq. cbn -[open_status].
  rewrite (opens U). destruct (files s !! f) eqn:E; cbn; [|done].
  rewrite insert_id by done. by destruct s.
Qed.

Lemma file_open_read s f : undisturbed ->
  file_open f false s =
    Ok (match files s !! f with Some _ => APR_SUCCESS | None => APR_NOTFOUND end, set_calls (Datatypes.S (calls s)) s).
Proof.
  intros U. unfold file_open. mstep ltac:(apply slotmem_call_ok). rewrite M_bind_eq. cbn -[open_status].
  rewrite (opens U). by destruct (files s !! f).
Qed.

Lemma file_write_ok s f bs : undisturbed ->
  file_write_full f bs s =
    Ok (tt, set_files (alter (fun old => bs ++ zdrop (zlen bs) old) f (files s)) (set_calls (Datatypes.S (calls s)) s)).
Proof.
  intros U. unfold file_write_full. mstep ltac:(apply slotmem_call_ok). rewrite (writes U). pose proof (zlen_nonneg bs).
  rewrite Z.min_id, Z.max_r by lia. rewrite (ztake_all _ bs) by lia. done.
Qed.

Lemma stored_bytes r d : fits r d ->
  u64 (u64 (d_size (desc r) * d_num (desc r)) + d_num (desc r) + AP_UNSIGNEDINT_OFFSET) = zlen d - AP_SLOTMEM_OFFSET.
Proof.
  intros F. fold (dsize r) (dnum r). pose proof F as []. pose proof offsets. pose proof sizeof_pos.
  assert (0 <= dsize r * dnum r) by (apply Z.mul_nonneg_nonneg; lia).
  unfold segment_size, u64 in *. rewrite (wrapu_small 64 (dsize r * dnum r)), wrapu_small by lia. lia.
Qed.

(** [store_slotmem] keeps the tail of the segment in the file of its name. *)
Lemma store_run s p r d f : undisturbed -> at_inst s p r d -> slotmem_filename (Some (name r)) true = Some f ->
  (forall old, files s !! f = Some old -> zlen old <= zlen d - AP_SLOTMEM_OFFSET) ->
  exists d' s', store_slotmem (Some p) s = Ok (tt, s') /\ same_process s s' /\ names s' = names s /\
    segs s' = <[shm r := d']> (segs s) /\ files s' = <[f := seg_tail d']> (files s) /\
    fits r d' /\ view r d' = stored_view r (view r d).
Proof.
  intros U A Hf Hold. pose proof A as (Ei & Es & F).
  pose (s1 := set_files (<[f := default [] (files s !! f)]> (files s)) (set_calls (Datatypes.S (calls s)) s)).
  assert (A1 : at_inst s1 p r d) by done.
  assert (C : exists d', (if AP_SLOTMEM_IS_CLEARINUSE r then slotmem_clearinuse (Some p) else mret tt) s1 =
      Ok (tt, with_seg (shm r) d' s1) /\ at_inst (with_seg (shm r) d' s1) p r d' /\ view r d' = stored_view r (view r d)).
  { unfold stored_view. destruct (AP_SLOTMEM_IS_CLEARINUSE r).
    - destruct (clearinuse_run s1 p r d A1) as (x & v & [= <- <-] & d' & R & A' & V). exists d'. split_and!; [|done|done].
      apply M_bind_inv in R as ([] & s2 & R & [= <-]). done.
    - exists d. rewrite (same_seg s1 p r d A1). done. }
  destruct C as (d' & R & A' & V). pose proof A' as (_ & Es' & F').
  pose proof (stored_bytes r d F) as Hn.
  assert (Hl : zlen d' = zlen d) by (by rewrite (ft_len r d F), (ft_len r d' F')).
  assert (Hb : 0 <= AP_SLOTMEM_OFFSET <= zlen d').
  { pose proof F' as []. pose proof offsets. pose proof sizeof_pos. unfold segment_size in *. nia. }
  assert (Hz : zlen (seg_tail d') = zlen d - AP_SLOTMEM_OFFSET) by (unfold seg_tail; rewrite zlen_zdrop; lia).
  exists d'. eexists. split_and!; [| | | | |done|done].
  - unfold store_slotmem. mstep ltac:(by apply dinst_ok). rewrite Hf.
    mstep ltac:(by apply file_open_create). mstep ltac:(reflexivity). rewrite decide_False by (intros Hx; by apply Hx).
    fold s1. mstep ltac:(exact R). rewrite Hn, (ft_persist r d F), <- Hl.
    mstep ltac:(apply (read_seg_ok _ _ d'); [exact Es'|lia..]). rewrite zdrop_slice by lia. fold (seg_tail d').
    by apply file_write_ok.
  - done.
  - done.
  - done.
  - cbn. rewrite alter_insert_eq. f_equal.
    rewrite (zdrop_all (zlen (seg_tail d'))), app_nil_r; [done|].
    destruct (files s !! f) eqn:E; cbn; [rewrite Hz; by apply Hold|apply zlen_nonneg].
Qed.

(** The tail a new segment gets. *)
Definition initial_tail s (type : Z) (fname : string) (n : Z) : list Z :=
  let zeros := replicate (Z.to_nat n) 0 in
  if Z.land type AP_SLOTMEM_TYPE_PERSIST =? 0 then zeros
  else match slotmem_filename (Some fname) true with
       | None => zeros
       | Some f => match files s !! f with Some old => if zlen old =? n then old else zeros | None => zeros end
       end.

Lemma restore_run s (l : loc) d (fname : string) : undisturbed -> segs s !! l = Some d ->
  0 <= AP_SLOTMEM_OFFSET <= zlen d ->
  let n := zlen d - AP_SLOTMEM_OFFSET in
  exists d' s', restore_slotmem l AP_SLOTMEM_OFFSET fname n s = Ok (tt, s') /\ same_process s s' /\ names s' = names s /\
    segs s' = <[l := d']> (segs s) /\ zlen d' = zlen d /\ ztake AP_SLOTMEM_OFFSET d' = ztake AP_SLOTMEM_OFFSET d /\
    seg_tail d' = match slotmem_filename (Some fname) true with
              | None => seg_tail d
              | Some f => match files s !! f with Some old => if zlen old =? n then old else seg_tail d | None => seg_tail d end
              end.
Proof.
  intros U E Hb n. unfold restore_slotmem.
  assert (Hsame : <[l := d]> (segs s) = segs s) by by apply insert_id.
  destruct (slotmem_filename (Some fname) true) as [f|]; cycle 1.
  { exists d, s. split_and!; by try done. }
  assert (Hn : exists s1, (forall T (k : apr_status_t -> M sms cfault T), (rv ← file_open f false; k rv) s =
      k (match files s !! f with Some _ => APR_SUCCESS | None => APR_NOTFOUND end) s1) /\ s1 = set_calls (Datatypes.S (calls s)) s).
  { eexists. split; [|done]. intros T k. by mstep ltac:(by apply file_open_read). }
  destruct Hn as (s1 & Ho & ->). rewrite Ho.
  destruct (files s !! f) as [old|] eqn:Eo; cycle 1.
  { rewrite decide_True by done. exists d. eexists. split_and!; by try done. }
  rewrite decide_False by (intros Hx; by apply Hx). mstep ltac:(apply slotmem_call_ok). rewrite (informs U).
  rewrite M_bind_eq. cbn [getS calls set_calls files]. rewrite Eo. cbn [default from_option id].
  destruct (zlen old =? n) eqn:En; cycle 1.
  { exists d. eexists. split_and!; by try done. }
  apply Z.eqb_eq in En. mstep ltac:(apply slotmem_call_ok). rewrite (reads U), Z.min_id, Z.max_r by lia.
  rewrite ztake_all by lia.
  exists (overwrite d AP_SLOTMEM_OFFSET old). eexists. split_and!.
  - apply write_seg_ok; [exact E|lia..].
  - done.
  - done.
  - done.
  - apply zlen_overwrite; lia.
  - apply list_eq. intros i. rewrite !lookup_ztake by lia. destruct (decide _); [|done].
    rewrite lookup_overwrite by lia. by rewrite decide_False by lia.
  - apply zdrop_overwrite_all; lia.
Qed.

(** ** The list of a process; instances that are not in it any more stay allocated *)
Record proc s l : Prop := {
  pr_owns : exists garbage, owns (insts s) (l ++ garbage);
  pr_linked : linked inext (globallistmem s) l None;
  pr_names : NoDup (name <$> l.*2);
  pr_shms : NoDup (shm <$> l.*2);
  pr_segs : Forall (fun x => fbased x.2 = true /\ exists d, segs s !! shm x.2 = Some d /\ fits x.2 d) l;
  pr_pool : gpool s = true
}.

Lemma find_inst_run s q l f fuel : linked inext q l None -> (forall x, x ∈ l -> insts s !! x.1 = Some x.2) ->
  l <> [] -> (length l <= fuel)%nat ->
  (exists x, x ∈ l /\ name x.2 = f /\ find_inst fuel q f s = Ok ((Some x.1, Some x.1), s)) \/
  (Forall (fun x => name x.2 <> f) l /\ exists l0 x, l = l0 ++ [x] /\ find_inst fuel q f s = Ok ((None, Some x.1), s)).
Proof.
  revert q fuel. induction l as [|[p r] l IH]; [done|]. intros q [|fuel] Hl Hin _ Hlen; [cbn in Hlen; lia|].
  destruct Hl as [-> Hl]. cbn [find_inst].
  assert (R : deref (V := slotmem_instance) (Some p) s = Ok ((p, r), s)) by (apply dinst_ok, (Hin (p, r)), list_elem_of_here).
  destruct (String.eqb (name r) f) eqn:E.
  { left. exists (p, r). split_and!; [apply list_elem_of_here|by apply String.eqb_eq|]. mstep ltac:(exact R). by rewrite E. }
  apply String.eqb_neq in E. destruct l as [|y l].
  { right. split; [by constructor|]. exists [], (p, r). split; [done|]. mstep ltac:(exact R).
    rewrite (proj2 (String.eqb_neq _ _) E). cbn in Hl. by rewrite Hl. }
  destruct (IH (inext r) fuel) as [(x & Hx & Hn & R')|(Hall & l0 & x & El & R')]; [done|set_solver|done|cbn in *; lia| |].
  - left. exists x. split_and!; [set_solver|done|]. mstep ltac:(exact R).
    rewrite (proj2 (String.eqb_neq _ _) E). destruct y as [py ry], Hl as [Hq _]. rewrite Hq in *. exact R'.
  - right. split; [by constructor|]. exists ((p, r) :: l0), x. split; [by rewrite El|]. mstep ltac:(exact R).
    rewrite (proj2 (String.eqb_neq _ _) E). destruct y as [py ry], Hl as [Hq _]. rewrite Hq in *. exact R'.
Qed.

Lemma proc_lookup s l x : proc s l -> x ∈ l -> insts s !! x.1 = Some x.2.
Proof.
  intros P Hx. destruct (pr_owns _ _ P) as [G HG]. eapply owns_lookup; [exact HG|]. destruct x. apply elem_of_app. by left.
Qed.

Lemma proc_at_inst s l p r : proc s l -> (p, r) ∈ l -> exists d, at_inst s p r d.
Proof.
  intros P Hx. pose proof (pr_segs _ _ P) as Hs. rewrite Forall_forall in Hs. destruct (Hs _ Hx) as (_ & d & E & F).
  exists d. split_and!; [exact (proc_lookup s l (p, r) P Hx)|done|done].
Qed.

(** The list is searched to its end, and an instance is found by its name. *)
Lemma search_run s l f : proc s l ->
  (exists x, x ∈ l /\ name x.2 = f /\ search (globallistmem s) f s = Ok ((Some x.1, Some x.1), s)) \/
  (Forall (fun x => name x.2 <> f) l /\
   search (globallistmem s) f s = Ok ((None, match last l with Some x => Some x.1 | None => None end), s)).
Proof.
  intros P. unfold search. pose proof (pr_linked _ _ P) as Hl. destruct l as [|[p r] l'] eqn:El.
  { right. cbn in Hl. by rewrite Hl. }
  rewrite <- El in *. assert (Hg : globallistmem s = Some p) by (rewrite El in Hl; apply Hl).
  destruct (pr_owns _ _ P) as [G HG]. pose proof (owns_size _ _ HG) as Hsize. rewrite length_app in Hsize.
  assert (R : walk_fuel (V := slotmem_instance) s = Ok (Datatypes.S (size (insts s)), s)) by done.
  destruct (find_inst_run s (globallistmem s) l f (Datatypes.S (size (insts s))) Hl) as [(x & Hx & Hn & R')|(Hall & l0 & x & El' & R')].
  - intros x. by apply proc_lookup.
  - by rewrite El.
  - lia.
  - left. exists x. split_and!; [done..|]. rewrite Hg in *. mstep ltac:(exact R). exact R'.
  - right. split; [done|]. rewrite Hg in *. mstep ltac:(exact R). rewrite R', El'. by rewrite last_snoc.
Qed.

Lemma search_found s l p r : proc s l -> (p, r) ∈ l -> search (globallistmem s) (name r) s = Ok ((Some p, Some p), s).
Proof.
  intros P Hin. destruct (search_run s l (name r) P) as [([p' r'] & Hx & Hn & R)|(Hall & _)].
  - assert ((p', r') = (p, r)) as [= -> ->]; [|done]. cbn in Hn.
    apply list_elem_of_lookup in Hx as (i & Hi), Hin as (j & Hj).
    assert (i = j) as ->; [|congruence].
    eapply NoDup_lookup; [exact (pr_names _ _ P)| |]; rewrite !list_lookup_fmap; [rewrite Hi|rewrite Hj]; cbn; by rewrite ?Hn.
  - rewrite Forall_forall in Hall. by destruct (Hall _ Hin).
Qed.
End life.
