(* ===== verification/SlotmemCreate.v ===== *)
(** * Apache's slotmem: [slotmem_create], [slotmem_attach] and [cleanup_slotmem]

    What the three functions do with the list of a process and with the segments
    and files outside it. *)
From S2P Require Import Prelude Heap Slotmem SlotmemProofs SlotmemOps SlotmemLife.
From stdpp Require Import strings.
Open Scope Z_scope.

#[export] Instance sms_insts_laws : StoreLaws sms slotmem_instance.
Proof. split; by intros []. Qed.

Section create.
Context `{AP : Apr} `{AL : !AprLaws}.
Implicit Types (r : slotmem_instance) (d : list Z) (s : sms) (v : aslots) (l : list (loc * slotmem_instance)).

Lemma fits_inext r d x : fits r d -> fits (set_inext x r) d.
Proof. by intros []. Qed.

(** ** Linking a new instance *)
Definition appended l (p : loc) r : list (loc * slotmem_instance) :=
  match last l with
  | Some x => take (pred (length l)) l ++ [(x.1, set_inext (Some p) x.2); (p, r)]
  | None => [(p, r)]
  end.

Lemma appended_snoc l x p r : appended (l ++ [x]) p r = l ++ [(x.1, set_inext (Some p) x.2); (p, r)].
Proof.
  unfold appended. rewrite last_snoc, length_app. cbn. rewrite Nat.add_1_r. cbn. by rewrite take_app_length.
Qed.

Lemma appended_names (T : Type) (g : slotmem_instance -> T) l p r : (forall x y, g (set_inext x y) = g y) ->
  g <$> (appended l p r).*2 = (g <$> l.*2) ++ [g r].
Proof.
  intros Hg. destruct l as [|x l0 _] using rev_ind; [done|].
  rewrite appended_snoc, !fmap_app. cbn. rewrite Hg. by rewrite <- app_assoc.
Qed.

Lemma link_run s l r : proc s l -> inext r = None ->
  name r ∉ name <$> l.*2 -> shm r ∉ shm <$> l.*2 -> fbased r = true ->
  (exists d, segs s !! shm r = Some d /\ fits r d) ->
  let p := new_loc (insts s) in
  exists s', link_inst r (match last l with Some x => Some x.1 | None => None end) s = Ok (p, s') /\
    proc s' (appended l p r) /\ insts s' !! p = Some r /\
    segs s' = segs s /\ names s' = names s /\ files s' = files s /\ calls s' = calls s.
Proof.
  intros P Hr Hn Hs Hfb Hd p. pose proof (new_loc_fresh (insts s)) as Hfresh. fold p in Hfresh.
  destruct P as [[G PO] PL PN PS PG PP]. pose proof (owns_alloc _ _ p r PO Hfresh) as HO.
  unfold link_inst. rewrite M_bind_eq. cbn [getS]. fold p.
  destruct l as [|x l0 _] using rev_ind.
  - cbn in PL. rewrite PL. eexists. split; [done|].
    cbn [insts the_heap segs names files calls]. split_and!; [|cbn; by rewrite lookup_insert_eq|done..].
    split; cbn; [by exists G|by rewrite Hr|by apply NoDup_singleton|by apply NoDup_singleton| |done].
    constructor; [|constructor]. done.
  - rewrite last_snoc, appended_snoc. destruct x as [px rx].
    assert (Hg : exists q, globallistmem s = Some q).
    { destruct l0 as [|[q rq] l0]; cbn in PL; destruct PL as [-> _]; by eexists. }
    destruct Hg as [q Hg]. rewrite Hg.
    pose (s1 := upd (V := slotmem_instance) p r s).
    assert (HO1 : owns (the_heap s1) ((px, rx) :: (p, r) :: l0 ++ G)).
    { eapply owns_perm; [exact HO|]. rewrite <- app_assoc. cbn. solve_Permutation. }
    eexists. split.
    { mstep ltac:(reflexivity). mstep ltac:(eapply (assign_ok s1); [exact HO1|apply list_elem_of_here]). done. }
    split_and!; [|cbn|done..].
    + pose proof (upd_owns s1 px rx (set_inext (Some p) rx) _ HO1) as HO2. split.
      * exists G. eapply owns_perm; [exact HO2|]. rewrite <- app_assoc. cbn. solve_Permutation.
      * change (linked inext (globallistmem s) (l0 ++ [(px, set_inext (Some p) rx); (p, r)]) None).
        apply linked_snoc in PL as [PL _]. apply linked_app. exists (Some px). split; [done|]. cbn. by rewrite Hr.
      * rewrite <- (appended_snoc l0 (px, rx)), appended_names by done. apply NoDup_app. split_and!; [done| |apply NoDup_singleton].
        intros y Hy ->%list_elem_of_singleton. done.
      * rewrite <- (appended_snoc l0 (px, rx)), appended_names by done. apply NoDup_app. split_and!; [done| |apply NoDup_singleton].
        intros y Hy ->%list_elem_of_singleton. done.
      * apply Forall_app in PG as [PG0 PG1]. apply Forall_app. split; [done|].
        apply Forall_singleton in PG1 as (Hf & d & Ed & Fd). constructor; [|by constructor].
        split; [done|]. exists d. split; [done|by apply fits_inext].
      * done.
    + rewrite lookup_insert_ne; [by rewrite lookup_insert_eq|]. intros ->.
      pose proof (owns_lookup _ _ p rx PO ltac:(set_solver)). congruence.
Qed.

(** ** A new segment *)
Lemma shm_create_run s fb f size : undisturbed ->
  (if fb : bool then shm_remove f ;; shm_create size (Some f) else shm_create size None) s =
  Ok ((APR_SUCCESS, new_loc (segs s)),
    set_names (if fb then <[f := new_loc (segs s)]> (names s) else names s)
      (set_segs (<[new_loc (segs s) := fresh_bytes (calls s) size]> (segs s)) (set_calls (Datatypes.S (calls s)) s))).
Proof.
  intros U. destruct fb; [mstep ltac:(reflexivity)|]; unfold shm_create; mstep ltac:(apply slotmem_call_ok);
    rewrite M_bind_eq; cbn -[create_status]; rewrite (creates U); rewrite M_bind_eq; cbn.
  - mstep ltac:(reflexivity). unfold set_names, set_segs, set_calls; cbn. by rewrite insert_delete_eq.
  - mstep ltac:(reflexivity). by destruct s.
Qed.

(** The sizes of a slotmem that fits in the address space. *)
Record sizes_ok (item_size item_num : Z) : Prop := {
  so_size : 0 <= item_size < 2 ^ 64;
  so_num : 0 <= item_num < 2 ^ 32;
  so_total : segment_size item_size item_num < 2 ^ 64
}.

(** A segment with its description and nothing behind it. *)
Definition blank_segment (d0 : list Z) (de : sharedslotdesc_t) (n : Z) : list Z :=
  overwrite (overwrite d0 0 (desc_bytes de)) AP_SLOTMEM_OFFSET (replicate (Z.to_nat n) 0).

Lemma blank_segment_ok d0 item_size item_num type : sizes_ok item_size item_num -> 0 <= type < 2 ^ 32 ->
  zlen d0 = segment_size item_size item_num ->
  let n := zlen d0 - AP_SLOTMEM_OFFSET in
  let d := blank_segment d0 (MkDesc item_size item_num type) n in
  0 <= n /\ zlen (desc_bytes (MkDesc item_size item_num type)) <= zlen d0 /\
  zlen (overwrite d0 0 (desc_bytes (MkDesc item_size item_num type))) = zlen d0 /\ zlen d = zlen d0 /\
  seg_tail d = replicate (Z.to_nat n) 0 /\ desc_of_bytes (slice 0 sizeof_desc d) = MkDesc item_size item_num type.
Proof.
  intros [] Htype L0 n d. pose proof offsets as [Ho1 Ho2]. pose proof sizeof_pos as [Hp1 Hp2].
  assert (Hm : 0 <= item_size * item_num) by (apply Z.mul_nonneg_nonneg; lia).
  unfold segment_size in *. pose proof (desc_size (MkDesc item_size item_num type)) as Ld.
  assert (Hn : 0 <= n) by lia.
  assert (L1 : zlen (overwrite d0 0 (desc_bytes (MkDesc item_size item_num type))) = zlen d0) by (apply zlen_overwrite; lia).
  assert (Lz : zlen (replicate (Z.to_nat n) 0) = n) by (rewrite zlen_replicate; lia).
  assert (L2 : zlen d = zlen d0) by (unfold d, blank_segment; rewrite zlen_overwrite; lia).
  split_and!; try lia.
  - unfold seg_tail, d, blank_segment. apply zdrop_overwrite_all; lia.
  - unfold d, blank_segment. rewrite slice_overwrite_other by lia. rewrite <- Ld.
    rewrite slice_overwrite by lia. by apply desc_round.
Qed.

Lemma make_segment_run s fb f item_size item_num type : undisturbed -> sizes_ok item_size item_num ->
  0 <= type < 2 ^ 32 ->
  let size := segment_size item_size item_num in
  let l := new_loc (segs s) in
  exists d s', make_segment f fb size item_size item_num type s =
      Ok ((APR_SUCCESS, l, negb (Z.land type AP_SLOTMEM_TYPE_PERSIST =? 0)), s') /\ same_process s s' /\
    segs s' = <[l := d]> (segs s) /\ names s' = (if fb then <[f := l]> (names s) else names s) /\ zlen d = size /\
    desc_of_bytes (slice 0 sizeof_desc d) = MkDesc item_size item_num type /\
    seg_tail d = initial_tail s type f (size - AP_SLOTMEM_OFFSET).
Proof.
  intros U Hok Htype size l. pose (de := MkDesc item_size item_num type).
  pose (d0 := fresh_bytes (calls s) size).
  assert (Hpos : 0 <= size).
  { destruct Hok. pose proof offsets. pose proof sizeof_pos. unfold size, segment_size.
    assert (0 <= item_size * item_num) by (apply Z.mul_nonneg_nonneg; lia). lia. }
  assert (L0 : zlen d0 = size) by (by apply fresh_size).
  destruct (blank_segment_ok d0 item_size item_num type Hok Htype L0) as (Hn & Ld & L1 & L2 & T2 & D2).
  fold de in Ld, L1, L2, T2, D2. rewrite L0 in *. set (n := size - AP_SLOTMEM_OFFSET) in *. pose proof (so_total _ _ Hok) as Hlt. fold size in Hlt.
  pose proof offsets as [Ho1 Ho2]. pose proof sizeof_pos as [Hp1 Hp2].
  assert (Ew : u64 n = n) by (unfold u64, n in *; rewrite wrapu_small; lia).
  pose (s0 := set_names (if fb then <[f := l]> (names s) else names s)
      (set_segs (<[l := d0]> (segs s)) (set_calls (Datatypes.S (calls s)) s))).
  set (d2 := blank_segment d0 de n) in *.
  assert (R2 : forall T (k : M sms cfault T),
      (write_seg l 0 (desc_bytes de) ;; write_seg l AP_SLOTMEM_OFFSET (replicate (Z.to_nat n) 0) ;; k) s0
      = k (with_seg l d2 s0)).
  { intros T k. mstep ltac:(apply (write_seg_ok _ _ d0); [apply lookup_insert_eq|lia..]).
    mstep ltac:(eapply write_seg_ok; [apply lookup_insert_eq|lia|rewrite L1, zlen_replicate; lia]).
    by rewrite with_seg_twice. }
  assert (R : forall k, make_segment f fb size item_size item_num type s = k ->
     (if negb (Z.land type AP_SLOTMEM_TYPE_PERSIST =? 0) then
        restore_slotmem l AP_SLOTMEM_OFFSET f n ;; mret (APR_SUCCESS, l, true)
      else mret (APR_SUCCESS, l, false)) (with_seg l d2 s0) = k).
  { intros k <-. unfold make_segment. fold n. rewrite Ew.
    mstep ltac:(by apply shm_create_run). rewrite decide_False by (intros Hx; by apply Hx).
    symmetry. exact (R2 _ _). }
  specialize (R _ eq_refl). unfold initial_tail.
  destruct (Z.land type AP_SLOTMEM_TYPE_PERSIST =? 0); cbn [negb] in *.
  - exists d2, (with_seg l d2 s0). rewrite <- R. split_and!; try done; cbn.
    by rewrite insert_insert_eq.
  - destruct (restore_run (with_seg l d2 s0) l d2 f U) as (d & s' & Rr & Hs & En & Es & Ld' & Et & Ht).
    { apply lookup_insert_eq. }
    { rewrite L2. unfold n in *. lia. }
    rewrite L2 in *. fold n in Rr, Ht. exists d, s'. rewrite <- R. split_and!; try done.
    + by mstep ltac:(exact Rr).
    + rewrite Es. cbn. by rewrite !insert_insert_eq.
    + fold de. rewrite <- D2. f_equal. apply list_eq. intros i. rewrite !lookup_slice by lia. destruct (decide _); [|done].
      apply (f_equal (fun x => x !! i)) in Et. rewrite !lookup_ztake, !decide_True in Et by lia.
      rewrite !Z.add_0_l, Nat2Z.id. done.
    + rewrite Ht, T2. done.
Qed.

(** ** [slotmem_create] *)
Lemma proc_ext s s' l : proc s l -> same_process s s' ->
  (forall k d, segs s !! k = Some d -> exists d', segs s' !! k = Some d' /\ zlen d' = zlen d) -> proc s' l.
Proof.
  intros [] (Ei & Eg & Ep) Hs. split; rewrite ?Ei, ?Eg, ?Ep; try done.
  eapply Forall_impl; [exact pr_segs|]. intros x (Hf & d & E & F). split; [done|].
  destruct (Hs _ _ E) as (d' & E' & Hl). exists d'. split; [done|]. destruct F. by split; rewrite ?Hl.
Qed.

(** An attempt to attach to a segment of this name would fail. *)
Definition attach_fails s (f : string) : Prop := attach_status (calls s) <> APR_SUCCESS \/ names s !! f = None.

Definition called s : sms := set_calls (Datatypes.S (calls s)) s.

Lemma shm_attach_fails s f : attach_fails s f ->
  exists rv, rv <> APR_SUCCESS /\ shm_attach f s = Ok ((rv, O), called s).
Proof.
  intros Hf. unfold shm_attach, attach_fails in *.
  destruct (attach_status (calls s)) eqn:E; [destruct Hf as [|Hf]; [done|]; eexists; (split; cycle 1);
      [mstep ltac:(apply slotmem_call_ok); rewrite M_bind_eq; cbn -[attach_status]; rewrite E, Hf; reflexivity|done]|..].
  all: eexists; (split; cycle 1);
    [mstep ltac:(apply slotmem_call_ok); rewrite M_bind_eq; cbn -[attach_status]; rewrite E; reflexivity|done].
Qed.

Lemma shm_attach_ok s f k : attach_status (calls s) = APR_SUCCESS -> names s !! f = Some k ->
  shm_attach f s = Ok ((APR_SUCCESS, k), called s).
Proof.
  intros E Hk. unfold shm_attach. mstep ltac:(apply slotmem_call_ok). rewrite M_bind_eq. cbn -[attach_status].
  by rewrite E, Hk.
Qed.

Lemma sizes_product item_size item_num : sizes_ok item_size item_num -> u64 (item_size * item_num) = item_size * item_num.
Proof.
  intros []. pose proof offsets. pose proof sizeof_pos. unfold segment_size, u64 in *.
  assert (0 <= item_size * item_num) by (apply Z.mul_nonneg_nonneg; lia). apply wrapu_small. lia.
Qed.

Lemma sizes_total item_size item_num : sizes_ok item_size item_num ->
  u64 (AP_SLOTMEM_OFFSET + AP_UNSIGNEDINT_OFFSET + item_num + item_size * item_num) = segment_size item_size item_num.
Proof.
  intros []. pose proof offsets. pose proof sizeof_pos. unfold segment_size, u64 in *.
  assert (0 <= item_size * item_num) by (apply Z.mul_nonneg_nonneg; lia). apply wrapu_small. lia.
Qed.

Lemma new_inst_fits f fb k item_size item_num type d : sizes_ok item_size item_num ->
  zlen d = segment_size item_size item_num ->
  fits (new_inst f fb k (MkDesc item_size item_num type) AP_SLOTMEM_OFFSET (item_size * item_num)) d.
Proof. intros [] Hl. split; cbn; try done; try lia. Qed.

(** The count of free slots is written unless the segment was restored. *)
Lemma count_run s r d (restored : bool) item_num : segs s !! shm r = Some d -> fits r d -> dnum r = item_num ->
  exists d', (if negb restored then write_num_free r item_num else mret tt) s = Ok (tt, with_seg (shm r) d' s) /\
    fits r d' /\
    (if restored then d' = d else view r d' = MkSlots (a_slots (view r d)) (a_used (view r d)) item_num).
Proof.
  intros E F <-. pose proof F as [Hn _ _ Hl Hf _ _ _]. destruct restored; cbn [negb].
  - exists d. split_and!; [|done|done]. unfold with_seg. rewrite insert_id by done. by destruct s.
  - destruct (view_set_free r d (dnum r) F Hn) as [V F2].
    exists (overwrite d (num_free r) (uint_bytes (dnum r))). split_and!; [|done|done].
    unfold write_num_free. rewrite wrapu_small by done.
    pose proof F as []. pose proof offsets. pose proof sizeof_pos. unfold segment_size in *.
    assert (0 <= dsize r * dnum r) by (apply Z.mul_nonneg_nonneg; lia).
    apply write_seg_ok; [done|lia|]. rewrite uint_size. lia.
Qed.

(** The instance of a new slotmem. *)
Definition made s f item_size item_num type : slotmem_instance :=
  new_inst f true (new_loc (segs s)) (MkDesc item_size item_num type) AP_SLOTMEM_OFFSET (item_size * item_num).

Lemma set_shms_fresh s l : proc s l -> new_loc (segs s) ∉ shm <$> l.*2.
Proof.
  intros P Hin. apply list_elem_of_fmap in Hin as (r & Hk & Hin).
  apply list_elem_of_fmap in Hin as (x & -> & Hin).
  pose proof (pr_segs _ _ P) as Hs. rewrite Forall_forall in Hs. destruct (Hs _ Hin) as (_ & d & E & _).
  rewrite <- Hk, new_loc_fresh in E. done.
Qed.

(** A slotmem of a new name is appended to the list; without [PERSIST] all its
    slots are free, with it the segment is what the file holds. *)
Lemma create_new s l nm f item_size item_num type : undisturbed -> proc s l -> sizes_ok item_size item_num ->
  0 <= type < 2 ^ 32 ->
  slotmem_filename nm false = Some f -> f ∉ name <$> l.*2 -> attach_fails s f ->
  let r := made s f item_size item_num type in
  let p := new_loc (insts s) in
  exists d s', slotmem_create nm item_size item_num type s = Ok ((APR_SUCCESS, Some p), s') /\
    proc s' (appended l p r) /\ at_inst s' p r d /\ segs s' = <[shm r := d]> (segs s) /\
    names s' = <[f := shm r]> (names s) /\
    (if AP_SLOTMEM_IS_PERSIST r
     then seg_tail d = initial_tail s type f (zlen d - AP_SLOTMEM_OFFSET)
     else view r d = MkSlots (a_slots (empty_slots item_size item_num)) (a_used (empty_slots item_size item_num)) item_num).
Proof.
  intros U P Hok Htype Hf Hn Ha r p.
  destruct (shm_attach_fails s f Ha) as (rv & Hrv & Ra).
  destruct (make_segment_run (called s) true f item_size item_num type U Hok Htype) as (d & s1 & R1 & Hs1 & Es1 & En1 & Ld & _ & Ht).
  change (new_loc (segs (called s))) with (shm r) in *. change (segs (called s)) with (segs s) in Es1.
  change (names (called s)) with (names s) in En1.
  assert (F : fits r d) by by apply new_inst_fits.
  pose proof Hs1 as (Ei & Eg & Ep).
  destruct (count_run s1 r d (AP_SLOTMEM_IS_PERSIST r) item_num) as (d2 & R2 & F2 & Hd2);
    [by rewrite Es1, lookup_insert_eq|done|done|].
  set (s2 := with_seg (shm r) d2 s1) in *.
  assert (Es2 : segs s2 = <[shm r := d2]> (segs s)) by (cbn; by rewrite Es1, insert_insert_eq).
  assert (P2 : proc s2 l).
  { eapply proc_ext; [exact P|done|]. intros k dk Ek. exists dk. split; [|done]. rewrite Es2, lookup_insert_ne; [done|].
    intros <-. change (segs s !! new_loc (segs s) = Some dk) in Ek. by rewrite new_loc_fresh in Ek. }
  destruct (link_run s2 l r P2) as (s3 & R3 & P3 & Ip & Es3 & En3 & _); [done|done|by apply set_shms_fresh|done| |].
  { exists d2. by rewrite Es2, lookup_insert_eq. }
  change (insts s2) with (insts s1) in R3, P3, Ip. rewrite Ei in R3, P3, Ip.
  change (new_loc (insts (called s))) with p in *.
  exists d2, s3. split_and!.
  - unfold slotmem_create. rewrite (sizes_product _ _ Hok), (sizes_total _ _ Hok).
    rewrite M_bind_eq. cbn [getS]. rewrite (pr_pool _ _ P), Hf. cbn [negb].
    destruct (search_run s l f P) as [(x & Hx & Hxn & _)|(_ & R)].
    { destruct Hn. rewrite <- Hxn. apply list_elem_of_fmap. exists x.2. split; [done|].
      apply list_elem_of_fmap. by exists x. }
    mstep ltac:(exact R). rewrite bool_decide_false by (intros [? ?]; done).
    mstep ltac:(exact Ra). rewrite decide_False by done.
    mstep ltac:(mstep ltac:(exact R1); rewrite decide_False by (intros Hx; by apply Hx); reflexivity).
    change (negb (Z.land type AP_SLOTMEM_TYPE_PERSIST =? 0)) with (AP_SLOTMEM_IS_PERSIST r).
    mstep ltac:(exact R2). by mstep ltac:(exact R3).
  - done.
  - split_and!; [done|by rewrite Es3, Es2, lookup_insert_eq|done].
  - by rewrite Es3.
  - by rewrite En3; cbn; rewrite En1.
  - destruct (AP_SLOTMEM_IS_PERSIST r) eqn:Ep'; [subst d2; by rewrite Ht, Ld|].
    rewrite Hd2. f_equal; rewrite (view_zeros r d F).
    all: try done.
    all: rewrite Ht; unfold initial_tail.
    all: change (negb (Z.land type AP_SLOTMEM_TYPE_PERSIST =? 0) = false) in Ep'; apply negb_false_iff in Ep'; rewrite Ep'.
    all: by rewrite length_replicate.
Qed.

(** A name that is in the list is found, whatever the sizes. *)
Lemma create_found s l nm item_size item_num type p r : proc s l -> (p, r) ∈ l ->
  slotmem_filename nm false = Some (name r) ->
  slotmem_create nm item_size item_num type s = Ok ((APR_SUCCESS, Some p), s).
Proof.
  intros P Hin Hf. unfold slotmem_create. rewrite M_bind_eq. cbn [getS]. rewrite (pr_pool _ _ P), Hf. cbn [negb].
  mstep ltac:(by eapply search_found). by rewrite bool_decide_true by done.
Qed.

Lemma attach_found s l nm p r : proc s l -> (p, r) ∈ l -> slotmem_filename nm false = Some (name r) ->
  slotmem_attach nm s = Ok ((APR_SUCCESS, Some (p, dsize r, dnum r)), s).
Proof.
  intros P Hin Hf. unfold slotmem_attach. rewrite M_bind_eq. cbn [getS]. rewrite (pr_pool _ _ P), Hf. cbn [negb].
  mstep ltac:(by eapply search_found). pose proof (proc_lookup s l (p, r) P Hin) as Ei.
  by mstep ltac:(by apply dinst_ok).
Qed.

(** ** Segments of other processes *)
(** The segment of the name [f], which no instance of the list has. *)
Record offered s l f (k : loc) (d : list Z) item_size item_num type : Prop := {
  of_attach : attach_status (calls s) = APR_SUCCESS;
  of_name : names s !! f = Some k;
  of_seg : segs s !! k = Some d;
  of_new : f ∉ name <$> l.*2;
  of_unshared : k ∉ shm <$> l.*2;
  of_sizes : sizes_ok item_size item_num;
  of_length : zlen d = segment_size item_size item_num;
  of_desc : desc_of_bytes (slice 0 sizeof_desc d) = MkDesc item_size item_num type
}.

Definition attached f (k : loc) item_size item_num type : slotmem_instance :=
  new_inst f true k (MkDesc item_size item_num type) AP_SLOTMEM_OFFSET (item_size * item_num).

Lemma search_missing s l f : proc s l -> f ∉ name <$> l.*2 ->
  search (globallistmem s) f s = Ok ((None, match last l with Some x => Some x.1 | None => None end), s).
Proof.
  intros P Hn. destruct (search_run s l f P) as [(x & Hx & Hxn & _)|(_ & R)]; [|done].
  destruct Hn. rewrite <- Hxn. apply list_elem_of_fmap. exists x.2. split; [done|]. apply list_elem_of_fmap. by exists x.
Qed.

Lemma offered_desc s k f l d item_size item_num type : offered s l f k d item_size item_num type ->
  read_seg k 0 sizeof_desc (called s) = Ok (slice 0 sizeof_desc d, called s).
Proof.
  intros O. pose proof (of_length _ _ _ _ _ _ _ _ O). destruct (of_sizes _ _ _ _ _ _ _ _ O).
  pose proof offsets. pose proof sizeof_pos. unfold segment_size in *.
  assert (0 <= item_size * item_num) by (apply Z.mul_nonneg_nonneg; lia).
  apply read_seg_ok; [exact (of_seg _ _ _ _ _ _ _ _ O)|lia..].
Qed.

(** [slotmem_attach] takes such a segment as it is. *)
Lemma attach_run s l nm f k d item_size item_num type : proc s l -> slotmem_filename nm false = Some f ->
  offered s l f k d item_size item_num type ->
  let r := attached f k item_size item_num type in
  let p := new_loc (insts s) in
  exists s', slotmem_attach nm s = Ok ((APR_SUCCESS, Some (p, item_size, item_num)), s') /\
    proc s' (appended l p r) /\ at_inst s' p r d.
Proof.
  intros P Hf O r p. pose proof O as [Oa On Os Of Ou Oz Ol Od].
  assert (F : fits r d) by by apply new_inst_fits.
  assert (P2 : proc (called s) l) by (eapply proc_ext; [exact P|done|]; intros j dj Ej; by exists dj).
  destruct (link_run (called s) l r P2) as (s' & R & P' & Ip & Es & _); [done..|by exists d|].
  exists s'. split_and!; [|done|split_and!; [exact Ip|by rewrite Es|done]].
  unfold slotmem_attach. rewrite M_bind_eq. cbn [getS]. rewrite (pr_pool _ _ P), Hf. cbn [negb].
  mstep ltac:(by apply search_missing). mstep ltac:(by apply shm_attach_ok). rewrite decide_False by (intros Hx; by apply Hx).
  mstep ltac:(by eapply offered_desc). rewrite Od. cbn [d_size d_num].
  rewrite (sizes_product _ _ Oz). by mstep ltac:(exact R).
Qed.

(** [slotmem_create] on such a segment sets its count of free slots to the
    number of slots, whatever their state. *)
Lemma create_attach_run s l nm f k d item_size item_num type type' : proc s l -> slotmem_filename nm false = Some f ->
  offered s l f k d item_size item_num type ->
  let r := attached f k item_size item_num type in
  let p := new_loc (insts s) in
  exists d' s', slotmem_create nm item_size item_num type' s = Ok ((APR_SUCCESS, Some p), s') /\
    proc s' (appended l p r) /\ at_inst s' p r d' /\
    view r d' = MkSlots (a_slots (view r d)) (a_used (view r d)) item_num.
Proof.
  intros P Hf O r p. pose proof O as [Oa On Os Of Ou Oz Ol Od].
  assert (F : fits r d) by by apply new_inst_fits.
  destruct (count_run (called s) r d false item_num) as (d' & W & F' & V); [done..|].
  change (shm r) with k in W. cbn [negb] in W.
  assert (P2 : proc (with_seg k d' (called s)) l).
  { eapply proc_ext; [exact P|done|]. intros j dj Ej. cbn. destruct (decide (k = j)) as [<-|Hne].
    - exists d'. rewrite lookup_insert_eq. split; [done|]. rewrite Os in Ej. injection Ej as <-.
      by rewrite (ft_len r d' F'), Ol.
    - exists dj. by rewrite lookup_insert_ne. }
  destruct (link_run (with_seg k d' (called s)) l r P2) as (s' & R & P' & Ip & Es & _); [done..| |].
  { exists d'. split; [apply lookup_insert_eq|done]. }
  exists d', s'. split_and!; [|done|split_and!; [exact Ip|rewrite Es; apply lookup_insert_eq|done]|done].
  unfold slotmem_create. rewrite (sizes_product _ _ Oz), (sizes_total _ _ Oz).
  rewrite M_bind_eq. cbn [getS]. rewrite (pr_pool _ _ P), Hf. cbn [negb].
  mstep ltac:(by apply search_missing). rewrite bool_decide_false by (intros [? ?]; done).
  mstep ltac:(by apply shm_attach_ok). rewrite decide_True by done.
  assert (Esz : shm_size_get k (called s) = Ok (zlen d, called s)).
  { unfold shm_size_get. rewrite M_bind_eq. cbn. by rewrite Os. }
  mstep ltac:(mstep ltac:(exact Esz); rewrite Ol, Z.eqb_refl; cbn [negb];
    mstep ltac:(by eapply offered_desc); rewrite Od; cbn [d_size d_num]; rewrite !Z.eqb_refl; reflexivity).
  cbn [negb]. mstep ltac:(exact W). by mstep ltac:(exact R).
Qed.

(** ** [cleanup_slotmem] *)
Definition store_file r : string := (name r +:+ ".persist")%string.

(** What the file of a slotmem may hold for the clean-up to replace it all. *)
Definition replaceable s r : Prop :=
  forall old, files s !! store_file r = Some old ->
    zlen old <= segment_size (dsize r) (dnum r) - AP_SLOTMEM_OFFSET.

(** The file that the clean-up leaves for an instance with the segment [d]. *)
Definition kept s' r d : Prop :=
  exists d', files s' !! store_file r = Some (seg_tail d') /\ fits r d' /\ view r d' = stored_view r (view r d).

Record cleaned s s' l : Prop := {
  cl_same : same_process s s';
  cl_names n : names s' !! n = if decide (n ∈ name <$> l.*2) then None else names s !! n;
  cl_segs k : segs s' !! k = if decide (k ∈ shm <$> l.*2) then None else segs s !! k;
  cl_files f : f ∉ store_file <$> l.*2 -> files s' !! f = files s !! f;
  cl_kept x d : x ∈ l -> AP_SLOTMEM_IS_PERSIST x.2 = true -> segs s !! shm x.2 = Some d -> kept s' x.2 d
}.

Lemma slash_filename n : starts_with_slash n = true -> slotmem_filename (Some n) true = Some (n +:+ ".persist")%string.
Proof.
  destruct n as [|c n]; [done|]. cbn [starts_with_slash]. intros ->%Ascii.eqb_eq. done.
Qed.

Lemma string_app_inv_tail (a b c : string) : (a +:+ c = b +:+ c)%string -> a = b.
Proof.
  assert (Hlen : forall x y : string, String.length (x +:+ y)%string = (String.length x + String.length y)%nat).
  { induction x as [|ch x IHx]; intros y; [done|]. change (Datatypes.S (String.length (x +:+ y)%string) = Datatypes.S (String.length x + String.length y)%nat).
    by rewrite IHx. }
  revert b. induction a as [|ch a IH]; intros [|ch' b] E; [done| | |].
  - apply (f_equal String.length) in E. rewrite !Hlen in E. cbn in E. lia.
  - apply (f_equal String.length) in E. rewrite !Hlen in E. cbn in E. lia.
  - injection E as -> E. by rewrite (IH b E).
Qed.

Lemma store_file_inj r r' : store_file r = store_file r' -> name r = name r'.
Proof. apply string_app_inv_tail. Qed.

(** The clean-up of one instance. *)
Lemma cleanup_one s p r d : undisturbed -> at_inst s p r d -> starts_with_slash (name r) = true ->
  fbased r = true -> replaceable s r ->
  exists s', (forall T (k : M sms cfault T),
      ((if AP_SLOTMEM_IS_PERSIST r then store_slotmem (Some p) else mret tt) ;;
       (if fbased r then shm_remove (name r) else mret tt) ;;
       shm_destroy (shm r) ;; k) s = k s') /\ cleaned s s' [(p, r)].
Proof.
  intros U A Hsl Hfb Hrep. rewrite Hfb. pose proof A as (Ei & Es & F).
  assert (S1 : exists s1, (if AP_SLOTMEM_IS_PERSIST r then store_slotmem (Some p) else mret tt) s = Ok (tt, s1) /\
     same_process s s1 /\ names s1 = names s /\ (forall k, k <> shm r -> segs s1 !! k = segs s !! k) /\
     (forall f, f <> store_file r -> files s1 !! f = files s !! f) /\
     (AP_SLOTMEM_IS_PERSIST r = true -> kept s1 r d)).
  { destruct (AP_SLOTMEM_IS_PERSIST r); [|by exists s].
    destruct (store_run s p r d (store_file r) U A) as (d' & s1 & R & Hs & En & Eg & Ef & F' & V).
    { by apply slash_filename. }
    { rewrite (ft_len r d F). exact Hrep. }
    exists s1. split_and!; [done..| | |].
    - intros k Hk. by rewrite Eg, lookup_insert_ne.
    - intros f Hf. by rewrite Ef, lookup_insert_ne.
    - intros _. exists d'. split_and!; [by rewrite Ef, lookup_insert_eq|done|done]. }
  destruct S1 as (s1 & R1 & (Hi & Hg & Hp) & En & Eg & Ef & Hk).
  exists (set_segs (delete (shm r) (segs s1)) (set_names (delete (name r) (names s1)) s1)). split.
  - intros T k. mstep ltac:(exact R1). by mstep ltac:(reflexivity).
  - split; cbn.
    + done.
    + intros n. rewrite En. destruct (decide (n ∈ [name r])) as [->%list_elem_of_singleton|Hn].
      * apply lookup_delete_eq.
      * apply lookup_delete_ne. intros <-. apply Hn, list_elem_of_here.
    + intros k. destruct (decide (k ∈ [shm r])) as [->%list_elem_of_singleton|Hn].
      * apply lookup_delete_eq.
      * rewrite lookup_delete_ne by (intros <-; apply Hn, list_elem_of_here). apply Eg. intros ->. apply Hn, list_elem_of_here.
    + intros f Hf. apply Ef. intros ->. apply Hf, list_elem_of_here.
    + intros x d' ->%list_elem_of_singleton Hper Hd. cbn in *. assert (d' = d) as -> by congruence. by apply Hk.
Qed.

Lemma cleanup_loop_run s q l fuel : undisturbed -> linked inext q l None ->
  (forall x, x ∈ l -> exists d, at_inst s x.1 x.2 d) ->
  NoDup (shm <$> l.*2) -> NoDup (name <$> l.*2) ->
  Forall (fun x => fbased x.2 = true /\ starts_with_slash (name x.2) = true /\ replaceable s x.2) l ->
  (length l < fuel)%nat ->
  exists s', cleanup_loop fuel q s = Ok (tt, s') /\ cleaned s s' l.
Proof.
  intros U. revert s q fuel. induction l as [|[p r] l IH]; intros s q fuel Hl Hin Hsh Hnm Hall Hfuel.
  { destruct fuel as [|fuel]; [lia|]. cbn in Hl. subst q. exists s. split; [done|]. split; try done.
    intros x d Hx. by apply elem_of_nil in Hx. }
  destruct fuel as [|fuel]; [lia|]. destruct Hl as [-> Hl]. cbn [fmap list_fmap] in Hsh, Hnm.
  apply NoDup_cons in Hsh as [Hsh1 Hsh], Hnm as [Hnm1 Hnm]. apply Forall_cons in Hall as [(Hfb & Hsl & Hrep) Hall].
  destruct (Hin (p, r) (list_elem_of_here _ _)) as [d A]. cbn [fst snd] in *.
  destruct (cleanup_one s p r d U A Hsl Hfb Hrep) as (s1 & R1 & C1).
  pose proof C1 as [(Ei & Eg & Ep) Cn Cs Cf Ck]. cbn in Cn, Cs, Cf.
  assert (Hother : forall x, x ∈ l -> store_file x.2 <> store_file r /\ shm x.2 <> shm r /\ name x.2 <> name r).
  { intros x Hx. assert (Hn : name x.2 <> name r).
    { intros E. apply Hnm1. rewrite <- E. apply list_elem_of_fmap. exists x.2. split; [done|]. apply list_elem_of_fmap. by exists x. }
    split_and!; [|intros E|done].
    - intros E. by apply Hn, store_file_inj.
    - apply Hsh1. rewrite <- E. apply list_elem_of_fmap. exists x.2. split; [done|]. apply list_elem_of_fmap. by exists x. }
  destruct (IH s1 (inext r) fuel) as (s' & R' & C'); [done| |done|done| |cbn in Hfuel; lia|].
  { intros x Hx. destruct (Hin x) as (dx & Ex & Sx & Fx); [by apply list_elem_of_further|]. exists dx.
    split_and!; [by rewrite Ei| |done]. rewrite Cs, decide_False; [done|]. intros E%list_elem_of_singleton.
    by destruct (Hother x Hx) as (_ & ? & _). }
  { rewrite Forall_forall in Hall |- *. intros x Hx. destruct (Hall x Hx) as (H1 & H2 & H3). split_and!; [done|done|].
    intros old. rewrite Cf; [apply H3|]. intros E%list_elem_of_singleton. by destruct (Hother x Hx). }
  exists s'. split.
  { cbn [cleanup_loop]. mstep ltac:(apply dinst_ok, A). rewrite R1. exact R'. }
  pose proof C' as [(Ei' & Eg' & Ep') Cn' Cs' Cf' Ck']. split.
  - split_and!; congruence.
  - intros n. rewrite Cn'. cbn [fmap list_fmap]. destruct (decide (n ∈ name <$> l.*2)) as [Hn|Hn].
    + by rewrite decide_True by by apply list_elem_of_further.
    + rewrite Cn. destruct (decide (n ∈ [name r])) as [->%list_elem_of_singleton|Hr].
      * by rewrite decide_True by apply list_elem_of_here.
      * rewrite decide_False; [done|]. intros [->|?]%elem_of_cons; [apply Hr, list_elem_of_here|done].
  - intros k. rewrite Cs'. cbn [fmap list_fmap]. destruct (decide (k ∈ shm <$> l.*2)) as [Hn|Hn].
    + by rewrite decide_True by by apply list_elem_of_further.
    + rewrite Cs. destruct (decide (k ∈ [shm r])) as [->%list_elem_of_singleton|Hr].
      * by rewrite decide_True by apply list_elem_of_here.
      * rewrite decide_False; [done|]. intros [->|?]%elem_of_cons; [apply Hr, list_elem_of_here|done].
  - intros f Hf. cbn [fmap list_fmap] in Hf. rewrite elem_of_cons in Hf.
    rewrite Cf' by tauto. apply Cf. intros ->%list_elem_of_singleton. tauto.
  - intros x dx [->|Hx]%elem_of_cons Hper Hd.
    + destruct (Ck (p, r) dx (list_elem_of_here _ _) Hper Hd) as (d' & Ed & Hd'). exists d'. split; [|done].
      rewrite Cf'; [done|]. intros (r' & E & (x & -> & Hx)%list_elem_of_fmap)%list_elem_of_fmap.
      destruct (Hother x Hx) as (Hne & _). by apply Hne.
    + apply Ck'; [done|done|]. rewrite Cs, decide_False; [done|]. intros E%list_elem_of_singleton.
      by destruct (Hother x Hx) as (_ & ? & _).
Qed.

Lemma cleanup_run s l : undisturbed -> proc s l ->
  Forall (fun x => starts_with_slash (name x.2) = true /\ replaceable s x.2) l ->
  exists s', cleanup_slotmem s = Ok (APR_SUCCESS, set_globallistmem None s') /\ cleaned s s' l /\
    proc (set_globallistmem None s') [].
Proof.
  intros U P Hall. pose proof P as [[G PO] PL PN PS PG PP].
  destruct (cleanup_loop_run s (globallistmem s) l (Datatypes.S (size (insts s)))) as (s' & R & C); try done.
  - intros [p r] Hx. by eapply proc_at_inst.
  - rewrite Forall_forall in Hall, PG |- *. intros x Hx. destruct (PG x Hx) as [? _], (Hall x Hx). done.
  - rewrite (owns_size _ _ PO), length_app. lia.
  - exists s'. split_and!; [|done|].
    + unfold cleanup_slotmem. mstep ltac:(reflexivity). mstep ltac:(reflexivity). by mstep ltac:(exact R).
    + pose proof (cl_same _ _ _ C) as (Ei & Eg & Ep). split; cbn; [|done|constructor..|by rewrite Ep].
      exists (l ++ G). by rewrite Ei.
Qed.

(** ** A slotmem without a name is linked behind the first of the list: what was
    behind it is lost. *)
Lemma create_anonymous s q rq l nm item_size item_num type : undisturbed -> proc s ((q, rq) :: l) ->
  sizes_ok item_size item_num -> 0 <= type < 2 ^ 32 -> slotmem_filename nm false = None ->
  exists p r s', slotmem_create nm item_size item_num type s = Ok ((APR_SUCCESS, Some p), s') /\
    globallistmem s' = Some q /\ insts s' !! q = Some (set_inext (Some p) rq) /\
    insts s' !! p = Some r /\ inext r = None /\ name r = "none"%string /\ gpool s' = true.
Proof.
  intros U P Hok Htype Hf.
  destruct (make_segment_run s false "none" item_size item_num type U Hok Htype) as (d & s1 & R1 & Hs1 & Es1 & _ & Ld & _ & _).
  set (r := new_inst "none" false (new_loc (segs s)) (MkDesc item_size item_num type) AP_SLOTMEM_OFFSET (item_size * item_num)).
  pose proof Hs1 as (Ei & Eg & Ep). 
  destruct (count_run s1 r d (negb (Z.land type AP_SLOTMEM_TYPE_PERSIST =? 0)) item_num) as (d2 & R2 & _).
  { by rewrite Es1, lookup_insert_eq. }
  { by apply new_inst_fits. }
  { done. }
  set (s2 := with_seg (shm r) d2 s1) in *.
  assert (Hg : globallistmem s = Some q) by apply (pr_linked _ _ P).
  assert (Hq : insts s !! q = Some rq) by exact (proc_lookup s _ (q, rq) P (list_elem_of_here _ _)).
  set (p := new_loc (insts s)). assert (Hp : insts s !! p = None) by apply new_loc_fresh.
  assert (Hne : p <> q) by congruence.
  assert (Hqp : <[p := r]> (insts s) !! q = Some rq) by (by rewrite lookup_insert_ne).
  assert (R3 : exists s3, link_inst r (globallistmem s) s2 = Ok (p, s3) /\ globallistmem s3 = Some q /\
      gpool s3 = gpool s /\ insts s3 = <[q := set_inext (Some p) rq]> (<[p := r]> (insts s))).
  { eexists. split_and!.
    - unfold link_inst. rewrite M_bind_eq. cbn [getS].
      change (insts s2) with (insts s1). change (globallistmem s2) with (globallistmem s1).
      rewrite Ei, Eg. rewrite Hg. fold p.
      mstep ltac:(reflexivity). mstep ltac:(unfold assign; mstep ltac:(apply (dinst_ok _ q rq); cbn; by rewrite Ei); reflexivity).
      done.
    - cbn. rewrite Eg. exact Hg.
    - cbn. exact Ep.
    - cbn. by rewrite Ei. }
  destruct R3 as (s3 & R3 & Hg3 & Hp3 & Hi3).
  exists p, r, s3. split_and!; [|done|by rewrite Hi3, lookup_insert_eq| |done..|].
  - unfold slotmem_create. rewrite (sizes_product _ _ Hok), (sizes_total _ _ Hok).
    rewrite M_bind_eq. cbn [getS]. rewrite (pr_pool _ _ P), Hf. cbn [negb].
    mstep ltac:(reflexivity). rewrite bool_decide_false by (intros [? ?]; done).
    mstep ltac:(reflexivity). rewrite decide_False by done.
    mstep ltac:(mstep ltac:(exact R1); rewrite decide_False by (intros Hx; by apply Hx); reflexivity).
    mstep ltac:(exact R2). by mstep ltac:(exact R3).
  - by rewrite Hi3, lookup_insert_ne, lookup_insert_eq.
  - by rewrite Hp3, (pr_pool _ _ P).
Qed.
End create.
