(* ===== verification/SlotmemTheorems.v ===== *)
(** * Apache's slotmem: the theorems

    Sessions of a client on one slotmem, visits, the life of the slotmems of a
    process over a restart of the server, and where the code does not keep its
    count of free slots.  [Little] is a concrete system for the witnesses. *)
From S2P Require Import Prelude Heap Slotmem SlotmemProofs SlotmemOps SlotmemLife SlotmemCreate.
From stdpp Require Import strings.
Open Scope Z_scope.

(** ** A system with little-endian words and files that never fail *)
Module Little.
Fixpoint le (n : nat) (z : Z) : list Z :=
  match n with O => [] | Datatypes.S n' => z mod 256 :: le n' (z / 256) end.

Definition of_le (l : list Z) : Z := foldr (fun b acc => b + 256 * acc) 0 l.

Lemma of_le_le n z : 0 <= z < 256 ^ Z.of_nat n -> of_le (le n z) = z.
Proof.
  revert z. induction n as [|n IH]; intros z Hz; [cbn in *; lia|].
  cbn [le of_le foldr]. fold (of_le (le n (z / 256))). rewrite IH.
  - pose proof (Z.div_mod z 256). lia.
  - rewrite Nat2Z.inj_succ, Z.pow_succ_r in Hz by lia. split; [apply Z.div_pos; lia|]. apply Z.div_lt_upper_bound; lia.
Qed.

Lemma length_le n z : length (le n z) = n.
Proof. revert z. induction n; intros z; cbn; [done|]. by rewrite IHn. Qed.

#[export] Instance apr : Apr := {|
  AP_SLOTMEM_TYPE_PERSIST := 1; AP_SLOTMEM_TYPE_PREGRAB := 4; AP_SLOTMEM_TYPE_CLEARINUSE := 16;
  APR_ALIGN_DEFAULT n := (n + 7) / 8 * 8; sizeof_desc := 16; sizeof_uint := 4;
  desc_bytes d := le 8 (d_size d) ++ le 4 (d_num d) ++ le 4 (d_type d);
  desc_of_bytes l := MkDesc (of_le (take 8 l)) (of_le (take 4 (drop 8 l))) (of_le (take 4 (drop 12 l)));
  uint_bytes n := le 4 n; uint_of_bytes l := of_le l mod 2 ^ 32;
  ap_runtime_dir_relative n := String.append "/run/" n;
  attach_status _ := APR_SUCCESS; create_status _ := APR_SUCCESS;
  fresh_bytes _ n := replicate (Z.to_nat n) 170;
  open_status _ := APR_SUCCESS; info_ok _ := true;
  read_count _ k := k; write_count _ k := k; log_debug := true
|}.

#[export] Instance apr_laws : AprLaws.
Proof.
  split; cbn -[le of_le Z.pow Z.div Z.modulo].
  - lia.
  - intros n Hn. pose proof (Z.div_mod (n + 7) 8). pose proof (Z.mod_pos_bound (n + 7) 8). lia.
  - intros d. unfold zlen. by rewrite !length_app, !length_le.
  - intros [sz num ty]; cbn [d_size d_num d_type]. intros H1 H2 H3.
    rewrite take_app_length', drop_app_length' by by rewrite length_le.
    rewrite (take_app_length' (le 4 num)) by by rewrite length_le.
    change 12%nat with (8 + 4)%nat. rewrite <- drop_drop, drop_app_length' by by rewrite length_le.
    rewrite (drop_app_length' (le 4 num)) by by rewrite length_le.
    rewrite take_ge by by rewrite length_le. rewrite !of_le_le by lia. done.
  - intros n. unfold zlen. by rewrite length_le.
  - intros n Hn. rewrite of_le_le by lia. by apply Z.mod_small.
  - intros l. by apply Z.mod_pos_bound.
  - done.
  - intros _ sz Hsz. rewrite zlen_replicate. lia.
  - done.
Qed.

Lemma apr_undisturbed : undisturbed.
Proof. done. Qed.

(** The state of a process that has no slotmem yet. *)
Definition start : sms := MkSms ∅ None true ∅ ∅ ∅ 0.

Lemma start_proc : proc start [].
Proof.
  split; [|done|constructor..|done]. exists []. unfold owns. cbn [insts start]. by rewrite map_to_list_empty.
Qed.
End Little.

(** ** Sessions *)
Section sessions.
Context `{AP : Apr} `{AL : !AprLaws}.
Implicit Types (r : slotmem_instance) (d : list Z) (s : sms) (v : aslots) (u : list bool) (ops : list slot_op).

Fixpoint run_ops (slot : option loc) ops : M sms cfault (list slot_res) :=
  match ops with
  | [] => mret []
  | op :: ops' => x ← slot_run slot op; xs ← run_ops slot ops'; mret (x :: xs)
  end.

Fixpoint a_run r ops v : list slot_res * aslots :=
  match ops with
  | [] => ([], v)
  | op :: ops' => let '(x, v') := a_step r op v in let '(xs, v'') := a_run r ops' v' in (x :: xs, v'')
  end.

Lemma run_ops_ok s p r d ops : at_inst s p r d -> Forall (op_ok r) ops ->
  exists d', run_ops (Some p) ops s = Ok ((a_run r ops (view r d)).1, with_seg (shm r) d' s) /\
    at_inst (with_seg (shm r) d' s) p r d' /\ view r d' = (a_run r ops (view r d)).2.
Proof.
  revert s d. induction ops as [|op ops IH]; intros s d A Hok.
  - exists d. rewrite (same_seg s p r d A). done.
  - apply Forall_cons in Hok as [Hop Hok]. destruct (op_run s p r d op A Hop) as (x & v & Ea & d1 & R1 & A1 & V1).
    destruct (IH _ d1 A1 Hok) as (d2 & R2 & A2 & V2). rewrite with_seg_twice, V1 in *.
    exists d2. cbn [a_run run_ops]. rewrite Ea. destruct (a_run r ops v) as [xs v2]. cbn [fst snd] in *.
    split_and!; [|done|done]. mstep ltac:(exact R1). by mstep ltac:(exact R2).
Qed.

Lemma a_run_inv r ops v (P : aslots -> Prop) : (forall op w, op ∈ ops -> P w -> P (a_step r op w).2) ->
  P v -> P (a_run r ops v).2.
Proof.
  revert v. induction ops as [|op ops IH]; intros v Hst Hv; [done|]. cbn [a_run].
  pose proof (Hst op v (list_elem_of_here _ _) Hv) as Hv'. destruct (a_step r op v) as [x v'].
  specialize (IH v'). destruct (a_run r ops v') as [xs v'']. apply IH; [|done].
  intros op' w Hop. apply Hst. by apply list_elem_of_further.
Qed.

(** *** The count of free slots *)
Lemma first_free_some u i : first_free u = Some i -> u !! i = Some false.
Proof.
  unfold first_free. destruct (list_find _ u) as [[j b]|] eqn:E; [|done]. cbn. intros [= <-].
  by apply list_find_Some in E as (? & -> & _).
Qed.

Definition counted v : Prop := accounted v /\ Z.of_nat (length (a_used v)) < 2 ^ 32.

Lemma counted_insert v i b : counted v -> a_used v !! i = Some (negb b) ->
  counted (set_used i b (u32 (a_free v + (if b then -1 else 1))) v).
Proof.
  intros [Ha Hl] Hi. split; [|cbn; by rewrite length_insert]. unfold accounted in *. cbn.
  pose proof (unused_insert _ _ _ b Hi) as Hu. pose proof (unused_bounds (<[i := b]> (a_used v))) as Hb.
  rewrite length_insert in Hb. rewrite Hu in *. rewrite Ha. destruct b; cbn [negb] in *; rewrite wrapu_small; lia.
Qed.

Lemma counted_mark v id : counted v -> a_use true id v = APR_SUCCESS -> counted (a_mark id v).
Proof.
  unfold a_use, a_mark. intros [Ha Hl]. destruct (a_used v !! Z.to_nat id) as [[]|] eqn:E; try done. intros _.
  unfold set_used. rewrite list_insert_id by done. by destruct v.
Qed.

Lemma a_step_counted r op v : AP_SLOTMEM_IS_PREGRAB r = true -> counted v -> counted (a_step r op v).2.
Proof.
  intros Hp Hc. destruct op as [|id|id|id len|id bs|id| | | |]; cbn [a_step]; rewrite ?Hp; try done.
  - destruct (first_free _) as [i|] eqn:E; [|done]. apply (counted_insert v i true); [done|]. by apply first_free_some.
  - destruct (a_used v !! _) as [[]|] eqn:E; [done| |done]. by apply (counted_insert v _ true).
  - destruct (a_used v !! _) as [[]|] eqn:E; [|done|done]. by apply (counted_insert v _ false).
  - destruct (a_use true id v) eqn:E; try done. by apply counted_mark.
  - destruct (a_use true id v) eqn:E; try done. pose proof (counted_mark v id Hc E). done.
  - destruct Hc as [Ha Hl]. pose proof (unused_bounds (a_used v)). split; cbn; [|by rewrite length_replicate].
    unfold accounted in *. cbn. rewrite Ha.
    rewrite unused_replicate, wrapu_small by lia. lia.
Qed.

(** *** A slot that is not given back *)
Definition spares (id : Z) (op : slot_op) : Prop :=
  match op with Release id' => Z.to_nat id' <> Z.to_nat id | ClearInuse => False | _ => True end.

Definition leaves (id : Z) (op : slot_op) : Prop :=
  match op with Put id' _ => Z.to_nat id' <> Z.to_nat id | _ => spares id op end.

Lemma set_used_keeps v i j f b : a_used v !! j = Some true -> i <> j \/ b = true ->
  a_used (set_used i b f v) !! j = Some true.
Proof.
  intros Hj Hd. cbn. destruct (decide (i = j)) as [->|Hne]; [|by rewrite list_lookup_insert_ne].
  rewrite list_lookup_insert_eq; [|by eapply lookup_lt_Some]. by destruct Hd as [Hd| ->].
Qed.

Lemma a_step_keeps_used r op v id : spares id op -> a_used v !! Z.to_nat id = Some true ->
  a_used (a_step r op v).2 !! Z.to_nat id = Some true.
Proof.
  intros Hs Hu. destruct op as [|i|i|i len|i bs|i| | | |]; cbn [a_step spares] in *; try done.
  - destruct (first_free _); [|done]. apply set_used_keeps; auto.
  - destruct (a_used v !! Z.to_nat i) as [[]|]; try done. apply set_used_keeps; auto.
  - destruct (a_used v !! Z.to_nat i) as [[]|]; try done. apply set_used_keeps; auto.
  - destruct (a_use _ i v); try done. apply set_used_keeps; auto.
  - destruct (a_use _ i v); try done. exact (set_used_keeps v _ _ _ true Hu (or_intror eq_refl)).
Qed.

Lemma a_step_keeps_slot r op v id : leaves id op -> a_slots (a_step r op v).2 !! Z.to_nat id = a_slots v !! Z.to_nat id.
Proof.
  intros Hs. destruct op as [|i|i|i len|i bs|i| | | |]; cbn [a_step leaves spares] in *; try done.
  - by destruct (first_free _).
  - by destruct (a_used v !! Z.to_nat i) as [[]|].
  - by destruct (a_used v !! Z.to_nat i) as [[]|].
  - by destruct (a_use _ i v).
  - destruct (a_use _ i v); try done. cbn. rewrite list_lookup_alter_ne; done.
Qed.

Lemma leaves_spares id op : leaves id op -> spares id op.
Proof. by destruct op. Qed.
End sessions.

Section theorems.
Context `{AP : Apr} `{AL : !AprLaws}.
Implicit Types (r : slotmem_instance) (d : list Z) (s : sms) (v : aslots) (ops : list slot_op).

(** C4. Any session of legal calls on a slotmem returns without a fault,
    answers call by call what the specification [a_step] says (the lowest free
    slot for a grab, [APR_EINVAL] when all are in use or the slot does not
    exist, [APR_NOTFOUND] for a slot that is not in use), leaves a segment that
    represents the specified slots, table and count, and changes nothing else:
    no other slotmem and nothing of the process. *)
Theorem slotmem_refines s p r d ops : at_inst s p r d -> Forall (op_ok r) ops ->
  exists d', run_ops (Some p) ops s = Ok ((a_run r ops (view r d)).1, with_seg (shm r) d' s) /\
    fits r d' /\ view r d' = (a_run r ops (view r d)).2 /\
    forall q r' e, shm r' <> shm r -> at_inst s q r' e -> at_inst (with_seg (shm r) d' s) q r' e.
Proof.
  intros A Hok. destruct (run_ops_ok s p r d ops A Hok) as (d' & R & A' & V).
  exists d'. split_and!; [done|apply A'|done|]. intros q r' e Hne (Ei & Es & F).
  split_and!; [done|by cbn; rewrite lookup_insert_ne|done].
Qed.

(** In a slotmem whose slots have to be grabbed the count of free slots
    stays the number of slots not in use through any session of legal calls,
    and this is what [slotmem_num_free_slots] answers. *)
Theorem slotmem_count_exact s p r d ops : at_inst s p r d -> Forall (op_ok r) ops ->
  AP_SLOTMEM_IS_PREGRAB r = true -> accounted (view r d) ->
  exists xs s' d', run_ops (Some p) ops s = Ok (xs, s') /\ at_inst s' p r d' /\ accounted (view r d') /\
    slotmem_num_free_slots (Some p) s' = Ok (unused (used_of r d'), s').
Proof.
  intros A Hok Hp Ha. destruct (run_ops_ok s p r d ops A Hok) as (d' & R & A' & V).
  assert (C : counted (view r d')).
  { rewrite V. apply a_run_inv; [intros op w _; by apply a_step_counted|]. split; [done|].
    pose proof (length_used r d (proj2 (proj2 A))) as Hl. cbn. rewrite Hl. apply A. }
  exists (a_run r ops (view r d)).1, (with_seg (shm r) d' s), d'. split_and!; [done|done|apply C|].
  rewrite (num_free_slots_run _ p r d' A'), Hp. do 2 f_equal. apply C.
Qed.

(** What [slotmem_put] stored in a slot is what [slotmem_get] delivers,
    after any session of legal calls that neither gives the slot back nor
    stores in it. *)
Theorem slotmem_put_get s p r d id bs ops : at_inst s p r d -> 0 <= id < dnum r -> zlen bs <= dsize r ->
  (AP_SLOTMEM_IS_PREGRAB r = true -> used_of r d !! Z.to_nat id = Some true) ->
  Forall (op_ok r) ops -> Forall (leaves id) ops ->
  exists s1 xs s2 s3, slotmem_put (Some p) id bs s = Ok (APR_SUCCESS, s1) /\ run_ops (Some p) ops s1 = Ok (xs, s2) /\
    slotmem_get (Some p) id (zlen bs) s2 = Ok ((APR_SUCCESS, bs), s3).
Proof.
  intros A Hid Hbs Hg Hok Hl. pose proof A as (_ & _ & F).
  assert (Hu : a_use (AP_SLOTMEM_IS_PREGRAB r) id (view r d) = APR_SUCCESS).
  { unfold a_use. cbn. destruct (proj1 (used_some r d id F ltac:(lia))) as [b Eb]; [lia|]. rewrite Eb.
    destruct (AP_SLOTMEM_IS_PREGRAB r); [|done]. rewrite Hg in Eb by done. by injection Eb as <-. }
  destruct (put_run s p r d A id bs) as (x & v & Ea & d1 & R1 & A1 & V1); [lia|done|].
  cbn [a_step] in Ea. rewrite Hu in Ea. injection Ea as <- <-.
  apply M_bind_inv in R1 as (rv & s1 & R1 & [= -> ->]).
  destruct (run_ops_ok _ p r d1 ops A1 Hok) as (d2 & R2 & A2 & V2). rewrite with_seg_twice in *.
  set (I := fun w => a_used w !! Z.to_nat id = Some true /\
    a_slots w !! Z.to_nat id = a_slots (view r d1) !! Z.to_nat id).
  assert (HI : I (view r d2)).
  { rewrite V2. rewrite Forall_forall in Hl. apply a_run_inv.
    - intros op w Hop [H1 H2]. pose proof (Hl op Hop) as Hle. split; [|by rewrite a_step_keeps_slot].
      by apply a_step_keeps_used; [apply leaves_spares|].
    - split; [|done]. rewrite V1. cbn. rewrite list_lookup_insert_eq; [done|].
      pose proof (length_used r d F). lia. }
  destruct HI as [I1 I2]. rewrite V1 in I2. cbn [a_write a_slots a_mark set_used] in I2.
  rewrite list_lookup_alter, decide_True, (lookup_slots r d id F Hid) in I2 by done. cbn [fmap option_fmap option_map] in I2.
  destruct (get_run _ p r d2 A2 id (zlen bs)) as (y & w & Eb & d3 & R3 & _); [lia|pose proof (zlen_nonneg bs); lia|].
  assert (Hu2 : a_use (AP_SLOTMEM_IS_PREGRAB r) id (view r d2) = APR_SUCCESS).
  { unfold a_use. rewrite I1. by rewrite andb_false_r. }
  cbn [a_step] in Eb. rewrite Hu2, I2 in Eb. cbn [default from_option] in Eb. injection Eb as <- <-.
  apply M_bind_inv in R3 as ([rv3 bs3] & s3 & R3 & Hr). cbn in Hr. injection Hr as -> -> ->.
  eexists _, _, _, _. split_and!; [exact R1|exact R2|]. rewrite R3. do 2 f_equal. f_equal.
  by apply ztake_app.
Qed.

(** A slot that was grabbed is not handed out again by any later grab until
    it is released or the table is cleared. *)
Theorem slotmem_grab_exclusive s p r d ops i s1 : at_inst s p r d ->
  slotmem_grab (Some p) s = Ok ((APR_SUCCESS, Some i), s1) ->
  Forall (op_ok r) ops -> Forall (spares i) ops ->
  exists xs s2, run_ops (Some p) ops s1 = Ok (xs, s2) /\ RId APR_SUCCESS (Some i) ∉ xs.
Proof.
  intros A Hg Hok Hsp. destruct (grab_run s p r d A) as (x & v & Ea & d1 & R1 & A1 & V1).
  rewrite M_bind_eq, Hg in R1. cbn in R1. injection R1 as <- ->.
  assert (Hi : a_used (view r d1) !! Z.to_nat i = Some true).
  { cbn [a_step] in Ea. destruct (first_free (a_used (view r d))) as [j|] eqn:E; [|done].
    injection Ea as <- <-. rewrite V1, Nat2Z.id. cbn. rewrite list_lookup_insert_eq; [done|].
    eapply lookup_lt_Some. by apply first_free_some. }
  destruct (run_ops_ok _ p r d1 ops A1 Hok) as (d2 & R2 & _ & _).
  eexists _, _. split; [exact R2|]. clear R2 V1. revert Hi. generalize (view r d1). clear -Hsp.
  induction Hsp as [|op ops Hop Hsp IH]; intros w Hw; [by apply not_elem_of_nil|]. cbn [a_run].
  pose proof (a_step_keeps_used r op w i Hop Hw) as Hw'.
  assert (Hx : (a_step r op w).1 <> RId APR_SUCCESS (Some i)).
  { destruct op as [|k|k|k len|k bs|k| | | |]; cbn [a_step]; try done.
    - destruct (first_free (a_used w)) as [j|] eqn:E; [|done]. cbn. intros [= <-].
      apply first_free_some in E. rewrite Nat2Z.id in Hw. congruence.
    - by destruct (a_used w !! Z.to_nat k) as [[]|].
    - by destruct (a_used w !! Z.to_nat k) as [[]|].
    - by destruct (a_use _ k w).
    - by destruct (a_use _ k w).
    - by destruct (a_used w !! Z.to_nat k). }
  destruct (a_step r op w) as [y w']. specialize (IH w' Hw'). destruct (a_run r ops w') as [ys w''].
  cbn [fst snd] in *. rewrite elem_of_cons. intros [<-|?]; [by apply Hx|by apply IH].
Qed.

(** [slotmem_doall] runs the callback on the slots in use (on all slots of
    a slotmem without grabbing), from the lowest on and each once, until the
    callback does not succeed, and gives the callback's last answer. *)
Theorem slotmem_doall_visits s p r d func : at_inst s p r d -> keeps_table p r func ->
  slotmem_doall (Some p) func s =
  run_all ((fun k => func (shm r) (base r + dsize r * Z.of_nat k)) <$> visited r (used_of r d) 0 (Z.to_nat (dnum r))) s.
Proof.
  intros A Hk. unfold slotmem_doall. mstep ltac:(by eapply read_dinst).
  rewrite <- (doall_loop_ok s p r d func _ 0 A Hk) by done. by rewrite Z.mul_0_r, !Z.add_0_r.
Qed.
End theorems.

(** ** The life of a slotmem *)
Section life_theorems.
Context `{AP : Apr} `{AL : !AprLaws}.
Implicit Types (r : slotmem_instance) (d : list Z) (s : sms) (l : list (loc * slotmem_instance)).

Lemma appended_last l p r : (p, r) ∈ appended l p r.
Proof.
  destruct l as [|x l0 _] using rev_ind; [apply list_elem_of_here|]. rewrite appended_snoc. set_solver.
Qed.

Lemma appended_old l p r q rq : (q, rq) ∈ l -> exists rq', (q, rq') ∈ appended l p r /\ name rq' = name rq.
Proof.
  destruct l as [|x l0 _] using rev_ind; [by intros ?%elem_of_nil|]. rewrite appended_snoc.
  intros [Hin|Hin]%elem_of_app; [exists rq; set_solver|]. apply list_elem_of_singleton in Hin as <-.
  exists (set_inext (Some p) rq). split; [|done]. apply elem_of_app. right. apply list_elem_of_here.
Qed.

(** A slotmem of a new name is made once: [slotmem_create] appends it to the
    list of the process (without [PERSIST] with zeroed and free slots and the
    right count), and from then on [slotmem_create] of that name, whatever the
    sizes, and [slotmem_attach] find this instance, and all others of the list
    are still found. *)
Theorem slotmem_create_once s l nm f item_size item_num type :
  undisturbed -> proc s l -> sizes_ok item_size item_num -> 0 <= type < 2 ^ 32 ->
  slotmem_filename nm false = Some f -> f ∉ name <$> l.*2 -> attach_fails s f ->
  exists p r d s', slotmem_create nm item_size item_num type s = Ok ((APR_SUCCESS, Some p), s') /\
    proc s' (appended l p r) /\ at_inst s' p r d /\ desc r = MkDesc item_size item_num type /\
    (AP_SLOTMEM_IS_PERSIST r = false -> accounted (view r d) /\ view r d =
       MkSlots (replicate (Z.to_nat item_num) (replicate (Z.to_nat item_size) 0)) (replicate (Z.to_nat item_num) false) item_num) /\
    (forall size num ty, slotmem_create nm size num ty s' = Ok ((APR_SUCCESS, Some p), s')) /\
    slotmem_attach nm s' = Ok ((APR_SUCCESS, Some (p, item_size, item_num)), s') /\
    (forall q rq nm' size num ty, (q, rq) ∈ l -> slotmem_filename nm' false = Some (name rq) ->
       slotmem_create nm' size num ty s' = Ok ((APR_SUCCESS, Some q), s')).
Proof.
  intros U P Hok Htype Hf Hn Ha.
  destruct (create_new s l nm f item_size item_num type U P Hok Htype Hf Hn Ha) as (d & s' & R & P' & A' & _ & _ & V).
  eexists _, _, d, s'. split_and!; [exact R|exact P'|exact A'|done| | | |].
  - intros Hp. rewrite Hp in V. rewrite V. split; [|done]. unfold accounted. cbn.
    destruct Hok. rewrite unused_replicate. lia.
  - intros. by eapply create_found; [exact P'|apply appended_last|].
  - exact (attach_found s' _ nm _ _ P' (appended_last _ _ _) Hf).
  - intros q rq nm' size num ty Hin Hf'. destruct (appended_old l (new_loc (insts s)) (made s f item_size item_num type) q rq Hin)
      as (rq' & Hin' & En). eapply create_found; [exact P'|exact Hin'|by rewrite En].
Qed.

(** C5. A restart keeps a slotmem with the flag [PERSIST]: after
    [cleanup_slotmem] has run, [slotmem_create] of the same name and sizes gives
    a slotmem with the same bytes in every slot, the same slots in use and the
    same count, or with all slots free if the slotmem is to be cleared.  The calls
    of the system succeed ([undisturbed]), the files of the process's slotmems
    have absolute names and are not longer than what replaces them. *)
Theorem slotmem_restart s l p r d nm : undisturbed -> proc s l ->
  Forall (fun x => starts_with_slash (name x.2) = true /\ replaceable s x.2) l ->
  (p, r) ∈ l -> AP_SLOTMEM_IS_PERSIST r = true -> segs s !! shm r = Some d ->
  sizes_ok (dsize r) (dnum r) -> 0 <= d_type (desc r) < 2 ^ 32 -> slotmem_filename nm false = Some (name r) ->
  exists s1 p' r' d' s2, cleanup_slotmem s = Ok (APR_SUCCESS, s1) /\
    slotmem_create nm (dsize r) (dnum r) (d_type (desc r)) s1 = Ok ((APR_SUCCESS, Some p'), s2) /\
    at_inst s2 p' r' d' /\ view r' d' = stored_view r (view r d).
Proof.
  intros U P Hall Hin Hp Ed Hok Htype Hf.
  destruct (cleanup_run s l U P Hall) as (s' & R & C & P1). set (s1 := set_globallistmem None s') in *.
  destruct (cl_kept _ _ _ C (p, r) d Hin Hp Ed) as (d' & Ef & F' & V). cbn [snd] in *.
  assert (Hname : name r ∈ name <$> l.*2).
  { apply list_elem_of_fmap. exists r. split; [done|]. apply list_elem_of_fmap. by exists (p, r). }
  assert (Ha : attach_fails s1 (name r)).
  { right. cbn. by rewrite (cl_names _ _ _ C), decide_True. }
  destruct (create_new s1 [] nm (name r) (dsize r) (dnum r) (d_type (desc r)) U P1 Hok Htype Hf) as
    (d2 & s2 & R2 & _ & A2 & _ & _ & T); [by apply not_elem_of_nil|done|].
  exists s1. eexists _, _, d2, s2. split_and!; [exact R|exact R2|exact A2|].
  rewrite <- V. pose proof A2 as (_ & _ & F2).
  assert (Hper : AP_SLOTMEM_IS_PERSIST (made s1 (name r) (dsize r) (dnum r) (d_type (desc r))) = true) by exact Hp.
  rewrite Hper in T. apply (view_tail _ r d2 d' F2 F'); [done|done|]. rewrite T.
  rewrite Forall_forall in Hall. destruct (Hall _ Hin) as [Hslash _]. cbn [snd] in Hslash.
  unfold initial_tail. unfold AP_SLOTMEM_IS_PERSIST, has_type in Hp. apply negb_true_iff in Hp. rewrite Hp.
  rewrite (slash_filename _ Hslash). fold (store_file r).
  assert (Ef1 : files s1 !! store_file r = Some (seg_tail d')) by exact Ef. rewrite Ef1.
  assert (Hz : zlen (seg_tail d') = zlen d2 - AP_SLOTMEM_OFFSET).
  { rewrite (ft_len _ _ F2). unfold seg_tail. pose proof F' as []. pose proof offsets. pose proof sizeof_pos.
    unfold segment_size in *. assert (0 <= dsize r * dnum r) by (apply Z.mul_nonneg_nonneg; lia).
    rewrite zlen_zdrop by lia. rewrite ft_len. done. }
  by rewrite Hz, Z.eqb_refl.
Qed.

(** ** Where the count of free slots is wrong *)
(** A slotmem with the flag [PERSIST] that no file holds yet starts with the
    count 0 although all its slots are free: [slotmem_create] takes the failed
    restore for a restored slotmem.  In one whose slots have to be grabbed
    [slotmem_num_free_slots] answers 0, and the first grab succeeds and makes
    the count 2^32 - 1. *)
Theorem slotmem_persist_first s l nm f item_size item_num type :
  undisturbed -> proc s l -> sizes_ok item_size item_num -> 0 <= type < 2 ^ 32 -> 0 < item_num ->
  slotmem_filename nm false = Some f -> f ∉ name <$> l.*2 -> attach_fails s f ->
  Z.land type AP_SLOTMEM_TYPE_PERSIST <> 0 -> Z.land type AP_SLOTMEM_TYPE_PREGRAB <> 0 ->
  (forall sf, slotmem_filename (Some f) true = Some sf -> files s !! sf = None) ->
  exists p s' s2, slotmem_create nm item_size item_num type s = Ok ((APR_SUCCESS, Some p), s') /\
    slotmem_num_free_slots (Some p) s' = Ok (0, s') /\
    slotmem_grab (Some p) s' = Ok ((APR_SUCCESS, Some 0), s2) /\
    slotmem_num_free_slots (Some p) s2 = Ok (2 ^ 32 - 1, s2).
Proof.
  intros U P Hok Htype Hnum Hf Hn Ha Hp Hg Hfile.
  destruct (create_new s l nm f item_size item_num type U P Hok Htype Hf Hn Ha) as (d & s' & R & P' & A' & _ & _ & T).
  set (r := made s f item_size item_num type) in *. set (p := new_loc (insts s)) in *.
  assert (Ep : AP_SLOTMEM_IS_PERSIST r = true) by (apply negb_true_iff, Z.eqb_neq, Hp).
  assert (Eg : AP_SLOTMEM_IS_PREGRAB r = true) by (apply negb_true_iff, Z.eqb_neq, Hg).
  rewrite Ep in T. pose proof A' as (_ & _ & F').
  assert (V : view r d = empty_slots item_size item_num).
  { apply (view_zeros r d F'). rewrite T. unfold initial_tail. rewrite (proj2 (Z.eqb_neq _ _) Hp).
    destruct (slotmem_filename (Some f) true) as [sf|]; [rewrite (Hfile sf) by done|]; by rewrite length_replicate. }
  assert (Ef : free_of r d = 0) by (by apply (f_equal a_free) in V).
  destruct (grab_run s' p r d A') as (x & v & Ea & d2 & R2 & A2 & V2).
  rewrite V in Ea. destruct (Z.to_nat item_num) as [|k] eqn:Ek; [lia|].
  assert (Ea' : a_step r Grab (empty_slots item_size item_num) =
      (RId APR_SUCCESS (Some 0), set_used 0 true (2 ^ 32 - 1) (empty_slots item_size item_num))).
  { cbn [a_step a_used empty_slots]. rewrite Ek. done. }
  rewrite Ea' in Ea. injection Ea as <- <-.
  apply M_bind_inv in R2 as ([rv i] & s2 & R2 & Hr). cbn in Hr. injection Hr as -> -> ->.
  exists p, s', (with_seg (shm r) d2 s'). split_and!; [done| |done|].
  - rewrite (num_free_slots_run _ p r d A'), Eg, Ef. done.
  - rewrite (num_free_slots_run _ p r d2 A2), Eg. apply (f_equal a_free) in V2.
    change (free_of r d2 = 2 ^ 32 - 1) in V2. by rewrite V2.
Qed.

(** [slotmem_create] on a segment that another process uses sets the count to
    the number of slots: with a slot in use it is too large afterwards, and the
    slots in use stay in use. *)
Theorem slotmem_reattach_count s l nm f k d item_size item_num type type' :
  proc s l -> slotmem_filename nm false = Some f -> offered s l f k d item_size item_num type ->
  let r := attached f k item_size item_num type in
  true ∈ used_of r d ->
  exists p d' s', slotmem_create nm item_size item_num type' s = Ok ((APR_SUCCESS, Some p), s') /\
    at_inst s' p r d' /\ used_of r d' = used_of r d /\ free_of r d' = item_num /\ unused (used_of r d') < item_num.
Proof.
  intros P Hf O r Hu.
  destruct (create_attach_run s l nm f k d item_size item_num type type' P Hf O) as (d' & s' & R & _ & A' & V).
  eexists _, d', s'. split_and!; [exact R|exact A'|by apply (f_equal a_used) in V|by apply (f_equal a_free) in V|].
  apply (f_equal a_used) in V. change (used_of r d' = used_of r d) in V. rewrite V.
  apply list_elem_of_lookup in Hu as [i Hi]. pose proof A' as (_ & _ & F').
  pose proof (length_used r d' F') as Hl. rewrite V in Hl. change (dnum r) with item_num in Hl.
  pose proof (unused_insert _ _ _ false Hi) as Hins. pose proof (unused_bounds (<[i := false]> (used_of r d))) as Hb.
  rewrite length_insert in Hb. cbn in Hins. lia.
Qed.

(** A slotmem without a name is linked behind the first one of the list: the
    others are not found any more. *)
Theorem slotmem_anonymous_loses s q rq l nm item_size item_num type x :
  undisturbed -> proc s ((q, rq) :: l) -> sizes_ok item_size item_num -> 0 <= type < 2 ^ 32 ->
  slotmem_filename nm false = None -> x ∈ l -> name x.2 <> "none"%string ->
  exists p s', slotmem_create nm item_size item_num type s = Ok ((APR_SUCCESS, Some p), s') /\
    search (globallistmem s) (name x.2) s = Ok ((Some x.1, Some x.1), s) /\
    search (globallistmem s') (name x.2) s' = Ok ((None, Some p), s').
Proof.
  intros U P Hok Htype Hf Hx Hnone.
  destruct (create_anonymous s q rq l nm item_size item_num type U P Hok Htype Hf) as
    (p & r & s' & R & Hg & Iq & Ip & Hr & Hn & _).
  exists p, s'. split_and!; [done| |].
  - destruct x as [px rx]. apply (search_found s _ px rx P). by apply list_elem_of_further.
  - unfold search. rewrite Hg. mstep ltac:(reflexivity).
    assert (Hne : name rq <> name x.2).
    { pose proof (pr_names _ _ P) as Hnd. cbn in Hnd. apply NoDup_cons in Hnd as [Hnd _]. intros E. apply Hnd.
      rewrite E. apply list_elem_of_fmap. exists x.2. split; [done|]. apply list_elem_of_fmap. by exists x. }
    assert (Hsize : exists n, size (insts s') = Datatypes.S n).
    { destruct (size (insts s')) eqn:E; [|by eexists]. apply map_size_empty_inv in E. rewrite E in Ip. done. }
    destruct Hsize as [n Hsize]. change (the_heap s') with (insts s'). rewrite Hsize. cbn [find_inst]. mstep ltac:(by apply dinst_ok). cbn [name set_inext inext].
    rewrite (proj2 (String.eqb_neq _ _) Hne). mstep ltac:(by apply dinst_ok).
    rewrite Hn, Hr. by rewrite (proj2 (String.eqb_neq _ _)) by (intros E; by apply Hnone).
Qed.

(** With debug messages on, a release of a slot that does not exist reads the
    table out of bounds to print it. *)
Theorem slotmem_release_out_of_bounds s p r d id : at_inst s p r d -> dnum r <= id -> log_debug = true ->
  slotmem_release (Some p) id s = Err OutOfBounds.
Proof.
  intros A Hid Hlog. pose proof A as (Ei & Es & F). unfold slotmem_release. mstep ltac:(by apply dinst_ok).
  fold (dnum r). rewrite (proj2 (Z.geb_le _ _)) by lia. mstep ltac:(reflexivity). rewrite Hlog.
  assert (Hlen : zlen d = inuse r + dnum r).
  { rewrite (ft_len r d F), (ft_inuse r d F). unfold segment_size. lia. }
  assert (R : read_byte (shm r) (inuse r + id) s = Err OutOfBounds); [|by rewrite !M_bind_eq, R].
  unfold read_byte, read_seg. rewrite !M_bind_eq. cbn. rewrite Es.
  destruct (_ <=? zlen d) eqn:E; [apply Z.leb_le in E; lia|]. by rewrite andb_false_r.
Qed.
End life_theorems.

(** ** A balancer with three slots of four bytes *)
Module Balancer.
Import Little.

Definition file : string := "/run/slotmem-shm-bal.shm".
Definition bal (type : Z) : slotmem_instance := MkInst file true 1%nat 24 36 16 16 (MkDesc 4 3 type) None.
(** Slot 1 is in use and holds 7, 8, 9, 10. *)
Definition bytes (type : Z) : list Z :=
  [4; 0; 0; 0; 0; 0; 0; 0; 3; 0; 0; 0; type; 0; 0; 0; 2; 0; 0; 0; 0; 0; 0; 0;
   0; 0; 0; 0; 7; 8; 9; 10; 0; 0; 0; 0; 0; 1; 0].
Definition state (type : Z) : sms :=
  MkSms {[1%nat := bal type]} (Some 1%nat) true {[1%nat := bytes type]} {[file := 1%nat]} ∅ 0.

Lemma bal_at type : at_inst (state type) 1%nat (bal type) (bytes type).
Proof. split_and!; [reflexivity..|]. split; cbn; try reflexivity; lia. Qed.

Lemma bal_proc type : proc (state type) [(1%nat, bal type)].
Proof.
  split; try reflexivity.
  - exists []. unfold owns. cbn [insts state]. by rewrite map_to_list_singleton.
  - done.
  - apply NoDup_singleton.
  - apply NoDup_singleton.
  - constructor; [|constructor]. split; [done|]. exists (bytes type). apply bal_at.
Qed.

Lemma bal_sizes : sizes_ok 4 3.
Proof. by split. Qed.

Ltac legal := repeat (apply Forall_cons; split); try apply Forall_nil; cbn; try done; unfold dnum, dsize; cbn; lia.

Lemma slotmem_refines_witness : exists d', run_ops (Some 1%nat) [Grab; Put 0 [5]; Get 1 4; Release 2; Fgrab 9] (state 4) =
    Ok ([RId APR_SUCCESS (Some 0); RStatus APR_SUCCESS; RBytes APR_SUCCESS [7; 8; 9; 10]; RStatus APR_NOTFOUND; RStatus APR_EINVAL],
        with_seg 1%nat d' (state 4)) /\ fits (bal 4) d'.
Proof.
  destruct (slotmem_refines (state 4) 1%nat (bal 4) (bytes 4) [Grab; Put 0 [5]; Get 1 4; Release 2; Fgrab 9] (bal_at 4))
    as (d' & R & F & _).
  - legal.
  - exists d'. split; [exact R|exact F].
Defined.

Lemma slotmem_count_exact_witness : exists xs s' d', run_ops (Some 1%nat) [Grab; Release 1; ClearInuse; Grab] (state 4) = Ok (xs, s') /\
  at_inst s' 1%nat (bal 4) d' /\ accounted (view (bal 4) d').
Proof.
  destruct (slotmem_count_exact (state 4) 1%nat (bal 4) (bytes 4) [Grab; Release 1; ClearInuse; Grab] (bal_at 4))
    as (xs & s' & d' & R & A & C & _); [legal|reflexivity|reflexivity|].
  exists xs, s', d'. split; [exact R|]. split; [exact A|exact C].
Defined.

Lemma slotmem_put_get_witness : exists s1 xs s2 s3, slotmem_put (Some 1%nat) 1 [1; 2; 3] (state 4) = Ok (APR_SUCCESS, s1) /\
  run_ops (Some 1%nat) [Grab; Put 0 [9; 9; 9; 9]; Grab; Release 0] s1 = Ok (xs, s2) /\
  slotmem_get (Some 1%nat) 1 3 s2 = Ok ((APR_SUCCESS, [1; 2; 3]), s3).
Proof.
  apply (slotmem_put_get (state 4) 1%nat (bal 4) (bytes 4) 1 [1; 2; 3] [Grab; Put 0 [9; 9; 9; 9]; Grab; Release 0] (bal_at 4)).
  - split; reflexivity || discriminate.
  - discriminate.
  - reflexivity.
  - legal.
  - repeat constructor; cbn; lia.
Defined.

Lemma slotmem_grab_exclusive_witness : exists s1 xs s2, slotmem_grab (Some 1%nat) (state 4) = Ok ((APR_SUCCESS, Some 0), s1) /\
  run_ops (Some 1%nat) [Grab; Release 1; Grab] s1 = Ok (xs, s2) /\ RId APR_SUCCESS (Some 0) ∉ xs.
Proof.
  destruct (slotmem_grab (Some 1%nat) (state 4)) as [[x s1]| |] eqn:E; [|by vm_compute in E..].
  assert (Hx : (match slotmem_grab (Some 1%nat) (state 4) with Ok (x, _) => x | _ => (APR_EINVAL, None) end) = (APR_SUCCESS, Some 0))
    by (vm_compute; reflexivity).
  rewrite E in Hx. subst x. exists s1.
  destruct (slotmem_grab_exclusive (state 4) 1%nat (bal 4) (bytes 4) [Grab; Release 1; Grab] 0 s1 (bal_at 4) E)
    as (xs & s2 & R & Hn); [legal|repeat constructor; cbn; lia|].
  exists xs, s2. split; [reflexivity|]. split; [exact R|exact Hn].
Defined.

(** A callback that reads the first byte of the slot. *)
Definition peek (l : loc) (off : Z) : M sms cfault apr_status_t :=
  b ← read_byte l off; mret (if b =? 0 then APR_SUCCESS else APR_ERROR b).

Lemma slotmem_doall_visits_witness :
  slotmem_doall (Some 1%nat) peek (state 4) = run_all [peek 1%nat 28] (state 4) /\
  run_all [peek 1%nat 28] (state 4) = Ok (APR_ERROR 7, state 4).
Proof.
  split; [|reflexivity].
  apply (slotmem_doall_visits (state 4) 1%nat (bal 4) (bytes 4) peek (bal_at 4)).
  intros s d i rv s' A Hi R. exists d. apply M_bind_inv in R as (b & s1 & R & Hr). injection Hr as _ <-.
  unfold read_byte, read_seg in R. rewrite !M_bind_eq in R. cbn in R. destruct A as (Ei & Es & F).
  change (segs s !! 1%nat = Some d) in Es. rewrite Es in R.
  destruct (_ && _ && _); [|discriminate]. cbn in R. injection R as _ <-. done.
Defined.

Lemma slotmem_create_once_witness : exists p r d s', slotmem_create (Some "other"%string) 8 2 4 (state 4) = Ok ((APR_SUCCESS, Some p), s') /\
  at_inst s' p r d /\ slotmem_attach (Some "other"%string) s' = Ok ((APR_SUCCESS, Some (p, 8, 2)), s').
Proof.
  destruct (slotmem_create_once (state 4) _ (Some "other"%string) "/run/slotmem-shm-other.shm" 8 2 4 apr_undisturbed (bal_proc 4))
    as (p & r & d & s' & R & _ & A & _ & _ & _ & R' & _).
  - by split.
  - lia.
  - reflexivity.
  - intros H%list_elem_of_singleton. discriminate.
  - by right.
  - exists p, r, d, s'. split; [exact R|]. split; [exact A|exact R'].
Defined.

Lemma slotmem_restart_witness : exists s1 p' r' d' s2, cleanup_slotmem (state 5) = Ok (APR_SUCCESS, s1) /\
  slotmem_create (Some "bal"%string) 4 3 5 s1 = Ok ((APR_SUCCESS, Some p'), s2) /\ at_inst s2 p' r' d' /\
  view r' d' = MkSlots [[0; 0; 0; 0]; [7; 8; 9; 10]; [0; 0; 0; 0]] [false; true; false] 2.
Proof.
  destruct (slotmem_restart (state 5) [(1%nat, bal 5)] 1%nat (bal 5) (bytes 5) (Some "bal"%string) apr_undisturbed (bal_proc 5))
    as (s1 & p' & r' & d' & s2 & R1 & R2 & A & V).
  - constructor; [|constructor]. split; [done|]. intros old Hold. by vm_compute in Hold.
  - apply list_elem_of_here.
  - reflexivity.
  - reflexivity.
  - exact bal_sizes.
  - cbn. lia.
  - reflexivity.
  - exists s1, p', r', d', s2. split; [exact R1|]. split; [exact R2|]. split; [exact A|]. rewrite V. vm_compute. reflexivity.
Defined.

Lemma slotmem_persist_first_witness : exists p s' s2, slotmem_create (Some "bal"%string) 4 3 5 start = Ok ((APR_SUCCESS, Some p), s') /\
  slotmem_num_free_slots (Some p) s' = Ok (0, s') /\
  slotmem_grab (Some p) s' = Ok ((APR_SUCCESS, Some 0), s2) /\ slotmem_num_free_slots (Some p) s2 = Ok (4294967295, s2).
Proof.
  apply (slotmem_persist_first start [] (Some "bal"%string) file 4 3 5 apr_undisturbed start_proc).
  - exact bal_sizes.
  - lia.
  - lia.
  - reflexivity.
  - by apply not_elem_of_nil.
  - by right.
  - discriminate.
  - discriminate.
  - intros sf _. reflexivity.
Defined.

Lemma slotmem_reattach_count_witness : exists p d' s', slotmem_create (Some "bal"%string) 4 3 4 (set_globallistmem None (state 4)) =
    Ok ((APR_SUCCESS, Some p), s') /\ at_inst s' p (attached file 1%nat 4 3 4) d' /\ unused (used_of (attached file 1%nat 4 3 4) d') < 3.
Proof.
  destruct (slotmem_reattach_count (set_globallistmem None (state 4)) [] (Some "bal"%string) file 1%nat (bytes 4) 4 3 4 4)
    as (p & d' & s' & R & A & _ & _ & Hlt).
  - split; try done; [|constructor..].
    exists [(1%nat, bal 4)]. unfold owns. cbn [insts state set_globallistmem]. by rewrite map_to_list_singleton.
  - reflexivity.
  - split; try done; by apply not_elem_of_nil.
  - vm_compute. apply list_elem_of_further, list_elem_of_here.
  - exists p, d', s'. split; [exact R|]. split; [exact A|exact Hlt].
Defined.
End Balancer.
