(* ===== verification/GpUtil.v ===== *)
(** * gnuplot: tokens and strings ([util.c])

    A command line is the array [input_line] with the tokens the scanner found
    in it: a token is a piece of the line or a number with its value.  Characters
    are their codes; a string constant of the source is [chars] of it.  The
    functions that work on a string in place are state transformers on the bytes
    of the array that holds it, NUL included.

    [int_error] prints a message and gives control back to the command line: it
    is the exception [IntError] with the number of the token it points at, [-1]
    for [NO_CARET].  [TableFault] is an access outside an action table.  [dbl], the type [double], and the functions of the
    mathematical library are parameters, fields of the class [Doubles]; the
    character classes are those of the C locale. *)
From S2P Require Import Prelude.
From stdpp Require Import strings.
Open Scope Z_scope.

Inductive gperr := IntError (t : Z) | TableFault | GpFault (f : cfault).

Class Doubles := {
  dbl : Type;
  dbl_of_int : Z -> dbl; int_of_dbl : dbl -> Z;
  dbl_add : dbl -> dbl -> dbl; dbl_mul : dbl -> dbl -> dbl; dbl_opp : dbl -> dbl;
  dbl_sqrt : dbl -> dbl; dbl_atan2 : dbl -> dbl -> dbl;
  dbl_ltb : dbl -> dbl -> bool; dbl_leb : dbl -> dbl -> bool; dbl_eqb : dbl -> dbl -> bool;
  M_PI : dbl; VERYLARGE : dbl; atof : list Z -> dbl
}.

Inductive value `{Doubles} :=
  | INTGR (int_val : Z)
  | CMPLX (re im : dbl)
  | STRING (string_val : list Z).

Record lexical_unit `{Doubles} := MkToken {
  is_token : bool; l_val : value; start_index : nat; tok_length : nat
}.

Definition chars (s : string) : list Z := (fun c => Z.of_nat (Ascii.nat_of_ascii c)) <$> String.list_ascii_of_string s.

Definition isspace (c : Z) : bool := ((9 <=? c) && (c <=? 13)) || (c =? 32).
Definition isupper (c : Z) : bool := (65 <=? c) && (c <=? 90).
Definition islower (c : Z) : bool := (97 <=? c) && (c <=? 122).
Definition isalpha (c : Z) : bool := isupper c || islower c.
Definition tolower (c : Z) : Z := if isupper c then c + 32 else c.

Section tokens.
Context `{Doubles}.
Context (input_line : list Z) (token : list lexical_unit).

Abbreviation R := (res gperr).

Definition line_at (i : Z) : R Z :=
  if i <? 0 then Err (GpFault OutOfBounds)
  else match input_line !! Z.to_nat i with Some c => Ok c | None => Err (GpFault OutOfBounds) end.

Definition token_at (t : nat) : R lexical_unit :=
  match token !! t with Some u => Ok u | None => Err (GpFault OutOfBounds) end.

(** [str[i]] of a C string. *)
Definition str_at (str : list Z) (i : nat) : R Z :=
  match str !! i with
  | Some c => Ok c
  | None => if (i =? length str)%nat then Ok 0 else Err (GpFault OutOfBounds)
  end.

Fixpoint chr_loop (n : nat) (start c : Z) : R bool :=
  match n with
  | O => Ok false
  | S n' => x ← line_at start; if x =? c then Ok true else chr_loop n' (start + 1) c
  end.

Definition chr_in_str (t_num : nat) (c : Z) : R bool :=
  u ← token_at t_num;
  if negb (is_token u) then Ok false else chr_loop (tok_length u) (Z.of_nat (start_index u)) c.

Fixpoint equals_loop (n : nat) (start : Z) (str : list Z) (i : nat) : R bool :=
  match n with
  | O => c ← str_at str i; Ok (c =? 0)
  | S n' =>
      x ← line_at (start + Z.of_nat i);
      c ← str_at str i;
      if negb (x =? c) then Ok false else equals_loop n' start str (S i)
  end.

Definition tok_equals (t_num : nat) (str : list Z) : R bool :=
  u ← token_at t_num;
  if negb (is_token u) then Ok false else equals_loop (tok_length u) (Z.of_nat (start_index u)) str 0.

(** The number of rounds is at most [length + 1]: [after] is 0 or 1. *)
Fixpoint almost_loop (fuel len after : nat) (start : Z) (str : list Z) (i : nat) : R bool :=
  match fuel with
  | O => Timeout
  | S f =>
      if (i <? len + after)%nat then
        c ← str_at str i;
        x ← line_at (start + Z.of_nat i);
        if c =? x then almost_loop f len after start str (S i)
        else if negb (c =? 36) then Ok false
        else almost_loop f len 1 (start - 1) str (S i)
      else
        if negb (after =? 0)%nat then Ok true else
        c ← str_at str i; Ok ((c =? 36) || (c =? 0))
  end.

Definition almost_equals (t_num : nat) (str : list Z) : R bool :=
  u ← token_at t_num;
  if negb (is_token u) then Ok false
  else almost_loop (tok_length u + 2) (tok_length u) 0 (Z.of_nat (start_index u)) str 0.

Definition isstring (t_num : nat) : R bool :=
  u ← token_at t_num;
  if negb (is_token u) then Ok false else
  c ← line_at (Z.of_nat (start_index u)); Ok ((c =? 39) || (c =? 34)).

Definition isanumber (t_num : nat) : R bool := u ← token_at t_num; Ok (negb (is_token u)).

Definition isletter (t_num : nat) : R bool :=
  u ← token_at t_num;
  if negb (is_token u) then Ok false else
  c ← line_at (Z.of_nat (start_index u)); Ok (isalpha c || (c =? 95)).

(** The rest of the list of dummy variables and what follows it. *)
Fixpoint definition_loop (fuel : nat) (t_num : nat) : R bool :=
  match fuel with
  | O => Timeout
  | S f =>
      comma ← tok_equals t_num (chars ",");
      if (comma : bool) then
        l ← isletter (t_num + 1);
        if negb l then Ok false else definition_loop f (t_num + 2)
      else
        close ← tok_equals t_num (chars ")");
        if negb close then Ok false else tok_equals (t_num + 1) (chars "=")
  end.

Definition is_definition (t_num : nat) : R bool :=
  l ← isletter t_num;
  if negb l then Ok false else
  eq ← tok_equals (t_num + 1) (chars "=");
  if (eq : bool) then Ok true else
  open ← tok_equals (t_num + 1) (chars "(");
  if negb open then Ok false else
  l2 ← isletter (t_num + 2);
  if negb l2 then Ok false else definition_loop (S (length token)) (t_num + 3).

(** *** Copying tokens *)
(** [do str[i++] = input_line[start++]; while (i != count)] into [max] cells. *)
Fixpoint copy_loop (fuel : nat) (i start count max : Z) : R (list Z) :=
  match fuel with
  | O => Timeout
  | S f =>
      if max <=? i then Err (GpFault OutOfBounds) else
      c ← line_at start;
      if i + 1 =? count then Ok [c] else
      rest ← copy_loop f (i + 1) (start + 1) count max; Ok (c :: rest)
  end.

(** The string, or a fault when the NUL has no cell. *)
Definition copy_str (t_num : nat) (max : Z) : R (list Z) :=
  u ← token_at t_num;
  let count := if max <=? Z.of_nat (tok_length u) then max - 1 else Z.of_nat (tok_length u) in
  copy_loop (S (length input_line)) 0 (Z.of_nat (start_index u)) count max.

Definition token_len (t_num : nat) : R Z := u ← token_at t_num; Ok (Z.of_nat (tok_length u)).

(** From [i] to [e] or the end of the line. *)
Fixpoint capture_loop (n : nat) (i : Z) : R (list Z) :=
  match n with
  | O => Ok []
  | S n' =>
      c ← line_at i;
      if c =? 0 then Ok [] else rest ← capture_loop n' (i + 1); Ok (c :: rest)
  end.

Definition capture (start end_ : nat) (max : Z) : R (list Z) :=
  u ← token_at end_;
  v ← token_at start;
  let b := Z.of_nat (start_index v) in
  let e := Z.of_nat (start_index u) + Z.of_nat (tok_length u) in
  let e := if max <=? e - b then b + max - 1 else e in
  capture_loop (Z.to_nat (e - b)) b.

Definition m_capture (start end_ : nat) : R (list Z) :=
  u ← token_at end_;
  v ← token_at start;
  let b := Z.of_nat (start_index v) in
  capture_loop (Z.to_nat (Z.of_nat (start_index u) + Z.of_nat (tok_length u) - b)) b.
End tokens.

(** ** Strings in place *)
Section in_place.
Abbreviation T := (M (list Z) cfault).

Fixpoint lower_loop (fuel : nat) (p : Z) : T unit :=
  match fuel with
  | O => fun _ => Timeout
  | S f =>
      c ← zload p;
      if c =? 0 then mret tt else
      (if isupper c then zstore p (tolower c) else mret tt) ;;
      lower_loop f (p + 1)
  end.

Definition lower_case : T unit := mem ← getS; lower_loop (S (length mem)) 0.

(** [r] is the reading point, [w] the writing point. *)
Fixpoint squash_loop (fuel : nat) (r w : Z) (space : bool) : T unit :=
  match fuel with
  | O => fun _ => Timeout
  | S f =>
      c ← zload r;
      if c =? 0 then zstore w 0
      else if isspace c then
        if negb space then zstore w 32 ;; squash_loop f (r + 1) (w + 1) true
        else squash_loop f (r + 1) w space
      else zstore w c ;; squash_loop f (r + 1) (w + 1) false
  end.

Definition squash_spaces : T unit := mem ← getS; squash_loop (S (length mem)) 0 0 false.

Definition is_octal (c : Z) : bool := (48 <=? c) && (c <=? 55).

(** [sscanf(s, "%o%n", &i, &n)] from a digit on: the number and how many
    characters it takes.  A number that does not fit is undefined. *)
Fixpoint scan_octal (fuel : nat) (s i n : Z) : T (Z * Z) :=
  match fuel with
  | O => fun _ => Timeout
  | S f =>
      c ← zload s;
      if is_octal c then
        let i' := 8 * i + (c - 48) in
        if 2 ^ 32 <=? i' then throw Aborted else scan_octal f (s + 1) i' (n + 1)
      else mret (i, n)
  end.

(** The character a backslash and the character [c] stand for. *)
Definition simple_esc (c : Z) : option Z :=
  if c =? 92 then Some 92 else if c =? 110 then Some 10 else if c =? 114 then Some 13
  else if c =? 116 then Some 9 else if c =? 34 then Some 34 else None.

Fixpoint esc_loop (fuel : nat) (s t : Z) : T unit :=
  match fuel with
  | O => fun _ => Timeout
  | S f =>
      c ← zload s;
      if c =? 0 then zstore t 0
      else if c =? 92 then
        c1 ← zload (s + 1);
        match simple_esc c1 with
        | Some x => zstore t x ;; esc_loop f (s + 2) (t + 1)
        | None =>
            if is_octal c1 then
              mem ← getS;
              r ← scan_octal (S (length mem)) (s + 1) 0 0;
              zstore t (u8 r.1) ;; esc_loop f (s + 1 + r.2) (t + 1)
            else esc_loop f (s + 1) t
        end
      else zstore t c ;; esc_loop f (s + 1) (t + 1)
  end.

Definition parse_esc : T unit := mem ← getS; esc_loop (S (length mem)) 0 0.
End in_place.

(** The string at the start of an array. *)
Fixpoint c_string (mem : list Z) : list Z :=
  match mem with [] => [] | c :: mem' => if c =? 0 then [] else c :: c_string mem' end.

(** A function on a string of its own. *)
Definition on_string (f : M (list Z) cfault unit) (s : list Z) : res gperr (list Z) :=
  match f (s ++ [0]) with
  | Ok (_, mem) => Ok (c_string mem)
  | Err e => Err (GpFault e)
  | Timeout => Timeout
  end.

Section quotes.
Context `{Doubles}.
Context (input_line : list Z) (token : list lexical_unit).

Definition unescape (t_num : nat) (str : list Z) : res gperr (list Z) :=
  u ← token_at token t_num;
  q ← line_at input_line (Z.of_nat (start_index u));
  if q =? 34 then on_string parse_esc str else Ok str.

Definition quote_str (t_num : nat) (max : Z) : res gperr (list Z) :=
  u ← token_at token t_num;
  let count := Z.of_nat (tok_length u) - 2 in
  let count := if max <=? count then max - 1 else count in
  str ← (if 0 <? count
         then copy_loop input_line (S (length input_line)) 0 (Z.of_nat (start_index u) + 1) count max
         else Ok []);
  unescape t_num str.

Definition m_quote_capture (start end_ : nat) : res gperr (list Z) :=
  u ← token_at token end_;
  v ← token_at token start;
  let b := Z.of_nat (start_index v) + 1 in
  let e := Z.of_nat (start_index u) + Z.of_nat (tok_length u) - 1 in
  str ← capture_loop input_line (Z.to_nat (e - b)) b;
  unescape start str.
End quotes.
