(* ===== verification/GpUtilProofs.v ===== *)
(** * gnuplot: lemmas on tokens and strings

    [good r]: a look at a token returns, perhaps with an error that is not one of
    the action table.  The in-place functions are given by functions on lists. *)
From S2P Require Import Prelude GpUtil.
From stdpp Require Import strings.
Open Scope Z_scope.

(** ** Reads of tokens *)
Definition read_error (e : gperr) : Prop := e <> TableFault /\ e <> GpFault NullDeref.

Definition good {A} (r : res gperr A) : Prop :=
  match r with Ok _ => True | Err e => read_error e | Timeout => False end.

Lemma good_bind {A B} (r : res gperr A) (f : A -> res gperr B) :
  good r -> (forall a, r = Ok a -> good (f a)) -> good (mbind f r).
Proof. destruct r; cbn; auto. Qed.

Lemma out_of_bounds : read_error (GpFault OutOfBounds).
Proof. by split. Qed.

Section tokens.
Context `{Doubles}.
Context (input_line : list Z) (token : list lexical_unit).

Lemma good_line_at i : good (line_at input_line i).
Proof. unfold line_at. destruct (i <? 0); [apply out_of_bounds|]. destruct (_ !! _); [done|apply out_of_bounds]. Qed.

Lemma good_token_at t : good (token_at token t).
Proof. unfold token_at. destruct (_ !! _); [done|apply out_of_bounds]. Qed.

Lemma good_str_at str i : good (str_at str i).
Proof. unfold str_at. destruct (_ !! _); [done|]. destruct (_ =? _)%nat; [done|apply out_of_bounds]. Qed.

Lemma token_at_inv t u : token_at token t = Ok u -> token !! t = Some u /\ (t < length token)%nat.
Proof.
  unfold token_at. destruct (token !! t) eqn:E; [|done]. intros [= ->]. split; [done|]. by eapply lookup_lt_Some.
Qed.

Lemma good_equals t str : good (tok_equals input_line token t str).
Proof.
  apply good_bind; [apply good_token_at|]. intros u _. destruct (is_token u); cbn [negb]; [|done].
  generalize (Z.of_nat (start_index u)). intros st. generalize (tok_length u). intros n. generalize 0%nat. revert st.
  induction n as [|n IH]; intros st i; cbn [equals_loop].
  - apply good_bind; [apply good_str_at|done].
  - apply good_bind; [apply good_line_at|]. intros x _. apply good_bind; [apply good_str_at|]. intros c _.
    destruct (x =? c); cbn [negb]; [apply IH|done].
Qed.

Lemma equals_inv t str b : tok_equals input_line token t str = Ok b -> (t < length token)%nat.
Proof. unfold tok_equals. intros (u & Hu & _)%res_bind_inv. by apply token_at_inv in Hu as [_ ?]. Qed.

Lemma good_isletter t : good (isletter input_line token t).
Proof.
  apply good_bind; [apply good_token_at|]. intros u _. destruct (is_token u); cbn [negb]; [|done].
  apply good_bind; [apply good_line_at|done].
Qed.

Lemma good_isstring t : good (isstring input_line token t).
Proof.
  apply good_bind; [apply good_token_at|]. intros u _. destruct (is_token u); cbn [negb]; [|done].
  apply good_bind; [apply good_line_at|done].
Qed.

Lemma good_isanumber t : good (isanumber token t).
Proof. apply good_bind; [apply good_token_at|done]. Qed.

Lemma good_token_len t : good (token_len token t).
Proof. apply good_bind; [apply good_token_at|done]. Qed.

Lemma good_copy_loop fuel i start count max : (length input_line < Z.to_nat start + fuel)%nat -> (0 < fuel)%nat -> 0 <= start ->
  good (copy_loop input_line fuel i start count max).
Proof.
  revert i start. induction fuel as [|fuel IH]; intros i start Hf Hp Hs; cbn [copy_loop].
  { lia. }
  destruct (max <=? i); [apply out_of_bounds|].
  apply good_bind; [apply good_line_at|]. intros c Hc. destruct (_ =? count); [done|].
  apply good_bind; [|done]. unfold line_at in Hc. destruct (start <? 0); [done|].
  destruct (input_line !! Z.to_nat start) eqn:E; [|done]. apply lookup_lt_Some in E.
  apply IH; lia.
Qed.

Lemma good_copy_str t max : good (copy_str input_line token t max).
Proof. apply good_bind; [apply good_token_at|]. intros u _. apply good_copy_loop; lia. Qed.

Lemma good_capture_loop n i : good (capture_loop input_line n i).
Proof.
  revert i. induction n as [|n IH]; intros i; cbn [capture_loop]; [done|].
  apply good_bind; [apply good_line_at|]. intros c _. destruct (c =? 0); [done|]. apply good_bind; [apply IH|done].
Qed.

Lemma good_m_capture a b : good (m_capture input_line token a b).
Proof.
  apply good_bind; [apply good_token_at|]. intros u _. apply good_bind; [apply good_token_at|]. intros v _.
  apply good_capture_loop.
Qed.
End tokens.

(** ** Strings in place *)
(** Reading behind, writing before: [out] is written, [mid] is used up. *)
Lemma zload_mid out mid c l : zload (Z.of_nat (length out + length mid)) (out ++ mid ++ c :: l) = Ok (c, out ++ mid ++ c :: l).
Proof.
  unfold zload. rewrite (proj2 (Z.ltb_ge _ _)) by lia. rewrite Nat2Z.id. apply load_ok.
  rewrite app_assoc, lookup_app_r by (rewrite length_app; lia). by rewrite length_app, Nat.sub_diag.
Qed.

Lemma zstore_mid out mid c l v : exists mid', length mid' = length mid /\
  zstore (Z.of_nat (length out)) v (out ++ mid ++ c :: l) = Ok (tt, (out ++ [v]) ++ mid' ++ l).
Proof.
  assert (E : exists x mid', mid ++ c :: l = x :: mid' ++ l /\ length mid' = length mid).
  { destruct mid as [|x mid]; [by exists c, []|]. exists x, (mid ++ [c]). rewrite <- app_assoc, length_app. cbn. split; [done|lia]. }
  destruct E as (x & mid' & E & Hl). exists mid'. split; [done|]. rewrite E. unfold zstore.
  rewrite (proj2 (Z.ltb_ge _ _)) by lia. rewrite Nat2Z.id, store_ok by (rewrite length_app; cbn; lia).
  rewrite insert_app_r_alt, Nat.sub_diag by lia. by rewrite <- app_assoc.
Qed.

Fixpoint squash (space : bool) (l : list Z) : list Z :=
  match l with
  | [] => []
  | c :: l' => if isspace c then (if space then squash true l' else 32 :: squash true l') else c :: squash false l'
  end.

Lemma squash_loop_ok l : Forall (fun c => c <> 0) l -> forall fuel out mid rest space, (length l < fuel)%nat ->
  exists rest', length rest' = (length mid + length l - length (squash space l) + length rest)%nat /\
    (length (squash space l) <= length l)%nat /\
    squash_loop fuel (Z.of_nat (length out + length mid)) (Z.of_nat (length out)) space (out ++ mid ++ l ++ 0 :: rest) =
    Ok (tt, out ++ squash space l ++ 0 :: rest').
Proof.
  induction 1 as [|c l Hc _ IH]; intros [|fuel] out mid rest space Hf; try (cbn in Hf; lia); cbn [squash_loop squash].
  - rewrite app_nil_l. destruct (zstore_mid out mid 0 rest 0) as (mid' & Hl & R).
    exists (mid' ++ rest). rewrite length_app, Hl. cbn. split_and!; [lia|lia|]. mstep ltac:(apply zload_mid).
    rewrite Z.eqb_refl, R. by rewrite <- app_assoc.
  - cbn [app]. mstep ltac:(apply zload_mid). rewrite (proj2 (Z.eqb_neq _ _) Hc). cbn [length] in Hf.
    assert (Hskip : Z.of_nat (length out + length mid) + 1 = Z.of_nat (length out + length (mid ++ [c]))) by (rewrite length_app; cbn; lia).
    destruct (isspace c) eqn:Es; [destruct space|].
    + cbn [negb]. rewrite Hskip. destruct (IH fuel out (mid ++ [c]) rest true) as (rest' & Hl & Hle & R); [lia|].
      rewrite length_app in Hl. exists rest'. cbn [length] in *. split_and!; [lia|lia|]. rewrite <- R. by rewrite <- app_assoc.
    + cbn [negb]. destruct (zstore_mid out mid c (l ++ 0 :: rest) 32) as (mid' & Hm & R0). mstep ltac:(exact R0).
      destruct (IH fuel (out ++ [32]) mid' rest true) as (rest' & Hl & Hle & R); [lia|].
      exists rest'. cbn [length] in *. split_and!; [lia|lia|].
      refine (eq_trans _ (eq_trans R _)); [|by rewrite <- app_assoc].
      rewrite length_app. cbn [length]. rewrite <- !app_assoc. f_equal; lia.
    + destruct (zstore_mid out mid c (l ++ 0 :: rest) c) as (mid' & Hm & R0). mstep ltac:(exact R0).
      destruct (IH fuel (out ++ [c]) mid' rest false) as (rest' & Hl & Hle & R); [lia|].
      exists rest'. cbn [length] in *. split_and!; [lia|lia|].
      refine (eq_trans _ (eq_trans R _)); [|by rewrite <- app_assoc].
      rewrite length_app. cbn [length]. rewrite <- !app_assoc. f_equal; lia.
Qed.

(** *** Escapes *)
Fixpoint octal (l : list Z) (i : Z) (n : nat) : option (Z * nat) :=
  match l with
  | c :: l' => if is_octal c then (if 2 ^ 32 <=? 8 * i + (c - 48) then None else octal l' (8 * i + (c - 48)) (S n)) else Some (i, n)
  | [] => Some (i, n)
  end.

(** The string with its escapes replaced, [None] for an octal number that does
    not fit; the fuel is the length of the string. *)
Fixpoint unescaped (n : nat) (l : list Z) : option (list Z) :=
  match n, l with
  | S n', c :: l' =>
      if negb (c =? 92) then cons c <$> unescaped n' l' else
      match l' with
      | [] => Some []
      | c1 :: l'' =>
          match simple_esc c1 with
          | Some x => cons x <$> unescaped n' l''
          | None =>
              if is_octal c1 then
                match octal l' 0 0 with
                | Some (i, k) => cons (u8 i) <$> unescaped n' (drop k l')
                | None => None
                end
              else unescaped n' l'
          end
      end
  | _, _ => Some []
  end.

Lemma octal_digit c : is_octal c = true -> c <> 0.
Proof. unfold is_octal. intros [? _]%andb_true_iff ->. done. Qed.

Lemma scan_octal_ok l i n fuel pre rest : (length l < fuel)%nat ->
  scan_octal fuel (Z.of_nat (length pre)) i (Z.of_nat n) (pre ++ l ++ 0 :: rest) =
  match octal l i n with
  | Some (j, k) => Ok ((j, Z.of_nat k), pre ++ l ++ 0 :: rest)
  | None => Err Aborted
  end.
Proof.
  revert i n fuel pre. induction l as [|c l IH]; intros i n [|fuel] pre Hf; cbn [length] in Hf; try lia; cbn [scan_octal octal].
  - pose proof (zload_mid pre [] 0 rest) as L. cbn [app length] in L. rewrite Nat.add_0_r in L.
    by mstep ltac:(exact L).
  - pose proof (zload_mid pre [] c (l ++ 0 :: rest)) as L. cbn [app length] in L. rewrite Nat.add_0_r in L.
    cbn [app]. mstep ltac:(exact L). destruct (is_octal c); [|done].
    destruct (2 ^ 32 <=? 8 * i + (c - 48)); [done|].
    specialize (IH (8 * i + (c - 48)) (S n) fuel (pre ++ [c]) ltac:(lia)).
    rewrite length_app, Nat.add_1_r, !Nat2Z.inj_succ, <- !app_assoc in IH. cbn [app] in IH.
    replace (Z.of_nat (length pre) + 1) with (Z.succ (Z.of_nat (length pre))) by lia.
    replace (Z.of_nat n + 1) with (Z.succ (Z.of_nat n)) by lia. exact IH.
Qed.

Lemma octal_length l i n j k : octal l i n = Some (j, k) -> (n <= k <= n + length l)%nat.
Proof.
  revert i n. induction l as [|c l IH]; intros i n; cbn [octal length].
  - intros [= -> ->]. lia.
  - destruct (is_octal c); [|intros [= -> ->]; lia]. destruct (_ <=? _); [done|]. intros Ho%IH. lia.
Qed.

Lemma octal_first c l : is_octal c = true -> forall j k, octal (c :: l) 0 0 = Some (j, k) -> (1 <= k <= S (length l))%nat.
Proof.
  intros Hc j k. cbn [octal]. rewrite Hc. destruct (_ <=? _); [done|]. intros Ho%octal_length. lia.
Qed.

Definition outcome_at (out : list Z) (u : option (list Z)) (r : res cfault (unit * list Z)) : Prop :=
  match u with
  | Some u => exists rest, r = Ok (tt, out ++ u ++ 0 :: rest)
  | None => r = Err Aborted
  end.

Lemma outcome_cons out v u r : outcome_at (out ++ [v]) u r -> outcome_at out (cons v <$> u) r.
Proof. destruct u as [u|]; [|done]. intros [rest ->]. exists rest. by rewrite <- app_assoc. Qed.

(** The characters [ks] and [c] are read and [v] is written for them. *)
Lemma esc_write fuel out mid ks c l v rest u r :
  r = Z.of_nat (length out + length mid + length ks + 1) ->
  (forall mid', outcome_at (out ++ [v]) u (esc_loop fuel (Z.of_nat (length (out ++ [v]) + length mid')) (Z.of_nat (length (out ++ [v])))
       ((out ++ [v]) ++ mid' ++ l ++ 0 :: rest))) ->
  outcome_at out (cons v <$> u) ((zstore (Z.of_nat (length out)) v ;; esc_loop fuel r (Z.of_nat (length out) + 1))
    (out ++ mid ++ ks ++ c :: l ++ 0 :: rest)).
Proof.
  intros -> Hm. apply outcome_cons. destruct (zstore_mid out (mid ++ ks) c (l ++ 0 :: rest) v) as (mid' & Hl & R).
  rewrite <- app_assoc in R. mstep ltac:(exact R). specialize (Hm mid'). rewrite length_app in Hm, Hl.
  replace (Z.of_nat (length out) + 1) with (Z.of_nat (length out + length [v])) by (cbn; lia).
  replace (length out + length mid + length ks + 1)%nat with (length out + length [v] + length mid')%nat by (cbn; lia).
  exact Hm.
Qed.

Definition esc_correct (n : nat) (l : list Z) : Prop := forall fuel out mid rest, (length l < fuel)%nat ->
  outcome_at out (unescaped n l)
    (esc_loop fuel (Z.of_nat (length out + length mid)) (Z.of_nat (length out)) (out ++ mid ++ l ++ 0 :: rest)).

Lemma esc_nil n : esc_correct n [].
Proof.
  intros [|fuel] out mid rest Hf; [cbn in Hf; lia|]. replace (unescaped n []) with (Some ([] : list Z)) by (by destruct n).
  cbn [esc_loop app]. destruct (zstore_mid out mid 0 rest 0) as (mid' & Hl & R). exists (mid' ++ rest).
  mstep ltac:(apply zload_mid). rewrite Z.eqb_refl, R. by rewrite <- app_assoc.
Qed.

(** The next character after a backslash. *)
Lemma zload_next out mid c l rest : exists c1, zload (Z.of_nat (length out + length mid) + 1) (out ++ mid ++ c :: l ++ 0 :: rest) =
  Ok (c1, out ++ mid ++ c :: l ++ 0 :: rest) /\ c1 = match l with [] => 0 | x :: _ => x end.
Proof.
  assert (E : exists c1 l1, l ++ 0 :: rest = c1 :: l1 /\ c1 = match l with [] => 0 | x :: _ => x end) by (destruct l; by eexists _, _).
  destruct E as (c1 & l1 & E & Ec). exists c1. split; [|done]. rewrite E.
  pose proof (zload_mid out (mid ++ [c]) c1 l1) as L. rewrite <- app_assoc, length_app in L. cbn [length app] in L.
  replace (Z.of_nat (length out + length mid) + 1) with (Z.of_nat (length out + (length mid + 1))) by lia. exact L.
Qed.

Lemma esc_loop_ok n l : (length l <= n)%nat -> Forall (fun c => c <> 0) l -> esc_correct n l.
Proof.
  revert l. induction n as [|n IH]; intros l Hn Hz; (destruct l as [|c l]; [apply esc_nil|]); cbn [length] in Hn; [lia|].
  apply Forall_cons in Hz as [Hc Hz]. intros [|fuel] out mid rest Hf; cbn [length] in Hf; [lia|].
  cbn [unescaped esc_loop app]. mstep ltac:(apply zload_mid). rewrite (proj2 (Z.eqb_neq _ _) Hc).
  destruct (c =? 92) eqn:E92; cbn [negb]; cycle 1.
  { apply (esc_write fuel out mid [] c l); [cbn; lia|]. intros mid'. apply IH; [lia|done|lia]. }
  destruct (zload_next out mid c l rest) as (c1 & L & Ec). mstep ltac:(exact L). subst c1. destruct l as [|c1 l].
  { cbn [simple_esc is_octal]. change (simple_esc 0) with (@None Z). cbn [is_octal].
    pose proof (esc_nil n fuel out (mid ++ [c]) rest ltac:(cbn; lia)) as R. rewrite length_app, <- app_assoc in R.
    replace (unescaped n []) with (Some ([] : list Z)) in R by (by destruct n). cbn [app length] in R.
    replace (Z.of_nat (length out + length mid) + 1) with (Z.of_nat (length out + (length mid + 1))) by lia. exact R. }
  apply Forall_cons in Hz as [Hc1 Hz']. cbn [length] in Hn, Hf.
  destruct (simple_esc c1) as [x|].
  { apply (esc_write fuel out mid [c] c1 l); [cbn; lia|]. intros mid'. apply IH; [lia|done|lia]. }
  destruct (is_octal c1) eqn:Eo; cycle 1.
  { pose proof (IH (c1 :: l) ltac:(cbn; lia) ltac:(by constructor) fuel out (mid ++ [c]) rest ltac:(cbn; lia)) as R.
    rewrite length_app, <- app_assoc in R. cbn [app length] in R.
    replace (Z.of_nat (length out + length mid) + 1) with (Z.of_nat (length out + (length mid + 1))) by lia. exact R. }
  mstep ltac:(reflexivity). set (mem := out ++ mid ++ c :: (c1 :: l) ++ 0 :: rest).
  assert (Em : mem = (out ++ mid ++ [c]) ++ (c1 :: l) ++ 0 :: rest) by (unfold mem; by rewrite <- !app_assoc).
  pose proof (scan_octal_ok (c1 :: l) 0 0 (S (length mem)) (out ++ mid ++ [c]) rest) as R.
  rewrite <- Em, !length_app in R. cbn [length] in R.
  replace (Z.of_nat (length out + (length mid + 1))) with (Z.of_nat (length out + length mid) + 1) in R by lia.
  assert (Hlen : (S (length l) < S (length mem))%nat) by (rewrite Em, !length_app; cbn; lia).
  specialize (R Hlen). change (Z.of_nat 0) with 0 in R.
  destruct (octal (c1 :: l) 0 0) as [[j k]|] eqn:Eoc; [|by rewrite M_bind_eq, R].
  mstep ltac:(exact R). pose proof (octal_first c1 l Eo j k Eoc) as Hk.
  assert (Hs : exists ks ck l', c1 :: l = ks ++ ck :: l' /\ length ks = pred k /\ drop k (c1 :: l) = l').
  { exists (take (pred k) (c1 :: l)).
    destruct (drop (pred k) (c1 :: l)) as [|ck l'] eqn:Ed; [apply (f_equal length) in Ed; rewrite length_drop in Ed; cbn in Ed; lia|].
    exists ck, l'. split_and!; [by rewrite <- Ed, take_drop|rewrite length_take; cbn; lia|].
    replace k with (pred k + 1)%nat at 1 by lia. by rewrite <- drop_drop, Ed. }
  destruct Hs as (ks & ck & l' & El & Hks & ->).
  assert (Hl' : (length ks + S (length l') = S (length l))%nat) by (apply (f_equal length) in El; rewrite length_app in El; cbn in El; lia).
  unfold mem. rewrite El, <- app_assoc. apply (esc_write fuel out mid (c :: ks) ck l'); [cbn; lia|].
  intros mid'. apply IH; [lia| |lia].
  assert (Hall : Forall (fun c => c <> 0) (ks ++ ck :: l')) by (rewrite <- El; by constructor).
  apply Forall_app in Hall as [_ Hall]. by apply Forall_cons in Hall as [_ ?].
Qed.

Lemma c_string_app l rest : Forall (fun c => c <> 0) l -> c_string (l ++ 0 :: rest) = l.
Proof. induction 1 as [|c l Hc _ IH]; cbn; [done|]. rewrite (proj2 (Z.eqb_neq _ _) Hc). by f_equal. Qed.

Lemma parse_esc_ok l : Forall (fun c => c <> 0) l ->
  match unescaped (length l) l with
  | Some u => exists rest, parse_esc (l ++ [0]) = Ok (tt, u ++ 0 :: rest)
  | None => parse_esc (l ++ [0]) = Err Aborted
  end.
Proof.
  intros Hl. unfold parse_esc. pose proof (esc_loop_ok (length l) l ltac:(lia) Hl (S (length (l ++ [0]))) [] [] []) as R.
  specialize (R ltac:(rewrite length_app; cbn; lia)).
  unfold outcome_at in R. cbn [app length Nat.add] in R.
  destruct (unescaped (length l) l) as [u|]; [destruct R as [rest R]; exists rest|]; by mstep ltac:(reflexivity).
Qed.

Section captured.
Context `{Doubles}.
Context (input_line : list Z) (token : list lexical_unit).

Lemma capture_loop_nonzero n i l : capture_loop input_line n i = Ok l -> Forall (fun c => c <> 0) l.
Proof.
  revert i l. induction n as [|n IH]; intros i l; cbn [capture_loop]; [by intros [= <-]|].
  intros (c & _ & Hc)%res_bind_inv. destruct (c =? 0) eqn:E; [by injection Hc as <-|].
  apply res_bind_inv in Hc as (r & Hr & [= <-]). constructor; [by apply Z.eqb_neq|by eapply IH].
Qed.

Lemma good_unescape t l : Forall (fun c => c <> 0) l -> good (unescape input_line token t l).
Proof.
  intros Hl. apply good_bind; [apply good_token_at|]. intros u _. apply good_bind; [apply good_line_at|]. intros q _.
  destruct (q =? 34); [|done]. unfold on_string. pose proof (parse_esc_ok l Hl) as R.
  destruct (unescaped (length l) l) as [v|]; [destruct R as [rest R]|]; rewrite R; done.
Qed.

Lemma good_m_quote_capture a b : good (m_quote_capture input_line token a b).
Proof.
  apply good_bind; [apply good_token_at|]. intros u _. apply good_bind; [apply good_token_at|]. intros v _.
  apply good_bind; [apply good_capture_loop|]. intros l Hl. apply good_unescape. by eapply capture_loop_nonzero.
Qed.
End captured.
