(* ===== verification/GpEval.v ===== *)
(** * gnuplot: evaluating action tables ([eval.c])

    An expression is compiled to an action table, a list of actions with an
    argument each; [execute_at] runs it on a stack of values.  The actions that
    jump, [f_bool] and the stack itself are modelled here as they are written.
    All other actions ([standard.c], [internal.c] and later additions such as
    [POP], [ASSIGN] and [SUM]) are not part of the repository: they are the field
    [ft_func] of the class [Gp].

    The linked lists of user variables and functions are lists in the order of
    the links, to which entries are only added at the end: a pointer to an entry
    is its position.  Strings are values: who frees them is not modelled.  A
    floating point exception ([fpe]) is left out. *)
From S2P Require Import Prelude GpUtil.
From stdpp Require Import strings.
Open Scope Z_scope.

(** The internal operators, and [SF i] for the standard function number [i]. *)
Inductive operators :=
  | PUSH | PUSHC | PUSHD1 | PUSHD2 | PUSHD | POP | CALL | CALLN | SUM | LNOT | BNOT | UMINUS
  | BOR | XOR | BAND | EQ | NE | GT | LT | GE | LE | PLUS | MINUS | MULT | DIV | MOD | POWER
  | FACTORIAL | BOOLE | DOLLARS | CONCATENATE | EQS | NES | RANGE | ASSIGN
  | JUMP | JUMPZ | JUMPNZ | JTERN
  | SF (i : nat).

#[export] Instance operators_dec : EqDecision operators.
Proof. solve_decision. Defined.

(** The names of the standard functions, in the order of [ft]. *)
Definition ft : list string :=
  ["real"; "imag"; "arg"; "conjg"; "sin"; "cos"; "tan"; "asin"; "acos"; "atan"; "atan2"; "sinh"; "cosh"; "tanh";
   "int"; "abs"; "sgn"; "sqrt"; "exp"; "log10"; "log"; "besj0"; "besj1"; "besy0"; "besy1"; "erf"; "erfc"; "gamma";
   "lgamma"; "ibeta"; "igamma"; "rand"; "floor"; "ceil"; "defined"; "norm"; "inverf"; "invnorm"; "asinh"; "acosh";
   "atanh"; "lambertw"; "column"; "valid"; "timecolumn"; "tm_sec"; "tm_min"; "tm_hour"; "tm_mday"; "tm_mon";
   "tm_year"; "tm_wday"; "tm_yday"; "stringcolumn"; "sprintf"; "gprintf"; "strlen"; "strstrt"; "substr"; "word";
   "words"; "system"]%string.

Section values.
Context `{Doubles}.

(** What an action points to: a constant, a jump distance, a variable, a
    function: one of the list, the function whose dummy variables are active, or
    the one that [sum] makes for its summand. *)
Inductive argument :=
  | no_arg
  | v_arg (v : value)
  | j_arg (n : Z)
  | udv_arg (p : nat)
  | udf_arg (f : udf_ref)
with udf_ref :=
  | Udf (p : nat)
  | DummyFunc
  | SumUdf (actions : list at_entry)
with at_entry := MkAt (index : operators) (arg : argument).

Definition index (a : at_entry) : operators := match a with MkAt i _ => i end.
Definition arg (a : at_entry) : argument := match a with MkAt _ x => x end.

Record udvt_entry := MkUdv { udv_name : list Z; udv_undef : bool; udv_value : value }.
Record udft_entry := MkUdf { udf_name : list Z; udf_at : option (list at_entry); dummy_values : list value }.

Inductive errno_t := NoError | EDOM | ERANGE.

Record genv := MkEnv {
  udvs : list udvt_entry;
  udfs : list udft_entry;
  undefined : bool;
  errno : errno_t;
  STRING_RESULT_ONLY : bool
}.

Record mach := MkMach { menv : genv; stack : list value; jump_offset : Z }.

Definition set_udvs (x : list udvt_entry) (g : genv) : genv := MkEnv x (udfs g) (undefined g) (errno g) (STRING_RESULT_ONLY g).
Definition set_udfs (x : list udft_entry) (g : genv) : genv := MkEnv (udvs g) x (undefined g) (errno g) (STRING_RESULT_ONLY g).
Definition set_undefined (x : bool) (g : genv) : genv := MkEnv (udvs g) (udfs g) x (errno g) (STRING_RESULT_ONLY g).
Definition set_errno (x : errno_t) (g : genv) : genv := MkEnv (udvs g) (udfs g) (undefined g) x (STRING_RESULT_ONLY g).
Definition set_menv (g : genv) (m : mach) : mach := MkMach g (stack m) (jump_offset m).
Definition set_stack (x : list value) (m : mach) : mach := MkMach (menv m) x (jump_offset m).
Definition set_jump (x : Z) (m : mach) : mach := MkMach (menv m) (stack m) x.

Definition udv_pi : udvt_entry := MkUdv (chars "pi") false (INTGR 0).
End values.

Class Gp `{Doubles} := {
  STACK_DEPTH : nat; MAX_AT_LEN : nat; MAX_ID_LEN : nat; MAX_NUM_VAR : nat;
  ft_func : operators -> argument -> mach -> res gperr (unit * mach)
}.

Section eval.
Context `{GP : Gp}.

Abbreviation MM := (M mach gperr).

Definition NO_CARET : Z := -1.
Definition int_error {S A} (t : Z) : M S gperr A := throw (IntError t).

(** ** Values *)
Definition real (v : value) : res gperr dbl :=
  match v with
  | INTGR i => Ok (dbl_of_int i)
  | CMPLX re _ => Ok re
  | STRING s => Ok (atof s)
  end.

Definition imag (v : value) : res gperr dbl :=
  match v with
  | INTGR _ => Ok (dbl_of_int 0)
  | CMPLX _ im => Ok im
  | STRING _ => Err (IntError NO_CARET)
  end.

Definition magnitude (v : value) : res gperr dbl :=
  match v with
  | INTGR i => Ok (dbl_of_int (Z.abs i))
  | CMPLX re im => Ok (dbl_sqrt (dbl_add (dbl_mul re re) (dbl_mul im im)))
  | STRING _ => Err (IntError NO_CARET)
  end.

Definition angle (v : value) : res gperr dbl :=
  match v with
  | INTGR i => Ok (if i >=? 0 then dbl_of_int 0 else M_PI)
  | CMPLX re im =>
      if dbl_eqb im (dbl_of_int 0) then Ok (if dbl_leb (dbl_of_int 0) re then dbl_of_int 0 else M_PI)
      else Ok (dbl_atan2 im re)
  | STRING _ => Err (IntError NO_CARET)
  end.

Definition Gcomplex (realpart imagpart : dbl) : value := CMPLX realpart imagpart.
Definition Ginteger (i : Z) : value := INTGR i.
Definition Gstring (s : list Z) : value := STRING s.
Definition gpfree_string (a : value) : value := match a with STRING _ => INTGR 0 | _ => a end.

(** ** The stack; its top is the last of the list *)
Definition reset_stack : MM unit := modS (set_stack []).
Definition more_on_stack : MM bool := m ← getS; mret (0 <? length (stack m))%nat.

Definition pop : MM value :=
  m ← getS;
  match last (stack m) with
  | Some x => modS (set_stack (removelast (stack m))) ;; mret x
  | None => int_error NO_CARET
  end.

Definition pop_or_convert_from_string : MM value :=
  v ← pop;
  m ← getS;
  match v with
  | STRING s => if STRING_RESULT_ONLY (menv m) then mret v else mret (Gcomplex (atof s) (dbl_of_int 0))
  | _ => mret v
  end.

Definition push (x : value) : MM unit :=
  m ← getS;
  if (length (stack m) =? STACK_DEPTH)%nat then int_error NO_CARET
  else modS (set_stack (stack m ++ [x])).

Definition int_check (v : value) : MM Z :=
  match v with INTGR i => mret i | _ => int_error NO_CARET end.

Definition top_of_stack : MM value :=
  m ← getS; match last (stack m) with Some x => mret x | None => throw (GpFault OutOfBounds) end.

(** ** The actions of this file *)
Definition f_bool : MM unit :=
  a ← top_of_stack;
  i ← int_check a;
  modS (fun m => set_stack (removelast (stack m) ++ [INTGR (if i =? 0 then 0 else 1)]) m).

Definition get_j_arg (x : argument) : MM Z := match x with j_arg n => mret n | _ => throw (GpFault OutOfBounds) end.

Definition f_jump (x : argument) : MM unit := j ← get_j_arg x; modS (set_jump j).

Definition f_jumpz (x : argument) : MM unit :=
  a ← top_of_stack;
  i ← int_check a;
  if negb (i =? 0) then pop ;; mret tt else j ← get_j_arg x; modS (set_jump j).

Definition f_jumpnz (x : argument) : MM unit :=
  a ← top_of_stack;
  i ← int_check a;
  if negb (i =? 0) then j ← get_j_arg x; modS (set_jump j) else pop ;; mret tt.

Definition f_jtern (x : argument) : MM unit :=
  a ← pop;
  i ← int_check a;
  if i =? 0 then j ← get_j_arg x; modS (set_jump j) else mret tt.

Definition is_jump (op : operators) : bool :=
  match op with JUMP | JUMPZ | JUMPNZ | JTERN => true | _ => false end.

(** The call through the table of functions. *)
Definition do_action (a : at_entry) : MM unit :=
  match index a with
  | BOOLE => f_bool
  | JUMP => f_jump (arg a)
  | JUMPZ => f_jumpz (arg a)
  | JUMPNZ => f_jumpnz (arg a)
  | JTERN => f_jtern (arg a)
  | op => ft_func op (arg a)
  end.

Fixpoint execute_loop (fuel : nat) (actions : list at_entry) (instruction_index : Z) : MM unit :=
  match fuel with
  | O => fun _ => Timeout
  | S f =>
      if instruction_index <? Z.of_nat (length actions) then
        if instruction_index <? 0 then throw TableFault else
        match actions !! Z.to_nat instruction_index with
        | None => throw TableFault
        | Some a =>
            modS (set_jump 1) ;;
            do_action a ;;
            m ← getS;
            if is_jump (index a) || (jump_offset m =? 1)
            then execute_loop f actions (instruction_index + jump_offset m)
            else throw (GpFault AssertFailed)
        end
      else mret tt
  end.

Definition execute_at (actions : list at_entry) : MM unit :=
  m ← getS;
  execute_loop (S (length actions)) actions 0 ;;
  modS (set_jump (jump_offset m)).

(** The value, when the evaluation sets it. *)
Definition evaluate_at (actions : list at_entry) : MM (option value) :=
  modS (fun m => set_menv (set_errno NoError (set_undefined false (menv m))) m) ;;
  reset_stack ;;
  execute_at actions ;;
  m ← getS;
  match errno (menv m) with
  | NoError =>
      if undefined (menv m) then mret None else
      v ← pop;
      temp ← (match v with STRING _ => mret (dbl_of_int 0) | _ => lift (real v) end);
      (if dbl_ltb VERYLARGE temp || dbl_ltb temp (dbl_opp VERYLARGE)
       then modS (fun m => set_menv (set_undefined true (menv m)) m) else mret tt) ;;
      mret (Some v)
  | _ => modS (fun m => set_menv (set_undefined true (menv m)) m) ;; mret None
  end.

(** ** User variables *)
(** The position of the entry of this name, or of the end. *)
Fixpoint find_udv (key : list Z) (l : list udvt_entry) : nat :=
  match l with
  | [] => O
  | u :: l' => if decide (udv_name u = key) then O else S (find_udv key l')
  end.

(** A new entry has no value: it is undefined. *)
Definition add_udv_by_name (key : list Z) (g : genv) : nat * genv :=
  let p := find_udv key (udvs g) in
  if (p <? length (udvs g))%nat then (p, g)
  else (p, set_udvs (udvs g ++ [MkUdv key true (INTGR 0)]) g).
End eval.
