(* ===== verification/GpParse.v ===== *)
(** * gnuplot: compiling expressions ([parse.c])

    A recursive descent parser reads tokens from [c_token] on and adds actions
    to the table [at].  Its functions are state transformers on [pst], the
    globals of [parse.c] that they use with the machine of [eval.c].  The
    functions of one precedence level take the parser of the operands as an
    argument; [parse_expression] and [parse_unary_expression] tie the knot with
    fuel, which the loops share.

    [room] is the number of entries that are allocated for a table; a write
    behind it is a fault.  [dummy_func] tells whether a function with dummy
    variables is active ([dummy_func != NULL]).  [END_OF_COMMAND] and
    [try_to_get_string] are not part of the repository and are parameters. *)
From S2P Require Import Prelude GpUtil GpEval.
From stdpp Require Import strings.
Open Scope Z_scope.

Section tables.
Context `{GP : Gp}.

Record at_type := MkTable { actions : list at_entry; room : nat }.

Record pst := MkPst {
  at_ : option at_type;
  at_size : nat;
  c_token : nat;
  parse_recursion_level : Z;
  string_result_only : bool;
  scanning_range_in_progress : bool;
  dummy_func : bool;
  c_dummy_var : list (list Z);
  at_highest_column_used : Z;
  parse_1st_row_as_headers : bool;
  machine : mach
}.

Definition set_at (x : option at_type) (s : pst) : pst :=
  MkPst x (at_size s) (c_token s) (parse_recursion_level s) (string_result_only s) (scanning_range_in_progress s)
    (dummy_func s) (c_dummy_var s) (at_highest_column_used s) (parse_1st_row_as_headers s) (machine s).
Definition set_at_size (x : nat) (s : pst) : pst :=
  MkPst (at_ s) x (c_token s) (parse_recursion_level s) (string_result_only s) (scanning_range_in_progress s)
    (dummy_func s) (c_dummy_var s) (at_highest_column_used s) (parse_1st_row_as_headers s) (machine s).
Definition set_c_token (x : nat) (s : pst) : pst :=
  MkPst (at_ s) (at_size s) x (parse_recursion_level s) (string_result_only s) (scanning_range_in_progress s)
    (dummy_func s) (c_dummy_var s) (at_highest_column_used s) (parse_1st_row_as_headers s) (machine s).
Definition set_level (x : Z) (s : pst) : pst :=
  MkPst (at_ s) (at_size s) (c_token s) x (string_result_only s) (scanning_range_in_progress s)
    (dummy_func s) (c_dummy_var s) (at_highest_column_used s) (parse_1st_row_as_headers s) (machine s).
Definition set_string_result_only (x : bool) (s : pst) : pst :=
  MkPst (at_ s) (at_size s) (c_token s) (parse_recursion_level s) x (scanning_range_in_progress s)
    (dummy_func s) (c_dummy_var s) (at_highest_column_used s) (parse_1st_row_as_headers s) (machine s).
Definition set_dummy_func (x : bool) (s : pst) : pst :=
  MkPst (at_ s) (at_size s) (c_token s) (parse_recursion_level s) (string_result_only s) (scanning_range_in_progress s)
    x (c_dummy_var s) (at_highest_column_used s) (parse_1st_row_as_headers s) (machine s).
Definition set_columns (c : Z) (h : bool) (s : pst) : pst :=
  MkPst (at_ s) (at_size s) (c_token s) (parse_recursion_level s) (string_result_only s) (scanning_range_in_progress s)
    (dummy_func s) (c_dummy_var s) c h (machine s).
Definition set_machine (x : mach) (s : pst) : pst :=
  MkPst (at_ s) (at_size s) (c_token s) (parse_recursion_level s) (string_result_only s) (scanning_range_in_progress s)
    (dummy_func s) (c_dummy_var s) (at_highest_column_used s) (parse_1st_row_as_headers s) x.

Definition env (s : pst) : genv := menv (machine s).
Definition set_env (g : genv) (s : pst) : pst := set_machine (set_menv g (machine s)) s.
Definition a_count (s : pst) : nat := match at_ s with Some t => length (actions t) | None => O end.
End tables.

Section parse.
Context `{GP : Gp}.
Context (input_line : list Z) (token : list lexical_unit).

Abbreviation P := (M pst gperr).

(** ** The action table *)
Definition extend_at : P unit :=
  s ← getS;
  match at_ s with
  | None => throw (GpFault NullDeref)
  | Some t =>
      modS (set_at (Some (MkTable (actions t) (MAX_AT_LEN + at_size s)))) ;;
      modS (fun s => set_at_size (at_size s + MAX_AT_LEN) s)
  end.

(** The action with its argument; the source writes the argument later. *)
Definition add_action (sf_index : operators) (x : argument) : P unit :=
  s ← getS;
  match at_ s with
  | None => throw (GpFault NullDeref)
  | Some _ =>
      (if (at_size s <=? a_count s)%nat then extend_at else mret tt) ;;
      s ← getS;
      match at_ s with
      | None => throw (GpFault NullDeref)
      | Some t =>
          if (length (actions t) <? room t)%nat
          then modS (set_at (Some (MkTable (actions t ++ [MkAt sf_index x]) (room t))))
          else throw TableFault
      end
  end.

(** [at->actions[savepc].arg.j_arg = at->a_count - savepc] *)
Definition patch (savepc : nat) : P unit :=
  s ← getS;
  match at_ s with
  | None => throw (GpFault NullDeref)
  | Some t =>
      match actions t !! savepc with
      | None => throw TableFault
      | Some a =>
          modS (set_at (Some (MkTable
            (<[savepc := MkAt (index a) (j_arg (Z.of_nat (a_count s) - Z.of_nat savepc))]> (actions t)) (room t))))
      end
  end.

(** ** Tokens *)
Definition look {A} (f : nat -> res gperr A) (k : nat) : P A := s ← getS; lift (f (c_token s + k)%nat).
Definition equals (str : string) : P bool := look (fun t => tok_equals input_line token t (chars str)) 0.
Definition next_equals (str : string) : P bool := look (fun t => tok_equals input_line token t (chars str)) 1.
Definition equals_name (str : list Z) : P bool := look (fun t => tok_equals input_line token t str) 0.
Definition skip (k : nat) : P unit := modS (fun s => set_c_token (c_token s + k) s).
Definition fail {A} : P A := s ← getS; int_error (Z.of_nat (c_token s)).
Definition expect (str : string) : P unit := b ← equals str; if (b : bool) then skip 1 else fail.
Definition at_letter : P bool := look (isletter input_line token) 0.
Definition at_number : P bool := look (isanumber token) 0.
Definition at_string : P bool := look (isstring input_line token) 0.
Definition convert : P value := u ← look (token_at token) 0; mret (l_val u).

(** ** Names *)
Definition add_udv (t_num : nat) : P nat :=
  varname ← lift (copy_str input_line token t_num (Z.of_nat MAX_ID_LEN));
  s ← getS;
  let '(p, g) := add_udv_by_name varname (env s) in
  modS (set_env g) ;; mret p.

Fixpoint find_udf (t_num : nat) (l : list udft_entry) : res gperr nat :=
  match l with
  | [] => Ok O
  | u :: l' => b ← tok_equals input_line token t_num (udf_name u);
               if (b : bool) then Ok O else n ← find_udf t_num l'; Ok (S n)
  end.

Definition add_udf (t_num : nat) : P nat :=
  s ← getS;
  p ← lift (find_udf t_num (udfs (env s)));
  if (p <? length (udfs (env s)))%nat then mret p else
  n ← lift (token_len token t_num);
  nm ← lift (copy_str input_line token t_num (n + 1));
  modS (fun s => set_env (set_udfs (udfs (env s) ++ [MkUdf nm None (replicate MAX_NUM_VAR (Ginteger 0))]) (env s)) s) ;;
  mret p.

Fixpoint find_builtin (t_num i : nat) (names : list string) : res gperr (option nat) :=
  match names with
  | [] => Ok None
  | nm :: names' =>
      b ← tok_equals input_line token t_num (chars nm);
      if (b : bool) then Ok (Some i) else find_builtin t_num (S i) names'
  end.

(** The number of the standard function, if the token names one. *)
Definition is_builtin_function (t_num : nat) : res gperr (option nat) := find_builtin t_num 0 ft.

Definition ft_name (i : nat) : string := default EmptyString (ft !! i).

(** The value of a variable that has none is indeterminate. *)
Definition set_up_columnheader_parsing : P unit :=
  s ← getS;
  let use (n : Z) : P unit :=
    modS (fun s => set_columns (if at_highest_column_used s <? n then n else at_highest_column_used s) (parse_1st_row_as_headers s) s) in
  match at_ s with
  | None => throw (GpFault NullDeref)
  | Some t =>
      match last (actions t) with
      | None => throw TableFault
      | Some (MkAt PUSHC (v_arg (STRING _))) => modS (fun s => set_columns (at_highest_column_used s) true s)
      | Some (MkAt PUSHC (v_arg (INTGR n))) => use n
      | Some (MkAt PUSH (udv_arg p)) =>
          match udvs (env s) !! p with
          | Some u =>
              if udv_undef u then throw (GpFault Aborted) else
              match udv_value u with INTGR n => use n | _ => mret tt end
          | None => throw (GpFault OutOfBounds)
          end
      | Some _ => mret tt
      end
  end.

(** ** One expression, given the parsers of its parts *)
Section bodies.
Context (fuel : nat) (parse_expression parse_unary_expression : P unit).

(** The table for the next expression. *)
Definition temp_at : P unit :=
  modS (set_at (Some (MkTable [] MAX_AT_LEN))) ;;
  modS (set_at_size MAX_AT_LEN) ;;
  modS (set_level 0) ;;
  parse_expression.

Definition perm_at : P (list at_entry) :=
  temp_at ;;
  s ← getS;
  match at_ s with
  | None => throw (GpFault NullDeref)
  | Some t => modS (set_at None) ;; mret (actions t)
  end.

(** *** Primary expressions *)
Fixpoint comma_loop (n : nat) : P unit :=
  match n with
  | O => fun _ => Timeout
  | S n' =>
      b ← equals ",";
      if (b : bool) then skip 1 ;; add_action POP no_arg ;; parse_expression ;; comma_loop n' else mret tt
  end.

Definition parse_parentheses : P unit :=
  skip 1 ;; parse_expression ;; comma_loop fuel ;; expect ")".

Definition parse_column : P unit :=
  skip 1 ;;
  b ← at_number;
  if negb b then fail else
  a ← convert;
  skip 1 ;;
  match a with
  | INTGR n =>
      if n <? 0 then fail else
      modS (fun s => set_columns (if at_highest_column_used s <? n then n else at_highest_column_used s) (parse_1st_row_as_headers s) s) ;;
      add_action DOLLARS (v_arg a)
  | _ => fail
  end.

Definition parse_number : P unit := v ← convert; add_action PUSHC (v_arg v) ;; skip 1.

(** The further arguments of a function; the number of all. *)
Fixpoint argument_loop (n : nat) (count : Z) : P Z :=
  match n with
  | O => fun _ => Timeout
  | S n' =>
      b ← equals ",";
      if (b : bool) then skip 1 ;; parse_expression ;; argument_loop n' (count + 1) else mret count
  end.

Definition parse_builtin (whichfunc : nat) : P unit :=
  skip 2 ;;
  parse_expression ;;
  num_params ← argument_loop fuel 1;
  expect ")" ;;
  (if String.eqb (ft_name whichfunc) "sprintf" then add_action PUSHC (v_arg (INTGR num_params)) else mret tt) ;;
  (if String.eqb (ft_name whichfunc) "words" then add_action PUSHC (v_arg (INTGR (-1))) else mret tt) ;;
  (if String.eqb (ft_name whichfunc) "column" then set_up_columnheader_parsing else mret tt) ;;
  add_action (SF whichfunc) no_arg.

(** The deprecated [defined(name)]: the closing parenthesis is not looked at. *)
Definition parse_defined : P unit :=
  s ← getS;
  p ← add_udv (c_token s + 2);
  s ← getS;
  match udvs (env s) !! p with
  | Some u => add_action PUSHC (v_arg (INTGR (if udv_undef u then 0 else 1))) ;; skip 4
  | None => throw (GpFault OutOfBounds)
  end.

Definition parse_call : P unit :=
  s ← getS;
  let tok := c_token s in
  skip 2 ;;
  parse_expression ;;
  more ← equals ",";
  (if (more : bool) then
     num_params ← argument_loop fuel 1;
     add_action PUSHC (v_arg (INTGR num_params)) ;;
     expect ")" ;;
     p ← add_udf tok;
     add_action CALLN (udf_arg (Udf p))
   else
     expect ")" ;;
     p ← add_udf tok;
     add_action CALL (udf_arg (Udf p))).

Definition parse_sum_expression : P unit :=
  skip 2 ;;
  l ← at_letter;
  if negb l then fail else
  s ← getS;
  varname ← lift (m_capture input_line token (c_token s) (c_token s));
  add_udv (c_token s) ;;
  add_action PUSHC (v_arg (Gstring varname)) ;;
  skip 1 ;;
  expect "=" ;;
  parse_expression ;;
  expect ":" ;;
  parse_expression ;;
  expect "]" ;;
  s ← getS;
  let save_at := at_ s in
  let save_at_size := at_size s in
  modS (set_at None) ;;
  body ← perm_at;
  modS (set_at save_at) ;;
  modS (set_at_size save_at_size) ;;
  add_action SUM (udf_arg (SumUdf body)).

(** The dummy variable from number [i] on that the token names. *)
Fixpoint find_dummy (i : nat) (names : list (list Z)) : P (option nat) :=
  match names with
  | [] => mret None
  | nm :: names' => b ← equals_name nm; if (b : bool) then mret (Some i) else find_dummy (S i) names'
  end.

Definition parse_variable : P unit :=
  s ← getS;
  d ← (if dummy_func s then find_dummy 0 (take MAX_NUM_VAR (c_dummy_var s)) else mret None);
  match d with
  | Some O => skip 1 ;; add_action PUSHD1 (udf_arg DummyFunc)
  | Some (S O) => skip 1 ;; add_action PUSHD2 (udf_arg DummyFunc)
  | Some i =>
      skip 1 ;;
      add_action PUSHC (v_arg (INTGR (Z.of_nat i))) ;;
      add_action PUSHD (udf_arg DummyFunc)
  | None => p ← add_udv (c_token s); add_action PUSH (udv_arg p) ;; skip 1
  end.

Definition parse_string : P unit :=
  s ← getS;
  str ← lift (m_quote_capture input_line token (c_token s) (c_token s));
  add_action PUSHC (v_arg (STRING str)) ;; skip 1.

(** *** Operators behind a primary expression *)
Fixpoint factorial_loop (n : nat) : P unit :=
  match n with
  | O => fun _ => Timeout
  | S n' => b ← equals "!"; if (b : bool) then skip 1 ;; add_action FACTORIAL no_arg ;; factorial_loop n' else mret tt
  end.

Definition parse_power : P unit :=
  b ← equals "**";
  if (b : bool) then skip 1 ;; parse_unary_expression ;; add_action POWER no_arg else mret tt.

(** One end of a range: [limit] if it is left out or [*]. *)
Definition parse_range_end (close : string) (limit : Z) : P unit :=
  star ← equals "*";
  colon ← (if (star : bool) then mret false else equals close);
  if (star : bool) || (colon : bool) then
    add_action PUSHC (v_arg (INTGR limit)) ;;
    if (star : bool) then skip 1 else mret tt
  else parse_expression.

Definition parse_range : P unit :=
  b ← equals "[";
  if (b : bool) then
    skip 1 ;;
    parse_range_end ":" 1 ;;
    expect ":" ;;
    parse_range_end "]" 65535 ;;
    expect "]" ;;
    add_action RANGE no_arg
  else mret tt.

Definition parse_postfix : P unit := factorial_loop fuel ;; parse_power ;; parse_range.

(** A function call or a variable; the answer tells whether postfix operators
    may follow. *)
Definition parse_identifier : P bool :=
  open ← next_equals "(";
  if (open : bool) then
    s ← getS;
    whichfunc ← lift (is_builtin_function (c_token s));
    match whichfunc with
    | Some f => if String.eqb (ft_name f) "defined" then parse_defined ;; mret false else parse_builtin f ;; mret true
    | None => parse_call ;; mret true
    end
  else
    sum ← equals "sum";
    bracket ← (if (sum : bool) then next_equals "[" else mret false);
    if (bracket : bool) then parse_sum_expression ;; mret true
    else parse_variable ;; mret true.

Definition parse_primary_expression : P unit :=
  postfix ← (
    open ← equals "(";
    if (open : bool) then parse_parentheses ;; mret true else
    dollar ← equals "$";
    if (dollar : bool) then parse_column ;; mret true else
    number ← at_number;
    if (number : bool) then parse_number ;; mret true else
    letter ← at_letter;
    if (letter : bool) then parse_identifier else
    string ← at_string;
    if (string : bool) then parse_string ;; mret true else fail);
  if (postfix : bool) then parse_postfix else mret tt.

(** *** Unary operators *)
Definition unary_body : P unit :=
  lnot ← equals "!";
  if (lnot : bool) then skip 1 ;; parse_unary_expression ;; add_action LNOT no_arg else
  bnot ← equals "~";
  if (bnot : bool) then skip 1 ;; parse_unary_expression ;; add_action BNOT no_arg else
  minus ← equals "-";
  if (minus : bool) then skip 1 ;; parse_unary_expression ;; add_action UMINUS no_arg else
  plus ← equals "+";
  if (plus : bool) then skip 1 ;; parse_unary_expression else
  parse_primary_expression.

(** *** Binary operators: one loop for each level *)
(** The first of the operators that is here. *)
Fixpoint which_op (ops : list (string * operators)) : P (option operators) :=
  match ops with
  | [] => mret None
  | (str, op) :: ops' => b ← equals str; if (b : bool) then mret (Some op) else which_op ops'
  end.

Section level.
Context (accept : P unit).

(** [while (equals(c_token, ...)) { c_token++; accept(); add_action(op); }] *)
Fixpoint binary_loop (n : nat) (find : P (option operators)) : P unit :=
  match n with
  | O => fun _ => Timeout
  | S n' =>
      op ← find;
      match op with
      | Some o => skip 1 ;; accept ;; add_action o no_arg ;; binary_loop n' find
      | None => mret tt
      end
  end.

(** The loop of an operator with a short cut. *)
Fixpoint short_loop (n : nat) (str : string) (jump : operators) : P unit :=
  match n with
  | O => fun _ => Timeout
  | S n' =>
      b ← equals str;
      if (b : bool) then
        skip 1 ;;
        s ← getS;
        let savepc := a_count s in
        add_action jump no_arg ;;
        accept ;;
        patch savepc ;;
        add_action BOOLE no_arg ;;
        short_loop n' str jump
      else mret tt
  end.
End level.

Definition multiplicative_op : P (option operators) := which_op [("*", MULT); ("/", DIV); ("%", MOD)]%string.

Definition parse_multiplicative_expression : P unit := binary_loop parse_unary_expression fuel multiplicative_op.
Definition accept_multiplicative_expression : P unit := parse_unary_expression ;; parse_multiplicative_expression.

(** At the top level of a string [+] and [-] are not operators. *)
Definition additive_op : P (option operators) :=
  dot ← equals ".";
  if (dot : bool) then mret (Some CONCATENATE) else
  s ← getS;
  if string_result_only s && (parse_recursion_level s =? 1) then mret None
  else which_op [("+", PLUS); ("-", MINUS)]%string.

Definition parse_additive_expression : P unit := binary_loop accept_multiplicative_expression fuel additive_op.
Definition accept_additive_expression : P unit := accept_multiplicative_expression ;; parse_additive_expression.

(** In a range [<*] is not an operator. *)
Definition relational_op : P (option operators) :=
  gt ← equals ">";
  if (gt : bool) then mret (Some GT) else
  lt ← equals "<";
  if (lt : bool) then
    s ← getS;
    star ← (if scanning_range_in_progress s then next_equals "*" else mret false);
    if (star : bool) then mret None else mret (Some LT)
  else which_op [(">=", GE); ("<=", LE)]%string.

Definition parse_relational_expression : P unit := binary_loop accept_additive_expression fuel relational_op.
Definition accept_relational_expression : P unit := accept_additive_expression ;; parse_relational_expression.

Definition equality_op : P (option operators) := which_op [("==", EQ); ("!=", NE); ("eq", EQS); ("ne", NES)]%string.

Definition parse_equality_expression : P unit := binary_loop accept_relational_expression fuel equality_op.
Definition accept_equality_expression : P unit := accept_relational_expression ;; parse_equality_expression.

Definition parse_AND_expression : P unit := binary_loop accept_equality_expression fuel (which_op [("&", BAND)]%string).
Definition accept_AND_expression : P unit := accept_equality_expression ;; parse_AND_expression.

Definition parse_exclusive_OR_expression : P unit := binary_loop accept_AND_expression fuel (which_op [("^", XOR)]%string).
Definition accept_exclusive_OR_expression : P unit := accept_AND_expression ;; parse_exclusive_OR_expression.

Definition parse_inclusive_OR_expression : P unit :=
  binary_loop accept_exclusive_OR_expression fuel (which_op [("|", BOR)]%string).
Definition accept_inclusive_OR_expression : P unit := accept_exclusive_OR_expression ;; parse_inclusive_OR_expression.

Definition parse_logical_AND_expression : P unit := short_loop accept_inclusive_OR_expression fuel "&&" JUMPZ.
Definition accept_logical_AND_expression : P unit := accept_inclusive_OR_expression ;; parse_logical_AND_expression.

Definition parse_logical_OR_expression : P unit := short_loop accept_logical_AND_expression fuel "||" JUMPNZ.
Definition accept_logical_OR_expression : P unit := accept_logical_AND_expression ;; parse_logical_OR_expression.

(** *** The conditional operator and assignment *)
Definition change_level (d : Z) : P unit := modS (fun s => set_level (parse_recursion_level s + d) s).

Definition parse_conditional_expression : P unit :=
  b ← equals "?";
  if (b : bool) then
    change_level (-1) ;;
    skip 1 ;;
    s ← getS;
    let savepc1 := a_count s in
    add_action JTERN no_arg ;;
    parse_expression ;;
    expect ":" ;;
    s ← getS;
    let savepc2 := a_count s in
    add_action JUMP no_arg ;;
    patch savepc1 ;;
    parse_expression ;;
    patch savepc2 ;;
    change_level 1
  else mret tt.

Definition parse_assignment_expression : P bool :=
  l ← at_letter;
  if negb l then mret false else
  e ← next_equals "=";
  if negb e then mret false else
  s ← getS;
  varname ← lift (m_capture input_line token (c_token s) (c_token s));
  add_action PUSHC (v_arg (STRING varname)) ;;
  skip 2 ;;
  parse_expression ;;
  add_action ASSIGN no_arg ;;
  mret true.

Definition expression_body : P unit :=
  done ← parse_assignment_expression;
  if (done : bool) then mret tt else
  change_level 1 ;;
  accept_logical_OR_expression ;;
  parse_conditional_expression ;;
  change_level (-1).
End bodies.

(** ** The parser *)
Fixpoint parse_expression (fuel : nat) : P unit :=
  match fuel with
  | O => fun _ => Timeout
  | S f => fun s => expression_body f (parse_expression f) (parse_unary_expression f) s
  end
with parse_unary_expression (fuel : nat) : P unit :=
  match fuel with
  | O => fun _ => Timeout
  | S f => fun s => unary_body f (parse_expression f) (parse_unary_expression f) s
  end.

(** ** Expressions in commands *)
Definition run_machine {A} (m : M mach gperr A) : P A := fun s =>
  match m (machine s) with
  | Ok (a, x) => Ok (a, set_machine x s)
  | Err e => Err e
  | Timeout => Timeout
  end.

Context (END_OF_COMMAND : P bool) (try_to_get_string : P (option (list Z))).

Definition const_express (fuel : nat) : P value :=
  s ← getS;
  let tkn := c_token s in
  eoc ← END_OF_COMMAND;
  if (eoc : bool) then fail else
  modS (set_dummy_func false) ;;
  temp_at (parse_expression fuel) ;;
  s ← getS;
  match at_ s with
  | None => throw (GpFault NullDeref)
  | Some t =>
      v ← run_machine (evaluate_at (actions t));
      s ← getS;
      if undefined (env s) then int_error (Z.of_nat tkn) else
      match v with Some v => mret v | None => throw (GpFault OutOfBounds) end
  end.

Definition const_string_express (fuel : nat) : P value :=
  modS (set_string_result_only true) ;;
  v ← const_express fuel;
  modS (set_string_result_only false) ;;
  mret v.

Definition real_expression (fuel : nat) : P dbl := v ← const_express fuel; lift (real v).
Definition int_expression (fuel : nat) : P Z := d ← real_expression fuel; mret (int_of_dbl d).

Definition is_dummy_op (op : operators) : bool := match op with PUSHD1 | PUSHD2 | PUSHD | SUM => true | _ => false end.

(** The string, if the expression is one, and the table left in [at]. *)
Definition string_or_express (fuel : nat) : P (option (list Z)) :=
  eoc ← END_OF_COMMAND;
  if (eoc : bool) then fail else
  str ← at_string;
  if (str : bool) then try_to_get_string else
  temp_at (parse_expression fuel) ;;
  s ← getS;
  match at_ s with
  | None => throw (GpFault NullDeref)
  | Some t =>
      if existsb (fun a => is_dummy_op (index a)) (actions t) then mret None else
      v ← run_machine (evaluate_at (actions t));
      s ← getS;
      mret (if undefined (env s) then None else match v with Some (STRING x) => Some x | _ => None end)
  end.
End parse.

(** The table that calls [column(string)]. *)
Definition create_call_column_at `{Doubles} (column : nat) (str : list Z) : list at_entry :=
  [MkAt PUSHC (v_arg (STRING str)); MkAt (SF column) (j_arg 0)].
