(* ===== verification/GpExec.v ===== *)
(** * gnuplot: execution computes the meaning

    [reach C n len m base o]: from the machine [m] at action [n], in at most
    [len] steps, the table [C] gets to action [n + len] with the outcome [o] on
    top of the stack [base], or fails as [o] says. *)
From S2P Require Import Prelude GpUtil GpEval GpSyntax.
From stdpp Require Import strings.
Open Scope Z_scope.

Section exec.
Context `{GL : GpLaws}.
Implicit Types (C : list at_entry) (m : mach) (g : genv) (base : list value) (o : outcome).

Definition steps C (k : nat) (pc : Z) m (pc' : Z) m' : Prop :=
  forall fuel, execute_loop (k + fuel) C pc m = execute_loop fuel C pc' m'.

Definition reach C (n len : nat) m base o : Prop :=
  match o with
  | None | Some Timeout => True
  | Some (Ok (v, g')) =>
      exists k j, (k <= len)%nat /\ steps C k (Z.of_nat n) m (Z.of_nat (n + len)) (MkMach g' (base ++ [v]) j)
  | Some (Err x) => exists k, (k <= len)%nat /\ forall fuel, execute_loop (k + fuel) C (Z.of_nat n) m = Err x
  end.

Lemma step_ok C n a m m' d : C !! n = Some a -> do_action a (set_jump 1 m) = Ok (tt, m') ->
  is_jump (index a) || (jump_offset m' =? 1) = true -> jump_offset m' = Z.of_nat d ->
  steps C 1 (Z.of_nat n) m (Z.of_nat (n + d)) m'.
Proof.
  intros Ha Hd Hj Ho fuel. change (1 + fuel)%nat with (Datatypes.S fuel). cbn [execute_loop].
  pose proof (lookup_lt_Some _ _ _ Ha). rewrite (proj2 (Z.ltb_lt _ _)) by lia.
  rewrite (proj2 (Z.ltb_ge _ _)) by lia. rewrite Nat2Z.id, Ha.
  mstep ltac:(reflexivity). mstep ltac:(exact Hd). mstep ltac:(reflexivity). rewrite Hj.
  by rewrite Ho, Nat2Z.inj_add.
Qed.

Lemma step_err C n a m x : C !! n = Some a -> do_action a (set_jump 1 m) = Err x ->
  forall fuel, execute_loop (1 + fuel) C (Z.of_nat n) m = Err x.
Proof.
  intros Ha Hd fuel. change (1 + fuel)%nat with (Datatypes.S fuel). cbn [execute_loop].
  pose proof (lookup_lt_Some _ _ _ Ha). rewrite (proj2 (Z.ltb_lt _ _)) by lia.
  rewrite (proj2 (Z.ltb_ge _ _)) by lia. rewrite Nat2Z.id, Ha.
  mstep ltac:(reflexivity). by rewrite M_bind_eq, Hd.
Qed.

Lemma reach_step C n d len m m' base o : steps C 1 (Z.of_nat n) m (Z.of_nat (n + Datatypes.S d)) m' ->
  reach C (n + Datatypes.S d) len m' base o -> reach C n (Datatypes.S d + len) m base o.
Proof.
  intros Hs. unfold reach. destruct o as [[[v g']|x|]|]; [|..|done|done].
  - intros (k & j & Hk & R). exists (Datatypes.S k), j. split; [lia|]. intros fuel.
    change (Datatypes.S k + fuel)%nat with (1 + (k + fuel))%nat. rewrite Hs, R. f_equal. lia.
  - intros (k & Hk & R). exists (Datatypes.S k). split; [lia|]. intros fuel.
    change (Datatypes.S k + fuel)%nat with (1 + (k + fuel))%nat. by rewrite Hs.
Qed.

Lemma reach_andthen C n l1 l2 m base1 base o k : reach C n l1 m base1 o ->
  (forall v g j, reach C (n + l1) l2 (MkMach g (base1 ++ [v]) j) base (k v g)) ->
  reach C n (l1 + l2) m base (andthen o k).
Proof.
  intros H1 H2. destruct o as [[[v g]|x|]|]; cbn [andthen]; [|..|done|done].
  - destruct H1 as (k1 & j1 & Hk1 & R1). specialize (H2 v g j1). unfold reach in *.
    destruct (k v g) as [[[w g2]|x|]|]; [|..|done|done].
    + destruct H2 as (k2 & j2 & Hk2 & R2). exists (k1 + k2)%nat, j2. split; [lia|]. intros fuel.
      rewrite <- Nat.add_assoc, R1, R2. f_equal. lia.
    + destruct H2 as (k2 & Hk2 & R2). exists (k1 + k2)%nat. split; [lia|]. intros fuel.
      by rewrite <- Nat.add_assoc, R1.
  - destruct H1 as (k1 & Hk1 & R1). exists k1. split; [lia|done].
Qed.

(** ** The actions of [eval.c] *)
Lemma last_stack base v : last (base ++ [v]) = Some v.
Proof. apply last_snoc. Qed.

Lemma top_of_stack_ok g base v j : top_of_stack (MkMach g (base ++ [v]) j) = Ok (v, MkMach g (base ++ [v]) j).
Proof. unfold top_of_stack. rewrite M_bind_eq. cbn. by rewrite last_stack. Qed.

Lemma pop_top_ok g base v j : pop (MkMach g (base ++ [v]) j) = Ok (v, MkMach g base j).
Proof. unfold pop. rewrite M_bind_eq. cbn. rewrite last_stack. rewrite M_bind_eq. cbn. by rewrite removelast_last. Qed.

(** [BOOLE] on the result of a short cut. *)
Lemma reach_bool C n g base v j : C !! n = Some (MkAt BOOLE no_arg) ->
  reach C n 1 (MkMach g (base ++ [v]) j) base (test v (fun t => Some (Ok (of_bool t, g)))).
Proof.
  intros Ha. unfold test. destruct v as [i|re im|str]; cbn [truth reach].
  - exists 1%nat, 1. split; [lia|]. apply (step_ok C n _ _ _ 1 Ha); [|done|done].
    cbn [do_action index]. unfold f_bool. mstep ltac:(apply top_of_stack_ok). mstep ltac:(reflexivity).
    unfold modS. cbn. rewrite removelast_last. unfold of_bool. by destruct (i =? 0).
  - exists 1%nat. split; [lia|]. apply (step_err C n _ _ _ Ha). cbn [do_action index]. unfold f_bool.
    by mstep ltac:(apply top_of_stack_ok).
  - exists 1%nat. split; [lia|]. apply (step_err C n _ _ _ Ha). cbn [do_action index]. unfold f_bool.
    by mstep ltac:(apply top_of_stack_ok).
Qed.

(** The two short cuts: with the truth value [stop] the code of the second
    operand, [len] actions and [BOOLE], is jumped over. *)
Lemma reach_short C n len op stop g base v j o :
  (op = JUMPZ /\ stop = false) \/ (op = JUMPNZ /\ stop = true) ->
  C !! n = Some (MkAt op (j_arg (Z.of_nat len + 1))) -> C !! (n + Datatypes.S len)%nat = Some (MkAt BOOLE no_arg) ->
  (forall j', reach C (n + 1) (len + 1) (MkMach g base j') base o) ->
  reach C n (Datatypes.S (len + 1)) (MkMach g (base ++ [v]) j) base
    (test v (fun t => if bool_decide (t = stop) then Some (Ok (of_bool stop, g)) else o)).
Proof.
  intros Hop Ha Hb Ho. unfold test. destruct v as [i|re im|str]; cbn [truth].
  - assert (Hj : forall b, negb (i =? 0) = b -> do_action (MkAt op (j_arg (Z.of_nat len + 1))) (MkMach g (base ++ [INTGR i]) 1) =
        Ok (tt, if bool_decide (b = stop) then MkMach g (base ++ [INTGR i]) (Z.of_nat len + 1) else MkMach g base 1)).
    { intros b Eb. destruct Hop as [[-> ->]|[-> ->]]; cbn [do_action index arg]; unfold f_jumpz, f_jumpnz;
        mstep ltac:(apply top_of_stack_ok); mstep ltac:(reflexivity); rewrite Eb; destruct b; cbn [negb];
        first [by mstep ltac:(apply pop_top_ok) | by mstep ltac:(reflexivity)]. }
    specialize (Hj _ eq_refl).
    destruct (decide (negb (i =? 0) = stop)) as [Es|Es].
    + rewrite bool_decide_true in * by done. replace (Datatypes.S (len + 1)) with (Datatypes.S len + 1)%nat by lia.
      eapply reach_step.
      * apply (step_ok C n _ (MkMach g (base ++ [INTGR i]) j) _ (Datatypes.S len) Ha Hj); [by destruct Hop as [[-> _]|[-> _]]|cbn; lia].
      * pose proof (reach_bool C _ g base (INTGR i) (Z.of_nat len + 1) Hb) as R. unfold test in R. cbn [truth] in R.
        by rewrite Es in R.
    + rewrite bool_decide_false in * by done. change (Datatypes.S (len + 1)) with (1 + (len + 1))%nat.
      eapply (reach_step C n 0); [|apply Ho].
      apply (step_ok C n _ (MkMach g (base ++ [INTGR i]) j) _ 1 Ha Hj); [by destruct Hop as [[-> _]|[-> _]]|done].
  - exists 1%nat. split; [lia|]. apply (step_err C n _ _ _ Ha).
    destruct Hop as [[-> ->]|[-> ->]]; cbn [do_action index arg]; unfold f_jumpz, f_jumpnz; by mstep ltac:(apply top_of_stack_ok).
  - exists 1%nat. split; [lia|]. apply (step_err C n _ _ _ Ha).
    destruct Hop as [[-> ->]|[-> ->]]; cbn [do_action index arg]; unfold f_jumpz, f_jumpnz; by mstep ltac:(apply top_of_stack_ok).
Qed.

(** ** Code inside a table *)
Definition code_at C (n : nat) (c : list at_entry) : Prop := forall i a, c !! i = Some a -> C !! (n + i)%nat = Some a.

Lemma code_at_app C n c1 c2 : code_at C n (c1 ++ c2) -> code_at C n c1 /\ code_at C (n + length c1) c2.
Proof.
  intros Hc. split; intros i a Hi.
  - apply Hc. by apply lookup_app_l_Some.
  - rewrite <- Nat.add_assoc. apply Hc. rewrite lookup_app_r by lia. rewrite <- Hi. f_equal. lia.
Qed.

Lemma code_at_one C n a : code_at C n [a] -> C !! n = Some a.
Proof. intros Hc. rewrite <- (Nat.add_0_r n). by apply Hc. Qed.

Lemma code_at_mid pre c post : code_at (pre ++ c ++ post) (length pre) c.
Proof.
  intros i a Hi. rewrite lookup_app_r by lia. replace (length pre + i - length pre)%nat with i by lia.
  by apply lookup_app_l_Some.
Qed.

Definition runs_code C (e : expr) : Prop := forall n base g j, formed e -> code_at C n (code e) ->
  (length base + depth e <= STACK_DEPTH)%nat -> reach C n (length (code e)) (MkMach g base j) base (eval e g).

Lemma reach_list C es k l2 base : Forall (runs_code C) es -> foldr (fun x acc => formed x /\ acc) True es ->
  forall n vs g j, code_at C n (flat_map code es) -> (length base + depths depth (length vs) es <= STACK_DEPTH)%nat ->
  (forall ws g j, reach C (n + length (flat_map code es)) l2 (MkMach g (base ++ ws) j) base (k ws g)) ->
  reach C n (length (flat_map code es) + l2) (MkMach g (base ++ vs) j) base (eval_list eval es vs g k).
Proof.
  induction 1 as [|e es He Hes IH]; intros Hf n vs g j Hc Hd Hk; cbn [flat_map eval_list].
  { cbn in Hk |- *. rewrite Nat.add_0_r in Hk. apply Hk. }
  destruct Hf as [Hfe Hf]. cbn [flat_map] in Hc, Hk. apply code_at_app in Hc as [Hc1 Hc2]. cbn [depths] in Hd.
  rewrite length_app in Hk |- *. rewrite <- Nat.add_assoc. eapply reach_andthen.
  - apply He; [done|done|]. rewrite length_app. lia.
  - intros v g' j'. cbn beta. rewrite <- app_assoc. apply (IH Hf); [done|rewrite length_app; cbn; rewrite Nat.add_1_r; lia|].
    intros ws g2 j2. rewrite <- Nat.add_assoc. apply Hk.
Qed.

Lemma reach_plain C n op x vs base g j : plain op -> takes op x vs g = true ->
  (length base + room_for op x <= STACK_DEPTH)%nat -> C !! n = Some (MkAt op x) ->
  reach C n 1 (MkMach g (base ++ vs) j) base (Some (sem op x vs g)).
Proof.
  intros Hp Ht Hroom Ha. pose proof (plain_action op x vs base g Hp Ht Hroom) as Hf.
  assert (Hd : do_action (MkAt op x) (set_jump 1 (MkMach g (base ++ vs) j)) = ft_func op x (MkMach g (base ++ vs) 1)).
  { destruct Hp as (Hj & Hb & _). by destruct op. }
  rewrite Hf in Hd. unfold reach. destruct (sem op x vs g) as [[v g']|y|] eqn:E; [|..|done].
  - exists 1%nat, 1. split; [lia|]. apply (step_ok C n _ _ _ 1 Ha Hd); [|done]. apply orb_true_r.
  - exists 1%nat. split; [lia|]. by apply (step_err C n _ _ _ Ha).
Qed.

Lemma reach_jump C n len m base o : (forall j, reach C (n + Datatypes.S len) 0 (set_jump j m) base o) ->
  C !! n = Some (MkAt JUMP (j_arg (Z.of_nat len + 1))) -> reach C n (Datatypes.S len) m base o.
Proof.
  intros Ho Ha. rewrite <- (Nat.add_0_r (Datatypes.S len)). eapply reach_step; [|apply Ho].
  eapply (step_ok C n _ m _ (Datatypes.S len) Ha); [reflexivity|done|]. cbn. lia.
Qed.

Lemma reach_tern C n la lb g base v j (k : bool -> outcome) :
  C !! n = Some (MkAt JTERN (j_arg (Z.of_nat la + 2))) -> C !! (n + Datatypes.S la)%nat = Some (MkAt JUMP (j_arg (Z.of_nat lb + 1))) ->
  (forall j', reach C (n + 1) la (MkMach g base j') base (k true)) ->
  (forall j', reach C (n + la + 2) lb (MkMach g base j') base (k false)) ->
  reach C n (1 + la + 1 + lb) (MkMach g (base ++ [v]) j) base (test v k).
Proof.
  intros Ha Hb Ht Hf. unfold test. destruct v as [i|re im|str]; cbn [truth].
  - assert (Hd : do_action (MkAt JTERN (j_arg (Z.of_nat la + 2))) (set_jump 1 (MkMach g (base ++ [INTGR i]) j)) =
        Ok (tt, MkMach g base (if i =? 0 then Z.of_nat la + 2 else 1))).
    { cbn [do_action index arg]. unfold f_jtern. mstep ltac:(apply pop_top_ok). mstep ltac:(reflexivity).
      destruct (i =? 0); [by mstep ltac:(reflexivity)|done]. }
    destruct (i =? 0); cbn [negb].
    + assert (Hr : reach C (n + (2 + la)) lb (MkMach g base (Z.of_nat la + 2)) base (k false)).
      { replace (n + (2 + la))%nat with (n + la + 2)%nat by lia. apply Hf. }
      replace (1 + la + 1 + lb)%nat with (Datatypes.S (1 + la) + lb)%nat by lia.
      eapply reach_step; [|exact Hr]. apply (step_ok C n _ _ _ (2 + la) Ha Hd); [done|cbn; lia].
    + replace (1 + la + 1 + lb)%nat with (1 + (la + (1 + lb)))%nat by lia.
      eapply (reach_step C n 0); [by apply (step_ok C n _ _ _ 1 Ha Hd)|].
      specialize (Ht 1). unfold reach in *. destruct (k true) as [[[v g']|y|]|]; [|..|done|done].
      * destruct Ht as (k1 & j1 & Hk1 & R1). exists (k1 + 1)%nat, (Z.of_nat lb + 1). split; [lia|].
        intros fuel. rewrite <- Nat.add_assoc, R1.
        replace (n + 1 + la)%nat with (n + Datatypes.S la)%nat by lia.
        rewrite (step_ok C _ _ (MkMach g' (base ++ [v]) j1) (MkMach g' (base ++ [v]) (Z.of_nat lb + 1)) (Datatypes.S lb) Hb); [|done|done|cbn; lia].
        f_equal. lia.
      * destruct Ht as (k1 & Hk1 & R1). exists k1. split; [lia|done].
  - exists 1%nat. split; [lia|]. apply (step_err C n _ _ _ Ha). cbn [do_action index arg]. unfold f_jtern.
    by mstep ltac:(apply pop_top_ok).
  - exists 1%nat. split; [lia|]. apply (step_err C n _ _ _ Ha). cbn [do_action index arg]. unfold f_jtern.
    by mstep ltac:(apply pop_top_ok).
Qed.

Theorem exec_code C e : runs_code C e.
Proof.
  induction e as [op x es IH|a b IHa IHb|a b IHa IHb|c a b IHc IHa IHb|a b IHa IHb] using expr_rect';
    intros n base g j Hf Hc Hd; cbn [code formed depth eval] in *.
  - destruct Hf as [Hp Hf]. rewrite length_app. apply code_at_app in Hc as [Hc Hop]. apply code_at_one in Hop.
    pose proof (reach_list C es (fun vs g' => if takes op x vs g' then Some (sem op x vs g') else None) 1 base IH Hf n [] g j Hc) as R.
    rewrite app_nil_r in R. apply R; [cbn; lia|]. intros ws g2 j2. destruct (takes op x ws g2) eqn:Et; [|done].
    apply reach_plain; [done|done|lia|done].
  - destruct Hf as [Hfa Hfb]. apply code_at_app in Hc as [Hca Hc]. apply code_at_app in Hc as [Hj Hc].
    apply code_at_app in Hc as [Hcb Hbool]. apply code_at_one in Hj, Hbool. cbn [length] in *.
    rewrite !length_app. cbn [length].
    eapply reach_andthen; [apply IHa; [done|done|lia]|]. intros v g' j'.
    replace (1 + (length (code b) + 1))%nat with (Datatypes.S (length (code b) + 1)) by lia.
    pose proof (reach_short C (n + length (code a)) (length (code b)) JUMPZ false g' base v j'
      (andthen (eval b g') (fun w g'' => test w (fun t' => Some (Ok (of_bool t', g'')))))) as R.
    unfold test in *. destruct (truth v) as [[]| |] eqn:Et; apply R.
    all: try (by left). all: try done. all: try (by rewrite <- Nat.add_assoc in Hbool).
    all: try (replace (n + length (code a) + Datatypes.S (length (code b)))%nat with (n + length (code a) + 1 + length (code b))%nat by lia; exact Hbool).
    all: intros j2; eapply reach_andthen; [apply IHb; [done|done|lia]|]; intros w g2 j3; by apply reach_bool.
  - destruct Hf as [Hfa Hfb]. apply code_at_app in Hc as [Hca Hc]. apply code_at_app in Hc as [Hj Hc].
    apply code_at_app in Hc as [Hcb Hbool]. apply code_at_one in Hj, Hbool. cbn [length] in *.
    rewrite !length_app. cbn [length].
    eapply reach_andthen; [apply IHa; [done|done|lia]|]. intros v g' j'.
    replace (1 + (length (code b) + 1))%nat with (Datatypes.S (length (code b) + 1)) by lia.
    pose proof (reach_short C (n + length (code a)) (length (code b)) JUMPNZ true g' base v j'
      (andthen (eval b g') (fun w g'' => test w (fun t' => Some (Ok (of_bool t', g'')))))) as R.
    unfold test in *. destruct (truth v) as [[]| |] eqn:Et; apply R.
    all: try (by right). all: try done.
    all: try (replace (n + length (code a) + Datatypes.S (length (code b)))%nat with (n + length (code a) + 1 + length (code b))%nat by lia; exact Hbool).
    all: intros j2; eapply reach_andthen; [apply IHb; [done|done|lia]|]; intros w g2 j3; by apply reach_bool.
  - destruct Hf as (Hfc & Hfa & Hfb). apply code_at_app in Hc as [Hcc Hc]. apply code_at_app in Hc as [Hj Hc].
    apply code_at_app in Hc as [Hca Hc]. apply code_at_app in Hc as [Hj2 Hcb]. apply code_at_one in Hj, Hj2. cbn [length] in *.
    rewrite !length_app. cbn [length]. replace (1 + (length (code a) + (1 + length (code b))))%nat with (1 + length (code a) + 1 + length (code b))%nat by lia.
    eapply reach_andthen; [apply IHc; [done|done|lia]|]. intros v g' j'. cbn beta.
    apply reach_tern; [done| |intros j2..].
    + by replace (n + length (code c) + Datatypes.S (length (code a)))%nat with (n + length (code c) + 1 + length (code a))%nat by lia.
    + apply IHa; [done|done|lia].
    + apply IHb; [done| |lia].
      by replace (n + length (code c) + length (code a) + 2)%nat with (n + length (code c) + 1 + length (code a) + 1)%nat by lia.
  - destruct Hf as [Hfa Hfb]. apply code_at_app in Hc as [Hca Hc]. apply code_at_app in Hc as [Hpop Hcb].
    apply code_at_one in Hpop. cbn [length] in *. rewrite !length_app. cbn [length].
    eapply reach_andthen; [apply IHa; [done|done|lia]|]. intros v g' j'. cbn beta.
    eapply (reach_step C _ 0); [|apply IHb; [done|done|lia]].
    apply (step_ok C _ _ _ (MkMach g' base 1) 1 Hpop); [|done|done]. apply pop_action.
Qed.
End exec.

Section execute.
Context `{GL : GpLaws}.

Definition returns (o : outcome) : Prop := o <> Some Timeout.

Lemma andthen_returns o k : returns o -> (forall v g, returns (k v g)) -> returns (andthen o k).
Proof. unfold returns. destruct o as [[[v g]|x|]|]; cbn; auto; congruence. Qed.

Lemma test_returns v k : (forall b, returns (k b)) -> returns (test v k).
Proof. unfold test, returns. destruct v; cbn; auto; congruence. Qed.

Lemma result_returns x : returns (Some (Ok x)).
Proof. unfold returns. congruence. Qed.

Lemma eval_returns e g : returns (eval e g).
Proof.
  revert g. induction e as [op x es IH|a b IHa IHb|a b IHa IHb|c a b IHc IHa IHb|a b IHa IHb] using expr_rect'; intros g; cbn [eval].
  - assert (Hk : forall vs g', returns (if takes op x vs g' then Some (sem op x vs g') else None)).
    { intros vs g'. unfold returns. destruct (takes op x vs g'); [|congruence]. intros [= E]. by apply sem_returns in E. }
    revert Hk. generalize (fun vs g' => if takes op x vs g' then Some (sem op x vs g') else None). intros k Hk.
    generalize (@nil value). revert g. induction IH as [|e es He Hes IHes]; intros g vs; cbn [eval_list]; [apply Hk|].
    apply andthen_returns; [apply He|]. intros v g'. apply IHes.
  - apply andthen_returns; [apply IHa|]. intros v g'. apply test_returns. intros [|]; [|apply result_returns].
    apply andthen_returns; [apply IHb|]. intros w g''. apply test_returns. intros []; apply result_returns.
  - apply andthen_returns; [apply IHa|]. intros v g'. apply test_returns. intros [|]; [apply result_returns|].
    apply andthen_returns; [apply IHb|]. intros w g''. apply test_returns. intros []; apply result_returns.
  - apply andthen_returns; [apply IHc|]. intros v g'. apply test_returns. intros []; [apply IHa|apply IHb].
  - apply andthen_returns; [apply IHa|]. intros _ g'. apply IHb.
Qed.

(** Running the whole table. *)
Lemma execute_code e g base j : formed e -> (length base + depth e <= STACK_DEPTH)%nat ->
  match eval e g with
  | Some (Ok (v, g')) => execute_at (code e) (MkMach g base j) = Ok (tt, MkMach g' (base ++ [v]) j)
  | Some (Err x) => execute_at (code e) (MkMach g base j) = Err x
  | Some Timeout => False
  | None => True
  end.
Proof.
  intros Hf Hd. pose proof (exec_code (code e) e O base g j Hf) as R.
  assert (Hc : code_at (code e) O (code e)) by (intros i a Hi; done). specialize (R Hc Hd).
  unfold reach in R. cbn [Nat.add] in R. pose proof (eval_returns e g) as Hr.
  destruct (eval e g) as [[[v g']|x|]|]; [|..|done|done].
  - destruct R as (k & j' & Hk & R). unfold execute_at. mstep ltac:(reflexivity).
    replace (S (length (code e))) with (k + S (length (code e) - k))%nat by lia.
    assert (E : execute_loop (S (length (code e) - k)) (code e) (Z.of_nat (length (code e))) (MkMach g' (base ++ [v]) j') = Ok (tt, MkMach g' (base ++ [v]) j')).
    { cbn [execute_loop]. by rewrite Z.ltb_irrefl. }
    change 0 with (Z.of_nat O). by mstep ltac:(rewrite R; exact E).
  - destruct R as (k & Hk & R). unfold execute_at. mstep ltac:(reflexivity).
    replace (S (length (code e))) with (k + S (length (code e) - k))%nat by lia.
    change 0 with (Z.of_nat O). by rewrite M_bind_eq, R.
Qed.
End execute.

(** ** Execution ends, whatever the operands are *)
Section ends.
Context `{GP : Gp}.
Hypothesis actions_return : forall op x m, ft_func op x m <> Timeout.

(** Jumps go forward. *)
Definition forward (a : at_entry) : Prop :=
  is_jump (index a) = true -> exists n, arg a = j_arg n /\ 0 < n.

Lemma code_forward e : formed e -> Forall forward (code e).
Proof.
  assert (Hop : forall op x, is_jump op = false -> forward (MkAt op x)) by (intros op x E; unfold forward; cbn; congruence).
  assert (Hj : forall op c k, 0 < k -> forward (MkAt op (dist c k))).
  { intros op c k Hk _. eexists. split; [reflexivity|]. lia. }
  induction e as [op x es IH|a b IHa IHb|a b IHa IHb|c a b IHc IHa IHb|a b IHa IHb] using expr_rect'; cbn [formed code].
  - intros [[Hp _] Hf]. apply Forall_app. split; [|by repeat constructor; apply Hop].
    induction IH as [|e es He _ IHes]; cbn [flat_map]; [done|]. destruct Hf as [Hfe Hf]. apply Forall_app. split; [by apply He|by apply IHes].
  - intros [Ha Hb]. rewrite !Forall_app, !Forall_singleton. split_and!; [by apply IHa|by apply Hj|by apply IHb|by apply Hop].
  - intros [Ha Hb]. rewrite !Forall_app, !Forall_singleton. split_and!; [by apply IHa|by apply Hj|by apply IHb|by apply Hop].
  - intros (Hc & Ha & Hb). rewrite !Forall_app, !Forall_singleton.
    split_and!; [by apply IHc|by apply Hj|by apply IHa|by apply Hj|by apply IHb].
  - intros [Ha Hb]. rewrite !Forall_app, !Forall_singleton. split_and!; [by apply IHa|by apply Hop|by apply IHb].
Qed.

Lemma do_action_returns a m : forward a -> jump_offset m = 1 ->
  match do_action a m with
  | Ok (_, m') => is_jump (index a) = true -> 0 < jump_offset m'
  | Err _ => True
  | Timeout => False
  end.
Proof.
  intros Hf Hm. destruct a as [op x]. destruct (is_jump op) eqn:Ej.
  - destruct (Hf Ej) as (n & Hn & Hpos). cbn [arg] in Hn. subst x.
    destruct op; try done; cbn [do_action index arg];
      cbv [f_jump f_jumpz f_jumpnz f_jtern top_of_stack pop int_check get_j_arg int_error throw getS modS mbind M_bind mret M_ret];
      [cbn; lia|..]; destruct (last (stack m)) as [[i|re im|str]|]; try done; destruct (i =? 0); cbn [negb]; try (cbn; lia);
      destruct (last (stack m)); cbn; lia.
  - assert (Hx : do_action (MkAt op x) m <> Timeout).
    { destruct op; try done; try apply actions_return. cbn [do_action index]. unfold f_bool, top_of_stack. rewrite !M_bind_eq. cbn.
      destruct (last (stack m)) as [[]|]; done. }
    destruct (do_action (MkAt op x) m) as [[]| |]; [cbn [index]; by rewrite Ej|done|done].
Qed.

Lemma execute_loop_returns actions : Forall forward actions -> forall fuel pc m, 0 <= pc -> (length actions < fuel + Z.to_nat pc)%nat ->
  (0 < fuel)%nat -> execute_loop fuel actions pc m <> Timeout.
Proof.
  intros Hall. induction fuel as [|fuel IH]; intros pc m Hpc Hf Hpos; [lia|]. cbn [execute_loop].
  destruct (pc <? Z.of_nat (length actions)) eqn:El; [|done]. apply Z.ltb_lt in El.
  rewrite (proj2 (Z.ltb_ge _ _)) by lia. destruct (actions !! Z.to_nat pc) as [a|] eqn:Ea; [|done].
  pose proof (proj1 (Forall_lookup _ _) Hall _ _ Ea) as Ha. mstep ltac:(reflexivity).
  pose proof (do_action_returns a (set_jump 1 m) Ha eq_refl) as Hd. rewrite M_bind_eq.
  destruct (do_action a (set_jump 1 m)) as [[[] m']| |]; [|done|done]. mstep ltac:(reflexivity).
  destruct (is_jump (index a)) eqn:Ej; cbn [orb].
  - specialize (Hd eq_refl). apply IH; lia.
  - destruct (jump_offset m' =? 1) eqn:E1; [|done]. apply Z.eqb_eq in E1. apply IH; lia.
Qed.

Lemma pop_returns m : pop m <> Timeout.
Proof. unfold pop. rewrite M_bind_eq. cbn. by destruct (last (stack m)). Qed.

Lemma evaluate_at_returns e m : formed e -> evaluate_at (code e) m <> Timeout.
Proof.
  intros Hf. unfold evaluate_at, execute_at. mstep ltac:(reflexivity). mstep ltac:(reflexivity). rewrite M_bind_eq. mstep ltac:(reflexivity).
  rewrite M_bind_eq. pose proof (execute_loop_returns (code e) (code_forward e Hf) (S (length (code e))) 0) as Hr.
  match goal with |- context [execute_loop ?f ?a ?p ?x] => specialize (Hr x ltac:(lia) ltac:(lia) ltac:(lia)); destruct (execute_loop f a p x) as [[[] m']| |] end;
    [|done|done]. cbn. repeat (rewrite ?M_bind_eq; cbn; case_match; try done).
  exfalso. by eapply pop_returns.
Qed.
End ends.
