(* ===== verification/GpGrammar.v ===== *)
(** * gnuplot: the grammar of expressions

    [spells g l i j e]: the tokens from [i] up to [j] are an expression of the
    precedence level [l] with the syntax tree [e], when [g] holds the user's
    variables and functions and [names] are the active dummy variables.  It says nothing of how the tokens are read: the
    parser of [parse.c] is shown to follow it in [GpParseProofs.v]. *)
From S2P Require Import Prelude GpUtil GpEval GpParse GpSyntax.
From stdpp Require Import strings.
Open Scope Z_scope.

Inductive level := Atom | Factored | Powered | Ranged | Unary | Multiplicative | Additive | Relational | Equality
  | BitAnd | BitXor | BitOr | LogicalAnd | LogicalOr | Expression | Sequence.

(** The operators between operands of the level below, which bind to the left. *)
Definition operators_of (l : level) : list (string * operators) :=
  match l with
  | Multiplicative => [("*", MULT); ("/", DIV); ("%", MOD)]
  | Additive => [(".", CONCATENATE); ("+", PLUS); ("-", MINUS)]
  | Relational => [(">", GT); ("<", LT); (">=", GE); ("<=", LE)]
  | Equality => [("==", EQ); ("!=", NE); ("eq", EQS); ("ne", NES)]
  | BitAnd => [("&", BAND)]
  | BitXor => [("^", XOR)]
  | BitOr => [("|", BOR)]
  | _ => []
  end%string.

Definition above (l : level) : option level :=
  match l with
  | Atom => Some Factored | Factored => Some Powered | Powered => Some Ranged | Ranged => Some Unary
  | Unary => Some Multiplicative | Multiplicative => Some Additive | Additive => Some Relational
  | Relational => Some Equality | Equality => Some BitAnd | BitAnd => Some BitXor | BitXor => Some BitOr
  | BitOr => Some LogicalAnd | LogicalAnd => Some LogicalOr | LogicalOr => Some Expression
  | Expression => Some Sequence | Sequence => None
  end.

Section grammar.
Context `{GP : Gp}.
Context (input_line : list Z) (token : list lexical_unit) (names : list (list Z)).

Definition tok (t : nat) (s : string) : Prop := tok_equals input_line token t (chars s) = Ok true.

Definition name (t : nat) : Prop := isletter input_line token t = Ok true.
Definition other (t : nat) (nm : list Z) : Prop := tok_equals input_line token t nm = Ok false.

Definition constant (v : value) : expr := EPrim PUSHC (v_arg v) [].

(** Token [t] is the name of the variable or the function [p]. *)
Definition names_udv (g : genv) (t p : nat) : Prop := exists u, udvs g !! p = Some u /\
  copy_str input_line token t (Z.of_nat MAX_ID_LEN) = Ok (udv_name u).
Definition names_udf (g : genv) (t p : nat) : Prop := exists u, udfs g !! p = Some u /\
  (tok_equals input_line token t (udf_name u) = Ok true \/
   exists n, token_len token t = Ok n /\ copy_str input_line token t (n + 1) = Ok (udf_name u)).

(** What a standard function gets besides its arguments. *)
Definition hidden (f : nat) (es : list expr) : list expr :=
  (if String.eqb (ft_name f) "sprintf" then [constant (INTGR (Z.of_nat (length es)))] else []) ++
  (if String.eqb (ft_name f) "words" then [constant (INTGR (-1))] else []).

Definition call_of (p : nat) (es : list expr) : expr :=
  match es with
  | [e] => EPrim CALL (udf_arg (Udf p)) [e]
  | _ => EPrim CALLN (udf_arg (Udf p)) (es ++ [constant (INTGR (Z.of_nat (length es)))])
  end.

Definition dummy_of (i : nat) : expr :=
  match i with
  | O => EPrim PUSHD1 (udf_arg DummyFunc) []
  | S O => EPrim PUSHD2 (udf_arg DummyFunc) []
  | i => EPrim PUSHD (udf_arg DummyFunc) [constant (INTGR (Z.of_nat i))]
  end.

Inductive spells (g : genv) : level -> nat -> nat -> expr -> Prop :=
  | sp_above l l' i j e : above l = Some l' -> spells g l i j e -> spells g l' i j e
  | sp_paren i j e : tok i "(" -> spells g Sequence (i + 1) j e -> tok j ")" -> spells g Atom i (j + 1) e
  | sp_column i u n : tok i "$" -> token !! (i + 1)%nat = Some u -> is_token u = false -> l_val u = INTGR n -> 0 <= n ->
      spells g Atom i (i + 2) (EPrim DOLLARS (v_arg (INTGR n)) [])
  | sp_number i u : token !! i = Some u -> is_token u = false -> spells g Atom i (i + 1) (constant (l_val u))
  | sp_string i s : isstring input_line token i = Ok true -> m_quote_capture input_line token i i = Ok s ->
      spells g Atom i (i + 1) (constant (STRING s))
  | sp_builtin i f j es : name i -> is_builtin_function input_line token i = Ok (Some f) -> ft_name f <> "defined"%string ->
      tok (i + 1) "(" -> spells_list g (i + 2) j es -> tok j ")" ->
      spells g Atom i (j + 1) (EPrim (SF f) no_arg (es ++ hidden f es))
  | sp_defined i f p u : name i -> is_builtin_function input_line token i = Ok (Some f) -> ft_name f = "defined"%string ->
      tok (i + 1) "(" -> names_udv g (i + 2) p -> udvs g !! p = Some u ->
      spells g Ranged i (i + 4) (constant (INTGR (if udv_undef u then 0 else 1)))
  | sp_call i p j es : name i -> is_builtin_function input_line token i = Ok None -> names_udf g i p ->
      tok (i + 1) "(" -> spells_list g (i + 2) j es -> tok j ")" -> spells g Atom i (j + 1) (call_of p es)
  | sp_sum i s j k n a b body : tok i "sum" -> tok (i + 1) "[" -> name (i + 2) -> m_capture input_line token (i + 2) (i + 2) = Ok s ->
      tok (i + 3) "=" -> spells g Expression (i + 4) j a -> tok j ":" -> spells g Expression (j + 1) k b -> tok k "]" ->
      spells g Expression (k + 1) n body ->
      spells g Atom i n (EPrim SUM (udf_arg (SumUdf (code body))) [constant (STRING s); a; b])
  | sp_variable i p : name i -> Forall (other i) names -> names_udv g i p ->
      spells g Atom i (i + 1) (EPrim PUSH (udv_arg p) [])
  | sp_dummy i nm d : name i -> Forall (other i) (take d names) -> names !! d = Some nm ->
      tok_equals input_line token i nm = Ok true ->
      spells g Atom i (i + 1) (dummy_of d)
  | sp_factorial i j e : spells g Factored i j e -> tok j "!" -> spells g Factored i (j + 1) (EPrim FACTORIAL no_arg [e])
  | sp_power i j k a b : spells g Factored i j a -> tok j "**" -> spells g Unary (j + 1) k b ->
      spells g Powered i k (EPrim POWER no_arg [a; b])
  | sp_range i j k n e a b : spells g Powered i j e -> tok j "[" -> spells_end g 1 (j + 1) k a -> tok k ":" ->
      spells_end g 65535 (k + 1) n b -> tok n "]" -> spells g Ranged i (n + 1) (EPrim RANGE no_arg [e; a; b])
  | sp_lnot i j e : tok i "!" -> spells g Unary (i + 1) j e -> spells g Unary i j (EPrim LNOT no_arg [e])
  | sp_bnot i j e : tok i "~" -> spells g Unary (i + 1) j e -> spells g Unary i j (EPrim BNOT no_arg [e])
  | sp_minus i j e : tok i "-" -> spells g Unary (i + 1) j e -> spells g Unary i j (EPrim UMINUS no_arg [e])
  | sp_plus i j e : tok i "+" -> spells g Unary (i + 1) j e -> spells g Unary i j e
  | sp_binary l l' str op i j k a b : above l = Some l' -> (str, op) ∈ operators_of l' ->
      spells g l' i j a -> tok j str -> spells g l (j + 1) k b -> spells g l' i k (EPrim op no_arg [a; b])
  | sp_and i j k a b : spells g LogicalAnd i j a -> tok j "&&" -> spells g BitOr (j + 1) k b ->
      spells g LogicalAnd i k (EAnd a b)
  | sp_or i j k a b : spells g LogicalOr i j a -> tok j "||" -> spells g LogicalAnd (j + 1) k b ->
      spells g LogicalOr i k (EOr a b)
  | sp_cond i j k n c a b : spells g LogicalOr i j c -> tok j "?" -> spells g Expression (j + 1) k a -> tok k ":" ->
      spells g Expression (k + 1) n b -> spells g Expression i n (ECond c a b)
  | sp_assign i j s e : name i -> m_capture input_line token i i = Ok s -> tok (i + 1) "=" ->
      spells g Expression (i + 2) j e -> spells g Expression i j (EPrim ASSIGN no_arg [constant (STRING s); e])
  | sp_comma i j k a b : spells g Sequence i j a -> tok j "," -> spells g Expression (j + 1) k b ->
      spells g Sequence i k (ESeq a b)
(** Expressions between commas. *)
with spells_list (g : genv) : nat -> nat -> list expr -> Prop :=
  | sp_one i j e : spells g Expression i j e -> spells_list g i j [e]
  | sp_more i j k es e : spells_list g i j es -> tok j "," -> spells g Expression (j + 1) k e ->
      spells_list g i k (es ++ [e])
(** One end of a range: the limit [z] when it is left out or [*]. *)
with spells_end (g : genv) : Z -> nat -> nat -> expr -> Prop :=
  | sp_limit z i : spells_end g z i i (constant (INTGR z))
  | sp_star z i : tok i "*" -> spells_end g z i (i + 1) (constant (INTGR z))
  | sp_end z i j e : spells g Expression i j e -> spells_end g z i j e.

Scheme spells_mut := Induction for spells Sort Prop
  with spells_list_mut := Induction for spells_list Sort Prop
  with spells_end_mut := Induction for spells_end Sort Prop.
Combined Scheme spells_all from spells_mut, spells_list_mut, spells_end_mut.

(** Entries are only added. *)
Definition extends (g g' : genv) : Prop := udvs g `prefix_of` udvs g' /\ udfs g `prefix_of` udfs g'.

#[export] Instance extends_preorder : PreOrder extends.
Proof. split; [by intros g|]. intros g1 g2 g3 [] []. split; by etrans. Qed.

Lemma names_udv_extends g g' t p : extends g g' -> names_udv g t p -> names_udv g' t p.
Proof. intros [H1 _] (u & Hu & Hc). exists u. split; [by eapply prefix_lookup_Some|done]. Qed.

Lemma names_udf_extends g g' t p : extends g g' -> names_udf g t p -> names_udf g' t p.
Proof. intros [_ H1] (u & Hu & Hc). exists u. split; [by eapply prefix_lookup_Some|done]. Qed.

Lemma spells_extends_all g g' : extends g g' ->
  (forall l i j e, spells g l i j e -> spells g' l i j e) /\
  (forall i j es, spells_list g i j es -> spells_list g' i j es) /\
  (forall z i j e, spells_end g z i j e -> spells_end g' z i j e).
Proof.
  intros He. apply spells_all; intros; try (by econstructor; eauto using names_udv_extends, names_udf_extends).
  eapply sp_defined; [done|done|done|done|by eapply names_udv_extends|]. destruct He as [H1 _]. by eapply prefix_lookup_Some.
Qed.

Lemma spells_extends g g' l i j e : extends g g' -> spells g l i j e -> spells g' l i j e.
Proof. intros Hg. apply (spells_extends_all g g' Hg). Qed.

Lemma spells_list_extends g g' i j es : extends g g' -> spells_list g i j es -> spells_list g' i j es.
Proof. intros Hg. apply (spells_extends_all g g' Hg). Qed.

Lemma spells_end_extends g g' z i j e : extends g g' -> spells_end g z i j e -> spells_end g' z i j e.
Proof. intros Hg. apply (spells_extends_all g g' Hg). Qed.
End grammar.
