(* ===== verification/GpParseProofs.v ===== *)
(** * gnuplot: the parser follows the grammar

    [parsed l s0 s]: between the states [s0] and [s] of the parser the tokens
    read are an expression of the level [l], and the actions added to the table
    are its code.  The section [knot] shows this for the functions of one level
    of the recursion, given the two functions that tie it; the measure is the
    number of tokens that are left. *)
From S2P Require Import Prelude GpUtil GpUtilProofs GpEval GpParse GpSyntax GpGrammar.
From stdpp Require Import strings.
Open Scope Z_scope.

Section tables.
Context `{GP : Gp}.

Definition dummies (s : pst) : list (list Z) := if dummy_func s then take MAX_NUM_VAR (c_dummy_var s) else [].

(** What the parser only reads. *)
Definition rest (s : pst) :=
  ((string_result_only s, scanning_range_in_progress s, dummy_func s, c_dummy_var s),
   (stack (machine s), jump_offset (machine s), undefined (env s), errno (env s), STRING_RESULT_ONLY (env s))).

(** The table has the room that [at_size] says. *)
Definition ready (s : pst) : Prop :=
  exists t, at_ s = Some t /\ (length (actions t) <= at_size s <= room t)%nat.

Record built (s0 s : pst) (c : list at_entry) : Prop := {
  b_ready : ready s;
  b_code : exists t0 t, at_ s0 = Some t0 /\ at_ s = Some t /\ actions t = actions t0 ++ c;
  b_env : extends (env s0) (env s);
  b_rest : rest s = rest s0;
  b_token : (c_token s0 <= c_token s)%nat
}.

Lemma built_refl s : ready s -> built s s [].
Proof.
  intros Hr. destruct (Hr) as (t & Ht & _). split; [done| |done|done|lia]. exists t, t. by rewrite app_nil_r.
Qed.

Lemma built_eq s0 s c d : built s0 s c -> c = d -> built s0 s d.
Proof. by intros Hb <-. Qed.

Lemma built_trans s0 s s' c d : built s0 s c -> built s s' d -> built s0 s' (c ++ d).
Proof.
  intros [_ (t0 & t & H0 & Ht & Hc) He Hr Ht0] [Hok (t1 & t' & H1 & Ht' & Hd) He' Hr' Ht1]. split; [done| |by etrans|congruence|lia].
  exists t0, t'. split_and!; [done|done|]. rewrite Ht in H1. injection H1 as <-. by rewrite Hd, Hc, app_assoc.
Qed.

Lemma built_count s0 s c : built s0 s c -> a_count s = (a_count s0 + length c)%nat.
Proof. intros [_ (t0 & t & H0 & Ht & Hc) _ _ _]. unfold a_count. rewrite H0, Ht, Hc. by rewrite length_app. Qed.

(** Steps that leave the table alone. *)
Lemma built_same s0 s s' c : built s0 s c -> at_ s' = at_ s -> at_size s' = at_size s -> extends (env s) (env s') ->
  rest s' = rest s -> (c_token s <= c_token s')%nat -> built s0 s' c.
Proof.
  intros [(t1 & Ht1 & Hs) Hc He Hr Ht0] Ha Hz He' Hr' Ht. split; [|..|by etrans|congruence|lia].
  - exists t1. by rewrite Ha, Hz.
  - by rewrite Ha.
Qed.

Lemma dummies_rest s s' : rest s' = rest s -> dummies s' = dummies s.
Proof. unfold rest, dummies. by intros [= _ _ -> -> _]. Qed.
End tables.

Section rules.
Context `{GP : Gp}.
Context (input_line : list Z) (token : list lexical_unit).
Implicit Types (s : pst) (c : list at_entry) (e : expr).

Abbreviation W := (wp read_error).
Abbreviation L := (length token).

Lemma int_error_read t : read_error (IntError t).
Proof. by split. Qed.

(** *** The table *)
Lemma W_add s0 s c op x (Q : unit -> pst -> Prop) : (0 < MAX_AT_LEN)%nat -> built s0 s c ->
  (forall s', built s0 s' (c ++ [MkAt op x]) -> c_token s' = c_token s -> env s' = env s -> Q tt s') -> W (add_action op x) Q s.
Proof.
  intros at_len Hb HQ. destruct Hb as [(t & Ht & Hs) (t0 & t1 & H0 & Ht1 & Hc) He Hr Ht0].
  rewrite Ht in Ht1. injection Ht1 as <-.
  assert (E : exists s', add_action op x s = Ok (tt, s') /\ built s0 s' (c ++ [MkAt op x]) /\ c_token s' = c_token s /\ env s' = env s).
  { unfold add_action. rewrite M_bind_eq. cbn [getS]. rewrite Ht. cbn beta.
    assert (Ea : a_count s = length (actions t)) by (unfold a_count; by rewrite Ht). rewrite Ea.
    destruct (at_size s <=? length (actions t))%nat eqn:El.
    - apply Nat.leb_le in El. unfold extend_at. rewrite M_bind_eq. rewrite M_bind_eq. cbn [getS]. rewrite Ht.
      rewrite M_bind_eq. cbn [modS set_at set_at_size at_size]. rewrite M_bind_eq. cbn [getS at_ set_at set_at_size room actions].
      rewrite (proj2 (Nat.ltb_lt _ _)) by lia. eexists. split; [reflexivity|]. split_and!; [|done|done].
      split; [eexists; split; [reflexivity|]|eexists _, _; split_and!; [exact H0|reflexivity|]|done|done|done];
        cbn [actions room at_size set_at set_at_size]; [rewrite length_app; cbn; lia|by rewrite Hc, app_assoc].
    - apply Nat.leb_gt in El. rewrite M_bind_eq. cbn [mret M_ret]. rewrite M_bind_eq. cbn [getS]. rewrite Ht.
      rewrite (proj2 (Nat.ltb_lt _ _)) by lia. eexists. split; [reflexivity|]. split_and!; [|done|done].
      split; [eexists; split; [reflexivity|]|eexists _, _; split_and!; [exact H0|reflexivity|]|done|done|done];
        cbn [actions room at_size set_at set_at_size]; [rewrite length_app; cbn; lia|by rewrite Hc, app_assoc]. }
  destruct E as (s' & E & Hb & Hk & Hv). eapply wp_eq; [exact E|]. by apply HQ.
Qed.

Lemma W_patch s0 s c1 op x c2 pc (Q : unit -> pst -> Prop) : built s0 s (c1 ++ MkAt op x :: c2) ->
  pc = (a_count s0 + length c1)%nat ->
  (forall s', built s0 s' (c1 ++ MkAt op (dist c2 1) :: c2) -> c_token s' = c_token s -> env s' = env s -> Q tt s') ->
  W (patch pc) Q s.
Proof.
  intros Hb -> HQ. pose proof (built_count _ _ _ Hb) as Hn.
  destruct Hb as [(t & Ht & Hs) (t0 & t1 & H0 & Ht1 & Hc) He Hr Ht0]. rewrite Ht in Ht1. injection Ht1 as <-.
  assert (E0 : a_count s0 = length (actions t0)) by (unfold a_count; by rewrite H0).
  assert (Hl : actions t !! (a_count s0 + length c1)%nat = Some (MkAt op x)).
  { rewrite Hc, E0, app_assoc, lookup_app_r by (rewrite length_app; lia). by rewrite length_app, Nat.sub_diag. }
  assert (E : patch (a_count s0 + length c1) s = Ok (tt, set_at (Some (MkTable
     (<[(a_count s0 + length c1)%nat := MkAt op (j_arg (Z.of_nat (a_count s) - Z.of_nat (a_count s0 + length c1)))]> (actions t)) (room t))) s)).
  { unfold patch. rewrite M_bind_eq. cbn [getS]. by rewrite Ht, Hl. }
  eapply wp_eq; [exact E|]. apply HQ; [|done|done]. split; [..|done|done|done].
  - eexists. split; [reflexivity|]. cbn [actions room at_size set_at]. by rewrite length_insert.
  - eexists _, _. split_and!; [exact H0|reflexivity|]. cbn [actions]. rewrite Hn, length_app. cbn [length].
    rewrite Hc, E0, app_assoc, insert_app_r_alt by (rewrite length_app; lia).
    rewrite length_app, Nat.sub_diag. cbn [insert list_insert]. rewrite <- app_assoc. do 3 f_equal.
    unfold dist. repeat f_equal. lia.
Qed.

(** *** Tokens *)
Lemma W_look {A} (f : nat -> res gperr A) k s (Q : A -> pst -> Prop) : good (f (c_token s + k)%nat) ->
  (forall a, f (c_token s + k)%nat = Ok a -> Q a s) -> W (look f k) Q s.
Proof.
  intros Hg HQ. unfold look, wp. rewrite M_bind_eq. cbn [getS]. unfold lift. destruct (f _) as [a| |] eqn:E; [by apply HQ|done|done].
Qed.

Lemma W_lift {A} (r : res gperr A) s (Q : A -> pst -> Prop) : good r -> (forall a, r = Ok a -> Q a s) -> W (lift r) Q s.
Proof. intros Hg HQ. unfold wp, lift. destruct r as [a| |]; [by apply HQ|done|done]. Qed.

Lemma W_equals str s (Q : bool -> pst -> Prop) :
  (forall b, tok_equals input_line token (c_token s) (chars str) = Ok b -> (c_token s < L)%nat -> Q b s) ->
  W (equals input_line token str) Q s.
Proof.
  intros HQ. apply W_look; [apply good_equals|]. intros b. rewrite Nat.add_0_r. intros E. pose proof (equals_inv _ _ _ _ _ E). by apply HQ.
Qed.

Lemma W_next_equals str s (Q : bool -> pst -> Prop) :
  (forall b, tok_equals input_line token (c_token s + 1) (chars str) = Ok b -> (c_token s + 1 < L)%nat -> Q b s) ->
  W (next_equals input_line token str) Q s.
Proof.
  intros HQ. apply W_look; [apply good_equals|]. intros b E. pose proof (equals_inv _ _ _ _ _ E). by apply HQ.
Qed.

Lemma W_at_letter s (Q : bool -> pst -> Prop) :
  (forall b, isletter input_line token (c_token s) = Ok b -> Q b s) -> W (at_letter input_line token) Q s.
Proof. intros HQ. apply W_look; [apply good_isletter|]. intros b. rewrite Nat.add_0_r. apply HQ. Qed.

Lemma W_at_string s (Q : bool -> pst -> Prop) :
  (forall b, isstring input_line token (c_token s) = Ok b -> Q b s) -> W (at_string input_line token) Q s.
Proof. intros HQ. apply W_look; [apply good_isstring|]. intros b. rewrite Nat.add_0_r. apply HQ. Qed.

Lemma W_at_number s (Q : bool -> pst -> Prop) :
  (forall u, token !! c_token s = Some u -> (c_token s < L)%nat -> Q (negb (is_token u)) s) -> W (at_number token) Q s.
Proof.
  intros HQ. apply W_look; [apply good_isanumber|]. intros b. rewrite Nat.add_0_r. unfold isanumber.
  intros (u & [Hu Hl]%token_at_inv & [= <-])%res_bind_inv. by apply HQ.
Qed.

Lemma W_convert s u (Q : value -> pst -> Prop) : token !! c_token s = Some u -> Q (l_val u) s -> W (convert token) Q s.
Proof.
  intros Hu HQ. unfold convert. apply wp_bind, W_look; [apply good_token_at|]. intros a. rewrite Nat.add_0_r.
  unfold token_at. rewrite Hu. intros [= <-]. done.
Qed.

Lemma W_skip s0 s c k (Q : unit -> pst -> Prop) : built s0 s c ->
  (forall s', built s0 s' c -> c_token s' = (c_token s + k)%nat -> env s' = env s -> Q tt s') -> W (skip k) Q s.
Proof. intros Hb HQ. apply wp_modS, HQ; [|done|done]. eapply built_same; [exact Hb|done..|cbn; lia]. Qed.

Lemma W_fail {A} s (Q : A -> pst -> Prop) : W fail Q s.
Proof. unfold fail. apply wp_bind, wp_getS, wp_throw. by split. Qed.

Lemma W_expect s0 s c str (Q : unit -> pst -> Prop) : built s0 s c ->
  (forall s', built s0 s' c -> tok input_line token (c_token s) str -> c_token s' = (c_token s + 1)%nat -> env s' = env s ->
     (c_token s < L)%nat -> Q tt s') ->
  W (expect input_line token str) Q s.
Proof.
  intros Hb HQ. unfold expect. apply wp_bind, W_equals. intros [] Hs Hl; [|apply W_fail].
  eapply W_skip; [exact Hb|]. intros s' Hb' Ht Hv. by apply HQ.
Qed.

(** *** Names *)
Lemma find_udv_spec key (l : list udvt_entry) :
  match l !! find_udv key l with Some u => udv_name u = key | None => find_udv key l = length l end.
Proof.
  induction l as [|u l IH]; cbn; [done|]. destruct (decide _); [done|]. cbn. destruct (l !! find_udv key l); [done|by rewrite IH].
Qed.

Lemma add_udv_by_name_spec key g p g' : add_udv_by_name key g = (p, g') ->
  exists l u, g' = set_udvs (udvs g ++ l) g /\ (udvs g ++ l) !! p = Some u /\ udv_name u = key.
Proof.
  unfold add_udv_by_name. pose proof (find_udv_spec key (udvs g)) as Hf.
  destruct (_ <? _)%nat eqn:E; intros [= <- <-].
  - apply Nat.ltb_lt in E. exists []. rewrite app_nil_r.
    destruct (udvs g !! find_udv key (udvs g)) as [u|] eqn:Eu; [exists u; by destruct g|]. apply lookup_ge_None in Eu. lia.
  - apply Nat.ltb_ge in E. destruct (udvs g !! find_udv key (udvs g)) as [u|] eqn:Eu; [apply lookup_lt_Some in Eu; lia|].
    eexists _, _. split; [reflexivity|]. rewrite Hf, lookup_app_r, Nat.sub_diag by lia. by split.
Qed.

Lemma W_add_udv s0 s c t (Q : nat -> pst -> Prop) : built s0 s c ->
  (forall s' p, built s0 s' c -> names_udv input_line token (env s') t p -> extends (env s) (env s') ->
     c_token s' = c_token s -> Q p s') -> W (add_udv input_line token t) Q s.
Proof.
  intros Hb HQ. unfold add_udv. apply wp_bind, W_lift; [apply good_copy_str|]. intros nm Hnm.
  apply wp_bind, wp_getS. destruct (add_udv_by_name nm (env s)) as [p g] eqn:E.
  apply add_udv_by_name_spec in E as (l & u & -> & Hu & Hk). apply wp_bind, wp_modS, wp_ret.
  assert (He : extends (env s) (env (set_env (set_udvs (udvs (env s) ++ l) (env s)) s))) by (split; [by eexists|done]).
  apply HQ; [|exists u; by subst|done|done]. by eapply built_same.
Qed.

Lemma good_find_udf t l : good (find_udf input_line token t l).
Proof.
  induction l as [|u l IH]; cbn [find_udf]; [done|]. apply good_bind; [apply good_equals|]. intros [] _; [done|].
  by apply good_bind.
Qed.

Lemma find_udf_spec t l p : find_udf input_line token t l = Ok p ->
  match l !! p with Some u => tok_equals input_line token t (udf_name u) = Ok true | None => p = length l end.
Proof.
  revert p. induction l as [|u l IH]; cbn [find_udf]; intros p; [by intros [= <-]|].
  intros (b & Hb & Hp)%res_bind_inv. destruct b; [by injection Hp as <-|].
  apply res_bind_inv in Hp as (n & Hn & [= <-]). specialize (IH n Hn). cbn. destruct (l !! n); [done|by rewrite IH].
Qed.

Lemma W_add_udf s0 s c t (Q : nat -> pst -> Prop) : built s0 s c ->
  (forall s' p, built s0 s' c -> names_udf input_line token (env s') t p -> extends (env s) (env s') ->
     c_token s' = c_token s -> Q p s') -> W (add_udf input_line token t) Q s.
Proof.
  intros Hb HQ. unfold add_udf. apply wp_bind, wp_getS, wp_bind, W_lift; [apply good_find_udf|]. intros p Hp.
  pose proof (find_udf_spec _ _ _ Hp) as Hf. destruct (_ <? _)%nat eqn:E.
  - apply Nat.ltb_lt, lookup_lt_is_Some in E as [u Eu]. rewrite Eu in Hf. apply wp_ret, HQ; [done| |done|done].
    exists u. split; [done|by left].
  - apply Nat.ltb_ge in E. destruct (udfs (env s) !! p) as [u|] eqn:Eu; [apply lookup_lt_Some in Eu; lia|]. subst p.
    apply wp_bind, W_lift; [apply good_token_len|]. intros n Hn. apply wp_bind, W_lift; [apply good_copy_str|]. intros nm Hnm.
    apply wp_bind, wp_modS, wp_ret. match goal with |- Q _ ?s' => assert (He : extends (env s) (env s')) by (split; [done|by eexists]) end.
    apply HQ; [by eapply built_same| |done|done]. eexists. split; [cbn; rewrite lookup_app_r, Nat.sub_diag by lia; done|].
    right. exists n. by split.
Qed.
End rules.

(** ** One level of the recursion *)
Section knot.
Context `{GP : Gp}.
Context (input_line : list Z) (token : list lexical_unit) (names : list (list Z)).
Hypothesis at_len : (0 < MAX_AT_LEN)%nat.
Implicit Types (s : pst) (c : list at_entry) (e : expr) (l : level).

Abbreviation W := (wp read_error).
Abbreviation L := (length token).
Abbreviation spells := (spells input_line token names).

(** The tokens that are left. *)
Definition left_of s : nat := L - c_token s.

Definition parsed l s0 s : Prop := exists e, formed e /\ spells (env s) l (c_token s0) (c_token s) e /\
  built s0 s (code e) /\ dummies s0 = names /\ (c_token s0 < c_token s)%nat /\ (c_token s0 < L)%nat.

Lemma parsed_above l l' s0 s : above l = Some l' -> parsed l s0 s -> parsed l' s0 s.
Proof. intros Ha (e & Hf & He & Hr). exists e. split; [done|]. split; [by eapply sp_above|done]. Qed.

Lemma parsed_ready l s0 s : parsed l s0 s -> ready s.
Proof. intros (e & _ & _ & [] & _). done. Qed.

Lemma parsed_names l s0 s : parsed l s0 s -> dummies s = names.
Proof. intros (e & _ & _ & [_ _ _ Hr _] & <- & _). by apply dummies_rest. Qed.

Lemma parsed_left l s0 s : parsed l s0 s -> (left_of s < left_of s0)%nat.
Proof. intros (e & _ & _ & _ & _ & H1 & H2). unfold left_of. lia. Qed.

Lemma built_names s0 s c : built s0 s c -> dummies s0 = names -> dummies s = names.
Proof. intros [_ _ _ Hr _] <-. by apply dummies_rest. Qed.

(** A parser of its own operand, in the middle of others. *)
Lemma W_parsed {A} l (m : M pst gperr A) s0 s c (Q : A -> pst -> Prop) : built s0 s c ->
  W m (fun _ s' => parsed l s s') s ->
  (forall a s' e, formed e -> spells (env s') l (c_token s) (c_token s') e -> extends (env s) (env s') ->
     built s0 s' (c ++ code e) -> (c_token s < c_token s')%nat -> (c_token s < L)%nat -> Q a s') -> W m Q s.
Proof.
  intros Hb Hm HQ. eapply wp_mono; [exact Hm|]. intros a s' (e & Hf & He & Hb' & _ & H1 & H2).
  apply (HQ a s' e); [done|done|apply Hb'|by eapply built_trans|done|done].
Qed.

(** Rewrite positions and environments to where they were last changed. *)
Ltac tidy := repeat match goal with
  | E : c_token ?s = _ |- context [c_token ?s] => rewrite E
  | E : env ?s = _ |- context [env ?s] => rewrite E
  | E : c_token ?s = _, H : context [c_token ?s] |- _ => rewrite E in H
  | E : env ?s = _, H : context [env ?s] |- _ => rewrite E in H
  end.

(** Facts about an earlier environment. *)
Ltac later := tidy; first [eassumption
  | eapply spells_extends; [|eassumption]; later_env | eapply spells_list_extends; [|eassumption]; later_env
  | eapply spells_end_extends; [|eassumption]; later_env | eapply names_udv_extends; [|eassumption]; later_env
  | eapply names_udf_extends; [|eassumption]; later_env ]
with later_env := first [eassumption | reflexivity | etransitivity; [eassumption|later_env]].

Ltac pskip := apply wp_bind; eapply W_skip; [eassumption|intros ? ? ? ?].
Ltac padd := first [apply wp_bind; eapply W_add; [done|eassumption|intros ? ? ? ?] | eapply W_add; [done|eassumption|intros ? ? ? ?]].
Ltac pexpect := apply wp_bind; eapply W_expect; [eassumption|intros ? ? ? ? ? ?].
Ltac pready := solve [eapply b_ready; eassumption | eapply built_names; eassumption | unfold left_of in *; tidy; lia].
(** The code of the whole. *)
Ltac pcode := eapply built_eq; [eassumption|]; cbn [code flat_map constant]; rewrite ?app_nil_r, <- ?app_assoc; reflexivity.
(** A part, parsed by what the hypothesis or lemma [H] says. *)
Tactic Notation "ppart" constr(H) ident(e) := first [apply wp_bind; eapply W_parsed; [eassumption|apply H; pready|intros ? ? e ? ? ? ? ? ?]
  | eapply W_parsed; [eassumption|apply H; pready|intros ? ? e ? ? ? ? ? ?]].

Context (fuel : nat) (parse_expression parse_unary_expression : M pst gperr unit).
Hypothesis expression_ok : forall s, ready s -> dummies s = names -> (2 * left_of s + 2 <= fuel)%nat ->
  W parse_expression (fun _ s' => parsed Expression s s') s.
Hypothesis unary_ok : forall s, ready s -> dummies s = names -> (2 * left_of s + 1 <= fuel)%nat ->
  W parse_unary_expression (fun _ s' => parsed Unary s s') s.

Lemma comma_loop_ok n s0 s : (left_of s < n)%nat -> (2 * left_of s + 2 <= fuel)%nat -> parsed Sequence s0 s ->
  W (comma_loop input_line token parse_expression n) (fun _ s' => parsed Sequence s0 s') s.
Proof.
  revert s. induction n as [|n IH]; intros s Hn Hf Hp; [lia|]. cbn [comma_loop].
  pose proof (parsed_names _ _ _ Hp) as Hnm. apply wp_bind, W_equals. intros [] Heq Hl; [|by apply wp_ret].
  destruct Hp as (e & Hfe & Hse & Hb & Hd & H1 & H2).
  pskip. padd. ppart expression_ok e'. apply IH; [pready..|].
  exists (ESeq e e'). split_and!; [done|eapply sp_comma; later|pcode|done|lia|done].
Qed.

Lemma parse_parentheses_ok s : ready s -> dummies s = names -> (2 * left_of s <= fuel)%nat ->
  tok input_line token (c_token s) "(" -> (c_token s < L)%nat ->
  W (parse_parentheses input_line token fuel parse_expression) (fun _ s' => parsed Atom s s') s.
Proof.
  intros Hr Hd Hf Ho Hl. unfold parse_parentheses. pose proof (built_refl s Hr).
  pskip. apply wp_bind. eapply wp_mono; [apply expression_ok; pready|]. intros [] s2 Hp2. pose proof (parsed_left _ _ _ Hp2).
  apply wp_bind. eapply wp_mono; [apply (comma_loop_ok fuel s' s2); [pready..|by apply (parsed_above Expression)]|].
  intros [] s3 (e & Hfe & Hse & Hb & Hd1 & Ht & Hlt). eapply W_expect; [eassumption|]. intros s4 Hb4 Ht4 Hc4 Hv4 Hl4.
  exists e. split_and!; [done|tidy; by apply sp_paren| |done|lia|done].
  eapply built_eq; [by eapply built_trans|done].
Qed.

(** The numbers of columns are of no concern here. *)
Lemma built_columns s0 s c n h : built s0 s c -> built s0 (set_columns n h s) c.
Proof. intros Hb. by eapply built_same. Qed.

Lemma parse_column_ok s : ready s -> dummies s = names ->
  tok input_line token (c_token s) "$" -> (c_token s < L)%nat ->
  W (parse_column token) (fun _ s' => parsed Atom s s') s.
Proof.
  intros Hr Hd Ho Hl. unfold parse_column. pose proof (built_refl s Hr).
  pskip. apply wp_bind, W_at_number. intros u Hu Hlu. destruct (is_token u) eqn:Eu; cbn [negb]; [apply W_fail|].
  apply wp_bind. eapply W_convert; [exact Hu|]. pskip. destruct (l_val u) as [n| |] eqn:Ev; [|apply W_fail..].
  destruct (n <? 0) eqn:En; [apply W_fail|]. apply Z.ltb_ge in En. apply wp_bind, wp_modS.
  eapply W_add; [done|by apply built_columns|]. intros s4 Hb4 Ht4 Hv4. cbn [c_token set_columns] in *.
  exists (EPrim DOLLARS (v_arg (INTGR n)) []). split_and!; [done| |done|done|lia|done].
  tidy. rewrite <- Nat.add_assoc. by eapply sp_column.
Qed.

Lemma parse_number_ok s u : ready s -> dummies s = names -> token !! c_token s = Some u -> is_token u = false ->
  W (parse_number token) (fun _ s' => parsed Atom s s') s.
Proof.
  intros Hr Hd Hu Eu. unfold parse_number. pose proof (built_refl s Hr). pose proof (lookup_lt_Some _ _ _ Hu).
  apply wp_bind. eapply W_convert; [exact Hu|]. padd. eapply W_skip; [eassumption|]. intros s4 Hb4 Ht4 Hv4.
  exists (constant (l_val u)). split_and!; [done| |done|done|lia|done]. tidy. by apply sp_number.
Qed.

Lemma parse_string_ok s : ready s -> dummies s = names -> (c_token s < L)%nat ->
  isstring input_line token (c_token s) = Ok true ->
  W (parse_string input_line token) (fun _ s' => parsed Atom s s') s.
Proof.
  intros Hr Hd Hl Hs. unfold parse_string. pose proof (built_refl s Hr).
  apply wp_bind, wp_getS, wp_bind, W_lift; [apply good_m_quote_capture|]. intros str Hstr.
  padd. eapply W_skip; [eassumption|]. intros s4 Hb4 Ht4 Hv4.
  exists (constant (STRING str)). split_and!; [done| |done|done|lia|done]. tidy. by apply sp_string.
Qed.

(** *** Arguments of functions *)
Abbreviation all_formed es := (foldr (fun x acc => formed x /\ acc) True es).

Lemma all_formed_app es es' : all_formed es -> all_formed es' -> all_formed (es ++ es').
Proof. induction es as [|e es IH]; cbn; [done|]. intros [He Hes] H'. split; [done|by apply IH]. Qed.

Definition parsed_list s0 s (es : list expr) : Prop := all_formed es /\
  spells_list input_line token names (env s) (c_token s0) (c_token s) es /\
  built s0 s (flat_map code es) /\ dummies s0 = names /\ (c_token s0 < c_token s)%nat /\ (c_token s0 < L)%nat.

Lemma parsed_one s0 s : parsed Expression s0 s -> exists e, parsed_list s0 s [e].
Proof.
  intros (e & Hf & Hs & Hb & Hr). exists e. split; [by split|]. split_and!; [by apply sp_one| |apply Hr..].
  by cbn [flat_map]; rewrite app_nil_r.
Qed.

Lemma argument_loop_ok n s0 s es : (left_of s < n)%nat -> (2 * left_of s + 2 <= fuel)%nat -> parsed_list s0 s es ->
  W (argument_loop input_line token parse_expression n (Z.of_nat (length es)))
    (fun k s' => exists es', k = Z.of_nat (length es') /\ parsed_list s0 s' es' /\ (length es <= length es')%nat /\
       (tok input_line token (c_token s) "," -> length es < length es')%nat) s.
Proof.
  revert s es. induction n as [|n IH]; intros s es Hn Hf Hp; [lia|]. cbn [argument_loop].
  apply wp_bind, W_equals. intros b Heq Hl. destruct b; cycle 1.
  { apply wp_ret. exists es. split_and!; [done|done|done|]. unfold tok. rewrite Heq. by intros [=]. }
  destruct Hp as (Hfe & Hse & Hb & Hd & H1 & H2). pskip. ppart expression_ok e'.
  replace (Z.of_nat (length es) + 1) with (Z.of_nat (length (es ++ [e']))) by (rewrite length_app; cbn; lia).
  eapply wp_mono; [apply IH; [pready..|]|].
  - split; [by apply all_formed_app|]. split_and!; [eapply sp_more; later| |done|lia|done].
    eapply built_eq; [eassumption|]. by rewrite flat_map_app; cbn [flat_map]; rewrite app_nil_r.
  - intros k s3 (es' & -> & Hp' & Hle & _). rewrite length_app in Hle. cbn in Hle. exists es'. split_and!; [done|done|lia|lia].
Qed.

Lemma W_opt s0 s c (b : bool) op x (Q : unit -> pst -> Prop) : built s0 s c ->
  (forall s', built s0 s' (c ++ if b then [MkAt op x] else []) -> c_token s' = c_token s -> env s' = env s -> Q tt s') ->
  W (if b then add_action op x else mret tt) Q s.
Proof.
  intros Hb HQ. destruct b; [by eapply W_add|]. apply wp_ret, HQ; [by rewrite app_nil_r|done|done].
Qed.

Lemma W_columnheader s0 s c (Q : unit -> pst -> Prop) : built s0 s c -> c <> [] ->
  (forall s', built s0 s' c -> c_token s' = c_token s -> env s' = env s -> Q tt s') -> W set_up_columnheader_parsing Q s.
Proof.
  intros Hb Hc HQ. unfold set_up_columnheader_parsing. apply wp_bind, wp_getS.
  destruct (b_code _ _ _ Hb) as (t0 & t & _ & Ht & Ea). rewrite Ht.
  assert (Hsame : Q tt s) by (by apply HQ).
  assert (Hcol : forall n h, Q tt (set_columns n h s)) by (intros n h; apply HQ; [by apply built_columns|done|done]).
  destruct (last (actions t)) as [[op x]|] eqn:El.
  - destruct op; try done; destruct x as [|v|j|p|f]; try done.
    + destruct (udvs (env s) !! p) as [u|]; [|by apply wp_throw, out_of_bounds].
      destruct (udv_undef u); [by apply wp_throw|]. destruct (udv_value u); [apply wp_modS, Hcol|done..].
    + destruct v; [apply wp_modS, Hcol|done|apply wp_modS, Hcol].
  - apply last_None in El. rewrite Ea in El. by apply app_eq_nil in El as [_ ->].
Qed.

Lemma code_nonempty e : code e <> [].
Proof.
  destruct e; cbn [code]; intros E; apply (f_equal length) in E; rewrite !length_app in E; cbn in E; lia.
Qed.

Lemma all_formed_hidden f es : all_formed (hidden f es).
Proof. unfold hidden. destruct (String.eqb _ "sprintf"); destruct (String.eqb _ "words"); by repeat split. Qed.

Lemma parse_builtin_ok s f : ready s -> dummies s = names -> (2 * left_of s <= fuel)%nat ->
  name input_line token (c_token s) -> is_builtin_function input_line token (c_token s) = Ok (Some f) ->
  ft_name f <> "defined"%string -> tok input_line token (c_token s + 1) "(" -> (c_token s + 1 < L)%nat ->
  W (parse_builtin input_line token fuel parse_expression f) (fun _ s' => parsed Atom s s') s.
Proof.
  intros Hr Hd Hf Hn Hw Hdef Ho Hl. unfold parse_builtin. pose proof (built_refl s Hr).
  pskip. apply wp_bind. eapply wp_mono; [apply expression_ok; pready|]. intros [] s2 Hp2. pose proof (parsed_left _ _ _ Hp2).
  apply parsed_one in Hp2 as [e2 Hp2].
  apply wp_bind. change 1 with (Z.of_nat (length [e2])). eapply wp_mono; [apply (argument_loop_ok fuel s' s2); [pready..|done]|].
  intros k s3 (es & -> & (Hfe & Hse & Hb & Hd1 & Ht & Hlt) & Hle & _).
  pexpect. apply wp_bind. eapply W_opt; [eassumption|]. intros s5 Hb5 Ht5 Hv5.
  apply wp_bind. eapply W_opt; [eassumption|]. intros s6 Hb6 Ht6 Hv6.
  assert (Hb6' : built s s6 (flat_map code (es ++ hidden f es))).
  { eapply built_eq; [by eapply built_trans|]. rewrite flat_map_app, app_nil_l, <- app_assoc. f_equal.
    unfold hidden. by destruct (String.eqb _ "sprintf"); destruct (String.eqb _ "words"). }
  assert (Hes : flat_map code (es ++ hidden f es) <> []).
  { destruct es; [cbn in Hle; lia|]. cbn. intros [Hc _]%app_eq_nil. by apply code_nonempty in Hc. }
  assert (Hlast : forall s7, built s s7 (flat_map code (es ++ hidden f es)) -> c_token s7 = c_token s6 -> env s7 = env s6 ->
      W (add_action (SF f) no_arg) (fun _ s' => parsed Atom s s') s7).
  { intros s7 Hb7 Ht7 Hv7. eapply W_add; [done|eassumption|]. intros s8 Hb8 Ht8 Hv8.
    exists (EPrim (SF f) no_arg (es ++ hidden f es)).
    split_and!; [by split; [|apply all_formed_app; [done|apply all_formed_hidden]]| |done|done|tidy; lia|lia].
    tidy. by apply sp_builtin. }
  apply wp_bind. destruct (String.eqb _ "column"); [|by apply wp_ret, Hlast].
  by eapply W_columnheader.
Qed.

Lemma parse_defined_ok s f : ready s -> dummies s = names -> (c_token s < L)%nat ->
  name input_line token (c_token s) -> is_builtin_function input_line token (c_token s) = Ok (Some f) ->
  ft_name f = "defined"%string -> tok input_line token (c_token s + 1) "(" ->
  W (parse_defined input_line token) (fun _ s' => parsed Ranged s s') s.
Proof.
  intros Hr Hd Hl Hn Hw Hdef Ho. unfold parse_defined. pose proof (built_refl s Hr).
  apply wp_bind, wp_getS, wp_bind. eapply W_add_udv; [eassumption|]. intros s1 p Hb1 Hp1 He1 Ht1.
  apply wp_bind, wp_getS. destruct (udvs (env s1) !! p) as [u|] eqn:Eu; [|by apply wp_throw, out_of_bounds].
  padd. eapply W_skip; [eassumption|]. intros s3 Hb3 Ht3 Hv3.
  exists (constant (INTGR (if udv_undef u then 0 else 1))). split_and!; [done| |done|done|lia|done]. tidy. by eapply sp_defined.
Qed.

(** The two kinds of calls. *)
Lemma W_call s0 s es p op (Q : unit -> pst -> Prop) : op <> BOOLE -> op <> POP -> is_jump op = false ->
  all_formed es -> built s0 s (flat_map code es) ->
  (forall s', formed (EPrim op (udf_arg (Udf p)) es) -> built s0 s' (code (EPrim op (udf_arg (Udf p)) es)) ->
     c_token s' = c_token s -> env s' = env s -> Q tt s') ->
  W (add_action op (udf_arg (Udf p))) Q s.
Proof. intros ???? Hb HQ. eapply W_add; [done|exact Hb|]. intros s' Hb' Ht Hv. by apply HQ. Qed.

Lemma parse_call_ok s : ready s -> dummies s = names -> (2 * left_of s <= fuel)%nat ->
  name input_line token (c_token s) -> is_builtin_function input_line token (c_token s) = Ok None ->
  tok input_line token (c_token s + 1) "(" -> (c_token s + 1 < L)%nat ->
  W (parse_call input_line token fuel parse_expression) (fun _ s' => parsed Atom s s') s.
Proof.
  intros Hr Hd Hf Hn Hw Ho Hl. unfold parse_call. pose proof (built_refl s Hr). apply wp_bind, wp_getS.
  pskip. apply wp_bind. eapply wp_mono; [apply expression_ok; pready|]. intros [] s2 Hp2. pose proof (parsed_left _ _ _ Hp2).
  apply parsed_one in Hp2 as [e2 Hp2]. apply wp_bind, W_equals. intros more Hmore Hlm. destruct more.
  - change 1 with (Z.of_nat (length [e2])). apply wp_bind. eapply wp_mono; [apply (argument_loop_ok fuel s' s2); [pready..|done]|].
    intros k s3 (es & -> & (Hfe & Hse & Hb & Hd1 & Ht & Hlt) & _ & Hlen). specialize (Hlen Hmore). cbn in Hlen.
    padd. pexpect. apply wp_bind. eapply W_add_udf; [eassumption|]. intros s6 p Hb6 Hp6 He6 Ht6.
    assert (Ec : call_of p es = EPrim CALLN (udf_arg (Udf p)) (es ++ [constant (INTGR (Z.of_nat (length es)))])).
    { destruct es as [|? [|? ?]]; [done|cbn in Hlen; lia|done]. }
    eapply (W_call s s6 (es ++ [constant (INTGR (Z.of_nat (length es)))])); [done|done|done|apply all_formed_app; [exact Hfe|done]| |].
    + eapply built_eq; [eapply built_trans; [|exact Hb6]; eassumption|]. by rewrite app_nil_l, flat_map_app.
    + intros s7 Hfc Hb7 Ht7 Hv7. rewrite <- Ec in *. exists (call_of p es). split_and!; [done| |done|done|tidy; lia|lia].
      tidy. apply sp_call; [done|done|done|done|later|later].
  - destruct Hp2 as (Hfe & Hse & Hb & Hd1 & Ht & Hlt).
    pexpect. apply wp_bind. eapply W_add_udf; [eassumption|]. intros s6 p Hb6 Hp6 He6 Ht6.
    eapply W_call; [done|done|done|exact Hfe| |].
    + eapply built_eq; [eapply built_trans; [|exact Hb6]; eassumption|]. done.
    + intros s7 Hfc Hb7 Ht7 Hv7. exists (call_of p [e2]). split_and!; [done| |done|done|tidy; lia|lia].
      tidy. apply sp_call; [done|done|done|done|later|later].
Qed.

(** *** The summand has a table of its own *)
Definition new_table s : pst := set_level 0 (set_at_size MAX_AT_LEN (set_at (Some (MkTable [] MAX_AT_LEN)) s)).

Lemma new_table_ready s : ready (new_table s).
Proof. exists (MkTable [] MAX_AT_LEN). split; [done|]. cbn. lia. Qed.

Lemma perm_at_ok s : dummies s = names -> (2 * left_of s + 2 <= fuel)%nat ->
  W (perm_at parse_expression) (fun body s' => exists e, formed e /\ body = code e /\
     spells (env s') Expression (c_token s) (c_token s') e /\ extends (env s) (env s') /\ rest s' = rest s /\
     (c_token s < c_token s')%nat /\ (c_token s < L)%nat) s.
Proof.
  intros Hd Hf. unfold perm_at, temp_at. apply wp_bind, wp_bind, wp_modS, wp_bind, wp_modS, wp_bind, wp_modS.
  eapply wp_mono; [apply (expression_ok (new_table s)); [apply new_table_ready|done|done]|].
  intros [] s' (e & Hfe & Hse & [_ (t0 & t & Ht0 & Ht & Ea) He Hr Htk] & _ & H1 & H2). injection Ht0 as <-.
  apply wp_bind, wp_getS. rewrite Ht. apply wp_bind, wp_modS, wp_ret. exists e. by split_and!.
Qed.

Lemma built_restore s0 s s' c n : built s0 s c -> n = at_size s -> extends (env s) (env s') -> rest s' = rest s ->
  (c_token s <= c_token s')%nat -> built s0 (set_at_size n (set_at (at_ s) s')) c.
Proof. intros Hb -> He Hr Ht. by eapply built_same. Qed.

Lemma parse_sum_ok s : ready s -> dummies s = names -> (2 * left_of s <= fuel)%nat ->
  tok input_line token (c_token s) "sum" -> tok input_line token (c_token s + 1) "[" -> (c_token s + 1 < L)%nat ->
  W (parse_sum_expression input_line token parse_expression) (fun _ s' => parsed Atom s s') s.
Proof.
  intros Hr Hd Hf Hsum Hopen Hl. unfold parse_sum_expression. pose proof (built_refl s Hr).
  pskip. apply wp_bind, W_at_letter. intros l Hn. destruct l; cbn [negb]; [|apply W_fail].
  apply wp_bind, wp_getS, wp_bind, W_lift; [apply good_m_capture|]. intros nm Hnm.
  apply wp_bind. eapply W_add_udv; [eassumption|]. intros s2 p Hb2 _ He2 Ht2. padd. pskip. pexpect.
  ppart expression_ok a. pexpect. ppart expression_ok b. pexpect.
  match goal with |- W _ _ ?x => set (s8 := x) in * end.
  apply wp_bind, wp_getS, wp_bind, wp_modS, wp_bind. eapply wp_mono; [apply perm_at_ok; [|]|].
  - change (dummies s8 = names). pready.
  - change (2 * left_of s8 + 2 <= fuel)%nat. pready.
  - intros bd s9 (body & Hfb & -> & Hsb & Heb & Hrb & Htb & Hlb).
    change (env (set_at None s8)) with (env s8) in *. change (c_token (set_at None s8)) with (c_token s8) in *.
    apply wp_bind, wp_modS, wp_bind, wp_modS. eapply W_add; [done|eapply (built_restore s s8 s9); [eassumption|done|done|done|lia]|].
    intros s10 Hb10 Ht10 Hv10. cbn [c_token set_at_size set_at] in Ht10. change (env s10 = env s9) in Hv10.
    exists (EPrim SUM (udf_arg (SumUdf (code body))) [constant (STRING nm); a; b]).
    split_and!; [by repeat split| | |done|lia|lia].
    + tidy. rewrite <- !Nat.add_assoc in *. cbn [Nat.add] in *. eapply sp_sum; later.
    + pcode.
Qed.

(** *** Variables *)
Lemma find_dummy_ok s i nms : (c_token s < L)%nat ->
  W (find_dummy input_line token i nms) (fun d s' => s' = s /\
    match d with
    | Some d => (i <= d)%nat /\ Forall (other input_line token (c_token s)) (take (d - i) nms) /\
        exists nm, nms !! (d - i)%nat = Some nm /\ tok_equals input_line token (c_token s) nm = Ok true
    | None => Forall (other input_line token (c_token s)) nms
    end) s.
Proof.
  intros Hl. revert i. induction nms as [|nm nms IH]; intros i; cbn [find_dummy]; [by apply wp_ret|].
  apply wp_bind. unfold equals_name. apply W_look; [apply good_equals|]. intros b. rewrite Nat.add_0_r. intros Hb.
  destruct b.
  - apply wp_ret. rewrite Nat.sub_diag. split; [done|]. split; [lia|]. split; [apply Forall_nil_2|]. by exists nm.
  - eapply wp_mono; [apply IH|]. intros [d|] s' [-> Hd]; (split; [done|]); [|by constructor].
    destruct Hd as (Hi & Hall & nm' & Hnm & Hd). split; [lia|].
    replace (d - i)%nat with (Datatypes.S (d - S i)) by lia. split; [by constructor|]. by exists nm'.
Qed.

Lemma parse_variable_ok s : ready s -> dummies s = names -> (c_token s < L)%nat -> name input_line token (c_token s) ->
  W (parse_variable input_line token) (fun _ s' => parsed Atom s s') s.
Proof.
  intros Hr Hd Hl Hn. unfold parse_variable. pose proof (built_refl s Hr). apply wp_bind, wp_getS, wp_bind.
  replace (if dummy_func s then find_dummy input_line token 0 (take MAX_NUM_VAR (c_dummy_var s)) else mret None)
    with (find_dummy input_line token 0 names) by (rewrite <- Hd; unfold dummies; by destruct (dummy_func s)).
  eapply wp_mono; [by apply find_dummy_ok|]. intros d s1 [-> Hdd]. destruct d as [d|].
  - destruct Hdd as (_ & Hall & nm & Hnm & Heq). rewrite Nat.sub_0_r in Hall, Hnm.
    assert (Hend : forall s', built s s' (code (dummy_of d)) -> c_token s' = (c_token s + 1)%nat -> parsed Atom s s').
    { intros s' Hb' Ht'. exists (dummy_of d). split_and!; [by destruct d as [|[|d]]|tidy; by eapply sp_dummy|done|done|lia|done]. }
    destruct d as [|[|d]]; pskip.
    1,2: eapply W_add; [done|eassumption|]; intros; apply Hend; [done|tidy; lia].
    padd. eapply W_add; [done|eassumption|]; intros; apply Hend; [done|tidy; lia].
  - apply wp_bind. eapply W_add_udv; [eassumption|]. intros s2 p Hb2 Hp2 He2 Ht2. padd.
    eapply W_skip; [eassumption|]. intros s4 Hb4 Ht4 Hv4.
    exists (EPrim PUSH (udv_arg p) []). split_and!; [done| |done|done|lia|done]. tidy. by apply sp_variable.
Qed.

Lemma good_builtin t : good (is_builtin_function input_line token t).
Proof.
  unfold is_builtin_function. generalize ft. intros l. generalize 0%nat. induction l as [|nm l IH]; intros i; cbn [find_builtin]; [done|].
  apply good_bind; [apply good_equals|]. by intros [] _.
Qed.

(** What may have postfix operators is an atom. *)
Lemma parse_identifier_ok s : ready s -> dummies s = names -> (2 * left_of s <= fuel)%nat -> (c_token s < L)%nat ->
  name input_line token (c_token s) ->
  W (parse_identifier input_line token fuel parse_expression)
    (fun postfix s' => parsed (if postfix then Atom else Ranged) s s') s.
Proof.
  intros Hr Hd Hf Hl Hn. unfold parse_identifier. apply wp_bind, W_next_equals. intros [] Ho Hl1.
  - apply wp_bind, wp_getS, wp_bind, W_lift; [apply good_builtin|]. intros [f|] Hw.
    + destruct (String.eqb_spec (ft_name f) "defined"); apply wp_bind.
      * eapply wp_mono; [by eapply parse_defined_ok|]. intros [] s' Hp. by apply wp_ret.
      * eapply wp_mono; [by eapply parse_builtin_ok|]. intros [] s' Hp. by apply wp_ret.
    + apply wp_bind. eapply wp_mono; [by eapply parse_call_ok|]. intros [] s' Hp. by apply wp_ret.
  - assert (Hvar : W (parse_variable input_line token ;; mret true) (fun postfix s' => parsed (if postfix : bool then Atom else Ranged) s s') s).
    { apply wp_bind. eapply wp_mono; [by eapply parse_variable_ok|]. intros [] s' Hp. by apply wp_ret. }
    apply wp_bind, W_equals. intros [] Hs _; [|by apply wp_bind, wp_ret].
    apply wp_bind, W_next_equals. intros [] Hbr _; [|exact Hvar].
    apply wp_bind. eapply wp_mono; [by eapply parse_sum_ok|]. intros [] s' Hp. by apply wp_ret.
Qed.

(** *** Postfix operators *)
Lemma factorial_loop_ok n s0 s : (left_of s < n)%nat -> parsed Factored s0 s ->
  W (factorial_loop input_line token n) (fun _ s' => parsed Factored s0 s') s.
Proof.
  revert s. induction n as [|n IH]; intros s Hn Hp; [lia|]. cbn [factorial_loop].
  apply wp_bind, W_equals. intros [] Heq Hl; [|by apply wp_ret].
  destruct Hp as (e & Hfe & Hse & Hb & Hd & H1 & H2). pskip. padd. apply IH; [pready|].
  exists (EPrim FACTORIAL no_arg [e]). split_and!; [by repeat split|tidy; by apply sp_factorial|pcode|done|lia|done].
Qed.

Lemma parse_power_ok s0 s : (2 * left_of s + 2 <= fuel)%nat -> parsed Factored s0 s ->
  W (parse_power input_line token parse_unary_expression) (fun _ s' => parsed Powered s0 s') s.
Proof.
  intros Hf Hp. unfold parse_power. apply wp_bind, W_equals. intros [] Heq Hl; [|by apply wp_ret, (parsed_above Factored)].
  destruct Hp as (e & Hfe & Hse & Hb & Hd & H1 & H2). pskip. ppart unary_ok e'.
  eapply W_add; [done|eassumption|]. intros s4 Hb4 Ht4 Hv4.
  exists (EPrim POWER no_arg [e; e']). split_and!; [by repeat split|eapply sp_power; later|pcode|done|lia|done].
Qed.

Lemma parse_range_end_ok str z s0 s c (Q : unit -> pst -> Prop) : dummies s0 = names -> (2 * left_of s + 2 <= fuel)%nat ->
  built s0 s c ->
  (forall s' e, formed e -> spells_end input_line token names (env s') z (c_token s) (c_token s') e ->
     extends (env s) (env s') -> built s0 s' (c ++ code e) -> (c_token s <= c_token s')%nat -> Q tt s') ->
  W (parse_range_end input_line token parse_expression str z) Q s.
Proof.
  intros Hd Hf Hb HQ. unfold parse_range_end. apply wp_bind, W_equals. intros star Hstar Hl.
  apply wp_bind. destruct star; [apply wp_ret|apply W_equals; intros colon Hcolon _; destruct colon]; cbn [orb].
  - padd. eapply W_skip; [eassumption|]. intros s3 Hb3 Ht3 Hv3.
    apply (HQ s3 (constant (INTGR z))); [done|tidy; by apply sp_star|tidy; done|done|lia].
  - padd. apply wp_ret, (HQ _ (constant (INTGR z))); [done|tidy; apply sp_limit|tidy; done|done|lia].
  - eapply W_parsed; [exact Hb|apply expression_ok; pready|]. intros [] s3 e Hfe Hse He Hb3 Ht3 Hl3.
    apply (HQ s3 e); [done|by apply sp_end|done|done|lia].
Qed.

Lemma parse_range_ok s0 s : (2 * left_of s + 2 <= fuel)%nat -> parsed Powered s0 s ->
  W (parse_range input_line token parse_expression) (fun _ s' => parsed Ranged s0 s') s.
Proof.
  intros Hf Hp. unfold parse_range. apply wp_bind, W_equals. intros [] Heq Hl; [|by apply wp_ret, (parsed_above Powered)].
  destruct Hp as (e & Hfe & Hse & Hb & Hd & H1 & H2). pskip.
  apply wp_bind. eapply parse_range_end_ok; [done|pready|eassumption|]. intros s2 a Hfa Hsa Hea Hb2 Ht2. pexpect.
  apply wp_bind. eapply parse_range_end_ok; [done|pready|eassumption|]. intros s4 b Hfb Hsb Heb Hb4 Ht4. pexpect.
  eapply W_add; [done|eassumption|]. intros s6 Hb6 Ht6 Hv6.
  exists (EPrim RANGE no_arg [e; a; b]). split_and!; [by repeat split| |pcode|done|lia|done]. tidy. eapply sp_range; later.
Qed.

Lemma parse_postfix_ok s0 s : (2 * left_of s0 <= fuel)%nat -> parsed Atom s0 s ->
  W (parse_postfix input_line token fuel parse_expression parse_unary_expression) (fun _ s' => parsed Ranged s0 s') s.
Proof.
  intros Hf Hp. unfold parse_postfix. pose proof (parsed_left _ _ _ Hp).
  apply wp_bind. eapply wp_mono; [apply factorial_loop_ok; [pready|by apply (parsed_above Atom)]|]. intros [] s1 Hp1.
  pose proof (parsed_left _ _ _ Hp1). apply wp_bind. eapply wp_mono; [apply parse_power_ok; [pready|exact Hp1]|]. intros [] s2 Hp2.
  pose proof (parsed_left _ _ _ Hp2). apply parse_range_ok; [pready|done].
Qed.

Lemma parse_primary_ok s : ready s -> dummies s = names -> (2 * left_of s <= fuel)%nat ->
  W (parse_primary_expression input_line token fuel parse_expression parse_unary_expression) (fun _ s' => parsed Ranged s s') s.
Proof.
  intros Hr Hd Hf. unfold parse_primary_expression.
  assert (Hend : forall (b : bool) s', parsed (if b then Atom else Ranged) s s' ->
    W (if b then parse_postfix input_line token fuel parse_expression parse_unary_expression else mret tt) (fun _ s' => parsed Ranged s s') s').
  { intros [] s' Hp; [by apply parse_postfix_ok|by apply wp_ret]. }
  apply wp_bind, wp_bind, W_equals. intros open Hopen Hl. destruct open.
  { apply wp_bind. eapply wp_mono; [by apply parse_parentheses_ok|]. intros [] s' Hp. by apply wp_ret, (Hend true). }
  apply wp_bind, W_equals. intros dollar Hdollar _. destruct dollar.
  { apply wp_bind. eapply wp_mono; [by apply parse_column_ok|]. intros [] s' Hp. by apply wp_ret, (Hend true). }
  apply wp_bind, W_at_number. intros u Hu _. destruct (is_token u) eqn:Eu; cbn [negb]; cycle 1.
  { apply wp_bind. eapply wp_mono; [by eapply parse_number_ok|]. intros [] s' Hp. by apply wp_ret, (Hend true). }
  apply wp_bind, W_at_letter. intros [] Hn.
  { eapply wp_mono; [by apply parse_identifier_ok|]. intros postfix s' Hp. by apply Hend. }
  apply wp_bind, W_at_string. intros [] Hs.
  - apply wp_bind. eapply wp_mono; [by apply parse_string_ok|]. intros [] s' Hp. by apply wp_ret, (Hend true).
  - apply W_fail.
Qed.

(** *** Unary operators *)
Lemma unary_op_ok s str op : ready s -> dummies s = names -> (2 * left_of s <= fuel)%nat -> (c_token s < L)%nat -> plain op ->
  (forall g j e, spells g Unary (c_token s + 1) j e -> spells g Unary (c_token s) j (EPrim op no_arg [e])) ->
  tok input_line token (c_token s) str ->
  W (skip 1 ;; parse_unary_expression ;; add_action op no_arg) (fun _ s' => parsed Unary s s') s.
Proof.
  intros Hr Hd Hf Hl Hop Hsp Htok. pose proof (built_refl s Hr). pskip. ppart unary_ok e.
  eapply W_add; [done|eassumption|]. intros s3 Hb3 Ht3 Hv3. exists (EPrim op no_arg [e]).
  split_and!; [split; [exact Hop|by split]|tidy; by apply Hsp|pcode|done|lia|done].
Qed.

Lemma unary_body_ok s : ready s -> dummies s = names -> (2 * left_of s <= fuel)%nat ->
  W (unary_body input_line token fuel parse_expression parse_unary_expression) (fun _ s' => parsed Unary s s') s.
Proof.
  intros Hr Hd Hf. unfold unary_body.
  apply wp_bind, W_equals. intros [] Hlnot Hl; [eapply unary_op_ok; [done..|by repeat split|intros; by apply sp_lnot|done]|].
  apply wp_bind, W_equals. intros [] Hbnot _; [eapply unary_op_ok; [done..|by repeat split|intros; by apply sp_bnot|done]|].
  apply wp_bind, W_equals. intros [] Hminus _; [eapply unary_op_ok; [done..|by repeat split|intros; by apply sp_minus|done]|].
  apply wp_bind, W_equals. intros [] Hplus _.
  - pose proof (built_refl s Hr). pskip. ppart unary_ok e. exists e.
    split_and!; [done|apply sp_plus; [done|later]|done|done|lia|done].
  - eapply wp_mono; [by apply parse_primary_ok|]. intros [] s' Hp. by apply (parsed_above Ranged).
Qed.

(** *** Binary operators *)
Definition finds l (find : M pst gperr (option operators)) : Prop := forall s, W find (fun o s' => s' = s /\
  match o with
  | Some op => (c_token s < L)%nat /\ exists str, (str, op) ∈ operators_of l /\ tok input_line token (c_token s) str
  | None => True
  end) s.

Definition accepts l (accept : M pst gperr unit) : Prop := forall s, ready s -> dummies s = names ->
  (2 * left_of s + 1 <= fuel)%nat -> W accept (fun _ s' => parsed l s s') s.

Lemma operators_plain l str op : (str, op) ∈ operators_of l -> plain op.
Proof.
  destruct l; cbn; rewrite ?elem_of_cons, ?elem_of_nil; intros Hin;
    repeat match goal with Hin : _ \/ _ |- _ => destruct Hin as [Hin|Hin] end; try done; injection Hin as -> ->; by repeat split.
Qed.

Lemma binary_loop_ok l l' accept find : above l = Some l' -> accepts l accept -> finds l' find ->
  forall n s0 s, (left_of s < n)%nat -> (2 * left_of s + 2 <= fuel)%nat -> parsed l' s0 s ->
  W (binary_loop accept n find) (fun _ s' => parsed l' s0 s') s.
Proof.
  intros Ha Hacc Hfind. induction n as [|n IH]; intros s0 s Hn Hf Hp; [lia|]. cbn [binary_loop].
  apply wp_bind. eapply wp_mono; [apply Hfind|]. intros [op|] s1 [-> Ho]; [|by apply wp_ret].
  destruct Ho as (Hl & str & Hin & Htok). destruct Hp as (e & Hfe & Hse & Hb & Hd & H1 & H2).
  pskip. ppart Hacc e'. padd. apply IH; [pready..|].
  exists (EPrim op no_arg [e; e']). split_and!; [|eapply sp_binary; [done|done|..]; later|pcode|done|lia|done].
  split; [by eapply operators_plain|done].
Qed.

(** [accept; parse] of a level from those of the level below. *)
Lemma accept_level l l' accept find : above l = Some l' -> accepts l accept -> finds l' find ->
  accepts l' (accept ;; binary_loop accept fuel find).
Proof.
  intros Ha Hacc Hfind s Hr Hd Hf. apply wp_bind. eapply wp_mono; [by apply Hacc|]. intros [] s' Hp.
  pose proof (parsed_left _ _ _ Hp). eapply binary_loop_ok; [done..|pready|pready|by eapply parsed_above].
Qed.

Lemma which_op_finds l ops : (forall x, x ∈ ops -> x ∈ operators_of l) -> finds l (which_op input_line token ops).
Proof.
  intros Hops s. induction ops as [|[str op] ops IH]; cbn [which_op]; [by apply wp_ret|].
  apply wp_bind, W_equals. intros [] Htok Hl.
  - apply wp_ret. split; [done|]. split; [done|]. exists str. split; [|done]. apply Hops. by constructor.
  - apply IH. intros x Hx. apply Hops. by constructor.
Qed.

Lemma additive_op_finds : finds Additive (additive_op input_line token).
Proof.
  intros s. unfold additive_op. apply wp_bind, W_equals. intros [] Htok Hl.
  - apply wp_ret. split; [done|]. split; [done|]. exists "."%string. split; [by constructor|done].
  - apply wp_bind, wp_getS. destruct (_ && _); [by apply wp_ret|]. apply which_op_finds. intros x Hx. by constructor.
Qed.

Lemma relational_op_finds : finds Relational (relational_op input_line token).
Proof.
  intros s. unfold relational_op. apply wp_bind, W_equals. intros [] Htok Hl.
  { apply wp_ret. split; [done|]. split; [done|]. exists ">"%string. split; [by constructor|done]. }
  apply wp_bind, W_equals. intros [] Hlt _.
  - apply wp_bind, wp_getS, wp_bind.
    assert (Hend : forall star : bool, W (if star then mret None else mret (Some LT)) (fun o s' => s' = s /\
      match o with
      | Some op => (c_token s < L)%nat /\ exists str, (str, op) ∈ operators_of Relational /\ tok input_line token (c_token s) str
      | None => True
      end) s).
    { intros []; apply wp_ret; [done|]. split; [done|]. split; [done|]. exists "<"%string. split; [by do 2 constructor|done]. }
    destruct (scanning_range_in_progress s); [apply W_next_equals; intros b _ _; apply Hend|apply wp_ret, (Hend false)].
  - apply which_op_finds. intros x Hx. by do 2 constructor.
Qed.

(** *** The short cuts *)
Lemma short_loop_ok l l' str jump mk accept :
  (l', str, jump, mk) = (LogicalAnd, "&&"%string, JUMPZ, EAnd) \/ (l', str, jump, mk) = (LogicalOr, "||"%string, JUMPNZ, EOr) ->
  above l = Some l' -> accepts l accept ->
  forall n s0 s, (left_of s < n)%nat -> (2 * left_of s + 2 <= fuel)%nat -> parsed l' s0 s ->
  W (short_loop input_line token accept n str jump) (fun _ s' => parsed l' s0 s') s.
Proof.
  intros Hk Ha Hacc. induction n as [|n IH]; intros s0 s Hn Hf Hp; [lia|]. cbn [short_loop].
  apply wp_bind, W_equals. intros [] Htok Hl; [|by apply wp_ret].
  destruct Hp as (e & Hfe & Hse & Hb & Hd & H1 & H2).
  pskip. apply wp_bind, wp_getS. padd. ppart Hacc e'.
  apply wp_bind. eapply (W_patch _ _ (code e) jump no_arg (code e')); [by eapply built_eq; [eassumption|]; rewrite <- app_assoc| |].
  { by rewrite (built_count s0 s' (code e)). }
  intros s5 Hb5 Ht5 Hv5. padd. apply IH; [pready..|].
  exists (mk e e'). destruct Hk as [[= -> -> -> ->]|[= -> -> -> ->]];
    (split_and!; [by split| |by eapply built_eq; [eassumption|]; cbn [code]; rewrite <- app_assoc|done|lia|done]);
    [replace l with BitOr in * by (by destruct l)|replace l with LogicalAnd in * by (by destruct l)];
    [eapply sp_and|eapply sp_or]; later.
Qed.

(** *** All levels *)
Abbreviation unary := parse_unary_expression.

Lemma unary_accepts : accepts Unary unary.
Proof. exact unary_ok. Qed.

Lemma which_accepts l l' accept : above l = Some l' -> accepts l accept ->
  accepts l' (accept ;; binary_loop accept fuel (which_op input_line token (operators_of l'))).
Proof. intros Ha Hacc. eapply accept_level; [done..|]. by apply which_op_finds. Qed.

Lemma BitOr_accepts : accepts BitOr (accept_inclusive_OR_expression input_line token fuel unary).
Proof.
  eapply (which_accepts BitXor); [done|]. eapply (which_accepts BitAnd); [done|]. eapply (which_accepts Equality); [done|].
  eapply (which_accepts Relational); [done|].
  eapply (accept_level Additive); [done| |apply relational_op_finds].
  eapply (accept_level Multiplicative); [done| |apply additive_op_finds].
  eapply (which_accepts Unary); [done|]. apply unary_accepts.
Qed.

Lemma short_accepts l l' str jump mk accept :
  (l', str, jump, mk) = (LogicalAnd, "&&"%string, JUMPZ, EAnd) \/ (l', str, jump, mk) = (LogicalOr, "||"%string, JUMPNZ, EOr) ->
  above l = Some l' -> accepts l accept -> accepts l' (accept ;; short_loop input_line token accept fuel str jump).
Proof.
  intros Hk Ha Hacc s Hr Hd Hf. apply wp_bind. eapply wp_mono; [by apply Hacc|]. intros [] s' Hp.
  pose proof (parsed_left _ _ _ Hp). eapply short_loop_ok; [exact Hk|exact Ha|exact Hacc|pready|pready|by eapply parsed_above].
Qed.

Lemma LogicalOr_accepts : accepts LogicalOr (accept_logical_OR_expression input_line token fuel unary).
Proof.
  eapply (short_accepts LogicalAnd); [by right|done|]. eapply (short_accepts BitOr); [by left|done|]. apply BitOr_accepts.
Qed.

(** *** The conditional operator and assignment *)
Lemma W_level s0 s c d (Q : unit -> pst -> Prop) : built s0 s c ->
  (forall s', built s0 s' c -> c_token s' = c_token s -> env s' = env s -> Q tt s') -> W (change_level d) Q s.
Proof. intros Hb HQ. apply wp_modS, HQ; [by eapply built_same|done|done]. Qed.

Lemma parse_conditional_ok s0 s : (2 * left_of s + 2 <= fuel)%nat -> parsed LogicalOr s0 s ->
  W (parse_conditional_expression input_line token parse_expression) (fun _ s' => parsed Expression s0 s') s.
Proof.
  intros Hf Hp. unfold parse_conditional_expression. apply wp_bind, W_equals.
  intros [] Heq Hl; [|by apply wp_ret, (parsed_above LogicalOr)].
  destruct Hp as (e & Hfe & Hse & Hb & Hd & H1 & H2).
  apply wp_bind. eapply W_level; [eassumption|]. intros s1 Hb1 Ht1 Hv1. pskip. apply wp_bind, wp_getS. padd.
  ppart expression_ok a. pexpect. apply wp_bind, wp_getS.
  match goal with |- W _ _ ?x => set (s5 := x) in * end. padd.
  apply wp_bind. eapply (W_patch _ _ (code e) JTERN no_arg (code a ++ [MkAt JUMP no_arg]));
    [by eapply built_eq; [eassumption|]; rewrite <- !app_assoc|by rewrite (built_count s0 s' (code e))|].
  intros s6 Hb6 Ht6 Hv6. ppart expression_ok b.
  apply wp_bind. eapply (W_patch _ _ (code e ++ MkAt JTERN (dist (code a ++ [MkAt JUMP no_arg]) 1) :: code a) JUMP no_arg (code b)).
  - eapply built_eq; [eassumption|]. by rewrite <- !app_assoc; cbn [app]; rewrite <- app_assoc.
  - erewrite (built_count s0 s5) by eassumption. by rewrite !length_app; cbn; lia.
  - intros s8 Hb8 Ht8 Hv8. eapply W_level; [eassumption|]. intros s9 Hb9 Ht9 Hv9.
    exists (ECond e a b). split_and!; [done|eapply sp_cond; later| |done|lia|done].
    eapply built_eq; [eassumption|]. cbn [code]. rewrite <- app_assoc. cbn [app]. do 3 f_equal.
    unfold dist. rewrite length_app. f_equal. cbn [length]. lia.
Qed.

Lemma parse_assignment_ok s : ready s -> dummies s = names -> (2 * left_of s <= fuel)%nat ->
  W (parse_assignment_expression input_line token parse_expression)
    (fun done s' => if done then parsed Expression s s' else s' = s) s.
Proof.
  intros Hr Hd Hf. pose proof (built_refl s Hr). unfold parse_assignment_expression.
  apply wp_bind, W_at_letter. intros [] Hn; cbn [negb]; [|by apply wp_ret].
  apply wp_bind, W_next_equals. intros [] He Hl; cbn [negb]; [|by apply wp_ret].
  apply wp_bind, wp_getS, wp_bind, W_lift; [apply good_m_capture|]. intros nm Hnm. padd. pskip.
  ppart expression_ok e. padd. apply wp_ret. exists (EPrim ASSIGN no_arg [constant (STRING nm); e]).
  split_and!; [by repeat split| |pcode|done|lia|lia]. tidy. by eapply sp_assign; later.
Qed.

Lemma expression_body_ok s : ready s -> dummies s = names -> (2 * left_of s + 1 <= fuel)%nat ->
  W (expression_body input_line token fuel parse_expression unary) (fun _ s' => parsed Expression s s') s.
Proof.
  intros Hr Hd Hf. pose proof (built_refl s Hr). unfold expression_body.
  apply wp_bind. eapply wp_mono; [apply parse_assignment_ok; [done|done|lia]|]. intros [] s1 Hp1; [by apply wp_ret|]. subst s1.
  apply wp_bind. eapply W_level; [eassumption|]. intros s1 Hb1 Ht1 Hv1.
  apply wp_bind. eapply wp_mono; [apply LogicalOr_accepts; pready|]. intros [] s2 Hp2. pose proof (parsed_left _ _ _ Hp2).
  apply wp_bind. eapply wp_mono; [apply parse_conditional_ok; [pready|exact Hp2]|]. intros [] s3 (e & Hfe & Hse & Hb3 & Hd3 & Hx1 & Hx2).
  eapply W_level; [eapply built_trans; [exact Hb1|exact Hb3]|]. intros s4 Hb4 Ht4 Hv4.
  exists e. split_and!; [done|later|done|done|lia|lia].
Qed.
End knot.

(** ** The whole parser *)
Section parser.
Context `{GP : Gp}.
Context (input_line : list Z) (token : list lexical_unit) (names : list (list Z)).
Hypothesis at_len : (0 < MAX_AT_LEN)%nat.

Lemma parser_ok n : forall s, ready s -> dummies s = names ->
  ((2 * left_of token s + 2 <= n)%nat -> wp read_error (parse_expression input_line token n)
     (fun _ s' => parsed input_line token names Expression s s') s) /\
  ((2 * left_of token s + 1 <= n)%nat -> wp read_error (parse_unary_expression input_line token n)
     (fun _ s' => parsed input_line token names Unary s s') s).
Proof.
  induction n as [|n IH]; intros s Hr Hd; [lia|]. cbn [parse_expression parse_unary_expression]. split; intros Hf.
  - apply expression_body_ok; [done| | |done|done|lia]; intros s' Hr' Hd' Hf'; by apply IH.
  - apply unary_body_ok; [done| | |done|done|lia]; intros s' Hr' Hd' Hf'; by apply IH.
Qed.
End parser.
