(* ===== verification/GpTheorems.v ===== *)
(** * gnuplot: theorems

    What the functions of [util.c], [eval.c] and [parse.c] guarantee, and a small
    calculator, an instance of the classes, on which they are tried. *)
From S2P Require Import Prelude GpUtil GpUtilProofs GpEval GpParse GpSyntax GpExec GpGrammar GpParseProofs.
From stdpp Require Import strings.
Open Scope Z_scope.

Section theorems.
Context `{GL : GpLaws}.
Context (input_line : list Z) (token : list lexical_unit).

(** The table has the room that [at_size] says. *)
Definition table_ok (s : pst) (t : at_type) : Prop :=
  at_ s = Some t /\ (length (actions t) <= at_size s <= room t)%nat.

(** ** The parser *)
(** The parser is done, without an access outside its table, when the fuel is
    twice the number of tokens that are left and 2 more. *)
Lemma parse_expression_wp n s t : (0 < MAX_AT_LEN)%nat -> table_ok s t -> (2 * (length token - c_token s) + 2 <= n)%nat ->
  wp read_error (parse_expression input_line token n)
    (fun _ s' => parsed input_line token (dummies s) Expression s s') s.
Proof. intros Hm [Ht Hs] Hf. apply parser_ok; [done|by exists t|done|done]. Qed.

(** C15. [parse_expression] ends whatever the tokens are, in particular without an
    access outside the action table, which grows as it is filled, and with
    nothing worse than a reported error or a read behind the last token.  When it
    succeeds, the tokens it took are an expression of the grammar
    [spells], with the precedences and associativities of [operators_of], and
    what it added to the table is exactly the code of that expression's syntax
    tree; variables and functions are only added, and the evaluation stack and
    flags are untouched. *)
Theorem parse_expression_sound n s t : (0 < MAX_AT_LEN)%nat -> table_ok s t ->
  (2 * (length token - c_token s) + 2 <= n)%nat ->
  match parse_expression input_line token n s with
  | Ok (_, s') => exists e t', formed e /\ spells input_line token (dummies s) (env s') Expression (c_token s) (c_token s') e /\
      table_ok s' t' /\ actions t' = actions t ++ code e /\ (c_token s < c_token s')%nat /\
      extends (env s) (env s') /\ rest s' = rest s
  | Err x => x <> TableFault /\ x <> GpFault NullDeref
  | Timeout => False
  end.
Proof.
  intros Hm Hs Hf. pose proof (parse_expression_wp n s t Hm Hs Hf) as R. unfold wp in R.
  destruct (parse_expression input_line token n s) as [[[] s']|x|]; [|done|done].
  destruct R as (e & Hfe & Hse & [(t' & Ht' & Hl') (t0 & t1 & Ht0 & Ht1 & Ea) He Hr _] & _ & Hlt & _).
  exists e, t'. destruct Hs as [Ht _]. rewrite Ht in Ht0. injection Ht0 as <-. rewrite Ht' in Ht1. injection Ht1 as <-. done.
Qed.

(** ** Evaluation *)
(** C34. Executing the code of an expression computes the meaning of the
    expression: the jumps that the parser patched for [&&], [||] and [?:] skip
    exactly the operand that must not be evaluated, [BOOLE] makes 0 or 1 of the
    last one, the left operand of a comma is dropped.  The value is pushed on the
    stack, of which nothing else changes, and the errors are those of the
    expression; the steps are at most the actions of the table, so it ends. *)
Theorem execute_at_code e g base j : formed e -> (length base + depth e <= STACK_DEPTH)%nat ->
  match eval e g with
  | Some (Ok (v, g')) => execute_at (code e) (MkMach g base j) = Ok (tt, MkMach g' (base ++ [v]) j)
  | Some (Err x) => execute_at (code e) (MkMach g base j) = Err x
  | Some Timeout => False
  | None => True
  end.
Proof. apply execute_code. Qed.

(** ** A constant expression in a command *)
Context (END_OF_COMMAND : M pst gperr bool) (try_to_get_string : M pst gperr (option (list Z))).
Hypothesis END_OF_COMMAND_looks : forall s, exists b, END_OF_COMMAND s = Ok (b, s).

(** The environment in which an evaluation starts. *)
Definition cleared (g : genv) : genv := set_errno NoError (set_undefined false g).

(** [evaluate_at] takes the value as it is. *)
Definition defined_value (v : value) (g : genv) : bool :=
  match errno g, undefined g with
  | NoError, false =>
      match v with
      | STRING _ => negb (dbl_ltb VERYLARGE (dbl_of_int 0) || dbl_ltb (dbl_of_int 0) (dbl_opp VERYLARGE))
      | INTGR i => negb (dbl_ltb VERYLARGE (dbl_of_int i) || dbl_ltb (dbl_of_int i) (dbl_opp VERYLARGE))
      | CMPLX re _ => negb (dbl_ltb VERYLARGE re || dbl_ltb re (dbl_opp VERYLARGE))
      end
  | _, _ => false
  end.

Lemma evaluate_code e m : formed e -> (depth e <= STACK_DEPTH)%nat ->
  match eval e (cleared (menv m)) with
  | Some (Ok (v, g)) =>
      exists r m', evaluate_at (code e) m = Ok (r, m') /\ undefined (menv m') = negb (defined_value v g) /\
        (defined_value v g = true -> r = Some v /\ m' = MkMach g [] (jump_offset m))
  | Some (Err x) => evaluate_at (code e) m = Err x
  | Some Timeout => False
  | None => True
  end.
Proof.
  intros Hf Hd. pose proof (execute_code e (cleared (menv m)) [] (jump_offset m) Hf ltac:(cbn; lia)) as R.
  destruct (eval e (cleared (menv m))) as [[[v g]|x|]|]; [|..|done|done].
  - cbn [app] in R. assert (E : evaluate_at (code e) m = (m' ← getS;
      match errno (menv m') with
      | NoError =>
          if undefined (menv m') then mret None else
          v ← pop;
          temp ← (match v with STRING _ => mret (dbl_of_int 0) | _ => lift (real v) end);
          (if dbl_ltb VERYLARGE temp || dbl_ltb temp (dbl_opp VERYLARGE)
           then modS (fun m => set_menv (set_undefined true (menv m)) m) else mret tt) ;;
          mret (Some v)
      | _ => modS (fun m => set_menv (set_undefined true (menv m)) m) ;; mret None
      end) (MkMach g [v] (jump_offset m))).
    { unfold evaluate_at. mstep ltac:(reflexivity). mstep ltac:(reflexivity). mstep ltac:(exact R). done. }
    rewrite E. mstep ltac:(reflexivity). unfold defined_value. cbn [menv]. destruct (errno g) eqn:Eg.
    + destruct (undefined g) eqn:Eu; [eexists _, _; split; [reflexivity|done]|].
      assert (P : pop (MkMach g [v] (jump_offset m)) = Ok (v, MkMach g [] (jump_offset m))) by done.
      mstep ltac:(exact P). destruct v as [i|re im|str]; mstep ltac:(reflexivity); destruct (_ || _);
        (eexists _, _; split; [reflexivity|]); by rewrite ?Eu.
    + mstep ltac:(reflexivity). by eexists _, _.
    + mstep ltac:(reflexivity). by eexists _, _.
  - unfold evaluate_at. mstep ltac:(reflexivity). mstep ltac:(reflexivity). rewrite M_bind_eq.
    change (set_stack [] _) with (MkMach (cleared (menv m)) [] (jump_offset m)). by rewrite R.
Qed.

(** C16. [const_express] either finds no expression, or reports the parser's
    error, or has the value of the expression [e] of the grammar that stands at
    [c_token]: the value that [eval] gives for it, with the effects on the
    variables that [eval] gives, and an empty stack, when the value is defined;
    otherwise [int_error] for the token at which the expression begins; an error
    of the evaluation is passed on.  The expression has no dummy variables. *)
Theorem const_express_value n s : (0 < MAX_AT_LEN)%nat -> (2 * (length token - c_token s) + 2 <= n)%nat ->
  let p := new_table (set_dummy_func false s) in
  let r := const_express input_line token END_OF_COMMAND n s in
  (END_OF_COMMAND s = Ok (true, s) /\ r = Err (IntError (Z.of_nat (c_token s)))) \/
  (exists x, parse_expression input_line token n p = Err x /\ r = Err x) \/
  exists e s1, parse_expression input_line token n p = Ok (tt, s1) /\ formed e /\
    spells input_line token [] (env s1) Expression (c_token s) (c_token s1) e /\ extends (env s) (env s1) /\
    ((depth e <= STACK_DEPTH)%nat ->
     match eval e (cleared (env s1)) with
     | Some (Ok (v, g)) =>
         if defined_value v g
         then exists s2, r = Ok (v, s2) /\ env s2 = g /\ c_token s2 = c_token s1 /\ stack (machine s2) = []
         else r = Err (IntError (Z.of_nat (c_token s)))
     | Some (Err x) => r = Err x
     | Some Timeout => False
     | None => True
     end).
Proof.
  intros Hm Hf p r. unfold const_express in r. destruct (END_OF_COMMAND_looks s) as [[] Hb].
  { left. split; [done|]. unfold r. mstep ltac:(reflexivity). by mstep ltac:(exact Hb). }
  right. pose proof (parse_expression_wp n p (MkTable [] MAX_AT_LEN) Hm) as R. unfold wp in R.
  specialize (R ltac:(split; [done|cbn; lia]) Hf).
  assert (Er : r = match parse_expression input_line token n p with
    | Ok (_, s1) => (s ← getS;
        match at_ s with
        | None => throw (GpFault NullDeref)
        | Some t =>
            v ← run_machine (evaluate_at (actions t));
            s' ← getS;
            if undefined (env s') then int_error (Z.of_nat (c_token p)) else
            match v with Some v => mret v | None => throw (GpFault OutOfBounds) end
        end) s1
    | Err x => Err x | Timeout => Timeout end).
  { unfold r. mstep ltac:(reflexivity). mstep ltac:(exact Hb). mstep ltac:(reflexivity). rewrite M_bind_eq.
    assert (Et : temp_at (parse_expression input_line token n) (set_dummy_func false s) = parse_expression input_line token n p) by done.
    rewrite Et. by destruct (parse_expression input_line token n p) as [[[] s1]|x|]. }
  clearbody r. destruct (parse_expression input_line token n p) as [[[] s1]|x|]; [|left; by exists x|done].
  right. destruct R as (e & Hfe & Hse & [_ (t0 & t1 & Ht0 & Ht1 & Ea) He _ _] & _ & _).
  exists e, s1. split_and!; [done|done|exact Hse|exact He|]. intros Hd. injection Ht0 as <-. cbn [actions app] in Ea.
  assert (Er' : r = (v ← run_machine (evaluate_at (code e));
            s' ← getS;
            if undefined (env s') then int_error (Z.of_nat (c_token p)) else
            match v with Some v => mret v | None => throw (GpFault OutOfBounds) end) s1).
  { rewrite Er. mstep ltac:(reflexivity). by rewrite Ht1, Ea. }
  pose proof (evaluate_code e (machine s1) Hfe Hd) as Hv. change (menv (machine s1)) with (env s1) in Hv.
  destruct (eval e (cleared (env s1))) as [[[v g]|x|]|]; [|..|done|done].
  - destruct Hv as (o & m' & Ev & Hu & Hdef). rewrite Er'.
    assert (Em : run_machine (evaluate_at (code e)) s1 = Ok (o, set_machine m' s1)) by (unfold run_machine; by rewrite Ev).
    mstep ltac:(exact Em). mstep ltac:(reflexivity). change (undefined (env (set_machine m' s1))) with (undefined (menv m')).
    rewrite Hu. destruct (defined_value v g); cbn [negb]; [|done]. destruct (Hdef eq_refl) as [-> ->].
    by eexists.
  - rewrite Er', M_bind_eq. unfold run_machine. by rewrite Hv.
Qed.
End theorems.

(** ** Strings *)
(** Writing a string so that [parse_esc] reads it back. *)
Definition escape_char (c : Z) : list Z :=
  if c =? 92 then [92; 92] else if c =? 34 then [92; 34] else if c =? 10 then [92; 110]
  else if c =? 13 then [92; 114] else if c =? 9 then [92; 116] else [c].

Lemma escape_char_nonzero c : c <> 0 -> Forall (fun x => x <> 0) (escape_char c).
Proof. intros Hc. unfold escape_char. repeat case_match; by repeat constructor. Qed.

Lemma escape_char_cases c :
  (exists x, escape_char c = [92; x] /\ simple_esc x = Some c) \/ (escape_char c = [c] /\ c <> 92).
Proof.
  unfold escape_char. repeat case_match; try (left; eexists; split; [reflexivity|]; by match goal with E : (c =? _) = true |- _ => apply Z.eqb_eq in E; subst c end).
  right. split; [done|]. by apply Z.eqb_neq.
Qed.

Lemma unescaped_escape l n : (length (flat_map escape_char l) <= n)%nat -> unescaped n (flat_map escape_char l) = Some l.
Proof.
  revert n. induction l as [|c l IH]; intros n; cbn [flat_map]; [by destruct n|]. rewrite length_app.
  destruct (escape_char_cases c) as [(x & -> & Ex)|[-> Hc]]; cbn [length]; intros Hn; (destruct n as [|n]; [lia|]); cbn [unescaped app].
  - change (negb (92 =? 92)) with false. cbn iota. rewrite Ex, IH; [done|lia].
  - rewrite (proj2 (Z.eqb_neq _ _) Hc). cbn [negb]. rewrite IH; [done|lia].
Qed.

(** [parse_esc] undoes the writing of backslashes, quotes, newlines, carriage
    returns and tabs as escapes: on the bytes of such a string it ends, writes
    only inside the array and leaves the string that was meant. *)
Theorem parse_esc_escape l : Forall (fun c => c <> 0) l ->
  on_string parse_esc (flat_map escape_char l) = Ok l.
Proof.
  intros Hl. assert (He : Forall (fun c => c <> 0) (flat_map escape_char l)).
  { induction Hl as [|c l Hc _ IH]; cbn; [done|]. apply Forall_app. split; [by apply escape_char_nonzero|done]. }
  pose proof (parse_esc_ok _ He) as R. rewrite unescaped_escape in R by done. destruct R as [rest R].
  unfold on_string. rewrite R. by rewrite c_string_app.
Qed.

(** No two white spaces next to each other, and only blanks. *)
Fixpoint squashed (l : list Z) : Prop :=
  match l with
  | a :: l' => (isspace a = true -> a = 32 /\ match l' with b :: _ => isspace b = false | [] => True end) /\ squashed l'
  | [] => True
  end.

Definition no_space (c : Z) : Prop := isspace c = false.
#[local] Instance no_space_dec c : Decision (no_space c).
Proof. unfold no_space. apply _. Defined.

Lemma squash_shape l b : squashed (squash b l) /\ filter no_space (squash b l) = filter no_space l /\
  (b = true -> match squash b l with c :: _ => isspace c = false | [] => True end).
Proof.
  revert b. induction l as [|c l IH]; intros b; cbn [squash squashed]; [done|].
  destruct (isspace c) eqn:E.
  - rewrite (filter_cons_False _ c) by (unfold no_space; congruence). destruct b; [apply IH|].
    destruct (IH true) as (I1 & I2 & I3). cbn [squashed]. split_and!; [intros _; split; [done|by apply I3]|done| |done].
    by rewrite filter_cons_False.
  - destruct (IH false) as (I1 & I2 & _). cbn [squashed]. split_and!; [intros Ex; congruence|done| |done].
    rewrite !filter_cons_True by done. by rewrite I2.
Qed.

(** [squash_spaces] ends on the bytes of any string, writes only inside the
    array, and leaves a string with the same other characters in the same order
    in which runs of white space are one blank; doing it twice changes nothing
    more. *)
Theorem squash_spaces_correct l : Forall (fun c => c <> 0) l -> exists u,
  on_string squash_spaces l = Ok u /\ squashed u /\ filter no_space u = filter no_space l /\
  on_string squash_spaces u = Ok u.
Proof.
  assert (Hrun : forall l, Forall (fun c => c <> 0) l -> on_string squash_spaces l = Ok (squash false l)).
  { intros l0 Hl0. unfold on_string, squash_spaces. rewrite M_bind_eq. cbn [getS].
    destruct (squash_loop_ok l0 Hl0 (S (length (l0 ++ [0]))) [] [] [] false) as (rest & _ & _ & R); [rewrite length_app; cbn; lia|].
    cbn [app length Nat.add] in R. change (Z.of_nat 0) with 0 in R. rewrite R. f_equal. apply c_string_app.
    clear R rest. assert (Hb : forall b, Forall (fun c => c <> 0) (squash b l0)); [|apply Hb].
    induction Hl0 as [|c l0 Hc _ IH]; intros b; cbn [squash]; [done|]. destruct (isspace c); [destruct b|]; try constructor; by auto. }
  intros Hl. exists (squash false l). destruct (squash_shape l false) as (S1 & S2 & _). split_and!; [by apply Hrun|done|done|].
  assert (Hid : forall u b, squashed u -> (b = true -> match u with c :: _ => isspace c = false | [] => True end) -> squash b u = u).
  { clear. induction u as [|c u IH]; intros b Hs Hb; cbn [squash]; [done|]. destruct Hs as [Hc Hs]. destruct (isspace c) eqn:E.
    - destruct b; [by specialize (Hb eq_refl)|]. destruct (Hc eq_refl) as [-> Hn]. f_equal. by apply IH.
    - f_equal. by apply IH. }
  rewrite Hrun; [by rewrite Hid|]. pose proof (Hrun l Hl) as R.
  assert (Hb : forall b, Forall (fun c => c <> 0) (squash b l)); [|apply Hb].
  clear -Hl. induction Hl as [|c l Hc _ IH]; intros b; cbn [squash]; [done|]. destruct (isspace c); [destruct b|]; try constructor; by auto.
Qed.

(** ** User variables *)
(** [add_udv_by_name] gives the entry of the name: the one that is there, and
    then nothing changes, or a new undefined one at the end of the list; names
    stay unique. *)
Theorem add_udv_by_name_correct `{Doubles} key g p g' : NoDup (udv_name <$> udvs g) -> add_udv_by_name key g = (p, g') ->
  NoDup (udv_name <$> udvs g') /\ (exists u, udvs g' !! p = Some u /\ udv_name u = key) /\
  (key ∈ (udv_name <$> udvs g) -> g' = g) /\
  (key ∉ (udv_name <$> udvs g) -> p = length (udvs g) /\ g' = set_udvs (udvs g ++ [MkUdv key true (INTGR 0)]) g).
Proof.
  intros Hnd. unfold add_udv_by_name. pose proof (find_udv_spec key (udvs g)) as Hf.
  destruct (_ <? _)%nat eqn:E; intros [= <- <-].
  - apply Nat.ltb_lt in E. destruct (udvs g !! find_udv key (udvs g)) as [u|] eqn:Eu; [|apply lookup_ge_None in Eu; lia].
    assert (Hin : key ∈ (udv_name <$> udvs g)) by (apply list_elem_of_fmap; exists u; split; [done|by eapply list_elem_of_lookup_2]).
    split_and!; [done|by exists u|done|done].
  - apply Nat.ltb_ge in E. destruct (udvs g !! find_udv key (udvs g)) as [u|] eqn:Eu; [apply lookup_lt_Some in Eu; lia|].
    assert (Hnin : key ∉ (udv_name <$> udvs g)).
    { clear -Hf. induction (udvs g) as [|u l IH]; cbn [fmap list_fmap]; [apply not_elem_of_nil|]. cbn in Hf.
      destruct (decide (udv_name u = key)) as [|Hne]; [done|]. injection Hf as Hf. apply not_elem_of_cons. split; [congruence|by apply IH]. }
    split_and!; [|eexists; split; [cbn; rewrite Hf, lookup_app_r, Nat.sub_diag by lia; reflexivity|done]|done|by rewrite Hf].
    cbn. rewrite fmap_app. cbn. apply NoDup_app. split_and!; [done| |by apply NoDup_singleton].
    intros x Hx ->%list_elem_of_singleton. done.
Qed.

(** ** A calculator: integers for [double], and a few of the actions *)
Module Calculator.
#[export] Instance doubles : Doubles := {|
  dbl := Z; dbl_of_int := fun i => i; int_of_dbl := fun d => Z.max (-99) (Z.min 99 d);
  dbl_add := Z.add; dbl_mul := Z.mul; dbl_opp := Z.opp; dbl_sqrt := Z.sqrt; dbl_atan2 := fun _ _ => 0;
  dbl_ltb := Z.ltb; dbl_leb := Z.leb; dbl_eqb := Z.eqb; M_PI := 3; VERYLARGE := 1000000;
  atof := fun s => Z.of_nat (length s)
|}.

Definition arity (op : operators) : nat :=
  match op with
  | PLUS | MINUS | MULT | DIV | LT | EQ | ASSIGN | CONCATENATE => 2
  | UMINUS | LNOT => 1
  | _ => 0
  end.

Definition set_value (nm : list Z) (v : value) (g : genv) : genv :=
  let '(p, g) := add_udv_by_name nm g in set_udvs (<[p := MkUdv nm false v]> (udvs g)) g.

Definition apply (op : operators) (x : argument) (vs : list value) (g : genv) : res gperr (value * genv) :=
  match op, x, vs with
  | PUSHC, v_arg v, [] => Ok (v, g)
  | PUSH, udv_arg p, [] =>
      match udvs g !! p with
      | Some u => if udv_undef u then Ok (INTGR 0, set_undefined true g) else Ok (udv_value u, g)
      | None => Err (GpFault OutOfBounds)
      end
  | PLUS, _, [INTGR a; INTGR b] => Ok (INTGR (a + b), g)
  | MINUS, _, [INTGR a; INTGR b] => Ok (INTGR (a - b), g)
  | MULT, _, [INTGR a; INTGR b] => Ok (INTGR (a * b), g)
  | LT, _, [INTGR a; INTGR b] => Ok (of_bool (a <? b), g)
  | DIV, _, [INTGR a; INTGR b] => if b =? 0 then Ok (INTGR 0, set_undefined true g) else Ok (INTGR (a ÷ b), g)
  | UMINUS, _, [INTGR a] => Ok (INTGR (- a), g)
  | ASSIGN, _, [STRING nm; v] => Ok (v, set_value nm v g)
  | _, _, _ => Err (IntError NO_CARET)
  end.

Definition action (op : operators) (x : argument) (m : mach) : res gperr (unit * mach) :=
  if decide (op = POP) then Ok (tt, set_stack (removelast (stack m)) m) else
  let base := (length (stack m) - arity op)%nat in
  if (length (stack m) <? arity op)%nat || (250 <? base + 1)%nat then Err (IntError NO_CARET) else
  match apply op x (drop base (stack m)) (menv m) with
  | Ok (v, g) => Ok (tt, set_menv g (set_stack (take base (stack m) ++ [v]) m))
  | Err e => Err e
  | Timeout => Timeout
  end.

#[export] Instance gp : Gp := {| STACK_DEPTH := 250; MAX_AT_LEN := 150; MAX_ID_LEN := 50; MAX_NUM_VAR := 5; ft_func := action |}.

#[export] Program Instance laws : GpLaws := {|
  takes := fun op _ vs _ => (length vs =? arity op)%nat;
  room_for := fun _ _ => 1%nat;
  sem := apply
|}.
Next Obligation.
  intros op x vs base g (_ & _ & Hp) Hl Hroom. apply Nat.eqb_eq in Hl. cbn in Hroom |- *. unfold action. cbn [stack menv].
  rewrite decide_False by done. rewrite length_app, <- Hl, Nat.add_sub.
  rewrite (proj2 (Nat.ltb_ge _ _)) by lia. rewrite (proj2 (Nat.ltb_ge 250 _)) by lia. cbn [orb].
  rewrite drop_app_length, take_app_length. by destruct (apply op x vs g) as [[]| |].
Qed.
Next Obligation. intros base v g. cbn. unfold action, set_stack. cbn. by rewrite removelast_last. Qed.
Next Obligation.
  intros op x vs g. cbn. unfold apply. intros E. repeat (case_match; try done).
Qed.

(** Tokens one after the other: a number with its value, or a word. *)
Fixpoint scan (l : list (string * option Z)) (pos : nat) : list Z * list lexical_unit :=
  match l with
  | [] => ([], [])
  | (w, v) :: l' =>
      let '(line, toks) := scan l' (pos + length (chars w)) in
      (chars w ++ line, MkToken _ (if v is Some _ then false else true) (INTGR (default 0 v)) pos (length (chars w)) :: toks)
  end.

Definition no_vars : genv := MkEnv [udv_pi] [] false NoError false.
Definition start (g : genv) : pst := MkPst None 0 0 0 false false false [] (-1) false (MkMach g [] 0).
Definition empty_table (s : pst) : pst := set_at_size 150 (set_at (Some (MkTable [] 150)) s).

Definition run (l : list (string * option Z)) : res gperr (value * pst) :=
  let '(line, toks) := scan (l ++ [(";"%string, None)]) 0 in
  const_express line toks (mret false) 40 (start no_vars).

Definition result (l : list (string * option Z)) : res gperr value := r ← run l; Ok (fst r).

Definition num (z : Z) (w : string) : string * option Z := (w, Some z).
Definition word (w : string) : string * option Z := (w, None).

(** The machine when an expression is read into an empty table. *)
Definition compile (l : list (string * option Z)) : res gperr (unit * pst) :=
  let '(line, toks) := scan (l ++ [(";"%string, None)]) 0 in
  parse_expression line toks 40 (empty_table (start no_vars)).

Definition table_of (r : res gperr (unit * pst)) : option (list at_entry * nat) :=
  match r with Ok (_, s) => match at_ s with Some t => Some (actions t, c_token s) | None => None end | _ => None end.

(** Multiplication binds more strongly, subtraction to the left; the division
    by zero is not evaluated. *)
Example run_precedence : result [num 1 "1"; word "+"; num 2 "2"; word "*"; num 3 "3"] = Ok (INTGR 7).
Proof. vm_compute. reflexivity. Qed.

Example run_left : result [num 9 "9"; word "-"; num 3 "3"; word "-"; num 2 "2"] = Ok (INTGR 4).
Proof. vm_compute. reflexivity. Qed.

Definition guarded : list (string * option Z) :=
  [num 3 "3"; word "<"; num 2 "2"; word "&&"; num 1 "1"; word "/"; num 0 "0"; word "?"; num 5 "5"; word ":"; num 6 "6"].

Example run_guarded : result guarded = Ok (INTGR 6).
Proof. vm_compute. reflexivity. Qed.

Definition guarded_expr : expr :=
  let k z := constant (INTGR z) in
  ECond (EAnd (EPrim LT no_arg [k 3; k 2]) (EPrim DIV no_arg [k 1; k 0])) (k 5) (k 6).

Example compile_guarded : table_of (compile guarded) = Some (code guarded_expr, 11%nat).
Proof. vm_compute. reflexivity. Qed.

Definition guarded_scan : list Z * list lexical_unit := scan (guarded ++ [(";"%string, None)]) 0.

Lemma parse_expression_sound_witness :
  match parse_expression guarded_scan.1 guarded_scan.2 40 (empty_table (start no_vars)) with
  | Ok (_, s') => exists e t', formed e /\
      spells guarded_scan.1 guarded_scan.2 [] (env s') Expression 0 (c_token s') e /\
      table_ok s' t' /\ actions t' = [] ++ code e /\ (0 < c_token s')%nat /\
      extends no_vars (env s') /\ rest s' = rest (empty_table (start no_vars))
  | Err x => x <> TableFault /\ x <> GpFault NullDeref
  | Timeout => False
  end.
Proof.
  apply (parse_expression_sound guarded_scan.1 guarded_scan.2 40 (empty_table (start no_vars)) (MkTable [] 150)).
  - cbn. lia.
  - split; [done|]. cbn. lia.
  - vm_compute. lia.
Defined.

Lemma execute_at_code_witness : eval guarded_expr no_vars = Some (Ok (INTGR 6, no_vars)) /\
  execute_at (code guarded_expr) (MkMach no_vars [INTGR 1] 1) = Ok (tt, MkMach no_vars [INTGR 1; INTGR 6] 1).
Proof.
  split; [done|]. pose proof (execute_at_code guarded_expr no_vars [INTGR 1] 1) as R. apply R.
  - cbn. by repeat split.
  - vm_compute. lia.
Defined.

Lemma const_express_value_witness :
  let p := new_table (set_dummy_func false (start no_vars)) in
  let r := const_express guarded_scan.1 guarded_scan.2 (mret false) 40 (start no_vars) in
  ((mret false : M pst gperr bool) (start no_vars) = Ok (true, start no_vars) /\ r = Err (IntError 0)) \/
  (exists x, parse_expression guarded_scan.1 guarded_scan.2 40 p = Err x /\ r = Err x) \/
  exists e s1, parse_expression guarded_scan.1 guarded_scan.2 40 p = Ok (tt, s1) /\ formed e /\
    spells guarded_scan.1 guarded_scan.2 [] (env s1) Expression 0 (c_token s1) e /\ extends no_vars (env s1) /\
    ((depth e <= STACK_DEPTH)%nat ->
     match eval e (cleared (env s1)) with
     | Some (Ok (v, g)) =>
         if defined_value v g
         then exists s2, r = Ok (v, s2) /\ env s2 = g /\ c_token s2 = c_token s1 /\ stack (machine s2) = []
         else r = Err (IntError 0)
     | Some (Err x) => r = Err x
     | Some Timeout => False
     | None => True
     end).
Proof.
  apply (const_express_value guarded_scan.1 guarded_scan.2 (mret false) (fun s => ex_intro _ false eq_refl) 40 (start no_vars)).
  - cbn. lia.
  - vm_compute. lia.
Defined.

Lemma parse_esc_escape_witness : on_string parse_esc (chars "a\\b\n") = Ok (chars "a\b" ++ [10]).
Proof. apply (parse_esc_escape (chars "a\b" ++ [10])). vm_compute. by repeat constructor. Defined.

Lemma squash_spaces_correct_witness : exists u, on_string squash_spaces (chars "  plot   sin(x)") = Ok u /\ squashed u /\
  filter no_space u = filter no_space (chars "  plot   sin(x)") /\ on_string squash_spaces u = Ok u.
Proof. apply (squash_spaces_correct (chars "  plot   sin(x)")). vm_compute. by repeat constructor. Defined.

Lemma add_udv_by_name_correct_witness :
  let '(p, g') := add_udv_by_name (chars "a") no_vars in
  NoDup (udv_name <$> udvs g') /\ (exists u, udvs g' !! p = Some u /\ udv_name u = chars "a") /\
  (chars "a" ∈ (udv_name <$> udvs no_vars) -> g' = no_vars) /\
  (chars "a" ∉ (udv_name <$> udvs no_vars) -> p = length (udvs no_vars) /\
     g' = set_udvs (udvs no_vars ++ [MkUdv (chars "a") true (INTGR 0)]) no_vars).
Proof. apply (add_udv_by_name_correct (chars "a") no_vars); [apply NoDup_singleton|reflexivity]. Defined.

(** [parse_sum_expression] puts [at] and [at_size] back, but not
    [parse_recursion_level], which [temp_at] sets to 0: behind a sum at the top
    level it is wrong by one, and [parse_additive_expression] takes a [+] that
    [string_result_only] should have kept. *)
Definition sum_line : list (string * option Z) :=
  [word "sum"; word "["; word "i"; word "="; num 1 "1"; word ":"; num 2 "2"; word "]"; word "i"].

Theorem sum_forgets_level :
  (match compile [num 1 "1"] with Ok (_, s) => parse_recursion_level s = 0 | _ => False end) /\
  (match compile sum_line with Ok (_, s) => parse_recursion_level s = -1 | _ => False end).
Proof. vm_compute. by split. Qed.
End Calculator.
