(* ===== verification/GpIter.v ===== *)
(** * gnuplot: iterations ([parse.c])

    [for [v = a : b : c]] and [for [v in "words"]] in front of a plot make an
    iterator: a list of nodes, one for each [for], the outermost first.
    [next_iteration] moves it on and sets the variables.  The links [next] and
    [prev] are the order of the list, the [prev] of the first node is its last.

    The flag [really_done] is only used in the first node, and so is
    [empty_iteration] after it is made.  The conversion of a floating point
    number to [int], [gp_words] and [gp_word] are not part of the repository;
    [int] arithmetic that overflows is undefined and a fault.  The same holds
    for an integer that is written over a value of another type, which happens
    when a command of the loop gives its variable another value. *)
From S2P Require Import Prelude GpUtil GpEval GpParse.
From stdpp Require Import strings.
Open Scope Z_scope.

Record t_iterator := MkIter {
  iteration_udv : nat;
  iteration_string : option (list Z);
  iteration_start : Z;
  iteration_end : Z;
  iteration_increment : Z;
  iteration_current : Z;
  iteration : Z;
  done : bool;
  really_done : bool;
  is_empty : bool
}.

Definition set_current (x : Z) (it : t_iterator) : t_iterator :=
  MkIter (iteration_udv it) (iteration_string it) (iteration_start it) (iteration_end it) (iteration_increment it) x
    (iteration it) (done it) (really_done it) (is_empty it).
Definition set_iteration (x : Z) (it : t_iterator) : t_iterator :=
  MkIter (iteration_udv it) (iteration_string it) (iteration_start it) (iteration_end it) (iteration_increment it)
    (iteration_current it) x (done it) (really_done it) (is_empty it).
Definition set_done (x : bool) (it : t_iterator) : t_iterator :=
  MkIter (iteration_udv it) (iteration_string it) (iteration_start it) (iteration_end it) (iteration_increment it)
    (iteration_current it) (iteration it) x (really_done it) (is_empty it).
Definition set_really_done (x : bool) (it : t_iterator) : t_iterator :=
  MkIter (iteration_udv it) (iteration_string it) (iteration_start it) (iteration_end it) (iteration_increment it)
    (iteration_current it) (iteration it) (done it) x (is_empty it).
Definition set_empty (x : bool) (it : t_iterator) : t_iterator :=
  MkIter (iteration_udv it) (iteration_string it) (iteration_start it) (iteration_end it) (iteration_increment it)
    (iteration_current it) (iteration it) (done it) (really_done it) x.

Definition fits_int (z : Z) : bool := (- 2 ^ 31 <=? z) && (z <? 2 ^ 31).
Definition arith {S} (z : Z) : M S gperr Z := if fits_int z then mret z else throw (GpFault Aborted).

Section iterations.
Context `{GP : Gp}.
Context (gp_words : list Z -> Z) (gp_word : list Z -> Z -> list Z).

(** ** Variables *)
Definition assign (p : nat) (v : value) (g : genv) : res gperr genv :=
  match udvs g !! p with
  | Some u => Ok (set_udvs (<[p := MkUdv (udv_name u) false v]> (udvs g)) g)
  | None => Err (GpFault OutOfBounds)
  end.

(** [udv_value.v.int_val = n] and [udv_value.v.string_val = s] *)
Definition set_int_val (p : nat) (n : Z) (g : genv) : res gperr genv :=
  match udvs g !! p with
  | Some (MkUdv nm u (INTGR _)) => Ok (set_udvs (<[p := MkUdv nm u (INTGR n)]> (udvs g)) g)
  | _ => Err (GpFault Aborted)
  end.

Definition set_string_val (p : nat) (s : list Z) (g : genv) : res gperr genv :=
  match udvs g !! p with
  | Some (MkUdv nm u (STRING _)) => Ok (set_udvs (<[p := MkUdv nm u (STRING s)]> (udvs g)) g)
  | _ => Err (GpFault Aborted)
  end.

(** ** Going on *)
Abbreviation I := (M (list t_iterator * genv) gperr).

Definition set_node (i : nat) (it : t_iterator) : I unit := modS (fun s => (<[i := it]> s.1, s.2)).
Definition node (i : nat) : I t_iterator :=
  s ← getS; match s.1 !! i with Some it => mret it | None => throw (GpFault NullDeref) end.

Definition update_variable (i : nat) : I unit :=
  it ← node i;
  s ← getS;
  g ← lift (match iteration_string it with
            | Some str => set_string_val (iteration_udv it) (gp_word str (iteration_current it)) s.2
            | None => set_int_val (iteration_udv it) (iteration_current it) s.2
            end);
  modS (fun s => (s.1, g)).

(** Back to the start of the inner loops that are done; the node to go on with. *)
Fixpoint rewind (i : nat) : I nat :=
  match i with
  | O => mret O
  | S i' =>
      head ← node 0;
      it ← node i;
      if negb (really_done head) && done it then
        set_node i (set_done false (set_current (iteration_start it) it)) ;;
        update_variable i ;;
        rewind i'
      else mret i
  end.

Definition next_iteration : I bool :=
  s ← getS;
  match s.1 with
  | [] => mret false
  | head :: _ =>
      if is_empty head then mret false else
      i ← rewind (length s.1 - 1);
      head ← node 0;
      n ← arith (iteration head + 1);
      set_node 0 (set_iteration n head) ;;
      head ← node 0;
      it ← node i;
      (if really_done head then mret tt else
       c ← arith (iteration_current it + iteration_increment it);
       set_node i (set_current c it)) ;;
      update_variable i ;;
      it ← node i;
      d ← arith (iteration_end it - iteration_current it);
      d ← arith (d - iteration_increment it);
      d ← arith (d * iteration_increment it);
      set_node i (set_done (negb (0 <=? d)) it) ;;
      s ← getS;
      if existsb (fun it => negb (done it)) s.1 then mret true else
      head ← node 0;
      if really_done head then mret false else
      set_node 0 (set_really_done true head) ;; mret true
  end.

Definition empty_iteration (iter : list t_iterator) : bool := match iter with [] => false | head :: _ => is_empty head end.

(** ** Reading the iterations of a command *)
Section check.
Context (input_line : list Z) (token : list lexical_unit).
Context (END_OF_COMMAND : M pst gperr bool) (try_to_get_string : M pst gperr (option (list Z))) (fuel : nat).

Abbreviation P := (M pst gperr).
Abbreviation int_expr := (int_expression input_line token END_OF_COMMAND fuel).
Abbreviation equals := (equals input_line token).

(** [int_error(c_token-1, errormsg)] *)
Definition expecting {A} : P A := s ← getS; int_error (Z.of_nat (c_token s) - 1).

(** [if (!equals(c_token++, str)) int_error(c_token-1, errormsg)] *)
Definition demand (str : string) : P unit :=
  b ← equals str; skip 1 ;; if (b : bool) then mret tt else expecting.

Definition assign_udv (p : nat) (v : value) : P unit :=
  s ← getS; g ← lift (assign p v (env s)); modS (set_env g).

(** The string, first, last and increment of one [for]. *)
Definition iteration_range (udv : nat) : P (option (list Z) * Z * Z * Z) :=
  eq ← equals "=";
  if (eq : bool) then
    skip 1 ;;
    a ← int_expr;
    demand ":" ;;
    b ← int_expr;
    more ← equals ":";
    c ← (if (more : bool) then skip 1 ;; int_expr else mret 1);
    demand "]" ;;
    assign_udv udv (Ginteger a) ;;
    mret (None, a, b, c)
  else
    in_ ← equals "in";
    skip 1 ;;
    if negb in_ then expecting else
    str ← try_to_get_string;
    match str with
    | None => expecting
    | Some str =>
        demand "]" ;;
        assign_udv udv (Gstring (gp_word str 1)) ;;
        mret (Some str, 1, gp_words str, 1)
    end.

Definition one_iteration (iter : list t_iterator) : P (list t_iterator) :=
  skip 1 ;;
  open ← equals "[";
  skip 1 ;;
  letter ← (if (open : bool) then at_letter input_line token else mret false);
  if negb letter then expecting else
  s ← getS;
  udv ← add_udv input_line token (c_token s);
  skip 1 ;;
  r ← iteration_range udv;
  let '(str, first, last, inc) := r in
  len ← arith (last - first);
  area ← arith (len * inc);
  let e := area <? 0 in
  abs_len ← (if inc =? 0 then mret 0 else if first =? last then mret 0 else arith (Z.abs len));
  abs_inc ← (if inc =? 0 then mret 0 else if first =? last then mret 0 else arith (Z.abs inc));
  if negb (inc =? 0) && negb (first =? last) && (abs_inc <=? abs_len) then
    let it := MkIter udv str first last inc first 0 false false false in
    match iter with
    | [] => mret [set_empty e it]
    | head :: rest => mret (set_empty (if is_empty head then true else e) head :: rest ++ [it])
    end
  else mret iter.

Fixpoint for_loop (n : nat) (iter : list t_iterator) : P (list t_iterator) :=
  match n with
  | O => fun _ => Timeout
  | S n' =>
      b ← equals "for";
      if (b : bool) then iter ← one_iteration iter; for_loop n' iter else mret iter
  end.

Definition check_for_iteration : P (list t_iterator) := for_loop fuel [].
End check.
End iterations.
