(* ===== verification/GpIterProofs.v ===== *)
(** * gnuplot: an iterator is an odometer

    [turn ms ds] moves the digits [ds], each at most the one of [ms], to the next
    ones in lexicographic order.  [next_iteration_turns]: [next_iteration] does
    that to the nodes of an iterator, and [walk_combos]: the digits that are met
    from the first on are all there are. *)
From S2P Require Import Prelude GpUtil GpUtilProofs GpEval GpParse GpIter.
From stdpp Require Import strings.
Open Scope Z_scope.

(** ** Digits *)
Section digits.
Local Open Scope nat_scope.

(** On digits with the last one first. *)
Fixpoint rturn (ms ds : list nat) : option (list nat) :=
  match ms, ds with
  | m :: ms', d :: ds' => if d <? m then Some (S d :: ds') else cons 0 <$> rturn ms' ds'
  | _, _ => None
  end.

Definition turn (ms ds : list nat) : option (list nat) := reverse <$> rturn (reverse ms) (reverse ds).

Definition zeros {A} (l : list A) : list nat := (fun _ => 0) <$> l.

Lemma rturn_snoc ms ds m d : length ms = length ds ->
  rturn (ms ++ [m]) (ds ++ [d]) =
  match rturn ms ds with
  | Some ds' => Some (ds' ++ [d])
  | None => if d <? m then Some (zeros ms ++ [S d]) else None
  end.
Proof.
  revert ds. induction ms as [|x ms IH]; intros [|y ds] Hl; try done; cbn [app rturn].
  destruct (y <? x); [done|]. rewrite IH by (cbn in Hl; lia). destruct (rturn ms ds); [done|]. by destruct (d <? m).
Qed.

Lemma turn_cons m ms d ds : length ms = length ds ->
  turn (m :: ms) (d :: ds) =
  match turn ms ds with
  | Some ds' => Some (d :: ds')
  | None => if d <? m then Some (S d :: zeros ms) else None
  end.
Proof.
  intros Hl. unfold turn. rewrite !reverse_cons, rturn_snoc by (by rewrite !length_reverse).
  destruct (rturn _ _) as [ds'|]; cbn [fmap option_fmap option_map]; [by rewrite reverse_snoc|]. destruct (d <? m); [|done]. cbn [fmap option_fmap option_map].
  rewrite reverse_snoc. do 2 f_equal. unfold zeros. by rewrite <- fmap_reverse, reverse_involutive.
Qed.

Lemma rturn_length ms ds ds' : rturn ms ds = Some ds' -> length ds' = length ds.
Proof.
  revert ds ds'. induction ms as [|m ms IH]; intros [|d ds] ds'; try done; cbn [rturn].
  destruct (d <? m); [by intros [= <-]|]. destruct (rturn ms ds) as [x|] eqn:E; [|done]. intros [= <-]. cbn. f_equal. by apply IH.
Qed.

Lemma turn_length ms ds ds' : turn ms ds = Some ds' -> length ds' = length ds.
Proof.
  unfold turn. destruct (rturn _ _) as [x|] eqn:E; [|done]. intros [= <-]. apply rturn_length in E.
  by rewrite length_reverse, E, length_reverse.
Qed.

(** All digits in lexicographic order. *)
Fixpoint combos (ms : list nat) : list (list nat) :=
  match ms with
  | [] => [[]]
  | m :: ms' => flat_map (fun d => cons d <$> combos ms') (seq 0 (S m))
  end.

(** The digits from [ds] on. *)
Fixpoint walk (fuel : nat) (ms ds : list nat) : list (list nat) :=
  match fuel with
  | O => []
  | S f => ds :: match turn ms ds with Some ds' => walk f ms ds' | None => [] end
  end.

(** [walk] has come to the end. *)
Fixpoint ends (fuel : nat) (ms ds : list nat) : Prop :=
  match fuel with
  | O => False
  | S f => match turn ms ds with Some ds' => ends f ms ds' | None => True end
  end.

Lemma ends_walk f n ms ds : ends f ms ds -> walk (f + n) ms ds = walk f ms ds /\ ends (f + n) ms ds.
Proof.
  revert ds. induction f as [|f IH]; intros ds; [done|]. cbn. destruct (turn ms ds) as [ds'|]; [|done].
  intros He. destruct (IH ds' He) as [-> ?]. done.
Qed.

Lemma walk_cons f m ms d ds k : length ms = length ds -> ends f ms ds ->
  walk (length (walk f ms ds) + k) (m :: ms) (d :: ds) =
    (cons d <$> walk f ms ds) ++ (if d <? m then walk k (m :: ms) (S d :: zeros ms) else []) /\
  (ends (length (walk f ms ds) + k) (m :: ms) (d :: ds) <-> (if d <? m then ends k (m :: ms) (S d :: zeros ms) else True)).
Proof.
  revert ds. induction f as [|f IH]; intros ds Hl; [done|]. cbn [walk ends length Nat.add].
  rewrite turn_cons by done. destruct (turn ms ds) as [ds'|] eqn:E; intros He.
  - apply turn_length in E. destruct (IH ds' ltac:(congruence) He) as [-> ->]. by rewrite fmap_cons.
  - by destruct (d <? m).
Qed.

Lemma walk_combos ms : walk (length (combos ms)) ms (zeros ms) = combos ms /\ ends (length (combos ms)) ms (zeros ms).
Proof.
  induction ms as [|m ms [IH1 IH2]]; [done|].
  assert (Hgen : forall k j, (j + k = S m)%nat -> (0 < k)%nat -> forall l, l = flat_map (fun d => cons d <$> combos ms) (seq j k) ->
    walk (length l) (m :: ms) (j :: zeros ms) = l /\ ends (length l) (m :: ms) (j :: zeros ms)).
  { induction k as [|k IHk]; intros j Hj Hk l ->; [lia|]. cbn [seq flat_map]. rewrite length_app, length_fmap.
    assert (Hz : length ms = length (zeros ms)) by (unfold zeros; by rewrite length_fmap).
    pose proof (walk_cons (length (combos ms)) m ms j (zeros ms) (length (flat_map (fun d => cons d <$> combos ms) (seq (S j) k))) Hz IH2) as [W1 W2].
    rewrite IH1 in W1, W2. rewrite W1, W2. destruct k as [|k].
    - rewrite (proj2 (Nat.ltb_ge _ _)) by lia. done.
    - rewrite (proj2 (Nat.ltb_lt _ _)) by lia. destruct (IHk (S j) ltac:(lia) ltac:(lia) _ eq_refl) as [-> ?]. done. }
  exact (Hgen (S m) 0 ltac:(lia) ltac:(lia) _ eq_refl).
Qed.

(** *** The same by positions, as the code does it *)
Fixpoint spin (ms : list nat) (i : nat) (ds : list nat) : nat * list nat :=
  match i with
  | O => (O, ds)
  | S i' => if nth i ds 0 =? nth i ms 0 then spin ms i' (<[i := 0]> ds) else (i, ds)
  end.

Definition bounded (ms ds : list nat) : Prop := Forall2 Nat.le ds ms.

Lemma rturn_full ms ds : bounded ms ds -> rturn ms ds = None <-> ds = ms.
Proof.
  induction 1 as [|d m ds ms Hd Hle IH]; cbn [rturn]; [done|].
  destruct (Nat.ltb_spec d m) as [Hlt|Hge].
  - split; [done|]. intros [= -> ->]. lia.
  - assert (d = m) as -> by lia. destruct (rturn ms ds) as [x|]; cbn.
    + split; [done|]. intros [= ->]. by pose proof (proj2 IH eq_refl).
    + split; [intros _; f_equal; by apply IH|done].
Qed.

Lemma turn_full ms ds : bounded ms ds -> turn ms ds = None <-> ds = ms.
Proof.
  intros Hb. assert (Hr : bounded (reverse ms) (reverse ds)) by (by apply Forall2_reverse).
  unfold turn. rewrite fmap_None, rturn_full by done. split; [|by intros ->]. intros E. by apply (inj reverse).
Qed.

Lemma spin_rturn ma a mb b : length a = length ma -> a <> [] -> bounded ma a -> forall x, rturn (reverse ma) (reverse a) = Some x ->
  exists j a', spin (ma ++ mb) (length a - 1) (a ++ b) = (j, a' ++ b) /\ length a' = length a /\ (j < length a)%nat /\
    nth j a' 0 < nth j ma 0 /\ reverse x = <[j := S (nth j a' 0)]> a'.
Proof.
  revert ma mb b. induction a as [|d a IH] using rev_ind; intros ma mb b Hl Hne Hb x; [done|]. clear Hne.
  destruct ma as [|m ma0 _] using rev_ind; [rewrite length_app in Hl; cbn in Hl; lia|].
  rewrite !length_app in Hl. cbn in Hl. apply Forall2_app_inv in Hb as [Hb Hd]; [|lia]. apply Forall2_cons in Hd as [Hd _].
  rewrite !reverse_snoc, length_app, Nat.add_sub. cbn [rturn].
  assert (En : nth (length a) ((a ++ [d]) ++ b) 0 = d) by (rewrite <- app_assoc; apply nth_middle).
  assert (Em : nth (length a) ((ma0 ++ [m]) ++ mb) 0 = m).
  { replace (length a) with (length ma0) by lia. rewrite <- app_assoc. apply nth_middle. }
  destruct (Nat.ltb_spec d m) as [Hlt|Hge].
  - intros [= <-]. exists (length a), (a ++ [d]). split_and!; [|by rewrite length_app|cbn; lia| |].
    + destruct (length a) as [|i] eqn:Ei; [done|]. cbn [spin]. rewrite En, Em. by rewrite (proj2 (Nat.eqb_neq _ _)) by lia.
    + rewrite nth_middle. replace (length a) with (length ma0) by lia. by rewrite nth_middle.
    + rewrite reverse_cons, reverse_involutive, nth_middle. by rewrite insert_app_r_alt, Nat.sub_diag by lia.
  - assert (d = m) as -> by lia. destruct (rturn (reverse ma0) (reverse a)) as [y|] eqn:Ey; [|done]. intros [= <-].
    destruct (decide (a = [])) as [->|Hne]; [by destruct (reverse ma0)|].
    assert (Hpos : 0 < length a) by (destruct a; [done|cbn; lia]).
    destruct (IH ma0 ([m] ++ mb) ([0] ++ b) ltac:(lia) Hne Hb y Ey) as (j & a' & Es & Hl' & Hj & Hlt & Er).
    exists j, (a' ++ [0]). split_and!; [|rewrite length_app; cbn [length]; lia|lia| |].
    + replace (length a) with (S (length a - 1)) by lia. cbn [spin].
      replace (S (length a - 1)) with (length a) by lia. rewrite En, Em, Nat.eqb_refl.
      rewrite <- !app_assoc, insert_app_r_alt, Nat.sub_diag by lia. cbn [insert list_insert app].
      exact Es.
    + rewrite !app_nth1 by lia. done.
    + rewrite reverse_cons, Er, app_nth1 by lia. by rewrite insert_app_l by lia.
Qed.

Lemma spin_turn ms ds ds2 : bounded ms ds -> turn ms ds = Some ds2 ->
  exists j ds1, spin ms (length ds - 1) ds = (j, ds1) /\ length ds1 = length ds /\ j < length ds /\
    nth j ds1 0 < nth j ms 0 /\ ds2 = <[j := S (nth j ds1 0)]> ds1.
Proof.
  intros Hb. unfold turn. destruct (rturn _ _) as [x|] eqn:E; [|done]. intros [= <-].
  pose proof (Forall2_length _ _ _ Hb) as Hl. assert (Hne : ds <> []) by (by intros ->; destruct (reverse ms)).
  destruct (spin_rturn ms ds [] [] Hl Hne Hb x E) as (j & a & Es & Hla & Hj & Hlt & Er).
  rewrite !app_nil_r in Es. by exists j, a.
Qed.
End digits.

(** ** One node *)
(** What does not change. *)
Definition frame (it : t_iterator) : t_iterator :=
  set_current 0 (set_iteration 0 (set_done false (set_really_done false (set_empty false it)))).

Definition span (f : t_iterator) : Z := iteration_end f - iteration_start f.

Record wheel_ok (f : t_iterator) : Prop := {
  w_start : fits_int (iteration_start f) = true;
  w_end : fits_int (iteration_end f) = true;
  w_area : fits_int (span f * iteration_increment f) = true;
  w_inc : iteration_increment f <> 0;
  w_len : Z.abs (iteration_increment f) <= Z.abs (span f) < 2 ^ 31
}.

(** The last digit, and the value for a digit. *)
Definition wheel (f : t_iterator) : nat := Z.to_nat (span f / iteration_increment f).
Definition pos (f : t_iterator) (d : nat) : Z := iteration_start f + Z.of_nat d * iteration_increment f.

Lemma fits_int_iff z : fits_int z = true <-> - 2 ^ 31 <= z < 2 ^ 31.
Proof. unfold fits_int. rewrite andb_true_iff, Z.leb_le, Z.ltb_lt. done. Qed.

Lemma quotient_pos D i : i <> 0 -> 0 <= D * i -> Z.abs i <= Z.abs D -> 1 <= D / i.
Proof.
  intros Hi Hn Hl. assert (Hpos : 0 < i \/ i < 0) by lia. destruct Hpos as [Hpos|Hpos].
  - apply Z.div_le_lower_bound; [done|]. assert (0 <= D) by nia. lia.
  - rewrite <- (Z.opp_involutive D), <- (Z.opp_involutive i), Z.div_opp_opp by lia.
    assert (D <= 0) by nia. apply Z.div_le_lower_bound; lia.
Qed.

Lemma steps_left D i d : i <> 0 -> 0 <= D * i -> Z.abs i <= Z.abs D -> 0 <= d <= D / i ->
  Z.abs (d * i) + Z.abs (D - d * i) = Z.abs D /\ Z.abs (D - d * i - i) <= Z.abs D /\ Z.abs ((D - d * i - i) * i) <= D * i /\
  (0 <= (D - d * i - i) * i <-> d < D / i) /\ 1 <= D / i.
Proof.
  intros Hi Hn Hl Hd. pose proof (Z.div_mod D i Hi) as Hdm. set (q := D / i) in *. set (r := D mod i) in *. clearbody q.
  assert (Hpos : 0 < i \/ i < 0) by lia. destruct Hpos as [Hpos|Hpos].
  - pose proof (Z.mod_pos_bound D i Hpos) as Hr. fold r in Hr. clearbody r.
    assert (HD : 0 <= D) by nia. assert (Hq : 1 <= q) by nia.
    assert (E : D - d * i = (q - d) * i + r) by lia. assert (0 <= (q - d) * i) by nia. assert (0 <= d * i) by nia.
    split_and!; [lia|lia| | |done].
    + assert (Z.abs (D - d * i - i) <= D) by lia. rewrite Z.abs_mul. rewrite (Z.abs_eq i) by lia. nia.
    + rewrite E. split; intros; nia.
  - pose proof (Z.mod_neg_bound D i Hpos) as Hr. fold r in Hr. clearbody r.
    assert (HD : D <= 0) by nia. assert (Hq : 1 <= q) by nia.
    assert (E : D - d * i = (q - d) * i + r) by lia. assert ((q - d) * i <= 0) by nia. assert (d * i <= 0) by nia.
    split_and!; [lia|lia| | |done].
    + assert (Z.abs (D - d * i - i) <= - D) by lia. rewrite Z.abs_mul. rewrite (Z.abs_neq i) by lia. nia.
    + rewrite E. split; intros; nia.
Qed.

Lemma wheel_arith f d : wheel_ok f -> 0 <= span f * iteration_increment f -> (d <= wheel f)%nat ->
  fits_int (iteration_end f - pos f d) = true /\ fits_int (iteration_end f - pos f d - iteration_increment f) = true /\
  fits_int ((iteration_end f - pos f d - iteration_increment f) * iteration_increment f) = true /\
  negb (0 <=? (iteration_end f - pos f d - iteration_increment f) * iteration_increment f) = (d =? wheel f)%nat /\
  fits_int (pos f d) = true /\ (1 <= wheel f)%nat.
Proof.
  intros [Hs He Ha Hi Hl] Hn Hd. unfold wheel, pos in *. rewrite !fits_int_iff in *.
  replace (iteration_end f - (iteration_start f + Z.of_nat d * iteration_increment f)) with (span f - Z.of_nat d * iteration_increment f) by (unfold span; lia).
  pose proof (quotient_pos _ _ Hi Hn ltac:(lia)) as Hq.
  destruct (steps_left (span f) (iteration_increment f) (Z.of_nat d) Hi Hn ltac:(lia) ltac:(lia)) as (B1 & B2 & B3 & B4 & _).
  assert (Hx : iteration_start f + span f = iteration_end f) by (unfold span; lia).
  split; [lia|]. split; [lia|]. split; [lia|]. split; [|lia].
  destruct (Nat.eqb_spec d (Z.to_nat (span f / iteration_increment f))) as [E|E].
  - apply negb_true_iff, Z.leb_gt, Z.nle_gt. rewrite B4. lia.
  - apply negb_false_iff, Z.leb_le, B4. lia.
Qed.

(** ** The nodes and the variables show the digits *)
Section shows.
Context `{GP : Gp}.
Context (gp_word : list Z -> Z -> list Z).
Context (fs : list t_iterator).
Hypothesis fs_ok : Forall (fun f => wheel_ok f /\ 0 <= span f * iteration_increment f) fs.
Hypothesis fs_udv : NoDup (iteration_udv <$> fs).

Definition value_at (f : t_iterator) (d : nat) : value :=
  match iteration_string f with Some str => STRING (gp_word str (pos f d)) | None => INTGR (pos f d) end.

Definition shows_var (g : genv) (f : t_iterator) (d : nat) : Prop :=
  exists nm u, udvs g !! iteration_udv f = Some (MkUdv nm u (value_at f d)).

(** [placed]: the values; [flagged]: who is at the end. *)
Record placed (its : list t_iterator) (ds : list nat) (g : genv) : Prop := {
  p_frame : frame <$> its = fs;
  p_length : length ds = length fs;
  p_digit i f d : fs !! i = Some f -> ds !! i = Some d -> (d <= wheel f)%nat;
  p_current i it d : its !! i = Some it -> ds !! i = Some d -> iteration_current it = pos (frame it) d;
  p_var i f d : fs !! i = Some f -> ds !! i = Some d -> shows_var g f d
}.

Definition flagged (its : list t_iterator) (ds : list nat) : Prop :=
  forall i it d, its !! i = Some it -> ds !! i = Some d -> done it = (d =? wheel (frame it))%nat.

(** Nothing else changes. *)
Definition others (g g' : genv) : Prop :=
  (forall p, p ∉ (iteration_udv <$> fs) -> udvs g' !! p = udvs g !! p) /\ udfs g' = udfs g.

#[local] Instance others_preorder : PreOrder others.
Proof.
  split; [done|]. intros g1 g2 g3 [A1 B1] [A2 B2]. split; [|congruence]. intros p Hp. by rewrite A2, A1.
Qed.

Lemma placed_node its ds g i : placed its ds g -> (i < length fs)%nat -> exists it d,
  its !! i = Some it /\ ds !! i = Some d /\ fs !! i = Some (frame it).
Proof.
  intros [Hf Hl _ _ _] Hi. destruct (lookup_lt_is_Some_2 ds i) as [d Hd]; [lia|].
  destruct (lookup_lt_is_Some_2 its i) as [it Hit]; [rewrite <- Hf, length_fmap in Hi; done|].
  exists it, d. split_and!; [done|done|]. by rewrite <- Hf, list_lookup_fmap, Hit.
Qed.

Lemma node_ok its g i it : its !! i = Some it -> node i (its, g) = Ok (it, (its, g)).
Proof. intros Hi. unfold node. rewrite M_bind_eq. cbn. by rewrite Hi. Qed.

Lemma frame_insert (its : list t_iterator) (i : nat) it it' : its !! i = Some it -> frame it' = frame it -> frame <$> <[i:=it']> its = frame <$> its.
Proof.
  intros Hi He. rewrite list_fmap_insert, He. apply list_insert_id. by rewrite list_lookup_fmap, Hi.
Qed.

(** One node goes to another digit, and its variable with it. *)
Lemma update_ok its ds g i it it' d d' : placed its ds g -> its !! i = Some it -> ds !! i = Some d ->
  frame it' = frame it -> iteration_current it' = pos (frame it) d' -> (d' <= wheel (frame it))%nat ->
  exists g', update_variable gp_word i (<[i:=it']> its, g) = Ok (tt, (<[i:=it']> its, g')) /\
    placed (<[i:=it']> its) (<[i:=d']> ds) g' /\ others g g'.
Proof.
  intros Hp Hi Hd Hfr Hc Hle. destruct Hp as [Hf Hl Hdig Hcur Hvar].
  assert (Hfi : fs !! i = Some (frame it)) by (by rewrite <- Hf, list_lookup_fmap, Hi).
  assert (Hit' : <[i:=it']> its !! i = Some it') by (apply list_lookup_insert_eq; by eapply lookup_lt_Some).
  destruct (Hvar i _ d Hfi Hd) as (nm & u & Hu).
  set (g' := set_udvs (<[iteration_udv (frame it) := MkUdv nm u (value_at (frame it) d')]> (udvs g)) g).
  exists g'. split; [|split; cycle 1].
  - unfold update_variable. mstep ltac:(by apply node_ok). mstep ltac:(reflexivity).
    assert (Hs : iteration_string it' = iteration_string (frame it) /\ iteration_udv it' = iteration_udv (frame it)) by (by rewrite <- Hfr).
    destruct Hs as [-> ->]. rewrite Hc. unfold g', value_at in *. change (iteration_string (frame it)) with (iteration_string it) in *.
    destruct (iteration_string it) as [str|]; unfold set_string_val, set_int_val; rewrite Hu; by mstep ltac:(reflexivity).
  - split; [|done]. intros p Hp. cbn. apply list_lookup_insert_ne. intros <-. apply Hp.
    apply list_elem_of_lookup. exists i. by rewrite list_lookup_fmap, Hfi.
  - assert (Hli : (i < length ds)%nat) by (by eapply lookup_lt_Some).
    assert (Hcase : forall j y, <[i:=d']> ds !! j = Some y -> (j = i /\ y = d') \/ (j <> i /\ ds !! j = Some y)).
    { intros j y. destruct (decide (i = j)) as [<-|Hne].
      - rewrite list_lookup_insert_eq by done. intros [= <-]. by left.
      - rewrite list_lookup_insert_ne by done. right. by split. }
    split.
    + rewrite <- Hf. by apply (frame_insert its i it).
    + by rewrite length_insert.
    + intros j f y Hj [[-> ->]|[Hne Hy]]%Hcase; [congruence|by eapply Hdig].
    + intros j x y Hj [[-> ->]|[Hne Hy]]%Hcase.
      * rewrite Hit' in Hj. injection Hj as <-. by rewrite Hc, Hfr.
      * rewrite list_lookup_insert_ne in Hj by done. by eapply Hcur.
    + intros j f y Hj [[-> ->]|[Hne Hy]]%Hcase.
      * rewrite Hfi in Hj. injection Hj as <-. exists nm, u. cbn. apply list_lookup_insert_eq. by eapply lookup_lt_Some.
      * destruct (Hvar j f y Hj Hy) as (nm2 & u2 & Hu2). exists nm2, u2. cbn. rewrite list_lookup_insert_ne; [done|].
        intros E. apply Hne. eapply (NoDup_lookup (iteration_udv <$> fs)); [done|rewrite list_lookup_fmap, Hj; done|].
        rewrite list_lookup_fmap, Hfi. cbn. by f_equal.
Qed.

(** *** Back over the loops that are done *)
Abbreviation ms := (wheel <$> fs).

Lemma rewind_ok i : forall its ds g h, placed its ds g -> flagged its ds -> (i < length fs)%nat ->
  its !! 0%nat = Some h -> really_done h = false ->
  exists its' g', rewind gp_word i (its, g) = Ok (fst (spin ms i ds), (its', g')) /\ placed its' (snd (spin ms i ds)) g' /\
    flagged its' (snd (spin ms i ds)) /\ its' !! 0%nat = Some h /\ others g g'.
Proof.
  induction i as [|i IH]; intros its ds g h Hp Hfl Hi Hh Hr; cbn [rewind spin].
  { by exists its, g. }
  destruct (placed_node its ds g (S i) Hp Hi) as (it & d & Hit & Hd & Hfi).
  mstep ltac:(by apply node_ok). mstep ltac:(by apply node_ok). rewrite Hr, (Hfl _ _ _ Hit Hd). cbn [negb andb].
  assert (En : nth (S i) ds 0%nat = d) by (by apply nth_lookup_Some). rewrite En.
  assert (Em : nth (S i) ms 0%nat = wheel (frame it)) by (apply nth_lookup_Some; by rewrite list_lookup_fmap, Hfi).
  rewrite Em. destruct (d =? wheel (frame it))%nat eqn:Ed; [|by exists its, g].
  set (it' := set_done false (set_current (iteration_start it) it)).
  destruct (update_ok its ds g (S i) it it' d 0 Hp Hit Hd) as (g1 & Hup & Hp1 & Ho1); [done| |lia|].
  { unfold pos. cbn. lia. }
  mstep ltac:(reflexivity). mstep ltac:(exact Hup).
  assert (Hfl1 : flagged (<[S i:=it']> its) (<[S i:=O]> ds)).
  { intros j x y Hx Hy. destruct (decide (j = S i)) as [->|Hne].
    - rewrite list_lookup_insert_eq in Hx by (by eapply lookup_lt_Some). injection Hx as <-.
      rewrite list_lookup_insert_eq in Hy by (by eapply lookup_lt_Some). injection Hy as <-.
      assert (Hw : (1 <= wheel (frame it))%nat).
      { pose proof (proj1 (Forall_lookup _ _) fs_ok _ _ Hfi) as [Hok Hn]. apply (wheel_arith _ 0 Hok Hn). lia. }
      symmetry. apply Nat.eqb_neq. change (frame it') with (frame it). lia.
    - rewrite list_lookup_insert_ne in Hx by done. rewrite list_lookup_insert_ne in Hy by done. by eapply Hfl. }
  destruct (IH _ _ g1 h Hp1 Hfl1 ltac:(lia)) as (its' & g' & R & Hp' & Hf' & Hh' & Ho'); [by rewrite list_lookup_insert_ne|done|].
  exists its', g'. split_and!; [exact R|done|done|done|by etrans].
Qed.


(** ** One step *)
Lemma placed_bounded its ds g : placed its ds g -> bounded ms ds.
Proof.
  intros [_ Hl Hdig _ _]. apply Forall2_same_length_lookup_2; [by rewrite length_fmap|].
  intros i d m Hd Hm. rewrite list_lookup_fmap in Hm. destruct (fs !! i) as [f|] eqn:E; [|done]. injection Hm as <-. by eapply Hdig.
Qed.

Definition head_flags (its : list t_iterator) (b : bool) : Prop :=
  exists h, its !! 0%nat = Some h /\ is_empty h = false /\ really_done h = b.

(** The iterator shows [ds]; it is really done at the last digits. *)
Definition running (its : list t_iterator) (ds : list nat) (g : genv) : Prop :=
  placed its ds g /\ flagged its ds /\
  head_flags its (bool_decide (turn ms ds = None)).

(** Whether another digit follows is what the flags say. *)
Lemma flags_full its ds g : placed its ds g -> flagged its ds ->
  existsb (fun it => negb (done it)) its = negb (bool_decide (turn ms ds = None)).
Proof.
  intros Hp Hfl. pose proof (placed_bounded _ _ _ Hp) as Hb. apply eq_true_iff_eq. rewrite existsb_exists, negb_true_iff, bool_decide_eq_false.
  rewrite turn_full by done. split.
  - intros (it & Hin & Hd) ->. apply list_elem_of_In, list_elem_of_lookup in Hin as [i Hi].
    assert (Hf : fs !! i = Some (frame it)) by (by rewrite <- (p_frame _ _ _ Hp), list_lookup_fmap, Hi).
    assert (Hm : ms !! i = Some (wheel (frame it))) by (by rewrite list_lookup_fmap, Hf).
    by rewrite (Hfl i it _ Hi Hm), Nat.eqb_refl in Hd.
  - intros Hne. apply not_eq_sym in Hne.
    assert (Hex : exists i f d, fs !! i = Some f /\ ds !! i = Some d /\ d <> wheel f).
    { destruct (decide (Forall2 eq ms ds)) as [Ha|Hn]; [exfalso; by apply Hne, list_eq_Forall2|].
      destruct (decide (Exists (fun i => nth i ds 0%nat <> nth i ms 0%nat) (seq 0 (length fs)))) as [He|He].
      - apply Exists_exists in He as (i & Hi & Hd). apply elem_of_seq in Hi.
        destruct (placed_node its ds g i Hp ltac:(lia)) as (it & d & _ & Hdd & Hf). exists i, (frame it), d. split_and!; [done|done|].
        erewrite (nth_lookup_Some ds), (nth_lookup_Some ms) in Hd; [exact Hd|by rewrite list_lookup_fmap, Hf|done].
      - exfalso. apply Hn. apply Forall2_same_length_lookup_2; [rewrite length_fmap; symmetry; apply Hp|].
        intros i m d Hm Hd. apply dec_stable. intros Hx. apply He. apply Exists_exists. exists i. split.
        + apply elem_of_seq. apply lookup_lt_Some in Hm. rewrite length_fmap in Hm. lia.
        + erewrite (nth_lookup_Some ds), (nth_lookup_Some ms) by done. congruence. }
    destruct Hex as (i & f & d & Hf & Hd & Hn). destruct (placed_node its ds g i Hp) as (it & d' & Hit & Hd' & Hf'); [by eapply lookup_lt_Some|].
    rewrite Hd in Hd'. injection Hd' as <-. rewrite Hf in Hf'. injection Hf' as ->.
    exists it. split; [apply list_elem_of_In; by eapply list_elem_of_lookup_2|]. rewrite (Hfl i it d Hit Hd). by rewrite (proj2 (Nat.eqb_neq _ _)).
Qed.

(** Changes of the first node that are of no concern for the digits. *)
Lemma placed_head its ds g i it it' : placed its ds g -> its !! i = Some it -> frame it' = frame it ->
  iteration_current it' = iteration_current it -> placed (<[i:=it']> its) ds g.
Proof.
  intros [Hf Hl Hdig Hcur Hvar] Hi Hfr Hc. split; [|done|done| |done].
  - rewrite <- Hf. by apply (frame_insert its i it).
  - intros j x d Hj Hd. destruct (decide (i = j)) as [<-|Hne].
    + rewrite list_lookup_insert_eq in Hj by (by eapply lookup_lt_Some). injection Hj as <-. rewrite Hc, Hfr. by eapply Hcur.
    + rewrite list_lookup_insert_ne in Hj by done. by eapply Hcur.
Qed.

Lemma flagged_head its ds i it it' : flagged its ds -> its !! i = Some it -> frame it' = frame it ->
  done it' = done it -> flagged (<[i:=it']> its) ds.
Proof.
  intros Hfl Hi Hfr Hd j x d Hj Hdj. destruct (decide (i = j)) as [<-|Hne].
  - rewrite list_lookup_insert_eq in Hj by (by eapply lookup_lt_Some). injection Hj as <-. rewrite Hd, Hfr. by eapply Hfl.
  - rewrite list_lookup_insert_ne in Hj by done. by eapply Hfl.
Qed.

Lemma head_insert its b i it it' : head_flags its b -> its !! i = Some it -> is_empty it' = is_empty it ->
  really_done it' = really_done it -> head_flags (<[i:=it']> its) b.
Proof.
  intros (h & Hh & He & Hr) Hi He' Hr'. destruct (decide (i = 0%nat)) as [->|Hne].
  - rewrite Hh in Hi. injection Hi as <-. exists it'. rewrite list_lookup_insert_eq by (by eapply lookup_lt_Some).
    split_and!; [done|congruence|congruence].
  - exists h. by rewrite list_lookup_insert_ne.
Qed.

(** The number of calls, which the first node counts *)
Definition counts (its : list t_iterator) (n : Z) : Prop := iteration <$> its !! 0%nat = Some n.

Lemma counts_insert its n i it it' : counts its n -> its !! i = Some it -> iteration it' = iteration it ->
  counts (<[i:=it']> its) n.
Proof.
  unfold counts. intros Hc Hi He. destruct (decide (i = 0%nat)) as [->|Hne].
  - rewrite Hi in Hc. rewrite list_lookup_insert_eq by (by eapply lookup_lt_Some). cbn in *. congruence.
  - by rewrite list_lookup_insert_ne.
Qed.

(** The end of [next_iteration], when node [i] has got its digit [d]. *)
Definition finish (i : nat) : M (list t_iterator * genv) gperr bool :=
  it ← node i;
  d ← arith (iteration_end it - iteration_current it);
  d ← arith (d - iteration_increment it);
  d ← arith (d * iteration_increment it);
  set_node i (set_done (negb (0 <=? d)) it) ;;
  s ← getS;
  if existsb (fun it => negb (done it)) s.1 then mret true else
  head ← node 0;
  if really_done head then mret false else
  set_node 0 (set_really_done true head) ;; mret true.

Lemma arith_ok {S} z (s : S) : fits_int z = true -> arith z s = Ok (z, s).
Proof. unfold arith. by intros ->. Qed.

Lemma finish_ok its ds g i b n : placed its ds g -> (i < length fs)%nat -> head_flags its b -> counts its n ->
  (forall j it d, j <> i -> its !! j = Some it -> ds !! j = Some d -> done it = (d =? wheel (frame it))%nat) ->
  (b = true -> turn ms ds = None) ->
  exists its', finish i (its, g) = Ok (negb b || negb (bool_decide (turn ms ds = None)), (its', g)) /\ running its' ds g /\ counts its' n.
Proof.
  intros Hp Hi Hh Hcn Hfl Hb. destruct (placed_node its ds g i Hp Hi) as (it & d & Hit & Hd & Hfi).
  pose proof (proj1 (Forall_lookup _ _) fs_ok _ _ Hfi) as [Hok Hn].
  destruct (wheel_arith (frame it) d Hok Hn (p_digit _ _ _ Hp _ _ _ Hfi Hd)) as (A1 & A2 & A3 & A4 & _).
  rewrite <- (p_current _ _ _ Hp _ _ _ Hit Hd) in *.
  change (iteration_end (frame it)) with (iteration_end it) in *. change (iteration_increment (frame it)) with (iteration_increment it) in *.
  unfold finish. mstep ltac:(by apply node_ok). mstep ltac:(by apply arith_ok). mstep ltac:(by apply arith_ok). mstep ltac:(by apply arith_ok).
  rewrite A4. set (it' := set_done (d =? wheel (frame it))%nat it). mstep ltac:(reflexivity).
  assert (Hp' : placed (<[i:=it']> its) ds g) by (by apply (placed_head its ds g i it)).
  assert (Hfl' : flagged (<[i:=it']> its) ds).
  { intros j x y Hx Hy. destruct (decide (j = i)) as [->|Hne].
    - rewrite list_lookup_insert_eq in Hx by (by eapply lookup_lt_Some). injection Hx as <-.
      rewrite Hd in Hy. by injection Hy as <-.
    - rewrite list_lookup_insert_ne in Hx by done. by eapply Hfl. }
  assert (Hh' : head_flags (<[i:=it']> its) b) by (by apply (head_insert its b i it)).
  assert (Hcn' : counts (<[i:=it']> its) n) by (by apply (counts_insert its n i it)).
  mstep ltac:(reflexivity). cbn [fst]. rewrite (flags_full _ _ _ Hp' Hfl').
  destruct (bool_decide (turn ms ds = None)) eqn:Eb; cbn [negb]; rewrite ?orb_true_r, ?orb_false_r.
  - destruct Hh' as (h & Hh0 & He & Hr). mstep ltac:(by apply node_ok). rewrite Hr. destruct b; cbn [negb].
    + eexists. split; [reflexivity|]. split; [|done]. split; [done|]. split; [done|]. exists h. by rewrite Eb.
    + mstep ltac:(reflexivity). eexists. split; [reflexivity|]. split; [|by apply (counts_insert _ n 0%nat h)].
      split; [by apply (placed_head _ _ _ 0%nat h)|].
      split; [by apply (flagged_head _ _ 0%nat h)|]. exists (set_really_done true h). rewrite Eb.
      rewrite list_lookup_insert_eq by (by eapply lookup_lt_Some). done.
  - eexists. split; [reflexivity|]. split; [|done]. split; [done|]. split; [done|]. rewrite Eb. destruct b; [|done].
    by rewrite bool_decide_true in Eb by auto.
Qed.

Lemma running_length its ds g : running its ds g -> length its = length fs /\ (0 < length fs)%nat.
Proof.
  intros (Hp & _ & h & Hh & _). assert (Hl : length its = length fs) by (by rewrite <- (p_frame _ _ _ Hp), length_fmap).
  apply lookup_lt_Some in Hh. lia.
Qed.

(** A step forward of node [j] behind [rewind]. *)
Lemma advance_ok its ds g j h : placed its ds g -> flagged its ds -> (j < length fs)%nat ->
  its !! 0%nat = Some h -> is_empty h = false -> really_done h = false -> fits_int (iteration h + 1) = true ->
  (nth j ds 0 < nth j ms 0)%nat ->
  exists its' g', (head ← node 0;
      n ← arith (iteration head + 1);
      set_node 0 (set_iteration n head) ;;
      head ← node 0;
      it ← node j;
      (if really_done head then mret tt else
       c ← arith (iteration_current it + iteration_increment it);
       set_node j (set_current c it)) ;;
      update_variable gp_word j ;; finish j) (its, g) = Ok (true, (its', g')) /\
    running its' (<[j := S (nth j ds 0%nat)]> ds) g' /\ counts its' (iteration h + 1) /\ others g g'.
Proof.
  intros Hp Hfl Hj Hh He Hr Hfit Hlt. mstep ltac:(by apply node_ok). mstep ltac:(by apply arith_ok). mstep ltac:(reflexivity). cbn [fst snd].
  set (h1 := set_iteration (iteration h + 1) h). set (its1 := <[0%nat:=h1]> its).
  assert (Hp1 : placed its1 ds g) by (by apply (placed_head its ds g 0 h)).
  assert (Hfl1 : flagged its1 ds) by (by apply (flagged_head its ds 0 h)).
  assert (Hh1 : its1 !! 0%nat = Some h1) by (apply list_lookup_insert_eq; by eapply lookup_lt_Some).
  destruct (placed_node its1 ds g j Hp1 Hj) as (it & d & Hit & Hd & Hfi).
  mstep ltac:(by apply node_ok). mstep ltac:(by apply node_ok). change (really_done h1) with (really_done h). rewrite Hr.
  rewrite (nth_lookup_Some ds j 0%nat d Hd) in *. assert (Hm : ms !! j = Some (wheel (frame it))) by (by rewrite list_lookup_fmap, Hfi).
  rewrite (nth_lookup_Some ms j 0%nat _ Hm) in Hlt.
  pose proof (proj1 (Forall_lookup _ _) fs_ok _ _ Hfi) as [Hok Hn].
  destruct (wheel_arith (frame it) (S d) Hok Hn ltac:(lia)) as (_ & _ & _ & _ & A5 & _).
  assert (Ec : iteration_current it + iteration_increment it = pos (frame it) (S d)).
  { rewrite (p_current _ _ _ Hp1 _ _ _ Hit Hd). unfold pos. cbn. lia. }
  set (it' := set_current (pos (frame it) (S d)) it).
  assert (Eset : (c ← arith (iteration_current it + iteration_increment it); set_node j (set_current c it)) (its1, g) = Ok (tt, (<[j:=it']> its1, g))).
  { rewrite Ec. by mstep ltac:(by apply arith_ok). }
  mstep ltac:(exact Eset).
  destruct (update_ok its1 ds g j it it' d (S d) Hp1 Hit Hd) as (g2 & Hup & Hp2 & Ho); [done|done|lia|].
  mstep ltac:(exact Hup).
  assert (Hh2 : head_flags (<[j:=it']> its1) false) by (apply (head_insert its1 false j it it'); [by exists h1|done|done|done]).
  assert (Hc2 : counts (<[j:=it']> its1) (iteration h + 1)).
  { apply (counts_insert its1 _ j it); [|done|done]. unfold counts. by rewrite Hh1. }
  destruct (finish_ok _ _ g2 j false _ Hp2 Hj Hh2 Hc2) as (its3 & Hfin & Hrun & Hc3); [|done|].
  { intros k x y Hne Hx Hy. rewrite list_lookup_insert_ne in Hx by done. rewrite list_lookup_insert_ne in Hy by done. by eapply Hfl1. }
  exists its3, g2. by split_and!.
Qed.

(** At the end nothing moves. *)
Lemma stay_ok its ds g j h : running its ds g -> (j < length fs)%nat -> its !! 0%nat = Some h -> really_done h = true ->
  fits_int (iteration h + 1) = true -> turn ms ds = None ->
  exists its' g', (head ← node 0;
      n ← arith (iteration head + 1);
      set_node 0 (set_iteration n head) ;;
      head ← node 0;
      it ← node j;
      (if really_done head then mret tt else
       c ← arith (iteration_current it + iteration_increment it);
       set_node j (set_current c it)) ;;
      update_variable gp_word j ;; finish j) (its, g) = Ok (false, (its', g')) /\ running its' ds g' /\
    counts its' (iteration h + 1) /\ others g g'.
Proof.
  intros (Hp & Hfl & Hh) Hj Hh0 Hr Hfit Ht. mstep ltac:(by apply node_ok). mstep ltac:(by apply arith_ok). mstep ltac:(reflexivity). cbn [fst snd].
  set (h1 := set_iteration (iteration h + 1) h). set (its1 := <[0%nat:=h1]> its).
  assert (Hp1 : placed its1 ds g) by (by apply (placed_head its ds g 0 h)).
  assert (Hfl1 : flagged its1 ds) by (by apply (flagged_head its ds 0 h)).
  assert (Hh1 : its1 !! 0%nat = Some h1) by (apply list_lookup_insert_eq; by eapply lookup_lt_Some).
  destruct (placed_node its1 ds g j Hp1 Hj) as (it & d & Hit & Hd & Hfi).
  mstep ltac:(by apply node_ok). mstep ltac:(by apply node_ok). change (really_done h1) with (really_done h). rewrite Hr.
  mstep ltac:(reflexivity).
  destruct (update_ok its1 ds g j it it d d Hp1 Hit Hd) as (g2 & Hup & Hp2 & Ho);
    [done|by apply (p_current _ _ _ Hp1 j)|by apply (p_digit _ _ _ Hp1 j)|].
  rewrite (list_insert_id its1), (list_insert_id ds) in * by done. mstep ltac:(exact Hup).
  rewrite bool_decide_true in Hh by done.
  assert (Hh2 : head_flags its1 true) by (by apply (head_insert its true 0 h h1)).
  assert (Hc2 : counts its1 (iteration h + 1)) by (unfold counts; by rewrite Hh1).
  destruct (finish_ok its1 ds g2 j true _ Hp2 Hj Hh2 Hc2) as (its3 & Hfin & Hrun & Hc3); [|done|].
  { intros k x y _. by apply Hfl1. }
  rewrite bool_decide_true in Hfin by done. exists its3, g2. by split_and!.
Qed.

Lemma next_iteration_turns its ds g n : running its ds g -> counts its n -> fits_int (n + 1) = true ->
  exists its' g', next_iteration gp_word (its, g) = Ok (bool_decide (is_Some (turn ms ds)), (its', g')) /\
    running its' (default ds (turn ms ds)) g' /\ counts its' (n + 1) /\ others g g'.
Proof.
  intros Hrun Hcn Hfit. destruct (running_length _ _ _ Hrun) as [Hlen Hpos]. destruct Hrun as (Hp & Hfl & h & Hh & He & Hr).
  assert (En : iteration h = n) by (unfold counts in Hcn; rewrite Hh in Hcn; cbn in Hcn; congruence). subst n.
  assert (E : next_iteration gp_word (its, g) = (i ← rewind gp_word (length its - 1);
      head ← node 0;
      n ← arith (iteration head + 1);
      set_node 0 (set_iteration n head) ;;
      head ← node 0;
      it ← node i;
      (if really_done head then mret tt else
       c ← arith (iteration_current it + iteration_increment it);
       set_node i (set_current c it)) ;;
      update_variable gp_word i ;; finish i) (its, g)).
  { unfold next_iteration. mstep ltac:(reflexivity). cbn [fst]. destruct its as [|h0 its]; [done|]. injection Hh as ->. by rewrite He. }
  rewrite E. clear E. pose proof (placed_bounded _ _ _ Hp) as Hb. pose proof (p_length _ _ _ Hp) as Hld.
  destruct (turn ms ds) as [ds2|] eqn:Et.
  - rewrite bool_decide_false in Hr by done.
    destruct (rewind_ok (length its - 1) its ds g h Hp Hfl ltac:(lia) Hh Hr) as (its1 & g1 & R & Hp1 & Hfl1 & Hh1 & Ho1).
    destruct (spin_turn ms ds ds2 Hb Et) as (j & ds1 & Es & Hl1 & Hj & Hlt & ->).
    replace (length its - 1)%nat with (length ds - 1)%nat in * by lia. rewrite Es in *. cbn [fst snd] in *. mstep ltac:(exact R).
    destruct (advance_ok its1 ds1 g1 j h Hp1 Hfl1 ltac:(lia) Hh1 He Hr Hfit Hlt) as (its2 & g2 & -> & Hrun & Hc2 & Ho2).
    exists its2, g2. split_and!; [by rewrite bool_decide_true|done|done|by etrans].
  - rewrite bool_decide_true in Hr by done.
    assert (R : rewind gp_word (length its - 1) (its, g) = Ok ((length its - 1)%nat, (its, g))).
    { destruct (length its - 1)%nat as [|i] eqn:Ei; [done|]. cbn [rewind].
      destruct (placed_node its ds g (S i) Hp ltac:(lia)) as (it & d & Hit & _).
      mstep ltac:(by apply node_ok). mstep ltac:(by apply node_ok). by rewrite Hr. }
    mstep ltac:(exact R). rewrite bool_decide_false by (by intros []). apply (stay_ok its ds g _ h); [|lia|done..].
    split; [done|]. split; [done|]. exists h. by rewrite bool_decide_true.
Qed.
End shows.
