(* ===== verification/GpIterTheorems.v ===== *)
(** * gnuplot: theorems on iterations

    What [check_for_iteration] makes and what is seen with [next_iteration]. *)
From S2P Require Import Prelude GpUtil GpUtilProofs GpEval GpParse GpSyntax GpExec GpGrammar GpParseProofs GpTheorems GpIter GpIterProofs.
From stdpp Require Import strings.
Open Scope Z_scope.

(** ** Going through an iteration *)
Section visits.
Context `{GP : Gp}.
Context (gp_word : list Z -> Z -> list Z).
Context (fs : list t_iterator).
Hypothesis fs_ok : Forall (fun f => wheel_ok f /\ 0 <= span f * iteration_increment f) fs.
Hypothesis fs_udv : NoDup (iteration_udv <$> fs).

(** The values of the variables of the iteration *)
Definition sees (its : list t_iterator) (g : genv) : list (option value) :=
  (fun it => udv_value <$> udvs g !! iteration_udv it) <$> its.

(** What a command does with an iterator, [do { plot } while (next_iteration(iter))],
    and what it finds in the variables each time; [plot] is what it does to the
    variables. *)
Fixpoint plots (fuel : nat) (plot : genv -> genv) : M (list t_iterator * genv) gperr (list (list (option value))) :=
  match fuel with
  | O => fun _ => Timeout
  | S f =>
      s ← getS;
      modS (fun s => (s.1, plot s.2)) ;;
      more ← next_iteration gp_word;
      if (more : bool) then others ← plots f plot; mret (sees s.1 s.2 :: others)
      else mret [sees s.1 s.2]
  end.

(** What the digits stand for *)
Definition values_at (fs : list t_iterator) (ds : list nat) : list (option value) :=
  zip_with (fun f d => Some (value_at gp_word f d)) fs ds.

Lemma placed_sees its ds g : placed gp_word fs its ds g -> sees its g = values_at fs ds.
Proof.
  intros Hp. apply list_eq. intros i. unfold sees, values_at. rewrite list_lookup_fmap, lookup_zip_with.
  assert (Hf : fs !! i = frame <$> its !! i) by (by rewrite <- (p_frame _ _ _ _ _ Hp), list_lookup_fmap).
  rewrite Hf. destruct (its !! i) as [it|] eqn:Ei; cbn; [|done].
  destruct (ds !! i) as [d|] eqn:Ed; cbn.
  - destruct (p_var _ _ _ _ _ Hp i (frame it) d Hf Ed) as (nm & u & Hu).
    change (iteration_udv (frame it)) with (iteration_udv it) in Hu. by rewrite Hu.
  - apply lookup_ge_None in Ed. rewrite (p_length _ _ _ _ _ Hp) in Ed.
    apply lookup_lt_Some in Ei. rewrite <- (length_fmap frame), (p_frame _ _ _ _ _ Hp) in Ei. lia.
Qed.

(** A command that leaves the variables of the iteration alone. *)
Definition keeps (plot : genv -> genv) : Prop :=
  forall g p, p ∈ (iteration_udv <$> fs) -> udvs (plot g) !! p = udvs g !! p.

Lemma running_plot its ds g plot : keeps plot -> running gp_word fs its ds g -> running gp_word fs its ds (plot g).
Proof.
  intros Hk ([Hf Hl Hd Hc Hv] & Hr). split; [|done]. split; [done..|]. intros i f d Hi Hdi.
  destruct (Hv i f d Hi Hdi) as (nm & u & Hu). exists nm, u. rewrite Hk; [done|].
  apply list_elem_of_lookup. exists i. by rewrite list_lookup_fmap, Hi.
Qed.

Lemma plots_walk fuel plot its ds g n : keeps plot -> running gp_word fs its ds g -> ends fuel (wheel <$> fs) ds ->
  counts its n -> 0 <= n -> n + Z.of_nat fuel < 2 ^ 31 ->
  exists s, plots fuel plot (its, g) = Ok (values_at fs <$> walk fuel (wheel <$> fs) ds, s).
Proof.
  intros Hk. revert its ds g n. induction fuel as [|fuel IH]; intros its ds g n Hr He Hc H0 Hb; [done|]. cbn [plots walk ends] in *.
  mstep ltac:(reflexivity). mstep ltac:(reflexivity). cbn [fst snd].
  destruct (next_iteration_turns gp_word fs fs_ok fs_udv its ds (plot g) n (running_plot _ _ _ _ Hk Hr) Hc)
    as (its' & g' & En & Hr' & Hc' & _); [apply fits_int_iff; lia|].
  destruct Hr as [Hp _]. rewrite (placed_sees _ _ _ Hp). mstep ltac:(exact En). clear En.
  destruct (turn (wheel <$> fs) ds) as [ds'|].
  - rewrite bool_decide_true by (by eexists).
    destruct (IH its' ds' g' (n + 1) Hr' He Hc' ltac:(lia) ltac:(lia)) as [s Es]. mstep ltac:(exact Es). by exists s.
  - rewrite bool_decide_false by (by intros []). by eexists.
Qed.
End visits.

(** The number of steps of a node and all values of all nodes. *)
Definition steps_of (f : t_iterator) : nat := S (wheel f).

Lemma length_combos ms : length (combos ms) = foldr (fun m n => (S m * n)%nat) 1%nat ms.
Proof.
  induction ms as [|m ms IH]; [done|]. cbn [combos foldr]. rewrite <- IH. generalize 0%nat. generalize (S m). intros k.
  induction k as [|k IHk]; intros j; cbn [seq flat_map]; [done|]. rewrite length_app, length_fmap, IHk. lia.
Qed.

(** ** Reading the iterations *)
(** A node as [check_for_iteration] makes it. *)
Definition new_node (it : t_iterator) : Prop :=
  wheel_ok it /\ iteration_current it = iteration_start it /\ done it = false /\ really_done it = false /\
  iteration it = 0.

Definition backwards (it : t_iterator) : bool := span it * iteration_increment it <? 0.

Definition new_iterator (its : list t_iterator) : Prop :=
  Forall new_node its /\ empty_iteration its = existsb backwards its.

Section check.
Context `{GP : Gp}.
Context (gp_words : list Z -> Z) (gp_word : list Z -> Z -> list Z).
Context (input_line : list Z) (token : list lexical_unit).
Context (END_OF_COMMAND : M pst gperr bool) (try_to_get_string : M pst gperr (option (list Z))).
Hypothesis at_len : (0 < MAX_AT_LEN)%nat.
Hypothesis actions_return : forall op x m, ft_func op x m <> Timeout.
Hypothesis END_OF_COMMAND_looks : forall s, exists b, END_OF_COMMAND s = Ok (b, s).
Hypothesis try_to_get_string_returns : forall s, match try_to_get_string s with
  | Ok (_, s') => (c_token s <= c_token s')%nat
  | Err _ => True
  | Timeout => False
  end.
Hypothesis int_of_dbl_fits : forall d, fits_int (int_of_dbl d) = true.
Hypothesis gp_words_fits : forall s, fits_int (gp_words s) = true.

Abbreviation T := (wp (fun _ : gperr => True)).
Abbreviation L := (length token).

Lemma T_look {A} (f : nat -> res gperr A) k s (Q : A -> pst -> Prop) : good (f (c_token s + k)%nat) ->
  (forall a, f (c_token s + k)%nat = Ok a -> Q a s) -> T (look f k) Q s.
Proof.
  intros Hg HQ. unfold look, wp. rewrite M_bind_eq. cbn [getS]. unfold lift. by destruct (f _) as [a| |] eqn:E; [apply HQ| |].
Qed.

Lemma T_equals str s (Q : bool -> pst -> Prop) : (forall b, (c_token s < L)%nat -> Q b s) -> T (equals input_line token str) Q s.
Proof. intros HQ. apply T_look; [apply good_equals|]. intros b E. apply equals_inv in E. apply HQ. lia. Qed.

Lemma T_expecting {A} s (Q : A -> pst -> Prop) : T expecting Q s.
Proof. done. Qed.

Lemma T_demand str s (Q : unit -> pst -> Prop) : (forall s', c_token s' = (c_token s + 1)%nat -> Q tt s') ->
  T (demand input_line token str) Q s.
Proof.
  intros HQ. unfold demand. apply wp_bind, T_equals. intros b _. apply wp_bind, wp_modS.
  destruct b; [by apply wp_ret, HQ|apply T_expecting].
Qed.

Lemma T_arith z s (Q : Z -> pst -> Prop) : (fits_int z = true -> Q z s) -> T (arith z) Q s.
Proof. intros HQ. unfold arith. destruct (fits_int z); [by apply wp_ret, HQ|done]. Qed.

Lemma const_express_T n s (Q : value -> pst -> Prop) : (2 * (L - c_token s) + 2 <= n)%nat ->
  (forall v s', (c_token s < c_token s')%nat -> Q v s') -> T (const_express input_line token END_OF_COMMAND n) Q s.
Proof.
  intros Hf HQ. unfold const_express. apply wp_bind, wp_getS, wp_bind. destruct (END_OF_COMMAND_looks s) as [b Hb].
  eapply wp_eq; [exact Hb|]. destruct b; [done|]. apply wp_bind, wp_modS, wp_bind.
  pose proof (parse_expression_wp input_line token n (new_table (set_dummy_func false s)) (MkTable [] MAX_AT_LEN) at_len) as R.
  specialize (R ltac:(split; [done|cbn; lia]) Hf). unfold wp in R |- *.
  change (temp_at (parse_expression input_line token n) (set_dummy_func false s)) with
    (parse_expression input_line token n (new_table (set_dummy_func false s))).
  destruct (parse_expression input_line token n (new_table (set_dummy_func false s))) as [[[] s1]|x|]; [|done|done].
  destruct R as (e & Hfe & _ & [_ (t0 & t1 & Ht0 & Ht1 & Ea) _ _ _] & _ & Hlt & _). injection Ht0 as <-. cbn [actions app] in Ea.
  cbn [c_token new_table set_level set_at_size set_at set_dummy_func] in Hlt.
  apply (wp_bind (fun _ : gperr => True)), wp_getS. rewrite Ht1, Ea. apply wp_bind. unfold run_machine, wp.
  pose proof (evaluate_at_returns actions_return e (machine s1) Hfe) as Hr.
  destruct (evaluate_at (code e) (machine s1)) as [[v m']|x|]; [|done|done].
  apply (wp_bind (fun _ : gperr => True)), wp_getS. destruct (undefined _); [done|]. destruct v as [v|]; [|done]. by apply wp_ret, HQ.
Qed.

Lemma int_expression_T n s (Q : Z -> pst -> Prop) : (2 * (L - c_token s) + 2 <= n)%nat ->
  (forall z s', fits_int z = true -> (c_token s < c_token s')%nat -> Q z s') -> T (int_expression input_line token END_OF_COMMAND n) Q s.
Proof.
  intros Hf HQ. unfold int_expression, real_expression. apply wp_bind, wp_bind, const_express_T; [done|]. intros v s' Hlt.
  destruct v as [i|re im|str]; by apply wp_ret, HQ.
Qed.

Lemma add_udv_T t s (Q : nat -> pst -> Prop) : (forall p s', c_token s' = c_token s -> Q p s') -> T (add_udv input_line token t) Q s.
Proof.
  intros HQ. unfold add_udv. apply wp_bind. unfold lift, wp. pose proof (good_copy_str input_line token t (Z.of_nat MAX_ID_LEN)) as Hg.
  destruct (copy_str input_line token t (Z.of_nat MAX_ID_LEN)) as [nm|x|]; [|done|done].
  apply (wp_bind (fun _ : gperr => True)), wp_getS. destruct (add_udv_by_name nm (env s)) as [p g]. by apply wp_bind, wp_modS, wp_ret, HQ.
Qed.

Lemma assign_udv_T p v s (Q : unit -> pst -> Prop) : (forall s', c_token s' = c_token s -> Q tt s') -> T (assign_udv p v) Q s.
Proof.
  intros HQ. unfold assign_udv. apply wp_bind, wp_getS, wp_bind. unfold assign, lift, wp. destruct (udvs (env s) !! p); [|done].
  by apply (wp_modS (fun _ : gperr => True)), HQ.
Qed.

Lemma iteration_range_T n udv s (Q : option (list Z) * Z * Z * Z -> pst -> Prop) : (2 * (L - c_token s) + 2 <= n)%nat ->
  (forall str a b c s', fits_int a = true -> fits_int b = true -> (c_token s < c_token s')%nat -> Q (str, a, b, c) s') ->
  T (iteration_range gp_words gp_word input_line token END_OF_COMMAND try_to_get_string n udv) Q s.
Proof.
  intros Hf HQ. unfold iteration_range. apply wp_bind, T_equals. intros eq Hl. destruct eq.
  - apply wp_bind, wp_modS, wp_bind, int_expression_T; [cbn; lia|]. intros a s1 Ha Ht1. cbn [c_token set_c_token] in Ht1.
    apply wp_bind, T_demand. intros s2 Ht2. apply wp_bind, int_expression_T; [lia|]. intros b s3 Hb Ht3.
    apply wp_bind, T_equals. intros more Hl3.
    assert (Hend : forall c s4, (c_token s3 <= c_token s4)%nat -> T (demand input_line token "]" ;;
        assign_udv udv (Ginteger a) ;; mret (None, a, b, c)) Q s4).
    { intros c s4 Ht4. apply wp_bind, T_demand. intros s5 Ht5. apply wp_bind, assign_udv_T. intros s6 Ht6.
      apply wp_ret, HQ; [done|done|lia]. }
    apply wp_bind. destruct more.
    + apply wp_bind, wp_modS, int_expression_T; [cbn; lia|]. intros c s4 _ Ht4. apply Hend. cbn in Ht4. lia.
    + by apply wp_ret, Hend.
  - apply wp_bind, T_equals. intros in_ _. apply wp_bind, wp_modS. destruct in_; cbn [negb]; [|apply T_expecting].
    apply wp_bind. unfold wp. match goal with |- context [try_to_get_string ?x] => pose proof (try_to_get_string_returns x) as R; destruct (try_to_get_string x) as [[str s1]|x1|] end;
      [|done|done]. cbn [c_token set_c_token] in R. destruct str as [str|]; [|done].
    apply (wp_bind (fun _ : gperr => True)), T_demand. intros s2 Ht2. apply wp_bind, assign_udv_T. intros s3 Ht3.
    apply wp_ret, HQ; [done|done|lia].
Qed.

Lemma new_node_empty b it : new_node it -> new_node (set_empty b it).
Proof. intros ([] & Hr). split; [by split|done]. Qed.

(** One node more, at the end. *)
Lemma new_iterator_snoc its it : new_iterator its -> new_node it ->
  new_iterator match its with
    | [] => [set_empty (backwards it) it]
    | head :: rest => set_empty (if is_empty head then true else backwards it) head :: rest ++ [it]
    end.
Proof.
  intros [Hall He] Hit. destruct its as [|h its]; unfold new_iterator.
  - split; [by constructor; [apply new_node_empty|]|]. cbn. by rewrite orb_false_r.
  - apply Forall_cons in Hall as [Hh Hall]. split; [constructor; [by apply new_node_empty|by apply Forall_app; split; [|constructor]]|].
    cbn [empty_iteration existsb is_empty set_empty] in He |- *. rewrite existsb_app. cbn [existsb]. rewrite orb_false_r, orb_assoc.
    change (backwards (set_empty _ h)) with (backwards h). rewrite <- He. by destruct (is_empty h).
Qed.

Lemma one_iteration_T n its s (Q : list t_iterator -> pst -> Prop) : new_iterator its -> (2 * (L - c_token s) + 2 <= n)%nat ->
  (c_token s < L)%nat -> (forall its' s', new_iterator its' -> (c_token s < c_token s')%nat -> Q its' s') ->
  T (one_iteration gp_words gp_word input_line token END_OF_COMMAND try_to_get_string n its) Q s.
Proof.
  intros Hits Hf Hl HQ. unfold one_iteration. apply wp_bind, wp_modS, wp_bind, T_equals. intros open Hl1. apply wp_bind, wp_modS, wp_bind.
  cbn [c_token set_c_token] in Hl1. match goal with |- wp _ _ ?Q' ?x => set (s2 := x); set (R := Q') end.
  assert (HR : R true s2).
  { unfold R. cbn [negb]. apply wp_bind, wp_getS, wp_bind, add_udv_T. intros p s3 Ht3. apply wp_bind, wp_modS, wp_bind, iteration_range_T.
    { cbn [c_token set_c_token]. rewrite Ht3. cbn. lia. }
    intros str a b c s4 Ha Hb Ht4. cbn [c_token set_c_token] in Ht4. rewrite Ht3 in Ht4. cbn in Ht4.
    apply wp_bind, T_arith. intros Hlen. apply wp_bind, T_arith. intros Harea.
    destruct (c =? 0) eqn:Ec; cbn [negb andb].
    { do 2 apply wp_bind, wp_ret. apply wp_ret, HQ; [done|lia]. }
    destruct (a =? b) eqn:Eab; cbn [negb andb].
    { do 2 apply wp_bind, wp_ret. apply wp_ret, HQ; [done|lia]. }
    apply wp_bind, T_arith. intros Habs. apply wp_bind, T_arith. intros _. destruct (Z.abs c <=? Z.abs (b - a)) eqn:El; cycle 1.
    { apply wp_ret, HQ; [done|lia]. }
    set (it := MkIter p str a b c a 0 false false false).
    assert (Hit : new_node it).
    { split; [|done]. apply fits_int_iff in Habs. apply Z.eqb_neq in Ec. apply Z.leb_le in El.
      split; [exact Ha|exact Hb|exact Harea|exact Ec|]. unfold span, it. cbn. lia. }
    pose proof (new_iterator_snoc its it Hits Hit) as Hnew. unfold backwards, span, it in Hnew. cbn in Hnew.
    destruct its as [|h rest]; apply wp_ret, HQ; [exact Hnew|lia|exact Hnew|lia]. }
  destruct open; [|by apply wp_ret].
  unfold at_letter. apply T_look; [apply good_isletter|]. intros [] _; [exact HR|done].
Qed.

Lemma for_loop_T n its s : forall k, new_iterator its -> (L - c_token s < k)%nat -> (2 * (L - c_token s) + 2 <= n)%nat ->
  T (for_loop gp_words gp_word input_line token END_OF_COMMAND try_to_get_string n k its) (fun its' _ => new_iterator its') s.
Proof.
  intros k. revert its s. induction k as [|k IH]; intros its s Hits Hk Hn; [lia|]. cbn [for_loop].
  apply wp_bind, T_equals. intros b Hl. destruct b; [|by apply wp_ret].
  apply wp_bind, one_iteration_T; [done|done|done|]. intros its' s' Hits' Ht. apply IH; [done|lia|lia].
Qed.
End check.

(** ** Theorems *)
Section theorems.
Context `{GP : Gp}.
Context (gp_words : list Z -> Z) (gp_word : list Z -> Z -> list Z).

(** [check_for_iteration] reads any number of [for [...]] and ends, given that
    the functions outside the repository return ([int_of_dbl] and [gp_words] with
    an [int]).  Unless an error is reported, every node of the iterator can be
    counted through without overflow, does not start at its end, and is at its
    start with no flag set; and [empty_iteration] tells whether one of the nodes
    counts away from its end. *)
Theorem check_for_iteration_nodes input_line token END_OF_COMMAND try_to_get_string n s :
  (0 < MAX_AT_LEN)%nat -> (forall op x m, ft_func op x m <> Timeout) ->
  (forall s, exists b, END_OF_COMMAND s = Ok (b, s)) ->
  (forall s, match try_to_get_string s with
    | Ok (_, s') => (c_token s <= c_token s')%nat | Err _ => True | Timeout => False end) ->
  (forall d, fits_int (int_of_dbl d) = true) -> (forall s, fits_int (gp_words s) = true) ->
  (2 * (length token - c_token s) + 2 <= n)%nat ->
  match check_for_iteration gp_words gp_word input_line token END_OF_COMMAND try_to_get_string n s with
  | Ok (its, _) => Forall new_node its /\ empty_iteration its = existsb backwards its
  | Err _ => True
  | Timeout => False
  end.
Proof.
  intros H1 H2 H3 H4 H5 H6 Hn.
  pose proof (for_loop_T gp_words gp_word input_line token END_OF_COMMAND try_to_get_string H1 H2 H3 H4 H5 H6 n [] s n) as R.
  unfold wp, check_for_iteration in *. specialize (R ltac:(split; [constructor|done]) ltac:(lia) Hn).
  destruct (for_loop _ _ _ _ _ _ _ _ _ _) as [[its s']|x|]; done.
Qed.

Lemma new_frames its : Forall new_node its -> existsb backwards its = false ->
  Forall (fun f => wheel_ok f /\ 0 <= span f * iteration_increment f) (frame <$> its).
Proof.
  intros Hall He. apply Forall_fmap, Forall_forall. intros it Hin. pose proof (proj1 (Forall_forall _ _) Hall it Hin) as ([] & _).
  split; [by split|]. change (0 <= span it * iteration_increment it). apply Z.nlt_ge. intros Hlt.
  apply not_true_iff_false in He. apply He, existsb_exists. exists it. split; [by apply list_elem_of_In|]. by apply Z.ltb_lt.
Qed.

Lemma new_running its g : Forall new_node its -> existsb backwards its = false -> its <> [] -> empty_iteration its = false ->
  (forall i it, its !! i = Some it -> shows_var gp_word g it 0) ->
  running gp_word (frame <$> its) its (zeros its) g.
Proof.
  intros Hall He Hne Hemp Hv. pose proof (new_frames its Hall He) as Hfs.
  assert (Hz : forall i d, zeros its !! i = Some d -> d = 0%nat).
  { intros i d. unfold zeros. rewrite list_lookup_fmap. destruct (its !! i); [|done]. by intros [= <-]. }
  assert (Hp : placed gp_word (frame <$> its) its (zeros its) g).
  { split; [done|unfold zeros; by rewrite !length_fmap|..].
    - intros i f d _ ->%Hz. lia.
    - intros i it d Hi ->%Hz. pose proof (proj1 (Forall_lookup _ _) Hall i it Hi) as (_ & Hc & _). rewrite Hc. unfold pos. cbn. lia.
    - intros i f d Hf ->%Hz. rewrite list_lookup_fmap in Hf. destruct (its !! i) as [it|] eqn:Ei; [|done]. injection Hf as <-. by apply (Hv i it). }
  assert (Hw : forall i it, its !! i = Some it -> (1 <= wheel (frame it))%nat).
  { intros i it Hi. assert (Hf : (frame <$> its) !! i = Some (frame it)) by (by rewrite list_lookup_fmap, Hi).
    pose proof (proj1 (Forall_lookup _ _) Hfs i _ Hf) as [Hok Hn]. apply (wheel_arith _ 0 Hok Hn). lia. }
  split; [done|]. split.
  - intros i it d Hi ->%Hz. pose proof (proj1 (Forall_lookup _ _) Hall i it Hi) as (_ & _ & Hd & _). rewrite Hd.
    symmetry. apply Nat.eqb_neq. pose proof (Hw i it Hi). lia.
  - destruct its as [|h its]; [done|]. exists h. split; [done|]. split; [done|].
    apply Forall_cons in Hall as [(_ & _ & _ & Hr & _) _]. rewrite Hr, bool_decide_false; [done|].
    rewrite turn_full by (by eapply placed_bounded). cbn. intros [= E _]. pose proof (Hw 0%nat h eq_refl). cbn in *. lia.
Qed.

(** C17. A command that is repeated while [next_iteration] says so finds every
    combination of the values of the nested [for]s exactly once in the variables,
    the last [for] running fastest: the values of a node are its start and the
    multiples of its increment up to its end, or the words with these numbers.
    The command may do what it wants to all variables but those of the iteration,
    which are different from each other.  There are fewer than 2^31 combinations:
    the calls are counted in an [int]. *)
Theorem iteration_visits_all its g plot : Forall new_node its -> empty_iteration its = existsb backwards its ->
  its <> [] -> empty_iteration its = false -> NoDup (iteration_udv <$> its) ->
  (forall i it, its !! i = Some it -> shows_var gp_word g it 0) ->
  (forall g p, p ∈ (iteration_udv <$> its) -> udvs (plot g) !! p = udvs g !! p) ->
  Z.of_nat (length (combos (wheel <$> its))) < 2 ^ 31 ->
  let all := combos (wheel <$> its) in
  length all = foldr (fun it n => (S (wheel it) * n)%nat) 1%nat its /\
  exists s, plots gp_word (length all) plot (its, g) =
    Ok ((fun ds => zip_with (fun it d => Some (value_at gp_word it d)) its ds) <$> all, s).
Proof.
  intros Hall He Hne Hemp Hnd Hv Hk Hlen all. rewrite Hemp in He. symmetry in He. split.
  { unfold all. rewrite length_combos. clear. induction its as [|it its IH]; [done|].
    change (S (wheel it) * foldr (fun m n => (S m * n)%nat) 1%nat (wheel <$> its) = S (wheel it) * foldr (fun it n => (S (wheel it) * n)%nat) 1%nat its)%nat.
    by rewrite IH. }
  pose proof (new_running its g Hall He Hne Hemp Hv) as Hr.
  assert (Hudv : iteration_udv <$> (frame <$> its) = iteration_udv <$> its) by (by rewrite <- list_fmap_compose).
  assert (Hwh : wheel <$> (frame <$> its) = wheel <$> its) by (by rewrite <- list_fmap_compose).
  assert (Hkeep : keeps (frame <$> its) plot) by (intros g' p; rewrite Hudv; apply Hk).
  destruct (walk_combos (wheel <$> its)) as [W1 W2].
  assert (Hzz : zeros (wheel <$> its) = zeros its) by (unfold zeros; by rewrite <- list_fmap_compose). rewrite Hzz in W1, W2.
  assert (Hc : counts its 0).
  { destruct its as [|h its]; [done|]. apply Forall_cons in Hall as [(_ & _ & _ & _ & Hi) _]. unfold counts. cbn. by rewrite Hi. }
  destruct (plots_walk gp_word (frame <$> its) (new_frames its Hall He) ltac:(by rewrite Hudv) (length all) plot its (zeros its) g 0 Hkeep Hr)
    as [s Es]; [by rewrite Hwh|done|done|done|].
  exists s. rewrite Es, Hwh. unfold all at 1. rewrite W1. f_equal. f_equal. apply list_fmap_ext. intros i x _.
  unfold values_at. by rewrite zip_with_fmap_l.
Qed.

(** An iteration of which one [for] is empty is not gone through. *)
Theorem empty_iteration_stops its g : empty_iteration its = true -> next_iteration gp_word (its, g) = Ok (false, (its, g)).
Proof. destruct its as [|h its]; [done|]. cbn. intros He. unfold next_iteration. mstep ltac:(reflexivity). cbn [fst]. by rewrite He. Qed.
End theorems.

(** ** On the calculator *)
Module Plots.
Import Calculator.

Definition gp_words (s : list Z) : Z := 2.
Definition gp_word (s : list Z) (i : Z) : list Z := [i].

Definition check_line (l : list (string * option Z)) : res gperr (list t_iterator * pst) :=
  let '(line, toks) := scan (l ++ [(";"%string, None)]) 0 in
  check_for_iteration gp_words gp_word line toks (mret false) (mret None) 60 (start no_vars).

Definition nested : list (string * option Z) :=
  [word "for"; word "["; word "i"; word "="; num 1 "1"; word ":"; num 4 "4"; word ":"; num 2 "2"; word "]";
   word "for"; word "["; word "j"; word "="; num 3 "3"; word ":"; num 1 "1"; word ":"; word "-"; num 1 "1"; word "]"].

Definition nested_its : list t_iterator :=
  [MkIter 1 None 1 4 2 1 0 false false false; MkIter 2 None 3 1 (-1) 3 0 false false false].

Example check_nested : fst <$> match check_line nested with Ok x => Some x | _ => None end = Some nested_its.
Proof. vm_compute. reflexivity. Qed.

Definition nested_scan : list Z * list lexical_unit := scan (nested ++ [(";"%string, None)]) 0.

Lemma nothing_times_out op x m : ft_func op x m <> Timeout.
Proof.
  cbn. unfold action. intros E. case_match; [done|]. case_match; [done|]. destruct (apply _ _ _ _) as [[]| |] eqn:Ea; try done.
  by apply (sem_returns op x (drop (length (stack m) - arity op) (stack m)) (menv m)).
Qed.

Lemma calculator_fits d : fits_int (int_of_dbl d) = true.
Proof. apply fits_int_iff. cbn [int_of_dbl doubles]. lia. Qed.

Lemma check_for_iteration_nodes_witness :
  match check_for_iteration gp_words gp_word nested_scan.1 nested_scan.2 (mret false) (mret None) 60 (start no_vars) with
  | Ok (its, _) => Forall new_node its /\ empty_iteration its = existsb backwards its
  | Err _ => True
  | Timeout => False
  end.
Proof.
  apply (check_for_iteration_nodes gp_words gp_word nested_scan.1 nested_scan.2 (mret false) (mret None) 60 (start no_vars)).
  - cbn. lia.
  - exact nothing_times_out.
  - intros s. by exists false.
  - intros s. cbn. lia.
  - exact calculator_fits.
  - done.
  - vm_compute. lia.
Defined.

(** [i] and [j] are variables 1 and 2. *)
Definition plot_vars : genv :=
  MkEnv [udv_pi; MkUdv (chars "i") false (INTGR 1); MkUdv (chars "j") false (INTGR 3)] [] false NoError false.

Lemma iteration_visits_all_witness :
  let all := combos (wheel <$> nested_its) in
  (zip_with pos nested_its <$> all = [[1; 3]; [1; 2]; [1; 1]; [3; 3]; [3; 2]; [3; 1]]) /\
  length all = foldr (fun it n => (S (wheel it) * n)%nat) 1%nat nested_its /\
  exists s, plots gp_word (length all) (fun g => g) (nested_its, plot_vars) =
    Ok ((fun ds => zip_with (fun it d => Some (value_at gp_word it d)) nested_its ds) <$> all, s).
Proof.
  split; [vm_compute; reflexivity|]. apply (iteration_visits_all gp_word nested_its plot_vars (fun g => g)).
  - repeat constructor; try done; cbn; lia.
  - done.
  - done.
  - done.
  - cbn. repeat constructor; set_solver.
  - intros [|[|i]] it; cbn; [intros [= <-]; by eexists _, _..|done].
  - done.
  - vm_compute. done.
Defined.

Lemma empty_iteration_stops_witness :
  let its := [set_empty true (MkIter 1 None 3 1 1 3 0 false false false)] in
  empty_iteration its = true /\ next_iteration gp_word (its, no_vars) = Ok (false, (its, no_vars)).
Proof. split; [done|]. by apply empty_iteration_stops. Defined.

(** [for [i=2:1:2]] counts away from its end, but there is no node for it, so the
    command is executed once. *)
Theorem empty_range_executed :
  match check_line [word "for"; word "["; word "i"; word "="; num 2 "2"; word ":"; num 1 "1"; word ":"; num 2 "2"; word "]"] with
  | Ok (its, s) => its = [] /\ empty_iteration its = false /\ c_token s = 10%nat /\
      udvs (env s) !! 1%nat = Some (MkUdv (chars "i") false (INTGR 2))
  | _ => False
  end.
Proof. vm_compute. by repeat split. Qed.
End Plots.
