(* ===== verification/NetBits.v ===== *)
(** * Network addresses as bytes and bits

    Shared by the C files that match addresses with networks.  An address is the
    list of its bytes in network order; [bit] numbers its bits from the first
    one, so that a network is the addresses with the same first bits.  [word] is
    the integer that the bytes are in the memory of the host, for either byte
    order. *)
From S2P Require Import Prelude.
Open Scope Z_scope.

Definition byte (b : Z) : Prop := 0 <= b < 2 ^ 8.

Definition bit (l : list Z) (k : nat) : bool :=
  Z.testbit (default 0 (l !! (k / 8)%nat)) (7 - Z.of_nat (k mod 8)).

(** The first [n] bits are the same. *)
Definition same_prefix (n : nat) (a b : list Z) : Prop := forall k, (k < n)%nat -> bit a k = bit b k.

(** The bits that [m] selects are the same. *)
Definition same_masked (m a b : list Z) : Prop :=
  forall k, (k < 8 * length m)%nat -> bit m k = true -> bit a k = bit b k.

(** [m] selects the first [n] bits. *)
Definition selects (n : nat) (m : list Z) : Prop := forall k, (k < 8 * length m)%nat -> bit m k = (k <? n)%nat.

(** Four bytes in memory as a word, and the bytes of a word. *)
Fixpoint le_word (l : list Z) : Z :=
  match l with
  | [] => 0
  | b :: l' => b + 2 ^ 8 * le_word l'
  end.

Fixpoint le_bytes (n : nat) (w : Z) : list Z :=
  match n with
  | O => []
  | S n' => w mod 2 ^ 8 :: le_bytes n' (w / 2 ^ 8)
  end.

Definition word (big : bool) (l : list Z) : Z := le_word (if big then rev l else l).
Definition word_bytes (big : bool) (w : Z) : list Z :=
  let l := le_bytes 4 w in if big then rev l else l.

(** ** Bytes *)
Lemma byte_bits b k : byte b -> 8 <= k -> Z.testbit b k = false.
Proof.
  intros Hb Hk. destruct (Z.eq_dec b 0) as [->|]; [apply Z.testbit_0_l|].
  unfold byte in Hb. apply Z.bits_above_log2; [lia|]. apply Z.log2_lt_pow2; [lia|].
  apply Z.lt_le_trans with (2 ^ 8); [lia|]. apply Z.pow_le_mono_r; lia.
Qed.

Lemma byte_eq a b : byte a -> byte b -> (forall i, (i < 8)%nat -> Z.testbit a (7 - Z.of_nat i) = Z.testbit b (7 - Z.of_nat i)) -> a = b.
Proof.
  intros Ha Hb Hi. apply Z.bits_inj'. intros k Hk. destruct (decide (8 <= k)).
  - by rewrite !byte_bits.
  - specialize (Hi (Z.to_nat (7 - k)) ltac:(lia)). by replace (7 - Z.of_nat (Z.to_nat (7 - k))) with k in Hi by lia.
Qed.

Lemma byte_land a b : byte a -> byte (Z.land a b).
Proof.
  intros Ha. destruct (decide (Z.land a b = 0)) as [->|Hz]; [by split|].
  assert (0 <= Z.land a b) by (apply Z.land_nonneg; left; apply Ha).
  split; [done|]. apply Z.log2_lt_pow2; [lia|].
  destruct (decide (Z.log2 (Z.land a b) < 8)) as [|Hl]; [done|]. exfalso.
  pose proof (Z.bit_log2 (Z.land a b) ltac:(lia)) as E. rewrite Z.land_spec, byte_bits in E by (done || lia). done.
Qed.

Lemma bit_cons b l i : (i < 8)%nat -> bit (b :: l) i = Z.testbit b (7 - Z.of_nat i).
Proof. intros Hi. unfold bit. rewrite Nat.div_small, Nat.mod_small by done. done. Qed.

Lemma bit_cons_S b l k : bit (b :: l) (8 + k) = bit l k.
Proof.
  unfold bit. replace (8 + k)%nat with (k + 1 * 8)%nat by lia.
  rewrite Nat.div_add, Nat.Div0.mod_add by lia. by rewrite Nat.add_1_r.
Qed.

Lemma below_cons {A} (P : nat -> Prop) (b : A) (l : list A) :
  (forall k, (k < 8 * length (b :: l))%nat -> P k) <->
  (forall i, (i < 8)%nat -> P i) /\ (forall k, (k < 8 * length l)%nat -> P (8 + k)%nat).
Proof.
  simpl length. split.
  - intros Hall. split; intros; apply Hall; lia.
  - intros [H1 H2] k Hk. destruct (decide (k < 8)%nat) as [Hlt|Hge]; [by apply H1|].
    replace k with (8 + (k - 8))%nat by lia. apply H2. lia.
Qed.

(** ** Masks *)
Lemma land_eq_iff a b m : byte a -> byte b ->
  Z.land a m = Z.land b m <->
  (forall i, (i < 8)%nat -> Z.testbit m (7 - Z.of_nat i) = true -> Z.testbit a (7 - Z.of_nat i) = Z.testbit b (7 - Z.of_nat i)).
Proof.
  intros Ha Hb. split.
  - intros E i _ Hm. apply (f_equal (fun z => Z.testbit z (7 - Z.of_nat i))) in E.
    by rewrite !Z.land_spec, Hm, !andb_true_r in E.
  - intros Hi. apply byte_eq; [by apply byte_land..|]. intros i Hlt. rewrite !Z.land_spec.
    destruct (Z.testbit m _) eqn:Hm; [|by rewrite !andb_false_r]. by rewrite (Hi i Hlt Hm).
Qed.

Lemma same_masked_cons m ms a as_ b bs :
  byte a -> byte b -> same_masked (m :: ms) (a :: as_) (b :: bs) <-> Z.land a m = Z.land b m /\ same_masked ms as_ bs.
Proof.
  intros Ha Hb. unfold same_masked. rewrite (below_cons _ m ms), land_eq_iff by done.
  setoid_rewrite bit_cons_S. f_equiv.
  split; intros Hi i Hlt; specialize (Hi i Hlt); by rewrite !bit_cons in * by done.
Qed.

Lemma masked_iff (a b m : list Z) :
  length a = length m -> length b = length m -> Forall byte a -> Forall byte b ->
  zip_with Z.land a m = zip_with Z.land b m <-> same_masked m a b.
Proof.
  revert a b. induction m as [|m ms IH]; intros [|x a] [|y b] La Lb Ha Hb; try done.
  inversion Ha; inversion Hb; subst. rewrite same_masked_cons by done.
  rewrite <- IH by (simpl in *; first [lia|done]). simpl. split; [by intros [= -> ->]|by intros [-> ->]].
Qed.

Lemma same_masked_selects n m a b :
  selects n m -> (n <= 8 * length m)%nat -> same_masked m a b <-> same_prefix n a b.
Proof.
  intros Hs Hn. unfold same_masked, same_prefix. split.
  - intros Hall k Hk. apply Hall; [lia|]. rewrite Hs by lia. by apply Nat.ltb_lt.
  - intros Hall k Hk Hm. apply Hall. rewrite Hs in Hm by done. by apply Nat.ltb_lt.
Qed.

Lemma same_prefix_all (a b : list Z) : length a = length b -> Forall byte a -> Forall byte b ->
  same_prefix (8 * length a) a b <-> a = b.
Proof.
  intros L Ha Hb. split; [|by intros ->]. revert b L Hb. induction Ha as [|x a Hx Ha IH]; intros [|y b] L Hb Hm; try done.
  apply Forall_cons in Hb as [Hy Hb]. apply (below_cons _ x a) in Hm as [H8 Hrest].
  setoid_rewrite bit_cons_S in Hrest. f_equal.
  - apply byte_eq; [done..|]. intros i Hi. specialize (H8 i Hi). by rewrite !bit_cons in H8 by done.
  - apply (IH b); [|done..]. simpl in L. lia.
Qed.

Lemma bit_take k l i : (i < 8 * k)%nat -> bit (take k l) i = bit l i.
Proof. intros Hi. unfold bit. rewrite lookup_take_lt; [done|]. apply Nat.Div0.div_lt_upper_bound. lia. Qed.

Lemma bit_at l k i : (i < 8)%nat -> bit l (8 * k + i) = Z.testbit (default 0 (l !! k)) (7 - Z.of_nat i).
Proof.
  intros Hi. unfold bit. replace (8 * k + i)%nat with (i + k * 8)%nat by lia.
  rewrite Nat.div_add, Nat.Div0.mod_add, Nat.div_small, Nat.mod_small by lia. done.
Qed.

(** The first [8 * k + r] bits: [k] bytes and [r] bits of the next one. *)
Lemma same_prefix_split k r (a b : list Z) :
  (r < 8)%nat -> (k <= length a)%nat -> (k <= length b)%nat -> Forall byte a -> Forall byte b ->
  same_prefix (8 * k + r) a b <-> take k a = take k b /\
    (forall i, (i < r)%nat -> Z.testbit (default 0 (a !! k)) (7 - Z.of_nat i) = Z.testbit (default 0 (b !! k)) (7 - Z.of_nat i)).
Proof.
  intros Hr La Lb Ha Hb.
  rewrite <- (same_prefix_all (take k a) (take k b)) by (by apply Forall_take || (rewrite !length_take; lia)).
  rewrite length_take_le by done. unfold same_prefix. split.
  - intros Hall. split; [intros i Hi; rewrite !bit_take by done; apply Hall; lia|].
    intros i Hi. rewrite <- !bit_at by lia. apply Hall. lia.
  - intros [H1 H2] i Hi. destruct (decide (i < 8 * k)%nat) as [Hlt|Hge].
    + rewrite <- (bit_take k a), <- (bit_take k b) by done. by apply H1.
    + replace i with (8 * k + (i - 8 * k))%nat by lia. rewrite !bit_at by lia. apply H2. lia.
Qed.

Lemma same_prefix_Forall n a b : Forall (fun k => bit a k = bit b k) (seq 0 n) <-> same_prefix n a b.
Proof. rewrite Forall_forall. setoid_rewrite elem_of_seq. split; intros Hall k Hk; apply Hall; lia. Qed.

#[export] Instance same_prefix_dec n a b : Decision (same_prefix n a b) :=
  match decide (Forall (fun k => bit a k = bit b k) (seq 0 n)) with
  | left p => left (proj1 (same_prefix_Forall n a b) p)
  | right p => right (fun q => p (proj2 (same_prefix_Forall n a b) q))
  end.

Lemma same_masked_Forall m a b :
  Forall (fun k => bit m k = true -> bit a k = bit b k) (seq 0 (8 * length m)) <-> same_masked m a b.
Proof. rewrite Forall_forall. setoid_rewrite elem_of_seq. split; intros Hall k Hk; apply Hall; lia. Qed.

#[export] Instance same_masked_dec m a b : Decision (same_masked m a b) :=
  match decide (Forall (fun k => bit m k = true -> bit a k = bit b k) (seq 0 (8 * length m))) with
  | left p => left (proj1 (same_masked_Forall m a b) p)
  | right p => right (fun q => p (proj2 (same_masked_Forall m a b) q))
  end.

(** ** Words *)
Lemma le_word_land (a m : list Z) : Forall byte a -> Forall byte m -> length a = length m ->
  Z.land (le_word a) (le_word m) = le_word (zip_with Z.land a m).
Proof.
  intros Ha. revert m. induction Ha as [|x a Hx Ha IH]; intros [|y m] Hm L; try done.
  inversion Hm as [|? ? Hy Hm']; subst. simpl in L. cbn [le_word zip_with]. rewrite <- IH by (done || lia).
  assert (E : forall u v, byte u -> u + 2 ^ 8 * v = Z.lor u (Z.shiftl v 8)).
  { intros u v Hu.
    assert (N : Z.land u (Z.shiftl v 8) = 0).
    { apply Z.bits_inj'. intros k Hk. rewrite Z.land_spec, Z.testbit_0_l, Z.shiftl_spec by done.
      destruct (decide (k < 8)); [rewrite (Z.testbit_neg_r v) by lia; apply andb_false_r|by rewrite byte_bits by (done || lia)]. }
    rewrite <- Z.lxor_lor, <- Z.add_nocarry_lxor by done. rewrite Z.shiftl_mul_pow2 by lia. lia. }
  rewrite !E by (done || by apply byte_land).
  apply Z.bits_inj'. intros k Hk. rewrite !Z.land_spec, !Z.lor_spec, !Z.land_spec, !Z.shiftl_spec, Z.land_spec by done.
  destruct (decide (k < 8)).
  - rewrite (Z.testbit_neg_r _ (k - 8)), (Z.testbit_neg_r (le_word m)) by lia. by rewrite !orb_false_r.
  - rewrite (byte_bits x), (byte_bits y) by (done || lia). done.
Qed.

Lemma le_word_inj (a b : list Z) : Forall byte a -> Forall byte b -> length a = length b -> le_word a = le_word b -> a = b.
Proof.
  intros Ha. revert b. induction Ha as [|x a Hx Ha IH]; intros [|y b] Hb L E; try done.
  inversion Hb as [|? ? Hy Hb']; subst. simpl in L. cbn [le_word] in E. unfold byte in *.
  assert (x = y) as -> by lia. f_equal. apply IH; [done|lia|lia].
Qed.

Lemma zip_with_rev {A B C} (f : A -> B -> C) l k : length l = length k -> zip_with f (rev l) (rev k) = rev (zip_with f l k).
Proof.
  revert k. induction l as [|x l IH]; intros [|y k] L; try done. simpl in *.
  rewrite zip_with_app by (rewrite !length_rev; lia). by rewrite IH by lia.
Qed.

Lemma Forall_rev' {A} (P : A -> Prop) l : Forall P l -> Forall P (rev l).
Proof. intros Hl. rewrite <- rev_reverse || idtac. by apply Forall_rev. Qed.

(** Masking words is masking bytes. *)
Lemma word_masked_iff big (a b m : list Z) :
  length a = length m -> length b = length m -> Forall byte a -> Forall byte b -> Forall byte m ->
  Z.land (word big a) (word big m) = Z.land (word big b) (word big m) <-> same_masked m a b.
Proof.
  intros La Lb Ha Hb Hm. rewrite <- masked_iff by done.
  assert (HF : forall l, Forall byte l -> Forall byte (zip_with Z.land l m)).
  { intros l Hl. apply Forall_lookup. intros i x Hx.
    apply lookup_zip_with_Some in Hx as (u & v & -> & Hu & _). apply byte_land. by eapply Forall_lookup in Hu. }
  unfold word. destruct big.
  - rewrite !le_word_land by (try (by apply Forall_rev'); rewrite !length_rev; done).
    rewrite !zip_with_rev by done. split; [|by intros ->]. intros E.
    apply le_word_inj in E; [|by apply Forall_rev', HF..|by rewrite !length_rev, !length_zip_with, La, Lb].
    by apply (f_equal (@rev Z)) in E; rewrite !rev_involutive in E.
  - rewrite !le_word_land by done. split; [|by intros ->]. apply le_word_inj; [by apply HF..|].
    by rewrite !length_zip_with, La, Lb.
Qed.

(** ** Masks found by computation *)
Definition selects_b (n : nat) (m : list Z) : bool :=
  forallb (fun k => Bool.eqb (bit m k) (k <? n)%nat) (seq 0 (8 * length m)).

Lemma selects_b_spec n m : selects_b n m = true -> selects n m.
Proof.
  unfold selects_b, selects. rewrite forallb_forall. intros Hall k Hk. apply eqb_prop, Hall, in_seq. lia.
Qed.
