(* ===== verification/Access.v ===== *)
(** * Cherokee: access lists ([access.c])

    An access list holds addresses ([ips]) and networks ([nets]); it is filled
    from texts of the configuration ([access_add]) and asked whether the remote
    address of a socket is in it ([ip_match]).  A node of either list is an
    [ip_item_t] or a [subnet_item_t]; both lists link nodes of one heap.  The
    address of a node is a union: the bytes of an [in_addr], or of an [in6_addr]
    if IPv6 is compiled in.

    The options of the build and what is outside the repository are the class
    [Cherokee].  [malloc] answers from the list [mem]: [false] is a failure, and
    when the list is exhausted it succeeds.  [bufs] counts the buffers whose
    memory is not given back.  Texts are lists of characters without the final
    zero.  Messages, traces and [cherokee_access_print_debug] are left out. *)
From S2P Require Import Prelude Heap NetBits.
Open Scope Z_scope.

Inductive ret_t := ret_ok | ret_error | ret_not_found | ret_other (z : Z).

Inductive ip_type_t := ipv4 | ipv6.

#[export] Instance ret_dec : EqDecision ret_t.
Proof. solve_decision. Defined.
#[export] Instance ip_type_dec : EqDecision ip_type_t.
Proof. solve_decision. Defined.

(** [n_mask] is there in a [subnet_item_t] only. *)
Record ip_item := MkItem { n_type : ip_type_t; n_ip : list Z; n_mask : option (list Z) }.

Record access := MkAccess {
  nodes : gmap loc ip_item;
  list_ips : list loc;
  list_subnets : list loc;
  mem : list bool;
  bufs : nat
}.

Definition set_nodes (x : gmap loc ip_item) (s : access) : access :=
  MkAccess x (list_ips s) (list_subnets s) (mem s) (bufs s).
Definition set_ips (x : list loc) (s : access) : access :=
  MkAccess (nodes s) x (list_subnets s) (mem s) (bufs s).
Definition set_subnets (x : list loc) (s : access) : access :=
  MkAccess (nodes s) (list_ips s) x (mem s) (bufs s).
Definition set_mem (x : list bool) (s : access) : access :=
  MkAccess (nodes s) (list_ips s) (list_subnets s) x (bufs s).
Definition set_bufs (x : nat) (s : access) : access :=
  MkAccess (nodes s) (list_ips s) (list_subnets s) (mem s) x.

#[export] Instance access_store : Store access ip_item := {| the_heap := nodes; with_heap := set_nodes |}.

(** The remote address of a socket. *)
Inductive socket := Sock4 (addr : list Z) | Sock6 (addr : list Z) | SockOther.

(** [have_ipv6] and [have_inet_pton]: the macros of that name.  [inet_pton] and
    [inet_aton] say whether they accept a text and which bytes they store.
    [uninit_type] is what [malloc] leaves in a type.  [buffer_text] is the text
    behind [buf] after [cherokee_buffer_add] to a buffer without memory. *)
Class Cherokee := {
  have_ipv6 : bool; have_inet_pton : bool; host_big : bool;
  uninit_type : ip_type_t;
  inet_pton : ip_type_t -> list Z -> bool * list Z;
  inet_aton : list Z -> bool * list Z;
  cherokee_atoi : list Z -> option Z;
  list_add : loc -> list loc -> list loc;
  buffer_text : list bool -> list Z -> option (list Z) * list bool;
  addrinfo : Type;
  resolv_default : ret_t;
  resolv_addrinfo : list Z -> ret_t * list addrinfo;
  ntop : addrinfo -> ret_t * list Z
}.

(** ** The C library *)
Definition strchr (s : list Z) (c : Z) : bool := bool_decide (c ∈ s).

(** The offset of the first character of [s] that is in [set]. *)
Fixpoint strpbrk (s set : list Z) : option nat :=
  match s with
  | [] => None
  | c :: s' => if decide (c ∈ set) then Some O else S <$> strpbrk s' set
  end.

Definition isspace (c : Z) : bool := (c =? 32) || (9 <=? c) && (c <=? 13).
Definition isdigit (c : Z) : bool := (48 <=? c) && (c <=? 57).

Fixpoint skip_space (s : list Z) : list Z :=
  match s with
  | c :: s' => if isspace c then skip_space s' else s
  | [] => []
  end.

Fixpoint digits (acc : Z) (s : list Z) : Z :=
  match s with
  | c :: s' => if isdigit c then digits (10 * acc + (c - 48)) s' else acc
  | [] => acc
  end.

(** [strtol (s, NULL, 10)] of a text that is too short for an overflow. *)
Definition strtol10 (s : list Z) : Z :=
  match skip_space s with
  | 45 :: s' => - digits 0 s'
  | 43 :: s' => digits 0 s'
  | s' => digits 0 s'
  end.

(** [IN6_IS_ADDR_V4MAPPED] *)
Definition v4mapped (a : list Z) : bool :=
  bool_decide (take 12 a = [0; 0; 0; 0; 0; 0; 0; 0; 0; 0; 255; 255]).

Section cherokee.
Context `{Cherokee}.
Abbreviation A := (M access cfault).

Definition sizeof_ip : nat := if have_ipv6 then 16%nat else 4%nat.

(** The word of a host whose bytes in memory are those of [z] in network order. *)
Definition htonl (z : Z) : Z := word host_big (rev (le_bytes 4 z)).

(** [ip4.s_addr] *)
Definition s_addr (ip : list Z) : Z := word host_big (take 4 ip).

(** Store bytes at the start of a union. *)
Definition into_ip (bytes ip : list Z) : A (list Z) :=
  if (length bytes <=? length ip)%nat then mret (bytes ++ drop (length bytes) ip) else throw OutOfBounds.

Definition set_type (t : ip_type_t) (n : ip_item) : ip_item := MkItem t (n_ip n) (n_mask n).
Definition set_ip (x : list Z) (n : ip_item) : ip_item := MkItem (n_type n) x (n_mask n).
Definition set_mask (x : list Z) (n : ip_item) : ip_item := MkItem (n_type n) (n_ip n) (Some x).

Definition get_mask (n : ip_item) : A (list Z) :=
  match n_mask n with Some m => mret m | None => throw OutOfBounds end.

(** ** Memory *)
Definition malloc (nd : ip_item) : A (option loc) :=
  s ← getS;
  match mem s with
  | false :: m => putS (set_mem m s) ;; mret None
  | m =>
      let l := new_loc (nodes s) in
      putS (set_mem (drop 1 m) (set_nodes (<[l := nd]> (nodes s)) s)) ;; mret (Some l)
  end.

Definition free (l : loc) : A unit :=
  x ← deref (Some l);
  modS (fun s => set_nodes (delete x.1 (nodes s)) s).

Definition new_ip : A (option loc) := malloc (MkItem uninit_type (replicate sizeof_ip 0) None).

Definition free_ip (l : loc) : A ret_t := free l ;; mret ret_ok.

Definition new_subnet : A (option loc) :=
  malloc (MkItem uninit_type (replicate sizeof_ip 0) (Some (replicate sizeof_ip 0))).

Definition buffer_add (text : list Z) : A (option (list Z)) :=
  s ← getS;
  let r := buffer_text (mem s) text in
  putS (set_bufs (match r.1 with Some _ => S (bufs s) | None => bufs s end) (set_mem r.2 s)) ;;
  mret r.1.

Definition buffer_mrproper (buf : option (list Z)) : A unit :=
  modS (fun s => set_bufs (match buf with Some _ => pred (bufs s) | None => bufs s end) s).

Definition access_init : A ret_t :=
  modS (fun s => set_subnets [] (set_ips [] s)) ;; mret ret_ok.

(** [list_for_each_safe] with a body that takes the node out and frees it. *)
Fixpoint free_list (put : list loc -> access -> access) (l : list loc) : A unit :=
  match l with
  | [] => mret tt
  | i :: tmp => modS (put tmp) ;; free i ;; free_list put tmp
  end.

Definition access_mrproper : A ret_t :=
  s ← getS; free_list set_ips (list_ips s) ;;
  s ← getS; free_list set_subnets (list_subnets s) ;;
  mret ret_ok.

(** ** Parsing *)
Definition text_type (ip : list Z) : ip_type_t :=
  if strchr ip 58 || (15 <? length ip)%nat then ipv6 else ipv4.

(** [inet_pton] or, without it, [inet_aton] *)
Definition to_bytes (t : ip_type_t) (text : list Z) : bool * list Z :=
  if have_inet_pton then inet_pton t text else inet_aton text.

Definition parse_ip (text : option (list Z)) (n : loc) : A ret_t :=
  match text with
  | None => throw NullDeref
  | Some ip =>
      let t := text_type ip in
      assign (Some n) (set_type t) ;;
      if negb have_ipv6 && bool_decide (t = ipv6) then mret ret_error else
      let r := to_bytes t ip in
      x ← deref (Some n);
      v ← into_ip r.2 (n_ip x.2);
      assign (Some n) (set_ip v) ;;
      if have_inet_pton && have_ipv6 && bool_decide (t = ipv6) && v4mapped v then mret ret_error else
      mret (if r.1 then ret_ok else ret_error)
  end.

Fixpoint fill_loop (n i : nat) (v : Z) : M (list Z) cfault unit :=
  match n with
  | O => mret tt
  | S n' => store i v ;; fill_loop n' (S i) v
  end.

Fixpoint bits_loop (jj : nat) (mask maskbit : Z) : Z :=
  match jj with
  | O => mask
  | S jj' => bits_loop jj' (Z.lor mask maskbit) (Z.shiftr maskbit 1)
  end.

(** The mask with [num] bits. *)
Definition mask6 (num : Z) : M (list Z) cfault unit :=
  let j := Z.to_nat (num / 8) in
  let jj := Z.to_nat (num mod 8) in
  fill_loop j 0 255 ;;
  store j (bits_loop jj 0 128).

Definition mask4 (num : Z) : list Z :=
  word_bytes host_big (if num =? 0 then 0 else htonl (wrapu 32 (Z.shiftl (-1) (32 - num)))).

(** Run a command on the bytes of the mask. *)
Definition on_mask (n : loc) (c : M (list Z) cfault unit) : A unit :=
  x ← deref (Some n);
  m ← get_mask x.2;
  r ← lift (c m);
  assign (Some n) (set_mask r.2).

Definition parse_netmask (netmask : list Z) (n : loc) : A ret_t :=
  x ← deref (Some n);
  let t := n_type x.2 in
  if strchr netmask 58 || strchr netmask 46 then
    let r := to_bytes t netmask in
    m ← get_mask x.2;
    v ← into_ip r.2 m;
    assign (Some n) (set_mask v) ;;
    mret (if r.1 then ret_ok else ret_error)
  else
  if (3 <? length netmask)%nat then mret ret_error else
  let num := strtol10 netmask in
  if num <? 0 then mret ret_error else
  if bool_decide (t = ipv4) && (32 <? num) then mret ret_error else
  if bool_decide (t = ipv6) && (128 <? num) then mret ret_error else
  if have_ipv6 && (128 <? num) then mret ret_error else
  if have_ipv6 && (num =? 128) then on_mask n (fill_loop 16 0 0) ;; mret ret_ok else
  if have_ipv6 && bool_decide (t = ipv6) then on_mask n (mask6 num) ;; mret ret_ok else
  m ← get_mask x.2;
  v ← into_ip (mask4 num) m;
  assign (Some n) (set_mask v) ;;
  mret ret_ok.

(** ** Adding *)
Definition access_add_ip (ip : list Z) : A ret_t :=
  p ← new_ip;
  match p with
  | None => mret ret_error
  | Some n =>
      ret ← parse_ip (Some ip) n;
      if bool_decide (ret = ret_error) then free_ip n ;; mret ret else
      modS (fun s => set_ips (list_add n (list_ips s)) s) ;;
      mret ret
  end.

Fixpoint add_addresses (l : list addrinfo) : A ret_t :=
  match l with
  | [] => mret ret_ok
  | addr :: next =>
      let r := ntop addr in
      if negb (bool_decide (r.1 = ret_ok)) then mret r.1 else
      ret ← access_add_ip r.2;
      if negb (bool_decide (ret = ret_ok)) then mret ret else add_addresses next
  end.

Definition access_add_domain (domain : list Z) : A ret_t :=
  if negb (bool_decide (resolv_default = ret_ok)) then mret resolv_default else
  let r := resolv_addrinfo domain in
  if negb (bool_decide (r.1 = ret_ok)) then mret r.1 else
  add_addresses r.2.

Definition access_add_subnet (subnet : list Z) : A ret_t :=
  match strpbrk subnet [47; 92] with
  | None => mret ret_error
  | Some slash =>
      let mask := drop (S slash) subnet in
      ip ← buffer_add (take slash subnet);
      p ← new_subnet;
      match p with
      | None => mret ret_error
      | Some n =>
          modS (fun s => set_subnets (list_add n (list_subnets s)) s) ;;
          ret ← parse_ip ip n;
          if bool_decide (ret = ret_error) then buffer_mrproper ip ;; mret ret_error else
          ret ← parse_netmask mask n;
          if bool_decide (ret = ret_error) then buffer_mrproper ip ;; mret ret_error else
          buffer_mrproper ip ;;
          mret ret_ok
      end
  end.

Definition is_letter (c : Z) : bool := (97 <=? c) && (c <=? 122) || (65 <=? c) && (c <=? 90).

Fixpoint find_letter (s : list Z) : bool :=
  match s with
  | [] => false
  | c :: s' => if is_letter c then true else find_letter s'
  end.

Definition access_add (ip_or_subnet : list Z) : A ret_t :=
  let colon := strchr ip_or_subnet 58 in
  match strpbrk ip_or_subnet [47; 92] with
  | None =>
      let is_domain := if colon then false else find_letter ip_or_subnet in
      if is_domain then access_add_domain ip_or_subnet else access_add_ip ip_or_subnet
  | Some slash =>
      match cherokee_atoi (drop (S slash) ip_or_subnet) with
      | None => mret ret_error
      | Some mask =>
          if colon && (mask =? 128) then access_add_ip (take slash ip_or_subnet) else
          if strchr ip_or_subnet 46 && (mask =? 32) then access_add_ip (take slash ip_or_subnet) else
          access_add_subnet ip_or_subnet
      end
  end.

(** ** Matching *)
Definition sock_is (sock : socket) (t : ip_type_t) : bool :=
  match sock, t with
  | Sock4 _, ipv4 | Sock6 _, ipv6 => true
  | _, _ => false
  end.

(** A pass through the loop over the addresses: [None] goes on. *)
Definition match_ip (sock : socket) (n : ip_item) : option ret_t :=
  let mapped :=
    match sock with
    | Sock6 a => have_ipv6 && bool_decide (n_type n = ipv4) && v4mapped a
                 && bool_decide (take 4 (drop 12 a) = take 4 (n_ip n))
    | _ => false
    end in
  if mapped then Some ret_ok else
  if sock_is sock (n_type n) then
    match sock with
    | Sock4 a => if bool_decide (take 4 a = take 4 (n_ip n)) then Some ret_ok else None
    | Sock6 a => if have_ipv6 then (if bool_decide (a = n_ip n) then Some ret_ok else None) else Some ret_error
    | SockOther => None
    end
  else None.

(** [j] from 0 to 15: the bytes under the mask are equal. *)
Fixpoint masked_loop (k j : nat) (ip mask remote : list Z) : res cfault bool :=
  match k with
  | O => Ok true
  | S k' =>
      match ip !! j, mask !! j, remote !! j with
      | Some x, Some m, Some y =>
          if negb (Z.land x m =? Z.land y m) then Ok false else masked_loop k' (S j) ip mask remote
      | _, _, _ => Err OutOfBounds
      end
  end.

Definition match_subnet (sock : socket) (n : ip_item) (mask : list Z) : res cfault (option ret_t) :=
  let masqued_list := Z.land (s_addr (n_ip n)) (s_addr mask) in
  let mapped :=
    match sock with
    | Sock6 a => have_ipv6 && bool_decide (n_type n = ipv4) && v4mapped a
                 && (Z.land (s_addr (drop 12 a)) (s_addr mask) =? masqued_list)
    | _ => false
    end in
  if mapped then Ok (Some ret_ok) else
  if sock_is sock (n_type n) then
    match sock with
    | Sock4 a => Ok (if Z.land (s_addr a) (s_addr mask) =? masqued_list then Some ret_ok else None)
    | Sock6 a =>
        if have_ipv6 then
          equal ← masked_loop 16 0 (n_ip n) mask a;
          Ok (if (equal : bool) then Some ret_ok else None)
        else Ok (Some ret_error)
    | SockOther => Ok None
    end
  else Ok None.

Fixpoint match_ips (sock : socket) (l : list loc) : A (option ret_t) :=
  match l with
  | [] => mret None
  | i :: l' =>
      x ← deref (Some i);
      match match_ip sock x.2 with
      | Some r => mret (Some r)
      | None => match_ips sock l'
      end
  end.

Fixpoint match_subnets (sock : socket) (l : list loc) : A (option ret_t) :=
  match l with
  | [] => mret None
  | i :: l' =>
      x ← deref (Some i);
      m ← get_mask x.2;
      r ← lift (match_subnet sock x.2 m);
      match r with
      | Some r => mret (Some r)
      | None => match_subnets sock l'
      end
  end.

Definition ip_match (sock : socket) : A ret_t :=
  s ← getS;
  r ← match_ips sock (list_ips s);
  match r with
  | Some r => mret r
  | None =>
      r ← match_subnets sock (list_subnets s);
      mret (default ret_not_found r)
  end.
End cherokee.
