(* ===== verification/AccessProofs.v ===== *)
(** * Cherokee: invariant and specification of an access list

    [admits] says which sockets a node lets in, by the bits of its address;
    [accepts] is the whole list.  [access_ok]: the nodes of the heap are those of
    the two lists.  [parsed_ip] and [parsed_mask] are what the parsers make of
    the node they are given. *)
From S2P Require Import Prelude Heap NetBits Access.
Open Scope Z_scope.

#[export] Instance access_store_laws : StoreLaws access ip_item.
Proof. by split. Qed.

Definition addr_len (t : ip_type_t) : nat := match t with ipv4 => 4%nat | ipv6 => 16%nat end.

(** The text of a length. *)
Definition decimal (n : nat) : list Z :=
  let d k := 48 + Z.of_nat (k mod 10) in
  if (n <? 10)%nat then [d n] else if (n <? 100)%nat then [d (n / 10)%nat; d n] else [d (n / 100)%nat; d (n / 10)%nat; d n].

Lemma strtol10_decimal n : (n <= 128)%nat -> strtol10 (decimal n) = Z.of_nat n.
Proof.
  intros Hn. assert (Hall : forallb (fun k => strtol10 (decimal k) =? Z.of_nat k) (seq 0 129) = true) by by vm_compute.
  rewrite forallb_forall in Hall. apply Z.eqb_eq, (Hall n), in_seq. lia.
Qed.

(** What is documented: [inet_pton] stores an address of the family in network
    order and takes no IPv6 address without a colon; a buffer that nothing is
    added to stays without memory. *)
Class CherokeeLaws `{Cherokee} : Prop := {
  list_add_perm x l : list_add x l ≡ₚ x :: l;
  pton_bytes t s : Forall byte (inet_pton t s).2;
  pton_length t s : (length (inet_pton t s).2 <= addr_len t)%nat;
  pton_ok t s : (inet_pton t s).1 = true -> length (inet_pton t s).2 = addr_len t;
  pton_colon s : (inet_pton ipv6 s).1 = true -> 58 ∈ s;
  aton_bytes s : Forall byte (inet_aton s).2;
  aton_length s : (length (inet_aton s).2 <= 4)%nat;
  aton_ok s : (inet_aton s).1 = true -> length (inet_aton s).2 = 4%nat;
  buffer_text_some m s t m' : buffer_text m s = (Some t, m') -> t = s;
  buffer_text_ok s : s <> [] -> buffer_text [] s = (Some s, []);
  buffer_text_nil : buffer_text [] [] = (None, []);
  atoi_decimal n : (n <= 128)%nat -> cherokee_atoi (decimal n) = Some (Z.of_nat n)
}.

Section spec.
Context `{Cherokee}.

(** The address of the other end, as an address of type [t]. *)
Definition remote (sock : socket) (t : ip_type_t) : option (list Z) :=
  match sock, t with
  | Sock4 a, ipv4 => Some a
  | Sock6 a, ipv6 => Some a
  | Sock6 a, ipv4 => if v4mapped a then Some (drop 12 a) else None
  | _, _ => None
  end.

Definition addr (t : ip_type_t) (l : list Z) : list Z := take (addr_len t) l.

Definition admits (sock : socket) (n : ip_item) : Prop :=
  match remote sock (n_type n) with
  | None => False
  | Some a =>
      match n_mask n with
      | None => a = addr (n_type n) (n_ip n)
      | Some m => same_masked (addr (n_type n) m) a (addr (n_type n) (n_ip n))
      end
  end.

#[export] Instance admits_dec sock n : Decision (admits sock n).
Proof. unfold admits. destruct (remote _ _); [destruct (n_mask n)|]; apply _. Defined.

Definition accepts (s : access) (sock : socket) : Prop := map_Exists (fun _ n => admits sock n) (nodes s).

#[export] Instance accepts_dec s sock : Decision (accepts s sock).
Proof. unfold accepts. apply _. Defined.

(** The socket has an address of the network with the first [n] bits of [l]. *)
Definition in_network (t : ip_type_t) (l : list Z) (n : nat) (sock : socket) : Prop :=
  match remote sock t with Some a => same_prefix n a l | None => False end.

Definition ip_ok (l : list Z) : Prop := length l = sizeof_ip /\ Forall byte l.

Definition item_ok (n : ip_item) : Prop :=
  ip_ok (n_ip n) /\ match n_mask n with Some m => ip_ok m | None => True end.

Definition sock_ok (sock : socket) : Prop :=
  match sock with
  | Sock4 a => length a = 4%nat /\ Forall byte a
  | Sock6 a => length a = 16%nat /\ Forall byte a /\ have_ipv6 = true
  | SockOther => True
  end.

Record access_ok (s : access) : Prop := {
  ok_nodup : NoDup (list_ips s ++ list_subnets s);
  ok_dom l : is_Some (nodes s !! l) <-> l ∈ list_ips s ++ list_subnets s;
  ok_item l n : nodes s !! l = Some n -> item_ok n;
  ok_kind l n : nodes s !! l = Some n -> is_Some (n_mask n) <-> l ∈ list_subnets s
}.

(** ** Matching *)
Lemma ip_ok_take l t : ip_ok l -> (t = ipv6 -> have_ipv6 = true) -> length (addr t l) = addr_len t /\ Forall byte (addr t l).
Proof.
  intros [Hl Hb] Ht. split; [|by apply Forall_take]. unfold addr. rewrite length_take, Hl. unfold sizeof_ip.
  destruct t; simpl; [destruct have_ipv6; lia|]. by rewrite Ht.
Qed.

Lemma ip_ok_all l : ip_ok l -> have_ipv6 = true -> addr ipv6 l = l.
Proof. intros [Hl _] Ht. unfold sizeof_ip in Hl. rewrite Ht in Hl. apply take_ge. rewrite Hl. simpl. lia. Qed.

Lemma bool_decide_if {X} P `{Decision P} (b : bool) (x y : X) : (b = true <-> P) -> (if b then x else y) = if decide P then x else y.
Proof. destruct b, (decide P); naive_solver. Qed.

Lemma match_ip_spec sock n : item_ok n -> n_mask n = None -> sock_ok sock ->
  match_ip sock n = if decide (admits sock n) then Some ret_ok else None.
Proof.
  intros [Hi _] Hm Hs. destruct n as [t ip m]. cbn in Hm. subst m. unfold match_ip. cbn [n_type n_ip] in *.
  destruct sock as [a|a|], t; cbn [sock_is sock_ok] in *; try (by rewrite decide_False by (unfold admits; cbn; tauto)).
  - destruct Hs as [Ha _]. rewrite (take_ge a) by lia. apply bool_decide_if, bool_decide_eq_true.
  - destruct Hs as (Ha & _ & ->). rewrite (bool_decide_eq_true_2 (ipv4 = ipv4)) by done.
    apply bool_decide_if. unfold admits. cbn. destruct (v4mapped a); cbn [andb]; [|naive_solver].
    rewrite (take_ge (drop 12 a)) by (rewrite length_drop; lia). apply bool_decide_eq_true.
  - destruct Hs as (Ha & _ & Hv). rewrite Hv, (bool_decide_eq_false_2 (ipv6 = ipv4)) by done. cbn [andb].
    apply bool_decide_if. unfold admits. cbn [remote n_type n_mask n_ip]. rewrite (ip_ok_all ip) by done. apply bool_decide_eq_true.
Qed.

Lemma masked_loop_spec k j (ip mask a : list Z) :
  length ip = (j + k)%nat -> length mask = (j + k)%nat -> length a = (j + k)%nat ->
  masked_loop k j ip mask a =
    Ok (bool_decide (zip_with Z.land (drop j a) (drop j mask) = zip_with Z.land (drop j ip) (drop j mask))).
Proof.
  revert j. induction k as [|k IH]; intros j Li Lm La; cbn [masked_loop].
  { rewrite !(drop_ge _ j) by lia. done. }
  destruct (lookup_lt_is_Some_2 ip j ltac:(lia)) as [x Hx].
  destruct (lookup_lt_is_Some_2 mask j ltac:(lia)) as [m Hm].
  destruct (lookup_lt_is_Some_2 a j ltac:(lia)) as [y Hy].
  rewrite Hx, Hm, Hy, (drop_S _ _ _ Hx), (drop_S _ _ _ Hm), (drop_S _ _ _ Hy). cbn [zip_with].
  destruct (Z.eqb_spec (Z.land x m) (Z.land y m)) as [E|E]; cbn [negb].
  - rewrite IH by lia. f_equal. apply bool_decide_ext. rewrite E. split; [by intros ->|by intros [= ->]].
  - rewrite bool_decide_eq_false_2; [done|]. intros [= E' _]. done.
Qed.

Lemma s_addr_masked (a ip m : list Z) : length a = 4%nat -> length (take 4 ip) = 4%nat -> length (take 4 m) = 4%nat ->
  Forall byte a -> Forall byte ip -> Forall byte m ->
  (Z.land (s_addr a) (s_addr m) =? Z.land (s_addr ip) (s_addr m)) = bool_decide (same_masked (take 4 m) a (take 4 ip)).
Proof.
  intros La Li Lm Ha Hi Hm. unfold s_addr. rewrite (take_ge a) by lia.
  apply eq_bool_prop_intro. rewrite bool_decide_spec, <- (word_masked_iff host_big) by (by apply Forall_take || congruence).
  rewrite Is_true_true. apply Z.eqb_eq.
Qed.

Lemma match_subnet_spec sock n m : item_ok n -> n_mask n = Some m -> sock_ok sock ->
  match_subnet sock n m = Ok (if decide (admits sock n) then Some ret_ok else None).
Proof.
  intros [Hi Hmo] Hm Hs. destruct n as [t ip m']. cbn in Hm. subst m'. unfold match_subnet. cbn [n_type n_ip n_mask] in *.
  destruct sock as [a|a|], t; cbn [sock_is sock_ok] in *; try (by rewrite decide_False by (unfold admits; cbn; tauto)).
  - destruct Hs as [La Ha]. pose proof (ip_ok_take ip ipv4 Hi ltac:(done)). pose proof (ip_ok_take m ipv4 Hmo ltac:(done)).
    rewrite s_addr_masked by (tauto || apply Hi || apply Hmo). f_equal. apply bool_decide_if, bool_decide_eq_true.
  - destruct Hs as (La & Ha & ->). rewrite (bool_decide_eq_true_2 (ipv4 = ipv4)) by done.
    pose proof (ip_ok_take ip ipv4 Hi ltac:(done)). pose proof (ip_ok_take m ipv4 Hmo ltac:(done)).
    rewrite s_addr_masked by (tauto || apply Hi || apply Hmo || (rewrite length_drop; lia) || by apply Forall_drop).
    rewrite (bool_decide_if (admits (Sock6 a) (MkItem ipv4 ip (Some m)))); [by destruct (decide _)|].
    unfold admits. cbn. destruct (v4mapped a); cbn [andb]; [|naive_solver]. apply bool_decide_eq_true.
  - destruct Hs as (La & Ha & Hv). rewrite Hv, (bool_decide_eq_false_2 (ipv6 = ipv4)) by done. cbn [andb].
    pose proof (ip_ok_all ip Hi Hv) as Ei. pose proof (ip_ok_all m Hmo Hv) as Em.
    destruct Hi as [Li Hi], Hmo as [Lm Hmo]. unfold sizeof_ip in *. rewrite Hv in *.
    rewrite masked_loop_spec by lia. cbn [mbind res_bind]. rewrite !drop_0. f_equal.
    apply bool_decide_if. unfold admits. cbn [remote n_type n_mask n_ip]. rewrite Ei, Em, bool_decide_eq_true.
    apply masked_iff; [lia|lia|done|done].
Qed.

Definition hits (s : access) (sock : socket) (i : loc) : Prop :=
  match nodes s !! i with Some n => admits sock n | None => False end.

#[export] Instance hits_dec s sock i : Decision (hits s sock i).
Proof. unfold hits. destruct (nodes s !! i); apply _. Defined.

Lemma Exists_cons_if {X Y} (P : X -> Prop) `{!forall x, Decision (P x)} x l (a b : Y) :
  (if decide (Exists P (x :: l)) then a else b) = if decide (P x) then a else if decide (Exists P l) then a else b.
Proof. destruct (decide (Exists P (x :: l))) as [E|E], (decide (P x)), (decide (Exists P l)); rewrite Exists_cons in E; tauto. Qed.

Lemma match_ips_spec s sock l : access_ok s -> sock_ok sock -> l ⊆ list_ips s ->
  match_ips sock l s = Ok (if decide (Exists (hits s sock) l) then Some ret_ok else None, s).
Proof.
  intros Hok Hs. induction l as [|i l IH]; intros Hl; cbn [match_ips].
  { rewrite decide_False; [done|]. by inversion 1. }
  destruct (proj2 (ok_dom _ Hok i)) as [n Hn]; [set_solver|].
  assert (Hm : n_mask n = None).
  { destruct (n_mask n) eqn:E; [exfalso|done]. assert (i ∈ list_subnets s) by (apply (ok_kind _ Hok _ _ Hn); by rewrite E).
    pose proof (ok_nodup _ Hok) as Hd. apply NoDup_app in Hd as (_ & Hd & _). apply (Hd i); set_solver. }
  erewrite M_bind_ok by (unfold deref; cbn [the_heap access_store]; by rewrite Hn). cbn [fst snd].
  rewrite (match_ip_spec sock n) by (done || by eapply ok_item). rewrite Exists_cons_if.
  assert (E : hits s sock i <-> admits sock n) by (unfold hits; by rewrite Hn).
  destruct (decide (admits sock n)); [by rewrite decide_True by tauto|rewrite decide_False by tauto]. apply IH. set_solver.
Qed.

Lemma match_subnets_spec s sock l : access_ok s -> sock_ok sock -> l ⊆ list_subnets s ->
  match_subnets sock l s = Ok (if decide (Exists (hits s sock) l) then Some ret_ok else None, s).
Proof.
  intros Hok Hs. induction l as [|i l IH]; intros Hl; cbn [match_subnets].
  { rewrite decide_False; [done|]. by inversion 1. }
  destruct (proj2 (ok_dom _ Hok i)) as [n Hn]; [set_solver|].
  destruct (proj2 (ok_kind _ Hok _ _ Hn)) as [m Hm]; [set_solver|].
  erewrite M_bind_ok by (unfold deref; cbn [the_heap access_store]; by rewrite Hn). cbn [fst snd].
  erewrite M_bind_ok by (unfold get_mask; by rewrite Hm).
  rewrite (match_subnet_spec sock n m) by (done || by eapply ok_item). rewrite Exists_cons_if.
  assert (E : hits s sock i <-> admits sock n) by (unfold hits; by rewrite Hn).
  erewrite M_bind_ok by done.
  destruct (decide (admits sock n)); [by rewrite decide_True by tauto|rewrite decide_False by tauto]. apply IH. set_solver.
Qed.

Lemma accepts_lists s sock : access_ok s ->
  accepts s sock <-> Exists (hits s sock) (list_ips s) \/ Exists (hits s sock) (list_subnets s).
Proof.
  intros Hok. rewrite <- Exists_app, Exists_exists. unfold accepts, hits. split.
  - intros (l & n & Hn & Ha). exists l. rewrite Hn. split; [|done]. apply (ok_dom _ Hok). by rewrite Hn.
  - intros (l & _ & Hh). destruct (nodes s !! l) as [n|] eqn:Hn; [|done]. by exists l, n.
Qed.

Lemma ip_match_spec s sock : access_ok s -> sock_ok sock ->
  ip_match sock s = Ok (if decide (accepts s sock) then ret_ok else ret_not_found, s).
Proof.
  intros Hok Hs. pose proof (accepts_lists s sock Hok) as E. unfold ip_match.
  rewrite M_bind_eq. cbn. erewrite M_bind_ok by (by apply match_ips_spec).
  destruct (decide (Exists (hits s sock) (list_ips s))); [by rewrite decide_True by tauto|].
  erewrite M_bind_ok by (by apply match_subnets_spec).
  destruct (decide (Exists (hits s sock) (list_subnets s))); [by rewrite decide_True by tauto|by rewrite decide_False by tauto].
Qed.
End spec.
