(* ===== verification/AccessOps.v ===== *)
(** * Cherokee: filling an access list

    The parsers are given by functions on the node ([parsed_ip], [parsed_mask]);
    [access_add_ip] and [access_add_subnet] put a node with what was parsed into
    the list.  The masks of a length select that many bits, by computation over
    all lengths. *)
From S2P Require Import Prelude Heap NetBits Access AccessProofs.
Open Scope Z_scope.

(** ** Masks *)
Lemma le_bytes_length n w : length (le_bytes n w) = n.
Proof. revert w. induction n as [|n IH]; intros w; simpl; [done|]. by rewrite IH. Qed.

Lemma le_bytes_bytes n w : Forall byte (le_bytes n w).
Proof. revert w. induction n as [|n IH]; intros w; simpl; constructor; [by apply Z.mod_pos_bound|apply IH]. Qed.

Lemma word_bytes_ok big w : length (word_bytes big w) = 4%nat /\ Forall byte (word_bytes big w).
Proof.
  unfold word_bytes. destruct big; [|split; [apply le_bytes_length|apply le_bytes_bytes]].
  split; [by rewrite length_rev, le_bytes_length|apply Forall_rev', le_bytes_bytes].
Qed.

Lemma fill_loop_ok n i v (m : list Z) : (i + n <= length m)%nat ->
  fill_loop n i v m = Ok (tt, take i m ++ replicate n v ++ drop (i + n) m).
Proof.
  revert i m. induction n as [|n IH]; intros i m Hl; cbn [fill_loop replicate app].
  { by rewrite Nat.add_0_r, take_drop. }
  rewrite (M_bind_ok _ _ m tt (<[i := v]> m)) by (apply store_ok; lia).
  rewrite IH by (rewrite length_insert; lia). do 2 f_equal.
  rewrite (take_S_r _ _ v) by (apply list_lookup_insert_eq; lia). rewrite take_insert_ge, drop_insert_lt by lia.
  rewrite <- app_assoc, Nat.add_succ_r. done.
Qed.

Definition mask6_bytes (num : Z) (m : list Z) : list Z :=
  let j := Z.to_nat (num / 8) in
  replicate j 255 ++ bits_loop (Z.to_nat (num mod 8)) 0 128 :: drop (S j) m.

Lemma mask6_ok num m : 0 <= num < 128 -> length m = 16%nat -> mask6 num m = Ok (tt, mask6_bytes num m).
Proof.
  intros Hn Hm. unfold mask6, mask6_bytes. set (j := Z.to_nat (num / 8)).
  assert (j < 16)%nat.
  { subst j. assert (num / 8 < 16) by (apply Z.div_lt_upper_bound; lia). assert (0 <= num / 8) by (apply Z.div_pos; lia). lia. }
  erewrite M_bind_ok by (apply fill_loop_ok; lia). cbn [take app Nat.add].
  destruct (drop j m) as [|x r] eqn:E; [apply (f_equal length) in E; rewrite length_drop in E; simpl in E; lia|].
  assert (Hr : r = drop (S j) m) by (rewrite <- Nat.add_1_r, <- drop_drop, E; done).
  pose proof (store_app (replicate j 255) r x (bits_loop (Z.to_nat (num mod 8)) 0 128)) as Hst.
  rewrite length_replicate, Hr in Hst. rewrite Hr. exact Hst.
Qed.

Lemma bits_loop_byte num : 0 <= num < 128 -> byte (bits_loop (Z.to_nat (num mod 8)) 0 128).
Proof.
  intros Hn. assert (Hm : (Z.to_nat (num mod 8) < 8)%nat) by (pose proof (Z.mod_pos_bound num 8); lia).
  revert Hm. generalize (Z.to_nat (num mod 8)). intros k Hk.
  do 8 (destruct k as [|k]; [by split|]). lia.
Qed.

Lemma mask6_selects n : (n < 128)%nat -> selects n (mask6_bytes (Z.of_nat n) (replicate 16 0)).
Proof.
  intros Hn. apply selects_b_spec.
  assert (Hall : forallb (fun k => selects_b k (mask6_bytes (Z.of_nat k) (replicate 16 0))) (seq 0 128) = true) by by vm_compute.
  rewrite forallb_forall in Hall. apply Hall, in_seq. lia.
Qed.

Lemma mask4_selects `{Cherokee} n : (n <= 32)%nat -> selects n (mask4 (Z.of_nat n)).
Proof.
  intros Hn. apply selects_b_spec. unfold mask4, htonl. generalize host_big. intros big.
  assert (Hall : forallb (fun k => selects_b k (word_bytes big (if Z.of_nat k =? 0 then 0 else
    word big (rev (le_bytes 4 (u32 (Z.shiftl (-1) (32 - Z.of_nat k)))))))) (seq 0 33) = true) by (destruct big; by vm_compute).
  rewrite forallb_forall in Hall. apply (Hall n), in_seq. lia.
Qed.

Lemma selects_zero k : selects 0 (replicate k 0).
Proof.
  intros i _. unfold bit. destruct (replicate k 0 !! (i / 8)%nat) eqn:E; simpl; [|apply Z.testbit_0_l].
  apply lookup_replicate in E as [-> _]. apply Z.testbit_0_l.
Qed.

(** ** The parsers *)
Section ops.
Context `{CherokeeLaws}.

Definition parsed_ip (text : list Z) (x : ip_item) : ret_t * ip_item :=
  let t := text_type text in
  if negb have_ipv6 && bool_decide (t = ipv6) then (ret_error, set_type t x) else
  let r := to_bytes t text in
  let v := r.2 ++ drop (length r.2) (n_ip x) in
  (if have_inet_pton && have_ipv6 && bool_decide (t = ipv6) && v4mapped v then ret_error
   else if r.1 then ret_ok else ret_error, set_ip v (set_type t x)).

Definition parsed_mask (t : ip_type_t) (netmask m : list Z) : ret_t * list Z :=
  if strchr netmask 58 || strchr netmask 46 then
    let r := to_bytes t netmask in (if r.1 then ret_ok else ret_error, r.2 ++ drop (length r.2) m)
  else
  if (3 <? length netmask)%nat then (ret_error, m) else
  let num := strtol10 netmask in
  if (num <? 0) || (Z.of_nat (8 * addr_len t) <? num) then (ret_error, m) else
  (ret_ok, if num =? 128 then replicate 16 0 else if have_ipv6 && bool_decide (t = ipv6) then mask6_bytes num m
           else mask4 num ++ drop 4 m).

Definition fresh_item : ip_item := MkItem uninit_type (replicate sizeof_ip 0) None.
Definition fresh_net : ip_item := MkItem uninit_type (replicate sizeof_ip 0) (Some (replicate sizeof_ip 0)).

Definition parsed_net (text mask : list Z) : ret_t * ip_item :=
  let r := parsed_ip text fresh_net in
  if bool_decide (r.1 = ret_error) then r else
  let m := parsed_mask (n_type r.2) mask (replicate sizeof_ip 0) in
  (m.1, set_mask m.2 r.2).

Lemma to_bytes_ok t s : Forall byte (to_bytes t s).2 /\ (length (to_bytes t s).2 <= addr_len t)%nat.
Proof.
  unfold to_bytes. destruct have_inet_pton; [split; [apply pton_bytes|apply pton_length]|].
  split; [apply aton_bytes|]. pose proof (aton_length s). destruct t; simpl; lia.
Qed.

Lemma sizeof_ip_ge t : (t = ipv6 -> have_ipv6 = true) -> (addr_len t <= sizeof_ip)%nat.
Proof. intros Ht. unfold sizeof_ip. destruct t; simpl; [destruct have_ipv6; lia|]. rewrite Ht by done. lia. Qed.

Lemma ip_ok_over (b l : list Z) : ip_ok l -> Forall byte b -> (length b <= sizeof_ip)%nat -> ip_ok (b ++ drop (length b) l).
Proof.
  intros [Hl Hb] Hb' Hle. split; [rewrite length_app, length_drop; lia|]. apply Forall_app. split; [done|by apply Forall_drop].
Qed.

Lemma ip_ok_zero : ip_ok (replicate sizeof_ip 0).
Proof. split; [apply length_replicate|]. apply Forall_replicate. by split. Qed.

Lemma fresh_ok : item_ok fresh_item /\ item_ok fresh_net.
Proof. pose proof ip_ok_zero. unfold item_ok; cbn; tauto. Qed.

Lemma text_type_built t : negb have_ipv6 && bool_decide (t = ipv6) = false -> t = ipv6 -> have_ipv6 = true.
Proof. intros E ->. rewrite bool_decide_eq_true_2 in E by done. by destruct have_ipv6. Qed.

Lemma parsed_ip_item text x : item_ok x -> item_ok (parsed_ip text x).2.
Proof.
  intros [Hi Hm]. unfold parsed_ip. destruct (negb have_ipv6 && _) eqn:E; [by split|].
  cbn [snd]. split; [|done]. cbn. pose proof (to_bytes_ok (text_type text) text) as [Hb Hl].
  apply ip_ok_over; [done..|]. etrans; [done|]. by apply sizeof_ip_ge, text_type_built.
Qed.

Lemma parsed_ip_mask text x : n_mask (parsed_ip text x).2 = n_mask x.
Proof. unfold parsed_ip. by destruct (negb have_ipv6 && _). Qed.

Lemma parsed_ip_type text x : n_type (parsed_ip text x).2 = text_type text.
Proof. unfold parsed_ip. by destruct (negb have_ipv6 && _). Qed.

Lemma parsed_ip_ret text x : (parsed_ip text x).1 = ret_ok \/ (parsed_ip text x).1 = ret_error.
Proof. unfold parsed_ip. destruct (negb have_ipv6 && _); [by right|]. cbn. repeat case_match; tauto. Qed.

Lemma parsed_ip_built text x : (parsed_ip text x).1 <> ret_error -> text_type text = ipv6 -> have_ipv6 = true.
Proof. unfold parsed_ip. destruct (negb have_ipv6 && _) eqn:E; [done|]. intros _. by apply text_type_built. Qed.

Lemma parsed_mask_ret t netmask m : (parsed_mask t netmask m).1 = ret_ok \/ (parsed_mask t netmask m).1 = ret_error.
Proof. unfold parsed_mask. repeat case_match; cbn; tauto. Qed.

Lemma parsed_mask_ok t netmask m : ip_ok m -> (t = ipv6 -> have_ipv6 = true) -> ip_ok (parsed_mask t netmask m).2.
Proof.
  intros Hm Ht. pose proof (sizeof_ip_ge t Ht) as Hs. unfold parsed_mask. destruct (strchr netmask 58 || _).
  { cbn. pose proof (to_bytes_ok t netmask) as [Hb Hl]. apply ip_ok_over; [done..|lia]. }
  destruct (3 <? _)%nat; [done|]. destruct (_ || _) eqn:E; [done|]. apply orb_false_iff in E as [E1 E2]. cbn.
  destruct (Z.eqb_spec (strtol10 netmask) 128) as [E3|E3].
  { rewrite E3 in E2. destruct t; [done|]. pose proof ip_ok_zero as Hz. unfold sizeof_ip in Hz at 1. by rewrite Ht in Hz. }
  destruct (have_ipv6 && _) eqn:E4.
  - apply andb_true_iff in E4 as [Hv ->%bool_decide_eq_true]. destruct Hm as [Hl Hb]. unfold mask6_bytes.
    assert (Hn : 0 <= strtol10 netmask < 128) by (change (Z.of_nat (8 * addr_len ipv6)) with 128 in E2; lia). pose proof (bits_loop_byte _ Hn).
    assert (strtol10 netmask / 8 < 16) by (apply Z.div_lt_upper_bound; lia). assert (0 <= strtol10 netmask / 8) by (apply Z.div_pos; lia).
    unfold ip_ok, sizeof_ip in *. rewrite Hv in *. split.
    + rewrite length_app, length_replicate. cbn [length]. rewrite length_drop. lia.
    + apply Forall_app. split; [by apply Forall_replicate|]. constructor; [done|by apply Forall_drop].
  - pose proof (word_bytes_ok host_big (if strtol10 netmask =? 0 then 0 else htonl (u32 (Z.shiftl (-1) (32 - strtol10 netmask))))) as [Hl Hb].
    fold (mask4 (strtol10 netmask)) in Hl, Hb. rewrite <- Hl. apply ip_ok_over; [done..|].
    rewrite Hl. unfold sizeof_ip. destruct have_ipv6; lia.
Qed.

(** ** The state *)
Abbreviation put_node l x := (upd (S := access) (V := ip_item) l x).

Lemma assign_node s l x f : nodes s !! l = Some x -> assign (Some l) f s = Ok (tt, put_node l (f x) s).
Proof. intros Hx. unfold assign. erewrite M_bind_ok by (unfold deref; cbn; by rewrite Hx). done. Qed.

Lemma deref_node s l x : nodes s !! l = Some x -> deref (Some l) s = Ok ((l, x), s).
Proof. intros Hx. unfold deref. cbn. by rewrite Hx. Qed.

Lemma put_node_lookup l x s : nodes (put_node l x s) !! l = Some x.
Proof. cbn. apply lookup_insert_eq. Qed.

Lemma put_put l x y s : put_node l x (put_node l y s) = put_node l x s.
Proof. apply upd_upd. Qed.

Lemma into_ip_ok b l (s : access) : (length b <= length l)%nat -> into_ip b l s = Ok (b ++ drop (length b) l, s).
Proof. intros Hl. unfold into_ip. by rewrite (proj2 (Nat.leb_le _ _) Hl). Qed.

Lemma parse_ip_eq s n x text : nodes s !! n = Some x -> item_ok x ->
  parse_ip (Some text) n s = Ok ((parsed_ip text x).1, put_node n (parsed_ip text x).2 s).
Proof.
  intros Hx [[Hl Hb] _]. unfold parse_ip, parsed_ip. mstep ltac:(by apply assign_node).
  destruct (negb have_ipv6 && _) eqn:E; [done|].
  pose proof (to_bytes_ok (text_type text) text) as [_ Ht]. pose proof (sizeof_ip_ge _ (text_type_built _ E)).
  mstep ltac:(by apply deref_node, put_node_lookup).
  mstep ltac:(apply into_ip_ok; cbn; lia).
  mstep ltac:(by apply assign_node, put_node_lookup). rewrite put_put. cbn [n_ip set_type].
  by destruct (have_inet_pton && have_ipv6 && _ && _).
Qed.

Lemma on_mask_eq s n x m c m' : nodes s !! n = Some x -> n_mask x = Some m -> c m = Ok (tt, m') ->
  on_mask n c s = Ok (tt, put_node n (set_mask m' x) s).
Proof.
  intros Hx Hm Hc. unfold on_mask. mstep ltac:(by apply deref_node). unfold get_mask. rewrite Hm.
  mstep ltac:(done). unfold lift. rewrite Hc. mstep ltac:(done). by apply assign_node.
Qed.

Lemma parse_netmask_eq s n x m netmask :
  nodes s !! n = Some x -> n_mask x = Some m -> ip_ok m -> (n_type x = ipv6 -> have_ipv6 = true) ->
  parse_netmask netmask n s =
    Ok ((parsed_mask (n_type x) netmask m).1, put_node n (set_mask (parsed_mask (n_type x) netmask m).2 x) s).
Proof.
  intros Hx Hm Hok Ht. pose proof (sizeof_ip_ge _ Ht) as Hs. destruct Hok as [Hl Hb].
  assert (Hid : put_node n (set_mask m x) s = s).
  { destruct s, x. cbn in *. subst. unfold upd, set_mask. cbn. unfold set_nodes. cbn. f_equal. by apply insert_id. }
  unfold parse_netmask, parsed_mask. mstep ltac:(by apply deref_node). unfold get_mask. rewrite Hm.
  destruct (strchr netmask 58 || _).
  { pose proof (to_bytes_ok (n_type x) netmask) as [_ Hle]. mstep ltac:(done).
    mstep ltac:(apply into_ip_ok; lia). by mstep ltac:(by apply assign_node). }
  destruct (3 <? _)%nat; [cbn [orb fst snd]; by rewrite Hid|].
  destruct (Z.ltb_spec (strtol10 netmask) 0); [cbn [orb fst snd]; by rewrite Hid|]. cbn [orb].
  unfold sizeof_ip in *. destruct (n_type x) eqn:Et.
  - rewrite (bool_decide_eq_false_2 (ipv4 = ipv6)), andb_false_r, (bool_decide_eq_true_2 (ipv4 = ipv4)) by done. cbn [andb].
    change (Z.of_nat (8 * addr_len ipv4)) with 32. destruct (Z.ltb_spec 32 (strtol10 netmask)); [cbn [orb fst snd]; by rewrite Hid|].
    rewrite (proj2 (Z.ltb_ge 128 _)), (proj2 (Z.eqb_neq _ 128)), !andb_false_r by lia.
    mstep ltac:(done). pose proof (word_bytes_ok host_big (if strtol10 netmask =? 0 then 0 else htonl (u32 (Z.shiftl (-1) (32 - strtol10 netmask))))) as [Hl' _].
    fold (mask4 (strtol10 netmask)) in Hl'. mstep ltac:(apply into_ip_ok; simpl in Hs; lia).
    rewrite Hl'. by mstep ltac:(by apply assign_node).
  - rewrite (bool_decide_eq_false_2 (ipv6 = ipv4)), (bool_decide_eq_true_2 (ipv6 = ipv6)), Ht by done. cbn [andb].
    change (Z.of_nat (8 * addr_len ipv6)) with 128. destruct (Z.ltb_spec 128 (strtol10 netmask)); [cbn [orb fst snd]; by rewrite Hid|].
    rewrite Ht in Hl by done. cbn in Hl. destruct (Z.eqb_spec (strtol10 netmask) 128).
    + mstep ltac:(eapply on_mask_eq; [done|done|apply fill_loop_ok; lia]). rewrite (drop_ge m) by lia. done.
    + by mstep ltac:(eapply on_mask_eq; [done|done|apply mask6_ok; lia]).
Qed.

(** ** A node more *)
Definition grown (x : ip_item) (s s' : access) : Prop :=
  access_ok s' /\ exists l, nodes s !! l = None /\ nodes s' = <[l := x]> (nodes s).

Definition kept (s s' : access) : Prop :=
  nodes s' = nodes s /\ list_ips s' = list_ips s /\ list_subnets s' = list_subnets s.

Lemma kept_ok s s' : kept s s' -> access_ok s -> access_ok s'.
Proof. intros (En & Ei & Es) [? ? ? ?]. by split; rewrite ?En, ?Ei, ?Es. Qed.

Lemma kept_accepts s s' sock : kept s s' -> accepts s' sock <-> accepts s sock.
Proof. intros (En & _). unfold accepts. by rewrite En. Qed.

Lemma grown_accepts x s s' sock : grown x s s' -> accepts s' sock <-> accepts s sock \/ admits sock x.
Proof.
  intros (_ & l & Hl & E). unfold accepts. rewrite E. split.
  - intros [Hx|Hx]%map_Exists_insert_1; tauto.
  - intros [Hx|Hx]; [by apply map_Exists_insert_2_2|by apply map_Exists_insert_2_1].
Qed.

Lemma access_ok_grown s s' l x :
  access_ok s -> nodes s !! l = None -> item_ok x -> nodes s' = <[l := x]> (nodes s) ->
  n_mask x = None /\ list_ips s' ≡ₚ l :: list_ips s /\ list_subnets s' = list_subnets s \/
  is_Some (n_mask x) /\ list_ips s' = list_ips s /\ list_subnets s' ≡ₚ l :: list_subnets s ->
  access_ok s'.
Proof.
  intros Hok Hl Hx E HL.
  assert (HP : list_ips s' ++ list_subnets s' ≡ₚ l :: list_ips s ++ list_subnets s).
  { destruct HL as [(_ & -> & ->)|(_ & -> & ->)]; [done|]. by rewrite Permutation_middle. }
  assert (Hn : l ∉ list_ips s ++ list_subnets s) by (rewrite <- (ok_dom _ Hok), Hl; by intros [? ?]).
  split.
  - rewrite HP. constructor; [done|apply Hok].
  - intros k. rewrite HP, E, elem_of_cons, <- (ok_dom _ Hok). rewrite lookup_insert_is_Some'. naive_solver.
  - intros k n. rewrite E. intros [[<- <-]|[_ Hk]]%lookup_insert_Some; [done|by apply (ok_item _ Hok) in Hk].
  - intros k n. rewrite E. intros [[<- <-]|[Hne Hk]]%lookup_insert_Some.
    + destruct HL as [(-> & _ & ->)|(Hm & _ & ->)]; [|split; [intros _; set_solver|done]].
      split; [by intros [? ?]|]. intros Hin. exfalso. apply Hn. set_solver.
    + rewrite (ok_kind _ Hok k n Hk). destruct HL as [(_ & _ & ->)|(_ & _ & ->)]; [done|]. set_solver.
Qed.

Lemma access_ok_put s l x y : access_ok s -> nodes s !! l = Some x -> item_ok y ->
  is_Some (n_mask y) <-> is_Some (n_mask x) -> access_ok (put_node l y s).
Proof.
  intros Hok Hl Hy Hm. split; [apply Hok|..].
  - intros k. cbn. rewrite <- (ok_dom _ Hok), lookup_insert_is_Some'. split; [|tauto]. intros [<-|?]; [by rewrite Hl|done].
  - intros k n. cbn. intros [[<- <-]|[_ Hk]]%lookup_insert_Some; [done|by apply (ok_item _ Hok) in Hk].
  - intros k n. cbn. intros [[<- <-]|[_ Hk]]%lookup_insert_Some; [|by apply (ok_kind _ Hok)].
    rewrite Hm. by apply (ok_kind _ Hok).
Qed.

Lemma free_ok l s x : nodes s !! l = Some x -> free l s = Ok (tt, set_nodes (delete l (nodes s)) s).
Proof. intros Hl. unfold free. by mstep ltac:(by apply deref_node). Qed.

(** [malloc] fails, or gives a new node. *)
Lemma malloc_cases nd s :
  (exists m, mem s <> [] /\ malloc nd s = Ok (None, set_mem m s)) \/
  (exists l m, nodes s !! l = None /\ (mem s = [] -> m = []) /\ head (mem s) <> Some false /\
     malloc nd s = Ok (Some l, set_mem m (put_node l nd s))).
Proof.
  unfold malloc. rewrite M_bind_eq. cbn [getS]. destruct (mem s) as [|[] m] eqn:E.
  - right. exists (new_loc (nodes s)), []. by split_and!; [apply new_loc_fresh|..].
  - right. exists (new_loc (nodes s)), m. by split_and!; [apply new_loc_fresh|..].
  - left. by exists m.
Qed.

Lemma add_ip_spec s text : access_ok s -> exists r s',
  access_add_ip text s = Ok (r, s') /\ bufs s' = bufs s /\
  (mem s = [] -> mem s' = [] /\ r = (parsed_ip text fresh_item).1) /\
  (r = ret_ok /\ grown (parsed_ip text fresh_item).2 s s' \/ r = ret_error /\ kept s s').
Proof.
  intros Hok. unfold access_add_ip, new_ip. fold fresh_item.
  destruct (malloc_cases fresh_item s) as [(m & Hm & E)|(l & m & Hl & Hm & _ & E)].
  { rewrite (M_bind_ok _ _ _ _ _ E). exists ret_error, (set_mem m s). split_and!; try done. by right. }
  rewrite (M_bind_ok _ _ _ _ _ E). set (s1 := set_mem m (put_node l fresh_item s)).
  mstep ltac:(apply parse_ip_eq; [apply put_node_lookup|apply fresh_ok]).
  pose proof (proj1 fresh_ok) as Hf. pose proof (parsed_ip_item text _ Hf) as Hi. pose proof (parsed_ip_mask text fresh_item) as Hpm.
  set (x := (parsed_ip text fresh_item).2) in *.
  assert (En : nodes (put_node l x s1) = <[l := x]> (nodes s)) by (cbn; apply insert_insert_eq).
  destruct (parsed_ip_ret text fresh_item) as [Hr|Hr]; rewrite Hr.
  - rewrite bool_decide_eq_false_2 by done. eexists _, _. split; [done|]. split_and!; [done|by intros ->%Hm|]. left. split; [done|].
    split; [|by exists l]. eapply (access_ok_grown s); [done|done|exact Hi|exact En|]. left. split; [done|]. split; [apply list_add_perm|done].
  - rewrite bool_decide_eq_true_2 by done.
    mstep ltac:(unfold free_ip; mstep ltac:(apply (free_ok _ _ x); rewrite En; apply lookup_insert_eq); done).
    eexists _, _. split; [done|]. split_and!; [done|by intros ->%Hm|]. right. split; [done|].
    split_and!; [|done..]. cbn. by rewrite insert_insert_eq, delete_insert_id.
Qed.

(** The addresses of a name. *)
Definition resolved (l : list addrinfo) : list ip_item :=
  (fun a => (parsed_ip (ntop a).2 fresh_item).2) <$> l.

Lemma add_addresses_spec l s : access_ok s -> exists r s',
  add_addresses l s = Ok (r, s') /\ access_ok s' /\ bufs s' = bufs s /\ (mem s = [] -> mem s' = []) /\
  (forall sock, accepts s sock -> accepts s' sock) /\
  (r = ret_ok -> forall sock, accepts s' sock <-> accepts s sock \/ Exists (admits sock) (resolved l)).
Proof.
  revert s. induction l as [|a l IH]; intros s Hok; cbn [add_addresses].
  { exists ret_ok, s. split_and!; try done. intros _ sock. unfold resolved. cbn. rewrite Exists_nil. tauto. }
  destruct (decide ((ntop a).1 = ret_ok)) as [Hn|Hn].
  2:{ rewrite bool_decide_eq_false_2 by done. exists (ntop a).1, s. by split_and!. }
  rewrite bool_decide_eq_true_2 by done. cbn [negb].
  destruct (add_ip_spec s (ntop a).2 Hok) as (r & s1 & E & Hb & Hm & [[-> Hg]|[-> Hk]]);
    rewrite (M_bind_ok _ _ _ _ _ E); cbn [negb bool_decide].
  - destruct (IH s1) as (r & s' & E' & Hok' & Hb' & Hm' & Hmono & Hall); [apply Hg|].
    exists r, s'. split_and!; [done|done|congruence|intros Hs; by apply Hm', Hm| |].
    + intros sock Ha. apply Hmono. rewrite (grown_accepts _ _ _ _ Hg). by left.
    + intros Hr sock. rewrite (Hall Hr), (grown_accepts _ _ _ _ Hg). unfold resolved. rewrite fmap_cons, Exists_cons. tauto.
  - exists ret_error, s1. split_and!; [done|by eapply kept_ok|done|by intros [? _]%Hm| |done].
    intros sock. by rewrite (kept_accepts _ _ _ Hk).
Qed.

(** What [access_add_subnet] makes of a text, split at its first slash. *)
Definition net_of (subnet : list Z) (k : nat) : ret_t * ip_item :=
  parsed_net (take k subnet) (drop (S k) subnet).

Lemma net_of_item text mask : item_ok (parsed_net text mask).2 /\ is_Some (n_mask (parsed_net text mask).2).
Proof.
  pose proof (parsed_ip_item text _ (proj2 fresh_ok)) as Hi. pose proof (parsed_ip_mask text fresh_net) as Hm.
  unfold parsed_net. destruct (bool_decide _) eqn:E; [rewrite Hm; by split|].
  apply bool_decide_eq_false in E. split; [|done]. destruct Hi as [Hi _]. split; [done|]. cbn.
  apply parsed_mask_ok; [apply ip_ok_zero|]. rewrite parsed_ip_type. by apply (parsed_ip_built _ fresh_net).
Qed.

(** A network in the making: its node is in the list while it is parsed. *)
Lemma parse_net_eq s l text mask : nodes s !! l = Some fresh_net ->
  parse_ip (Some text) l s = Ok ((parsed_ip text fresh_net).1, put_node l (parsed_ip text fresh_net).2 s) /\
  ((parsed_ip text fresh_net).1 = ret_error /\ parsed_net text mask = parsed_ip text fresh_net \/
   (parsed_ip text fresh_net).1 = ret_ok /\
   parse_netmask mask l (put_node l (parsed_ip text fresh_net).2 s) =
     Ok ((parsed_net text mask).1, put_node l (parsed_net text mask).2 s)).
Proof.
  intros Hl. split; [by apply parse_ip_eq, fresh_ok|]. unfold parsed_net.
  destruct (parsed_ip_ret text fresh_net) as [Hr|Hr]; [right|left; split; [done|by rewrite bool_decide_eq_true_2]].
  split; [done|]. rewrite bool_decide_eq_false_2 by congruence. cbn [fst snd].
  erewrite parse_netmask_eq; [by rewrite put_put|apply put_node_lookup|by rewrite parsed_ip_mask|apply ip_ok_zero|].
  rewrite parsed_ip_type. apply (parsed_ip_built _ fresh_net). congruence.
Qed.

Lemma parsed_net_ret text mask : (parsed_net text mask).1 = ret_ok \/ (parsed_net text mask).1 = ret_error.
Proof. unfold parsed_net. case_match; [apply parsed_ip_ret|apply parsed_mask_ret]. Qed.

(** The buffer for the address of a network is left without memory, and there is
    memory for the node. *)
Definition null_text (subnet : list Z) (s : access) : Prop :=
  exists k, strpbrk subnet [47; 92] = Some k /\ (buffer_text (mem s) (take k subnet)).1 = None /\
    head (buffer_text (mem s) (take k subnet)).2 <> Some false.

(** With memory enough this is a network without address. *)
Lemma null_text_nil subnet s k : null_text subnet s -> mem s = [] -> strpbrk subnet [47; 92] = Some k -> take k subnet = [].
Proof.
  intros (k' & Hk' & Hn & _) Hm Hk. rewrite Hm in Hn. rewrite Hk in Hk'. injection Hk' as <-.
  destruct (take k subnet) as [|c text] eqn:E; [done|]. by rewrite buffer_text_ok in Hn.
Qed.

Lemma buffer_add_cases s text : exists b s1, buffer_add text s = Ok (b, s1) /\ kept s s1 /\
  b = (buffer_text (mem s) text).1 /\ mem s1 = (buffer_text (mem s) text).2 /\
  (is_Some b -> b = Some text /\ bufs s1 = S (bufs s)) /\
  (mem s = [] -> mem s1 = [] /\ (b = None -> text = [])).
Proof.
  unfold buffer_add. rewrite M_bind_eq. cbn [getS]. destruct (buffer_text (mem s) text) as [b m] eqn:E.
  eexists b, _. split; [done|]. split_and!; try done.
  - intros [t ->]. apply buffer_text_some in E. by subst.
  - intros Hs. rewrite Hs in E. cbn. destruct text as [|c text].
    + rewrite buffer_text_nil in E. by injection E as <- <-.
    + rewrite buffer_text_ok in E by done. by injection E as <- <-.
Qed.

Lemma add_subnet_spec s subnet k : access_ok s -> strpbrk subnet [47; 92] = Some k ->
  wp (fun e => e = NullDeref /\ null_text subnet s) (access_add_subnet subnet) (fun r s' =>
    access_ok s' /\ (mem s = [] -> mem s' = [] /\ bufs s' = bufs s) /\
    (mem s <> [] /\ r = ret_error /\ kept s s' \/ r = (net_of subnet k).1 /\ grown (net_of subnet k).2 s s')) s.
Proof.
  intros Hok Hk. unfold access_add_subnet. rewrite Hk. set (text := take k subnet). set (mask := drop (S k) subnet).
  destruct (buffer_add_cases s text) as (b & s1 & E1 & Ks & Eb & Em & Hb & Hm1).
  eapply wp_eq_bind; [exact E1|]. unfold new_subnet. fold fresh_net.
  destruct (malloc_cases fresh_net s1) as [(m & Hm & E)|(l & m & Hl & Hm & Hh & E)];
    (eapply wp_eq_bind; [exact E|]); cbn [wp].
  { assert (Hs : mem s <> []) by (intros Hs; by apply Hm1 in Hs as [Hs _]).
    assert (Km : kept s (set_mem m s1)) by exact Ks.
    split_and!; [by eapply kept_ok|done|by left]. }
  set (s2 := set_mem m (put_node l fresh_net s1)). eapply wp_eq_bind; [done|]. cbv beta.
  set (s3 := set_subnets (list_add l (list_subnets s2)) s2).
  assert (En : nodes s !! l = None) by (by rewrite <- (proj1 Ks)).
  assert (Hgrow : forall x s', item_ok x /\ is_Some (n_mask x) -> nodes s' = nodes (put_node l x s3) ->
    list_ips s' = list_ips s3 -> list_subnets s' = list_subnets s3 -> grown x s s').
  { intros x s' [Hx Hxm] E1' E2' E3'. assert (Es : nodes s' = <[l := x]> (nodes s)).
    { rewrite E1'. subst s3 s2. cbn. by rewrite insert_insert_eq, (proj1 Ks). }
    split; [|by exists l]. eapply (access_ok_grown s); [done..|]. right. destruct Ks as (_ & Ki & Kn).
    split_and!; [done|by rewrite E2'|]. rewrite E3'. subst s3 s2. cbn. rewrite Kn. apply list_add_perm. }
  destruct b as [text'|]; [|cbn; unfold wp; cbn; split; [done|]; exists k; fold text; by rewrite <- Eb, <- Em].
  destruct Hb as [-> Hb]; [done|].
  assert (Hend : forall r x s', r = (parsed_net text mask).1 -> x = (parsed_net text mask).2 ->
    s' = set_bufs (pred (bufs s1)) (put_node l x s3) ->
    access_ok s' /\ (mem s = [] -> mem s' = [] /\ bufs s' = bufs s) /\
    (mem s <> [] /\ r = ret_error /\ kept s s' \/ r = (net_of subnet k).1 /\ grown (net_of subnet k).2 s s')).
  { intros r x s' -> -> ->. rewrite Hb. set (s' := set_bufs _ _).
    assert (Hg : grown (net_of subnet k).2 s s') by (apply Hgrow; [apply net_of_item|done..]).
    split_and!; [apply Hg|intros Hs; split; [by apply Hm, Hm1|done]|by right]. }
  destruct (parse_net_eq s3 l text mask) as [Ep [[Hr Hn]|[Hr Emask]]]; [apply put_node_lookup| |].
  - eapply wp_eq_bind; [exact Ep|]. rewrite Hr, bool_decide_eq_true_2 by done.
    eapply wp_eq_bind; [done|]. apply wp_ret. by apply (Hend _ (parsed_ip text fresh_net).2); rewrite ?Hn.
  - eapply wp_eq_bind; [exact Ep|]. rewrite Hr, bool_decide_eq_false_2 by done. eapply wp_eq_bind; [exact Emask|].
    destruct (parsed_net_ret text mask) as [Hn|Hn]; rewrite Hn;
      [rewrite bool_decide_eq_false_2 by done|rewrite bool_decide_eq_true_2 by done];
      (eapply wp_eq_bind; [done|]; apply wp_ret; by apply (Hend _ (parsed_net text mask).2)).
Qed.
End ops.
