(* ===== verification/AccessTheorems.v ===== *)
(** * Cherokee: what an access list promises

    The answer of [ip_match], what a text of the configuration adds to a list,
    what a text with an error leaves behind, and the memory of a session.
    [Module Server] is a small server for the examples. *)
From S2P Require Import Prelude Heap NetBits Access AccessProofs AccessOps.
Open Scope Z_scope.

(** ** Texts *)
Lemma strpbrk_lt s set k : strpbrk s set = Some k -> (k < length s)%nat.
Proof.
  revert k. induction s as [|c s IH]; intros k; cbn; [done|]. destruct (decide _); [intros [= <-]; lia|].
  destruct (strpbrk s set) as [j|]; [|done]. intros [= <-]. specialize (IH _ eq_refl). lia.
Qed.

Lemma strpbrk_none s set : (forall c, c ∈ s -> c ∉ set) -> strpbrk s set = None.
Proof.
  induction s as [|c s IH]; intros Hs; cbn; [done|]. rewrite decide_False by (apply Hs; set_solver).
  by rewrite IH by (intros; apply Hs; set_solver).
Qed.

Lemma strpbrk_app s c r set : (forall c, c ∈ s -> c ∉ set) -> c ∈ set -> strpbrk (s ++ c :: r) set = Some (length s).
Proof.
  intros Hs Hc. induction s as [|x s IH]; cbn; [by rewrite decide_True|].
  rewrite decide_False by (apply Hs; set_solver). by rewrite IH by (intros; apply Hs; set_solver).
Qed.

Lemma decimal_digits n c : (n <= 128)%nat -> c ∈ decimal n -> 48 <= c <= 57.
Proof.
  intros Hn Hc. assert (Hall : forallb (fun k => forallb isdigit (decimal k)) (seq 0 129) = true) by by vm_compute.
  rewrite forallb_forall in Hall. specialize (Hall n ltac:(apply in_seq; lia)).
  rewrite forallb_forall in Hall. apply list_elem_of_In, Hall in Hc. unfold isdigit in Hc. lia.
Qed.

Lemma decimal_length n : (length (decimal n) <= 3)%nat.
Proof. unfold decimal. by repeat case_match; cbn; lia. Qed.

Lemma strchr_iff s c : strchr s c = true <-> c ∈ s.
Proof. apply bool_decide_eq_true. Qed.

Lemma strchr_false s c : c ∉ s -> strchr s c = false.
Proof. apply bool_decide_eq_false_2. Qed.

Lemma drop_S_app (l r : list Z) x : drop (S (length l)) (l ++ x :: r) = r.
Proof. by rewrite <- Nat.add_1_r, <- drop_drop, drop_app_length. Qed.

Section theorems.
Context `{CherokeeLaws}.

#[export] Instance in_network_dec t l n sock : Decision (in_network t l n sock).
Proof. unfold in_network. destruct (remote sock t); apply _. Defined.

(** [text] is the address [l] of type [t]. *)
Record address_text (t : ip_type_t) (text l : list Z) : Prop := {
  at_type : text_type text = t;
  at_slash c : c ∈ text -> c ∉ [47; 92];
  at_bytes : to_bytes t text = (true, l);
  at_ipv6 : t = ipv6 -> have_ipv6 = true /\ have_inet_pton = true /\ v4mapped l = false
}.

(** [text] is the network of the addresses with the first [n] bits of [l]. *)
Inductive network_text (t : ip_type_t) (l : list Z) : nat -> list Z -> Prop :=
  | nt_address text :
      address_text t text l -> (58 ∈ text \/ find_letter text = false) ->
      network_text t l (8 * addr_len t) text
  | nt_length text n :
      address_text t text l -> text <> [] -> (n <= 8 * addr_len t)%nat ->
      ~ (t = ipv6 /\ n = 32%nat /\ 46 ∈ text) ->
      network_text t l n (text ++ 47 :: decimal n).

Lemma address_bytes t text l : address_text t text l -> length l = addr_len t /\ Forall byte l.
Proof.
  intros Ht. pose proof (at_bytes _ _ _ Ht) as Hb. split.
  - unfold to_bytes in Hb. destruct have_inet_pton eqn:Ep.
    + pose proof (pton_ok t text) as Ho. rewrite Hb in Ho. by apply Ho.
    + pose proof (aton_ok text) as Ho. rewrite Hb in Ho. destruct t; [by apply Ho|].
      destruct (at_ipv6 _ _ _ Ht) as (_ & ? & _); congruence.
  - pose proof (proj1 (to_bytes_ok t text)) as Hf. by rewrite Hb in Hf.
Qed.

Lemma parsed_address t text l x : address_text t text l -> ip_ok (n_ip x) ->
  (parsed_ip text x).1 = ret_ok /\ n_type (parsed_ip text x).2 = t /\ addr t (n_ip (parsed_ip text x).2) = l.
Proof.
  intros Ht Hx. pose proof (address_bytes _ _ _ Ht) as [Hl _]. pose proof (at_type _ _ _ Ht) as Et.
  split; [|split; [by rewrite parsed_ip_type|]]; unfold parsed_ip; rewrite Et, (at_bytes _ _ _ Ht);
    (destruct t; [rewrite (bool_decide_eq_false_2 (ipv4 = ipv6)), !andb_false_r by done|
      destruct (at_ipv6 _ _ _ Ht) as (-> & -> & Hv); [done|]; rewrite (bool_decide_eq_true_2 (ipv6 = ipv6)) by done]);
    cbn [negb andb fst snd n_ip set_ip]; try done.
  - assert (E : v4mapped (l ++ drop (length l) (n_ip x)) = v4mapped l).
    { unfold v4mapped. apply bool_decide_ext. rewrite take_app_le; [done|]. rewrite Hl. simpl. lia. }
    by rewrite E, Hv.
  - unfold addr. by rewrite take_app_length'.
  - unfold addr. by rewrite take_app_length'.
Qed.

Lemma remote_bytes sock t a : sock_ok sock -> remote sock t = Some a -> length a = addr_len t /\ Forall byte a.
Proof.
  destruct sock as [b|b|], t; cbn; try done.
  - by intros [? ?] [= <-].
  - intros (? & ? & _). case_match; [|done]. intros [= <-]. rewrite length_drop. split; [lia|by apply Forall_drop].
  - by intros (? & ? & _) [= <-].
Qed.

Lemma admits_address sock t l x : sock_ok sock -> n_type x = t -> n_mask x = None -> addr t (n_ip x) = l ->
  length l = addr_len t -> Forall byte l -> admits sock x <-> in_network t l (8 * addr_len t) sock.
Proof.
  intros Hs Ht Hm Ha Hl Hb. unfold admits, in_network. rewrite Ht, Hm, Ha.
  destruct (remote sock t) as [a|] eqn:Er; [|done]. apply remote_bytes in Er as [La Ba]; [|done].
  rewrite <- La. by rewrite same_prefix_all by congruence.
Qed.

Lemma admits_masked sock t l x m n : n_type x = t -> n_mask x = Some m -> addr t (n_ip x) = l ->
  selects n (addr t m) -> (n <= 8 * length (addr t m))%nat -> admits sock x <-> in_network t l n sock.
Proof.
  intros Ht Hm Ha Hs Hn. unfold admits, in_network. rewrite Ht, Hm, Ha.
  destruct (remote sock t) as [a|]; [|done]. by apply same_masked_selects.
Qed.

(** The mask of a length. *)
Lemma parsed_length t n : (n <= 8 * addr_len t)%nat -> ~ (t = ipv6 /\ n = 128%nat) -> (t = ipv6 -> have_ipv6 = true) ->
  let r := parsed_mask t (decimal n) (replicate sizeof_ip 0) in
  r.1 = ret_ok /\ selects n (addr t r.2) /\ length (addr t r.2) = addr_len t.
Proof.
  intros Hn Hx Hv. assert (Hn' : (n <= 128)%nat) by (destruct t; simpl in Hn; lia).
  pose proof (decimal_length n) as Hl. pose proof (strtol10_decimal n Hn') as Hd.
  assert (H58 : strchr (decimal n) 58 = false) by (apply strchr_false; intros Hc%decimal_digits; lia).
  assert (H46 : strchr (decimal n) 46 = false) by (apply strchr_false; intros Hc%decimal_digits; lia).
  unfold parsed_mask. rewrite H58, H46, Hd. cbn [orb]. rewrite (proj2 (Nat.ltb_ge _ _)) by lia.
  rewrite (proj2 (Z.ltb_ge _ 0)), (proj2 (Z.ltb_ge _ _)) by lia. cbn [orb fst snd].
  rewrite (proj2 (Z.eqb_neq _ 128)) by (destruct t; simpl in Hn; intuition lia).
  split; [done|]. destruct t.
  - rewrite (bool_decide_eq_false_2 (ipv4 = ipv6)), andb_false_r by done.
    pose proof (word_bytes_ok host_big (if Z.of_nat n =? 0 then 0 else htonl (u32 (Z.shiftl (-1) (32 - Z.of_nat n))))) as [Hw _].
    fold (mask4 (Z.of_nat n)) in Hw. unfold addr. cbn [addr_len]. rewrite take_app_length' by done.
    split; [|done]. apply mask4_selects. simpl in Hn. lia.
  - rewrite Hv, (bool_decide_eq_true_2 (ipv6 = ipv6)) by done. cbn [andb]. unfold sizeof_ip. rewrite Hv by done.
    assert (H16 : (n < 128)%nat) by (simpl in Hn; destruct (decide (n = 128%nat)); [tauto|lia]).
    assert (L : length (mask6_bytes (Z.of_nat n) (replicate 16 0)) = 16%nat).
    { unfold mask6_bytes. rewrite length_app, length_replicate. cbn [length]. rewrite length_drop, length_replicate.
      assert (Z.of_nat n / 8 < 16) by (apply Z.div_lt_upper_bound; lia). assert (0 <= Z.of_nat n / 8) by (apply Z.div_pos; lia). lia. }
    unfold addr. cbn [addr_len]. rewrite take_ge by lia. split; [by apply mask6_selects|done].
Qed.

Lemma add_address_network t l text s : address_text t text l -> access_ok s -> mem s = [] ->
  exists s', access_add_ip text s = Ok (ret_ok, s') /\ access_ok s' /\ mem s' = [] /\ bufs s' = bufs s /\
    forall sock, sock_ok sock -> accepts s' sock <-> accepts s sock \/ in_network t l (8 * addr_len t) sock.
Proof.
  intros Ht Hok Hm. destruct (parsed_address t text l fresh_item Ht ip_ok_zero) as (E1 & E2 & E3).
  destruct (address_bytes _ _ _ Ht) as [Hl Hb].
  destruct (add_ip_spec s text Hok) as (r & s' & E & Hbu & Hmem & Hr). destruct (Hmem Hm) as [Hm' ->]. rewrite E1 in Hr.
  destruct Hr as [[_ Hg]|[? _]]; [|done]. exists s'. rewrite E, E1. split_and!; [done|apply Hg|done|done|].
  intros sock Hs. rewrite (grown_accepts _ _ _ _ Hg). f_equiv. apply admits_address; try done. by rewrite parsed_ip_mask.
Qed.

Lemma add_subnet_network t l text n s : address_text t text l -> text <> [] -> (n <= 8 * addr_len t)%nat ->
  ~ (t = ipv6 /\ n = 128%nat) -> access_ok s -> mem s = [] ->
  exists s', access_add_subnet (text ++ 47 :: decimal n) s = Ok (ret_ok, s') /\ access_ok s' /\ mem s' = [] /\ bufs s' = bufs s /\
    forall sock, accepts s' sock <-> accepts s sock \/ in_network t l n sock.
Proof.
  intros Ht Hne Hn Hx Hok Hm. destruct (parsed_address t text l fresh_net Ht ip_ok_zero) as (E1 & E2 & E3).
  assert (Hk : strpbrk (text ++ 47 :: decimal n) [47; 92] = Some (length text)) by (apply strpbrk_app; [apply Ht|set_solver]).
  destruct (parsed_length t n Hn Hx) as (F1 & F2 & F3); [intros ->; by destruct (at_ipv6 _ _ _ Ht)|].
  pose proof (add_subnet_spec s _ _ Hok Hk) as Hw. unfold wp in Hw.
  assert (En : net_of (text ++ 47 :: decimal n) (length text) =
    (ret_ok, set_mask (parsed_mask t (decimal n) (replicate sizeof_ip 0)).2 (parsed_ip text fresh_net).2)).
  { unfold net_of, parsed_net. rewrite take_app_length, drop_S_app, E1, bool_decide_eq_false_2, E2 by done. by rewrite <- F1. }
  destruct (access_add_subnet _ s) as [[r s']|e|]; [|exfalso|done].
  - destruct Hw as (Hok' & Hmem & [(? & _)|[-> Hg]]); [done|]. destruct (Hmem Hm) as [Hm' Hb]. rewrite En in Hg |- *.
    exists s'. split_and!; try done. intros sock. rewrite (grown_accepts _ _ _ _ Hg). f_equiv.
    apply (admits_masked _ _ _ _ (parsed_mask t (decimal n) (replicate sizeof_ip 0)).2); try done. by rewrite F3.
  - destruct Hw as [_ Hw]. eapply null_text_nil in Hw; [|done|exact Hk]. by rewrite take_app_length in Hw.
Qed.

(** C18. A text that spells a network (an address alone, or an address and a length) is added:
    after it, [ip_match] answers [ret_ok] exactly to the sockets that it accepted before and those
    whose address has the first [n] bits of the network.  [network_text] leaves out an IPv6 network
    with a dotted tail and the length 32, which is taken for an address ([dotted_tail_is_no_network]),
    and the allocations of the addition do not fail. *)
Theorem access_add_network t l n text s : network_text t l n text -> access_ok s -> mem s = [] ->
  exists s', access_add text s = Ok (ret_ok, s') /\ access_ok s' /\ mem s' = [] /\ bufs s' = bufs s /\
    forall sock, sock_ok sock -> ip_match sock s' =
      Ok (if decide (accepts s sock \/ in_network t l n sock) then ret_ok else ret_not_found, s').
Proof.
  intros Ht Hok Hm.
  assert (Hmain : exists s', access_add text s = Ok (ret_ok, s') /\ access_ok s' /\ mem s' = [] /\ bufs s' = bufs s /\
    forall sock, sock_ok sock -> accepts s' sock <-> accepts s sock \/ in_network t l n sock).
  { destruct Ht as [text Ht Hdom|text n Ht Hne Hn Hx]; unfold access_add.
    - rewrite strpbrk_none by apply Ht.
      assert (E : (if strchr text 58 then false else find_letter text) = false).
      { destruct (strchr text 58) eqn:E; [done|]. destruct Hdom as [Hc|Hc]; [|done]. apply strchr_iff in Hc. congruence. }
      rewrite E. by apply add_address_network.
    - assert (Hn' : (n <= 128)%nat) by (destruct t; simpl in Hn; lia).
      rewrite (strpbrk_app text 47) by (apply Ht || set_solver).
      rewrite drop_S_app, take_app_length.
      rewrite atoi_decimal by done.
      assert (Hd : forall c, 47 <> c -> (c < 48 \/ 57 < c) -> strchr (text ++ 47 :: decimal n) c = strchr text c).
      { intros c H47 Hc. apply bool_decide_ext. rewrite elem_of_app, elem_of_cons. split; [|tauto].
        intros [?|[?|Hdc%decimal_digits]]; [done|lia|lia|done]. }
      rewrite !Hd by lia. destruct (strchr text 58 && _) eqn:E1.
      { apply andb_true_iff in E1 as [E1 E2%Z.eqb_eq]. assert (n = 128%nat) as -> by lia.
        assert (t = ipv6) as -> by (rewrite <- (at_type _ _ _ Ht); unfold text_type; by rewrite E1).
        by apply add_address_network. }
      destruct (strchr text 46 && _) eqn:E2.
      { apply andb_true_iff in E2 as [E2%strchr_iff E3%Z.eqb_eq]. assert (n = 32%nat) as -> by lia.
        assert (t = ipv4) as -> by (destruct t; [done|exfalso; by apply Hx]).
        by apply add_address_network. }
      destruct (add_subnet_network t l text n s) as (s' & ? & ? & ? & ? & ?); try done; [|by eauto 10].
      intros [-> ->]. rewrite andb_true_r in E1. apply bool_decide_eq_false in E1. apply E1.
      apply pton_colon. destruct (at_ipv6 _ _ _ Ht) as (_ & Hp & _); [done|].
      pose proof (at_bytes _ _ _ Ht) as Hb. unfold to_bytes in Hb. rewrite Hp in Hb. by rewrite Hb. }
  destruct Hmain as (s' & E & Hok' & Hm' & Hb' & Hacc). exists s'. split_and!; try done.
  intros sock Hs. rewrite ip_match_spec by done. specialize (Hacc sock Hs).
  destruct (decide (accepts s' sock)), (decide (accepts s sock \/ in_network t l n sock)); tauto.
Qed.

(** C19. On a list of any addresses and networks, [ip_match] returns, changes nothing, and answers
    [ret_ok] exactly when a node admits the socket: its address, or its bits under the mask, are those
    of the node; an IPv4 node also admits the IPv4 address that an IPv6 address maps. *)
Theorem ip_match_decides s sock : access_ok s -> sock_ok sock ->
  exists r, ip_match sock s = Ok (r, s) /\
    (r = ret_ok <-> exists l n, nodes s !! l = Some n /\ admits sock n) /\ (r = ret_ok \/ r = ret_not_found).
Proof.
  intros Hok Hs. eexists. split; [by apply ip_match_spec|].
  destruct (decide (accepts s sock)) as [Ha|Ha]; (split; [|tauto]); split; try done.
Qed.

(** ** A network that is refused *)
Lemma refused_net text mask : let t := text_type text in
  (to_bytes t text).1 = false \/ (58 ∉ mask) /\ (46 ∉ mask) /\ Z.of_nat (8 * addr_len t) < strtol10 mask ->
  (parsed_net text mask).1 = ret_error /\ n_type (parsed_net text mask).2 = t /\
  n_mask (parsed_net text mask).2 = Some (replicate sizeof_ip 0).
Proof.
  intros t Hr. pose proof (parsed_ip_mask text fresh_net) as Em. pose proof (parsed_ip_type text fresh_net) as Et.
  unfold parsed_net. destruct (bool_decide_reflect ((parsed_ip text fresh_net).1 = ret_error)) as [E|E]; [done|].
  destruct Hr as [Hr|(H58 & H46 & Hr)].
  { exfalso. apply E. unfold parsed_ip. fold t. rewrite Hr. by repeat case_match. }
  rewrite Et. fold t. assert (E' : parsed_mask t mask (replicate sizeof_ip 0) = (ret_error, replicate sizeof_ip 0)).
  { unfold parsed_mask. rewrite !strchr_false by done. cbn [orb]. destruct (3 <? _)%nat; [done|].
    by rewrite (proj2 (Z.ltb_lt _ (strtol10 mask)) Hr), orb_true_r. }
  rewrite E'. cbn. by rewrite Et.
Qed.

Lemma take_nil_inv {X} (l : list X) k : (k < length l)%nat -> take k l = [] -> k = O.
Proof. destruct l, k; simpl; done || lia. Qed.

(** C35. A network whose address does not parse, or whose length is more than the address has, is
    refused with [ret_error]; but its node is in the list already, with a mask without bits, so that
    from then on every address of its family is let in. *)
Theorem refused_network_admits_all text k m s :
  access_ok s -> mem s = [] -> strpbrk text [47; 92] = Some (S k) ->
  cherokee_atoi (drop (S (S k)) text) = Some m -> (58 ∈ text -> m <> 128) -> (46 ∈ text -> m <> 32) ->
  let t := text_type (take (S k) text) in
  (to_bytes t (take (S k) text)).1 = false \/
    (58 ∉ drop (S (S k)) text) /\ (46 ∉ drop (S (S k)) text) /\ Z.of_nat (8 * addr_len t) < strtol10 (drop (S (S k)) text) ->
  exists s', access_add text s = Ok (ret_error, s') /\ access_ok s' /\
    forall sock, sock_ok sock -> is_Some (remote sock t) -> ip_match sock s' = Ok (ret_ok, s').
Proof.
  intros Hok Hm Hk Ha H58 H46 t Hr. destruct (refused_net _ _ Hr) as (E1 & E2 & E3).
  assert (E : access_add text s = access_add_subnet text s).
  { unfold access_add. rewrite Hk, Ha. unfold strchr. repeat case_bool_decide; cbn [andb]; try done;
      repeat match goal with |- context [Z.eqb ?a ?b] => destruct (Z.eqb_spec a b); [tauto|] end; done. }
  rewrite E. pose proof (add_subnet_spec s _ _ Hok Hk) as Hw. unfold wp in Hw.
  destruct (access_add_subnet text s) as [[r s']|e|]; [|exfalso|done].
  - destruct Hw as (Hok' & _ & [(? & _)|[-> Hg]]); [done|]. unfold net_of in *. rewrite E1.
    exists s'. split; [done|]. split; [done|]. intros sock Hs [a Hrem]. rewrite ip_match_spec by done.
    rewrite decide_True; [done|]. rewrite (grown_accepts _ _ _ _ Hg). right. unfold admits. rewrite E2, E3.
    fold t. rewrite Hrem. unfold addr. rewrite take_replicate. intros i Hi Hb. by rewrite selects_zero in Hb.
  - destruct Hw as [_ Hw]. eapply null_text_nil in Hw; [|done..]. apply take_nil_inv in Hw; [done|by eapply strpbrk_lt].
Qed.

(** An IPv6 network with a dotted tail and the length 32 is taken for a single address. *)
Lemma dotted_tail_is_no_network text s : (forall c, c ∈ text -> c ∉ [47; 92]) -> 46 ∈ text ->
  access_add (text ++ 47 :: decimal 32) s = access_add_ip text s.
Proof.
  intros Hs Hd. unfold access_add. rewrite (strpbrk_app text 47) by (done || set_solver).
  rewrite drop_S_app, take_app_length, atoi_decimal by lia.
  assert (Hd' : strchr (text ++ 47 :: decimal 32) 46 = true) by (apply strchr_iff; set_solver).
  rewrite Hd'. by destruct (strchr _ 58).
Qed.

(** ** The memory of a session *)
Lemma access_add_wp s text : access_ok s ->
  wp (fun e => e = NullDeref /\ null_text text s) (access_add text) (fun r s' =>
    access_ok s' /\ (mem s = [] -> mem s' = [] /\ bufs s' = bufs s) /\ (forall sock, accepts s sock -> accepts s' sock)) s.
Proof.
  intros Hok.
  assert (Hip : forall text EP, wp EP (access_add_ip text) (fun r s' =>
    access_ok s' /\ (mem s = [] -> mem s' = [] /\ bufs s' = bufs s) /\ (forall sock, accepts s sock -> accepts s' sock)) s).
  { intros text' EP. destruct (add_ip_spec s text' Hok) as (r & s' & E & Hb & Hm & Hr). eapply wp_eq; [exact E|].
    split_and!; [destruct Hr as [[_ [? _]]|[_ ?]]; [done|by eapply kept_ok]|intros Hs; split; [by apply Hm|done]|].
    intros sock Ha. destruct Hr as [[_ Hg]|[_ Hk]]; [rewrite (grown_accepts _ _ _ _ Hg); by left|by rewrite (kept_accepts _ _ _ Hk)]. }
  unfold access_add. destruct (strpbrk text [47; 92]) as [k|] eqn:Hk.
  - destruct (cherokee_atoi _); [|by apply wp_ret]. destruct (_ && _); [apply Hip|]. destruct (_ && _); [apply Hip|].
    pose proof (add_subnet_spec s _ _ Hok Hk) as Hw. unfold wp in *.
    destruct (access_add_subnet text s) as [[r s']|e|]; [|done..].
    + destruct Hw as (Hok' & Hm & Hr). split_and!; [done|done|]. intros sock Ha.
      destruct Hr as [(_ & _ & Hkp)|[_ Hg]]; [by rewrite (kept_accepts _ _ _ Hkp)|rewrite (grown_accepts _ _ _ _ Hg); by left].
  - destruct (if strchr text 58 then false else find_letter text); [|apply Hip]. unfold access_add_domain.
    destruct (negb _); [by apply wp_ret|]. destruct (negb _); [by apply wp_ret|].
    destruct (add_addresses_spec (resolv_addrinfo text).2 s Hok) as (r & s' & E & Hok' & Hb & Hm & Hmono & _).
    eapply wp_eq; [exact E|]. split_and!; [done|intros Hs; by split; [apply Hm|]|done].
Qed.

Inductive call := Add (text : list Z) | Match (sock : socket).

Fixpoint run (l : list call) : M access cfault (list ret_t) :=
  match l with
  | [] => mret []
  | c :: l' =>
      r ← match c with Add text => access_add text | Match sock => ip_match sock end;
      rs ← run l';
      mret (r :: rs)
  end.

Definition session (l : list call) : M access cfault (list ret_t) :=
  access_init ;; rs ← run l; access_mrproper ;; mret rs.

(** The session stops at an addition: its text is a network for whose address
    there is no buffer. *)
Definition stops (l : list call) (s : access) : Prop :=
  exists l1 text l2 rs s1, l = l1 ++ Add text :: l2 /\ run l1 s = Ok (rs, s1) /\ null_text text s1 /\ (mem s = [] -> mem s1 = []).

Lemma run_wp l s : access_ok s -> (forall sock, Match sock ∈ l -> sock_ok sock) ->
  wp (fun e => e = NullDeref /\ stops l s) (run l)
    (fun rs s' => access_ok s' /\ length rs = length l /\ (mem s = [] -> mem s' = [] /\ bufs s' = bufs s)) s.
Proof.
  revert s. induction l as [|c l IH]; intros s Hok Hs; cbn [run]; [by apply wp_ret|].
  assert (Hc : wp (fun e => e = NullDeref /\ exists text, c = Add text /\ null_text text s)
    (match c with Add text => access_add text | Match sock => ip_match sock end)
    (fun r s' => access_ok s' /\ (mem s = [] -> mem s' = [] /\ bufs s' = bufs s)) s).
  { destruct c as [text|sock].
    - pose proof (access_add_wp s text Hok) as Hw. unfold wp in *. destruct (access_add text s) as [[r s']|e|]; [|destruct Hw as [-> Hw]|done].
      + destruct Hw as (? & ? & _). by split.
      + split; [done|]. by exists text.
    - eapply wp_eq; [apply ip_match_spec; [done|apply Hs; set_solver]|done]. }
  apply wp_bind. unfold wp in *. destruct (_ s) as [[r s1]|e|] eqn:Ec; [|destruct Hc as [-> (text & -> & Hn)]|done].
  2:{ split; [done|]. by exists [], text, l, [], s. }
  destruct Hc as [Hok1 Hm1].
  specialize (IH s1 Hok1 ltac:(intros; apply Hs; set_solver)). rewrite M_bind_eq.
  destruct (run l s1) as [[rs s2]|e|]; [|destruct IH as [-> IH]|done].
  - destruct IH as (Hok2 & Hl & Hm2). cbn. split_and!; [done|lia|]. intros Hm. destruct (Hm1 Hm) as [Hm' <-]. by apply Hm2.
  - split; [done|]. destruct IH as (l1 & text & l2 & rs & s2 & -> & Er & Hn & Hm2).
    exists (c :: l1), text, l2, (r :: rs), s2. split_and!; [done| |done|intros Hm; by apply Hm2, Hm1].
    cbn [run]. rewrite (M_bind_ok _ _ _ _ _ Ec). by rewrite (M_bind_ok _ _ _ _ _ Er).
Qed.

Lemma free_list_ok put get l s :
  (forall x y, nodes (put x y) = nodes y) -> (forall x y, get (put x y) = x) -> (forall x y, get (set_nodes x y) = get y) ->
  NoDup l -> (forall i, i ∈ l -> is_Some (nodes s !! i)) -> get s = l ->
  exists s', free_list put l s = Ok (tt, s') /\ get s' = [] /\
    (forall i, nodes s' !! i = if decide (i ∈ l) then None else nodes s !! i) /\
    (forall X (f : access -> X), (forall x y, f (put x y) = f y) -> (forall x y, f (set_nodes x y) = f y) -> f s' = f s).
Proof.
  intros P1 P2 P3. revert s. induction l as [|i l IH]; intros s Hd Hin Hg; cbn [free_list].
  { exists s. by split_and!. }
  apply NoDup_cons in Hd as [Hi Hd]. destruct (Hin i) as [x Hx]; [set_solver|].
  mstep ltac:(done). mstep ltac:(eapply free_ok; by rewrite P1).
  destruct (IH (set_nodes (delete i (nodes (put l s))) (put l s))) as (s' & E & Hg' & Hn & Hf).
  { done. }
  { intros j Hj. cbn. rewrite P1, lookup_delete_ne by set_solver. apply Hin. set_solver. }
  { by rewrite P3, P2. }
  exists s'. split_and!; [exact E|done| |].
  - intros j. rewrite Hn. cbn. rewrite P1. destruct (decide (j ∈ l)); [by rewrite decide_True by set_solver|].
    destruct (decide (i = j)) as [->|]; [rewrite decide_True by set_solver; apply lookup_delete_eq|].
    rewrite decide_False by set_solver. by apply lookup_delete_ne.
  - intros X f F1 F2. by rewrite (Hf X f F1 F2), F2, F1.
Qed.

Lemma mrproper_ok s : access_ok s -> exists s', access_mrproper s = Ok (ret_ok, s') /\
  nodes s' = ∅ /\ list_ips s' = [] /\ list_subnets s' = [] /\ mem s' = mem s /\ bufs s' = bufs s.
Proof.
  intros Hok. pose proof (ok_nodup _ Hok) as Hd. apply NoDup_app in Hd as (Hd1 & Hdis & Hd2).
  assert (Hin : forall i, i ∈ list_ips s ++ list_subnets s -> is_Some (nodes s !! i)) by (intros i; by apply (ok_dom _ Hok)).
  destruct (free_list_ok set_ips list_ips (list_ips s) s) as (s1 & E1 & G1 & N1 & F1); try done; [set_solver|].
  destruct (free_list_ok set_subnets list_subnets (list_subnets s) s1) as (s2 & E2 & G2 & N2 & F2); try done.
  { intros i Hi. rewrite N1, decide_False by (intros ?; by apply (Hdis i)). apply Hin. set_solver. }
  { by apply F1. }
  exists s2. unfold access_mrproper. mstep ltac:(done). mstep ltac:(exact E1). mstep ltac:(done).
  rewrite (F1 _ list_subnets) by done. mstep ltac:(exact E2). split_and!; [done| |by rewrite (F2 _ list_ips)|done|by rewrite (F2 _ mem), (F1 _ mem)|by rewrite (F2 _ bufs), (F1 _ bufs)].
  apply map_empty. intros i. rewrite N2, N1. repeat case_decide; try done.
  destruct (nodes s !! i) eqn:En; [|done]. exfalso. assert (i ∈ list_ips s ++ list_subnets s) by (apply (ok_dom _ Hok); by rewrite En). set_solver.
Qed.

(** C36. A session of any additions and questions between [access_init] and [access_mrproper] never
    frees a node twice and never touches one that is not there, whatever allocations fail, and gives
    all nodes back.  It can only stop at an addition of a network ([stops]): when the buffer for the
    text of the address has no memory, because the allocation failed or the address is missing, and
    there was memory for the node, the parser is given a null text.  If no allocation fails, the
    address is missing, and all buffers of a session that ends are given back too. *)
Theorem access_session_memory l s :
  nodes s = ∅ -> (forall sock, Match sock ∈ l -> sock_ok sock) ->
  wp (fun e => e = NullDeref /\ stops l (set_subnets [] (set_ips [] s)) /\
        (mem s = [] -> exists text, Add text ∈ l /\ strpbrk text [47; 92] = Some O)) (session l)
    (fun rs s' => nodes s' = ∅ /\ list_ips s' = [] /\ list_subnets s' = [] /\ length rs = length l /\
      (mem s = [] -> bufs s' = bufs s)) s.
Proof.
  intros Hn Hs. unfold session. eapply wp_eq_bind; [done|].
  set (s0 := set_subnets [] (set_ips [] s)).
  assert (Hok : access_ok s0).
  { split; cbn; rewrite ?Hn; [constructor|..]; intros; rewrite ?lookup_empty in *; try done.
    split; [by intros [? ?]|by intros ?%not_elem_of_nil]. }
  pose proof (run_wp l s0 Hok Hs) as Hw. apply wp_bind. unfold wp in *. destruct (run l s0) as [[rs s1]|e|]; [|destruct Hw as [-> Hw]|done].
  - destruct Hw as (Hok1 & Hl & Hm). destruct (mrproper_ok s1 Hok1) as (s2 & E & N & Li & Ls & Em & Eb).
    rewrite M_bind_eq, E. cbn. split_and!; try done. intros Hs0. rewrite Eb. by apply Hm.
  - split_and!; [done|done|]. intros Hm. destruct Hw as (l1 & text & l2 & rs & s1 & -> & _ & Hnull & Hm1). exists text. split; [set_solver|].
    destruct (strpbrk text [47; 92]) as [k|] eqn:Ek; [|by destruct Hnull as (? & ? & _); congruence].
    f_equal. eapply take_nil_inv; [by eapply strpbrk_lt|]. eapply null_text_nil; [done|by apply Hm1|done].
Qed.
End theorems.

(** ** A small server

    Dotted IPv4 addresses and IPv6 addresses of eight groups, a little-endian
    host, memory that never fails beyond the list. *)
Module Server.

Fixpoint split (c : Z) (s : list Z) : list (list Z) :=
  match s with
  | [] => [[]]
  | x :: s' =>
      if x =? c then [] :: split c s'
      else match split c s' with
           | g :: gs => (x :: g) :: gs
           | [] => [[x]]
           end
  end.

Definition hexval (c : Z) : Z := if isdigit c then c - 48 else if (97 <=? c) && (c <=? 102) then c - 87 else 16.

Definition number (base : Z) (g : list Z) : option Z :=
  if (0 <? length g)%nat && forallb (fun c => hexval c <? base) g
  then Some (foldl (fun acc c => base * acc + hexval c) 0 g) else None.

Definition group4 (g : list Z) : list Z :=
  match number 10 g with Some v => if v <? 256 then [v mod 256] else [] | None => [] end.
Definition group6 (g : list Z) : list Z :=
  match number 16 g with Some v => if v <? 65536 then [(v / 256) mod 256; v mod 256] else [] | None => [] end.

Definition pton4 (s : list Z) : bool * list Z :=
  let gs := split 46 s in
  let l := concat (group4 <$> gs) in
  if (length gs =? 4)%nat && (length l =? 4)%nat then (true, l) else (false, []).
Definition pton6 (s : list Z) : bool * list Z :=
  let gs := split 58 s in
  let l := concat (group6 <$> gs) in
  if (length gs =? 8)%nat && (length l =? 16)%nat then (true, l) else (false, []).

Instance server : Cherokee := {|
  have_ipv6 := true; have_inet_pton := true; host_big := false; uninit_type := ipv4;
  inet_pton t s := match t with ipv4 => pton4 s | ipv6 => pton6 s end;
  inet_aton := pton4;
  cherokee_atoi s := Some (strtol10 s);
  list_add := cons;
  buffer_text m s :=
    match s with
    | [] => (None, m)
    | _ => match m with false :: m' => (None, m') | _ => (Some s, drop 1 m) end
    end;
  addrinfo := list Z;
  resolv_default := ret_ok;
  resolv_addrinfo _ := (ret_ok, [[49; 46; 50; 46; 51; 46; 52]]);
  ntop a := (ret_ok, a)
|}.

Lemma concat_bytes f (gs : list (list Z)) : (forall g, Forall byte (f g)) -> Forall byte (concat (f <$> gs)).
Proof. intros Hf. induction gs as [|g gs IH]; cbn; [constructor|]. apply Forall_app. by split. Qed.

Lemma mod_byte v : byte (v mod 256).
Proof. by apply Z.mod_pos_bound. Qed.

Lemma pton4_ok s : Forall byte (pton4 s).2 /\ (length (pton4 s).2 <= 4)%nat /\ ((pton4 s).1 = true -> length (pton4 s).2 = 4%nat).
Proof.
  unfold pton4. destruct (_ && _) eqn:E; cbn; [|split; [constructor|split; [lia|done]]].
  apply andb_true_iff in E as [_ E%Nat.eqb_eq]. split; [|lia]. apply concat_bytes. intros g. unfold group4.
  repeat case_match; repeat constructor; apply mod_byte.
Qed.

Lemma pton6_ok s : Forall byte (pton6 s).2 /\ (length (pton6 s).2 <= 16)%nat /\ ((pton6 s).1 = true -> length (pton6 s).2 = 16%nat).
Proof.
  unfold pton6. destruct (_ && _) eqn:E; cbn; [|split; [constructor|split; [lia|done]]].
  apply andb_true_iff in E as [_ E%Nat.eqb_eq]. split; [|lia]. apply concat_bytes. intros g. unfold group6.
  repeat case_match; repeat constructor; apply mod_byte.
Qed.

Lemma split_one c s : c ∉ s -> length (split c s) = 1%nat.
Proof.
  induction s as [|x s IH]; intros Hc; cbn; [done|]. destruct (Z.eqb_spec x c); [set_solver|].
  specialize (IH ltac:(set_solver)). by destruct (split c s).
Qed.

Instance server_laws : CherokeeLaws.
Proof.
  split; try done.
  - intros [] s; [apply pton4_ok|apply pton6_ok].
  - intros [] s; [apply pton4_ok|apply pton6_ok].
  - intros [] s; [apply pton4_ok|apply pton6_ok].
  - intros s Hs. destruct (decide (58 ∈ s)) as [|Hc]; [done|exfalso]. cbn in Hs. unfold pton6 in Hs.
    by rewrite (split_one _ _ Hc) in Hs.
  - intros s. apply pton4_ok.
  - intros s. apply pton4_ok.
  - intros s. apply pton4_ok.
  - intros m [|c s] t m'; [done|]. cbn. destruct m as [|[] m]; by intros [= <- <-].
  - by intros [|c s].
  - intros n Hn. cbn. by rewrite strtol10_decimal.
Qed.

Definition no_nodes : access := MkAccess ∅ [] [] [] 0.

(** "10.1.2.0/23", "fe80:0:0:0:1:2:3:4/10", "10.0.0.999/8", "10.0.0.1/abc" and "/8" *)
Definition net23 : list Z := [49; 48; 46; 49; 46; 50; 46; 48].
Definition link_local : list Z := [102; 101; 56; 48; 58; 48; 58; 48; 58; 48; 58; 49; 58; 50; 58; 51; 58; 52].
Definition bad_host : list Z := [49; 48; 46; 48; 46; 48; 46; 57; 57; 57; 47; 56].
Definition bad_mask : list Z := [49; 48; 46; 48; 46; 48; 46; 49; 47; 97; 98; 99].
Definition no_host : list Z := [47; 56].
Definition from_10_1_3_7 : socket := Sock4 [10; 1; 3; 7].
Definition from_10_1_4_7 : socket := Sock4 [10; 1; 4; 7].
Definition mapped_10_1_3_7 : socket := Sock6 [0; 0; 0; 0; 0; 0; 0; 0; 0; 0; 255; 255; 10; 1; 3; 7].

Definition after (l : list (list Z)) (sock : socket) : res cfault ret_t :=
  match run (fmap Add l) no_nodes with
  | Ok (_, s) => match ip_match sock s with Ok (r, _) => Ok r | Err e => Err e | Timeout => Timeout end
  | Err e => Err e
  | Timeout => Timeout
  end.

Example network_of_23_bits :
  (after [net23 ++ 47 :: decimal 23] <$> [from_10_1_3_7; from_10_1_4_7; mapped_10_1_3_7]) =
  [Ok ret_ok; Ok ret_not_found; Ok ret_ok].
Proof. by vm_compute. Qed.

(** A length without a digit is the length 0. *)
Example bad_mask_admits_all :
  (run [Add bad_mask; Match (Sock4 [192; 168; 1; 1])] no_nodes) = Ok ([ret_ok; ret_ok], match run [Add bad_mask] no_nodes with Ok (_, s) => s | _ => no_nodes end).
Proof. by vm_compute. Qed.

(** A network without an address passes a null text to [strchr]. *)
Example no_host_faults : access_add no_host no_nodes = Err NullDeref.
Proof. by vm_compute. Qed.

(** If there is no memory for the node, the buffer is not given back. *)
Example subnet_leaks_buffer :
  match access_add bad_mask (MkAccess ∅ [] [] [true; false] 0) with Ok (r, s) => (r, bufs s, nodes s) = (ret_error, 1%nat, ∅) | _ => False end.
Proof. by vm_compute. Qed.

Lemma access_ok_empty m : access_ok (MkAccess ∅ [] [] m 0).
Proof. split; cbn; [constructor|intros l..]; rewrite ?lookup_empty; try done. split; [by intros [? ?]|by intros ?%not_elem_of_nil]. Qed.

(** The list that "10.1.2.0/23" and "10.9.9.9" make. *)
Definition one_address : list Z := [49; 48; 46; 57; 46; 57; 46; 57].
Definition two_nodes : access :=
  match run [Add (net23 ++ 47 :: decimal 23); Add one_address] no_nodes with Ok (_, s) => s | _ => no_nodes end.

Lemma two_nodes_ok : access_ok two_nodes.
Proof.
  pose proof (run_wp [Add (net23 ++ 47 :: decimal 23); Add one_address] no_nodes (access_ok_empty []) ltac:(set_solver)) as Hw.
  unfold two_nodes, wp in *. by destruct (run _ no_nodes) as [[rs s]|e|]; [destruct Hw|apply access_ok_empty|].
Qed.

(** An address of the network is let in, one beside it is not. *)
Lemma ip_match_decides_witness :
  (list_ips two_nodes, list_subnets two_nodes) = ([2%nat], [1%nat]) /\
  nodes two_nodes !! 1%nat = Some (MkItem ipv4 ([10; 1; 2; 0] ++ replicate 12 0) (Some ([255; 255; 254; 0] ++ replicate 12 0))) /\
  nodes two_nodes !! 2%nat = Some (MkItem ipv4 ([10; 9; 9; 9] ++ replicate 12 0) None) /\
  access_ok two_nodes /\ sock_ok from_10_1_3_7 /\ sock_ok from_10_1_4_7 /\
  (ip_match from_10_1_3_7 two_nodes = Ok (ret_ok, two_nodes) /\ ip_match from_10_1_4_7 two_nodes = Ok (ret_not_found, two_nodes)) /\
  forall sock, sock = from_10_1_3_7 \/ sock = from_10_1_4_7 -> exists r, ip_match sock two_nodes = Ok (r, two_nodes) /\
    (r = ret_ok <-> exists l n, nodes two_nodes !! l = Some n /\ admits sock n) /\ (r = ret_ok \/ r = ret_not_found).
Proof.
  assert (H3 : sock_ok from_10_1_3_7) by (split; [done|repeat constructor; done]).
  assert (H4 : sock_ok from_10_1_4_7) by (split; [done|repeat constructor; done]).
  split_and!; [by vm_compute|by vm_compute|by vm_compute|apply two_nodes_ok|done|done|by vm_compute|by vm_compute|].
  intros sock [-> | ->]; (apply (ip_match_decides two_nodes); [apply two_nodes_ok|done]).
Defined.

Lemma net23_text : network_text ipv4 [10; 1; 2; 0] 23 (net23 ++ 47 :: decimal 23).
Proof.
  apply nt_length; [|done|cbn; lia|by intros [? _]].
  split; [by vm_compute| |by vm_compute|done]. intros c Hc. unfold net23 in Hc. set_solver by lia.
Qed.

Lemma access_add_network_witness :
  exists s', access_add (net23 ++ 47 :: decimal 23) no_nodes = Ok (ret_ok, s') /\ access_ok s' /\ mem s' = [] /\ bufs s' = bufs no_nodes /\
    forall sock, sock_ok sock -> ip_match sock s' =
      Ok (if decide (accepts no_nodes sock \/ in_network ipv4 [10; 1; 2; 0] 23 sock) then ret_ok else ret_not_found, s').
Proof. apply (access_add_network ipv4 [10; 1; 2; 0] 23); [apply net23_text|apply access_ok_empty|done]. Defined.

Lemma refused_network_admits_all_witness :
  exists s', access_add bad_host no_nodes = Ok (ret_error, s') /\ access_ok s' /\
    forall sock, sock_ok sock -> is_Some (remote sock ipv4) -> ip_match sock s' = Ok (ret_ok, s').
Proof.
  apply (refused_network_admits_all bad_host 9 8); [apply access_ok_empty|done|by vm_compute|by vm_compute|done|done|].
  left. by vm_compute.
Defined.

(** A network without address in a session, and allocations that fail. *)
Definition some_calls : list call := [Add bad_host; Add no_host; Match from_10_1_3_7].
Definition failing : access := MkAccess ∅ [] [] [true; false; false] 0.

Lemma access_session_memory_witness :
  (exists text, Add text ∈ some_calls /\ null_text text no_nodes) /\
  wp (fun e => e = NullDeref /\ stops some_calls (set_subnets [] (set_ips [] failing)) /\
        (mem failing = [] -> exists text, Add text ∈ some_calls /\ strpbrk text [47; 92] = Some O))
    (session some_calls)
    (fun rs s' => nodes s' = ∅ /\ list_ips s' = [] /\ list_subnets s' = [] /\ length rs = length some_calls /\
      (mem failing = [] -> bufs s' = bufs failing)) failing.
Proof.
  split; [exists no_host; split; [set_solver|exists O; by vm_compute]|].
  apply (access_session_memory some_calls failing); [done|].
  intros sock Hs. unfold some_calls in Hs. assert (sock = from_10_1_3_7) as -> by set_solver. split; [done|repeat constructor; done].
Defined.

(** With these failures the session ends, and a buffer is lost. *)
Example session_with_failures :
  match session some_calls failing with
  | Ok (rs, s) => (rs, bufs s) = ([ret_error; ret_error; ret_not_found], 1%nat)
  | _ => False
  end.
Proof. by vm_compute. Qed.
End Server.
