(* ===== verification/Condition.v ===== *)
(** * lighttpd: conditions of the configuration ([condition.c])

    A condition compares a left value (a part of the request, a
    [condition_lvalue]) with a right value (a boolean, a number, a text, a
    regular expression or a network).  Left values and conditions are counted by
    their references; texts ([GString]) and regular expressions belong to one
    owner.  [objs] holds them all: [lvalues], [conds], [strings], [regexes].
    Checking a condition reads them and changes the request ([vrequest]).

    GLib, the types of [base.h] and the other modules of the server are the class
    [Lighttpd].  A union is an inductive type: an access to another member than
    the one it holds is an [Err].  A [guint32] that holds an IPv4 address is the
    word of a host ([NetBits.word]).  Messages are left out. *)
From S2P Require Import Prelude Heap NetBits.
Open Scope Z_scope.

Inductive cond_lvalue_t :=
  | COMP_REQUEST_LOCALIP | COMP_REQUEST_REMOTEIP | COMP_REQUEST_PATH | COMP_REQUEST_HOST
  | COMP_REQUEST_SCHEME | COMP_REQUEST_QUERY_STRING | COMP_REQUEST_METHOD | COMP_REQUEST_CONTENT_LENGTH
  | COMP_PHYSICAL_PATH | COMP_PHYSICAL_PATH_EXISTS | COMP_PHYSICAL_SIZE | COMP_PHYSICAL_ISDIR
  | COMP_PHYSICAL_ISFILE | COMP_REQUEST_HEADER | COMP_UNKNOWN.

Inductive comp_operator_t :=
  | CONFIG_COND_EQ | CONFIG_COND_NE | CONFIG_COND_PREFIX | CONFIG_COND_NOPREFIX | CONFIG_COND_SUFFIX
  | CONFIG_COND_NOSUFFIX | CONFIG_COND_MATCH | CONFIG_COND_NOMATCH | CONFIG_COND_IP | CONFIG_COND_NOTIP
  | CONFIG_COND_GT | CONFIG_COND_GE | CONFIG_COND_LT | CONFIG_COND_LE.

#[export] Instance cond_lvalue_dec : EqDecision cond_lvalue_t.
Proof. solve_decision. Defined.
#[export] Instance comp_operator_dec : EqDecision comp_operator_t.
Proof. solve_decision. Defined.

Inductive condition_rvalue :=
  | COND_VALUE_BOOL (b : bool)
  | COND_VALUE_NUMBER (i : Z)
  | COND_VALUE_STRING (s : loc)
  | COND_VALUE_REGEXP (r : loc)
  | COND_VALUE_SOCKET_IPV4 (addr networkmask : Z)
  | COND_VALUE_SOCKET_IPV6 (addr : list Z) (network : Z).

Record condition_lvalue := MkLvalue { lv_type : cond_lvalue_t; lv_key : option loc; lv_ref : Z }.

Record condition := MkCond { c_op : comp_operator_t; c_lvalue : option loc; c_rvalue : condition_rvalue; c_ref : Z }.

(** The address of a socket, by its family. *)
Inductive sock_addr := AF_INET (s_addr : Z) | AF_INET6 (s6_addr : list Z) | AF_OTHER.

Inductive errno := EACCES | EBADF | EFAULT | ELOOP | ENAMETOOLONG | ENOENT | ENOMEM | ENOTDIR | EOTHER.

Inductive handler_t := HANDLER_GO_ON | HANDLER_ERROR.

(** [vr->physical] *)
Record physical := MkPhysical {
  have_stat : bool; have_errno : bool; stat_errno : errno;
  st_isdir : bool; st_isreg : bool; st_size : Z; phys_path : list Z
}.

(** [rv_zero]: the right value whose bytes are zero.  [parse_ipv4 m], [parse_ipv6 m]: with [m] a network
    may follow, and its mask or length is stored.  [vrequest_stat] works on [vr->physical]. *)
Class Lighttpd := {
  have_ipv6 : bool; have_pcre : bool; host_big : bool;
  regex : Type; match_info : Type; headers : Type;
  rv_zero : condition_rvalue;
  ascii_down : list Z -> list Z;
  g_str_equal : list Z -> list Z -> bool;
  g_str_has_prefix : list Z -> list Z -> bool;
  g_str_has_suffix : list Z -> list Z -> bool;
  g_regex_new : list Z -> option regex;
  g_regex_match : regex -> list Z -> bool * match_info;
  print_offset : Z -> list Z;
  http_header_get_fast : headers -> list Z -> list Z;
  parse_ipv4 : bool -> list Z -> option (Z * Z);
  parse_ipv6 : bool -> list Z -> option (list Z * Z);
  vrequest_stat : physical -> bool * physical
}.

Section lighttpd.
Context `{Lighttpd}.

(** [vr] with what is read of its connection; [handled] counts the calls of
    [vrequest_handle_direct]. *)
Record vrequest := MkVr {
  local_addr_str : list Z; remote_addr_str : list Z; local_addr : sock_addr; remote_addr : sock_addr;
  is_ssl : bool; uri_path : list Z; uri_host : list Z; uri_query : list Z; http_method_str : list Z;
  request_headers : headers; content_length : Z;
  phys : physical; http_status : Z; handled : nat;
  tmp_str : list Z; regex_stack : list (option (list Z) * match_info)
}.

Record objs := MkObjs {
  lvalues : gmap loc condition_lvalue;
  conds : gmap loc condition;
  strings : gmap loc (list Z);
  regexes : gmap loc regex
}.

Definition set_lvalues (x : gmap loc condition_lvalue) (s : objs) : objs := MkObjs x (conds s) (strings s) (regexes s).
Definition set_conds (x : gmap loc condition) (s : objs) : objs := MkObjs (lvalues s) x (strings s) (regexes s).
Definition set_strings (x : gmap loc (list Z)) (s : objs) : objs := MkObjs (lvalues s) (conds s) x (regexes s).
Definition set_regexes (x : gmap loc regex) (s : objs) : objs := MkObjs (lvalues s) (conds s) (strings s) x.

#[export] Instance lvalue_store : Store objs condition_lvalue := {| the_heap := lvalues; with_heap := set_lvalues |}.
#[export] Instance cond_store : Store objs condition := {| the_heap := conds; with_heap := set_conds |}.
#[export] Instance string_store : Store objs (list Z) := {| the_heap := strings; with_heap := set_strings |}.
#[export] Instance regex_store : Store objs regex := {| the_heap := regexes; with_heap := set_regexes |}.

Abbreviation O := (M objs cfault).

Definition set_lv_ref (x : Z) (l : condition_lvalue) : condition_lvalue := MkLvalue (lv_type l) (lv_key l) x.
Definition set_c_ref (x : Z) (c : condition) : condition := MkCond (c_op c) (c_lvalue c) (c_rvalue c) x.
Definition set_rvalue (x : condition_rvalue) (c : condition) : condition := MkCond (c_op c) (c_lvalue c) x (c_ref c).

(** [g_slice_new0] and what follows it; memory that is given back must be there. *)
Definition make {V} `{Store objs V} (v : V) : O loc :=
  s ← getS;
  let l := new_loc (the_heap (V := V) s) in
  putS (with_heap (<[l := v]> (the_heap s)) s) ;; mret l.

Definition dispose (V : Type) `{Store objs V} (l : loc) : O unit :=
  x ← deref (V := V) (Some l);
  modS (fun s => with_heap (delete x.1 (the_heap (V := V) s)) s).

Definition c_assert (b : bool) : O unit := if b then mret tt else throw AssertFailed.

(** ** Addresses *)
Definition condition_parse_ip (txt : list Z) : option condition_rvalue :=
  match parse_ipv4 false txt with
  | Some (addr, _) => Some (COND_VALUE_SOCKET_IPV4 addr (2 ^ 32 - 1))
  | None =>
      match parse_ipv6 false txt with
      | Some (addr, _) => Some (COND_VALUE_SOCKET_IPV6 addr 128)
      | None => None
      end
  end.

Definition condition_parse_ip_net (txt : list Z) : option condition_rvalue :=
  match parse_ipv4 true txt with
  | Some (addr, networkmask) => Some (COND_VALUE_SOCKET_IPV4 addr networkmask)
  | None =>
      match parse_ipv6 true txt with
      | Some (addr, network) => Some (COND_VALUE_SOCKET_IPV6 addr network)
      | None => None
      end
  end.

Definition condition_ip_from_socket (addr : sock_addr) : option condition_rvalue :=
  match addr with
  | AF_INET s => Some (COND_VALUE_SOCKET_IPV4 s (2 ^ 32 - 1))
  | AF_INET6 s6 => if have_ipv6 then Some (COND_VALUE_SOCKET_IPV6 (take 16 s6) 128) else None
  | AF_OTHER => None
  end.

(** ** Left values *)
Definition condition_lvalue_new (type : cond_lvalue_t) (key : option loc) : O loc :=
  (if bool_decide (type = COMP_REQUEST_HEADER) then assign (V := list Z) key ascii_down else mret tt) ;;
  make (MkLvalue type key 1).

Definition condition_lvalue_acquire (lvalue : loc) : O unit :=
  x ← deref (V := condition_lvalue) (Some lvalue);
  c_assert (0 <? lv_ref x.2) ;;
  assign (Some lvalue) (set_lv_ref (wraps 32 (lv_ref x.2 + 1))).

Definition condition_lvalue_release (lvalue : option loc) : O unit :=
  match lvalue with
  | None => mret tt
  | Some l =>
      x ← deref (V := condition_lvalue) (Some l);
      c_assert (0 <? lv_ref x.2) ;;
      let r := wraps 32 (lv_ref x.2 - 1) in
      assign (Some l) (set_lv_ref r) ;;
      if r =? 0 then
        match lv_key x.2 with Some k => dispose (list Z) k | None => mret tt end ;;
        dispose condition_lvalue l
      else mret tt
  end.

(** ** Conditions *)
Definition condition_new (op : comp_operator_t) (lvalue : option loc) : O loc :=
  make (MkCond op lvalue rv_zero 1).

Definition condition_free (c : loc) : O unit :=
  x ← deref (V := condition) (Some c);
  condition_lvalue_release (c_lvalue x.2) ;;
  match c_rvalue x.2 with
  | COND_VALUE_STRING s => dispose (list Z) s
  | COND_VALUE_REGEXP r => dispose regex r
  | _ => mret tt
  end ;;
  dispose condition c.

Definition condition_acquire (c : loc) : O unit :=
  x ← deref (V := condition) (Some c);
  c_assert (0 <? c_ref x.2) ;;
  assign (Some c) (set_c_ref (wraps 32 (c_ref x.2 + 1))).

Definition condition_release (c : option loc) : O unit :=
  match c with
  | None => mret tt
  | Some l =>
      x ← deref (V := condition) (Some l);
      c_assert (0 <? c_ref x.2) ;;
      let r := wraps 32 (c_ref x.2 - 1) in
      assign (Some l) (set_c_ref r) ;;
      if r =? 0 then condition_free l else mret tt
  end.

Definition cond_new_string (op : comp_operator_t) (lvalue : option loc) (str : loc) : O (option loc) :=
  c ← condition_new op lvalue;
  assign (Some c) (set_rvalue (COND_VALUE_STRING str)) ;;
  mret (Some c).

Definition cond_new_match (op : comp_operator_t) (lvalue : option loc) (str : loc) : O (option loc) :=
  x ← deref (V := list Z) (Some str);
  match g_regex_new x.2 with
  | None => mret None
  | Some re =>
      r ← make re;
      c ← condition_new op lvalue;
      assign (Some c) (set_rvalue (COND_VALUE_REGEXP r)) ;;
      dispose (list Z) str ;;
      mret (Some c)
  end.

Definition cond_new_ip (op : comp_operator_t) (lvalue : option loc) (str : loc) : O (option loc) :=
  c ← condition_new op lvalue;
  x ← deref (V := list Z) (Some str);
  match condition_parse_ip_net x.2 with
  | None => condition_release (Some c) ;; mret None
  | Some rv => assign (Some c) (set_rvalue rv) ;; mret (Some c)
  end.

Definition condition_new_bool (lvalue : option loc) (b : bool) : O (option loc) :=
  c ← condition_new CONFIG_COND_EQ lvalue;
  assign (Some c) (set_rvalue (COND_VALUE_BOOL b)) ;;
  mret (Some c).

Definition condition_new_string (op : comp_operator_t) (lvalue : option loc) (str : loc) : O (option loc) :=
  match op with
  | CONFIG_COND_EQ | CONFIG_COND_NE | CONFIG_COND_PREFIX | CONFIG_COND_NOPREFIX
  | CONFIG_COND_SUFFIX | CONFIG_COND_NOSUFFIX => cond_new_string op lvalue str
  | CONFIG_COND_MATCH | CONFIG_COND_NOMATCH => cond_new_match op lvalue str
  | CONFIG_COND_IP | CONFIG_COND_NOTIP => cond_new_ip op lvalue str
  | CONFIG_COND_GT | CONFIG_COND_GE | CONFIG_COND_LT | CONFIG_COND_LE => mret None
  end.

Definition condition_new_int (op : comp_operator_t) (lvalue : option loc) (i : Z) : O (option loc) :=
  match op with
  | CONFIG_COND_PREFIX | CONFIG_COND_NOPREFIX | CONFIG_COND_SUFFIX | CONFIG_COND_NOSUFFIX
  | CONFIG_COND_MATCH | CONFIG_COND_NOMATCH | CONFIG_COND_IP | CONFIG_COND_NOTIP => mret None
  | CONFIG_COND_EQ | CONFIG_COND_NE | CONFIG_COND_GT | CONFIG_COND_GE | CONFIG_COND_LT | CONFIG_COND_LE =>
      c ← condition_new op lvalue;
      assign (Some c) (set_rvalue (COND_VALUE_NUMBER i)) ;;
      mret (Some c)
  end.
End lighttpd.
