(* ===== verification/ConditionCheck.v ===== *)
(** * lighttpd: checking conditions ([condition.c])

    The names of operators and left values, networks, and [condition_check] with
    the evaluations it chooses from.  A check reads the objects [o] and runs in
    the monad on the request; it gives the handler's answer and [*res]. *)
From S2P Require Import Prelude Heap NetBits Condition.
From stdpp Require Import strings.
Open Scope Z_scope.

(** ** Names *)
Definition comp_op_to_string (op : comp_operator_t) : string :=
  match op with
  | CONFIG_COND_EQ => "=="
  | CONFIG_COND_NE => "!="
  | CONFIG_COND_PREFIX => "=^"
  | CONFIG_COND_NOPREFIX => "=^"
  | CONFIG_COND_SUFFIX => "=$"
  | CONFIG_COND_NOSUFFIX => "!$"
  | CONFIG_COND_MATCH => "=~"
  | CONFIG_COND_NOMATCH => "!~"
  | CONFIG_COND_IP => "=/"
  | CONFIG_COND_NOTIP => "!/"
  | CONFIG_COND_GT => ">"
  | CONFIG_COND_GE => ">="
  | CONFIG_COND_LT => "<"
  | CONFIG_COND_LE => "<="
  end.

Definition cond_lvalue_to_string (t : cond_lvalue_t) : string :=
  match t with
  | COMP_REQUEST_LOCALIP => "request.localip"
  | COMP_REQUEST_REMOTEIP => "request.remoteip"
  | COMP_REQUEST_PATH => "request.path"
  | COMP_REQUEST_HOST => "request.host"
  | COMP_REQUEST_SCHEME => "request.scheme"
  | COMP_REQUEST_QUERY_STRING => "request.query"
  | COMP_REQUEST_METHOD => "request.method"
  | COMP_REQUEST_CONTENT_LENGTH => "request.length"
  | COMP_PHYSICAL_PATH => "physical.path"
  | COMP_PHYSICAL_PATH_EXISTS => "physical.exist"
  | COMP_PHYSICAL_SIZE => "physical.size"
  | COMP_PHYSICAL_ISDIR => "physical.is_dir"
  | COMP_PHYSICAL_ISFILE => "physical.is_file"
  | COMP_REQUEST_HEADER => "request.header"
  | COMP_UNKNOWN => "<unknown>"
  end.

(** [strncmp (a, b, n) == 0]: no difference before both end or [n] characters. *)
Fixpoint strncmp_eq (a b : string) (n : Z) : bool :=
  if n <=? 0 then true else
  match a, b with
  | String c a', String d b' => if Ascii.eqb c d then strncmp_eq a' b' (n - 1) else false
  | EmptyString, EmptyString => true
  | _, _ => false
  end.

Definition str (s : string) : list Z := (fun c => Z.of_nat (Ascii.nat_of_ascii c)) <$> String.list_ascii_of_string s.

Definition request_names : list (string * cond_lvalue_t) :=
  [("localip", COMP_REQUEST_LOCALIP); ("remoteip", COMP_REQUEST_REMOTEIP); ("path", COMP_REQUEST_PATH);
   ("host", COMP_REQUEST_HOST); ("scheme", COMP_REQUEST_SCHEME); ("query", COMP_REQUEST_QUERY_STRING);
   ("method", COMP_REQUEST_METHOD); ("length", COMP_REQUEST_CONTENT_LENGTH); ("header", COMP_REQUEST_HEADER)]%string.

Definition physical_names : list (string * cond_lvalue_t) :=
  [("path", COMP_PHYSICAL_PATH); ("exists", COMP_PHYSICAL_PATH_EXISTS); ("size", COMP_PHYSICAL_SIZE);
   ("is_file", COMP_PHYSICAL_ISFILE); ("is_dir", COMP_PHYSICAL_ISDIR)]%string.

Fixpoint find_name (c : string) (len : Z) (l : list (string * cond_lvalue_t)) : cond_lvalue_t :=
  match l with
  | [] => COMP_UNKNOWN
  | (name, t) :: l' => if strncmp_eq c name len then t else find_name c len l'
  end.

Fixpoint str_drop (n : nat) (s : string) : string :=
  match n, s with
  | S n', String _ s' => str_drop n' s'
  | _, _ => s
  end.

Section lighttpd.
Context `{Lighttpd}.
Abbreviation C := (M vrequest cfault).

(** [len] is a [guint]; [sizeof ("request.") - 1] is 8, [sizeof ("physical.") - 1] is 9. *)
Definition cond_lvalue_from_string (name : string) (len : Z) : cond_lvalue_t :=
  if g_str_has_prefix (str name) (str "request.") then find_name (str_drop 8 name) (u32 (len - 8)) request_names
  else if strncmp_eq name "physical." 9 then find_name (str_drop 9 name) (u32 (len - 9)) physical_names
  else COMP_UNKNOWN.

(** ** Networks *)
Definition ipv4_in_ipv4_net (target match_ networkmask : Z) : bool :=
  Z.land target networkmask =? Z.land match_ networkmask.

Definition nth_byte (l : list Z) (i : nat) : res cfault Z :=
  match l !! i with Some x => Ok x | None => Err OutOfBounds end.

(** [memcmp (a, b, n) == 0] *)
Definition memcmp_eq (a b : list Z) (n : nat) : res cfault bool :=
  if (n <=? length a)%nat && (n <=? length b)%nat then Ok (bool_decide (take n a = take n b)) else Err OutOfBounds.

Definition ipv6_in_ipv6_net (target match_ : list Z) (network : Z) : res cfault bool :=
  let mask := u8 (network mod 8) in
  same ← memcmp_eq target match_ (Z.to_nat (network / 8));
  if negb same then Ok false else
  if mask =? 0 then Ok true else
  let mask := u8 (Z.lnot (u32 (Z.shiftl 1 (8 - mask)) - 1)) in
  t ← nth_byte target (Z.to_nat (network / 8));
  m ← nth_byte match_ (Z.to_nat (network / 8));
  Ok (Z.land t mask =? Z.land m mask).

Definition ipv6match : list Z := [0; 0; 0; 0; 0; 0; 0; 0; 0; 0; 255; 255; 0; 0; 0; 0].

Definition ipv6_in_ipv4_net (target : list Z) (match_ networkmask : Z) : res cfault bool :=
  b ← ipv6_in_ipv6_net target ipv6match 96;
  if negb b then Ok false else
  if (length target <? 16)%nat then Err OutOfBounds else
  Ok (ipv4_in_ipv4_net (word host_big (take 4 (drop 12 target))) match_ networkmask).

Definition ipv4_in_ipv6_net (target : Z) (match_ : list Z) (network : Z) : res cfault bool :=
  let ipv6 := take 12 ipv6match ++ word_bytes host_big target in
  ipv6_in_ipv6_net ipv6 match_ network.

Definition ip_in_net (target network : condition_rvalue) : res cfault bool :=
  match target, network with
  | COND_VALUE_SOCKET_IPV4 a _, COND_VALUE_SOCKET_IPV4 m mask => Ok (ipv4_in_ipv4_net a m mask)
  | COND_VALUE_SOCKET_IPV4 a _, COND_VALUE_SOCKET_IPV6 m n => ipv4_in_ipv6_net a m n
  | COND_VALUE_SOCKET_IPV6 a _, COND_VALUE_SOCKET_IPV4 m mask => ipv6_in_ipv4_net a m mask
  | COND_VALUE_SOCKET_IPV6 a _, COND_VALUE_SOCKET_IPV6 m n => ipv6_in_ipv6_net a m n
  | _, _ => Ok false
  end.

(** ** The request *)
Definition set_phys (x : physical) (v : vrequest) : vrequest :=
  MkVr (local_addr_str v) (remote_addr_str v) (local_addr v) (remote_addr v) (is_ssl v) (uri_path v) (uri_host v)
    (uri_query v) (http_method_str v) (request_headers v) (content_length v) x (http_status v) (handled v) (tmp_str v)
    (regex_stack v).
Definition handle_direct (status : Z) (v : vrequest) : vrequest :=
  MkVr (local_addr_str v) (remote_addr_str v) (local_addr v) (remote_addr v) (is_ssl v) (uri_path v) (uri_host v)
    (uri_query v) (http_method_str v) (request_headers v) (content_length v) (phys v) status (S (handled v)) (tmp_str v)
    (regex_stack v).
Definition set_tmp (x : list Z) (v : vrequest) : vrequest :=
  MkVr (local_addr_str v) (remote_addr_str v) (local_addr v) (remote_addr v) (is_ssl v) (uri_path v) (uri_host v)
    (uri_query v) (http_method_str v) (request_headers v) (content_length v) (phys v) (http_status v) (handled v) x
    (regex_stack v).
Definition append_regex (x : option (list Z) * match_info) (v : vrequest) : vrequest :=
  MkVr (local_addr_str v) (remote_addr_str v) (local_addr v) (remote_addr v) (is_ssl v) (uri_path v) (uri_host v)
    (uri_query v) (http_method_str v) (request_headers v) (content_length v) (phys v) (http_status v) (handled v) (tmp_str v)
    (regex_stack v ++ [x]).

Definition status_of (e : errno) : Z :=
  match e with
  | EACCES => 403
  | EBADF | EFAULT | ELOOP | ENAMETOOLONG => 500
  | ENOENT => 404
  | ENOMEM => 500
  | ENOTDIR => 404
  | EOTHER => 500
  end.

(** [vr->physical.stat] is there, or the request is answered with an error. *)
Definition ensure_stat : C bool :=
  vr ← getS;
  if have_stat (phys vr) then mret true else
  ok ← (if have_errno (phys vr) then mret false else
        let r := vrequest_stat (phys vr) in modS (set_phys r.2) ;; mret r.1);
  if (ok : bool) then mret true else
  vr ← getS;
  modS (handle_direct (status_of (stat_errno (phys vr)))) ;; mret false.

(** ** Evaluation *)
Definition read {V} `{Store objs V} (o : objs) (p : option loc) : C V :=
  match p with
  | None => throw NullDeref
  | Some l => match the_heap o !! l with Some v => mret v | None => throw OutOfBounds end
  end.

Definition get_lvalue (o : objs) (cond : condition) : C condition_lvalue := read o (c_lvalue cond).

Definition condition_check_eval_bool (o : objs) (cond : condition) : C (handler_t * bool) :=
  lv ← get_lvalue o cond;
  go ← match lv_type lv with COMP_PHYSICAL_ISDIR | COMP_PHYSICAL_ISFILE => ensure_stat | _ => mret true end;
  if negb go then mret (HANDLER_GO_ON, false) else
  vr ← getS;
  match lv_type lv with
  | COMP_PHYSICAL_ISDIR => mret (HANDLER_GO_ON, st_isdir (phys vr))
  | COMP_PHYSICAL_ISFILE => mret (HANDLER_GO_ON, st_isreg (phys vr))
  | _ => mret (HANDLER_ERROR, false)
  end.

Definition header_value (o : objs) (lv : condition_lvalue) : C (list Z) :=
  key ← read (V := list Z) o (lv_key lv);
  modS (fun vr => set_tmp (http_header_get_fast (request_headers vr) key) vr) ;;
  vr ← getS; mret (tmp_str vr).

(** [val]; [None] is the return of [HANDLER_ERROR]. *)
Definition string_value (o : objs) (lv : condition_lvalue) : C (option (list Z)) :=
  vr ← getS;
  match lv_type lv with
  | COMP_REQUEST_LOCALIP => mret (Some (local_addr_str vr))
  | COMP_REQUEST_REMOTEIP => mret (Some (remote_addr_str vr))
  | COMP_REQUEST_PATH => mret (Some (uri_path vr))
  | COMP_REQUEST_HOST => mret (Some (uri_host vr))
  | COMP_REQUEST_SCHEME => mret (Some (if is_ssl vr then str "https" else str "http"))
  | COMP_REQUEST_QUERY_STRING => mret (Some (uri_query vr))
  | COMP_REQUEST_METHOD => mret (Some (http_method_str vr))
  | COMP_PHYSICAL_PATH => mret (Some (phys_path (phys vr)))
  | COMP_PHYSICAL_PATH_EXISTS => mret (Some [])
  | COMP_REQUEST_HEADER => v ← header_value o lv; mret (Some v)
  | COMP_REQUEST_CONTENT_LENGTH =>
      modS (set_tmp (print_offset (content_length vr))) ;; vr ← getS; mret (Some (tmp_str vr))
  | _ => mret None
  end.

(** [cond->rvalue.string->str] and [cond->rvalue.regex] *)
Definition rvalue_string (o : objs) (cond : condition) : C (list Z) :=
  match c_rvalue cond with COND_VALUE_STRING s => read o (Some s) | _ => throw OutOfBounds end.
Definition rvalue_regex (o : objs) (cond : condition) : C regex :=
  match c_rvalue cond with COND_VALUE_REGEXP r => read o (Some r) | _ => throw OutOfBounds end.

Definition condition_check_eval_string (o : objs) (cond : condition) : C (handler_t * bool) :=
  lv ← get_lvalue o cond;
  v ← string_value o lv;
  match v with
  | None => mret (HANDLER_ERROR, false)
  | Some val =>
      match c_op cond with
      | CONFIG_COND_EQ => s ← rvalue_string o cond; mret (HANDLER_GO_ON, g_str_equal val s)
      | CONFIG_COND_NE => s ← rvalue_string o cond; mret (HANDLER_GO_ON, negb (g_str_equal val s))
      | CONFIG_COND_PREFIX => s ← rvalue_string o cond; mret (HANDLER_GO_ON, g_str_has_prefix val s)
      | CONFIG_COND_NOPREFIX => s ← rvalue_string o cond; mret (HANDLER_GO_ON, negb (g_str_has_prefix val s))
      | CONFIG_COND_SUFFIX => s ← rvalue_string o cond; mret (HANDLER_GO_ON, g_str_has_suffix val s)
      | CONFIG_COND_NOSUFFIX => s ← rvalue_string o cond; mret (HANDLER_GO_ON, negb (g_str_has_suffix val s))
      | CONFIG_COND_MATCH =>
          re ← rvalue_regex o cond;
          let r := g_regex_match re val in
          modS (append_regex (if r.1 then Some val else None, r.2)) ;;
          mret (HANDLER_GO_ON, r.1)
      | CONFIG_COND_NOMATCH =>
          re ← rvalue_regex o cond;
          let r := g_regex_match re val in
          modS (append_regex (None, r.2)) ;;
          mret (HANDLER_GO_ON, negb r.1)
      | _ => mret (HANDLER_ERROR, false)
      end
  end.

Definition rvalue_number (cond : condition) : C Z :=
  match c_rvalue cond with COND_VALUE_NUMBER i => mret i | _ => throw OutOfBounds end.

(** The case of [COMP_REQUEST_CONTENT_LENGTH] runs into that of [COMP_PHYSICAL_SIZE]. *)
Definition condition_check_eval_int (o : objs) (cond : condition) : C (handler_t * bool) :=
  lv ← get_lvalue o cond;
  match lv_type lv with
  | COMP_REQUEST_CONTENT_LENGTH | COMP_PHYSICAL_SIZE =>
      go ← ensure_stat;
      if negb go then mret (HANDLER_GO_ON, false) else
      vr ← getS;
      let val := st_size (phys vr) in
      match c_op cond with
      | CONFIG_COND_EQ => i ← rvalue_number cond; mret (HANDLER_GO_ON, val =? i)
      | CONFIG_COND_NE => i ← rvalue_number cond; mret (HANDLER_GO_ON, negb (val =? i))
      | CONFIG_COND_LT => i ← rvalue_number cond; mret (HANDLER_GO_ON, val <? i)
      | CONFIG_COND_LE => i ← rvalue_number cond; mret (HANDLER_GO_ON, val <=? i)
      | CONFIG_COND_GT => i ← rvalue_number cond; mret (HANDLER_GO_ON, i <? val)
      | CONFIG_COND_GE => i ← rvalue_number cond; mret (HANDLER_GO_ON, i <=? val)
      | _ => mret (HANDLER_ERROR, false)
      end
  | _ => mret (HANDLER_ERROR, false)
  end.

(** The address of the left value: found, absent, or the return of [HANDLER_ERROR]. *)
Definition ip_value (o : objs) (lv : condition_lvalue) : C (option (option condition_rvalue)) :=
  vr ← getS;
  match lv_type lv with
  | COMP_REQUEST_LOCALIP => mret (Some (condition_ip_from_socket (local_addr vr)))
  | COMP_REQUEST_REMOTEIP => mret (Some (condition_ip_from_socket (remote_addr vr)))
  | COMP_REQUEST_HOST => mret (Some (condition_parse_ip (uri_host vr)))
  | COMP_REQUEST_QUERY_STRING => mret (Some (condition_parse_ip (uri_query vr)))
  | COMP_REQUEST_HEADER => v ← header_value o lv; mret (Some (condition_parse_ip v))
  | _ => mret None
  end.

(** No case of the last [switch] has a [break]: each runs on to the error at its end. *)
Definition condition_check_eval_ip (o : objs) (cond : condition) : C (handler_t * bool) :=
  lv ← get_lvalue o cond;
  let res := bool_decide (c_op cond = CONFIG_COND_NOTIP) in
  v ← ip_value o lv;
  match v with
  | None => mret (HANDLER_ERROR, res)
  | Some None => mret (HANDLER_GO_ON, res)
  | Some (Some ipval) =>
      match c_op cond with
      | CONFIG_COND_IP =>
          _ ← lift (ip_in_net ipval (c_rvalue cond));
          b ← lift (ip_in_net ipval (c_rvalue cond));
          mret (HANDLER_ERROR, negb b)
      | CONFIG_COND_NOTIP =>
          b ← lift (ip_in_net ipval (c_rvalue cond));
          mret (HANDLER_ERROR, negb b)
      | _ => mret (HANDLER_ERROR, res)
      end
  end.

(** [res]: what [*res] holds before. *)
Definition condition_check (o : objs) (cond : condition) (res : bool) : C (handler_t * bool) :=
  match c_rvalue cond with
  | COND_VALUE_BOOL _ => condition_check_eval_bool o cond
  | COND_VALUE_STRING _ => condition_check_eval_string o cond
  | COND_VALUE_REGEXP _ => if have_pcre then condition_check_eval_string o cond else mret (HANDLER_ERROR, res)
  | COND_VALUE_NUMBER _ => condition_check_eval_int o cond
  | COND_VALUE_SOCKET_IPV4 _ _ | COND_VALUE_SOCKET_IPV6 _ _ => condition_check_eval_ip o cond
  end.
End lighttpd.
