(* ===== verification/ConditionProofs.v ===== *)
(** * lighttpd: names, networks and checks

    [in_net]: membership of an address in a network by its first bits.  A
    condition is [made] if a constructor made it; then the operator fits the
    right value.  [same_but_stat] and the lemmas on [ensure_stat] say what a check
    changes. *)
From S2P Require Import Prelude Heap NetBits Condition ConditionCheck.
From stdpp Require Import strings.
Open Scope Z_scope.

Definition is_word (w : Z) : Prop := 0 <= w < 2 ^ 32.

(** What is documented of GLib, and what the parsers of addresses store. *)
Class LighttpdLaws `{Lighttpd} : Prop := {
  str_equal_spec a b : g_str_equal a b = bool_decide (a = b);
  has_prefix_spec a p : g_str_has_prefix a p = bool_decide (p `prefix_of` a);
  has_suffix_spec a p : g_str_has_suffix a p = bool_decide (p `suffix_of` a);
  ipv4_words m txt addr mask : parse_ipv4 m txt = Some (addr, mask) -> is_word addr /\ is_word mask;
  ipv6_bytes m txt addr n : parse_ipv6 m txt = Some (addr, n) -> length addr = 16%nat /\ Forall byte addr /\ 0 <= n <= 128;
  rv_zero_plain : exists b i, rv_zero = COND_VALUE_BOOL b \/ rv_zero = COND_VALUE_NUMBER i;
  stat_ok p p' : vrequest_stat p = (true, p') -> have_stat p' = true
}.

(** ** Networks *)
Section net.
Context `{LighttpdLaws}.

Definition addr4 (w : Z) : list Z := word_bytes host_big w.
Definition mapped (w : Z) : list Z := take 12 ipv6match ++ addr4 w.

(** The address of [target] is in [network]; an IPv4 address is also the IPv6 address that maps it. *)
Definition in_net (target network : condition_rvalue) : Prop :=
  match target, network with
  | COND_VALUE_SOCKET_IPV4 a _, COND_VALUE_SOCKET_IPV4 m mask => same_masked (addr4 mask) (addr4 a) (addr4 m)
  | COND_VALUE_SOCKET_IPV4 a _, COND_VALUE_SOCKET_IPV6 m n => same_prefix (Z.to_nat n) (mapped a) m
  | COND_VALUE_SOCKET_IPV6 a _, COND_VALUE_SOCKET_IPV4 m mask =>
      take 12 a = take 12 ipv6match /\ same_masked (addr4 mask) (drop 12 a) (addr4 m)
  | COND_VALUE_SOCKET_IPV6 a _, COND_VALUE_SOCKET_IPV6 m n => same_prefix (Z.to_nat n) a m
  | _, _ => False
  end.

Definition rv_ok (v : condition_rvalue) : Prop :=
  match v with
  | COND_VALUE_SOCKET_IPV4 a m => is_word a /\ is_word m
  | COND_VALUE_SOCKET_IPV6 a n => length a = 16%nat /\ Forall byte a /\ 0 <= n <= 128
  | _ => True
  end.

Lemma le_word_bytes n w : 0 <= w < 2 ^ (8 * Z.of_nat n) -> le_word (le_bytes n w) = w.
Proof.
  revert w. induction n as [|n IH]; intros w Hw; cbn [le_bytes le_word]; [simpl in Hw; lia|].
  rewrite IH; [pose proof (Z.div_mod w (2 ^ 8)); lia|]. split; [apply Z.div_pos; lia|].
  apply Z.div_lt_upper_bound; [done|]. rewrite <- Z.pow_add_r by lia. replace (8 + 8 * Z.of_nat n) with (8 * Z.of_nat (S n)) by lia. apply Hw.
Qed.

Lemma word_word_bytes big w : is_word w -> word big (word_bytes big w) = w.
Proof.
  intros Hw. unfold word, word_bytes. destruct big; [rewrite rev_involutive|]; by apply (le_word_bytes 4).
Qed.

Lemma addr4_ok w : length (addr4 w) = 4%nat /\ Forall byte (addr4 w).
Proof.
  assert (Hb : forall n v, length (le_bytes n v) = n /\ Forall byte (le_bytes n v)).
  { intros n. induction n as [|n IH]; intros v; cbn; [by split|]. destruct (IH (v / 2 ^ 8)) as [-> ?].
    split; [done|]. constructor; [by apply Z.mod_pos_bound|done]. }
  unfold addr4, word_bytes. destruct (Hb 4%nat w) as [Hl HF]. destruct host_big; [|done].
  rewrite length_rev. split; [done|by apply Forall_rev'].
Qed.

Lemma ipv4_in_ipv4_net_spec t m mask : length t = 4%nat -> Forall byte t -> is_word m -> is_word mask ->
  ipv4_in_ipv4_net (word host_big t) m mask = bool_decide (same_masked (addr4 mask) t (addr4 m)).
Proof.
  intros Lt Ft Hm Hk. destruct (addr4_ok m) as [Lm Fm], (addr4_ok mask) as [Lk Fk].
  unfold ipv4_in_ipv4_net. rewrite <- (word_word_bytes host_big m Hm) at 1. rewrite <- (word_word_bytes host_big mask Hk) at 1 2.
  apply eq_bool_prop_intro. rewrite bool_decide_spec, <- (word_masked_iff host_big) by (done || congruence).
  rewrite Is_true_true. apply Z.eqb_eq.
Qed.

(** The mask of [r] bits in a byte. *)
Lemma byte_mask r i : (r < 8)%nat -> (i < 8)%nat ->
  Z.testbit (u8 (Z.lnot (u32 (Z.shiftl 1 (8 - Z.of_nat r)) - 1))) (7 - Z.of_nat i) = (i <? r)%nat.
Proof.
  intros Hr Hi. assert (Hall : forallb (fun r => forallb (fun i => Bool.eqb
    (Z.testbit (u8 (Z.lnot (u32 (Z.shiftl 1 (8 - Z.of_nat r)) - 1))) (7 - Z.of_nat i)) (i <? r)%nat) (seq 0 8)) (seq 0 8) = true) by by vm_compute.
  rewrite forallb_forall in Hall. specialize (Hall r ltac:(apply in_seq; lia)).
  rewrite forallb_forall in Hall. specialize (Hall i ltac:(apply in_seq; lia)). by apply eqb_prop in Hall.
Qed.

Lemma ipv6_in_ipv6_net_spec a m n : length a = 16%nat -> length m = 16%nat -> Forall byte a -> Forall byte m -> 0 <= n <= 128 ->
  ipv6_in_ipv6_net a m n = Ok (bool_decide (same_prefix (Z.to_nat n) a m)).
Proof.
  intros La Lm Ha Hm Hn. unfold ipv6_in_ipv6_net.
  set (k := Z.to_nat (n / 8)). set (r := Z.to_nat (n mod 8)).
  pose proof (Z.mod_pos_bound n 8 ltac:(lia)) as Hmod. pose proof (Z.div_mod n 8 ltac:(lia)) as Hdm.
  assert (Er : n mod 8 = Z.of_nat r) by lia. assert (Hr : (r < 8)%nat) by lia.
  assert (Ek : Z.to_nat n = (8 * k + r)%nat) by lia. assert (Hk : (k <= 16)%nat) by lia.
  unfold memcmp_eq. rewrite La, Lm, (proj2 (Nat.leb_le _ _) Hk). cbn [andb mbind res_bind].
  rewrite Er, wrapu_small by lia.
  assert (E : same_prefix (Z.to_nat n) a m <-> _) by (rewrite Ek; apply same_prefix_split; done || lia).
  case_bool_decide as Ht; cbn [negb]; [|by rewrite bool_decide_eq_false_2 by (rewrite E; tauto)].
  destruct (Z.eqb_spec (Z.of_nat r) 0) as [E0|E0]; [rewrite bool_decide_eq_true_2; [done|rewrite E; split; [done|lia]]|].
  destruct (lookup_lt_is_Some_2 a k ltac:(lia)) as [x Hx]. destruct (lookup_lt_is_Some_2 m k ltac:(lia)) as [y Hy].
  unfold nth_byte. rewrite Hx, Hy. cbn [mbind res_bind default]. f_equal. apply eq_bool_prop_intro.
  rewrite bool_decide_spec, Is_true_true, Z.eqb_eq, E. cbn [default].
  rewrite (land_eq_iff x y) by (exact (Forall_lookup_1 _ _ _ _ Ha Hx) || exact (Forall_lookup_1 _ _ _ _ Hm Hy)). rewrite Hx, Hy. cbn [default].
  split.
  - intros Hall. split; [done|]. intros i Hi. apply Hall; [lia|]. rewrite byte_mask by lia. by apply Nat.ltb_lt.
  - intros [_ Hall] i Hi Hb. apply Hall. rewrite byte_mask in Hb by done. by apply Nat.ltb_lt.
Qed.

Lemma mapped_ok w : length (mapped w) = 16%nat /\ Forall byte (mapped w).
Proof.
  destruct (addr4_ok w) as [Hl Hf]. unfold mapped. rewrite length_app, Hl. split; [done|].
  apply Forall_app. split; [|done]. repeat constructor; done.
Qed.

Lemma in_mapped_prefix a : length a = 16%nat -> Forall byte a ->
  ipv6_in_ipv6_net a ipv6match 96 = Ok (bool_decide (take 12 a = take 12 ipv6match)).
Proof.
  intros La Ha. assert (Fm : Forall byte ipv6match) by (repeat constructor; done).
  rewrite ipv6_in_ipv6_net_spec by (done || lia). f_equal. apply bool_decide_ext.
  rewrite <- (same_prefix_all (take 12 a) (take 12 ipv6match)) by (by apply Forall_take || by rewrite !length_take, La).
  rewrite length_take_le by lia. change (Z.to_nat 96) with (8 * 12)%nat.
  unfold same_prefix. split; intros Hall i Hi; specialize (Hall i Hi); by rewrite !bit_take in * by done.
Qed.

Lemma ip_in_net_spec target network : rv_ok target -> rv_ok network ->
  exists b, ip_in_net target network = Ok b /\ (b = true <-> in_net target network).
Proof.
  destruct target as [| | | |a am|a an], network as [| | | |m mask|m n]; cbn [rv_ok ip_in_net in_net]; intros Ht Hn;
    try (eexists; split; [done|]; done).
  - destruct Ht as [Ha _], Hn as [Hm Hk]. eexists. split; [done|]. destruct (addr4_ok a) as [La Fa].
    rewrite <- (word_word_bytes host_big a Ha) at 1. rewrite ipv4_in_ipv4_net_spec by done. apply bool_decide_eq_true.
  - destruct (mapped_ok a) as [La Fa], Hn as (Lm & Fm & Hn). eexists. split; [by apply ipv6_in_ipv6_net_spec|]. apply bool_decide_eq_true.
  - destruct Ht as (La & Fa & _), Hn as [Hm Hk]. unfold ipv6_in_ipv4_net. rewrite in_mapped_prefix by done. cbn [mbind res_bind].
    case_bool_decide as Hp; cbn [negb]; [|eexists; split; [done|]; naive_solver].
    rewrite (proj2 (Nat.ltb_ge _ _)) by lia. eexists. split; [done|].
    rewrite take_ge by (rewrite length_drop; lia).
    rewrite ipv4_in_ipv4_net_spec by (done || (rewrite length_drop; lia) || by apply Forall_drop). rewrite bool_decide_eq_true. tauto.
  - destruct Ht as (La & Fa & _), Hn as (Lm & Fm & Hn). eexists. split; [by apply ipv6_in_ipv6_net_spec|]. apply bool_decide_eq_true.
Qed.
End net.

(** ** Names *)
Lemma strncmp_prefix s name : strncmp_eq s name (Z.of_nat (String.length s)) = String.prefix s name.
Proof.
  revert name. induction s as [|c s IH]; intros name; [by destruct name|].
  cbn [strncmp_eq]. rewrite (proj2 (Z.leb_gt _ _)) by (simpl; lia).
  destruct name as [|d name]; [done|]. cbn [String.prefix].
  replace (Z.of_nat (String.length (String c s)) - 1) with (Z.of_nat (String.length s)) by (simpl; lia).
  destruct (Ascii.ascii_dec c d) as [->|Hne]; [by rewrite Ascii.eqb_refl, IH|]. by rewrite (proj2 (Ascii.eqb_neq _ _) Hne).
Qed.

(** The first name of a table that [s] abbreviates. *)
Definition first_name (s : string) (l : list (string * cond_lvalue_t)) : cond_lvalue_t :=
  match list_find (fun p => String.prefix s p.1 = true) l with
  | Some (_, p) => p.2
  | None => COMP_UNKNOWN
  end.

Lemma find_name_first s l : find_name s (Z.of_nat (String.length s)) l = first_name s l.
Proof.
  unfold first_name. induction l as [|[name t] l IH]; [done|]. cbn [find_name list_find fst]. rewrite strncmp_prefix, IH.
  destruct (String.prefix s name); [by rewrite decide_True|]. rewrite decide_False by done.
  by destruct (list_find _ l) as [[? ?]|].
Qed.

(** ** Checks *)
Section checks.
Context `{LighttpdLaws}.

Definition string_op (op : comp_operator_t) : bool :=
  match op with
  | CONFIG_COND_EQ | CONFIG_COND_NE | CONFIG_COND_PREFIX | CONFIG_COND_NOPREFIX | CONFIG_COND_SUFFIX | CONFIG_COND_NOSUFFIX => true
  | _ => false
  end.
Definition regex_op (op : comp_operator_t) : bool :=
  match op with CONFIG_COND_MATCH | CONFIG_COND_NOMATCH => true | _ => false end.
Definition ip_op (op : comp_operator_t) : bool :=
  match op with CONFIG_COND_IP | CONFIG_COND_NOTIP => true | _ => false end.
Definition int_op (op : comp_operator_t) : bool :=
  match op with
  | CONFIG_COND_EQ | CONFIG_COND_NE | CONFIG_COND_GT | CONFIG_COND_GE | CONFIG_COND_LT | CONFIG_COND_LE => true
  | _ => false
  end.

(** The operator fits the right value, which is there. *)
Definition made (o : objs) (cond : condition) : Prop :=
  match c_rvalue cond with
  | COND_VALUE_BOOL _ => c_op cond = CONFIG_COND_EQ
  | COND_VALUE_NUMBER _ => int_op (c_op cond) = true
  | COND_VALUE_STRING s => string_op (c_op cond) = true /\ is_Some (strings o !! s)
  | COND_VALUE_REGEXP r => regex_op (c_op cond) = true /\ is_Some (regexes o !! r)
  | rv => ip_op (c_op cond) = true /\ rv_ok rv
  end.

Definition lvalue_ok (o : objs) (lv : condition_lvalue) : Prop :=
  lv_type lv = COMP_REQUEST_HEADER -> exists k, lv_key lv = Some k /\ is_Some (strings o !! k).

Definition ready (o : objs) (cond : condition) (lv : condition_lvalue) : Prop :=
  (exists l, c_lvalue cond = Some l /\ lvalues o !! l = Some lv) /\ lvalue_ok o lv /\ made o cond.

Definition sock_addr_ok (a : sock_addr) : Prop :=
  match a with AF_INET w => is_word w | AF_INET6 l => length l = 16%nat /\ Forall byte l | AF_OTHER => True end.

Definition request_ok (vr : vrequest) : Prop := sock_addr_ok (local_addr vr) /\ sock_addr_ok (remote_addr vr).

(** The stat of the file, if there is or can be one. *)
Definition statted (vr : vrequest) : option physical :=
  if have_stat (phys vr) then Some (phys vr)
  else if have_errno (phys vr) then None
  else let r := vrequest_stat (phys vr) in if r.1 then Some r.2 else None.

(** The text of a left value. *)
Definition left_text (o : objs) (vr : vrequest) (lv : condition_lvalue) : option (list Z) :=
  match lv_type lv with
  | COMP_REQUEST_LOCALIP => Some (local_addr_str vr)
  | COMP_REQUEST_REMOTEIP => Some (remote_addr_str vr)
  | COMP_REQUEST_PATH => Some (uri_path vr)
  | COMP_REQUEST_HOST => Some (uri_host vr)
  | COMP_REQUEST_SCHEME => Some (if is_ssl vr then str "https" else str "http")
  | COMP_REQUEST_QUERY_STRING => Some (uri_query vr)
  | COMP_REQUEST_METHOD => Some (http_method_str vr)
  | COMP_PHYSICAL_PATH => Some (phys_path (phys vr))
  | COMP_PHYSICAL_PATH_EXISTS => Some []
  | COMP_REQUEST_HEADER =>
      Some (http_header_get_fast (request_headers vr) (default [] (k ← lv_key lv; strings o !! k)))
  | COMP_REQUEST_CONTENT_LENGTH => Some (print_offset (content_length vr))
  | _ => None
  end.

(** The address of a left value, if it can have one. *)
Definition left_addr (o : objs) (vr : vrequest) (lv : condition_lvalue) : option (option condition_rvalue) :=
  match lv_type lv with
  | COMP_REQUEST_LOCALIP => Some (condition_ip_from_socket (local_addr vr))
  | COMP_REQUEST_REMOTEIP => Some (condition_ip_from_socket (remote_addr vr))
  | COMP_REQUEST_HOST | COMP_REQUEST_QUERY_STRING | COMP_REQUEST_HEADER => condition_parse_ip <$> left_text o vr lv
  | _ => None
  end.

(** What a comparison says. *)
Definition text_holds (op : comp_operator_t) (val s : list Z) : Prop :=
  match op with
  | CONFIG_COND_EQ => val = s
  | CONFIG_COND_NE => val <> s
  | CONFIG_COND_PREFIX => s `prefix_of` val
  | CONFIG_COND_NOPREFIX => ~ s `prefix_of` val
  | CONFIG_COND_SUFFIX => s `suffix_of` val
  | CONFIG_COND_NOSUFFIX => ~ s `suffix_of` val
  | _ => False
  end.

Definition regex_holds (op : comp_operator_t) (re : regex) (val : list Z) : Prop :=
  match op with
  | CONFIG_COND_MATCH => (g_regex_match re val).1 = true
  | _ => (g_regex_match re val).1 <> true
  end.

Definition int_holds (op : comp_operator_t) (val i : Z) : Prop :=
  match op with
  | CONFIG_COND_EQ => val = i
  | CONFIG_COND_NE => val <> i
  | CONFIG_COND_GT => val > i
  | CONFIG_COND_GE => val >= i
  | CONFIG_COND_LT => val < i
  | CONFIG_COND_LE => val <= i
  | _ => False
  end.

(** What a condition says of a request; [None]: it cannot be decided.  A condition on a file that
    cannot be looked at does not hold. *)
Definition meaning (o : objs) (vr : vrequest) (cond : condition) (lv : condition_lvalue) : option Prop :=
  match c_rvalue cond with
  | COND_VALUE_BOOL _ =>
      match lv_type lv with
      | COMP_PHYSICAL_ISDIR => Some (match statted vr with Some p => st_isdir p = true | None => False end)
      | COMP_PHYSICAL_ISFILE => Some (match statted vr with Some p => st_isreg p = true | None => False end)
      | _ => None
      end
  | COND_VALUE_NUMBER i =>
      match lv_type lv with
      | COMP_PHYSICAL_SIZE | COMP_REQUEST_CONTENT_LENGTH =>
          Some (match statted vr with Some p => int_holds (c_op cond) (st_size p) i | None => False end)
      | _ => None
      end
  | COND_VALUE_STRING s =>
      val ← left_text o vr lv; t ← strings o !! s; Some (text_holds (c_op cond) val t)
  | COND_VALUE_REGEXP r =>
      if have_pcre then val ← left_text o vr lv; re ← regexes o !! r; Some (regex_holds (c_op cond) re val) else None
  | _ =>
      match left_addr o vr lv with
      | Some None => Some (c_op cond = CONFIG_COND_NOTIP)
      | _ => None
      end
  end.

(** The parts of a request that a check leaves alone. *)
Definition untouched (vr vr' : vrequest) : Prop :=
  local_addr_str vr' = local_addr_str vr /\ remote_addr_str vr' = remote_addr_str vr /\ local_addr vr' = local_addr vr /\
  remote_addr vr' = remote_addr vr /\ is_ssl vr' = is_ssl vr /\ uri_path vr' = uri_path vr /\ uri_host vr' = uri_host vr /\
  uri_query vr' = uri_query vr /\ http_method_str vr' = http_method_str vr /\ request_headers vr' = request_headers vr /\
  content_length vr' = content_length vr /\ (handled vr' = handled vr \/ statted vr = None /\ handled vr' = S (handled vr)).

(** ** The parts of a check *)
Lemma ensure_stat_spec vr : exists b vr', ensure_stat vr = Ok (b, vr') /\ untouched vr vr' /\
  (if b then statted vr = Some (phys vr') else statted vr = None).
Proof.
  unfold ensure_stat, statted. rewrite M_bind_eq. cbn [getS].
  destruct (have_stat (phys vr)) eqn:E; [exists true, vr; by repeat split; try left|].
  destruct (have_errno (phys vr)) eqn:E'.
  - eexists false, _. split; [done|]. repeat split; try done. right. unfold statted. by rewrite E, E'.
  - destruct (vrequest_stat (phys vr)) as [[] p] eqn:Ev.
    + eexists true, _. split; [done|]. repeat split. by left.
    + eexists false, _. split; [done|]. repeat split. right. unfold statted. by rewrite E, E', Ev.
Qed.

Lemma read_ok {V} `{Store objs V} (o : objs) l (v : V) vr : the_heap o !! l = Some v -> read o (Some l) vr = Ok (v, vr).
Proof. unfold read. by intros ->. Qed.

Lemma untouched_refl vr : untouched vr vr.
Proof. repeat split. by left. Qed.

Lemma untouched_tmp vr t : untouched vr (set_tmp t vr).
Proof. repeat split. by left. Qed.

Lemma untouched_regex vr vr' x : untouched vr vr' -> untouched vr (append_regex x vr').
Proof. done. Qed.

Lemma header_value_ok o lv vr : lvalue_ok o lv -> lv_type lv = COMP_REQUEST_HEADER -> exists vr',
  header_value o lv vr = Ok (http_header_get_fast (request_headers vr) (default [] (k ← lv_key lv; strings o !! k)), vr') /\ untouched vr vr'.
Proof.
  intros Ho Ht. destruct (Ho Ht) as (k & Hk & [t Hs]). unfold header_value. rewrite Hk. cbn [mbind option_bind]. rewrite Hs.
  mstep ltac:(by apply read_ok). eexists. split; [done|]. apply untouched_tmp.
Qed.

Lemma string_value_ok o lv vr : lvalue_ok o lv -> exists vr', string_value o lv vr = Ok (left_text o vr lv, vr') /\ untouched vr vr'.
Proof.
  intros Ho. unfold string_value, left_text. rewrite M_bind_eq. cbn [getS].
  destruct (lv_type lv) eqn:Et; try (eexists; split; [done|]; first [apply untouched_refl|apply untouched_tmp]).
  destruct (header_value_ok o lv vr Ho Et) as (vr' & E & Hu). mstep ltac:(exact E). by exists vr'.
Qed.

Lemma ip_value_ok o lv vr : lvalue_ok o lv -> exists vr', ip_value o lv vr = Ok (left_addr o vr lv, vr') /\ untouched vr vr'.
Proof.
  intros Ho. unfold ip_value, left_addr, left_text. rewrite M_bind_eq. cbn [getS].
  destruct (lv_type lv) eqn:Et; try (eexists; split; [done|apply untouched_refl]).
  destruct (header_value_ok o lv vr Ho Et) as (vr' & E & Hu). mstep ltac:(exact E). by exists vr'.
Qed.

(** A result agrees with a meaning. *)
Definition agrees (r : handler_t * bool) (m : option Prop) : Prop :=
  match m with
  | None => r.1 = HANDLER_ERROR
  | Some P => r.1 = HANDLER_GO_ON /\ (r.2 = true <-> P)
  end.

Lemma agrees_go b (P : Prop) : (b = true <-> P) -> agrees (HANDLER_GO_ON, b) (Some P).
Proof. done. Qed.

Lemma left_addr_ok o vr lv v : request_ok vr -> left_addr o vr lv = Some (Some v) -> rv_ok v.
Proof.
  intros [Hl Hr].
  assert (Hsock : forall a, sock_addr_ok a -> condition_ip_from_socket a = Some v -> rv_ok v).
  { intros [w|l|]; cbn; [intros ? [= <-]; by split|destruct have_ipv6; [|done]; intros [? ?] [= <-]; rewrite take_ge by lia; by split_and!|done]. }
  assert (Hparse : forall t, condition_parse_ip t = Some v -> rv_ok v).
  { intros t. unfold condition_parse_ip. destruct (parse_ipv4 false t) as [[a m]|] eqn:E.
    - intros [= <-]. apply ipv4_words in E as [? _]. by split.
    - destruct (parse_ipv6 false t) as [[a n]|] eqn:E'; [|done]. intros [= <-]. apply ipv6_bytes in E' as (? & ? & _). by split_and!. }
  unfold left_addr, left_text. destruct (lv_type lv); cbn; intros [= E]; eauto.
Qed.

Lemma made_rvalue_ok o cond : made o cond -> rv_ok (c_rvalue cond).
Proof. unfold made. destruct (c_rvalue cond); cbn; tauto. Qed.
End checks.
