(* ===== verification/ConditionOwn.v ===== *)
(** * lighttpd: references to conditions and left values

    A client holds references ([client]) and calls the functions that make,
    acquire and release objects.  [counted]: the count of every object is the
    number of references to it; [owned]: every text and every regular expression
    has exactly one owner.  [after] says what a call takes from the client and
    gives to it: it is not the same for all constructors that fail. *)
From S2P Require Import Prelude Heap NetBits Condition ConditionCheck ConditionProofs.
Open Scope Z_scope.

(** ** Counts and owners *)
Definition count (l : loc) (R : list loc) : nat := count_occ Nat.eq_dec R l.

Definition counted {V} (ref : V -> Z) (h : gmap loc V) (R : list loc) : Prop := forall l,
  match h !! l with
  | Some v => ref v = Z.of_nat (count l R) /\ (0 < count l R)%nat
  | None => count l R = O
  end.

Definition owned {V} (h : gmap loc V) (S : list loc) : Prop := NoDup S /\ forall s, is_Some (h !! s) <-> s ∈ S.

Definition fields {V} (f : V -> option loc) (h : gmap loc V) : list loc := omap f (map_to_list h).*2.

Lemma count_cons l k R : count l (k :: R) = if decide (k = l) then S (count l R) else count l R.
Proof. unfold count. cbn. destruct (Nat.eq_dec k l), (decide (k = l)); done. Qed.

Lemma count_in l R : l ∈ R <-> (0 < count l R)%nat.
Proof. unfold count. rewrite list_elem_of_In. rewrite (count_occ_In Nat.eq_dec). lia. Qed.

Lemma count_le l R : (count l R <= length R)%nat.
Proof. apply count_occ_bound. Qed.

Section counts.
Context {V : Type} (ref : V -> Z).
Implicit Types (h : gmap loc V) (R S : list loc).

Lemma counted_perm h R R' : R ≡ₚ R' -> counted ref h R -> counted ref h R'.
Proof.
  intros HP Hc l. specialize (Hc l). unfold count in *. by rewrite (proj1 (Permutation_count_occ Nat.eq_dec R R') HP) in Hc.
Qed.

Lemma counted_lookup h R l : counted ref h R -> l ∈ R -> exists v, h !! l = Some v /\ ref v = Z.of_nat (count l R) /\ 0 < ref v.
Proof.
  intros Hc Hl%count_in. specialize (Hc l). destruct (h !! l) as [v|]; [|lia]. exists v. split; [done|]. lia.
Qed.

Lemma counted_new h R l v : counted ref h R -> h !! l = None -> ref v = 1 -> counted ref (<[l := v]> h) (l :: R).
Proof.
  intros Hc Hl Hv k. rewrite count_cons. pose proof (Hc k) as Hk. destruct (decide (l = k)) as [->|].
  - rewrite lookup_insert_eq. rewrite Hl in Hk. lia.
  - by rewrite lookup_insert_ne.
Qed.

Lemma counted_incr h R l v v' : counted ref h R -> h !! l = Some v -> ref v' = ref v + 1 -> counted ref (<[l := v']> h) (l :: R).
Proof.
  intros Hc Hl Hv k. rewrite count_cons. pose proof (Hc k) as Hk. destruct (decide (l = k)) as [->|].
  - rewrite lookup_insert_eq. rewrite Hl in Hk. lia.
  - by rewrite lookup_insert_ne.
Qed.

Lemma counted_decr h R l v v' : counted ref h (l :: R) -> h !! l = Some v -> ref v' = ref v - 1 -> ref v' <> 0 ->
  counted ref (<[l := v']> h) R.
Proof.
  intros Hc Hl Hv Hz k. pose proof (Hc k) as Hk. rewrite count_cons in Hk. destruct (decide (l = k)) as [->|].
  - rewrite lookup_insert_eq. rewrite Hl in Hk. lia.
  - by rewrite lookup_insert_ne.
Qed.

Lemma counted_gone h R l v : counted ref h (l :: R) -> h !! l = Some v -> ref v - 1 = 0 -> counted ref (delete l h) R.
Proof.
  intros Hc Hl Hv k. pose proof (Hc k) as Hk. rewrite count_cons in Hk. destruct (decide (l = k)) as [->|].
  - rewrite lookup_delete_eq. rewrite Hl in Hk. lia.
  - by rewrite lookup_delete_ne.
Qed.

Lemma counted_same h R l v v' : counted ref h R -> h !! l = Some v -> ref v' = ref v -> counted ref (<[l := v']> h) R.
Proof.
  intros Hc Hl Hv k. pose proof (Hc k) as Hk. destruct (decide (l = k)) as [->|].
  - rewrite lookup_insert_eq. rewrite Hl in Hk. by rewrite Hv.
  - by rewrite lookup_insert_ne.
Qed.

Lemma counted_nil h : counted ref h [] -> h = ∅.
Proof. intros Hc. apply map_empty. intros l. specialize (Hc l). destruct (h !! l); [cbn in Hc; lia|done]. Qed.

End counts.

Section owners.
Context {V : Type}.
Implicit Types (h : gmap loc V) (R S : list loc).

Lemma owned_perm h S S' : S ≡ₚ S' -> owned h S -> owned h S'.
Proof. intros HP [Hd Ho]. split; [by rewrite <- HP|]. intros s. by rewrite Ho, HP. Qed.

Lemma owned_new h S s v : owned h S -> h !! s = None -> owned (<[s := v]> h) (s :: S).
Proof.
  intros [Hd Ho] Hs. split.
  - constructor; [|done]. rewrite <- Ho, Hs. by intros [? ?].
  - intros k. rewrite elem_of_cons, <- Ho, lookup_insert_is_Some'. naive_solver.
Qed.

Lemma owned_delete h S s : owned h (s :: S) -> owned (delete s h) S.
Proof.
  intros [Hd Ho]. apply NoDup_cons in Hd as [Hs Hd]. split; [done|]. intros k.
  rewrite lookup_delete_is_Some, Ho, elem_of_cons. naive_solver.
Qed.

Lemma owned_update h S s v : owned h S -> s ∈ S -> owned (<[s := v]> h) S.
Proof. intros [Hd Ho] Hs. split; [done|]. intros k. rewrite lookup_insert_is_Some', Ho. naive_solver. Qed.

Lemma owned_nil h : owned h [] -> h = ∅.
Proof.
  intros [_ Ho]. apply map_empty. intros s. destruct (h !! s) eqn:E; [|done].
  exfalso. assert (Hs : s ∈ []) by (apply Ho; by rewrite E). by apply not_elem_of_nil in Hs.
Qed.

Context (f : V -> option loc).

Lemma fields_new h l v : h !! l = None -> fields f (<[l := v]> h) ≡ₚ option_list (f v) ++ fields f h.
Proof. intros Hl. unfold fields. rewrite map_to_list_insert by done. cbn. by destruct (f v). Qed.

Lemma fields_delete h l v : h !! l = Some v -> fields f h ≡ₚ option_list (f v) ++ fields f (delete l h).
Proof. intros Hl. rewrite <- (fields_new (delete l h) l v) by apply lookup_delete_eq. by rewrite insert_delete_id. Qed.

Lemma fields_update h l v v' : h !! l = Some v -> fields f (<[l := v']> h) ≡ₚ option_list (f v') ++ fields f (delete l h).
Proof. intros Hl. rewrite <- insert_delete_eq. apply fields_new, lookup_delete_eq. Qed.

Lemma fields_same h l v v' : h !! l = Some v -> f v' = f v -> fields f (<[l := v']> h) ≡ₚ fields f h.
Proof. intros Hl E. rewrite (fields_update _ _ _ _ Hl), E. symmetry. by apply fields_delete. Qed.

Lemma fields_empty : fields f ∅ = [].
Proof. unfold fields. by rewrite map_to_list_empty. Qed.
End owners.

#[export] Instance owned_proper {V} (h : gmap loc V) : Proper ((≡ₚ) ==> iff) (owned h).
Proof. intros S S' HP. split; by apply owned_perm. Qed.

#[export] Instance counted_proper {V} (ref : V -> Z) (h : gmap loc V) : Proper ((≡ₚ) ==> iff) (counted ref h).
Proof. intros R R' HP. split; by apply counted_perm. Qed.

Fixpoint remove1 (x : loc) (l : list loc) : list loc :=
  match l with
  | [] => []
  | y :: l' => if decide (x = y) then l' else y :: remove1 x l'
  end.

Lemma remove1_perm x l : x ∈ l -> l ≡ₚ x :: remove1 x l.
Proof.
  induction l as [|y l IH]; intros Hx; [by apply not_elem_of_nil in Hx|]. cbn. destruct (decide (x = y)) as [->|]; [done|].
  apply elem_of_cons in Hx as [->|Hx]; [done|]. rewrite (IH Hx) at 1. apply Permutation_swap.
Qed.

(** ** The invariant *)
Section own.
Context `{LighttpdLaws}.

Definition rstring (c : condition) : option loc := match c_rvalue c with COND_VALUE_STRING s => Some s | _ => None end.
Definition rregex (c : condition) : option loc := match c_rvalue c with COND_VALUE_REGEXP r => Some r | _ => None end.

(** The operator fits the right value. *)
Definition fitting (c : condition) : Prop :=
  match c_rvalue c with
  | COND_VALUE_BOOL _ => c_op c = CONFIG_COND_EQ
  | COND_VALUE_NUMBER _ => int_op (c_op c) = true
  | COND_VALUE_STRING _ => string_op (c_op c) = true
  | COND_VALUE_REGEXP _ => regex_op (c_op c) = true
  | rv => ip_op (c_op c) = true /\ rv_ok rv
  end.

Definition keyed (lvs : gmap loc condition_lvalue) : Prop := forall l v,
  lvs !! l = Some v -> lv_type v = COMP_REQUEST_HEADER -> is_Some (lv_key v).

(** The references and texts of the client. *)
Record client := MkClient { cl_lv : list loc; cl_c : list loc; cl_s : list loc }.

Record inv (o : objs) (k : client) : Prop := {
  i_lv : counted lv_ref (lvalues o) (cl_lv k ++ fields c_lvalue (conds o));
  i_c : counted c_ref (conds o) (cl_c k);
  i_s : owned (strings o) (fields lv_key (lvalues o) ++ fields rstring (conds o) ++ cl_s k);
  i_r : owned (regexes o) (fields rregex (conds o));
  i_left c cond : conds o !! c = Some cond -> is_Some (c_lvalue cond);
  i_key : keyed (lvalues o);
  i_room : Z.of_nat (length (cl_lv k ++ fields c_lvalue (conds o))) < 2 ^ 31 /\ Z.of_nat (length (cl_c k)) < 2 ^ 31
}.

Definition all_fitting (cs : gmap loc condition) : Prop := forall c cond, cs !! c = Some cond -> fitting cond.

(** ** Objects *)
Lemma make_ok {V} `{Store objs V} (v : V) o : exists l, the_heap (V := V) o !! l = None /\
  make v o = Ok (l, upd l v o).
Proof. exists (new_loc (the_heap o)). split; [apply new_loc_fresh|done]. Qed.

Lemma dispose_ok {V} `{Store objs V} l (v : V) o : the_heap (V := V) o !! l = Some v ->
  dispose V l o = Ok (tt, with_heap (delete l (the_heap (V := V) o)) o).
Proof. intros Hl. unfold dispose. mstep ltac:(unfold deref; rewrite Hl; done). done. Qed.

Lemma assign_obj {V} `{Store objs V} l (v : V) f o : the_heap (V := V) o !! l = Some v ->
  assign (Some l) f o = Ok (tt, upd l (f v) o).
Proof. intros Hl. unfold assign. mstep ltac:(unfold deref; rewrite Hl; done). done. Qed.

Lemma deref_obj {V} `{Store objs V} l (v : V) o : the_heap (V := V) o !! l = Some v -> deref (Some l) o = Ok ((l, v), o).
Proof. intros Hl. unfold deref. by rewrite Hl. Qed.

Lemma assert_ok b (o : objs) : b = true -> c_assert b o = Ok (tt, o).
Proof. by intros ->. Qed.

(** The left values without one reference: what [condition_lvalue_release] leaves. *)
Definition lv_rest (lvs : gmap loc condition_lvalue) (strs : gmap loc (list Z)) (R S : list loc) : Prop :=
  counted lv_ref lvs R /\ owned strs (fields lv_key lvs ++ S) /\ keyed lvs.

Lemma lvalue_release_ok o l R S :
  lv_rest (lvalues o) (strings o) (l :: R) S -> Z.of_nat (length (l :: R)) < 2 ^ 31 ->
  exists lvs strs, condition_lvalue_release (Some l) o = Ok (tt, MkObjs lvs (conds o) strs (regexes o)) /\ lv_rest lvs strs R S.
Proof.
  intros (Hc & Ho & Hk) Hroom. destruct (counted_lookup _ _ _ l Hc) as (v & Hv & Hr & Hp); [set_solver|].
  pose proof (count_le l (l :: R)) as Hle.
  unfold condition_lvalue_release. mstep ltac:(by apply deref_obj). mstep ltac:(apply assert_ok; lia).
  rewrite wraps_small by (cbn; lia). mstep ltac:(by eapply assign_obj).
  set (v' := set_lv_ref (lv_ref v - 1) v). set (o1 := upd l v' o).
  assert (Hl1 : lvalues o1 !! l = Some v') by apply lookup_insert_eq.
  assert (Hkeys : fields lv_key (lvalues o1) ≡ₚ fields lv_key (lvalues o)) by (by eapply fields_same).
  destruct (Z.eqb_spec (lv_ref v - 1) 0) as [Hz|Hz].
  - pose proof (fields_delete lv_key _ _ _ Hl1) as Hd. rewrite Hkeys in Hd. cbn [lv_key v' set_lv_ref] in Hd.
    assert (Hc2 : counted lv_ref (delete l (lvalues o1)) R) by (cbn; rewrite delete_insert_eq; by eapply counted_gone).
    assert (Hk2 : keyed (delete l (lvalues o1))).
    { intros j w. cbn. rewrite delete_insert_eq. intros [_ Hj]%lookup_delete_Some. by apply (Hk j). }
    destruct (lv_key v) as [key|] eqn:Ekey; cbn [option_list app] in Hd.
    + rewrite Hd in Ho. assert (is_Some (strings o !! key)) as [t Ht] by (apply Ho; set_solver).
      mstep ltac:(by eapply dispose_ok). rewrite (dispose_ok l v') by done.
      eexists _, _. split; [done|]. split; [exact Hc2|]. split; [|exact Hk2]. by apply owned_delete.
    + mstep ltac:(done). rewrite (dispose_ok l v') by done. rewrite Hd in Ho. eexists _, _. split; [done|]. by split.
  - rewrite <- Hkeys in Ho. eexists _, _. split; [done|]. split; [by eapply counted_decr|]. split; [exact Ho|].
    intros j w. cbn. intros [[<- <-]|[_ Hj]]%lookup_insert_Some; [apply (Hk l v Hv)|by apply (Hk j)].
Qed.

Lemma owned_middle {V} (h : gmap loc V) A x B : owned h (A ++ x :: B) <-> owned h (x :: A ++ B).
Proof. by rewrite Permutation_middle. Qed.

Lemma condition_free_ok o c cond l R S T :
  conds o !! c = Some cond -> c_lvalue cond = Some l -> Z.of_nat (length (l :: R)) < 2 ^ 31 ->
  lv_rest (lvalues o) (strings o) (l :: R) (option_list (rstring cond) ++ S) ->
  owned (regexes o) (option_list (rregex cond) ++ T) ->
  exists lvs strs regs, condition_free c o = Ok (tt, MkObjs lvs (delete c (conds o)) strs regs) /\
    lv_rest lvs strs R S /\ owned regs T.
Proof.
  intros Hc Hl Hroom Hrest Hreg. unfold condition_free. mstep ltac:(by apply deref_obj). rewrite Hl.
  destruct (lvalue_release_ok o l R _ Hrest Hroom) as (lvs & strs & E & Hc' & Ho' & Hk'). mstep ltac:(exact E).
  unfold rstring, rregex in *. destruct (c_rvalue cond) as [b|i|s|r|a m|a n] eqn:Ec; cbn [option_list app] in *;
    try (mstep ltac:(done); rewrite (dispose_ok c cond) by done; eexists _, _, _; by split_and!).
  - apply owned_middle in Ho'. assert (is_Some (strs !! s)) as [t Ht] by (apply Ho'; set_solver).
    mstep ltac:(by eapply (dispose_ok (V := list Z))). rewrite (dispose_ok c cond) by done.
    eexists _, _, _. split; [done|]. split; [|done]. split; [done|]. split; [by apply owned_delete|done].
  - assert (is_Some (regexes o !! r)) as [t Ht] by (apply Hreg; set_solver).
    mstep ltac:(by eapply (dispose_ok (V := regex))). rewrite (dispose_ok c cond) by done.
    eexists _, _, _. split; [done|]. split; [done|]. by apply owned_delete.
Qed.

Lemma inv_parts o k : inv o k ->
  lv_rest (lvalues o) (strings o) (cl_lv k ++ fields c_lvalue (conds o)) (fields rstring (conds o) ++ cl_s k).
Proof. intros Hi. split; [apply Hi|]. split; [apply Hi|apply Hi]. Qed.

(** The last reference of a condition goes, or one of several. *)
Lemma condition_release_ok o lvk ck sk c : inv o (MkClient lvk (c :: ck) sk) ->
  exists o', condition_release (Some c) o = Ok (tt, o') /\ (all_fitting (conds o) -> all_fitting (conds o')) /\
    (c ∉ ck -> conds o' = delete c (conds o)) /\ inv o' (MkClient lvk ck sk).
Proof.
  intros Hi. pose proof (i_c _ _ Hi) as Hcc. cbn [cl_c] in Hcc.
  destruct (counted_lookup _ _ _ c Hcc) as (cond & Hc & Hr & Hp); [set_solver|].
  pose proof (count_le c (c :: ck)) as Hle. destruct (i_room _ _ Hi) as [Hroom Hroom']. cbn [cl_c] in *.
  destruct (i_left _ _ Hi _ _ Hc) as [l Hl].
  unfold condition_release. mstep ltac:(by apply deref_obj). mstep ltac:(apply assert_ok; lia).
  rewrite wraps_small by (cbn; lia). mstep ltac:(by eapply assign_obj).
  set (cond' := set_c_ref (c_ref cond - 1) cond). set (o1 := upd c cond' o).
  assert (Hc1 : conds o1 !! c = Some cond') by apply lookup_insert_eq.
  destruct (Z.eqb_spec (c_ref cond - 1) 0) as [Hz|Hz].
  - pose proof (inv_parts _ _ Hi) as Hrest. cbn [cl_lv cl_s] in *.
    pose proof (fields_delete c_lvalue _ _ _ Hc) as Hdl. rewrite Hl in Hdl. cbn [option_list app] in Hdl.
    pose proof (fields_delete rstring _ _ _ Hc) as Hds. pose proof (fields_delete rregex _ _ _ Hc) as Hdr.
    assert (HP : lvk ++ fields c_lvalue (conds o) ≡ₚ l :: lvk ++ fields c_lvalue (delete c (conds o))).
    { by rewrite Hdl, Permutation_middle. }
    destruct (condition_free_ok o1 c cond' l (lvk ++ fields c_lvalue (delete c (conds o)))
      (fields rstring (delete c (conds o)) ++ sk) (fields rregex (delete c (conds o)))) as (lvs & strs & regs & E & (R1 & R2 & R3) & R4).
    + done.
    + done.
    + by rewrite <- HP.
    + destruct Hrest as (? & Ho & ?). split; [by rewrite <- HP|]. split; [|done]. rewrite Hds in Ho. by rewrite <- app_assoc in Ho.
    + change (rregex cond') with (rregex cond). rewrite <- Hdr. apply (i_r _ _ Hi).
    + rewrite E. eexists. split; [done|]. cbn; rewrite !delete_insert_eq. split.
      { intros Hf j w [_ Hj]%lookup_delete_Some. by apply (Hf j). }
      split; [done|].
      split; cbn [lvalues conds strings regexes cl_lv cl_c cl_s]; try done.
      * by eapply counted_gone.
      * intros j w [_ Hj]%lookup_delete_Some. by apply (i_left _ _ Hi j).
      * rewrite HP in Hroom. cbn [length] in Hroom, Hroom'. change (the_heap o) with (conds o). lia.
  - eexists. split; [done|]. split.
    { intros Hf j w. cbn. intros [[<- <-]|[_ Hj]]%lookup_insert_Some; [exact (Hf c cond Hc)|by apply (Hf j)]. }
    split.
    { intros Hck. exfalso. rewrite count_cons, decide_True in Hr by done. rewrite count_in in Hck. lia. }
    split; cbn [lvalues conds strings regexes cl_lv cl_c cl_s o1 upd with_heap the_heap cond_store set_conds] in *.
    + rewrite (fields_same c_lvalue _ _ cond) by done. apply (i_lv _ _ Hi).
    + by eapply counted_decr.
    + rewrite (fields_same rstring _ _ cond) by done. apply (i_s _ _ Hi).
    + rewrite (fields_same rregex _ _ cond) by done. apply (i_r _ _ Hi).
    + intros j w [[<- <-]|[_ Hj]]%lookup_insert_Some; [by exists l|by apply (i_left _ _ Hi j)].
    + apply (i_key _ _ Hi).
    + split; [|cbn in Hroom'; lia]. by rewrite (fields_same c_lvalue _ _ cond) by done.
Qed.

Lemma lvalue_release_inv o lvk ck sk l : inv o (MkClient (l :: lvk) ck sk) ->
  exists o', condition_lvalue_release (Some l) o = Ok (tt, o') /\ conds o' = conds o /\ inv o' (MkClient lvk ck sk).
Proof.
  intros Hi. pose proof (inv_parts _ _ Hi) as Hrest. destruct (i_room _ _ Hi) as [Hroom Hroom']. cbn [cl_lv cl_s cl_c] in *.
  destruct (lvalue_release_ok o l (lvk ++ fields c_lvalue (conds o)) _ Hrest Hroom) as (lvs & strs & E & R1 & R2 & R3).
  rewrite E. eexists. split; [done|]. split; [done|]. split; cbn; try done; [apply Hi|apply Hi|apply Hi|].
  split; [|done]. cbn in Hroom. lia.
Qed.

Lemma lvalue_acquire_inv o lvk ck sk l : inv o (MkClient lvk ck sk) -> l ∈ lvk ->
  Z.of_nat (length (l :: lvk ++ fields c_lvalue (conds o))) < 2 ^ 31 ->
  exists o', condition_lvalue_acquire l o = Ok (tt, o') /\ conds o' = conds o /\ inv o' (MkClient (l :: lvk) ck sk).
Proof.
  intros Hi Hl Hroom. pose proof (i_lv _ _ Hi) as Hc. cbn [cl_lv] in Hc.
  destruct (counted_lookup _ _ _ l Hc) as (v & Hv & Hr & Hp); [set_solver|].
  pose proof (count_le l (lvk ++ fields c_lvalue (conds o))) as Hle. cbn [length] in Hroom.
  unfold condition_lvalue_acquire. mstep ltac:(by apply deref_obj). mstep ltac:(apply assert_ok; lia).
  rewrite wraps_small by (cbn; lia). rewrite (assign_obj l v) by done.
  set (v' := set_lv_ref (lv_ref v + 1) v). eexists. split; [done|]. split; [done|].
  split; cbn [lvalues conds strings regexes cl_lv cl_c cl_s upd with_heap the_heap lvalue_store set_lvalues].
  - by eapply (counted_incr lv_ref).
  - apply (i_c _ _ Hi).
  - rewrite (fields_same lv_key _ _ v) by done. apply (i_s _ _ Hi).
  - apply (i_r _ _ Hi).
  - apply (i_left _ _ Hi).
  - intros j w [[<- <-]|[_ Hj]]%lookup_insert_Some; [apply (i_key _ _ Hi l v Hv)|by apply (i_key _ _ Hi j)].
  - split; [done|apply (i_room _ _ Hi)].
Qed.

Lemma condition_acquire_inv o lvk ck sk c : inv o (MkClient lvk ck sk) -> c ∈ ck -> Z.of_nat (length (c :: ck)) < 2 ^ 31 ->
  exists o', condition_acquire c o = Ok (tt, o') /\ (all_fitting (conds o) -> all_fitting (conds o')) /\
    inv o' (MkClient lvk (c :: ck) sk).
Proof.
  intros Hi Hl Hroom. pose proof (i_c _ _ Hi) as Hcc. cbn [cl_c] in Hcc.
  destruct (counted_lookup _ _ _ c Hcc Hl) as (cond & Hc & Hr & Hp). pose proof (count_le c ck) as Hle. cbn [length] in Hroom.
  unfold condition_acquire. mstep ltac:(by apply deref_obj). mstep ltac:(apply assert_ok; lia).
  rewrite wraps_small by (cbn; lia). rewrite (assign_obj c cond) by done.
  set (cond' := set_c_ref (c_ref cond + 1) cond). eexists. split; [done|].
  split; [intros Hf j w; cbn; intros [[<- <-]|[_ Hj]]%lookup_insert_Some; [exact (Hf c cond Hc)|by apply (Hf j)]|].
  split; cbn [lvalues conds strings regexes cl_lv cl_c cl_s upd with_heap the_heap cond_store set_conds].
  - rewrite (fields_same c_lvalue _ _ cond) by done. apply (i_lv _ _ Hi).
  - by eapply counted_incr.
  - rewrite (fields_same rstring _ _ cond) by done. apply (i_s _ _ Hi).
  - rewrite (fields_same rregex _ _ cond) by done. apply (i_r _ _ Hi).
  - intros j w [[<- <-]|[_ Hj]]%lookup_insert_Some; [apply (i_left _ _ Hi c cond Hc)|by apply (i_left _ _ Hi j)].
  - apply (i_key _ _ Hi).
  - split; [|done]. rewrite (fields_same c_lvalue _ _ cond) by done. apply (i_room _ _ Hi).
Qed.

(** ** Making objects *)
Lemma lvalue_new_inv o lvk ck sk t key : inv o (MkClient lvk ck (option_list key ++ sk)) ->
  (t = COMP_REQUEST_HEADER -> is_Some key) -> Z.of_nat (S (length (lvk ++ fields c_lvalue (conds o)))) < 2 ^ 31 ->
  exists l o', condition_lvalue_new t key o = Ok (l, o') /\ conds o' = conds o /\ inv o' (MkClient (l :: lvk) ck sk).
Proof.
  intros Hi Hkey Hroom. unfold condition_lvalue_new.
  assert (Hd : exists strs, (if bool_decide (t = COMP_REQUEST_HEADER) then assign (V := list Z) key ascii_down else mret tt) o =
      Ok (tt, set_strings strs o) /\ owned strs (fields lv_key (lvalues o) ++ fields rstring (conds o) ++ option_list key ++ sk)).
  { pose proof (i_s _ _ Hi) as Ho. cbn [cl_s] in Ho. case_bool_decide as Ht; [|by exists (strings o); destruct o].
    destruct (Hkey Ht) as [k ->]. assert (is_Some (strings o !! k)) as [x Hx] by (apply Ho; set_solver).
    rewrite (assign_obj k x) by done. exists (<[k := ascii_down x]> (strings o)). split; [done|]. apply owned_update; [done|set_solver]. }
  destruct Hd as (strs & E & Ho). mstep ltac:(exact E). set (o1 := set_strings strs o).
  destruct (make_ok (MkLvalue t key 1) o1) as (l & Hl & El). rewrite El. exists l. eexists. split; [done|]. split; [done|].
  cbn in Hl. split; cbn [lvalues conds strings regexes cl_lv cl_c cl_s upd with_heap the_heap lvalue_store set_lvalues o1 set_strings].
  - apply (counted_new lv_ref); [apply (i_lv _ _ Hi)|done|done].
  - apply (i_c _ _ Hi).
  - rewrite (fields_new lv_key) by done. cbn [lv_key]. eapply owned_perm; [|exact Ho]. solve_Permutation.
  - apply (i_r _ _ Hi).
  - apply (i_left _ _ Hi).
  - intros j w [[<- <-]|[_ Hj]]%lookup_insert_Some; [exact Hkey|by apply (i_key _ _ Hi j)].
  - split; [done|apply (i_room _ _ Hi)].
Qed.

(** A new condition takes the reference to its left value and the text or expression it holds. *)
Lemma inv_add_cond o strs regs lvk ck sk sk0 l c cond :
  inv o (MkClient (l :: lvk) ck sk0) -> conds o !! c = None -> c_lvalue cond = Some l -> c_ref cond = 1 ->
  Z.of_nat (length (c :: ck)) < 2 ^ 31 ->
  owned strs (fields lv_key (lvalues o) ++ fields rstring (conds o) ++ option_list (rstring cond) ++ sk) ->
  owned regs (option_list (rregex cond) ++ fields rregex (conds o)) ->
  inv (MkObjs (lvalues o) (<[c := cond]> (conds o)) strs regs) (MkClient lvk (c :: ck) sk).
Proof.
  intros Hi Hc Hl Hr Hroom Hs Hre. destruct (i_room _ _ Hi) as [Hlr _].
  assert (HP : lvk ++ fields c_lvalue (<[c := cond]> (conds o)) ≡ₚ (l :: lvk) ++ fields c_lvalue (conds o)).
  { rewrite (fields_new c_lvalue) by done. rewrite Hl. cbn. by rewrite Permutation_middle. }
  split; cbn [lvalues conds strings regexes cl_lv cl_c cl_s].
  - rewrite HP. apply (i_lv _ _ Hi).
  - apply (counted_new c_ref); [apply (i_c _ _ Hi)|done|done].
  - rewrite (fields_new rstring) by done. eapply owned_perm; [|exact Hs]. solve_Permutation.
  - by rewrite (fields_new rregex) by done.
  - intros j w [[<- <-]|[_ Hj]]%lookup_insert_Some; [by rewrite Hl|by apply (i_left _ _ Hi j)].
  - apply (i_key _ _ Hi).
  - split; [|done]. by rewrite HP.
Qed.

Lemma fitting_add cs c cond : all_fitting cs -> fitting cond -> all_fitting (<[c := cond]> cs).
Proof. intros Hf Hc j w [[<- <-]|[_ Hj]]%lookup_insert_Some; [done|by apply (Hf j)]. Qed.

(** [condition_new] and the assignment of the right value. *)
Lemma condition_new_ok op l o : exists c, conds o !! c = None /\
  condition_new op (Some l) o = Ok (c, upd c (MkCond op (Some l) rv_zero 1) o).
Proof. exists (new_loc (conds o)). split; [apply new_loc_fresh|done]. Qed.

Lemma set_rvalue_ok o c op l rv rv' : assign (Some c) (set_rvalue rv') (upd c (MkCond op (Some l) rv 1) o) =
  Ok (tt, upd c (MkCond op (Some l) rv' 1) o).
Proof.
  rewrite (assign_obj c (MkCond op (Some l) rv 1)) by apply lookup_insert_eq. unfold set_rvalue, upd. cbn. unfold set_conds. cbn.
  by rewrite insert_insert_eq.
Qed.

Section new.
Context (o : objs) (lvk ck sk : list loc) (l : loc).

(** The call gives a condition; the client has [sk'] left of its texts. *)
Definition gives (m : M objs cfault (option loc)) (sk' : list loc) : Prop :=
  exists c o', m o = Ok (Some c, o') /\ inv o' (MkClient lvk (c :: ck) sk') /\ (all_fitting (conds o) -> all_fitting (conds o')).

Lemma new_plain op rv : inv o (MkClient (l :: lvk) ck sk) -> Z.of_nat (S (length ck)) < 2 ^ 31 ->
  fitting (MkCond op (Some l) rv 1) -> (forall s, rv <> COND_VALUE_STRING s) -> (forall r, rv <> COND_VALUE_REGEXP r) ->
  gives (c ← condition_new op (Some l); assign (Some c) (set_rvalue rv) ;; mret (Some c)) sk.
Proof.
  intros Hi Hroom Hf Hs Hr. destruct (condition_new_ok op l o) as (c & Hc & E). unfold gives.
  rewrite (M_bind_ok _ _ _ _ _ E). mstep ltac:(apply set_rvalue_ok). exists c. eexists. split; [done|].
  split; [|intros Ha; by apply fitting_add].
  assert (En : rstring (MkCond op (Some l) rv 1) = None /\ rregex (MkCond op (Some l) rv 1) = None).
  { unfold rstring, rregex. cbn. destruct rv; try done; [by destruct (Hs s)|by destruct (Hr r)]. }
  destruct En as [E1 E2]. eapply (inv_add_cond o); [exact Hi|done|done|done|done|rewrite E1; apply Hi|rewrite E2; apply Hi].
Qed.

Lemma new_string op s : inv o (MkClient (l :: lvk) ck (s :: sk)) -> Z.of_nat (S (length ck)) < 2 ^ 31 ->
  string_op op = true -> gives (cond_new_string op (Some l) s) sk.
Proof.
  intros Hi Hroom Hf. destruct (condition_new_ok op l o) as (c & Hc & E). unfold gives, cond_new_string.
  rewrite (M_bind_ok _ _ _ _ _ E). mstep ltac:(apply set_rvalue_ok). exists c. eexists. split; [done|].
  split; [|intros Ha; by apply fitting_add].
  eapply (inv_add_cond o); [exact Hi|done|done|done|done|apply Hi|apply Hi].
Qed.

Lemma new_match op s : inv o (MkClient (l :: lvk) ck (s :: sk)) -> Z.of_nat (S (length ck)) < 2 ^ 31 -> regex_op op = true ->
  gives (cond_new_match op (Some l) s) sk \/ cond_new_match op (Some l) s o = Ok (None, o).
Proof.
  intros Hi Hroom Hf. pose proof (i_s _ _ Hi) as Ho. cbn [cl_s] in Ho.
  assert (is_Some (strings o !! s)) as [t Ht] by (apply Ho; set_solver).
  assert (Ed : deref (V := list Z) (Some s) o = Ok ((s, t), o)) by (by apply deref_obj).
  unfold gives, cond_new_match. rewrite (M_bind_ok _ _ _ _ _ Ed). cbn [snd].
  destruct (g_regex_new t) as [re|]; [left|by right].
  destruct (make_ok re o) as (r & Hr & Er). rewrite (M_bind_ok _ _ _ _ _ Er).
  destruct (condition_new_ok op l (upd r re o)) as (c & Hc & E). rewrite (M_bind_ok _ _ _ _ _ E).
  mstep ltac:(apply set_rvalue_ok). mstep ltac:(by eapply (dispose_ok (V := list Z))).
  exists c. eexists. split; [done|]. split; [|intros Ha; by apply fitting_add].
  eapply (inv_add_cond o); [exact Hi|exact Hc|done|done|done| |].
  - rewrite app_assoc in Ho. apply owned_middle, owned_delete in Ho. by rewrite <- app_assoc in Ho.
  - apply owned_new; [apply Hi|exact Hr].
Qed.

Lemma new_ip op s : inv o (MkClient (l :: lvk) ck sk) -> Z.of_nat (S (length ck)) < 2 ^ 31 -> ip_op op = true -> s ∈ sk ->
  gives (cond_new_ip op (Some l) s) sk \/
  exists o', cond_new_ip op (Some l) s o = Ok (None, o') /\ inv o' (MkClient lvk ck sk) /\ conds o' = conds o.
Proof.
  intros Hi Hroom Hf Hs. pose proof (i_s _ _ Hi) as Ho. cbn [cl_s] in Ho.
  assert (is_Some (strings o !! s)) as [t Ht] by (apply Ho; set_solver).
  destruct (condition_new_ok op l o) as (c & Hc & E). unfold gives, cond_new_ip. rewrite (M_bind_ok _ _ _ _ _ E).
  set (o1 := upd c (MkCond op (Some l) rv_zero 1) o).
  assert (Ed : deref (V := list Z) (Some s) o1 = Ok ((s, t), o1)) by (by apply deref_obj).
  rewrite (M_bind_ok _ _ _ _ _ Ed). cbn [snd]. subst o1.
  assert (Hadd : forall rv, (forall s, rv <> COND_VALUE_STRING s) -> (forall r, rv <> COND_VALUE_REGEXP r) ->
    inv (upd c (MkCond op (Some l) rv 1) o) (MkClient lvk (c :: ck) sk)).
  { intros rv H1 H2.
    assert (En : rstring (MkCond op (Some l) rv 1) = None /\ rregex (MkCond op (Some l) rv 1) = None).
    { unfold rstring, rregex. cbn. destruct rv; try done; [by destruct (H1 s0)|by destruct (H2 r)]. }
    destruct En as [E1 E2]. eapply (inv_add_cond o); [exact Hi|done|done|done|done|rewrite E1; apply Hi|rewrite E2; apply Hi]. }
  destruct (condition_parse_ip_net t) as [rv|] eqn:Ep; [left|right].
  - mstep ltac:(apply set_rvalue_ok). exists c. eexists. split; [done|].
    assert (Hrv : rv_ok rv /\ (forall s, rv <> COND_VALUE_STRING s) /\ (forall r, rv <> COND_VALUE_REGEXP r) /\
      fitting (MkCond op (Some l) rv 1)).
    { unfold condition_parse_ip_net in Ep. destruct (parse_ipv4 true t) as [[a m]|] eqn:E4.
      - injection Ep as <-. apply ipv4_words in E4 as [? ?]. by split_and!.
      - destruct (parse_ipv6 true t) as [[a n]|] eqn:E6; [|done]. injection Ep as <-. apply ipv6_bytes in E6 as (? & ? & ?). by split_and!. }
    destruct Hrv as (_ & H1 & H2 & H3). split; [by apply Hadd|]. intros Ha. by apply fitting_add.
  - destruct rv_zero_plain as (zb & zi & Hz).
    destruct (condition_release_ok (upd c (MkCond op (Some l) rv_zero 1) o) lvk ck sk c) as (o' & Er & _ & Hgone & Hi').
    { apply Hadd; intros ?; by destruct Hz as [->| ->]. }
    mstep ltac:(exact Er). exists o'. split; [done|]. split; [done|]. rewrite Hgone; [cbn; by apply delete_insert_id|].
    intros Hin. destruct (counted_lookup _ _ _ c (i_c _ _ Hi) Hin) as (w & Hw & _). congruence.
Qed.
End new.

(** ** Calls *)
Inductive ccall :=
  | NewText (t : list Z) | FreeText (s : loc)
  | NewLvalue (t : cond_lvalue_t) (key : option loc) | AcquireL (l : loc) | ReleaseL (l : loc)
  | NewBool (l : loc) (b : bool) | NewString (op : comp_operator_t) (l s : loc) | NewInt (op : comp_operator_t) (l : loc) (i : Z)
  | AcquireC (c : loc) | ReleaseC (c : loc).

Definition exec (c : ccall) : M objs cfault (option loc) :=
  match c with
  | NewText t => s ← make t; mret (Some s)
  | FreeText s => dispose (list Z) s ;; mret None
  | NewLvalue t key => l ← condition_lvalue_new t key; mret (Some l)
  | AcquireL l => condition_lvalue_acquire l ;; mret None
  | ReleaseL l => condition_lvalue_release (Some l) ;; mret None
  | NewBool l b => condition_new_bool (Some l) b
  | NewString op l s => condition_new_string op (Some l) s
  | NewInt op l i => condition_new_int op (Some l) i
  | AcquireC c => condition_acquire c ;; mret None
  | ReleaseC c => condition_release (Some c) ;; mret None
  end.

(** The client uses what it holds. *)
Definition legal (c : ccall) (k : client) : Prop :=
  match c with
  | NewText _ => True
  | FreeText s => s ∈ cl_s k
  | NewLvalue t key => (forall s, key = Some s -> s ∈ cl_s k) /\ (t = COMP_REQUEST_HEADER -> is_Some key)
  | AcquireL l | ReleaseL l | NewBool l _ | NewInt _ l _ => l ∈ cl_lv k
  | NewString _ l s => l ∈ cl_lv k /\ s ∈ cl_s k
  | AcquireC c | ReleaseC c => c ∈ cl_c k
  end.

(** What it holds after the call with the result [r].  A new condition takes the reference to its left
    value, and its text unless it is made of a network; a call that fails takes nothing, except that one
    with a network that does not parse has released the left value. *)
Definition after (c : ccall) (r : option loc) (k : client) : client :=
  let 'MkClient lv ck sk := k in
  match c, r with
  | NewText _, Some s => MkClient lv ck (s :: sk)
  | FreeText s, _ => MkClient lv ck (remove1 s sk)
  | NewLvalue _ key, Some l => MkClient (l :: lv) ck (match key with Some s => remove1 s sk | None => sk end)
  | AcquireL l, _ => MkClient (l :: lv) ck sk
  | ReleaseL l, _ => MkClient (remove1 l lv) ck sk
  | NewBool l _, Some c | NewInt _ l _, Some c => MkClient (remove1 l lv) (c :: ck) sk
  | NewString op l s, Some c => MkClient (remove1 l lv) (c :: ck) (if ip_op op then sk else remove1 s sk)
  | NewString op l s, None => if ip_op op then MkClient (remove1 l lv) ck sk else k
  | AcquireC c, _ => MkClient lv (c :: ck) sk
  | ReleaseC c, _ => MkClient lv (remove1 c ck) sk
  | _, _ => k
  end.

(** The counts of an [int] do not overflow. *)
Definition has_room (o : objs) (k : client) : Prop :=
  Z.of_nat (S (length (cl_lv k ++ fields c_lvalue (conds o)))) < 2 ^ 31 /\ Z.of_nat (S (length (cl_c k))) < 2 ^ 31.

Definition sound (o : objs) (k : client) : Prop := inv o k /\ all_fitting (conds o).

Lemma inv_perm o lv ck sk lv' ck' sk' : lv ≡ₚ lv' -> ck ≡ₚ ck' -> sk ≡ₚ sk' ->
  inv o (MkClient lv ck sk) -> inv o (MkClient lv' ck' sk').
Proof.
  intros E1 E2 E3 [? ? ? ? ? ? ?]. cbn [cl_lv cl_c cl_s] in *. split; cbn [cl_lv cl_c cl_s]; rewrite <- ?E1, <- ?E2, <- ?E3; done.
Qed.

Lemma gives_step o lvk ck sk m : gives o lvk ck m sk -> all_fitting (conds o) ->
  exists c o', m o = Ok (Some c, o') /\ sound o' (MkClient lvk (c :: ck) sk).
Proof. intros (c & o' & E & Hi & Hf) Ha. exists c, o'. split; [done|]. split; [done|by apply Hf]. Qed.

Lemma string_step o lvk ck sk op l s : sound o (MkClient lvk ck sk) -> has_room o (MkClient lvk ck sk) -> l ∈ lvk -> s ∈ sk ->
  exists r o', exec (NewString op l s) o = Ok (r, o') /\ sound o' (after (NewString op l s) r (MkClient lvk ck sk)).
Proof.
  intros [Hi Hf] [_ Hroom] Hl%remove1_perm Hs. pose proof (remove1_perm _ _ Hs) as Hs'. cbn [cl_c] in Hroom.
  assert (Hi1 : inv o (MkClient (l :: remove1 l lvk) ck (s :: remove1 s sk))) by (by eapply inv_perm; [..|exact Hi]).
  assert (Hi2 : inv o (MkClient (l :: remove1 l lvk) ck sk)) by (by eapply inv_perm; [..|exact Hi]).
  assert (Hgive : forall m sk', gives o (remove1 l lvk) ck m sk' -> sk' = (if ip_op op then sk else remove1 s sk) ->
    exists r o', m o = Ok (r, o') /\ sound o' (after (NewString op l s) r (MkClient lvk ck sk))).
  { intros m sk' Hg ->. destruct (gives_step _ _ _ _ _ Hg Hf) as (c & o' & E & Hs1). by exists (Some c), o'. }
  cbn [exec]. unfold condition_new_string. destruct op;
    first
    [ by exists None, o
    | solve [eapply Hgive; [by apply new_string|done]]
    | match goal with |- context [cond_new_match ?op] =>
        destruct (new_match o (remove1 l lvk) ck (remove1 s sk) l op s Hi1 Hroom eq_refl) as [Hg|E];
        [by eapply Hgive|by exists None, o]
      end
    | match goal with |- context [cond_new_ip ?op] =>
        destruct (new_ip o (remove1 l lvk) ck sk l op s Hi2 Hroom eq_refl Hs) as [Hg|(o' & E & Hi' & Hc)];
        [by eapply Hgive|exists None, o'; split; [exact E|]; split; [exact Hi'|by rewrite Hc]]
      end ].
Qed.

Lemma int_step o lvk ck sk op l i : sound o (MkClient lvk ck sk) -> has_room o (MkClient lvk ck sk) -> l ∈ lvk ->
  exists r o', exec (NewInt op l i) o = Ok (r, o') /\ sound o' (after (NewInt op l i) r (MkClient lvk ck sk)).
Proof.
  intros [Hi Hf] [_ Hroom] Hl%remove1_perm. cbn [cl_c] in Hroom.
  assert (Hi2 : inv o (MkClient (l :: remove1 l lvk) ck sk)) by (by eapply inv_perm; [..|exact Hi]).
  cbn [exec]. unfold condition_new_int. destruct op; try (by exists None, o);
    (edestruct gives_step as (c & o' & E & Hs); [eapply new_plain; [exact Hi2|exact Hroom|..]|exact Hf|exists (Some c), o'; split; [exact E|exact Hs]]); done.
Qed.

(** Every legal call returns and keeps the invariant. *)
Lemma call_sound c o k : sound o k -> legal c k -> has_room o k ->
  exists r o', exec c o = Ok (r, o') /\ sound o' (after c r k).
Proof.
  intros Hso Hleg Hroom. pose proof Hso as [Hi Hf]. pose proof Hroom as [Hr1 Hr2]. destruct k as [lvk ck sk].
  destruct c as [t|s|t key|l|l|l b|op l s|op l i|c|c]; cbn [legal cl_lv cl_c cl_s exec after] in *.
  - destruct (make_ok t o) as (s & Hs & E). mstep ltac:(exact E). exists (Some s). eexists. split; [done|]. split; [|done].
    destruct Hi as [? ? ? ? ? ? ?]. split; try done. cbn. rewrite !app_assoc, <- Permutation_middle, <- app_assoc. by apply owned_new.
  - pose proof (i_s _ _ Hi) as Ho. cbn [cl_s] in Ho. rewrite (remove1_perm _ _ Hleg), app_assoc, <- Permutation_middle, <- app_assoc in Ho.
    assert (is_Some (strings o !! s)) as [t Ht] by (apply Ho; set_solver).
    mstep ltac:(by eapply (dispose_ok (V := list Z))). eexists None, _. split; [done|]. split; [|done].
    destruct Hi as [? ? ? ? ? ? ?]. split; try done. by apply owned_delete.
  - destruct Hleg as [Hkey Hh].
    destruct (lvalue_new_inv o lvk ck (match key with Some s => remove1 s sk | None => sk end) t key) as (l & o' & E & Ec & Hi'); try done.
    { eapply inv_perm; [..|exact Hi]; try done. destruct key as [s|]; [|done]. cbn. by apply remove1_perm, Hkey. }
    mstep ltac:(exact E). exists (Some l), o'. split; [done|]. split; [done|by rewrite Ec].
  - destruct (lvalue_acquire_inv o lvk ck sk l Hi Hleg Hr1) as (o' & E & Ec & Hi'). mstep ltac:(exact E).
    exists None, o'. split; [done|]. split; [done|by rewrite Ec].
  - destruct (lvalue_release_inv o (remove1 l lvk) ck sk l) as (o' & E & Ec & Hi'); [eapply inv_perm; [..|exact Hi]; [by apply remove1_perm|done..]|].
    mstep ltac:(exact E). exists None, o'. split; [done|]. split; [done|by rewrite Ec].
  - unfold condition_new_bool. edestruct gives_step as (c & o' & E & Hs);
      [eapply (new_plain o (remove1 l lvk) ck sk l CONFIG_COND_EQ (COND_VALUE_BOOL b)); [eapply inv_perm; [..|exact Hi]; [by apply remove1_perm|done..]|done..]|exact Hf|].
    exists (Some c), o'. split; [exact E|exact Hs].
  - destruct Hleg. by apply string_step.
  - by apply int_step.
  - destruct (condition_acquire_inv o lvk ck sk c Hi Hleg Hr2) as (o' & E & Hf' & Hi'). mstep ltac:(exact E).
    exists None, o'. split; [done|]. split; [done|by apply Hf'].
  - destruct (condition_release_ok o lvk (remove1 c ck) sk c) as (o' & E & Hf' & _ & Hi'); [eapply inv_perm; [..|exact Hi]; [done|by apply remove1_perm|done]|].
    mstep ltac:(exact E). exists None, o'. split; [done|]. split; [done|by apply Hf'].
Qed.

(** ** Sessions *)
Definition no_objs : objs := MkObjs ∅ ∅ ∅ ∅.
Definition no_refs : client := MkClient [] [] [].

Inductive session : list ccall -> objs -> client -> objs -> client -> Prop :=
  | session_nil o k : session [] o k o k
  | session_cons c cs o k r o1 o' k' :
      legal c k -> has_room o k -> exec c o = Ok (r, o1) -> session cs o1 (after c r k) o' k' ->
      session (c :: cs) o k o' k'.

Lemma sound_start : sound no_objs no_refs.
Proof.
  assert (Ho : forall V, owned (∅ : gmap loc V) []).
  { intros V. split; [constructor|]. intros s. rewrite lookup_empty. split; [by intros [? ?]|by intros ?%not_elem_of_nil]. }
  split; [|intros c cond; unfold no_objs; cbn; by rewrite lookup_empty].
  split; unfold no_objs, no_refs; cbn [lvalues conds strings regexes cl_lv cl_c cl_s]; rewrite ?fields_empty.
  - intros l. by rewrite lookup_empty.
  - intros l. by rewrite lookup_empty.
  - apply Ho.
  - apply Ho.
  - intros c cond. by rewrite lookup_empty.
  - intros l v. by rewrite lookup_empty.
  - done.
Qed.

Lemma session_sound cs o k o' k' : session cs o k o' k' -> sound o k -> sound o' k'.
Proof.
  induction 1 as [|c cs o k r o1 o' k' Hl Hr E _ IH]; intros Hs; [done|]. apply IH.
  destruct (call_sound c o k Hs Hl Hr) as (r' & o1' & E' & Hs'). rewrite E in E'. by injection E' as <- <-.
Qed.

Lemma fields_in {V} (f : V -> option loc) (h : gmap loc V) c v x : h !! c = Some v -> f v = Some x -> x ∈ fields f h.
Proof. intros Hc Hx. rewrite (fields_delete f h c v Hc), Hx. cbn. set_solver. Qed.

(** A condition that a session made can be checked. *)
Lemma sound_ready o k c cond : sound o k -> conds o !! c = Some cond -> exists lv, ready o cond lv.
Proof.
  intros [Hi Hf] Hc. destruct (i_left _ _ Hi _ _ Hc) as [l Hl].
  destruct (counted_lookup _ _ _ l (i_lv _ _ Hi)) as (lv & Hlv & _).
  { pose proof (fields_in c_lvalue _ _ _ _ Hc Hl). set_solver. }
  pose proof (i_s _ _ Hi) as [_ Ho]. pose proof (i_r _ _ Hi) as [_ Hr]. exists lv. split; [by exists l|]. split.
  - intros Ht. destruct (i_key _ _ Hi l lv Hlv Ht) as [key Hkey]. exists key. split; [done|]. apply Ho.
    pose proof (fields_in lv_key _ _ _ _ Hlv Hkey). set_solver.
  - pose proof (Hf c cond Hc) as Hfit. unfold fitting, made in *. destruct (c_rvalue cond) as [b|i|s|r|a m|a n] eqn:Ec; try done.
    + split; [done|]. apply Ho. assert (s ∈ fields rstring (conds o)) by (apply (fields_in _ _ c cond); [done|]; unfold rstring; by rewrite Ec). set_solver.
    + split; [done|]. apply Hr. apply (fields_in _ _ c cond); [done|]. unfold rregex. by rewrite Ec.
Qed.

Lemma sound_end o : sound o no_refs -> o = no_objs.
Proof.
  intros [Hi _]. pose proof (counted_nil _ _ (i_c _ _ Hi)) as Ec. destruct Hi as [Hl _ Hs Hr _ _ _]. destruct o as [lvs cs strs regs].
  cbn in *. subst cs. rewrite !fields_empty in *. cbn in *. apply counted_nil in Hl as ->. rewrite fields_empty in Hs. cbn in Hs.
  by apply owned_nil in Hs as ->, Hr as ->.
Qed.
End own.
