(* ===== verification/ConditionTheorems.v ===== *)
(** * lighttpd: what conditions promise

    The decision of a check, complementary operators, membership in networks,
    names, sessions of calls.  [Module Httpd] is a small server for the examples. *)
From S2P Require Import Prelude Heap NetBits Condition ConditionCheck ConditionProofs ConditionOwn.
From stdpp Require Import strings.
Open Scope Z_scope.

Section theorems.
Context `{LighttpdLaws}.

Lemma eval_bool_ok o cond lv vr b : ready o cond lv -> c_rvalue cond = COND_VALUE_BOOL b ->
  exists r vr', condition_check_eval_bool o cond vr = Ok (r, vr') /\ agrees r (meaning o vr cond lv) /\ untouched vr vr'.
Proof.
  intros [(l & Hl & Hlv) _] Hb. unfold condition_check_eval_bool, get_lvalue, meaning. rewrite Hb, Hl.
  mstep ltac:(by apply read_ok).
  destruct (lv_type lv); try (mstep ltac:(done); eexists _, _; split; [done|split; [done|apply untouched_refl]]);
    (destruct (ensure_stat_spec vr) as ([] & vr' & E & Hu & Hs); mstep ltac:(exact E); cbn [negb]; rewrite Hs;
      (eexists _, vr'; split; [done|split; [by apply agrees_go|done]])).
Qed.

Lemma eval_int_ok o cond lv vr i : ready o cond lv -> c_rvalue cond = COND_VALUE_NUMBER i ->
  exists r vr', condition_check_eval_int o cond vr = Ok (r, vr') /\ agrees r (meaning o vr cond lv) /\ untouched vr vr'.
Proof.
  intros [(l & Hl & Hlv) [_ Hm]] Hi. unfold condition_check_eval_int, get_lvalue, meaning, rvalue_number, made in *. rewrite Hi in *. rewrite Hl.
  mstep ltac:(by apply read_ok).
  destruct (lv_type lv); try (eexists _, _; split; [done|split; [done|apply untouched_refl]]);
    (destruct (ensure_stat_spec vr) as ([] & vr' & E & Hu & Hs); mstep ltac:(exact E); cbn [negb]; rewrite Hs;
      [|by (eexists _, vr'; split; [done|split; [by apply agrees_go|done]])];
      destruct (c_op cond); try done; (eexists _, vr'; split; [done|split; [|done]]); apply agrees_go; cbn [int_holds];
      rewrite ?negb_true_iff; lia).
Qed.

Lemma eval_string_ok o cond lv vr s t : ready o cond lv -> c_rvalue cond = COND_VALUE_STRING s -> strings o !! s = Some t ->
  exists r vr', condition_check_eval_string o cond vr = Ok (r, vr') /\ agrees r (meaning o vr cond lv) /\ untouched vr vr'.
Proof.
  intros [(l & Hl & Hlv) [Ho Hm]] Hr Ht. unfold condition_check_eval_string, get_lvalue, meaning, rvalue_string, made in *.
  rewrite Hr in *. destruct Hm as [Hm _]. rewrite Hl. mstep ltac:(by apply read_ok).
  destruct (string_value_ok o lv vr Ho) as (vr' & E & Hu). mstep ltac:(exact E).
  destruct (left_text o vr lv) as [val|]; [|by eexists _, vr'].
  cbn [mbind option_bind]. rewrite Ht.
  destruct (c_op cond); try done; (mstep ltac:(by apply read_ok)); (eexists _, vr'; split; [done|split; [|done]]); apply agrees_go; cbn [text_holds];
    rewrite ?negb_true_iff, ?str_equal_spec, ?has_prefix_spec, ?has_suffix_spec;
    first [apply bool_decide_eq_true|apply bool_decide_eq_false].
Qed.

Lemma eval_regex_ok o cond lv vr r re : ready o cond lv -> c_rvalue cond = COND_VALUE_REGEXP r -> regexes o !! r = Some re -> have_pcre = true ->
  exists x vr', condition_check_eval_string o cond vr = Ok (x, vr') /\ agrees x (meaning o vr cond lv) /\ untouched vr vr'.
Proof.
  intros [(l & Hl & Hlv) [Ho Hm]] Hr Hre Hp. unfold condition_check_eval_string, get_lvalue, meaning, rvalue_regex, made in *.
  rewrite Hr in *. rewrite Hp. destruct Hm as [Hm _]. rewrite Hl. mstep ltac:(by apply read_ok).
  destruct (string_value_ok o lv vr Ho) as (vr' & E & Hu). mstep ltac:(exact E).
  destruct (left_text o vr lv) as [val|]; [|by eexists _, vr'].
  cbn [mbind option_bind]. rewrite Hre.
  destruct (c_op cond); try done; (mstep ltac:(by apply read_ok)); mstep ltac:(done); (eexists _, _; split; [done|split; [|done]]);
    apply agrees_go; cbn [regex_holds]; [done|]. by rewrite negb_true_iff, not_true_iff_false.
Qed.

Lemma eval_ip_ok o cond lv vr : ready o cond lv -> request_ok vr -> ip_op (c_op cond) = true ->
  exists r vr', condition_check_eval_ip o cond vr = Ok (r, vr') /\ untouched vr vr' /\
    agrees r (match left_addr o vr lv with Some None => Some (c_op cond = CONFIG_COND_NOTIP) | _ => None end).
Proof.
  intros [(l & Hl & Hlv) [Ho Hm]] Hq Hop. unfold condition_check_eval_ip, get_lvalue. rewrite Hl. mstep ltac:(by apply read_ok).
  destruct (ip_value_ok o lv vr Ho) as (vr' & E & Hu). mstep ltac:(exact E).
  destruct (left_addr o vr lv) as [[v|]|] eqn:Ea; [|eexists _, vr'; split; [done|split; [done|]]; apply agrees_go, bool_decide_eq_true|by eexists _, vr'].
  destruct (ip_in_net_spec v (c_rvalue cond)) as (b & Eb & _); [by eapply left_addr_ok|by eapply made_rvalue_ok|].
  assert (El : forall s : vrequest, lift (ip_in_net v (c_rvalue cond)) s = Ok (b, s)) by (intros s; unfold lift; by rewrite Eb).
  destruct (c_op cond); try done.
  - mstep ltac:(apply El). mstep ltac:(apply El). by eexists _, vr'.
  - mstep ltac:(apply El). by eexists _, vr'.
Qed.

Lemma condition_check_ok o cond lv vr res : ready o cond lv -> request_ok vr ->
  exists r vr', condition_check o cond res vr = Ok (r, vr') /\ agrees r (meaning o vr cond lv) /\ untouched vr vr'.
Proof.
  intros Hr Hq. pose proof Hr as (_ & _ & Hm). unfold condition_check. unfold made in Hm.
  destruct (c_rvalue cond) as [b|i|s|r|a m|a n] eqn:Ec.
  - by eapply eval_bool_ok.
  - by eapply eval_int_ok.
  - destruct Hm as [_ [t Ht]]. by eapply eval_string_ok.
  - destruct Hm as [_ [re Hre]]. destruct have_pcre eqn:Ep; [by eapply eval_regex_ok|].
    eexists _, vr. split; [done|]. split; [|apply untouched_refl]. unfold meaning. by rewrite Ec, Ep.
  - destruct (eval_ip_ok o cond lv vr Hr Hq ltac:(tauto)) as (r & vr' & E & Hu & Ha). exists r, vr'. split; [done|].
    unfold meaning. rewrite Ec. by split.
  - destruct (eval_ip_ok o cond lv vr Hr Hq ltac:(tauto)) as (r & vr' & E & Hu & Ha). exists r, vr'. split; [done|].
    unfold meaning. rewrite Ec. by split.
Qed.

Lemma condition_check_agrees o cond lv vr res : ready o cond lv -> request_ok vr ->
  exists r vr', condition_check o cond res vr = Ok (r, vr') /\ agrees r (meaning o vr cond lv).
Proof. intros Hr Hq. destruct (condition_check_ok o cond lv vr res Hr Hq) as (r & vr' & E & Ha & _). by exists r, vr'. Qed.

(** C37. Checking a condition that a constructor made returns for every request: the handler goes on
    exactly when the condition has a meaning for its left value, and the result is that meaning; the
    request changes at most in its file status, scratch text, regex stack and, if the file cannot be
    looked at, its answer.  (For a network the only meaning is that of an address that is absent; the
    meaning of a condition on a boolean is its left value, whatever its right value, as in the code.) *)
Theorem condition_check_meaning o cond lv vr res : ready o cond lv -> request_ok vr ->
  exists r vr', condition_check o cond res vr = Ok (r, vr') /\
    match meaning o vr cond lv with
    | None => r.1 = HANDLER_ERROR
    | Some P => r.1 = HANDLER_GO_ON /\ (r.2 = true <-> P)
    end /\ untouched vr vr'.
Proof. apply condition_check_ok. Qed.

Definition opposite (op : comp_operator_t) : comp_operator_t :=
  match op with
  | CONFIG_COND_EQ => CONFIG_COND_NE
  | CONFIG_COND_NE => CONFIG_COND_EQ
  | CONFIG_COND_PREFIX => CONFIG_COND_NOPREFIX
  | CONFIG_COND_NOPREFIX => CONFIG_COND_PREFIX
  | CONFIG_COND_SUFFIX => CONFIG_COND_NOSUFFIX
  | CONFIG_COND_NOSUFFIX => CONFIG_COND_SUFFIX
  | CONFIG_COND_MATCH => CONFIG_COND_NOMATCH
  | CONFIG_COND_NOMATCH => CONFIG_COND_MATCH
  | CONFIG_COND_IP => CONFIG_COND_NOTIP
  | CONFIG_COND_NOTIP => CONFIG_COND_IP
  | CONFIG_COND_GT => CONFIG_COND_LE
  | CONFIG_COND_LE => CONFIG_COND_GT
  | CONFIG_COND_GE => CONFIG_COND_LT
  | CONFIG_COND_LT => CONFIG_COND_GE
  end.

Definition negated (cond : condition) : condition :=
  MkCond (opposite (c_op cond)) (c_lvalue cond) (c_rvalue cond) (c_ref cond).

Lemma meaning_negated o vr cond lv P : (forall b, c_rvalue cond <> COND_VALUE_BOOL b) -> made o cond ->
  meaning o vr cond lv = Some P -> (forall i, c_rvalue cond = COND_VALUE_NUMBER i -> is_Some (statted vr)) ->
  exists Q, meaning o vr (negated cond) lv = Some Q /\ (Q <-> ~ P).
Proof.
  intros Hb Hm. unfold meaning, negated, made in *. cbn [c_rvalue c_op]. destruct (c_rvalue cond) as [b|i|s|r|a m|a n]; [by specialize (Hb b)|..].
  - intros HP Hs. specialize (Hs i eq_refl) as [p Hp]. rewrite Hp in *.
    destruct (lv_type lv); try done; injection HP as <-; (eexists; split; [done|]); destruct (c_op cond); cbn in *; done || lia.
  - destruct (left_text o vr lv); [|done]. destruct Hm as [Hm [t Ht]]. rewrite Ht. cbn. intros [= <-] _. eexists. split; [done|].
    destruct (c_op cond); cbn in *; try done; (split; [tauto|]); intros Hn; apply dec_stable; tauto.
  - destruct have_pcre; [|done]. destruct (left_text o vr lv); [|done]. destruct Hm as [Hm [t Ht]]. rewrite Ht. cbn. intros [= <-] _. eexists. split; [done|].
    destruct (c_op cond); cbn in *; try done; (split; [tauto|]); intros Hn; apply dec_stable; tauto.
  - destruct (left_addr o vr lv) as [[|]|]; try done. intros [= <-] _. eexists. split; [done|].
    destruct (c_op cond); cbn in *; try (by destruct Hm); by split.
  - destruct (left_addr o vr lv) as [[|]|]; try done. intros [= <-] _. eexists. split; [done|].
    destruct (c_op cond); cbn in *; try (by destruct Hm); by split.
Qed.

Lemma made_negated o cond : (forall b, c_rvalue cond <> COND_VALUE_BOOL b) -> made o cond -> made o (negated cond).
Proof.
  intros Hb. unfold made, negated. cbn [c_rvalue c_op]. destruct (c_rvalue cond) as [b| | | | |]; [by specialize (Hb b)|..];
    destruct (c_op cond); cbn; naive_solver.
Qed.

Lemma negated_negated cond : negated (negated cond) = cond.
Proof. destruct cond as [[] ? ? ?]; done. Qed.

Lemma ready_negated o cond lv : (forall b, c_rvalue cond <> COND_VALUE_BOOL b) -> ready o cond lv -> ready o (negated cond) lv.
Proof. intros Hb (Hl & Ho & Hm). split; [done|]. split; [done|]. by apply made_negated. Qed.

(** A condition and the one with the opposite operator ([==] and [!=], [=^] and its negation, [=~]
    and [!~], [<] and [>=], ...) get the same answer of the handler for the same request, and when it
    goes on the results are opposite. *)
Theorem condition_check_negation o cond lv vr res : ready o cond lv -> request_ok vr ->
  (forall b, c_rvalue cond <> COND_VALUE_BOOL b) ->
  (forall i, c_rvalue cond = COND_VALUE_NUMBER i -> is_Some (statted vr)) ->
  exists r r' vr1 vr2, condition_check o cond res vr = Ok (r, vr1) /\ condition_check o (negated cond) res vr = Ok (r', vr2) /\
    r'.1 = r.1 /\ (r.1 = HANDLER_GO_ON -> r'.2 = negb r.2).
Proof.
  intros Hr Hq Hb Hs. pose proof (ready_negated _ _ _ Hb Hr) as Hr'.
  destruct (condition_check_agrees o cond lv vr res Hr Hq) as (r & vr1 & E1 & M1).
  destruct (condition_check_agrees o (negated cond) lv vr res Hr' Hq) as (r' & vr2 & E2 & M2).
  exists r, r', vr1, vr2. split; [done|]. split; [done|]. unfold agrees in *. destruct Hr as (_ & _ & Hm). destruct Hr' as (_ & _ & Hm').
  destruct (meaning o vr cond lv) as [P|] eqn:EP.
  - destruct (meaning_negated o vr cond lv P Hb Hm EP Hs) as (Q & HQ & Hiff). rewrite HQ in M2.
    destruct M1 as [-> M1], M2 as [-> M2]. split; [done|]. intros _. destruct r.2, r'.2; simpl; naive_solver.
  - destruct (meaning o vr (negated cond) lv) as [Q|] eqn:EQ; [exfalso|by rewrite M1, M2].
    destruct (meaning_negated o vr (negated cond) lv Q) as (P & HP & _); [done..|]. rewrite negated_negated in HP. congruence.
Qed.

(** C20. [ip_in_net] decides membership without reading outside the addresses, for every pair of
    families: an IPv4 network is given by the bits of its mask, an IPv6 network by its first bits, and an
    IPv4 address stands for the IPv6 address that maps it, in both directions. *)
Theorem ip_in_net_decides target network : rv_ok target -> rv_ok network ->
  exists b, ip_in_net target network = Ok b /\
    (b = true <->
     match target, network with
     | COND_VALUE_SOCKET_IPV4 a _, COND_VALUE_SOCKET_IPV4 m mask => same_masked (addr4 mask) (addr4 a) (addr4 m)
     | COND_VALUE_SOCKET_IPV4 a _, COND_VALUE_SOCKET_IPV6 m n => same_prefix (Z.to_nat n) (mapped a) m
     | COND_VALUE_SOCKET_IPV6 a _, COND_VALUE_SOCKET_IPV4 m mask =>
         take 12 a = take 12 ipv6match /\ same_masked (addr4 mask) (drop 12 a) (addr4 m)
     | COND_VALUE_SOCKET_IPV6 a _, COND_VALUE_SOCKET_IPV6 m n => same_prefix (Z.to_nat n) a m
     | _, _ => False
     end).
Proof. apply ip_in_net_spec. Qed.

(** ** Names *)
Lemma str_app a b : str (a ++ b)%string = str a ++ str b.
Proof. unfold str. induction a as [|c a IH]; [done|]. exact (f_equal (cons _) IH). Qed.

Lemma str_drop_app a b : str_drop (String.length a) (a ++ b)%string = b.
Proof. induction a as [|c a IH]; cbn; [by destruct b|done]. Qed.

(** The names of left values are read back ([cond_lvalue_to_string], then
    [cond_lvalue_from_string]); and of the names behind ["request."] and ["physical."] the first one is
    taken that starts with the given text, however short. *)
Theorem lvalue_names :
  (forall t, t <> COMP_UNKNOWN ->
     cond_lvalue_from_string (cond_lvalue_to_string t) (Z.of_nat (String.length (cond_lvalue_to_string t))) = t) /\
  (forall s, Z.of_nat (String.length s) < 2 ^ 32 ->
     cond_lvalue_from_string ("request." ++ s)%string (8 + Z.of_nat (String.length s)) = first_name s request_names /\
     cond_lvalue_from_string ("physical." ++ s)%string (9 + Z.of_nat (String.length s)) = first_name s physical_names).
Proof.
  split.
  - intros t Ht. unfold cond_lvalue_from_string. rewrite has_prefix_spec. by destruct t.
  - intros s Hs. unfold cond_lvalue_from_string. rewrite !has_prefix_spec, !str_app. split.
    + rewrite bool_decide_eq_true_2 by (by apply prefix_app_r). change 8%nat with (String.length "request.").
      rewrite str_drop_app, Z.add_simpl_l, wrapu_small by lia. apply find_name_first.
    + rewrite bool_decide_eq_false_2 by (intros [l E]; done).
      assert (E : strncmp_eq ("physical." ++ s)%string "physical." 9 = true) by by destruct s. rewrite E.
      change 9%nat with (String.length "physical."). rewrite str_drop_app, Z.add_simpl_l, wrapu_small by lia. apply find_name_first.
Qed.

(** ** What goes wrong *)
(** No condition on a network is ever decided: if the left value has an address, the answer is
    [HANDLER_ERROR]. *)
Theorem ip_conditions_error o cond lv vr res v : ready o cond lv -> request_ok vr -> ip_op (c_op cond) = true ->
  left_addr o vr lv = Some (Some v) ->
  exists b vr', condition_check o cond res vr = Ok ((HANDLER_ERROR, b), vr').
Proof.
  intros Hr Hq Hop Hv. destruct (condition_check_agrees o cond lv vr res Hr Hq) as ([h b] & vr' & E & Ha).
  exists b, vr'. rewrite E. destruct Hr as (_ & _ & Hm). unfold agrees, meaning, made in *.
  destruct (c_rvalue cond); rewrite ?Hv in Ha; try (by cbn in Ha; subst h); exfalso.
  - by rewrite Hm in Hop.
  - by destruct (c_op cond).
  - by destruct (c_op cond), Hm.
  - by destruct (c_op cond), Hm.
Qed.

(** A condition on the length of the request compares the size of the file. *)
Theorem request_length_is_file_size o cond lv vr i p : c_rvalue cond = COND_VALUE_NUMBER i ->
  lv_type lv = COMP_REQUEST_CONTENT_LENGTH -> statted vr = Some p ->
  meaning o vr cond lv = Some (int_holds (c_op cond) (st_size p) i).
Proof. intros Hi Ht Hp. unfold meaning. by rewrite Hi, Ht, Hp. Qed.

(** Two operators have one name, and the empty text is a left value. *)
Example prefix_names_clash : comp_op_to_string CONFIG_COND_PREFIX = comp_op_to_string CONFIG_COND_NOPREFIX.
Proof. done. Qed.

Example empty_request_name : first_name EmptyString request_names = COMP_REQUEST_LOCALIP.
Proof. done. Qed.
End theorems.

(** ** Sessions *)
Section sessions.
Context `{LighttpdLaws}.

(** C21. After any session of legal calls of a client that uses only what it holds: the next legal
    call returns (no assertion on a count fails, nothing is used or given back after it was given
    back); every condition can be checked; and a client that holds nothing has leaked nothing.  The references held are fewer
    than an [int] can count ([has_room]). *)
Theorem condition_sessions cs o k : session cs no_objs no_refs o k ->
  (forall c, legal c k -> has_room o k -> exists r o', exec c o = Ok (r, o')) /\
  (forall c cond, conds o !! c = Some cond -> exists lv, ready o cond lv) /\
  (k = no_refs -> o = no_objs).
Proof.
  intros Hs. pose proof (session_sound _ _ _ _ _ Hs sound_start) as Hso. split_and!.
  - intros c Hl Hr. destruct (call_sound c o k Hso Hl Hr) as (r & o' & E & _). by exists r, o'.
  - intros c cond. by apply (sound_ready o k).
  - intros ->. by apply sound_end.
Qed.
End sessions.

(** ** A small server

    The parsers take a word of four bytes, and sixteen bytes with a length; the only expression is the
    one that every text matches. *)
Module Httpd.

Definition words (l : list Z) : option (Z * Z) :=
  match l with
  | [a; b; c; d] => Some (word false (map (fun x => x mod 256) l), 2 ^ 32 - 1)
  | [a; b; c; d; 47; n] => if (0 <=? n) && (n <=? 32) then
      Some (word false (map (fun x => x mod 256) [a; b; c; d]), word false [255; 255; 0; 0]) else None
  | _ => None
  end.

Definition bytes16 (l : list Z) : option (list Z * Z) :=
  if (length l =? 17)%nat then Some (map (fun x => x mod 256) (take 16 l), nth 16 l 0 mod 129) else None.

Instance httpd : Lighttpd := {|
  have_ipv6 := true; have_pcre := true; host_big := false;
  regex := unit; match_info := unit; headers := list Z;
  rv_zero := COND_VALUE_BOOL false;
  ascii_down s := map (fun c => if (65 <=? c) && (c <=? 90) then c + 32 else c) s;
  g_str_equal a b := bool_decide (a = b);
  g_str_has_prefix a p := bool_decide (p `prefix_of` a);
  g_str_has_suffix a p := bool_decide (p `suffix_of` a);
  g_regex_new p := if decide (p = []) then Some tt else None;
  g_regex_match _ _ := (true, tt);
  print_offset z := [z];
  http_header_get_fast h key := h;
  parse_ipv4 m l := words l;
  parse_ipv6 m l := bytes16 l;
  vrequest_stat p := (true, MkPhysical true (have_errno p) (stat_errno p) (st_isdir p) (st_isreg p) (st_size p) (phys_path p))
|}.

Lemma le_word_range l : Forall byte l -> 0 <= le_word l < 2 ^ (8 * Z.of_nat (length l)).
Proof.
  induction 1 as [|x l Hx Hl IH]; [done|]. cbn [le_word length].
  replace (8 * Z.of_nat (S (length l))) with (8 + 8 * Z.of_nat (length l)) by lia. rewrite Z.pow_add_r by lia.
  unfold byte in Hx. lia.
Qed.

Instance httpd_laws : LighttpdLaws.
Proof.
  assert (Hmod : forall l, Forall byte (map (fun x => x mod 256) l)).
  { intros l. apply List.Forall_forall. intros x (y & <- & _)%in_map_iff. by apply Z.mod_pos_bound. }
  split; try done.
  - assert (Hw : forall a b c d, is_word (word false (map (fun x => x mod 256) [a; b; c; d]))).
    { intros a b c d. exact (le_word_range _ (Hmod [a; b; c; d])). }
    intros m txt addr mask. cbn [parse_ipv4 httpd]. unfold words.
    repeat case_match; try done; intros [= <- <-]; (split; [apply Hw|by split]).
  - intros m txt addr n. cbn [parse_ipv6 httpd]. unfold bytes16. destruct (Nat.eqb_spec (length txt) 17) as [E|]; [|done].
    intros [= <- <-]. split; [by rewrite length_map, length_take, E|]. split; [apply Hmod|].
    pose proof (Z.mod_pos_bound (nth 16 txt 0) 129 ltac:(lia)). lia.
  - exists false, 0. by left.
  - intros p p' [= <-]. done.
Qed.

(** A condition on the host, [== "a"], and the request of ["a"]. *)
Definition host_lv : condition_lvalue := MkLvalue COMP_REQUEST_HOST None 1.
Definition host_is_a : condition := MkCond CONFIG_COND_EQ (Some 1%nat) (COND_VALUE_STRING 1%nat) 1.
Definition host_objs : objs := MkObjs {[1%nat := host_lv]} {[1%nat := host_is_a]} {[1%nat := [97]]} ∅.
Definition host_request : vrequest :=
  MkVr [] [] (AF_INET 1) AF_OTHER false [] [97] [] [] [] 5 (MkPhysical false false EOTHER false false 0 []) 200 0 [] [].

Lemma host_ready : ready host_objs host_is_a host_lv.
Proof. split; [by exists 1%nat|]. split; [done|]. split; [done|by exists [97]]. Qed.

Lemma host_request_ok : request_ok host_request.
Proof. by split. Qed.

Lemma condition_check_meaning_witness :
  exists r vr', condition_check host_objs host_is_a false host_request = Ok (r, vr') /\
    match meaning host_objs host_request host_is_a host_lv with
    | None => r.1 = HANDLER_ERROR
    | Some P => r.1 = HANDLER_GO_ON /\ (r.2 = true <-> P)
    end /\ untouched host_request vr'.
Proof. apply (condition_check_meaning host_objs host_is_a host_lv host_request false); [apply host_ready|apply host_request_ok]. Defined.

Lemma condition_check_negation_witness :
  exists r r' vr1 vr2, condition_check host_objs host_is_a false host_request = Ok (r, vr1) /\
    condition_check host_objs (negated host_is_a) false host_request = Ok (r', vr2) /\
    r'.1 = r.1 /\ (r.1 = HANDLER_GO_ON -> r'.2 = negb r.2).
Proof.
  apply (condition_check_negation host_objs host_is_a host_lv host_request false); [apply host_ready|apply host_request_ok|done|done].
Defined.

(** 10.1.2.3 in the IPv6 network of the first 112 bits of 10.1.7.7, mapped. *)
Definition net112 : condition_rvalue := COND_VALUE_SOCKET_IPV6 [0; 0; 0; 0; 0; 0; 0; 0; 0; 0; 255; 255; 10; 1; 7; 7] 112.

Lemma ip_in_net_decides_witness :
  rv_ok (COND_VALUE_SOCKET_IPV4 (word false [10; 1; 2; 3]) 0) /\ rv_ok net112 /\
  exists b, ip_in_net (COND_VALUE_SOCKET_IPV4 (word false [10; 1; 2; 3]) 0) net112 = Ok b /\
    (b = true <-> same_prefix (Z.to_nat 112) (mapped (word false [10; 1; 2; 3])) [0; 0; 0; 0; 0; 0; 0; 0; 0; 0; 255; 255; 10; 1; 7; 7]).
Proof.
  assert (H1 : rv_ok (COND_VALUE_SOCKET_IPV4 (word false [10; 1; 2; 3]) 0)) by (by repeat split).
  assert (H2 : rv_ok net112) by (split; [done|split; [repeat constructor; done|done]]).
  split; [done|]. split; [done|]. exact (ip_in_net_decides _ net112 H1 H2).
Defined.

Lemma lvalue_names_witness :
  cond_lvalue_from_string (cond_lvalue_to_string COMP_REQUEST_HEADER) 14 = COMP_REQUEST_HEADER.
Proof. exact (proj1 lvalue_names COMP_REQUEST_HEADER ltac:(done)). Defined.

(** A text, a left value, a condition of them, its release. *)
Definition a_session : list ccall :=
  [NewText [97]; NewLvalue COMP_REQUEST_HOST None; NewString CONFIG_COND_EQ 1 1; AcquireC 1; ReleaseC 1; ReleaseC 1].

Definition result (c : ccall) (o : objs) : option loc * objs :=
  match exec c o with Ok p => p | _ => (None, no_objs) end.

Lemma step_eq c o : match exec c o with Ok _ => True | _ => False end -> exec c o = Ok (result c o).
Proof. unfold result. by destruct (exec c o). Qed.

Lemma a_session_runs : exists o k, session a_session no_objs no_refs o k /\ k = no_refs /\ size (conds o) = 0%nat.
Proof.
  assert (Hs : forall c cs o k o' k', legal c k -> has_room o k -> match exec c o with Ok _ => True | _ => False end ->
    session cs (result c o).2 (after c (result c o).1 k) o' k' -> session (c :: cs) o k o' k').
  { intros c cs o k o' k' Hl Hr He Hrest. apply step_eq in He. destruct (result c o) as [r o1] eqn:E. by eapply session_cons. }
  eexists _, _. split; [|split].
  { unfold a_session. repeat (apply Hs; [|split; vm_compute; reflexivity|vm_compute; exact I|];
      [first [exact I|split; [intros ? [=]|done]|split; apply list_elem_of_here|apply list_elem_of_here]|]).
    apply session_nil. }
  { vm_compute. reflexivity. }
  vm_compute. reflexivity.
Qed.

Lemma condition_sessions_witness : exists o,
  session a_session no_objs no_refs o no_refs /\
  (forall c, legal c no_refs -> has_room o no_refs -> exists r o', exec c o = Ok (r, o')) /\
  (forall c cond, conds o !! c = Some cond -> exists lv, ready o cond lv) /\
  (no_refs = no_refs -> o = no_objs).
Proof.
  destruct a_session_runs as (o & k & Hs & -> & _). exists o. split; [exact Hs|]. exact (condition_sessions a_session o no_refs Hs).
Defined.

(** The two ways in which a constructor fails: with an expression that does not compile the client
    keeps its reference to the left value, with a network that does not parse it has lost it. *)
Definition failed (op : comp_operator_t) : res cfault (option loc * list loc) :=
  match (s ← exec (NewText [98]); l ← exec (NewLvalue COMP_REQUEST_HOST None); exec (NewString op 1 1)) no_objs with
  | Ok (r, o) => Ok (r, (map_to_list (lvalues o)).*1)
  | Err e => Err e
  | Timeout => Timeout
  end.

Example failed_match_keeps_lvalue : failed CONFIG_COND_MATCH = Ok (None, [1%nat]).
Proof. by vm_compute. Qed.

Example failed_ip_releases_lvalue : failed CONFIG_COND_IP = Ok (None, []).
Proof. by vm_compute. Qed.
End Httpd.
